(* ===== verification/_CoqProject ===== *)
-Q . S2P
Prelude.v
RefChain.v
Cred.v
UserNs.v
UserNsProofs.v
UidGid.v
PidNs.v
PidNsProofs.v
Namespace.v
NamespaceInv.v
NamespaceProofs.v
NamespaceSystem.v
NetContext.v
Pmm.v
PmmTree.v
PmmAlloc.v
PmmSeed.v
PmmScan.v
PmmCache.v
PmmOps.v
PmmSystem.v
PmmWorld.v
IpcNs.v
SysvSem.v
SysvSemProofs.v
SysvMsg.v
SysvMsgProofs.v
Mqueue.v
MqueueProofs.v
ResourceCaps.v
Shm.v
ShmProofs.v
IpcTeardown.v
Futex.v
FutexProofs.v
FileLock.v
FileLockProofs.v
Runqueue.v
RunqueueProofs.v
Pipe.v
PipeProofs.v
SockFilter.v
Seccomp.v
SeccompProofs.v
Landlock.v
LandlockProofs.v
Lz4.v
Lz4Proofs.v
