(* ===== verification/Prelude.v ===== *)
(** * A verification development for the B1NIX kernel

    The sources are the C files under [src/kernel/].  This library models the
    components below as executable functions over explicit states, translated
    from the sources line by line, and proves what makes each one correct.

    ** The program and what models it

    Each component has a file with its data and operations and, where the
    proofs are long, a second file [<Component>Proofs] with the theorems.

    - [SockFilter] ([net/sock_filter.c]): the verifier, loads and interpreter
      of classic BPF filters.
    - [Lz4], [Lz4Proofs] ([lib/lz4.c]): the block codec that zswap and zram use.
    - [Cred] ([include/b1nix/uidgid.h]): the credential record the next three share.
    - [UserNs], [UserNsProofs] ([sched/user_namespace.c], parts of
      [sched/namespace.c]): user namespaces, id maps, relative capabilities.
    - [UidGid] ([sched/uidgid.c], the prctl cases of [syscall/syscall.c] on
      credentials): the user and group tables, set*id, execve's capability rules,
      capset, securebits, the bounding and ambient sets, the mode-bit access check.
    - [PidNs], [PidNsProofs] ([sched/pid_namespace.c]): the numbers of tasks in
      each PID namespace, their translation, init and orphans.
    - [Namespace] ([sched/namespace.c]): the tables of the eight kinds with their
      counts and owners, membership, clone, unshare, setns, namespace files, host
      names, time offsets; user and PID namespaces in it are [UserNs] and [PidNs].
      [NamespaceInv] counts references, [NamespaceProofs] has each critical section
      keep the count, [NamespaceSystem] the tasks, files and reaper that run them.
    - [NetContext] (the receive contexts of [sched/namespace.c]): the network
      namespace a delivery runs in.
    - [Pmm] ([mm/pmm.c], queries of [mm/numa.c]): the manager of physical frames,
      that is the bitmap, the buddy lists threaded through free frames, the scans,
      reference counts, the buckets of each CPU and page-table claims.  [PmmTree]
      has the invariant of the lists, [PmmAlloc], [PmmSeed] and [PmmScan] the three
      ways to take frames, [PmmCache] the buckets, [PmmOps] the operations under the
      ownership of frames, [PmmSystem] the switch to the direct map, and [PmmWorld]
      any run of operations on all CPUs, with the theorems.
    - [IpcNs] ([ipc/ipc_ns.c]): the permission rule of IPC objects; it asks
      [UserNs] for capabilities over the namespace that owns an object.
    - [SysvSem], [SysvMsg], [Shm], [Mqueue] with their proofs ([ipc/sysv_sem.c],
      [ipc/sysv_msg.c], [ipc/shm.c], [ipc/mqueue.c] and the node and handle
      references of [fs/vfs.c]): the four kinds of IPC object, each in the
      namespace of its creator and under the rule of [IpcNs].
    - [IpcTeardown] ([ipc_ns_destroy]): the four of them at the end of a namespace.
    - [ResourceCaps] ([syscall/resource_caps.c], writers in [fs/proc/procfs.c]):
      the sizes of the tables that an administrator may tune.
    - [Futex], [FutexProofs] ([sched/futex.c], the sleep steps of
      [sched/scheduler.c]): keys, WAIT, WAKE, REQUEUE, waits on several words, the
      rescue of the waiter dump, the cleanup of dead tasks.  The system of the
      proofs interleaves all of them, a bucket at a time where the code takes one
      bucket lock at a time; its executions end where one walks into a freed waiter.
    - [FileLock], [FileLockProofs] ([fs/filelock.c]): POSIX, open-file-description
      and flock locks.
    - [Runqueue], [RunqueueProofs] ([sched/runqueue.c], predicates of
      [sched/scheduler.c]): the linked run queues and work stealing.
    - [Pipe], [PipeProofs] ([fs/pipe.c]): pipes, FIFOs, tee, poll and the pool.
    - [RefChain]: counted objects linked to older ones, which the next two share.
    - [Seccomp], [SeccompProofs] ([sched/seccomp.c]): system call filters of a
      task, their inheritance and their verdict.
    - [Landlock], [LandlockProofs] ([fs/landlock.c], [vfs_get_node_path]): file
      system sandboxes; they ask [UserNs] for the right to restrict without
      no_new_privs.

    ** How the code is translated

    A C integer is a [Z], with the wrap of its type ([u8] .. [i64]) wherever an
    operation can leave its range.  Signed overflow is a [Fault] in [Lz4]; in the
    few other places where a sum or a negation can overflow its signed type
    ([undo_fold], [cleanup_loop], [alu], [seccomp_alu]) the definition gives the
    wrapped value of the compiled code and says so.  A table with a
    compile-time size is a list; [zget] and [zalter] index it, and components
    whose code indexes unchecked memory use lookups that can miss, the miss
    being [Fault] (or [Wild] in [SockFilter]).  A pointer is an index or an
    address in a heap component of the state.  A [panic] or failed assertion of
    the kernel is [Panic] of the monad [res].  An errno is returned negated.

    A function that holds one lock throughout is one function here; one that
    drops its lock is split into its critical sections, and the proofs files
    interleave those sections in a transition system ([step]), whose reachable
    states are [rtc step boot].  What code outside the sources or hardware
    answers (user memory, the heap, page table entries, the clock, signals) is
    an argument; what a function asks of other components without needing an
    answer (wake-ups, unmappings, freed frames) is part of its result.  A
    blocking call takes the list of what it meets around each of its sleeps.

    ** What the theorems show

    - Memory safety of parsers and codecs: a filter the verifier accepts stays
      inside its program, scratch words and packet and returns; both LZ4
      functions stay in their buffers, for sizes up to some eight megabytes (the
      callers pass pages).
    - Equivalence and refinement: the filter interpreter against a semantics
      over decoded instructions; LZ4 against its block format, with the round
      trip; lock table operations against a map from bytes to owners; run queue
      pointer operations against lists, with the queue that an enqueue cuts when
      the task is on another; a pipe against a byte queue, over its whole life
      with other pipes, tees and closings around it; receive
      contexts against a stack per task; a message
      queue against selection by type, and a POSIX one against a stable
      priority queue.
    - Invariants over every interleaving: reference counts of namespaces of all
      kinds, nodes, handles, frames and pipe ends match who holds them; undo ledgers and
      message counts are exact; no assertion of the kernel is reachable.  Locks
      exclude each other whatever requests made them, malformed ones included.
      Where a race of user threads breaks an invariant ([shmdt] of a null address
      during an attach) the steps exclude it and a lemma shows the damage.
    - Frames: a run of allocations and frees that respects ownership panics exactly
      in four cases (a reference too many, the free of a page table or of a secret,
      a marker left in a freed page), a frame is never handed out twice nor with old contents, no frame in use is
      written, the counts are exact, buddies are merged, and a block is refused
      exactly when no aligned free run of its size is left.
    - Privilege: ids and capabilities of an unprivileged process cannot grow, short
      of executing a set-id file, and with the one way a dropped capability comes
      back shown; id maps can be written only as the rules allow, namespaces are isolated;
      a task stays in its PID namespace and is numbered there and above, outwards as far as the table has entries, and
      nowhere else; installing a filter fails with the first reason that applies;
      what a filter or a sandbox refuses a task stays refused while it lives, and
      a sandbox allows exactly what all its layers grant above the file.
    - Liveness and termination: a futex wake-up is not lost under a fair
      scheduler, but for the waiters a requeue beyond its eighth forgets; a requeue
      returns; namespace teardown completes.
    - Bounds: the output of the compressor, the tunable caps, timeouts, and the
      exact set of message lengths for which a send overruns its allocation.

    Where the code does not do what it means to, the theorem states what it does
    and the failing case is a lemma with a concrete state.

    ** Fuel

    Loops that are not structural carry fuel.  LZ4: the length of the input
    plus one, since every iteration consumes a byte; spending it is [Panic],
    which the theorems exclude.  Filters: the program's length, since jumps
    only go forward.  Chains of filters and layers: the number of objects,
    since each is older than the one before.  Releases of user namespaces: 34,
    of others 40, more than the nesting limit of 32, which also bounds the
    walks up a tree; walks of the chains of numbers: the size of their table.
    Run queues: the length check of the code itself.  Futex wakes: the length
    of the bucket plus one; requeues: the theorem [futex_requeue_returns]
    gives the bound.  Merges and searches of the buddy lists: the orders left; a
    scan: its window plus one, a rebuilding: the frames plus one, since each round
    goes up by a frame; the order that covers a count: 64, the width of the count;
    drains: the counts of the buckets.  Blocking loops: one round per element of the list of
    sleeps.

    ** Not modelled

    Processor and device state, drivers and their shims, memory management above
    frames, the start of the frame manager and its reclaim rounds, the network
    stack beyond socket filters, file systems and most of the virtual file system,
    the eBPF machine, the system call layer that copies arguments and dispatches,
    tracing and power management.  Locks are modelled by the
    atomicity of the sections they protect, not as memory.  Messages printed to
    the console, and checks enabled by debugging flags that only print, are
    left out.

    ** This file

    Machine integers, errno values, the failure monad, tables, the tactics and
    the lemmas that the components share. *)
From Stdlib Require Export ZArith Lia Bool.
From stdpp Require Export strings prelude list gmap numbers.

#[global] Open Scope Z_scope.

(** ** Machine integers

    A C integer is a [Z]; an operation that can leave the range of its type is
    followed by the wrap of that type, as C does for unsigned types. *)

Abbreviation U8_MOD := 256 (only parsing).
Abbreviation U16_MOD := 65536 (only parsing).
Abbreviation U32_MOD := 4294967296 (only parsing).
Abbreviation U64_MOD := 18446744073709551616 (only parsing).

Definition u8 (z : Z) : Z := z mod U8_MOD.
Definition u16 (z : Z) : Z := z mod U16_MOD.
Definition u32 (z : Z) : Z := z mod U32_MOD.
Definition u64 (z : Z) : Z := z mod U64_MOD.
(** Two's complement reinterpretation to a signed 32-bit [int]. *)
Definition i32 (z : Z) : Z := (z + 2147483648) mod U32_MOD - 2147483648.
Definition i64 (z : Z) : Z := (z + 9223372036854775808) mod U64_MOD - 9223372036854775808.

(** [x] is a value of the [n]-valued unsigned type. *)
Definition in_range (n x : Z) : Prop := 0 <= x < n.

Lemma u32_range z : 0 <= u32 z < U32_MOD.
Proof. apply Z.mod_pos_bound. lia. Qed.
Lemma u64_range z : 0 <= u64 z < U64_MOD.
Proof. apply Z.mod_pos_bound. lia. Qed.
Lemma u16_range z : 0 <= u16 z < U16_MOD.
Proof. apply Z.mod_pos_bound. lia. Qed.
Lemma u32_small z : 0 <= z < U32_MOD -> u32 z = z.
Proof. apply Z.mod_small. Qed.
Lemma u64_small z : 0 <= z < U64_MOD -> u64 z = z.
Proof. apply Z.mod_small. Qed.
Lemma i32_id z : -2147483648 <= z < 2147483648 -> i32 z = z.
Proof. intros H. unfold i32. rewrite Z.mod_small by (change U32_MOD with 4294967296; lia). lia. Qed.

Lemma u16_small z : 0 <= z < U16_MOD -> u16 z = z.
Proof. apply Z.mod_small. Qed.

(** ** Errno values (include/b1nix/errno.h) *)
Definition EPERM := 1.
Definition ENOENT := 2.
Definition ESRCH := 3.
Definition EINTR := 4.
Definition EIO := 5.
Definition ENXIO := 6.
Definition E2BIG := 7.
Definition EBADF := 9.
Definition EAGAIN := 11.
Definition ENOMEM := 12.
Definition EACCES := 13.
Definition EFAULT := 14.
Definition EBUSY := 16.
Definition EEXIST := 17.
Definition EINVAL := 22.
Definition ENFILE := 23.
Definition EMFILE := 24.
Definition ENOTTY := 25.
Definition EFBIG := 27.
Definition ENOSPC := 28.
Definition EPIPE := 32.
Definition ERANGE := 34.
Definition ENAMETOOLONG := 36.
Definition ENOSYS := 38.
Definition ENOMSG := 42.
Definition EIDRM := 43.
Definition EUSERS := 87.
Definition EMSGSIZE := 90.
Definition ETIMEDOUT := 110.
Definition ERESTARTSYS := 512.
Definition ERESTARTNOHAND := 514.

(** ** Notation of the development *)
Declare Scope kernel_scope.
Delimit Scope kernel_scope with kernel.
#[global] Open Scope kernel_scope.

(** [x & m] used as a C condition. *)
Notation "x &? m" := (negb (Z.eqb (Z.land x m) 0)) (at level 45, no associativity) : kernel_scope.
(** C's [!=] and the flipped comparisons. *)
Notation "x <>? y" := (negb (Z.eqb x y)) (at level 70, no associativity) : kernel_scope.

(** ** Failure: a kernel panic (also a failed KASSERT), or a wild dereference *)

Inductive res (A : Type) := Ok (a : A) | Panic (why : string) | Fault.
Arguments Ok {A} _.
Arguments Panic {A} _%_string.
Arguments Fault {A}.

Definition rbind {A B} (x : res A) (f : A -> res B) : res B :=
  match x with Ok a => f a | Panic w => Panic w | Fault => Fault end.
Notation "'let*' x := m 'in' k" := (rbind m (fun x => k))
  (at level 10, x name, m at level 100, k at level 200) : kernel_scope.
Notation "'let*' ' p := m 'in' k" := (rbind m (fun y => match y with p => k end))
  (at level 10, p strict pattern, m at level 100, k at level 200) : kernel_scope.
(** [KASSERT] *)
Definition kassert {A} (b : bool) (why : string) (k : res A) : res A := if b then k else Panic why.

(** ** Tables: arrays of slots searched in index order *)

(** The [for (i = 0; i < N; i++) if (p(tab[i])) ...; break] idiom. *)
Fixpoint first_index {A} (p : A -> bool) (l : list A) : option nat :=
  match l with
  | [] => None
  | x :: l' => if p x then Some 0%nat else S <$> first_index p l'
  end.

Definition count_if {A} (p : A -> bool) (l : list A) : nat :=
  length (List.filter p l).

(** [tab[z]] for an index held in a C integer. *)
Definition zget {A} `{Inhabited A} (l : list A) (z : Z) : A := l !!! Z.to_nat z.
Definition zalter {A} (f : A -> A) (z : Z) (l : list A) : list A :=
  alter f (Z.to_nat z) l.

(** ** Proof automation *)
Create HintDb kern discriminated.
#[export] Hint Resolve u32_range u64_range u16_range : kern.

(** Case analysis on the innermost [if] or [match] of the goal. *)
Ltac break_goal :=
  match goal with
  | |- context [match ?x with _ => _ end] =>
      lazymatch x with context [match _ with _ => _ end] => fail | _ => destruct x eqn:? end
  end.
Ltac break_hyp H :=
  match type of H with
  | context [match ?x with _ => _ end] =>
      lazymatch x with context [match _ with _ => _ end] => fail | _ => destruct x eqn:? end
  end.

(** Turn boolean tests in the context into propositions. *)
Ltac bools :=
  repeat match goal with
  | H : andb _ _ = true |- _ => apply andb_true_iff in H; destruct H
  | H : orb _ _ = false |- _ => apply orb_false_iff in H; destruct H
  | H : negb _ = true |- _ => apply negb_true_iff in H
  | H : negb _ = false |- _ => apply negb_false_iff in H
  | H : Z.eqb _ _ = true |- _ => apply Z.eqb_eq in H
  | H : Z.eqb _ _ = false |- _ => apply Z.eqb_neq in H
  | H : Z.ltb _ _ = true |- _ => apply Z.ltb_lt in H
  | H : Z.ltb _ _ = false |- _ => apply Z.ltb_ge in H
  | H : Z.leb _ _ = true |- _ => apply Z.leb_le in H
  | H : Z.leb _ _ = false |- _ => apply Z.leb_gt in H
  | H : bool_decide _ = true |- _ => apply bool_decide_eq_true in H
  | H : bool_decide _ = false |- _ => apply bool_decide_eq_false in H
  end.

(** [Forall P l] on a concrete list, down to linear arithmetic. *)
Ltac forall_lia :=
  repeat match goal with
  | |- Forall _ [] => apply List.Forall_nil
  | |- Forall _ (_ :: _) => apply List.Forall_cons
  end; cbn; unfold in_range;
  repeat match goal with |- _ /\ _ => split end; try lia.

(** ** Generic lemmas *)

Lemma rtc_invariant {A} (R : relation A) (P : A -> Prop) :
  (forall x y, R x y -> P x -> P y) -> forall x y, rtc R x y -> P x -> P y.
Proof. intros H x y. induction 1; eauto. Qed.

Lemma rbind_inv {A B} (m : res A) (f : A -> res B) y : rbind m f = Ok y -> exists x, m = Ok x /\ f x = Ok y.
Proof. destruct m as [x| |]; [by exists x|done|done]. Qed.

Lemma first_index_Some {A} (p : A -> bool) l i :
  first_index p l = Some i ->
  exists x, l !! i = Some x /\ p x = true /\
    forall j y, (j < i)%nat -> l !! j = Some y -> p y = false.
Proof.
  revert i; induction l as [|a l IH]; intros i H; simpl in H; [done|].
  destruct (p a) eqn:Ha.
  - injection H as <-. exists a. split_and!; [done..|]. intros; lia.
  - apply fmap_Some in H as (k & Hk & ->).
    destruct (IH _ Hk) as (x & Hx & Hp & Hmin). exists x. split_and!; [done..|].
    intros [|j] y Hj Hy; simpl in Hy; [congruence|]. eapply (Hmin j); [lia|done].
Qed.

Lemma first_index_None {A} (p : A -> bool) l :
  first_index p l = None <-> forall i x, l !! i = Some x -> p x = false.
Proof.
  induction l as [|a l IH]; simpl; [split; [intros _ i x; by rewrite lookup_nil|done]|].
  destruct (p a) eqn:Ha; split.
  - done.
  - intros H. specialize (H 0%nat a eq_refl). congruence.
  - rewrite fmap_None, IH. intros H [|i] x Hx; simpl in Hx; [congruence|eauto].
  - intros H. rewrite fmap_None, IH. intros i x Hx. by apply (H (S i)).
Qed.

Lemma first_index_intro {A} (p : A -> bool) l i x :
  l !! i = Some x -> p x = true -> (forall j y, (j < i)%nat -> l !! j = Some y -> p y = false) ->
  first_index p l = Some i.
Proof.
  revert i. induction l as [|a l IH]; intros i Hi Hx Hmin; [by rewrite lookup_nil in Hi|]. destruct i as [|i]; simpl in *.
  - injection Hi as ->. by rewrite Hx.
  - rewrite (Hmin 0%nat a) by (lia || done). rewrite (IH i); [done..|]. intros j y Hj Hy. apply (Hmin (S j)); [lia|done].
Qed.
Lemma first_index_lt {A} (p : A -> bool) l i :
  first_index p l = Some i -> (i < length l)%nat.
Proof. intros (x & Hx & _)%first_index_Some. by apply lookup_lt_Some in Hx. Qed.

Lemma first_index_is_Some {A} (p : A -> bool) l i x :
  l !! i = Some x -> p x = true -> is_Some (first_index p l).
Proof.
  intros Hi Hp. destruct (first_index p l) eqn:E; [eauto|].
  rewrite first_index_None in E. specialize (E _ _ Hi). congruence.
Qed.

Lemma count_if_app {A} (p : A -> bool) l k :
  count_if p (l ++ k) = (count_if p l + count_if p k)%nat.
Proof. unfold count_if. by rewrite List.filter_app, length_app. Qed.

Lemma count_if_cons {A} (p : A -> bool) x l :
  count_if p (x :: l) = ((if p x then 1 else 0) + count_if p l)%nat.
Proof. unfold count_if; simpl. by destruct (p x). Qed.

Lemma count_if_first {A} (p : A -> bool) l :
  (0 < count_if p l)%nat <-> is_Some (first_index p l).
Proof.
  induction l as [|a l IH]; simpl.
  - split; [unfold count_if; simpl; lia|intros [? ?]; done].
  - rewrite count_if_cons. destruct (p a); simpl.
    + split; [eauto|lia].
    + by rewrite IH, fmap_is_Some.
Qed.

Lemma count_if_insert {A} (p : A -> bool) l i x y :
  l !! i = Some x ->
  (count_if p (<[i:=y]> l) + (if p x then 1 else 0)
   = count_if p l + (if p y then 1 else 0))%nat.
Proof.
  revert i; induction l as [|a l IH]; intros [|i] H; simpl in H; try done.
  - injection H as ->. simpl. rewrite !count_if_cons. lia.
  - simpl. rewrite !count_if_cons. specialize (IH _ H). lia.
Qed.

(** Counting in a table of tables. *)
Lemma count_concat_insert {A B} (q : B -> bool) (f : A -> list B) l i x y :
  l !! i = Some x ->
  (count_if q (concat (f <$> <[i:=y]> l)) + count_if q (f x)
   = count_if q (concat (f <$> l)) + count_if q (f y))%nat.
Proof.
  revert i. induction l as [|a l IH]; intros [|i] H; simpl in H; try done.
  - injection H as ->. cbn [insert list_insert]. rewrite !fmap_cons. cbn [concat]. rewrite !count_if_app. lia.
  - change (<[S i:=y]> (a :: l)) with (a :: <[i:=y]> l). rewrite !fmap_cons. cbn [concat]. rewrite !count_if_app.
    specialize (IH _ H). lia.
Qed.

Lemma alter_as_insert {A} (f : A -> A) (l : list A) i x : l !! i = Some x -> alter f i l = <[i := f x]> l.
Proof.
  intros H. apply list_eq. intros k. destruct (decide (k = i)) as [->|Hk].
  - rewrite list_lookup_alter_eq, H, list_lookup_insert_eq by (by eapply lookup_lt_Some). done.
  - by rewrite list_lookup_alter_ne, list_lookup_insert_ne by done.
Qed.

Lemma alter_alter {A} (f g : A -> A) i (l : list A) : alter f i (alter g i l) = alter (fun x => f (g x)) i l.
Proof. revert i. induction l as [|a l IH]; intros [|i]; cbn; [done..|]. f_equal. apply IH. Qed.

Lemma length_zalter {A} (f : A -> A) z l : length (zalter f z l) = length l.
Proof. apply length_alter. Qed.

Lemma zget_zalter_eq {A} `{Inhabited A} (f : A -> A) i l :
  0 <= i < Z.of_nat (length l) -> zget (zalter f i l) i = f (zget l i).
Proof.
  intros Hi. unfold zget, zalter. rewrite !list_lookup_total_alt, list_lookup_alter_eq.
  destruct (lookup_lt_is_Some_2 l (Z.to_nat i)) as [x ->]; [lia|done].
Qed.

Lemma zget_zalter_ne {A} `{Inhabited A} (f : A -> A) i j l :
  0 <= i -> 0 <= j -> i <> j -> zget (zalter f i l) j = zget l j.
Proof.
  intros ???. unfold zget, zalter. rewrite !list_lookup_total_alt, list_lookup_alter_ne; [done|lia].
Qed.

Lemma zget_lookup {A} `{Inhabited A} (l : list A) i :
  0 <= i < Z.of_nat (length l) -> l !! Z.to_nat i = Some (zget l i).
Proof. intros Hi. unfold zget. apply list_lookup_lookup_total_lt. lia. Qed.

Lemma zget_default {A} `{Inhabited A} (l : list A) i :
  Z.of_nat (length l) <= i -> zget l i = inhabitant.
Proof. intros Hi. unfold zget. rewrite list_lookup_total_alt, lookup_ge_None_2; [done|lia]. Qed.

Lemma zalter_insert {A} `{Inhabited A} (f : A -> A) i l :
  0 <= i < Z.of_nat (length l) -> zalter f i l = <[Z.to_nat i := f (zget l i)]> l.
Proof.
  intros Hi. unfold zalter. rewrite list_insert_alter. apply list_alter_ext; [|done].
  intros x Hx. rewrite (zget_lookup l i Hi) in Hx. by injection Hx as <-.
Qed.

Lemma count_if_zalter {A} `{Inhabited A} (p : A -> bool) (f : A -> A) i l :
  0 <= i < Z.of_nat (length l) ->
  (count_if p (zalter f i l) + (if p (zget l i) then 1 else 0)
   = count_if p l + (if p (f (zget l i)) then 1 else 0))%nat.
Proof. intros Hi. rewrite zalter_insert by done. apply count_if_insert, zget_lookup, Hi. Qed.

Lemma count_le {A} (p : A -> bool) l : Z.of_nat (count_if p l) <= Z.of_nat (length l).
Proof. unfold count_if. pose proof (List.filter_length_le p l). lia. Qed.

Lemma count_if_zero {A} (p : A -> bool) l :
  (forall x, x ∈ l -> p x = false) -> count_if p l = 0%nat.
Proof.
  induction l as [|a l IH]; intros H; [done|]. rewrite count_if_cons, H by left.
  apply IH. intros x Hx. apply H. by right.
Qed.

Lemma elem_of_zget {A} `{Inhabited A} (l : list A) x :
  x ∈ l -> exists i, 0 <= i < Z.of_nat (length l) /\ zget l i = x.
Proof.
  intros (i & Hi)%list_elem_of_lookup. exists (Z.of_nat i). pose proof (lookup_lt_Some _ _ _ Hi).
  split; [lia|]. unfold zget. rewrite Nat2Z.id. by apply list_lookup_total_correct.
Qed.

(** ** Bits *)

Lemma lor_nocarry a b : Z.land a b = 0 -> Z.lor a b = a + b.
Proof. intros H. rewrite <- Z.lxor_lor by done. by rewrite Z.add_nocarry_lxor. Qed.

(** Filling the low [n] bits below a shifted value. *)
Lemma lor_add x b n : 0 <= n -> 0 <= b < 2 ^ n -> Z.lor (Z.shiftl x n) b = x * 2 ^ n + b.
Proof.
  intros Hn Hb. rewrite lor_nocarry.
  - by rewrite Z.shiftl_mul_pow2.
  - apply Z.bits_inj'. intros i Hi. rewrite Z.land_spec, Z.bits_0.
    destruct (Z.ltb_spec i n).
    + rewrite Z.shiftl_spec_low by lia. done.
    + rewrite (proj1 (Z.bounded_iff_bits_nonneg n b ltac:(lia) ltac:(lia))) by lia.
      apply andb_false_r.
Qed.

Lemma bits_bound (f : Z -> Z -> Z) n a b :
  0 <= n -> (forall x y i, Z.testbit x i = false -> Z.testbit y i = false -> 0 <= i ->
     Z.testbit (f x y) i = false) ->
  0 <= f a b -> 0 <= a < 2 ^ n -> 0 <= b < 2 ^ n -> 0 <= f a b < 2 ^ n.
Proof.
  intros Hn Hf H0 Ha Hb. split; [done|].
  apply Z.bounded_iff_bits_nonneg; [done..|]. intros l Hl.
  apply Hf; [| |lia].
  - apply (proj1 (Z.bounded_iff_bits_nonneg n a ltac:(lia) ltac:(lia))); lia.
  - apply (proj1 (Z.bounded_iff_bits_nonneg n b ltac:(lia) ltac:(lia))); lia.
Qed.

Lemma lor_bound n a b : 0 <= n -> 0 <= a < 2 ^ n -> 0 <= b < 2 ^ n -> 0 <= Z.lor a b < 2 ^ n.
Proof.
  intros. apply bits_bound; try done; [|apply Z.lor_nonneg; lia].
  intros x y i Hx Hy _. by rewrite Z.lor_spec, Hx, Hy.
Qed.
Lemma land_bound n a b : 0 <= n -> 0 <= a < 2 ^ n -> 0 <= b < 2 ^ n -> 0 <= Z.land a b < 2 ^ n.
Proof.
  intros. apply bits_bound; try done; [|apply Z.land_nonneg; lia].
  intros x y i Hx Hy _. by rewrite Z.land_spec, Hx.
Qed.
Lemma lxor_bound n a b : 0 <= n -> 0 <= a < 2 ^ n -> 0 <= b < 2 ^ n -> 0 <= Z.lxor a b < 2 ^ n.
Proof.
  intros. apply bits_bound; try done; [|apply Z.lxor_nonneg; lia].
  intros x y i Hx Hy _. by rewrite Z.lxor_spec, Hx, Hy.
Qed.

(** The C idiom [off + n > len || off + n < off] on [u32] decides [off + n <= len]. *)
Lemma wrap_check off n len :
  0 <= off < U32_MOD -> 0 <= n < U32_MOD -> 0 <= len < U32_MOD ->
  (len <? u32 (off + n)) || (u32 (off + n) <? off) = negb (off + n <=? len).
Proof.
  intros Ho Hn Hl. unfold u32.
  destruct (Z.leb_spec (off + n) len) as [H|H]; simpl.
  - rewrite Z.mod_small by lia. apply orb_false_iff. split; lia.
  - destruct (Z.ltb_spec (off + n) U32_MOD).
    + rewrite Z.mod_small by lia. apply orb_true_iff. left; lia.
    + rewrite <- (Z.mod_unique (off + n) U32_MOD 1 (off + n - U32_MOD)) by lia.
      apply orb_true_iff. right; lia.
Qed.

Lemma land_single_bit a i : 0 <= i ->
  Z.land a (Z.shiftl 1 i) = if Z.testbit a i then Z.shiftl 1 i else 0.
Proof.
  intros Hi. apply Z.bits_inj'. intros n Hn. rewrite Z.land_spec, Z.shiftl_1_l.
  destruct (Z.testbit a i) eqn:Ea; rewrite ?Z.bits_0, ?Z.pow2_bits_eqb by done;
    destruct (Z.eqb_spec i n) as [->|]; rewrite ?Ea, ?andb_false_r; done.
Qed.
