(* ===== verification/RefChain.v ===== *)
(** Chains of counted objects.

    Several components keep immutable objects that link to an older one (the
    filters of a task, the layers of a restriction), count the references to
    each, and free an object with its last reference, giving up the link it had.
    An object is an entry of a pool; [held] lists the references held by
    anything but a link, in any order.  [chain_ok] says that counts are exact;
    the lemmas are what taking, giving up and moving references does to it. *)
From Stdlib Require Import ZifyBool.
From S2P Require Import Prelude.
From stdpp Require Import list.
Local Open Scope Z_scope.
Local Open Scope kernel_scope.

Module RefChain.

Record node (A : Type) := mkNode { data : A; link : option nat; refcount : Z; live : bool }.
Arguments mkNode {A}.
Arguments data {A}.
Arguments link {A}.
Arguments refcount {A}.
Arguments live {A}.
#[global] Instance node_inhabited {A} `{Inhabited A} : Inhabited (node A) := populate (mkNode inhabitant None 0 false).

Section chain.
Context {A : Type} `{Inhabited A}.
Implicit Types (pool : list (node A)) (held : list nat).

Definition add_ref (d : Z) (x : node A) : node A := mkNode (data x) (link x) (refcount x + d) (live x).
Definition kill (x : node A) : node A := mkNode (data x) (link x) (refcount x) false.
(** A reference more to an object, or less: what is left. *)
Definition get_ref (f : nat) pool : res (list (node A)) :=
  if live (pool !!! f) then Ok (alter (add_ref 1) f pool) else Fault.
Definition put_ref (f : nat) pool : res (Z * list (node A)) :=
  if live (pool !!! f) then Ok (refcount (pool !!! f) - 1, alter (add_ref (-1)) f pool) else Fault.
Definition free (f : nat) pool : list (node A) := alter kill f pool.

(** ** The invariant *)

Definition occurs (f : nat) held : nat := count_if (fun g => bool_decide (g = f)) held.
Definition links_to (f : nat) (x : node A) : bool := live x && bool_decide (link x = Some f).
Definition refs pool held (f : nat) : nat := (occurs f held + count_if (links_to f) pool)%nat.
Definition ordered pool : Prop := forall (f : nat) x p, pool !! f = Some x -> link x = Some p -> (p < f)%nat.
Definition below (n : nat) (f : option nat) : Prop := match f with Some i => (i < n)%nat | None => True end.
Definition opt (f : option nat) : list nat := match f with Some i => [i] | None => [] end.
Record chain_ok pool held : Prop := {
  c_refs : forall f, if live (pool !!! f) then refcount (pool !!! f) = Z.of_nat (refs pool held f) /\ (0 < refs pool held f)%nat
    else refs pool held f = 0%nat;
  c_order : ordered pool }.

Lemma live_lookup pool f : live (pool !!! f) = true -> pool !! f = Some (pool !!! f).
Proof. rewrite list_lookup_total_alt. by destruct (pool !! f). Qed.
Lemma chain_live_lt pool f : live (pool !!! f) = true -> (f < length pool)%nat.
Proof. intros L%live_lookup. by apply lookup_lt_Some in L. Qed.
Lemma total_alter pool g f i : (i < length pool)%nat -> alter g i pool !!! f = if bool_decide (f = i) then g (pool !!! i) else pool !!! f.
Proof.
  intros L. rewrite !list_lookup_total_alt. case_bool_decide as E; [subst i|by rewrite list_lookup_alter_ne].
  rewrite list_lookup_alter, decide_True by done. by destruct (lookup_lt_is_Some_2 _ _ L) as [x ->].
Qed.
Lemma occurs_app f l k : occurs f (l ++ k) = (occurs f l + occurs f k)%nat.
Proof. unfold occurs. by rewrite count_if_app. Qed.
Lemma occurs_cons f g l : occurs f (g :: l) = ((if bool_decide (g = f) then 1 else 0) + occurs f l)%nat.
Proof. unfold occurs. by rewrite count_if_cons. Qed.
Lemma occurs_pos f l : f ∈ l -> (0 < occurs f l)%nat.
Proof. intros (a & b & ->)%list_elem_of_split. rewrite occurs_app, occurs_cons, bool_decide_eq_true_2 by done. lia. Qed.
#[global] Instance occurs_proper f : Proper ((≡ₚ) ==> (=)) (occurs f).
Proof. induction 1 as [|g l k _ IH|g h l|]; [done|by rewrite !occurs_cons, IH|rewrite !occurs_cons; lia|congruence]. Qed.
#[global] Instance chain_ok_proper pool : Proper ((≡ₚ) ==> iff) (chain_ok pool).
Proof.
  assert (S : forall l k, l ≡ₚ k -> chain_ok pool l -> chain_ok pool k).
  { intros l k P [R O]. constructor; [|done]. intros f. specialize (R f). unfold refs in *. by rewrite (occurs_proper f _ _ P) in R. }
  intros l k P. split; by apply S.
Qed.

Lemma ordered_alter pool g f : ordered pool -> (forall z, link (g z) = link z) -> ordered (alter g f pool).
Proof.
  intros O Hg i x p Hx Hp. destruct (decide (i = f)) as [->|N]; [|rewrite list_lookup_alter_ne in Hx by done; by eapply O].
  rewrite list_lookup_alter, decide_True in Hx by done. destruct (pool !! f) as [z|] eqn:E; [|done].
  injection Hx as <-. rewrite Hg in Hp. by eapply O.
Qed.
Lemma links_alter pool g f i : (i < length pool)%nat ->
  (count_if (links_to f) (alter g i pool) + (if links_to f (pool !!! i) then 1 else 0)
   = count_if (links_to f) pool + (if links_to f (g (pool !!! i)) then 1 else 0))%nat.
Proof.
  intros L. destruct (lookup_lt_is_Some_2 _ _ L) as [x E]. rewrite (alter_as_insert _ _ _ _ E).
  rewrite (list_lookup_total_correct _ _ _ E). by apply count_if_insert.
Qed.

(** ** Consequences *)

Section facts.
Context pool held (K : chain_ok pool held).
Lemma chain_held_live f : f ∈ held -> live (pool !!! f) = true.
Proof using K. intros F%occurs_pos. pose proof (c_refs _ _ K f) as R. unfold refs in R. destruct (live _); [done|lia]. Qed.
Lemma link_live f p : live (pool !!! f) = true -> link (pool !!! f) = Some p -> live (pool !!! p) = true /\ (p < f)%nat.
Proof using K.
  intros L E. pose proof (live_lookup _ _ L) as F. split; [|by eapply (c_order _ _ K)].
  pose proof (c_refs _ _ K p) as R. unfold refs in R. destruct (live (pool !!! p)); [done|].
  assert (0 < count_if (links_to p) pool)%nat; [|lia]. apply count_if_first, (first_index_is_Some _ _ f _ F).
  unfold links_to. by rewrite L, E, bool_decide_eq_true_2.
Qed.
Lemma fresh_refs f : (length pool <= f)%nat -> refs pool held f = 0%nat.
Proof using K. intros L. pose proof (c_refs _ _ K f) as R. destruct (live _) eqn:E; [apply chain_live_lt in E; lia|done]. Qed.
End facts.

(** ** Taking and giving up references *)

Lemma chain_get_ok pool held f : chain_ok pool held -> live (pool !!! f) = true ->
  exists pool', get_ref f pool = Ok pool' /\ chain_ok pool' (f :: held).
Proof.
  intros K L. unfold get_ref. rewrite L. eexists. split; [reflexivity|]. pose proof (chain_live_lt _ _ L) as Lt.
  constructor; [|by apply ordered_alter; [apply K|]]. intros g. pose proof (c_refs _ _ K g) as R. rewrite total_alter by done.
  unfold refs in *. rewrite occurs_cons. pose proof (links_alter pool (add_ref 1) g f Lt) as C. change (links_to g (add_ref 1 ?x)) with (links_to g x) in C.
  case_bool_decide as E; [subst g|]; rewrite ?bool_decide_eq_true_2, ?(bool_decide_eq_false_2 (f = g)) by congruence.
  - rewrite L in R. cbn [add_ref live refcount]. rewrite L. lia.
  - destruct (live (pool !!! g)); lia.
Qed.
(** A new object takes over the reference it links with. *)
Lemma chain_push_ok pool held (prev : option nat) (x : A) : chain_ok pool (opt prev ++ held) ->
  chain_ok (pool ++ [mkNode x prev 1 true]) (length pool :: held).
Proof.
  intros K. set (n := length pool). constructor.
  - intros f. unfold refs. rewrite occurs_cons, count_if_app, count_if_cons. change (count_if (links_to f) []) with 0%nat.
    unfold links_to at 2 4 6. cbn [live link andb]. pose proof (c_refs _ _ K f) as R. unfold refs in R. rewrite occurs_app in R.
    assert (O : occurs f (opt prev) = if bool_decide (prev = Some f) then 1%nat else 0%nat).
    { destruct prev as [p|]; [|done]. cbn [opt]. rewrite occurs_cons. change (occurs f []) with 0%nat.
      rewrite (bool_decide_ext (p = f) (Some p = Some f)) by (split; congruence). lia. }
    rewrite O in R. rewrite list_lookup_total_alt. destruct (decide (f < n)%nat) as [Hf|Hf].
    + rewrite lookup_app_l, <- list_lookup_total_alt by done. rewrite (bool_decide_eq_false_2 (n = f)) by lia.
      destruct (bool_decide (prev = Some f)), (live (pool !!! f)); lia.
    + pose proof (fresh_refs _ _ K f ltac:(fold n; lia)) as Z. unfold refs in Z. rewrite occurs_app, O in Z. rewrite lookup_app_r by (fold n; lia). fold n.
      destruct (decide (f = n)) as [->|N]; [rewrite Nat.sub_diag; cbn; rewrite bool_decide_eq_true_2 by done; lia|].
      rewrite lookup_ge_None_2 by (cbn; lia). cbn. rewrite (bool_decide_eq_false_2 (n = f)) by done. lia.
  - intros f y p Hy Hp. apply lookup_app_Some in Hy as [Hy|[Hge Hy]]; [by eapply (c_order _ _ K)|].
    apply list_lookup_singleton_Some in Hy as [Hf <-]. cbn in Hp. subst prev.
    assert (live (pool !!! p) = true) as L by (apply (chain_held_live _ _ K); cbn; left). apply chain_live_lt in L. lia.
Qed.
(** The last reference frees the object, and its link is what is left to give up. *)
Lemma chain_put_ok pool held f : chain_ok pool (f :: held) ->
  exists left pool', put_ref f pool = Ok (left, pool') /\ 0 <= left /\
    (left <> 0 -> chain_ok pool' held) /\ (left = 0 -> chain_ok (free f pool') (opt (link (pool !!! f)) ++ held)).
Proof.
  intros K. pose proof (chain_held_live _ _ K f ltac:(left)) as L. pose proof (chain_live_lt _ _ L) as Lt. unfold put_ref. rewrite L. do 2 eexists.
  split; [reflexivity|]. pose proof (c_refs _ _ K f) as Rf. rewrite L in Rf. split_and!; [lia| |].
  - intros Hz. constructor; [|by apply ordered_alter; [apply K|]]. intros g. pose proof (c_refs _ _ K g) as R. rewrite total_alter by done.
    unfold refs in *. rewrite occurs_cons in *. pose proof (links_alter pool (add_ref (-1)) g f Lt) as C. change (links_to g (add_ref (-1) ?x)) with (links_to g x) in C.
    destruct (bool_decide_reflect (g = f)) as [E|E]; [subst g|]; rewrite ?bool_decide_eq_true_2, ?(bool_decide_eq_false_2 (f = g)) in * by congruence.
    + cbn [add_ref live refcount]. rewrite L in *. lia.
    + destruct (live (pool !!! g)); lia.
  - intros Hz. unfold free. rewrite alter_alter. constructor; [|by apply ordered_alter; [apply K|]].
    intros g. pose proof (c_refs _ _ K g) as R. rewrite total_alter by done. unfold refs in *. rewrite occurs_cons, occurs_app in *.
    pose proof (links_alter pool (fun z => kill (add_ref (-1) z)) g f Lt) as C. unfold links_to at 2 4 in C. rewrite L in C. cbn [kill live andb] in C.
    assert (O : occurs g (opt (link (pool !!! f))) = if bool_decide (link (pool !!! f) = Some g) then 1%nat else 0%nat).
    { destruct (link (pool !!! f)) as [p|]; [|done]. cbn [opt]. rewrite occurs_cons. change (occurs g []) with 0%nat.
      rewrite (bool_decide_ext (p = g) (Some p = Some g)) by (split; congruence). lia. }
    rewrite O. destruct (bool_decide_reflect (g = f)) as [E|E]; [subst g; cbn [kill live]|].
    + rewrite L in R. rewrite bool_decide_eq_true_2 in Rf by done. 
      assert (Q : bool_decide (link (pool !!! f) = Some f) = false); [|rewrite Q in *; lia].
      apply bool_decide_eq_false. intros Q. destruct (link_live _ _ K _ _ L Q). lia.
    + rewrite (bool_decide_eq_false_2 (f = g)) in R by congruence. destruct (bool_decide (link (pool !!! f) = Some g)), (live (pool !!! g)); lia.
Qed.

(** ** Tables of references *)

(** The references in a table with a slot for each holder. *)
Definition held_by (t : list (option nat)) : list nat := omap id t.
Lemma held_by_insert t i old new : t !! i = Some old -> held_by t ++ opt new ≡ₚ held_by (<[i:=new]> t) ++ opt old.
Proof.
  intros E. rewrite <- (take_drop_middle t i old E) at 1. rewrite (insert_take_drop _ _ _ (lookup_lt_Some _ _ _ E)).
  unfold held_by. rewrite !omap_app. cbn [omap list_omap]. destruct old as [x|], new as [y|]; cbn; solve_Permutation.
Qed.
Lemma held_by_lookup t i f : t !! i = Some (Some f) -> f ∈ held_by t.
Proof. intros E. unfold held_by. apply list_elem_of_omap. exists (Some f). split; [by eapply list_elem_of_lookup_2|done]. Qed.

(** ** The objects along a chain *)

Fixpoint along (fuel : nat) pool (f : option nat) : list A :=
  match f, fuel with
  | Some i, S fuel => data (pool !!! i) :: along fuel pool (link (pool !!! i))
  | _, _ => []
  end.
Definition chain_of pool (f : option nat) : list A := along (length pool) pool f.
(** Operations change counts and add objects; chains stay as they are. *)
Definition extends pool pool' : Prop :=
  (length pool <= length pool')%nat /\
  forall i, (i < length pool)%nat -> data (pool' !!! i) = data (pool !!! i) /\ link (pool' !!! i) = link (pool !!! i).
Lemma extends_refl pool : extends pool pool.
Proof. done. Qed.
Lemma extends_trans a b c : extends a b -> extends b c -> extends a c.
Proof. intros [L1 E1] [L2 E2]. split; [lia|]. intros i Hi. destruct (E1 i Hi) as [<- <-]. apply E2. lia. Qed.
Lemma extends_alter pool g f : (forall z, data (g z) = data z /\ link (g z) = link z) -> extends pool (alter g f pool).
Proof.
  intros Hg. split; [by rewrite length_alter|]. intros i Hi. destruct (decide (f < length pool)%nat) as [Hf|Hf].
  - rewrite total_alter by done. case_bool_decide; subst; [apply Hg|done].
  - rewrite !list_lookup_total_alt, list_lookup_alter_ne by lia. done.
Qed.
Lemma extends_app pool x : extends pool (pool ++ [x]).
Proof. split; [rewrite length_app; lia|]. intros i Hi. by rewrite !list_lookup_total_alt, lookup_app_l. Qed.

Lemma ordered_total pool f : ordered pool -> (f < length pool)%nat -> below f (link (pool !!! f)).
Proof.
  intros O Hf. destruct (lookup_lt_is_Some_2 _ _ Hf) as [x E]. rewrite list_lookup_total_alt, E. cbn.
  destruct (link x) as [p|] eqn:P; cbn; [by eapply O|done].
Qed.
Lemma along_extends pool pool' fuel : forall fuel' n f, ordered pool -> extends pool pool' -> below n f -> (n <= length pool)%nat ->
  (n <= fuel)%nat -> (n <= fuel')%nat -> along fuel' pool' f = along fuel pool f.
Proof.
  induction fuel as [|fuel IH]; intros fuel' n f O X B Hn H1 H2.
  - destruct f as [i|]; [cbn in B; lia|by destruct fuel'].
  - destruct f as [i|]; [|by destruct fuel']. cbn in B. destruct fuel' as [|fuel']; [lia|]. cbn [along].
    destruct (proj2 X i) as [-> ->]; [lia|]. f_equal. apply (IH fuel' i); [done|done|apply ordered_total; [done|lia]|lia..].
Qed.
Lemma chain_of_extends pool pool' f : ordered pool -> extends pool pool' -> below (length pool) f -> chain_of pool' f = chain_of pool f.
Proof. intros O X B. apply (along_extends _ _ _ _ (length pool)); [done..|lia|lia|apply X]. Qed.
Lemma chain_of_push pool x prev c l : ordered pool -> below (length pool) prev ->
  chain_of (pool ++ [mkNode x prev c l]) (Some (length pool)) = x :: chain_of pool prev.
Proof.
  intros O B. unfold chain_of at 1. rewrite length_app, Nat.add_comm. cbn [length Nat.add along].
  rewrite (list_lookup_total_correct _ _ (mkNode x prev c l)) by (by rewrite lookup_app_r, Nat.sub_diag). cbn [data link]. f_equal.
  apply (along_extends _ _ _ _ (length pool)); [done|apply extends_app|done|lia..].
Qed.
End chain.
End RefChain.
