(* ===== verification/Cred.v ===== *)
(** * Credentials (src/kernel/include/b1nix/uidgid.h)

    [struct cred] with its capability sets as bit masks, the capability and
    securebits numbers, and the field updates the operations on credentials use. *)
From S2P Require Import Prelude.

Module Cred.

(** [struct cred]. *)
Record cred := mkCred {
  uid : Z;
  euid : Z;
  suid : Z;
  gid : Z;
  egid : Z;
  sgid : Z;
  groups : list Z;
  ngroups : Z;
  umask : Z;
  fsuid : Z;
  fsgid : Z;
  cap_effective : Z;
  cap_permitted : Z;
  cap_inheritable : Z;
  cap_bounding : Z;
  cap_ambient : Z;
  securebits : Z;
  user_ns : Z
}.

Definition ROOT_UID := 0.
Definition ROOT_GID := 0.
Definition MAX_GROUPS := 32.

Definition CAP_CHOWN := 0.
Definition CAP_DAC_OVERRIDE := 1.
Definition CAP_DAC_READ_SEARCH := 2.
Definition CAP_FOWNER := 3.
Definition CAP_FSETID := 4.
Definition CAP_SETGID := 6.
Definition CAP_SETUID := 7.
Definition CAP_SETPCAP := 8.
Definition CAP_LINUX_IMMUTABLE := 9.
Definition CAP_IPC_OWNER := 15.
Definition CAP_SYS_ADMIN := 21.
Definition CAP_SYS_RESOURCE := 24.
Definition CAP_MKNOD := 27.
Definition CAP_SETFCAP := 31.
Definition CAP_MAC_OVERRIDE := 32.
Definition CAP_LAST := 40.
(** [(1ULL << (CAP_LAST + 1)) - 1] *)
Definition CAP_FULL_SET : Z := 2199023255551.
(** The bit of a capability in a set. *)
Definition cap_bit (cap : Z) : Z := Z.shiftl 1 cap.

Definition SECURE_NOROOT := 0.
Definition SECURE_NO_SETUID_FIXUP := 2.
Definition SECURE_KEEP_CAPS := 4.
Definition SECURE_NO_CAP_AMBIENT_RAISE := 6.
Definition SECBIT (n : Z) : Z := Z.shiftl 1 n.
Definition SECURE_ALL_BITS : Z :=
  Z.lor (Z.lor (Z.lor (SECBIT SECURE_NOROOT) (SECBIT SECURE_NO_SETUID_FIXUP))
               (SECBIT SECURE_KEEP_CAPS)) (SECBIT SECURE_NO_CAP_AMBIENT_RAISE).
Definition SECURE_ALL_LOCKS : Z := Z.shiftl SECURE_ALL_BITS 1.

(** Field assignment. *)
Definition set_uid (v : Z) (c : cred) : cred :=
  mkCred v (euid c) (suid c) (gid c) (egid c) (sgid c) (groups c) (ngroups c) (umask c) (fsuid c) (fsgid c) (cap_effective c) (cap_permitted c) (cap_inheritable c) (cap_bounding c) (cap_ambient c) (securebits c) (user_ns c).
Definition set_euid (v : Z) (c : cred) : cred :=
  mkCred (uid c) v (suid c) (gid c) (egid c) (sgid c) (groups c) (ngroups c) (umask c) (fsuid c) (fsgid c) (cap_effective c) (cap_permitted c) (cap_inheritable c) (cap_bounding c) (cap_ambient c) (securebits c) (user_ns c).
Definition set_suid (v : Z) (c : cred) : cred :=
  mkCred (uid c) (euid c) v (gid c) (egid c) (sgid c) (groups c) (ngroups c) (umask c) (fsuid c) (fsgid c) (cap_effective c) (cap_permitted c) (cap_inheritable c) (cap_bounding c) (cap_ambient c) (securebits c) (user_ns c).
Definition set_gid (v : Z) (c : cred) : cred :=
  mkCred (uid c) (euid c) (suid c) v (egid c) (sgid c) (groups c) (ngroups c) (umask c) (fsuid c) (fsgid c) (cap_effective c) (cap_permitted c) (cap_inheritable c) (cap_bounding c) (cap_ambient c) (securebits c) (user_ns c).
Definition set_egid (v : Z) (c : cred) : cred :=
  mkCred (uid c) (euid c) (suid c) (gid c) v (sgid c) (groups c) (ngroups c) (umask c) (fsuid c) (fsgid c) (cap_effective c) (cap_permitted c) (cap_inheritable c) (cap_bounding c) (cap_ambient c) (securebits c) (user_ns c).
Definition set_sgid (v : Z) (c : cred) : cred :=
  mkCred (uid c) (euid c) (suid c) (gid c) (egid c) v (groups c) (ngroups c) (umask c) (fsuid c) (fsgid c) (cap_effective c) (cap_permitted c) (cap_inheritable c) (cap_bounding c) (cap_ambient c) (securebits c) (user_ns c).
Definition set_fsuid (v : Z) (c : cred) : cred :=
  mkCred (uid c) (euid c) (suid c) (gid c) (egid c) (sgid c) (groups c) (ngroups c) (umask c) v (fsgid c) (cap_effective c) (cap_permitted c) (cap_inheritable c) (cap_bounding c) (cap_ambient c) (securebits c) (user_ns c).
Definition set_fsgid (v : Z) (c : cred) : cred :=
  mkCred (uid c) (euid c) (suid c) (gid c) (egid c) (sgid c) (groups c) (ngroups c) (umask c) (fsuid c) v (cap_effective c) (cap_permitted c) (cap_inheritable c) (cap_bounding c) (cap_ambient c) (securebits c) (user_ns c).
Definition set_cap_effective (v : Z) (c : cred) : cred :=
  mkCred (uid c) (euid c) (suid c) (gid c) (egid c) (sgid c) (groups c) (ngroups c) (umask c) (fsuid c) (fsgid c) v (cap_permitted c) (cap_inheritable c) (cap_bounding c) (cap_ambient c) (securebits c) (user_ns c).
Definition set_cap_permitted (v : Z) (c : cred) : cred :=
  mkCred (uid c) (euid c) (suid c) (gid c) (egid c) (sgid c) (groups c) (ngroups c) (umask c) (fsuid c) (fsgid c) (cap_effective c) v (cap_inheritable c) (cap_bounding c) (cap_ambient c) (securebits c) (user_ns c).
Definition set_cap_inheritable (v : Z) (c : cred) : cred :=
  mkCred (uid c) (euid c) (suid c) (gid c) (egid c) (sgid c) (groups c) (ngroups c) (umask c) (fsuid c) (fsgid c) (cap_effective c) (cap_permitted c) v (cap_bounding c) (cap_ambient c) (securebits c) (user_ns c).
Definition set_cap_bounding (v : Z) (c : cred) : cred :=
  mkCred (uid c) (euid c) (suid c) (gid c) (egid c) (sgid c) (groups c) (ngroups c) (umask c) (fsuid c) (fsgid c) (cap_effective c) (cap_permitted c) (cap_inheritable c) v (cap_ambient c) (securebits c) (user_ns c).
Definition set_cap_ambient (v : Z) (c : cred) : cred :=
  mkCred (uid c) (euid c) (suid c) (gid c) (egid c) (sgid c) (groups c) (ngroups c) (umask c) (fsuid c) (fsgid c) (cap_effective c) (cap_permitted c) (cap_inheritable c) (cap_bounding c) v (securebits c) (user_ns c).
Definition set_securebits (v : Z) (c : cred) : cred :=
  mkCred (uid c) (euid c) (suid c) (gid c) (egid c) (sgid c) (groups c) (ngroups c) (umask c) (fsuid c) (fsgid c) (cap_effective c) (cap_permitted c) (cap_inheritable c) (cap_bounding c) (cap_ambient c) v (user_ns c).
Definition set_user_ns (v : Z) (c : cred) : cred :=
  mkCred (uid c) (euid c) (suid c) (gid c) (egid c) (sgid c) (groups c) (ngroups c) (umask c) (fsuid c) (fsgid c) (cap_effective c) (cap_permitted c) (cap_inheritable c) (cap_bounding c) (cap_ambient c) (securebits c) v.

#[global] Instance cred_inhabited : Inhabited cred := populate (mkCred 0 0 0 0 0 0 [] 0 0 0 0 0 0 0 0 0 0 0).

(** ** Bit sets: inclusion, and how it follows from the code's masks *)

Definition cap_subset (a b : Z) : Prop := forall i, 0 <= i -> Z.testbit a i = true -> Z.testbit b i = true.

#[global] Instance cap_subset_preorder : PreOrder cap_subset.
Proof. split; [by intros a i|]. intros a b c Hab Hbc i Hi Ha. eauto. Qed.

Lemma cap_subset_0 a : cap_subset 0 a.
Proof. intros i Hi. by rewrite Z.bits_0. Qed.
Lemma cap_subset_mask a b : Z.land a (Z.lnot b) = 0 <-> cap_subset a b.
Proof.
  split.
  - intros H i Hi Ha. assert (Hb := f_equal (fun z => Z.testbit z i) H). cbv beta in Hb.
    rewrite Z.land_spec, Z.lnot_spec, Z.bits_0, Ha in Hb by done. by destruct (Z.testbit b i).
  - intros H. apply Z.bits_inj'. intros i Hi. rewrite Z.land_spec, Z.lnot_spec, Z.bits_0 by done.
    destruct (Z.testbit a i) eqn:Ha; [|done]. by rewrite (H i Hi Ha).
Qed.
Lemma cap_subset_land_l a b c : cap_subset a c -> cap_subset (Z.land a b) c.
Proof. intros H i Hi. rewrite Z.land_spec. intros [Ha _]%andb_true_iff. auto. Qed.
Lemma cap_subset_land_r a b c : cap_subset b c -> cap_subset (Z.land a b) c.
Proof. rewrite Z.land_comm. apply cap_subset_land_l. Qed.
Lemma cap_subset_land a b c : cap_subset a b -> cap_subset a c -> cap_subset a (Z.land b c).
Proof. intros Hb Hc i Hi Ha. rewrite Z.land_spec. by rewrite Hb, Hc. Qed.
Lemma cap_subset_lor a b c : cap_subset a c -> cap_subset b c -> cap_subset (Z.lor a b) c.
Proof. intros Ha Hb i Hi. rewrite Z.lor_spec. intros [?|?]%orb_true_iff; auto. Qed.
Lemma cap_subset_lor_l a b c : cap_subset a b -> cap_subset a (Z.lor b c).
Proof. intros H i Hi Ha. rewrite Z.lor_spec, H; auto. Qed.
Lemma cap_subset_lor_r a b c : cap_subset a c -> cap_subset a (Z.lor b c).
Proof. rewrite Z.lor_comm. apply cap_subset_lor_l. Qed.

Create HintDb caps.
#[export] Hint Resolve cap_subset_0 cap_subset_land_l cap_subset_land_r cap_subset_land
  cap_subset_lor : caps.
#[export] Hint Extern 0 (cap_subset ?a ?a) => reflexivity : caps.

End Cred.
