(* ===== verification/UserNs.v ===== *)
(** * User namespaces (src/kernel/sched/user_namespace.c, namespace.c)

    Id maps and their translation, namespace-relative capabilities, the life of
    a user namespace (creation, references, release) and the one-time writes to
    [/proc/<pid>/uid_map], [gid_map], [projid_map] and [setgroups].  The state is
    the table [userns[]] with the user rows of the reference-count table
    [ns_slots[NS_USER]]. *)
From S2P Require Import Prelude Cred.
Import Cred.

Module UserNs.

Definition NS_MAX_USER := 64.
Definition NS_MAX_LEVEL := 32.
Definition USERNS_MAP_EXTENTS := 64.
Definition UID_INVALID := 4294967295.
Definition GID_INVALID := 4294967295.
Definition UID_OVERFLOW := 65534.
Definition GID_OVERFLOW := 65534.
Definition USERNS_UID_MAP := 0.
Definition USERNS_GID_MAP := 1.
Definition USERNS_PROJID_MAP := 2.

(** [struct id_extent]; a [struct id_map] is the list of its [nr] extents. *)
Record id_extent := Ext { first : Z; lower : Z; count : Z }.
Abbreviation id_map := (list id_extent).

(** [struct userns_data]. *)
Record userns_data := mkUserns {
  parent : Z;
  level : Z;
  owner_kuid : Z;
  owner_kgid : Z;
  uid_map : id_map;
  gid_map : id_map;
  projid_map : id_map;
  setgroups_allowed : bool;
  parent_could_setfcap : bool
}.
Definition userns_zero : userns_data := mkUserns 0 0 0 0 [] [] [] false false.
#[global] Instance userns_inhabited : Inhabited userns_data := populate userns_zero.

(** [map[which]] of a namespace. *)
Definition get_map (which : Z) (u : userns_data) : id_map :=
  if which =? USERNS_UID_MAP then uid_map u
  else if which =? USERNS_GID_MAP then gid_map u else projid_map u.
Definition set_map (which : Z) (m : id_map) (u : userns_data) : userns_data :=
  mkUserns (parent u) (level u) (owner_kuid u) (owner_kgid u)
    (if which =? USERNS_UID_MAP then m else uid_map u)
    (if which =? USERNS_UID_MAP then gid_map u
     else if which =? USERNS_GID_MAP then m else gid_map u)
    (if (which =? USERNS_UID_MAP) || (which =? USERNS_GID_MAP) then projid_map u else m)
    (setgroups_allowed u) (parent_could_setfcap u).
Definition set_setgroups (b : bool) (u : userns_data) : userns_data :=
  mkUserns (parent u) (level u) (owner_kuid u) (owner_kgid u) (uid_map u) (gid_map u)
    (projid_map u) b (parent_could_setfcap u).

(** [struct ns_slot]. *)
Record ns_slot := mkSlot {
  used : bool; zombie : Z; entered : bool; refs : Z; owner : Z; inum : Z }.
#[global] Instance ns_slot_inhabited : Inhabited ns_slot := populate (mkSlot false 0 false 0 0 0).

(** The user-namespace tables: [userns[]], [userns_ready], [ns_slots[NS_USER]],
    [ns_ready], [ns_next_inum] and [ns_any]. *)
Record ns_state := mkNs {
  userns : list userns_data;
  userns_ready : bool;
  slots : list ns_slot;
  ns_ready : bool;
  ns_next_inum : Z;
  ns_any : bool
}.
Definition set_userns (t : list userns_data) (s : ns_state) : ns_state :=
  mkNs t (userns_ready s) (slots s) (ns_ready s) (ns_next_inum s) (ns_any s).
Definition set_slots (t : list ns_slot) (s : ns_state) : ns_state :=
  mkNs (userns s) (userns_ready s) t (ns_ready s) (ns_next_inum s) (ns_any s).

(** The tables as the linker leaves them. *)
Definition ns_boot : ns_state :=
  mkNs (replicate 64 userns_zero) false (replicate 64 (mkSlot false 0 false 0 0 0)) false
    4026531842 false.

(** [userns[ns]] *)
Definition uns (s : ns_state) (ns : Z) : userns_data := zget (userns s) ns.
Definition slot (s : ns_state) (id : Z) : ns_slot := zget (slots s) id.

Definition full_map : id_map := [Ext 0 0 4294967295].

Definition userns_ensure_init (s : ns_state) : ns_state :=
  if userns_ready s then s
  else
    mkNs (zalter (fun u => mkUserns (parent u) (level u) (owner_kuid u) (owner_kgid u)
                    full_map full_map full_map true true) 0 (userns s))
      true (slots s) (ns_ready s) (ns_next_inum s) (ns_any s).

Definition cred_userns (c : option cred) : Z := match c with Some c => user_ns c | None => 0 end.

Definition userns_level_locked (s : ns_state) (ns : Z) : Z :=
  if ns <? NS_MAX_USER then level (uns s ns) else 0.
Definition userns_parent_locked (s : ns_state) (ns : Z) : Z :=
  if ns <? NS_MAX_USER then parent (uns s ns) else 0.
Definition userns_owner_kuid (s : ns_state) (ns : Z) : Z :=
  if (ns <>? 0) && (ns <? NS_MAX_USER) then owner_kuid (uns s ns) else 0.

(** ** Translation *)

Fixpoint map_down_loop (m : id_map) (id cnt : Z) : Z :=
  match m with
  | [] => UID_INVALID
  | e :: m' =>
      let last := u32 (id + cnt - 1) in
      if last <? id then UID_INVALID
      else if (first e <=? id) && (u32 (last - first e) <? count e)
      then u32 (lower e + (id - first e))
      else map_down_loop m' id cnt
  end.
Definition map_down (m : id_map) (id cnt : Z) : Z :=
  if id =? UID_INVALID then UID_INVALID else map_down_loop m id cnt.

Fixpoint map_up_loop (m : id_map) (kid : Z) : Z :=
  match m with
  | [] => UID_INVALID
  | e :: m' =>
      if (lower e <=? kid) && (u32 (kid - lower e) <? count e)
      then u32 (first e + (kid - lower e))
      else map_up_loop m' kid
  end.
Definition map_up (m : id_map) (kid : Z) : Z :=
  if kid =? UID_INVALID then UID_INVALID else map_up_loop m kid.

Definition make_kuid (s : ns_state) (ns uid : Z) : Z :=
  if (ns =? 0) || (NS_MAX_USER <=? ns) then uid
  else map_down (get_map USERNS_UID_MAP (uns s ns)) uid 1.
Definition make_kgid (s : ns_state) (ns gid : Z) : Z :=
  if (ns =? 0) || (NS_MAX_USER <=? ns) then gid
  else map_down (get_map USERNS_GID_MAP (uns s ns)) gid 1.
Definition from_kuid (s : ns_state) (ns kuid : Z) : Z :=
  if (ns =? 0) || (NS_MAX_USER <=? ns) then kuid
  else map_up (get_map USERNS_UID_MAP (uns s ns)) kuid.
Definition from_kgid (s : ns_state) (ns kgid : Z) : Z :=
  if (ns =? 0) || (NS_MAX_USER <=? ns) then kgid
  else map_up (get_map USERNS_GID_MAP (uns s ns)) kgid.
Definition from_kuid_munged (s : ns_state) (ns kuid : Z) : Z :=
  let v := from_kuid s ns kuid in if v =? UID_INVALID then UID_OVERFLOW else v.
Definition from_kgid_munged (s : ns_state) (ns kgid : Z) : Z :=
  let v := from_kgid s ns kgid in if v =? GID_INVALID then GID_OVERFLOW else v.
Definition kuid_has_mapping (s : ns_state) (ns kuid : Z) : bool :=
  from_kuid s ns kuid <>? UID_INVALID.
Definition kgid_has_mapping (s : ns_state) (ns kgid : Z) : bool :=
  from_kgid s ns kgid <>? GID_INVALID.

(** [cur] is [scheduler_get_current_cred()]. *)
Definition current_make_kuid (s : ns_state) (cur : option cred) (uid : Z) : Z :=
  make_kuid s (cred_userns cur) uid.
Definition current_make_kgid (s : ns_state) (cur : option cred) (gid : Z) : Z :=
  make_kgid s (cred_userns cur) gid.
Definition current_from_kuid (s : ns_state) (cur : option cred) (kuid : Z) : Z :=
  from_kuid_munged s (cred_userns cur) kuid.
Definition current_from_kgid (s : ns_state) (cur : option cred) (kgid : Z) : Z :=
  from_kgid_munged s (cred_userns cur) kgid.

(** ** Capabilities *)

(** [for (depth = 0; depth <= NS_MAX_LEVEL + 1; depth++)]: 34 rounds. *)
Definition walk_rounds : nat := 34.

Fixpoint userns_is_ancestor_loop (rounds : nat) (s : ns_state) (ancestor ns : Z) : bool :=
  match rounds with
  | O => false
  | S r =>
      if ns =? ancestor then true
      else if (ns =? 0) || (NS_MAX_USER <=? ns) then false
      else userns_is_ancestor_loop r s ancestor (parent (uns s ns))
  end.
Definition userns_is_ancestor (s : ns_state) (ancestor ns : Z) : bool :=
  userns_is_ancestor_loop walk_rounds s ancestor ns.

Definition cap_effective_has (c : cred) (cap : Z) : bool := cap_effective c &? cap_bit cap.

Fixpoint ns_capable_loop (rounds : nat) (s : ns_state) (c : cred) (ns cap : Z) : bool :=
  match rounds with
  | O => false
  | S r =>
      let mine := user_ns c in
      if ns =? mine then cap_effective_has c cap
      else if level (uns s ns) <=? level (uns s mine) then false
      else
        let par := parent (uns s ns) in
        if (par =? mine) && (euid c =? owner_kuid (uns s ns)) then true
        else ns_capable_loop r s c par cap
  end.
Definition ns_capable_cred (s : ns_state) (c : option cred) (ns cap : Z) : bool :=
  match c with
  | None => false
  | Some c =>
      if (cap <? 0) || (CAP_LAST <? cap) || (NS_MAX_USER <=? ns) then false
      else ns_capable_loop walk_rounds s c ns cap
  end.

Definition capable_wrt_inode_uidgid (s : ns_state) (c : option cred) (kuid kgid cap : Z) : bool :=
  match c with
  | None => false
  | Some cr =>
      let ns := user_ns cr in
      ns_capable_cred s c ns cap && kuid_has_mapping s ns kuid && kgid_has_mapping s ns kgid
  end.
Definition cred_inode_owner_or_capable (s : ns_state) (c : option cred) (kuid kgid : Z) : bool :=
  match c with
  | None => false
  | Some cr =>
      if fsuid cr =? kuid then true
      else let ns := user_ns cr in
           kuid_has_mapping s ns kuid && ns_capable_cred s c ns CAP_FOWNER
  end.
Definition userns_may_setgroups (s : ns_state) (ns : Z) : bool :=
  if (ns =? 0) || (NS_MAX_USER <=? ns) then true
  else negb (bool_decide (get_map USERNS_GID_MAP (uns s ns) = []))
       && setgroups_allowed (uns s ns).

(** ** Lifetime *)

(** [ns_ensure_init_locked], user row. *)
Definition ns_ensure_init_locked (s : ns_state) : ns_state :=
  if ns_ready s then s
  else mkNs (userns s) (userns_ready s)
         (zalter (fun x => mkSlot true (zombie x) true 1 0 4026531837) 0 (slots s))
         true (ns_next_inum s) (ns_any s).

(** [ns_get_locked(NS_USER, id)] *)
Definition ns_get_locked (s : ns_state) (id : Z) : ns_state :=
  if (id =? 0) || (NS_MAX_USER <=? id) then s
  else set_slots (zalter (fun x => mkSlot (used x) (zombie x) (entered x) (u32 (refs x + 1))
                            (owner x) (inum x)) id (slots s)) s.

(** [ns_alloc_locked(NS_USER, owner)]: the first free slot from 1 up. *)
Definition ns_alloc_locked (s0 : ns_state) (own : Z) : Z * ns_state :=
  let s := ns_ensure_init_locked s0 in
  match first_index (fun x => negb (used x)) (drop 1 (slots s)) with
  | None => (0, s)
  | Some j =>
      let i := Z.of_nat (S j) in
      let s1 := mkNs (userns s) (userns_ready s)
                  (zalter (fun x => mkSlot true 0 false 1 own (ns_next_inum s)) i (slots s))
                  (ns_ready s) (u64 (ns_next_inum s + 1)) (ns_any s) in
      let s2 := ns_get_locked s1 own in
      (i, mkNs (userns s2) (userns_ready s2) (slots s2) (ns_ready s2) (ns_next_inum s2) true)
  end.

Definition userns_release_locked (s : ns_state) (id : Z) : ns_state :=
  if (id <>? 0) && (id <? NS_MAX_USER)
  then set_userns (zalter (fun _ => userns_zero) id (userns s)) s
  else s.

Inductive put_result := PutOk (s : ns_state) | PutPanic | PutNoFuel.

(** [ns_put_locked(NS_USER, id)]: the last reference frees the namespace and
    drops its own reference on its owner, its parent. *)
Fixpoint ns_put_locked (fuel : nat) (s : ns_state) (id : Z) : put_result :=
  match fuel with
  | O => PutNoFuel
  | S fuel' =>
      if (id =? 0) || (NS_MAX_USER <=? id) then PutOk s
      else
        let x := slot s id in
        if negb (used x) || (refs x =? 0) then PutPanic
        else
          let r := u32 (refs x - 1) in
          let s1 := set_slots (zalter (fun x => mkSlot (used x) (zombie x) (entered x) r
                                 (owner x) (inum x)) id (slots s)) s in
          if r <>? 0 then PutOk s1
          else
            let own := owner x in
            let s2 := userns_release_locked s1 id in
            let s3 := set_slots (zalter (fun x => mkSlot false (zombie x) (entered x) (refs x)
                                   (owner x) (inum x)) id (slots s2)) s2 in
            ns_put_locked fuel' s3 own
  end.
(** The owner chain is at most [NS_MAX_LEVEL + 1] long. *)
Definition put_fuel : nat := 34.

Definition ns_live_locked (s : ns_state) (id : Z) : bool :=
  if NS_MAX_USER <=? id then false
  else if id =? 0 then true
  else used (slot s id) && (zombie (slot s id) =? 0).

(** [namespace_get(NS_USER, id)] *)
Definition namespace_get (s0 : ns_state) (id : Z) : Z * ns_state :=
  let s := ns_ensure_init_locked s0 in
  if ns_live_locked s id then (0, ns_get_locked s id) else (- EINVAL, s).
(** [namespace_put(NS_USER, id)]; user namespaces are not left to the reaper. *)
Definition namespace_put (s : ns_state) (id : Z) : put_result :=
  if id =? 0 then PutOk s else ns_put_locked put_fuel s id.

(** The credential's own fields when it enters namespace [ns]. *)
Definition enter_caps (ns : Z) (c : cred) : cred :=
  set_cap_bounding CAP_FULL_SET (set_cap_effective CAP_FULL_SET (set_cap_permitted CAP_FULL_SET
    (set_cap_ambient 0 (set_cap_inheritable 0 (set_securebits 0 (set_user_ns ns c)))))).

(** [None] for a null credential: only the reference is dropped. *)
Definition cred_enter_userns_locked (s : ns_state) (c : option cred) (ns : Z)
    : option cred * put_result :=
  match c with
  | None => (None, ns_put_locked put_fuel s ns)
  | Some c => (Some (enter_caps ns c), ns_put_locked put_fuel s (user_ns c))
  end.

Definition userns_init_locked (s0 : ns_state) (id par : Z) (creator : option cred) : ns_state :=
  let s := userns_ensure_init s0 in
  let s1 := set_userns (zalter (fun _ => mkUserns par (level (uns s par) + 1)
              match creator with Some c => euid c | None => 0 end
              match creator with Some c => egid c | None => 0 end
              [] [] [] (setgroups_allowed (uns s par)) false) id (userns s)) s in
  let could := match creator with
               | Some _ => ns_capable_cred s1 creator par CAP_SETFCAP | None => true end in
  set_userns (zalter (fun u => mkUserns (parent u) (level u) (owner_kuid u) (owner_kgid u)
    (uid_map u) (gid_map u) (projid_map u) (setgroups_allowed u) could) id (userns s1)) s1.

Definition userns_create (s0 : ns_state) (creator : option cred) : Z * ns_state :=
  match creator with
  | None => (- EPERM, s0)
  | Some c =>
      let s := userns_ensure_init s0 in
      let par := user_ns c in
      if NS_MAX_LEVEL <? level (uns s par) + 1 then (- EUSERS, s)
      else if negb (kuid_has_mapping s par (euid c)) || negb (kgid_has_mapping s par (egid c))
      then (- EPERM, s)
      else
        match ns_alloc_locked s par with
        | (id, s1) => if id =? 0 then (- ENOSPC, s1)
                      else (id, userns_init_locked s1 id par creator)
        end
  end.

(** ** Writing the maps *)

Definition CH_SPACE := 32.
Definition CH_TAB := 9.
Definition CH_NL := 10.
Definition CH_0 := 48.
Definition CH_9 := 57.

Fixpoint skip_blanks (l : list Z) : list Z :=
  match l with
  | c :: l' => if (c =? CH_SPACE) || (c =? CH_TAB) then skip_blanks l' else l
  | [] => []
  end.

Definition is_digit (c : Z) : bool := (CH_0 <=? c) && (c <=? CH_9).

(** The digit loop of [parse_u32]; [None] is [-EINVAL]. *)
Fixpoint parse_digits (l : list Z) (v : Z) : option (Z * list Z) :=
  match l with
  | c :: l' =>
      if is_digit c then
        let v' := v * 10 + (c - CH_0) in
        if UID_INVALID <? v' then None else parse_digits l' v'
      else Some (v, l)
  | [] => Some (v, [])
  end.
(** On the text left of the line: the value and the text after it. *)
Definition parse_u32 (l : list Z) : option (Z * list Z) :=
  match skip_blanks l with
  | c :: l' => if is_digit c then parse_digits (c :: l') 0 else None
  | [] => None
  end.

Definition ranges_overlap (a an b bn : Z) : bool :=
  let alast := u32 (a + an - 1) in
  let blast := u32 (b + bn - 1) in
  (a <=? blast) && (b <=? alast).

(** One line, without its newline: [None] is [-EINVAL], [Some None] a blank line. *)
Definition parse_line (line : list Z) : option (option id_extent) :=
  match skip_blanks line with
  | [] => Some None
  | _ =>
      match parse_u32 (skip_blanks line) with
      | None => None
      | Some (f, l1) =>
          match parse_u32 l1 with
          | None => None
          | Some (lo, l2) =>
              match parse_u32 l2 with
              | None => None
              | Some (n, l3) =>
                  match skip_blanks l3 with [] => Some (Some (Ext f lo n)) | _ => None end
              end
          end
      end
  end.

(** The checks a parsed extent passes before it joins the map. *)
Definition extent_acceptable (nm : id_map) (e : id_extent) : bool :=
  if (count e =? 0) || (u32 (first e + count e - 1) <? first e)
     || (u32 (lower e + count e - 1) <? lower e)
     || (USERNS_MAP_EXTENTS <=? Z.of_nat (length nm))
  then false
  else forallb (fun x => negb (ranges_overlap (first x) (count x) (first e) (count e)
                               || ranges_overlap (lower x) (count x) (lower e) (count e))) nm.

Fixpoint take_line (l : list Z) : list Z :=
  match l with c :: l' => if c =? CH_NL then [] else c :: take_line l' | [] => [] end.
(** The text after the line and its newline. *)
Definition after_line (l : list Z) : list Z := drop (S (length (take_line l))) l.

(** [while (p < end)]; a round consumes at least one character. *)
Fixpoint parse_map (fuel : nat) (text : list Z) (nm : id_map) : option id_map :=
  match fuel with
  | O => None
  | S fuel' =>
      match text with
      | [] => Some nm
      | _ =>
          match parse_line (take_line text) with
          | None => None
          | Some None => parse_map fuel' (after_line text) nm
          | Some (Some e) =>
              if extent_acceptable nm e then parse_map fuel' (after_line text) (nm ++ [e])
              else None
          end
      end
  end.

Definition verify_root_map (s : ns_state) (c : cred) (ns : Z) (nm : id_map) : bool :=
  if negb (existsb (fun e => lower e =? 0) nm) then true
  else if user_ns c =? ns then parent_could_setfcap (uns s ns)
  else ns_capable_cred s (Some c) (parent (uns s ns)) CAP_SETFCAP.

(** [CAP_SETUID], [CAP_SETGID] or -1. *)
Definition cap_setid (which : Z) : Z :=
  if which =? USERNS_UID_MAP then CAP_SETUID
  else if which =? USERNS_GID_MAP then CAP_SETGID else -1.

(** The owner mapping exactly its own id. *)
Definition own_id_map (s : ns_state) (c : cred) (ns which : Z) (nm : id_map) : bool :=
  match nm with
  | [e] =>
      if (count e =? 1) && (owner_kuid (uns s ns) =? euid c) then
        ((cap_setid which =? CAP_SETUID) && (make_kuid s (parent (uns s ns)) (lower e) =? euid c))
        || ((cap_setid which =? CAP_SETGID) && negb (setgroups_allowed (uns s ns))
            && (make_kgid s (parent (uns s ns)) (lower e) =? egid c))
      else false
  | _ => false
  end.

Definition new_idmap_permitted (s : ns_state) (c : cred) (ns which : Z) (nm : id_map) : bool :=
  if (cap_setid which =? CAP_SETUID) && negb (verify_root_map s c ns nm) then false
  else if own_id_map s c ns which nm then true
  else if cap_setid which <? 0 then true
  else ns_capable_cred s (Some c) (parent (uns s ns)) (cap_setid which).

(** Lower ids from the parent's terms to kernel ids; [None] is [-EPERM]. *)
Fixpoint translate_lower (s : ns_state) (par which : Z) (nm : id_map) : option id_map :=
  match nm with
  | [] => Some []
  | e :: nm' =>
      let k := if par =? 0 then lower e
               else map_down (get_map which (uns s par)) (lower e) (count e) in
      if k =? UID_INVALID then None
      else (fun r => Ext (first e) k (count e) :: r) <$> translate_lower s par which nm'
  end.

Definition target_userns (target : option cred) : Z :=
  match target with Some c => user_ns c | None => 0 end.

(** [target] is the credential of the task whose file is written, [cur] the
    writer's, [kzalloc_ok] the success of the scratch allocation. *)
Definition userns_map_write (s0 : ns_state) (kzalloc_ok : bool) (cur target : option cred)
    (which : Z) (buf : option (list Z)) : Z * ns_state :=
  match buf with
  | None => (- EINVAL, s0)
  | Some buf =>
  if (which <? 0) || (2 <? which) then (- EINVAL, s0)
  else
    let s := userns_ensure_init s0 in
    let len := Z.of_nat (length buf) in
    match cur with
    | None => (- EPERM, s)
    | Some c =>
        let ns := target_userns target in
        if ns =? 0 then (- EPERM, s)
        else if (user_ns c <>? ns) && (user_ns c <>? parent (uns s ns)) then (- EPERM, s)
        else if 4096 <=? len then (- EINVAL, s)
        else if negb kzalloc_ok then (- ENOMEM, s)
        else
          match parse_map (S (length buf)) buf [] with
          | None | Some [] => (- EINVAL, s)
          | Some nm =>
              if negb (bool_decide (get_map which (uns s ns) = [])) then (- EPERM, s)
              else if (0 <=? cap_setid which) && negb (ns_capable_cred s cur ns CAP_SYS_ADMIN)
              then (- EPERM, s)
              else if negb (new_idmap_permitted s c ns which nm) then (- EPERM, s)
              else
                match translate_lower s (parent (uns s ns)) which nm with
                | None => (- EPERM, s)
                | Some km => (len, set_userns (zalter (set_map which km) ns (userns s)) s)
                end
          end
    end
  end.

(** [n] after the loop that strips trailing newlines and blanks. *)
Fixpoint strip_trailing (rev_buf : list Z) : list Z :=
  match rev_buf with
  | c :: l => if (c =? CH_NL) || (c =? CH_SPACE) || (c =? CH_TAB) then strip_trailing l else c :: l
  | [] => []
  end.
Definition word_allow : list Z := [97; 108; 108; 111; 119].
Definition word_deny : list Z := [100; 101; 110; 121].

Definition userns_setgroups_write (s0 : ns_state) (cur target : option cred) (buf : list Z)
    : Z * ns_state :=
  let s := userns_ensure_init s0 in
  let ns := target_userns target in
  if match cur with None => true | Some _ => negb (ns_capable_cred s cur ns CAP_SYS_ADMIN) end
  then (- EPERM, s)
  else
    let w := rev (strip_trailing (rev buf)) in
    let len := Z.of_nat (length buf) in
    if bool_decide (w = word_allow) then
      if negb (setgroups_allowed (uns s ns)) then (- EPERM, s) else (len, s)
    else if bool_decide (w = word_deny) then
      if negb (bool_decide (get_map USERNS_GID_MAP (uns s ns) = [])) then (- EPERM, s)
      else (len, set_userns (zalter (set_setgroups false) ns (userns s)) s)
    else (- EINVAL, s).

(** ** Well-formed maps *)

(** A non-empty range on both sides, inside the 32-bit id space. *)
Definition ext_ok (e : id_extent) : Prop :=
  0 <= first e /\ 0 <= lower e /\ 1 <= count e
  /\ first e + count e <= U32_MOD /\ lower e + count e <= U32_MOD.

(** Two extents share neither an inner id nor a kernel id. *)
Definition ext_disjoint (a b : id_extent) : Prop :=
  (first a + count a <= first b \/ first b + count b <= first a)
  /\ (lower a + count a <= lower b \/ lower b + count b <= lower a).

Definition map_ok (m : id_map) : Prop :=
  Forall ext_ok m
  /\ forall i j a b, m !! i = Some a -> m !! j = Some b -> i <> j -> ext_disjoint a b.

Lemma map_ok_nil : map_ok [].
Proof. split; [constructor|]. intros i j a b H. by rewrite lookup_nil in H. Qed.

Lemma map_ok_cons e m : map_ok (e :: m) -> ext_ok e /\ map_ok m /\ Forall (ext_disjoint e) m.
Proof.
  intros [Hf Hd]. apply Forall_cons_iff in Hf as [He Hf]. split_and!; [done| |].
  - split; [done|]. intros i j a b Ha Hb Hij. apply (Hd (S i) (S j)); [done..|lia].
  - apply Forall_lookup. intros j b Hb. by apply (Hd 0%nat (S j)).
Qed.

Lemma ext_disjoint_sym a b : ext_disjoint a b -> ext_disjoint b a.
Proof. unfold ext_disjoint. lia. Qed.

Lemma map_ok_snoc m e :
  map_ok m -> ext_ok e -> Forall (fun x => ext_disjoint x e) m -> map_ok (m ++ [e]).
Proof.
  intros [Hf Hd] He Hx. split.
  - apply Forall_app. split; [done|]. by apply Forall_singleton.
  - intros i j a b Ha Hb Hij.
    apply lookup_snoc_Some in Ha as [[Hi Ha]|[Hi ->]], Hb as [[Hj Hb]|[Hj ->]]; [eauto| | |lia].
    + by eapply (Forall_lookup_1 _ _ _ _ Hx).
    + apply ext_disjoint_sym. by eapply (Forall_lookup_1 _ _ _ _ Hx).
Qed.

Lemma map_ok_elem m a b :
  map_ok m -> a ∈ m -> b ∈ m -> a = b \/ ext_disjoint a b.
Proof.
  intros [_ Hd] (i & Ha)%list_elem_of_lookup (j & Hb)%list_elem_of_lookup.
  destruct (decide (i = j)) as [->|Hij]; [left; congruence|right; eauto].
Qed.

Lemma map_ok_ext m e : map_ok m -> e ∈ m -> ext_ok e.
Proof. intros [Hf _] He. rewrite Forall_forall in Hf. apply Hf. by apply list_elem_of_In. Qed.

(** *** Translation through a well-formed map *)

(** The extent that holds the ids [id .. id + cnt - 1]. *)
Definition covers (e : id_extent) (id cnt : Z) : Prop :=
  first e <= id /\ id + cnt <= first e + count e.

Lemma map_down_Some m id cnt k :
  map_ok m -> 0 <= id -> 1 <= cnt -> id + cnt <= U32_MOD ->
  map_down m id cnt = k -> k <> UID_INVALID ->
  exists e, e ∈ m /\ covers e id cnt /\ k = lower e + (id - first e).
Proof.
  unfold map_down. intros Hm Hid Hcnt Hlast Hk Hne. break_hyp Hk; [congruence|].
  induction m as [|e m IH]; simpl in Hk; [congruence|].
  apply map_ok_cons in Hm as ((? & ? & ? & ? & ?) & Hm & _).
  rewrite (u32_small (id + cnt - 1)) in Hk by lia. break_hyp Hk; [congruence|].
  break_hyp Hk.
  - bools. rewrite (u32_small (id + cnt - 1 - first e)) in * by lia. rewrite u32_small in Hk by lia.
    exists e. split_and!; [left|unfold covers; lia|lia].
  - destruct (IH Hm Hk) as (e' & ? & ? & ?). exists e'. split_and!; [by right|done|done].
Qed.

Lemma map_down_covered m e id cnt :
  map_ok m -> e ∈ m -> covers e id cnt -> 1 <= cnt -> id <> UID_INVALID ->
  map_down m id cnt = lower e + (id - first e).
Proof.
  unfold map_down, covers. intros Hm He [Hc1 Hc2] Hcnt Hid.
  rewrite (proj2 (Z.eqb_neq _ _)) by done.
  induction m as [|x m IH]; [by apply not_elem_of_nil in He|].
  pose proof Hm as Hm'. apply map_ok_cons in Hm' as (Hx & Hm' & Hd).
  pose proof (map_ok_ext _ _ Hm He) as (? & ? & ? & ? & ?).
  destruct Hx as (? & ? & ? & ? & ?). simpl. rewrite (u32_small (id + cnt - 1)) by lia.
  rewrite (proj2 (Z.ltb_ge _ _)) by lia.
  apply elem_of_cons in He as [->|He].
  - rewrite (proj2 (Z.leb_le _ _)) by lia. rewrite (u32_small (id + cnt - 1 - first x)) by lia.
    rewrite (proj2 (Z.ltb_lt _ _)) by lia. simpl. apply u32_small. lia.
  - rewrite Forall_forall in Hd. destruct (Hd e ltac:(by apply list_elem_of_In)) as [Hdis _].
    destruct (Z.leb_spec (first x) id); simpl; [|by apply IH].
    rewrite (u32_small (id + cnt - 1 - first x)) by lia.
    rewrite (proj2 (Z.ltb_ge _ _)) by lia. by apply IH.
Qed.

(** [covers] on the kernel side. *)
Definition covers_k (e : id_extent) (kid : Z) : Prop :=
  lower e <= kid < lower e + count e.

Lemma map_up_Some m kid v :
  map_ok m -> 0 <= kid < U32_MOD -> map_up m kid = v -> v <> UID_INVALID ->
  exists e, e ∈ m /\ covers_k e kid /\ v = first e + (kid - lower e).
Proof.
  unfold map_up. intros Hm Hk Hv Hne. break_hyp Hv; [congruence|].
  induction m as [|e m IH]; simpl in Hv; [congruence|].
  apply map_ok_cons in Hm as ((? & ? & ? & ? & ?) & Hm & _).
  break_hyp Hv.
  - bools. rewrite (u32_small (kid - lower e)) in * by lia. rewrite u32_small in Hv by lia.
    exists e. split_and!; [left|unfold covers_k; lia|lia].
  - destruct (IH Hm Hv) as (e' & ? & ? & ?). exists e'. split_and!; [by right|done|done].
Qed.

Lemma map_up_covered m e kid :
  map_ok m -> e ∈ m -> covers_k e kid -> kid <> UID_INVALID ->
  map_up m kid = first e + (kid - lower e).
Proof.
  unfold map_up, covers_k. intros Hm He Hc Hid.
  rewrite (proj2 (Z.eqb_neq _ _)) by done.
  induction m as [|x m IH]; [by apply not_elem_of_nil in He|].
  pose proof Hm as Hm'. apply map_ok_cons in Hm' as (Hx & Hm' & Hd).
  pose proof (map_ok_ext _ _ Hm He) as (? & ? & ? & ? & ?).
  destruct Hx as (? & ? & ? & ? & ?). simpl.
  apply elem_of_cons in He as [->|He].
  - rewrite (proj2 (Z.leb_le _ _)) by lia. rewrite (u32_small (kid - lower x)) by lia.
    rewrite (proj2 (Z.ltb_lt _ _)) by lia. simpl. apply u32_small. lia.
  - rewrite Forall_forall in Hd. destruct (Hd e ltac:(by apply list_elem_of_In)) as [_ Hdis].
    destruct (Z.leb_spec (lower x) kid); simpl; [|by apply IH].
    rewrite (u32_small (kid - lower x)) by lia.
    rewrite (proj2 (Z.ltb_ge _ _)) by lia. by apply IH.
Qed.

(** *** Maps read from text *)

Lemma parse_digits_range l v r l' :
  0 <= v <= UID_INVALID -> parse_digits l v = Some (r, l') -> 0 <= r <= UID_INVALID.
Proof.
  unfold UID_INVALID. revert v; induction l as [|c l IH]; intros v Hv H; simpl in H.
  - by injection H as <- <-.
  - break_hyp H; [|by injection H as <- <-]. break_hyp H; [done|].
    unfold is_digit, CH_0, CH_9, UID_INVALID in *. bools. eapply IH; [|done]. lia.
Qed.

Lemma parse_u32_range l r l' : parse_u32 l = Some (r, l') -> 0 <= r <= UID_INVALID.
Proof.
  unfold parse_u32. intros H. break_hyp H; [done|]. break_hyp H; [|done].
  eapply parse_digits_range; [|done]. by unfold UID_INVALID.
Qed.

Definition ext_u32 (e : id_extent) : Prop :=
  0 <= first e <= UID_INVALID /\ 0 <= lower e <= UID_INVALID /\ 0 <= count e <= UID_INVALID.

Lemma parse_line_range line e : parse_line line = Some (Some e) -> ext_u32 e.
Proof.
  unfold parse_line. intros H. repeat break_hyp H; simplify_eq.
  split; [|split]; eapply parse_u32_range; eassumption.
Qed.

Lemma extent_acceptable_ok nm e :
  Forall ext_ok nm -> ext_u32 e -> extent_acceptable nm e = true ->
  ext_ok e /\ Forall (fun x => ext_disjoint x e) nm /\ Z.of_nat (length nm) < USERNS_MAP_EXTENTS.
Proof.
  unfold extent_acceptable, ext_u32, UID_INVALID. intros Hnm Hr H. break_hyp H; [done|]. bools.
  assert (He : ext_ok e).
  { unfold ext_ok, u32 in *. Z.to_euclidean_division_equations. lia. }
  split_and!; [done| |lia]. rewrite forallb_forall in H. rewrite Forall_forall in Hnm |- *.
  intros x Hx. specialize (H x Hx). specialize (Hnm x Hx). bools.
  unfold ranges_overlap, ext_ok, ext_disjoint in *.
  rewrite !u32_small in * by lia.
  repeat match goal with H : andb _ _ = false |- _ => apply andb_false_iff in H as [?|?] end; bools; lia.
Qed.

Lemma parse_map_ok fuel text nm m :
  map_ok nm -> parse_map fuel text nm = Some m -> map_ok m.
Proof.
  revert text nm; induction fuel as [|fuel IH]; intros text nm Hnm H; simpl in H; [done|].
  destruct text as [|c text]; [by simplify_eq|].
  destruct (parse_line _) as [[e|]|] eqn:El; [|eauto|done]. break_hyp H; [|done].
  apply parse_line_range in El. destruct (extent_acceptable_ok nm e) as (? & ? & ?); [apply Hnm|done..|].
  eapply IH; [|done]. by apply map_ok_snoc.
Qed.

(** *** Lower ids to kernel ids *)

Lemma translate_lower_lookup s par which nm km i e' :
  translate_lower s par which nm = Some km -> km !! i = Some e' ->
  exists e, nm !! i = Some e /\ first e' = first e /\ count e' = count e /\
    lower e' = (if par =? 0 then lower e
                else map_down (get_map which (uns s par)) (lower e) (count e)) /\
    lower e' <> UID_INVALID.
Proof.
  revert km i; induction nm as [|e nm IH]; intros km i H Hi; simpl in H.
  - injection H as <-. by rewrite lookup_nil in Hi.
  - destruct (_ =? UID_INVALID) eqn:Ek in H; [done|]. apply fmap_Some in H as (r & Hr & ->). bools.
    destruct i as [|i]; simpl in Hi; [|by eauto].
    injection Hi as <-. exists e. split_and!; done.
Qed.

Lemma translate_lower_ok s par which nm km :
  map_ok nm -> (par <> 0 -> map_ok (get_map which (uns s par))) ->
  translate_lower s par which nm = Some km -> map_ok km.
Proof.
  intros [Hf Hd] Hpar Ht.
  assert (Himg : forall i e', km !! i = Some e' ->
    exists e, nm !! i = Some e /\ ext_ok e /\ first e' = first e /\ count e' = count e /\
      ((par = 0 /\ lower e' = lower e) \/
       (par <> 0 /\ exists x, x ∈ get_map which (uns s par) /\ covers x (lower e) (count e)
         /\ ext_ok x /\ lower e' = lower x + (lower e - first x)))).
  { intros i e' Hi. destruct (translate_lower_lookup _ _ _ _ _ _ _ Ht Hi) as (e & He & H1 & H2 & H3 & H4).
    exists e. pose proof (Forall_lookup_1 _ _ _ _ Hf He) as Hok. pose proof Hok as (? & ? & ? & ? & ?).
    split_and!; [done..|]. destruct (Z.eqb_spec par 0) as [|Hp0]; [by left|right; split; [done|]].
    destruct (map_down_Some _ (lower e) (count e) _ (Hpar Hp0) ltac:(lia) ltac:(lia) ltac:(lia)
      (eq_sym H3) H4) as (x & Hx & Hc & Hl).
    exists x. split_and!; try done. eapply map_ok_ext; eauto. }
  split.
  - apply Forall_lookup. intros i e' Hi.
    destruct (Himg _ _ Hi) as (e & _ & (? & ? & ? & ? & ?) & Hfi & Hco & [[_ Hl]|(_ & x & _ & [??] & (? & ? & ? & ? & ?) & Hl)]);
      unfold ext_ok; rewrite Hfi, Hco, Hl; lia.
  - intros i j a b Hi Hj Hij.
    destruct (Himg _ _ Hi) as (ea & Hea & Hoka & Hfa & Hca & Hla).
    destruct (Himg _ _ Hj) as (eb & Heb & Hokb & Hfb & Hcb & Hlb).
    destruct (Hd _ _ _ _ Hea Heb Hij) as [Hd1 Hd2]. unfold ext_disjoint. rewrite Hfa, Hfb, Hca, Hcb.
    split; [done|].
    destruct Hla as [[Hp0 Hla]|(Hp0 & x & Hx & [??] & _ & Hla)],
      Hlb as [[Hp0' Hlb]|(Hp0' & y & Hy & [??] & _ & Hlb)]; rewrite Hla, Hlb; [lia|done..|].
    destruct (map_ok_elem _ x y (Hpar Hp0) Hx Hy) as [->|[_ Hxy]]; lia.
Qed.

End UserNs.
