(* ===== verification/UserNsProofs.v ===== *)
(** * User namespaces: invariants and properties

    Over the definitions of [UserNs]: the reference-count and tree invariant of
    the namespace table with every operation preserving it, the meaning of
    [ns_capable_cred], and what a write to an id map can and cannot do. *)
From S2P Require Import Prelude Cred UserNs.
Import Cred UserNs.

Module UserNsProofs.

(** ** The table invariant *)

Definition in_table (id : Z) : Prop := 0 <= id < NS_MAX_USER.
Definition live (s : ns_state) (id : Z) : Prop := used (slot s id) = true.

(** How many live namespaces have [id] as their owner: each holds a reference. *)
Definition nchildren (s : ns_state) (id : Z) : Z :=
  Z.of_nat (count_if (fun x => used x && (owner x =? id)) (slots s)).

(** [held id] references on [id] are held by credentials and other callers;
    one further reference on [extra] is in the hands of a running
    [ns_put_locked]. *)
Record ns_inv_ex (s : ns_state) (held : Z -> Z) (extra : Z) : Prop := {
  inv_len_userns : length (userns s) = 64%nat;
  inv_len_slots : length (slots s) = 64%nat;
  inv_ready : userns_ready s = true /\ ns_ready s = true;
  inv_root : live s 0 /\ level (uns s 0) = 0 /\ parent (uns s 0) = 0 /\ owner (slot s 0) = 0;
  inv_tree : forall id, in_table id -> id <> 0 -> live s id ->
    owner (slot s id) = parent (uns s id) /\ in_table (parent (uns s id))
    /\ live s (parent (uns s id)) /\ level (uns s id) = level (uns s (parent (uns s id))) + 1
    /\ zombie (slot s id) = 0;
  inv_level : forall id, in_table id -> live s id -> 0 <= level (uns s id) <= NS_MAX_LEVEL;
  inv_refs : forall id, in_table id -> id <> 0 -> live s id ->
    refs (slot s id) = held id + nchildren s id + (if id =? extra then 1 else 0)
    /\ 0 < refs (slot s id) < U32_MOD;
  inv_free : forall id, in_table id -> ~ live s id -> held id = 0;
  inv_held : forall id, 0 <= held id;
  inv_maps : forall id which, in_table id -> map_ok (get_map which (uns s id))
}.

(** Between operations no reference is in flight (the root is never counted). *)
Definition ns_inv (s : ns_state) (held : Z -> Z) : Prop := ns_inv_ex s held 0.

Lemma uns_alter_eq s f id :
  length (userns s) = 64%nat -> in_table id ->
  uns (set_userns (zalter f id (userns s)) s) id = f (uns s id).
Proof. intros Hl Hid. unfold uns; simpl. apply zget_zalter_eq. rewrite Hl. apply Hid. Qed.
Lemma uns_alter_ne s f id j :
  in_table id -> in_table j -> id <> j ->
  uns (set_userns (zalter f id (userns s)) s) j = uns s j.
Proof. intros [? ?] [? ?] ?. unfold uns; simpl. by apply zget_zalter_ne. Qed.
Lemma slot_alter_eq s f id :
  length (slots s) = 64%nat -> in_table id ->
  slot (set_slots (zalter f id (slots s)) s) id = f (slot s id).
Proof. intros Hl Hid. unfold slot; simpl. apply zget_zalter_eq. rewrite Hl. apply Hid. Qed.
Lemma slot_alter_ne s f id j :
  in_table id -> in_table j -> id <> j ->
  slot (set_slots (zalter f id (slots s)) s) j = slot s j.
Proof. intros [? ?] [? ?] ?. unfold slot; simpl. by apply zget_zalter_ne. Qed.

Lemma nchildren_alter s f id j :
  length (slots s) = 64%nat -> in_table id ->
  nchildren (set_slots (zalter f id (slots s)) s) j =
    nchildren s j - (if used (slot s id) && (owner (slot s id) =? j) then 1 else 0)
    + (if used (f (slot s id)) && (owner (f (slot s id)) =? j) then 1 else 0).
Proof.
  intros Hl Hid. unfold nchildren; simpl.
  pose proof (count_if_zalter (fun x => used x && (owner x =? j)) f id (slots s)
    ltac:(rewrite Hl; apply Hid)) as H. fold (slot s id) in H.
  repeat case_match; lia.
Qed.

(** No live namespace names a dead one as its owner. *)
Lemma nchildren_dead s held extra id :
  ns_inv_ex s held extra -> in_table id -> ~ live s id -> nchildren s id = 0.
Proof.
  intros Hi Hid Hd. unfold nchildren. rewrite count_if_zero; [done|].
  intros x (j & Hj & <-)%elem_of_zget. rewrite (inv_len_slots _ _ _ Hi) in Hj.
  fold (slot s j). destruct (used (slot s j)) eqn:Hu; [|done]. simpl. apply Z.eqb_neq. intros Ho.
  destruct (decide (j = 0)) as [->|Hj0].
  - destruct (inv_root _ _ _ Hi) as (Hr & _ & _ & Ho0). congruence.
  - destruct (inv_tree _ _ _ Hi j Hj Hj0 Hu) as (Ho' & _ & Hlp & _). congruence.
Qed.

Lemma inv_extra_root s held x y : (x = 0 \/ ~ in_table x) -> (y = 0 \/ ~ in_table y) ->
  ns_inv_ex s held x -> ns_inv_ex s held y.
Proof.
  intros Hx Hy [H1 H2 H3 H4 H5 H6 H7 H8 H9 H10]. constructor; try done.
  intros id Hid H0 Hl. destruct (H7 id Hid H0 Hl) as [Hr ?]. split; [|done].
  rewrite Hr. repeat case_match; bools; subst; destruct Hx, Hy; try lia; done.
Qed.

(** A slot whose reference count alone changes. *)
Definition with_refs (r : Z) (x : ns_slot) : ns_slot :=
  mkSlot (used x) (zombie x) (entered x) r (owner x) (inum x).

Lemma slot_with_refs s r id j :
  length (slots s) = 64%nat -> in_table id -> in_table j ->
  slot (set_slots (zalter (with_refs r) id (slots s)) s) j =
  if id =? j then with_refs r (slot s id) else slot s j.
Proof.
  intros Hl Hid Hj. destruct (Z.eqb_spec id j) as [<-|Hne].
  - by apply slot_alter_eq.
  - by apply slot_alter_ne.
Qed.

Lemma inv_with_refs s held extra held' extra' id r :
  ns_inv_ex s held extra -> in_table id -> id <> 0 -> live s id ->
  r = held' id + nchildren s id + (if id =? extra' then 1 else 0) -> 0 < r < U32_MOD ->
  (forall j, 0 <= held' j) -> (forall j, j <> id ->
     held' j = held j /\ (j <> 0 -> (j =? extra') = (j =? extra))) ->
  ns_inv_ex (set_slots (zalter (with_refs r) id (slots s)) s) held' extra'.
Proof.
  intros Hi Hid H0 Hl Hr Hr' Hh Hj. pose proof (inv_len_slots _ _ _ Hi) as Hls.
  pose proof (slot_with_refs s r id) as Hslot.
  assert (Hlive : forall j, in_table j ->
    live (set_slots (zalter (with_refs r) id (slots s)) s) j <-> live s j).
  { intros j Ht. unfold live. rewrite Hslot by done. destruct (Z.eqb_spec id j) as [<-|]; done. }
  assert (Hch : forall j, nchildren (set_slots (zalter (with_refs r) id (slots s)) s) j = nchildren s j).
  { intros j. rewrite nchildren_alter by done. simpl. lia. }
  assert (Hroot : in_table 0) by (unfold in_table, NS_MAX_USER; lia).
  destruct Hi as [H1 H2 H3 H4 H5 H6 H7 H8 H9 H10]. constructor; simpl; try done.
  - by rewrite length_zalter.
  - rewrite Hlive, Hslot by done. rewrite (proj2 (Z.eqb_neq _ _)) by done. done.
  - intros j Ht Hj0 Hlj%Hlive; [|done]. destruct (H5 j Ht Hj0 Hlj) as (Ho & Hp & Hlp & Hlev & Hz).
    change (uns (set_slots _ s) j) with (uns s j). rewrite Hlive, Hslot by done.
    destruct (Z.eqb_spec id j) as [<-|]; done.
  - intros j Ht Hlj%Hlive; [|done]. by apply H6.
  - intros j Ht Hj0 Hlj%Hlive; [|done]. rewrite Hslot, Hch by done.
    destruct (Z.eqb_spec id j) as [<-|Hne]; [done|].
    destruct (Hj j ltac:(done)) as [-> Hex]. rewrite Hex by done. by apply H7.
  - intros j Ht Hlj. rewrite Hlive in Hlj by done.
    destruct (decide (j = id)) as [->|Hne]; [done|]. rewrite (proj1 (Hj j Hne)). by apply H8.
Qed.

(** Freeing a slot nobody refers to hands a reference on its owner back. *)
Definition free_slot (s : ns_state) (id : Z) : ns_state :=
  let s2 := set_userns (zalter (fun _ => userns_zero) id (userns s)) s in
  set_slots (zalter (fun x => mkSlot false (zombie x) (entered x) 0 (owner x) (inum x)) id (slots s2)) s2.

Lemma inv_free_slot s held id :
  ns_inv_ex s held id -> in_table id -> id <> 0 -> live s id ->
  held id = 0 -> nchildren s id = 0 ->
  ns_inv_ex (free_slot s id) held (parent (uns s id))
  /\ (forall j, in_table j -> live (free_slot s id) j <-> j <> id /\ live s j)
  /\ (forall j, in_table j -> j <> id -> uns (free_slot s id) j = uns s j).
Proof.
  intros Hi Hid H0 Hl Hh Hc. pose proof (inv_len_slots _ _ _ Hi) as Hls.
  pose proof (inv_len_userns _ _ _ Hi) as Hlu.
  set (f := fun x => mkSlot false (zombie x) (entered x) 0 (owner x) (inum x)).
  assert (Hslot : forall j, in_table j ->
    slot (free_slot s id) j = if id =? j then f (slot s id) else slot s j).
  { intros j Ht. unfold free_slot, slot; simpl. destruct (Z.eqb_spec id j) as [<-|Hne].
    - apply zget_zalter_eq. rewrite Hls. apply Hid.
    - apply zget_zalter_ne; [apply Hid|apply Ht|done]. }
  assert (Hu : forall j, in_table j -> j <> id -> uns (free_slot s id) j = uns s j).
  { intros j Ht Hne. unfold free_slot, uns; simpl. apply zget_zalter_ne; [apply Hid|apply Ht|done]. }
  assert (Huid : uns (free_slot s id) id = userns_zero).
  { unfold free_slot, uns; simpl. rewrite zget_zalter_eq; [done|]. rewrite Hlu. apply Hid. }
  assert (Hlive : forall j, in_table j -> live (free_slot s id) j <-> j <> id /\ live s j).
  { intros j Ht. unfold live. rewrite Hslot by done.
    destruct (Z.eqb_spec id j) as [<-|Hne]; simpl; [by split; [|intros []]|].
    split; [by split; [apply not_eq_sym|]|by intros []]. }
  destruct (inv_tree _ _ _ Hi id Hid H0 Hl) as (Ho & Hpt & Hpl & Hplev & _).
  assert (Hnp : forall j, in_table j -> j <> 0 -> live s j -> parent (uns s j) <> id).
  { intros j Ht Hj0 Hlj Hp. destruct (inv_tree _ _ _ Hi j Ht Hj0 Hlj) as (Hoj & _).
    enough (0 < nchildren s id) by lia. unfold nchildren.
    assert (is_Some (first_index (fun x => used x && (owner x =? id)) (slots s))) as Hs%count_if_first; [|lia].
    eapply (first_index_is_Some _ _ (Z.to_nat j)).
    - apply zget_lookup. rewrite Hls. apply Ht.
    - fold (slot s j). rewrite Hlj, Hoj, Hp. simpl. apply Z.eqb_refl. }
  assert (Hch : forall j, nchildren (free_slot s id) j =
    nchildren s j - (if parent (uns s id) =? j then 1 else 0)).
  { intros j. unfold free_slot. rewrite nchildren_alter by done.
    change (slot (set_userns _ s) id) with (slot s id). rewrite Hl, Ho. simpl.
    change (nchildren (set_userns _ s) j) with (nchildren s j). lia. }
  split; [|done].
  pose proof Hi as [H1 H2 H3 H4 H5 H6 H7 H8 H9 H10].
  constructor; simpl; rewrite ?length_zalter; try done.
  - rewrite Hlive, Hu, Hslot by (done || unfold in_table, NS_MAX_USER; lia).
    rewrite (proj2 (Z.eqb_neq _ _)) by done. by destruct H4 as (? & ? & ? & ?).
  - intros j Ht Hj0 [Hne Hlj]%Hlive; [|done].
    destruct (H5 j Ht Hj0 Hlj) as (? & ? & ? & ? & ?). pose proof (Hnp j Ht Hj0 Hlj).
    rewrite Hslot, !Hu, Hlive by done. rewrite (proj2 (Z.eqb_neq _ _)) by done. done.
  - intros j Ht [Hne Hlj]%Hlive; [|done]. rewrite Hu by done. by apply H6.
  - intros j Ht Hj0 [Hne Hlj]%Hlive; [|done]. rewrite Hslot, Hch by done.
    rewrite (proj2 (Z.eqb_neq id j)) by done. destruct (H7 j Ht Hj0 Hlj) as [Hr ?].
    rewrite (proj2 (Z.eqb_neq j id)) in Hr by done. split; [|done].
    rewrite Hr, (Z.eqb_sym j). lia.
  - intros j Ht Hlj. destruct (decide (j = id)) as [->|Hne]; [done|].
    apply H8; [done|]. intros Hlj'. apply Hlj, Hlive; done.
  - intros j which Ht. destruct (decide (j = id)) as [->|Hne].
    + rewrite Huid. unfold get_map; simpl. repeat case_match; apply map_ok_nil.
    + rewrite Hu by done. by apply H10.
Qed.

(** ** Dropping a reference *)

Lemma put_release_eq s id r :
  in_table id -> id <> 0 ->
  let s1 := set_slots (zalter (with_refs r) id (slots s)) s in
  let s2 := userns_release_locked s1 id in
  r = 0 ->
  set_slots (zalter (fun x => mkSlot false (zombie x) (entered x) (refs x) (owner x) (inum x)) id
    (slots s2)) s2 = free_slot s id.
Proof.
  intros Hid H0 s1 s2 ->. unfold s2, s1, userns_release_locked, free_slot.
  rewrite (proj2 (Z.eqb_neq _ _)) by done. rewrite (proj2 (Z.ltb_lt _ _)) by apply Hid.
  simpl. unfold set_slots, set_userns; simpl. f_equal. unfold zalter.
  rewrite list_alter_alter_eq. by apply list_alter_ext.
Qed.

(** With one reference in flight on [id], [ns_put_locked] neither panics nor
    runs out of fuel, and the references left are exactly those held. *)
Lemma ns_put_locked_ok fuel s held id :
  ns_inv_ex s held id -> in_table id -> live s id -> level (uns s id) < Z.of_nat fuel ->
  exists s', ns_put_locked fuel s id = PutOk s' /\ ns_inv s' held
    /\ (forall j, in_table j -> live s' j -> live s j /\ uns s' j = uns s j)
    /\ (forall j, in_table j -> live s j -> 0 < held j -> live s' j).
Proof.
  revert s id; induction fuel as [|fuel IH]; intros s id Hi Hid Hl Hf.
  { pose proof (inv_level _ _ _ Hi id Hid Hl). lia. }
  simpl. destruct (Z.eqb_spec id 0) as [->|H0]; [by exists s|].
  rewrite (proj2 (Z.leb_gt NS_MAX_USER id)) by apply Hid. simpl.
  destruct (inv_refs _ _ _ Hi id Hid H0 Hl) as [Hr Hr']. rewrite Z.eqb_refl in Hr.
  pose proof (inv_held _ _ _ Hi id) as Hh.
  rewrite Hl. simpl. rewrite (proj2 (Z.eqb_neq _ _)) by lia. rewrite u32_small by lia.
  fold (with_refs (refs (slot s id) - 1)).
  destruct (Z.eqb_spec (refs (slot s id) - 1) 0) as [Hz|Hz]; simpl.
  - assert (Hnc : 0 <= nchildren s id) by (unfold nchildren; lia).
    rewrite (put_release_eq s id _ Hid H0 Hz).
    destruct (inv_free_slot s held id Hi Hid H0 Hl ltac:(lia) ltac:(lia)) as (Hi' & Hlive & Hu).
    destruct (inv_tree _ _ _ Hi id Hid H0 Hl) as (-> & Hpt & Hpl & Hplev & _).
    assert (Hpid : parent (uns s id) <> id) by (intros Heq; rewrite Heq in Hplev; lia).
    destruct (IH (free_slot s id) (parent (uns s id))) as (s' & Hput & Hinv & Hb & Hk); [done|done| | |].
    + by apply Hlive.
    + rewrite Hu by done. lia.
    + exists s'. split_and!; [done|done| |].
      * intros j Ht Hlj. destruct (Hb j Ht Hlj) as [[Hne Hlj']%Hlive Heq]; [|done].
        rewrite Heq. split; [done|]. by apply Hu.
      * intros j Ht Hlj Hpos. apply Hk; [done| |done]. apply Hlive; [done|]. split; [|done].
        intros ->. lia.
  - pose proof (slot_with_refs s (refs (slot s id) - 1) id) as Hslot.
    assert (Hlive : forall j, in_table j ->
      live (set_slots (zalter (with_refs (refs (slot s id) - 1)) id (slots s)) s) j <-> live s j).
    { intros j Ht. unfold live. rewrite Hslot by (done || apply (inv_len_slots _ _ _ Hi)).
      by destruct (Z.eqb_spec id j) as [<-|]. }
    eexists. split_and!; [done| | |].
    + apply (inv_with_refs s held id); try done; [|lia|apply (inv_held _ _ _ Hi)|].
      * rewrite (proj2 (Z.eqb_neq id 0)) by done. lia.
      * intros j Hj. split; [done|]. intros Hj0. by rewrite !(proj2 (Z.eqb_neq j _)).
    + intros j Ht Hlj%Hlive; done.
    + intros j Ht Hlj _. by apply Hlive.
Qed.

(** ** Operations preserve the invariant *)

Definition held_add (held : Z -> Z) (id d : Z) : Z -> Z :=
  fun j => if j =? id then held j + d else held j.

Lemma held_live s held id : ns_inv s held -> in_table id -> 0 < held id -> live s id.
Proof.
  intros Hi Ht Hh. unfold live. destruct (used (slot s id)) eqn:E; [done|].
  pose proof (inv_free _ _ _ Hi id Ht) as H. unfold live in H. rewrite H in Hh; [lia|congruence].
Qed.

Lemma put_by_holder s held id :
  ns_inv s held -> in_table id -> 0 < held id ->
  exists s', namespace_put s id = PutOk s' /\ ns_inv s' (held_add held id (-1))
    /\ (forall j, in_table j -> live s' j -> live s j /\ uns s' j = uns s j)
    /\ (forall j, in_table j -> live s j -> 0 < held_add held id (-1) j -> live s' j).
Proof.
  intros Hi Ht Hh. unfold namespace_put. pose proof (held_live _ _ _ Hi Ht Hh) as Hl.
  assert (Hi' : ns_inv_ex s (held_add held id (-1)) id).
  { pose proof Hi as [H1 H2 H3 H4 H5 H6 H7 H8 H9 H10]. constructor; try done.
    - intros j Hj Hj0 Hlj. destruct (H7 j Hj Hj0 Hlj) as [Hr ?]. split; [|done]. rewrite Hr.
      rewrite (proj2 (Z.eqb_neq j 0)) by done. unfold held_add. destruct (j =? id); lia.
    - intros j Hj Hlj. unfold held_add. destruct (Z.eqb_spec j id) as [->|]; [done|]. by apply H8.
    - intros j. unfold held_add. destruct (Z.eqb_spec j id) as [->|]; [lia|]. apply H9. }
  destruct (Z.eqb_spec id 0) as [->|H0]; [by exists s|].
  apply ns_put_locked_ok; try done.
  pose proof (inv_level _ _ _ Hi id Ht Hl). unfold NS_MAX_LEVEL, put_fuel in *. lia.
Qed.

Lemma namespace_put_eq s id : namespace_put s id = ns_put_locked put_fuel s id.
Proof. unfold namespace_put. by destruct (Z.eqb_spec id 0) as [->|]. Qed.

Lemma cred_enter_put s c ns :
  snd (cred_enter_userns_locked s (Some c) ns) = namespace_put s (user_ns c).
Proof. rewrite namespace_put_eq. reflexivity. Qed.

#[local] Opaque ns_put_locked namespace_put cred_enter_userns_locked.

Lemma live_ns_live s held id :
  ns_inv s held -> 0 <= id -> ns_live_locked s id = true -> in_table id /\ live s id.
Proof.
  intros Hi H0. unfold ns_live_locked. intros H. break_hyp H; [done|]. bools. split; [done|].
  break_hyp H; bools; [|done]. subst. apply (inv_root _ _ _ Hi).
Qed.

Lemma get_preserves s held id :
  ns_inv s held -> in_table id -> live s id -> refs (slot s id) + 1 < U32_MOD ->
  ns_inv (ns_get_locked s id) (held_add held id 1)
  /\ forall j, uns (ns_get_locked s id) j = uns s j.
Proof.
  intros Hi Ht Hl Hr. unfold ns_get_locked. rewrite (proj2 (Z.leb_gt NS_MAX_USER id)) by apply Ht.
  pose proof (inv_held _ _ _ Hi) as Hh.
  destruct (Z.eqb_spec id 0) as [->|H0]; simpl.
  - split; [|done]. destruct Hi as [H1 H2 H3 H4 H5 H6 H7 H8 H9 H10]. constructor; try done.
    + intros j Hj Hj0 Hlj. unfold held_add. rewrite (proj2 (Z.eqb_neq j 0)) by done.
      destruct (H7 j Hj Hj0 Hlj) as [Hr' ?]. split; [|done].
      rewrite (proj2 (Z.eqb_neq j 0)) in Hr' by done. done.
    + intros j Hj Hlj. unfold held_add. destruct (Z.eqb_spec j 0) as [->|]; [done|]. by apply H8.
    + intros j. unfold held_add. specialize (Hh j). case_match; lia.
  - split; [|done].
    destruct (inv_refs _ _ _ Hi id Ht H0 Hl) as [Hrf Hrr].
    rewrite (proj2 (Z.eqb_neq id 0)) in Hrf by done.
    assert (Heq : zalter (fun x => mkSlot (used x) (zombie x) (entered x) (u32 (refs x + 1)) (owner x)
      (inum x)) id (slots s) = zalter (with_refs (refs (slot s id) + 1)) id (slots s)).
    { rewrite !zalter_insert by (rewrite (inv_len_slots _ _ _ Hi); apply Ht). f_equal.
      fold (slot s id). rewrite u32_small by lia. done. }
    rewrite Heq. apply (inv_with_refs s held 0); try done; [|lia| |].
    + unfold held_add. rewrite Z.eqb_refl, (proj2 (Z.eqb_neq id 0)) by done. lia.
    + intros j. unfold held_add. specialize (Hh j). case_match; lia.
    + intros j Hj. unfold held_add. by rewrite (proj2 (Z.eqb_neq j id)).
Qed.

Lemma ensure_init_id s held extra :
  ns_inv_ex s held extra -> userns_ensure_init s = s /\ ns_ensure_init_locked s = s.
Proof.
  intros Hi. destruct (inv_ready _ _ _ Hi) as [H1 H2].
  unfold userns_ensure_init, ns_ensure_init_locked. by rewrite H1, H2.
Qed.

(** The table after a namespace [id] owned by [own] and described by [u] joins. *)
Record joined (s s' : ns_state) (id own : Z) (u : userns_data) : Prop := {
  j_len : length (userns s') = 64%nat /\ length (slots s') = 64%nat;
  j_ready : userns_ready s' = true /\ ns_ready s' = true;
  j_new : used (slot s' id) = true /\ refs (slot s' id) = 1 /\ owner (slot s' id) = own
          /\ zombie (slot s' id) = 0 /\ uns s' id = u;
  j_own : own <> 0 -> slot s' own = with_refs (refs (slot s own) + 1) (slot s own);
  j_other : forall j, in_table j -> j <> id -> (j = own -> j = 0) -> slot s' j = slot s j;
  j_uns : forall j, in_table j -> j <> id -> uns s' j = uns s j;
  j_children : forall j, nchildren s' j = nchildren s j + (if own =? j then 1 else 0)
}.

Lemma joined_preserves s s' held id own u :
  ns_inv s held -> in_table id -> id <> 0 -> ~ live s id -> in_table own -> live s own ->
  (own <> 0 -> refs (slot s own) + 1 < U32_MOD) -> joined s s' id own u ->
  parent u = own -> level u = level (uns s own) + 1 -> level u <= NS_MAX_LEVEL ->
  (forall which, map_ok (get_map which u)) ->
  ns_inv s' (held_add held id 1).
Proof.
  intros Hi Ht H0 Hd Hot Hol Hor HJ Hup Hul Hum Hmaps.
  pose proof (inv_free _ _ _ Hi id Ht Hd) as Hh0.
  pose proof (nchildren_dead _ _ _ _ Hi Ht Hd) as Hc0.
  assert (Hne : own <> id) by (intros ->; done).
  pose proof HJ as [[HJ1 HJ1'] HJ2 (HJu & HJr & HJo & HJz & HJn) HJown HJoth HJuns HJc].
  assert (Hlive : forall j, in_table j -> live s' j <-> j = id \/ live s j).
  { intros j Hj. unfold live. destruct (decide (j = id)) as [->|Hji]; [rewrite HJu; tauto|].
    destruct (decide (j = own /\ own <> 0)) as [[-> Hno]|Hjo].
    - rewrite HJown by done. simpl. tauto.
    - rewrite HJoth; [tauto|done|done|]. intros ->. destruct (decide (own = 0)); [done|tauto]. }
  assert (Hroot : in_table 0) by (unfold in_table, NS_MAX_USER; lia).
  pose proof Hi as [H1 H2 H3 H4 H5 H6 H7 H8 H9 H10]. constructor; try done.
  - rewrite Hlive, HJuns, HJoth by done. destruct H4 as (? & ? & ? & ?). split_and!; auto.
  - intros j Hj Hj0 Hlj%Hlive; [|done]. destruct (decide (j = id)) as [->|Hji].
    + rewrite HJn, HJo, Hup, Hlive, (HJuns own) by done. split_and!; auto.
    + destruct Hlj as [->|Hlj]; [done|]. destruct (H5 j Hj Hj0 Hlj) as (Ho & Hp & Hpl & Hlev & Hz).
      rewrite (HJuns j), Hlive by done. rewrite (HJuns (parent (uns s j))); [|done|intros Hx; by rewrite Hx in Hpl].
      destruct (decide (j = own)) as [->|Hjo]; [rewrite HJown by done|rewrite HJoth by done]; split_and!; auto.
  - intros j Hj Hlj%Hlive; [|done]. destruct (decide (j = id)) as [->|Hji].
    + rewrite HJn. pose proof (H6 own Hot Hol). lia.
    + rewrite HJuns by done. apply H6; [done|]. by destruct Hlj.
  - intros j Hj Hj0 Hlj%Hlive; [|done]. rewrite HJc, (proj2 (Z.eqb_neq j 0)) by done. unfold held_add.
    destruct (Z.eqb_spec j id) as [->|Hji].
    + rewrite HJr, Hc0, Hh0, (proj2 (Z.eqb_neq own id)) by done. lia.
    + destruct Hlj as [->|Hlj]; [done|]. destruct (H7 j Hj Hj0 Hlj) as [Hr ?].
      rewrite (proj2 (Z.eqb_neq j 0)) in Hr by done.
      destruct (Z.eqb_spec own j) as [<-|Hjo].
      * rewrite HJown by done. simpl. lia.
      * rewrite HJoth by done. lia.
  - intros j Hj Hlj. rewrite Hlive in Hlj by done. unfold held_add.
    destruct (Z.eqb_spec j id) as [->|]; [tauto|]. apply H8; [done|tauto].
  - intros j. unfold held_add. specialize (H9 j). case_match; lia.
  - intros j which Hj. destruct (decide (j = id)) as [->|Hji]; [by rewrite HJn|].
    rewrite HJuns by done. by apply H10.
Qed.

Lemma in_table_first_free s held j :
  ns_inv s held -> first_index (fun x => negb (used x)) (drop 1 (slots s)) = Some j ->
  in_table (Z.of_nat (S j)) /\ ~ live s (Z.of_nat (S j)).
Proof.
  intros Hi Hf. pose proof (first_index_lt _ _ _ Hf) as Hlt.
  rewrite length_drop, (inv_len_slots _ _ _ Hi) in Hlt.
  apply first_index_Some in Hf as (x & Hx & Hp & _). rewrite lookup_drop in Hx.
  unfold in_table, NS_MAX_USER, live, slot, zget. split; [lia|].
  rewrite Nat2Z.id, (list_lookup_total_correct _ _ _ Hx). bools. congruence.
Qed.

(** [ns_alloc_locked] on a table with a free slot [j + 1]. *)
Lemma alloc_effect s held own j :
  ns_inv s held -> in_table own -> live s own -> (own <> 0 -> refs (slot s own) + 1 < U32_MOD) ->
  first_index (fun x => negb (used x)) (drop 1 (slots s)) = Some j ->
  let id := Z.of_nat (S j) in
  exists s1, ns_alloc_locked s own = (id, s1)
    /\ userns s1 = userns s /\ userns_ready s1 = true /\ ns_ready s1 = true
    /\ length (slots s1) = 64%nat
    /\ slot s1 id = mkSlot true 0 false 1 own (ns_next_inum s)
    /\ (own <> 0 -> slot s1 own = with_refs (refs (slot s own) + 1) (slot s own))
    /\ (forall k, in_table k -> k <> id -> (k = own -> k = 0) -> slot s1 k = slot s k)
    /\ (forall k, nchildren s1 k = nchildren s k + (if own =? k then 1 else 0)).
Proof.
  intros Hi Hot Hol Hor Hf id. destruct (in_table_first_free _ _ _ Hi Hf) as [Hidt Hidd].
  fold id in Hidt, Hidd. pose proof (inv_len_slots _ _ _ Hi) as Hls.
  assert (Hne : own <> id) by (intros ->; done).
  assert (Hu : used (slot s id) = false) by (unfold live in Hidd; by destruct (used (slot s id))).
  unfold ns_alloc_locked. rewrite (proj2 (ensure_init_id _ _ _ Hi)), Hf. fold id.
  eexists. split; [done|]. destruct (inv_ready _ _ _ Hi) as [Hr1 Hr2].
  set (fnew := fun _ : ns_slot => mkSlot true 0 false 1 own (ns_next_inum s)).
  set (s1 := set_slots (zalter fnew id (slots s)) s).
  assert (Hs1 : length (slots s1) = 64%nat) by (unfold s1; simpl; by rewrite length_zalter).
  assert (Hsid : slot s1 id = fnew (slot s id)) by (by apply slot_alter_eq).
  assert (Hsne : forall k, in_table k -> k <> id -> slot s1 k = slot s k)
    by (intros k Hk Hk'; by apply slot_alter_ne).
  assert (Hch : forall k, nchildren s1 k = nchildren s k + (if own =? k then 1 else 0)).
  { intros k. unfold s1. rewrite nchildren_alter by done. rewrite Hu. simpl. lia. }
  unfold ns_get_locked. rewrite (proj2 (Z.leb_gt NS_MAX_USER own)) by apply Hot.
  destruct (Z.eqb_spec own 0) as [Ho|Ho]; simpl.
  - split_and!; try done. intros k Hk Hk' _. by apply Hsne.
  - destruct (inv_refs _ _ _ Hi own Hot Ho Hol) as [_ Hrr].
    set (g := fun x => mkSlot (used x) (zombie x) (entered x) (u32 (refs x + 1)) (owner x) (inum x)).
    assert (Hg : g (slot s own) = with_refs (refs (slot s own) + 1) (slot s own))
      by (specialize (Hor Ho); unfold g, with_refs; by rewrite u32_small by lia).
    set (s2 := set_slots (zalter g own (slots s1)) s1).
    change (zalter g own (zalter fnew id (slots s))) with (slots s2).
    assert (Hsl : forall k, slot (mkNs (userns s) (userns_ready s) (slots s2) (ns_ready s)
      (u64 (ns_next_inum s + 1)) true) k = slot s2 k) by done.
    assert (Hc2 : forall k, nchildren (mkNs (userns s) (userns_ready s) (slots s2) (ns_ready s)
      (u64 (ns_next_inum s + 1)) true) k = nchildren s2 k) by done.
    split_and!; try done.
    + unfold s2; simpl. by rewrite !length_zalter.
    + rewrite Hsl. unfold s2. by rewrite slot_alter_ne.
    + intros _. rewrite Hsl. unfold s2. rewrite slot_alter_eq, Hsne by done. done.
    + intros k Hk Hk' Hko. rewrite Hsl. unfold s2. rewrite slot_alter_ne; [by apply Hsne|done|done|].
      intros ->. auto.
    + intros k. rewrite Hc2. unfold s2. rewrite nchildren_alter, Hch by done.
      rewrite Hsne by done. simpl. lia.
Qed.

(** Creating a namespace makes it join the tree. *)
Lemma create_joined s held own creator j :
  ns_inv s held -> in_table own -> live s own -> (own <> 0 -> refs (slot s own) + 1 < U32_MOD) ->
  first_index (fun x => negb (used x)) (drop 1 (slots s)) = Some j ->
  let id := Z.of_nat (S j) in
  exists s1 could, ns_alloc_locked s own = (id, s1)
    /\ joined s (userns_init_locked s1 id own (Some creator)) id own
         (mkUserns own (level (uns s own) + 1) (euid creator) (egid creator) [] [] []
            (setgroups_allowed (uns s own)) could).
Proof.
  intros Hi Hot Hol Hor Hf id. destruct (in_table_first_free _ _ _ Hi Hf) as [Hidt Hidd].
  destruct (alloc_effect s held own j Hi Hot Hol Hor Hf)
    as (s1 & Ha & Hun & Hr1 & Hr2 & Hl & Hnew & Hown & Hoth & Hch).
  fold id in Hidt, Hidd, Ha, Hnew, Hoth.
  assert (Hne : own <> id) by (intros ->; done).
  pose proof (inv_len_userns _ _ _ Hi) as Hlu.
  assert (Hup : uns s1 own = uns s own) by (unfold uns; by rewrite Hun).
  set (u0 := mkUserns own (level (uns s own) + 1) (euid creator) (egid creator) [] [] []
               (setgroups_allowed (uns s own)) false).
  set (s2 := set_userns (zalter (fun _ => u0) id (userns s1)) s1).
  exists s1, (ns_capable_cred s2 (Some creator) own CAP_SETFCAP). split; [done|].
  unfold userns_init_locked, userns_ensure_init. rewrite Hr1. cbv zeta. rewrite Hup.
  fold u0. fold s2.
  assert (Hl2 : length (userns s2) = 64%nat) by (unfold s2; simpl; by rewrite length_zalter, Hun).
  constructor; try done.
  - simpl. split; [by rewrite !length_zalter, Hun|done].
  - split_and!; try (by unfold slot in *; simpl; rewrite Hnew).
    rewrite uns_alter_eq by done. unfold s2. by rewrite uns_alter_eq by (rewrite ?Hun; done).
  - intros k Hk Hk'. rewrite uns_alter_ne by done. unfold s2. rewrite uns_alter_ne by done.
    unfold uns. by rewrite Hun.
Qed.

Lemma create_preserves s held c rc s' :
  ns_inv s held -> in_table (user_ns c) -> live s (user_ns c) ->
  (user_ns c <> 0 -> refs (slot s (user_ns c)) + 1 < U32_MOD) ->
  userns_create s (Some c) = (rc, s') ->
  (rc < 0 /\ s' = s) \/
  (in_table rc /\ rc <> 0 /\ ~ live s rc /\ ns_inv s' (held_add held rc 1)
   /\ (forall j, in_table j -> j <> rc -> uns s' j = uns s j)).
Proof.
  intros Hi Hot Hol Hor. unfold userns_create. rewrite (proj1 (ensure_init_id _ _ _ Hi)).
  intros H. break_hyp H; [left; by simplify_eq|]. break_hyp H; [left; by simplify_eq|]. bools.
  destruct (first_index (fun x => negb (used x)) (drop 1 (slots s))) as [j|] eqn:Hf.
  - destruct (create_joined s held _ c j Hi Hot Hol Hor Hf) as (s1 & could & Ha & HJ).
    destruct (in_table_first_free _ _ _ Hi Hf) as [Hidt Hidd].
    rewrite Ha in H. rewrite (proj2 (Z.eqb_neq _ _)) in H by lia. simplify_eq. right.
    split_and!; try done; try apply Hidt; [|by apply (j_uns _ _ _ _ _ HJ)].
    apply (joined_preserves s _ held _ (user_ns c) _ Hi Hidt ltac:(lia) Hidd Hot Hol Hor HJ); try done.
    intros which. unfold get_map; simpl. repeat case_match; apply map_ok_nil.
  - left. unfold ns_alloc_locked in H. rewrite (proj2 (ensure_init_id _ _ _ Hi)), Hf in H.
    simpl in H. by simplify_eq.
Qed.

(** Rewriting the entry of one namespace without moving it in the tree. *)
Lemma inv_set_entry s held id f :
  ns_inv s held -> in_table id ->
  parent (f (uns s id)) = parent (uns s id) -> level (f (uns s id)) = level (uns s id) ->
  (forall which, map_ok (get_map which (f (uns s id)))) ->
  ns_inv (set_userns (zalter f id (userns s)) s) held.
Proof.
  intros Hi Ht Hp Hlev Hm. pose proof (inv_len_userns _ _ _ Hi) as Hlu.
  assert (Hpar : forall j, in_table j ->
    parent (uns (set_userns (zalter f id (userns s)) s) j) = parent (uns s j)
    /\ level (uns (set_userns (zalter f id (userns s)) s) j) = level (uns s j)).
  { intros j Hj. destruct (decide (id = j)) as [<-|Hne].
    - by rewrite uns_alter_eq.
    - by rewrite uns_alter_ne. }
  assert (Hroot : in_table 0) by (unfold in_table, NS_MAX_USER; lia).
  pose proof Hi as [H1 H2 H3 H4 H5 H6 H7 H8 H9 H10]. constructor; try done.
  - simpl. by rewrite length_zalter.
  - destruct (Hpar 0 Hroot) as [-> ->]. apply H4.
  - intros j Hj Hj0 Hlj. destruct (H5 j Hj Hj0 Hlj) as (? & ? & ? & ? & ?).
    destruct (Hpar j Hj) as [-> ->]. by destruct (Hpar (parent (uns s j))) as [_ ->].
  - intros j Hj Hlj. destruct (Hpar j Hj) as [_ ->]. by apply H6.
  - intros j which Hj. destruct (decide (id = j)) as [<-|Hne].
    + by rewrite uns_alter_eq.
    + rewrite uns_alter_ne by done. by apply H10.
Qed.

(** What a successful map write did. *)
Lemma map_write_success s held ok cur target which buf rc s' :
  ns_inv s held -> userns_map_write s ok cur target which (Some buf) = (rc, s') -> 0 <= rc ->
  exists c nm km, let ns := target_userns target in
    cur = Some c /\ 0 <= which <= 2 /\ ns <> 0 /\ parse_map (S (length buf)) buf [] = Some nm
    /\ nm <> [] /\ get_map which (uns s ns) = []
    /\ (0 <= cap_setid which -> ns_capable_cred s cur ns CAP_SYS_ADMIN = true)
    /\ new_idmap_permitted s c ns which nm = true
    /\ translate_lower s (parent (uns s ns)) which nm = Some km
    /\ rc = Z.of_nat (length buf)
    /\ s' = set_userns (zalter (set_map which km) ns (userns s)) s.
Proof.
  intros Hi. unfold userns_map_write. rewrite (proj1 (ensure_init_id _ _ _ Hi)).
  intros H Hrc. unfold EINVAL, EPERM, ENOMEM in H.
  destruct ((which <? 0) || (2 <? which)) eqn:Hw; [simplify_eq; lia|].
  destruct cur as [c|]; [|simplify_eq; lia].
  break_hyp H; [simplify_eq; lia|]. break_hyp H; [simplify_eq; lia|].
  break_hyp H; [simplify_eq; lia|]. break_hyp H; [simplify_eq; lia|].
  destruct (parse_map _ buf []) as [[|e nm]|] eqn:Hpm; [simplify_eq; lia| |simplify_eq; lia].
  break_hyp H; [simplify_eq; lia|]. break_hyp H; [simplify_eq; lia|].
  break_hyp H; [simplify_eq; lia|].
  destruct (translate_lower _ _ _ _) as [km|] eqn:Ht; [|simplify_eq; lia]. injection H as <- <-.
  bools. exists c, (e :: nm), km. split_and!; try done; try lia.
  intros Hc. destruct (ns_capable_cred s (Some c) _ CAP_SYS_ADMIN) eqn:E; [done|].
  match goal with H : andb _ _ = false |- _ => apply andb_false_iff in H as [H|H] end; bools; [lia|done].
Qed.

Lemma map_write_fail s held ok cur target which buf rc s' :
  ns_inv s held -> userns_map_write s ok cur target which buf = (rc, s') -> rc < 0 -> s' = s.
Proof.
  intros Hi. unfold userns_map_write. rewrite (proj1 (ensure_init_id _ _ _ Hi)).
  intros H Hrc. repeat break_hyp H; simplify_eq; try done; lia.
Qed.

Lemma get_set_map which which' m u :
  0 <= which <= 2 ->
  map_ok m -> map_ok (get_map which' u) -> map_ok (get_map which' (set_map which m u)).
Proof.
  unfold get_map, set_map, USERNS_UID_MAP, USERNS_GID_MAP; simpl. intros Hw Hm Hu.
  repeat case_match; bools; simplify_eq; try done; try lia.
Qed.

Lemma map_write_preserves s held ok cur target which buf rc s' :
  ns_inv s held -> in_table (target_userns target) -> live s (target_userns target) ->
  userns_map_write s ok cur target which buf = (rc, s') -> ns_inv s' held.
Proof.
  intros Hi Ht Hl H. destruct (Z.ltb_spec rc 0).
  - by rewrite (map_write_fail _ _ _ _ _ _ _ _ _ Hi H).
  - destruct buf as [buf|]; [|unfold userns_map_write, EINVAL in H; simplify_eq; lia].
    destruct (map_write_success _ _ _ _ _ _ _ _ _ Hi H)
      as (c & nm & km & -> & Hw & Hns & Hpm & _ & _ & _ & _ & Htr & _ & ->); [done|].
    apply inv_set_entry; try done. intros which'. apply get_set_map; [done| |by apply (inv_maps _ _ _ Hi)].
    eapply translate_lower_ok; [by eapply parse_map_ok, Hpm; apply map_ok_nil| |done].
    intros Hp0. apply (inv_maps _ _ _ Hi), (inv_tree _ _ _ Hi); done.
Qed.

Lemma setgroups_write_effect s held cur target buf rc s' :
  ns_inv s held -> userns_setgroups_write s cur target buf = (rc, s') ->
  s' = s \/
  (get_map USERNS_GID_MAP (uns s (target_userns target)) = []
   /\ s' = set_userns (zalter (set_setgroups false) (target_userns target) (userns s)) s).
Proof.
  intros Hi. unfold userns_setgroups_write. rewrite (proj1 (ensure_init_id _ _ _ Hi)).
  intros H. repeat break_hyp H; bools; simplify_eq; auto.
Qed.

Lemma setgroups_write_preserves s held cur target buf rc s' :
  ns_inv s held -> in_table (target_userns target) ->
  userns_setgroups_write s cur target buf = (rc, s') -> ns_inv s' held.
Proof.
  intros Hi Ht H. destruct (setgroups_write_effect _ _ _ _ _ _ _ Hi H) as [->|[_ ->]]; [done|].
  apply inv_set_entry; try done. intros which.
  pose proof (inv_maps _ _ _ Hi (target_userns target) which Ht). done.
Qed.

(** ** Reachable tables *)

(** The tables once both initialisers have run, and the operations on them,
    with the references their callers hold.  A caller drops only a reference it
    holds, and no count of references reaches [2^32]. *)
Definition ns_start : ns_state := ns_ensure_init_locked (userns_ensure_init ns_boot).

Inductive ns_step : ns_state -> (Z -> Z) -> ns_state -> (Z -> Z) -> Prop :=
| step_create s held c rc s' :
    in_table (user_ns c) -> live s (user_ns c) -> refs (slot s (user_ns c)) + 1 < U32_MOD ->
    userns_create s (Some c) = (rc, s') ->
    ns_step s held s' (if rc <? 0 then held else held_add held rc 1)
| step_get s held id s' :
    in_table id -> refs (slot s id) + 1 < U32_MOD ->
    namespace_get s id = (0, s') -> ns_step s held s' (held_add held id 1)
| step_put s held id s' :
    in_table id -> 0 < held id -> namespace_put s id = PutOk s' ->
    ns_step s held s' (held_add held id (-1))
| step_enter s held c ns s' :
    in_table (user_ns c) -> 0 < held (user_ns c) ->
    snd (cred_enter_userns_locked s (Some c) ns) = PutOk s' ->
    ns_step s held s' (held_add held (user_ns c) (-1))
| step_map_write s held ok cur target which buf rc s' :
    in_table (target_userns target) -> live s (target_userns target) ->
    userns_map_write s ok cur target which buf = (rc, s') -> ns_step s held s' held
| step_setgroups s held cur target buf rc s' :
    in_table (target_userns target) ->
    userns_setgroups_write s cur target buf = (rc, s') -> ns_step s held s' held.

Inductive ns_reachable : ns_state -> (Z -> Z) -> Prop :=
| reach_start : ns_reachable ns_start (fun _ => 0)
| reach_step s held s' held' :
    ns_reachable s held -> ns_step s held s' held' -> ns_reachable s' held'.

Lemma start_live id : in_table id -> live ns_start id <-> id = 0.
Proof.
  intros Ht. unfold live, slot, ns_start, zget; simpl. unfold in_table, NS_MAX_USER in Ht.
  split; [|by intros ->].
  intros H. destruct (Z.to_nat id) as [|n] eqn:E; [lia|]. exfalso. revert H.
  rewrite list_lookup_total_alt. simpl.
  do 63 (destruct n as [|n]; [done|]). lia.
Qed.

Lemma start_uns id : in_table id -> id <> 0 -> uns ns_start id = userns_zero.
Proof.
  intros Ht H0. unfold uns, ns_start, zget; simpl. unfold in_table, NS_MAX_USER in Ht.
  destruct (Z.to_nat id) as [|n] eqn:E; [lia|]. rewrite list_lookup_total_alt. simpl.
  do 63 (destruct n as [|n]; [done|]). lia.
Qed.

Lemma map_ok_full : map_ok full_map.
Proof.
  split; [unfold full_map, ext_ok; forall_lia|].
  intros [|i] [|j] a b Ha Hb Hij; done.
Qed.

Lemma ns_inv_start : ns_inv ns_start (fun _ => 0).
Proof.
  constructor; try done.
  - intros id Ht H0 Hl%start_live; done.
  - intros id Ht ->%start_live; done.
  - intros id Ht H0 Hl%start_live; done.
  - intros id which Ht. destruct (decide (id = 0)) as [->|H0].
    + unfold get_map. repeat case_match; apply map_ok_full.
    + rewrite start_uns by done. unfold get_map; simpl. repeat case_match; apply map_ok_nil.
Qed.

Lemma ns_step_preserves s held s' held' :
  ns_inv s held -> ns_step s held s' held' -> ns_inv s' held'.
Proof.
  intros Hi Hst. revert Hi. destruct Hst; intros Hi.
  - destruct (create_preserves _ _ _ _ _ Hi H H0 (fun _ => H1) H2) as [[? ->]|([? _] & _ & _ & ? & _)].
    + by rewrite (proj2 (Z.ltb_lt _ _)).
    + by rewrite (proj2 (Z.ltb_ge _ _)).
  - unfold namespace_get in H1. rewrite (proj2 (ensure_init_id _ _ _ Hi)) in H1.
    break_hyp H1; [|done]. injection H1 as <-.
    destruct (live_ns_live _ _ _ Hi (proj1 H) Heqb) as [_ Hl]. by apply get_preserves.
  - destruct (put_by_holder _ _ _ Hi H H0) as (? & ? & ? & _). congruence.
  - rewrite cred_enter_put in H1. destruct (put_by_holder _ _ _ Hi H H0) as (s2 & Hput & ? & _).
    congruence.
  - by eapply map_write_preserves.
  - by eapply setgroups_write_preserves.
Qed.

Lemma ns_reachable_inv s held : ns_reachable s held -> ns_inv s held.
Proof. induction 1; [apply ns_inv_start|by eapply ns_step_preserves]. Qed.

(** ** Ancestors and capabilities *)

(** One step up the tree. *)
Definition up (s : ns_state) (x y : Z) : Prop := in_table x /\ x <> 0 /\ live s x /\ y = parent (uns s x).
(** [a] is [ns] or one of its ancestors. *)
Definition ancestor (s : ns_state) (a ns : Z) : Prop := rtc (up s) ns a.

Lemma up_level s held extra x y :
  ns_inv_ex s held extra -> up s x y ->
  level (uns s x) = level (uns s y) + 1 /\ in_table y /\ live s y.
Proof.
  intros Hi (Ht & H0 & Hl & ->). by destruct (inv_tree _ _ _ Hi x Ht H0 Hl) as (_ & ? & ? & ? & _).
Qed.

Lemma ancestor_level s held extra a ns :
  ns_inv_ex s held extra -> ancestor s a ns -> a = ns \/ level (uns s a) < level (uns s ns).
Proof.
  intros Hi. induction 1 as [|x y z Hxy Hyz IH]; [by left|right].
  destruct (up_level _ _ _ _ _ Hi Hxy) as (? & _). destruct IH as [->|]; lia.
Qed.

(** What [ns_capable_cred] documents: the capability is in the effective set and
    the credential's namespace is [ns] or an ancestor of it, or the credential
    owns a child of its own namespace that is [ns] or an ancestor of it. *)
Definition holds_cap (s : ns_state) (c : cred) (ns cap : Z) : Prop :=
  (ancestor s (user_ns c) ns /\ Z.testbit (cap_effective c) cap = true)
  \/ exists d, ancestor s d ns /\ up s d (user_ns c) /\ owner_kuid (uns s d) = euid c.

Lemma cap_effective_has_spec c cap :
  0 <= cap -> cap_effective_has c cap = Z.testbit (cap_effective c) cap.
Proof.
  intros H. unfold cap_effective_has, cap_bit. rewrite land_single_bit by done.
  destruct (Z.testbit _ _); [|done]. rewrite Z.shiftl_1_l.
  pose proof (Z.pow_pos_nonneg 2 cap). rewrite (proj2 (Z.eqb_neq _ _)) by lia. done.
Qed.

Lemma holds_cap_step s held c ns par cap :
  ns_inv s held -> up s ns par -> ns <> user_ns c ->
  (par = user_ns c -> owner_kuid (uns s ns) <> euid c) ->
  (holds_cap s c ns cap <-> holds_cap s c par cap).
Proof.
  intros Hi Hup Hne Hno. pose proof Hup as (? & ? & ? & Hp). split.
  - intros [[Ha Hb]|(d & Ha & Hd & Ho)].
    + left. split; [|done]. apply rtc_inv in Ha as [->|(y & (? & ? & ? & ->) & Ha)]; [done|].
      by rewrite Hp.
    + right. exists d. split_and!; try done.
      apply rtc_inv in Ha as [->|(y & (? & ? & ? & ->) & Ha)]; [|by rewrite Hp].
      destruct Hd as (_ & _ & _ & Hd). destruct Hno; congruence.
  - intros [[Ha Hb]|(d & Ha & Hd & Ho)]; [left; split; [|done]|right; exists d; split_and!; try done];
      by eapply rtc_l.
Qed.

Lemma ns_capable_loop_spec rounds s held c ns cap :
  ns_inv s held -> in_table ns -> live s ns -> in_table (user_ns c) -> live s (user_ns c) ->
  0 <= cap -> level (uns s ns) < Z.of_nat rounds ->
  ns_capable_loop rounds s c ns cap = true <-> holds_cap s c ns cap.
Proof.
  intros Hi Ht Hl Hmt Hml Hc. revert ns Ht Hl; induction rounds as [|r IH]; intros ns Ht Hl Hr.
  { pose proof (inv_level _ _ _ Hi ns Ht Hl). lia. }
  simpl. destruct (Z.eqb_spec ns (user_ns c)) as [->|Hne].
  { rewrite cap_effective_has_spec by done. split.
    - left. split; [apply rtc_refl|done].
    - intros [[_ H]|(d & Ha & Hd & _)]; [done|]. exfalso.
      destruct (up_level _ _ _ _ _ Hi Hd) as (? & _).
      destruct (ancestor_level _ _ _ _ _ Hi Ha) as [->|]; lia. }
  destruct (Z.leb_spec (level (uns s ns)) (level (uns s (user_ns c)))) as [Hle|Hlt].
  { split; [done|]. intros [[Ha _]|(d & Ha & Hd & _)]; exfalso.
    - destruct (ancestor_level _ _ _ _ _ Hi Ha) as [?|?]; [congruence|lia].
    - destruct (up_level _ _ _ _ _ Hi Hd) as (? & _).
      destruct (ancestor_level _ _ _ _ _ Hi Ha) as [->|]; lia. }
  assert (H0 : ns <> 0).
  { intros ->. destruct (inv_root _ _ _ Hi) as (_ & Hz & _).
    pose proof (inv_level _ _ _ Hi _ Hmt Hml). lia. }
  assert (Hup : up s ns (parent (uns s ns))) by (by split_and!).
  destruct (up_level _ _ _ _ _ Hi Hup) as (Hlev & Hpt & Hpl).
  destruct (Z.eqb_spec (parent (uns s ns)) (user_ns c)) as [Hpc|Hpc],
    (Z.eqb_spec (euid c) (owner_kuid (uns s ns))) as [Ho|Ho]; simpl.
  1: { split; [|done]. intros _. right. exists ns. split_and!; [apply rtc_refl|by rewrite <- Hpc|done]. }
  all: rewrite IH by (done || lia); symmetry; apply (holds_cap_step s held); try done; congruence.
Qed.

Lemma ancestor_root_loop rounds s held ns :
  ns_inv s held -> in_table ns -> live s ns -> level (uns s ns) < Z.of_nat rounds ->
  userns_is_ancestor_loop rounds s 0 ns = true.
Proof.
  intros Hi. revert ns; induction rounds as [|r IH]; intros ns Ht Hl Hr.
  { pose proof (inv_level _ _ _ Hi ns Ht Hl). lia. }
  simpl. destruct (Z.eqb_spec ns 0) as [->|H0]; [done|]. simpl.
  rewrite (proj2 (Z.leb_gt _ _)) by apply Ht.
  destruct (up_level s held 0 ns (parent (uns s ns)) Hi ltac:(by split_and!)) as (? & ? & ?).
  apply IH; try done. lia.
Qed.

(** ** Round trips *)

Lemma map_down_up m id k :
  map_ok m -> 0 <= id < U32_MOD -> map_down m id 1 = k -> k <> UID_INVALID -> map_up m k = id.
Proof.
  intros Hm Hid Hk Hne.
  destruct (map_down_Some m id 1 k Hm) as (e & He & [??] & ->); try done; try lia.
  rewrite (map_up_covered m e) by (done || (unfold covers_k; lia)). lia.
Qed.
Lemma map_up_down m kid v :
  map_ok m -> 0 <= kid < U32_MOD -> map_up m kid = v -> v <> UID_INVALID -> map_down m v 1 = kid.
Proof.
  intros Hm Hid Hk Hne.
  destruct (map_up_Some m kid v Hm) as (e & He & [??] & ->); try done.
  rewrite (map_down_covered m e) by (done || (unfold covers; lia)). lia.
Qed.

(** ** A concrete run: an ordinary user makes a namespace and maps itself in it *)

Definition alice : cred := mkCred 1000 1000 1000 100 100 100 [] 0 18 1000 100 0 0 0 CAP_FULL_SET 0 0 0.
Definition alice_ns : ns_state := snd (userns_create ns_start (Some alice)).
Definition alice_held : Z -> Z := held_add (fun _ => 0) 1 1.
Definition alice_inside : cred := set_user_ns 1 alice.
(** The line [0 1000 1]. *)
Definition alice_line : list Z := [48; 32; 49; 48; 48; 48; 32; 49; 10].
Definition alice_mapped : ns_state :=
  snd (userns_map_write alice_ns true (Some alice) (Some alice_inside) USERNS_UID_MAP (Some alice_line)).

Lemma alice_create : userns_create ns_start (Some alice) = (1, alice_ns).
Proof. vm_compute. reflexivity. Qed.
Lemma alice_write :
  userns_map_write alice_ns true (Some alice) (Some alice_inside) USERNS_UID_MAP (Some alice_line)
  = (9, alice_mapped).
Proof. vm_compute. reflexivity. Qed.
Lemma alice_ns_reachable : ns_reachable alice_ns alice_held.
Proof.
  eapply reach_step; [apply reach_start|].
  change alice_held with (if 1 <? 0 then (fun _ => 0) else held_add (fun _ => 0) 1 1).
  eapply (step_create _ _ alice); [by vm_compute|reflexivity|by vm_compute|apply alice_create].
Qed.
Lemma alice_map_step : ns_step alice_ns alice_held alice_mapped alice_held.
Proof. eapply step_map_write; [| |apply alice_write]; by vm_compute. Qed.
Lemma alice_mapped_reachable : ns_reachable alice_mapped alice_held.
Proof. eapply reach_step; [apply alice_ns_reachable|apply alice_map_step]. Qed.

(** ** Properties *)

(** (Invariant.)  In every state reachable by creating, referencing,
    releasing and configuring user namespaces: a namespace somebody holds a
    reference on is live, dropping that reference never hits the reference
    underflow panic and leaves every other held namespace live, the walk to the
    initial namespace succeeds from every live namespace, and every id map is a
    list of disjoint, non-wrapping extents. *)
Theorem namespace_table_sound s held :
  ns_reachable s held ->
  (forall id, in_table id -> 0 < held id ->
     live s id /\ exists s', namespace_put s id = PutOk s'
       /\ forall j, in_table j -> j <> id -> 0 < held j -> live s' j)
  /\ (forall id, in_table id -> live s id -> userns_is_ancestor s 0 id = true)
  /\ (forall id which, in_table id -> map_ok (get_map which (uns s id))).
Proof.
  intros Hi%ns_reachable_inv. split_and!.
  - intros id Ht Hh. split; [by eapply held_live|].
    destruct (put_by_holder _ _ _ Hi Ht Hh) as (s' & Hp & _ & _ & Hk). exists s'. split; [done|].
    intros j Hj Hne Hhj. apply Hk; [done|by eapply held_live|].
    unfold held_add. by rewrite (proj2 (Z.eqb_neq j id)).
  - intros id Ht Hl. eapply ancestor_root_loop; try done.
    pose proof (inv_level _ _ _ Hi id Ht Hl). unfold NS_MAX_LEVEL, walk_rounds in *. lia.
  - apply (inv_maps _ _ _ Hi).
Qed.

(** (Functional.)  In a reachable state, [ns_capable_cred] answers yes exactly
    when the capability is in the effective set and the credential's namespace
    is the target or an ancestor of it, or the credential's euid owns a child of
    its namespace that is the target or an ancestor of it: the bounded walk and
    its level cut-off lose nothing. *)
Theorem ns_capable_cred_spec s held c ns cap :
  ns_reachable s held -> in_table ns -> live s ns -> in_table (user_ns c) -> live s (user_ns c) ->
  0 <= cap <= CAP_LAST ->
  ns_capable_cred s (Some c) ns cap = true <-> holds_cap s c ns cap.
Proof.
  intros Hi%ns_reachable_inv Ht Hl Hmt Hml Hc. unfold ns_capable_cred.
  rewrite (proj2 (Z.ltb_ge cap 0)), (proj2 (Z.ltb_ge CAP_LAST cap)) by lia.
  rewrite (proj2 (Z.leb_gt _ _)) by apply Ht. simpl orb. cbv iota.
  eapply ns_capable_loop_spec; try done; [lia|].
  pose proof (inv_level _ _ _ Hi ns Ht Hl). unfold NS_MAX_LEVEL, walk_rounds in *. lia.
Qed.

(** C16 (round trip).  In a reachable state, translating an id into the kernel's
    id space and back gives the id again, in both directions and for both users
    and groups, whenever the translation is defined. *)
Theorem id_translation_roundtrip s held ns id :
  ns_reachable s held -> in_table ns -> 0 <= id < U32_MOD ->
  (make_kuid s ns id <> UID_INVALID -> from_kuid s ns (make_kuid s ns id) = id)
  /\ (from_kuid s ns id <> UID_INVALID -> make_kuid s ns (from_kuid s ns id) = id)
  /\ (make_kgid s ns id <> GID_INVALID -> from_kgid s ns (make_kgid s ns id) = id)
  /\ (from_kgid s ns id <> GID_INVALID -> make_kgid s ns (from_kgid s ns id) = id).
Proof.
  intros Hi%ns_reachable_inv Ht Hid.
  pose proof (fun w => inv_maps _ _ _ Hi ns w Ht) as Hm.
  unfold make_kuid, from_kuid, make_kgid, from_kgid.
  destruct ((ns =? 0) || (NS_MAX_USER <=? ns)); [done|].
  split_and!; intros H; eauto using map_down_up, map_up_down.
Qed.

(** C21 (safety).  A task without [CAP_SETUID] (or [CAP_SETGID]) over the parent
    namespace that manages to write a uid (or gid) map has mapped exactly one
    id: its own euid (or egid).  It owns the namespace, and a gid map is only
    written this way once setgroups is denied for good. *)
Theorem unprivileged_map_write s held ok c target which buf rc s' :
  ns_reachable s held -> which = USERNS_UID_MAP \/ which = USERNS_GID_MAP ->
  in_table (target_userns target) -> live s (target_userns target) ->
  ns_capable_cred s (Some c) (parent (uns s (target_userns target))) (cap_setid which) = false ->
  userns_map_write s ok (Some c) target which (Some buf) = (rc, s') -> 0 <= rc ->
  let u := uns s' (target_userns target) in
  owner_kuid u = euid c
  /\ exists f, get_map which u = [Ext f (if which =? USERNS_UID_MAP then euid c else egid c) 1]
  /\ (which = USERNS_GID_MAP -> setgroups_allowed u = false).
Proof.
  intros Hi%ns_reachable_inv Hw Ht Hl Hcap H Hrc u.
  destruct (map_write_success _ _ _ _ _ _ _ _ _ Hi H Hrc)
    as (c' & nm & km & Hc' & _ & Hns & _ & _ & _ & _ & Hperm & Htr & _ & ->). injection Hc' as <-.
  set (ns := target_userns target) in *.
  unfold u. rewrite uns_alter_eq by (done || apply (inv_len_userns _ _ _ Hi)).
  assert (Hown : own_id_map s c ns which nm = true).
  { unfold new_idmap_permitted in Hperm. break_hyp Hperm; [done|]. break_hyp Hperm; [done|].
    break_hyp Hperm; [|congruence]. destruct Hw as [->| ->]; done. }
  unfold own_id_map in Hown. destruct nm as [|e [|e2 nm]]; [done| |done].
  destruct (count e =? 1) eqn:Hcnt in Hown; [|done].
  break_hyp Hown; [|done]. bools. simpl in Htr.
  destruct (_ =? UID_INVALID) eqn:Ek in Htr; [done|]. injection Htr as <-.
  destruct (inv_tree _ _ _ Hi ns Ht Hns Hl) as (_ & [_ Hpt] & _).
  unfold make_kuid, make_kgid in Hown. rewrite (proj2 (Z.leb_gt _ _) Hpt), orb_false_r in Hown.
  destruct Hw as [->| ->]; simpl in Hown |- *; rewrite ?orb_false_r in Hown; bools.
  - split; [done|]. exists (first e). split; [|done].
    unfold get_map at 1; simpl. rewrite Hcnt in *. do 2 f_equal. by destruct (parent (uns s ns) =? 0).
  - split; [done|]. exists (first e). split; [|done].
    unfold get_map at 1; simpl. rewrite Hcnt in *. do 2 f_equal. by destruct (parent (uns s ns) =? 0).
Qed.

(** (Invariant.)  Id maps are written once: no operation changes a map that
    has been written, or lifts a setgroups denial, for as long as the namespace
    lives. *)
Theorem maps_written_once s held s' held' id which :
  ns_reachable s held -> ns_step s held s' held' -> in_table id -> live s id -> live s' id ->
  0 <= which <= 2 ->
  (get_map which (uns s id) <> [] -> get_map which (uns s' id) = get_map which (uns s id))
  /\ (setgroups_allowed (uns s id) = false -> setgroups_allowed (uns s' id) = false).
Proof.
  intros Hi%ns_reachable_inv Hst Ht Hl Hl' Hw. revert Hi Hl Hl'. destruct Hst; intros Hi Hl Hl'.
  - destruct (create_preserves _ _ _ _ _ Hi H H0 (fun _ => H1) H2) as [[? ->]|(? & ? & Hd & _ & Hu)]; [done|].
    rewrite Hu; [done..|]. by intros ->.
  - unfold namespace_get in H1. rewrite (proj2 (ensure_init_id _ _ _ Hi)) in H1.
    break_hyp H1; [|done]. injection H1 as <-. unfold ns_get_locked. by case_match.
  - destruct (put_by_holder _ _ _ Hi H H0) as (s2 & Hp & _ & Hb & _).
    replace s2 with s' in * by congruence. by destruct (Hb id Ht Hl') as [_ ->].
  - rewrite cred_enter_put in H1. destruct (put_by_holder _ _ _ Hi H H0) as (s2 & Hp & _ & Hb & _).
    replace s2 with s' in * by congruence. by destruct (Hb id Ht Hl') as [_ ->].
  - destruct (Z.ltb_spec rc 0); [by rewrite (map_write_fail _ _ _ _ _ _ _ _ _ Hi H1)|].
    destruct buf as [buf|]; [|unfold userns_map_write, EINVAL in H1; simplify_eq; lia].
    destruct (map_write_success _ _ _ _ _ _ _ _ _ Hi H1)
      as (c & nm & km & _ & Hw' & _ & _ & _ & Hempty & _ & _ & _ & _ & ->); [done|].
    destruct (decide (target_userns target = id)) as [<-|Hne]; [|by rewrite uns_alter_ne].
    rewrite uns_alter_eq by (done || apply (inv_len_userns _ _ _ Hi)). split; [|done].
    intros Hne. destruct (decide (which = which0)) as [->|Hww]; [done|].
    unfold get_map, set_map, USERNS_UID_MAP, USERNS_GID_MAP in *; simpl.
    repeat case_match; bools; simplify_eq; try done; lia.
  - destruct (setgroups_write_effect _ _ _ _ _ _ _ Hi H0) as [->|[_ ->]]; [done|].
    destruct (decide (target_userns target = id)) as [<-|Hne]; [|by rewrite uns_alter_ne].
    rewrite uns_alter_eq by (done || apply (inv_len_userns _ _ _ Hi)). done.
Qed.

(** ** The properties at the concrete run *)

Lemma namespace_table_sound_witness :
  live alice_mapped 1 /\ userns_is_ancestor alice_mapped 0 1 = true.
Proof.
  destruct (namespace_table_sound _ _ alice_mapped_reachable) as (H1 & H2 & _).
  split; [apply (H1 1)|apply (H2 1)]; by vm_compute.
Defined.

Lemma ns_capable_cred_spec_witness : holds_cap alice_ns alice 1 CAP_SYS_ADMIN.
Proof.
  apply (ns_capable_cred_spec alice_ns alice_held alice 1 CAP_SYS_ADMIN alice_ns_reachable);
    by vm_compute.
Defined.

Lemma id_translation_roundtrip_witness :
  make_kuid alice_mapped 1 0 = 1000 /\ from_kuid alice_mapped 1 (make_kuid alice_mapped 1 0) = 0.
Proof.
  split; [by vm_compute|].
  apply (id_translation_roundtrip alice_mapped alice_held 1 0 alice_mapped_reachable); by vm_compute.
Defined.

Lemma unprivileged_map_write_witness :
  exists f, get_map USERNS_UID_MAP (uns alice_mapped 1) = [Ext f 1000 1].
Proof.
  destruct (unprivileged_map_write alice_ns alice_held true alice (Some alice_inside) USERNS_UID_MAP
              alice_line 9 alice_mapped alice_ns_reachable) as (_ & f & H & _);
    [by left|by vm_compute|by vm_compute|by vm_compute|apply alice_write|done|].
  exists f. exact H.
Defined.

Lemma maps_written_once_witness :
  get_map USERNS_GID_MAP (uns alice_mapped 0) = get_map USERNS_GID_MAP (uns alice_ns 0).
Proof.
  apply (maps_written_once alice_ns alice_held alice_mapped alice_held 0 USERNS_GID_MAP
           alice_ns_reachable alice_map_step); by vm_compute.
Defined.

(** [ns_capable_cred] also answers from the effective set when it walks up to the
    credential's own namespace: a root credential that owns nothing below its
    namespace still holds its capabilities there. *)
Example effective_set_reaches_descendants :
  let c := set_cap_effective (cap_bit CAP_SYS_ADMIN) (set_euid 0 alice) in
  owner_kuid (uns alice_ns 1) <> euid c /\ ns_capable_cred alice_ns (Some c) 1 CAP_SYS_ADMIN = true.
Proof. by vm_compute. Qed.

End UserNsProofs.
