(* ===== verification/UidGid.v ===== *)
(** Users, groups and credentials ([kernel/sched/uidgid.c]).

    The user and group tables, the set*id family with its capability fix-ups,
    the capability side of execve, securebits, capset and the mode-bit access
    check, and the options of prctl that change a credential
    ([kernel/syscall/syscall.c]).  Ids are kernel ids; the user-namespace table of [UserNs] is passed
    in where the code consults it.  A null credential is [None]. *)
From stdpp Require Import strings.
From S2P Require Import Prelude Cred UserNs UserNsProofs.
Local Open Scope Z_scope.
Local Open Scope kernel_scope.

Module UidGid.
Import Cred UserNs UserNsProofs.

(** ** User and group tables *)

Definition MAX_USERS := 64.
Definition NAME_LEN := 31.

Record user := mkUser { u_uid : Z; u_gid : Z; u_name : list Z }.
Record group := mkGroup { g_gid : Z; g_name : list Z; g_members : list Z }.

(** [users[0 .. user_count)] and [groups[0 .. group_count)], each group with
    [members[0 .. member_count)]; names are the bytes before the terminator. *)
Record idtab := mkTab { users : list user; groups_tab : list group }.

Definition user_find_by_uid (t : idtab) (id : Z) : option user :=
  head (filter (fun u => u_uid u = id) (users t)).
Definition user_find_by_name (t : idtab) (name : list Z) : option user :=
  head (filter (fun u => u_name u = name) (users t)).
Definition group_find_by_gid (t : idtab) (id : Z) : option group :=
  head (filter (fun g => g_gid g = id) (groups_tab t)).

Definition user_add (t : idtab) (id gid : Z) (name : list Z) : Z * idtab :=
  if MAX_USERS <=? Z.of_nat (length (users t)) then (-1, t)
  else if bool_decide (is_Some (user_find_by_uid t id)) then (-1, t)
  else (0, mkTab (users t ++ [mkUser id gid (take (Z.to_nat NAME_LEN) name)]) (groups_tab t)).

Definition group_add (t : idtab) (id : Z) (name : list Z) : Z * idtab :=
  if MAX_GROUPS <=? Z.of_nat (length (groups_tab t)) then (-1, t)
  else if bool_decide (is_Some (group_find_by_gid t id)) then (-1, t)
  else (0, mkTab (users t) (groups_tab t ++ [mkGroup id (take (Z.to_nat NAME_LEN) name) []])).

Definition group_add_member (t : idtab) (id u : Z) : Z * idtab :=
  match first_index (fun g => g_gid g =? id) (groups_tab t) with
  | None => (-1, t)
  | Some i =>
      match groups_tab t !! i with
      | None => (-1, t)
      | Some g =>
          if MAX_USERS <=? Z.of_nat (length (g_members g)) then (-1, t)
          else if existsb (fun m => m =? u) (g_members g) then (0, t)
          else (0, mkTab (users t)
                     (<[i := mkGroup (g_gid g) (g_name g) (g_members g ++ [u])]> (groups_tab t)))
      end
  end.

Definition bytes_of (s : String.string) : list Z :=
  map (fun a => Z.of_nat (Ascii.nat_of_ascii a)) (String.list_ascii_of_string s).
Arguments bytes_of _%_string.

Definition uidgid_init : idtab :=
  let t := mkTab [] [] in
  let t := snd (user_add t ROOT_UID ROOT_GID (bytes_of "root")) in
  let t := snd (group_add t ROOT_GID (bytes_of "root")) in
  let t := snd (group_add_member t ROOT_GID ROOT_UID) in
  let t := snd (group_add t 5 (bytes_of "tty")) in
  let t := snd (group_add t 6 (bytes_of "disk")) in
  let t := snd (group_add t 7 (bytes_of "net")) in
  let t := snd (group_add t 10 (bytes_of "wheel")) in
  let t := snd (group_add_member t 10 ROOT_UID) in
  let t := snd (user_add t 1 1 (bytes_of "daemon")) in
  let t := snd (group_add t 1 (bytes_of "daemon")) in
  let t := snd (group_add_member t 1 1) in
  let t := snd (user_add t 1000 1000 (bytes_of "user")) in
  let t := snd (group_add t 1000 (bytes_of "users")) in
  snd (group_add_member t 1000 1000).

(** ** Credential lifetime *)

Definition cred_create_default (kzalloc_ok : bool) : option cred :=
  if kzalloc_ok then
    Some (mkCred ROOT_UID ROOT_UID ROOT_UID ROOT_GID ROOT_GID ROOT_GID
            (replicate (Z.to_nat MAX_GROUPS) 0) 0 18 ROOT_UID ROOT_GID
            CAP_FULL_SET CAP_FULL_SET 0 CAP_FULL_SET 0 0 0)
  else None.

Definition cred_dup (s : ns_state) (kzalloc_ok : bool) (src : option cred)
    : option cred * ns_state :=
  match src with
  | None => (cred_create_default kzalloc_ok, s)
  | Some c =>
      if negb kzalloc_ok then (None, s)
      else if user_ns c =? 0 then (Some c, s)
      else match namespace_get s (user_ns c) with
           | (rc, s') => (Some (if rc =? 0 then c else set_user_ns 0 c), s')
           end
  end.

Definition cred_free (s : ns_state) (c : option cred) : put_result :=
  match c with None => PutOk s | Some c => namespace_put s (user_ns c) end.

(** ** The set*id family *)

Definition cred_root_kuid (s : ns_state) (c : cred) : Z := make_kuid s (user_ns c) 0.
Definition priv_setuid (s : ns_state) (c : cred) : bool :=
  ns_capable_cred s (Some c) (user_ns c) CAP_SETUID.
Definition priv_setgid (s : ns_state) (c : cred) : bool :=
  ns_capable_cred s (Some c) (user_ns c) CAP_SETGID.

Definition secbit (c : cred) (n : Z) : bool := securebits c &? SECBIT n.

Definition cred_fixup_setuid (s : ns_state) (old_ruid old_euid old_suid : Z) (c : cred) : cred :=
  if secbit c SECURE_NO_SETUID_FIXUP then c
  else
    let root := cred_root_kuid s c in
    let was_root := (old_ruid =? root) || (old_euid =? root) || (old_suid =? root) in
    let now_root := (uid c =? root) || (euid c =? root) || (suid c =? root) in
    let c1 := if was_root && negb now_root then
                set_cap_ambient 0
                  (if secbit c SECURE_KEEP_CAPS then c
                   else set_cap_effective 0 (set_cap_permitted 0 c))
              else c in
    let c2 := if (old_euid =? root) && (euid c1 <>? root) then set_cap_effective 0 c1 else c1 in
    if (old_euid <>? root) && (euid c2 =? root) then set_cap_effective (cap_permitted c2) c2 else c2.

Definition CAP_FS_MASK : Z :=
  Z.lor (Z.lor (Z.lor (Z.lor (Z.lor (Z.lor (Z.lor (cap_bit CAP_CHOWN) (cap_bit CAP_DAC_OVERRIDE))
    (cap_bit CAP_DAC_READ_SEARCH)) (cap_bit CAP_FOWNER)) (cap_bit CAP_FSETID))
    (cap_bit CAP_LINUX_IMMUTABLE)) (cap_bit CAP_MKNOD)) (cap_bit CAP_MAC_OVERRIDE).

Definition cred_fixup_fsuid (s : ns_state) (old_fsuid : Z) (c : cred) : cred :=
  if secbit c SECURE_NO_SETUID_FIXUP then c
  else
    let root := cred_root_kuid s c in
    let c1 := if (old_fsuid =? root) && (fsuid c <>? root)
              then set_cap_effective (Z.land (cap_effective c) (Z.lnot CAP_FS_MASK)) c else c in
    if (old_fsuid <>? root) && (fsuid c1 =? root)
    then set_cap_effective (Z.lor (cap_effective c1) (Z.land (cap_permitted c1) CAP_FS_MASK)) c1
    else c1.

Definition cred_sync_fsids (s : ns_state) (c : cred) : cred :=
  cred_fixup_fsuid s (fsuid c) (set_fsgid (egid c) (set_fsuid (euid c) c)).

(** A null credential answers [null_rc]. *)
Definition with_cred (co : option cred) (null_rc : Z) (f : cred -> Z * cred) : Z * option cred :=
  match co with
  | None => (null_rc, None)
  | Some c => let '(rc, c') := f c in (rc, Some c')
  end.

Definition cred_set_uid (s : ns_state) (co : option cred) (u : Z) : Z * option cred :=
  with_cred co (- EINVAL) (fun c =>
    let done c1 := (0, cred_sync_fsids s
                         (cred_fixup_setuid s (uid c) (euid c) (suid c) (set_euid u c1))) in
    if priv_setuid s c then done (set_uid u (set_suid u c))
    else if (u <>? uid c) && (u <>? suid c) then (- EPERM, c)
    else done c).

Definition cred_set_gid (s : ns_state) (co : option cred) (g : Z) : Z * option cred :=
  with_cred co (- EINVAL) (fun c =>
    let done c1 := (0, cred_sync_fsids s (set_egid g c1)) in
    if priv_setgid s c then done (set_gid g (set_sgid g c))
    else if (g <>? gid c) && (g <>? sgid c) then (- EPERM, c)
    else done c).

(** The [int] arguments use -1 for "leave unchanged". *)
Definition keep (v : Z) (set : Z -> cred -> cred) (c : cred) : cred :=
  if v <>? -1 then set (u32 v) c else c.

Definition cred_setreuid (s : ns_state) (co : option cred) (r e : Z) : Z * option cred :=
  with_cred co (- EINVAL) (fun c =>
    let priv := priv_setuid s c in
    if (r <>? -1) && negb priv && (u32 r <>? uid c) && (u32 r <>? euid c) then (- EPERM, c)
    else if (e <>? -1) && negb priv && (u32 e <>? uid c) && (u32 e <>? euid c)
            && (u32 e <>? suid c) then (- EPERM, c)
    else
      let c1 := keep e set_euid (keep r set_uid c) in
      let c2 := if (r <>? -1) || ((e <>? -1) && (u32 e <>? uid c))
                then set_suid (euid c1) c1 else c1 in
      (0, cred_sync_fsids s (cred_fixup_setuid s (uid c) (euid c) (suid c) c2))).

Definition cred_setregid (s : ns_state) (co : option cred) (r e : Z) : Z * option cred :=
  with_cred co (- EINVAL) (fun c =>
    let priv := priv_setgid s c in
    if (r <>? -1) && negb priv && (u32 r <>? gid c) && (u32 r <>? egid c) then (- EPERM, c)
    else if (e <>? -1) && negb priv && (u32 e <>? gid c) && (u32 e <>? egid c)
            && (u32 e <>? sgid c) then (- EPERM, c)
    else
      let c1 := keep e set_egid (keep r set_gid c) in
      let c2 := if (r <>? -1) || ((e <>? -1) && (u32 e <>? gid c))
                then set_sgid (egid c1) c1 else c1 in
      (0, cred_sync_fsids s c2)).

Definition foreign_id (v a b d : Z) : bool :=
  (v <>? -1) && (u32 v <>? a) && (u32 v <>? b) && (u32 v <>? d).

Definition cred_setresuid (s : ns_state) (co : option cred) (r e sv : Z) : Z * option cred :=
  with_cred co (- EINVAL) (fun c =>
    if negb (priv_setuid s c) && (foreign_id r (uid c) (euid c) (suid c)
         || foreign_id e (uid c) (euid c) (suid c) || foreign_id sv (uid c) (euid c) (suid c))
    then (- EPERM, c)
    else
      let c1 := keep sv set_suid (keep e set_euid (keep r set_uid c)) in
      (0, cred_sync_fsids s (cred_fixup_setuid s (uid c) (euid c) (suid c) c1))).

Definition cred_setresgid (s : ns_state) (co : option cred) (r e sv : Z) : Z * option cred :=
  with_cred co (- EINVAL) (fun c =>
    if negb (priv_setgid s c) && (foreign_id r (gid c) (egid c) (sgid c)
         || foreign_id e (gid c) (egid c) (sgid c) || foreign_id sv (gid c) (egid c) (sgid c))
    then (- EPERM, c)
    else
      let c1 := keep sv set_sgid (keep e set_egid (keep r set_gid c)) in
      (0, cred_sync_fsids s c1)).

Definition cred_set_fsuid (s : ns_state) (co : option cred) (f : Z) : Z * option cred :=
  with_cred co 0 (fun c =>
    let prev := fsuid c in
    (prev, if (f =? uid c) || (f =? euid c) || (f =? suid c) || (f =? fsuid c) || priv_setuid s c
           then cred_fixup_fsuid s prev (set_fsuid f c) else c)).

Definition cred_set_fsgid (s : ns_state) (co : option cred) (f : Z) : Z * option cred :=
  with_cred co 0 (fun c =>
    (fsgid c, if (f =? gid c) || (f =? egid c) || (f =? sgid c) || (f =? fsgid c) || priv_setgid s c
              then set_fsgid f c else c)).

(** ** Access by mode bits *)

Definition cred_can_access (co : option cred) (file_uid file_gid file_mode access_mask : Z) : bool :=
  match co with
  | None => false
  | Some c =>
      let in_group := (fsgid c =? file_gid)
        || existsb (fun g => g =? file_gid) (take (Z.to_nat (ngroups c)) (groups c)) in
      let perms := if fsuid c =? file_uid then Z.land (Z.shiftr file_mode 6) 7
                   else if in_group then Z.land (Z.shiftr file_mode 3) 7
                   else Z.land file_mode 7 in
      Z.land perms access_mask =? access_mask
  end.

(** ** Capability sets *)

Definition cred_refresh_caps (s : ns_state) (c : cred) : cred :=
  if secbit c SECURE_NO_SETUID_FIXUP then c
  else
    let root := (euid c =? cred_root_kuid s c) && negb (secbit c SECURE_NOROOT) in
    let want := if root then CAP_FULL_SET
                else if secbit c SECURE_KEEP_CAPS then cap_permitted c else 0 in
    let c1 := set_cap_permitted (Z.land want (cap_bounding c)) c in
    let c2 := set_cap_effective (cap_permitted c1) c1 in
    set_cap_inheritable (Z.land (cap_inheritable c2) (cap_bounding c2)) c2.

(** Mode bits of a set-user-id file, and of an executable set-group-id one. *)
Definition S_ISUID := 2048.
Definition S_ISGID_XGRP := 1032.

Definition exec_ids (s : ns_state) (file_mode file_kuid file_kgid : Z) (honour : bool) (c : cred) : cred :=
  let mapped := kuid_has_mapping s (user_ns c) file_kuid && kgid_has_mapping s (user_ns c) file_kgid in
  if honour && mapped then
    let c1 := if file_mode &? S_ISUID then set_euid file_kuid c else c in
    if Z.land file_mode S_ISGID_XGRP =? S_ISGID_XGRP then set_egid file_kgid c1 else c1
  else c.

Definition cred_exec_transform (s : ns_state) (co : option cred)
    (file_mode file_kuid file_kgid : Z) (honour : bool) : Z * option cred :=
  with_cred co 0 (fun c0 =>
    let root := cred_root_kuid s c0 in
    let c := exec_ids s file_mode file_kuid file_kgid honour c0 in
    let is_setid := (euid c <>? uid c) || (egid c <>? gid c) in
    let rooted := negb (secbit c SECURE_NOROOT) && ((euid c =? root) || (uid c =? root)) in
    let permitted := if rooted then Z.lor (cap_bounding c) (cap_inheritable c) else 0 in
    let effective := rooted && (euid c =? root) in
    let permitted := Z.land permitted (cap_bounding c) in
    let c := if is_setid then set_cap_ambient 0 c else c in
    let permitted := Z.lor permitted (cap_ambient c) in
    let c := set_cap_permitted permitted c in
    let c := set_cap_effective (if effective then permitted else cap_ambient c) c in
    let c := set_fsgid (egid c) (set_fsuid (euid c) (set_sgid (egid c) (set_suid (euid c) c))) in
    (Z.b2z is_setid, set_securebits (Z.land (securebits c) (Z.lnot (SECBIT SECURE_KEEP_CAPS))) c)).

Definition cred_get_securebits (co : option cred) : Z :=
  match co with Some c => securebits c | None => 0 end.

Definition cred_set_securebits (s : ns_state) (co : option cred) (bits : Z) : Z * option cred :=
  with_cred co (- EINVAL) (fun c =>
    let changed := Z.land (Z.lxor (securebits c) bits) SECURE_ALL_BITS in
    if bits &? Z.lnot (Z.lor SECURE_ALL_BITS SECURE_ALL_LOCKS) then (- EINVAL, c)
    else if Z.land (securebits c) SECURE_ALL_LOCKS &? Z.lnot bits then (- EPERM, c)
    else if Z.land changed (Z.shiftr (securebits c) 1) &? SECURE_ALL_BITS then (- EPERM, c)
    else if negb (ns_capable_cred s (Some c) (user_ns c) CAP_SETPCAP) then (- EPERM, c)
    else (0, set_securebits bits c)).

Definition cred_capset (co : option cred) (eff perm inh : Z) : Z * option cred :=
  with_cred co (- EINVAL) (fun c =>
    if perm &? Z.lnot (cap_permitted c) then (- EPERM, c)
    else if eff &? Z.lnot perm then (- EPERM, c)
    else if inh &? Z.lnot (Z.lor (cap_inheritable c) (cap_permitted c)) then (- EPERM, c)
    else
      let c1 := set_cap_inheritable inh (set_cap_effective eff (set_cap_permitted perm c)) in
      (0, set_cap_ambient (Z.land (cap_ambient c1) (Z.land perm inh)) c1)).

Definition cred_has_cap (s : ns_state) (co : option cred) (cap : Z) : bool :=
  ns_capable_cred s co 0 cap.
Definition cred_has_cap_effective (co : option cred) (cap : Z) : bool :=
  match co with
  | None => false
  | Some c => if (cap <? 0) || (CAP_LAST <? cap) then false else cap_effective c &? cap_bit cap
  end.

(** ** prctl *)

Definition SECURE_KEEP_CAPS_LOCKED := 5.
(** PR_SET_KEEPCAPS. *)
Definition prctl_set_keepcaps (co : option cred) (arg1 : Z) : Z * option cred :=
  with_cred co (- EINVAL) (fun c =>
    if 1 <? arg1 then (- EINVAL, c)
    else if secbit c SECURE_KEEP_CAPS_LOCKED then (- EPERM, c)
    else (0, set_securebits (if arg1 <>? 0 then Z.lor (securebits c) (SECBIT SECURE_KEEP_CAPS)
                             else Z.land (securebits c) (Z.lnot (SECBIT SECURE_KEEP_CAPS))) c)).
(** PR_CAPBSET_DROP. *)
Definition drop_bounding (cap : Z) (c : cred) : cred :=
  let b := Z.land (cap_bounding c) (Z.lnot (cap_bit cap)) in
  set_cap_inheritable (Z.land (cap_inheritable c) b) (set_cap_bounding b c).
Definition prctl_capbset_drop (s : ns_state) (co : option cred) (arg1 : Z) : Z * option cred :=
  with_cred co (- EINVAL) (fun c =>
    if (i32 arg1 <? 0) || (CAP_LAST <? i32 arg1) then (- EINVAL, c)
    else if negb (ns_capable_cred s (Some c) (user_ns c) CAP_SETPCAP) then (- EPERM, c)
    else (0, drop_bounding (i32 arg1) c)).
(** PR_CAP_AMBIENT. *)
Definition CAP_AMBIENT_IS_SET := 1.
Definition CAP_AMBIENT_RAISE := 2.
Definition CAP_AMBIENT_LOWER := 3.
Definition CAP_AMBIENT_CLEAR_ALL := 4.
Definition prctl_cap_ambient (co : option cred) (arg1 arg2 arg3 arg4 : Z) : Z * option cred :=
  with_cred co (- EINVAL) (fun c =>
    if u32 arg1 =? CAP_AMBIENT_CLEAR_ALL then
      if (arg2 <>? 0) || (arg3 <>? 0) || (arg4 <>? 0) then (- EINVAL, c) else (0, set_cap_ambient 0 c)
    else if (i32 arg2 <? 0) || (CAP_LAST <? i32 arg2) || (arg3 <>? 0) || (arg4 <>? 0) then (- EINVAL, c)
    else
      let bit := cap_bit (i32 arg2) in
      if u32 arg1 =? CAP_AMBIENT_IS_SET then (if cap_ambient c &? bit then 1 else 0, c)
      else if u32 arg1 =? CAP_AMBIENT_RAISE then
        if negb (cap_permitted c &? bit) || negb (cap_inheritable c &? bit) then (- EPERM, c)
        else if secbit c SECURE_NO_CAP_AMBIENT_RAISE then (- EPERM, c)
        else (0, set_cap_ambient (Z.lor (cap_ambient c) bit) c)
      else if u32 arg1 =? CAP_AMBIENT_LOWER then (0, set_cap_ambient (Z.land (cap_ambient c) (Z.lnot bit)) c)
      else (- EINVAL, c)).

(** ** The operations a task applies to its own credential *)

(** Everything but execve and entering a user namespace.  The namespace table
    may change between steps. *)
Inductive cred_step : cred -> cred -> Prop :=
| cs_set_uid s u c rc c' : cred_set_uid s (Some c) u = (rc, Some c') -> cred_step c c'
| cs_set_gid s g c rc c' : cred_set_gid s (Some c) g = (rc, Some c') -> cred_step c c'
| cs_setreuid s r e c rc c' : cred_setreuid s (Some c) r e = (rc, Some c') -> cred_step c c'
| cs_setregid s r e c rc c' : cred_setregid s (Some c) r e = (rc, Some c') -> cred_step c c'
| cs_setresuid s r e v c rc c' : cred_setresuid s (Some c) r e v = (rc, Some c') -> cred_step c c'
| cs_setresgid s r e v c rc c' : cred_setresgid s (Some c) r e v = (rc, Some c') -> cred_step c c'
| cs_set_fsuid s f c rc c' : cred_set_fsuid s (Some c) f = (rc, Some c') -> cred_step c c'
| cs_set_fsgid s f c rc c' : cred_set_fsgid s (Some c) f = (rc, Some c') -> cred_step c c'
| cs_securebits s b c rc c' : cred_set_securebits s (Some c) b = (rc, Some c') -> cred_step c c'
| cs_capset eff perm inh c rc c' : cred_capset (Some c) eff perm inh = (rc, Some c') -> cred_step c c'
| cs_keepcaps a c rc c' : prctl_set_keepcaps (Some c) a = (rc, Some c') -> cred_step c c'
| cs_bounding s a c rc c' : prctl_capbset_drop s (Some c) a = (rc, Some c') -> cred_step c c'
| cs_ambient a b d e c rc c' : prctl_cap_ambient (Some c) a b d e = (rc, Some c') -> cred_step c c'.

(** The same with execve, entering a user namespace and a fork's copy. *)
Inductive cred_life : cred -> cred -> Prop :=
| cl_step c c' : cred_step c c' -> cred_life c c'
| cl_exec s mode ku kg h c rc c' :
    cred_exec_transform s (Some c) mode ku kg h = (rc, Some c') -> cred_life c c'
| cl_enter s ns c c' : fst (cred_enter_userns_locked s (Some c) ns) = Some c' -> cred_life c c'
| cl_dup s s' ok c c' : cred_dup s ok (Some c) = (Some c', s') -> cred_life c c'.

(** ** Lemmas: capability sets *)

(** Effective within permitted, ambient within permitted and, inside of the
    bounding set, within inheritable, and every set within the capabilities the
    kernel defines. *)
Record caps_ok (c : cred) : Prop := {
  ok_eff : cap_subset (cap_effective c) (cap_permitted c);
  ok_amb_perm : cap_subset (cap_ambient c) (cap_permitted c);
  ok_amb_inh : cap_subset (Z.land (cap_ambient c) (cap_bounding c)) (cap_inheritable c);
  ok_perm : cap_subset (cap_permitted c) CAP_FULL_SET;
  ok_inh : cap_subset (cap_inheritable c) CAP_FULL_SET;
  ok_bnd : cap_subset (cap_bounding c) CAP_FULL_SET }.

Lemma mask_clear a b : a &? Z.lnot b = false -> cap_subset a b.
Proof. intros H%negb_false_iff%Z.eqb_eq. by apply cap_subset_mask. Qed.

Ltac caps_ok_fields :=
  match goal with H : caps_ok _ |- _ => destruct H end; constructor; simpl in *; eauto 4 with caps.

Lemma fixup_setuid_caps s a b d c : caps_ok c -> caps_ok (cred_fixup_setuid s a b d c).
Proof.
  intros H. unfold cred_fixup_setuid. repeat break_goal; caps_ok_fields.
Qed.
Lemma fixup_fsuid_caps s f c : caps_ok c -> caps_ok (cred_fixup_fsuid s f c).
Proof.
  intros H. unfold cred_fixup_fsuid. repeat break_goal; caps_ok_fields.
Qed.
Lemma sync_fsids_caps s c : caps_ok c -> caps_ok (cred_sync_fsids s c).
Proof. intros H. apply fixup_fsuid_caps. caps_ok_fields. Qed.
Lemma keep_caps v set c :
  (forall x, caps_ok (set x c)) -> caps_ok c -> caps_ok (keep v set c).
Proof. intros Hs H. unfold keep. by break_goal. Qed.

(** ** Lemmas: what a step can be *)

Definition own_uid (c : cred) (x : Z) : Prop := x = uid c \/ x = euid c \/ x = suid c.
Definition own_gid (c : cred) (x : Z) : Prop := x = gid c \/ x = egid c \/ x = sgid c.
Definition uids_within (c c' : cred) : Prop := own_uid c (uid c') /\ own_uid c (euid c') /\ own_uid c (suid c').
Definition gids_within (c c' : cred) : Prop := own_gid c (gid c') /\ own_gid c (egid c') /\ own_gid c (sgid c').
Definition same_uids (c c' : cred) : Prop := uid c' = uid c /\ euid c' = euid c /\ suid c' = suid c.
Definition same_gids (c c' : cred) : Prop := gid c' = gid c /\ egid c' = egid c /\ sgid c' = sgid c.
(** Everything else that the fix-ups look at. *)
Definition same_rest (c c' : cred) : Prop :=
  cap_effective c' = cap_effective c /\ cap_permitted c' = cap_permitted c
  /\ cap_inheritable c' = cap_inheritable c /\ cap_bounding c' = cap_bounding c
  /\ cap_ambient c' = cap_ambient c /\ securebits c' = securebits c /\ user_ns c' = user_ns c
  /\ fsuid c' = fsuid c /\ fsgid c' = fsgid c.

Definition locks_respected (old new : Z) : Prop :=
  cap_subset (Z.land old SECURE_ALL_LOCKS) new
  /\ forall n, Z.testbit SECURE_ALL_BITS n = true -> 0 <= n -> Z.testbit old (n + 1) = true ->
       Z.testbit new n = Z.testbit old n.

Inductive step_form (c : cred) : cred -> Prop :=
| form_same : step_form c c
| form_uids s c1 :
    same_rest c c1 -> same_gids c c1 -> priv_setuid s c = true \/ uids_within c c1 ->
    step_form c (cred_sync_fsids s (cred_fixup_setuid s (uid c) (euid c) (suid c) c1))
| form_gids s c1 :
    same_rest c c1 -> same_uids c c1 -> priv_setgid s c = true \/ gids_within c c1 ->
    step_form c (cred_sync_fsids s c1)
| form_fsuid s f :
    priv_setuid s c = true \/ own_uid c f \/ f = fsuid c ->
    step_form c (cred_fixup_fsuid s (fsuid c) (set_fsuid f c))
| form_fsgid s f :
    priv_setgid s c = true \/ own_gid c f \/ f = fsgid c -> step_form c (set_fsgid f c)
| form_securebits bits : locks_respected (securebits c) bits -> step_form c (set_securebits bits c)
| form_caps eff perm inh :
    cap_subset perm (cap_permitted c) -> cap_subset eff perm ->
    cap_subset inh (Z.lor (cap_inheritable c) (cap_permitted c)) ->
    step_form c (set_cap_ambient (Z.land (cap_ambient c) (Z.land perm inh))
      (set_cap_inheritable inh (set_cap_effective eff (set_cap_permitted perm c))))
| form_bounding cap : step_form c (drop_bounding cap c)
| form_ambient amb :
    cap_subset amb (Z.lor (cap_ambient c) (Z.land (cap_permitted c) (cap_inheritable c))) ->
    step_form c (set_cap_ambient amb c).

Lemma securebits_locks sb bits :
  Z.land sb SECURE_ALL_LOCKS &? Z.lnot bits = false ->
  Z.land (Z.land (Z.lxor sb bits) SECURE_ALL_BITS) (Z.shiftr sb 1) &? SECURE_ALL_BITS = false ->
  locks_respected sb bits.
Proof.
  intros H1%mask_clear H2%negb_false_iff%Z.eqb_eq. split; [done|]. intros n Hn H0 Hl.
  assert (H := f_equal (fun z => Z.testbit z n) H2). cbv beta in H.
  rewrite !Z.land_spec, Z.lxor_spec, Z.shiftr_spec, Hn, Hl, Z.bits_0 in H by done.
  by destruct (Z.testbit sb n), (Z.testbit bits n).
Qed.

(** The flag of PR_SET_KEEPCAPS changes only while its lock is open. *)
Lemma keepcaps_locks sb (b : bool) : sb &? SECBIT SECURE_KEEP_CAPS_LOCKED = false ->
  locks_respected sb (if b then Z.lor sb (SECBIT SECURE_KEEP_CAPS) else Z.land sb (Z.lnot (SECBIT SECURE_KEEP_CAPS))).
Proof.
  intros Hl%negb_false_iff%Z.eqb_eq.
  assert (H5 : Z.testbit sb 5 = false).
  { assert (H := f_equal (fun z => Z.testbit z 5) Hl). cbv beta in H. by rewrite Z.land_spec, andb_true_r in H. }
  assert (Hb : forall n, 0 <= n -> n <> 4 ->
    Z.testbit (if b then Z.lor sb (SECBIT SECURE_KEEP_CAPS) else Z.land sb (Z.lnot (SECBIT SECURE_KEEP_CAPS))) n = Z.testbit sb n).
  { intros n Hn H4. assert (E : Z.testbit (SECBIT SECURE_KEEP_CAPS) n = false).
    { unfold SECBIT, SECURE_KEEP_CAPS. rewrite Z.shiftl_1_l. apply Z.pow2_bits_false. lia. }
    destruct b; [rewrite Z.lor_spec, E; apply orb_false_r|]. rewrite Z.land_spec, Z.lnot_spec, E by done. apply andb_true_r. }
  split.
  - intros n Hn. rewrite Z.land_spec. intros [H1 H2]%andb_true_iff. rewrite Hb; [done|done|]. by intros ->.
  - intros n Hn H0 H1. apply Hb; [done|]. intros ->. change (4 + 1) with 5 in H1. congruence.
Qed.
Lemma cap_bit_spec a cap : 0 <= cap -> a &? cap_bit cap = Z.testbit a cap.
Proof.
  intros Hc. unfold cap_bit. destruct (Z.testbit a cap) eqn:E.
  - apply negb_true_iff, Z.eqb_neq. intros H.
    assert (Hb := f_equal (fun z => Z.testbit z cap) H). cbv beta in Hb.
    rewrite Z.land_spec, E, Z.shiftl_1_l, Z.pow2_bits_true, Z.bits_0 in Hb by done. done.
  - apply negb_false_iff, Z.eqb_eq, Z.bits_inj'. intros i Hi. rewrite Z.land_spec, Z.shiftl_1_l, Z.bits_0.
    destruct (decide (i = cap)) as [->|]; [by rewrite E|]. by rewrite Z.pow2_bits_false, andb_false_r by lia.
Qed.
Lemma cap_bit_subset a cap : 0 <= cap -> Z.testbit a cap = true -> cap_subset (cap_bit cap) a.
Proof.
  intros Hc Ha i Hi. unfold cap_bit. rewrite Z.shiftl_1_l. destruct (decide (i = cap)) as [->|]; [done|].
  by rewrite Z.pow2_bits_false by lia.
Qed.

Lemma raise_within c cap a d : (cap <? 0) || (CAP_LAST <? cap) || a || d = false ->
  negb (cap_permitted c &? cap_bit cap) || negb (cap_inheritable c &? cap_bit cap) = false ->
  cap_subset (cap_bit cap) (Z.lor (cap_ambient c) (Z.land (cap_permitted c) (cap_inheritable c))).
Proof.
  intros H1 H2. rewrite !orb_false_iff in H1. destruct H1 as [[[Hc%Z.ltb_ge _] _] _].
  apply orb_false_iff in H2 as [Hp%negb_false_iff Hi%negb_false_iff]. rewrite cap_bit_spec in Hp, Hi by done.
  apply cap_subset_lor_r, cap_subset_land; by apply cap_bit_subset.
Qed.

(** Case analysis on the branches of one operation. *)
Ltac op_cases H :=
  unfold with_cred in H;
  repeat match type of H with
  | context [if ?b then (_, _) else _] => destruct b eqn:? in H
  end; simplify_eq.

Lemma eqb_neg_and a b : negb a && negb b = false -> a = true \/ b = true.
Proof. destruct a, b; auto. Qed.
Lemma foreign_own v a b d : foreign_id v a b d = false -> v = -1 \/ u32 v = a \/ u32 v = b \/ u32 v = d.
Proof.
  unfold foreign_id. intros H. destruct (Z.eqb_spec v (-1)); [auto|].
  destruct (Z.eqb_spec (u32 v) a), (Z.eqb_spec (u32 v) b), (Z.eqb_spec (u32 v) d); try done; auto.
Qed.

Lemma set_uid_form s u c rc c' : cred_set_uid s (Some c) u = (rc, Some c') -> step_form c c'.
Proof.
  unfold cred_set_uid. intros H. op_cases H.
  - apply form_uids; [done..|by left].
  - apply form_same.
  - apply form_uids; [done..|right]. apply eqb_neg_and in Heqb0.
    unfold uids_within, own_uid; simpl. destruct Heqb0; bools; tauto.
Qed.
Lemma set_gid_form s g c rc c' : cred_set_gid s (Some c) g = (rc, Some c') -> step_form c c'.
Proof.
  unfold cred_set_gid. intros H. op_cases H.
  - apply form_gids; [done..|by left].
  - apply form_same.
  - apply form_gids; [done..|right]. apply eqb_neg_and in Heqb0.
    unfold gids_within, own_gid; simpl. destruct Heqb0; bools; tauto.
Qed.

Lemma setres_uids r e v c (P : Z -> Prop) :
  (r <> -1 -> P (u32 r)) -> (e <> -1 -> P (u32 e)) -> (v <> -1 -> P (u32 v)) ->
  P (uid c) -> P (euid c) -> P (suid c) ->
  let c1 := keep v set_suid (keep e set_euid (keep r set_uid c)) in
  P (uid c1) /\ P (euid c1) /\ P (suid c1).
Proof.
  intros. unfold c1, keep. destruct (Z.eqb_spec r (-1)), (Z.eqb_spec e (-1)), (Z.eqb_spec v (-1));
    simpl; auto.
Qed.
Lemma setres_gids r e v c (P : Z -> Prop) :
  (r <> -1 -> P (u32 r)) -> (e <> -1 -> P (u32 e)) -> (v <> -1 -> P (u32 v)) ->
  P (gid c) -> P (egid c) -> P (sgid c) ->
  let c1 := keep v set_sgid (keep e set_egid (keep r set_gid c)) in
  P (gid c1) /\ P (egid c1) /\ P (sgid c1).
Proof.
  intros. unfold c1, keep. destruct (Z.eqb_spec r (-1)), (Z.eqb_spec e (-1)), (Z.eqb_spec v (-1));
    simpl; auto.
Qed.
Lemma setres_uids_rest r e v c :
  let c1 := keep v set_suid (keep e set_euid (keep r set_uid c)) in same_rest c c1 /\ same_gids c c1.
Proof. unfold keep. by repeat break_goal. Qed.
Lemma setres_gids_rest r e v c :
  let c1 := keep v set_sgid (keep e set_egid (keep r set_gid c)) in same_rest c c1 /\ same_uids c c1.
Proof. unfold keep. by repeat break_goal. Qed.

Lemma setresuid_form s r e v c rc c' : cred_setresuid s (Some c) r e v = (rc, Some c') -> step_form c c'.
Proof.
  unfold cred_setresuid. intros H. op_cases H; [apply form_same|].
  apply form_uids; [apply setres_uids_rest..|].
  apply andb_false_iff in Heqb as [?|Hf]; bools; [by left|right].
  apply (setres_uids r e v c (own_uid c)); unfold own_uid; auto; intros;
    match goal with F : foreign_id ?x _ _ _ = false |- context [u32 ?x] => apply foreign_own in F end; tauto.
Qed.
Lemma setresgid_form s r e v c rc c' : cred_setresgid s (Some c) r e v = (rc, Some c') -> step_form c c'.
Proof.
  unfold cred_setresgid. intros H. op_cases H; [apply form_same|].
  apply form_gids; [apply setres_gids_rest..|].
  apply andb_false_iff in Heqb as [?|Hf]; bools; [by left|right].
  apply (setres_gids r e v c (own_gid c)); unfold own_gid; auto; intros;
    match goal with F : foreign_id ?x _ _ _ = false |- context [u32 ?x] => apply foreign_own in F end; tauto.
Qed.

Lemma re_own2 v a b : (v <>? -1) && true && (u32 v <>? a) && (u32 v <>? b) = false ->
  v <> -1 -> u32 v = a \/ u32 v = b.
Proof.
  intros H Hv. destruct (Z.eqb_spec v (-1)); [done|].
  destruct (Z.eqb_spec (u32 v) a), (Z.eqb_spec (u32 v) b); by auto.
Qed.
Lemma re_own3 v a b d :
  (v <>? -1) && true && (u32 v <>? a) && (u32 v <>? b) && (u32 v <>? d) = false ->
  v <> -1 -> u32 v = a \/ u32 v = b \/ u32 v = d.
Proof.
  intros H Hv. destruct (Z.eqb_spec v (-1)); [done|].
  destruct (Z.eqb_spec (u32 v) a), (Z.eqb_spec (u32 v) b), (Z.eqb_spec (u32 v) d); by auto.
Qed.

Lemma setreuid_form s r e c rc c' : cred_setreuid s (Some c) r e = (rc, Some c') -> step_form c c'.
Proof.
  unfold cred_setreuid. intros H. op_cases H; [apply form_same..|]. revert Heqb Heqb0.
  intros Hr He. apply form_uids.
  1-2: unfold keep; by repeat break_goal.
  destruct (priv_setuid s c); [by left|right]. simpl in Hr, He.
  pose proof (re_own2 _ _ _ Hr). pose proof (re_own3 _ _ _ _ He).
  unfold uids_within, own_uid, keep.
  destruct (Z.eqb_spec r (-1)), (Z.eqb_spec e (-1)); simpl; try (break_goal; simpl); tauto.
Qed.
Lemma setregid_form s r e c rc c' : cred_setregid s (Some c) r e = (rc, Some c') -> step_form c c'.
Proof.
  unfold cred_setregid. intros H. op_cases H; [apply form_same..|]. revert Heqb Heqb0.
  intros Hr He. apply form_gids.
  1-2: unfold keep; by repeat break_goal.
  destruct (priv_setgid s c); [by left|right]. simpl in Hr, He.
  pose proof (re_own2 _ _ _ Hr). pose proof (re_own3 _ _ _ _ He).
  unfold gids_within, own_gid, keep.
  destruct (Z.eqb_spec r (-1)), (Z.eqb_spec e (-1)); simpl; try (break_goal; simpl); tauto.
Qed.

Lemma cred_step_form c c' : cred_step c c' -> step_form c c'.
Proof.
  destruct 1 as [s u c rc c' H|s g c rc c' H|s r e c rc c' H|s r e c rc c' H|s r e v c rc c' H
                |s r e v c rc c' H|s f c rc c' H|s f c rc c' H|s b c rc c' H|eff perm inh c rc c' H
                |a c rc c' H|s a c rc c' H|a b d e c rc c' H].
  - by eapply set_uid_form.
  - by eapply set_gid_form.
  - by eapply setreuid_form.
  - by eapply setregid_form.
  - by eapply setresuid_form.
  - by eapply setresgid_form.
  - unfold cred_set_fsuid, with_cred in H. injection H as _ <-.
    break_goal; [|apply form_same]. apply form_fsuid. unfold own_uid.
    repeat (apply orb_true_iff in Heqb as [Heqb|Heqb]; bools; auto). all: bools; auto.
  - unfold cred_set_fsgid, with_cred in H. injection H as _ <-.
    break_goal; [|apply form_same]. apply form_fsgid with s. unfold own_gid.
    repeat (apply orb_true_iff in Heqb as [Heqb|Heqb]; bools; auto). all: bools; auto.
  - unfold cred_set_securebits in H. op_cases H; try apply form_same.
    apply form_securebits. by apply securebits_locks.
  - unfold cred_capset in H. op_cases H; try apply form_same.
    apply (form_caps c eff perm inh); by apply mask_clear.
  - unfold prctl_set_keepcaps in H. op_cases H; try apply form_same.
    apply form_securebits. by apply (keepcaps_locks (securebits c) (a <>? 0)).
  - unfold prctl_capbset_drop in H. op_cases H; try apply form_same. apply form_bounding.
  - unfold prctl_cap_ambient in H. op_cases H; try apply form_same; apply form_ambient; auto using cap_subset_lor_l with caps.
    all: apply cap_subset_lor; [auto using cap_subset_lor_l with caps|by eapply raise_within].
Qed.

(** The fix-ups touch only the effective, permitted and ambient sets. *)
Definition only_caps (c c' : cred) : Prop :=
  same_uids c c' /\ same_gids c c' /\ fsuid c' = fsuid c /\ fsgid c' = fsgid c
  /\ securebits c' = securebits c /\ user_ns c' = user_ns c /\ cap_inheritable c' = cap_inheritable c
  /\ cap_bounding c' = cap_bounding c /\ cap_subset (cap_permitted c') (cap_permitted c).

Lemma fixup_setuid_only s a b d c : only_caps c (cred_fixup_setuid s a b d c).
Proof.
  unfold only_caps, same_uids, same_gids, cred_fixup_setuid.
  repeat break_goal; simpl; split_and!; auto with caps.
Qed.
Lemma fixup_fsuid_only s f c : only_caps c (cred_fixup_fsuid s f c).
Proof.
  unfold only_caps, same_uids, same_gids, cred_fixup_fsuid.
  repeat break_goal; simpl; split_and!; auto with caps.
Qed.
Lemma sync_only s c :
  let c' := cred_sync_fsids s c in
  only_caps (set_fsgid (egid c) (set_fsuid (euid c) c)) c'.
Proof. apply fixup_fsuid_only. Qed.

Lemma caps_ok_same_rest c c1 : same_rest c c1 -> caps_ok c -> caps_ok c1.
Proof.
  intros (E1 & E2 & E3 & E4 & E5 & _) []. by constructor; rewrite ?E1, ?E2, ?E3, ?E4, ?E5.
Qed.

Lemma step_form_caps_ok c c' : step_form c c' -> caps_ok c -> caps_ok c'.
Proof.
  destruct 1 as [|s c1 Hr _ _|s c1 Hr _ _|s f _|s f _|bits _|eff perm inh Hp He Hi|cap|amb Ha]; intros H.
  - done.
  - by apply sync_fsids_caps, fixup_setuid_caps, (caps_ok_same_rest c).
  - by apply sync_fsids_caps, (caps_ok_same_rest c).
  - apply fixup_fsuid_caps. caps_ok_fields.
  - caps_ok_fields.
  - caps_ok_fields.
  - destruct H. constructor; simpl; auto 6 with caps.
    + by etrans.
    + etrans; [done|]. by apply cap_subset_lor.
  - destruct H. unfold drop_bounding. constructor; simpl; auto 6 with caps. apply cap_subset_land; [|auto with caps].
    etrans; [|exact ok_amb_inh0]. apply cap_subset_land; auto with caps.
  - destruct H. constructor; simpl; auto with caps.
    + etrans; [exact Ha|]. apply cap_subset_lor; auto with caps.
    + intros i Hi. rewrite Z.land_spec. intros [H1 H2]%andb_true_iff. specialize (Ha i Hi H1). rewrite Z.lor_spec, Z.land_spec in Ha.
      apply orb_true_iff in Ha as [Ha|[_ ?]%andb_true_iff]; [|done]. apply ok_amb_inh0; [done|]. by rewrite Z.land_spec, Ha.
Qed.

Lemma exec_caps_ok s co mode ku kg h rc c c' :
  co = Some c -> cred_exec_transform s co mode ku kg h = (rc, Some c') -> caps_ok c -> caps_ok c'.
Proof.
  intros -> H Hc. unfold cred_exec_transform, with_cred in H. injection H as _ <-.
  assert (He : caps_ok (exec_ids s mode ku kg h c)).
  { unfold exec_ids. repeat break_goal; caps_ok_fields. }
  revert He. generalize (exec_ids s mode ku kg h c) as c1. intros c1 [].
  constructor; simpl; repeat break_goal; simpl; auto 6 with caps;
    try (apply cap_subset_lor_r; auto with caps; fail);
    apply cap_subset_lor; auto with caps; by etrans.
Qed.

Lemma cred_life_caps_ok c c' : cred_life c c' -> caps_ok c -> caps_ok c'.
Proof.
  destruct 1 as [c c' H|s mode ku kg h c rc c' H|s ns c c' H|s s' ok c c' H]; intros Hc.
  - eapply step_form_caps_ok; [by apply cred_step_form|done].
  - by eapply exec_caps_ok.
  - simpl in H. injection H as <-. constructor; simpl; auto with caps.
  - unfold cred_dup in H. destruct ok; [|done]. simpl in H. destruct (user_ns c =? 0); [by simplify_eq|].
    destruct (namespace_get s (user_ns c)) as [rc s2]. simplify_eq. break_goal; [done|caps_ok_fields].
Qed.

Lemma own_ns_capable s c cap :
  ns_capable_cred s (Some c) (user_ns c) cap = true -> Z.testbit (cap_effective c) cap = true.
Proof.
  unfold ns_capable_cred. destruct (_ || _) eqn:E; [done|]. bools.
  change walk_rounds with (S 33). simpl. rewrite Z.eqb_refl.
  by rewrite cap_effective_has_spec by lia.
Qed.

(** ** Lemmas: what unprivileged steps, and sequences of steps, can do *)

Lemma step_form_ids c c' :
  step_form c c' ->
  (Z.testbit (cap_effective c) CAP_SETUID = false ->
     uids_within c c' /\ (own_uid c (fsuid c') \/ fsuid c' = fsuid c))
  /\ (Z.testbit (cap_effective c) CAP_SETGID = false ->
     gids_within c c' /\ (own_gid c (fsgid c') \/ fsgid c' = fsgid c)).
Proof.
  unfold uids_within, gids_within.
  destruct 1 as [|s c1 (_ & _ & _ & _ & _ & _ & _ & Hf & Hg) Hs Hp
                 |s c1 (_ & _ & _ & _ & _ & _ & _ & Hf & Hg) Hs Hp|s f Hp|s f Hp|bits _|eff perm inh _ _ _|cap|amb _].
  - unfold own_uid, own_gid. tauto.
  - destruct (sync_only s (cred_fixup_setuid s (uid c) (euid c) (suid c) c1))
      as ((-> & -> & ->) & (-> & -> & ->) & -> & -> & _).
    simpl. destruct (fixup_setuid_only s (uid c) (euid c) (suid c) c1) as ((-> & -> & ->) & (-> & -> & ->) & _).
    destruct Hs as (-> & -> & ->).
    unfold own_gid. split; [|tauto]. intros Hn.
    destruct Hp as [Hp%own_ns_capable|Hp]; [by case (eq_true_false_abs _ Hp Hn)|]. split; [done|left; apply Hp].
  - destruct (sync_only s c1) as ((-> & -> & ->) & (-> & -> & ->) & -> & -> & _). simpl.
    destruct Hs as (-> & -> & ->). unfold own_uid. split; [tauto|]. intros Hn.
    destruct Hp as [Hp%own_ns_capable|Hp]; [by case (eq_true_false_abs _ Hp Hn)|]. split; [done|left; apply Hp].
  - destruct (fixup_fsuid_only s (fsuid c) (set_fsuid f c)) as ((-> & -> & ->) & (-> & -> & ->) & -> & -> & _).
    simpl. unfold own_gid. split; [|tauto]. intros Hn.
    destruct Hp as [Hp%own_ns_capable|Hp]; [by case (eq_true_false_abs _ Hp Hn)|]. unfold own_uid in *. tauto.
  - simpl. unfold own_uid. simpl. split; [tauto|]. intros Hn.
    destruct Hp as [Hp%own_ns_capable|Hp]; [by case (eq_true_false_abs _ Hp Hn)|]. unfold own_gid in *. tauto.
  - unfold own_uid, own_gid. simpl. tauto.
  - unfold own_uid, own_gid. simpl. tauto.
  - unfold own_uid, own_gid. simpl. tauto.
  - unfold own_uid, own_gid. simpl. tauto.
Qed.

(** A credential of the initial namespace with no root id and no capability. *)
Definition powerless (c : cred) : Prop :=
  user_ns c = 0 /\ uid c <> 0 /\ euid c <> 0 /\ suid c <> 0 /\ fsuid c <> 0
  /\ cap_effective c = 0 /\ cap_permitted c = 0.

Lemma subset_of_0 a : cap_subset a 0 -> a = 0.
Proof. intros H%cap_subset_mask. by rewrite Z.lnot_0, Z.land_m1_r in H. Qed.

Lemma fixup_setuid_off_root s a b d c :
  user_ns c = 0 -> a <> 0 -> b <> 0 -> d <> 0 -> euid c <> 0 -> cred_fixup_setuid s a b d c = c.
Proof.
  intros Hn Ha Hb Hd He. unfold cred_fixup_setuid. destruct (secbit c _); [done|].
  assert (cred_root_kuid s c = 0) as -> by (unfold cred_root_kuid; by rewrite Hn).
  apply Z.eqb_neq in Ha, Hb, Hd, He. by rewrite Ha, Hb, Hd; simpl; rewrite He.
Qed.
Lemma fixup_fsuid_off_root s f c :
  user_ns c = 0 -> f <> 0 -> fsuid c <> 0 -> cred_fixup_fsuid s f c = c.
Proof.
  intros Hn Hf He. unfold cred_fixup_fsuid. destruct (secbit c _); [done|].
  assert (cred_root_kuid s c = 0) as -> by (unfold cred_root_kuid; by rewrite Hn).
  apply Z.eqb_neq in Hf, He. by rewrite Hf; simpl; rewrite He.
Qed.

Lemma powerless_step c c' : step_form c c' -> powerless c -> powerless c'.
Proof.
  intros Hf Hp. assert (Hids := step_form_ids _ _ Hf).
  destruct Hp as (Hn & Hu & He & Hs & Hfs & Hce & Hcp).
  rewrite Hce in Hids. destruct Hids as [[(Ou & Oe & Os) Ofs] _]; [done|].
  assert (Hown : forall x, own_uid c x -> x <> 0) by (intros x [->|[->| ->]]; done).
  unfold powerless. assert (user_ns c' = 0 /\ cap_effective c' = 0 /\ cap_permitted c' = 0).
  2: { destruct Ofs as [?%Hown| ->]; split_and!; try tauto; by apply Hown. }
  revert Ou Oe Os Ofs. destruct Hf as [|s c1 (E1 & E2 & _ & _ & _ & _ & E7 & E8 & _) _ Hp
    |s c1 (E1 & E2 & _ & _ & _ & _ & E7 & E8 & _) (F1 & F2 & F3) _|s f Hp|s f Hp|bits _|eff perm inh H1 H2 _|cap|amb _];
    intros Ou Oe Os Ofs; [done| | | |done|done| |done|done].
  - destruct Hp as [Hp%own_ns_capable|(_ & He1 & _)]; [by rewrite Hce in Hp|].
    rewrite fixup_setuid_off_root by (congruence || by apply Hown). unfold cred_sync_fsids.
    rewrite fixup_fsuid_off_root by (simpl; congruence || by apply Hown). simpl. by rewrite E7, E1, E2.
  - unfold cred_sync_fsids. rewrite fixup_fsuid_off_root by (simpl; congruence). simpl. by rewrite E7, E1, E2.
  - destruct Hp as [Hp%own_ns_capable|Hp]; [by rewrite Hce in Hp|].
    rewrite fixup_fsuid_off_root; [done|done|done|]. simpl. destruct Hp as [?%Hown| ->]; done.
  - simpl. rewrite Hcp in H1. apply subset_of_0 in H1 as ->. by apply subset_of_0 in H2 as ->.
Qed.

Lemma privilege_step c c' :
  step_form c c' ->
  cap_subset (cap_permitted c') (cap_permitted c)
  /\ cap_subset (cap_inheritable c') (Z.lor (cap_inheritable c) (cap_permitted c))
  /\ cap_subset (cap_bounding c') (cap_bounding c) /\ user_ns c' = user_ns c
  /\ locks_respected (securebits c) (securebits c').
Proof.
  assert (Hl : locks_respected (securebits c) (securebits c)) by (split; auto with caps).
  destruct 1 as [|s c1 (_ & Hp & Hi & Hb & _ & Hs & Hn & _) _ _|s c1 (_ & Hp & Hi & Hb & _ & Hs & Hn & _) _ _
                 |s f _|s f _|bits Hb|eff perm inh H1 H2 H3|cap|amb _]; simpl;
    try (by split_and!; auto using cap_subset_lor_l with caps).
  - destruct (sync_only s (cred_fixup_setuid s (uid c) (euid c) (suid c) c1))
      as (_ & _ & _ & _ & -> & -> & -> & -> & Hsub). simpl in *.
    destruct (fixup_setuid_only s (uid c) (euid c) (suid c) c1) as (_ & _ & _ & _ & -> & -> & -> & -> & Hsub').
    rewrite Hs, Hn, Hi, Hb. split_and!; auto using cap_subset_lor_l with caps.
    rewrite <- Hp. by etrans.
  - destruct (sync_only s c1) as (_ & _ & _ & _ & -> & -> & -> & -> & Hsub). simpl in *.
    rewrite Hs, Hn, Hi, Hb. split_and!; auto using cap_subset_lor_l with caps. by rewrite <- Hp.
  - destruct (fixup_fsuid_only s (fsuid c) (set_fsuid f c)) as (_ & _ & _ & _ & -> & -> & -> & -> & Hsub).
    simpl in *. split_and!; auto using cap_subset_lor_l with caps.
Qed.

Lemma lock_is_flag n : Z.testbit SECURE_ALL_BITS n = true -> 0 <= n ->
  Z.testbit SECURE_ALL_LOCKS (n + 1) = true.
Proof.
  intros H Hn. unfold SECURE_ALL_LOCKS. rewrite Z.shiftl_spec by lia.
  by replace (n + 1 - 1) with n by lia.
Qed.

Lemma locks_trans a b c : locks_respected a b -> locks_respected b c -> locks_respected a c.
Proof.
  intros [H1 F1] [H2 F2]. split.
  - intros i Hi Ha. apply H2; [done|]. rewrite Z.land_spec, (H1 i Hi Ha). simpl.
    rewrite Z.land_spec in Ha. by apply andb_true_iff in Ha as [_ ?].
  - intros n Hn H0 Hl. rewrite F2, F1; [done..|]. apply H1; [lia|].
    by rewrite Z.land_spec, Hl, (lock_is_flag n Hn H0).
Qed.

Lemma exec_ids_cases s mode ku kg h c :
  let c1 := exec_ids s mode ku kg h c in
  (euid c1 = euid c \/ h = true /\ mode &? S_ISUID = true /\ euid c1 = ku
                        /\ kuid_has_mapping s (user_ns c) ku = true)
  /\ (egid c1 = egid c \/ h = true /\ Z.land mode S_ISGID_XGRP = S_ISGID_XGRP /\ egid c1 = kg
                        /\ kgid_has_mapping s (user_ns c) kg = true)
  /\ uid c1 = uid c /\ gid c1 = gid c /\ securebits c1 = securebits c /\ cap_bounding c1 = cap_bounding c
  /\ cap_ambient c1 = cap_ambient c /\ user_ns c1 = user_ns c.
Proof.
  unfold exec_ids. destruct (h && _) eqn:E; [|simpl; tauto]. bools.
  destruct (mode &? S_ISUID) eqn:E1, (Z.land mode S_ISGID_XGRP =? S_ISGID_XGRP) eqn:E2; bools; simpl; tauto.
Qed.


(** ** Properties of credentials *)

(** C22 (invariant).  Starting from the boot credential, whatever sequence of
    set*id, capset, securebits, prctl (PR_SET_KEEPCAPS, PR_CAPBSET_DROP,
    PR_CAP_AMBIENT), execve, fork and namespace entry a task goes through: the
    effective set stays within the permitted set, the ambient set within the
    permitted set and, as far as it is within the bounding set, within the
    inheritable set, and all sets within the capabilities the kernel defines. *)
Theorem credential_capabilities_sound c0 c :
  cred_create_default true = Some c0 -> rtc cred_life c0 c -> caps_ok c.
Proof.
  intros H0 Hr. apply (rtc_invariant _ caps_ok cred_life_caps_ok _ _ Hr).
  injection H0 as <-. constructor; simpl; auto with caps.
Qed.


(** (Safety.)  A root task of the initial namespace that drops root with
    setuid (neither fix-up disabled nor capabilities kept) has dropped it for
    good: after any further sequence of operations none of its uids is root and
    it holds no capability. *)
Theorem setuid_drops_root_for_good s c u c1 c' :
  user_ns c = 0 -> euid c = 0 -> priv_setuid s c = true -> u <> 0 ->
  secbit c SECURE_NO_SETUID_FIXUP = false -> secbit c SECURE_KEEP_CAPS = false ->
  cred_set_uid s (Some c) u = (0, Some c1) -> rtc cred_step c1 c' ->
  powerless c'.
Proof.
  intros Hn He Hp Hu Hfx Hk H Hr.
  refine (rtc_invariant _ powerless _ _ _ Hr _); [intros x y ?%cred_step_form; by apply powerless_step|].
  unfold cred_set_uid, with_cred in H. rewrite Hp in H. injection H as <-.
  assert (Hroot : make_kuid s 0 0 = 0) by done. apply Z.eqb_neq in Hu.
  unfold cred_sync_fsids, cred_fixup_setuid, cred_root_kuid, secbit in *. simpl.
  rewrite Hfx, Hk, Hn, He, Hroot, Hu, orb_true_r. simpl. rewrite Hu. simpl.
  unfold cred_fixup_fsuid, secbit, cred_root_kuid. simpl. rewrite Hfx, Hn, Hroot, Hu. simpl.
  unfold powerless. apply Z.eqb_neq in Hu.
  repeat break_goal; simpl; rewrite ?Z.land_0_l; split_and!; auto.
Qed.

(** (Invariant.)  Short of execve and entering a user namespace, privilege
    only shrinks: over any sequence of operations the permitted set never grows,
    nor does the bounding set, the namespace stays, a securebits lock once set
    stays set and the flag it guards keeps its value. *)
Theorem privilege_only_shrinks c c' :
  rtc cred_step c c' ->
  cap_subset (cap_permitted c') (cap_permitted c)
  /\ cap_subset (cap_bounding c') (cap_bounding c) /\ user_ns c' = user_ns c
  /\ locks_respected (securebits c) (securebits c').
Proof.
  induction 1 as [c|c c1 c' H1 _ (Hp & Hb & Hn & Hl)].
  - split_and!; auto with caps. split; auto with caps.
  - destruct (privilege_step _ _ (cred_step_form _ _ H1)) as (Hp1 & _ & Hb1 & Hn1 & Hl1).
    split_and!; [by etrans|by etrans|congruence|by eapply locks_trans].
Qed.

(** (Safety.)  What execve may change.  The real ids stay, the saved and fs ids
    follow the effective ones, an effective id changes only to the owner of a
    set-id file that is honoured and mapped.  The new permitted set is within
    the bounding set and the ambient set, and unless root is honoured and the
    real or new effective uid is the namespace's root, the task comes out with
    exactly its ambient capabilities (none after a set-id exec). *)
Theorem exec_gains_only_through_root s c mode ku kg h rc c' :
  cred_exec_transform s (Some c) mode ku kg h = (rc, Some c') ->
  (uid c' = uid c /\ gid c' = gid c /\ suid c' = euid c' /\ fsuid c' = euid c'
     /\ sgid c' = egid c' /\ fsgid c' = egid c' /\ secbit c' SECURE_KEEP_CAPS = false)
  /\ (euid c' = euid c \/ h = true /\ mode &? S_ISUID = true /\ euid c' = ku
                             /\ kuid_has_mapping s (user_ns c) ku = true)
  /\ (egid c' = egid c \/ h = true /\ Z.land mode S_ISGID_XGRP = S_ISGID_XGRP /\ egid c' = kg
                             /\ kgid_has_mapping s (user_ns c) kg = true)
  /\ cap_subset (cap_permitted c') (Z.lor (cap_bounding c) (cap_ambient c'))
  /\ cap_ambient c' = (if rc =? 0 then cap_ambient c else 0)
  /\ (secbit c SECURE_NOROOT = true \/ (uid c <> cred_root_kuid s c /\ euid c' <> cred_root_kuid s c) ->
      cap_permitted c' = cap_ambient c' /\ cap_effective c' = cap_ambient c').
Proof.
  intros H. unfold cred_exec_transform, with_cred in H. injection H as Hrc <-.
  destruct (exec_ids_cases s mode ku kg h c) as (He & Hg & Hu & Hgg & Hs & Hb & Ha & Hn). revert He Hg Hu Hgg Hs Hb Ha Hn Hrc.
  generalize (exec_ids s mode ku kg h c) as c1. intros c1 He Hg Hu Hgg Hs Hb Ha Hn Hrc.
  assert (Hk : Z.land (Z.land (securebits c1) (Z.lnot (SECBIT SECURE_KEEP_CAPS))) (SECBIT SECURE_KEEP_CAPS) = 0).
  { rewrite <- Z.land_assoc, (Z.land_comm (Z.lnot _)), Z.land_lnot_diag. apply Z.land_0_r. }
  unfold secbit in *. rewrite <- Hrc, Hs, Hu, Hgg, Hb in *.
  destruct ((euid c1 <>? uid c) || (egid c1 <>? gid c)); simpl; rewrite ?Ha; split_and!; auto with caps.
  all: try (rewrite Hs; apply negb_false_iff, Z.eqb_eq; exact Hk).
  all: try (apply cap_subset_lor; [apply cap_subset_lor_l|apply cap_subset_lor_r]; auto with caps).
  all: intros Hno; destruct (securebits c &? _); simpl; [rewrite ?Z.land_0_l; done|].
  all: destruct Hno as [?|[Hr1 Hr2]]; [done|]; apply Z.eqb_neq in Hr1, Hr2.
  all: rewrite Hr1, Hr2; simpl; by rewrite ?Z.land_0_l.
Qed.

(** The three permission bits that apply to the credential: owner, group, other. *)
Definition class_shift (c : cred) (file_uid file_gid : Z) : Z :=
  if decide (fsuid c = file_uid) then 6
  else if decide (fsgid c = file_gid \/ file_gid ∈ take (Z.to_nat (ngroups c)) (groups c)) then 3 else 0.

(** (Functional.)  [cred_can_access] grants a request exactly when each bit
    asked for is one of read, write and execute and is set in the one class of
    the mode that applies: the owner's bits for the owner even if the group's
    would allow more, the group's for any primary or supplementary group. *)
Theorem access_by_mode_bits c file_uid file_gid mode mask :
  cred_can_access (Some c) file_uid file_gid mode mask = true <->
  forall i, 0 <= i -> Z.testbit mask i = true ->
    i < 3 /\ Z.testbit mode (i + class_shift c file_uid file_gid) = true.
Proof.
  simpl. set (p := if fsuid c =? file_uid then _ else _).
  assert (Hp : forall i, 0 <= i -> Z.testbit p i =
             Z.testbit mode (i + class_shift c file_uid file_gid) && (i <? 3)).
  { intros i Hi. assert (H7 : Z.testbit 7 i = (i <? 3)).
    { change 7 with (Z.ones 3). rewrite Z.testbit_ones by lia. by rewrite (proj2 (Z.leb_le 0 i)). }
    unfold p, class_shift. destruct (Z.eqb_spec (fsuid c) file_uid), (decide _); try done.
    - by rewrite Z.land_spec, Z.shiftr_spec, H7.
    - destruct (_ || _) eqn:E, (decide _) as [D|D]; rewrite ?Z.land_spec, ?Z.shiftr_spec, ?H7, ?Z.add_0_r by done; try done.
      + exfalso. apply D. apply orb_true_iff in E as [?|E]; bools; [by left|right].
        apply existsb_exists in E as (x & Hx & ?). bools. subst x. by apply list_elem_of_In.
      + exfalso. bools. destruct D as [?|D]; [done|]. apply list_elem_of_In in D.
        enough (existsb (fun g => g =? file_gid) (take (Z.to_nat (ngroups c)) (groups c)) = true) by congruence.
        apply existsb_exists. exists file_gid. by rewrite Z.eqb_refl. }
  rewrite Z.eqb_eq. split.
  - intros H i Hi Hm. assert (Hb := f_equal (fun z => Z.testbit z i) H). cbv beta in Hb.
    rewrite Z.land_spec, Hm, Hp, andb_true_r in Hb by done. bools. auto.
  - intros H. apply Z.bits_inj'. intros i Hi. rewrite Z.land_spec, Hp by done.
    destruct (Z.testbit mask i) eqn:E; [|by rewrite andb_false_r].
    destruct (H i Hi E) as [Hlt ->]. by rewrite (proj2 (Z.ltb_lt i 3)).
Qed.

(** ** Properties of the tables *)

Inductive tab_step : idtab -> idtab -> Prop :=
| ts_user_add t id g name rc t' : user_add t id g name = (rc, t') -> tab_step t t'
| ts_group_add t id name rc t' : group_add t id name = (rc, t') -> tab_step t t'
| ts_member t id u rc t' : group_add_member t id u = (rc, t') -> tab_step t t'.

Definition name_ok (n : list Z) : Prop := (length n <= 31)%nat.
Definition group_ok (g : group) : Prop :=
  name_ok (g_name g) /\ NoDup (g_members g) /\ (length (g_members g) <= 64)%nat.
(** Unique ids, names and member lists within their arrays, no duplicate member. *)
Record tab_ok (t : idtab) : Prop := {
  tab_uids : NoDup (map u_uid (users t));
  tab_gids : NoDup (map g_gid (groups_tab t));
  tab_users : (length (users t) <= 64)%nat;
  tab_groups : (length (groups_tab t) <= 32)%nat;
  tab_names : Forall (fun u => name_ok (u_name u)) (users t);
  tab_members : Forall group_ok (groups_tab t) }.

Section Keyed.
Context {A : Type} (key : A -> Z).

(** Looking a key up in a table whose keys are unique. *)
Lemma head_filter_key (l : list A) x :
  NoDup (map key l) -> x ∈ l -> head (filter (fun y => key y = key x) l) = Some x.
Proof.
  induction l as [|y l IH]; [by intros _ ?%not_elem_of_nil|].
  simpl. intros [Hy Hn]%list.NoDup_cons [->|Hx]%elem_of_cons; rewrite filter_cons.
  - by rewrite decide_True.
  - rewrite decide_False; [by apply IH|]. intros E. apply Hy. rewrite E. by apply list_elem_of_fmap_2.
Qed.
Lemma head_filter_None (l : list A) k :
  head (filter (fun y => key y = k) l) = None -> k ∉ map key l.
Proof.
  intros H Hk. apply list_elem_of_fmap in Hk as (y & -> & Hy).
  assert (Hf : y ∈ filter (fun z => key z = key y) l) by by apply list_elem_of_filter.
  destruct (filter _ l); [by apply not_elem_of_nil in Hf|done].
Qed.
Lemma NoDup_snoc_key (l : list A) x :
  NoDup (map key l) -> head (filter (fun y => key y = key x) l) = None -> NoDup (map key (l ++ [x])).
Proof.
  intros Hn H%head_filter_None. rewrite map_app. apply list.NoDup_app. split_and!; [done| |apply NoDup_singleton].
  intros k Hk ->%list_elem_of_singleton. done.
Qed.
End Keyed.

Lemma take_name_ok n : name_ok (take (Z.to_nat NAME_LEN) n).
Proof. unfold name_ok. rewrite length_take. change (Z.to_nat NAME_LEN) with 31%nat. lia. Qed.

Lemma not_some_None {A} (o : option A) : bool_decide (is_Some o) = false -> o = None.
Proof. intros H%bool_decide_eq_false. by apply eq_None_not_Some. Qed.

Lemma tab_step_ok t t' : tab_step t t' -> tab_ok t -> tab_ok t'.
Proof.
  destruct 1 as [t id g name rc t' H|t id name rc t' H|t id u rc t' H]; intros Ht.
  - unfold user_add in H. repeat break_hyp H; simplify_eq; [done..|].
    apply not_some_None in Heqb0. unfold MAX_USERS in Heqb. bools. destruct Ht. constructor; simpl; auto.
    + by apply NoDup_snoc_key.
    + rewrite length_app. simpl. lia.
    + apply Forall_app. split; [done|]. constructor; [apply take_name_ok|done].
  - unfold group_add in H. repeat break_hyp H; simplify_eq; [done..|].
    apply not_some_None in Heqb0. unfold MAX_GROUPS in Heqb. bools. destruct Ht. constructor; simpl; auto.
    + by apply NoDup_snoc_key.
    + rewrite length_app. simpl. lia.
    + apply Forall_app. split; [done|]. constructor; [|done].
      split_and!; [apply take_name_ok|apply NoDup_nil_2|simpl; lia].
  - unfold group_add_member in H. destruct (first_index _ _) as [i|]; [|by simplify_eq].
    destruct (groups_tab t !! i) as [g|] eqn:Hi; [|by simplify_eq].
    repeat break_hyp H; simplify_eq; [done..|]. unfold MAX_USERS in Heqb. bools.
    destruct Ht. constructor; simpl; auto.
    + change (map g_gid) with (fmap (M := list) g_gid). rewrite list_fmap_insert.
      rewrite list_insert_id; [done|]. by rewrite list_lookup_fmap, Hi.
    + by rewrite length_insert.
    + apply Forall_insert; [done|]. destruct (Forall_lookup_1 _ _ _ _ tab_members0 Hi) as (Hn & Hd & _).
      split_and!; simpl; [done| |rewrite length_app; simpl; lia].
      apply list.NoDup_app. split_and!; [done| |apply NoDup_singleton].
      intros x Hx ->%list_elem_of_singleton. enough (existsb (fun m => m =? u) (g_members g) = true) by congruence.
      apply existsb_exists. exists u. split; [by apply list_elem_of_In|apply Z.eqb_refl].
Qed.

Lemma empty_tab_ok : tab_ok (mkTab [] []).
Proof. constructor; simpl; auto using NoDup_nil_2; lia. Qed.

Lemma uidgid_init_ok : tab_ok uidgid_init.
Proof.
  unfold uidgid_init; cbv zeta.
  repeat lazymatch goal with
  | |- tab_ok (snd (user_add _ _ _ _)) => eapply tab_step_ok; [eapply ts_user_add, surjective_pairing|]
  | |- tab_ok (snd (group_add _ _ _)) => eapply tab_step_ok; [eapply ts_group_add, surjective_pairing|]
  | |- tab_ok (snd (group_add_member _ _ _)) => eapply tab_step_ok; [eapply ts_member, surjective_pairing|]
  end.
  apply empty_tab_ok.
Qed.

(** (Invariant.)  However users, groups and members are added after boot,
    the tables stay within their arrays, no two users and no two groups share
    an id, no member is listed twice, and looking up the id of any entry finds
    that entry. *)
Theorem id_tables_sound t :
  rtc tab_step uidgid_init t ->
  tab_ok t
  /\ (forall u, u ∈ users t -> user_find_by_uid t (u_uid u) = Some u)
  /\ (forall g, g ∈ groups_tab t -> group_find_by_gid t (g_gid g) = Some g).
Proof.
  intros Hr. assert (Ht : tab_ok t).
  { by eapply (rtc_invariant _ tab_ok tab_step_ok); [|apply uidgid_init_ok]. }
  split_and!; [done|intros u Hu|intros g Hg]; apply head_filter_key; auto; apply Ht.
Qed.

(** ** The properties at concrete credentials *)

Definition boot_cred : cred :=
  mkCred 0 0 0 0 0 0 (replicate 32 0) 0 18 0 0 CAP_FULL_SET CAP_FULL_SET 0 CAP_FULL_SET 0 0 0.
(** Root after [setuid(1000)]. *)
Definition dropped_cred : cred :=
  mkCred 1000 1000 1000 0 0 0 (replicate 32 0) 0 18 1000 0 0 0 0 CAP_FULL_SET 0 0 0.

Lemma boot_drops : cred_set_uid ns_start (Some boot_cred) 1000 = (0, Some dropped_cred).
Proof. vm_compute. reflexivity. Qed.
Lemma dropped_stays : cred_set_uid ns_start (Some dropped_cred) 0 = (- EPERM, Some dropped_cred).
Proof. vm_compute. reflexivity. Qed.

(** Root makes CHOWN inheritable, raises it into the ambient set and drops it from
    the bounding set: it leaves the inheritable set but not the ambient one. *)
Definition inh_cred : cred := default boot_cred (snd (cred_capset (Some boot_cred) CAP_FULL_SET CAP_FULL_SET (cap_bit CAP_CHOWN))).
Definition amb_cred : cred := default boot_cred (snd (prctl_cap_ambient (Some inh_cred) CAP_AMBIENT_RAISE CAP_CHOWN 0 0)).
Definition bnd_cred : cred := default boot_cred (snd (prctl_capbset_drop ns_start (Some amb_cred) CAP_CHOWN)).
Lemma bnd_reached : rtc cred_life boot_cred bnd_cred.
Proof.
  eapply rtc_l; [|eapply rtc_l; [|eapply rtc_once]]; apply cl_step.
  - eapply (cs_capset CAP_FULL_SET CAP_FULL_SET (cap_bit CAP_CHOWN)). vm_compute. reflexivity.
  - eapply (cs_ambient CAP_AMBIENT_RAISE CAP_CHOWN 0 0). vm_compute. reflexivity.
  - eapply (cs_bounding ns_start CAP_CHOWN). vm_compute. reflexivity.
Qed.
Lemma credential_capabilities_sound_witness : caps_ok bnd_cred /\ caps_ok dropped_cred.
Proof.
  split.
  - apply (credential_capabilities_sound boot_cred); [reflexivity|apply bnd_reached].
  - apply (credential_capabilities_sound boot_cred); [reflexivity|].
    eapply rtc_once, cl_step, cs_set_uid, boot_drops.
Defined.

(** The capability dropped from the bounding set outlives a change to an ordinary
    user (with the fix-up off) and the next exec, through the ambient set. *)
Example dropped_capability_survives_exec :
  let c1 := snd (cred_set_securebits ns_start (Some bnd_cred) (SECBIT SECURE_NO_SETUID_FIXUP)) in
  let c2 := snd (cred_set_uid ns_start c1 1000) in
  cap_bounding bnd_cred &? cap_bit CAP_CHOWN = false /\ cap_inheritable bnd_cred &? cap_bit CAP_CHOWN = false
  /\ match cred_exec_transform ns_start c2 0 0 0 true with
     | (_, Some c) => euid c = 1000 /\ cap_effective c = cap_bit CAP_CHOWN | _ => False end.
Proof. vm_compute. split_and!; reflexivity. Qed.


Lemma setuid_drops_root_for_good_witness : powerless dropped_cred.
Proof.
  eapply (setuid_drops_root_for_good ns_start boot_cred 1000 dropped_cred);
    [reflexivity|reflexivity|by vm_compute|lia|reflexivity|reflexivity|apply boot_drops|].
  eapply rtc_once, cs_set_uid, dropped_stays.
Defined.

Lemma privilege_only_shrinks_witness : cap_subset (cap_permitted dropped_cred) CAP_FULL_SET.
Proof.
  apply (privilege_only_shrinks boot_cred dropped_cred). eapply rtc_once, cs_set_uid, boot_drops.
Defined.

(** An ordinary task executing a set-user-id root program. *)
Definition raised_cred : cred :=
  mkCred 1000 0 0 0 0 0 (replicate 32 0) 0 18 0 0 CAP_FULL_SET CAP_FULL_SET 0 CAP_FULL_SET 0 0 0.

Lemma exec_gains_only_through_root_witness :
  uid raised_cred = uid dropped_cred /\ euid raised_cred = 0
  /\ cap_subset (cap_permitted raised_cred) (Z.lor CAP_FULL_SET 0).
Proof.
  destruct (exec_gains_only_through_root ns_start dropped_cred 2541 0 0 true 1 raised_cred)
    as ((Hu & _) & _ & _ & Hp & _); [vm_compute; reflexivity|].
  split_and!; [exact Hu|reflexivity|exact Hp].
Defined.

Lemma id_tables_sound_witness :
  user_find_by_uid uidgid_init 1000 = Some (mkUser 1000 1000 (bytes_of "user")).
Proof.
  destruct (id_tables_sound uidgid_init (rtc_refl _ _)) as (_ & H & _).
  apply (H (mkUser 1000 1000 (bytes_of "user"))).
  apply list_elem_of_lookup. exists 2%nat. vm_compute. reflexivity.
Defined.

(** ** Where the comments and the code differ *)

(** A task with an ambient capability that is refreshed after its uids were
    rewritten keeps it in the ambient set although it is no longer permitted. *)
Example refresh_caps_keeps_ambient :
  let c := mkCred 1000 1000 1000 0 0 0 [] 0 18 1000 0 1 1 1 CAP_FULL_SET 1 0 0 in
  caps_ok c /\ ~ caps_ok (cred_refresh_caps ns_start c).
Proof.
  split.
  - constructor; simpl; intros i Hi H; try done;
      (destruct (decide (i = 0)) as [->|]; [done|]; exfalso;
       assert (Hb : Z.testbit (2 ^ 0) i = true) by done; rewrite Z.pow2_bits_eqb in Hb by done; bools; lia).
  - intros [_ H _ _ _ _]. assert (Hb := H 0 ltac:(lia)). vm_compute in Hb. by specialize (Hb eq_refl).
Qed.

(** Execve clears [SECBIT_KEEP_CAPS] even when its lock is set. *)
Example exec_clears_locked_keep_caps :
  exists c', cred_exec_transform ns_start (Some (set_securebits 48 dropped_cred)) 493 0 0 true = (0, Some c')
    /\ Z.testbit 48 SECURE_KEEP_CAPS = true /\ Z.testbit 48 (SECURE_KEEP_CAPS + 1) = true
    /\ Z.testbit (securebits c') SECURE_KEEP_CAPS = false.
Proof. eexists. vm_compute. split_and!; reflexivity. Qed.

End UidGid.
