(* ===== verification/PidNs.v ===== *)
(** PID namespaces ([kernel/sched/pid_namespace.c]): the table of numbers with
    its two hash chains and its free list, the ring of reaped tasks, the tree of
    namespaces, and translation between kernel ids and numbers.

    A link is an index plus one, 0 ends a chain.  The loops over chains and over
    the tree carry fuel; running out of it, or following a link outside the
    table, is [Fault].  What the reference counts of [Namespace] say of a
    namespace (is it allocated) is an argument. *)
From S2P Require Import Prelude.
Local Open Scope Z_scope.
Local Open Scope kernel_scope.

Module PidNs.

Definition NS_MAX_PID := 64.
Definition NS_MAX_LEVEL := 32.
Definition PIDMAP_ENTRIES := 8192.
Definition PIDMAP_BUCKETS := 4096.
Definition PIDMAP_DEAD_RING := 1024.
Definition PIDNS_ZAP_MAX := 8.
Definition SIGKILL := 9.
Definition SIGSTOP := 19.

Record pidmap_ent := mkEnt {
  gid : Z; vnr : Z; gen : Z; e_ns : Z; e_used : bool; dead : bool; next_g : Z; next_v : Z }.
Definition ent_zero : pidmap_ent := mkEnt 0 0 0 0 false false 0 0.
#[global] Instance pidmap_ent_inhabited : Inhabited pidmap_ent := populate ent_zero.
Record pidns_data := mkPd {
  pd_parent : Z; pd_level : Z; next_vnr : Z; reaper : Z; has_reaper : bool; reaper_gone : bool; dying : bool }.
Definition pd_zero : pidns_data := mkPd 0 0 0 0 false false false.
#[global] Instance pidns_data_inhabited : Inhabited pidns_data := populate pd_zero.

Record pid_state := mkPid {
  pidmap : list pidmap_ent; head_g : list Z; head_v : list Z; free_head : Z; pidmap_ready : bool;
  dead_ring : list (Z * Z); dead_pos : Z; pidns : list pidns_data; zap_pending : list Z }.
Definition pid_boot : pid_state :=
  mkPid (replicate (Z.to_nat PIDMAP_ENTRIES) ent_zero) (replicate (Z.to_nat PIDMAP_BUCKETS) 0) (replicate (Z.to_nat PIDMAP_BUCKETS) 0) 0 false
    (replicate (Z.to_nat PIDMAP_DEAD_RING) (0, 0)) 0 (replicate 64 pd_zero) [].
Definition set_pidmap (l : list pidmap_ent) (s : pid_state) : pid_state :=
  mkPid l (head_g s) (head_v s) (free_head s) (pidmap_ready s) (dead_ring s) (dead_pos s) (pidns s) (zap_pending s).
Definition set_heads (hg hv : list Z) (s : pid_state) : pid_state :=
  mkPid (pidmap s) hg hv (free_head s) (pidmap_ready s) (dead_ring s) (dead_pos s) (pidns s) (zap_pending s).
Definition set_free_head (h : Z) (s : pid_state) : pid_state :=
  mkPid (pidmap s) (head_g s) (head_v s) h (pidmap_ready s) (dead_ring s) (dead_pos s) (pidns s) (zap_pending s).
Definition set_ring (r : list (Z * Z)) (p : Z) (s : pid_state) : pid_state :=
  mkPid (pidmap s) (head_g s) (head_v s) (free_head s) (pidmap_ready s) r p (pidns s) (zap_pending s).
Definition set_pidns (l : list pidns_data) (s : pid_state) : pid_state :=
  mkPid (pidmap s) (head_g s) (head_v s) (free_head s) (pidmap_ready s) (dead_ring s) (dead_pos s) l (zap_pending s).
Definition set_zaps (l : list Z) (s : pid_state) : pid_state :=
  mkPid (pidmap s) (head_g s) (head_v s) (free_head s) (pidmap_ready s) (dead_ring s) (dead_pos s) (pidns s) l.
(** [pidns[id]] and [pidmap[i]] *)
Definition pd (s : pid_state) (id : Z) : pidns_data := zget (pidns s) id.
Definition ent (s : pid_state) (i : Z) : pidmap_ent := zget (pidmap s) i.
Definition upd_pd (f : pidns_data -> pidns_data) (id : Z) (s : pid_state) : pid_state := set_pidns (zalter f id (pidns s)) s.
Definition upd_ent (f : pidmap_ent -> pidmap_ent) (i : Z) (s : pid_state) : pid_state := set_pidmap (zalter f i (pidmap s)) s.

(** ** The table of numbers *)

Definition hash_g (g ns : Z) : Z := Z.land (u32 (Z.lxor (u64 (g * 2654435761)) (u32 (ns * 40503)))) (PIDMAP_BUCKETS - 1).
Definition hash_v (v ns : Z) : Z := Z.land (u32 (Z.lxor (u64 (v * 2246822519)) (u32 (ns * 3266489917)))) (PIDMAP_BUCKETS - 1).

Definition set_next (by_gid : bool) (l : Z) (e : pidmap_ent) : pidmap_ent :=
  if by_gid then mkEnt (gid e) (vnr e) (gen e) (e_ns e) (e_used e) (dead e) l (next_v e)
  else mkEnt (gid e) (vnr e) (gen e) (e_ns e) (e_used e) (dead e) (next_g e) l.
Definition next (by_gid : bool) (e : pidmap_ent) : Z := if by_gid then next_g e else next_v e.
Definition pidmap_ensure_init_locked (s : pid_state) : pid_state :=
  if pidmap_ready s then s
  else
    let l := imap (fun i e => set_next true (if Z.of_nat i + 1 <? PIDMAP_ENTRIES then u16 (Z.of_nat i + 2) else 0) e) (pidmap s) in
    mkPid l (head_g s) (head_v s) 1 true (dead_ring s) (dead_pos s) (pidns s) (zap_pending s).

Definition inside {A} (l : list A) (i : Z) : bool := (0 <=? i) && (i <? Z.of_nat (length l)).
(** The link the loop is at: the head of the chain, or the one in an entry. *)
Inductive link := Head | Next (i : Z).
Fixpoint unlink_loop (fuel : nat) (by_gid : bool) (tab : list pidmap_ent) (head : Z) (at_ : link) (idx : Z) : res (Z * list pidmap_ent) :=
  let l := match at_ with Head => head | Next i => next by_gid (zget tab i) end in
  if l =? 0 then Ok (head, tab)
  else match fuel with
       | O => Fault
       | S fuel =>
           let cur := l - 1 in
           let n := next by_gid (zget tab cur) in
           if negb (inside tab cur) then Fault
           else if cur =? idx then
             Ok match at_ with Head => (n, tab) | Next i => (head, zalter (set_next by_gid n) i tab) end
           else unlink_loop fuel by_gid tab head (Next cur) idx
       end.
Definition walk_fuel (s : pid_state) : nat := length (pidmap s).
Definition chain_unlink (head : Z) (idx : Z) (by_gid : bool) (s : pid_state) : res (Z * pid_state) :=
  let* '(h, l) := unlink_loop (walk_fuel s) by_gid (pidmap s) head Head idx in Ok (h, set_pidmap l s).

Definition pidmap_free_locked (idx : Z) (s : pid_state) : res pid_state :=
  let e := ent s idx in
  if negb (e_used e) then Ok s
  else
    let hg := hash_g (gid e) (e_ns e) in
    let hv := hash_v (vnr e) (e_ns e) in
    let* '(h, s) := chain_unlink (zget (head_g s) hg) idx true s in
    let s := set_heads (zalter (fun _ => h) hg (head_g s)) (head_v s) s in
    let* '(h, s) := chain_unlink (zget (head_v s) hv) idx false s in
    let s := set_heads (head_g s) (zalter (fun _ => h) hv (head_v s)) s in
    let s := upd_ent (fun e => mkEnt (gid e) (vnr e) (gen e) (e_ns e) false false (free_head s) 0) idx s in
    Ok (set_free_head (u16 (idx + 1)) s).

Definition pidmap_add_locked (ns g v : Z) (s0 : pid_state) : res (Z * pid_state) :=
  let s := pidmap_ensure_init_locked s0 in
  if free_head s =? 0 then Ok (- ENOSPC, s)
  else
    let idx := free_head s - 1 in
    if negb (inside (pidmap s) idx) then Fault
    else
      let s := set_free_head (next_g (ent s idx)) s in
      let hg := hash_g g ns in
      let hv := hash_v v ns in
      let s := upd_ent (fun e => mkEnt g v (u32 (gen e + 1)) (u16 ns) true false (zget (head_g s) hg) (zget (head_v s) hv)) idx s in
      Ok (0, set_heads (zalter (fun _ => u16 (idx + 1)) hg (head_g s)) (zalter (fun _ => u16 (idx + 1)) hv (head_v s)) s).

Fixpoint find_loop (fuel : nat) (by_gid : bool) (hit : pidmap_ent -> bool) (tab : list pidmap_ent) (l : Z) : res (option Z) :=
  if l =? 0 then Ok None
  else match fuel with
       | O => Fault
       | S fuel =>
           if negb (inside tab (l - 1)) then Fault
           else if hit (zget tab (l - 1)) then Ok (Some (l - 1))
           else find_loop fuel by_gid hit tab (next by_gid (zget tab (l - 1)))
       end.
(** The index of the entry. *)
Definition find_by_gid_locked (ns g : Z) (s : pid_state) : res (option Z) :=
  if negb (pidmap_ready s) then Ok None
  else find_loop (walk_fuel s) true (fun e => (gid e =? g) && (e_ns e =? ns)) (pidmap s) (zget (head_g s) (hash_g g ns)).
Definition find_by_vnr_locked (ns v : Z) (s : pid_state) : res (option Z) :=
  if negb (pidmap_ready s) then Ok None
  else find_loop (walk_fuel s) false (fun e => (vnr e =? v) && (e_ns e =? ns)) (pidmap s) (zget (head_v s) (hash_v v ns)).

(** ** Namespaces *)

(** Without the reference on the parent, which the caller takes. *)
Definition pidns_init_locked (id parent : Z) (s0 : pid_state) : pid_state :=
  let s := pidmap_ensure_init_locked s0 in
  if id =? 0 then upd_pd (fun _ => mkPd 0 0 1 0 false false false) id s
  else upd_pd (fun _ => mkPd parent (u32 (pd_level (pd s parent) + 1)) 1 0 false false false) id s.

Fixpoint free_all (idxs : list Z) (ns : Z) (s : pid_state) : res pid_state :=
  match idxs with
  | [] => Ok s
  | i :: idxs =>
      let* s := (if e_used (ent s i) && (e_ns (ent s i) =? ns) then pidmap_free_locked i s else Ok s) in
      free_all idxs ns s
  end.
(** The parent, whose reference the caller drops, and the state. *)
Definition pidns_release_locked (id : Z) (s : pid_state) : res (Z * pid_state) :=
  if (id =? 0) || (NS_MAX_PID <=? id) then Ok (0, s)
  else
    let* s := free_all (Z.of_nat <$> seq 0 (Z.to_nat PIDMAP_ENTRIES)) id s in
    let parent := pd_parent (pd s id) in
    Ok (parent, upd_pd (fun _ => pd_zero) id s).

Definition pidns_level_locked (s : pid_state) (ns : Z) : Z := if ns <? NS_MAX_PID then pd_level (pd s ns) else 0.
Definition pidns_parent_locked (s : pid_state) (ns : Z) : Z := if ns <? NS_MAX_PID then pd_parent (pd s ns) else 0.
Definition pidns_dying_locked (s : pid_state) (ns : Z) : bool := (ns <>? 0) && (ns <? NS_MAX_PID) && dying (pd s ns).
(** [for (depth = 0; depth <= NS_MAX_LEVEL + 1; depth++)]: 34 rounds. *)
Fixpoint is_ancestor_loop (rounds : nat) (s : pid_state) (ancestor ns : Z) : bool :=
  match rounds with
  | O => false
  | S r => if ns =? ancestor then true else if ns =? 0 then false else is_ancestor_loop r s ancestor (pd_parent (pd s ns))
  end.
Definition pidns_is_ancestor_locked (s : pid_state) (ancestor ns : Z) : bool :=
  if (NS_MAX_PID <=? ancestor) || (NS_MAX_PID <=? ns) then false else is_ancestor_loop 34 s ancestor ns.

(** ** Membership *)

Definition set_next_vnr (v : Z) (d : pidns_data) : pidns_data :=
  mkPd (pd_parent d) (pd_level d) v (reaper d) (has_reaper d) (reaper_gone d) (dying d).
Definition set_reaper (g : Z) (d : pidns_data) : pidns_data :=
  mkPd (pd_parent d) (pd_level d) (next_vnr d) g true (reaper_gone d) (dying d).
Fixpoint enter_loop (fuel : nat) (n ns g : Z) (is_thread : bool) (s : pid_state) : res pid_state :=
  if n =? 0 then Ok s
  else match fuel with
       | O => Fault
       | S fuel =>
           let* found := find_by_gid_locked n g s in
           match found with
           | Some _ => enter_loop fuel (pd_parent (pd s n)) ns g is_thread s
           | None =>
               let v := next_vnr (pd s n) in
               let* '(rc, s) := pidmap_add_locked n g v s in
               if rc <>? 0 then Ok s
               else
                 let s := upd_pd (set_next_vnr (u64 (v + 1))) n s in
                 let s := if (n =? ns) && negb is_thread && negb (has_reaper (pd s n)) then upd_pd (set_reaper g) n s else s in
                 enter_loop fuel (pd_parent (pd s n)) ns g is_thread s
           end
       end.
Definition enter_fuel : nat := 34.
Definition pidns_enter_locked (ns g : Z) (is_thread : bool) (s : pid_state) : res pid_state :=
  if (ns =? 0) || (NS_MAX_PID <=? ns) then Ok s else enter_loop enter_fuel ns ns g is_thread s.

Definition set_dying (d : pidns_data) : pidns_data :=
  mkPd (pd_parent d) (pd_level d) (next_vnr d) (reaper d) (has_reaper d) (reaper_gone d) true.
Definition set_gone (d : pidns_data) : pidns_data :=
  mkPd (pd_parent d) (pd_level d) (next_vnr d) (reaper d) (has_reaper d) true true.
(** [allocated i] is [ns_slots[NS_PID][i].used]. *)
Definition pidns_task_exit_locked (allocated : Z -> bool) (g ns : Z) (s : pid_state) : pid_state :=
  if (ns =? 0) || (NS_MAX_PID <=? ns) then s
  else
    let d := pd s ns in
    if negb (has_reaper d) || (reaper d <>? g) || reaper_gone d then s
    else
      let s := upd_pd set_gone ns s in
      let s := fold_left (fun s i => if allocated i && pidns_is_ancestor_locked s ns i then upd_pd set_dying i s else s)
                 (Z.of_nat <$> seq 1 (Z.to_nat NS_MAX_PID - 1)) s in
      if Z.of_nat (length (zap_pending s)) <? PIDNS_ZAP_MAX then set_zaps (zap_pending s ++ [ns]) s else s.

Definition set_dead (e : pidmap_ent) : pidmap_ent := mkEnt (gid e) (vnr e) (gen e) (e_ns e) (e_used e) true (next_g e) (next_v e).
(** One entry joins the ring of the reaped and may push another out. *)
Definition bury (idx : Z) (s : pid_state) : res pid_state :=
  let s := upd_ent set_dead idx s in
  let slot := dead_pos s mod PIDMAP_DEAD_RING in
  let s := set_ring (dead_ring s) (u32 (dead_pos s + 1)) s in
  let '(oi, og) := zget (dead_ring s) slot in
  let* s := (if oi <>? 0 then
               let old := ent s (oi - 1) in
               if e_used old && dead old && (gen old =? og) then pidmap_free_locked (oi - 1) s else Ok s
             else Ok s) in
  Ok (set_ring (zalter (fun _ => (u16 (idx + 1), gen (ent s idx))) slot (dead_ring s)) (dead_pos s) s).
Fixpoint reap_loop (nss : list Z) (allocated : Z -> bool) (g : Z) (s : pid_state) : res pid_state :=
  match nss with
  | [] => Ok s
  | n :: nss =>
      let* s := (if negb (allocated n) then Ok s
                 else let* found := find_by_gid_locked n g s in
                      match found with
                      | None => Ok s
                      | Some i => if dead (ent s i) then Ok s else bury i s
                      end) in
      reap_loop nss allocated g s
  end.
Definition pidns_task_reaped_locked (allocated : Z -> bool) (g : Z) (s : pid_state) : res pid_state :=
  if negb (pidmap_ready s) then Ok s else reap_loop (Z.of_nat <$> seq 1 (Z.to_nat NS_MAX_PID - 1)) allocated g s.

(** [pidns_run_zaps]: a namespace taken off the list; the tasks it kills, given
    the id and the namespace of every other task alive. *)
Definition zap_next (s : pid_state) : option Z * pid_state :=
  match rev (zap_pending s) with
  | [] => (None, s)
  | ns :: l => (Some ns, set_zaps (rev l) s)
  end.
Definition zap_victims (s : pid_state) (ns : Z) (tasks : list (Z * Z)) : list Z :=
  fst <$> List.filter (fun '(_, tns) => (tns <>? 0) && pidns_is_ancestor_locked s ns tns) tasks.

(** ** Translation *)

Definition namespace_pid_to_ns (s : pid_state) (ns kernel_pid : Z) : res Z :=
  if (ns =? 0) || (kernel_pid =? 0) then Ok kernel_pid
  else let* e := find_by_gid_locked ns kernel_pid s in Ok (match e with Some i => vnr (ent s i) | None => 0 end).
Definition namespace_pid_from_ns (s : pid_state) (ns user_pid : Z) : res Z :=
  if (ns =? 0) || (user_pid =? 0) then Ok user_pid
  else let* e := find_by_vnr_locked ns user_pid s in Ok (match e with Some i => gid (ent s i) | None => 0 end).
(** [active] is the caller's namespace. *)
Definition namespace_pid_to_user (ns_any : bool) (s : pid_state) (active kernel_pid : Z) : res Z :=
  if negb ns_any then Ok kernel_pid else namespace_pid_to_ns s active kernel_pid.
Definition namespace_pid_from_user (ns_any : bool) (s : pid_state) (active user_pid : Z) : res Z :=
  if negb ns_any then Ok user_pid else namespace_pid_from_ns s active user_pid.
Definition namespace_pid_visible (ns_any : bool) (s : pid_state) (active kernel_pid : Z) : res bool :=
  let* v := namespace_pid_to_user ns_any s active kernel_pid in Ok (v <>? 0).
(** [observer] is the namespace of the observing task (0 if there is none). *)
Definition namespace_pid_visible_from (ns_any : bool) (s : pid_state) (observer kernel_pid : Z) : res bool :=
  if negb ns_any || (observer =? 0) then Ok true
  else let* v := namespace_pid_to_ns s observer kernel_pid in Ok (v <>? 0).

(** The namespaces from [own] up to [from_ns], the latter first; [None] if the
    walk does not meet it. *)
Fixpoint chain_path (n : nat) (s : pid_state) (ns from_ns : Z) (path : list Z) : option (list Z) :=
  match n with
  | O => None
  | S n => if ns =? from_ns then Some (ns :: path)
           else if ns =? 0 then None
           else chain_path n s (pd_parent (pd s ns)) from_ns (ns :: path)
  end.
Fixpoint chain_numbers (path : list Z) (max : nat) (s : pid_state) (kernel_pid : Z) : res (list Z) :=
  match path, max with
  | ns :: path, S max =>
      let* v := (if ns =? 0 then Ok kernel_pid
                 else let* e := find_by_gid_locked ns kernel_pid s in Ok (match e with Some i => vnr (ent s i) | None => 0 end)) in
      let* l := chain_numbers path max s kernel_pid in Ok (v :: l)
  | _, _ => Ok []
  end.
Definition namespace_pid_chain (s : pid_state) (own kernel_pid from_ns : Z) (max : nat) : res (list Z) :=
  match chain_path (Z.to_nat (NS_MAX_LEVEL + 1)) s own from_ns [] with
  | Some path => chain_numbers path max s kernel_pid
  | None => Ok []
  end.
Definition namespace_pid_reaper (s : pid_state) (ns : Z) : Z :=
  if (ns =? 0) || (NS_MAX_PID <=? ns) then 0
  else if has_reaper (pd s ns) && negb (reaper_gone (pd s ns)) then reaper (pd s ns) else 0.
Fixpoint orphan_loop (fuel : nat) (s : pid_state) (ns orphan : Z) : res Z :=
  if ns =? 0 then Ok 0
  else match fuel with
       | O => Fault
       | S fuel =>
           let d := pd s ns in
           if has_reaper d && negb (reaper_gone d) && (reaper d <>? orphan) then Ok (reaper d)
           else orphan_loop fuel s (pd_parent d) orphan
       end.
(** [own] is the orphan's namespace, [None] when there is no such task. *)
Definition namespace_pid_orphan_reaper (ns_any : bool) (s : pid_state) (own : option Z) (orphan : Z) : res Z :=
  if negb ns_any then Ok 0 else match own with None => Ok 0 | Some ns => orphan_loop enter_fuel s ns orphan end.
Definition namespace_pid_signal_allowed (ns_any : bool) (s : pid_state) (sender_ns tns leader sig : Z) (has_handler : bool) : bool :=
  if negb ns_any || (sig =? 0) || has_handler then true
  else if tns =? 0 then true
  else
    let is_init := has_reaper (pd s tns) && (reaper (pd s tns) =? leader) in
    let from_ancestor := (sender_ns <>? tns) && pidns_is_ancestor_locked s sender_ns tns in
    if negb is_init then true else from_ancestor && ((sig =? SIGKILL) || (sig =? SIGSTOP)).
End PidNs.
