(* ===== verification/PidNsProofs.v ===== *)
(** PID namespaces: the hash chains and the free list partition the table, and
    numbers are a bijection in every namespace. *)
From Stdlib Require Import ZifyBool.
From S2P Require Import Prelude PidNs.
From stdpp Require Import list.
Local Open Scope Z_scope.
Local Open Scope kernel_scope.

Module PidNsProofs.
Import PidNs.

(** ** Linked lists of indices *)

Fixpoint linked (nx : Z -> Z) (h : Z) (l : list Z) : Prop :=
  match l with [] => h = 0 | i :: l => h = i + 1 /\ linked nx (nx i) l end.
Definition upd (f : Z -> Z) (k v : Z) : Z -> Z := fun i => if i =? k then v else f i.
(** The link that leads to what follows [l]. *)
Fixpoint last_link (at_ : link) (l : list Z) : link := match l with [] => at_ | i :: l => last_link (Next i) l end.
Definition read (nx : Z -> Z) (h : Z) (at_ : link) : Z := match at_ with Head => h | Next i => nx i end.
Definition write_nx (nx : Z -> Z) (at_ : link) (v : Z) : Z -> Z := match at_ with Head => nx | Next i => upd nx i v end.
Definition write_h (h : Z) (at_ : link) (v : Z) : Z := match at_ with Head => v | Next _ => h end.

Lemma linked_ext nx nx' h l : (forall i, i ∈ l -> nx' i = nx i) -> linked nx h l -> linked nx' h l.
Proof.
  revert h. induction l as [|i l IH]; intros h E; [done|]. intros [-> L]. split; [done|]. rewrite E by left.
  apply IH; [|done]. intros j Hj. apply E. by right.
Qed.
Lemma last_link_cons at_ l : last_link at_ l = at_ \/ exists p, p ∈ l /\ last_link at_ l = Next p.
Proof.
  revert at_. induction l as [|i l IH]; intros at_; [by left|]. right. cbn. destruct (IH (Next i)) as [->|(p & Hp & ->)].
  - exists i. split; [left|done].
  - exists p. split; [by right|done].
Qed.
(** Splicing the element after [l1] out. *)
Lemma linked_splice nx h at_ l1 i l2 : linked nx (read nx h at_) (l1 ++ i :: l2) -> NoDup (l1 ++ i :: l2) ->
  match at_ with Next p => p ∉ l1 ++ i :: l2 | Head => True end ->
  let k := last_link at_ l1 in linked (write_nx nx k (nx i)) (read (write_nx nx k (nx i)) (write_h h k (nx i)) at_) (l1 ++ l2).
Proof.
  revert at_. induction l1 as [|j l1 IH]; intros at_ L ND P; cbn [app last_link].
  - destruct L as [E L]. cbn in ND. apply NoDup_cons in ND as [Ni ND].
    assert (R : read (write_nx nx at_ (nx i)) (write_h h at_ (nx i)) at_ = nx i) by (destruct at_; cbn; unfold upd; by rewrite ?Z.eqb_refl).
    cbv zeta. rewrite R. eapply linked_ext; [|exact L]. intros k Hk. destruct at_ as [|p]; cbn; [done|]. unfold upd.
    destruct (Z.eqb_spec k p) as [->|]; [|done]. destruct P. by right.
  - destruct L as [E L]. cbn in ND. apply NoDup_cons in ND as [Nj ND]. cbv zeta. split.
    + destruct at_ as [|p]; cbn [read] in *.
      * unfold write_h. destruct (last_link_cons (Next j) l1) as [->|(q & _ & ->)]; done.
      * destruct (last_link_cons (Next j) l1) as [->|(q & Hq & ->)]; cbn; unfold upd.
        -- destruct (Z.eqb_spec p j) as [->|]; [destruct P; left|done].
        -- destruct (Z.eqb_spec p q) as [->|]; [|done]. destruct P. right. apply elem_of_app. by left.
    + specialize (IH (Next j) L ND Nj). cbv zeta in IH. exact IH.
Qed.

(** ** The chains of a table *)

(** A bucket's chain has the members whose key it is, each once. *)
Record chains (n : Z) (nx hd key : Z -> Z) (mem : Z -> bool) (c : Z -> list Z) : Prop := {
  ch_linked : forall b, 0 <= b < PIDMAP_BUCKETS -> linked nx (hd b) (c b);
  ch_nodup : forall b, 0 <= b < PIDMAP_BUCKETS -> NoDup (c b);
  ch_mem : forall b i, 0 <= b < PIDMAP_BUCKETS -> i ∈ c b <-> 0 <= i < n /\ mem i = true /\ key i = b }.
Lemma chains_remove n nx hd key mem c i l1 l2 nx' hd' mem' key' :
  chains n nx hd key mem c -> 0 <= i < n -> mem i = true -> 0 <= key i < PIDMAP_BUCKETS -> c (key i) = l1 ++ i :: l2 ->
  (forall j, j <> i -> 0 <= j < n -> nx' j = write_nx nx (last_link Head l1) (nx i) j) ->
  (forall b, 0 <= b < PIDMAP_BUCKETS -> hd' b = if b =? key i then write_h (hd b) (last_link Head l1) (nx i) else hd b) ->
  (forall j, 0 <= j < n -> mem' j = if j =? i then false else mem j) -> (forall j, j <> i -> 0 <= j < n -> key' j = key j) ->
  chains n nx' hd' key' mem' (fun b => if b =? key i then l1 ++ l2 else c b).
Proof.
  intros [L ND M] Hi Hm Hb E Nx Hd Hmem Hkey. pose proof (L _ Hb) as Lb. pose proof (ND _ Hb) as NDb. rewrite E in Lb, NDb.
  assert (Ni : i ∉ l1 ++ l2) by (intros H; apply NoDup_app in NDb as (_ & H1 & H2); apply NoDup_cons in H2 as [H2 _]; apply elem_of_app in H as [H|H];
    [apply (H1 i H); left|done]).
  assert (In : forall b j, 0 <= b < PIDMAP_BUCKETS -> j ∈ (if b =? key i then l1 ++ l2 else c b) <-> j ∈ c b /\ j <> i).
  { intros b j Hb'. destruct (Z.eqb_spec b (key i)) as [->|N].
    - rewrite E, !elem_of_app, elem_of_cons. split; [|tauto]. intros H. split; [tauto|]. intros ->. apply Ni. by apply elem_of_app.
    - split; [|tauto]. intros H. split; [done|]. intros ->. apply M in H as (_ & _ & H); [congruence|done]. }
  constructor.
  - intros b Hb'. rewrite Hd by done. destruct (Z.eqb_spec b (key i)) as [->|N].
    + pose proof (linked_splice nx (hd (key i)) Head l1 i l2 Lb NDb Logic.I) as S. cbv zeta in S. cbn [read] in S. eapply linked_ext; [|exact S].
      intros j Hj. pose proof (proj1 (In (key i) j Hb)) as H. rewrite Z.eqb_refl in H. destruct (H Hj) as [Hc Hji].
      apply M in Hc as [Hr _]; [|done]. by apply Nx.
    + eapply linked_ext; [|by apply L]. intros j Hj. assert (Hc := Hj). apply M in Hc as (Hr & _ & Hk); [|done].
      assert (j <> i) by (intros ->; congruence). rewrite Nx by done. destruct (last_link_cons Head l1) as [->|(q & Hq & ->)]; [done|]. cbn. unfold upd.
      destruct (Z.eqb_spec j q) as [->|]; [|done]. assert (q ∈ c (key i)) as Hqc by (rewrite E; apply elem_of_app; by left).
      apply M in Hqc as (_ & _ & ?); [congruence|done].
  - intros b Hb'. destruct (Z.eqb_spec b (key i)) as [->|N]; [|by apply ND]. apply NoDup_app in NDb as (H1 & H2 & H3). apply NoDup_cons in H3 as [_ H3].
    apply NoDup_app. split_and!; [done| |done]. intros x Hx Hx2. apply (H2 x Hx). by right.
  - intros b j Hb'. rewrite In, M by done. split.
    + intros ((Hr & Hmj & Hk) & N). rewrite Hmem, Hkey by done. destruct (Z.eqb_spec j i); [done|]. done.
    + intros (Hr & Hmj & Hk). rewrite Hmem in Hmj by done. destruct (Z.eqb_spec j i); [done|]. rewrite Hkey in Hk by done. done.
Qed.
Lemma chains_add n nx hd key mem c i k nx' hd' mem' key' :
  chains n nx hd key mem c -> 0 <= i < n -> mem i = false -> 0 <= k < PIDMAP_BUCKETS ->
  (forall j, 0 <= j < n -> nx' j = if j =? i then hd k else nx j) ->
  (forall b, 0 <= b < PIDMAP_BUCKETS -> hd' b = if b =? k then i + 1 else hd b) ->
  (forall j, 0 <= j < n -> mem' j = if j =? i then true else mem j) -> (forall j, 0 <= j < n -> key' j = if j =? i then k else key j) ->
  chains n nx' hd' key' mem' (fun b => if b =? k then i :: c k else c b).
Proof.
  intros [L ND M] Hi Hm Hk Nx Hd Hmem Hkey.
  assert (Ni : forall b, 0 <= b < PIDMAP_BUCKETS -> i ∉ c b) by (intros b Hb H; apply M in H as (_ & H & _); [congruence|done]).
  assert (Keep : forall b, 0 <= b < PIDMAP_BUCKETS -> linked nx' (hd b) (c b)).
  { intros b Hb. eapply linked_ext; [|by apply L]. intros j Hj. pose proof (proj1 (M b j Hb) Hj) as [Hr _]. rewrite Nx by done.
    destruct (Z.eqb_spec j i) as [->|]; [|done]. by destruct (Ni b Hb). }
  constructor.
  - intros b Hb. rewrite Hd by done. destruct (Z.eqb_spec b k) as [->|]; [|by apply Keep]. split; [done|]. rewrite Nx, Z.eqb_refl by done. by apply Keep.
  - intros b Hb. destruct (Z.eqb_spec b k) as [->|]; [|by apply ND]. apply NoDup_cons. split; [by apply Ni|by apply ND].
  - intros b j Hb. destruct (Z.eqb_spec b k) as [->|N].
    + rewrite elem_of_cons, M by done. split.
      * intros [->|(Hr & Hmj & Hkj)]; [rewrite Hmem, Hkey, Z.eqb_refl by done; done|]. rewrite Hmem, Hkey by done.
        destruct (Z.eqb_spec j i) as [->|]; [congruence|done].
      * intros (Hr & Hmj & Hkj). rewrite Hmem in Hmj by done. rewrite Hkey in Hkj by done. destruct (Z.eqb_spec j i); [by left|by right].
    + rewrite M by done. split.
      * intros (Hr & Hmj & Hkj). rewrite Hmem, Hkey by done. destruct (Z.eqb_spec j i) as [->|]; [congruence|done].
      * intros (Hr & Hmj & Hkj). rewrite Hmem in Hmj by done. rewrite Hkey in Hkj by done. destruct (Z.eqb_spec j i); [congruence|done].
Qed.

(** ** The invariant of the table *)

Definition nx (by_gid : bool) (s : pid_state) (i : Z) : Z := next by_gid (ent s i).
Definition used (s : pid_state) (i : Z) : bool := e_used (ent s i).
Definition key (by_gid : bool) (s : pid_state) (i : Z) : Z :=
  let e := ent s i in if by_gid then hash_g (gid e) (e_ns e) else hash_v (vnr e) (e_ns e).
Definition heads (by_gid : bool) (s : pid_state) : list Z := if by_gid then head_g s else head_v s.
Record table_ok (s : pid_state) : Prop := {
  t_len : length (pidmap s) = Z.to_nat PIDMAP_ENTRIES;
  t_heads : length (head_g s) = Z.to_nat PIDMAP_BUCKETS /\ length (head_v s) = Z.to_nat PIDMAP_BUCKETS;
  t_ready : pidmap_ready s = true;
  t_chains : forall g, exists c, chains PIDMAP_ENTRIES (nx g s) (zget (heads g s)) (key g s) (used s) c;
  t_free : exists l, linked (nx true s) (free_head s) l /\ NoDup l /\ forall i, i ∈ l <-> 0 <= i < PIDMAP_ENTRIES /\ used s i = false }.

Lemma pid_hash_range x : 0 <= Z.land x (PIDMAP_BUCKETS - 1) < PIDMAP_BUCKETS.
Proof. unfold PIDMAP_BUCKETS. change (4096 - 1) with (Z.ones 12). rewrite Z.land_ones by lia. apply Z.mod_pos_bound. lia. Qed.
Lemma hash_g_range g ns : 0 <= hash_g g ns < PIDMAP_BUCKETS.
Proof. apply pid_hash_range. Qed.
Lemma hash_v_range v ns : 0 <= hash_v v ns < PIDMAP_BUCKETS.
Proof. apply pid_hash_range. Qed.
Lemma inside_range {A} (l : list A) n i : length l = Z.to_nat n -> inside l i = true <-> 0 <= i < n.
Proof. unfold inside. intros ->. lia. Qed.
Lemma nodup_length (l : list Z) n : NoDup l -> (forall i, i ∈ l -> 0 <= i < n) -> (length l <= Z.to_nat n)%nat.
Proof.
  intros ND R. rewrite <- (length_seqZ 0 n). apply submseteq_length, NoDup_submseteq; [done|]. intros i Hi%R. apply elem_of_seqZ. lia.
Qed.
Lemma zget_zalter {A} `{Inhabited A} (f : A -> A) i j (l : list A) n : length l = Z.to_nat n -> 0 <= i < n -> 0 <= j ->
  zget (zalter f i l) j = if j =? i then f (zget l i) else zget l j.
Proof.
  intros L Hi Hj. destruct (Z.eqb_spec j i) as [->|N]; [apply zget_zalter_eq; lia|apply zget_zalter_ne; lia].
Qed.
Lemma key_range g s i : 0 <= key g s i < PIDMAP_BUCKETS.
Proof. unfold key. destruct g; apply pid_hash_range. Qed.
Lemma set_next_own g e : set_next g (next g e) e = e.
Proof. by destruct g, e. Qed.

Lemma find_loop_ok g hit tab n fuel : forall h l, length tab = Z.to_nat n -> linked (fun i => next g (zget tab i)) h l ->
  (forall i, i ∈ l -> 0 <= i < n) -> (length l <= fuel)%nat ->
  exists r, find_loop fuel g hit tab h = Ok r /\
    match r with Some i => i ∈ l /\ hit (zget tab i) = true | None => forall i, i ∈ l -> hit (zget tab i) = false end.
Proof.
  induction fuel as [|fuel IH]; intros h [|i l] L K R Hf; cbn in Hf; try lia.
  - cbn in K. subst h. exists None. split; [done|]. intros i Hi. by apply elem_of_nil in Hi.
  - cbn in K. subst h. exists None. split; [done|]. intros i Hi. by apply elem_of_nil in Hi.
  - destruct K as [-> K]. cbn [find_loop]. pose proof (R i ltac:(left)) as Hi. replace (i + 1 =? 0) with false by lia.
    replace (i + 1 - 1) with i by lia. rewrite (proj2 (inside_range tab n i L) Hi). cbn [negb]. destruct (hit (zget tab i)) eqn:H.
    + exists (Some i). split; [done|]. split; [left|done].
    + destruct (IH (next g (zget tab i)) l L K) as (r & -> & Hr); [intros j Hj; apply R; by right|lia|]. exists r. split; [done|].
      destruct r as [j|]; [split; [right|]; apply Hr|]. intros j [->|Hj]%elem_of_cons; [done|by apply Hr].
Qed.
Lemma unlink_loop_ok g tab n head idx l2 : length tab = Z.to_nat n ->
  let f := fun i => next g (zget tab i) in forall l1 fuel at_,
  linked f (read f head at_) (l1 ++ idx :: l2) -> idx ∉ l1 -> (forall i, i ∈ l1 ++ [idx] -> 0 <= i < n) -> (length l1 < fuel)%nat ->
  unlink_loop fuel g tab head at_ idx
    = Ok match last_link at_ l1 with Head => (f idx, tab) | Next p => (head, zalter (set_next g (f idx)) p tab) end.
Proof.
  intros L f. induction l1 as [|i l1 IH]; intros [|fuel] at_ K Ni R Hf; cbn in Hf; try lia; cbn [unlink_loop app] in *; destruct K as [E K].
  - assert (match at_ with Head => head | Next i => next g (zget tab i) end = idx + 1) as -> by (by destruct at_).
    pose proof (R idx ltac:(left)) as Hi. replace (idx + 1 =? 0) with false by lia. replace (idx + 1 - 1) with idx by lia.
    rewrite (proj2 (inside_range tab n idx L) Hi), Z.eqb_refl. cbn [negb last_link]. by destruct at_.
  - assert (match at_ with Head => head | Next i => next g (zget tab i) end = i + 1) as -> by (by destruct at_).
    pose proof (R i ltac:(left)) as Hi. replace (i + 1 =? 0) with false by lia. replace (i + 1 - 1) with i by lia.
    rewrite (proj2 (inside_range tab n i L) Hi). apply not_elem_of_cons in Ni as [Ni1 Ni2]. replace (i =? idx) with false by lia. cbn [negb last_link].
    apply IH; [exact K|done| |lia]. intros j Hj. apply R. by right.
Qed.
(** Taking a used entry off one of its chains. *)
Lemma chain_unlink_ok g s c i : length (pidmap s) = Z.to_nat PIDMAP_ENTRIES -> 0 <= i < PIDMAP_ENTRIES -> used s i = true ->
  chains PIDMAP_ENTRIES (nx g s) (zget (heads g s)) (key g s) (used s) c ->
  exists l1 l2 tab, c (key g s i) = l1 ++ i :: l2 /\
    let k := last_link Head l1 in let h := zget (heads g s) (key g s i) in
    chain_unlink h i g s = Ok (write_h h k (nx g s i), set_pidmap tab s) /\ length tab = Z.to_nat PIDMAP_ENTRIES /\
    forall j, 0 <= j < PIDMAP_ENTRIES -> zget tab j = set_next g (write_nx (nx g s) k (nx g s i) j) (ent s j).
Proof.
  intros L Hi U [K ND M]. pose proof (key_range g s i) as Hk. assert (In : i ∈ c (key g s i)) by (by apply M).
  apply list_elem_of_split in In as (l1 & l2 & E). pose proof (ND _ Hk) as NDb. pose proof (K _ Hk) as Kb. rewrite E in NDb, Kb.
  assert (R : forall j, j ∈ l1 ++ i :: l2 -> 0 <= j < PIDMAP_ENTRIES) by (intros j Hj; rewrite <- E in Hj; by apply M in Hj as [? _]).
  exists l1, l2. pose proof (nodup_length _ _ NDb R) as Len. rewrite length_app in Len. cbn in Len.
  assert (Ni : i ∉ l1) by (intros H; apply NoDup_app in NDb as (_ & N & _); apply (N i H); left).
  exists (match last_link Head l1 with Head => pidmap s | Next p => zalter (set_next g (nx g s i)) p (pidmap s) end).
  split; [done|]. cbv zeta. unfold chain_unlink.
  rewrite (unlink_loop_ok g (pidmap s) PIDMAP_ENTRIES (zget (heads g s) (key g s i)) i l2 L l1 (walk_fuel s) Head Kb Ni).
  2: { intros j Hj. apply R. apply elem_of_app in Hj as [Hj|Hj]; apply elem_of_app; [by left|right]. apply list_elem_of_singleton in Hj as ->. left. }
  2: { unfold walk_fuel. rewrite L. lia. }
  destruct (last_link_cons Head l1) as [->|(p & Hp & ->)]; cbn [rbind write_h write_nx].
  - split; [reflexivity|]. split; [done|]. intros j Hj. symmetry. apply set_next_own.
  - split; [reflexivity|]. split; [by rewrite length_zalter|]. intros j Hj.
    assert (0 <= p < PIDMAP_ENTRIES) as Hp' by (apply R, elem_of_app; by left).
    rewrite (zget_zalter _ _ _ _ PIDMAP_ENTRIES) by (done || lia). unfold upd. destruct (Z.eqb_spec j p) as [->|]; [done|]. symmetry. apply set_next_own.
Qed.

(** What an entry says, without its links. *)
Definition info (e : pidmap_ent) : Z * Z * Z * Z * bool * bool := (gid e, vnr e, gen e, e_ns e, e_used e, dead e).
(** The rest of the state. *)
Definition rest (s : pid_state) := (pidns s, dead_ring s, dead_pos s, zap_pending s).
Lemma key_info g s s' i : info (ent s' i) = info (ent s i) -> key g s' i = key g s i.
Proof. unfold info, key. intros [= -> -> _ -> _ _]. done. Qed.
Lemma used_info s s' i : info (ent s' i) = info (ent s i) -> used s' i = used s i.
Proof. unfold info, used. by intros [= _ _ _ _ -> _]. Qed.
Lemma info_set_next g l e : info (set_next g l e) = info e.
Proof. by destruct g. Qed.
Lemma next_set_next g l e : next g (set_next g l e) = l /\ next (negb g) (set_next g l e) = next (negb g) e.
Proof. by destruct g. Qed.

(** The chains of the other direction do not see it. *)
Lemma chains_ext n f f' hd hd' k k' m m' c : chains n f hd k m c -> (forall i, 0 <= i < n -> f' i = f i /\ k' i = k i /\ m' i = m i) ->
  (forall b, 0 <= b < PIDMAP_BUCKETS -> hd' b = hd b) -> chains n f' hd' k' m' c.
Proof.
  intros [K ND M] E H. constructor; [|done|].
  - intros b Hb. rewrite H by done. eapply linked_ext; [|by apply K]. intros i Hi. apply M in Hi as [Hi _]; [|done]. by apply E.
  - intros b i Hb. rewrite M by done. split; intros (Hi & Hm & Hk); destruct (E i Hi) as (_ & E1 & E2); rewrite ?E1, ?E2 in *; done.
Qed.
(** The table once [i] is off both chains and on the free list. *)
Definition spliced (s : pid_state) (kg kv : link) (i j : Z) : pidmap_ent :=
  if j =? i then mkEnt (gid (ent s i)) (vnr (ent s i)) (gen (ent s i)) (e_ns (ent s i)) false false (free_head s) 0
  else set_next false (write_nx (nx false s) kv (nx false s i) j) (set_next true (write_nx (nx true s) kg (nx true s i) j) (ent s j)).
Lemma spliced_ok s sf i cg cv g1 g2 v1 v2 : table_ok s -> 0 <= i < PIDMAP_ENTRIES -> used s i = true ->
  chains PIDMAP_ENTRIES (nx true s) (zget (heads true s)) (key true s) (used s) cg -> cg (key true s i) = g1 ++ i :: g2 ->
  chains PIDMAP_ENTRIES (nx false s) (zget (heads false s)) (key false s) (used s) cv -> cv (key false s i) = v1 ++ i :: v2 ->
  let kg := last_link Head g1 in let kv := last_link Head v1 in
  length (pidmap sf) = Z.to_nat PIDMAP_ENTRIES -> pidmap_ready sf = true -> free_head sf = i + 1 ->
  head_g sf = zalter (fun _ => write_h (zget (head_g s) (key true s i)) kg (nx true s i)) (key true s i) (head_g s) ->
  head_v sf = zalter (fun _ => write_h (zget (head_v s) (key false s i)) kv (nx false s i)) (key false s i) (head_v s) ->
  (forall j, 0 <= j < PIDMAP_ENTRIES -> ent sf j = spliced s kg kv i j) -> table_ok sf.
Proof.
  intros [L [LG LV] RD CH (fl & FL & FN & FM)] Hi U Kg Eg Kv Ev kg kv Lf Rf Ff HG HV EF.
  pose proof (key_range true s i) as Rg. pose proof (key_range false s i) as Rv.
  assert (Hd : forall g b, 0 <= b < PIDMAP_BUCKETS -> zget (heads g sf) b = if b =? key g s i
    then write_h (zget (heads g s) b) (if g then kg else kv) (nx g s i) else zget (heads g s) b).
  { intros [|] b Hb; cbn [heads]; [rewrite HG|rewrite HV]; rewrite (zget_zalter _ _ _ _ PIDMAP_BUCKETS) by (done || lia).
    - by destruct (Z.eqb_spec b (key true s i)) as [->|].
    - by destruct (Z.eqb_spec b (key false s i)) as [->|]. }
  assert (Keep : forall j, j <> i -> 0 <= j < PIDMAP_ENTRIES -> info (ent sf j) = info (ent s j) /\
    forall g, nx g sf j = write_nx (nx g s) (if g then kg else kv) (nx g s i) j).
  { intros j N Hj. unfold nx at 1. rewrite EF by done. unfold spliced. replace (j =? i) with false by lia. split; [done|]. by intros []. }
  assert (Us : forall j, 0 <= j < PIDMAP_ENTRIES -> used sf j = if j =? i then false else used s j).
  { intros j Hj. destruct (Z.eqb_spec j i) as [->|N]; [unfold used; rewrite EF by done; unfold spliced; by rewrite Z.eqb_refl|]. by apply used_info, Keep. }
  constructor; [done|rewrite HG, HV, !length_zalter; done|done| |].
  - intros [|]; eexists.
    + apply (chains_remove _ _ _ _ _ cg i g1 g2 _ _ _ _ Kg Hi U Rg Eg); [intros j N Hj; exact (proj2 (Keep j N Hj) true)|exact (Hd true)|done|].
      intros j N Hj. exact (key_info true _ _ _ (proj1 (Keep j N Hj))).
    + apply (chains_remove _ _ _ _ _ cv i v1 v2 _ _ _ _ Kv Hi U Rv Ev); [intros j N Hj; exact (proj2 (Keep j N Hj) false)|exact (Hd false)|done|].
      intros j N Hj. exact (key_info false _ _ _ (proj1 (Keep j N Hj))).
  - exists (i :: fl). assert (Nf : i ∉ fl) by (intros [_ H]%FM; congruence). split_and!.
    + rewrite Ff. split; [done|]. unfold nx at 2. rewrite EF by done. unfold spliced. rewrite Z.eqb_refl. cbn [next next_g].
      eapply linked_ext; [|exact FL]. intros j Hj. pose proof (proj1 (FM j) Hj) as [Hr Uj]. assert (j <> i) as N by (by intros ->).
      destruct (Keep j N Hr) as [_ ->]. destruct (last_link_cons Head g1) as [E|(p & Hp & E)]; unfold kg; rewrite E; [done|]. cbn. unfold upd.
      destruct (Z.eqb_spec j p) as [->|]; [|done]. assert (p ∈ cg (key true s i)) as Hc by (rewrite Eg; apply elem_of_app; by left).
      apply (ch_mem _ _ _ _ _ _ Kg) in Hc as (_ & ? & _); [congruence|done].
    + by apply NoDup_cons.
    + intros j. rewrite elem_of_cons, FM. split.
      * intros [->|[Hr Uj]]; [by rewrite Us, Z.eqb_refl|]. rewrite Us by done. by destruct (j =? i).
      * intros [Hr Uj]. rewrite Us in Uj by done. destruct (Z.eqb_spec j i); [by left|by right].
Qed.
Lemma pidmap_free_ok s i : table_ok s -> 0 <= i < PIDMAP_ENTRIES -> used s i = true ->
  exists s', pidmap_free_locked i s = Ok s' /\ table_ok s' /\ rest s' = rest s /\
    info (ent s' i) = (gid (ent s i), vnr (ent s i), gen (ent s i), e_ns (ent s i), false, false) /\
    forall j, 0 <= j < PIDMAP_ENTRIES -> j <> i -> info (ent s' j) = info (ent s j).
Proof.
  intros T Hi U. pose proof T as [L [LG LV] RD CH FR]. unfold pidmap_free_locked. cbv zeta. unfold used in U. rewrite U. cbn [negb].
  destruct (CH true) as [cg Kg]. destruct (CH false) as [cv Kv].
  destruct (chain_unlink_ok true s cg i L Hi U Kg) as (g1 & g2 & tab & Eg & Ug & Lt & Tg). cbv zeta in Ug. unfold key at 1 2 in Ug. cbv zeta in Ug. cbn [heads] in Ug.
  rewrite Ug. cbn [rbind]. set (kg := last_link Head g1) in *.
  set (s1 := set_heads _ _ _). assert (E1 : forall j, 0 <= j < PIDMAP_ENTRIES -> ent s1 j = set_next true (write_nx (nx true s) kg (nx true s i) j) (ent s j)) by done.
  assert (Kv1 : chains PIDMAP_ENTRIES (nx false s1) (zget (heads false s1)) (key false s1) (used s1) cv).
  { eapply chains_ext; [exact Kv| |done]. intros j Hj. unfold nx, key, used. by rewrite (E1 j Hj). }
  destruct (chain_unlink_ok false s1 cv i Lt Hi) as (v1 & v2 & tab2 & Ev & Uv & Lt2 & Tv); [unfold used; by rewrite E1|exact Kv1|].
  cbv zeta in Uv. unfold key at 1 2 in Uv. cbv zeta in Uv. cbn [heads] in Uv.
  assert (KV : key false s1 i = key false s i) by (unfold key; by rewrite E1).
  assert (KV' : hash_v (vnr (ent s1 i)) (e_ns (ent s1 i)) = hash_v (vnr (ent s i)) (e_ns (ent s i))) by (by rewrite E1). rewrite KV' in Uv. rewrite KV in Ev.
  assert (NV : nx false s1 i = nx false s i) by (unfold nx; by rewrite E1). rewrite NV in Uv.
  rewrite Uv. cbn [rbind]. set (kv := last_link Head v1) in *. eexists. split; [reflexivity|]. set (sf := set_free_head _ _).
  rewrite NV in Tv. assert (EF : forall j, 0 <= j < PIDMAP_ENTRIES -> ent sf j = spliced s kg kv i j).
  { intros j Hj. unfold sf, spliced, ent at 1. cbn [pidmap set_free_head upd_ent set_pidmap set_heads].
    rewrite (zget_zalter _ _ _ _ PIDMAP_ENTRIES) by (done || lia). destruct (Z.eqb_spec j i) as [->|N].
    - rewrite Tv, E1 by done. reflexivity.
    - rewrite Tv by done. assert (N1 : nx false s1 j = nx false s j) by (unfold nx; by rewrite E1).
      assert (W : write_nx (nx false s1) kv (nx false s i) j = write_nx (nx false s) kv (nx false s i) j) by (unfold write_nx, upd; destruct kv; by rewrite N1).
      by rewrite W, E1. }
  split; [|split; [done|]].
  - apply (spliced_ok s sf i cg cv g1 g2 v1 v2 T Hi U Kg Eg Kv Ev); [|done| |done|done|exact EF].
    + unfold sf. cbn. by rewrite length_zalter.
    + unfold sf. cbn. unfold u16, PIDMAP_ENTRIES in *. rewrite Z.mod_small; lia.
  - split; [rewrite EF by done; unfold spliced; by rewrite Z.eqb_refl|]. intros j Hj N. rewrite EF by done. unfold spliced.
    by replace (j =? i) with false by lia.
Qed.
Lemma pidmap_add_ok s ns g v : table_ok s -> 0 <= ns < 65536 ->
  pidmap_add_locked ns g v s = Ok (- ENOSPC, s) /\ (forall i, 0 <= i < PIDMAP_ENTRIES -> used s i = true) \/
  exists i s', pidmap_add_locked ns g v s = Ok (0, s') /\ 0 <= i < PIDMAP_ENTRIES /\ used s i = false /\ table_ok s' /\ rest s' = rest s /\
    info (ent s' i) = (g, v, u32 (gen (ent s i) + 1), ns, true, false) /\
    forall j, 0 <= j < PIDMAP_ENTRIES -> j <> i -> info (ent s' j) = info (ent s j).
Proof.
  intros [L [LG LV] RD CH (fl & FL & FN & FM)] Hns. unfold pidmap_add_locked, pidmap_ensure_init_locked. rewrite RD. cbv zeta.
  destruct fl as [|i fl].
  { left. cbn in FL. rewrite FL, Z.eqb_refl. split; [done|]. intros i Hi. destruct (used s i) eqn:U; [done|].
    assert (i ∈ []) as H by (by apply FM). by apply elem_of_nil in H. }
  right. destruct FL as [Hf FL]. destruct (proj1 (FM i) ltac:(left)) as [Hi U]. rewrite Hf. replace (i + 1 =? 0) with false by lia.
  replace (i + 1 - 1) with i by lia. rewrite (proj2 (inside_range _ _ i L) Hi). cbn [negb]. eexists i, _. split; [reflexivity|].
  set (e := mkEnt g v (u32 (gen (ent s i) + 1)) ns true false (zget (head_g s) (hash_g g ns)) (zget (head_v s) (hash_v v ns))). set (sf := set_heads _ _ _).
  assert (EF : forall j, 0 <= j < PIDMAP_ENTRIES -> ent sf j = if j =? i then e else ent s j).
  { intros j Hj. unfold sf, ent at 1. cbn [pidmap set_free_head upd_ent set_pidmap set_heads]. rewrite (zget_zalter _ _ _ _ PIDMAP_ENTRIES) by (done || lia).
    destruct (j =? i); [|done]. unfold e. f_equal. unfold u16. rewrite Z.mod_small; lia. }
  apply NoDup_cons in FN as [Nf FN].
  assert (Us : forall j, 0 <= j < PIDMAP_ENTRIES -> used sf j = if j =? i then true else used s j) by (intros j Hj; unfold used; rewrite EF by done; by destruct (j =? i)).
  split_and!; [lia|lia|done| |done|rewrite EF, Z.eqb_refl by done; done|].
  2: { intros j Hj N. rewrite EF by done. by replace (j =? i) with false by lia. }
  assert (HU : u16 (i + 1) = i + 1) by (unfold u16, PIDMAP_ENTRIES in *; rewrite Z.mod_small; lia).
  constructor; [unfold sf; cbn; by rewrite length_zalter|unfold sf; cbn; by rewrite !length_zalter|done| |].
  - intros gg. destruct (CH gg) as [c K]. eexists. apply (chains_add _ _ _ _ _ c i (if gg then hash_g g ns else hash_v v ns) _ _ _ _ K Hi U).
    + destruct gg; [apply hash_g_range|apply hash_v_range].
    + intros j Hj. unfold nx. rewrite EF by done. destruct (j =? i); [|done]. by destruct gg.
    + intros b Hb. pose proof (hash_g_range g ns). pose proof (hash_v_range v ns).
      destruct gg; cbn [heads sf head_g head_v set_heads]; rewrite (zget_zalter _ _ _ _ PIDMAP_BUCKETS) by (done || lia); by rewrite HU.
    + done.
    + intros j Hj. unfold key. rewrite EF by done. destruct (j =? i); [|done]. by destruct gg.
  - exists fl. split_and!; [|done|].
    + unfold sf. cbn [free_head set_heads upd_ent set_pidmap set_free_head]. eapply linked_ext; [|exact FL]. intros j Hj. unfold nx.
      rewrite EF by (apply FM; by right). by replace (j =? i) with false by (destruct (Z.eqb_spec j i); [subst; done|done]).
    + intros j. split.
      * intros Hj. destruct (proj1 (FM j)) as [Hr Uj]; [by right|]. rewrite Us by done. replace (j =? i) with false by (destruct (Z.eqb_spec j i); [subst; done|done]). done.
      * intros [Hr Uj]. rewrite Us in Uj by done. destruct (Z.eqb_spec j i) as [->|N]; [done|]. assert (j ∈ i :: fl) as [?|?]%elem_of_cons by (by apply FM); done.
Qed.

(** ** Lookups *)

Definition is_number (s : pid_state) (ns g v i : Z) : Prop :=
  0 <= i < PIDMAP_ENTRIES /\ used s i = true /\ e_ns (ent s i) = ns /\ gid (ent s i) = g /\ vnr (ent s i) = v.
Lemma find_ok s g hit b : table_ok s -> 0 <= b < PIDMAP_BUCKETS ->
  exists r, find_loop (walk_fuel s) g hit (pidmap s) (zget (heads g s) b) = Ok r /\
    match r with Some i => 0 <= i < PIDMAP_ENTRIES /\ used s i = true /\ hit (ent s i) = true
    | None => forall i, 0 <= i < PIDMAP_ENTRIES -> used s i = true -> key g s i = b -> hit (ent s i) = false end.
Proof.
  intros [L _ RD CH _] Hb. destruct (CH g) as [c [K ND M]]. pose proof (nodup_length (c b) PIDMAP_ENTRIES (ND b Hb)) as Len.
  destruct (find_loop_ok g hit (pidmap s) PIDMAP_ENTRIES (walk_fuel s) _ (c b) L (K b Hb)) as (r & E & Hr).
  - intros i Hi. by apply M in Hi as [? _].
  - unfold walk_fuel. rewrite L. apply Len. intros i Hi. by apply M in Hi as [? _].
  - exists r. split; [exact E|]. destruct r as [i|].
    + destruct Hr as [Hc Hh]. apply M in Hc as (? & ? & _); done.
    + intros i Hi U Hk. apply Hr. by apply M.
Qed.
Lemma find_by_gid_ok s ns g : table_ok s -> exists r, find_by_gid_locked ns g s = Ok r /\
  match r with Some i => is_number s ns g (vnr (ent s i)) i | None => forall v i, ~ is_number s ns g v i end.
Proof.
  intros T. unfold find_by_gid_locked. rewrite (t_ready _ T). cbn [negb].
  destruct (find_ok s true (fun e => (gid e =? g) && (e_ns e =? ns)) _ T (hash_g_range g ns)) as (r & E & Hr). exists r. split; [exact E|]. destruct r as [i|].
  - destruct Hr as (Hi & U & H). unfold is_number. split_and!; lia || done.
  - intros v i (Hi & U & N & G & _). specialize (Hr i Hi U). unfold key in Hr. rewrite G, N in Hr. specialize (Hr eq_refl). lia.
Qed.
Lemma find_by_vnr_ok s ns v : table_ok s -> exists r, find_by_vnr_locked ns v s = Ok r /\
  match r with Some i => is_number s ns (gid (ent s i)) v i | None => forall g i, ~ is_number s ns g v i end.
Proof.
  intros T. unfold find_by_vnr_locked. rewrite (t_ready _ T). cbn [negb].
  destruct (find_ok s false (fun e => (vnr e =? v) && (e_ns e =? ns)) _ T (hash_v_range v ns)) as (r & E & Hr). exists r. split; [exact E|]. destruct r as [i|].
  - destruct Hr as (Hi & U & H). unfold is_number. split_and!; lia || done.
  - intros g i (Hi & U & N & _ & V). specialize (Hr i Hi U). unfold key in Hr. rewrite V, N in Hr. specialize (Hr eq_refl). lia.
Qed.

(** ** The invariant *)

Definition num (s : pid_state) (ns g v : Z) : Prop := exists i, is_number s ns g v i.
(** [alloc] says which namespaces are allocated. *)
Record tree_ok (alloc : Z -> bool) (s : pid_state) : Prop := {
  n_len : length (pidns s) = Z.to_nat NS_MAX_PID;
  n_root : alloc 0 = true /\ pd_parent (pd s 0) = 0 /\ pd_level (pd s 0) = 0;
  n_tree : forall id, 0 < id < NS_MAX_PID -> alloc id = true -> let p := pd_parent (pd s id) in
    0 <= p < NS_MAX_PID /\ alloc p = true /\ pd_level (pd s id) = pd_level (pd s p) + 1 /\ 0 <= pd_level (pd s p) /\ pd_level (pd s id) < NS_MAX_LEVEL;
  n_next : forall id, 0 <= id < NS_MAX_PID -> alloc id = true -> 0 < next_vnr (pd s id) }.
Record numbers_ok (alloc : Z -> bool) (s : pid_state) : Prop := {
  m_num : forall ns g v i, is_number s ns g v i -> 0 < ns < NS_MAX_PID /\ alloc ns = true /\ 0 < v < next_vnr (pd s ns) /\ g <> 0;
  m_gid : forall ns g v v' i j, is_number s ns g v i -> is_number s ns g v' j -> i = j;
  m_vnr : forall ns g g' v i j, is_number s ns g v i -> is_number s ns g' v j -> i = j }.
(** What the ring holds of an entry is not from its future. *)
Record ring_ok (s : pid_state) : Prop := {
  r_gen : forall i, 0 <= i < PIDMAP_ENTRIES -> 0 <= gen (ent s i);
  r_len : length (dead_ring s) = Z.to_nat PIDMAP_DEAD_RING;
  r_pos : 0 <= dead_pos s < U32_MOD;
  r_ent : forall k oi og, dead_ring s !! k = Some (oi, og) -> oi = 0 \/ 0 < oi <= PIDMAP_ENTRIES /\
    og <= gen (ent s (oi - 1)) /\ (og = gen (ent s (oi - 1)) -> used s (oi - 1) = true -> dead (ent s (oi - 1)) = true);
  r_once : forall k k' oi og, dead_ring s !! k = Some (oi, og) -> dead_ring s !! k' = Some (oi, og) -> oi <> 0 ->
    og = gen (ent s (oi - 1)) -> k = k' }.
Record pid_inv (alloc : Z -> bool) (s : pid_state) : Prop := {
  p_table : table_ok s; p_tree : tree_ok alloc s; p_num : numbers_ok alloc s; p_ring : ring_ok s }.

Definition info_is (s s' : pid_state) (i : Z) : Prop := info (ent s' i) = info (ent s i).
Lemma is_number_info s s' ns g v i : info_is s s' i -> is_number s' ns g v i <-> is_number s ns g v i.
Proof. unfold info_is, is_number, used, info. intros [= -> -> _ -> -> _]. done. Qed.
Lemma rest_eq s s' : rest s' = rest s -> pidns s' = pidns s /\ dead_ring s' = dead_ring s /\ dead_pos s' = dead_pos s /\ zap_pending s' = zap_pending s.
Proof. unfold rest. by intros [= -> -> -> ->]. Qed.
Lemma tree_ok_rest alloc s s' : rest s' = rest s -> tree_ok alloc s -> tree_ok alloc s'.
Proof. intros (E & _)%rest_eq [L R T N]. constructor; unfold pd in *; rewrite E; done. Qed.

Lemma table_ok_pidns s l : table_ok s -> table_ok (set_pidns l s).
Proof. intros [L H R C F]. by constructor. Qed.

(** An entry as it was, freed, or used anew. *)
Lemma ring_ok_change s s' : ring_ok s -> dead_ring s' = dead_ring s -> dead_pos s' = dead_pos s ->
  (forall j, 0 <= j < PIDMAP_ENTRIES -> info_is s s' j \/ gen (ent s' j) = gen (ent s j) /\ used s' j = false \/ gen (ent s' j) = gen (ent s j) + 1) ->
  ring_ok s'.
Proof.
  intros [R0 R1 RP R2 R3] Er Ep Ch.
  assert (Gn : forall j, 0 <= j < PIDMAP_ENTRIES -> gen (ent s' j) = gen (ent s j) \/ gen (ent s' j) = gen (ent s j) + 1).
  { intros j Hj. destruct (Ch j Hj) as [H|[[H _]|H]]; [left; by injection H|by left|by right]. }
  constructor; [|by rewrite Er|by rewrite Ep| |].
  - intros j Hj. pose proof (R0 j Hj). destruct (Gn j Hj); lia.
  - intros k oi og Hk. rewrite Er in Hk. destruct (R2 k oi og Hk) as [->|(Ho & Hg & Hd)]; [by left|right]. split; [done|].
    destruct (Ch (oi - 1) ltac:(lia)) as [H|[[H U]|H]]; [|rewrite H; split; [done|congruence]|rewrite H; split; lia].
    unfold info_is, info, used in *. injection H as _ _ -> _ -> ->. done.
  - intros k k' oi og Hk Hk' O0 Eg. rewrite Er in Hk, Hk'. destruct (R2 k oi og Hk) as [?|(Ho & Hg & _)]; [done|].
    destruct (Gn (oi - 1) ltac:(lia)); [|lia]. eapply R3; [done..|]. congruence.
Qed.
(** The data of one namespace changed, its place kept. *)
Lemma tree_ok_upd alloc s f n : tree_ok alloc s -> 0 <= n < NS_MAX_PID ->
  pd_parent (f (pd s n)) = pd_parent (pd s n) -> pd_level (f (pd s n)) = pd_level (pd s n) -> next_vnr (pd s n) <= next_vnr (f (pd s n)) ->
  tree_ok alloc (upd_pd f n s) /\ forall m, 0 <= m -> pd (upd_pd f n s) m = if m =? n then f (pd s n) else pd s m.
Proof.
  intros [L R TT NN] Hn F1 F2 F3.
  assert (PD : forall m, 0 <= m -> pd (upd_pd f n s) m = if m =? n then f (pd s n) else pd s m).
  { intros m Hm. unfold pd, upd_pd. cbn [pidns set_pidns]. by apply (zget_zalter _ _ _ _ NS_MAX_PID). }
  assert (X : forall m, 0 <= m -> pd_parent (pd (upd_pd f n s) m) = pd_parent (pd s m) /\ pd_level (pd (upd_pd f n s) m) = pd_level (pd s m)).
  { intros m Hm. rewrite PD by done. destruct (Z.eqb_spec m n) as [->|]; done. }
  split; [|done]. constructor.
  - cbn. by rewrite length_zalter.
  - by destruct (X 0 ltac:(lia)) as [-> ->].
  - intros id Hid A. destruct (TT id Hid A) as (P1 & P2 & P3 & P4 & P5). destruct (X id ltac:(lia)) as [-> ->]. cbv zeta.
    destruct (X (pd_parent (pd s id)) ltac:(lia)) as [_ ->]. done.
  - intros id Hid A. rewrite PD by lia. pose proof (NN id Hid A). destruct (Z.eqb_spec id n) as [->|]; [lia|done].
Qed.

(** An entry freed: only its number is gone. *)
Lemma free_inv alloc s i : pid_inv alloc s -> 0 <= i < PIDMAP_ENTRIES -> used s i = true ->
  exists s', pidmap_free_locked i s = Ok s' /\ pid_inv alloc s' /\ rest s' = rest s /\ used s' i = false /\
    (forall j, 0 <= j < PIDMAP_ENTRIES -> j <> i -> info_is s s' j) /\
    forall ns g v j, is_number s' ns g v j <-> is_number s ns g v j /\ j <> i.
Proof.
  intros [T TR [M1 M2 M3] [R0 R1 RP R2 R3]] Hi U. destruct (pidmap_free_ok s i T Hi U) as (s' & E & T' & Rs & Ii & Ij). exists s'.
  assert (Ui : used s' i = false) by (unfold used; by injection Ii).
  assert (Num : forall ns g v j, is_number s' ns g v j <-> is_number s ns g v j /\ j <> i).
  { intros ns g v j. split.
    - intros H. assert (j <> i) as N by (intros ->; destruct H as (_ & H & _); congruence). split; [|done]. by apply (is_number_info s s'); [apply Ij; [apply H|]|].
    - intros [H N]. apply (is_number_info s s'); [apply Ij; [apply H|done]|done]. }
  pose proof (rest_eq _ _ Rs) as (En & Er & Ep & _). split_and!; try done. constructor.
  - done.
  - by eapply tree_ok_rest.
  - constructor.
    + intros ns g v j [H _]%Num. unfold pd. rewrite En. by eapply M1.
    + intros ns g v v' j k [H _]%Num [H' _]%Num. by eapply M2.
    + intros ns g g' v j k [H _]%Num [H' _]%Num. by eapply M3.
  - apply (ring_ok_change s); [done..|]. intros j Hj. destruct (decide (j = i)) as [->|N]; [right; left; split; [by injection Ii|done]|left; by apply Ij].
Qed.

(** The namespaces above one, itself included. *)
Inductive above (s : pid_state) : Z -> Z -> Prop :=
| above_self n : above s n n
| above_step n m : n <> 0 -> above s (pd_parent (pd s n)) m -> above s n m.
Lemma above_level alloc s n m : tree_ok alloc s -> above s n m -> 0 <= n < NS_MAX_PID -> alloc n = true ->
  pd_level (pd s m) <= pd_level (pd s n).
Proof.
  intros T H. induction H as [k|k m K0 H IH]; intros Hn A; [lia|]. destruct (n_tree _ _ T k ltac:(lia) A) as (P1 & P2 & P3 & _).
  specialize (IH P1 P2). lia.
Qed.
Lemma above_range alloc s n m : tree_ok alloc s -> above s n m -> 0 <= n < NS_MAX_PID -> alloc n = true -> 0 <= m < NS_MAX_PID /\ alloc m = true.
Proof.
  intros T H. induction H as [k|k m K0 H IH]; intros Hn A; [done|]. destruct (n_tree _ _ T k ltac:(lia) A) as (P1 & P2 & _). by apply IH.
Qed.
(** How many entries of the table are free. *)
Definition free_entries (s : pid_state) : Z :=
  Z.of_nat (length (List.filter (fun i => negb (used s i)) (Z.of_nat <$> seq 0 (Z.to_nat PIDMAP_ENTRIES)))).
Lemma free_entries_nonneg s : 0 <= free_entries s.
Proof. apply Nat2Z.is_nonneg. Qed.
Lemma filter_flip (f f' : Z -> bool) i l : NoDup l -> i ∈ l -> f i = true -> f' i = false -> (forall j, j ∈ l -> j <> i -> f' j = f j) ->
  length (List.filter f l) = S (length (List.filter f' l)).
Proof.
  induction l as [|j l IH]; intros ND Hi Fi Fi' E; [by apply elem_of_nil in Hi|]. apply NoDup_cons in ND as [Nj ND]. cbn [List.filter].
  destruct (decide (j = i)) as [->|N].
  - rewrite Fi, Fi'. cbn [length]. do 2 f_equal. apply List.filter_ext_in. intros k Hk%list_elem_of_In. symmetry. apply E; [by right|]. by intros ->.
  - apply elem_of_cons in Hi as [->|Hi]; [done|]. rewrite (E j) by (done || left). specialize (IH ND Hi Fi Fi').
    destruct (f j); cbn [length]; rewrite IH; try done; intros k Hk; apply E; by right.
Qed.
Lemma all_entries i : i ∈ Z.of_nat <$> seq 0 (Z.to_nat PIDMAP_ENTRIES) <-> 0 <= i < PIDMAP_ENTRIES.
Proof.
  rewrite list_elem_of_fmap. split; [intros (k & -> & Hk%elem_of_seq); lia|]. intros Hi. exists (Z.to_nat i). rewrite elem_of_seq. lia.
Qed.
Lemma free_entries_take s s' i : 0 <= i < PIDMAP_ENTRIES -> used s i = false -> used s' i = true ->
  (forall j, 0 <= j < PIDMAP_ENTRIES -> j <> i -> used s' j = used s j) -> free_entries s = free_entries s' + 1.
Proof.
  intros Hi U U' E. unfold free_entries. rewrite (filter_flip _ (fun i => negb (used s' i)) i); [lia| |by apply all_entries|by rewrite U|by rewrite U'|].
  - apply NoDup_fmap_2; [apply _|apply NoDup_seq].
  - intros j Hj%all_entries N. by rewrite E.
Qed.
Lemma free_entries_full s : (forall i, 0 <= i < PIDMAP_ENTRIES -> used s i = true) -> free_entries s = 0.
Proof.
  intros F. unfold free_entries. rewrite (List.filter_ext_in _ (fun _ => false)); [|intros i Hi%list_elem_of_In%all_entries; by rewrite F].
  induction (Z.of_nat <$> _); [done|]. by cbn [List.filter].
Qed.
(** A new task gets a number; the data of namespaces changes by [f] only. *)
Lemma add_inv alloc s n g (f : pidns_data -> pidns_data) : pid_inv alloc s -> 0 < n < NS_MAX_PID -> alloc n = true -> g <> 0 ->
  (forall v i, ~ is_number s n g v i) -> (forall i, 0 <= i < PIDMAP_ENTRIES -> gen (ent s i) + 1 < U32_MOD) ->
  let v := next_vnr (pd s n) in
  pd_parent (f (pd s n)) = pd_parent (pd s n) /\ pd_level (f (pd s n)) = pd_level (pd s n) /\ next_vnr (f (pd s n)) = v + 1 ->
  pidmap_add_locked n g v s = Ok (- ENOSPC, s) /\ (forall i, 0 <= i < PIDMAP_ENTRIES -> used s i = true) \/
  exists s', pidmap_add_locked n g v s = Ok (0, s') /\ rest s' = rest s /\ pid_inv alloc (upd_pd f n s') /\
    (forall i, 0 <= i < PIDMAP_ENTRIES -> gen (ent s' i) <= gen (ent s i) + 1) /\ free_entries s = free_entries (upd_pd f n s') + 1 /\
    forall m h w, num (upd_pd f n s') m h w <-> num s m h w \/ (m = n /\ h = g /\ w = v).
Proof.
  intros [T TR [M1 M2 M3] [R0 R1 RP R2 R3]] Hn An G0 Fresh Gen v (F1 & F2 & Fv). destruct (pidmap_add_ok s n g v T) as [[E F]|(i & s' & E & Hi & Ui & T' & Rs & Ii & Ij)].
  { unfold NS_MAX_PID in Hn. lia. }
  { by left. }
  right. exists s'. pose proof (rest_eq _ _ Rs) as (En & Er & Ep & _).
  assert (Inew : is_number s' n g v i) by (unfold is_number, used; injection Ii as -> -> _ -> -> _; done).
  assert (Num : forall m h w j, is_number (upd_pd f n s') m h w j <-> (is_number s m h w j /\ j <> i) \/ (m = n /\ h = g /\ w = v /\ j = i)).
  { intros m h w j. change (is_number (upd_pd f n s') m h w j) with (is_number s' m h w j). destruct (decide (j = i)) as [->|N].
    - split.
      + intros (_ & _ & <- & <- & <-). right. injection Ii as -> -> _ -> _ _. done.
      + intros [[_ ?]|(-> & -> & -> & _)]; done.
    - split.
      + intros H. left. split; [|done]. by apply (is_number_info s s'); [apply Ij; [apply H|]|].
      + intros [[H _]|(_ & _ & _ & ?)]; [|done]. apply (is_number_info s s'); [apply Ij; [apply H|done]|done]. }
  assert (Old : forall m h w j, is_number s m h w j -> j <> i) by (intros m h w j (_ & H & _) ->; congruence).
  assert (Pn : pd s' n = pd s n) by (unfold pd; by rewrite En).
  destruct (tree_ok_upd alloc s' f n (tree_ok_rest _ _ _ Rs TR)) as [TR' PD]; [lia|by rewrite Pn..|rewrite Pn; lia|]. rewrite Pn in PD.
  assert (PD' : forall m, pd s' m = pd s m) by (intros m; unfold pd; by rewrite En).
  split_and!; [done|done| | | |].
  - constructor; [by apply (table_ok_pidns s')|done| |].
    + constructor.
      * intros m h w j [[H N]|(-> & -> & -> & ->)]%Num; rewrite PD, ?PD' by (lia || (apply M1 in H; lia)).
        -- destruct (M1 _ _ _ _ H) as (H1 & H2 & H3 & H4). destruct (Z.eqb_spec m n) as [->|]; [|done]. fold v in H3. split_and!; lia || done.
        -- rewrite Z.eqb_refl. pose proof (n_next _ _ TR n ltac:(lia) An) as Hv. fold v in Hv. split_and!; lia || done.
      * intros m h w w' j k [[H N]|(-> & -> & -> & ->)]%Num [[H' N']|(? & ? & ? & ->)]%Num; [by eapply M2|subst; by destruct (Fresh _ _ H)|by destruct (Fresh _ _ H')|done].
      * intros m h h' w j k [[H N]|(-> & -> & -> & ->)]%Num [[H' N']|(? & ? & ? & ->)]%Num; [by eapply M3|subst; apply M1 in H; fold v in H; lia|apply M1 in H'; fold v in H'; lia|done].
    + apply (ring_ok_change s); [by constructor|done|done|]. intros j Hj. destruct (decide (j = i)) as [->|N]; [right; right|left; by apply Ij].
      change (ent (upd_pd f n s')) with (ent s'). injection Ii as _ _ -> _ _ _. pose proof (R0 i Hj). specialize (Gen i Hj). apply u32_small. lia.
  - intros j Hj. destruct (decide (j = i)) as [->|N].
    + injection Ii as _ _ -> _ _ _. pose proof (R0 i Hj). specialize (Gen i Hj). rewrite u32_small by lia. lia.
    + pose proof (Ij j Hj N) as H. unfold info in H. injection H as _ _ -> _ _ _. lia.
  - apply (free_entries_take s (upd_pd f n s') i); [exact Hi|exact Ui|apply Inew|]. intros j Hj N. by apply used_info, Ij.
  - intros m h w. split.
    + intros [j [[H N]|(-> & -> & -> & ->)]%Num]; [left; by exists j|by right].
    + intros [[j H]|(-> & -> & ->)]; [exists j; apply Num; left; split; [done|by eapply Old]|exists i; apply Num; by right].
Qed.

Lemma upd_pd_twice f h n s : upd_pd h n (upd_pd f n s) = upd_pd (fun d => h (f d)) n s.
Proof. unfold upd_pd, set_pidns. cbn. f_equal. unfold zalter. apply alter_alter. Qed.
(** The places of namespaces in the tree, and their state of dying. *)
Definition same_tree (s s' : pid_state) : Prop := forall n, 0 <= n ->
  pd_parent (pd s' n) = pd_parent (pd s n) /\ pd_level (pd s' n) = pd_level (pd s n) /\
  reaper_gone (pd s' n) = reaper_gone (pd s n) /\ dying (pd s' n) = dying (pd s n).
Lemma above_same s s' alloc n m : tree_ok alloc s -> same_tree s s' -> 0 <= n < NS_MAX_PID -> alloc n = true -> above s' n m <-> above s n m.
Proof.
  intros T S Hn A. assert (P : forall k, 0 <= k < NS_MAX_PID -> alloc k = true -> k <> 0 -> 0 <= pd_parent (pd s k) < NS_MAX_PID /\ alloc (pd_parent (pd s k)) = true).
  { intros k Hk Ak K0. destruct (n_tree _ _ T k ltac:(lia) Ak) as (? & ? & _). done. }
  split; intros H; revert Hn A; induction H as [k|k m K0 H IH]; intros Hn A; [constructor| |constructor|].
  - destruct (S k ltac:(lia)) as (E & _). rewrite E in *. destruct (P k Hn A K0). constructor; [done|]. by apply IH.
  - destruct (S k ltac:(lia)) as (E & _). destruct (P k Hn A K0). constructor; [done|]. rewrite E. by apply IH.
Qed.
(** What a task's numbers become while it is numbered: one that had none gets
    them from the inside out, as many as there are free entries. *)
Record entered (s s' : pid_state) (n g : Z) : Prop := {
  e_tree : same_tree s s';
  e_other : forall m h w, h <> g -> num s' m h w <-> num s m h w;
  e_keep : forall m w, num s m g w -> num s' m g w;
  e_new : forall m w, num s' m g w -> num s m g w \/ above s n m;
  e_all : (forall m w, above s n m -> m <> 0 -> ~ num s m g w) ->
    forall m, above s n m -> m <> 0 -> (exists w, num s' m g w) <-> pd_level (pd s n) - pd_level (pd s m) < free_entries s }.
(** Neither the generations nor the next numbers wrap in [k] more steps. *)
Definition numbers_left (k : Z) (s : pid_state) : Prop :=
  (forall i, 0 <= i < PIDMAP_ENTRIES -> gen (ent s i) + k < U32_MOD) /\ forall n, 0 <= n -> next_vnr (pd s n) + k < U64_MOD.
Lemma entered_step alloc s s2 s' n g v : tree_ok alloc s -> 0 <= n < NS_MAX_PID -> n <> 0 -> alloc n = true -> same_tree s s2 ->
  (forall m h w, num s2 m h w <-> num s m h w \/ (m = n /\ h = g /\ w = v)) -> entered s2 s' (pd_parent (pd s n)) g ->
  free_entries s = free_entries s2 + 1 -> entered s s' n g.
Proof.
  intros T Hn N A ST Nu [T' O K Nw Al] Fr. destruct (n_tree _ _ T n ltac:(lia) A) as (P1 & P2 & P3 & _).
  assert (Ab : forall m, above s2 (pd_parent (pd s n)) m <-> above s (pd_parent (pd s n)) m) by (intros m; by eapply above_same).
  constructor.
  - intros m Hm. destruct (T' m Hm) as (-> & -> & -> & ->). by apply ST.
  - intros m h w Hh. rewrite O, Nu by done. split; [intros [?|(_ & ? & _)]; done|by left].
  - intros m w H. apply K, Nu. by left.
  - intros m w H. destruct (Nw m w H) as [H1|H1]; [apply Nu in H1 as [?|(-> & _)]; [by left|right; constructor]|right]. constructor; [done|]. by apply Ab.
  - intros Fresh m H M. inversion H as [|? ? ? H']; subst.
    + split; [intros _; pose proof (free_entries_nonneg s2); lia|]. intros _. exists v. apply K, Nu. by right.
    + rewrite Al; [| |by apply Ab|done].
      * destruct (ST (pd_parent (pd s n)) ltac:(lia)) as (_ & -> & _).
        destruct (ST m) as (_ & -> & _); [apply (above_range alloc s _ m T H' P1 P2)|lia].
      * intros k w Hk%Ab K0 [Hw|(-> & _)]%Nu; [apply (Fresh k w); [by constructor|done|done]|].
        pose proof (above_level alloc s _ n T Hk P1 P2). lia.
Qed.
Lemma enter_loop_ok alloc ns g th fuel : forall n s, pid_inv alloc s -> 0 <= n < NS_MAX_PID -> alloc n = true -> g <> 0 ->
  numbers_left (Z.of_nat fuel) s -> pd_level (pd s n) < Z.of_nat fuel ->
  exists s', enter_loop fuel n ns g th s = Ok s' /\ pid_inv alloc s' /\ entered s s' n g.
Proof.
  induction fuel as [|fuel IH]; intros n s I Hn A G NL Lv.
  { destruct (Z.eqb_spec n 0) as [->|N]; [destruct (n_root _ _ (p_tree _ _ I)) as (_ & _ & ->) in Lv; lia|].
    destruct (n_tree _ _ (p_tree _ _ I) n ltac:(lia) A) as (_ & _ & ? & ? & _). lia. }
  cbn [enter_loop]. destruct (Z.eqb_spec n 0) as [->|N].
  { exists s. split_and!; [done|done|]. constructor; [done..|by left|]. intros _ m H M. inversion H; subst; done. }
  destruct (n_tree _ _ (p_tree _ _ I) n ltac:(lia) A) as (P1 & P2 & P3 & P4 & _).
  destruct (find_by_gid_ok s n g (p_table _ _ I)) as (r & -> & Hr). cbn [rbind]. destruct r as [i|].
  - destruct (IH (pd_parent (pd s n)) s I P1 P2 G) as (s' & E & I' & [T O K Nw Al]); [destruct NL; split; intros; [specialize (H i0)|specialize (H0 n0)]; lia|lia|].
    exists s'. split_and!; [done|done|]. constructor; [done|done|done| |].
    + intros m w H. destruct (Nw m w H); [by left|right; by constructor].
    + intros Fresh. destruct (Fresh n (vnr (ent s i))); [constructor|done|by exists i].
  - set (v := next_vnr (pd s n)). pose proof NL as [NG NV]. pose proof (NV n ltac:(lia)) as Nv. fold v in Nv.
    pose proof (n_next _ _ (p_tree _ _ I) n Hn A) as V0. fold v in V0. rewrite (u64_small (v + 1)) by lia.
    set (b := (n =? ns) && negb th && negb (has_reaper (pd s n))).
    set (f := fun d => if b then set_reaper g (set_next_vnr (v + 1) d) else set_next_vnr (v + 1) d).
    destruct (add_inv alloc s n g f I ltac:(lia) A G Hr) as [[E F]|(s1 & E & Rs & I2 & Gn & Fr & Nu)]; [intros i Hi; specialize (NG i Hi); lia|unfold f; by destruct b| |].
    { fold v in E. rewrite E. cbn [rbind]. exists s. split_and!; [done|done|]. constructor; [done..|by left|]. intros Fresh m H M.
      pose proof (above_level alloc s n m (p_tree _ _ I) H Hn A). rewrite (free_entries_full s F). split; [intros [w Hw]; by destruct (Fresh m w H M)|lia]. }
    fold v in E, Nu. rewrite E. cbn [rbind negb Z.eqb]. pose proof (rest_eq _ _ Rs) as (En & _).
    assert (PD : forall h m, 0 <= m -> pd (upd_pd h n s1) m = if m =? n then h (pd s n) else pd s m).
    { intros h m Hm. unfold pd, upd_pd. cbn [pidns set_pidns]. rewrite En. apply (zget_zalter _ _ _ _ NS_MAX_PID); [apply I|lia|done]. }
    rewrite (PD _ n), Z.eqb_refl by lia. change (has_reaper (set_next_vnr (v + 1) (pd s n))) with (has_reaper (pd s n)). fold b.
    replace (if b then _ else _) with (upd_pd f n s1) by (unfold f; destruct b; [symmetry; apply upd_pd_twice|done]). set (s2 := upd_pd f n s1) in *.
    assert (ST : same_tree s s2). { intros m Hm. unfold s2. rewrite PD by done. destruct (Z.eqb_spec m n) as [->|]; [|done]. unfold f. by destruct b. }
    destruct (ST n ltac:(lia)) as (Ep & _). rewrite Ep.
    destruct (IH (pd_parent (pd s n)) s2 I2 P1 P2 G) as (s' & E' & I' & X).
    { split; [intros i Hi; specialize (Gn i Hi); specialize (NG i Hi); change (ent s2) with (ent s1); lia|]. intros m Hm. unfold s2. rewrite PD by done.
      specialize (NV m Hm). destruct (Z.eqb_spec m n) as [->|]; [|lia]. unfold f. destruct b; cbn; lia. }
    { destruct (ST (pd_parent (pd s n)) ltac:(lia)) as (_ & -> & _). lia. }
    exists s'. split_and!; [done|done|]. apply (entered_step alloc s s2 s' n g v (p_tree _ _ I) Hn N A ST Nu X Fr).
Qed.

(** ** The other operations *)

Definition set_alloc (alloc : Z -> bool) (id : Z) (b : bool) : Z -> bool := fun i => if i =? id then b else alloc i.
Lemma init_inv alloc s id parent : pid_inv alloc s -> 0 < id < NS_MAX_PID -> alloc id = false -> 0 <= parent < NS_MAX_PID -> alloc parent = true ->
  pd_level (pd s parent) + 1 < NS_MAX_LEVEL ->
  let s' := pidns_init_locked id parent s in
  pid_inv (set_alloc alloc id true) s' /\ (forall m h w, num s' m h w <-> num s m h w) /\ (forall m, 0 <= m -> m <> id -> pd s' m = pd s m) /\
  pd s' id = mkPd parent (pd_level (pd s parent) + 1) 1 0 false false false.
Proof.
  intros [T [L R TT NN] [M1 M2 M3] RG] Hid A Hp Ap Lv s'.
  assert (Lp : 0 <= pd_level (pd s parent)).
  { destruct (Z.eqb_spec parent 0) as [->|N]; [by destruct R as (_ & _ & ->)|]. destruct (TT parent ltac:(lia) Ap) as (_ & _ & ? & ? & _). lia. }
  assert (Es : s' = upd_pd (fun _ => mkPd parent (pd_level (pd s parent) + 1) 1 0 false false false) id s).
  { unfold s', pidns_init_locked, pidmap_ensure_init_locked. rewrite (t_ready _ T). cbv zeta. replace (id =? 0) with false by lia.
    rewrite u32_small; [done|]. unfold NS_MAX_LEVEL in Lv. lia. }
  clearbody s'. subst s'. set (d := mkPd _ _ _ _ _ _ _).
  assert (PD : forall m, 0 <= m -> pd (upd_pd (fun _ => d) id s) m = if m =? id then d else pd s m).
  { intros m Hm. unfold pd, upd_pd. cbn [pidns set_pidns]. by rewrite (zget_zalter (fun _ => d) id m (pidns s) NS_MAX_PID) by (done || lia). }
  split_and!; [|done|intros m Hm N; rewrite PD by done; by replace (m =? id) with false by lia|rewrite PD, Z.eqb_refl by lia; done].
  constructor; [by apply (table_ok_pidns s)| | |].
  - constructor; [cbn; by rewrite length_zalter| | |].
    + unfold set_alloc. rewrite PD by lia. by replace (0 =? id) with false by lia.
    + intros k Hk Ak. unfold set_alloc in *. rewrite (PD k) by lia. destruct (Z.eqb_spec k id) as [->|N]; cbn [pd_parent pd_level d].
      * cbv zeta. rewrite PD by lia. replace (parent =? id) with false by (destruct (Z.eqb_spec parent id); [congruence|done]). done.
      * destruct (TT k Hk Ak) as (P1 & P2 & P3 & P4 & P5). cbv zeta. rewrite PD by lia.
        replace (pd_parent (pd s k) =? id) with false by (destruct (Z.eqb_spec (pd_parent (pd s k)) id); [congruence|done]). done.
    + intros k Hk Ak. unfold set_alloc in Ak. rewrite PD by lia. destruct (k =? id); [done|by apply NN].
  - constructor; [|done|done]. intros m h w j H. destruct (M1 m h w j H) as (H1 & H2 & H3 & H4). unfold set_alloc. rewrite PD by lia.
    replace (m =? id) with false by (destruct (Z.eqb_spec m id); [congruence|done]). done.
  - destruct RG as [R0 R1 RP R2 R3]. by constructor.
Qed.
(** Flags of a namespace changed. *)
Lemma upd_flags_inv alloc s f n : pid_inv alloc s -> 0 <= n < NS_MAX_PID ->
  (forall d, pd_parent (f d) = pd_parent d /\ pd_level (f d) = pd_level d /\ next_vnr (f d) = next_vnr d) ->
  pid_inv alloc (upd_pd f n s) /\ forall m, 0 <= m -> pd (upd_pd f n s) m = if m =? n then f (pd s n) else pd s m.
Proof.
  intros [T TR [M1 M2 M3] RG] Hn Ff. destruct (Ff (pd s n)) as (F1 & F2 & F3). destruct (tree_ok_upd alloc s f n TR Hn F1 F2 ltac:(lia)) as [TR' PD].
  split; [|done]. constructor; [by apply table_ok_pidns|done| |].
  - constructor; [|done|done]. intros m h w j H. destruct (M1 m h w j H) as (H1 & H2 & H3 & H4). rewrite PD by lia.
    destruct (Z.eqb_spec m n) as [->|]; [|done]. rewrite F3. done.
  - destruct RG as [R0 R1 RP R2 R3]. by constructor.
Qed.
Lemma exit_marks_inv alloc allocated ns l : forall s, pid_inv alloc s -> Forall (fun i => 0 <= i < NS_MAX_PID) l ->
  pid_inv alloc (fold_left (fun s i => if allocated i && pidns_is_ancestor_locked s ns i then upd_pd set_dying i s else s) l s).
Proof.
  induction l as [|i l IH]; intros s I F; [done|]. apply Forall_cons in F as [Hi F]. cbn [fold_left]. apply IH; [|done].
  destruct (_ && _); [|done]. by apply upd_flags_inv.
Qed.
Lemma all_ns_range : Forall (fun i => 0 <= i < NS_MAX_PID) (Z.of_nat <$> seq 1 (Z.to_nat NS_MAX_PID - 1)).
Proof. apply Forall_fmap, Forall_forall. intros i Hi%elem_of_seq. unfold NS_MAX_PID in *. cbn in *. lia. Qed.
Lemma exit_inv alloc allocated g ns s : pid_inv alloc s -> 0 <= ns -> pid_inv alloc (pidns_task_exit_locked allocated g ns s).
Proof.
  intros I Hn. unfold pidns_task_exit_locked. destruct ((ns =? 0) || (NS_MAX_PID <=? ns)) eqn:E; [done|]. cbv zeta. destruct (negb (has_reaper _) || _ || _); [done|].
  set (s1 := upd_pd set_gone ns s). assert (I1 : pid_inv alloc s1) by (apply upd_flags_inv; [done|lia|done]).
  pose proof (exit_marks_inv alloc allocated ns _ s1 I1 all_ns_range) as I2. revert I2. generalize (fold_left (fun s i =>
    if allocated i && pidns_is_ancestor_locked s ns i then upd_pd set_dying i s else s) (Z.of_nat <$> seq 1 (Z.to_nat NS_MAX_PID - 1)) s1).
  intros s2 I2. destruct (_ <? _); [|done]. destruct I2 as [[L H R C F] [A1 A2 A3 A4] [B1 B2 B3] [D1 D2 DP D3 D4]]. constructor; by constructor.
Qed.

Lemma free_all_ok alloc ns idxs : forall s, pid_inv alloc s -> Forall (fun i => 0 <= i < PIDMAP_ENTRIES) idxs ->
  exists s', free_all idxs ns s = Ok s' /\ pid_inv alloc s' /\ rest s' = rest s /\
    forall m h w i, is_number s' m h w i <-> is_number s m h w i /\ (m = ns -> i ∉ idxs).
Proof.
  induction idxs as [|i idxs IH]; intros s I F; cbn [free_all].
  { exists s. split_and!; [done..|]. intros m h w i. split; [|tauto]. intros H. split; [done|]. intros _ E. by apply elem_of_nil in E. }
  apply Forall_cons in F as [Hi F]. destruct (e_used (ent s i) && (e_ns (ent s i) =? ns)) eqn:C; cbn [rbind].
  - destruct (free_inv alloc s i I Hi) as (s1 & -> & I1 & R1 & _ & _ & N1); [unfold used; lia|]. cbn [rbind].
    destruct (IH s1 I1 F) as (s' & E & I' & R' & N'). exists s'. split_and!; [done|done|congruence|].
    intros m h w j. rewrite N', N1, not_elem_of_cons. split; [tauto|]. intros [H1 H2]. destruct (decide (j = i)) as [->|]; [|tauto].
    destruct H1 as (_ & _ & Hm & _). destruct H2; [lia|done].
  - destruct (IH s I F) as (s' & E & I' & R' & N'). exists s'. split_and!; [done..|]. intros m h w j. rewrite N', not_elem_of_cons. split; [|tauto].
    intros [H1 H2]. split; [done|]. intros ->. split; [|by apply H2]. intros ->. destruct H1 as (_ & U & Hm & _). unfold used in U. lia.
Qed.
Lemma pid_release_inv alloc s id : pid_inv alloc s -> 0 < id < NS_MAX_PID -> alloc id = true ->
  (forall k, 0 < k < NS_MAX_PID -> alloc k = true -> pd_parent (pd s k) <> id) ->
  exists s', pidns_release_locked id s = Ok (pd_parent (pd s id), s') /\ pid_inv (set_alloc alloc id false) s' /\
    (forall m, 0 <= m -> m <> id -> pd s' m = pd s m) /\ forall m h w, num s' m h w <-> num s m h w /\ m <> id.
Proof.
  intros I Hid A NC. unfold pidns_release_locked. replace ((id =? 0) || (NS_MAX_PID <=? id)) with false by lia.
  set (idxs := Z.of_nat <$> seq 0 (Z.to_nat PIDMAP_ENTRIES)).
  assert (All : forall i, i ∈ idxs <-> 0 <= i < PIDMAP_ENTRIES).
  { intros i. unfold idxs. rewrite list_elem_of_fmap. setoid_rewrite elem_of_seq. split.
    - intros (k & -> & Hk). split; [lia|]. apply Z2Nat.inj_lt; rewrite ?Nat2Z.id; lia.
    - intros Hi. exists (Z.to_nat i). split; [lia|]. split; [lia|]. apply Z2Nat.inj_lt; lia. }
  destruct (free_all_ok alloc id idxs s I) as (s1 & E & I1 & R1 & N1); [apply Forall_forall; intros i; apply All|]. clearbody idxs.
  rewrite E. cbn [rbind]. pose proof (rest_eq _ _ R1) as (En & _).
  assert (PD1 : forall m, pd s1 m = pd s m) by (intros m; unfold pd; by rewrite En). rewrite PD1. eexists. split; [reflexivity|].
  destruct I1 as [T [L R TT NN] [M1 M2 M3] RG].
  assert (PD : forall m, 0 <= m -> pd (upd_pd (fun _ => pd_zero) id s1) m = if m =? id then pd_zero else pd s m).
  { intros m Hm. unfold pd at 1, upd_pd. cbn [pidns set_pidns]. rewrite (zget_zalter (fun _ => pd_zero) id m (pidns s1) NS_MAX_PID) by (done || lia).
    destruct (m =? id); [done|]. apply PD1. }
  assert (None_ : forall h w i, ~ is_number s1 id h w i) by (intros h w i [H1 H2]%N1; apply H2; [done|]; apply All, H1).
  split_and!.
  - constructor; [by apply table_ok_pidns| | |].
    + constructor; [cbn; by rewrite length_zalter| | |]; unfold set_alloc.
      * rewrite PD by lia. replace (0 =? id) with false by lia. by rewrite PD1 in R.
      * intros k Hk Ak. rewrite (PD k) by lia. destruct (Z.eqb_spec k id) as [->|N]; [done|]. pose proof (TT k Hk Ak) as Hp. rewrite !PD1 in Hp. cbv zeta in *.
        destruct Hp as (P1 & P2 & P3 & P4 & P5). rewrite PD by lia. specialize (NC k Hk Ak).
        replace (pd_parent (pd s k) =? id) with false by lia. by rewrite PD1 in P3, P4.
      * intros k Hk Ak. rewrite PD by lia. destruct (k =? id); [done|]. rewrite <- PD1. by apply NN.
    + constructor; [|done|done]. intros m h w j H. destruct (M1 m h w j H) as (H1 & H2 & H3 & H4). unfold set_alloc. rewrite PD by lia.
      destruct (Z.eqb_spec m id) as [->|]; [by destruct (None_ h w j)|]. by rewrite <- PD1.
    + destruct RG as [R0 R1' RP R2 R3]. by constructor.
  - intros m Hm N. rewrite PD by done. by replace (m =? id) with false by lia.
  - intros m h w. split.
    + intros [i H]. split; [exists i; by apply N1 in H as [? _]|]. intros ->. by destruct (None_ h w i).
    + intros [[i H] N]. exists i. apply N1. done.
Qed.

(** ** Reaped tasks *)

Definition ring_slot (s : pid_state) (d : Z) : Z := (dead_pos s - d) mod PIDMAP_DEAD_RING.
(** An entry that joined the ring [d] burials ago and still answers. *)
Definition buried (s : pid_state) (i d : Z) : Prop :=
  0 <= i < PIDMAP_ENTRIES /\ used s i = true /\ dead (ent s i) = true /\ zget (dead_ring s) (ring_slot s d) = (i + 1, gen (ent s i)).
Lemma set_dead_inv alloc s i : pid_inv alloc s -> 0 <= i < PIDMAP_ENTRIES ->
  let s' := upd_ent set_dead i s in pid_inv alloc s' /\ (forall m h w j, is_number s' m h w j <-> is_number s m h w j) /\
  forall j, 0 <= j < PIDMAP_ENTRIES -> ent s' j = if j =? i then set_dead (ent s i) else ent s j.
Proof.
  intros [[L LH RD CH (fl & FL & FN & FM)] TR [M1 M2 M3] [R0 R1 RP R2 R3]] Hi s'.
  assert (EF : forall j, 0 <= j < PIDMAP_ENTRIES -> ent s' j = if j =? i then set_dead (ent s i) else ent s j).
  { intros j Hj. unfold s', ent, upd_ent. cbn [pidmap set_pidmap]. apply (zget_zalter _ _ _ _ PIDMAP_ENTRIES); [done|done|lia]. }
  assert (Nx : forall g j, 0 <= j < PIDMAP_ENTRIES -> nx g s' j = nx g s j) by (intros g j Hj; unfold nx; rewrite EF by done; destruct (Z.eqb_spec j i) as [->|]; [by destruct g|done]).
  assert (Ky : forall g j, 0 <= j < PIDMAP_ENTRIES -> key g s' j = key g s j) by (intros g j Hj; unfold key; rewrite EF by done; by destruct (Z.eqb_spec j i) as [->|]).
  assert (Us : forall j, 0 <= j < PIDMAP_ENTRIES -> used s' j = used s j) by (intros j Hj; unfold used; rewrite EF by done; by destruct (Z.eqb_spec j i) as [->|]).
  assert (Gn : forall j, 0 <= j < PIDMAP_ENTRIES -> gen (ent s' j) = gen (ent s j)) by (intros j Hj; rewrite EF by done; by destruct (Z.eqb_spec j i) as [->|]).
  assert (Num : forall m h w j, is_number s' m h w j <-> is_number s m h w j).
  { intros m h w j. unfold is_number. split; intros (Hj & H); (split; [done|]); rewrite Us, EF in * by done; destruct (Z.eqb_spec j i) as [->|]; done. }
  split_and!; [|done|done]. constructor; [| | |].
  - constructor; [unfold s'; cbn; by rewrite length_zalter|done|done| |].
    + intros g. destruct (CH g) as [c K]. exists c. eapply chains_ext; [exact K|intros j Hj; by rewrite Nx, Ky, Us|done].
    + exists fl. split_and!; [|done|].
      * eapply linked_ext; [|exact FL]. intros j Hj. apply Nx. by apply FM in Hj as [? _].
      * intros j. rewrite FM. split; intros [Hj H]; (split; [done|]); rewrite Us in * by done; done.
  - by apply (tree_ok_rest alloc s).
  - constructor; [intros m h w j H%Num; by eapply M1|intros m h w w' j k H%Num H'%Num; by eapply M2|intros m h h' w j k H%Num H'%Num; by eapply M3].
  - constructor; [intros j Hj; rewrite Gn by done; by apply R0|done|done| |].
    + intros k oi og Hk. destruct (R2 k oi og Hk) as [?|(Ho & Hg & Hd)]; [by left|right]. rewrite Gn, Us, EF by lia. split_and!; [lia|lia|done|].
      intros H1 H2. destruct (oi - 1 =? i); [done|by apply Hd].
    + intros k k' oi og Hk Hk' O0. destruct (R2 k oi og Hk) as [?|(Ho & _)]; [done|]. rewrite Gn by lia. by eapply R3.
Qed.
Lemma ring_lookup s k : ring_ok s -> 0 <= k < PIDMAP_DEAD_RING -> dead_ring s !! Z.to_nat k = Some (zget (dead_ring s) k).
Proof. intros R Hk. apply zget_lookup. rewrite (r_len _ R). unfold PIDMAP_DEAD_RING in *. lia. Qed.
(** A live entry's generation is not in the ring. *)
Lemma ring_not_live s k oi og : ring_ok s -> 0 <= k < PIDMAP_DEAD_RING -> zget (dead_ring s) k = (oi, og) -> oi <> 0 ->
  used s (oi - 1) = true -> dead (ent s (oi - 1)) = false -> og <> gen (ent s (oi - 1)).
Proof.
  intros R Hk E O U D G. pose proof (ring_lookup s k R Hk) as Lk. rewrite E in Lk. destruct (r_ent _ R _ _ _ Lk) as [?|(_ & _ & H)]; [done|].
  specialize (H G U). congruence.
Qed.
Lemma ring_slot_next p d : (u32 (p + 1) - (d + 1)) mod PIDMAP_DEAD_RING = (p - d) mod PIDMAP_DEAD_RING.
Proof.
  unfold u32, PIDMAP_DEAD_RING. rewrite Zminus_mod, Z.mod_mod_divide by (exists 4194304; done).
  rewrite <- Zminus_mod. f_equal. lia.
Qed.
Lemma ring_slot_past p d : 1 <= d < PIDMAP_DEAD_RING -> (p - d) mod PIDMAP_DEAD_RING <> p mod PIDMAP_DEAD_RING.
Proof.
  unfold PIDMAP_DEAD_RING. intros Hd E. assert (H : ((p - d) - p) mod 1024 = 0) by (rewrite Zminus_mod, E, Z.sub_diag; done).
  replace (p - d - p) with (- d) in H by lia. apply Z.mod_divide in H as [q Hq]; lia.
Qed.
(** The entry a burial pushes out of the ring. *)
Lemma push_out alloc s oi og : pid_inv alloc s -> oi = 0 \/ 0 < oi <= PIDMAP_ENTRIES ->
  exists s', (if oi <>? 0 then
     let old := ent s (oi - 1) in if e_used old && dead old && (gen old =? og) then pidmap_free_locked (oi - 1) s else Ok s else Ok s) = Ok s' /\
    pid_inv alloc s' /\ rest s' = rest s /\ (forall m h w j, is_number s' m h w j -> is_number s m h w j) /\
    forall j, 0 <= j < PIDMAP_ENTRIES -> info_is s s' j \/ oi <> 0 /\ j = oi - 1 /\ og = gen (ent s j) /\ dead (ent s j) = true.
Proof.
  intros I Ho. destruct (Z.eqb_spec oi 0) as [->|N]; cbn [negb]; [exists s; split_and!; [done..|by left]|]. cbv zeta.
  destruct (e_used (ent s (oi - 1)) && dead (ent s (oi - 1)) && (gen (ent s (oi - 1)) =? og)) eqn:C; [|exists s; split_and!; [done..|by left]].
  destruct (free_inv alloc s (oi - 1) I ltac:(lia)) as (s' & E & I' & R & _ & Inf & Nu); [unfold used; lia|]. exists s'. split_and!; [done|done|done| |].
  - intros m h w j H. by apply Nu in H as [? _].
  - intros j Hj. destruct (decide (j = oi - 1)) as [->|Nj]; [right|left; by apply Inf]. split_and!; [done|done|lia|lia].
Qed.
Lemma ring_ok_put s i k p : ring_ok s -> 0 <= i < PIDMAP_ENTRIES -> 0 <= k < PIDMAP_DEAD_RING -> 0 <= p < U32_MOD -> dead (ent s i) = true ->
  (forall k' og, 0 <= k' < PIDMAP_DEAD_RING -> zget (dead_ring s) k' = (i + 1, og) -> og <> gen (ent s i)) ->
  ring_ok (set_ring (zalter (fun _ => (i + 1, gen (ent s i))) k (dead_ring s)) p s).
Proof.
  intros R Hi Hk Hp D Once. pose proof R as [R0 R1 RP R2 R3]. set (s' := set_ring _ _ _).
  assert (Lk : forall j oi og, dead_ring s' !! j = Some (oi, og) -> j = Z.to_nat k /\ oi = i + 1 /\ og = gen (ent s i) \/ j <> Z.to_nat k /\ dead_ring s !! j = Some (oi, og)).
  { intros j oi og H. unfold s' in H. cbn [dead_ring set_ring] in H. unfold zalter in H. destruct (decide (j = Z.to_nat k)) as [->|N].
    - left. rewrite list_lookup_alter, decide_True in H by done. destruct (dead_ring s !! Z.to_nat k); [|done]. by injection H as <- <-.
    - right. by rewrite list_lookup_alter_ne in H by done. }
  assert (Other : forall j og, dead_ring s !! j = Some (i + 1, og) -> og <> gen (ent s i)).
  { intros j og H. pose proof (lookup_lt_Some _ _ _ H) as Lt. rewrite R1 in Lt. apply (Once (Z.of_nat j)); [lia|]. unfold zget. rewrite Nat2Z.id.
    by apply list_lookup_total_correct. }
  constructor; [done|unfold s'; cbn; by rewrite length_zalter|done| |].
  - intros j oi og H. destruct (Lk j oi og H) as [(_ & -> & ->)|[_ H']]; [|by apply R2 in H'].
    right. change (ent s') with (ent s). replace (i + 1 - 1) with i by lia. split_and!; [lia|lia|done|done].
  - intros j j' oi og H H' O0 G. change (ent s') with (ent s) in G. destruct (Lk j oi og H) as [(-> & -> & ->)|[N H1]].
    + destruct (Lk j' _ _ H') as [(-> & _)|[N' H2]]; [done|]. by destruct (Other _ _ H2).
    + destruct (Lk j' oi og H') as [(-> & -> & ->)|[N' H2]]; [by destruct (Other _ _ H1)|]. by apply (R3 j j' oi og).
Qed.
(** A burial, up to the write to the ring. *)
Lemma bury_steps alloc s i : pid_inv alloc s -> 0 <= i < PIDMAP_ENTRIES -> used s i = true -> dead (ent s i) = false ->
  let k := dead_pos s mod PIDMAP_DEAD_RING in
  exists s3, bury i s = Ok (set_ring (zalter (fun _ => (i + 1, gen (ent s3 i))) k (dead_ring s3)) (u32 (dead_pos s + 1)) s3) /\
    pid_inv alloc s3 /\ dead_ring s3 = dead_ring s /\ pidns s3 = pidns s /\ info (ent s3 i) = info (set_dead (ent s i)) /\
    (forall m h w j, is_number s3 m h w j -> is_number s m h w j) /\
    forall j, 0 <= j < PIDMAP_ENTRIES -> j <> i -> info_is s s3 j \/ zget (dead_ring s) k = (j + 1, gen (ent s j)) /\ dead (ent s j) = true.
Proof.
  intros I Hi U D k. unfold bury. cbv zeta. destruct (set_dead_inv alloc s i I Hi) as (I1 & N1 & E1). set (s1 := upd_ent set_dead i s) in *.
  assert (Hs : 0 <= k < PIDMAP_DEAD_RING) by (apply Z.mod_pos_bound; done).
  change (dead_pos s1) with (dead_pos s). change (dead_ring s1) with (dead_ring s). fold k. set (s2 := set_ring (dead_ring s) (u32 (dead_pos s + 1)) s1).
  assert (Hp : 0 <= u32 (dead_pos s + 1) < U32_MOD) by apply u32_range.
  assert (I2 : pid_inv alloc s2).
  { destruct I1 as [[L H R C F] [A1 A2 A3 A4] [B1 B2 B3] [D1 D2 DP D3 D4]]. constructor; by constructor. }
  destruct (zget (dead_ring s2) k) as [oi og] eqn:Ek. change (dead_ring s2) with (dead_ring s) in Ek.
  assert (Ho : oi = 0 \/ 0 < oi <= PIDMAP_ENTRIES).
  { pose proof (ring_lookup s k (p_ring _ _ I) Hs) as Lk. rewrite Ek in Lk. destruct (r_ent _ (p_ring _ _ I) _ _ _ Lk) as [|(? & _)]; [by left|by right]. }
  destruct (push_out alloc s2 oi og I2 Ho) as (s3 & E3 & I3 & R3 & N3 & J3). cbv zeta in E3. rewrite E3. cbn [rbind].
  pose proof (rest_eq _ _ R3) as (Rn & Rr & Rp & _). cbn in Rr, Rp.
  assert (Hu : u16 (i + 1) = i + 1) by (unfold u16, PIDMAP_ENTRIES in *; rewrite Z.mod_small; lia). rewrite Hu.
  exists s3. split_and!; [by rewrite Rp|done|done|done| | |].
  - destruct (J3 i Hi) as [H|(O & Eo & G & _)].
    + unfold info_is in H. rewrite H. change (ent s2) with (ent s1). by rewrite E1, Z.eqb_refl.
    + change (ent s2) with (ent s1) in G. rewrite E1, Z.eqb_refl in G by done. subst i. by destruct (ring_not_live s k oi og (p_ring _ _ I) Hs Ek O U D).
  - intros m h w j H%N3. by apply N1.
  - intros j Hj N. destruct (J3 j Hj) as [H|(O & -> & G & Dj)]; [left|right].
    + unfold info_is in *. rewrite H. change (ent s2) with (ent s1). rewrite E1 by done. by replace (j =? i) with false by lia.
    + change (ent s2) with (ent s1) in *. rewrite E1 in G, Dj by done. replace (oi - 1 =? i) with false in * by lia. rewrite Ek, <- G. split; [f_equal; lia|done].
Qed.
Lemma bury_inv alloc s i : pid_inv alloc s -> 0 <= i < PIDMAP_ENTRIES -> used s i = true -> dead (ent s i) = false ->
  exists s', bury i s = Ok s' /\ pid_inv alloc s' /\ pidns s' = pidns s /\ buried s' i 1 /\ info (ent s' i) = info (set_dead (ent s i)) /\
    (forall m h w j, is_number s' m h w j -> is_number s m h w j) /\
    (forall j, 0 <= j < PIDMAP_ENTRIES -> dead (ent s j) = false -> j <> i -> info_is s s' j) /\
    (forall j d, 1 <= d < PIDMAP_DEAD_RING -> buried s j d -> buried s' j (d + 1) /\ info_is s s' j).
Proof.
  intros I Hi U D. destruct (bury_steps alloc s i I Hi U D) as (s3 & E & I3 & Er & En & Ji & N3 & J3).
  assert (Hs : 0 <= dead_pos s mod PIDMAP_DEAD_RING < PIDMAP_DEAD_RING) by (apply Z.mod_pos_bound; done).
  set (k := dead_pos s mod PIDMAP_DEAD_RING) in *. pose proof Ji as Ji'. unfold info in Ji'. injection Ji' as _ _ Gi _ Ui Di.
  eexists. split; [exact E|]. set (s' := set_ring _ _ _). pose proof (u32_range (dead_pos s + 1)) as Hp.
  assert (RK : ring_ok s').
  { apply ring_ok_put; [apply I3|done|done|done|done|]. intros k' og Hk' Hz. rewrite Er in Hz. rewrite Gi.
    pose proof (ring_not_live s k' (i + 1) og (p_ring _ _ I) Hk' Hz ltac:(lia)) as H. replace (i + 1 - 1) with i in H by lia. by apply H. }
  assert (Sl : forall d, ring_slot s' (d + 1) = ring_slot s d) by (intros d; apply ring_slot_next).
  assert (Rg : forall x, 0 <= x < PIDMAP_DEAD_RING -> zget (dead_ring s') x = if x =? k then (i + 1, gen (ent s3 i)) else zget (dead_ring s) x).
  { intros x Hx. unfold s'. cbn [dead_ring set_ring]. rewrite Er. rewrite (zget_zalter (fun _ => (i + 1, gen (ent s3 i))) k x _ PIDMAP_DEAD_RING) by (apply I || lia).
    done. }
  split_and!; [|exact En| |exact Ji|exact N3| |].
  - destruct I3 as [[L H R C F] [A1 A2 A3 A4] [B1 B2 B3] _]. constructor; [by constructor..|done].
  - split_and!; [lia|lia|unfold used; by rewrite <- U|done|]. replace 1 with (0 + 1) at 1 by lia. rewrite Sl. unfold ring_slot. rewrite Z.sub_0_r. fold k.
    rewrite Rg, Z.eqb_refl by done. done.
  - intros j Hj Dj N. destruct (J3 j Hj N) as [?|[_ ?]]; [done|congruence].
  - intros j d Hd (Hj & Uj & Dj & Zj). assert (j <> i) as N by (intros ->; congruence).
    assert (Hk : 0 <= ring_slot s d < PIDMAP_DEAD_RING) by (apply Z.mod_pos_bound; done). pose proof (ring_slot_past (dead_pos s) d Hd) as Np.
    assert (Inf : info_is s s3 j).
    { destruct (J3 j Hj N) as [?|[Zk _]]; [done|]. destruct Np. pose proof (p_ring _ _ I) as RI. pose proof (ring_lookup s _ RI Hk) as L1.
      pose proof (ring_lookup s k RI Hs) as L2. rewrite Zj in L1. rewrite Zk in L2. pose proof (r_once _ RI _ _ _ _ L1 L2 ltac:(lia)) as H.
      replace (j + 1 - 1) with j in H by lia. specialize (H eq_refl). unfold ring_slot in *. fold k. lia. }
    split; [|exact Inf]. unfold info_is, info in Inf. injection Inf as _ _ Gj _ Uj' Dj'. unfold buried, used. change (ent s') with (ent s3). rewrite Uj', Dj', Gj.
    split_and!; [apply Hj|apply Hj|done|done|]. rewrite Sl, Rg by done. by destruct (Z.eqb_spec (ring_slot s d) k).
Qed.
(** What a reaping leaves of the numbers. *)
Record reaped (s s' : pid_state) (g : Z) : Prop := {
  q_back : forall m h w j, is_number s' m h w j -> is_number s m h w j;
  q_live : forall m h w j, is_number s m h w j -> dead (ent s j) = false -> h <> g -> info_is s s' j;
  q_self : forall m w j, is_number s m g w j -> dead (ent s j) = false -> is_number s' m g w j }.
Lemma info_is_trans s1 s2 s3 i : info_is s1 s2 i -> info_is s2 s3 i -> info_is s1 s3 i.
Proof. unfold info_is. congruence. Qed.
Lemma info_is_dead s s' i : info_is s s' i -> dead (ent s' i) = dead (ent s i).
Proof. unfold info_is, info. by intros [= _ _ _ _ _ ->]. Qed.
Lemma reap_loop_ok alloc allocated g nss : forall s, pid_inv alloc s -> Forall (fun n => n <> 0) nss ->
  exists s', reap_loop nss allocated g s = Ok s' /\ pid_inv alloc s' /\ pidns s' = pidns s /\
    (Z.of_nat (length nss) < PIDMAP_DEAD_RING -> reaped s s' g) /\
    (forall j d, 1 <= d -> d + Z.of_nat (length nss) <= PIDMAP_DEAD_RING -> buried s j d -> info_is s s' j).
Proof.
  induction nss as [|n nss IH]; intros s I F; cbn [reap_loop].
  { exists s. split_and!; [done..| |done]. intros _. by constructor. }
  apply Forall_cons in F as [Hn F].
  assert (Same : exists s', reap_loop nss allocated g s = Ok s' /\ pid_inv alloc s' /\ pidns s' = pidns s /\
    (Z.of_nat (length (n :: nss)) < PIDMAP_DEAD_RING -> reaped s s' g) /\
    (forall j d, 1 <= d -> d + Z.of_nat (length (n :: nss)) <= PIDMAP_DEAD_RING -> buried s j d -> info_is s s' j)).
  { destruct (IH s I F) as (s' & E & I' & P' & R' & B'). exists s'. cbn [length]. split_and!; [done..|intros H; apply R'; lia|]. intros j d H1 H2. apply (B' j d); lia. }
  destruct (allocated n); cbn [negb rbind]; [|exact Same]. destruct (find_by_gid_ok s n g (p_table _ _ I)) as (r & -> & Hr). cbn [rbind].
  destruct r as [i|]; cbn [rbind]; [|exact Same]. destruct (dead (ent s i)) eqn:D; cbn [rbind]; [exact Same|]. clear Same.
  pose proof Hr as (Hi & Ui & Ni & Gi & _). destruct (bury_inv alloc s i I Hi Ui D) as (s1 & -> & I1 & P1 & B1 & Ji & Nb & Jl & Jb). cbn [rbind].
  destruct (IH s1 I1 F) as (s' & E & I' & P' & R' & B'). exists s'. cbn [length]. split_and!; [done|done|congruence| |].
  - intros Hl. destruct (R' ltac:(lia)) as [Q1 Q2 Q3]. constructor.
    + intros m h w j H. by apply Nb, Q1.
    + intros m h w j H Dj Hh. assert (j <> i) as N by (intros ->; destruct H as (_ & _ & _ & ? & _); congruence).
      pose proof (Jl j ltac:(apply H) Dj N) as J. apply (info_is_trans s s1 s'); [done|]. apply (Q2 m h w); [by apply (is_number_info s s1)| |done].
      by rewrite (info_is_dead s s1).
    + intros m w j H Dj. destruct (decide (j = i)) as [->|N].
      * apply (is_number_info s1 s'); [apply (B' i 1); [lia|lia|done]|]. unfold is_number, used in *. unfold info in Ji. injection Ji as -> -> _ -> -> _. exact H.
      * pose proof (Jl j ltac:(apply H) Dj N) as J. apply Q3; [by apply (is_number_info s s1)|by rewrite (info_is_dead s s1)].
  - intros j d H1 H2 Bj. destruct (Jb j d ltac:(lia) Bj) as [Bj' Jj]. apply (info_is_trans s s1 s'); [done|]. apply (B' j (d + 1)); [lia|lia|done].
Qed.

(** ** Reachable states *)

Definition pid_start : pid_state := pidns_init_locked 0 0 pid_boot.
Lemma zget_replicate {A} `{Inhabited A} n (x : A) i : 0 <= i < Z.of_nat n -> zget (replicate n x) i = x.
Proof. intros Hi. unfold zget. apply list_lookup_total_correct, lookup_replicate_2. lia. Qed.
Lemma linked_range f k : forall n i, i + Z.of_nat n = k -> (forall j, 0 <= j -> f j = if j + 1 <? k then j + 2 else 0) -> 0 <= i ->
  linked f (if i <? k then i + 1 else 0) (seqZ i (Z.of_nat n)).
Proof.
  intros n. induction n as [|n IH]; intros i Hk Hf Hi.
  - rewrite (proj2 (Z.ltb_ge i k)) by lia. done.
  - rewrite (proj2 (Z.ltb_lt i k)) by lia. rewrite seqZ_cons by lia. split; [done|]. rewrite Hf by done. replace (Z.pred (Z.of_nat (S n))) with (Z.of_nat n) by lia.
    specialize (IH (Z.succ i) ltac:(lia) Hf ltac:(lia)). replace (Z.succ i + 1) with (i + 2) in IH by lia. by replace (i + 1) with (Z.succ i) by lia.
Qed.
Lemma start_ent i : 0 <= i < PIDMAP_ENTRIES -> ent pid_start i = set_next true (if i + 1 <? PIDMAP_ENTRIES then i + 2 else 0) ent_zero.
Proof.
  intros Hi. unfold ent, zget. apply list_lookup_total_correct. unfold pid_start, pidns_init_locked, pidmap_ensure_init_locked, upd_pd.
  cbn [pidmap set_pidns pidmap_ready pid_boot Z.eqb]. rewrite list_lookup_imap, lookup_replicate_2 by lia. cbn [fmap option_fmap option_map].
  rewrite Z2Nat.id by lia. do 2 f_equal. destruct (Z.ltb_spec (i + 1) PIDMAP_ENTRIES); [|done]. unfold u16, PIDMAP_ENTRIES in *. rewrite Z.mod_small; lia.
Qed.
Lemma start_table : table_ok pid_start.
Proof.
  assert (U : forall i, 0 <= i < PIDMAP_ENTRIES -> used pid_start i = false) by (intros i Hi; unfold used; by rewrite start_ent).
  constructor.
  - unfold pid_start, pidns_init_locked, pidmap_ensure_init_locked, upd_pd. cbn [pidmap set_pidns pidmap_ready pid_boot Z.eqb]. by rewrite length_imap, length_replicate.
  - cbn [head_g head_v pid_start pidns_init_locked pidmap_ensure_init_locked upd_pd set_pidns pidmap_ready pid_boot Z.eqb]. by rewrite length_replicate.
  - reflexivity.
  - intros g. exists (fun _ => []). constructor; [|constructor|].
    + intros b Hb. cbn [linked]. assert (heads g pid_start = replicate (Z.to_nat PIDMAP_BUCKETS) 0) as -> by (by destruct g). apply zget_replicate. lia.
    + intros b i Hb. split; [intros H; by apply elem_of_nil in H|]. intros (Hi & Hu & _). rewrite U in Hu by done. done.
  - exists (seqZ 0 (Z.of_nat (Z.to_nat PIDMAP_ENTRIES))). split_and!.
    + apply (linked_ext (fun j => if j + 1 <? PIDMAP_ENTRIES then j + 2 else 0)).
      * intros i Hi%elem_of_seqZ. unfold nx. by rewrite start_ent by (rewrite Z2Nat.id in Hi by done; lia).
      * apply (linked_range _ PIDMAP_ENTRIES (Z.to_nat PIDMAP_ENTRIES) 0); [by rewrite Z2Nat.id by done|done|done].
    + apply NoDup_seqZ.
    + intros i. rewrite elem_of_seqZ, Z2Nat.id by done. split; [intros Hi; split; [lia|apply U; lia]|intros [Hi _]; lia].
Qed.
Definition only_root : Z -> bool := fun i => i =? 0.
Lemma start_pidns : pidns pid_start = zalter (fun _ => mkPd 0 0 1 0 false false false) 0 (replicate 64 pd_zero).
Proof. unfold pid_start, pidns_init_locked, pidmap_ensure_init_locked, upd_pd. cbn [pidns dead_ring dead_pos set_pidns pidmap_ready pid_boot Z.eqb]. done. Qed.
Lemma start_ring : dead_ring pid_start = replicate (Z.to_nat PIDMAP_DEAD_RING) (0, 0).
Proof. unfold pid_start, pidns_init_locked, pidmap_ensure_init_locked, upd_pd. cbn [pidns dead_ring dead_pos set_pidns pidmap_ready pid_boot Z.eqb]. done. Qed.
Lemma start_pos : dead_pos pid_start = 0.
Proof. unfold pid_start, pidns_init_locked, pidmap_ensure_init_locked, upd_pd. cbn [pidns dead_ring dead_pos set_pidns pidmap_ready pid_boot Z.eqb]. done. Qed.
Lemma start_inv_of s : table_ok s -> pidns s = zalter (fun _ => mkPd 0 0 1 0 false false false) 0 (replicate 64 pd_zero) ->
  dead_ring s = replicate (Z.to_nat PIDMAP_DEAD_RING) (0, 0) -> dead_pos s = 0 ->
  (forall i, 0 <= i < PIDMAP_ENTRIES -> used s i = false /\ gen (ent s i) = 0) -> pid_inv only_root s.
Proof.
  intros T En Er Ep Em. assert (P0 : pd s 0 = mkPd 0 0 1 0 false false false) by (unfold pd; rewrite En; reflexivity).
  constructor; [exact T| | |].
  - constructor; [by rewrite En|by rewrite P0| |].
    + intros id Hid A. unfold only_root in A. lia.
    + intros id Hid A. unfold only_root in A. assert (id = 0) as -> by lia. by rewrite P0.
  - assert (N : forall ns g v i, ~ is_number s ns g v i) by (intros ns g v i (Hi & U & _); destruct (Em i Hi); congruence).
    constructor; [intros ns g v i H|intros ns g v v' i j H|intros ns g g' v i j H]; by destruct (N _ _ _ _ H).
  - constructor; [intros i Hi; by destruct (Em i Hi) as [_ ->]|by rewrite Er, length_replicate|by rewrite Ep| |].
    + intros k oi og Hk. left. rewrite Er in Hk. by apply lookup_replicate in Hk as [[= -> _] _].
    + intros k k' oi og Hk. rewrite Er in Hk. by apply lookup_replicate in Hk as [[= -> _] _].
Qed.
Lemma start_inv : pid_inv only_root pid_start.
Proof.
  apply start_inv_of; [exact start_table|exact start_pidns|exact start_ring|exact start_pos|]. intros i Hi. unfold used. by rewrite start_ent.
Qed.

(** The operations as the rest of the kernel calls them: a new namespace has an
    unused id and stays under the limit of levels, a task joins an allocated
    namespace, a namespace goes when none is below it. *)
Inductive pid_reach : (Z -> bool) -> pid_state -> Prop :=
| reach_boot : pid_reach only_root pid_start
| reach_init alloc s id parent : pid_reach alloc s -> 0 < id < NS_MAX_PID -> alloc id = false -> 0 <= parent < NS_MAX_PID -> alloc parent = true ->
    pidns_level_locked s parent + 1 < NS_MAX_LEVEL -> pid_reach (set_alloc alloc id true) (pidns_init_locked id parent s)
| reach_enter alloc s ns g th s' : pid_reach alloc s -> 0 <= ns < NS_MAX_PID -> alloc ns = true -> g <> 0 -> numbers_left 34 s ->
    pidns_enter_locked ns g th s = Ok s' -> pid_reach alloc s'
| reach_exit alloc s g ns : pid_reach alloc s -> 0 <= ns -> pid_reach alloc (pidns_task_exit_locked alloc g ns s)
| reach_reaped alloc s g s' : pid_reach alloc s -> pidns_task_reaped_locked alloc g s = Ok s' -> pid_reach alloc s'
| reach_release alloc s id p s' : pid_reach alloc s -> 0 < id < NS_MAX_PID -> alloc id = true ->
    (forall k, 0 < k < NS_MAX_PID -> alloc k = true -> pd_parent (pd s k) <> id) ->
    pidns_release_locked id s = Ok (p, s') -> pid_reach (set_alloc alloc id false) s'.
Lemma enter_inv alloc s ns g th : pid_inv alloc s -> 0 <= ns < NS_MAX_PID -> alloc ns = true -> g <> 0 -> numbers_left 34 s ->
  exists s', pidns_enter_locked ns g th s = Ok s' /\ pid_inv alloc s' /\ (ns <> 0 -> entered s s' ns g).
Proof.
  intros I Hn A G NL. unfold pidns_enter_locked. destruct (Z.eqb_spec ns 0) as [->|N]; cbn [orb]; [by exists s|].
  rewrite (proj2 (Z.leb_gt NS_MAX_PID ns)) by lia. destruct (enter_loop_ok alloc ns g th enter_fuel ns s I Hn A G NL) as (s' & E & I' & X).
  - destruct (n_tree _ _ (p_tree _ _ I) ns ltac:(lia) A) as (_ & _ & _ & _ & H). unfold enter_fuel, NS_MAX_LEVEL in *. lia.
  - by exists s'.
Qed.
Lemma reaped_inv alloc allocated s g : pid_inv alloc s ->
  exists s', pidns_task_reaped_locked allocated g s = Ok s' /\ pid_inv alloc s' /\ pidns s' = pidns s /\ reaped s s' g.
Proof.
  intros I. unfold pidns_task_reaped_locked. rewrite (t_ready _ (p_table _ _ I)). cbn [negb].
  destruct (reap_loop_ok alloc allocated g (Z.of_nat <$> seq 1 (Z.to_nat NS_MAX_PID - 1)) s I) as (s' & E & I' & P & R & _).
  - apply Forall_fmap, Forall_forall. intros i Hi%elem_of_seq. unfold compose. lia.
  - exists s'. split_and!; [done..|]. apply R. rewrite length_fmap, length_seq. unfold NS_MAX_PID, PIDMAP_DEAD_RING. lia.
Qed.
Lemma pid_reach_inv alloc s : pid_reach alloc s -> pid_inv alloc s.
Proof.
  induction 1 as [|alloc s id parent _ I Hid A Hp Ap Lv|alloc s ns g th s' _ I Hn A G NL E|alloc s g ns _ I Hn|alloc s g s' _ I E|alloc s id p s' _ I Hid A NC E].
  - exact start_inv.
  - apply init_inv; [done..|]. unfold pidns_level_locked in Lv. rewrite (proj2 (Z.ltb_lt parent NS_MAX_PID)) in Lv by lia. done.
  - destruct (enter_inv alloc s ns g th I Hn A G NL) as (s1 & E1 & I1 & _). congruence.
  - by apply exit_inv.
  - destruct (reaped_inv alloc alloc s g I) as (s1 & E1 & I1 & _). congruence.
  - destruct (pid_release_inv alloc s id I Hid A NC) as (s1 & E1 & I1 & _). congruence.
Qed.
Lemma ancestor_loop_spec alloc s m rounds : forall n, tree_ok alloc s -> 0 <= n < NS_MAX_PID -> alloc n = true -> pd_level (pd s n) < Z.of_nat rounds ->
  is_ancestor_loop rounds s m n = true <-> above s n m.
Proof.
  induction rounds as [|r IH]; intros n T Hn A Lv.
  { destruct (Z.eqb_spec n 0) as [->|N]; [destruct (n_root _ _ T) as (_ & _ & E); lia|]. destruct (n_tree _ _ T n ltac:(lia) A) as (_ & _ & ? & ? & _). lia. }
  cbn [is_ancestor_loop]. destruct (Z.eqb_spec n m) as [->|N]; [split; [constructor|done]|]. destruct (Z.eqb_spec n 0) as [->|N0].
  - split; [done|]. intros H. inversion H; subst; done.
  - destruct (n_tree _ _ T n ltac:(lia) A) as (P1 & P2 & P3 & _). rewrite IH by (done || lia). split; [by constructor|]. intros H. by inversion H; subst.
Qed.
Lemma is_ancestor_spec alloc s m n : tree_ok alloc s -> 0 <= n < NS_MAX_PID -> 0 <= m < NS_MAX_PID -> alloc n = true ->
  pidns_is_ancestor_locked s m n = true <-> above s n m.
Proof.
  intros T Hn Hm A. unfold pidns_is_ancestor_locked. rewrite (proj2 (Z.leb_gt NS_MAX_PID m)), (proj2 (Z.leb_gt NS_MAX_PID n)) by lia. cbn [orb].
  apply (ancestor_loop_spec alloc); [done..|]. destruct (Z.eqb_spec n 0) as [->|N0]; [destruct (n_root _ _ T) as (_ & _ & ->); lia|].
  destruct (n_tree _ _ T n ltac:(lia) A) as (_ & _ & _ & _ & H). unfold NS_MAX_LEVEL in H. lia.
Qed.

(** ** Translation *)

Lemma to_ns_spec alloc s ns g : pid_inv alloc s -> ns <> 0 -> g <> 0 -> exists v, namespace_pid_to_ns s ns g = Ok v /\
  (v <> 0 -> num s ns g v) /\ (forall w, num s ns g w -> v = w).
Proof.
  intros I N G. unfold namespace_pid_to_ns. rewrite (proj2 (Z.eqb_neq ns 0)), (proj2 (Z.eqb_neq g 0)) by done. cbn [orb].
  destruct (find_by_gid_ok s ns g (p_table _ _ I)) as (r & -> & Hr). cbn [rbind]. destruct r as [i|]; eexists; (split; [reflexivity|]); split.
  - intros _. by exists i.
  - intros w [j H]. pose proof (m_gid _ _ (p_num _ _ I) _ _ _ _ _ _ Hr H) as <-. by destruct H as (_ & _ & _ & _ & ?).
  - done.
  - intros w [j H]. by destruct (Hr w j).
Qed.
Lemma from_ns_spec alloc s ns v : pid_inv alloc s -> ns <> 0 -> v <> 0 -> exists g, namespace_pid_from_ns s ns v = Ok g /\
  (g <> 0 -> num s ns g v) /\ (forall h, num s ns h v -> g = h).
Proof.
  intros I N V. unfold namespace_pid_from_ns. rewrite (proj2 (Z.eqb_neq ns 0)), (proj2 (Z.eqb_neq v 0)) by done. cbn [orb].
  destruct (find_by_vnr_ok s ns v (p_table _ _ I)) as (r & -> & Hr). cbn [rbind]. destruct r as [i|]; eexists; (split; [reflexivity|]); split.
  - intros _. by exists i.
  - intros h [j H]. pose proof (m_vnr _ _ (p_num _ _ I) _ _ _ _ _ _ Hr H) as <-. by destruct H as (_ & _ & _ & ? & _).
  - done.
  - intros h [j H]. by destruct (Hr h j).
Qed.
Lemma to_ns_same alloc alloc' s s' ns g : pid_inv alloc s -> pid_inv alloc' s' -> (forall w, num s' ns g w <-> num s ns g w) ->
  namespace_pid_to_ns s' ns g = namespace_pid_to_ns s ns g.
Proof.
  intros I I' H. destruct (Z.eqb_spec ns 0) as [->|N]; [done|]. destruct (Z.eqb_spec g 0) as [->|G]; [unfold namespace_pid_to_ns; by rewrite orb_true_r|].
  destruct (to_ns_spec alloc s ns g I N G) as (v & -> & V1 & V2). destruct (to_ns_spec alloc' s' ns g I' N G) as (v' & -> & V1' & V2'). f_equal.
  destruct (Z.eqb_spec v 0) as [->|V]; [|by apply V2', H, V1]. destruct (Z.eqb_spec v' 0) as [->|V']; [done|]. symmetry. by apply V2, H, V1'.
Qed.

(** C17 (roundtrip).  Translation between kernel ids and the numbers of a
    namespace always returns, and where there is a number the two directions
    are inverse: the hash chains lose nothing and no two tasks share a number. *)
Theorem pid_translation_roundtrip alloc s ns x : pid_reach alloc s -> ns <> 0 -> x <> 0 ->
  (exists v, namespace_pid_to_ns s ns x = Ok v /\ (v <> 0 -> namespace_pid_from_ns s ns v = Ok x)) /\
  (exists g, namespace_pid_from_ns s ns x = Ok g /\ (g <> 0 -> namespace_pid_to_ns s ns g = Ok x)).
Proof.
  intros I%pid_reach_inv N X. split.
  - destruct (to_ns_spec alloc s ns x I N X) as (v & E & V & _). exists v. split; [done|]. intros V0.
    destruct (from_ns_spec alloc s ns v I N V0) as (g & -> & _ & G). f_equal. by apply G, V.
  - destruct (from_ns_spec alloc s ns x I N X) as (g & E & G & _). exists g. split; [done|]. intros G0.
    destruct (to_ns_spec alloc s ns g I N G0) as (v & -> & _ & V). f_equal. by apply V, G.
Qed.

(** C18 (safety).  Isolation, exactly.  A task without numbers yet (kernel ids are
    never reused, so a new task has none) that joins a namespace then has a number
    in a namespace if and only if that one is the joined one or above it, and is
    fewer levels above than there are free entries in the table: a namespace that
    is not above never names the task, every one above does while the table has
    room, and a table that fills up leaves out the outermost.  No other task's
    numbers change.  [numbers_left 34]: the 32-bit generations and the 64-bit
    numbers do not wrap in the at most 34 steps taken. *)
Theorem pid_isolation alloc s ns g th : pid_reach alloc s -> 0 < ns < NS_MAX_PID -> alloc ns = true -> g <> 0 -> numbers_left 34 s ->
  (forall m, m <> 0 -> namespace_pid_to_ns s m g = Ok 0) ->
  exists s', pidns_enter_locked ns g th s = Ok s' /\
    (forall m, 0 < m < NS_MAX_PID -> exists v, namespace_pid_to_ns s' m g = Ok v /\
      (v <> 0 <-> pidns_is_ancestor_locked s m ns = true /\ pidns_level_locked s ns - pidns_level_locked s m < free_entries s)) /\
    forall m h, h <> g -> namespace_pid_to_ns s' m h = namespace_pid_to_ns s m h.
Proof.
  intros I%pid_reach_inv Hn A G NL Fresh. destruct (enter_inv alloc s ns g th I ltac:(lia) A G NL) as (s' & E & I' & X). destruct (X ltac:(lia)) as [ST O K Nw Al].
  assert (Nf : forall m w, m <> 0 -> ~ num s m g w).
  { intros m w M H. destruct (to_ns_spec alloc s m g I M G) as (v & Ev & _ & V). rewrite Fresh in Ev by done. injection Ev as <-. pose proof (V w H) as <-.
    destruct H as [i H]. apply (m_num _ _ (p_num _ _ I)) in H. lia. }
  exists s'. split_and!; [done| |].
  - intros m Hm. destruct (to_ns_spec alloc s' m g I' ltac:(lia) G) as (v & -> & V & V'). exists v. split; [done|].
    unfold pidns_level_locked. rewrite (proj2 (Z.ltb_lt ns NS_MAX_PID)), (proj2 (Z.ltb_lt m NS_MAX_PID)) by lia.
    rewrite (is_ancestor_spec alloc) by (done || lia || apply I). split.
    + intros V0. destruct (Nw m v (V V0)) as [H|H]; [by destruct (Nf m v ltac:(lia))|]. split; [done|].
      apply Al; [intros ????; by apply Nf|done|lia|]. exists v. by apply V.
    + intros [H L]. apply Al in L as [w Hw]; [|intros ????; by apply Nf|done|lia]. rewrite (V' w Hw). destruct Hw as [i Hi].
      apply (m_num _ _ (p_num _ _ I')) in Hi. lia.
  - intros m h Hh. apply (to_ns_same alloc alloc); [done|done|]. intros w. by apply O.
Qed.

(** (Functional.)  Reaping a task takes no number from anyone alive, and the
    task's own numbers still answer afterwards, when its parent translates the
    id that its wait returns: only numbers of tasks reaped earlier are freed. *)
Theorem reaped_numbers_answer alloc s g : pid_reach alloc s ->
  exists s', pidns_task_reaped_locked alloc g s = Ok s' /\
    forall m h i, m <> 0 -> h <> 0 -> find_by_gid_locked m h s = Ok (Some i) -> dead (ent s i) = false ->
      namespace_pid_to_ns s' m h = namespace_pid_to_ns s m h.
Proof.
  intros I%pid_reach_inv. destruct (reaped_inv alloc alloc s g I) as (s' & E & I' & _ & [Q1 Q2 Q3]). exists s'. split; [done|].
  intros m h i M H F D. apply (to_ns_same alloc alloc); [done|done|]. intros w. split; [intros [j Hj]; exists j; by apply Q1|].
  destruct (find_by_gid_ok s m h (p_table _ _ I)) as (r & Er & Hr). rewrite F in Er. injection Er as <-. intros [j Hj].
  pose proof (m_gid _ _ (p_num _ _ I) _ _ _ _ _ _ Hr Hj) as <-. exists i. destruct (decide (h = g)) as [->|N]; [by apply Q3|].
  apply (is_number_info s s'); [by apply (Q2 m h w)|done].
Qed.

(** Witness: a namespace under the initial one, which task 5 joins. *)
Definition one_ns : pid_state := pidns_init_locked 1 0 pid_start.
Definition one_alloc : Z -> bool := set_alloc only_root 1 true.
Definition one_task : pid_state := match pidns_enter_locked 1 5 false one_ns with Ok s => s | _ => one_ns end.
Lemma one_ns_reach : pid_reach one_alloc one_ns.
Proof.
  apply reach_init; [constructor|unfold NS_MAX_PID; lia|done|unfold NS_MAX_PID; lia|done|]. unfold pidns_level_locked, pd. rewrite start_pidns. vm_compute. done.
Qed.
Lemma one_ns_effect : (forall m h w, num one_ns m h w <-> num pid_start m h w) /\ (forall m, 0 <= m -> m <> 1 -> pd one_ns m = pd pid_start m) /\
  next_vnr (pd one_ns 1) = 1.
Proof.
  destruct (init_inv only_root pid_start 1 0 start_inv) as (_ & N & P & Q); [unfold NS_MAX_PID; lia|done|unfold NS_MAX_PID; lia|done| |].
  - unfold pd. rewrite start_pidns. vm_compute. done.
  - split_and!; [done|done|]. unfold one_ns. by rewrite Q.
Qed.
Lemma init_pidmap s id p : pidmap_ready s = true -> pidmap (pidns_init_locked id p s) = pidmap s.
Proof. intros R. unfold pidns_init_locked, pidmap_ensure_init_locked. rewrite R. by destruct (id =? 0). Qed.
Lemma one_ns_left : numbers_left 34 one_ns.
Proof.
  split.
  - intros i Hi. assert (E : ent one_ns i = ent pid_start i) by (unfold ent, one_ns; rewrite init_pidmap by apply start_table; reflexivity).
    by rewrite E, start_ent.
  - intros n Hn. destruct one_ns_effect as (_ & P & Q). destruct (Z.eqb_spec n 1) as [->|N]; [by rewrite Q|]. rewrite P by done. unfold pd. rewrite start_pidns.
    destruct (Z.eqb_spec n 0) as [->|N0]; [done|]. rewrite zget_zalter_ne by lia. unfold zget. rewrite list_lookup_total_alt.
    destruct (replicate 64 pd_zero !! Z.to_nat n) as [x|] eqn:E; [|done]. by apply lookup_replicate in E as [-> _].
Qed.
Lemma no_numbers alloc s m g : pid_inv alloc s -> (forall i, 0 <= i < PIDMAP_ENTRIES -> used s i = false) -> m <> 0 -> g <> 0 -> namespace_pid_to_ns s m g = Ok 0.
Proof.
  intros I U M G. destruct (to_ns_spec alloc s m g I M G) as (v & -> & V & _). f_equal. destruct (Z.eqb_spec v 0) as [|N]; [done|].
  destruct (V N) as (i & Hi & Ui & _). rewrite U in Ui by done. done.
Qed.
Lemma one_ns_fresh m : m <> 0 -> namespace_pid_to_ns one_ns m 5 = Ok 0.
Proof.
  intros M. apply (no_numbers one_alloc); [exact (pid_reach_inv _ _ one_ns_reach)| |done|done]. intros i Hi. unfold used.
  assert (E : ent one_ns i = ent pid_start i) by (unfold ent, one_ns; rewrite init_pidmap by apply start_table; reflexivity). by rewrite E, start_ent.
Qed.
Lemma one_task_enter : pidns_enter_locked 1 5 false one_ns = Ok one_task.
Proof.
  destruct (enter_inv one_alloc one_ns 1 5 false (pid_reach_inv _ _ one_ns_reach)) as (s & E & _);
    [unfold NS_MAX_PID; lia|done|done|exact one_ns_left|]. unfold one_task. by rewrite E.
Qed.
Lemma one_task_reach : pid_reach one_alloc one_task.
Proof. eapply reach_enter; [exact one_ns_reach|..|exact one_task_enter]; [unfold NS_MAX_PID; lia|done|done|exact one_ns_left]. Qed.
Lemma pid_translation_roundtrip_witness : namespace_pid_to_ns one_task 1 5 = Ok 1 /\ namespace_pid_from_ns one_task 1 1 = Ok 5.
Proof.
  assert (E : namespace_pid_to_ns one_task 1 5 = Ok 1) by (vm_compute; reflexivity). split; [exact E|].
  destruct (pid_translation_roundtrip one_alloc one_task 1 5 one_task_reach) as [(v & Ev & V) _]; [discriminate|discriminate|].
  rewrite E in Ev. injection Ev as <-. apply V. discriminate.
Defined.
Lemma pid_isolation_witness : exists s', pidns_enter_locked 1 5 false one_ns = Ok s' /\
  namespace_pid_to_ns s' 2 5 = Ok 0 /\ namespace_pid_to_ns s' 1 5 <> Ok 0.
Proof.
  destruct (pid_isolation one_alloc one_ns 1 5 false one_ns_reach) as (s' & E & H & _); [unfold NS_MAX_PID; lia|reflexivity|discriminate|exact one_ns_left|exact one_ns_fresh|].
  exists s'. split_and!; [exact E| |].
  - destruct (H 2) as (v & Ev & V); [unfold NS_MAX_PID; lia|]. rewrite Ev. f_equal. destruct (Z.eqb_spec v 0) as [|N]; [done|].
    apply V in N as [N _]. vm_compute in N. discriminate.
  - destruct (H 1) as (v & Ev & V); [unfold NS_MAX_PID; lia|]. rewrite Ev. intros [= ->]. apply (proj2 V); [|reflexivity].
    split; [vm_compute; reflexivity|vm_compute; reflexivity].
Defined.
Lemma reaped_numbers_answer_witness : exists s', pidns_task_reaped_locked one_alloc 5 one_task = Ok s' /\ namespace_pid_to_ns s' 1 5 = Ok 1.
Proof.
  destruct (reaped_numbers_answer one_alloc one_task 5 one_task_reach) as (s' & E & H). exists s'. split; [exact E|].
  rewrite (H 1 5 0); [vm_compute; reflexivity|discriminate|discriminate|vm_compute; reflexivity|vm_compute; reflexivity].
Defined.
End PidNsProofs.
