(* ===== verification/Namespace.v ===== *)
(** The namespace core ([kernel/sched/namespace.c]): the tables of the eight
    kinds with their reference counts and owners, the membership of tasks, the
    reaper, clone, unshare, setns, nsfs, and the data of UTS and time namespaces.

    The user kind is [UserNs], the numbers of PID namespaces are [PidNs].  A row
    of membership is an argument and a result of the functions that change it;
    the table of rows is in [NamespaceSystem].  A function that drops [ns_lock]
    is split there: unshare and clone build their namespaces in several sections
    and then commit. *)
From S2P Require Import Prelude Cred UserNs PidNs.
Local Open Scope Z_scope.
Local Open Scope kernel_scope.

Module Namespace.
Import Cred UserNs.

Inductive ns_kind := NS_UTS | NS_MNT | NS_PID | NS_NET | NS_USER | NS_IPC | NS_CGROUP | NS_TIME.
#[global] Instance ns_kind_eq_dec : EqDecision ns_kind.
Proof. solve_decision. Defined.
Definition kinds : list ns_kind := [NS_UTS; NS_MNT; NS_PID; NS_NET; NS_USER; NS_IPC; NS_CGROUP; NS_TIME].
Definition kind_index (k : ns_kind) : nat :=
  match k with NS_UTS => 0 | NS_MNT => 1 | NS_PID => 2 | NS_NET => 3 | NS_USER => 4 | NS_IPC => 5 | NS_CGROUP => 6 | NS_TIME => 7 end%nat.
Definition ns_max (k : ns_kind) : Z :=
  match k with NS_UTS => 64 | NS_MNT => 128 | NS_PID => 64 | NS_NET => 16 | NS_USER => 64 | NS_IPC => 64 | NS_CGROUP => 64 | NS_TIME => 32 end.
Definition ns_initial_inum (k : ns_kind) : Z :=
  match k with NS_IPC => 4026531839 | NS_UTS => 4026531838 | NS_USER => 4026531837 | NS_PID => 4026531836 | NS_CGROUP => 4026531835
  | NS_TIME => 4026531834 | NS_NET => 4026531840 | NS_MNT => 4026531841 end.
Definition CLONE_NEWTIME := 128.
Definition CLONE_NEWNS := 131072.
Definition CLONE_NEWCGROUP := 33554432.
Definition CLONE_NEWUTS := 67108864.
Definition CLONE_NEWIPC := 134217728.
Definition CLONE_NEWUSER := 268435456.
Definition CLONE_NEWPID := 536870912.
Definition CLONE_NEWNET := 1073741824.
Definition namespace_kind_flag (k : ns_kind) : Z :=
  match k with NS_UTS => CLONE_NEWUTS | NS_MNT => CLONE_NEWNS | NS_PID => CLONE_NEWPID | NS_NET => CLONE_NEWNET
  | NS_USER => CLONE_NEWUSER | NS_IPC => CLONE_NEWIPC | NS_CGROUP => CLONE_NEWCGROUP | NS_TIME => CLONE_NEWTIME end.
Definition CLONE_NS_ALL : Z := fold_left (fun a k => Z.lor a (namespace_kind_flag k)) kinds 0.
Definition namespace_kind_from_flag (flag : Z) : option ns_kind :=
  match first_index (fun k => namespace_kind_flag k =? flag) kinds with Some i => kinds !! i | None => None end.
Definition LX_CLONE_VM := 256.
Definition LX_CLONE_FS := 512.
Definition LX_CLONE_FILES := 1024.
Definition LX_CLONE_SIGHAND := 2048.
Definition LX_CLONE_PARENT := 32768.
Definition LX_CLONE_THREAD := 65536.
Definition LX_CLONE_SYSVSEM := 262144.
Definition CAP_SYS_CHROOT := 18.
Definition CAP_SYS_TIME := 25.

(** [struct ns_row]; the entry of [NS_USER] is in the credential instead. *)
Record ns_row := mkRow { r_used : bool; r_id : list Z; pid_children : Z; time_children : Z; r_child : list Z; child_valid : bool }.
Definition zeros : list Z := [0; 0; 0; 0; 0; 0; 0; 0].
Definition row_zero : ns_row := mkRow false zeros 0 0 zeros false.
#[global] Instance ns_row_inhabited : Inhabited ns_row := populate row_zero.
Definition rid (r : ns_row) (k : ns_kind) : Z := r_id r !!! kind_index k.
Definition rchild (r : ns_row) (k : ns_kind) : Z := r_child r !!! kind_index k.
Definition set_rid (k : ns_kind) (id : Z) (r : ns_row) : ns_row :=
  mkRow (r_used r) (<[kind_index k := id]> (r_id r)) (pid_children r) (time_children r) (r_child r) (child_valid r).
Definition set_pid_children (id : Z) (r : ns_row) : ns_row := mkRow (r_used r) (r_id r) id (time_children r) (r_child r) (child_valid r).
Definition set_time_children (id : Z) (r : ns_row) : ns_row := mkRow (r_used r) (r_id r) (pid_children r) id (r_child r) (child_valid r).
Definition set_child (l : list Z) (v : bool) (r : ns_row) : ns_row := mkRow (r_used r) (r_id r) (pid_children r) (time_children r) l v.
Definition set_used (b : bool) (r : ns_row) : ns_row := mkRow b (r_id r) (pid_children r) (time_children r) (r_child r) (child_valid r).

(** [user] is the table of [NS_USER] with [ns_next_inum], [ns_any] and
    [ns_ready]; [tables] has the other seven. *)
Record core := mkCore {
  user : ns_state; tables : list (list ns_slot); pids : PidNs.pid_state;
  uts_data : list (list Z * list Z); time_data : list (Z * Z); cgroup_roots : list (option Z); ns_reaper_pending : bool }.
Definition set_user (u : ns_state) (st : core) : core :=
  mkCore u (tables st) (pids st) (uts_data st) (time_data st) (cgroup_roots st) (ns_reaper_pending st).
Definition set_tables (t : list (list ns_slot)) (st : core) : core :=
  mkCore (user st) t (pids st) (uts_data st) (time_data st) (cgroup_roots st) (ns_reaper_pending st).
Definition set_pids (p : PidNs.pid_state) (st : core) : core :=
  mkCore (user st) (tables st) p (uts_data st) (time_data st) (cgroup_roots st) (ns_reaper_pending st).
Definition set_uts (l : list (list Z * list Z)) (st : core) : core :=
  mkCore (user st) (tables st) (pids st) l (time_data st) (cgroup_roots st) (ns_reaper_pending st).
Definition set_time (l : list (Z * Z)) (st : core) : core :=
  mkCore (user st) (tables st) (pids st) (uts_data st) l (cgroup_roots st) (ns_reaper_pending st).
Definition set_roots (l : list (option Z)) (st : core) : core :=
  mkCore (user st) (tables st) (pids st) (uts_data st) (time_data st) l (ns_reaper_pending st).
Definition set_pending (b : bool) (st : core) : core :=
  mkCore (user st) (tables st) (pids st) (uts_data st) (time_data st) (cgroup_roots st) b.
Definition table (k : ns_kind) (st : core) : list ns_slot := tables st !!! kind_index k.
(** [ns_slots[k][id]] *)
Definition slot_of (st : core) (k : ns_kind) (id : Z) : ns_slot :=
  match k with NS_USER => slot (user st) id | _ => zget (table k st) id end.
(** A slot of another kind than [NS_USER]. *)
Definition upd_slot (k : ns_kind) (id : Z) (f : ns_slot -> ns_slot) (st : core) : core :=
  set_tables (alter (zalter f id) (kind_index k) (tables st)) st.
Definition slot_refs (n : Z) (x : ns_slot) : ns_slot := mkSlot (used x) (zombie x) (entered x) n (owner x) (inum x).
Definition slot_used (b : bool) (x : ns_slot) : ns_slot := mkSlot b (zombie x) (entered x) (refs x) (owner x) (inum x).
Definition slot_zombie (z : Z) (x : ns_slot) : ns_slot := mkSlot (used x) z (entered x) (refs x) (owner x) (inum x).
Definition slot_entered (x : ns_slot) : ns_slot := mkSlot (used x) (zombie x) true (refs x) (owner x) (inum x).

Definition slot_zero : ns_slot := mkSlot false 0 false 0 0 0.
Definition core_boot : core :=
  mkCore ns_boot ((fun k => match k with NS_USER => [] | _ => replicate (Z.to_nat (ns_max k)) slot_zero end) <$> kinds) PidNs.pid_boot
    (replicate 64 ([], [])) (replicate 32 (0, 0)) (replicate 64 None) false.
(** "b1nix", "(none)" *)
Definition b1nix_name : list Z := [98; 49; 110; 105; 120].
Definition none_name : list Z := [40; 110; 111; 110; 101; 41].
Definition NS_NAME_MAX := 65.
(** [ns_copy_name]: what fits before the terminator. *)
Definition ns_copy_name (len : Z) (src : option (list Z)) : list Z :=
  match src with None => [] | Some s => take (Z.to_nat (len - 1)) s end.
Definition init_slot (k : ns_kind) (x : ns_slot) : ns_slot := mkSlot true (zombie x) true 1 0 (ns_initial_inum k).
Definition ns_ensure_init_locked (st : core) : core :=
  if ns_ready (user st) then st
  else
    let st := set_user (UserNs.ns_ensure_init_locked (user st)) st in
    let st := fold_left (fun st k => match k with NS_USER => st | _ => upd_slot k 0 (init_slot k) st end) kinds st in
    let st := set_uts (zalter (fun _ => (ns_copy_name NS_NAME_MAX (Some b1nix_name), ns_copy_name NS_NAME_MAX (Some none_name))) 0 (uts_data st)) st in
    set_pids (PidNs.pidns_init_locked 0 0 (pids st)) st.

(** ** Reference counts *)

Definition ns_kind_deferred (k : ns_kind) : bool := match k with NS_MNT | NS_NET | NS_IPC | NS_CGROUP => true | _ => false end.
Definition ns_get_locked (k : ns_kind) (id : Z) (st : core) : core :=
  if (id =? 0) || (ns_max k <=? id) then st
  else match k with
       | NS_USER => set_user (UserNs.ns_get_locked (user st) id) st
       | _ => upd_slot k id (fun x => slot_refs (u32 (refs x + 1)) x) st
       end.
(** The first free slot from 1 up, for the kinds other than [NS_USER]. *)
Definition ns_alloc_locked (k : ns_kind) (own : Z) (st0 : core) : Z * core :=
  let st := ns_ensure_init_locked st0 in
  match first_index (fun x => negb (used x)) (drop 1 (table k st)) with
  | None => (0, st)
  | Some j =>
      let i := Z.of_nat (S j) in
      let u := user st in
      let st := upd_slot k i (fun _ => mkSlot true 0 false 1 own (ns_next_inum u)) st in
      let st := set_user (mkNs (userns u) (userns_ready u) (slots u) (ns_ready u) (u64 (ns_next_inum u + 1)) (ns_any u)) st in
      let st := ns_get_locked NS_USER own st in
      let u := user st in
      (i, set_user (mkNs (userns u) (userns_ready u) (slots u) (ns_ready u) (ns_next_inum u) true) st)
  end.
Definition put_user (id : Z) (st : core) : res core :=
  match UserNs.ns_put_locked put_fuel (user st) id with
  | PutOk u => Ok (set_user u st)
  | PutPanic => Panic "namespace: reference underflow"
  | PutNoFuel => Fault
  end.
(** [fuel]: a PID namespace that goes drops its parent. *)
Fixpoint ns_put_locked (fuel : nat) (k : ns_kind) (id : Z) (st : core) : res core :=
  match fuel with
  | O => Fault
  | S fuel =>
      if (id =? 0) || (ns_max k <=? id) then Ok st
      else match k with
           | NS_USER => put_user id st
           | _ =>
               let x := slot_of st k id in
               if negb (used x) || (refs x =? 0) then Panic "namespace: reference underflow"
               else
                 let n := u32 (refs x - 1) in
                 let st := upd_slot k id (slot_refs n) st in
                 if n <>? 0 then Ok st
                 else if ns_kind_deferred k then Ok (set_pending true (upd_slot k id (slot_zombie 1) st))
                 else
                   let* st := match k with
                              | NS_PID => let* '(parent, p) := PidNs.pidns_release_locked id (pids st) in
                                          ns_put_locked fuel NS_PID parent (set_pids p st)
                              | NS_UTS => Ok (set_uts (zalter (fun _ => ([], [])) id (uts_data st)) st)
                              | NS_TIME => Ok (set_time (zalter (fun _ => (0, 0)) id (time_data st)) st)
                              | _ => Ok st
                              end in
                   let st := upd_slot k id (slot_used false) st in
                   put_user (owner x) st
           end
  end.
(** More than the limit of levels. *)
Definition core_fuel : nat := 40.
Definition put (k : ns_kind) (id : Z) (st : core) : res core := ns_put_locked core_fuel k id st.
Fixpoint puts (l : list (ns_kind * Z)) (st : core) : res core :=
  match l with [] => Ok st | (k, id) :: l => let* st := put k id st in puts l st end.

Definition ns_live_locked (k : ns_kind) (id : Z) (st : core) : bool :=
  if ns_max k <=? id then false else if id =? 0 then true else used (slot_of st k id) && (zombie (slot_of st k id) =? 0).
Definition namespace_get (k : ns_kind) (id : Z) (st0 : core) : Z * core :=
  let st := ns_ensure_init_locked st0 in
  if ns_live_locked k id st then (0, ns_get_locked k id st) else (- EINVAL, st).
Definition namespace_put (k : ns_kind) (id : Z) (st : core) : res core := if id =? 0 then Ok st else put k id st.
Definition namespace_inum (k : ns_kind) (id : Z) (st : core) : Z :=
  if ns_max k <=? id then 0 else if id =? 0 then ns_initial_inum k else inum (slot_of st k id).
Definition namespace_owner (k : ns_kind) (id : Z) (st : core) : Z :=
  if (ns_max k <=? id) || (id =? 0) then 0 else owner (slot_of st k id).

(** ** The reaper *)

Definition REAP_BATCH := 32.
(** The zombies of one kind from index [i] on, while the batch has room. *)
Fixpoint collect_kind (idxs : list Z) (k : ns_kind) (dead : list (ns_kind * Z * option Z)) (st : core) : list (ns_kind * Z * option Z) * core :=
  match idxs with
  | [] => (dead, st)
  | i :: idxs =>
      if REAP_BATCH <=? Z.of_nat (length dead) then (dead, st)
      else
        let x := slot_of st k i in
        if negb (used x) || (zombie x =? 0) || (zombie x =? 2) then collect_kind idxs k dead st
        else
          let st := upd_slot k i (slot_zombie 2) st in
          match k with
          | NS_CGROUP => collect_kind idxs k (dead ++ [(k, i, zget (cgroup_roots st) i)]) (set_roots (zalter (fun _ => None) i (cgroup_roots st)) st)
          | _ => collect_kind idxs k (dead ++ [(k, i, None)]) st
          end
  end.
Definition ids_from_1 (k : ns_kind) : list Z := Z.of_nat <$> seq 1 (Z.to_nat (ns_max k) - 1).
(** First section: what is to be torn down outside the lock. *)
Definition reaper_collect (st : core) : list (ns_kind * Z * option Z) * core :=
  let st := set_pending false st in
  let '(dead, st) := fold_left (fun '(dead, st) k => if ns_kind_deferred k then collect_kind (ids_from_1 k) k dead st else (dead, st)) kinds ([], st) in
  (dead, if Z.of_nat (length dead) =? REAP_BATCH then set_pending true st else st).
(** Second section: the slots are free again. *)
Fixpoint reaper_finish (dead : list (ns_kind * Z)) (st : core) : res core :=
  match dead with
  | [] => Ok st
  | (k, id) :: dead =>
      let own := owner (slot_of st k id) in
      let st := upd_slot k id (fun x => slot_zombie 0 (slot_used false x)) st in
      let* st := put_user own st in
      reaper_finish dead st
  end.

(** ** Membership *)

Definition namespace_task_id (st : core) (r : option ns_row) (c : option cred) (k : ns_kind) : Z :=
  match k with
  | NS_USER => cred_userns c
  | _ => if negb (ns_any (user st)) then 0 else match r with Some r => if r_used r then rid r k else 0 | None => 0 end
  end.
Definition namespace_task_children_id (st : core) (r : option ns_row) (c : option cred) (k : ns_kind) : Z :=
  if negb (ns_any (user st)) then namespace_task_id st r c k
  else match r with
       | Some r' => if negb (r_used r') then namespace_task_id st r c k
                    else match k with NS_PID => pid_children r' | NS_TIME => time_children r' | _ => namespace_task_id st r c k end
       | None => namespace_task_id st r c k
       end.
Definition row_ids (r : ns_row) : list (ns_kind * Z) := (fun k => (k, rid r k)) <$> List.filter (fun k => negb (bool_decide (k = NS_USER))) kinds.
Definition row_kids (r : ns_row) : list (ns_kind * Z) := [(NS_PID, pid_children r); (NS_TIME, time_children r)].
Definition row_prepared (r : ns_row) : list (ns_kind * Z) := (fun k => (k, rchild r k)) <$> kinds.
Definition ns_row_clear_locked (r : ns_row) (st : core) : res (ns_row * core) :=
  if negb (r_used r) then Ok (r, st)
  else
    let* st := puts (row_ids r) st in
    let* st := puts (row_kids r) st in
    let* st := (if child_valid r then puts (row_prepared r) st else Ok st) in
    Ok (mkRow false zeros 0 0 (if child_valid r then zeros else r_child r) false, st).
Definition ns_row_trivial (r : ns_row) : bool :=
  forallb (fun k => rid r k =? 0) kinds && (pid_children r =? 0) && (time_children r =? 0) && negb (child_valid r).

(** A prepared namespace handed to the child: the user namespace to its
    credential, the others to its row. *)
Fixpoint take_prepared (ks : list ns_kind) (pr : ns_row) (cred : option cred) (ids : list Z) (given : list bool) (st : core)
    : res (option Cred.cred * list Z * list bool * core) :=
  match ks with
  | [] => Ok (cred, ids, given, st)
  | k :: ks =>
      let id := rchild pr k in
      if id =? 0 then take_prepared ks pr cred ids given st
      else match k with
           | NS_USER =>
               match cred with
               | None => let* st := put NS_USER id st in take_prepared ks pr cred ids given st
               | Some c => let* st := put_user (user_ns c) st in take_prepared ks pr (Some (enter_caps id c)) ids given st
               end
           | _ => take_prepared ks pr cred (<[kind_index k := id]> ids) (<[kind_index k := true]> given) st
           end
  end.
Definition inherit_gets (ids : list Z) (given : list bool) (st : core) : core :=
  fold_left (fun st k => match k with NS_USER => st | _ =>
    let id := ids !!! kind_index k in if (id <>? 0) && negb (given !!! kind_index k) then ns_get_locked k id st else st end) kinds st.
(** What the child starts from: its parent's namespaces, those of the parent's
    children for a new process. *)
Definition inherited_ids (pr : ns_row) (thread : bool) : list Z :=
  let ids := <[kind_index NS_USER := 0]> (r_id pr) in
  if thread then ids else <[kind_index NS_TIME := time_children pr]> (<[kind_index NS_PID := pid_children pr]> ids).
(** The ids the child gets, those whose references are handed over, and what
    becomes of the parent's row and the child's credential. *)
Definition fork_source (pr : option ns_row) (child_cred : option cred) (thread : bool) (st : core)
    : res (option ns_row * option cred * list Z * list bool * core) :=
  let no_given := replicate 8 false in
  match pr with
  | Some p =>
      if r_used p then
        let ids := inherited_ids p thread in
        if child_valid p && negb thread then
          let* '(cc, ids, given, st) := take_prepared kinds p child_cred ids no_given st in
          Ok (Some (set_child zeros false p), cc, ids, given, st)
        else Ok (Some p, child_cred, ids, no_given, st)
      else Ok (Some p, child_cred, zeros, no_given, st)
  | None => Ok (None, child_cred, zeros, no_given, st)
  end.
(** [pr] is [None] for a parent without a row; the new rows of the parent and
    the child, and the child's credential. *)
Definition namespace_fork_inherit (pr : option ns_row) (cr : ns_row) (child_gid : Z) (child_cred : option cred) (thread : bool) (st0 : core)
    : res (option ns_row * ns_row * option cred * core) :=
  let st := ns_ensure_init_locked st0 in
  let* '(cr, st) := ns_row_clear_locked cr st in
  let* '(pr, cc, ids, given, st) := fork_source pr child_cred thread st in
  let st := inherit_gets ids given st in
  let pid := ids !!! kind_index NS_PID in
  let time := ids !!! kind_index NS_TIME in
  let st := ns_get_locked NS_PID pid st in
  let st := ns_get_locked NS_TIME time st in
  let st := if time <>? 0 then upd_slot NS_TIME time slot_entered st else st in
  let cr := mkRow (r_used cr) (<[kind_index NS_USER := rid cr NS_USER]> ids) pid time (r_child cr) (child_valid cr) in
  let cr := set_used (negb (ns_row_trivial cr)) cr in
  let* p := (if pid <>? 0 then PidNs.pidns_enter_locked pid child_gid thread (pids st) else Ok (pids st)) in
  Ok (pr, cr, cc, set_pids p st).
Definition allocated (st : core) (id : Z) : bool := used (slot_of st NS_PID id).
(** The row cleared; then, outside the lock, the zaps. *)
Definition namespace_task_exit (r : ns_row) (gid : Z) (st : core) : res (ns_row * core) :=
  if negb (ns_any (user st)) then Ok (r, st)
  else
    let ns := if r_used r then rid r NS_PID else 0 in
    let st := if ns <>? 0 then set_pids (PidNs.pidns_task_exit_locked (allocated st) gid ns (pids st)) st else st in
    ns_row_clear_locked r st.
(** The section after [namespace_task_exit]. *)
Definition reap_numbers (gid : Z) (st : core) : res core :=
  if negb (ns_any (user st)) then Ok st
  else let* p := PidNs.pidns_task_reaped_locked (allocated st) gid (pids st) in Ok (set_pids p st).

(** ** Creating namespaces *)

(** [struct ns_set]: an id per kind, 0 for none. *)
Definition set_refs (set : list Z) : list (ns_kind * Z) := (fun k => (k, set !!! kind_index k)) <$> kinds.
Definition ns_set_release (set : list Z) (st : core) : res core := puts (set_refs set) st.

(** The sections of [ns_build].  First the user namespace, if asked for. *)
Definition build_user (flags : Z) (c : option cred) (st : core) : Z * list Z * core :=
  match c with
  | None => (- EPERM, zeros, st)
  | Some _ =>
      if flags &? CLONE_NEWUSER then
        let '(rc, u) := userns_create (user st) c in
        if rc <? 0 then (rc, zeros, set_user u st) else (0, <[kind_index NS_USER := rc]> zeros, set_user u st)
      else (0, zeros, st)
  end.
Definition build_owner (set : list Z) (c : option cred) : Z :=
  if (set !!! kind_index NS_USER) <>? 0 then set !!! kind_index NS_USER else cred_userns c.
(** What a new namespace starts with. *)
Definition build_init (k : ns_kind) (id cur_uts cur_pid cur_time_children : Z) (st : core) : core :=
  match k with
  | NS_UTS => set_uts (zalter (fun _ => zget (uts_data st) (if ns_live_locked NS_UTS cur_uts st then cur_uts else 0)) id (uts_data st)) st
  | NS_PID => ns_get_locked NS_PID cur_pid (set_pids (PidNs.pidns_init_locked id cur_pid (pids st)) st)
  | NS_TIME => set_time (zalter (fun _ => zget (time_data st) cur_time_children) id (time_data st)) st
  | _ => st
  end.
Fixpoint build_loop (ks : list ns_kind) (flags own cur_uts cur_pid cur_time_children : Z) (set : list Z) (st : core) : Z * list Z * core :=
  match ks with
  | [] => (0, set, st)
  | k :: ks =>
      if bool_decide (k = NS_USER) || negb (flags &? namespace_kind_flag k) then build_loop ks flags own cur_uts cur_pid cur_time_children set st
      else
        let '(id, st) := ns_alloc_locked k own st in
        if id =? 0 then (- ENOSPC, set, st)
        else build_loop ks flags own cur_uts cur_pid cur_time_children (<[kind_index k := id]> set) (build_init k id cur_uts cur_pid cur_time_children st)
  end.
(** Then the others, under one lock; [r] is the caller's row.  On an error the
    caller releases the set. *)
Definition build_others (flags own : Z) (r : option ns_row) (set : list Z) (st0 : core) : Z * list Z * core :=
  let st := ns_ensure_init_locked st0 in
  let r := match r with Some r => if r_used r then r else row_zero | None => row_zero end in
  let cur_pid := rid r NS_PID in
  if (flags &? CLONE_NEWPID) && (pid_children r <>? cur_pid) then (- EINVAL, set, st)
  else if (flags &? CLONE_NEWPID) && (PidNs.NS_MAX_LEVEL <=? PidNs.pidns_level_locked (pids st) cur_pid + 1) then (- ENOSPC, set, st)
  else build_loop kinds flags own (rid r NS_UTS) cur_pid (time_children r) set st.
(** Then the root of a cgroup namespace. *)
Definition build_cgroup (set : list Z) (root : option Z) (st : core) : core :=
  let id := set !!! kind_index NS_CGROUP in
  if id <>? 0 then set_roots (zalter (fun _ => root) id (cgroup_roots st)) st else st.

Definition ns_may_create (st : core) (flags : Z) (c : option cred) : bool :=
  if negb (flags &? Z.land CLONE_NS_ALL (Z.lnot CLONE_NEWUSER)) then true
  else if flags &? CLONE_NEWUSER then true
  else ns_capable_cred (user st) c (cred_userns c) CAP_SYS_ADMIN.

(** Before the sections: an error, nothing to do, or the namespaces to build. *)
Definition fork_prepare_begin (st : core) (flags : Z) (c : option cred) : Z + option Z :=
  let want := Z.land flags CLONE_NS_ALL in
  if (flags &? Z.lor CLONE_NEWNS CLONE_NEWUSER) && (flags &? LX_CLONE_FS) then inl (- EINVAL)
  else if (flags &? Z.lor CLONE_NEWUSER CLONE_NEWPID) && (flags &? Z.lor LX_CLONE_THREAD LX_CLONE_PARENT) then inl (- EINVAL)
  else if want =? 0 then inr None
  else if negb (ns_may_create st want c) then inl (- EPERM)
  else inr (Some want).
(** The last section of [namespace_fork_prepare]. *)
Definition fork_prepare_commit (set : list Z) (r : ns_row) (st : core) : res (ns_row * core) :=
  let* st := (if child_valid r then puts (row_prepared r) st else Ok st) in
  Ok (set_used true (set_child (u16 <$> set) true r), st).
Definition namespace_fork_prepare_abort (r : ns_row) (st : core) : res (ns_row * core) :=
  if negb (ns_any (user st)) then Ok (r, st)
  else if child_valid r then
    let* st := puts (row_prepared r) st in
    let r := set_child zeros false r in
    Ok (if ns_row_trivial r then set_used false r else r, st)
  else Ok (r, st).
Definition namespace_fork_allowed (r : option ns_row) (st : core) : Z :=
  if negb (ns_any (user st)) then 0
  else
    let target := match r with
                  | Some r => if r_used r then (if child_valid r && (rchild r NS_PID <>? 0) then rchild r NS_PID else pid_children r) else 0
                  | None => 0 end in
    if (target <>? 0) && PidNs.pidns_dying_locked (pids st) target then - ENOMEM else 0.

Definition unshare_allowed : Z :=
  fold_left Z.lor [LX_CLONE_THREAD; LX_CLONE_FS; LX_CLONE_SIGHAND; LX_CLONE_VM; LX_CLONE_FILES; LX_CLONE_SYSVSEM] CLONE_NS_ALL.
Definition unshare_begin (st : core) (flags0 : Z) (c : option cred) (threads : Z) : Z + option Z :=
  if flags0 &? Z.lnot unshare_allowed then inl (- EINVAL)
  else
    let flags := if flags0 &? CLONE_NEWUSER then Z.lor flags0 (Z.lor LX_CLONE_THREAD LX_CLONE_FS) else flags0 in
    let flags := if flags &? CLONE_NEWNS then Z.lor flags LX_CLONE_FS else flags in
    if (flags &? Z.lor (Z.lor LX_CLONE_THREAD LX_CLONE_SIGHAND) LX_CLONE_VM) && (1 <? threads) then inl (- EINVAL)
    else
      let want := Z.land flags CLONE_NS_ALL in
      if want =? 0 then inr None else if negb (ns_may_create st want c) then inl (- EPERM) else inr (Some want).
Fixpoint unshare_loop (ks : list ns_kind) (want : Z) (set : list Z) (r : ns_row) (c : cred) (st : core) : res (ns_row * cred * core) :=
  match ks with
  | [] => Ok (r, c, st)
  | k :: ks =>
      let id := set !!! kind_index k in
      if negb (want &? namespace_kind_flag k) then unshare_loop ks want set r c st
      else match k with
           | NS_USER => let* st := put_user (user_ns c) st in unshare_loop ks want set r (enter_caps id c) st
           | NS_PID => let* st := put NS_PID (pid_children r) st in unshare_loop ks want set (set_pid_children (u16 id) r) c st
           | NS_TIME => let* st := put NS_TIME (time_children r) st in unshare_loop ks want set (set_time_children (u16 id) r) c st
           | _ => let* st := put k (rid r k) st in unshare_loop ks want set (set_rid k (u16 id) r) c st
           end
  end.
(** The last section of [namespace_unshare]. *)
Definition unshare_commit (want : Z) (set : list Z) (r : ns_row) (c : cred) (st : core) : res (ns_row * cred * core) :=
  let r := if r_used r then r else set_used true row_zero in
  unshare_loop kinds want set r c st.

(** ** setns *)

Definition ns_install_check_locked (k : ns_kind) (id : Z) (c : option cred) (r : ns_row) (threads : Z) (st : core) : Z :=
  if negb (ns_live_locked k id st) then - EINVAL
  else
    let mine := cred_userns c in
    let own := match k with NS_USER => id | _ => if id <>? 0 then owner (slot_of st k id) else 0 end in
    let cap ns what := ns_capable_cred (user st) c ns what in
    match k with
    | NS_USER => if id =? mine then - EINVAL else if 1 <? threads then - EINVAL else if negb (cap id CAP_SYS_ADMIN) then - EPERM else 0
    | NS_MNT => if negb (cap own CAP_SYS_ADMIN) || negb (cap mine CAP_SYS_CHROOT) || negb (cap mine CAP_SYS_ADMIN) then - EPERM else 0
    | NS_PID =>
        let active := if r_used r then rid r NS_PID else 0 in
        if negb (cap own CAP_SYS_ADMIN) || negb (cap mine CAP_SYS_ADMIN) then - EPERM
        else if negb (PidNs.pidns_is_ancestor_locked (pids st) active id) then - EINVAL else 0
    | NS_TIME =>
        if 1 <? threads then - EUSERS
        else if negb (cap own CAP_SYS_ADMIN) || negb (cap mine CAP_SYS_ADMIN) then - EPERM else 0
    | _ => if negb (cap own CAP_SYS_ADMIN) || negb (cap mine CAP_SYS_ADMIN) then - EPERM else 0
    end.
Definition ns_install_locked (k : ns_kind) (id : Z) (r0 : ns_row) (c : cred) (st : core) : res (ns_row * cred * core) :=
  let r := if r_used r0 then r0 else set_used true row_zero in
  let* '(r, c, st) :=
    match k with
    | NS_USER => let* st := put_user (user_ns c) (ns_get_locked NS_USER id st) in Ok (r, enter_caps id c, st)
    | NS_PID => let* st := put NS_PID (pid_children r) (ns_get_locked NS_PID id st) in Ok (set_pid_children (u16 id) r, c, st)
    | NS_TIME =>
        let st := ns_get_locked NS_TIME id (ns_get_locked NS_TIME id st) in
        let* st := put NS_TIME (time_children r) st in
        let* st := put NS_TIME (rid r NS_TIME) st in
        Ok (set_rid NS_TIME (u16 id) (set_time_children (u16 id) r), c, if id <>? 0 then upd_slot NS_TIME id slot_entered st else st)
    | _ => let* st := put k (rid r k) (ns_get_locked k id st) in Ok (set_rid k (u16 id) r, c, st)
    end in
  Ok (if ns_row_trivial r then set_used false r else r, c, st).
Fixpoint check_all (ks : list ns_kind) (want : ns_kind -> bool) (targets : ns_kind -> Z) (c : option cred) (r : ns_row) (threads : Z) (st : core) : Z :=
  match ks with
  | [] => 0
  | k :: ks =>
      if bool_decide (k = NS_USER) || negb (want k) then check_all ks want targets c r threads st
      else let rc := ns_install_check_locked k (targets k) c r threads st in
           if rc <>? 0 then rc else check_all ks want targets c r threads st
  end.
Fixpoint install_all (ks : list ns_kind) (want : ns_kind -> bool) (targets : ns_kind -> Z) (r : ns_row) (c : cred) (st : core) : res (ns_row * cred * core) :=
  match ks with
  | [] => Ok (r, c, st)
  | k :: ks =>
      if bool_decide (k = NS_USER) || negb (want k) then install_all ks want targets r c st
      else let* '(r, c, st) := ns_install_locked k (targets k) r c st in install_all ks want targets r c st
  end.
(** The locked section of [namespace_setns]; [want] and [targets] come from the
    handle, which is closed by then. *)
Definition setns_locked (by_pidfd : bool) (want : ns_kind -> bool) (targets : ns_kind -> Z) (threads : Z) (r : ns_row) (c : cred) (st0 : core)
    : res (Z * ns_row * cred * core) :=
  let st := ns_ensure_init_locked st0 in
  let enter := want NS_USER && negb ((targets NS_USER =? user_ns c) && by_pidfd) in
  let* '(rc, r, c, st) :=
    if enter then
      let rc := ns_install_check_locked NS_USER (targets NS_USER) (Some c) r threads st in
      if rc =? 0 then let* '(r, c, st) := ns_install_locked NS_USER (targets NS_USER) r c st in Ok (rc, r, c, st) else Ok (rc, r, c, st)
    else Ok (0, r, c, st) in
  let rc := if rc =? 0 then check_all kinds want targets (Some c) r threads st else rc in
  if rc =? 0 then let* '(r, c, st) := install_all kinds want targets r c st in Ok (rc, r, c, st) else Ok (rc, r, c, st).

(** ** nsfs *)

Definition NSFS_PIN_VALID := 2147483648.
Definition nsfs_pin (k : ns_kind) (id : Z) : Z := Z.lor (Z.lor NSFS_PIN_VALID (Z.shiftl (Z.of_nat (kind_index k)) 24)) id.
(** The kind as the integer the pin carries. *)
Definition nsfs_node_ns (pin : Z) : option (Z * Z) :=
  if pin &? NSFS_PIN_VALID then Some (Z.land (Z.shiftr pin 24) 127, Z.land pin 16777215) else None.
(** The node's pin, with its reference on the namespace, or an error. *)
Definition nsfs_node (k : ns_kind) (id : Z) (node_ok : bool) (st : core) : res ((Z + Z) * core) :=
  let '(rc, st) := namespace_get k id st in
  if rc <>? 0 then Ok (inl (- ENOENT), st)
  else if negb node_ok then let* st := namespace_put k id st in Ok (inl (- ENOMEM), st)
  else Ok (inr (nsfs_pin k id), st).
Definition NS_GET_USERNS := 46849.
Definition NS_GET_PARENT := 46850.
(** The namespace these two requests lead to, or an error. *)
Definition nsfs_target (request : Z) (k : ns_kind) (id : Z) (c : option cred) (active : Z) (st : core) : Z + (ns_kind * Z) :=
  let mine := cred_userns c in
  if request =? NS_GET_USERNS then
    if bool_decide (k = NS_USER) && (id =? 0) then inl (- EPERM)
    else
      let target := match k with NS_USER => userns_parent_locked (user st) id | _ => if id <>? 0 then owner (slot_of st k id) else 0 end in
      if negb (userns_is_ancestor (user st) mine target) then inl (- EPERM) else inr (NS_USER, target)
  else
    match k with
    | NS_USER =>
        if id =? 0 then inl (- EPERM)
        else let target := userns_parent_locked (user st) id in
             if negb (userns_is_ancestor (user st) mine target) then inl (- EPERM) else inr (NS_USER, target)
    | NS_PID =>
        if id =? 0 then inl (- EPERM)
        else let target := PidNs.pidns_parent_locked (pids st) id in
             if negb (PidNs.pidns_is_ancestor_locked (pids st) active target) then inl (- EPERM) else inr (NS_PID, target)
    | _ => inl (- EINVAL)
    end.

(** ** UTS and time *)

(** [id] is the caller's namespace. *)
Definition uts_current (id : Z) (st0 : core) : Z * core :=
  let st := ns_ensure_init_locked st0 in (if ns_live_locked NS_UTS id st then id else 0, st).
Definition namespace_uts_get_host (len id : Z) (st : core) : list Z * core :=
  let '(id, st) := uts_current id st in (ns_copy_name len (Some (fst (zget (uts_data st) id))), st).
Definition namespace_uts_set_host (name : option (list Z)) (id : Z) (st : core) : Z * core :=
  match name with
  | None => (- EFAULT, st)
  | Some n => let '(id, st) := uts_current id st in (0, set_uts (zalter (fun '(_, d) => (ns_copy_name NS_NAME_MAX (Some n), d)) id (uts_data st)) st)
  end.
Definition namespace_uts_get_domain (len id : Z) (st : core) : list Z * core :=
  let '(id, st) := uts_current id st in (ns_copy_name len (Some (snd (zget (uts_data st) id))), st).
Definition namespace_uts_set_domain (name : option (list Z)) (id : Z) (st : core) : Z * core :=
  match name with
  | None => (- EFAULT, st)
  | Some n => let '(id, st) := uts_current id st in (0, set_uts (zalter (fun '(h, _) => (h, ns_copy_name NS_NAME_MAX (Some n))) id (uts_data st)) st)
  end.

Definition TIMENS_CLOCK_MONOTONIC := 1.
Definition TIMENS_CLOCK_BOOTTIME := 7.
(** [id] is the caller's time namespace. *)
Definition namespace_time_offset (id clock : Z) (st : core) : Z :=
  if id =? 0 then 0
  else if clock =? TIMENS_CLOCK_MONOTONIC then fst (zget (time_data st) id)
  else if clock =? TIMENS_CLOCK_BOOTTIME then snd (zget (time_data st) id) else 0.
Definition namespace_clock_offset (id clockid : Z) (st : core) : Z :=
  if (clockid =? 1) || (clockid =? 4) || (clockid =? 6) then namespace_time_offset id TIMENS_CLOCK_MONOTONIC st
  else if (clockid =? 7) || (clockid =? 9) then namespace_time_offset id TIMENS_CLOCK_BOOTTIME st else 0.

Definition CH_MINUS := 45.
Fixpoint c_string (l : list Z) : list Z := match l with c :: l => if c =? 0 then [] else c :: c_string l | [] => [] end.
Fixpoint skip_spaces (l : list Z) : list Z := match l with c :: l' => if c =? CH_SPACE then skip_spaces l' else l | [] => [] end.
(** An error code, or the value and the rest of the line; overflow of the
    signed accumulator is a [Fault]. *)
Fixpoint offset_digits (l : list Z) (x : Z) : res (Z + Z * list Z) :=
  match l with
  | c :: l' => if is_digit c then
                 if 922337203685477580 <? x then Ok (inl (- ERANGE))
                 else let x := x * 10 + (c - CH_0) in if i64 x <>? x then Fault else offset_digits l' x
               else Ok (inr (x, l))
  | [] => Ok (inr (x, []))
  end.
Definition offset_value (l : list Z) : res (Z + Z * list Z) :=
  let l := skip_spaces l in
  let '(neg, l) := match l with c :: l' => if c =? CH_MINUS then (true, l') else (false, l) | [] => (false, []) end in
  match l with
  | c :: _ => if is_digit c then
                let* r := offset_digits l 0 in Ok (match r with inl e => inl e | inr (x, l) => inr (if neg then - x else x, l) end)
              else Ok (inl (- EINVAL))
  | [] => Ok (inl (- EINVAL))
  end.
(** "monotonic", "boottime" *)
Definition monotonic_name : list Z := [109; 111; 110; 111; 116; 111; 110; 105; 99].
Definition boottime_name : list Z := [98; 111; 111; 116; 116; 105; 109; 101].
Fixpoint until_space (l : list Z) : list Z := match l with c :: l => if c =? CH_SPACE then [] else c :: until_space l | [] => [] end.
(** One line that is not empty: the clock (is it the monotonic one) and its offset. *)
Definition offset_line (line : list Z) : res (Z + bool * Z) :=
  let line := c_string line in
  let name := take 15 (until_space line) in
  let p := drop (length name) line in
  let mono := bool_decide (name = monotonic_name) || bool_decide (name = [49]) in
  if negb mono && negb (bool_decide (name = boottime_name) || bool_decide (name = [55])) then Ok (inl (- EINVAL))
  else
    let* r := offset_value p in
    match r with
    | inl e => Ok (inl e)
    | inr (sec, p) =>
        let* r := offset_value p in
        match r with
        | inl e => Ok (inl e)
        | inr (nsec, p) =>
            match skip_spaces p with
            | _ :: _ => Ok (inl (- EINVAL))
            | [] => if (nsec <? 0) || (1000000000 <=? nsec) then Ok (inl (- EINVAL))
                    else let off := sec * 1000000000 + nsec in
                         if (i64 (sec * 1000000000) <>? sec * 1000000000) || (i64 off <>? off) then Fault else Ok (inr (mono, off))
            end
        end
    end.
Definition LINE_MAX := 95.
(** The last offset of each clock; a round takes a line with its newline. *)
Fixpoint offset_lines (fuel : nat) (text : list Z) (mono boot : option Z) : res (Z + option Z * option Z) :=
  match text, fuel with
  | [], _ => Ok (inr (mono, boot))
  | _, O => Fault
  | _, S fuel =>
      let line := take_line text in
      if LINE_MAX <? Z.of_nat (length line) then Ok (inl (- EINVAL))
      else match line with
           | [] => offset_lines fuel (after_line text) mono boot
           | _ => let* r := offset_line line in
                  match r with
                  | inl e => Ok (inl e)
                  | inr (true, off) => offset_lines fuel (after_line text) (Some off) boot
                  | inr (false, off) => offset_lines fuel (after_line text) mono (Some off)
                  end
           end
  end.
(** [id] is the time namespace of the target's children. *)
Definition namespace_time_offsets_write (id : Z) (c : option cred) (text : list Z) (st : core) : res (Z * core) :=
  if id =? 0 then Ok (- EACCES, st)
  else if negb (ns_capable_cred (user st) c (namespace_owner NS_TIME id st) CAP_SYS_TIME) then Ok (- EPERM, st)
  else
    let* r := offset_lines (length text) text None None in
    match r with
    | inl e => Ok (e, st)
    | inr (mono, boot) =>
        if negb (ns_live_locked NS_TIME id st) then Ok (- EINVAL, st)
        else if entered (slot_of st NS_TIME id) then Ok (- EACCES, st)
        else Ok (i32 (Z.of_nat (length text)),
                 set_time (zalter (fun '(m, b) => (default m mono, default b boot)) id (time_data st)) st)
    end.
End Namespace.
