(* ===== verification/NamespaceInv.v ===== *)
(** Reference counts of namespaces of all kinds: a count is the number of
    references there are, and taking, dropping and allocating keep it so. *)
From Stdlib Require Import ZifyBool.
From S2P Require Import Prelude Cred UserNs UserNsProofs PidNs PidNsProofs Namespace.
From stdpp Require Import list.
Local Open Scope Z_scope.
Local Open Scope kernel_scope.

Module NamespaceInv.
Import Cred UserNs UserNsProofs Namespace.

(** Evaluates comparisons of constant kinds. *)
Ltac decide_kinds := repeat match goal with
  | |- context [bool_decide (@eq ns_kind ?a ?b)] => let b' := eval vm_compute in (bool_decide (a = b)) in change (bool_decide (a = b)) with b'
  | |- context [bool_decide (@elem_of ns_kind _ _ ?a ?l)] => let b' := eval vm_compute in (bool_decide (a ∈ l)) in change (bool_decide (a ∈ l)) with b'
  end.

(** ** Counting references *)

Abbreviation ref := (ns_kind * Z)%type.
Definition hcount (p : ref) (held : list ref) : Z := Z.of_nat (count_if (fun q => bool_decide (q = p)) held).
Lemma hcount_cons p q held : hcount p (q :: held) = hcount p held + if bool_decide (q = p) then 1 else 0.
Proof. unfold hcount. rewrite count_if_cons. destruct (bool_decide (q = p)); lia. Qed.
Lemma hcount_app p l l' : hcount p (l ++ l') = hcount p l + hcount p l'.
Proof. unfold hcount. rewrite count_if_app. lia. Qed.
Lemma hcount_nonneg p l : 0 <= hcount p l.
Proof. unfold hcount. lia. Qed.
Lemma hcount_le p l : hcount p l <= Z.of_nat (length l).
Proof. unfold hcount, count_if. pose proof (List.filter_length_le (fun q => bool_decide (q = p)) l). lia. Qed.
Lemma hcount_perm p l l' : l ≡ₚ l' -> hcount p l = hcount p l'.
Proof. intros P. unfold hcount. f_equal. induction P; rewrite ?count_if_cons; lia. Qed.
Lemma hcount_pos p l : 0 < hcount p l <-> p ∈ l.
Proof.
  induction l as [|q l IH]; [split; [done|intros H; by apply elem_of_nil in H]|]. rewrite hcount_cons, elem_of_cons, <- IH. pose proof (hcount_nonneg p l).
  case_bool_decide as E; [subst; split; [by left|lia]|]. split; [right; lia|intros [?|?]; [congruence|lia]].
Qed.
Definition others : list ns_kind := [NS_UTS; NS_MNT; NS_PID; NS_NET; NS_IPC; NS_CGROUP; NS_TIME].
Lemma in_others k : k <> NS_USER -> k ∈ others.
Proof. intros H. unfold others. rewrite !elem_of_cons. destruct k; tauto. Qed.
Definition owns (o : Z) (x : ns_slot) : bool := used x && (owner x =? o).
Definition owned (st : core) (o : Z) : Z := foldr Z.add 0 ((fun k => Z.of_nat (count_if (owns o) (table k st))) <$> others).
Definition kids (st : core) (id : Z) : Z :=
  Z.of_nat (count_if (fun j => allocated st j && (PidNs.pd_parent (PidNs.pd (pids st) j) =? id)) (ids_from_1 NS_PID)).

(** ** Slots *)

Lemma kind_index_lt k : (kind_index k < 8)%nat.
Proof. destruct k; cbn; lia. Qed.
Lemma kind_index_inj k k' : kind_index k = kind_index k' -> k = k'.
Proof. by destruct k, k'. Qed.
Lemma table_upd st k k' id f : length (tables st) = 8%nat ->
  table k' (upd_slot k id f st) = if bool_decide (k' = k) then zalter f id (table k st) else table k' st.
Proof.
  intros L. unfold table, upd_slot. cbn [tables set_tables]. case_bool_decide as E.
  - subst k'. rewrite !list_lookup_total_alt, list_lookup_alter, decide_True by done.
    destruct (lookup_lt_is_Some_2 (tables st) (kind_index k)) as [x ->]; [rewrite L; apply kind_index_lt|done].
  - rewrite !list_lookup_total_alt, list_lookup_alter_ne; [done|]. intros H. by apply kind_index_inj in H.
Qed.
(** The shape of the tables. *)
Record shape (st : core) : Prop := {
  s_len : length (tables st) = 8%nat;
  s_tab : forall k, k <> NS_USER -> length (table k st) = Z.to_nat (ns_max k) }.
Lemma ns_max_pos k : 0 < ns_max k <= 128.
Proof. by destruct k. Qed.
Lemma shape_upd st k id f : shape st -> shape (upd_slot k id f st).
Proof.
  intros [L T]. constructor; [cbn; by rewrite length_alter|]. intros k' N. rewrite table_upd by done.
  case_bool_decide; [subst; rewrite length_zalter|]; by apply T.
Qed.
Lemma slot_upd st k id f k' id' : shape st -> k <> NS_USER -> 0 <= id < ns_max k -> 0 <= id' ->
  slot_of (upd_slot k id f st) k' id' = if bool_decide (k' = k) && (id' =? id) then f (slot_of st k id) else slot_of st k' id'.
Proof.
  intros [L T] N Hi Hj. destruct (decide (k' = NS_USER)) as [->|N']; [rewrite bool_decide_eq_false_2 by congruence; done|].
  assert (S : forall s, slot_of s k' id' = zget (table k' s) id') by (by destruct k'). rewrite !S, table_upd by done.
  case_bool_decide as E; [subst k'|done]. cbn [andb].
  assert (slot_of st k id = zget (table k st) id) as -> by (by destruct k). by rewrite (PidNsProofs.zget_zalter _ _ _ _ (ns_max k)) by (done || by apply T).
Qed.
Lemma owned_upd st k id f o : shape st -> k <> NS_USER -> 0 <= id < ns_max k -> let x := slot_of st k id in
  owned (upd_slot k id f st) o = owned st o + (if owns o (f x) then 1 else 0) - (if owns o x then 1 else 0).
Proof.
  intros SH N Hi x.
  assert (C : Z.of_nat (count_if (owns o) (zalter f id (table k st))) = Z.of_nat (count_if (owns o) (table k st)) + (if owns o (f x) then 1 else 0) - (if owns o x then 1 else 0)).
  { assert (slot_of st k id = zget (table k st) id) as E by (by destruct k). fold x in E.
    pose proof (count_if_zalter (owns o) f id (table k st)) as C. rewrite (s_tab _ SH k N) in C. specialize (C ltac:(lia)). rewrite <- E in C.
    destruct (owns o x), (owns o (f x)); lia. }
  unfold owned, others. cbn [fmap list_fmap foldr]. rewrite !(table_upd st k) by apply SH.
  destruct k; try done; decide_kinds; cbv match; rewrite C; lia.
Qed.

(** ** The invariant *)

Definition refs_of (st : core) (held : list ref) (k : ns_kind) (id : Z) : Z := hcount (k, id) held + if bool_decide (k = NS_PID) then kids st id else 0.
(** A namespace in use with [n] references, one the reaper has to finish ([d]:
    it is at it), a free slot. *)
Definition slot_good (d : bool) (k : ns_kind) (x : ns_slot) (n : Z) : Prop :=
  if used x then 0 <= owner x < ns_max NS_USER /\
    (zombie x = 0 /\ d = false /\ refs x = n /\ 0 < n < U32_MOD \/ ns_kind_deferred k = true /\ refs x = 0 /\ n = 0 /\ zombie x = if d then 2 else 1)
  else n = 0 /\ d = false.
Definition slot_ok (dead : list ref) (st : core) (held : list ref) (k : ns_kind) (id : Z) : Prop :=
  slot_good (bool_decide ((k, id) ∈ dead)) k (slot_of st k id) (refs_of st held k id).
(** [held] are the references of rows, sets, nodes and credentials, [dead] what
    the reaper is tearing down. *)
Record cinv (dead : list ref) (st : core) (held : list ref) : Prop := {
  c_shape : shape st;
  c_root : forall k, k <> NS_USER -> used (slot_of st k 0) = true /\ zombie (slot_of st k 0) = 0 /\ owner (slot_of st k 0) = 0;
  c_user : ns_inv (user st) (fun id => hcount (NS_USER, id) held + owned st id);
  c_slot : forall k id, k <> NS_USER -> 0 < id < ns_max k -> slot_ok dead st held k id;
  c_range : forall k id, (k, id) ∈ held -> 0 <= id < ns_max k;
  c_pid : PidNsProofs.pid_inv (allocated st) (pids st) }.
Section Refs.
Context {dead : list ref}.
Lemma owned_nonneg st o : 0 <= owned st o.
Proof. unfold owned, others. cbn. lia. Qed.
Lemma kids_nonneg st id : 0 <= kids st id.
Proof. unfold kids. lia. Qed.
Lemma ns_inv_ext s h h' : ns_inv s h -> (forall id, id <> 0 -> h' id = h id) -> (forall id, 0 <= h' id) -> ns_inv s h'.
Proof.
  intros [H1 H2 H3 H4 H5 H6 H7 H8 H9 H10] E P. constructor; try done.
  - intros id T N L. rewrite E by done. by apply H7.
  - intros id T L. rewrite E; [by apply H8|]. intros ->. by destruct H4.
Qed.
Lemma ns_inv_meta s h n a : ns_inv s h -> ns_inv (mkNs (userns s) (userns_ready s) (slots s) (ns_ready s) n a) h.
Proof. intros [H1 H2 H3 H4 H5 H6 H7 H8 H9 H10]. by constructor. Qed.
Lemma cinv_perm st l l' : l ≡ₚ l' -> cinv dead st l -> cinv dead st l'.
Proof.
  intros P [S R U Sl Rg Pd]. constructor; [done|done| | | |done].
  - eapply ns_inv_ext; [exact U|intros id _; cbn; by rewrite (hcount_perm _ _ _ P)|]. intros id. pose proof (hcount_nonneg (NS_USER, id) l'). pose proof (owned_nonneg st id). lia.
  - intros k id N Hi. specialize (Sl k id N Hi). unfold slot_ok, refs_of in *. by rewrite <- (hcount_perm _ _ _ P).
  - intros k id H. apply Rg. by rewrite P.
Qed.
#[global] Instance cinv_proper st : Proper ((≡ₚ) ==> iff) (cinv dead st).
Proof. intros l l' P. split; apply cinv_perm; [done|by symmetry]. Qed.
(** References on initial namespaces are not counted. *)
Lemma cinv_zero st k held : cinv dead st ((k, 0) :: held) <-> cinv dead st held.
Proof.
  assert (E : forall k' id, id <> 0 -> hcount (k', id) ((k, 0) :: held) = hcount (k', id) held).
  { intros k' id N. rewrite hcount_cons, bool_decide_eq_false_2 by congruence. lia. }
  split; intros [S R U Sl Rg Pd]; constructor; try done.
  - eapply ns_inv_ext; [exact U|intros id N; cbn; by rewrite E|]. intros id. pose proof (hcount_nonneg (NS_USER, id) held). pose proof (owned_nonneg st id). lia.
  - intros k' id N Hi. specialize (Sl k' id N Hi). unfold slot_ok, refs_of in *. by rewrite E in Sl by lia.
  - intros k' id H. apply Rg. by right.
  - eapply ns_inv_ext; [exact U|intros id N; cbn; by rewrite E|]. intros id. pose proof (hcount_nonneg (NS_USER, id) ((k, 0) :: held)). pose proof (owned_nonneg st id). lia.
  - intros k' id N Hi. specialize (Sl k' id N Hi). unfold slot_ok, refs_of in *. by rewrite E by lia.
  - intros k' id [[= -> ->]|H]%elem_of_cons; [pose proof (ns_max_pos k); lia|by apply Rg].
Qed.
(** A reference held is on a namespace in use. *)
Lemma ns_held_used st held k id : cinv dead st held -> (k, id) ∈ held -> k <> NS_USER -> id <> 0 ->
  0 < id < ns_max k /\ used (slot_of st k id) = true /\ zombie (slot_of st k id) = 0 /\ refs (slot_of st k id) = refs_of st held k id /\
  0 < refs_of st held k id < U32_MOD /\ 0 <= owner (slot_of st k id) < ns_max NS_USER /\ bool_decide ((k, id) ∈ dead) = false.
Proof.
  intros I H N N0. pose proof (c_range _ _ _ I k id H) as Hr. assert (0 < id < ns_max k) as Hi by lia. pose proof (c_slot _ _ _ I k id N Hi) as S.
  apply hcount_pos in H. pose proof (kids_nonneg st id). unfold slot_ok, slot_good in S.
  assert (0 < refs_of st held k id) as P by (unfold refs_of; destruct (bool_decide (k = NS_PID)); lia).
  destruct (used (slot_of st k id)); [|destruct S; lia]. destruct S as [O [(Z1 & Z2 & Z3 & Z4)|(_ & _ & Z4 & _)]]; [done|lia].
Qed.

Lemma pid_inv_alloc a a' p : (forall i, 0 <= i < ns_max NS_PID -> a' i = a i) -> PidNsProofs.pid_inv a p -> PidNsProofs.pid_inv a' p.
Proof.
  intros E [TB [A1 A2 A3 A4] [B1 B2 B3] RG]. cbn [ns_max] in E. unfold PidNs.NS_MAX_PID in *. constructor; [done| | |done].
  - constructor; [done|by rewrite E by lia| |].
    + intros id Hid A. rewrite E in A by (unfold PidNs.NS_MAX_PID in *; lia). destruct (A3 id Hid A) as (P1 & P2 & P3). cbv zeta. rewrite E; [done|unfold PidNs.NS_MAX_PID in *; lia].
    + intros id Hid A. rewrite E in A by (unfold PidNs.NS_MAX_PID in *; lia). by apply A4.
  - constructor; [|done|done]. intros ns g v i H. destruct (B1 ns g v i H) as (H1 & H2 & H3). rewrite E; [done|unfold PidNs.NS_MAX_PID in *; lia].
Qed.
(** What the invariant does not look at. *)
Lemma slot_of_tables st st' k id : user st' = user st -> tables st' = tables st -> slot_of st' k id = slot_of st k id.
Proof. intros U T. unfold slot_of, table. by rewrite U, T. Qed.
Lemma kids_same st st' id : (forall j, 0 < j < ns_max NS_PID -> allocated st' j = allocated st j) ->
  (forall j, 0 < j < ns_max NS_PID -> allocated st j = true -> PidNs.pd_parent (PidNs.pd (pids st') j) = PidNs.pd_parent (PidNs.pd (pids st) j)) ->
  kids st' id = kids st id.
Proof.
  intros A P. unfold kids. f_equal. unfold count_if. f_equal. apply filter_ext_in. intros j Hj%list_elem_of_In.
  apply list_elem_of_fmap in Hj as (n & -> & Hn%elem_of_seq). cbn [ns_max] in *. rewrite A by lia. destruct (allocated st (Z.of_nat n)) eqn:E; [|done].
  cbn [andb]. by rewrite P by (done || lia).
Qed.
Lemma cinv_irrel st st' held : user st' = user st -> tables st' = tables st -> pids st' = pids st -> cinv dead st held -> cinv dead st' held.
Proof.
  intros U T P [[L Tb] R Us Sl Rg Pd]. assert (S : forall k id, slot_of st' k id = slot_of st k id) by (intros k id; by apply slot_of_tables).
  assert (Tk : forall k, table k st' = table k st) by (intros k; unfold table; by rewrite T).
  assert (K : forall id, kids st' id = kids st id) by (intros id; apply kids_same; intros j _; [unfold allocated; by rewrite S|by rewrite P]).
  constructor.
  - constructor; [by rewrite T|intros k N; rewrite Tk; by apply Tb].
  - intros k N. rewrite S. by apply R.
  - rewrite U. eapply ns_inv_ext; [exact Us|intros id _; unfold owned, others; cbn [fmap list_fmap foldr]; by rewrite !Tk|].
    intros id. pose proof (hcount_nonneg (NS_USER, id) held). pose proof (owned_nonneg st' id). lia.
  - intros k id N Hi. specialize (Sl k id N Hi). unfold slot_ok, refs_of in *. by rewrite S, K.
  - done.
  - rewrite P. assert (E : forall i, allocated st' i = allocated st i) by (intros i; unfold allocated; by rewrite S).
    apply (pid_inv_alloc (allocated st)); [intros i _; apply E|done].
Qed.
(** One slot and what hangs on it changed. *)
Lemma cinv_change dead' st held k id f u' p' held' : let st' := set_user u' (set_pids p' (upd_slot k id f st)) in
  cinv dead st held -> k <> NS_USER -> 0 < id < ns_max k ->
  ns_inv u' (fun o => hcount (NS_USER, o) held' + owned (upd_slot k id f st) o) -> PidNsProofs.pid_inv (allocated st') p' -> slot_ok dead' st' held' k id ->
  (forall p, p <> (k, id) -> p ∈ dead' <-> p ∈ dead) ->
  (forall k' id', k' <> NS_USER -> 0 < id' < ns_max k' -> (k', id') <> (k, id) -> refs_of st' held' k' id' = refs_of st held k' id') ->
  (forall k' id', (k', id') ∈ held' -> 0 <= id' < ns_max k') -> cinv dead' st' held'.
Proof.
  intros st' I N Hi U P So Dd R Rg. pose proof (c_shape _ _ _ I) as SH.
  assert (S : forall k' id', k' <> NS_USER -> 0 <= id' -> slot_of st' k' id' = if bool_decide (k' = k) && (id' =? id) then f (slot_of st k id) else slot_of st k' id').
  { intros k' id' N' Hi'. rewrite <- slot_upd by (done || lia). by destruct k'. }
  constructor; [by apply (shape_upd st k id f) in SH as [H1 H2]; constructor| |exact U| |done|exact P].
  - intros k' N'. rewrite S by (done || lia). replace (0 =? id) with false by lia. rewrite andb_false_r. by apply (c_root _ _ _ I).
  - intros k' id' N' Hi'. destruct (decide ((k', id') = (k, id))) as [[= -> ->]|Ne]; [done|]. pose proof (c_slot _ _ _ I k' id' N' Hi') as So'.
    unfold slot_ok in *. rewrite (bool_decide_ext _ _ (Dd _ Ne)), R by done. rewrite S by (done || lia).
    replace (bool_decide (k' = k) && (id' =? id)) with false; [done|]. symmetry. apply andb_false_iff.
    destruct (decide (k' = k)) as [->|]; [right; apply Z.eqb_neq; congruence|left; by apply bool_decide_eq_false_2].
Qed.
Lemma hcount_other p q held : q <> p -> hcount p (q :: held) = hcount p held.
Proof. intros N. rewrite hcount_cons, bool_decide_eq_false_2 by done. lia. Qed.
Lemma hcount_same p held : hcount p (p :: held) = hcount p held + 1.
Proof. rewrite hcount_cons, bool_decide_eq_true_2 by done. lia. Qed.
(** Changes that keep slots in use. *)
Lemma allocated_upd st k id f i : shape st -> k <> NS_USER -> 0 <= id < ns_max k -> 0 <= i ->
  (k = NS_PID -> used (f (slot_of st k id)) = used (slot_of st k id)) -> allocated (upd_slot k id f st) i = allocated st i.
Proof.
  intros SH N Hi Hj H. unfold allocated. rewrite slot_upd by done. case_bool_decide as E; [|done]. cbn [andb].
  destruct (Z.eqb_spec i id) as [->|]; [|done]. rewrite H by done. by subst k.
Qed.

(** A slot still in use for the same owner. *)
Lemma cinv_slot dead' st held k id f held' : let x := slot_of st k id in
  cinv dead st held -> k <> NS_USER -> 0 < id < ns_max k -> used (f x) = used x -> owner (f x) = owner x -> slot_good (bool_decide ((k, id) ∈ dead')) k (f x) (refs_of st held' k id) ->
  (forall p, p <> (k, id) -> p ∈ dead' <-> p ∈ dead) ->
  (forall p, p <> (k, id) -> hcount p held' = hcount p held) -> cinv dead' (upd_slot k id f st) held'.
Proof.
  intros x I N Hi U O G Dd H. pose proof (c_shape _ _ _ I) as SH.
  assert (Al : forall i, 0 <= i -> allocated (upd_slot k id f st) i = allocated st i) by (intros i Hj; apply allocated_upd; [done|done|lia|done|done]).
  assert (K : forall j, kids (upd_slot k id f st) j = kids st j) by (intros j; apply kids_same; [intros i Hj; apply Al; lia|done]).
  apply (cinv_change dead' st held k id f (user st) (pids st) held'); [done|done|lia| | | |done| |].
  - eapply ns_inv_ext; [exact (c_user _ _ _ I)| |].
    + intros o _. cbv beta. rewrite H by congruence. rewrite owned_upd by (done || lia). fold x. unfold owns. rewrite U, O. lia.
    + intros o. pose proof (hcount_nonneg (NS_USER, o) held'). pose proof (owned_nonneg (upd_slot k id f st) o). lia.
  - apply (pid_inv_alloc (allocated st)); [intros i Hj; apply Al; lia|apply I].
  - unfold slot_ok, refs_of. change (set_user (user st) (set_pids (pids st) (upd_slot k id f st))) with (upd_slot k id f st).
    rewrite K, slot_upd by (done || lia). by rewrite (bool_decide_eq_true_2 (k = k)), Z.eqb_refl by done.
  - intros k' j N' Hj Ne. unfold refs_of. change (set_user (user st) (set_pids (pids st) (upd_slot k id f st))) with (upd_slot k id f st). by rewrite K, H.
  - intros k' j P. destruct (decide ((k', j) = (k, id))) as [[= -> ->]|Ne]; [lia|]. apply (c_range _ _ _ I), hcount_pos. rewrite <- H by done. by apply hcount_pos.
Qed.

(** ** Taking a reference *)

Definition alive (st : core) (k : ns_kind) (id : Z) : Prop :=
  0 <= id < ns_max k /\ (id <> 0 -> match k with NS_USER => live (user st) id | _ => used (slot_of st k id) = true /\ zombie (slot_of st k id) = 0 end).
(** There are far fewer references than a count can hold. *)
Definition room (held : list ref) : Prop := Z.of_nat (length held) + 1000 < U32_MOD.
Lemma held_alive st held k id : cinv dead st held -> (k, id) ∈ held -> alive st k id.
Proof.
  intros I H. split; [by apply (c_range _ _ _ I)|]. intros N0. destruct (decide (k = NS_USER)) as [->|N].
  - apply (held_live _ _ _ (c_user _ _ _ I)); [by apply (c_range _ _ _ I NS_USER)|]. apply hcount_pos in H. pose proof (owned_nonneg st id). lia.
  - destruct (ns_held_used st held k id I H N N0) as (_ & U & Z & _). by destruct k.
Qed.
Lemma live_alive st held k id : cinv dead st held -> 0 <= id -> ns_live_locked k id st = true -> alive st k id.
Proof.
  intros I Hi H. unfold ns_live_locked in H. destruct (Z.leb_spec (ns_max k) id); [done|]. split; [lia|]. intros N0.
  rewrite (proj2 (Z.eqb_neq id 0)) in H by done. destruct k; [..|unfold live, slot_of in *; lia| | |]; split; lia.
Qed.
Lemma kids_le st id : kids st id <= 63.
Proof. unfold kids. etrans; [apply count_le|]. unfold ids_from_1. rewrite length_fmap, length_seq. cbn. lia. Qed.
Lemma owned_le st o : shape st -> owned st o <= 432.
Proof.
  intros [_ T]. unfold owned, others. cbn [fmap list_fmap foldr].
  pose proof (count_le (owns o) (table NS_UTS st)) as H1. pose proof (count_le (owns o) (table NS_MNT st)) as H2. pose proof (count_le (owns o) (table NS_PID st)) as H3.
  pose proof (count_le (owns o) (table NS_NET st)) as H4. pose proof (count_le (owns o) (table NS_IPC st)) as H5. pose proof (count_le (owns o) (table NS_CGROUP st)) as H6.
  pose proof (count_le (owns o) (table NS_TIME st)) as H7. rewrite T in * by done. cbn [ns_max] in *. lia.
Qed.
(** User namespaces: one more or one less reference from outside. *)
Lemma cinv_user st held u held' : cinv dead st held -> ns_inv u (fun o => hcount (NS_USER, o) held' + owned st o) ->
  (forall k id, k <> NS_USER -> hcount (k, id) held' = hcount (k, id) held) -> (forall k id, (k, id) ∈ held' -> 0 <= id < ns_max k) -> cinv dead (set_user u st) held'.
Proof.
  intros [SH R U Sl Rg Pd] U' H Rg'. assert (S : forall k id, k <> NS_USER -> slot_of (set_user u st) k id = slot_of st k id) by (by intros []).
  assert (K : forall j, kids (set_user u st) j = kids st j) by (intros j; by apply kids_same).
  constructor; [by destruct SH| |done| |done|done].
  - intros k N. rewrite S by done. by apply R.
  - intros k id N Hi. specialize (Sl k id N Hi). unfold slot_ok, refs_of in *. rewrite S, H, K by done. exact Sl.
Qed.
Lemma user_refs_lt st held id : cinv dead st held -> room held -> in_table id -> live (user st) id -> id <> 0 -> refs (slot (user st) id) + 1 < U32_MOD.
Proof.
  intros I Rm T L N. destruct (inv_refs _ _ _ (c_user _ _ _ I) id T N L) as [E _]. rewrite E. unfold room in Rm.
  pose proof (hcount_le (NS_USER, id) held). pose proof (owned_le st id (c_shape _ _ _ I)). pose proof (count_le (fun x => used x && (owner x =? id)) (slots (user st))) as C.
  rewrite (inv_len_slots _ _ _ (c_user _ _ _ I)) in C. unfold nchildren. destruct (id =? 0); lia.
Qed.
Lemma get_user_ok st held id : cinv dead st held -> room held -> alive st NS_USER id -> cinv dead (ns_get_locked NS_USER id st) ((NS_USER, id) :: held).
Proof.
  intros I Rm [Hi L]. unfold ns_get_locked. destruct (Z.eqb_spec id 0) as [->|N]; [by apply cinv_zero|]. rewrite (proj2 (Z.leb_gt _ _)) by lia. cbn [orb].
  destruct (get_preserves _ _ id (c_user _ _ _ I) Hi (L N)) as [G _]; [by apply (user_refs_lt st held id); [| | |apply L|]|].
  apply (cinv_user st held); [done| | |].
  - eapply ns_inv_ext; [exact G| |].
    + intros o _. unfold held_add. cbn. rewrite hcount_cons. destruct (Z.eqb_spec o id) as [->|Ne]; [rewrite bool_decide_eq_true_2 by done; lia|].
      rewrite bool_decide_eq_false_2 by congruence. lia.
    + intros o. pose proof (hcount_nonneg (NS_USER, o) ((NS_USER, id) :: held)). pose proof (owned_nonneg st o). lia.
  - intros k o Nk. apply hcount_other. congruence.
  - intros k o [[= -> ->]|H]%elem_of_cons; [done|by apply (c_range _ _ _ I)].
Qed.
Lemma ns_get_ok st held k id : cinv dead st held -> room held -> alive st k id -> cinv dead (ns_get_locked k id st) ((k, id) :: held).
Proof.
  intros I Rm A. destruct (decide (k = NS_USER)) as [->|N]; [by apply get_user_ok|]. pose proof A as [Hi L]. unfold ns_get_locked.
  destruct (Z.eqb_spec id 0) as [->|N0]; [by apply cinv_zero|]. rewrite (proj2 (Z.leb_gt _ _)) by lia. cbn [orb].
  assert (UZ : used (slot_of st k id) = true /\ zombie (slot_of st k id) = 0) by (specialize (L N0); by destruct k). destruct UZ as [U Z0].
  pose proof (c_slot _ _ _ I k id N ltac:(lia)) as So. unfold slot_ok, slot_good in So. rewrite U in So. destruct So as [O [(_ & Dd & Rf & Rp)|(_ & _ & _ & Zd)]]; [|rewrite Z0 in Zd; by case_match].
  pose proof (hcount_le (k, id) held) as HL. pose proof (kids_le st id) as KL. unfold room in Rm.
  assert (Rl : refs_of st held k id + 1 < U32_MOD) by (unfold refs_of; destruct (bool_decide (k = NS_PID)); lia).
  replace (match k with NS_USER => _ | _ => _ end) with (upd_slot k id (fun x => slot_refs (u32 (refs x + 1)) x) st) by (by destruct k).
  apply (cinv_slot dead st held); [done|done|lia|done|done| |done|intros p Np; by apply hcount_other].
  unfold slot_good, refs_of in *. cbn [used slot_refs owner zombie refs]. rewrite U, hcount_same. split; [done|left]. rewrite u32_small by lia. split_and!; [done|done|lia|lia|lia].
Qed.

(** ** Dropping a reference *)

Lemma user_put_ok st held id : cinv dead st ((NS_USER, id) :: held) -> exists u, UserNs.ns_put_locked put_fuel (user st) id = PutOk u /\ cinv dead (set_user u st) held.
Proof.
  intros I. pose proof (c_range _ _ _ I NS_USER id ltac:(left)) as Hi.
  destruct (put_by_holder _ _ id (c_user _ _ _ I) Hi) as (u & E & Iu & _).
  { rewrite hcount_same. pose proof (hcount_nonneg (NS_USER, id) held). pose proof (owned_nonneg st id). lia. }
  exists u. split; [by rewrite <- namespace_put_eq|]. apply (cinv_user st ((NS_USER, id) :: held)); [done| | |].
  - eapply ns_inv_ext; [exact Iu| |].
    + intros o _. unfold held_add. cbv beta. rewrite hcount_cons. destruct (Z.eqb_spec o id) as [->|Ne]; [rewrite bool_decide_eq_true_2 by done; lia|].
      rewrite bool_decide_eq_false_2 by congruence. lia.
    + intros o. pose proof (hcount_nonneg (NS_USER, o) held). pose proof (owned_nonneg st o). lia.
  - intros k o Nk. symmetry. apply hcount_other. congruence.
  - intros k o H. apply (c_range _ _ _ I). by right.
Qed.
Lemma put_user_ok st held id : cinv dead st ((NS_USER, id) :: held) -> exists st', put_user id st = Ok st' /\ cinv dead st' held.
Proof. intros I. destruct (user_put_ok st held id I) as (u & E & I'). exists (set_user u st). split; [|done]. unfold put_user. by rewrite E. Qed.
(** A slot of a kind without a tree goes. *)
Lemma cinv_free dead' st held k id f held' : let x := slot_of st k id in
  cinv dead st held -> k <> NS_USER -> k <> NS_PID -> 0 < id < ns_max k -> used x = true -> used (f x) = false -> hcount (k, id) held' = 0 ->
  (k, id) ∉ dead' -> (forall p, p <> (k, id) -> p ∈ dead' <-> p ∈ dead) ->
  (forall p, p <> (k, id) -> hcount p held' = hcount p held) -> cinv dead' (upd_slot k id f st) ((NS_USER, owner x) :: held').
Proof.
  intros x I N NP Hi U U' Z Nd Dd H. pose proof (c_shape _ _ _ I) as SH.
  assert (Al : forall i, 0 <= i -> allocated (upd_slot k id f st) i = allocated st i) by (intros i Hj; apply allocated_upd; [done|done|lia|done|done]).
  assert (K : forall j, kids (upd_slot k id f st) j = kids st j) by (intros j; apply kids_same; [intros i Hj; apply Al; lia|done]).
  assert (Ow : 0 <= owner x < ns_max NS_USER) by (pose proof (c_slot _ _ _ I k id N Hi) as S; unfold slot_ok, slot_good in S; fold x in S; rewrite U in S; apply S).
  apply (cinv_change dead' st held k id f (user st) (pids st)); [done|done|lia| | | |done| |].
  - eapply ns_inv_ext; [exact (c_user _ _ _ I)| |].
    + intros o _. cbv beta. rewrite hcount_cons, H by congruence. rewrite owned_upd by (done || lia). fold x. unfold owns. rewrite U, U'. cbn [andb].
      destruct (Z.eqb_spec (owner x) o) as [->|Ne]; [rewrite bool_decide_eq_true_2 by done; lia|]. rewrite bool_decide_eq_false_2 by congruence. lia.
    + intros o. pose proof (hcount_nonneg (NS_USER, o) ((NS_USER, owner x) :: held')). pose proof (owned_nonneg (upd_slot k id f st) o). lia.
  - apply (pid_inv_alloc (allocated st)); [intros i Hj; apply Al; lia|apply I].
  - unfold slot_ok, refs_of. change (set_user (user st) (set_pids (pids st) (upd_slot k id f st))) with (upd_slot k id f st).
    rewrite slot_upd, (bool_decide_eq_true_2 (k = k)), Z.eqb_refl, hcount_other by (done || lia || congruence). fold x. unfold slot_good. cbn [andb]. rewrite U', Z, (bool_decide_eq_false_2 (_ ∈ dead')) by done.
    by rewrite bool_decide_eq_false_2.
  - intros k' j N' Hj Ne. unfold refs_of. change (set_user (user st) (set_pids (pids st) (upd_slot k id f st))) with (upd_slot k id f st).
    by rewrite K, hcount_other, H by congruence.
  - intros k' j [[= -> ->]|P]%elem_of_cons; [done|]. destruct (decide ((k', j) = (k, id))) as [[= -> ->]|Ne]; [lia|].
    apply (c_range _ _ _ I), hcount_pos. rewrite <- H by done. by apply hcount_pos.
Qed.
Lemma count_flip {A} (p q : A -> bool) l x : NoDup l -> x ∈ l -> (forall y, y ∈ l -> y <> x -> p y = q y) -> p x = true -> q x = false ->
  count_if p l = S (count_if q l).
Proof.
  intros ND Hx E P Q. induction l as [|y l IH]; [by apply elem_of_nil in Hx|]. apply NoDup_cons in ND as [Ny ND]. rewrite !count_if_cons.
  apply elem_of_cons in Hx as [->|Hx].
  - rewrite P, Q. enough (count_if p l = count_if q l) by lia. unfold count_if. f_equal. apply filter_ext_in. intros z Hz%list_elem_of_In.
    apply E; [by right|]. by intros ->.
  - rewrite IH; [|done|done|intros z Hz; apply E; by right]. rewrite E; [lia|left|]. by intros ->.
Qed.
Lemma pid_ids_in j : j ∈ ids_from_1 NS_PID <-> 0 < j < ns_max NS_PID.
Proof.
  unfold ids_from_1. rewrite list_elem_of_fmap. split; [intros (n & -> & Hn%elem_of_seq); cbn [ns_max] in *; lia|].
  intros H. exists (Z.to_nat j). split; [lia|]. apply elem_of_seq. cbn [ns_max] in *. lia.
Qed.
Lemma pid_ids_nodup : NoDup (ids_from_1 NS_PID).
Proof. apply NoDup_fmap_2; [apply _|apply NoDup_seq]. Qed.
(** One PID namespace more in [st] than in [st']. *)
Lemma kids_flip st st' p id : 0 < p < ns_max NS_PID -> (forall j, 0 <= j -> j <> p -> allocated st' j = allocated st j) ->
  (forall j, 0 <= j -> j <> p -> PidNs.pd (pids st') j = PidNs.pd (pids st) j) -> allocated st p = true -> allocated st' p = false ->
  kids st id = kids st' id + if PidNs.pd_parent (PidNs.pd (pids st) p) =? id then 1 else 0.
Proof.
  intros Hp A P T F. unfold kids.
  assert (E : forall y, y ∈ ids_from_1 NS_PID -> y <> p -> allocated st y && (PidNs.pd_parent (PidNs.pd (pids st) y) =? id) = allocated st' y && (PidNs.pd_parent (PidNs.pd (pids st') y) =? id)).
  { intros y Hy%pid_ids_in Ny. by rewrite A, P by lia. }
  destruct (PidNs.pd_parent (PidNs.pd (pids st) p) =? id) eqn:Q.
  - rewrite (count_flip _ (fun j => allocated st' j && (PidNs.pd_parent (PidNs.pd (pids st') j) =? id)) _ p); [lia|apply pid_ids_nodup|by apply pid_ids_in|done| |].
    + by rewrite T, Q.
    + by rewrite F.
  - rewrite Z.add_0_r. f_equal. unfold count_if. f_equal. apply filter_ext_in. intros y Hy%list_elem_of_In.
    destruct (decide (y = p)) as [->|Ny]; [by rewrite T, F, Q|by apply E].
Qed.
Lemma count_pos {A} (p : A -> bool) l x : x ∈ l -> p x = true -> (0 < count_if p l)%nat.
Proof. intros (l1 & l2 & ->)%list_elem_of_split P. rewrite count_if_app, count_if_cons, P. lia. Qed.
Lemma kids_pos st p j : 0 < j < ns_max NS_PID -> allocated st j = true -> PidNs.pd_parent (PidNs.pd (pids st) j) = p -> 0 < kids st p.
Proof.
  intros Hj A E. unfold kids. apply (inj_lt 0), (count_pos _ _ j); [by apply pid_ids_in|]. rewrite A, E. apply Z.eqb_refl.
Qed.
Lemma kids_zero st p : kids st p = 0 -> forall j, 0 < j < ns_max NS_PID -> allocated st j = true -> PidNs.pd_parent (PidNs.pd (pids st) j) <> p.
Proof. intros Z j Hj A E. pose proof (kids_pos st p j Hj A E). generalize dependent (kids st p). lia. Qed.
Lemma kids_none st p : (forall j, 0 < j < ns_max NS_PID -> allocated st j = false) -> kids st p = 0.
Proof.
  intros H. unfold kids. rewrite count_if_zero; [done|]. intros j Hj. by rewrite H by (by apply pid_ids_in).
Qed.
#[local] Opaque kids.
Definition level_of (st : core) (id : Z) : Z := PidNs.pd_level (PidNs.pd (pids st) id).
(** A PID namespace goes; the reference it had on its parent is in flight. *)
Lemma cinv_pid_free st held p f : let x := slot_of st NS_PID p in let par := PidNs.pd_parent (PidNs.pd (pids st) p) in
  cinv dead st ((NS_PID, p) :: held) -> 0 < p < ns_max NS_PID -> used x = true -> refs_of st ((NS_PID, p) :: held) NS_PID p = 1 -> used (f x) = false ->
  exists s', PidNs.pidns_release_locked p (pids st) = Ok (par, s') /\
    cinv dead (set_pids s' (upd_slot NS_PID p f st)) ((NS_PID, par) :: (NS_USER, owner x) :: held) /\ level_of (set_pids s' (upd_slot NS_PID p f st)) par + 1 = level_of st p.
Proof.
  intros x par I Hp U R U'. pose proof (c_shape _ _ _ I) as SH. unfold refs_of in R. rewrite hcount_same, bool_decide_eq_true_2 in R by done.
  pose proof (hcount_nonneg (NS_PID, p) held). pose proof (kids_nonneg st p). assert (Hz : hcount (NS_PID, p) held = 0) by lia. assert (K0 : kids st p = 0) by lia.
  destruct (ns_held_used _ _ NS_PID p I ltac:(left) ltac:(done) ltac:(lia)) as (_ & _ & _ & _ & _ & Ow & Dd). fold x in Ow.
  destruct (PidNsProofs.n_tree _ _ (PidNsProofs.p_tree _ _ (c_pid _ _ _ I)) p Hp U) as (T1 & T2 & T3 & T4 & _). fold par in T1, T2, T3, T4.
  destruct (PidNsProofs.pid_release_inv _ _ p (c_pid _ _ _ I) Hp U (kids_zero st p K0)) as (s' & E & I' & D & _). fold par in E. exists s'. split; [done|].
  assert (Np : par <> p) by (intros Q; rewrite Q in T3; lia).
  assert (Al : forall i, 0 <= i -> allocated (upd_slot NS_PID p f st) i = PidNsProofs.set_alloc (allocated st) p false i).
  { intros i Hj. unfold allocated, PidNsProofs.set_alloc. rewrite slot_upd by (done || lia). cbn [andb]. rewrite bool_decide_eq_true_2 by done. destruct (Z.eqb_spec i p) as [->|]; [done|done]. }
  set (st' := set_pids s' (upd_slot NS_PID p f st)).
  assert (K : forall j, kids st j = kids st' j + if par =? j then 1 else 0).
  { intros j. apply kids_flip; [done| |done|done|].
    - intros i Hi Ni. etrans; [by apply Al|]. unfold PidNsProofs.set_alloc. by rewrite (proj2 (Z.eqb_neq i p)).
    - etrans; [apply Al; lia|]. unfold PidNsProofs.set_alloc. by rewrite Z.eqb_refl. }
  split.
  2:{ unfold level_of. change (pids st') with s'. rewrite D by lia. lia. }
  apply (cinv_change dead st ((NS_PID, p) :: held) NS_PID p f (user st) s'); [done|done|done| | | |done| |].
  - eapply ns_inv_ext; [exact (c_user _ _ _ I)| |].
    + intros o _. cbv beta. rewrite !hcount_cons, (bool_decide_eq_false_2 ((NS_PID, _) = _)), (bool_decide_eq_false_2 ((NS_PID, p) = _)) by congruence.
      rewrite owned_upd by (done || lia). fold x. unfold owns. rewrite U, U'. cbn [andb].
      destruct (Z.eqb_spec (owner x) o) as [->|Ne]; [rewrite bool_decide_eq_true_2 by done; lia|]. rewrite bool_decide_eq_false_2 by congruence. lia.
    + intros o. pose proof (hcount_nonneg (NS_USER, o) ((NS_PID, par) :: (NS_USER, owner x) :: held)). pose proof (owned_nonneg (upd_slot NS_PID p f st) o). lia.
  - eapply pid_inv_alloc; [|exact I']. intros i Hi. etrans; [apply Al; lia|done].
  - unfold slot_ok, refs_of. change (set_user (user st) (set_pids s' (upd_slot NS_PID p f st))) with st'.
    assert (slot_of st' NS_PID p = f x) as -> by (transitivity (slot_of (upd_slot NS_PID p f st) NS_PID p); [done|]; rewrite slot_upd by (done || lia); by rewrite bool_decide_eq_true_2, Z.eqb_refl).
    unfold slot_good. rewrite U', !hcount_other by congruence. rewrite Dd, (bool_decide_eq_true_2 (NS_PID = NS_PID)) by done. specialize (K p). rewrite (proj2 (Z.eqb_neq par p)) in K by done. split; [lia|done].
  - intros k' j N' Hj Ne. clear Dd. unfold refs_of. change (set_user (user st) (set_pids s' (upd_slot NS_PID p f st))) with st'. specialize (K j).
    rewrite (hcount_other (k', j) (NS_PID, p)) by congruence. rewrite hcount_cons, hcount_other by congruence. case_bool_decide as Q1; case_bool_decide as Q2; [|congruence| |lia].
    + injection Q1 as <- <-. rewrite Z.eqb_refl in K. lia.
    + subst k'. rewrite (proj2 (Z.eqb_neq par j)) in K by congruence. lia.
  - intros k' j [[= -> ->]|[[= -> ->]|P]%elem_of_cons]%elem_of_cons; [exact T1|done|]. apply (c_range _ _ _ I). by right.
Qed.

(** A PID namespace that goes keeps its slot while its parent is dropped: [D]
    are the slots on their way out. *)
Definition clean (D : list Z) (st : core) : core := foldr (fun d st => upd_slot NS_PID d (slot_used false) st) st D.
Lemma alter_comp {A} (f g h : A -> A) i (l : list A) : (forall x, f (g x) = h x) -> alter f i (alter g i l) = alter h i l.
Proof. intros E. rewrite alter_alter. apply list_alter_ext; [intros x _; apply E|done]. Qed.
Lemma alter_swap {A} (f g : A -> A) i j (l : list A) : i <> j -> alter f i (alter g j l) = alter g j (alter f i l).
Proof.
  revert i j. induction l as [|a l IH]; intros [|i] [|j] N; try done.
  change (a :: alter f i (alter g j l) = a :: alter g j (alter f i l)). f_equal. apply IH. congruence.
Qed.
Lemma upd_slot_upd st k id f g : upd_slot k id f (upd_slot k id g st) = upd_slot k id (fun x => f (g x)) st.
Proof. unfold upd_slot, set_tables. cbn. f_equal. apply alter_comp. intros l. apply alter_alter. Qed.
Lemma upd_slot_comm st k id id' f g : 0 <= id -> 0 <= id' -> id <> id' -> upd_slot k id f (upd_slot k id' g st) = upd_slot k id' g (upd_slot k id f st).
Proof.
  intros H1 H2 N. unfold upd_slot, set_tables. cbn. f_equal. rewrite !alter_alter. apply list_alter_ext; [|done]. intros l _. unfold zalter. apply alter_swap. lia.
Qed.
Lemma clean_upd D st p f : 0 <= p -> p ∉ D -> (forall d, d ∈ D -> 0 <= d) -> clean D (upd_slot NS_PID p f st) = upd_slot NS_PID p f (clean D st).
Proof.
  intros Hp. induction D as [|d D IH]; intros N R; [done|]. cbn [clean foldr]. apply not_elem_of_cons in N as [N1 N2].
  fold (clean D (upd_slot NS_PID p f st)) (clean D st). rewrite IH by (done || intros x Hx; apply R; by right).
  apply upd_slot_comm; [apply R; left|done|done].
Qed.
Lemma clean_user D st u : clean D (set_user u st) = set_user u (clean D st).
Proof. induction D as [|d D IH]; [done|]. cbn [clean foldr]. fold (clean D (set_user u st)). by rewrite IH. Qed.
Lemma clean_pids D st p : clean D (set_pids p st) = set_pids p (clean D st).
Proof. induction D as [|d D IH]; [done|]. cbn [clean foldr]. fold (clean D (set_pids p st)). by rewrite IH. Qed.
Lemma clean_same D st : user (clean D st) = user st /\ pids (clean D st) = pids st.
Proof. by induction D. Qed.
Lemma clean_slot D st p : shape (clean D st) -> 0 <= p -> (forall d, d ∈ D -> 0 <= d < ns_max NS_PID) -> used (slot_of (clean D st) NS_PID p) = true ->
  (p ∉ D) /\ slot_of (clean D st) NS_PID p = slot_of st NS_PID p.
Proof.
  intros SH Hp. induction D as [|d D IH]; intros R U; [split; [apply not_elem_of_nil|done]|]. cbn [clean foldr] in *. fold (clean D st) in *.
  assert (SH' : shape (clean D st)).
  { destruct SH as [L T]. cbn in L. rewrite length_alter in L. constructor; [done|]. intros k N. specialize (T k N). rewrite table_upd in T by done.
    case_bool_decide; [subst; by rewrite length_zalter in T|done]. }
  pose proof (R d ltac:(left)) as Rd. rewrite slot_upd in * by done. rewrite bool_decide_eq_true_2 in * by done. cbn [andb] in *.
  destruct (Z.eqb_spec p d) as [->|Ne]; [done|]. destruct (IH SH') as [H1 H2]; [intros x Hx; apply R; by right|done|]. split; [|done]. by apply not_elem_of_cons.
Qed.
Lemma level_nonneg st held id : cinv dead st held -> 0 <= id < ns_max NS_PID -> allocated st id = true -> 0 <= level_of st id < PidNs.NS_MAX_LEVEL.
Proof.
  intros I Hi A. pose proof (PidNsProofs.p_tree _ _ (c_pid _ _ _ I)) as [_ (_ & _ & R) T _]. unfold level_of. destruct (decide (id = 0)) as [->|N]; [rewrite R; done|].
  destruct (T id ltac:(cbn in *; unfold PidNs.NS_MAX_PID in *; lia) A) as (_ & _ & ? & ? & ?). lia.
Qed.
Lemma held_pid_used st held p : cinv dead st held -> (NS_PID, p) ∈ held -> allocated st p = true.
Proof.
  intros I H. destruct (decide (p = 0)) as [->|N]; [by destruct (c_root _ _ _ I NS_PID) as [? _]|]. by destruct (ns_held_used _ _ _ _ I H) as (_ & U & _).
Qed.
Lemma put_pid_ok fuel D st p held : cinv dead (clean D st) ((NS_PID, p) :: held) -> (forall d, d ∈ D -> 0 <= d < ns_max NS_PID) -> level_of st p < Z.of_nat fuel ->
  exists st', ns_put_locked fuel NS_PID p st = Ok st' /\ cinv dead (clean D st') held.
Proof.
  revert D st p held. induction fuel as [|fuel IH]; intros D st p held I R L.
  - pose proof (level_nonneg _ _ p I (c_range _ _ _ I NS_PID p ltac:(left)) (held_pid_used _ _ _ I ltac:(left))) as L'. unfold level_of in *.
    rewrite (proj2 (clean_same D st)) in L'. lia.
  - cbn [ns_put_locked]. destruct (Z.eqb_spec p 0) as [->|N0]; cbn [orb]; [exists st; by rewrite cinv_zero in I|].
    destruct (ns_held_used _ _ NS_PID p I ltac:(left) ltac:(done) N0) as (Hp & U & Zz & Rf & Rp & Ow & Dd). rewrite (proj2 (Z.leb_gt _ _)) by apply Hp.
    destruct (clean_slot D st p (c_shape _ _ _ I) ltac:(lia) R U) as [ND E]. pose proof (clean_same D st) as [Eu Ep].
    assert (RN : forall d, d ∈ D -> 0 <= d) by (intros d Hd; apply R in Hd; lia).
    rewrite <- E, U. cbn [negb orb]. rewrite (proj2 (Z.eqb_neq _ 0)) by lia. rewrite u32_small by lia. destruct (Z.eqb_spec (refs (slot_of (clean D st) NS_PID p) - 1) 0) as [E1|N1]; cbn [negb ns_kind_deferred].
    + destruct (cinv_pid_free (clean D st) held p (fun x => slot_used false (slot_refs 0 x)) I Hp U ltac:(lia) eq_refl) as (s' & Rl & I2 & L2).
      cbn [pids upd_slot set_tables]. rewrite <- Ep, Rl. cbn [rbind]. rewrite E1.
      set (st2 := set_pids s' (upd_slot NS_PID p (slot_refs 0) st)).
      assert (C : clean (p :: D) st2 = set_pids s' (upd_slot NS_PID p (fun x => slot_used false (slot_refs 0 x)) (clean D st))).
      { cbn [clean foldr]. fold (clean D st2). unfold st2. rewrite clean_pids, clean_upd by (done || lia). by rewrite <- (upd_slot_upd _ _ _ (slot_used false) (slot_refs 0)). }
      destruct (IH (p :: D) st2 (PidNs.pd_parent (PidNs.pd (pids (clean D st)) p)) ((NS_USER, owner (slot_of (clean D st) NS_PID p)) :: held)) as (st3 & P3 & I3).
      * by rewrite C.
      * intros d [->|Hd]%elem_of_cons; [lia|by apply R].
      * unfold level_of in *. cbn [pids set_pids] in L2. change (pids st2) with s'. rewrite Ep in *. lia.
      * rewrite P3. cbn [rbind]. destruct (user_put_ok _ _ _ I3) as (u & E4 & I4). rewrite (proj1 (clean_same _ _)) in E4.
        unfold put_user. cbn [user upd_slot set_tables]. rewrite E4. eexists. split; [done|]. rewrite clean_user, clean_upd by (done || lia). exact I4.
    + eexists. split; [done|]. rewrite clean_upd by (done || lia). apply (cinv_slot dead _ ((NS_PID, p) :: held)); [done|done|done|done|done| |done|].
      * unfold slot_good. cbn [used slot_refs owner zombie refs]. rewrite U. split; [done|]. left.
        unfold refs_of in *. rewrite hcount_same in Rf, Rp. split_and!; [done|done|lia|lia|lia].
      * intros q Nq. symmetry. by apply hcount_other.
Qed.
Lemma put_other_ok fuel st held k id : k <> NS_PID -> cinv dead st ((k, id) :: held) -> exists st', ns_put_locked (S fuel) k id st = Ok st' /\ cinv dead st' held.
Proof.
  intros NP I. pose proof (c_range _ _ _ I k id ltac:(left)) as Hi.
  cbn [ns_put_locked]. destruct (Z.eqb_spec id 0) as [->|N0]; cbn [orb]; [exists st; by rewrite cinv_zero in I|].
  rewrite (proj2 (Z.leb_gt _ _)) by lia. destruct (decide (k = NS_USER)) as [->|N]; [by apply put_user_ok|].
  destruct (ns_held_used _ _ k id I ltac:(left) N N0) as (Hp & U & Zz & Rf & Rp & O & Dd). set (x := slot_of st k id) in *.
  assert (Rk : refs_of st ((k, id) :: held) k id = hcount (k, id) held + 1) by (unfold refs_of; rewrite hcount_same, bool_decide_eq_false_2 by done; lia).
  assert (Rh : refs_of st held k id = hcount (k, id) held) by (unfold refs_of; rewrite bool_decide_eq_false_2 by done; lia).
  assert (Hq : forall q, q <> (k, id) -> hcount q held = hcount q ((k, id) :: held)) by (intros q Nq; symmetry; by apply hcount_other).
  set (G := exists st', _). assert (F : forall n, n = refs x - 1 -> (n <> 0 -> cinv dead (upd_slot k id (slot_refs n) st) held) /\
    (n = 0 -> ns_kind_deferred k = true -> cinv dead (upd_slot k id (slot_zombie 1) (upd_slot k id (slot_refs n) st)) held) /\
    (n = 0 -> cinv dead (upd_slot k id (slot_used false) (upd_slot k id (slot_refs n) st)) ((NS_USER, owner x) :: held))).
  { intros n En. split_and!; [intros N1|intros N1 Df|intros N1]; rewrite ?upd_slot_upd.
    - apply (cinv_slot dead st ((k, id) :: held)); [done..| |done|done]. fold x. unfold slot_good. cbn [used slot_refs owner zombie refs]. rewrite U, Rh. split; [done|]. left. split_and!; [done|done|lia..].
    - apply (cinv_slot dead st ((k, id) :: held)); [done..| |done|done]. fold x. unfold slot_good. cbn [used slot_refs slot_zombie owner zombie refs]. rewrite U, Rh, Dd. split; [done|]. right. split_and!; [done|lia..].
    - apply (cinv_free dead st ((k, id) :: held)); [done..|lia|by apply bool_decide_eq_false in Dd|done|done]. }
  specialize (F (refs x - 1) eq_refl) as (F1 & F2 & F3). subst G.
  destruct (Z.eqb_spec (refs x - 1) 0) as [E1|N1]; cbn [negb]; destruct k; try done; fold x; rewrite U; cbn [negb orb]; rewrite (proj2 (Z.eqb_neq (refs x) 0)) by lia;
    rewrite u32_small by lia; first [rewrite (proj2 (Z.eqb_eq _ _) E1)|rewrite (proj2 (Z.eqb_neq _ _) N1)]; cbn [negb ns_kind_deferred rbind];
    first [by (eexists; split; [done|by apply F1])|eexists; split; [done|eapply cinv_irrel; [..|by apply F2]; done]|idtac].
  - eapply put_user_ok, cinv_irrel; [..|by apply F3]; done.
  - eapply put_user_ok, cinv_irrel; [..|by apply F3]; done.
Qed.
Lemma ns_put_ok st held k id : cinv dead st ((k, id) :: held) -> exists st', put k id st = Ok st' /\ cinv dead st' held.
Proof.
  intros I. pose proof (c_range _ _ _ I k id ltac:(left)) as Hi. unfold put. destruct (decide (k = NS_PID)) as [->|NP]; [|exact (put_other_ok 39 st held k id NP I)].
  apply (put_pid_ok core_fuel [] st id held I); [by intros d Hd%elem_of_nil|].
  pose proof (level_nonneg _ _ id I Hi (held_pid_used _ _ _ I ltac:(left))). unfold core_fuel, PidNs.NS_MAX_LEVEL in *. lia.
Qed.
Lemma puts_ok l st held : cinv dead st (l ++ held) -> exists st', puts l st = Ok st' /\ cinv dead st' held.
Proof.
  revert st. induction l as [|[k id] l IH]; intros st I; [by exists st|]. cbn [puts]. destruct (ns_put_ok st (l ++ held) k id I) as (st1 & E & I1).
  destruct (IH st1 I1) as (st2 & E2 & I2). exists st2. rewrite E. done.
Qed.

(** ** New namespaces *)

Lemma ensure_ready st held : cinv dead st held -> Namespace.ns_ensure_init_locked st = st.
Proof. intros I. unfold Namespace.ns_ensure_init_locked. by rewrite (proj2 (inv_ready _ _ _ (c_user _ _ _ I))). Qed.
Definition new_slot (own n : Z) : ns_slot := mkSlot true 0 false 1 own n.
Lemma alloc_cases st held k own : cinv dead st held -> room held -> alive st NS_USER own -> k <> NS_USER ->
  ns_alloc_locked k own st = (0, st) \/ exists i n u, 0 < i < ns_max k /\ used (slot_of st k i) = false /\
    ns_alloc_locked k own st = (i, set_user u (upd_slot k i (fun _ => new_slot own n) st)) /\
    ns_inv u (fun o => hcount (NS_USER, o) held + owned st o + if o =? own then 1 else 0).
Proof.
  intros I Rm A N. unfold ns_alloc_locked. rewrite (ensure_ready _ _ I). destruct (first_index _ _) as [j|] eqn:F; [right|by left].
  pose proof (first_index_lt _ _ _ F) as Hl. rewrite length_drop, (s_tab _ (c_shape _ _ _ I) k N) in Hl.
  apply first_index_Some in F as (x & Hx & Hp & _). rewrite lookup_drop in Hx.
  assert (Us : used (slot_of st k (Z.of_nat (S j))) = false).
  { transitivity (used (zget (table k st) (Z.of_nat (S j)))); [by destruct k|]. unfold zget. rewrite Nat2Z.id, (list_lookup_total_correct _ _ _ Hx). by apply negb_true_iff. }
  set (u0 := user st). set (u1 := mkNs (userns u0) (userns_ready u0) (slots u0) (ns_ready u0) (u64 (ns_next_inum u0 + 1)) (ns_any u0)).
  assert (I1 : ns_inv u1 (fun o => hcount (NS_USER, o) held + owned st o)) by apply ns_inv_meta, I.
  set (i := Z.of_nat (S j)) in *. set (st1 := set_user u1 (upd_slot k i (fun _ => new_slot own (ns_next_inum u0)) st)).
  assert (exists u2, Namespace.ns_get_locked NS_USER own st1 = set_user u2 st1 /\ ns_inv u2 (fun o => hcount (NS_USER, o) held + owned st o + if o =? own then 1 else 0)) as (u2 & E2 & I2).
  { unfold Namespace.ns_get_locked. destruct A as [Ho L]. rewrite (proj2 (Z.leb_gt _ _)) by lia. destruct (Z.eqb_spec own 0) as [->|No]; cbn [orb].
    - exists u1. split; [done|]. eapply ns_inv_ext; [exact I1|intros o Ne; cbv beta; rewrite (proj2 (Z.eqb_neq o 0)) by done; lia|].
      intros o. pose proof (hcount_nonneg (NS_USER, o) held). pose proof (owned_nonneg st o). case_match; lia.
    - eexists. split; [done|]. eapply ns_inv_ext; [eapply (get_preserves u1 _ own I1 Ho (L No))| |].
      + apply (user_refs_lt st held own I Rm Ho (L No) No).
      + intros o _. unfold held_add. case_match; lia.
      + intros o. pose proof (hcount_nonneg (NS_USER, o) held). pose proof (owned_nonneg st o). case_match; lia. }
  exists i, (ns_next_inum u0), (mkNs (userns u2) (userns_ready u2) (slots u2) (ns_ready u2) (ns_next_inum u2) true).
  split_and!; [lia|lia|done| |by apply ns_inv_meta].
  cbv zeta. fold (new_slot own (ns_next_inum u0)). change (set_user u1 (upd_slot k i (fun _ => new_slot own (ns_next_inum u0)) st)) with st1. by rewrite E2.
Qed.
Lemma new_user st held k i own n u held' : shape st -> k <> NS_USER -> 0 < i < ns_max k -> used (slot_of st k i) = false ->
  ns_inv u (fun o => hcount (NS_USER, o) held + owned st o + if o =? own then 1 else 0) -> (forall o, hcount (NS_USER, o) held' = hcount (NS_USER, o) held) ->
  ns_inv u (fun o => hcount (NS_USER, o) held' + owned (upd_slot k i (fun _ => new_slot own n) st) o).
Proof.
  intros SH N Hi U I H. eapply ns_inv_ext; [exact I| |].
  - intros o _. cbv beta. rewrite H, owned_upd by (done || lia). unfold owns. rewrite U. cbn [andb new_slot used owner]. rewrite (Z.eqb_sym own o). case_match; lia.
  - intros o. pose proof (hcount_nonneg (NS_USER, o) held'). pose proof (owned_nonneg (upd_slot k i (fun _ => new_slot own n) st) o). lia.
Qed.
Lemma new_good k own n : 0 <= own < ns_max NS_USER -> slot_good false k (new_slot own n) 1.
Proof. intros O. unfold slot_good. cbn. split; [done|]. left. done. Qed.
Lemma free_refs st held k i : cinv dead st held -> k <> NS_USER -> 0 < i < ns_max k -> used (slot_of st k i) = false -> hcount (k, i) held = 0 /\ bool_decide ((k, i) ∈ dead) = false /\ (k = NS_PID -> kids st i = 0).
Proof.
  intros I N Hi U. pose proof (c_slot _ _ _ I k i N Hi) as S. unfold slot_ok, slot_good, refs_of in S. rewrite U in S. destruct S as [S Dd].
  pose proof (hcount_nonneg (k, i) held). pose proof (kids_nonneg st i). split_and!; [|done|]; clear Dd; case_bool_decide; intros; (done || lia).
Qed.
Lemma cinv_new st held k i own n u : cinv dead st held -> k <> NS_USER -> k <> NS_PID -> 0 < i < ns_max k -> used (slot_of st k i) = false ->
  0 <= own < ns_max NS_USER -> ns_inv u (fun o => hcount (NS_USER, o) held + owned st o + if o =? own then 1 else 0) ->
  cinv dead (set_user u (upd_slot k i (fun _ => new_slot own n) st)) ((k, i) :: held).
Proof.
  intros I N NP Hi U Ow Iu. pose proof (c_shape _ _ _ I) as SH. destruct (free_refs _ _ _ _ I N Hi U) as (H0 & Dd & _).
  set (f := fun _ : ns_slot => new_slot own n). set (st' := set_user u (upd_slot k i f st)).
  assert (S : forall k' j, k' <> NS_USER -> 0 <= j -> slot_of st' k' j = if bool_decide (k' = k) && (j =? i) then new_slot own n else slot_of st k' j).
  { intros k' j Nk Hj. transitivity (slot_of (upd_slot k i f st) k' j); [by destruct k'|]. by rewrite slot_upd by (done || lia). }
  assert (Al : forall j, 0 <= j -> allocated st' j = allocated st j).
  { intros j Hj. unfold allocated. rewrite S by done. by rewrite bool_decide_eq_false_2. }
  assert (K : forall j, kids st' j = kids st j) by (intros j; apply kids_same; [intros x Hx; apply Al; lia|done]).
  apply (cinv_change dead st held k i f u (pids st)); [done|done|done| | | |done| |].
  - apply (new_user _ held); [done..|]. intros o. apply hcount_other. congruence.
  - apply (pid_inv_alloc (allocated st)); [intros j Hj; apply Al; lia|apply I].
  - unfold slot_ok, refs_of. change (set_user u _) with st'. rewrite S, Dd, (bool_decide_eq_true_2 (k = k)), Z.eqb_refl by (done || lia). cbn [andb].
    rewrite hcount_same, H0, bool_decide_eq_false_2 by done. by apply new_good.
  - intros k' j Nk Hj Ne. unfold refs_of. change (set_user u _) with st'. by rewrite K, hcount_other by congruence.
  - intros k' j [[= -> ->]|P]%elem_of_cons; [lia|by apply (c_range _ _ _ I)].
Qed.
(** A PID namespace takes over a reference on its parent. *)
Lemma cinv_pid_new st held i cur own n u : cinv dead st ((NS_PID, cur) :: held) -> 0 < i < ns_max NS_PID -> used (slot_of st NS_PID i) = false ->
  0 <= own < ns_max NS_USER -> level_of st cur + 1 < PidNs.NS_MAX_LEVEL -> ns_inv u (fun o => hcount (NS_USER, o) held + owned st o + if o =? own then 1 else 0) ->
  cinv dead (set_user u (set_pids (PidNs.pidns_init_locked i cur (pids st)) (upd_slot NS_PID i (fun _ => new_slot own n) st))) ((NS_PID, i) :: held).
Proof.
  intros I Hi U Ow L Iu. pose proof (c_shape _ _ _ I) as SH. destruct (free_refs _ _ NS_PID i I ltac:(done) Hi U) as (H0 & Dd & K0). specialize (K0 eq_refl).
  pose proof (c_range _ _ _ I NS_PID cur ltac:(left)) as Hc. pose proof (held_pid_used _ _ cur I ltac:(left)) as Ac. rewrite hcount_cons in H0. pose proof (hcount_nonneg (NS_PID, i) held).
  assert (Nc : cur <> i) by (intros ->; unfold allocated in Ac; congruence).
  destruct (PidNsProofs.init_inv _ _ i cur (c_pid _ _ _ I) Hi U Hc Ac L) as (I' & _ & Pd & Pi). set (p' := PidNs.pidns_init_locked i cur (pids st)) in *.
  set (f := fun _ : ns_slot => new_slot own n). set (st' := set_user u (set_pids p' (upd_slot NS_PID i f st))).
  assert (S : forall j, 0 <= j -> slot_of st' NS_PID j = if j =? i then new_slot own n else slot_of st NS_PID j).
  { intros j Hj. transitivity (slot_of (upd_slot NS_PID i f st) NS_PID j); [done|]. rewrite slot_upd by (done || lia). by rewrite bool_decide_eq_true_2. }
  assert (Al : forall j, 0 <= j -> allocated st' j = PidNsProofs.set_alloc (allocated st) i true j).
  { intros j Hj. unfold allocated, PidNsProofs.set_alloc. rewrite S by done. by destruct (j =? i). }
  assert (K : forall j, kids st' j = kids st j + if cur =? j then 1 else 0).
  { intros j. rewrite (kids_flip st' st i j); [change (pids st') with p'; by rewrite Pi|done| | |rewrite Al by lia; unfold PidNsProofs.set_alloc; by rewrite Z.eqb_refl|done].
    - intros m Hm Nm. rewrite Al by done. unfold PidNsProofs.set_alloc. by rewrite (proj2 (Z.eqb_neq m i)).
    - intros m Hm Nm. symmetry. by apply Pd. }
  apply (cinv_change dead st ((NS_PID, cur) :: held) NS_PID i f u p'); [done|done|done| | | |done| |].
  - apply (new_user _ held); [done..|]. intros o. by apply hcount_other.
  - eapply pid_inv_alloc; [|exact I']. intros j Hj. etrans; [apply Al; lia|done].
  - unfold slot_ok, refs_of. change (set_user u _) with st'. rewrite S, Dd, Z.eqb_refl by lia. rewrite bool_decide_eq_true_2, hcount_same by done. rewrite K, K0, (proj2 (Z.eqb_neq cur i)) by done.
    replace (hcount (NS_PID, i) held) with 0 by (clear Dd; case_bool_decide; lia). by apply new_good.
  - intros k' j Nk Hj Ne. unfold refs_of. change (set_user u _) with st'. rewrite K, (hcount_other (k', j) (NS_PID, i)), hcount_cons by congruence.
    destruct (decide (k' = NS_PID)) as [->|Nk'].
    + rewrite bool_decide_eq_true_2 by done. destruct (Z.eqb_spec cur j) as [->|Ne']; [rewrite bool_decide_eq_true_2 by done; lia|]. rewrite bool_decide_eq_false_2 by congruence. lia.
    + rewrite !bool_decide_eq_false_2 by congruence. lia.
  - intros k' j [[= -> ->]|P]%elem_of_cons; [lia|]. apply (c_range _ _ _ I). by right.
Qed.
End Refs.
End NamespaceInv.
