(* ===== verification/NamespaceProofs.v ===== *)
(** Namespaces of all kinds over every sequence of forks, exits, unshares,
    setns calls, open namespace files and runs of the reaper. *)
From Stdlib Require Import ZifyBool.
From S2P Require Import Prelude Cred UserNs UserNsProofs PidNs PidNsProofs Namespace NamespaceInv.
From stdpp Require Import list.
Local Open Scope Z_scope.
Local Open Scope kernel_scope.

Module NamespaceProofs.
Import Cred UserNs UserNsProofs Namespace NamespaceInv.

(** ** References by kind *)

Definition refs_list (f : ns_kind -> Z) (ks : list ns_kind) : list ref := (fun k => (k, f k)) <$> ks.
Lemma hcount_refs f ks k id : NoDup ks -> hcount (k, id) (refs_list f ks) = Z.b2z (bool_decide (k ∈ ks) && (f k =? id)).
Proof.
  unfold refs_list. induction ks as [|k' ks IH]; intros ND; [by rewrite bool_decide_eq_false_2 by apply not_elem_of_nil|]. apply NoDup_cons in ND as [Ni ND].
  rewrite fmap_cons, hcount_cons, IH by done. destruct (decide (k = k')) as [->|Ne].
  - rewrite (bool_decide_eq_false_2 (k' ∈ ks)), (bool_decide_eq_true_2 (k' ∈ _ :: _)) by (done || left). cbn [andb].
    destruct (Z.eqb_spec (f k') id) as [->|N]; [by rewrite bool_decide_eq_true_2|by rewrite bool_decide_eq_false_2 by congruence].
  - rewrite (bool_decide_eq_false_2 ((k', f k') = (k, id))) by congruence. rewrite (bool_decide_ext (k ∈ k' :: ks) (k ∈ ks)); [lia|].
    rewrite elem_of_cons. tauto.
Qed.
Lemma kinds_nodup : NoDup kinds.
Proof. by apply (bool_decide_unpack _). Qed.
Lemma in_kinds k : k ∈ kinds.
Proof. apply (bool_decide_unpack _). by destruct k. Qed.
Lemma hcount_set set k id : hcount (k, id) (set_refs set) = Z.b2z (set !!! kind_index k =? id).
Proof. change (set_refs set) with (refs_list (fun k => set !!! kind_index k) kinds). rewrite hcount_refs by apply kinds_nodup. by rewrite bool_decide_eq_true_2 by apply in_kinds. Qed.
Lemma hcount_ids r k id : hcount (k, id) (row_ids r) = Z.b2z (negb (bool_decide (k = NS_USER)) && (rid r k =? id)).
Proof.
  change (row_ids r) with (refs_list (rid r) others). rewrite hcount_refs by (by apply (bool_decide_unpack _)). f_equal. f_equal. by destruct k.
Qed.
(** Only what is counted matters. *)
Lemma cinv_counts dead st l l' : cinv dead st l -> (forall k id, id <> 0 -> hcount (k, id) l' = hcount (k, id) l) -> cinv dead st l'.
Proof.
  intros [S R U Sl Rg Pd] H. constructor; [done|done| | | |done].
  - eapply ns_inv_ext; [exact U|intros id N; cbv beta; by rewrite H|]. intros id. pose proof (hcount_nonneg (NS_USER, id) l'). pose proof (owned_nonneg st id). lia.
  - intros k id N Hi. specialize (Sl k id N Hi). unfold slot_ok, refs_of in *. by rewrite H by lia.
  - intros k id P. destruct (decide (id = 0)) as [->|N]; [pose proof (ns_max_pos k); lia|]. apply Rg, hcount_pos. rewrite <- H by done. by apply hcount_pos.
Qed.
Lemma cinv_pids dead st held p : cinv dead st held -> PidNsProofs.pid_inv (allocated st) p ->
  (forall j, 0 < j < ns_max NS_PID -> PidNs.pd_parent (PidNs.pd p j) = PidNs.pd_parent (PidNs.pd (pids st) j)) -> cinv dead (set_pids p st) held.
Proof.
  intros [[S1 S2] R U Sl Rg Pd] I P. assert (S : forall k id, slot_of (set_pids p st) k id = slot_of st k id) by (by intros []).
  assert (K : forall j, kids (set_pids p st) j = kids st j) by (intros j; apply kids_same; [done|intros x Hx _; by apply P]).
  constructor; [done|intros k N; rewrite S; by apply R|done| |done|done].
  intros k id N Hi. specialize (Sl k id N Hi). unfold slot_ok, refs_of in *. by rewrite S, K.
Qed.
Lemma parent_upd f n s m : (forall d, PidNs.pd_parent (f d) = PidNs.pd_parent d) -> PidNs.pd_parent (PidNs.pd (PidNs.upd_pd f n s) m) = PidNs.pd_parent (PidNs.pd s m).
Proof.
  intros F. unfold PidNs.pd, PidNs.upd_pd, zget, zalter. cbn. rewrite !list_lookup_total_alt, list_lookup_alter. case_decide as E; [|done]. rewrite E.
  destruct (_ !! _); cbn; [apply F|done].
Qed.
Lemma exit_parent alloc g ns s m : PidNs.pd_parent (PidNs.pd (PidNs.pidns_task_exit_locked alloc g ns s) m) = PidNs.pd_parent (PidNs.pd s m).
Proof.
  unfold PidNs.pidns_task_exit_locked. destruct ((ns =? 0) || (PidNs.NS_MAX_PID <=? ns)); [done|]. cbv zeta. destruct (negb (PidNs.has_reaper _) || _ || _); [done|].
  assert (F : forall l s0, PidNs.pd_parent (PidNs.pd (fold_left (fun s i => if alloc i && PidNs.pidns_is_ancestor_locked s ns i then PidNs.upd_pd PidNs.set_dying i s else s) l s0) m)
    = PidNs.pd_parent (PidNs.pd s0 m)).
  { induction l as [|i l IH]; intros s0; [done|]. cbn [fold_left]. rewrite IH. destruct (alloc i && _); [by apply parent_upd|done]. }
  pose proof (F (Z.of_nat <$> seq 1 (Z.to_nat PidNs.NS_MAX_PID - 1)) (PidNs.upd_pd PidNs.set_gone ns s)) as Fs. rewrite parent_upd in Fs by done. revert Fs.
  generalize (fold_left (fun s i => if alloc i && PidNs.pidns_is_ancestor_locked s ns i then PidNs.upd_pd PidNs.set_dying i s else s)
    (Z.of_nat <$> seq 1 (Z.to_nat PidNs.NS_MAX_PID - 1)) (PidNs.upd_pd PidNs.set_gone ns s)).
  intros s2 E. by destruct (Z.of_nat (length (PidNs.zap_pending s2)) <? PidNs.PIDNS_ZAP_MAX).
Qed.

(** ** Rows *)

Definition cred_refs (c : option cred) : list ref := match c with Some c => [(NS_USER, user_ns c)] | None => [] end.
Definition prepared (r : ns_row) : list ref := if child_valid r then row_prepared r else [].
(** The references a row has. *)
Definition row_refs (r : ns_row) : list ref := if r_used r then row_ids r ++ row_kids r ++ prepared r else [].
Record row_wf (r : ns_row) : Prop := {
  w_id : length (r_id r) = 8%nat; w_child : length (r_child r) = 8%nat;
  w_free : r_used r = false -> ns_row_trivial r = true;
  w_user : rid r NS_USER = 0 }.
Lemma zero_row_wf : row_wf row_zero.
Proof. by constructor. Qed.
Lemma trivial_spec r : ns_row_trivial r = true <-> (forall k, rid r k = 0) /\ pid_children r = 0 /\ time_children r = 0 /\ child_valid r = false.
Proof.
  unfold ns_row_trivial. rewrite !andb_true_iff, forallb_forall, !Z.eqb_eq, negb_true_iff. split; [|intros (H & ? & ? & ?)].
  - intros (((H & ?) & ?) & ?). split_and!; [|done..]. intros k. apply Z.eqb_eq, H, list_elem_of_In, in_kinds.
  - split_and!; [|done..]. intros k _. by rewrite H.
Qed.
(** The same of a row in use; where a row is trivial it does not matter whether it is used. *)
Definition all_refs (r : ns_row) : list ref := row_ids r ++ row_kids r ++ prepared r.
Lemma hcount_ref k id k' x l : hcount (k, id) ((k', x) :: l) = hcount (k, id) l + Z.b2z (bool_decide (k = k') && (x =? id)).
Proof.
  rewrite hcount_cons. destruct (decide (k = k')) as [->|N]; [|by rewrite !bool_decide_eq_false_2 by congruence]. rewrite (bool_decide_eq_true_2 (k' = k')) by done. cbn [andb].
  destruct (Z.eqb_spec x id) as [->|N]; [by rewrite bool_decide_eq_true_2|by rewrite bool_decide_eq_false_2 by congruence].
Qed.
Lemma hcount_kids r k id : hcount (k, id) (row_kids r) =
  Z.b2z (bool_decide (k = NS_TIME) && (time_children r =? id)) + Z.b2z (bool_decide (k = NS_PID) && (pid_children r =? id)).
Proof. unfold row_kids. rewrite !hcount_ref. done. Qed.
Lemma hcount_prepared r k id : hcount (k, id) (prepared r) = Z.b2z (child_valid r && (rchild r k =? id)).
Proof. unfold prepared. destruct (child_valid r); [apply (hcount_set (r_child r))|done]. Qed.
Lemma row_refs_all r k id : row_wf r -> id <> 0 -> hcount (k, id) (row_refs r) = hcount (k, id) (all_refs r).
Proof.
  intros W N. unfold row_refs. destruct (r_used r) eqn:U; [done|]. apply (w_free _ W), trivial_spec in U as (H & H1 & H2 & H3). change (hcount (k, id) []) with 0.
  unfold all_refs. rewrite !hcount_app, hcount_ids, hcount_kids, hcount_prepared, H, H1, H2, H3. rewrite (proj2 (Z.eqb_neq 0 id)) by done. by rewrite !andb_false_r.
Qed.
Lemma cinv_all dead st r held : row_wf r -> cinv dead st (row_refs r ++ held) <-> cinv dead st (all_refs r ++ held).
Proof. intros W. split; intros I; (eapply cinv_counts; [exact I|]); intros k id N; rewrite !hcount_app, row_refs_all by done; done. Qed.
Lemma row_clear_ok dead st r held : cinv dead st (row_refs r ++ held) -> row_wf r ->
  exists r' st', ns_row_clear_locked r st = Ok (r', st') /\ cinv dead st' held /\ row_wf r' /\ row_refs r' = [] /\ ns_row_trivial r' = true.
Proof.
  intros I W. unfold ns_row_clear_locked, row_refs in *. destruct (r_used r) eqn:U; cbn [negb].
  - unfold prepared in I. rewrite <- !app_assoc in I. destruct (puts_ok _ _ _ I) as (s1 & -> & I1). destruct (puts_ok _ _ _ I1) as (s2 & E2 & I2). cbn [rbind]. rewrite E2. cbn [rbind].
    destruct (child_valid r) eqn:V.
    + destruct (puts_ok _ _ _ I2) as (s3 & -> & I3). cbn [rbind]. do 2 eexists. split_and!; [done|done| |done|done]. by constructor.
    + cbn [rbind]. do 2 eexists. split_and!; [done|done| |done|done]. constructor; [done|apply W|done|done].
  - exists r, st. rewrite U. split_and!; [done..|by apply (w_free _ W)].
Qed.
Lemma hcount_nil p : hcount p [] = 0.
Proof. done. Qed.
(** Compares the references of two lists kind by kind. *)
Ltac counts := let k := fresh "k" in let id := fresh "id" in let Hid := fresh "Hid" in intros k id Hid; unfold all_refs;
  repeat first [rewrite hcount_app|rewrite hcount_ref|rewrite hcount_ids|rewrite hcount_kids|rewrite hcount_prepared|rewrite hcount_set|rewrite hcount_nil];
  destruct k; decide_kinds; cbn [negb andb orb]; lia.

Lemma put_user_frame id st st' : put_user id st = Ok st' -> tables st' = tables st /\ pids st' = pids st.
Proof. unfold put_user. destruct (UserNs.ns_put_locked _ _ _); [|done..]. by intros [= <-]. Qed.
Lemma put_NS_USER id st : put NS_USER id st = Ok st \/ put NS_USER id st = put_user id st.
Proof. unfold put, core_fuel. cbn [ns_put_locked]. destruct ((id =? 0) || (ns_max NS_USER <=? id)); [by left|by right]. Qed.
Lemma get_frame k id st : pids (Namespace.ns_get_locked k id st) = pids st.
Proof. unfold Namespace.ns_get_locked. destruct ((id =? 0) || (ns_max k <=? id)); [done|]. by destruct k. Qed.

(** ** fork *)

Definition is_other (k : ns_kind) : bool := negb (bool_decide (k = NS_USER)).
(** The prepared namespaces the child takes over. *)
Definition takes (pr : ns_row) (ks : list ns_kind) (k : ns_kind) : bool := bool_decide (k ∈ ks) && is_other k && (rchild pr k <>? 0).
Lemma lookup_kind_insert {A} `{Inhabited A} (l : list A) k k' x : length l = 8%nat ->
  <[kind_index k := x]> l !!! kind_index k' = if bool_decide (k' = k) then x else l !!! kind_index k'.
Proof.
  intros L. pose proof (kind_index_lt k). case_bool_decide as E; [subst; rewrite list_lookup_total_insert, decide_True; [done|lia]|].
  apply list_lookup_total_insert_ne. intros Q. by apply kind_index_inj in Q.
Qed.
(** What taking over the prepared namespaces of [ks] leads to. *)
Definition took (dead : list ref) (pr : ns_row) (ks : list ns_kind) (ids : list Z) (given : list bool) (p : PidNs.pid_state) (held : list ref)
    (r : res (option cred * list Z * list bool * core)) : Prop :=
  exists cc' ids' given' st', r = Ok (cc', ids', given', st') /\
    cinv dead st' (refs_list (rchild pr) (List.filter is_other ks) ++ cred_refs cc' ++ held) /\ pids st' = p /\
    length ids' = 8%nat /\ length given' = 8%nat /\
    forall k, ids' !!! kind_index k = (if takes pr ks k then rchild pr k else ids !!! kind_index k) /\ given' !!! kind_index k = takes pr ks k || given !!! kind_index k.
Lemma refs_list_cons f k ks : refs_list f (k :: ks) = (k, f k) :: refs_list f ks.
Proof. done. Qed.
Lemma takes_cons pr k ks k' : takes pr (k :: ks) k' = takes pr ks k' || bool_decide (k' = k) && is_other k && (rchild pr k <>? 0).
Proof.
  unfold takes. destruct (decide (k' = k)) as [->|N].
  - rewrite (bool_decide_eq_true_2 (k ∈ k :: ks)), (bool_decide_eq_true_2 (k = k)) by (done || left). cbn [andb]. by destruct (bool_decide (k ∈ ks)), (is_other k), (rchild pr k =? 0).
  - rewrite (bool_decide_ext (k' ∈ k :: ks) (k' ∈ ks)) by (rewrite elem_of_cons; tauto). rewrite (bool_decide_eq_false_2 (k' = k)) by done. cbn [andb]. by rewrite orb_false_r.
Qed.
(** A kind with nothing for the row. *)
Lemma took_skip dead pr k ks ids given p held r : is_other k && (rchild pr k <>? 0) = false -> took dead pr ks ids given p held r -> took dead pr (k :: ks) ids given p held r.
Proof.
  intros Z (cc' & ids' & given' & st' & E & I' & P & L1' & L2' & S). exists cc', ids', given', st'. split_and!; try done.
  - cbn [List.filter]. destruct (is_other k) eqn:O; [|done]. rewrite refs_list_cons. replace (rchild pr k) with 0 by (cbn in Z; lia). by apply cinv_zero.
  - intros k'. rewrite takes_cons, <- andb_assoc, Z, andb_false_r, orb_false_r. apply S.
Qed.
Lemma took_other dead pr k ks ids given p held r : k ∉ ks -> is_other k = true -> rchild pr k <> 0 -> length ids = 8%nat -> length given = 8%nat ->
  took dead pr ks (<[kind_index k := rchild pr k]> ids) (<[kind_index k := true]> given) p ((k, rchild pr k) :: held) r -> took dead pr (k :: ks) ids given p held r.
Proof.
  intros Ni O Nz L1 L2 (cc' & ids' & given' & st' & E & I' & P & L1' & L2' & S). exists cc', ids', given', st'. split_and!; try done.
  - cbn [List.filter]. rewrite O, refs_list_cons, <- app_comm_cons. eapply cinv_counts; [exact I'|]. intros k' id Hid. repeat first [rewrite hcount_app|rewrite hcount_ref]. lia.
  - intros k'. destruct (S k') as [S1 S2]. rewrite S1, S2, !lookup_kind_insert, takes_cons by done. destruct (decide (k' = k)) as [->|N].
    + rewrite (bool_decide_eq_true_2 (k = k)), O, (proj2 (Z.eqb_neq _ _) Nz) by done. cbn [andb negb]. rewrite orb_true_r. by destruct (takes pr ks k).
    + rewrite (bool_decide_eq_false_2 (k' = k)) by done. cbn [andb]. by rewrite orb_false_r.
Qed.
Lemma take_prepared_ok dead pr ks : NoDup ks -> forall cc ids given st held, length ids = 8%nat -> length given = 8%nat ->
  cinv dead st (refs_list (rchild pr) ks ++ cred_refs cc ++ held) -> took dead pr ks ids given (pids st) held (take_prepared ks pr cc ids given st).
Proof.
  intros ND. induction ks as [|k ks IH]; intros cc ids given st held L1 L2 I; cbn [take_prepared]; [by exists cc, ids, given, st|].
  apply NoDup_cons in ND as [Ni ND]. specialize (IH ND). rewrite refs_list_cons in I. destruct (Z.eqb_spec (rchild pr k) 0) as [Z0|Nz].
  { apply took_skip; [rewrite Z0; apply andb_false_r|]. apply IH; [done..|]. rewrite Z0 in I. exact (proj1 (cinv_zero _ _ _) I). }
  destruct (decide (k = NS_USER)) as [->|Nk].
  - apply took_skip; [done|]. destruct cc as [c|]; cbn [cred_refs app] in I.
    + destruct (put_user_ok (dead := dead) st ((NS_USER, rchild pr NS_USER) :: refs_list (rchild pr) ks ++ held) (user_ns c)) as (st2 & E2 & I2).
      { eapply cinv_counts; [exact I|]. intros k id Hid. repeat first [rewrite hcount_app|rewrite hcount_ref]. lia. }
      rewrite E2. cbn [rbind]. apply put_user_frame in E2 as [_ <-]. apply IH; [done..|]. eapply cinv_counts; [exact I2|]. intros k id Hid. cbn [cred_refs app].
      repeat first [rewrite hcount_app|rewrite hcount_ref]. change (user_ns (enter_caps (rchild pr NS_USER) c)) with (rchild pr NS_USER). lia.
    + destruct (ns_put_ok _ _ _ _ I) as (st2 & E2 & I2). rewrite E2. cbn [rbind]. replace (pids st) with (pids st2); [by apply IH|].
      destruct (put_NS_USER (rchild pr NS_USER) st) as [E|E]; rewrite E in E2; [congruence|by apply put_user_frame in E2 as [_ ->]].
  - replace (match k with NS_USER => _ | _ => _ end) with (take_prepared ks pr cc (<[kind_index k := rchild pr k]> ids) (<[kind_index k := true]> given) st) by (by destruct k).
    apply took_other; [done|unfold is_other; by rewrite bool_decide_eq_false_2|done|done|done|]. apply IH; [by rewrite length_insert..|].
    eapply cinv_counts; [exact I|]. intros k' id Hid. rewrite <- app_comm_cons. repeat first [rewrite hcount_app|rewrite hcount_ref]. lia.
Qed.
(** [n] more references fit. *)
Definition room_for (n : Z) (held : list ref) : Prop := Z.of_nat (length held) + n + 1000 < U32_MOD.
Lemma room_for_room n held : room_for n held -> 0 <= n -> room held.
Proof. unfold room_for, room. lia. Qed.
Lemma room_for_cons n x held : room_for (n + 1) held -> room_for n (x :: held).
Proof. unfold room_for. cbn [length]. lia. Qed.
Definition unheld (given : list bool) (k : ns_kind) : bool := is_other k && negb (given !!! kind_index k).
Lemma gets_ok dead (ids : list Z) (given : list bool) ks : forall st held, cinv dead st held -> room_for (Z.of_nat (length ks)) held ->
  (forall k, k ∈ ks -> unheld given k = true -> ids !!! kind_index k = 0 \/ (k, ids !!! kind_index k) ∈ held) ->
  let st' := fold_left (fun st k => match k with NS_USER => st | _ =>
    let id := ids !!! kind_index k in if (id <>? 0) && negb (given !!! kind_index k) then Namespace.ns_get_locked k id st else st end) ks st in
  cinv dead st' (refs_list (fun k => ids !!! kind_index k) (List.filter (unheld given) ks) ++ held) /\ pids st' = pids st.
Proof.
  induction ks as [|k ks IH]; intros st held I R H; cbn [fold_left]; [done|]. cbn [length] in R.
  match goal with |- context [fold_left _ ks ?s] => set (st1 := s) end.
  assert (exists held', cinv dead st1 held' /\ room_for (Z.of_nat (length ks)) held' /\ pids st1 = pids st /\ (forall x, x ∈ held -> x ∈ held') /\
    (forall k' id, id <> 0 -> hcount (k', id) held' = hcount (k', id) (refs_list (fun k => ids !!! kind_index k) (List.filter (unheld given) [k]) ++ held))) as (held' & I1 & R1 & P1 & S1 & C1).
  { cbn [List.filter]. destruct (unheld given k) eqn:U.
    - destruct (decide (k = NS_USER)) as [->|Nk]; [done|]. assert (st1 = if ids !!! kind_index k <>? 0 then Namespace.ns_get_locked k (ids !!! kind_index k) st else st) as ->.
      { unfold unheld in U. apply andb_true_iff in U as [_ U]. subst st1. destruct k; try done; rewrite U, andb_true_r; done. }
      exists ((k, ids !!! kind_index k) :: held). destruct (Z.eqb_spec (ids !!! kind_index k) 0) as [E|N]; cbn [negb].
      + split_and!; [rewrite E; by apply cinv_zero|apply room_for_cons; unfold room_for in *; lia|done|by right|done].
      + destruct (H k ltac:(left) U) as [?|Hm]; [done|]. split_and!; [apply ns_get_ok; [done|eapply room_for_room; [exact R|lia]|by eapply held_alive]|apply room_for_cons; unfold room_for in *; lia|apply get_frame|by right|done].
    - exists held. assert (st1 = st) as ->. { subst st1. unfold unheld in U. destruct (given !!! kind_index k) eqn:G; [|by destruct k]. by destruct k; cbv zeta; rewrite ?G, ?andb_false_r. }
      split_and!; [done|unfold room_for in *; lia|done..]. }
  destruct (IH st1 held' I1 R1) as [I2 P2].
  { intros k' Hk' U'. destruct (H k' ltac:(by right) U') as [?|?]; [by left|right; by apply S1]. }
  split; [|exact (eq_trans P2 P1)]. eapply cinv_counts; [exact I2|]. intros k' id Hid. rewrite !hcount_app, C1, hcount_app by done. cbn [List.filter].
  destruct (unheld given k); [rewrite !refs_list_cons, !hcount_ref; cbn [refs_list fmap list_fmap]; rewrite hcount_nil; lia|cbn [refs_list fmap list_fmap]; rewrite hcount_nil; lia].
Qed.

Definition orow_refs (r : option ns_row) : list ref := match r with Some r => row_refs r | None => [] end.
Definition orow_wf (r : option ns_row) : Prop := match r with Some r => row_wf r | None => True end.
Definition handed (given : list bool) (k : ns_kind) : bool := is_other k && given !!! kind_index k.
Lemma zeros_at k : zeros !!! kind_index k = 0.
Proof. by destruct k. Qed.
Lemma no_given_at k : replicate 8 false !!! kind_index k = false.
Proof. by destruct k. Qed.
Lemma no_handed : List.filter (handed (replicate 8 false)) kinds = [].
Proof. done. Qed.
(** What a row names, the prepared namespaces apart. *)
Definition own_refs (r : ns_row) : list ref := row_ids r ++ row_kids r.
Lemma own_in r x : r_used r = true -> x ∈ own_refs r -> x ∈ row_refs r.
Proof. intros U H. unfold row_refs. rewrite U, app_assoc. apply elem_of_app. by left. Qed.
Lemma row_id_in r k : is_other k = true -> (k, rid r k) ∈ own_refs r.
Proof.
  intros O. apply elem_of_app. left. change (row_ids r) with (refs_list (rid r) others). apply list_elem_of_fmap. exists k. split; [done|]. apply in_others. by intros ->.
Qed.
Lemma row_pid_in r : (NS_PID, pid_children r) ∈ own_refs r.
Proof. apply elem_of_app. right. left. Qed.
Lemma row_time_in r : (NS_TIME, time_children r) ∈ own_refs r.
Proof. apply elem_of_app. right. right. left. Qed.
(** What the child starts from is its parent's. *)
Lemma inherited_in p thread k : length (r_id p) = 8%nat -> is_other k = true -> (k, inherited_ids p thread !!! kind_index k) ∈ own_refs p.
Proof.
  intros L O. unfold inherited_ids. assert (k <> NS_USER) by (by intros ->). destruct thread.
  - rewrite lookup_kind_insert, bool_decide_eq_false_2 by done. by apply row_id_in.
  - rewrite !lookup_kind_insert by (by rewrite ?length_insert). repeat case_bool_decide; subst; try done; [by apply row_time_in|by apply row_pid_in|by apply row_id_in].
Qed.
Lemma inherited_user p thread : length (r_id p) = 8%nat -> inherited_ids p thread !!! kind_index NS_USER = 0.
Proof. intros L. unfold inherited_ids. destruct thread; rewrite !lookup_kind_insert by (by rewrite ?length_insert); by decide_kinds. Qed.
Lemma inherited_len p thread : length (r_id p) = 8%nat -> length (inherited_ids p thread) = 8%nat.
Proof. intros L. unfold inherited_ids. destruct thread; by rewrite !length_insert. Qed.
Lemma drop_prepared p : row_wf p -> r_used p = true -> row_wf (set_child zeros false p) /\ row_refs (set_child zeros false p) = own_refs p.
Proof. intros [W1 W2 W3 W4] U. split; [constructor; [done|done|cbn; congruence|done]|]. unfold row_refs, prepared. cbn [r_used set_child child_valid]. rewrite U. unfold own_refs. by rewrite app_nil_r. Qed.
Lemma filter_nodup {A} (b : A -> bool) l : NoDup l -> NoDup (List.filter b l).
Proof. intros H. apply NoDup_ListNoDup, List.NoDup_filter. by apply NoDup_ListNoDup. Qed.
Lemma filter_kinds b k : bool_decide (k ∈ List.filter b kinds) = b k.
Proof.
  destruct (b k) eqn:B; [apply bool_decide_eq_true_2|apply bool_decide_eq_false_2]; rewrite list_elem_of_In, List.filter_In, <- list_elem_of_In; [split; [apply in_kinds|done]|].
  intros [_ ?]. congruence.
Qed.
Lemma fork_source_ok dead st pr cc thread held : cinv dead st (orow_refs pr ++ cred_refs cc ++ held) -> orow_wf pr ->
  exists pr' cc' ids given st', fork_source pr cc thread st = Ok (pr', cc', ids, given, st') /\
    cinv dead st' (refs_list (fun k => ids !!! kind_index k) (List.filter (handed given) kinds) ++ orow_refs pr' ++ cred_refs cc' ++ held) /\
    orow_wf pr' /\ (is_Some pr -> is_Some pr') /\ length ids = 8%nat /\ ids !!! kind_index NS_USER = 0 /\ pids st' = pids st /\
    forall k, unheld given k = true -> ids !!! kind_index k = 0 \/ (k, ids !!! kind_index k) ∈ orow_refs pr'.
Proof.
  intros I W. assert (Z : forall pr, cinv dead st (orow_refs pr ++ cred_refs cc ++ held) -> orow_wf pr -> exists pr' cc' ids given st',
    Ok (pr, cc, zeros, replicate 8 false, st) = Ok (pr', cc', ids, given, st') /\
    cinv dead st' (refs_list (fun k => ids !!! kind_index k) (List.filter (handed given) kinds) ++ orow_refs pr' ++ cred_refs cc' ++ held) /\
    orow_wf pr' /\ (is_Some pr -> is_Some pr') /\ length ids = 8%nat /\ ids !!! kind_index NS_USER = 0 /\ pids st' = pids st /\
    forall k, unheld given k = true -> ids !!! kind_index k = 0 \/ (k, ids !!! kind_index k) ∈ orow_refs pr').
  { intros q Iq Wq. do 5 eexists. split_and!; [done..|]. intros k _. left. apply zeros_at. }
  unfold fork_source. destruct pr as [p|]; [|by apply Z]. destruct (r_used p) eqn:U; [|by apply Z]. cbn [orow_refs orow_wf] in *. pose proof (w_id _ W) as L.
  destruct (child_valid p && negb thread) eqn:V.
  - apply andb_true_iff in V as [V _]. destruct (drop_prepared p W U) as [W' R'].
    assert (T : took dead p kinds (inherited_ids p thread) (replicate 8 false) (pids st) (own_refs p ++ held) (take_prepared kinds p cc (inherited_ids p thread) (replicate 8 false) st)).
    { apply take_prepared_ok; [apply kinds_nodup|by apply inherited_len|done|]. eapply cinv_counts; [exact I|]. unfold row_refs, prepared, own_refs. rewrite U, V.
      intros k id Hid. rewrite !hcount_app. change (refs_list (rchild p) kinds) with (row_prepared p). lia. }
    destruct T as (cc' & ids & given & st' & -> & I' & P & L1 & L2 & S). cbn [rbind]. do 5 eexists. split_and!; [done| |exact W'|done|done| |done|].
    + cbn [orow_refs]. rewrite R'. eapply cinv_counts; [exact I'|]. intros k id Hid. rewrite !hcount_app, !hcount_refs by apply filter_nodup, kinds_nodup.
      destruct (S k) as [S1 S2]. rewrite no_given_at, orb_false_r in S2.
      rewrite !filter_kinds. unfold handed. rewrite S1, S2. unfold takes. rewrite bool_decide_eq_true_2 by apply in_kinds. cbn [andb].
      destruct (is_other k); cbn [andb]; [|lia]. destruct (Z.eqb_spec (rchild p k) 0) as [E|N]; cbn [andb negb]; [rewrite E, (proj2 (Z.eqb_neq 0 id)) by done; cbn; lia|lia].
    + rewrite (proj1 (S NS_USER)). replace (takes p kinds NS_USER) with false by (unfold takes; by rewrite andb_false_r). by apply inherited_user.
    + intros k Hk. right. destruct (S k) as [S1 S2]. unfold unheld in Hk. apply andb_true_iff in Hk as [O G]. rewrite S2, no_given_at, orb_false_r in G. apply negb_true_iff in G. rewrite S1, G.
      cbn [orow_refs]. rewrite R'. by apply inherited_in.
  - do 5 eexists. split_and!; [done|exact I|exact W|done|by apply inherited_len|by apply inherited_user|done|].
    intros k Hk. right. apply own_in; [done|]. apply inherited_in; [done|]. unfold unheld in Hk. by apply andb_true_iff in Hk as [O _].
Qed.
(** The flag of a time namespace that has members. *)
Lemma entered_ok dead st held id : cinv dead st held -> (NS_TIME, id) ∈ held -> cinv dead (if id <>? 0 then upd_slot NS_TIME id slot_entered st else st) held.
Proof.
  intros I H. destruct (Z.eqb_spec id 0) as [->|N]; cbn [negb]; [done|]. pose proof (c_range _ _ _ I _ _ H) as R.
  apply (cinv_slot (dead := dead) dead st held); [done|done|lia|done|done| |done|done]. exact (c_slot _ _ _ I NS_TIME id ltac:(done) ltac:(lia)).
Qed.
(** The row of a child that starts in the namespaces [ids]. *)
Definition child_row (cr : ns_row) (ids : list Z) : ns_row :=
  let cr := mkRow (r_used cr) (<[kind_index NS_USER := rid cr NS_USER]> ids) (ids !!! kind_index NS_PID) (ids !!! kind_index NS_TIME) (r_child cr) (child_valid cr) in
  set_used (negb (ns_row_trivial cr)) cr.
Lemma child_row_wf cr ids : row_wf cr -> ns_row_trivial cr = true -> length ids = 8%nat -> row_wf (child_row cr ids).
Proof.
  intros [W1 W2 W3 W4] T L. unfold child_row. cbv zeta. constructor; [by cbn; rewrite length_insert|done| |].
  - cbn [r_used set_used]. by rewrite negb_false_iff.
  - unfold rid, set_used. cbn [r_id]. rewrite lookup_kind_insert by done. by decide_kinds.
Qed.
Lemma child_row_refs cr ids k id : row_wf cr -> ns_row_trivial cr = true -> length ids = 8%nat -> id <> 0 ->
  hcount (k, id) (row_refs (child_row cr ids)) = hcount (k, id) (refs_list (fun k => ids !!! kind_index k) others) + hcount (k, id) [(NS_PID, ids !!! kind_index NS_PID); (NS_TIME, ids !!! kind_index NS_TIME)].
Proof.
  intros W T L N. rewrite row_refs_all by (done || by apply child_row_wf). apply trivial_spec in T as (_ & _ & _ & T). unfold all_refs.
  rewrite !hcount_app, hcount_ids, hcount_kids, hcount_prepared, hcount_refs, !hcount_ref, hcount_nil by (by apply (bool_decide_unpack _)).
  change (child_valid (child_row cr ids)) with (child_valid cr). change (rid (child_row cr ids) k) with (<[kind_index NS_USER := rid cr NS_USER]> ids !!! kind_index k).
  change (pid_children (child_row cr ids)) with (ids !!! kind_index NS_PID). change (time_children (child_row cr ids)) with (ids !!! kind_index NS_TIME).
  rewrite T, lookup_kind_insert by done. destruct k; decide_kinds; cbn [negb andb]; lia.
Qed.
Lemma fork_inherit_eq pr cr gid cc thread st : namespace_fork_inherit pr cr gid cc thread st =
  let* '(cr, st) := ns_row_clear_locked cr (Namespace.ns_ensure_init_locked st) in
  let* '(pr, cc, ids, given, st) := fork_source pr cc thread st in
  let st := Namespace.ns_get_locked NS_TIME (ids !!! kind_index NS_TIME) (Namespace.ns_get_locked NS_PID (ids !!! kind_index NS_PID) (inherit_gets ids given st)) in
  let st := if ids !!! kind_index NS_TIME <>? 0 then upd_slot NS_TIME (ids !!! kind_index NS_TIME) slot_entered st else st in
  let* p := (if ids !!! kind_index NS_PID <>? 0 then PidNs.pidns_enter_locked (ids !!! kind_index NS_PID) gid thread (pids st) else Ok (pids st)) in
  Ok (pr, child_row cr ids, cc, set_pids p st).
Proof. done. Qed.
Lemma orow_len r : (length (orow_refs r) <= 17)%nat.
Proof.
  destruct r as [r|]; cbn [orow_refs]; [|cbn; lia]. assert (length (row_ids r) = 7%nat) by done. assert (length (row_kids r) = 2%nat) by done. assert (length (row_prepared r) = 8%nat) by done.
  unfold row_refs, prepared. destruct (r_used r), (child_valid r); rewrite ?length_app; cbn [length]; lia.
Qed.
Lemma cred_len c : (length (cred_refs c) <= 1)%nat.
Proof. destruct c; cbn; lia. Qed.
Lemma filter_len f b ks : (length (refs_list f (List.filter b ks)) <= length ks)%nat.
Proof. unfold refs_list. rewrite length_fmap. apply List.filter_length_le. Qed.
(** The child joins: the references of its own children, its numbers. *)
Lemma fork_members_ok dead st (ids : list Z) gid thread rest : let l := refs_list (fun k => ids !!! kind_index k) others ++ rest in
  cinv dead st l -> room_for 10 l -> gid <> 0 -> PidNsProofs.numbers_left 34 (pids st) ->
  let st1 := Namespace.ns_get_locked NS_TIME (ids !!! kind_index NS_TIME) (Namespace.ns_get_locked NS_PID (ids !!! kind_index NS_PID) st) in
  let st2 := if ids !!! kind_index NS_TIME <>? 0 then upd_slot NS_TIME (ids !!! kind_index NS_TIME) slot_entered st1 else st1 in
  exists p, (if ids !!! kind_index NS_PID <>? 0 then PidNs.pidns_enter_locked (ids !!! kind_index NS_PID) gid thread (pids st2) else Ok (pids st2)) = Ok p /\
    cinv dead (set_pids p st2) ((NS_TIME, ids !!! kind_index NS_TIME) :: (NS_PID, ids !!! kind_index NS_PID) :: l).
Proof.
  intros l I R G NL st1 st2. set (pid := ids !!! kind_index NS_PID) in *. set (time := ids !!! kind_index NS_TIME) in *.
  assert (M : forall k, k <> NS_USER -> (k, ids !!! kind_index k) ∈ l).
  { intros k Nk. apply elem_of_app. left. apply list_elem_of_fmap. exists k. split; [done|]. by apply in_others. }
  pose proof (M NS_PID ltac:(done)) as Mp. pose proof (M NS_TIME ltac:(done)) as Mt. fold pid in Mp. fold time in Mt.
  assert (I0 : cinv dead (Namespace.ns_get_locked NS_PID pid st) ((NS_PID, pid) :: l)) by (apply ns_get_ok; [done|eapply room_for_room; [exact R|lia]|by eapply held_alive]).
  assert (I1 : cinv dead st1 ((NS_TIME, time) :: (NS_PID, pid) :: l)).
  { apply ns_get_ok; [done|apply (room_for_room 9); [by apply room_for_cons|lia]|]. eapply held_alive; [exact I0|]. by right. }
  assert (I2 : cinv dead st2 ((NS_TIME, time) :: (NS_PID, pid) :: l)) by (apply entered_ok; [done|left]).
  assert (P2 : pids st2 = pids st).
  { transitivity (pids st1); [subst st2; by destruct (time <>? 0)|]. subst st1. by rewrite !get_frame. }
  destruct (Z.eqb_spec pid 0) as [E|N]; cbn [negb]; [exists (pids st2); split; [done|]; eapply cinv_irrel; [..|exact I2]; done|].
  pose proof (held_pid_used _ _ pid I2 ltac:(right; left)) as A. pose proof (c_range _ _ _ I2 NS_PID pid ltac:(right; left)) as Hp.
  destruct (PidNsProofs.enter_inv _ (pids st2) pid gid thread (c_pid _ _ _ I2) Hp A G) as (p & E & Ip & En); [by rewrite P2|].
  exists p. split; [done|]. apply cinv_pids; [done|done|]. intros j Hj. by destruct (PidNsProofs.e_tree _ _ _ _ (En N) j ltac:(lia)) as [? _].
Qed.
Lemma fork_inherit_ok dead st pr cr gid cc thread held : cinv dead st (row_refs cr ++ orow_refs pr ++ cred_refs cc ++ held) -> row_wf cr -> orow_wf pr ->
  room_for 100 (row_refs cr ++ orow_refs pr ++ cred_refs cc ++ held) -> gid <> 0 ->
  (forall cr1 st1, ns_row_clear_locked cr st = Ok (cr1, st1) -> PidNsProofs.numbers_left 34 (pids st1)) ->
  exists pr' cr' cc' st', namespace_fork_inherit pr cr gid cc thread st = Ok (pr', cr', cc', st') /\
    cinv dead st' (row_refs cr' ++ orow_refs pr' ++ cred_refs cc' ++ held) /\ row_wf cr' /\ orow_wf pr' /\ (is_Some pr -> is_Some pr').
Proof.
  intros I Wc Wp Rm G NL. rewrite fork_inherit_eq, (ensure_ready _ _ I). destruct (row_clear_ok _ _ _ _ I Wc) as (cr1 & st1 & E1 & I1 & W1 & _ & T1).
  rewrite E1. cbn [rbind]. specialize (NL _ _ E1). destruct (fork_source_ok dead st1 pr cc thread held I1 Wp) as (pr2 & cc2 & ids & given & st2 & E2 & I2 & W2 & Is & L & Iu & P2 & S2).
  rewrite E2. cbn [rbind]. set (rest := orow_refs pr2 ++ cred_refs cc2 ++ held) in *. 
  assert (R2 : room_for 20 (refs_list (fun k => ids !!! kind_index k) (List.filter (handed given) kinds) ++ rest)).
  { subst rest. unfold room_for in *. rewrite !length_app in *. pose proof (orow_len pr2). pose proof (cred_len cc2). pose proof (filter_len (fun k => ids !!! kind_index k) (handed given) kinds).
    change (length kinds) with 8%nat in *. lia. }
  destruct (gets_ok dead ids given kinds st2 _ I2) as [I3 P3]; [unfold room_for in *; cbn [length kinds]; lia| |].
  { intros k _ U. destruct (S2 k U) as [?|H]; [by left|]. right. apply elem_of_app. right. apply elem_of_app. by left. }
  fold (inherit_gets ids given st2) in I3, P3. set (st3 := inherit_gets ids given st2) in *.
  destruct (fork_members_ok dead st3 ids gid thread rest) as (p & E4 & I4).
  - eapply cinv_counts; [exact I3|]. intros k id Hid. rewrite !hcount_app, !hcount_refs by (apply filter_nodup, kinds_nodup || by apply (bool_decide_unpack _)).
    rewrite !filter_kinds. unfold handed, unheld. destruct k; destruct (given !!! _); decide_kinds; cbn [negb andb is_other]; unfold is_other; decide_kinds; cbn [negb andb]; lia.
  - subst rest. unfold room_for in *. rewrite !length_app in *. pose proof (orow_len pr2). pose proof (cred_len cc2).
    change (length (refs_list (fun k => ids !!! kind_index k) others)) with 7%nat. lia.
  - done.
  - assert (pids st3 = pids st1) as -> by exact (eq_trans P3 P2); done.
  - rewrite E4. cbn [rbind]. do 4 eexists. split_and!; [done| |by apply child_row_wf|done|done].
    eapply cinv_counts; [exact I4|]. intros k id Hid. subst rest. rewrite !hcount_ref, !hcount_app, child_row_refs by done. rewrite !hcount_ref, hcount_nil. lia.
Qed.

(** ** Exit and preparation *)

Lemma task_exit_ok dead st r gid held : cinv dead st (row_refs r ++ held) -> row_wf r ->
  exists r' st', namespace_task_exit r gid st = Ok (r', st') /\ cinv dead st' (row_refs r' ++ held) /\ row_wf r'.
Proof.
  intros I W. unfold namespace_task_exit. destruct (negb (ns_any (user st))); [by exists r, st|].
  set (ns := if r_used r then rid r NS_PID else 0). match goal with |- context [ns_row_clear_locked r ?s] => set (st1 := s) end.
  assert (I1 : cinv dead st1 (row_refs r ++ held)).
  { subst st1. destruct (Z.eqb_spec ns 0) as [E|N]; cbn [negb]; [done|]. apply cinv_pids; [done| |intros j _; apply exit_parent].
    apply PidNsProofs.exit_inv; [apply I|]. subst ns. destruct (r_used r) eqn:U; [|lia].
    apply (c_range _ _ _ I NS_PID). apply elem_of_app. left. apply own_in; [done|]. by apply row_id_in. }
  destruct (row_clear_ok _ _ _ _ I1 W) as (r' & st' & E & I' & W' & R' & _). exists r', st'. rewrite R'. done.
Qed.
Lemma reap_numbers_ok dead st gid held : cinv dead st held -> exists st', reap_numbers gid st = Ok st' /\ cinv dead st' held.
Proof.
  intros I. unfold reap_numbers. destruct (negb (ns_any (user st))); [by exists st|].
  destruct (PidNsProofs.reaped_inv (allocated st) (allocated st) (pids st) gid (c_pid _ _ _ I)) as (p & E & Ip & Pn & _).
  rewrite E. cbn [rbind]. eexists. split; [done|]. apply cinv_pids; [done|done|]. intros j _. unfold PidNs.pd. by rewrite Pn.
Qed.
Lemma u16_set set : length set = 8%nat -> (forall k, 0 <= set !!! kind_index k < 65536) -> u16 <$> set = set.
Proof.
  intros L H. do 8 (destruct set as [|? set]; [done|]). destruct set; [|done].
  pose proof (H NS_UTS). pose proof (H NS_MNT). pose proof (H NS_PID). pose proof (H NS_NET). pose proof (H NS_USER). pose proof (H NS_IPC). pose proof (H NS_CGROUP). pose proof (H NS_TIME).
  cbn in *. rewrite !u16_small by lia. done.
Qed.
Lemma set_range dead st set held : cinv dead st (set_refs set ++ held) -> forall k, 0 <= set !!! kind_index k < ns_max k.
Proof. intros I k. apply (c_range _ _ _ I k), elem_of_app. left. apply list_elem_of_fmap. exists k. split; [done|apply in_kinds]. Qed.
(** Whether a row is marked as used makes no difference once its references are
    looked at one by one. *)
Lemma puts_prepared dead st r held : cinv dead st (row_refs r ++ held) -> row_wf r ->
  exists st', (if child_valid r then puts (row_prepared r) st else Ok st) = Ok st' /\ cinv dead st' (own_refs r ++ held).
Proof.
  intros I W. apply cinv_all in I; [|done]. destruct (child_valid r) eqn:V.
  - apply puts_ok. eapply cinv_counts; [exact I|]. intros k id Hid. unfold all_refs, prepared, own_refs. rewrite V, !hcount_app. lia.
  - exists st. split; [done|]. eapply cinv_counts; [exact I|]. intros k id Hid. unfold all_refs, prepared, own_refs. rewrite V, !hcount_app, hcount_nil. lia.
Qed.
Lemma fork_prepare_ok dead st set r held : cinv dead st (set_refs set ++ row_refs r ++ held) -> row_wf r -> length set = 8%nat ->
  exists r' st', fork_prepare_commit set r st = Ok (r', st') /\ cinv dead st' (row_refs r' ++ held) /\ row_wf r'.
Proof.
  intros I W L. unfold fork_prepare_commit. pose proof (set_range _ _ _ _ I) as Rg.
  rewrite u16_set by (done || intros k; specialize (Rg k); pose proof (ns_max_pos k); lia).
  destruct (puts_prepared dead st r (set_refs set ++ held)) as (st1 & E & I1); [by rewrite (Permutation_app_swap_app (row_refs r))|done|].
  rewrite E. cbn [rbind]. do 2 eexists. split_and!; [done| |].
  - eapply cinv_counts; [exact I1|]. intros k id Hid. unfold row_refs, prepared, own_refs. cbn [r_used set_used set_child child_valid]. rewrite !hcount_app.
    change (row_prepared (set_used true (set_child set true r))) with (set_refs set). change (row_ids (set_used true (set_child set true r))) with (row_ids r). change (row_kids (set_used true (set_child set true r))) with (row_kids r). lia.
  - destruct W as [W1 W2 W3 W4]. by constructor.
Qed.
Lemma prepare_abort_ok dead st r held : cinv dead st (row_refs r ++ held) -> row_wf r ->
  exists r' st', namespace_fork_prepare_abort r st = Ok (r', st') /\ cinv dead st' (row_refs r' ++ held) /\ row_wf r'.
Proof.
  intros I W. unfold namespace_fork_prepare_abort. destruct (negb (ns_any (user st))); [by exists r, st|]. destruct (child_valid r) eqn:V; [|by exists r, st].
  destruct (puts_prepared dead st r held I W) as (st1 & E & I1). rewrite V in E. rewrite E. cbn [rbind].
  assert (U : r_used r = true) by (destruct (r_used r) eqn:U; [done|]; apply (w_free _ W), trivial_spec in U as (_ & _ & _ & ?); congruence).
  destruct (drop_prepared r W U) as [W' R']. set (r1 := set_child zeros false r) in *.
  set (r2 := if ns_row_trivial r1 then set_used false r1 else r1).
  assert (W2 : row_wf r2) by (subst r2; destruct (ns_row_trivial r1) eqn:T; [destruct W' as [A1 A2 A3 A4]; by constructor|done]).
  exists r2, st1. split_and!; [done| |done]. eapply cinv_counts; [exact I1|]. intros k id Hid. rewrite !hcount_app, row_refs_all by done. rewrite <- R', row_refs_all by done.
  subst r2. by destruct (ns_row_trivial r1).
Qed.

(** ** Changing what a row names *)

Definition shifts (r r' : ns_row) (k : ns_kind) (old new : Z) : Prop :=
  forall k' id, id <> 0 -> hcount (k', id) (all_refs r') + hcount (k', id) [(k, old)] = hcount (k', id) (all_refs r) + hcount (k', id) [(k, new)].
Lemma shift_rid r k x : length (r_id r) = 8%nat -> is_other k = true -> shifts r (set_rid k x r) k (rid r k) x.
Proof.
  intros L O k' id _. unfold all_refs. rewrite !hcount_app, !hcount_ids, !hcount_kids, !hcount_prepared, !hcount_ref, !hcount_nil.
  change (rid (set_rid k x r) k') with (<[kind_index k := x]> (r_id r) !!! kind_index k'). rewrite lookup_kind_insert by done.
  unfold set_rid. cbn [pid_children time_children child_valid]. change (rchild (mkRow _ _ _ _ (r_child r) _) k') with (rchild r k').
  destruct (decide (k' = k)) as [->|N]; [rewrite !(bool_decide_eq_true_2 (k = k)) by done|rewrite !(bool_decide_eq_false_2 (k' = k)) by done]; cbn [andb]; [fold (rid r k)|fold (rid r k'); lia].
  change (negb (bool_decide (k = NS_USER))) with (is_other k). rewrite O. cbn [andb]. lia.
Qed.
Lemma shift_pid r x : shifts r (set_pid_children x r) NS_PID (pid_children r) x.
Proof.
  intros k' id _. unfold all_refs. rewrite !hcount_app, !hcount_ids, !hcount_kids, !hcount_prepared, !hcount_ref, !hcount_nil. unfold set_pid_children. cbn [pid_children time_children child_valid].
  change (rid (mkRow _ (r_id r) _ _ _ _) k') with (rid r k'). change (rchild (mkRow _ _ _ _ (r_child r) _) k') with (rchild r k'). lia.
Qed.
Lemma shift_time r x : shifts r (set_time_children x r) NS_TIME (time_children r) x.
Proof.
  intros k' id _. unfold all_refs. rewrite !hcount_app, !hcount_ids, !hcount_kids, !hcount_prepared, !hcount_ref, !hcount_nil. unfold set_time_children. cbn [pid_children time_children child_valid].
  change (rid (mkRow _ (r_id r) _ _ _ _) k') with (rid r k'). change (rchild (mkRow _ _ _ _ (r_child r) _) k') with (rchild r k'). lia.
Qed.
Lemma swap_ok dead st r r' k old new held : shifts r r' k old new -> cinv dead st ((k, new) :: all_refs r ++ held) ->
  exists st', put k old st = Ok st' /\ cinv dead st' (all_refs r' ++ held).
Proof.
  intros S I. apply ns_put_ok. eapply cinv_counts; [exact I|]. intros k' id Hid. specialize (S k' id Hid). rewrite hcount_ref, hcount_nil, (hcount_ref k' id k new), hcount_nil in S.
  rewrite !hcount_ref, !hcount_app. lia.
Qed.
Definition used_wf (r : ns_row) : Prop := row_wf r /\ r_used r = true.
Lemma used_refs r : used_wf r -> row_refs r = all_refs r.
Proof. intros [_ U]. unfold row_refs. by rewrite U. Qed.
Lemma used_rid r k x : used_wf r -> is_other k = true -> used_wf (set_rid k x r).
Proof.
  intros [[W1 W2 W3 W4] U] O. split; [|done]. constructor; [by cbn; rewrite length_insert|done|cbn; congruence|].
  unfold rid. cbn [r_id set_rid]. rewrite lookup_kind_insert, bool_decide_eq_false_2; [done| |done]. by intros <-.
Qed.
Lemma used_pid r x : used_wf r -> used_wf (set_pid_children x r).
Proof. intros [[W1 W2 W3 W4] U]. split; [|done]. constructor; [done..|cbn; congruence|done]. Qed.
Lemma used_time r x : used_wf r -> used_wf (set_time_children x r).
Proof. intros [[W1 W2 W3 W4] U]. split; [|done]. constructor; [done..|cbn; congruence|done]. Qed.

(** ** unshare *)

Definition wanted (want : Z) (ks : list ns_kind) : list ns_kind := List.filter (fun k => want &? namespace_kind_flag k) ks.
Lemma unshare_loop_ok dead want (set : list Z) ks : forall r c st held,
  cinv dead st (refs_list (fun k => set !!! kind_index k) (wanted want ks) ++ row_refs r ++ cred_refs (Some c) ++ held) -> used_wf r ->
  exists r' c' st', unshare_loop ks want set r c st = Ok (r', c', st') /\ cinv dead st' (row_refs r' ++ cred_refs (Some c') ++ held) /\ row_wf r'.
Proof.
  induction ks as [|k ks IH]; intros r c st held I W; cbn [unshare_loop]; [exists r, c, st; split_and!; [done..|apply W]|].
  cbn [wanted List.filter] in I. destruct (want &? namespace_kind_flag k); cbn [negb]; [|by apply IH]. fold (wanted want ks) in I.
  rewrite refs_list_cons in I. set (id := set !!! kind_index k) in *. rewrite (used_refs r W) in I.
  assert (Ri : u16 id = id) by (pose proof (c_range _ _ _ I k id ltac:(left)); pose proof (ns_max_pos k); apply u16_small; lia).
  assert (Sw : forall r' old, shifts r r' k old id -> used_wf r' -> exists st', put k old st = Ok st' /\
    cinv dead st' (refs_list (fun k => set !!! kind_index k) (wanted want ks) ++ row_refs r' ++ cred_refs (Some c) ++ held)).
  { intros r' old S W'. destruct (swap_ok dead st r r' k old id (refs_list (fun k => set !!! kind_index k) (wanted want ks) ++ cred_refs (Some c) ++ held) S) as (st' & E & I').
    - eapply cinv_counts; [exact I|]. intros k' i Hi. rewrite <- app_comm_cons. rewrite !hcount_ref, !hcount_app. lia.
    - exists st'. split; [done|]. rewrite (used_refs r' W'). eapply cinv_counts; [exact I'|]. intros k' i Hi. rewrite !hcount_app. lia. }
  destruct (decide (k = NS_USER)) as [->|N].
  - destruct (put_user_ok (dead := dead) st ((NS_USER, id) :: refs_list (fun k => set !!! kind_index k) (wanted want ks) ++ all_refs r ++ held) (user_ns c)) as (st2 & E2 & I2).
    { eapply cinv_counts; [exact I|]. intros k' i Hi. cbn [cred_refs]. rewrite <- !app_comm_cons. rewrite !hcount_ref, !hcount_app, hcount_ref. cbn [app]. lia. }
    rewrite E2. cbn [rbind]. apply IH; [|done]. rewrite (used_refs r W). eapply cinv_counts; [exact I2|]. intros k' i Hi. cbn [cred_refs]. rewrite hcount_ref, !hcount_app, hcount_ref, hcount_nil.
    change (user_ns (enter_caps id c)) with id. lia.
  - destruct (decide (k = NS_PID)) as [->|NP]; [|destruct (decide (k = NS_TIME)) as [->|NT]].
    + destruct (Sw (set_pid_children id r) (pid_children r)) as (st2 & E2 & I2); [apply shift_pid|by apply used_pid|]. rewrite E2. cbn [rbind]. rewrite Ri. apply IH; [done|by apply used_pid].
    + destruct (Sw (set_time_children id r) (time_children r)) as (st2 & E2 & I2); [apply shift_time|by apply used_time|]. rewrite E2. cbn [rbind]. rewrite Ri. apply IH; [done|by apply used_time].
    + assert (O : is_other k = true) by (unfold is_other; by rewrite bool_decide_eq_false_2).
      destruct (Sw (set_rid k id r) (rid r k)) as (st2 & E2 & I2); [apply shift_rid; [apply W|done]|by apply used_rid|].
      replace (match k with NS_USER => _ | _ => _ end) with (let* st := put k (rid r k) st in unshare_loop ks want set (set_rid k (u16 id) r) c st) by (by destruct k).
      rewrite E2. cbn [rbind]. rewrite Ri. apply IH; [done|by apply used_rid].
Qed.
Lemma fresh_row r : row_wf r -> let r' := if r_used r then r else set_used true row_zero in
  used_wf r' /\ forall k id, id <> 0 -> hcount (k, id) (row_refs r') = hcount (k, id) (row_refs r).
Proof.
  intros W. cbv zeta. destruct (r_used r) eqn:U; [done|]. split; [split; [by constructor|done]|]. intros k id N. unfold row_refs at 2. rewrite U, hcount_nil.
  change (row_refs (set_used true row_zero)) with (own_refs row_zero ++ []). unfold own_refs. rewrite !hcount_app, hcount_nil, hcount_ids, hcount_kids.
  change (rid row_zero k) with (zeros !!! kind_index k). rewrite zeros_at. cbn [time_children pid_children row_zero]. rewrite (proj2 (Z.eqb_neq 0 id)) by done. by rewrite !andb_false_r.
Qed.
Lemma unshare_commit_ok dead st want set r c held : cinv dead st (set_refs set ++ row_refs r ++ cred_refs (Some c) ++ held) -> row_wf r ->
  (forall k, want &? namespace_kind_flag k = false -> set !!! kind_index k = 0) ->
  exists r' c' st', unshare_commit want set r c st = Ok (r', c', st') /\ cinv dead st' (row_refs r' ++ cred_refs (Some c') ++ held) /\ row_wf r'.
Proof.
  intros I W Z. unfold unshare_commit. destruct (fresh_row r W) as [W' C]. apply unshare_loop_ok; [|done].
  eapply cinv_counts; [exact I|]. intros k id Hid. rewrite !hcount_app, C, hcount_set, hcount_refs by (done || apply filter_nodup, kinds_nodup). unfold wanted. rewrite filter_kinds.
  destruct (want &? namespace_kind_flag k) eqn:F; cbn [andb]; [done|]. rewrite Z by done. rewrite (proj2 (Z.eqb_neq 0 id)) by done. done.
Qed.

(** ** setns *)

Lemma table_ne k k' id f st : k' <> k -> table k' (upd_slot k id f st) = table k' st.
Proof. intros N. unfold table, upd_slot. cbn [tables set_tables]. rewrite !list_lookup_total_alt, list_lookup_alter_ne; [done|]. intros H. by apply kind_index_inj in H. Qed.
#[local] Opaque PidNs.pidns_release_locked.
(** What is left to do for the last reference of a kind that goes at once. *)
Definition release_data (put_parent : Z -> core -> res core) (k : ns_kind) (id : Z) (st : core) : res core :=
  match k with
  | NS_PID => let* '(parent, p) := PidNs.pidns_release_locked id (pids st) in put_parent parent (set_pids p st)
  | NS_UTS => Ok (set_uts (zalter (fun _ => ([], [])) id (uts_data st)) st)
  | NS_TIME => Ok (set_time (zalter (fun _ => (0, 0)) id (time_data st)) st)
  | _ => Ok st
  end.
Lemma put_eq fuel k id st : k <> NS_USER -> ns_put_locked (S fuel) k id st =
  if (id =? 0) || (ns_max k <=? id) then Ok st else
  let x := slot_of st k id in
  if negb (used x) || (refs x =? 0) then Panic "namespace: reference underflow" else
  let st1 := upd_slot k id (slot_refs (u32 (refs x - 1))) st in
  if u32 (refs x - 1) <>? 0 then Ok st1 else
  if ns_kind_deferred k then Ok (set_pending true (upd_slot k id (slot_zombie 1) st1))
  else let* st2 := release_data (ns_put_locked fuel NS_PID) k id st1 in put_user (owner x) (upd_slot k id (slot_used false) st2).
Proof. intros N. destruct k; [reflexivity..|by destruct N|reflexivity|reflexivity|reflexivity]. Qed.
(** Dropping a reference on one kind leaves the slots of the others alone. *)
Lemma put_frame fuel : forall k id st st' k', ns_put_locked fuel k id st = Ok st' -> k' <> k -> k' <> NS_USER -> table k' st' = table k' st.
Proof.
  induction fuel as [|fuel IH]; intros k id st st' k' E N NU; [done|].
  assert (PU : forall i s s', put_user i s = Ok s' -> table k' s' = table k' s) by (intros i s s' (T & _)%put_user_frame; unfold table; by rewrite T).
  destruct (decide (k = NS_USER)) as [->|Nk].
  { cbn [ns_put_locked] in E. destruct ((id =? 0) || (ns_max NS_USER <=? id)); [by injection E as <-|by apply PU in E]. }
  rewrite put_eq in E by done. destruct ((id =? 0) || (ns_max k <=? id)); [by injection E as <-|]. cbv zeta in E.
  destruct (negb (used _) || (refs _ =? 0)); [done|]. set (x := slot_of st k id) in *. set (st1 := upd_slot k id (slot_refs (u32 (refs x - 1))) st) in *.
  assert (E1 : table k' st1 = table k' st) by (by apply table_ne). rewrite <- E1. destruct (u32 (refs x - 1) <>? 0); [by injection E as <-|].
  destruct (ns_kind_deferred k); [injection E as <-; exact (table_ne k k' id _ st1 N)|].
  clearbody st1 x. apply rbind_inv in E as (st2 & E2 & E). apply PU in E. rewrite E, table_ne by done. clear E.
  unfold release_data in E2. destruct k; [by injection E2 as <-|by injection E2 as <-| |by injection E2 as <-..].
  apply rbind_inv in E2 as ([par p] & _ & E2). rewrite (IH _ _ _ _ k' E2 N NU). reflexivity.
Qed.
Lemma put_table k id st st' k' : put k id st = Ok st' -> k' <> k -> k' <> NS_USER -> table k' st' = table k' st.
Proof. unfold put. apply put_frame. Qed.
#[local] Opaque put.
Lemma get_table k id st k' : k' <> k -> table k' (Namespace.ns_get_locked k id st) = table k' st.
Proof. intros N. unfold Namespace.ns_get_locked. destruct ((id =? 0) || (ns_max k <=? id)); [done|]. destruct k; try done; by apply table_ne. Qed.
Lemma settle_ok r : used_wf r -> let r' := if ns_row_trivial r then set_used false r else r in
  row_wf r' /\ forall k id, id <> 0 -> hcount (k, id) (row_refs r') = hcount (k, id) (all_refs r).
Proof.
  intros [[W1 W2 W3 W4] U]. cbv zeta. assert (W' : row_wf (if ns_row_trivial r then set_used false r else r)) by (destruct (ns_row_trivial r) eqn:T; [constructor; [done|done|intros _; exact T|done]|constructor; [done|done|congruence|done]]).
  split; [done|]. intros k id N. rewrite row_refs_all by done. by destruct (ns_row_trivial r).
Qed.
(** Taking the new reference, dropping the old one. *)
Lemma install_swap dead st r r' k old id c held : used_wf r -> shifts r r' k old id -> cinv dead st (row_refs r ++ cred_refs (Some c) ++ held) ->
  room_for 10 (row_refs r ++ cred_refs (Some c) ++ held) -> alive st k id -> k <> NS_USER ->
  exists st', put k old (Namespace.ns_get_locked k id st) = Ok st' /\ cinv dead st' (all_refs r' ++ cred_refs (Some c) ++ held) /\
    forall k', k' <> k -> k' <> NS_USER -> table k' st' = table k' st.
Proof.
  intros W S I R A N. rewrite (used_refs r W) in *. destruct (swap_ok dead (Namespace.ns_get_locked k id st) r r' k old id (cred_refs (Some c) ++ held) S) as (st' & E & I').
  { apply ns_get_ok; [done|eapply room_for_room; [exact R|lia]|done]. }
  exists st'. split_and!; [done|done|]. intros k' N1 N2. rewrite (put_table _ _ _ _ k' E N1 N2). by apply get_table.
Qed.
Definition installed (dead : list ref) (k : ns_kind) (st : core) (held : list ref) (m : res (ns_row * cred * core)) : Prop :=
  exists r' c' st', m = Ok (r', c', st') /\ cinv dead st' (row_refs r' ++ cred_refs (Some c') ++ held) /\ row_wf r' /\
    forall k', k' <> k -> k' <> NS_USER -> table k' st' = table k' st.
Lemma install_end dead k st held r c st' : used_wf r -> cinv dead st' (all_refs r ++ cred_refs (Some c) ++ held) -> (forall k', k' <> k -> k' <> NS_USER -> table k' st' = table k' st) ->
  installed dead k st held (Ok (if ns_row_trivial r then set_used false r else r, c, st')).
Proof.
  intros W I F. destruct (settle_ok r W) as [W' C]. do 3 eexists. split_and!; [done| |done|done]. eapply cinv_counts; [exact I|]. intros k' id Hid. by rewrite !hcount_app, C.
Qed.
Lemma install_user_ok dead st id r c held : cinv dead st (row_refs r ++ cred_refs (Some c) ++ held) -> used_wf r -> room_for 10 (row_refs r ++ cred_refs (Some c) ++ held) -> alive st NS_USER id ->
  installed dead NS_USER st held (let* st := put_user (user_ns c) (Namespace.ns_get_locked NS_USER id st) in Ok (if ns_row_trivial r then set_used false r else r, enter_caps id c, st)).
Proof.
  intros I W R A. assert (I1 : cinv dead (Namespace.ns_get_locked NS_USER id st) ((NS_USER, id) :: row_refs r ++ cred_refs (Some c) ++ held)).
  { apply ns_get_ok; [done|eapply room_for_room; [exact R|lia]|done]. }
  destruct (put_user_ok (dead := dead) (Namespace.ns_get_locked NS_USER id st) ((NS_USER, id) :: row_refs r ++ held) (user_ns c)) as (st2 & E2 & I2).
  { eapply cinv_counts; [exact I1|]. intros k' i Hi. cbn [cred_refs]. rewrite !hcount_ref, !hcount_app, hcount_ref, hcount_nil. lia. }
  rewrite E2. cbn [rbind]. apply install_end; [done| |].
  - rewrite <- (used_refs r W). eapply cinv_counts; [exact I2|]. intros k' i Hi. cbn [cred_refs]. rewrite !hcount_ref, !hcount_app, hcount_ref, hcount_nil.
    change (user_ns (enter_caps id c)) with id. lia.
  - intros k' N1 N2. apply put_user_frame in E2 as [T _]. transitivity (table k' (Namespace.ns_get_locked NS_USER id st)); [unfold table; by rewrite T|by apply get_table].
Qed.
Lemma u16_id st k id : alive st k id -> u16 id = id.
Proof. intros [H _]. pose proof (ns_max_pos k). apply u16_small. lia. Qed.
Lemma install_time_ok dead st id r c held : cinv dead st (row_refs r ++ cred_refs (Some c) ++ held) -> used_wf r -> room_for 10 (row_refs r ++ cred_refs (Some c) ++ held) -> alive st NS_TIME id ->
  let r' := set_rid NS_TIME id (set_time_children id r) in
  exists st1 st2, put NS_TIME (time_children r) (Namespace.ns_get_locked NS_TIME id (Namespace.ns_get_locked NS_TIME id st)) = Ok st1 /\ put NS_TIME (rid r NS_TIME) st1 = Ok st2 /\
    installed dead NS_TIME st held (Ok (if ns_row_trivial r' then set_used false r' else r', c, if id <>? 0 then upd_slot NS_TIME id slot_entered st2 else st2)).
Proof.
  intros I W R A r'. rewrite (used_refs r W) in *. set (s1 := Namespace.ns_get_locked NS_TIME id st). set (s2 := Namespace.ns_get_locked NS_TIME id s1). set (l := cred_refs (Some c) ++ held) in *.
  assert (I1 : cinv dead s1 ((NS_TIME, id) :: all_refs r ++ l)) by (apply ns_get_ok; [done|eapply room_for_room; [exact R|lia]|done]).
  assert (I2 : cinv dead s2 ((NS_TIME, id) :: (NS_TIME, id) :: all_refs r ++ l)).
  { apply ns_get_ok; [done|apply (room_for_room 9); [by apply room_for_cons|lia]|]. eapply held_alive; [exact I1|left]. }
  destruct (swap_ok dead s2 r (set_time_children id r) NS_TIME (time_children r) id ((NS_TIME, id) :: l) (shift_time r id)) as (st1 & E1 & I3).
  { eapply cinv_counts; [exact I2|]. intros k i Hi. rewrite !hcount_ref, !hcount_app, hcount_ref. lia. }
  assert (Wt : used_wf (set_time_children id r)) by (by apply used_time).
  destruct (swap_ok dead st1 (set_time_children id r) r' NS_TIME (rid r NS_TIME) id l) as (st2 & E2 & I4).
  { apply (shift_rid (set_time_children id r) NS_TIME id); [apply Wt|done]. }
  { eapply cinv_counts; [exact I3|]. intros k i Hi. rewrite !hcount_ref, !hcount_app, hcount_ref. lia. }
  assert (W' : used_wf r') by (by apply used_rid). exists st1, st2. split_and!; [done|done|]. apply install_end; [done| |].
  - apply entered_ok; [done|]. apply elem_of_app. left. unfold all_refs. rewrite !elem_of_app. right. left. right. left.
  - intros k' N1 N2. transitivity (table k' st2); [destruct (id <>? 0); [by apply table_ne|done]|].
    rewrite (put_table _ _ _ _ k' E2 N1 N2), (put_table _ _ _ _ k' E1 N1 N2). unfold s2, s1. by rewrite !get_table by done.
Qed.
Lemma install_ok dead st k id r c held : cinv dead st (row_refs r ++ cred_refs (Some c) ++ held) -> row_wf r -> room_for 30 (row_refs r ++ cred_refs (Some c) ++ held) -> alive st k id ->
  installed dead k st held (ns_install_locked k id r c st).
Proof.
  intros I0 W0 R0 A. unfold ns_install_locked. cbv zeta. destruct (fresh_row r W0) as [W C]. set (r1 := if r_used r then r else set_used true row_zero) in *.
  assert (I : cinv dead st (row_refs r1 ++ cred_refs (Some c) ++ held)) by (eapply cinv_counts; [exact I0|]; intros k' i Hi; by rewrite !hcount_app, C).
  assert (R : room_for 10 (row_refs r1 ++ cred_refs (Some c) ++ held)).
  { unfold room_for in *. rewrite !length_app in *. pose proof (orow_len (Some r1)) as L. cbn [orow_refs] in L. lia. }
  pose proof (u16_id _ _ _ A) as U16. destruct (decide (k = NS_USER)) as [->|NU].
  { pose proof (install_user_ok dead st id r1 c held I W R A) as (r' & c' & st' & E & X). exists r', c', st'. split; [|done].
    apply rbind_inv in E as (s & -> & E). cbn [rbind]. exact E. }
  destruct (decide (k = NS_TIME)) as [->|NT].
  { destruct (install_time_ok dead st id r1 c held I W R A) as (st1 & st2 & E1 & E2 & X). rewrite E1. cbn [rbind]. rewrite E2. cbn [rbind]. by rewrite U16. }
  assert (G : forall r2 old, shifts r1 r2 k old id -> used_wf r2 -> exists st', put k old (Namespace.ns_get_locked k id st) = Ok st' /\ installed dead k st held (Ok (if ns_row_trivial r2 then set_used false r2 else r2, c, st'))).
  { intros r2 old S W2. destruct (install_swap dead st r1 r2 k old id c held W S I R A NU) as (st' & E & I' & F). exists st'. split; [done|]. by apply install_end. }
  destruct (decide (k = NS_PID)) as [->|NP].
  - destruct (G (set_pid_children id r1) (pid_children r1) (shift_pid r1 id) (used_pid _ _ W)) as (st' & E & X). rewrite E. cbn [rbind]. by rewrite U16.
  - assert (O : is_other k = true) by (unfold is_other; by rewrite bool_decide_eq_false_2).
    destruct (G (set_rid k id r1) (rid r1 k)) as (st' & E & X); [apply shift_rid; [apply W|done]|by apply used_rid|].
    replace (match k with NS_USER => _ | _ => _ end) with (let* st := put k (rid r1 k) (Namespace.ns_get_locked k id st) in Ok (set_rid k (u16 id) r1, c, st)) by (by destruct k).
    rewrite E. cbn [rbind]. by rewrite U16.
Qed.
Lemma alive_table st st' k id : k <> NS_USER -> table k st' = table k st -> alive st k id -> alive st' k id.
Proof. intros N T [Hi L]. split; [done|]. intros H. specialize (L H). destruct k; try done; cbn [slot_of] in *; by rewrite T. Qed.
Lemma room_rows n held r c : room_for (n + 18) held -> room_for n (row_refs r ++ cred_refs (Some c) ++ held).
Proof. unfold room_for. rewrite !length_app. pose proof (orow_len (Some r)) as L. cbn [orow_refs cred_refs length] in *. lia. Qed.
Lemma install_all_ok dead want targets ks : NoDup ks -> forall r c st held, cinv dead st (row_refs r ++ cred_refs (Some c) ++ held) -> row_wf r -> room_for 60 held ->
  (forall k, k ∈ ks -> k <> NS_USER -> want k = true -> alive st k (targets k)) ->
  exists r' c' st', install_all ks want targets r c st = Ok (r', c', st') /\ cinv dead st' (row_refs r' ++ cred_refs (Some c') ++ held) /\ row_wf r'.
Proof.
  intros ND. induction ks as [|k ks IH]; intros r c st held I W R A; cbn [install_all]; [by exists r, c, st|]. apply NoDup_cons in ND as [Ni ND].
  destruct (bool_decide (k = NS_USER) || negb (want k)) eqn:B; [apply IH; [done..|]; intros k' Hk'; apply A; by right|].
  apply orb_false_iff in B as [B1%bool_decide_eq_false B2%negb_false_iff].
  destruct (install_ok dead st k (targets k) r c held I W) as (r' & c' & st' & E & I' & W' & F); [apply room_rows; unfold room_for in *; lia|apply A; [left|done|done]|].
  rewrite E. cbn [rbind]. apply IH; [done..|]. intros k' Hk' N' w'. assert (k' <> k) by (by intros ->). eapply alive_table; [done|by apply F|]. apply A; [by right|done|done].
Qed.
Lemma check_all_0 want targets c r threads st ks : check_all ks want targets c r threads st = 0 ->
  forall k, k ∈ ks -> k <> NS_USER -> want k = true -> ns_install_check_locked k (targets k) c r threads st = 0.
Proof.
  induction ks as [|k ks IH]; intros E k' Hk N w; [by apply elem_of_nil in Hk|]. cbn [check_all] in E. destruct (bool_decide (k = NS_USER) || negb (want k)) eqn:B.
  - apply elem_of_cons in Hk as [->|Hk]; [|by apply IH]. rewrite w, bool_decide_eq_false_2 in B by done. done.
  - destruct (Z.eqb_spec (ns_install_check_locked k (targets k) c r threads st) 0) as [Z|Z]; cbn [negb] in E; [|done]. apply elem_of_cons in Hk as [->|Hk]; [done|by apply IH].
Qed.
Lemma check_live k id c r threads st : ns_install_check_locked k id c r threads st = 0 -> Namespace.ns_live_locked k id st = true.
Proof. unfold ns_install_check_locked. by destruct (Namespace.ns_live_locked k id st). Qed.
Lemma setns_ok dead by_pidfd want targets threads r c st held : cinv dead st (row_refs r ++ cred_refs (Some c) ++ held) -> row_wf r -> room_for 60 held -> (forall k, 0 <= targets k) ->
  exists rc r' c' st', setns_locked by_pidfd want targets threads r c st = Ok (rc, r', c', st') /\ cinv dead st' (row_refs r' ++ cred_refs (Some c') ++ held) /\ row_wf r'.
Proof.
  intros I W R T. unfold setns_locked. rewrite (ensure_ready _ _ I).
  match goal with |- context [rbind ?m _] => assert (exists rc r1 c1 st1, m = Ok (rc, r1, c1, st1) /\ cinv dead st1 (row_refs r1 ++ cred_refs (Some c1) ++ held) /\ row_wf r1) as (rc & r1 & c1 & st1 & -> & I1 & W1) end.
  { destruct (want NS_USER && negb ((targets NS_USER =? user_ns c) && by_pidfd)); [|by exists 0, r, c, st].
    destruct (Z.eqb_spec (ns_install_check_locked NS_USER (targets NS_USER) (Some c) r threads st) 0) as [Z|Z]; [|by do 4 eexists].
    destruct (install_ok dead st NS_USER (targets NS_USER) r c held I W) as (r' & c' & st' & E & I' & W' & _); [apply room_rows; unfold room_for in *; lia| |].
    - eapply live_alive; [exact I|done|by eapply check_live].
    - rewrite E. cbn [rbind]. by do 4 eexists. }
  cbn [rbind]. set (rc2 := if rc =? 0 then _ else rc). destruct (Z.eqb_spec rc2 0) as [Z|Z]; [|by do 4 eexists].
  destruct (install_all_ok dead want targets kinds kinds_nodup r1 c1 st1 held I1 W1 R) as (r' & c' & st' & E & I' & W').
  - intros k Hk N w. eapply live_alive; [exact I1|done|]. eapply check_live, check_all_0; [|exact Hk|done|done]. subst rc2. destruct (Z.eqb_spec rc 0); [exact Z|done].
  - rewrite E. cbn [rbind]. by do 4 eexists.
Qed.

(** ** Building namespaces *)

Lemma alive_live st held dead id : cinv dead st held -> alive st NS_USER id -> live (user st) id.
Proof. intros I [Hi L]. destruct (decide (id = 0)) as [->|N]; [apply (inv_root _ _ _ (c_user _ _ _ I))|by apply L]. Qed.
Lemma build_user_ok dead st flags c held : cinv dead st (cred_refs (Some c) ++ held) -> room_for 10 (cred_refs (Some c) ++ held) ->
  exists rc set st', build_user flags (Some c) st = (rc, set, st') /\ cinv dead st' (set_refs set ++ cred_refs (Some c) ++ held) /\ length set = 8%nat /\
    (forall k, k <> NS_USER -> set !!! kind_index k = 0) /\ (flags &? CLONE_NEWUSER = false -> set !!! kind_index NS_USER = 0) /\ (rc < 0 -> set !!! kind_index NS_USER = 0).
Proof.
  intros I R. assert (Z : forall set st', (forall k, set !!! kind_index k = 0) -> cinv dead st' (cred_refs (Some c) ++ held) -> cinv dead st' (set_refs set ++ cred_refs (Some c) ++ held)).
  { intros set st' Zs I'. eapply cinv_counts; [exact I'|]. intros k id Hid. rewrite !hcount_app, hcount_set, Zs, (proj2 (Z.eqb_neq 0 id)) by done. cbn [Z.b2z]. lia. }
  unfold build_user. destruct (flags &? CLONE_NEWUSER) eqn:F.
  2:{ do 3 eexists. split_and!; [done|by apply Z; [apply zeros_at|]|done|intros k _; apply zeros_at|done|done]. }
  assert (A : alive st NS_USER (user_ns c)) by (eapply held_alive; [exact I|left]).
  destruct (userns_create (user st) (Some c)) as [rc u] eqn:E.
  destruct (create_preserves _ _ c rc u (c_user _ _ _ I)) as [[Hr ->]|(Hr & Hn & Hd & Iu & _)]; [apply A|by eapply alive_live| |done| |].
  { intros N. eapply user_refs_lt; [exact I|by eapply room_for_room|apply A|by eapply alive_live|done]. }
  - rewrite (proj2 (Z.ltb_lt rc 0) Hr). do 3 eexists. split_and!; [done| |done|intros k _; apply zeros_at|done|done].
    apply Z; [apply zeros_at|]. eapply cinv_irrel; [..|exact I]; done.
  - rewrite (proj2 (Z.ltb_ge rc 0)) by apply Hr. do 3 eexists. split_and!; [done| |done| |done|done].
    + apply (cinv_counts _ _ ((NS_USER, rc) :: cred_refs (Some c) ++ held)).
      * apply (cinv_user st (cred_refs (Some c) ++ held)); [done| | |].
        -- eapply ns_inv_ext; [exact Iu| |].
           ++ intros o _. unfold held_add. rewrite hcount_ref. change (bool_decide (NS_USER = NS_USER)) with true. cbn [andb]. rewrite (Z.eqb_sym rc o). destruct (o =? rc); cbn [Z.b2z]; lia.
           ++ intros o. pose proof (hcount_nonneg (NS_USER, o) ((NS_USER, rc) :: cred_refs (Some c) ++ held)). pose proof (owned_nonneg st o). lia.
        -- intros k id N. apply hcount_other. congruence.
        -- intros k id [[= -> ->]|H]%elem_of_cons; [exact Hr|by apply (c_range _ _ _ I)].
      * intros k id Hid. rewrite hcount_ref, hcount_app, hcount_set, lookup_kind_insert by done. rewrite zeros_at. case_bool_decide; cbn [andb]; [lia|]. rewrite (proj2 (Z.eqb_neq 0 id)) by done. cbn [Z.b2z]. lia.
    + intros k N. rewrite lookup_kind_insert, bool_decide_eq_false_2 by done. apply zeros_at.
Qed.
Lemma get_owned st held dead k id o : cinv dead st held -> alive st k id -> k <> NS_USER -> owned (Namespace.ns_get_locked k id st) o = owned st o.
Proof.
  intros I [Hi _] N. unfold Namespace.ns_get_locked. destruct ((id =? 0) || (ns_max k <=? id)); [done|].
  replace (match k with NS_USER => _ | _ => _ end) with (upd_slot k id (fun x => slot_refs (u32 (refs x + 1)) x) st) by (by destruct k).
  rewrite owned_upd by (done || exact (c_shape _ _ _ I)). unfold owns. cbn [used owner slot_refs]. lia.
Qed.
(** The first reference of a new PID namespace, its parent's reference taken. *)
Lemma pid_build_ok dead st held cp own n u i : cinv dead st held -> room held -> alive st NS_PID cp -> level_of st cp + 1 < PidNs.NS_MAX_LEVEL -> 0 <= own < ns_max NS_USER ->
  0 < i < ns_max NS_PID -> used (slot_of st NS_PID i) = false -> ns_inv u (fun o => hcount (NS_USER, o) held + owned st o + if o =? own then 1 else 0) ->
  let st1 := set_user u (upd_slot NS_PID i (fun _ => new_slot own n) st) in
  cinv dead (Namespace.ns_get_locked NS_PID cp (set_pids (PidNs.pidns_init_locked i cp (pids st1)) st1)) ((NS_PID, i) :: held).
Proof.
  intros I Rm A L Ow Hi U Iu st1. change (pids st1) with (pids st).
  assert (Nc : cp <> i).
  { intros ->. destruct A as [_ A]. destruct (A ltac:(lia)) as [A1 _]. congruence. }
  pose proof (ns_get_ok st held NS_PID cp I Rm A) as I1. pose proof A as [Hc _]. set (st2 := Namespace.ns_get_locked NS_PID cp st) in *.
  assert (E : Namespace.ns_get_locked NS_PID cp (set_pids (PidNs.pidns_init_locked i cp (pids st)) st1) =
    set_user u (set_pids (PidNs.pidns_init_locked i cp (pids st2)) (upd_slot NS_PID i (fun _ => new_slot own n) st2))).
  { unfold st2. rewrite get_frame. unfold Namespace.ns_get_locked. destruct ((cp =? 0) || (ns_max NS_PID <=? cp)); [done|].
    rewrite (upd_slot_comm st NS_PID i cp) by lia. done. }
  rewrite E. apply cinv_pid_new; [done|done| |done| |].
  - unfold st2, Namespace.ns_get_locked. destruct ((cp =? 0) || (ns_max NS_PID <=? cp)); [done|]. rewrite slot_upd by (exact (c_shape _ _ _ I) || done || lia).
    rewrite (proj2 (Z.eqb_neq i cp)) by congruence. by rewrite andb_false_r.
  - unfold level_of, st2. rewrite get_frame. exact L.
  - eapply ns_inv_ext; [exact Iu|intros o _; cbv beta; unfold st2; by rewrite (get_owned st held dead) by done|].
    intros o. pose proof (hcount_nonneg (NS_USER, o) held). pose proof (owned_nonneg st2 o). case_match; lia.
Qed.
Lemma alloc_build_ok dead st held k own cu cp ct : cinv dead st held -> room held -> alive st NS_USER own -> k <> NS_USER ->
  (k = NS_PID -> alive st NS_PID cp /\ level_of st cp + 1 < PidNs.NS_MAX_LEVEL) ->
  exists id st1, Namespace.ns_alloc_locked k own st = (id, st1) /\ (id = 0 /\ st1 = st \/ 0 < id < ns_max k /\
    cinv dead (build_init k id cu cp ct st1) ((k, id) :: held) /\ (k <> NS_PID -> pids (build_init k id cu cp ct st1) = pids st)).
Proof.
  intros I Rm A N HP. destruct (alloc_cases st held k own I Rm A N) as [E|(i & n & u & Hi & U & E & Iu)]; [exists 0, st; split; [done|by left]|].
  eexists i, _. split; [exact E|right]. split; [done|]. destruct (decide (k = NS_PID)) as [->|NP].
  - destruct (HP eq_refl) as [Ac L]. split; [|done]. cbn [build_init]. apply pid_build_ok; try done. apply A.
  - set (st1 := set_user u (upd_slot k i (fun _ => new_slot own n) st)). assert (I1 : cinv dead st1 ((k, i) :: held)) by (apply cinv_new; try done; apply A).
    split; [|intros _; by destruct k]. eapply cinv_irrel; [..|exact I1]; by destruct k.
Qed.
(** The namespaces of a set under construction. *)
Record set_ok (dead : list ref) (flags : Z) (st : core) (set : list Z) (held : list ref) : Prop := {
  b_cinv : cinv dead st (set_refs set ++ held);
  b_len : length set = 8%nat;
  b_unasked : forall k, flags &? namespace_kind_flag k = false -> set !!! kind_index k = 0 }.
Lemma set_insert set k id held : length set = 8%nat -> set !!! kind_index k = 0 ->
  forall k' i, i <> 0 -> hcount (k', i) (set_refs (<[kind_index k := id]> set) ++ held) = hcount (k', i) ((k, id) :: set_refs set ++ held).
Proof.
  intros L Z k' i Hi. rewrite hcount_ref, !hcount_app, !hcount_set, lookup_kind_insert by done. destruct (decide (k' = k)) as [->|N].
  - rewrite (bool_decide_eq_true_2 (k = k)), Z, (proj2 (Z.eqb_neq 0 i)) by done. cbn [andb Z.b2z]. lia.
  - rewrite !(bool_decide_eq_false_2 (k' = k)) by done. cbn [andb Z.b2z]. lia.
Qed.
Lemma build_loop_ok dead flags own cu cp ct ks : NoDup ks -> forall set st held, set_ok dead flags st set held -> room_for 40 held ->
  (own = set !!! kind_index NS_USER \/ (NS_USER, own) ∈ held) -> (cp = 0 \/ (NS_PID, cp) ∈ held) ->
  (NS_PID ∈ ks -> flags &? CLONE_NEWPID = true -> level_of st cp + 1 < PidNs.NS_MAX_LEVEL) -> (forall k, k ∈ ks -> k <> NS_USER -> set !!! kind_index k = 0) ->
  exists rc set' st', build_loop ks flags own cu cp ct set st = (rc, set', st') /\ set_ok dead flags st' set' held.
Proof.
  intros ND. induction ks as [|k ks IH]; intros set st held S R HO HP HL Z; cbn [build_loop]; [by do 3 eexists|]. apply NoDup_cons in ND as [Ni ND].
  destruct (bool_decide (k = NS_USER) || negb (flags &? namespace_kind_flag k)) eqn:B.
  { apply (IH ND); [done..|intros H; apply HL; by right|intros k' H; apply Z; by right]. }
  apply orb_false_iff in B as [B1%bool_decide_eq_false B2%negb_false_iff]. destruct S as [I L Un].
  assert (A : alive st NS_USER own).
  { eapply held_alive; [exact I|]. apply elem_of_app. destruct HO as [->|H]; [left|by right]. apply list_elem_of_fmap. exists NS_USER. split; [done|apply in_kinds]. }
  assert (Rm : room (set_refs set ++ held)) by (unfold room, room_for in *; rewrite length_app; change (length (set_refs set)) with 8%nat; lia).
  assert (Ac : alive st NS_PID cp) by (destruct HP as [->|H]; [split; [cbn; lia|done]|eapply held_alive; [exact I|apply elem_of_app; by right]]).
  destruct (alloc_build_ok dead st (set_refs set ++ held) k own cu cp ct I Rm A B1) as (id & st1 & E & C).
  { intros ->. split; [done|]. apply HL; [left|done]. }
  rewrite E. destruct C as [[-> ->]|(Hi & I1 & P1)]; [do 3 eexists; split; [done|by constructor]|]. rewrite (proj2 (Z.eqb_neq id 0)) by lia.
  assert (Zk : set !!! kind_index k = 0) by (apply Z; [left|done]).
  apply (IH ND); [|done| |done| |].
  - constructor; [|by rewrite length_insert|].
    + eapply cinv_counts; [exact I1|]. by apply set_insert.
    + intros k' F. rewrite lookup_kind_insert by done. case_bool_decide as Q; [congruence|by apply Un].
  - rewrite lookup_kind_insert, bool_decide_eq_false_2 by (done || congruence). done.
  - intros H F. unfold level_of in *. rewrite P1; [by apply HL; [right|]|]. by intros ->.
  - intros k' Hk' N'. rewrite lookup_kind_insert, bool_decide_eq_false_2; [apply Z; [by right|done]|by intros ->|done].
Qed.
Lemma build_others_ok dead flags own r set st held : set_ok dead flags st set (row_refs r ++ held) -> row_wf r -> room_for 60 held ->
  (own = set !!! kind_index NS_USER \/ (NS_USER, own) ∈ held) -> (forall k, k <> NS_USER -> set !!! kind_index k = 0) ->
  exists rc set' st', build_others flags own (Some r) set st = (rc, set', st') /\ set_ok dead flags st' set' (row_refs r ++ held).
Proof.
  intros S W R HO Z. unfold build_others. rewrite (ensure_ready _ _ (b_cinv _ _ _ _ _ S)). cbv zeta. set (r1 := if r_used r then r else row_zero).
  destruct ((flags &? CLONE_NEWPID) && (pid_children r1 <>? rid r1 NS_PID)); [by do 3 eexists|].
  destruct ((flags &? CLONE_NEWPID) && (PidNs.NS_MAX_LEVEL <=? PidNs.pidns_level_locked (pids st) (rid r1 NS_PID) + 1)) eqn:Lv; [by do 3 eexists|].
  assert (C : rid r1 NS_PID = 0 \/ (NS_PID, rid r1 NS_PID) ∈ row_refs r ++ held).
  { subst r1. destruct (r_used r) eqn:U; [right|by left]. apply elem_of_app. left. apply own_in; [done|]. by apply row_id_in. }
  apply build_loop_ok; [apply kinds_nodup|done| |by destruct HO; [left|right; apply elem_of_app; right]|done| |intros k _; apply Z].
  - unfold room_for in *. rewrite length_app. pose proof (orow_len (Some r)) as L. cbn [orow_refs] in L. lia.
  - intros _ F. rewrite F in Lv. cbn [andb] in Lv. apply Z.leb_gt in Lv. unfold PidNs.pidns_level_locked in Lv. unfold level_of.
    assert (H : rid r1 NS_PID < PidNs.NS_MAX_PID); [|apply Z.ltb_lt in H; by rewrite H in Lv].
    destruct C as [->|H]; [done|]. apply (c_range _ _ _ (b_cinv _ _ _ _ _ S) NS_PID). apply elem_of_app. by right.
Qed.

(** ** The reaper *)

Definition dead_ok (dead : list ref) : Prop := NoDup dead /\ forall k id, (k, id) ∈ dead -> ns_kind_deferred k = true /\ 0 < id < ns_max k.
Lemma deferred_other k : ns_kind_deferred k = true -> k <> NS_USER /\ k <> NS_PID.
Proof. by destruct k. Qed.
Lemma collect_kind_ok k held idxs : ns_kind_deferred k = true -> (forall i, i ∈ idxs -> 0 < i < ns_max k) -> forall dl st,
  cinv (fst <$> dl) st held -> dead_ok (fst <$> dl) ->
  let '(dl', st') := collect_kind idxs k dl st in cinv (fst <$> dl') st' held /\ dead_ok (fst <$> dl').
Proof.
  intros D. destruct (deferred_other k D) as [NU NP]. induction idxs as [|i idxs IH]; intros Hi dl st I DO; cbn [collect_kind]; [done|].
  specialize (IH (fun j Hj => Hi j (proj2 (elem_of_cons _ _ _) (or_intror Hj)))). pose proof (Hi i ltac:(left)) as Hii.
  destruct (REAP_BATCH <=? Z.of_nat (length dl)); [done|]. destruct (negb (used (slot_of st k i)) || (zombie (slot_of st k i) =? 0) || (zombie (slot_of st k i) =? 2)) eqn:B; [by apply IH|].
  apply orb_false_iff in B as [[B1%negb_false_iff B2%Z.eqb_neq]%orb_false_iff B3%Z.eqb_neq].
  pose proof (c_slot _ _ _ I k i NU Hii) as S. unfold slot_ok, slot_good in S. rewrite B1 in S. destruct S as [Ow [(? & _)|(_ & S2 & S3 & S4)]]; [done|].
  assert (Nd : (k, i) ∉ fst <$> dl) by (intros M; rewrite bool_decide_eq_true_2 in S4 by done; done).
  assert (G : forall cg st', user st' = user (upd_slot k i (slot_zombie 2) st) -> tables st' = tables (upd_slot k i (slot_zombie 2) st) -> pids st' = pids (upd_slot k i (slot_zombie 2) st) ->
    let '(dl', st'') := collect_kind idxs k (dl ++ [(k, i, cg)]) st' in cinv (fst <$> dl') st'' held /\ dead_ok (fst <$> dl')).
  { intros cg st' E1 E2 E3. apply IH; rewrite fmap_app; cbn [fmap list_fmap fst].
    - eapply cinv_irrel; [exact E1|exact E2|exact E3|]. apply (cinv_slot (dead := fst <$> dl) ((fst <$> dl) ++ [(k, i)]) st held); [done|done|done|done|done| | |done].
      + unfold slot_good. cbn [used slot_zombie owner zombie refs]. rewrite B1, bool_decide_eq_true_2 by (apply elem_of_app; right; left). split; [done|]. right. done.
      + intros p Np. rewrite elem_of_app, list_elem_of_singleton. tauto.
    - destruct DO as [D1 D2]. split; [apply NoDup_app; split_and!; [done|intros x Hx ->%list_elem_of_singleton; done|apply NoDup_singleton]|].
      intros k' j [H|[= -> ->]%list_elem_of_singleton]%elem_of_app; [by apply D2|done]. }
  destruct k; try done; by apply G.
Qed.
Lemma ids_from_1_in k i : i ∈ ids_from_1 k -> 0 < i < ns_max k.
Proof. unfold ids_from_1. intros (n & -> & Hn%elem_of_seq)%list_elem_of_fmap. pose proof (ns_max_pos k). lia. Qed.
Lemma reaper_collect_ok st held : cinv [] st held -> let '(dl, st') := reaper_collect st in cinv (fst <$> dl) st' held /\ dead_ok (fst <$> dl).
Proof.
  intros I. unfold reaper_collect. cbv zeta.
  assert (F : forall ks dl st, cinv (fst <$> dl) st held -> dead_ok (fst <$> dl) -> let '(dl', st') := fold_left (fun '(dead, st) k => if ns_kind_deferred k then collect_kind (ids_from_1 k) k dead st else (dead, st)) ks (dl, st) in
    cinv (fst <$> dl') st' held /\ dead_ok (fst <$> dl')).
  { induction ks as [|k ks IH]; intros dl s Is Ds; cbn [fold_left]; [done|]. destruct (ns_kind_deferred k) eqn:D; [|by apply IH].
    pose proof (collect_kind_ok k held (ids_from_1 k) D (ids_from_1_in k) dl s Is Ds) as C. destruct (collect_kind (ids_from_1 k) k dl s) as [dl1 s1]. destruct C. by apply IH. }
  pose proof (F kinds [] (set_pending false st)) as C. destruct (fold_left _ kinds ([], set_pending false st)) as [dl st1].
  destruct C as [I1 D1]; [eapply cinv_irrel; [..|exact I]; done|split; [constructor|by intros k id H%elem_of_nil]|].
  split; [|done]. destruct (Z.of_nat (length dl) =? REAP_BATCH); [eapply cinv_irrel; [..|exact I1]; done|done].
Qed.
Lemma reaper_finish_ok dead : forall st held, cinv dead st held -> dead_ok dead -> exists st', reaper_finish dead st = Ok st' /\ cinv [] st' held.
Proof.
  induction dead as [|[k id] dead IH]; intros st held I [ND D]; cbn [reaper_finish]; [by exists st|]. apply NoDup_cons in ND as [Ni ND].
  destruct (D k id ltac:(left)) as [Df Hid]. destruct (deferred_other k Df) as [NU NP].
  pose proof (c_slot _ _ _ I k id NU Hid) as S. unfold slot_ok, slot_good, refs_of in S. rewrite (bool_decide_eq_true_2 ((k, id) ∈ _)), (bool_decide_eq_false_2 (k = NS_PID)) in S by (done || left).
  destruct (used (slot_of st k id)) eqn:U; [|by destruct S]. destruct S as [Ow [(_ & ? & _)|(_ & _ & S3 & _)]]; [done|].
  destruct (put_user_ok (dead := dead) (upd_slot k id (fun x => slot_zombie 0 (slot_used false x)) st) held (owner (slot_of st k id))) as (st1 & E1 & I1).
  { apply (cinv_free (dead := (k, id) :: dead) dead st held); try done; [lia|]. intros p Np. rewrite elem_of_cons. tauto. }
  rewrite E1. cbn [rbind]. apply IH; [done|]. split; [done|]. intros k' j H. apply D. by right.
Qed.
End NamespaceProofs.
