(* ===== verification/NamespaceSystem.v ===== *)
(** The tasks of the system with their namespaces: rows, credentials, sets under
    construction, open namespace files and the reaper, one critical section of
    [ns_lock] at a time. *)
From Stdlib Require Import ZifyBool.
From S2P Require Import Prelude Cred UserNs UserNsProofs UidGid PidNs PidNsProofs Namespace NamespaceInv NamespaceProofs.
From stdpp Require Import list.
Local Open Scope Z_scope.
Local Open Scope kernel_scope.

Module NamespaceSystem.
Import Cred UserNs UserNsProofs Namespace NamespaceInv NamespaceProofs.

(** Where a task is in [ns_build]: its local [set] between the sections. *)
Inductive building := Idle | Began (flags : Z) (set : list Z) | Built (flags : Z) (set : list Z) | Failed (set : list Z).
Record task := mkTask { t_row : ns_row; t_cred : option cred; t_build : building }.
(** [pins] are the open namespace files, [dying] what the reaper tears down. *)
Record sys := mkSys { kern : core; tasks : list task; pins : list (ns_kind * Z); dying : list (ns_kind * Z) }.

Inductive op :=
| op_dup (parent child : nat)
| op_inherit (parent child : nat) (gid : Z) (thread : bool)
| op_exit (t : nat) (gid : Z)
| op_reap (gid : Z)
| op_free_cred (t : nat)
| op_recred (t : nat) (c : cred)
| op_build_user (t : nat) (flags : Z)
| op_build_others (t : nat)
| op_release (t : nat)
| op_prepare (t : nat)
| op_abort (t : nat)
| op_unshare (t : nat)
| op_setns (t : nat) (by_pidfd : bool) (want : ns_kind -> bool) (targets : ns_kind -> Z) (threads : Z)
| op_open (k : ns_kind) (id : Z) (node_ok : bool)
| op_close (i : nat)
| op_collect
| op_finish.

Definition with_task (s : sys) (i : nat) (f : task -> res (task * core)) : res sys :=
  match tasks s !! i with
  | Some t => let* '(t, k) := f t in Ok (mkSys k (<[i := t]> (tasks s)) (pins s) (dying s))
  | None => Ok s
  end.
Definition set_row (r : ns_row) (t : task) : task := mkTask r (t_cred t) (t_build t).
Definition set_cred (c : option cred) (t : task) : task := mkTask (t_row t) c (t_build t).
Definition set_build (b : building) (t : task) : task := mkTask (t_row t) (t_cred t) b.
Definition dup_cred (c : option cred) (st : core) : option cred * core :=
  let '(c, u) := UidGid.cred_dup (user st) true c in (c, set_user u st).
Definition free_cred (c : option cred) (st : core) : res core :=
  match UidGid.cred_free (user st) c with
  | PutOk u => Ok (set_user u st)
  | PutPanic => Panic "namespace: reference underflow"
  | PutNoFuel => Fault
  end.
Definition exec (o : op) (s : sys) : res sys :=
  let st := kern s in
  match o with
  | op_dup p c =>
      match tasks s !! p, tasks s !! c with
      | Some tp, Some tc => let '(cc, st) := dup_cred (t_cred tp) st in Ok (mkSys st (<[c := set_cred cc tc]> (tasks s)) (pins s) (dying s))
      | _, _ => Ok s
      end
  | op_inherit p c gid thread =>
      match tasks s !! p, tasks s !! c with
      | Some tp, Some tc =>
          let* '(pr, cr, cc, st) := namespace_fork_inherit (Some (t_row tp)) (t_row tc) gid (t_cred tc) thread st in
          let tp := match pr with Some r => set_row r tp | None => tp end in
          Ok (mkSys st (<[c := set_cred cc (set_row cr tc)]> (<[p := tp]> (tasks s))) (pins s) (dying s))
      | _, _ => Ok s
      end
  | op_exit i gid => with_task s i (fun t => let* '(r, st) := namespace_task_exit (t_row t) gid st in Ok (set_row r t, st))
  | op_reap gid => let* st := reap_numbers gid st in Ok (mkSys st (tasks s) (pins s) (dying s))
  | op_free_cred i => with_task s i (fun t => let* st := free_cred (t_cred t) st in Ok (set_cred None t, st))
  | op_recred i c => with_task s i (fun t => Ok (set_cred (Some c) t, st))
  | op_build_user i flags => with_task s i (fun t =>
      let '(rc, set, st) := build_user flags (t_cred t) st in
      Ok (set_build (if rc <? 0 then Idle else Began flags set) t, st))
  | op_build_others i => with_task s i (fun t =>
      match t_build t with
      | Began flags set =>
          let '(rc, set, st) := build_others flags (build_owner set (t_cred t)) (Some (t_row t)) set st in
          Ok (set_build (if rc <? 0 then Failed set else Built flags set) t, st)
      | _ => Ok (t, st)
      end)
  | op_release i => with_task s i (fun t =>
      match t_build t with
      | Failed set | Built _ set => let* st := ns_set_release set st in Ok (set_build Idle t, st)
      | _ => Ok (t, st)
      end)
  | op_prepare i => with_task s i (fun t =>
      match t_build t with
      | Built _ set => let* '(r, st) := fork_prepare_commit set (t_row t) st in Ok (set_build Idle (set_row r t), st)
      | _ => Ok (t, st)
      end)
  | op_abort i => with_task s i (fun t => let* '(r, st) := namespace_fork_prepare_abort (t_row t) st in Ok (set_row r t, st))
  | op_unshare i => with_task s i (fun t =>
      match t_build t, t_cred t with
      | Built flags set, Some c =>
          let* '(r, c, st) := unshare_commit flags set (t_row t) c st in Ok (set_build Idle (set_cred (Some c) (set_row r t)), st)
      | _, _ => Ok (t, st)
      end)
  | op_setns i by_pidfd want targets threads => with_task s i (fun t =>
      match t_cred t with
      | Some c => let* '(rc, r, c, st) := setns_locked by_pidfd want targets threads (t_row t) c st in Ok (set_cred (Some c) (set_row r t), st)
      | None => Ok (t, st)
      end)
  | op_open k id node_ok =>
      let* '(pin, st) := nsfs_node k id node_ok st in
      Ok (mkSys st (tasks s) (match pin with inr _ => (k, id) :: pins s | inl _ => pins s end) (dying s))
  | op_close i =>
      match pins s !! i with
      | Some (k, id) => let* st := Namespace.namespace_put k id st in Ok (mkSys st (tasks s) (delete i (pins s)) (dying s))
      | None => Ok s
      end
  | op_collect => let '(dead, st) := reaper_collect st in Ok (mkSys st (tasks s) (pins s) (fst <$> dead))
  | op_finish => let* st := reaper_finish (dying s) st in Ok (mkSys st (tasks s) (pins s) [])
  end.

(** ** References *)

Definition build_refs (b : building) : list ref := match b with Idle => [] | Began _ set | Built _ set | Failed set => set_refs set end.
Definition task_refs (t : task) : list ref := row_refs (t_row t) ++ cred_refs (t_cred t) ++ build_refs (t_build t).
Definition sys_refs (s : sys) : list ref := concat (task_refs <$> tasks s) ++ pins s.
(** What an operation may count on: its task exists and is at that point, ids
    from user space are not negative, and no counter is about to wrap. *)
Definition allowed (o : op) (s : sys) : Prop :=
  room_for 300 (sys_refs s) /\
  match o with
  | op_dup p c => p <> c /\ exists tc, tasks s !! c = Some tc /\ t_cred tc = None
  | op_inherit p c gid thread => p <> c /\ gid <> 0 /\ forall tc cr st, tasks s !! c = Some tc ->
      ns_row_clear_locked (t_row tc) (kern s) = Ok (cr, st) -> PidNsProofs.numbers_left 34 (pids st)
  | op_recred i c => forall t, tasks s !! i = Some t -> exists c0, t_cred t = Some c0 /\ user_ns c = user_ns c0
  | op_build_user i flags => exists t, tasks s !! i = Some t /\ t_build t = Idle
  | op_setns i by_pidfd want targets threads => forall k, 0 <= targets k
  | op_open k id node_ok => 0 <= id
  | op_collect => dying s = []
  | _ => True
  end.
Definition build_wf (b : building) : Prop :=
  match b with
  | Idle => True
  | Began flags set => length set = 8%nat /\ (forall k, k <> NS_USER -> set !!! kind_index k = 0) /\ (flags &? CLONE_NEWUSER = false -> set !!! kind_index NS_USER = 0)
  | Built flags set => length set = 8%nat /\ forall k, flags &? namespace_kind_flag k = false -> set !!! kind_index k = 0
  | Failed set => length set = 8%nat
  end.
Definition task_wf (t : task) : Prop := row_wf (t_row t) /\ build_wf (t_build t).
Record sys_inv (s : sys) : Prop := {
  v_cinv : cinv (dying s) (kern s) (sys_refs s);
  v_tasks : Forall task_wf (tasks s);
  v_dead : dead_ok (dying s) }.

(** The references of one task and of all the others. *)
Lemma task_split l i t : l !! i = Some t -> exists rest, concat (task_refs <$> l) ≡ₚ task_refs t ++ rest /\ forall t', concat (task_refs <$> <[i := t']> l) ≡ₚ task_refs t' ++ rest.
Proof.
  revert i. induction l as [|a l IH]; intros [|i] H; try done.
  - injection H as ->. exists (concat (task_refs <$> l)). split; [done|]. done.
  - destruct (IH i H) as (rest & P & Q). exists (task_refs a ++ rest). rewrite fmap_cons. cbn [concat]. split; [by rewrite P, Permutation_app_swap_app|].
    intros t'. change (<[S i := t']> (a :: l)) with (a :: <[i := t']> l). rewrite fmap_cons. cbn [concat]. by rewrite Q, Permutation_app_swap_app.
Qed.
Lemma sys_split s i t : tasks s !! i = Some t -> exists rest, sys_refs s ≡ₚ task_refs t ++ rest /\
  forall t' k d, sys_refs (mkSys k (<[i := t']> (tasks s)) (pins s) d) ≡ₚ task_refs t' ++ rest.
Proof.
  intros H. destruct (task_split _ _ _ H) as (rest & P & Q). exists (rest ++ pins s). unfold sys_refs. split; [by rewrite P, app_assoc|].
  intros t' k d. cbn [tasks pins]. by rewrite Q, app_assoc.
Qed.
Lemma room_perm n l l' : l ≡ₚ l' -> room_for n l -> room_for n l'.
Proof. intros P. unfold room_for. by rewrite P. Qed.
(** A section of one task. *)
Lemma with_task_ok s i f : sys_inv s ->
  (forall t rest, tasks s !! i = Some t -> task_wf t -> cinv (dying s) (kern s) (task_refs t ++ rest) -> sys_refs s ≡ₚ task_refs t ++ rest ->
    exists t' st', f t = Ok (t', st') /\ cinv (dying s) st' (task_refs t' ++ rest) /\ task_wf t') ->
  exists s', with_task s i f = Ok s' /\ sys_inv s'.
Proof.
  intros [I T D] F. unfold with_task. destruct (tasks s !! i) as [t|] eqn:H; [|by exists s]. destruct (sys_split s i t H) as (rest & P & Q).
  destruct (F t rest eq_refl) as (t' & st' & E & I' & W'); [by eapply Forall_lookup_1|by rewrite <- P|done|]. rewrite E. cbn [rbind]. eexists. split; [done|].
  constructor; [by rewrite Q|apply Forall_insert; done|done].
Qed.

(** ** Every operation keeps the count *)

Lemma dup_cred_ok dead c st held : cinv dead st (cred_refs c ++ held) -> room_for 10 (cred_refs c ++ held) ->
  exists c' st', dup_cred c st = (c', st') /\ cinv dead st' (cred_refs c' ++ cred_refs c ++ held).
Proof.
  intros I R. unfold dup_cred, UidGid.cred_dup. assert (Z : cinv dead (set_user (user st) st) (cred_refs c ++ held)) by (eapply cinv_irrel; [..|exact I]; done).
  destruct c as [c|]; [|do 2 eexists; split; [done|]; by apply cinv_zero]. cbn [negb]. destruct (Z.eqb_spec (user_ns c) 0) as [E|N].
  { do 2 eexists. split; [done|]. cbn [cred_refs app] in *. rewrite E in *. by apply cinv_zero. }
  assert (A : alive st NS_USER (user_ns c)) by (eapply held_alive; [exact I|left]). pose proof A as [Hi L].
  assert (E : UserNs.namespace_get (user st) (user_ns c) = (0, UserNs.ns_get_locked (user st) (user_ns c))).
  { unfold UserNs.namespace_get. rewrite (proj2 (ensure_init_id _ _ _ (c_user _ _ _ I))). unfold UserNs.ns_live_locked. rewrite (proj2 (Z.leb_gt NS_MAX_USER _)) by apply Hi.
    rewrite (proj2 (Z.eqb_neq _ 0)) by done. specialize (L N). unfold live in L. rewrite L. cbn [andb].
    destruct (inv_tree _ _ _ (c_user _ _ _ I) _ Hi N L) as (_ & _ & _ & _ & Zm). by rewrite Zm. }
  rewrite E. cbn [Z.eqb]. do 2 eexists. split; [done|]. pose proof (ns_get_ok st (cred_refs (Some c) ++ held) NS_USER (user_ns c) I (room_for_room _ _ R ltac:(lia)) A) as G.
  unfold Namespace.ns_get_locked in G. rewrite (proj2 (Z.eqb_neq _ 0)), (proj2 (Z.leb_gt _ _)) in G by (done || lia). exact G.
Qed.
Lemma free_cred_ok dead c st held : cinv dead st (cred_refs c ++ held) -> exists st', free_cred c st = Ok st' /\ cinv dead st' held.
Proof.
  intros I. unfold free_cred, UidGid.cred_free. destruct c as [c|]; [|eexists; split; [done|]; eapply cinv_irrel; [..|exact I]; done].
  destruct (user_put_ok st held (user_ns c) I) as (u & E & I'). rewrite namespace_put_eq, E. by eexists.
Qed.
Lemma nsfs_node_ok dead k id ok st held : cinv dead st held -> room held -> 0 <= id ->
  exists pin st', nsfs_node k id ok st = Ok (pin, st') /\ cinv dead st' (match pin with inr _ => (k, id) :: held | inl _ => held end).
Proof.
  intros I R Hi. unfold nsfs_node, Namespace.namespace_get. rewrite (ensure_ready _ _ I). destruct (Namespace.ns_live_locked k id st) eqn:L.
  - cbn [Z.eqb negb]. pose proof (ns_get_ok st held k id I R (live_alive _ _ _ _ I Hi L)) as I1. destruct ok; cbn [negb]; [by do 2 eexists|].
    assert (exists st', Namespace.namespace_put k id (Namespace.ns_get_locked k id st) = Ok st' /\ cinv dead st' held) as (st' & E & I').
    { unfold Namespace.namespace_put. destruct (Z.eqb_spec id 0) as [->|N]; [eexists; split; [done|]; by apply cinv_zero in I1|by apply ns_put_ok]. }
    rewrite E. cbn [rbind]. by do 2 eexists.
  - by do 2 eexists.
Qed.
Lemma task_refs_app t rest : task_refs t ++ rest = row_refs (t_row t) ++ cred_refs (t_cred t) ++ build_refs (t_build t) ++ rest.
Proof. unfold task_refs. by rewrite <- !app_assoc. Qed.
(** A section that changes the row only. *)
Lemma row_section_ok s i (f : ns_row -> core -> res (ns_row * core)) : sys_inv s ->
  (forall dead st r held, cinv dead st (row_refs r ++ held) -> row_wf r -> exists r' st', f r st = Ok (r', st') /\ cinv dead st' (row_refs r' ++ held) /\ row_wf r') ->
  exists s', with_task s i (fun t => let* '(r, st) := f (t_row t) (kern s) in Ok (set_row r t, st)) = Ok s' /\ sys_inv s'.
Proof.
  intros V F. apply with_task_ok; [done|]. intros t rest H [W B] I _. rewrite task_refs_app in I. destruct (F _ _ _ _ I W) as (r' & st' & E & I' & W').
  rewrite E. cbn [rbind]. do 2 eexists. split_and!; [done|by rewrite task_refs_app|done].
Qed.
Lemma op_build_user_ok s i flags : sys_inv s -> allowed (op_build_user i flags) s -> exists s', exec (op_build_user i flags) s = Ok s' /\ sys_inv s'.
Proof.
  intros V [R (t0 & H0 & B0)]. apply with_task_ok; [done|]. intros t rest H [W B] I P. rewrite H in H0. injection H0 as ->.
  rewrite task_refs_app, B0 in I. cbn [build_refs app] in I. destruct (t_cred t0) as [c|] eqn:C.
  - destruct (build_user_ok (dying s) (kern s) flags c (row_refs (t_row t0) ++ rest)) as (rc & set & st' & E & I' & L & Z1 & Z2 & Z3).
    { by rewrite Permutation_app_swap_app. }
    { apply (room_perm _ (task_refs t0 ++ rest)); [|unfold room_for in *; rewrite P in R; lia]. rewrite task_refs_app, C, B0. cbn [build_refs app]. by rewrite Permutation_app_swap_app. }
    rewrite E. do 2 eexists. split_and!; [done| |].
    + rewrite task_refs_app. cbn [t_row t_cred t_build set_build]. rewrite C. destruct (Z.ltb_spec rc 0) as [N|N]; cbn [build_refs].
      * cbn [app]. eapply cinv_counts; [exact I'|]. intros k id Hid. rewrite !hcount_app, hcount_set.
        assert (set !!! kind_index k = 0) as ->; [|rewrite (proj2 (Z.eqb_neq 0 id)) by done; cbn [Z.b2z]; lia].
        destruct (decide (k = NS_USER)) as [->|Nk]; [by apply Z3|by apply Z1].
      * eapply cinv_counts; [exact I'|]. intros k id Hid. rewrite !hcount_app. lia.
    + split; [done|]. cbn [t_build set_build]. destruct (rc <? 0); [done|]. done.
  - do 2 eexists. split_and!; [done| |done]. rewrite task_refs_app. cbn [t_row t_cred t_build set_build]. by rewrite C.
Qed.
Lemma op_build_others_ok s i : sys_inv s -> room_for 300 (sys_refs s) -> exists s', exec (op_build_others i) s = Ok s' /\ sys_inv s'.
Proof.
  intros V R. apply with_task_ok; [done|]. intros t rest H [W B] I P. destruct (t_build t) as [|flags set|flags set|set] eqn:Bt; try (do 2 eexists; split_and!; [done|done|split; [done|by rewrite Bt]]).
  destruct B as (L & Z1 & Z2). rewrite task_refs_app, Bt in I. cbn [build_refs] in I.
  destruct (build_others_ok (dying s) flags (build_owner set (t_cred t)) (t_row t) set (kern s) (cred_refs (t_cred t) ++ rest)) as (rc & set' & st' & E & [I' L' U']).
  - constructor; [|done|].
    + eapply cinv_counts; [exact I|]. intros k id Hid. rewrite !hcount_app. lia.
    + intros k F. destruct (decide (k = NS_USER)) as [->|N]; [by apply Z2|by apply Z1].
  - done.
  - unfold room_for in *. rewrite P, task_refs_app in R. rewrite !length_app in *. lia.
  - unfold build_owner. destruct (set !!! kind_index NS_USER <>? 0) eqn:F; [by left|]. destruct (t_cred t) as [c|]; [right; left|left]. apply negb_false_iff, Z.eqb_eq in F. by rewrite F.
  - done.
  - rewrite E. do 2 eexists. split_and!; [done| |].
    + rewrite task_refs_app. cbn [t_row t_cred t_build set_build]. assert (build_refs (if rc <? 0 then Failed set' else Built flags set') = set_refs set') as -> by (by destruct (rc <? 0)).
      eapply cinv_counts; [exact I'|]. intros k id Hid. rewrite !hcount_app. lia.
    + split; [done|]. cbn [t_build set_build]. by destruct (rc <? 0).
Qed.
Lemma op_release_ok s i : sys_inv s -> exists s', exec (op_release i) s = Ok s' /\ sys_inv s'.
Proof.
  intros V. apply with_task_ok; [done|]. intros t rest H [W B] I P. rewrite task_refs_app in I.
  assert (F : forall set, build_refs (t_build t) = set_refs set -> exists st', ns_set_release set (kern s) = Ok st' /\ cinv (dying s) st' (task_refs (set_build Idle t) ++ rest)).
  { intros set Bt. rewrite Bt in I. apply puts_ok. eapply cinv_counts; [exact I|]. rewrite task_refs_app. intros k id Hid. cbn [t_row t_cred t_build set_build build_refs]. rewrite !hcount_app, hcount_nil. lia. }
  destruct (t_build t) as [|flags set|flags set|set] eqn:Bt; try (do 2 eexists; split_and!; [done|rewrite task_refs_app, Bt; exact I|split; [done|by rewrite Bt]]).
  all: destruct (F set eq_refl) as (st' & E & I'); rewrite E; cbn [rbind]; do 2 eexists; split_and!; done.
Qed.
Lemma op_prepare_ok s i : sys_inv s -> exists s', exec (op_prepare i) s = Ok s' /\ sys_inv s'.
Proof.
  intros V. apply with_task_ok; [done|]. intros t rest H [W B] I P. destruct (t_build t) as [|flags set|flags set|set] eqn:Bt; try (do 2 eexists; split_and!; [done|done|split; [done|by rewrite Bt]]).
  rewrite task_refs_app, Bt in I. destruct B as [L Z]. destruct (fork_prepare_ok (dying s) (kern s) set (t_row t) (cred_refs (t_cred t) ++ rest)) as (r' & st' & E & I' & W'); [|done|done|].
  - eapply cinv_counts; [exact I|]. intros k id Hid. cbn [build_refs]. rewrite !hcount_app. lia.
  - rewrite E. cbn [rbind]. do 2 eexists. split_and!; [done|by rewrite task_refs_app|done].
Qed.
Lemma op_unshare_ok s i : sys_inv s -> exists s', exec (op_unshare i) s = Ok s' /\ sys_inv s'.
Proof.
  intros V. apply with_task_ok; [done|]. intros t rest H [W B] I P. destruct (t_build t) as [|flags set|flags set|set] eqn:Bt; try (do 2 eexists; split_and!; [done|done|split; [done|by rewrite Bt]]).
  destruct (t_cred t) as [c|] eqn:C; [|do 2 eexists; split_and!; [done|done|split; [done|by rewrite Bt]]].
  rewrite task_refs_app, Bt, C in I. destruct B as [L Z]. destruct (unshare_commit_ok (dying s) (kern s) flags set (t_row t) c rest) as (r' & c' & st' & E & I' & W'); [|done|done|].
  - eapply cinv_counts; [exact I|]. intros k id Hid. cbn [build_refs]. rewrite !hcount_app. lia.
  - rewrite E. cbn [rbind]. do 2 eexists. split_and!; [done|by rewrite task_refs_app|done].
Qed.
Lemma op_setns_ok s i by_pidfd want targets threads : sys_inv s -> allowed (op_setns i by_pidfd want targets threads) s ->
  exists s', exec (op_setns i by_pidfd want targets threads) s = Ok s' /\ sys_inv s'.
Proof.
  intros V [R T]. apply with_task_ok; [done|]. intros t rest H [W B] I P. destruct (t_cred t) as [c|] eqn:C; [|by do 2 eexists; split_and!].
  rewrite task_refs_app, C in I. destruct (setns_ok (dying s) by_pidfd want targets threads (t_row t) c (kern s) (build_refs (t_build t) ++ rest) I W) as (rc & r' & c' & st' & E & I' & W').
  - unfold room_for in *. rewrite P, task_refs_app in R. rewrite !length_app in *. lia.
  - done.
  - rewrite E. cbn [rbind]. do 2 eexists. split_and!; [done|by rewrite task_refs_app|done].
Qed.
Definition no_task : task := mkTask row_zero None Idle.
Lemma two_split s p c tp tc : tasks s !! p = Some tp -> tasks s !! c = Some tc -> p <> c -> exists rest, sys_refs s ≡ₚ task_refs tc ++ task_refs tp ++ rest /\
  forall tp' tc' k d, sys_refs (mkSys k (<[c := tc']> (<[p := tp']> (tasks s))) (pins s) d) ≡ₚ task_refs tc' ++ task_refs tp' ++ rest.
Proof.
  intros Hp Hc N. destruct (task_split (<[p := no_task]> (tasks s)) c tc) as (r & _ & Q); [by rewrite list_lookup_insert_ne|].
  assert (G : forall tp' tc', concat (task_refs <$> <[c := tc']> (<[p := tp']> (tasks s))) ≡ₚ task_refs tc' ++ task_refs tp' ++ r).
  { intros tp' tc'. destruct (task_split (<[c := tc']> (tasks s)) p tp) as (r' & _ & Q'); [by rewrite list_lookup_insert_ne|].
    assert (r' ≡ₚ task_refs tc' ++ r) as R by (rewrite <- (Q tc'), list_insert_insert_ne by done; symmetry; apply (Q' no_task)).
    rewrite list_insert_insert_ne by done. by rewrite Q', R, Permutation_app_swap_app. }
  exists (r ++ pins s). split; [|intros tp' tc' k d; unfold sys_refs; cbn [tasks pins]; by rewrite G, <- !app_assoc].
  unfold sys_refs. rewrite <- (list_insert_id (tasks s) p tp) at 1 by done. rewrite <- (list_insert_id (<[p := tp]> (tasks s)) c tc) by (by rewrite list_lookup_insert_ne).
  by rewrite G, <- !app_assoc.
Qed.
Lemma op_dup_ok s p c : sys_inv s -> allowed (op_dup p c) s -> exists s', exec (op_dup p c) s = Ok s' /\ sys_inv s'.
Proof.
  intros [I T D] (R & N & tc & Hc & Nc). cbn [exec]. rewrite Hc. destruct (tasks s !! p) as [tp|] eqn:Hp; [|by exists s].
  destruct (two_split s p c tp tc Hp Hc N) as (rest & P & Q). set (held := row_refs (t_row tp) ++ build_refs (t_build tp) ++ task_refs tc ++ rest).
  assert (P' : sys_refs s ≡ₚ cred_refs (t_cred tp) ++ held).
  { rewrite P. unfold held. rewrite (Permutation_app_swap_app (task_refs tc)). unfold task_refs at 1. rewrite <- !app_assoc. by rewrite Permutation_app_swap_app. }
  destruct (dup_cred_ok (dying s) (t_cred tp) (kern s) held) as (cc & st' & E & I'); [by rewrite <- P'|eapply room_perm; [exact P'|unfold room_for in *; lia]|].
  rewrite E. eexists. split; [done|]. pose proof (Forall_lookup_1 _ _ _ _ T Hc) as Wc.
  constructor; [|cbn [tasks]; apply Forall_insert; done|done].
  specialize (Q tp (set_cred cc tc) st' (dying s)). rewrite (list_insert_id (tasks s) p tp) in Q by done. rewrite Q. cbn [kern dying]. eapply cinv_counts; [exact I'|].
  intros k id Hid. unfold held, task_refs. cbn [set_cred t_row t_cred t_build]. rewrite Nc. rewrite !hcount_app. cbn [cred_refs]. rewrite hcount_nil. lia.
Qed.
Lemma op_inherit_ok s p c gid thread : sys_inv s -> allowed (op_inherit p c gid thread) s -> exists s', exec (op_inherit p c gid thread) s = Ok s' /\ sys_inv s'.
Proof.
  intros [I T D] (R & N & G & NL). cbn [exec]. destruct (tasks s !! p) as [tp|] eqn:Hp; [|by exists s]. destruct (tasks s !! c) as [tc|] eqn:Hc; [|by exists s].
  destruct (two_split s p c tp tc Hp Hc N) as (rest & P & Q). pose proof (Forall_lookup_1 _ _ _ _ T Hc) as [Wc Bc]. pose proof (Forall_lookup_1 _ _ _ _ T Hp) as [Wp Bp].
  set (held := build_refs (t_build tc) ++ cred_refs (t_cred tp) ++ build_refs (t_build tp) ++ rest).
  assert (C : forall k id, id <> 0 -> hcount (k, id) (row_refs (t_row tc) ++ orow_refs (Some (t_row tp)) ++ cred_refs (t_cred tc) ++ held) = hcount (k, id) (sys_refs s)).
  { intros k id _. rewrite (hcount_perm _ _ _ P). unfold held, task_refs. cbn [orow_refs]. rewrite !hcount_app. lia. }
  destruct (fork_inherit_ok (dying s) (kern s) (Some (t_row tp)) (t_row tc) gid (t_cred tc) thread held) as (pr & cr & cc & st' & E & I' & W1 & W2 & Is); [|done|done| |done|intros cr1 st1; by apply (NL tc)|].
  - eapply cinv_counts; [exact I|exact C].
  - unfold room_for, held, task_refs in *. rewrite P in R. rewrite !length_app in *. cbn [orow_refs]. lia.
  - rewrite E. cbn [rbind]. eexists. split; [done|].
    destruct (Is (mk_is_Some _ _ eq_refl)) as [r ->].
    constructor; [|cbn [tasks]; apply Forall_insert; [apply Forall_insert; [done|]|]; done|done].
    rewrite Q. cbn [kern dying]. eapply cinv_counts; [exact I'|]. intros k id Hid. unfold held, task_refs. cbn [set_cred set_row t_row t_cred t_build orow_refs]. rewrite !hcount_app. lia.
Qed.
Lemma kern_section_ok s k' p' d' : sys_inv s -> cinv d' k' (concat (task_refs <$> tasks s) ++ p') -> dead_ok d' -> sys_inv (mkSys k' (tasks s) p' d').
Proof. intros [I T D] I' D'. by constructor. Qed.
Lemma op_free_cred_ok s i : sys_inv s -> exists s', exec (op_free_cred i) s = Ok s' /\ sys_inv s'.
Proof.
  intros V. apply with_task_ok; [done|]. intros t rest H [W B] I P. rewrite task_refs_app in I.
  destruct (free_cred_ok (dying s) (t_cred t) (kern s) (row_refs (t_row t) ++ build_refs (t_build t) ++ rest)) as (st' & E & I'); [by rewrite (Permutation_app_swap_app (cred_refs _))|].
  rewrite E. cbn [rbind]. do 2 eexists. split_and!; [done|by rewrite task_refs_app|done].
Qed.
Lemma op_close_ok s i : sys_inv s -> exists s', exec (op_close i) s = Ok s' /\ sys_inv s'.
Proof.
  intros V. pose proof V as [I T D]. cbn [exec]. destruct (pins s !! i) as [[k id]|] eqn:H; [|by exists s].
  assert (I1 : cinv (dying s) (kern s) ((k, id) :: concat (task_refs <$> tasks s) ++ delete i (pins s))).
  { eapply cinv_perm; [|exact I]. unfold sys_refs. rewrite (delete_Permutation (pins s) i (k, id)) at 1 by done. by rewrite Permutation_middle. }
  assert (exists st', Namespace.namespace_put k id (kern s) = Ok st' /\ cinv (dying s) st' (concat (task_refs <$> tasks s) ++ delete i (pins s))) as (st' & E & I').
  { unfold Namespace.namespace_put. destruct (Z.eqb_spec id 0) as [->|N]; [eexists; split; [done|]; exact (proj1 (cinv_zero _ _ _) I1)|by apply ns_put_ok]. }
  rewrite E. cbn [rbind]. eexists. split; [done|]. by apply kern_section_ok.
Qed.
Lemma exec_ok o s : sys_inv s -> allowed o s -> exists s', exec o s = Ok s' /\ sys_inv s'.
Proof.
  intros V A. pose proof V as [I T D]. pose proof (proj1 A) as R. destruct o as [p c|p c g th|i g|g|i|i c|i fl|i|i|i|i|i|i b w tg th|k id ok|i| |].
  - by apply op_dup_ok.
  - by apply op_inherit_ok.
  - apply (row_section_ok s i (fun r st => namespace_task_exit r g st) V). intros. by apply task_exit_ok.
  - cbn [exec]. destruct (reap_numbers_ok (dying s) (kern s) g _ I) as (st' & E & I'). rewrite E. cbn [rbind]. eexists. split; [done|]. by apply kern_section_ok.
  - by apply op_free_cred_ok.
  - apply with_task_ok; [done|]. intros t' rest H W I' P. destruct A as [_ A]. destruct (A t' H) as (c0 & C & E). do 2 eexists. split_and!; [done| |done].
    rewrite task_refs_app in *. rewrite C in I'. cbn [set_cred t_row t_cred t_build cred_refs] in *. by rewrite E.
  - by apply op_build_user_ok.
  - by apply op_build_others_ok.
  - by apply op_release_ok.
  - by apply op_prepare_ok.
  - apply (row_section_ok s i namespace_fork_prepare_abort V). intros. by apply prepare_abort_ok.
  - by apply op_unshare_ok.
  - by apply op_setns_ok.
  - cbn [exec]. destruct A as [_ Hi]. destruct (nsfs_node_ok (dying s) k id ok (kern s) _ I (room_for_room _ _ R ltac:(lia)) Hi) as (pin & st' & E & I').
    rewrite E. cbn [rbind]. eexists. split; [done|]. apply kern_section_ok; [done| |done]. destruct pin; [exact I'|]. eapply cinv_perm; [|exact I']. unfold sys_refs. by rewrite Permutation_middle.
  - by apply op_close_ok.
  - cbn [exec]. destruct A as [_ E]. rewrite E in I. pose proof (reaper_collect_ok (kern s) _ I) as C. destruct (reaper_collect (kern s)) as [dl st']. destruct C as [I' D'].
    eexists. split; [done|]. by apply kern_section_ok.
  - cbn [exec]. destruct (reaper_finish_ok (dying s) (kern s) _ I D) as (st' & E & I'). rewrite E. cbn [rbind]. eexists. split; [done|].
    apply kern_section_ok; [done|done|]. split; [constructor|by intros k id H%elem_of_nil].
Qed.

(** ** All states *)

Definition core_start : core := Namespace.ns_ensure_init_locked (set_user (userns_ensure_init (user core_boot)) core_boot).
(** One task with the initial credential and [n] free slots. *)
Definition boot (n : nat) : sys := mkSys core_start (mkTask row_zero (UidGid.cred_create_default true) Idle :: replicate n no_task) [] [].
Definition step (s s' : sys) : Prop := exists o, allowed o s /\ exec o s = Ok s'.
Lemma start_tables k : k <> NS_USER -> table k core_start = zalter (init_slot k) 0 (replicate (Z.to_nat (ns_max k)) slot_zero).
Proof. destruct k; [..|done| | |]; intros _; vm_compute; reflexivity. Qed.
Lemma start_slot k id : k <> NS_USER -> 0 < id < ns_max k -> slot_of core_start k id = slot_zero.
Proof.
  intros N Hi. transitivity (zget (table k core_start) id); [by destruct k|]. rewrite start_tables by done. rewrite zget_zalter_ne by lia.
  unfold zget. apply list_lookup_total_correct, lookup_replicate_2. lia.
Qed.
Lemma start_user : user core_start = ns_start.
Proof. vm_compute. reflexivity. Qed.
Lemma init_pids st : ns_ready (user st) = false -> pids (Namespace.ns_ensure_init_locked st) = PidNs.pidns_init_locked 0 0 (pids st).
Proof. intros R. unfold Namespace.ns_ensure_init_locked. rewrite R. reflexivity. Qed.
Lemma start_pids : pids core_start = PidNsProofs.pid_start.
Proof. unfold core_start. rewrite init_pids by (vm_compute; reflexivity). reflexivity. Qed.
Lemma start_owned o : o <> 0 -> owned core_start o = 0.
Proof.
  intros N. unfold owned, others. cbn [fmap list_fmap foldr].
  assert (C : forall k, k <> NS_USER -> count_if (owns o) (table k core_start) = 0%nat); [|by rewrite !C].
  intros k Nk. assert (F : forallb (fun x => negb (used x) || (owner x =? 0)) (table k core_start) = true) by (destruct k; try done; vm_compute; reflexivity).
  revert F. generalize (table k core_start). induction l as [|x l IH]; [done|]. cbn [forallb]. intros [F1 F2]%andb_true_iff. rewrite count_if_cons, IH by done. unfold owns.
  destruct (used x); cbn [negb orb andb] in *; [|done]. apply Z.eqb_eq in F1. rewrite F1, (proj2 (Z.eqb_neq 0 o)) by done. done.
Qed.
#[local] Opaque kids.
Lemma start_cinv : cinv [] core_start [].
Proof.
  assert (Al : forall i, 0 <= i < ns_max NS_PID -> allocated core_start i = PidNsProofs.only_root i).
  { intros i Hi. unfold allocated, PidNsProofs.only_root. destruct (Z.eqb_spec i 0) as [->|N]; [vm_compute; reflexivity|]. by rewrite start_slot by (done || lia). }
  assert (K : forall id, 0 < id -> kids core_start id = 0).
  { intros id _. apply kids_none. intros j Hj. rewrite Al by lia. unfold PidNsProofs.only_root. lia. }
  constructor.
  - constructor; [vm_compute; reflexivity|]. intros k N. rewrite start_tables by done. by rewrite length_zalter, length_replicate.
  - intros k N. destruct k; try done; vm_compute; done.
  - rewrite start_user. eapply ns_inv_ext; [exact ns_inv_start| |].
    + intros id N. by rewrite start_owned.
    + intros id. pose proof (owned_nonneg core_start id). rewrite hcount_nil. lia.
  - intros k id N Hi. unfold slot_ok. rewrite start_slot by done. cbn [slot_good used slot_zero refs]. unfold refs_of. rewrite hcount_nil. split; [|done]. pose proof (K id (proj1 Hi)) as Kz. clear -Kz. by destruct (bool_decide (k = NS_PID)).
  - by intros k id H%elem_of_nil.
  - rewrite start_pids. eapply pid_inv_alloc; [exact Al|exact PidNsProofs.start_inv].
Qed.
Lemma sys_boot_inv n : sys_inv (boot n).
Proof.
  constructor; [|apply Forall_cons; split; [by split; [apply zero_row_wf|]|apply Forall_replicate; by split; [apply zero_row_wf|]]|split; [constructor|by intros k id H%elem_of_nil]].
  eapply cinv_counts; [exact start_cinv|]. intros k id Hid. unfold sys_refs. cbn [tasks pins boot]. rewrite app_nil_r, fmap_cons. cbn [concat].
  assert (concat (task_refs <$> replicate n no_task) = []) as -> by (by induction n). rewrite app_nil_r.
  change (task_refs (mkTask row_zero (UidGid.cred_create_default true) Idle)) with [(NS_USER, 0)]. rewrite hcount_ref, (proj2 (Z.eqb_neq 0 id)) by done. by rewrite andb_false_r.
Qed.
Lemma reach_inv n s : rtc step (boot n) s -> sys_inv s.
Proof.
  intros R. refine (rtc_invariant step sys_inv _ _ _ R (sys_boot_inv n)). intros x y (o & A & E) V. destruct (exec_ok o x V A) as (s' & E' & V'). congruence.
Qed.

(** ** The PID namespace of a task *)

Definition pid_of (r : ns_row) : Z := if r_used r then rid r NS_PID else 0.
Lemma trivial_pid r : ns_row_trivial r = true -> rid r NS_PID = 0.
Proof. unfold ns_row_trivial. intros H. cbn [forallb kinds] in H. lia. Qed.
Lemma pid_of_wf r : row_wf r -> pid_of r = rid r NS_PID.
Proof. intros W. unfold pid_of. destruct (r_used r) eqn:U; [done|]. symmetry. by apply trivial_pid, (w_free _ W). Qed.
Lemma pid_of_shrink r : pid_of (if ns_row_trivial r then set_used false r else r) = if ns_row_trivial r then rid r NS_PID else pid_of r.
Proof. destruct (ns_row_trivial r) eqn:T; [|done]. by rewrite (trivial_pid _ T). Qed.
Definition same_pid (r r' : ns_row) : Prop := pid_of r' = pid_of r.
Definition opened (r : ns_row) : ns_row := if r_used r then r else set_used true row_zero.
Lemma opened_pid r : same_pid r (opened r) /\ r_used (opened r) = true.
Proof. unfold same_pid, pid_of, opened. by destruct (r_used r) eqn:U; rewrite ?U. Qed.
Lemma set_rid_pid k id r : k <> NS_PID -> same_pid r (set_rid k id r) /\ r_used (set_rid k id r) = r_used r.
Proof.
  intros N. unfold same_pid, pid_of, set_rid, rid. cbn [r_used r_id]. split; [|done]. destruct (r_used r); [|done]. apply list_lookup_total_insert_ne.
  by destruct k.
Qed.
Lemma unshare_loop_pid ks want set : forall r c st r' c' st', r_used r = true -> unshare_loop ks want set r c st = Ok (r', c', st') -> same_pid r r'.
Proof.
  induction ks as [|k ks IH]; intros r c st r' c' st' U H; cbn [unshare_loop] in H; [by simplify_eq|]. destruct (negb _); [by eapply IH|].
  destruct k; cbn iota in H; apply rbind_inv in H as (st1 & _ & H); (eapply IH in H; [|done]).
  all: try done.
  all: match type of H with same_pid (set_rid ?k ?i ?r) _ => exact (eq_trans H (proj1 (set_rid_pid k i r ltac:(done)))) end.
Qed.
Lemma install_pid k id r c st r' c' st' : ns_install_locked k id r c st = Ok (r', c', st') -> same_pid r r'.
Proof.
  unfold ns_install_locked. fold (opened r). destruct (opened_pid r) as [P U]. intros H. apply rbind_inv in H as ([[r1 c1] st1] & H1 & H). simplify_eq.
  assert (same_pid (opened r) r1 /\ r_used r1 = true) as [P1 U1].
  { destruct k; cbn iota in H1; repeat (apply rbind_inv in H1 as (? & _ & H1)); simplify_eq; try done.
    all: match goal with |- same_pid _ (set_rid ?k ?i ?r1) /\ _ => destruct (set_rid_pid k i r1 ltac:(done)) as [Q1 Q2]; split; [exact Q1|by rewrite Q2] end. }
  unfold same_pid in *. rewrite pid_of_shrink. rewrite <- P, <- P1. unfold pid_of. rewrite U1. by destruct (ns_row_trivial r1).
Qed.
Lemma install_all_pid ks want targets : forall r c st r' c' st', install_all ks want targets r c st = Ok (r', c', st') -> same_pid r r'.
Proof.
  induction ks as [|k ks IH]; intros r c st r' c' st' H; cbn [install_all] in H; [by simplify_eq|]. destruct (_ || _); [by eapply IH|].
  apply rbind_inv in H as ([[r1 c1] st1] & H1 & H). exact (eq_trans (IH _ _ _ _ _ _ H) (install_pid _ _ _ _ _ _ _ _ H1)).
Qed.
Lemma setns_pid b want targets threads r c st rc r' c' st' : setns_locked b want targets threads r c st = Ok (rc, r', c', st') -> same_pid r r'.
Proof.
  unfold setns_locked. intros H. apply rbind_inv in H as ([[[rc1 r1] c1] st1] & H1 & H).
  assert (same_pid r r1) as P.
  { destruct (_ && _) in H1; [|by simplify_eq]. destruct (_ =? 0) in H1; [|by simplify_eq]. apply rbind_inv in H1 as ([[r2 c2] st2] & H1 & H2). simplify_eq. by eapply install_pid. }
  clear H1. revert H. generalize (if rc1 =? 0 then check_all kinds want targets (Some c1) r1 threads st1 else rc1). intros rc2 H. destruct (rc2 =? 0); [|simplify_eq; exact P].
  apply rbind_inv in H as ([[r3 c3] st3] & H2 & H). simplify_eq. exact (eq_trans (install_all_pid _ _ _ _ _ _ _ _ _ H2) P).
Qed.
Lemma prepare_pid set r st r' st' : row_wf r -> fork_prepare_commit set r st = Ok (r', st') -> same_pid r r'.
Proof. unfold fork_prepare_commit. intros W H. apply rbind_inv in H as (? & _ & H). simplify_eq. unfold same_pid. rewrite (pid_of_wf r) by done. reflexivity. Qed.
Lemma abort_pid r st r' st' : row_wf r -> namespace_fork_prepare_abort r st = Ok (r', st') -> same_pid r r'.
Proof.
  unfold namespace_fork_prepare_abort. intros W H. destruct (negb _); [by simplify_eq|]. destruct (child_valid r); [|by simplify_eq].
  apply rbind_inv in H as (? & _ & H). simplify_eq. unfold same_pid. rewrite pid_of_shrink, (pid_of_wf r) by done. destruct (ns_row_trivial _); [reflexivity|].
  exact (pid_of_wf r W).
Qed.
Lemma fork_parent_pid pr cc thread st pr' cc' ids given st' : fork_source (Some pr) cc thread st = Ok (pr', cc', ids, given, st') -> exists r, pr' = Some r /\ same_pid pr r.
Proof.
  unfold fork_source. intros H. destruct (r_used pr) eqn:U; [|simplify_eq; by eexists]. destruct (_ && _); [|simplify_eq; by eexists].
  apply rbind_inv in H as ([[[? ?] ?] ?] & _ & H). simplify_eq. by eexists.
Qed.
Lemma inherit_parent_pid pr cr gid cc thread st pr' cr' cc' st' : namespace_fork_inherit (Some pr) cr gid cc thread st = Ok (pr', cr', cc', st') -> exists r, pr' = Some r /\ same_pid pr r.
Proof.
  unfold namespace_fork_inherit. intros H. apply rbind_inv in H as ([? ?] & _ & H). apply rbind_inv in H as ([[[[pr1 ?] ?] ?] ?] & H1 & H).
  apply rbind_inv in H as (? & _ & H). simplify_eq. by eapply fork_parent_pid.
Qed.
(** Operations that give a task its PID namespace or take it away. *)
Definition sets_pid (o : op) (i : nat) : bool :=
  match o with op_inherit _ c _ _ => (c =? i)%nat | op_exit t _ => (t =? i)%nat | _ => false end.
Definition kept (s s' : sys) (i : nat) (t : task) : Prop := exists t', tasks s' !! i = Some t' /\ same_pid (t_row t) (t_row t').
Lemma kept_same s s' i t : tasks s !! i = Some t -> tasks s' = tasks s -> kept s s' i t.
Proof. intros H E. exists t. by rewrite E. Qed.
Lemma kept_insert s s' i j t tj tj' : tasks s !! i = Some t -> tasks s !! j = Some tj -> tasks s' = <[j := tj']> (tasks s) ->
  (i = j -> same_pid (t_row tj) (t_row tj')) -> kept s s' i t.
Proof.
  intros H Hj E P. unfold kept. rewrite E. destruct (decide (i = j)) as [->|N]; [|exists t; by rewrite list_lookup_insert_ne by done].
  exists tj'. rewrite list_lookup_insert_eq by (by eapply lookup_lt_Some). simplify_eq. auto.
Qed.
Lemma with_task_kept s s' i j f t : tasks s !! i = Some t -> with_task s j f = Ok s' ->
  (forall tj tj' st, tasks s !! j = Some tj -> i = j -> f tj = Ok (tj', st) -> same_pid (t_row tj) (t_row tj')) -> kept s s' i t.
Proof.
  unfold with_task. intros H E P. destruct (tasks s !! j) as [tj|] eqn:Hj; [|simplify_eq; by apply kept_same].
  apply rbind_inv in E as ([tj' st] & E1 & E2). simplify_eq. eapply kept_insert; [done|done|reflexivity|]. intros Eq. by eapply P.
Qed.
#[local] Opaque put puts ns_set_release reaper_finish reaper_collect reap_numbers Namespace.namespace_put build_user build_others nsfs_node namespace_fork_inherit namespace_task_exit.
Lemma exec_kept o s s' i t : sys_inv s -> exec o s = Ok s' -> tasks s !! i = Some t -> sets_pid o i = false -> kept s s' i t.
Proof.
  intros V E H N. pose proof (fun j tj Hj => proj1 (proj1 (Forall_lookup task_wf (tasks s)) (v_tasks _ V) j tj Hj)) as W.
  destruct o as [p c|p c g th|j g|g|j|j c|j fl|j|j|j|j|j|j b w tg th|k id ok|j| |]; cbn [exec sets_pid] in *.
  1: { destruct (tasks s !! p) as [tp|]; [|simplify_eq; by apply kept_same]. destruct (tasks s !! c) as [tc|] eqn:Hc; [|simplify_eq; by apply kept_same].
    destruct (dup_cred _ _). simplify_eq. by eapply kept_insert; [..|reflexivity|]. }
  1: { apply Nat.eqb_neq in N. destruct (tasks s !! p) as [tp|] eqn:Hp; [|simplify_eq; by apply kept_same]. destruct (tasks s !! c) as [tc|] eqn:Hc; [|simplify_eq; by apply kept_same].
    apply rbind_inv in E as ([[[pr cr] cc] st] & E1 & E2). simplify_eq. destruct (inherit_parent_pid _ _ _ _ _ _ _ _ _ _ E1) as (r & -> & P).
    unfold kept. cbn [tasks]. rewrite list_lookup_insert_ne by done. destruct (decide (i = p)) as [->|Np]; [|exists t; by rewrite list_lookup_insert_ne by done].
    exists (set_row r tp). rewrite list_lookup_insert_eq by (by eapply lookup_lt_Some). simplify_eq. done. }
  all: try (eapply with_task_kept; [done|exact E|]; clear E; intros tj tj' st Hj Eq E; cbv beta in E).
  - lia.
  - apply rbind_inv in E as (st & _ & E). simplify_eq. by apply kept_same.
  - apply rbind_inv in E as (? & _ & E). by simplify_eq.
  - by simplify_eq.
  - destruct (build_user _ _ _) as [[? ?] ?]. by simplify_eq.
  - destruct (t_build tj); try by simplify_eq. destruct (build_others _ _ _ _ _) as [[? ?] ?]. by simplify_eq.
  - destruct (t_build tj); [by simplify_eq|by simplify_eq|..]; apply rbind_inv in E as (? & _ & E); by simplify_eq.
  - destruct (t_build tj); try by simplify_eq. apply rbind_inv in E as ([? ?] & E1 & E). simplify_eq. eapply prepare_pid; [by eapply W|exact E1].
  - apply rbind_inv in E as ([? ?] & E1 & E). simplify_eq. eapply abort_pid; [by eapply W|exact E1].
  - destruct (t_build tj); try by simplify_eq. destruct (t_cred tj); [|by simplify_eq]. apply rbind_inv in E as ([[? ?] ?] & E1 & E).
    unfold unshare_commit in E1. fold (opened (t_row tj)) in E1. destruct (opened_pid (t_row tj)) as [P U]. simplify_eq. exact (eq_trans (unshare_loop_pid _ _ _ _ _ _ _ _ _ U E1) P).
  - destruct (t_cred tj); [|by simplify_eq]. apply rbind_inv in E as ([[[? ?] ?] ?] & E1 & E). simplify_eq. by eapply setns_pid.
  - apply rbind_inv in E as ([? ?] & _ & E). simplify_eq. by apply kept_same.
  - destruct (pins s !! j) as [[k id]|]; [|simplify_eq; by apply kept_same]. apply rbind_inv in E as (? & _ & E). simplify_eq. by apply kept_same.
  - destruct (reaper_collect _). simplify_eq. by apply kept_same.
  - apply rbind_inv in E as (? & _ & E). simplify_eq. by apply kept_same.
Qed.
(** ** Types *)

Lemma row_typed r dead st held : cinv dead st held -> row_wf r -> (forall x, x ∈ row_refs r -> x ∈ held) ->
  (forall k, 0 <= rid r k < ns_max k) /\ 0 <= pid_children r < ns_max NS_PID /\ 0 <= time_children r < ns_max NS_TIME /\
  (child_valid r = true -> r_used r = true /\ forall k, 0 <= rchild r k < ns_max k).
Proof.
  intros I W S. assert (Rg : forall k id, (k, id) ∈ row_refs r -> 0 <= id < ns_max k) by (intros k id H; by apply (c_range _ _ _ I), S).
  destruct (r_used r) eqn:U.
  - unfold row_refs in Rg. rewrite U in Rg. split; [|split; [|split]].
    + intros k. destruct (decide (k = NS_USER)) as [->|N]; [rewrite (w_user _ W); done|]. apply Rg, elem_of_app. left. change (row_ids r) with (refs_list (rid r) others).
      apply list_elem_of_fmap. exists k. split; [done|]. by apply in_others.
    + apply (Rg NS_PID), elem_of_app. right. apply elem_of_app. left. apply elem_of_cons. by left.
    + apply (Rg NS_TIME), elem_of_app. right. apply elem_of_app. left. apply elem_of_cons. right. apply elem_of_cons. by left.
    + intros C. split; [done|]. intros k. apply Rg, elem_of_app. right. apply elem_of_app. right. unfold prepared. rewrite C. apply list_elem_of_fmap. exists k. split; [done|]. apply in_kinds.
  - pose proof (w_free _ W U) as T. unfold ns_row_trivial in T. cbn [forallb kinds] in T. split; [intros k; destruct k; cbn [ns_max]; lia|]. split; [cbn [ns_max]; lia|]. split; [cbn [ns_max]; lia|]. intros C. rewrite C in T. lia.
Qed.
Lemma alive_ns_live dead st held k id : cinv dead st held -> alive st k id -> ns_live_locked k id st = true.
Proof.
  intros I [Hi L]. unfold ns_live_locked. destruct (Z.leb_spec (ns_max k) id); [lia|]. destruct (Z.eqb_spec id 0) as [->|N]; [done|]. specialize (L N).
  destruct (decide (k = NS_USER)) as [->|Nk].
  - destruct (inv_tree _ _ _ (c_user _ _ _ I) id Hi N L) as (_ & _ & _ & _ & Z0). change (slot_of st NS_USER id) with (slot (user st) id). by rewrite L, Z0.
  - assert (used (slot_of st k id) = true /\ zombie (slot_of st k id) = 0) as [-> ->] by (by destruct k). done.
Qed.
Lemma live_count dead st held k id : cinv dead st held -> k <> NS_USER -> 0 < id < ns_max k -> ns_live_locked k id st = true ->
  refs (slot_of st k id) = hcount (k, id) held + if bool_decide (k = NS_PID) then kids st id else 0.
Proof.
  intros I N Hi L. pose proof (c_slot _ _ _ I k id N Hi) as S. unfold slot_ok, slot_good in S. unfold ns_live_locked in L.
  rewrite (proj2 (Z.leb_gt _ _)), (proj2 (Z.eqb_neq id 0)) in L by lia. apply andb_true_iff in L as [U Z0]. rewrite U in S. apply Z.eqb_eq in Z0.
  destruct S as [_ [(_ & _ & E & _)|(_ & _ & _ & Z1)]]; [exact E|]. rewrite Z0 in Z1. by destruct (bool_decide _) in Z1.
Qed.
Lemma live_user_count dead st held id : cinv dead st held -> 0 < id < ns_max NS_USER -> ns_live_locked NS_USER id st = true ->
  refs (slot_of st NS_USER id) = hcount (NS_USER, id) held + owned st id + nchildren (user st) id.
Proof.
  intros I Hi L. destruct (live_alive _ _ NS_USER id I ltac:(lia) L) as [_ A]. destruct (inv_refs _ _ _ (c_user _ _ _ I) id ltac:(unfold in_table; cbn [ns_max] in Hi; change NS_MAX_USER with 64; lia) ltac:(lia) (A ltac:(lia))) as [E _].
  rewrite (proj2 (Z.eqb_neq id 0)) in E by lia. change (slot_of st NS_USER id) with (slot (user st) id). lia.
Qed.

(** ** setns, nsfs and time offsets *)

(** By a pidfd of a process in user namespace 1 and the initial mount namespace:
    the check of the mount namespace fails, with the user namespace entered. *)
Lemma setns_partial :
  exists c, UidGid.cred_create_default true = Some c /\
  let '(_, _, st) := build_user CLONE_NEWUSER (Some c) core_start in
  match setns_locked true (fun k => bool_decide (k ∈ [NS_USER; NS_MNT])) (fun k => if bool_decide (k = NS_USER) then 1 else 0) 1 row_zero c st with
  | Ok (rc, _, c', _) => rc = - EPERM /\ user_ns c = 0 /\ user_ns c' = 1
  | _ => False
  end.
Proof. eexists. split; [reflexivity|]. vm_compute. done. Qed.
(** Without a user namespace a refused setns changes nothing. *)
Lemma setns_refused b want targets threads r c st rc r' c' st' : want NS_USER = false -> ns_ready (user st) = true ->
  setns_locked b want targets threads r c st = Ok (rc, r', c', st') -> rc <> 0 -> r' = r /\ c' = c /\ st' = st.
Proof.
  unfold setns_locked. intros W Rd H N. rewrite W in H. cbn [andb rbind] in H. assert (Namespace.ns_ensure_init_locked st = st) as Q by (unfold Namespace.ns_ensure_init_locked; by rewrite Rd).
  rewrite Q in H. rewrite Z.eqb_refl in H. destruct (Z.eqb_spec (check_all kinds want targets (Some c) r threads st) 0) as [E|E]; [|by simplify_eq].
  apply rbind_inv in H as ([[? ?] ?] & _ & H). congruence.
Qed.
Lemma nsfs_roundtrip k id : 0 <= id < 2 ^ 24 -> nsfs_node_ns (nsfs_pin k id) = Some (Z.of_nat (kind_index k), id).
Proof.
  intros Hi. unfold nsfs_node_ns, nsfs_pin. set (m := Z.of_nat (kind_index k)). assert (0 <= m < 8) as Hm by (subst m; destruct k; cbn; lia).
  assert (Z.lor (Z.lor NSFS_PIN_VALID (Z.shiftl m 24)) id = (128 + m) * 2 ^ 24 + id) as ->.
  { assert (Z.lor NSFS_PIN_VALID (Z.shiftl m 24) = Z.shiftl (128 + m) 24) as -> by (clearbody m; assert (m = 0 \/ m = 1 \/ m = 2 \/ m = 3 \/ m = 4 \/ m = 5 \/ m = 6 \/ m = 7) as D by lia; by destruct_or! D; subst m).
    by apply lor_add. }
  clearbody m.
  assert (Hb : Z.shiftr ((128 + m) * 2 ^ 24 + id) 24 = 128 + m) by (rewrite Z.shiftr_div_pow2 by lia; rewrite Z.div_add_l, Z.div_small by lia; lia).
  assert (Hl : Z.land ((128 + m) * 2 ^ 24 + id) 16777215 = id) by (change 16777215 with (Z.ones 24); rewrite Z.land_ones by lia; rewrite Z.add_comm, Z.mod_add, Z.mod_small by lia; lia).
  assert (((128 + m) * 2 ^ 24 + id) &? NSFS_PIN_VALID = true) as ->.
  { apply negb_true_iff, Z.eqb_neq. intros Z0. assert (B : Z.testbit (Z.land ((128 + m) * 2 ^ 24 + id) NSFS_PIN_VALID) 31 = false) by (by rewrite Z0, Z.bits_0).
    rewrite Z.land_spec in B. change (Z.testbit NSFS_PIN_VALID 31) with true in B. rewrite andb_true_r in B. rewrite <- (Z.shiftr_spec _ 24 7) in B by lia. rewrite Hb in B.
    assert (m = 0 \/ m = 1 \/ m = 2 \/ m = 3 \/ m = 4 \/ m = 5 \/ m = 6 \/ m = 7) as D by lia. by destruct_or! D; subst m. }
  rewrite Hb, Hl. repeat f_equal. change 127 with (Z.ones 7). rewrite Z.land_ones by lia. replace (128 + m) with (m + 1 * 2 ^ 7) by lia. by rewrite Z.mod_add, Z.mod_small by lia.
Qed.
(** "monotonic 9223372037 0" *)
Lemma time_offset_overflow : offset_line (monotonic_name ++ [CH_SPACE; 57; 50; 50; 51; 51; 55; 50; 48; 51; 55; CH_SPACE; 48]) = Fault.
Proof. vm_compute. reflexivity. Qed.
Lemma time_offsets_frozen id c text st : id <> 0 -> ns_live_locked NS_TIME id st = true -> entered (slot_of st NS_TIME id) = true ->
  forall rc st', namespace_time_offsets_write id c text st = Ok (rc, st') -> st' = st.
Proof.
  intros N L E rc st'. unfold namespace_time_offsets_write. rewrite (proj2 (Z.eqb_neq id 0)) by done. destruct (negb _) in |- *; intros H; [by simplify_eq|].
  apply rbind_inv in H as ([e|[m b]] & _ & H); [by simplify_eq|]. rewrite L, E in H. cbn [negb] in H. by simplify_eq.
Qed.

(** * Theorems *)

(** C14 (invariant).  Whatever the tasks do with their namespaces - clone, unshare,
    setns, exit, open and close namespace files, credentials copied and freed, the
    reaper in between - no reference count underflows and no operation gets stuck;
    every namespace a row, a credential, a set under construction or an open file
    names is live; and the count of every namespace is exactly the number of these
    references, with one per child for a PID namespace, and one per namespace it
    owns for a user namespace. *)
Theorem namespaces_sound n s : rtc step (boot n) s ->
  (forall o, allowed o s -> exists s', exec o s = Ok s') /\
  (forall k id, (k, id) ∈ sys_refs s -> ns_live_locked k id (kern s) = true) /\
  (forall k id, k <> NS_USER -> 0 < id < ns_max k -> ns_live_locked k id (kern s) = true ->
     refs (slot_of (kern s) k id) = hcount (k, id) (sys_refs s) + if bool_decide (k = NS_PID) then kids (kern s) id else 0) /\
  (forall id, 0 < id < ns_max NS_USER -> ns_live_locked NS_USER id (kern s) = true ->
     refs (slot_of (kern s) NS_USER id) = hcount (NS_USER, id) (sys_refs s) + owned (kern s) id + nchildren (user (kern s)) id).
Proof.
  intros R. pose proof (reach_inv n s R) as V. pose proof (v_cinv _ V) as I. split_and!.
  - intros o A. destruct (exec_ok o s V A) as (s' & E & _). by exists s'.
  - intros k id H. eapply alive_ns_live; [exact I|by eapply held_alive].
  - intros k id N Hi L. by eapply live_count.
  - intros id Hi L. by eapply live_user_count.
Qed.
Lemma boot_dup_allowed : allowed (op_dup 0 1) (boot 1).
Proof.
  split; [vm_compute; reflexivity|]. split; [done|]. by exists no_task.
Qed.
Lemma namespaces_sound_witness : exists s', exec (op_dup 0 1) (boot 1) = Ok s'.
Proof. exact (proj1 (namespaces_sound 1 (boot 1) (rtc_refl _ _)) (op_dup 0 1) boot_dup_allowed). Defined.

(** C20 (type).  Every task is well formed in every state: its row has an id of each
    kind, each an index of that kind's table, so that storing them in 16 bits loses
    nothing; a row with namespaces prepared for the next child is in use, and these
    ids are indices too; a row that is not in use names the initial namespaces only;
    the user namespace of its credential is an index. *)
Theorem task_rows_typed n s i t : rtc step (boot n) s -> tasks s !! i = Some t ->
  let r := t_row t in
  length (r_id r) = 8%nat /\ length (r_child r) = 8%nat /\
  (forall k, 0 <= rid r k < ns_max k /\ u16 (rid r k) = rid r k) /\
  0 <= pid_children r < ns_max NS_PID /\ 0 <= time_children r < ns_max NS_TIME /\
  (child_valid r = true -> r_used r = true /\ forall k, 0 <= rchild r k < ns_max k) /\
  (r_used r = false -> forall k, rid r k = 0) /\
  match t_cred t with Some c => 0 <= user_ns c < ns_max NS_USER | None => True end.
Proof.
  intros R H r. pose proof (reach_inv n s R) as V. pose proof (v_cinv _ V) as I. pose proof (proj1 (proj1 (Forall_lookup _ _) (v_tasks _ V) i t H)) as W.
  assert (S : forall x, x ∈ task_refs t -> x ∈ sys_refs s).
  { intros x Hx. apply elem_of_app. left. apply list_elem_of_In, in_concat. exists (task_refs t). split; [|by apply list_elem_of_In].
    apply list_elem_of_In, list_elem_of_fmap. exists t. split; [done|]. by eapply list_elem_of_lookup_2. }
  destruct (row_typed r _ _ _ I W) as (T1 & T2 & T3 & T4); [intros x Hx; apply S, elem_of_app; by left|].
  split; [apply (w_id _ W)|]. split; [apply (w_child _ W)|]. split; [|split; [done|split; [done|split; [done|split]]]].
  - intros k. specialize (T1 k). split; [done|]. apply u16_small. change U16_MOD with 65536. destruct k; cbn [ns_max] in T1; lia.
  - intros U k. pose proof (w_free _ W U) as T. unfold ns_row_trivial in T. cbn [forallb kinds] in T. subst r. destruct k; lia.
  - destruct (t_cred t) as [c|] eqn:C; [|done]. apply (c_range _ _ _ I NS_USER), S. unfold task_refs. rewrite C. apply elem_of_app. right. apply elem_of_app. left. cbn. by left.
Qed.
Lemma task_rows_typed_witness : tasks (boot 0) !! 0%nat = Some (mkTask row_zero (UidGid.cred_create_default true) Idle) /\ length (r_id row_zero) = 8%nat.
Proof.
  assert (H : tasks (boot 0) !! 0%nat = Some (mkTask row_zero (UidGid.cred_create_default true) Idle)) by reflexivity.
  exact (conj H (proj1 (task_rows_typed 0 (boot 0) 0 _ (rtc_refl _ _) H))).
Defined.

(** C19 (safety).  The PID namespace a task is in stays the same for its life: of all
    operations only the fork that creates the task sets it and only its exit clears it;
    unshare, setns and a fork it makes itself change at most the one of its children. *)
Theorem pid_namespace_fixed n s o s' i t : rtc step (boot n) s -> exec o s = Ok s' -> tasks s !! i = Some t -> sets_pid o i = false ->
  exists t', tasks s' !! i = Some t' /\ pid_of (t_row t') = pid_of (t_row t).
Proof. intros R. exact (exec_kept o s s' i t (reach_inv n s R)). Qed.
Lemma pid_namespace_fixed_witness : exists s', exec (op_dup 0 1) (boot 1) = Ok s' /\ exists t', tasks s' !! 0%nat = Some t' /\ pid_of (t_row t') = 0.
Proof.
  destruct (exec_ok (op_dup 0 1) (boot 1) (sys_boot_inv 1) boot_dup_allowed) as (s' & E & _). exists s'. split; [exact E|].
  exact (pid_namespace_fixed 1 (boot 1) (op_dup 0 1) s' 0 (mkTask row_zero (UidGid.cred_create_default true) Idle) (rtc_refl _ _) E eq_refl eq_refl).
Defined.
End NamespaceSystem.
