(* ===== verification/NetContext.v ===== *)
(** The network namespace a delivery runs in ([kernel/sched/namespace.c],
    [namespace_net_context] and the functions around it): a table of the tasks
    that are inside a receive path, each with the namespace pushed last.

    A task changes only the slots with its own key, and takes a free one by
    compare and exchange, so each function is one step. *)
From Stdlib Require Import ZifyBool.
From S2P Require Import Prelude.
From stdpp Require Import list.
Local Open Scope Z_scope.
Local Open Scope kernel_scope.

Module NetContext.

Definition NS_RX_SLOTS := 32.
Record ns_rx_slot := mkRx { key : Z; rx_ns : Z }.
#[global] Instance ns_rx_slot_inhabited : Inhabited ns_rx_slot := populate (mkRx 0 0).
Record rx_state := mkState { ns_rx : list ns_rx_slot; ns_rx_live : Z }.
Definition rx_boot : rx_state := mkState (replicate (Z.to_nat NS_RX_SLOTS) (mkRx 0 0)) 0.

Definition ns_rx_find (k : Z) (st : rx_state) : option nat := first_index (fun x => key x =? k) (ns_rx st).
Definition set_slot (i : nat) (k n : Z) (st : rx_state) : rx_state := mkState (<[i := mkRx k n]> (ns_rx st)) (ns_rx_live st).
Definition add_live (n : Z) (st : rx_state) : rx_state := mkState (ns_rx st) (i32 (ns_rx_live st + n)).
(** [own] is the namespace of the calling task, [id] the task. *)
Definition namespace_net_context (own id : Z) (st : rx_state) : Z :=
  if ns_rx_live st <>? 0 then
    match ns_rx_find (u64 (id + 1)) st with
    | Some i => let rx := rx_ns (ns_rx st !!! i) in if rx <>? 0 then rx else own
    | None => own
    end
  else own.
Definition namespace_net_push_context (id ns : Z) (st : rx_state) : Z * rx_state :=
  let k := u64 (id + 1) in
  match ns_rx_find k st with
  | Some i => (rx_ns (ns_rx st !!! i), set_slot i k ns st)
  | None =>
      if ns =? 0 then (0, st)
      else match ns_rx_find 0 st with
           | Some i => (0, add_live 1 (set_slot i k ns st))
           | None => (0, st)
           end
  end.
Definition free_slot (i : nat) (st : rx_state) : rx_state := add_live (- 1) (set_slot i 0 0 st).
Definition namespace_net_pop_context (id saved : Z) (st : rx_state) : rx_state :=
  let k := u64 (id + 1) in
  match ns_rx_find k st with
  | None => st
  | Some i => if saved <>? 0 then set_slot i k saved st else free_slot i st
  end.
Definition namespace_net_release (pid : Z) (st : rx_state) : rx_state :=
  if ns_rx_live st =? 0 then st
  else match ns_rx_find (u64 (pid + 1)) st with None => st | Some i => free_slot i st end.

(** ** Tasks that nest deliveries *)

(** A task is inside the deliveries [(ns, saved)], the innermost first. *)
Record nest := mkNest { rx : rx_state; inside : Z -> list (Z * Z) }.
Definition set_inside (t : Z) (l : list (Z * Z)) (f : Z -> list (Z * Z)) : Z -> list (Z * Z) := fun x => if x =? t then l else f x.
Inductive event := Enter (t ns : Z) | Leave (t : Z) | Reap (t : Z).
Definition run (e : event) (s : nest) : nest :=
  match e with
  | Enter t ns => let '(saved, st) := namespace_net_push_context t ns (rx s) in mkNest st (set_inside t ((ns, saved) :: inside s t) (inside s))
  | Leave t => match inside s t with
               | (_, saved) :: l => mkNest (namespace_net_pop_context t saved (rx s)) (set_inside t l (inside s))
               | [] => s
               end
  | Reap t => mkNest (namespace_net_release t (rx s)) (set_inside t [] (inside s))
  end.
Definition task_id (t : Z) : Prop := 0 <= t < U64_MOD - 1.
(** Deliveries to namespaces other than the initial one. *)
Definition fair (e : event) : Prop :=
  match e with Enter t ns => task_id t /\ ns <> 0 | Leave t | Reap t => task_id t end.
Definition nest_boot : nest := mkNest rx_boot (fun _ => []).
Definition nest_step (s s' : nest) : Prop := exists e, fair e /\ s' = run e s.

(** ** The table as a map *)

Definition at_key (l : list ns_rx_slot) (k n : Z) : Prop := exists i, l !! i = Some (mkRx k n).
Record table_ok (st : rx_state) : Prop := {
  t_len : length (ns_rx st) = 32%nat;
  t_live : ns_rx_live st = Z.of_nat (count_if (fun x => key x <>? 0) (ns_rx st));
  t_uniq : forall i j x y, ns_rx st !! i = Some x -> ns_rx st !! j = Some y -> key x = key y -> key x <> 0 -> i = j }.
Lemma rx_find_Some st k i : ns_rx_find k st = Some i -> exists n, ns_rx st !! i = Some (mkRx k n) /\ ns_rx st !!! i = mkRx k n.
Proof.
  intros (x & Hx & E & _)%first_index_Some. destruct x as [k' n]. cbn [key] in E. apply Z.eqb_eq in E as ->. exists n. split; [done|]. by apply list_lookup_total_correct.
Qed.
Lemma find_at st k n i : table_ok st -> k <> 0 -> ns_rx st !! i = Some (mkRx k n) -> ns_rx_find k st = Some i.
Proof.
  intros T N H. eapply first_index_intro; [exact H|cbn [key]; lia|]. intros j y Hl Hj. apply Z.eqb_neq. intros E.
  assert (j = i) by (eapply (t_uniq _ T); [exact Hj|exact H|done|lia]). lia.
Qed.
(** The namespace pushed under a key. *)
Definition ctx (st : rx_state) (k : Z) : option Z := (fun i => rx_ns (ns_rx st !!! i)) <$> ns_rx_find k st.
Lemma ctx_at st k n : table_ok st -> k <> 0 -> ctx st k = Some n <-> exists i, ns_rx st !! i = Some (mkRx k n).
Proof.
  intros T N. unfold ctx. split.
  - destruct (ns_rx_find k st) as [i|] eqn:F; [|done]. destruct (rx_find_Some _ _ _ F) as (m & H & E). cbn. rewrite E. cbn [rx_ns]. intros [= ->]. by exists i.
  - intros [i H]. rewrite (find_at _ _ _ _ T N H). cbn. by rewrite (list_lookup_total_correct _ _ _ H).
Qed.
(** Slot [i], which has key [k0] or is free, gets key [k]. *)
Lemma set_slot_ok st i k0 n0 k n : table_ok st -> ns_rx st !! i = Some (mkRx k0 n0) -> k0 = k \/ k0 = 0 /\ ns_rx_find k st = None \/ k = 0 ->
  let st' := mkState (<[i := mkRx k n]> (ns_rx st)) (ns_rx_live st + Z.b2z (k <>? 0) - Z.b2z (k0 <>? 0)) in
  table_ok st' /\ forall k', k' <> 0 -> ctx st' k' = if k' =? k then Some n else if k' =? k0 then None else ctx st k'.
Proof.
  intros T H C st'. assert (i < length (ns_rx st))%nat as Hi by (by eapply lookup_lt_Some).
  assert (F : forall j x, ns_rx st !! j = Some x -> j <> i -> key x <> 0 -> key x <> k /\ key x <> k0).
  { intros j x Hj N N0. assert (key x <> k0) as Nk0 by (intros E; apply N; by eapply (t_uniq _ T); [exact Hj|exact H|exact E|done]).
    split; [|done]. destruct C as [->|[[-> F]| -> ]]; [done| |done]. intros E. unfold ns_rx_find in F. rewrite first_index_None in F. specialize (F _ _ Hj). lia. }
  assert (T' : table_ok st').
  { constructor; cbn [ns_rx ns_rx_live st'].
    - rewrite length_insert. apply (t_len _ T).
    - pose proof (count_if_insert (fun x => key x <>? 0) _ _ _ (mkRx k n) H) as E. cbn [key] in E. rewrite (t_live _ T). destruct (k =? 0), (k0 =? 0); cbn [negb Z.b2z] in *; lia.
    - intros j1 j2 x y H1 H2 E N. apply list_lookup_insert_Some in H1, H2. destruct H1 as [(<- & <- & _)|[N1 H1]], H2 as [(<- & <- & _)|[N2 H2]]; cbn [key] in *; [done|..].
      + destruct (F _ _ H2 ltac:(done) ltac:(lia)). lia.
      + destruct (F _ _ H1 ltac:(done) ltac:(lia)). lia.
      + by eapply (t_uniq _ T). }
  split; [exact T'|]. intros k' N'. assert (forall m, (exists j, ns_rx st' !! j = Some (mkRx k' m)) <-> if k' =? k then Some n = Some m else if k' =? k0 then None = Some m else ctx st k' = Some m) as E.
  { intros m. cbn [ns_rx st']. destruct (Z.eqb_spec k' k) as [->|Nk].
    - split; [intros [j Hj]|intros [= <-]; exists i; by apply list_lookup_insert_eq]. apply list_lookup_insert_Some in Hj as [(<- & [= ->] & _)|[Ne Hj]]; [done|].
      destruct (F _ _ Hj ltac:(done) N'). by cbn [key] in *.
    - destruct (Z.eqb_spec k' k0) as [->|Nk0].
      + split; [intros [j Hj]|done]. apply list_lookup_insert_Some in Hj as [(_ & [= -> ->] & _)|[Ne Hj]]; [done|]. destruct (F _ _ Hj ltac:(done) N'). by cbn [key] in *.
      + rewrite ctx_at by done. split; intros [j Hj]; exists j; [apply list_lookup_insert_Some in Hj as [(_ & [= ] & _)|[_ Hj]]; [congruence|done]|].
        rewrite list_lookup_insert_ne; [done|]. intros <-. congruence. }
  apply option_eq. intros m. rewrite ctx_at by done. rewrite E. by destruct (k' =? k), (k' =? k0).
Qed.
Lemma live_small st : table_ok st -> 0 <= ns_rx_live st <= 32.
Proof. intros T. rewrite (t_live _ T). pose proof (count_le (fun x => key x <>? 0) (ns_rx st)). rewrite (t_len _ T) in *. lia. Qed.
Lemma key_of t : task_id t -> u64 (t + 1) = t + 1 /\ t + 1 <> 0.
Proof. unfold task_id. intros H. split; [apply u64_small|]; lia. Qed.
Lemma state_eq st : mkState (ns_rx st) (ns_rx_live st) = st.
Proof. by destruct st. Qed.
Lemma push_found st i t ns n : table_ok st -> task_id t -> ns_rx_find (t + 1) st = Some i -> ns_rx st !!! i = mkRx (t + 1) n -> ns_rx st !! i = Some (mkRx (t + 1) n) ->
  table_ok (set_slot i (t + 1) ns st) /\ forall k, k <> 0 -> ctx (set_slot i (t + 1) ns st) k = if k =? t + 1 then Some ns else ctx st k.
Proof.
  intros T Ht F E H. destruct (set_slot_ok st i (t + 1) n (t + 1) ns T H ltac:(by left)) as [T' C]. cbv zeta in T', C.
  replace (ns_rx_live st + Z.b2z (t + 1 <>? 0) - Z.b2z (t + 1 <>? 0)) with (ns_rx_live st) in T', C by lia. split; [exact T'|].
  intros k N. etrans; [exact (C k N)|]. by destruct (k =? t + 1).
Qed.
(** What a push does to the table seen as a map. *)
Lemma rx_push_ok st t ns : table_ok st -> task_id t -> exists st', namespace_net_push_context t ns st = (default 0 (ctx st (t + 1)), st') /\ table_ok st' /\
  (ctx st (t + 1) = None -> ns <> 0 -> ns_rx_find 0 st = None -> st' = st) /\
  ((is_Some (ctx st (t + 1)) \/ ns <> 0 /\ is_Some (ns_rx_find 0 st)) -> forall k, k <> 0 -> ctx st' k = if k =? t + 1 then Some ns else ctx st k).
Proof.
  intros T Ht. unfold namespace_net_push_context. destruct (key_of t Ht) as [-> N]. destruct (ns_rx_find (t + 1) st) as [i|] eqn:F.
  - destruct (rx_find_Some _ _ _ F) as (n & H & E). destruct (push_found st i t ns n T Ht F E H) as [T' C]. eexists. split_and!; [|exact T'| |].
    + unfold ctx. rewrite F. by cbn.
    + unfold ctx. by rewrite F.
    + intros _. exact C.
  - assert (ctx st (t + 1) = None) as C0 by (unfold ctx; by rewrite F). rewrite C0. destruct (Z.eqb_spec ns 0) as [->|Ns]; [exists st; split_and!; try done; intros [[? ?]|[? _]]; done|].
    destruct (ns_rx_find 0 st) as [i|] eqn:F0; [|exists st; split_and!; try done; intros [[? ?]|[_ [? ?]]]; done].
    destruct (rx_find_Some _ _ _ F0) as (n & H & E). destruct (set_slot_ok st i 0 n (t + 1) ns T H ltac:(right; left; done)) as [T' C]. cbv zeta in T', C.
    replace (ns_rx_live st + Z.b2z (t + 1 <>? 0) - Z.b2z (0 <>? 0)) with (ns_rx_live st + 1) in T', C by lia. pose proof (live_small _ T).
    exists (add_live 1 (set_slot i (t + 1) ns st)). unfold add_live, set_slot in *. cbn [ns_rx ns_rx_live]. rewrite i32_id by lia. split_and!; [done|exact T'|done|].
    intros _ k Nk. etrans; [exact (C k Nk)|]. by rewrite (proj2 (Z.eqb_neq k 0)).
Qed.
Lemma free_ok st t i : table_ok st -> task_id t -> ns_rx_find (t + 1) st = Some i ->
  table_ok (free_slot i st) /\ forall k, k <> 0 -> ctx (free_slot i st) k = if k =? t + 1 then None else ctx st k.
Proof.
  intros T Ht F. destruct (rx_find_Some _ _ _ F) as (n & H & _). destruct (set_slot_ok st i (t + 1) n 0 0 T H ltac:(right; by right)) as [T' C]. cbv zeta in T', C.
  destruct (key_of t Ht) as [_ N]. replace (ns_rx_live st + Z.b2z (0 <>? 0) - Z.b2z (t + 1 <>? 0)) with (ns_rx_live st + -1) in T', C by lia.
  assert (0 < ns_rx_live st) by (rewrite (t_live _ T); apply (inj_lt 0), count_if_first; eapply first_index_is_Some; [exact H|cbn [key]; lia]).
  pose proof (live_small _ T). unfold free_slot, add_live, set_slot. cbn [ns_rx ns_rx_live]. rewrite i32_id by lia. split; [exact T'|].
  intros k Nk. etrans; [exact (C k Nk)|]. by rewrite (proj2 (Z.eqb_neq k 0)).
Qed.
Lemma rx_pop_ok st t saved : table_ok st -> task_id t -> let st' := namespace_net_pop_context t saved st in table_ok st' /\
  forall k, k <> 0 -> ctx st' k = if k =? t + 1 then (if saved =? 0 then None else ctx st k ≫= fun _ => Some saved) else ctx st k.
Proof.
  intros T Ht. unfold namespace_net_pop_context. destruct (key_of t Ht) as [-> N]. destruct (ns_rx_find (t + 1) st) as [i|] eqn:F.
  - destruct (Z.eqb_spec saved 0) as [->|Ns]; cbn [negb]; [exact (free_ok st t i T Ht F)|]. destruct (rx_find_Some _ _ _ F) as (n & H & E).
    destruct (push_found st i t saved n T Ht F E H) as [T' C]. split; [exact T'|]. intros k Nk. rewrite (C k Nk). destruct (Z.eqb_spec k (t + 1)) as [->|]; [|done].
    unfold ctx. by rewrite F.
  - split; [done|]. intros k Nk. destruct (Z.eqb_spec k (t + 1)) as [->|]; [|done]. unfold ctx. rewrite F. by destruct (saved =? 0).
Qed.
Lemma rx_release_ok st t : table_ok st -> task_id t -> let st' := namespace_net_release t st in table_ok st' /\
  forall k, k <> 0 -> ctx st' k = if k =? t + 1 then None else ctx st k.
Proof.
  intros T Ht. unfold namespace_net_release. destruct (key_of t Ht) as [-> N]. destruct (ns_rx_find (t + 1) st) as [i|] eqn:F.
  - destruct (Z.eqb_spec (ns_rx_live st) 0) as [L|_]; [|exact (free_ok st t i T Ht F)]. exfalso. destruct (rx_find_Some _ _ _ F) as (n & H & _). rewrite (t_live _ T) in L.
    assert (0 < count_if (fun x => key x <>? 0) (ns_rx st))%nat by (apply count_if_first; eapply first_index_is_Some; [exact H|cbn [key]; lia]). lia.
  - destruct (ns_rx_live st =? 0); (split; [done|]; intros k Nk; destruct (Z.eqb_spec k (t + 1)) as [->|]; [|done]; unfold ctx; by rewrite F).
Qed.

(** ** Nesting *)

Definition unsaved (l : list (Z * Z)) : Prop := Forall (fun x => snd x = 0) l.
(** The innermost delivery is to [n], and each one has saved the one around it;
    around the first that was recorded are only ones that found no free slot. *)
Fixpoint nested (l : list (Z * Z)) (n : Z) : Prop :=
  match l with
  | (m, p) :: l => m = n /\ n <> 0 /\ if p =? 0 then unsaved l else nested l p
  | [] => False
  end.
Definition nests (o : option Z) (l : list (Z * Z)) : Prop := match o with Some n => nested l n | None => unsaved l end.
Record nest_inv (s : nest) : Prop := {
  n_table : table_ok (rx s);
  n_tasks : forall t, task_id t -> nests (ctx (rx s) (t + 1)) (inside s t) }.
Lemma nested_nonzero l n : nested l n -> n <> 0.
Proof. destruct l as [|[m p] l]; [done|]. by intros (_ & N & _). Qed.
(** A change of one task's context and deliveries. *)
Lemma nest_update s st t l : nest_inv s -> task_id t -> table_ok st -> (forall k, k <> 0 -> k <> t + 1 -> ctx st k = ctx (rx s) k) ->
  nests (ctx st (t + 1)) l -> nest_inv (mkNest st (set_inside t l (inside s))).
Proof.
  intros V Ht T C H. constructor; [exact T|]. intros t' Ht'. cbn [rx inside]. unfold set_inside. destruct (Z.eqb_spec t' t) as [->|N]; [exact H|].
  rewrite C by (unfold task_id in *; lia). by apply (n_tasks _ V).
Qed.
Lemma run_inv e s : nest_inv s -> fair e -> nest_inv (run e s).
Proof.
  intros V F. pose proof (n_table _ V) as T. destruct e as [t ns|t|t]; cbn [run fair] in *.
  - destruct F as [Ht Ns]. pose proof (n_tasks _ V t Ht) as H. destruct (rx_push_ok (rx s) t ns T Ht) as (st & E & T' & C1 & C2). rewrite E.
    assert (t + 1 <> 0) as Nt by (unfold task_id in Ht; lia).
    assert ((is_Some (ctx (rx s) (t + 1)) \/ ns <> 0 /\ is_Some (ns_rx_find 0 (rx s))) \/ st = rx s /\ ctx (rx s) (t + 1) = None) as [D|[-> D]].
    { destruct (ctx (rx s) (t + 1)) eqn:X; [left; left; eauto|]. destruct (ns_rx_find 0 (rx s)) eqn:Y; [left; right; eauto|]. right. auto. }
    + specialize (C2 D). apply nest_update; [done..| |].
      * intros k Nk Nk'. rewrite C2 by done. by rewrite (proj2 (Z.eqb_neq _ _)).
      * rewrite C2, Z.eqb_refl by done. cbn [nests nested]. split_and!; [done..|]. destruct (ctx (rx s) (t + 1)) as [m|] eqn:X; cbn [default nests] in *; [|done].
        by rewrite (proj2 (Z.eqb_neq _ _)) by (by eapply nested_nonzero).
    + apply nest_update; [done..|]. rewrite D in *. cbn [nests] in *. by constructor.
  - destruct (inside s t) as [|[m saved] l] eqn:L; [done|]. pose proof (n_tasks _ V t F) as H. rewrite L in H. destruct (rx_pop_ok (rx s) t saved T F) as [T' C].
    assert (t + 1 <> 0) as Nt by (unfold task_id in F; lia). apply nest_update; [done..| |].
    + intros k Nk Nk'. rewrite C by done. by rewrite (proj2 (Z.eqb_neq _ _)).
    + rewrite C, Z.eqb_refl by done. destruct (ctx (rx s) (t + 1)) as [n|]; cbn [nests] in *.
      * destruct H as (-> & N & H). by destruct (saved =? 0).
      * apply Forall_cons in H as [E H]. cbn [snd] in E. subst saved. done.
  - destruct (rx_release_ok (rx s) t T F) as [T' C]. assert (t + 1 <> 0) as Nt by (unfold task_id in F; lia). apply nest_update; [done..| |].
    + intros k Nk Nk'. rewrite C by done. by rewrite (proj2 (Z.eqb_neq _ _)).
    + rewrite C, Z.eqb_refl by done. constructor.
Qed.
Lemma boot_nest : nest_inv nest_boot.
Proof.
  constructor; [constructor; [done|vm_compute; reflexivity|]|].
  - intros i j x y Hx _ _ N. cbn in Hx. apply lookup_replicate_1 in Hx as [-> _]. done.
  - intros t Ht. assert (ctx (rx nest_boot) (t + 1) = None) as ->; [|constructor]. unfold ctx. assert (ns_rx_find (t + 1) (rx nest_boot) = None) as ->; [|done].
    apply first_index_None. intros i x Hx. cbn in Hx. apply lookup_replicate_1 in Hx as [-> _]. cbn [key]. unfold task_id in Ht. lia.
Qed.
Lemma reach_nest s : rtc nest_step nest_boot s -> nest_inv s.
Proof. intros R. refine (rtc_invariant nest_step nest_inv _ _ _ R boot_nest). intros x y (e & F & ->) V. by apply run_inv. Qed.
Lemma context_ctx own t st : table_ok st -> task_id t -> (forall n, ctx st (t + 1) = Some n -> n <> 0) ->
  namespace_net_context own t st = default own (ctx st (t + 1)).
Proof.
  intros T Ht N. unfold namespace_net_context. destruct (key_of t Ht) as [-> Nt]. unfold ctx in *. destruct (ns_rx_find (t + 1) st) as [i|] eqn:F; cbn in *; [|by destruct (_ <>? _)].
  destruct (rx_find_Some _ _ _ F) as (n & H & E). rewrite E in *. cbn [rx_ns] in *. rewrite (proj2 (Z.eqb_neq n 0)) by auto. cbn [negb].
  assert (0 < count_if (fun x => key x <>? 0) (ns_rx st))%nat by (apply count_if_first; eapply first_index_is_Some; [exact H|cbn [key]; lia]).
  rewrite (t_live _ T). by rewrite (proj2 (Z.eqb_neq _ 0)) by lia.
Qed.

(** ** Theorems *)

(** A delivery to the initial namespace by a task of another one is recorded
    nowhere, so it resolves in the namespace of the task. *)
Lemma initial_not_pushed own id : task_id id -> own <> 0 ->
  let '(_, st) := namespace_net_push_context id 0 rx_boot in namespace_net_context own id st = own.
Proof.
  intros Ht N. unfold namespace_net_push_context. destruct (ns_rx_find _ rx_boot) as [i|] eqn:F; [|done]. exfalso. destruct (rx_find_Some _ _ _ F) as (n & H & _). cbn in H.
  apply lookup_replicate_1 in H as [[= E _] _]. destruct (key_of id Ht) as [E' N']. lia.
Qed.
(** In a delivery to namespace 5 one to the initial namespace, and in it one to 7:
    when these two are left the first has lost its context. *)
Lemma nested_initial_loses_context :
  namespace_net_context 0 1 (rx (run (Leave 1) (run (Leave 1) (run (Enter 1 7) (run (Enter 1 0) (run (Enter 1 5) nest_boot)))))) = 0.
Proof. vm_compute. reflexivity. Qed.
(** (Refinement.)  With tasks entering and leaving deliveries in any order and being
    reaped in between, all to namespaces other than the initial one, the table answers
    like a stack per task: inside deliveries the context is the namespace of the innermost
    one, or the task's own when all its deliveries found the table full; outside it is the
    task's own; a delivery entered while a slot is free gets its context; the fast-path
    counter is the number of slots in use. *)
Theorem net_contexts_nest s t own : rtc nest_step nest_boot s -> task_id t ->
  ns_rx_live (rx s) = Z.of_nat (count_if (fun x => key x <>? 0) (ns_rx (rx s))) /\
  (forall ns, ns <> 0 -> is_Some (ns_rx_find 0 (rx s)) -> namespace_net_context own t (rx (run (Enter t ns) s)) = ns) /\
  match inside s t with
  | [] => namespace_net_context own t (rx s) = own
  | (ns, saved) :: l => namespace_net_context own t (rx s) = ns \/ namespace_net_context own t (rx s) = own /\ ns_rx_find (t + 1) (rx s) = None
  end.
Proof.
  intros R Ht. pose proof (reach_nest s R) as V. split; [apply (t_live _ (n_table _ V))|]. split.
  { intros ns N Fr. cbn [run]. destruct (rx_push_ok (rx s) t ns (n_table _ V) Ht) as (st & E & T' & _ & C). rewrite E. cbn [rx]. destruct (key_of t Ht) as [_ Nt].
    specialize (C (or_intror (conj N Fr)) (t + 1) Nt). rewrite Z.eqb_refl in C. rewrite context_ctx; [by rewrite C|done..|]. intros n. rewrite C. by intros [= <-]. }
  pose proof (n_tasks _ V t Ht) as H.
  rewrite context_ctx by (apply (n_table _ V) || done || (intros n E; rewrite E in H; by eapply nested_nonzero)).
  destruct (inside s t) as [|[ns saved] l]; destruct (ctx (rx s) (t + 1)) as [n|] eqn:C; cbn [nests nested default] in *; [done|done|left; by destruct H|right].
  split; [done|]. unfold ctx in C. by destruct (ns_rx_find (t + 1) (rx s)).
Qed.
Lemma net_contexts_nest_witness : namespace_net_context 9 3 (rx (run (Enter 3 5) nest_boot)) = 5.
Proof.
  assert (R : rtc nest_step nest_boot (run (Enter 3 5) nest_boot)) by (apply rtc_once; exists (Enter 3 5); split; [split; [split; [lia|reflexivity]|lia]|reflexivity]).
  assert (Ht : task_id 3) by (split; [lia|reflexivity]).
  destruct (proj2 (proj2 (net_contexts_nest _ 3 9 R Ht))) as [H|[_ H]]; [exact H|vm_compute in H; discriminate H].
Defined.
End NetContext.
