(* ===== verification/Pmm.v ===== *)
(** The physical memory manager ([kernel/mm/pmm.c]): the bitmap of used frames,
    the buddy allocator with its free lists threaded through the free frames, the
    scan it falls back to, reference counts, the caches of each CPU with their
    quarantine, and page-table claims.  Also the queries of [kernel/mm/numa.c] the
    allocator asks.

    Memory is a function from the physical address of an aligned 64-bit word to
    its value; the direct map only adds a constant to an address.  An access
    outside of a table is [Fault].  [pmm_init] has allocated the tables, so their
    pointers are not null. *)
From S2P Require Import Prelude.
Local Open Scope Z_scope.
Local Open Scope kernel_scope.

Module Pmm.

Definition PAGE_SIZE := 4096.
Definition BITS_PER_BYTE := 8.
Definition BUDDY_MAX_ORDER := 18.
Definition BUDDY_MAGIC := 184550656.
Definition NUMA_MAX_NODES := 8.
Definition MAX_CPUS := 64.
Definition NUMA_CHUNK_SHIFT := 26.
Definition PMM_PCP_LIMIT := 128.
Definition PMM_PCP_REFILL := 32.
Definition PMM_PCP_ZERO_LIMIT := 64.
Definition PMM_PCP_ZERO_DRAIN := 32.
Definition PMM_PCP_Q_LIMIT := 32.
Definition PMM_PCP_Q_AGE := 16.
Definition PMM_PCP_Q_SCRUB := 8.
(** A word of eight bytes 0xDF. *)
Definition POISON_WORD := 16131858542891098079.
Definition PMM_POISON_CANARY := 14627143964423802622.
Definition PMM_ZERO_MAGIC := 6493597909481970193.
Definition PMM_POISON_CANARY_OFF := 8.
Definition PMM_ZERO_MAGIC_OFF := 16.

(** The buckets of a CPU: plain frames, frames that are zero, and the quarantine. *)
Record pmm_pcp := mkPcp { head : Z; count : Z; zero_head : Z; zero_count : Z; q_head : Z; q_tail : Z; q_count : Z }.
#[global] Instance pmm_pcp_inhabited : Inhabited pmm_pcp := populate (mkPcp 0 0 0 0 0 0 0).
(** What firmware says of the memory: the node of each chunk, and distances. *)
Record topology := mkTopo { node_count : Z; chunk_node : list Z; distance : list (list Z) }.
Record pmm := mkPmm {
  max_address : Z; direct_map_size : Z; bitmap_bytes : Z; topo : topology;
  bitmap : list Z; buddy_heads : list Z; pt_frames : list Z; frame_refcounts : list Z;
  free_frames : Z; free_area : list (list Z); node_free_pages : list Z; pmm_nodes : Z;
  buddy_ready : bool; zero_page_frame : Z; g_scan_cursor : Z;
  pcps : list pmm_pcp; mem : Z -> Z }.
Definition set_bitmap x st := mkPmm (max_address st) (direct_map_size st) (bitmap_bytes st) (topo st) x (buddy_heads st) (pt_frames st) (frame_refcounts st)
  (free_frames st) (free_area st) (node_free_pages st) (pmm_nodes st) (buddy_ready st) (zero_page_frame st) (g_scan_cursor st) (pcps st) (mem st).
Definition set_heads x st := mkPmm (max_address st) (direct_map_size st) (bitmap_bytes st) (topo st) (bitmap st) x (pt_frames st) (frame_refcounts st)
  (free_frames st) (free_area st) (node_free_pages st) (pmm_nodes st) (buddy_ready st) (zero_page_frame st) (g_scan_cursor st) (pcps st) (mem st).
Definition set_pts x st := mkPmm (max_address st) (direct_map_size st) (bitmap_bytes st) (topo st) (bitmap st) (buddy_heads st) x (frame_refcounts st)
  (free_frames st) (free_area st) (node_free_pages st) (pmm_nodes st) (buddy_ready st) (zero_page_frame st) (g_scan_cursor st) (pcps st) (mem st).
Definition set_refs x st := mkPmm (max_address st) (direct_map_size st) (bitmap_bytes st) (topo st) (bitmap st) (buddy_heads st) (pt_frames st) x
  (free_frames st) (free_area st) (node_free_pages st) (pmm_nodes st) (buddy_ready st) (zero_page_frame st) (g_scan_cursor st) (pcps st) (mem st).
Definition set_free x st := mkPmm (max_address st) (direct_map_size st) (bitmap_bytes st) (topo st) (bitmap st) (buddy_heads st) (pt_frames st) (frame_refcounts st)
  x (free_area st) (node_free_pages st) (pmm_nodes st) (buddy_ready st) (zero_page_frame st) (g_scan_cursor st) (pcps st) (mem st).
Definition set_area x st := mkPmm (max_address st) (direct_map_size st) (bitmap_bytes st) (topo st) (bitmap st) (buddy_heads st) (pt_frames st) (frame_refcounts st)
  (free_frames st) x (node_free_pages st) (pmm_nodes st) (buddy_ready st) (zero_page_frame st) (g_scan_cursor st) (pcps st) (mem st).
Definition set_node_free x st := mkPmm (max_address st) (direct_map_size st) (bitmap_bytes st) (topo st) (bitmap st) (buddy_heads st) (pt_frames st) (frame_refcounts st)
  (free_frames st) (free_area st) x (pmm_nodes st) (buddy_ready st) (zero_page_frame st) (g_scan_cursor st) (pcps st) (mem st).
Definition set_nodes x st := mkPmm (max_address st) (direct_map_size st) (bitmap_bytes st) (topo st) (bitmap st) (buddy_heads st) (pt_frames st) (frame_refcounts st)
  (free_frames st) (free_area st) (node_free_pages st) x (buddy_ready st) (zero_page_frame st) (g_scan_cursor st) (pcps st) (mem st).
Definition set_ready x st := mkPmm (max_address st) (direct_map_size st) (bitmap_bytes st) (topo st) (bitmap st) (buddy_heads st) (pt_frames st) (frame_refcounts st)
  (free_frames st) (free_area st) (node_free_pages st) (pmm_nodes st) x (zero_page_frame st) (g_scan_cursor st) (pcps st) (mem st).
Definition set_zero_page x st := mkPmm (max_address st) (direct_map_size st) (bitmap_bytes st) (topo st) (bitmap st) (buddy_heads st) (pt_frames st) (frame_refcounts st)
  (free_frames st) (free_area st) (node_free_pages st) (pmm_nodes st) (buddy_ready st) x (g_scan_cursor st) (pcps st) (mem st).
Definition set_cursor x st := mkPmm (max_address st) (direct_map_size st) (bitmap_bytes st) (topo st) (bitmap st) (buddy_heads st) (pt_frames st) (frame_refcounts st)
  (free_frames st) (free_area st) (node_free_pages st) (pmm_nodes st) (buddy_ready st) (zero_page_frame st) x (pcps st) (mem st).
Definition set_pcps x st := mkPmm (max_address st) (direct_map_size st) (bitmap_bytes st) (topo st) (bitmap st) (buddy_heads st) (pt_frames st) (frame_refcounts st)
  (free_frames st) (free_area st) (node_free_pages st) (pmm_nodes st) (buddy_ready st) (zero_page_frame st) (g_scan_cursor st) x (mem st).
Definition set_mem x st := mkPmm (max_address st) (direct_map_size st) (bitmap_bytes st) (topo st) (bitmap st) (buddy_heads st) (pt_frames st) (frame_refcounts st)
  (free_frames st) (free_area st) (node_free_pages st) (pmm_nodes st) (buddy_ready st) (zero_page_frame st) (g_scan_cursor st) (pcps st) x.

(** ** Tables and memory *)

Definition peek {A} (l : list A) (i : Z) : res A :=
  if i <? 0 then Fault else match l !! Z.to_nat i with Some x => Ok x | None => Fault end.
Definition poke {A} (l : list A) (i : Z) (x : A) : res (list A) := let* _ := peek l i in Ok (<[Z.to_nat i := x]> l).
Definition load (a : Z) (st : pmm) : Z := mem st a.
Definition store (a v : Z) (st : pmm) : pmm := set_mem (fun x => if x =? a then v else mem st x) st.
(** [memset] of whole pages, by the word. *)
Definition fill (frame n v : Z) (st : pmm) : pmm :=
  set_mem (fun x => if (frame <=? x) && (x <? frame + n * PAGE_SIZE) then v else mem st x) st.

Definition align_up_u64 (v a : Z) : Z := Z.land (u64 (v + a - 1)) (u64 (Z.lnot (a - 1))).
Definition align_down_u64 (v a : Z) : Z := Z.land v (u64 (Z.lnot (a - 1))).
Definition frame_index (frame : Z) : Z := frame / PAGE_SIZE.
Definition frame_from_index (i : Z) : Z := u64 (i * PAGE_SIZE).
Definition bit_get (l : list Z) (i : Z) : res bool :=
  let* b := peek l (i / BITS_PER_BYTE) in Ok (b &? Z.shiftl 1 (i mod BITS_PER_BYTE)).
Definition bit_set (l : list Z) (i : Z) : res (list Z) :=
  let* b := peek l (i / BITS_PER_BYTE) in poke l (i / BITS_PER_BYTE) (Z.lor b (Z.shiftl 1 (i mod BITS_PER_BYTE))).
Definition bit_clear (l : list Z) (i : Z) : res (list Z) :=
  let* b := peek l (i / BITS_PER_BYTE) in poke l (i / BITS_PER_BYTE) (Z.land b (u8 (Z.lnot (Z.shiftl 1 (i mod BITS_PER_BYTE))))).
Definition bitmap_get (i : Z) (st : pmm) : res bool := bit_get (bitmap st) i.

(** ** Nodes *)

Definition numa_node_of_frame (t : topology) (frame : Z) : Z :=
  let chunk := Z.shiftr frame NUMA_CHUNK_SHIFT in
  if Z.of_nat (length (chunk_node t)) <=? chunk then 0 else zget (chunk_node t) chunk.
Definition NUMA_DISTANCE_LOCAL := 10.
Definition NUMA_DISTANCE_DEFAULT := 20.
Definition numa_distance (t : topology) (from to : Z) : Z :=
  if (from <? 0) || (to <? 0) || (NUMA_MAX_NODES <=? from) || (NUMA_MAX_NODES <=? to) then NUMA_DISTANCE_DEFAULT
  else let d := zget (zget (distance t) from) to in
       if d =? 0 then (if from =? to then NUMA_DISTANCE_LOCAL else NUMA_DISTANCE_DEFAULT) else d.
Definition numa_node_count (t : topology) : Z := if node_count t <? 1 then 1 else node_count t.
(** The nearest node not taken, the first of equals. *)
Definition nearest (t : topology) (pref n : Z) (taken : list bool) : Z :=
  fold_left (fun best i => if zget taken i then best
                           else if (best <? 0) || (numa_distance t pref i <? numa_distance t pref best) then i else best)
            (Z.of_nat <$> seq 0 (Z.to_nat n)) (- 1).
Fixpoint order_loop (fuel : nat) (t : topology) (pref n : Z) (out : list Z) (taken : list bool) : list Z :=
  match fuel with
  | O => out
  | S fuel =>
      let best := nearest t pref n taken in
      if best <? 0 then out else order_loop fuel t pref n (out ++ [best]) (zalter (fun _ => true) best taken)
  end.
(** The [while] runs as long as there are fewer than [n]. *)
Definition numa_node_order (t : topology) (pref : Z) : list Z :=
  let n := numa_node_count t in
  let pref := if (pref <? 0) || (n <=? pref) then 0 else pref in
  order_loop (Z.to_nat n - 1) t pref n [pref] (zalter (fun _ => true) pref (replicate (Z.to_nat NUMA_MAX_NODES) false)).

Definition pmm_node_of (frame : Z) (st : pmm) : Z := if 1 <? pmm_nodes st then numa_node_of_frame (topo st) frame else 0.
Definition pmm_node_of_index (i : Z) (st : pmm) : Z := if 1 <? pmm_nodes st then numa_node_of_frame (topo st) (frame_from_index i) else 0.
Definition bitmap_set (i : Z) (st : pmm) : res pmm :=
  let* b := bitmap_get i st in
  let* st := (if negb b then
                let n := pmm_node_of_index i st in
                let* c := peek (node_free_pages st) n in
                if c <>? 0 then let* l := poke (node_free_pages st) n (c - 1) in Ok (set_node_free l st) else Ok st
              else Ok st) in
  let* l := bit_set (bitmap st) i in Ok (set_bitmap l st).
Definition bitmap_clear (i : Z) (st : pmm) : res pmm :=
  let* b := bitmap_get i st in
  let* st := (if b then
                let n := pmm_node_of_index i st in
                let* c := peek (node_free_pages st) n in
                let* l := poke (node_free_pages st) n (u64 (c + 1)) in Ok (set_node_free l st)
              else Ok st) in
  let* l := bit_clear (bitmap st) i in Ok (set_bitmap l st).
Definition set_refcount (i v : Z) (st : pmm) : res pmm := let* l := poke (frame_refcounts st) i v in Ok (set_refs l st).

(** ** The buddy allocator *)

Definition buddy_pages (order : Z) : Z := Z.shiftl 1 order.
Definition buddy_bytes (order : Z) : Z := buddy_pages order * PAGE_SIZE.
(** [struct buddy_block] in the first words of a free block. *)
Definition next_off := 0.
Definition prev_off := 8.
Definition order_off := 16.
Definition magic_off := 24.
Definition buddy_region_valid (frame order : Z) (st : pmm) : bool :=
  if (order <? 0) || (BUDDY_MAX_ORDER <? order) then false
  else
    let bytes := buddy_bytes order in
    if frame &? (bytes - 1) then false
    else if max_address st <? u64 (frame + bytes) then false
    else if direct_map_size st <? u64 (frame + bytes) then false
    else if bitmap_bytes st * BITS_PER_BYTE <? frame_index frame + buddy_pages order then false
    else true.
Definition head_get (i : Z) (st : pmm) : res bool := bit_get (buddy_heads st) i.
Definition head_set (i : Z) (st : pmm) : res pmm := let* l := bit_set (buddy_heads st) i in Ok (set_heads l st).
Definition head_clear (i : Z) (st : pmm) : res pmm := let* l := bit_clear (buddy_heads st) i in Ok (set_heads l st).
Definition area_get (node order : Z) (st : pmm) : res Z := let* row := peek (free_area st) node in peek row order.
Definition area_set (node order frame : Z) (st : pmm) : res pmm :=
  let* row := peek (free_area st) node in
  let* row := poke row order frame in
  let* l := poke (free_area st) node row in
  Ok (set_area l st).

Definition buddy_insert (frame order : Z) (st : pmm) : res pmm :=
  let node := pmm_node_of frame st in
  let st := store (frame + magic_off) BUDDY_MAGIC (store (frame + order_off) order st) in
  let* next := area_get node order st in
  let st := store (frame + prev_off) 0 (store (frame + next_off) next st) in
  let st := if next <>? 0 then store (next + prev_off) frame st else st in
  let* st := area_set node order frame st in
  head_set (frame_index frame) st.
Definition buddy_unlink (frame order : Z) (st : pmm) : res pmm :=
  let node := pmm_node_of frame st in
  let prev := load (frame + prev_off) st in
  let* st := (if prev <>? 0 then Ok (store (prev + next_off) (load (frame + next_off) st) st)
              else let* first := area_get node order st in
                   if first =? frame then area_set node order (load (frame + next_off) st) st else Ok st) in
  let next := load (frame + next_off) st in
  let st := if next <>? 0 then store (next + prev_off) (load (frame + prev_off) st) st else st in
  let st := store (frame + next_off) 0 (store (frame + prev_off) 0 st) in
  head_clear (frame_index frame) st.
Definition buddy_is_free_block (frame order : Z) (st : pmm) : res bool :=
  if negb (buddy_region_valid frame order st) then Ok false
  else
    let i := frame_index frame in
    let* h := head_get i st in
    if negb h then Ok false
    else let* b := bitmap_get i st in
         if b then Ok false
         else Ok ((load (frame + magic_off) st =? BUDDY_MAGIC) && (load (frame + order_off) st =? order)).
(** [n] orders are left below the largest. *)
Fixpoint merge_loop (n : nat) (frame order : Z) (st : pmm) : res (Z * Z * pmm) :=
  match n with
  | O => Ok (frame, order, st)
  | S n =>
      let buddy := Z.lxor frame (buddy_bytes order) in
      let* f := buddy_is_free_block buddy order st in
      if negb f then Ok (frame, order, st)
      else let* st := buddy_unlink buddy order st in
           merge_loop n (if buddy <? frame then buddy else frame) (order + 1) st
  end.
Definition buddy_merge_insert (frame order : Z) (st : pmm) : res pmm :=
  if negb (buddy_region_valid frame order st) then Ok st
  else let* h := head_get (frame_index frame) st in
       if h then Ok st
       else let* '(frame, order, st) := merge_loop (Z.to_nat (BUDDY_MAX_ORDER - order)) frame order st in
            buddy_insert frame order st.
(** Is no page of the [n] from index [i] on free? *)
Fixpoint all_used (n : nat) (i : Z) (st : pmm) : res bool :=
  match n with O => Ok true | S n => let* b := bitmap_get i st in if negb b then Ok false else all_used n (i + 1) st end.
Fixpoint clear_pages (n : nat) (i : Z) (st : pmm) : res pmm :=
  match n with
  | O => Ok st
  | S n => let* st := bitmap_clear i st in let* st := set_refcount i 0 st in clear_pages n (i + 1) st
  end.
Definition buddy_release (frame order : Z) (st : pmm) : res (Z * pmm) :=
  if negb (buddy_region_valid frame order st) then Ok (- 1, st)
  else
    let i := frame_index frame in
    let n := buddy_pages order in
    let* used := all_used (Z.to_nat n) i st in
    if negb used then Ok (- 1, st)
    else let* st := clear_pages (Z.to_nat n) i st in
         let* st := buddy_merge_insert frame order (set_free (u64 (free_frames st + n)) st) in
         Ok (0, st).
Definition pmm_frame_is_page_table (frame : Z) (st : pmm) : res bool :=
  if max_address st <=? frame then Ok false else bit_get (pt_frames st) (frame / PAGE_SIZE).
(** [hidden] is what [secretmem_frame_is_hidden] answers. *)
Definition pmm_return_frame (hidden : Z -> bool) (frame : Z) (st : pmm) : res pmm :=
  let* pt := pmm_frame_is_page_table frame st in
  if pt then Panic "pmm: page-table frame returned to the allocator"
  else if hidden frame then Panic "pmm: secret frame returned to the allocator"
  else
    let* '(rc, st) := buddy_release frame 0 st in
    if rc =? 0 then Ok st
    else
      let i := frame_index frame in
      let* b := bitmap_get i st in
      if buddy_region_valid frame 0 st && negb b then Panic "frame returned to the allocator while already free"
      else
        let* st := (if b then let* st := bitmap_clear i st in Ok (set_free (u64 (free_frames st + 1)) st) else Ok st) in
        let* st := set_refcount i 0 st in
        buddy_merge_insert frame 0 st.

(** [n] halvings are left to the order asked for. *)
Fixpoint split_loop (n : nat) (frame k : Z) (st : pmm) : res pmm :=
  match n with O => Ok st | S n => let* st := buddy_insert (frame + buddy_bytes (k - 1)) (k - 1) st in split_loop n frame (k - 1) st end.
Fixpoint claim_pages (n : nat) (i : Z) (st : pmm) : res pmm :=
  match n with
  | O => Ok st
  | S n => let* st := bitmap_set i st in let* st := set_refcount i 1 st in claim_pages n (i + 1) st
  end.
(** The lists of orders [k] and above, [n] of them. *)
Fixpoint alloc_orders (n : nat) (k order node : Z) (st : pmm) : res (Z * pmm) :=
  match n with
  | O => Ok (0, st)
  | S n =>
      let* frame := area_get node k st in
      if frame =? 0 then alloc_orders n (k + 1) order node st
      else
        let* f := buddy_is_free_block frame k st in
        if negb f then
          let* st := head_clear (frame_index frame) st in
          let* st := area_set node k 0 st in
          alloc_orders n (k + 1) order node st
        else
          let* st := buddy_unlink frame k st in
          let* st := split_loop (Z.to_nat (k - order)) frame k st in
          let* st := claim_pages (Z.to_nat (buddy_pages order)) (frame_index frame) st in
          Ok (frame, set_free (u64 (free_frames st - buddy_pages order)) st)
  end.
Definition buddy_alloc_node (order node : Z) (st : pmm) : res (Z * pmm) :=
  if (order <? 0) || (BUDDY_MAX_ORDER <? order) then Ok (0, st)
  else if (node <? 0) || (NUMA_MAX_NODES <=? node) then Ok (0, st)
  else alloc_orders (Z.to_nat (BUDDY_MAX_ORDER + 1 - order)) order order node st.
Fixpoint alloc_nodes (order : Z) (nodes : list Z) (st : pmm) : res (Z * pmm) :=
  match nodes with
  | [] => Ok (0, st)
  | node :: nodes => let* '(frame, st) := buddy_alloc_node order node st in if frame <>? 0 then Ok (frame, st) else alloc_nodes order nodes st
  end.
(** [here] is the node of the running CPU. *)
Definition buddy_alloc_pref (order pref : Z) (strict : bool) (here : Z) (st : pmm) : res (Z * pmm) :=
  if pmm_nodes st <=? 1 then buddy_alloc_node order 0 st
  else
    let pref := if pref <? 0 then here else pref in
    if strict then buddy_alloc_node order pref st else alloc_nodes order (numa_node_order (topo st) pref) st.
Definition buddy_alloc (order here : Z) (st : pmm) : res (Z * pmm) := buddy_alloc_pref order (- 1) false here st.

(** ** The bitmap as the truth: seeding the lists, and the scan *)

(** The 64-bit word of eight bytes, the lowest first. *)
Definition word_at (l : list Z) (w : Z) : res Z :=
  fold_right (fun j acc => let* acc := acc in let* b := peek l (w * 8 + j) in Ok (Z.lor (u8 b) (Z.shiftl acc 8))) (Ok 0) [0; 1; 2; 3; 4; 5; 6; 7].
Definition ALL_ONES := 18446744073709551615.
Definition frame_count (st : pmm) : Z := max_address st / PAGE_SIZE.
(** A whole word without a free frame. *)
Definition full_word (i limit : Z) (st : pmm) : res bool :=
  if (i mod 64 =? 0) && (i + 64 <=? limit) then let* w := word_at (bitmap st) (i / 64) in Ok (w =? ALL_ONES) else Ok false.
(** The end of the free run; [fuel] frames are left. *)
Fixpoint run_end (fuel : nat) (i limit : Z) (st : pmm) : res Z :=
  match fuel with
  | O => Ok i
  | S fuel => if limit <=? i then Ok i else let* b := bitmap_get i st in if b then Ok i else run_end fuel (i + 1) limit st
  end.
(** The largest order of a block at [pos] that ends by [end_]; [n] orders are left. *)
Fixpoint fit_order (n : nat) (order pos end_ : Z) : Z :=
  match n with
  | O => order
  | S n => let pages := Z.shiftl 1 (order + 1) in
           if (end_ <? pos + pages) || (pos &? (pages - 1)) then order else fit_order n (order + 1) pos end_
  end.
Fixpoint decompose (fuel : nat) (pos end_ : Z) (st : pmm) : res pmm :=
  match fuel with
  | O => Ok st
  | S fuel =>
      if end_ <=? pos then Ok st
      else let order := fit_order (Z.to_nat BUDDY_MAX_ORDER) 0 pos end_ in
           let* st := buddy_insert (frame_from_index pos) order st in
           decompose fuel (pos + Z.shiftl 1 order) end_ st
  end.
Fixpoint seed_loop (fuel : nat) (i : Z) (st : pmm) : res pmm :=
  match fuel with
  | O => Ok st
  | S fuel =>
      let limit := frame_count st in
      if limit <=? i then Ok st
      else
        let* full := full_word i limit st in
        if full then seed_loop fuel (i + 64) st
        else
          let* b := bitmap_get i st in
          if b then seed_loop fuel (i + 1) st
          else let* end_ := run_end (Z.to_nat limit) (i + 1) limit st in
               let* st := decompose (Z.to_nat limit) i end_ st in
               seed_loop fuel end_ st
  end.
Definition empty_area : list (list Z) := replicate (Z.to_nat NUMA_MAX_NODES) (replicate (Z.to_nat (BUDDY_MAX_ORDER + 1)) 0).
Definition buddy_seed_from_bitmap (st : pmm) : res pmm :=
  let st := set_heads (replicate (Z.to_nat (bitmap_bytes st)) 0) (set_area empty_area st) in
  seed_loop (S (Z.to_nat (frame_count st))) 0 st.

Definition mark_frame_free (frame : Z) (st : pmm) : res pmm :=
  let i := frame_index frame in
  let* b := bitmap_get i st in
  if b then
    let* st := bitmap_clear i st in
    let st := set_free (u64 (free_frames st + 1)) st in
    if buddy_ready st then buddy_merge_insert frame 0 st else Ok st
  else Ok st.
Definition mark_frame_used (frame : Z) (st : pmm) : res pmm :=
  if max_address st <=? frame then Ok st
  else
    let i := frame_index frame in
    let* b := bitmap_get i st in
    if negb b then let* st := bitmap_set i st in Ok (if 0 <? free_frames st then set_free (free_frames st - 1) st else st) else Ok st.
Definition claim_frame (i : Z) (st : pmm) : res pmm :=
  let* st := mark_frame_used (frame_from_index i) st in set_refcount i 1 st.
Fixpoint claim_run (n : nat) (i : Z) (st : pmm) : res pmm :=
  match n with O => Ok st | S n => let* st := claim_frame i st in claim_run n (i + 1) st end.
Definition pmm_check_handout (frame : Z) (st : pmm) : res pmm :=
  let* pt := pmm_frame_is_page_table frame st in if pt then Panic "pmm: page-table frame allocated twice" else Ok st.
(** A run of free frames taken out of the bitmap. *)
Definition take_run (start n : Z) (st : pmm) : res (Z * pmm) :=
  let* st := claim_run (Z.to_nat n) start st in
  let* st := (if buddy_ready st then buddy_seed_from_bitmap st else Ok st) in
  let frame := frame_from_index start in
  let* st := pmm_check_handout frame st in
  Ok (frame, fill frame n 0 st).
(** The index of the lowest bit that is set. *)
Fixpoint ctz (n : nat) (w : Z) : Z :=
  match n with O => 0 | S n => if Z.odd w then 0 else 1 + ctz n (Z.shiftr w 1) end.
Fixpoint scan_loop (fuel : nat) (i limit n run run_start : Z) (st : pmm) : res (Z * pmm) :=
  match fuel with
  | O => Ok (0, st)
  | S fuel =>
      if limit <=? i then Ok (0, st)
      else
        let* full := full_word i limit st in
        if full then scan_loop fuel (i + 64) limit n 0 run_start st
        else
          let w := i / 64 in
          let* free_bits := (if (run =? 0) && (w * 64 + 64 <=? limit) then
                               let* x := word_at (bitmap st) w in Ok (Some (Z.land (u64 (Z.lnot x)) (u64 (Z.shiftl ALL_ONES (i mod 64)))))
                             else Ok None) in
          match free_bits with
          | Some 0 => scan_loop fuel ((w + 1) * 64) limit n run run_start st
          | _ =>
              let i := match free_bits with Some x => w * 64 + ctz 64 x | None => i end in
              let* b := bitmap_get i st in
              if b then scan_loop fuel (i + 1) limit n 0 run_start st
              else
                let run_start := if run =? 0 then i else run_start in
                let run := run + 1 in
                if n <=? run then
                  let* '(frame, st) := take_run run_start n st in
                  Ok (frame, set_cursor (run_start + n) st)
                else scan_loop fuel (i + 1) limit n run run_start st
          end
  end.
Definition bitmap_scan_window (lo hi n : Z) (st : pmm) : res (Z * pmm) := scan_loop (S (Z.to_nat (hi - lo))) lo hi n 0 0 st.
Definition bitmap_scan_alloc (n : Z) (st : pmm) : res (Z * pmm) :=
  let limit := frame_count st in
  if (n =? 0) || (limit <? n) then Ok (0, st)
  else
    let start := if limit <=? g_scan_cursor st then 0 else g_scan_cursor st in
    let* '(frame, st) := bitmap_scan_window start limit n st in
    if frame <>? 0 then Ok (frame, st)
    else if start =? 0 then Ok (0, st)
    else let* '(frame, st) := bitmap_scan_window 0 start n st in
         Ok (frame, if frame =? 0 then set_cursor 0 st else st).
Fixpoint below_loop (fuel : nat) (i limit n run run_start : Z) (st : pmm) : res (Z * pmm) :=
  match fuel with
  | O => Ok (0, st)
  | S fuel =>
      if limit <=? i then Ok (0, st)
      else
        let* b := bitmap_get i st in
        if b then below_loop fuel (i + 1) limit n 0 run_start st
        else
          let run_start := if run =? 0 then i else run_start in
          if n <=? run + 1 then take_run run_start n st else below_loop fuel (i + 1) limit n (run + 1) run_start st
  end.
Definition pmm_alloc_frames_below (n limit : Z) (st : pmm) : res (Z * pmm) :=
  if (n =? 0) || (limit <? PAGE_SIZE) then Ok (0, st)
  else
    let cap := u64 (limit + 1) / PAGE_SIZE in
    let frames := if cap <? frame_count st then cap else frame_count st in
    below_loop (S (Z.to_nat frames)) 0 frames n 0 0 st.
Definition pmm_alloc_block_node (order node : Z) (strict : bool) (here : Z) (st : pmm) : res (Z * pmm) :=
  if (order <? 0) || (BUDDY_MAX_ORDER <? order) then Ok (0, st)
  else if negb (buddy_ready st) then Ok (0, st)
  else
    let* '(frame, st) := buddy_alloc_pref order node strict here st in
    if frame =? 0 then Ok (0, st)
    else let* st := pmm_check_handout frame st in Ok (frame, fill frame (buddy_pages order) 0 st).

(** The smallest order that covers [n] pages; [fuel] orders are left. *)
Fixpoint cover_order (fuel : nat) (order n : Z) : Z :=
  match fuel with O => order | S fuel => if Z.shiftl 1 order <? n then cover_order fuel (order + 1) n else order end.
(** The pages past the request go back one by one. *)
Fixpoint trim_loop (fuel : nat) (frame e : Z) (st : pmm) : res pmm :=
  match fuel with
  | O => Ok st
  | S fuel =>
      let i := frame_index frame + e in
      let* st := bitmap_clear i st in
      let* st := set_refcount i 0 st in
      let* st := buddy_merge_insert (frame + e * PAGE_SIZE) 0 (set_free (u64 (free_frames st + 1)) st) in
      trim_loop fuel frame (e + 1) st
  end.
Definition scan_rest (n : Z) (st : pmm) : res (Z * pmm) := if 0 <? free_frames st then bitmap_scan_alloc n st else Ok (0, st).
(** One round of [pmm_alloc_frames] under the lock; 0 sends it to reclaim. *)
Definition alloc_round (n here : Z) (st : pmm) : res (Z * pmm) :=
  if (n =? 1) && buddy_ready st then
    let* '(frame, st) := buddy_alloc 0 here st in
    if frame <>? 0 then let* st := pmm_check_handout frame st in Ok (frame, fill frame 1 0 st) else scan_rest 1 st
  else if 1 <? n then
    let order := cover_order 64 0 n in
    let* '(frame, st) := (if buddy_ready st then buddy_alloc order here st else Ok (0, st)) in
    if frame <>? 0 then
      let* st := trim_loop (Z.to_nat (Z.shiftl 1 order - n)) frame n st in
      let* st := pmm_check_handout frame st in
      Ok (frame, fill frame n 0 st)
    else scan_rest n st
  else bitmap_scan_alloc 1 st.

(** ** References *)

Definition pmm_ref_frame (frame : Z) (st : pmm) : res pmm :=
  kassert ((frame <? max_address st) && negb (frame &? (PAGE_SIZE - 1))) "reference to frame outside RAM"
    (let* c := peek (frame_refcounts st) (frame / PAGE_SIZE) in
     kassert ((0 <? c) && (c <? 65535)) "reference to frame at a refcount out of range" (set_refcount (frame / PAGE_SIZE) (c + 1) st)).
Definition pmm_get_refcount (frame : Z) (st : pmm) : res Z := peek (frame_refcounts st) (frame / PAGE_SIZE).

(** ** The caches of a CPU *)

Definition pcp_of (c : Z) (st : pmm) : pmm_pcp := zget (pcps st) c.
Definition upd_pcp (c : Z) (f : pmm_pcp -> pmm_pcp) (st : pmm) : pmm := set_pcps (zalter f c (pcps st)) st.
Definition set_plain h n (p : pmm_pcp) : pmm_pcp := mkPcp h n (zero_head p) (zero_count p) (q_head p) (q_tail p) (q_count p).
Definition set_zero h n (p : pmm_pcp) : pmm_pcp := mkPcp (head p) (count p) h n (q_head p) (q_tail p) (q_count p).
Definition set_q h l n (p : pmm_pcp) : pmm_pcp := mkPcp (head p) (count p) (zero_head p) (zero_count p) h l n.

(** [n] more frames may be pulled. *)
Fixpoint refill_loop (n : nat) (c here : Z) (st : pmm) : res pmm :=
  match n with
  | O => Ok st
  | S n =>
      if PMM_PCP_LIMIT <=? count (pcp_of c st) then Ok st
      else
        let* '(frame, st) := buddy_alloc 0 here st in
        if frame =? 0 then Ok st
        else
          let st := store frame (head (pcp_of c st)) st in
          refill_loop n c here (upd_pcp c (fun p => set_plain frame (u32 (count p + 1)) p) st)
  end.
Definition pmm_pcp_refill (c here : Z) (st : pmm) : res pmm := refill_loop (Z.to_nat PMM_PCP_REFILL) c here st.

Definition zero_pop_checked (c : Z) (st : pmm) : res (Z * pmm) :=
  let frame := zero_head (pcp_of c st) in
  if load (frame + PMM_ZERO_MAGIC_OFF) st <>? PMM_ZERO_MAGIC then Panic "pmm: zero bucket corrupt (a freed frame was written)"
  else
    kassert (negb (load frame st &? (PAGE_SIZE - 1))) "zero bucket frame has its link overwritten"
      (let st := upd_pcp c (fun p => set_zero (load frame st) (u32 (zero_count p - 1)) p) st in
       Ok (frame, store (frame + PMM_ZERO_MAGIC_OFF) 0 (store frame 0 st))).
Fixpoint zero_drain_loop (n : nat) (hidden : Z -> bool) (c : Z) (st : pmm) : res pmm :=
  match n with
  | O => Ok st
  | S n =>
      if zero_count (pcp_of c st) =? 0 then Ok st
      else
        let* '(frame, st) := zero_pop_checked c st in
        if frame =? 0 then Ok st
        else let* st := pmm_return_frame hidden frame st in zero_drain_loop n hidden c st
  end.
Definition pmm_pcp_zero_drain (hidden : Z -> bool) (c : Z) (st : pmm) : res pmm := zero_drain_loop (Z.to_nat PMM_PCP_ZERO_DRAIN) hidden c st.
Definition parked (frame : Z) (st : pmm) : bool :=
  (load (frame + PMM_POISON_CANARY_OFF) st =? PMM_POISON_CANARY) || (load (frame + PMM_ZERO_MAGIC_OFF) st =? PMM_ZERO_MAGIC).
Definition q_push (c frame : Z) (st : pmm) : pmm :=
  if parked frame st then st
  else
    let st := store (frame + PMM_POISON_CANARY_OFF) PMM_POISON_CANARY (store frame 0 st) in
    let p := pcp_of c st in
    let st := if q_tail p <>? 0 then store (q_tail p) frame st else st in
    let h := if q_tail p <>? 0 then q_head p else frame in
    upd_pcp c (fun p => set_q h frame (u32 (q_count p + 1)) p) st.
Definition q_pop (c : Z) (st : pmm) : Z * pmm :=
  let p := pcp_of c st in
  let frame := q_head p in
  if frame =? 0 then (0, st)
  else let h := load frame st in
       (frame, upd_pcp c (fun p => set_q h (if h =? 0 then 0 else q_tail p) (u32 (q_count p - 1)) p) st).
Definition zero_push (c frame : Z) (st : pmm) : pmm :=
  if load (frame + PMM_ZERO_MAGIC_OFF) st =? PMM_ZERO_MAGIC then st
  else
    let st := store (frame + PMM_ZERO_MAGIC_OFF) PMM_ZERO_MAGIC (store frame (zero_head (pcp_of c st)) st) in
    upd_pcp c (fun p => set_zero frame (u32 (zero_count p + 1)) p) st.
(** The loops of [pmm_pcp_drain_all] for one CPU; their counts go down to 0. *)
Fixpoint drain_plain (n : nat) (hidden : Z -> bool) (c : Z) (st : pmm) : res pmm :=
  match n with
  | O => Ok st
  | S n =>
      let frame := head (pcp_of c st) in
      let st := upd_pcp c (fun p => set_plain (load frame st) (u32 (count p - 1)) p) st in
      let* st := pmm_return_frame hidden frame st in drain_plain n hidden c st
  end.
Fixpoint drain_q (n : nat) (hidden : Z -> bool) (c : Z) (st : pmm) : res pmm :=
  match n with
  | O => Ok st
  | S n =>
      if q_count (pcp_of c st) =? 0 then Ok st
      else
        let '(frame, st) := q_pop c st in
        let* st := pmm_return_frame hidden frame (fill frame 1 0 st) in drain_q n hidden c st
  end.
Fixpoint drain_zero (n : nat) (hidden : Z -> bool) (c : Z) (st : pmm) : res pmm :=
  match n with
  | O => Ok st
  | S n =>
      let* '(frame, st) := zero_pop_checked c st in
      if frame =? 0 then Ok st else let* st := pmm_return_frame hidden frame st in drain_zero n hidden c st
  end.
Definition drain_cpu (hidden : Z -> bool) (c : Z) (st : pmm) : res pmm :=
  let p := pcp_of c st in
  let* st := drain_plain (Z.to_nat (count p)) hidden c st in
  let* st := drain_q (Z.to_nat (q_count p)) hidden c st in
  drain_zero (Z.to_nat (zero_count p)) hidden c st.
(** A page out of the quarantine, zeroed, to the zero bucket. *)
Definition promote (hidden : Z -> bool) (c frame : Z) (st : pmm) : res pmm :=
  let st := fill frame 1 0 st in
  let* st := (if PMM_PCP_ZERO_LIMIT <=? zero_count (pcp_of c st) then pmm_pcp_zero_drain hidden c st else Ok st) in
  Ok (zero_push c frame st).
(** [n] promotions are left to this pass. *)
Fixpoint scrub_loop (n : nat) (hidden : Z -> bool) (c : Z) (st : pmm) : res pmm :=
  match n with
  | O => Ok st
  | S n =>
      if q_count (pcp_of c st) <=? PMM_PCP_Q_AGE then Ok st
      else
        let '(frame, st) := q_pop c st in
        if load (frame + PMM_POISON_CANARY_OFF) st <>? PMM_POISON_CANARY then Panic "pmm: a frame in quarantine was written after it was freed"
        else let* st := promote hidden c frame st in scrub_loop n hidden c st
  end.
Definition pmm_scrub_quarantine (hidden : Z -> bool) (c : Z) (st : pmm) : res pmm :=
  if buddy_ready st then scrub_loop (Z.to_nat PMM_PCP_Q_SCRUB) hidden c st else Ok st.

(** ** Page-table claims *)

Definition pmm_claim_page_table_release (frame : Z) (st : pmm) : res (bool * pmm) :=
  if max_address st <=? frame then Ok (false, st)
  else let i := frame / PAGE_SIZE in
       let* was := bit_get (pt_frames st) i in
       let* l := bit_clear (pt_frames st) i in
       Ok (was, set_pts l st).
Definition pmm_note_page_table (frame : Z) (owned : bool) (st : pmm) : res pmm :=
  if max_address st <=? frame then Ok st
  else let i := frame / PAGE_SIZE in
       let* l := (if owned then bit_set (pt_frames st) i else bit_clear (pt_frames st) i) in
       Ok (set_pts l st).

(** ** Free and allocate *)

(** What the first part of [pmm_free_frame] found out. *)
Inductive free_answer := Ignored | Referenced | Unreferenced.
Definition free_begin (hidden : Z -> bool) (frame : Z) (st : pmm) : res (free_answer * pmm) :=
  if (zero_page_frame st <>? 0) && (frame =? zero_page_frame st) then Ok (Ignored, st)
  else
    kassert (negb (frame &? (PAGE_SIZE - 1))) "free of misaligned frame"
      (if max_address st <=? frame then Ok (Ignored, st)
       else
         let* pt := pmm_frame_is_page_table frame st in
         if pt then Panic "pmm: free of a frame still claimed as a live page table"
         else
           let i := frame / PAGE_SIZE in
           let* c := peek (frame_refcounts st) i in
           if c =? 0 then Panic "pmm_free_frame: double-free of physical frame"
           else
             let* st := set_refcount i (c - 1) st in
             if c - 1 <>? 0 then Ok (Referenced, st)
             else if hidden frame then Panic "pmm: secret frame freed while hidden" else Ok (Unreferenced, st)).
(** The second part: the frame goes to the caches of CPU [c]. *)
Definition free_park (hidden : Z -> bool) (poison : bool) (c frame : Z) (st : pmm) : res pmm :=
  if buddy_ready st then
    if parked frame st then Panic "pmm: double free (frame already parked in a bucket)"
    else
      let st := if poison then fill frame 1 POISON_WORD st else st in
      let st := q_push c frame st in
      if PMM_PCP_Q_LIMIT <? q_count (pcp_of c st) then
        let '(oldest, st) := q_pop c st in promote hidden c oldest st
      else Ok st
  else mark_frame_free frame st.
Definition pmm_free_frame (hidden : Z -> bool) (poison : bool) (c frame : Z) (st : pmm) : res pmm :=
  let* '(a, st) := free_begin hidden frame st in
  match a with Unreferenced => free_park hidden poison c frame st | _ => Ok st end.

(** Is one of the first words, the marker apart, not zero? *)
Definition dirty (frame : Z) (st : pmm) : bool :=
  existsb (fun j => (8 * j <>? PMM_ZERO_MAGIC_OFF) && (load (frame + 8 * j) st <>? 0)) (Z.of_nat <$> seq 0 32).
Definition take_zero (c : Z) (st : pmm) : res (Z * pmm) :=
  let frame := zero_head (pcp_of c st) in
  if load (frame + PMM_ZERO_MAGIC_OFF) st <>? PMM_ZERO_MAGIC then Panic "pmm: per-CPU zero bucket corrupt"
  else
    let link := load frame st in
    let st := store frame 0 st in
    let st := upd_pcp c (fun p => set_zero link (u32 (zero_count p - 1)) p) st in
    let st := store (frame + PMM_ZERO_MAGIC_OFF) 0 st in
    let* st := set_refcount (frame_index frame) 1 st in
    let* st := pmm_check_handout frame st in
    Ok (frame, if dirty frame st then fill frame 1 0 st else st).
Definition take_plain (c : Z) (st : pmm) : res (Z * pmm) :=
  let frame := head (pcp_of c st) in
  let st := upd_pcp c (fun p => set_plain (load frame st) (u32 (count p - 1)) p) st in
  let* st := set_refcount (frame_index frame) 1 st in
  let* st := pmm_check_handout frame st in
  Ok (frame, fill frame 1 0 st).
(** [pmm_alloc_frame] on CPU [c]; 0 sends it to the reclaim of [pmm_alloc_frames].
    [pmm_pcp_ready] is [buddy_ready] here: its other test asks for a per-CPU area with
    a number below MAX_CPUS, and [c] is one.  The page is cleared in the same step as
    it is taken, where the code clears it once the lock is dropped: it is the caller's
    by then. *)
Definition pmm_alloc_frame (c here : Z) (st : pmm) : res (Z * pmm) :=
  if negb (buddy_ready st) then alloc_round 1 here st
  else if 0 <? zero_count (pcp_of c st) then take_zero c st
  else
    let* st := (if count (pcp_of c st) =? 0 then pmm_pcp_refill c here st else Ok st) in
    if 0 <? count (pcp_of c st) then take_plain c st else alloc_round 1 here st.
Definition pmm_alloc_frame_node (node : Z) (strict : bool) (c here : Z) (st : pmm) : res (Z * pmm) :=
  if (pmm_nodes st <=? 1) || (node <? 0) then pmm_alloc_frame c here st
  else
    let* '(frame, st) := (if buddy_ready st then buddy_alloc_pref 0 node strict here st else Ok (0, st)) in
    if frame <>? 0 then let* st := pmm_check_handout frame st in Ok (frame, fill frame 1 0 st)
    else if strict then Ok (0, st) else alloc_round 1 here st.

(** ** Nodes known, and queries *)

Fixpoint count_nodes (n : nat) (i : Z) (st : pmm) : res pmm :=
  match n with
  | O => Ok st
  | S n =>
      let* b := bitmap_get i st in
      let* st := (if negb b then
                    let k := pmm_node_of_index i st in
                    let* c := peek (node_free_pages st) k in
                    let* l := poke (node_free_pages st) k (u64 (c + 1)) in Ok (set_node_free l st)
                  else Ok st) in
      count_nodes n (i + 1) st
  end.
Definition pmm_numa_reseed (st : pmm) : res pmm :=
  if numa_node_count (topo st) <=? 1 then Ok st
  else
    let st := set_node_free (replicate (Z.to_nat NUMA_MAX_NODES) 0) (set_nodes (numa_node_count (topo st)) st) in
    let* st := count_nodes (Z.to_nat (bitmap_bytes st * BITS_PER_BYTE)) 0 st in
    if buddy_ready st then buddy_seed_from_bitmap st else Ok st.
Definition pmm_node_free_frames (node : Z) (st : pmm) : Z :=
  if (node <? 0) || (NUMA_MAX_NODES <=? node) then 0
  else if pmm_nodes st <=? 1 then (if node =? 0 then free_frames st else 0) else zget (node_free_pages st) node.
Definition pmm_owned_free_frames (st : pmm) : Z :=
  if negb (buddy_ready st) then free_frames st
  else fold_left (fun n p => u64 (n + count p + q_count p + zero_count p)) (pcps st) (free_frames st).
Definition pmm_frame_used (phys : Z) (st : pmm) : res bool :=
  if max_address st <=? phys then Ok false
  else let* b := bitmap_get (frame_index phys) st in if b then Ok true else head_get (frame_index phys) st.
Definition pmm_frame_adopt (phys : Z) (st : pmm) : pmm := store (phys + PMM_ZERO_MAGIC_OFF) 0 (store (phys + PMM_POISON_CANARY_OFF) 0 st).
(** The lists are built and the shared zero page is set aside, by CPU [c]. *)
Definition pmm_switch_to_direct_map (c here : Z) (st : pmm) : res pmm :=
  let* st := buddy_seed_from_bitmap st in
  let* '(frame, st) := pmm_alloc_frame c here (set_ready true st) in
  if frame =? 0 then Panic "pmm: failed to reserve shared zero page" else Ok (set_zero_page frame st).
End Pmm.
