(* ===== verification/PmmTree.v ===== *)
(** The buddy allocator of [Pmm]: bitmaps, free lists and the blocks they hold,
    and what inserting, unlinking, merging and splitting do to them. *)
From Stdlib Require Import ZifyBool.
From S2P Require Import Prelude Pmm.
From stdpp Require Import list gmap.
Local Open Scope Z_scope.
Local Open Scope kernel_scope.

Module PmmTree.
Import Pmm.

(** ** Tables *)

Lemma peek_ok {A} (l : list A) i x : 0 <= i -> l !! Z.to_nat i = Some x -> peek l i = Ok x.
Proof. intros Hi H. unfold peek. rewrite (proj2 (Z.ltb_ge _ _)), H by lia. done. Qed.
Lemma peek_lt {A} (l : list A) i : 0 <= i < Z.of_nat (length l) -> exists x, l !! Z.to_nat i = Some x /\ peek l i = Ok x.
Proof. intros Hi. destruct (lookup_lt_is_Some_2 l (Z.to_nat i)) as [x H]; [lia|]. exists x. split; [done|]. apply peek_ok; [lia|done]. Qed.
Lemma poke_ok {A} (l : list A) i x : 0 <= i < Z.of_nat (length l) -> poke l i x = Ok (<[Z.to_nat i := x]> l).
Proof. intros Hi. unfold poke. destruct (peek_lt l i Hi) as (y & _ & ->). done. Qed.
Lemma to_nat_inj i j : 0 <= i -> 0 <= j -> Z.to_nat i = Z.to_nat j -> i = j.
Proof. lia. Qed.
Lemma lookup_poke {A} (l : list A) i j x : 0 <= i < Z.of_nat (length l) -> 0 <= j -> <[Z.to_nat i := x]> l !! Z.to_nat j = if j =? i then Some x else l !! Z.to_nat j.
Proof.
  intros Hi Hj. destruct (Z.eqb_spec j i) as [->|N]; [apply list_lookup_insert_eq; lia|]. apply list_lookup_insert_ne. lia.
Qed.

(** ** Bitmaps *)

Definition bit (l : list Z) (i : Z) : bool := match l !! Z.to_nat (i / 8) with Some b => Z.testbit b (i mod 8) | None => false end.
Definition nbits (l : list Z) : Z := 8 * Z.of_nat (length l).
Lemma byte_of l i : 0 <= i < nbits l -> exists b, l !! Z.to_nat (i / 8) = Some b /\ peek l (i / BITS_PER_BYTE) = Ok b.
Proof. intros Hi. apply peek_lt. unfold nbits, BITS_PER_BYTE in *. split; [apply Z.div_pos; lia|apply Z.div_lt_upper_bound; lia]. Qed.
Lemma bit_get_ok l i : 0 <= i < nbits l -> bit_get l i = Ok (bit l i).
Proof.
  intros Hi. unfold bit_get, bit. destruct (byte_of l i Hi) as (b & H & ->). rewrite H. cbn [rbind]. unfold BITS_PER_BYTE. f_equal.
  rewrite land_single_bit by (apply Z.mod_pos_bound; lia). destruct (Z.testbit b (i mod 8)) eqn:E; [|done]. rewrite Z.shiftl_1_l.
  apply negb_true_iff, Z.eqb_neq. pose proof (Z.pow_pos_nonneg 2 (i mod 8) ltac:(lia) ltac:(apply Z.mod_pos_bound; lia)). lia.
Qed.
Lemma bit_upd l i j b v (f : Z -> Z) : 0 <= i < nbits l -> 0 <= j -> l !! Z.to_nat (i / 8) = Some b ->
  (forall k, 0 <= k < 8 -> Z.testbit (f b) k = if k =? i mod 8 then v else Z.testbit b k) ->
  bit (<[Z.to_nat (i / 8) := f b]> l) j = if j =? i then v else bit l j.
Proof.
  intros Hi Hj H F. unfold bit. assert (0 <= i / 8 < Z.of_nat (length l)) by (unfold nbits in *; split; [apply Z.div_pos; lia|apply Z.div_lt_upper_bound; lia]).
  rewrite lookup_poke by (try apply Z.div_pos; lia). pose proof (Z.div_mod i 8 ltac:(lia)). pose proof (Z.div_mod j 8 ltac:(lia)).
  pose proof (Z.mod_pos_bound i 8 ltac:(lia)). pose proof (Z.mod_pos_bound j 8 ltac:(lia)).
  destruct (Z.eqb_spec (j / 8) (i / 8)) as [E|N].
  - rewrite F by lia. rewrite E, H. destruct (Z.eqb_spec (j mod 8) (i mod 8)), (Z.eqb_spec j i); try done; lia.
  - rewrite (proj2 (Z.eqb_neq j i)); [done|]. intros ->. done.
Qed.
Lemma bit_set_ok l i : 0 <= i < nbits l -> exists l', bit_set l i = Ok l' /\ length l' = length l /\ forall j, 0 <= j -> bit l' j = if j =? i then true else bit l j.
Proof.
  intros Hi. unfold bit_set. destruct (byte_of l i Hi) as (b & H & ->). cbn [rbind]. unfold BITS_PER_BYTE.
  rewrite poke_ok by (unfold nbits in *; split; [apply Z.div_pos; lia|apply Z.div_lt_upper_bound; lia]).
  eexists. split; [done|]. split; [apply length_insert|]. intros j Hj. apply (bit_upd l i j b true (fun b => Z.lor b (Z.shiftl 1 (i mod 8)))); [done..|].
  intros k Hk. rewrite Z.lor_spec, Z.shiftl_1_l, Z.pow2_bits_eqb by (apply Z.mod_pos_bound; lia). rewrite Z.eqb_sym. destruct (k =? i mod 8); [apply orb_true_r|apply orb_false_r].
Qed.
Lemma bit_clear_ok l i : 0 <= i < nbits l -> exists l', bit_clear l i = Ok l' /\ length l' = length l /\ forall j, 0 <= j -> bit l' j = if j =? i then false else bit l j.
Proof.
  intros Hi. unfold bit_clear. destruct (byte_of l i Hi) as (b & H & ->). cbn [rbind]. unfold BITS_PER_BYTE.
  rewrite poke_ok by (unfold nbits in *; split; [apply Z.div_pos; lia|apply Z.div_lt_upper_bound; lia]).
  eexists. split; [done|]. split; [apply length_insert|]. intros j Hj. apply (bit_upd l i j b false (fun b => Z.land b (u8 (Z.lnot (Z.shiftl 1 (i mod 8)))))); [done..|].
  intros k Hk. rewrite Z.land_spec. unfold u8. change U8_MOD with (2 ^ 8). rewrite Z.mod_pow2_bits_low, Z.lnot_spec by lia.
  rewrite Z.shiftl_1_l, Z.pow2_bits_eqb by (apply Z.mod_pos_bound; lia). rewrite Z.eqb_sym. destruct (k =? i mod 8); [apply andb_false_r|apply andb_true_r].
Qed.

(** ** Buddies *)

Lemma pow_pos k : 0 <= k -> 0 < 2 ^ k.
Proof. intros. apply Z.pow_pos_nonneg; lia. Qed.
Lemma xor_one q : Z.lxor q 1 = if Z.even q then q + 1 else q - 1.
Proof.
  destruct (Z.even q) eqn:E.
  - apply Z.even_spec in E as [m ->]. rewrite <- Z.add_nocarry_lxor; [done|]. apply Z.bits_inj'. intros n Hn. rewrite Z.land_spec, Z.bits_0.
    destruct (Z.eq_dec n 0) as [->|]; [by rewrite Z.testbit_even_0|]. by rewrite (Z.bits_above_log2 1 n), andb_false_r by (cbn; lia).
  - assert (Z.odd q = true) as O by (rewrite <- Z.negb_even, E; done). apply Z.odd_spec in O as [m ->]. rewrite <- (Z.lxor_0_r (2 * m + 1 - 1)). rewrite <- (Z.lxor_nilpotent 1).
    rewrite <- Z.lxor_assoc. f_equal. replace (2 * m + 1 - 1) with (2 * m) by lia. rewrite <- Z.add_nocarry_lxor; [done|]. apply Z.bits_inj'. intros n Hn.
    rewrite Z.land_spec, Z.bits_0. destruct (Z.eq_dec n 0) as [->|]; [by rewrite Z.testbit_even_0|]. by rewrite (Z.bits_above_log2 1 n), andb_false_r by (cbn; lia).
Qed.
Lemma xor_mul q k : 0 <= k -> Z.lxor (q * 2 ^ k) (2 ^ k) = Z.lxor q 1 * 2 ^ k.
Proof. intros Hk. rewrite <- !Z.shiftl_mul_pow2 by done. rewrite <- (Z.shiftl_1_l k), Z.shiftl_lxor. done. Qed.
(** The buddy of a block, and the block the two make. *)
Record buddies (i k j l : Z) : Prop := {
  bd_div : (2 ^ k | j); bd_pos : 0 <= j; bd_back : Z.lxor j (2 ^ k) = i; bd_ne : j <> i;
  bd_low : l = Z.min i j; bd_align : (2 ^ (k + 1) | l);
  bd_pages : forall p, l <= p < l + 2 ^ (k + 1) <-> i <= p < i + 2 ^ k \/ j <= p < j + 2 ^ k;
  bd_apart : forall p, ~ (i <= p < i + 2 ^ k /\ j <= p < j + 2 ^ k) }.
Lemma buddy_of i k : 0 <= k -> 0 <= i -> (2 ^ k | i) -> buddies i k (Z.lxor i (2 ^ k)) (Z.min i (Z.lxor i (2 ^ k))).
Proof.
  intros Hk Hi [q ->]. pose proof (pow_pos k Hk) as P. assert (0 <= q) by nia. rewrite xor_mul by done.
  assert (P2 : 2 ^ (k + 1) = 2 * 2 ^ k) by (rewrite Z.pow_add_r, Z.pow_1_r by lia; lia).
  assert (Z.lxor (Z.lxor q 1 * 2 ^ k) (2 ^ k) = q * 2 ^ k) as B by (rewrite xor_mul by done; by rewrite Z.lxor_assoc, Z.lxor_nilpotent, Z.lxor_0_r).
  rewrite xor_one in *. destruct (Z.even q) eqn:E.
  - apply Z.even_spec in E as [m ->]. rewrite Z.min_l by nia. constructor; rewrite ?P2; try done; try nia; [by exists (2 * m + 1)|exists m; lia].
  - assert (Z.odd q = true) as O by (rewrite <- Z.negb_even, E; done). apply Z.odd_spec in O as [m ->]. assert (0 <= m) by lia. rewrite Z.min_r by nia.
    constructor; rewrite ?P2; try done; try nia; [by exists (2 * m + 1 - 1)|exists m; lia].
Qed.

(** ** Blocks *)

(** [B] has the order of each linked block by the index of its first page; the
    pages from [h] on, [n] of them, are free and in no block. *)
Record blocks (B : gmap Z Z) (free : Z -> bool) (N h n : Z) : Prop := {
  b_in : forall i k, B !! i = Some k -> 0 <= k <= 18 /\ 0 < i /\ (2 ^ k | i) /\ i + 2 ^ k <= N;
  b_free : forall i k p, B !! i = Some k -> i <= p < i + 2 ^ k -> free p = true /\ ~ (h <= p < h + n);
  b_disj : forall i k j m p, B !! i = Some k -> B !! j = Some m -> i <= p < i + 2 ^ k -> j <= p < j + 2 ^ m -> i = j;
  b_cover : forall p, 0 <= p < N -> free p = true -> h <= p < h + n \/ exists i k, B !! i = Some k /\ i <= p < i + 2 ^ k;
  b_hole : forall p, h <= p < h + n -> 0 < p < N /\ free p = true;
  b_max : forall i k, B !! i = Some k -> k < 18 -> B !! Z.lxor i (2 ^ k) <> Some k }.
Lemma blocks_ext B free free' N h n : (forall p, 0 <= p < N -> free' p = free p) -> blocks B free N h n -> blocks B free' N h n.
Proof.
  intros E [I F D C H M]. constructor; try done.
  - intros i k p Hb Hp. destruct (I _ _ Hb) as (? & ? & _ & ?). rewrite E by lia. by eapply F.
  - intros p Hp Hf. rewrite E in Hf by done. by apply C.
  - intros p Hp. destruct (H p Hp). by rewrite E by lia.
Qed.
Lemma block_start B free N h n i k : blocks B free N h n -> B !! i = Some k -> i <= i < i + 2 ^ k.
Proof. intros T H. destruct (b_in _ _ _ _ _ T _ _ H) as ([K _] & _). pose proof (pow_pos k K). lia. Qed.
(** A block leaves the map and joins the hole. *)
Lemma blocks_take B free N h n i k h' n' : blocks B free N h n -> B !! i = Some k ->
  (forall p, h' <= p < h' + n' <-> h <= p < h + n \/ i <= p < i + 2 ^ k) -> blocks (delete i B) free N h' n'.
Proof.
  intros [I F D C H M] Hi E. constructor.
  - intros j m [_ Hj]%lookup_delete_Some. by apply I.
  - intros j m p [Nj Hj]%lookup_delete_Some Hp. destruct (F _ _ _ Hj Hp) as [F1 F2]. split; [done|]. rewrite E. intros [?|Hp']; [done|]. apply Nj. by eapply (D i k j m p).
  - intros j m j' m' p [_ Hj]%lookup_delete_Some [_ Hj']%lookup_delete_Some. by apply D.
  - intros p Hp Hf. destruct (C p Hp Hf) as [?|(j & m & Hj & Hp')]; [left; apply E; by left|]. destruct (decide (j = i)) as [->|N0].
    + simplify_eq. left. apply E. by right.
    + right. exists j, m. split; [by apply lookup_delete_Some|done].
  - intros p [Hp|Hp]%E; [by apply H|]. destruct (F _ _ _ Hi Hp). destruct (I _ _ Hi) as (? & ? & _ & ?). split; [lia|done].
  - intros j m [_ Hj]%lookup_delete_Some Hm X. apply lookup_delete_Some in X as [_ X]. exact (M j m Hj Hm X).
Qed.
(** A block whose pages are in the hole joins the map. *)
Lemma blocks_put B free N h n i k h' n' : blocks B free N h n -> 0 <= k <= 18 -> (2 ^ k | i) ->
  (forall p, h <= p < h + n <-> h' <= p < h' + n' \/ i <= p < i + 2 ^ k) -> (forall p, ~ (h' <= p < h' + n' /\ i <= p < i + 2 ^ k)) ->
  (k < 18 -> B !! Z.lxor i (2 ^ k) <> Some k) -> blocks (<[i := k]> B) free N h' n'.
Proof.
  intros T Hk Dv E A Mx. pose proof T as [I F D C H M]. pose proof (pow_pos k ltac:(lia)) as P.
  assert (Pi : 0 < i < N) by (apply (H i); apply E; right; lia). assert (Pe : 0 < i + 2 ^ k - 1 < N) by (apply H, E; right; lia).
  assert (Nb : forall j m p, B !! j = Some m -> j <= p < j + 2 ^ m -> i <= p < i + 2 ^ k -> False).
  { intros j m p Hj Hp Hp'. apply (proj2 (F _ _ _ Hj Hp)). apply E. by right. }
  constructor.
  - intros j m [[-> ->]|[_ Hj]]%lookup_insert_Some; [split_and!; [lia..|done|lia]|by apply I].
  - intros j m p [[-> ->]|[Nj Hj]]%lookup_insert_Some Hp.
    + split; [apply H, E; by right|]. intros Hp'. by apply (A p).
    + destruct (F _ _ _ Hj Hp) as [F1 F2]. split; [done|]. intros Hp'. apply F2, E. by left.
  - intros j m j' m' p [[-> ->]|[Nj Hj]]%lookup_insert_Some [[-> ->]|[Nj' Hj']]%lookup_insert_Some Hp Hp'; [done| | |by eapply D].
    + exfalso. by eapply Nb.
    + exfalso. by eapply Nb.
  - intros p Hp Hf. destruct (C p Hp Hf) as [[Hh|Hi]%E|(j & m & Hj & Hp')]; [by left| |].
    + right. exists i, k. split; [by rewrite lookup_insert_eq|done].
    + right. exists j, m. split; [|done]. apply lookup_insert_Some. right. split; [|done]. intros ->. eapply (Nb j m j); [done|by eapply block_start|lia].
  - intros p Hp. apply H, E. by left.
  - assert (Bk := buddy_of i k ltac:(lia) ltac:(lia) Dv). intros j m [[-> ->]|[Nj Hj]]%lookup_insert_Some Hm X.
    + apply lookup_insert_Some in X as [[X _]|[_ X]]; [by apply (bd_ne _ _ _ _ Bk)|]. by apply Mx.
    + apply lookup_insert_Some in X as [[X <-]|[_ X]]; [|exact (M j m Hj Hm X)]. destruct (I _ _ Hj) as (? & ? & Dj & _). pose proof (buddy_of j k ltac:(lia) ltac:(lia) Dj) as Bj.
      apply Mx; [done|]. rewrite X. by rewrite (bd_back _ _ _ _ Bj).
Qed.
(** The pages of the hole become used, or used pages become the hole. *)
Lemma blocks_used B free free' N h n h' : blocks B free N h n -> (forall p, 0 <= p < N -> free' p = free p && negb ((h <=? p) && (p <? h + n))) -> blocks B free' N h' 0.
Proof.
  intros [I F D C H M] E. constructor; try done.
  - intros i k p Hb Hp. destruct (I _ _ Hb) as (? & ? & _ & ?). destruct (F _ _ _ Hb Hp) as [Fp Np]. split; [|lia]. rewrite E, Fp by lia. lia.
  - intros p Hp Hf. rewrite E in Hf by done. destruct (C p Hp) as [?|?]; [lia..|]. by right.
  - intros p Hp. lia.
Qed.
Lemma blocks_freed B free free' N h h0 n : blocks B free N h0 0 -> 0 < h -> h + n <= N -> (forall p, h <= p < h + n -> free p = false) ->
  (forall p, 0 <= p < N -> free' p = free p || ((h <=? p) && (p <? h + n))) -> blocks B free' N h n.
Proof.
  intros [I F D C H M] Hh Hn U E. constructor; try done.
  - intros i k p Hb Hp. destruct (I _ _ Hb) as (? & ? & _ & ?). destruct (F _ _ _ Hb Hp) as [Fp _]. split; [by rewrite E, Fp by lia|].
    intros Hp'. rewrite U in Fp by done. done.
  - intros p Hp Hf. rewrite E in Hf by done. destruct (free p) eqn:Fp; [|left; lia]. destruct (C p Hp Fp) as [?|?]; [lia|by right].
  - intros p Hp. rewrite E by lia. lia.
Qed.
(** Two aligned ranges that meet are nested. *)
Lemma aligned_nested i k j m p : 0 <= k <= m -> (2 ^ k | i) -> (2 ^ m | j) -> i <= p < i + 2 ^ k -> j <= p < j + 2 ^ m -> j <= i /\ i + 2 ^ k <= j + 2 ^ m.
Proof.
  intros Hk [q ->] [r ->] Hp Hp'. pose proof (pow_pos k ltac:(lia)). assert (2 ^ m = 2 ^ (m - k) * 2 ^ k) as E by (rewrite <- Z.pow_add_r by lia; f_equal; lia).
  rewrite E in *. set (w := 2 ^ k) in *. set (d := 2 ^ (m - k)) in *. clearbody w d. assert (r * d <= q) by nia. assert (q < r * d + d) by nia. nia.
Qed.
(** Merging is complete: an aligned range of free pages is inside one block. *)
Lemma range_in_block B free N h : blocks B free N h 0 -> forall k, 0 <= k <= 18 -> forall i, 0 <= i -> (2 ^ k | i) -> i + 2 ^ k <= N ->
  (forall p, i <= p < i + 2 ^ k -> free p = true) -> exists j m, B !! j = Some m /\ k <= m /\ j <= i /\ i + 2 ^ k <= j + 2 ^ m.
Proof.
  intros T k [Hk Hk']. revert Hk'. pattern k. apply natlike_ind; [| |exact Hk]; clear k Hk.
  - intros _ i Hi _ Hn Hf. destruct (b_cover _ _ _ _ _ T i) as [?|(j & m & Hj & Hp)]; [cbn in Hn; lia|apply Hf; cbn; lia|lia|].
    exists j, m. destruct (b_in _ _ _ _ _ T _ _ Hj) as (? & _). cbn. split_and!; [done|lia..].
  - intros k Hk IH Hk' i Hi Dv Hn Hf. pose proof (pow_pos k Hk) as P. assert (P2 : 2 ^ Z.succ k = 2 * 2 ^ k) by (by rewrite Z.pow_succ_r). rewrite P2 in *.
    assert (D0 : (2 ^ k | i)) by (destruct Dv as [q ->]; exists (2 * q); lia). assert (D1 : (2 ^ k | i + 2 ^ k)) by (destruct D0 as [q ->]; exists (q + 1); lia).
    destruct (IH ltac:(lia) i Hi D0 ltac:(lia)) as (j0 & m0 & Hj0 & Hm0 & L0 & U0); [intros p Hp; apply Hf; lia|].
    destruct (IH ltac:(lia) (i + 2 ^ k) ltac:(lia) D1 ltac:(lia)) as (j1 & m1 & Hj1 & Hm1 & L1 & U1); [intros p Hp; apply Hf; lia|].
    destruct (b_in _ _ _ _ _ T _ _ Hj0) as (? & ? & Dj0 & _), (b_in _ _ _ _ _ T _ _ Hj1) as (? & ? & Dj1 & _).
    destruct (decide (Z.succ k <= m0)) as [G0|G0].
    + exists j0, m0. destruct (aligned_nested i (Z.succ k) j0 m0 i) as [? X]; [lia|by rewrite P2|done|rewrite P2; lia|lia|]. rewrite P2 in X. split_and!; [done|lia..].
    + assert (m0 = k) as -> by lia. assert (j0 = i) as -> by lia. destruct (decide (Z.succ k <= m1)) as [G1|G1].
      * exfalso. destruct (aligned_nested i (Z.succ k) j1 m1 (i + 2 ^ k)) as [? X]; [lia|by rewrite P2|done|rewrite P2; lia|lia|]. rewrite P2 in X.
        assert (i = j1) as <- by (eapply (b_disj _ _ _ _ _ T i k j1 m1 i); [done|done|lia|lia]). simplify_eq. lia.
      * assert (m1 = k) as -> by lia. assert (j1 = i + 2 ^ k) as -> by lia. exfalso. apply (b_max _ _ _ _ _ T i k Hj0 ltac:(lia)).
        pose proof (buddy_of i k Hk ltac:(lia) D0) as Bd. destruct (bd_align _ _ _ _ Bd) as [q Q]. destruct Dv as [r ->].
        assert (Z.lxor (r * (2 * 2 ^ k)) (2 ^ k) = r * (2 * 2 ^ k) + 2 ^ k) as ->; [|done].
        replace (r * (2 * 2 ^ k)) with ((2 * r) * 2 ^ k) by lia. rewrite xor_mul by done. rewrite xor_one, Z.even_mul. cbn [Z.even orb]. lia.
Qed.

(** ** Lists through memory *)

Fixpoint links (m : Z -> Z) (prev : Z) (l : list Z) : Prop :=
  match l with [] => True | f :: l => m (f + prev_off) = prev /\ m (f + next_off) = hd 0 l /\ links m f l end.
Definition upd (a v : Z) (m : Z -> Z) : Z -> Z := fun x => if x =? a then v else m x.
Lemma links_ext m m' l : forall p, links m p l -> (forall f, f ∈ l -> m' (f + prev_off) = m (f + prev_off) /\ m' (f + next_off) = m (f + next_off)) -> links m' p l.
Proof.
  induction l as [|f l IH]; intros p H E; [done|]. destruct H as (H1 & H2 & H3). destruct (E f ltac:(left)) as [E1 E2]. cbn [links]. rewrite E1, E2.
  split_and!; [done..|]. apply IH; [done|]. intros g Hg. apply E. by right.
Qed.
Lemma links_push m m' f l : links m 0 l -> f ∉ l -> NoDup l -> m' (f + prev_off) = 0 -> m' (f + next_off) = hd 0 l ->
  (forall g, g ∈ l -> m' (g + next_off) = m (g + next_off) /\ m' (g + prev_off) = if g =? hd 0 l then f else m (g + prev_off)) -> links m' 0 (f :: l).
Proof.
  intros H Nf Nd P1 P2 E. cbn [links]. split_and!; [done..|]. destruct l as [|g l]; [done|]. destruct H as (H1 & H2 & H3). destruct (E g ltac:(left)) as [E1 E2].
  cbn [hd] in E2. rewrite Z.eqb_refl in E2. apply NoDup_cons in Nd as [Ng Nd]. cbn [links]. split_and!; [done|congruence|]. eapply links_ext; [exact H3|].
  intros x Hx. destruct (E x ltac:(by right)) as [E3 E4]. cbn [hd] in E4. rewrite (proj2 (Z.eqb_neq x g)) in E4 by (intros ->; done). done.
Qed.
Lemma last_in (l : list Z) d : l <> [] -> List.last l d ∈ l.
Proof. induction l as [|a l IH]; [done|]. intros _. destruct l as [|b l]; [left|]. right. by apply IH. Qed.
Lemma last_next (l : list Z) a p : List.last (a :: l) p = List.last l a.
Proof.
  destruct l as [|b l]; [done|]. change (List.last (a :: b :: l) p) with (List.last (b :: l) p). revert b. induction l as [|c l IH]; intros b; [done|]. apply IH.
Qed.
Lemma links_mid m f l2 : forall l1 p, links m p (l1 ++ f :: l2) -> m (f + prev_off) = List.last l1 p /\ m (f + next_off) = hd 0 l2.
Proof. induction l1 as [|a l1 IH]; intros p; cbn [app links]; [by intros (-> & -> & _)|]. intros (_ & _ & H). rewrite last_next. by apply IH. Qed.
Lemma links_drop m m' f l2 : forall l1 p, links m p (l1 ++ f :: l2) -> NoDup (l1 ++ f :: l2) -> 0 ∉ l1 ++ f :: l2 ->
  (forall x, x ∈ l1 ++ l2 -> m' (x + prev_off) = (if x =? hd 0 l2 then List.last l1 p else m (x + prev_off)) /\
     m' (x + next_off) = if bool_decide (l1 <> []) && (x =? List.last l1 p) then hd 0 l2 else m (x + next_off)) -> links m' p (l1 ++ l2).
Proof.
  induction l1 as [|a l1 IH]; intros p H Nd Nz E.
  - cbn [app] in *. destruct H as (_ & _ & H). apply NoDup_cons in Nd as [Nf Nd]. destruct l2 as [|g l2]; [done|]. destruct H as (_ & H2 & H3).
    apply NoDup_cons in Nd as [Ng Nd]. destruct (E g ltac:(left)) as [E1 E2]. cbn [hd List.last] in *. rewrite Z.eqb_refl in E1. rewrite bool_decide_eq_false_2 in E2 by auto. cbn [andb links] in *.
    split_and!; [done|congruence|]. eapply links_ext; [exact H3|]. intros x Hx. destruct (E x ltac:(by right)) as [E3 E4].
    rewrite (proj2 (Z.eqb_neq x g)) in E3 by (intros ->; done). rewrite bool_decide_eq_false_2 in E4 by auto. done.
  - cbn [app links] in H |- *. destruct H as (H1 & H2 & H3). cbn [app] in Nd. apply NoDup_cons in Nd as [Na Nd]. cbn [app] in Nz. apply not_elem_of_cons in Nz as [Na0 Nz].
    assert (Nh : a <> hd 0 l2).
    { destruct l2 as [|g l2]; [done|]. cbn [hd]. intros ->. apply Na, elem_of_app. right. right. left. }
    destruct (E a ltac:(left)) as [E1 E2]. rewrite (proj2 (Z.eqb_neq a (hd 0 l2))) in E1 by done. split_and!; [congruence| |].
    + destruct l1 as [|b l1].
      * cbn [List.last] in E2. rewrite Z.eqb_refl, bool_decide_eq_true_2 in E2 by done. exact E2.
      * rewrite (proj2 (Z.eqb_neq a _)), andb_false_r in E2; [by rewrite E2, H2|]. intros Q. apply Na, elem_of_app. left. rewrite Q, last_next. by apply last_in.
    + apply IH; [done|done|done|]. intros x Hx. destruct (E x ltac:(by right)) as [E3 E4]. assert (x <> a) as Nx.
      { intros ->. apply Na. apply elem_of_app. apply elem_of_app in Hx as [?|?]; [by left|]. right. by right. }
      rewrite last_next in E3, E4. split; [done|]. rewrite E4. rewrite bool_decide_eq_true_2 by done. destruct l1 as [|b l1]; [|by rewrite bool_decide_eq_true_2].
      cbn [List.last]. rewrite (proj2 (Z.eqb_neq x a)) by done. by rewrite !andb_false_r.
Qed.

(** The lists [L] by node and order, of the blocks [B]. *)
Definition fr (i : Z) : Z := i * PAGE_SIZE.
Definition ranges (n k : Z) : Prop := 0 <= n < 8 /\ 0 <= k <= 18.
Record lists (m : Z -> Z) (area : Z -> Z -> Z) (node : Z -> Z) (B : gmap Z Z) (L : Z -> Z -> list Z) : Prop := {
  l_mem : forall n k f, ranges n k -> f ∈ L n k <-> exists i, f = fr i /\ B !! i = Some k /\ node f = n;
  l_nodup : forall n k, ranges n k -> NoDup (L n k);
  l_head : forall n k, ranges n k -> area n k = hd 0 (L n k);
  l_links : forall n k, ranges n k -> links m 0 (L n k);
  l_hdr : forall i k, B !! i = Some k -> m (fr i + order_off) = k /\ m (fr i + magic_off) = BUDDY_MAGIC }.
Definition upd2 {A} (n k : Z) (v : A) (f : Z -> Z -> A) : Z -> Z -> A := fun n' k' => if (n' =? n) && (k' =? k) then v else f n' k'.
Lemma upd2_eq {A} n k (v : A) f : upd2 n k v f n k = v.
Proof. unfold upd2. by rewrite !Z.eqb_refl. Qed.
Lemma upd2_cases {A} n k (v : A) f n' k' : n' = n /\ k' = k /\ upd2 n k v f n' k' = v \/ (n', k') <> (n, k) /\ upd2 n k v f n' k' = f n' k'.
Proof. unfold upd2. destruct (Z.eqb_spec n' n) as [->|], (Z.eqb_spec k' k) as [->|]; cbn [andb]; [left; done|right; split; [congruence|done]..]. Qed.
Lemma fr_inj i j : fr i = fr j -> i = j.
Proof. unfold fr, PAGE_SIZE. lia. Qed.
Lemma fr_word i j o o' : 0 <= o < 4096 -> 0 <= o' < 4096 -> fr i + o = fr j + o' -> i = j /\ o = o'.
Proof. unfold fr, PAGE_SIZE. lia. Qed.
Lemma word_ne i j o o' : j <> i -> 0 <= o < 4096 -> 0 <= o' < 4096 -> (fr j + o =? fr i + o') = false.
Proof. intros N Ho Ho'. apply Z.eqb_neq. intros E. by apply fr_word in E as [? _]. Qed.
Ltac offs := unfold next_off, prev_off, order_off, magic_off in *.
Lemma lists_insert m m' area node B L i k : lists m area node B L -> B !! i = None -> (forall j k, B !! j = Some k -> 0 < j) -> 0 < i -> ranges (node (fr i)) k ->
  (forall x, m' x = if x =? fr i + next_off then area (node (fr i)) k else if x =? fr i + prev_off then 0 else if x =? fr i + order_off then k else
     if x =? fr i + magic_off then BUDDY_MAGIC else if (area (node (fr i)) k <>? 0) && (x =? area (node (fr i)) k + prev_off) then fr i else m x) ->
  lists m' (upd2 (node (fr i)) k (fr i) area) node (<[i := k]> B) (upd2 (node (fr i)) k (fr i :: L (node (fr i)) k) L).
Proof.
  intros S Nb Bp Hi R E. set (n := node (fr i)) in *. pose proof S as [M Nd H Lk Hd].
  assert (In : forall n' k' f, ranges n' k' -> f ∈ L n' k' -> exists j, f = fr j /\ B !! j = Some k' /\ node f = n' /\ j <> i /\ 0 < j).
  { intros n' k' f R' (j & -> & Hj & Hn)%M; [|done]. exists j. split_and!; [done..| |by eapply Bp]. intros ->. congruence. }
  assert (Hp : area n k = 0 \/ exists g, area n k = fr g /\ B !! g = Some k /\ node (fr g) = n /\ g <> i /\ 0 < g /\ hd 0 (L n k) = fr g).
  { rewrite H by done. pose proof (In n k) as I. destruct (L n k) as [|g l]; [by left|]. right. destruct (I g R ltac:(left)) as (j & -> & ? & ? & ? & ?). by exists j. }
  assert (W : forall j o, j <> i -> 0 <= o < 4096 -> o <> prev_off \/ fr j <> area n k -> m' (fr j + o) = m (fr j + o)).
  { intros j o Nj Ho C. rewrite E. offs. rewrite !word_ne by (done || lia).
    destruct (_ && _) eqn:Q; [|done]. exfalso. apply andb_true_iff in Q as [Q1 Q2]. destruct Hp as [?|(g & Hg & _)]; [lia|]. rewrite Hg in *. apply Z.eqb_eq in Q2. apply fr_word in Q2 as [-> ->]; [|lia..].
    destruct C; congruence. }
  constructor.
  - intros n' k' f R'. destruct (upd2_cases n k (fr i :: L n k) L n' k') as [(-> & -> & ->)|[Ne ->]].
    + rewrite elem_of_cons, (M n k f R). split.
      * intros [->|(j & -> & Hj & Hn)]; [exists i; by rewrite lookup_insert_eq|]. exists j. rewrite lookup_insert_ne by (intros ->; congruence). done.
      * intros (j & -> & Hj & Hn). destruct (decide (j = i)) as [->|Nj]; [by left|]. rewrite lookup_insert_ne in Hj by done. right. by exists j.
    + rewrite (M n' k' f R'). split; intros (j & -> & Hj & Hn); exists j; (split; [done|]; split; [|done]).
      * rewrite lookup_insert_ne by (intros ->; congruence). done.
      * apply lookup_insert_Some in Hj as [[<- <-]|[_ Hj]]; [|done]. exfalso. apply Ne. by rewrite <- Hn.
  - intros n' k' R'. destruct (upd2_cases n k (fr i :: L n k) L n' k') as [(-> & -> & ->)|[Ne ->]]; [|by apply Nd]. apply NoDup_cons. split; [|by apply Nd].
    intros X. destruct (In n k (fr i) R X) as (j & Q & _ & _ & Nj & _). by apply fr_inj in Q.
  - intros n' k' R'. unfold upd2. destruct (_ && _); [done|by apply H].
  - intros n' k' R'. destruct (upd2_cases n k (fr i :: L n k) L n' k') as [(-> & -> & ->)|[Ne ->]].
    + apply (links_push m); [by apply Lk| |by apply Nd| | |].
      * intros X. destruct (In n k (fr i) R X) as (j & Q & _ & _ & Nj & _). by apply fr_inj in Q.
      * rewrite E. offs. rewrite (proj2 (Z.eqb_neq _ _)), Z.eqb_refl by lia. done.
      * rewrite E, Z.eqb_refl. by apply H.
      * intros g Hg. destruct (In n k g R Hg) as (j & -> & Hj & Hn & Nj & Pj). split; [apply W; [done|offs; lia|left; offs; lia]|]. destruct (Z.eqb_spec (fr j) (hd 0 (L n k))) as [Q|Q].
        -- rewrite <- (H n k R) in Q. rewrite E. offs. rewrite !word_ne by (done || lia).
           rewrite <- Q, Z.eqb_refl. assert ((fr j <>? 0) = true) as -> by (unfold fr, PAGE_SIZE; lia). done.
        -- apply W; [done|offs; lia|]. right. by rewrite (H n k R).
    + eapply links_ext; [by apply Lk|]. intros g Hg. destruct (In n' k' g R' Hg) as (j & -> & Hj & Hn & Nj & Pj).
      split; apply W; try done; try (offs; lia); right; intros Q; (destruct Hp as [Z0|(g & Hg' & Bg & Ng & _)]; [unfold fr, PAGE_SIZE in Q; lia|]).
      rewrite Hg' in Q. apply fr_inj in Q as ->. apply Ne. congruence.
  - intros j k' Hj. apply lookup_insert_Some in Hj as [[<- <-]|[Nj Hj]].
    + split; rewrite E; offs; repeat (case_match; [first [done|lia]|]); lia.
    + destruct (Hd j k' Hj). rewrite !W; [done|..]; try (offs; lia); try (left; offs; lia); by intros ->.
Qed.
Lemma lists_unlink m m' area node B L i k : lists m area node B L -> B !! i = Some k -> (forall j k, B !! j = Some k -> 0 < j) -> ranges (node (fr i)) k ->
  let p := m (fr i + prev_off) in let q := m (fr i + next_off) in
  (forall x, m' x = if x =? fr i + next_off then 0 else if x =? fr i + prev_off then 0 else if (q <>? 0) && (x =? q + prev_off) then p else
     if (p <>? 0) && (x =? p + next_off) then q else m x) ->
  exists L', lists m' (if p =? 0 then upd2 (node (fr i)) k q area else area) node (delete i B) L' /\ (p = 0 -> area (node (fr i)) k = fr i).
Proof.
  intros S Bi Bp R p q E. set (n := node (fr i)) in *. pose proof S as [M Nd H Lk Hd].
  assert (In : forall n' k' f, ranges n' k' -> f ∈ L n' k' -> exists j, f = fr j /\ B !! j = Some k' /\ node f = n' /\ 0 < j).
  { intros n' k' f R' (j & -> & Hj & Hn)%M; [|done]. exists j. split_and!; [done..|by eapply Bp]. }
  assert (fr i ∈ L n k) as X by (apply M; [done|by exists i]). apply list_elem_of_split in X as (l1 & l2 & EL). pose proof (Nd n k R) as Ndl. pose proof (Lk n k R) as Lkl. rewrite EL in Ndl, Lkl.
  assert (Nz : 0 ∉ l1 ++ fr i :: l2). { rewrite <- EL. intros Z0. destruct (In n k 0 R Z0) as (j & Q & _ & _ & Pj). unfold fr, PAGE_SIZE in Q. lia. }
  destruct (links_mid _ _ _ _ _ Lkl) as [Pq Qq]. fold p in Pq. fold q in Qq.
  assert (P0 : p = 0 <-> l1 = []).
  { rewrite Pq. split; [|by intros ->]. intros Z0. destruct l1 as [|a l1]; [done|]. exfalso. apply Nz, elem_of_app. left. rewrite <- Z0. by apply last_in. }
  assert (Pg : p <> 0 -> exists j, p = fr j /\ B !! j = Some k /\ node (fr j) = n /\ j <> i /\ p ∈ l1).
  { intros P1. assert (p ∈ l1) as Hp by (rewrite Pq; apply last_in; by rewrite <- P0). destruct (In n k p R) as (j & Ej & Bj & Nj & _); [rewrite EL; apply elem_of_app; by left|].
    exists j. rewrite <- Ej. split_and!; [done..| |done]. intros ->. apply NoDup_app in Ndl as (_ & Ndl & _). apply (Ndl p Hp). rewrite Ej. left. }
  assert (Qg : q <> 0 -> exists j, q = fr j /\ B !! j = Some k /\ node (fr j) = n /\ j <> i /\ q ∈ l2).
  { intros Q1. assert (q ∈ l2) as Hq by (rewrite Qq in *; destruct l2; [done|left]). destruct (In n k q R) as (j & Ej & Bj & Nj & _); [rewrite EL; apply elem_of_app; right; by right|].
    exists j. rewrite <- Ej. split_and!; [done..| |done]. intros ->. apply NoDup_app in Ndl as (_ & _ & Ndl). apply NoDup_cons in Ndl as [Ndl _]. apply Ndl. by rewrite <- Ej. }
  assert (W : forall j o, j <> i -> 0 <= o < 4096 -> (o <> prev_off \/ fr j <> q) -> (o <> next_off \/ fr j <> p) -> m' (fr j + o) = m (fr j + o)).
  { intros j o Nj Ho C1 C2. rewrite E. offs. rewrite !word_ne by (done || lia).
    destruct ((q <>? 0) && _) eqn:Q1; [|destruct ((p <>? 0) && _) eqn:Q2; [|done]]; exfalso.
    - apply andb_true_iff in Q1 as [Q1 Q2]. destruct Qg as (g & -> & _); [lia|]. apply Z.eqb_eq, fr_word in Q2 as [-> ->]; [|lia..]. destruct C1; done.
    - apply andb_true_iff in Q2 as [Q3 Q2]. destruct Pg as (g & -> & _); [lia|]. apply Z.eqb_eq, fr_word in Q2 as [-> ->]; [|lia..]. destruct C2; done. }
  exists (upd2 n k (l1 ++ l2) L). split; [|intros P1; rewrite (H n k R), EL; apply P0 in P1 as ->; done].
  assert (Ndl' : NoDup (l1 ++ l2)) by (apply NoDup_app in Ndl as (? & N1 & [? ?]%NoDup_cons); apply NoDup_app; split_and!; [done| |done]; intros x Hx Hx'; apply (N1 x Hx); by right).
  assert (Nil : fr i ∉ l1 ++ l2) by (apply NoDup_app in Ndl as (? & N1 & [? ?]%NoDup_cons); intros [X|X]%elem_of_app; [apply (N1 _ X); left|done]).
  constructor.
  - intros n' k' f R'. destruct (upd2_cases n k (l1 ++ l2) L n' k') as [(-> & -> & ->)|[Ne ->]].
    + pose proof (M n k f R) as Mf. rewrite EL in Mf. split.
      * intros Hf. destruct (proj1 Mf) as (j & -> & Hj & Hn); [rewrite elem_of_app, elem_of_cons; apply elem_of_app in Hf as [?|?]; auto|]. exists j.
        rewrite lookup_delete_ne by (intros ->; done). done.
      * intros (j & -> & [Nj Hj]%lookup_delete_Some & Hn). assert (fr j ∈ l1 ++ fr i :: l2) as X by (apply Mf; by exists j). rewrite elem_of_app, elem_of_cons in X.
        rewrite elem_of_app. destruct X as [?|[X|?]]; [by left| |by right]. apply fr_inj in X. congruence.
    + rewrite (M n' k' f R'). split; intros (j & -> & Hj & Hn); exists j; (split; [done|]; split; [|done]).
      * apply lookup_delete_Some. split; [|done]. intros <-. apply Ne. f_equal; [exact (eq_sym Hn)|congruence].
      * by apply lookup_delete_Some in Hj as [_ Hj].
  - intros n' k' R'. destruct (upd2_cases n k (l1 ++ l2) L n' k') as [(-> & -> & ->)|[Ne ->]]; [done|by apply Nd].
  - intros n' k' R'. destruct (upd2_cases n k (l1 ++ l2) L n' k') as [(-> & -> & ->)|[Ne EU]].
    + destruct (Z.eqb_spec p 0) as [Z0|Np]; [apply P0 in Z0 as ->; rewrite upd2_eq; done|]. rewrite (H n k R), EL. destruct l1 as [|a l1]; [exfalso; by apply Np, P0|done].
    + rewrite EU. destruct (p =? 0); [|by apply H]. unfold upd2. destruct (Z.eqb_spec n' n), (Z.eqb_spec k' k); cbn [andb]; [congruence|by apply H..].
  - intros n' k' R'. destruct (upd2_cases n k (l1 ++ l2) L n' k') as [(-> & -> & ->)|[Ne ->]].
    + apply (links_drop m m' (fr i)); [done..|]. intros x Hx. assert (x ∈ L n k) as Hx' by (rewrite EL; rewrite elem_of_app, elem_of_cons; apply elem_of_app in Hx as [?|?]; auto).
      destruct (In n k x R Hx') as (j & -> & Bj & Nj & Pj). assert (j <> i) as Nji by (intros ->; done). split.
      * destruct (Z.eqb_spec (fr j) (hd 0 l2)) as [Ej|Ej]; [|apply W; [done|offs; lia|right; congruence|left; offs; lia]]. rewrite <- Qq in Ej. rewrite E, <- Ej, <- Pq. offs.
        rewrite !word_ne by (done || lia). rewrite Z.eqb_refl. assert ((fr j <>? 0) = true) as -> by (unfold fr, PAGE_SIZE; lia). done.
      * rewrite <- Pq. destruct (Z.eqb_spec (fr j) p) as [Ej|Ej]; [|rewrite andb_false_r; apply W; [done|offs; lia|left; offs; lia|by right]].
        assert (l1 <> []) as Nl by (intros Z0; apply P0 in Z0; unfold fr, PAGE_SIZE in Ej; lia). rewrite (bool_decide_eq_true_2 _ Nl). cbn [andb]. rewrite E, <- Ej, <- Qq. offs.
        rewrite !word_ne by (done || lia). rewrite Z.eqb_refl. assert ((fr j <>? 0) = true) as -> by (unfold fr, PAGE_SIZE; lia).
        destruct ((q <>? 0) && _) eqn:Q1; [|done]. exfalso. apply andb_true_iff in Q1 as [Q1 Q2]. destruct Qg as (g & -> & _); [lia|]. apply Z.eqb_eq, fr_word in Q2 as [_ Q2]; lia.
    + eapply links_ext; [by apply Lk|]. intros g Hg. destruct (In n' k' g R' Hg) as (j & -> & Hj & Hn & Pj).
      assert (fr j <> p /\ fr j <> q /\ j <> i) as (? & ? & ?).
      { split_and!; intros Q.
        - destruct Pg as (g & Eg & Bg & Ng & _); [unfold fr, PAGE_SIZE in Q; lia|]. rewrite Eg in Q. apply fr_inj in Q as ->. apply Ne. congruence.
        - destruct Qg as (g & Eg & Bg & Ng & _); [unfold fr, PAGE_SIZE in Q; lia|]. rewrite Eg in Q. apply fr_inj in Q as ->. apply Ne. congruence.
        - subst j. apply Ne. f_equal; [exact (eq_sym Hn)|congruence]. }
      split; apply W; try done; try (offs; lia); by right.
  - intros j k' [Nj Hj]%lookup_delete_Some. destruct (Hd j k' Hj). rewrite !W; [done|..]; try (offs; lia); try (left; offs; lia); by intros ->.
Qed.

(** ** The state *)

Definition area (st : pmm) (n k : Z) : Z := match free_area st !! Z.to_nat n with Some row => default 0 (row !! Z.to_nat k) | None => 0 end.
Record shape (st : pmm) : Prop := {
  s_bytes : 0 <= bitmap_bytes st < 2 ^ 59;
  s_bitmap : Z.of_nat (length (bitmap st)) = bitmap_bytes st;
  s_heads : Z.of_nat (length (buddy_heads st)) = bitmap_bytes st;
  s_pts : Z.of_nat (length (pt_frames st)) = bitmap_bytes st;
  s_max : max_address st = fr (frame_count st);
  s_count : 0 <= frame_count st <= 8 * bitmap_bytes st;
  s_direct : max_address st <= direct_map_size st < 2 ^ 62;
  s_refs : frame_count st <= Z.of_nat (length (frame_refcounts st));
  s_area : length (free_area st) = 8%nat /\ Forall (fun row => length row = 19%nat) (free_area st);
  s_nodes : length (node_free_pages st) = 8%nat;
  s_topo : Forall (fun n => 0 <= n < 8) (chunk_node (topo st));
  s_cursor : 0 <= g_scan_cursor st;
  s_high : forall i, frame_count st <= i < nbits (bitmap st) -> bit (bitmap st) i = true }.
Lemma node_range st f : shape st -> 0 <= f -> 0 <= pmm_node_of f st < 8.
Proof.
  intros S Hf. unfold pmm_node_of, numa_node_of_frame. destruct (1 <? pmm_nodes st); [|lia]. destruct (Z.leb_spec (Z.of_nat (length (chunk_node (topo st)))) (Z.shiftr f NUMA_CHUNK_SHIFT)); [lia|].
  pose proof (proj2 (Z.shiftr_nonneg f NUMA_CHUNK_SHIFT) Hf). unfold zget. destruct (lookup_lt_is_Some_2 (chunk_node (topo st)) (Z.to_nat (Z.shiftr f NUMA_CHUNK_SHIFT))) as [x Hx]; [lia|].
  rewrite (list_lookup_total_correct _ _ _ Hx). by apply (proj1 (Forall_lookup _ _) (s_topo _ S) _ _ Hx).
Qed.
Lemma area_get_ok st n k : shape st -> ranges n k -> area_get n k st = Ok (area st n k).
Proof.
  intros S [Hn Hk]. destruct (s_area _ S) as [L1 L2]. unfold area_get, area. destruct (peek_lt (free_area st) n) as (row & Hr & ->); [lia|]. rewrite Hr. cbn [rbind].
  pose proof (proj1 (Forall_lookup _ _) L2 _ _ Hr) as Lr. cbn in Lr. destruct (peek_lt row k) as (x & Hx & ->); [lia|]. by rewrite Hx.
Qed.
Lemma area_set_ok st n k f : shape st -> ranges n k -> exists l, area_set n k f st = Ok (set_area l st) /\ length l = 8%nat /\ Forall (fun row => length row = 19%nat) l /\
  forall n' k', 0 <= n' -> 0 <= k' -> area (set_area l st) n' k' = upd2 n k f (area st) n' k'.
Proof.
  intros S [Hn Hk]. destruct (s_area _ S) as [L1 L2]. unfold area_set. destruct (peek_lt (free_area st) n) as (row & Hr & ->); [lia|]. cbn [rbind].
  pose proof (proj1 (Forall_lookup _ _) L2 _ _ Hr) as Lr. cbn in Lr. rewrite poke_ok by lia. cbn [rbind]. rewrite poke_ok by lia. cbn [rbind]. eexists. split; [done|].
  split; [by rewrite length_insert|]. split; [apply Forall_insert; [done|by rewrite length_insert]|]. intros n' k' Hn' Hk'. unfold area, upd2. cbn [free_area set_area].
  rewrite lookup_poke by lia. destruct (Z.eqb_spec n' n) as [->|]; [|done]. rewrite Hr, lookup_poke by lia. by destruct (k' =? k).
Qed.
(** Everything but the lists is as before. *)
Definition relinked (st st' : pmm) : Prop := st' = set_mem (mem st') (set_area (free_area st') (set_heads (buddy_heads st') st)).
Lemma relinked_refl st : relinked st st.
Proof. by destruct st. Qed.
Lemma relinked_trans st1 st2 st3 : relinked st1 st2 -> relinked st2 st3 -> relinked st1 st3.
Proof. unfold relinked. intros H1 H2. rewrite H2. cbn. rewrite H1. by cbn. Qed.
Definition free_page (st : pmm) (i : Z) : Prop := 0 <= i < frame_count st /\ bit (bitmap st) i = false.
(** Memory of other pages is as before. *)
Definition only_free (st st' : pmm) : Prop := forall i o, 0 <= o < 4096 -> ~ free_page st i -> mem st' (fr i + o) = mem st (fr i + o).
(** The lists and the head bits are those of [B]. *)
Record linked (st : pmm) (B : gmap Z Z) : Prop := {
  k_shape : shape st;
  k_in : forall i k, B !! i = Some k -> 0 <= k <= 18 /\ 0 < i < frame_count st;
  k_lists : exists L, lists (mem st) (area st) (fun f => pmm_node_of f st) B L;
  k_heads : forall i, 0 <= i < nbits (buddy_heads st) -> bit (buddy_heads st) i = bool_decide (is_Some (B !! i)) }.
Lemma nbits_heads st : shape st -> nbits (buddy_heads st) = 8 * bitmap_bytes st.
Proof. intros S. unfold nbits. rewrite (s_heads _ S). done. Qed.
Lemma nbits_bitmap st : shape st -> nbits (bitmap st) = 8 * bitmap_bytes st.
Proof. intros S. unfold nbits. rewrite (s_bitmap _ S). done. Qed.
Lemma fr_index i : frame_index (fr i) = i.
Proof. unfold frame_index, fr. apply Z.div_mul. done. Qed.
Lemma lists_area m a a' node node' B L : (forall n k, ranges n k -> a' n k = a n k) -> (forall f, node' f = node f) -> lists m a node B L -> lists m a' node' B L.
Proof.
  intros E En [M Nd H Lk Hd]. constructor; try done; [|intros n k R; rewrite E by done; by apply H]. intros n k f R. rewrite (M n k f R).
  split; intros (i & -> & ?); exists i; (split; [done|]); [rewrite En|rewrite <- En]; done.
Qed.
Lemma relinked_node st st' f : relinked st st' -> pmm_node_of f st' = pmm_node_of f st.
Proof. intros ->. done. Qed.
Lemma shape_relink st st' : shape st -> relinked st st' -> length (buddy_heads st') = length (buddy_heads st) -> length (free_area st') = 8%nat ->
  Forall (fun row => length row = 19%nat) (free_area st') -> shape st'.
Proof. intros [] R L A F. rewrite R. constructor; cbn; try done. by rewrite L. Qed.
Lemma head_block B st n k : linked st B -> ranges n k -> area st n k = 0 \/ exists g, area st n k = fr g /\ B !! g = Some k /\ 0 < g < frame_count st.
Proof.
  intros K R. destruct (k_lists _ _ K) as [L S]. rewrite (l_head _ _ _ _ _ S n k R). pose proof (l_mem _ _ _ _ _ S n k) as M. destruct (L n k) as [|g l]; [by left|right].
  destruct (proj1 (M g R) ltac:(left)) as (j & -> & Hj & _). exists j. cbn [hd]. split; [done|]. split; [done|]. apply (k_in _ _ K _ _ Hj).
Qed.
Lemma buddy_insert_ok st B i k : linked st B -> B !! i = None -> 0 <= k <= 18 -> 0 < i < frame_count st -> free_page st i -> (forall j m, B !! j = Some m -> free_page st j) ->
  exists st', buddy_insert (fr i) k st = Ok st' /\ relinked st st' /\ only_free st st' /\ linked st' (<[i := k]> B).
Proof.
  intros K Nb Hk Hi Fi Fb. pose proof (k_shape _ _ K) as S. set (n := pmm_node_of (fr i) st). assert (0 <= n < 8) as Hn by (apply node_range; [done|unfold fr, PAGE_SIZE; lia]).
  assert (R : ranges n k) by done. unfold buddy_insert. fold n. set (st1 := store (fr i + magic_off) BUDDY_MAGIC (store (fr i + order_off) k st)).
  assert (shape st1) as S1 by (by destruct S). rewrite (area_get_ok st1 n k S1 R). cbn [rbind]. change (area st1 n k) with (area st n k). set (q := area st n k).
  set (st2 := if q <>? 0 then store (q + prev_off) (fr i) (store (fr i + prev_off) 0 (store (fr i + next_off) q st1)) else store (fr i + prev_off) 0 (store (fr i + next_off) q st1)).
  assert (E2 : st2 = set_mem (mem st2) st) by (subst st2; by destruct (q <>? 0)). assert (shape st2) as S2 by (rewrite E2; by destruct S).
  destruct (area_set_ok st2 n k (fr i) S2 R) as (l & -> & A1 & A2 & A3). cbn [rbind]. unfold head_set. rewrite fr_index.
  destruct (bit_set_ok (buddy_heads (set_area l st2)) i) as (hs & -> & Lh & Hh).
  { cbn. rewrite E2. cbn. rewrite nbits_heads by done. pose proof (s_count _ S). lia. }
  cbn [rbind]. assert (Eh : buddy_heads (set_area l st2) = buddy_heads st) by (cbn; by rewrite E2). rewrite Eh in Lh, Hh.
  eexists. split; [done|]. set (st' := set_heads hs (set_area l st2)). assert (Rl : relinked st st') by (unfold relinked; subst st'; cbn; rewrite E2; by cbn).
  assert (Q : q = 0 \/ exists g, q = fr g /\ B !! g = Some k /\ 0 < g < frame_count st) by (by apply head_block).
  assert (Em : forall x, mem st' x = if x =? fr i + next_off then q else if x =? fr i + prev_off then 0 else if x =? fr i + order_off then k else
     if x =? fr i + magic_off then BUDDY_MAGIC else if (q <>? 0) && (x =? q + prev_off) then fr i else mem st x).
  { intros x. subst st' st2 st1. cbn. destruct Q as [->|(g & Eg & Bg & _)].
    - cbn. offs. destruct (x =? fr i + 8) eqn:?, (x =? fr i + 0) eqn:?, (x =? fr i + 16) eqn:?, (x =? fr i + 24) eqn:?; done || lia.
    - rewrite Eg. assert (g <> i) by (intros ->; congruence). destruct (fr g <>? 0); cbn [andb]; offs; cbn;
      destruct (x =? fr g + 8) eqn:X; destruct (x =? fr i + 8) eqn:?, (x =? fr i + 0) eqn:?, (x =? fr i + 16) eqn:?, (x =? fr i + 24) eqn:?; try done; try lia; exfalso; unfold fr, PAGE_SIZE in *; lia. }
  split; [exact Rl|]. split.
  - intros j o Ho Nf. assert (j <> i) by (intros ->; done). rewrite Em. offs. rewrite !word_ne by (done || lia).
    destruct (_ && _) eqn:X; [|done]. exfalso. apply andb_true_iff in X as [X1 X2]. destruct Q as [?|(g & Eg & Bg & _)]; [lia|]. rewrite Eg in X2. apply Z.eqb_eq, fr_word in X2 as [-> _]; [|lia..]. by eapply Nf, Fb.
  - constructor.
    + apply (shape_relink st); [done|done|by subst st'; cbn; rewrite Lh|done|done].
    + intros j m [[<- <-]|[_ Hj]]%lookup_insert_Some; [split; [lia|]; rewrite Rl; exact Hi|]. rewrite Rl. by apply (k_in _ _ K).
    + destruct (k_lists _ _ K) as [L Ls].
      eexists. refine (lists_area _ _ _ _ _ _ _ _ _ (lists_insert (mem st) (mem st') (area st) (fun f => pmm_node_of f st) B L i k Ls Nb _ _ _ _)); [|intros f; by apply relinked_node|..].
      * intros n' k' [Hn' Hk']. change (area st' n' k') with (area (set_area l st2) n' k'). rewrite A3 by lia. fold n. unfold upd2. destruct (_ && _); [done|]. unfold area. by rewrite E2.
      * intros j m Hj. apply (k_in _ _ K) in Hj. lia.
      * lia.
      * exact R.
      * intros x. fold n q. apply Em.
    + intros j Hj. change (buddy_heads st') with hs in *. assert (nbits hs = nbits (buddy_heads st)) as Nh by (unfold nbits; by rewrite Lh). rewrite Nh in Hj. rewrite Hh by lia.
      destruct (Z.eqb_spec j i) as [->|Nj]; [rewrite lookup_insert_eq; by rewrite bool_decide_eq_true_2 by eauto|]. rewrite lookup_insert_ne by done. by apply (k_heads _ _ K).
Qed.
(** The neighbours of a block in its list. *)
Lemma neighbours st B i k : linked st B -> B !! i = Some k -> forall off, off = prev_off \/ off = next_off ->
  mem st (fr i + off) = 0 \/ exists g, mem st (fr i + off) = fr g /\ B !! g = Some k /\ g <> i.
Proof.
  intros K Bi off Ho. destruct (k_lists _ _ K) as [L Ls]. destruct (k_in _ _ K _ _ Bi) as [Hk Hi]. set (n := pmm_node_of (fr i) st).
  assert (R : ranges n k) by (split; [apply node_range; [apply K|unfold fr, PAGE_SIZE; lia]|lia]). pose proof (l_mem _ _ _ _ _ Ls n k) as M.
  assert (fr i ∈ L n k) as X by (apply M; [done|by exists i]). apply list_elem_of_split in X as (l1 & l2 & EL). pose proof (l_links _ _ _ _ _ Ls n k R) as Lk. pose proof (l_nodup _ _ _ _ _ Ls n k R) as Nd.
  rewrite EL in *. destruct (links_mid _ _ _ _ _ Lk) as [P Q]. apply NoDup_app in Nd as (_ & N1 & [N2 _]%NoDup_cons). destruct Ho as [-> | -> ].
  - rewrite P. destruct l1 as [|a l1]; [by left|right]. assert (List.last (a :: l1) 0 ∈ a :: l1) as X by (by apply last_in). destruct (proj1 (M (List.last (a :: l1) 0) R)) as (g & E & Bg & _); [apply elem_of_app; by left|].
    exists g. split_and!; [done..|]. intros ->. apply (N1 _ X). rewrite E. left.
  - rewrite Q. destruct l2 as [|a l2]; [by left|right]. destruct (proj1 (M a R)) as (g & E & Bg & _); [apply elem_of_app; right; right; left|]. exists g. split_and!; [done..|]. intros ->. apply N2. rewrite <- E. left.
Qed.
Lemma buddy_unlink_ok st B i k : linked st B -> B !! i = Some k -> (forall j m, B !! j = Some m -> free_page st j) ->
  exists st', buddy_unlink (fr i) k st = Ok st' /\ relinked st st' /\ only_free st st' /\ linked st' (delete i B).
Proof.
  intros K Bi Fb. pose proof (k_shape _ _ K) as S. destruct (k_in _ _ K _ _ Bi) as [Hk Hi]. set (n := pmm_node_of (fr i) st). assert (0 <= n < 8) as Hn by (apply node_range; [done|unfold fr, PAGE_SIZE; lia]).
  assert (R : ranges n k) by done. destruct (k_lists _ _ K) as [L Ls]. unfold buddy_unlink. fold n. unfold load. set (p := mem st (fr i + prev_off)). set (q := mem st (fr i + next_off)).
  pose proof (neighbours st B i k K Bi prev_off ltac:(by left)) as Pp. fold p in Pp. pose proof (neighbours st B i k K Bi next_off ltac:(by right)) as Qq. fold q in Qq.
  set (m' := fun x => if x =? fr i + next_off then 0 else if x =? fr i + prev_off then 0 else if (q <>? 0) && (x =? q + prev_off) then p else if (p <>? 0) && (x =? p + next_off) then q else mem st x).
  destruct (lists_unlink (mem st) m' (area st) (fun f => pmm_node_of f st) B L i k Ls Bi ltac:(intros j m Hj; apply (k_in _ _ K) in Hj; lia) R) as (L' & Ls' & Pa); [done|]. cbn [fst snd] in *. fold n p q in Ls', Pa.
  assert (exists st1, (if p <>? 0 then Ok (store (p + next_off) q st) else let* first := area_get n k st in if first =? fr i then area_set n k q st else Ok st) = Ok st1 /\
    (forall x, mem st1 x = if (p <>? 0) && (x =? p + next_off) then q else mem st x) /\ st1 = set_mem (mem st1) (set_area (free_area st1) st) /\ length (free_area st1) = 8%nat /\
    Forall (fun row => length row = 19%nat) (free_area st1) /\ forall n' k', ranges n' k' -> area st1 n' k' = (if p =? 0 then upd2 n k q (area st) else area st) n' k') as (st1 & -> & M1 & F1 & A1 & A2 & A3).
  { destruct (Z.eqb_spec p 0) as [Z0|Np]; cbn [negb].
    - rewrite area_get_ok by done. cbn [rbind]. rewrite Pa by done. rewrite Z.eqb_refl. destruct (area_set_ok st n k q S R) as (l & -> & B1 & B2 & B3). eexists. split; [done|]. split_and!; [done|by destruct st|done|done|].
      intros n' k' [? ?]. apply B3; lia.
    - eexists. split; [done|]. split_and!; [done|by destruct st|apply S|apply S|done]. }
  cbn [rbind]. assert (E1 : mem st1 (fr i + next_off) = q /\ mem st1 (fr i + prev_off) = p).
  { rewrite !M1. destruct (Z.eqb_spec p 0) as [Z0|Np]; cbn [negb andb]; [done|]. destruct Pp as [?|(g & Eg & _ & Ng)]; [done|].
    rewrite !(proj2 (Z.eqb_neq _ _)); [done|..]; rewrite Eg; intros X; apply fr_word in X as [? _]; try done; offs; lia. }
  destruct E1 as [-> ->]. set (st2 := store (fr i + next_off) 0 (store (fr i + prev_off) 0 (if q <>? 0 then store (q + prev_off) p st1 else st1))).
  assert (M2 : forall x, mem st2 x = m' x).
  { intros x. subst st2 m'. cbn. destruct (x =? fr i + next_off); [done|]. destruct (x =? fr i + prev_off); [done|]. destruct (q <>? 0); cbn; rewrite M1; by destruct (x =? q + prev_off). }
  assert (F2 : st2 = set_mem (mem st2) (set_area (free_area st1) st)) by (subst st2; destruct (q <>? 0); cbn; rewrite F1; done).
  assert (Ea : free_area st2 = free_area st1) by (subst st2; by destruct (q <>? 0)). unfold head_clear. rewrite fr_index. destruct (bit_clear_ok (buddy_heads st2) i) as (hs & -> & Lh & Hh).
  { rewrite F2. cbn. rewrite nbits_heads by done. pose proof (s_count _ S). lia. }
  cbn [rbind]. assert (Eh : buddy_heads st2 = buddy_heads st) by (by rewrite F2). rewrite Eh in Lh, Hh. eexists. split; [done|]. set (st' := set_heads hs st2).
  assert (Rl : relinked st st') by (subst st'; rewrite F2; reflexivity). split; [exact Rl|]. split.
  - intros j o Ho Nf. change (mem st' (fr j + o)) with (mem st2 (fr j + o)). rewrite M2. subst m'. cbn beta. assert (Fi := Fb _ _ Bi). assert (j <> i) by (intros ->; done).
    offs. rewrite !word_ne by (done || lia).
    destruct ((q <>? 0) && _) eqn:X; [|destruct ((p <>? 0) && _) eqn:X2; [|done]]; exfalso.
    + apply andb_true_iff in X as [X1 X2]. destruct Qq as [?|(g & Eg & Bg & _)]; [lia|]. rewrite Eg in X2. apply Z.eqb_eq, fr_word in X2 as [-> _]; [|lia..]. by eapply Nf, Fb.
    + apply andb_true_iff in X2 as [X1 X2]. destruct Pp as [?|(g & Eg & Bg & _)]; [lia|]. rewrite Eg in X2. apply Z.eqb_eq, fr_word in X2 as [-> _]; [|lia..]. by eapply Nf, Fb.
  - constructor.
    + apply (shape_relink st); [done|done|by rewrite <- Lh|by rewrite <- Ea in A1|by rewrite <- Ea in A2].
    + intros j m [_ Hj]%lookup_delete_Some. rewrite Rl. by apply (k_in _ _ K).
    + exists L'. destruct Ls' as [LM LN LH LL LD]. constructor.
      * intros n' k' f R'. rewrite (LM n' k' f R'). split; intros (j & -> & Hj & Hn'); exists j; (split; [done|]); split; try done; by rewrite (relinked_node st st') in *.
      * done.
      * intros n' k' R'. rewrite <- LH by done. rewrite <- A3 by done. unfold area. change (free_area st') with (free_area st2). by rewrite Ea.
      * intros n' k' R'. eapply links_ext; [by apply LL|]. intros f Hf. split; apply M2.
      * intros j m Hj. destruct (LD j m Hj). split; (etrans; [apply M2|done]).
    + intros j Hj. change (buddy_heads st') with hs in *. assert (nbits hs = nbits (buddy_heads st)) as Nh by (unfold nbits; by rewrite Lh). rewrite Nh in Hj. rewrite Hh by lia.
      destruct (Z.eqb_spec j i) as [->|Nj]; [rewrite lookup_delete_eq; by rewrite bool_decide_eq_false_2 by (by intros [? ?])|]. rewrite lookup_delete_ne by done. by apply (k_heads _ _ K).
Qed.

(** ** Blocks and lists together *)

Definition freeb (st : pmm) (i : Z) : bool := negb (bit (bitmap st) i).
Record tree (st : pmm) (B : gmap Z Z) (h n : Z) : Prop := {
  tr_linked : linked st B;
  tr_blocks : blocks B (freeb st) (frame_count st) h n }.
Lemma tree_shape st B h n : tree st B h n -> shape st.
Proof. intros T. apply T. Qed.
Lemma tree_free st B h n j m : tree st B h n -> B !! j = Some m -> free_page st j.
Proof.
  intros [K T] Hj. destruct (k_in _ _ K _ _ Hj). destruct (b_free _ _ _ _ _ T j m j Hj (block_start _ _ _ _ _ _ _ T Hj)) as [F _]. split; [lia|]. unfold freeb in F. by destruct (bit _ _).
Qed.
Lemma bytes_of k : 0 <= k -> buddy_bytes k = 2 ^ k * PAGE_SIZE.
Proof. intros. unfold buddy_bytes, buddy_pages. by rewrite Z.shiftl_1_l. Qed.
Lemma xor_frame i k : 0 <= k -> Z.lxor (fr i) (buddy_bytes k) = fr (Z.lxor i (2 ^ k)).
Proof. intros Hk. rewrite bytes_of by done. unfold fr. change PAGE_SIZE with (2 ^ 12). rewrite <- !Z.shiftl_mul_pow2 by lia. by rewrite Z.shiftl_lxor. Qed.
Lemma pow_le18 k : 0 <= k <= 18 -> 1 <= 2 ^ k <= 262144.
Proof. intros. split; [pose proof (pow_pos k); lia|]. change 262144 with (2 ^ 18). apply Z.pow_le_mono_r; lia. Qed.
Lemma region_valid st i k : shape st -> 0 <= i < 2 ^ 51 -> 0 <= k <= 18 -> buddy_region_valid (fr i) k st = true <-> (2 ^ k | i) /\ i + 2 ^ k <= frame_count st.
Proof.
  intros S Hi Hk. pose proof (pow_le18 k Hk) as P. unfold buddy_region_valid. rewrite (proj2 (Z.ltb_ge k 0)), (proj2 (Z.ltb_ge BUDDY_MAX_ORDER k)) by (unfold BUDDY_MAX_ORDER; lia). cbn [orb].
  rewrite bytes_of by lia. unfold buddy_pages. rewrite Z.shiftl_1_l, fr_index.
  assert (A : (fr i &? (2 ^ k * PAGE_SIZE - 1)) = negb (i mod 2 ^ k =? 0)).
  { f_equal. change PAGE_SIZE with (2 ^ 12). rewrite <- Z.pow_add_r by lia. rewrite Z.sub_1_r, <- Z.ones_equiv, Z.land_ones by lia. unfold fr. change PAGE_SIZE with (2 ^ 12). rewrite Z.pow_add_r by lia.
    rewrite Z.mul_mod_distr_r by (apply Z.pow_nonzero; lia). pose proof (Z.mod_pos_bound i (2 ^ k)). lia. }
  rewrite A. pose proof (s_max _ S) as M. pose proof (s_direct _ S) as D. pose proof (s_count _ S) as C. unfold fr, PAGE_SIZE, BITS_PER_BYTE in *. rewrite u64_small by lia.
  destruct (Z.eqb_spec (i mod 2 ^ k) 0) as [E|E]; cbn [negb]; [|split; [done|]; intros [X _]; apply Z.mod_divide in X; lia].
  apply Z.mod_divide in E; [|lia].
  repeat case_match; split; try done; try (intros _; split; [done|lia]); intros [_ X]; lia.
Qed.
Lemma is_free_block_ok st B h n i k : tree st B h n -> 0 <= i < 2 ^ 51 -> 0 <= k <= 18 -> buddy_is_free_block (fr i) k st = Ok (bool_decide (B !! i = Some k)).
Proof.
  intros T Hi Hk. pose proof (tree_shape _ _ _ _ T) as S. destruct T as [K T]. unfold buddy_is_free_block. destruct (buddy_region_valid (fr i) k st) eqn:V; cbn [negb].
  - apply region_valid in V as [Dv Hn]; [|done..]. pose proof (pow_le18 k Hk). pose proof (s_count _ S). rewrite fr_index. unfold head_get, bitmap_get.
    rewrite bit_get_ok by (rewrite nbits_heads by done; lia). cbn [rbind]. rewrite (k_heads _ _ K) by (rewrite nbits_heads by done; lia). rewrite bit_get_ok by (rewrite nbits_bitmap by done; lia).
    destruct (B !! i) as [m|] eqn:Bi; [|by rewrite !bool_decide_eq_false_2 by (by intros [? ?] || done)]. rewrite bool_decide_eq_true_2 by eauto. cbn [negb rbind].
    destruct (tree_free st B h n i m) as [_ ->]; [by constructor|done|]. unfold load. destruct (k_lists _ _ K) as [L Ls]. destruct (l_hdr _ _ _ _ _ Ls i m Bi) as [-> ->]. rewrite Z.eqb_refl. cbn [andb]. f_equal.
    destruct (Z.eqb_spec m k) as [->|N]; [by rewrite bool_decide_eq_true_2|by rewrite bool_decide_eq_false_2 by congruence].
  - rewrite bool_decide_eq_false_2; [done|]. intros Bi. destruct (b_in _ _ _ _ _ T _ _ Bi) as (_ & _ & Dv & Hn). assert (buddy_region_valid (fr i) k st = true) by (by apply region_valid). congruence.
Qed.
Lemma blocks_relink st st' B h n : relinked st st' -> blocks B (freeb st) (frame_count st) h n -> blocks B (freeb st') (frame_count st') h n.
Proof. intros ->. done. Qed.
Lemma free_page_relink st st' i : relinked st st' -> free_page st' i <-> free_page st i.
Proof. intros ->. done. Qed.
Lemma only_free_trans st1 st2 st3 : relinked st1 st2 -> only_free st1 st2 -> only_free st2 st3 -> only_free st1 st3.
Proof. intros R H1 H2 i o Ho N. rewrite H2 by (done || by rewrite (free_page_relink st1 st2)). by apply H1. Qed.
Lemma only_free_refl st : only_free st st.
Proof. done. Qed.

(** ** Merging and splitting *)

Lemma count_small st : shape st -> frame_count st < 2 ^ 50.
Proof. intros S. pose proof (s_max _ S). pose proof (s_direct _ S). unfold fr, PAGE_SIZE in *. lia. Qed.
Lemma tree_insert st B h n i k h' n' : tree st B h n -> 0 <= k <= 18 -> (2 ^ k | i) ->
  (forall p, h <= p < h + n <-> h' <= p < h' + n' \/ i <= p < i + 2 ^ k) -> (forall p, ~ (h' <= p < h' + n' /\ i <= p < i + 2 ^ k)) ->
  (k < 18 -> B !! Z.lxor i (2 ^ k) <> Some k) ->
  exists st', buddy_insert (fr i) k st = Ok st' /\ relinked st st' /\ only_free st st' /\ tree st' (<[i := k]> B) h' n'.
Proof.
  intros T Hk Dv E A Mx. pose proof T as [K Bl]. pose proof (pow_pos k ltac:(lia)). destruct (b_hole _ _ _ _ _ Bl i) as [Hi Fi]; [apply E; right; lia|].
  assert (Nb : B !! i = None). { destruct (B !! i) as [m|] eqn:Bi; [|done]. exfalso. apply (proj2 (b_free _ _ _ _ _ Bl i m i Bi (block_start _ _ _ _ _ _ _ Bl Bi))). apply E. right. lia. }
  destruct (buddy_insert_ok st B i k K Nb Hk Hi) as (st' & -> & R & O & K'); [split; [lia|]; unfold freeb in Fi; by destruct (bit _ _)|intros j m Hj; by eapply tree_free|].
  exists st'. split_and!; [done..|]. split; [done|]. apply (blocks_relink st st' _ _ _ R). by eapply blocks_put.
Qed.
Lemma tree_unlink st B h n i k h' n' : tree st B h n -> B !! i = Some k -> (forall p, h' <= p < h' + n' <-> h <= p < h + n \/ i <= p < i + 2 ^ k) ->
  exists st', buddy_unlink (fr i) k st = Ok st' /\ relinked st st' /\ only_free st st' /\ tree st' (delete i B) h' n'.
Proof.
  intros T Bi E. pose proof T as [K Bl]. destruct (buddy_unlink_ok st B i k K Bi) as (st' & -> & R & O & K'); [intros j m Hj; by eapply tree_free|].
  exists st'. split_and!; [done..|]. split; [done|]. apply (blocks_relink st st' _ _ _ R). by eapply blocks_take.
Qed.
Lemma merge_loop_ok n : forall st B i k, Z.of_nat n = 18 - k -> 0 <= k -> tree st B i (2 ^ k) -> (2 ^ k | i) ->
  exists i' k' st' B', merge_loop n (fr i) k st = Ok (fr i', k', st') /\ relinked st st' /\ only_free st st' /\ tree st' B' i' (2 ^ k') /\ (2 ^ k' | i') /\ k <= k' <= 18 /\
    (k' < 18 -> B' !! Z.lxor i' (2 ^ k') <> Some k').
Proof.
  induction n as [|n IH]; intros st B i k En Hk T Dv; cbn [merge_loop].
  - exists i, k, st, B. split_and!; [done|apply relinked_refl|done..|lia|lia|lia].
  - rewrite xor_frame by done. pose proof (tree_shape _ _ _ _ T) as S. pose proof (pow_pos k Hk) as P. destruct (b_hole _ _ _ _ _ (tr_blocks _ _ _ _ T) i) as [Hi _]; [lia|].
    destruct (b_hole _ _ _ _ _ (tr_blocks _ _ _ _ T) (i + 2 ^ k - 1)) as [He _]; [lia|].
    pose proof (buddy_of i k Hk ltac:(lia) Dv) as Bd. set (b := Z.lxor i (2 ^ k)) in *. pose proof (count_small _ S). pose proof (pow_le18 k ltac:(lia)).
    assert (0 <= b < 2 ^ 51) as Hb. { split; [apply (bd_pos _ _ _ _ Bd)|]. destruct (proj2 (bd_pages _ _ _ _ Bd b)) as [_ U]; [right; lia|]. pose proof (bd_low _ _ _ _ Bd). rewrite Z.pow_add_r, Z.pow_1_r in U by lia. lia. }
    rewrite (is_free_block_ok _ _ _ _ b k T Hb) by lia. cbn [rbind]. case_bool_decide as Bb; cbn [negb].
    + destruct (tree_unlink st B i (2 ^ k) b k (Z.min i b) (2 ^ (k + 1)) T Bb) as (st1 & -> & R1 & O1 & T1); [apply (bd_pages _ _ _ _ Bd)|]. cbn [rbind].
      assert ((if fr b <? fr i then fr b else fr i) = fr (Z.min i b)) as -> by (unfold fr, PAGE_SIZE; destruct (Z.ltb_spec (b * 4096) (i * 4096)); lia).
      destruct (IH st1 (delete b B) (Z.min i b) (k + 1) ltac:(lia) ltac:(lia) T1) as (i' & k' & st' & B' & -> & R2 & O2 & T2 & D2 & K2 & M2); [apply (bd_align _ _ _ _ Bd)|].
      exists i', k', st', B'. split_and!; [done|by eapply relinked_trans|by eapply only_free_trans|done|done|lia|lia|done].
    + exists i, k, st, B. split_and!; [done|apply relinked_refl|done..|lia|lia|done].
Qed.
Lemma merge_insert_ok st B i k : tree st B i (2 ^ k) -> 0 <= k <= 18 -> (2 ^ k | i) ->
  exists st' B', buddy_merge_insert (fr i) k st = Ok st' /\ relinked st st' /\ only_free st st' /\ tree st' B' 0 0.
Proof.
  intros T Hk Dv. pose proof (tree_shape _ _ _ _ T) as S. pose proof (pow_pos k ltac:(lia)). pose proof (count_small _ S). pose proof (tr_blocks _ _ _ _ T) as Bl.
  destruct (b_hole _ _ _ _ _ Bl i) as [Hi _]; [lia|]. destruct (b_hole _ _ _ _ _ Bl (i + 2 ^ k - 1)) as [He _]; [lia|]. unfold buddy_merge_insert.
  rewrite (proj2 (region_valid st i k S ltac:(lia) Hk)) by (split; [done|lia]). cbn [negb]. rewrite fr_index. unfold head_get. pose proof (s_count _ S).
  rewrite bit_get_ok by (rewrite nbits_heads by done; lia). cbn [rbind]. rewrite (k_heads _ _ (tr_linked _ _ _ _ T)) by (rewrite nbits_heads by done; lia).
  rewrite bool_decide_eq_false_2. 2: { intros [m Bi]. apply (proj2 (b_free _ _ _ _ _ Bl i m i Bi (block_start _ _ _ _ _ _ _ Bl Bi))). lia. }
  destruct (merge_loop_ok (Z.to_nat (BUDDY_MAX_ORDER - k)) st B i k) as (i' & k' & st1 & B1 & -> & R1 & O1 & T1 & D1 & K1 & M1); [unfold BUDDY_MAX_ORDER; lia|lia|done|done|]. cbn [rbind].
  destruct (tree_insert st1 B1 i' (2 ^ k') i' k' 0 0 T1 ltac:(lia) D1) as (st2 & -> & R2 & O2 & T2); [lia|lia|done|].
  exists st2, (<[i' := k']> B1). split_and!; [done|by eapply relinked_trans|by eapply only_free_trans|done].
Qed.
(** The lower half of a block stays in the hole, the upper ones are linked. *)
Lemma split_loop_ok n : forall st B i k, 0 <= k - Z.of_nat n -> k <= 18 -> tree st B i (2 ^ k) -> (2 ^ k | i) ->
  exists st' B', split_loop n (fr i) k st = Ok st' /\ relinked st st' /\ only_free st st' /\ tree st' B' i (2 ^ (k - Z.of_nat n)).
Proof.
  induction n as [|n IH]; intros st B i k Hn Hk T Dv; cbn [split_loop].
  - exists st, B. rewrite Z.sub_0_r. split_and!; [done|apply relinked_refl|done..].
  - assert (P2 : 2 ^ k = 2 * 2 ^ (k - 1)) by (rewrite <- Z.pow_succ_r by lia; f_equal; lia). pose proof (pow_pos (k - 1) ltac:(lia)) as P. pose proof (tr_blocks _ _ _ _ T) as Bl.
    assert (D0 : (2 ^ (k - 1) | i)) by (destruct Dv as [q ->]; exists (2 * q); lia). destruct (b_hole _ _ _ _ _ Bl i) as [Hi _]; [lia|].
    replace (fr i + buddy_bytes (k - 1)) with (fr (i + 2 ^ (k - 1))) by (rewrite bytes_of by lia; unfold fr; lia).
    destruct (tree_insert st B i (2 ^ k) (i + 2 ^ (k - 1)) (k - 1) i (2 ^ (k - 1)) T) as (st1 & -> & R1 & O1 & T1); [lia|destruct D0 as [q ->]; exists (q + 1); lia|lia|lia| |].
    { intros _ X. destruct Dv as [q Eq]. assert (Z.lxor (i + 2 ^ (k - 1)) (2 ^ (k - 1)) = i) as Ex.
      { subst i. rewrite P2. replace (q * (2 * 2 ^ (k - 1)) + 2 ^ (k - 1)) with ((2 * q + 1) * 2 ^ (k - 1)) by lia. rewrite xor_mul by lia. rewrite xor_one, Z.even_add, Z.even_mul. cbn [Z.even orb eqb]. lia. }
      rewrite Ex in X. apply (proj2 (b_free _ _ _ _ _ Bl i (k - 1) i X (block_start _ _ _ _ _ _ _ Bl X))). lia. }
    cbn [rbind]. destruct (IH st1 _ i (k - 1) ltac:(lia) ltac:(lia) T1 D0) as (st2 & B2 & -> & R2 & O2 & T2). exists st2, B2.
    replace (k - Z.of_nat (S n)) with (k - 1 - Z.of_nat n) by lia. split_and!; [done|by eapply relinked_trans|by eapply only_free_trans|done].
Qed.
End PmmTree.
