(* ===== verification/PmmAlloc.v ===== *)
(** Pages taken from and given back to the buddy allocator of [Pmm]: the bitmap,
    the counts of free pages, and the allocations and releases on top of the tree
    of [PmmTree]. *)
From Stdlib Require Import ZifyBool.
From S2P Require Import Prelude Pmm PmmTree.
From stdpp Require Import list gmap.
Local Open Scope Z_scope.
Local Open Scope kernel_scope.

Module PmmAlloc.
Import Pmm PmmTree.

(** ** Counting pages *)

Definition pages (N : Z) : list Z := Z.of_nat <$> seq 0 (Z.to_nat N).
Definition nwhere (f : Z -> bool) (N : Z) : Z := Z.of_nat (count_if f (pages N)).
Lemma pages_succ N : 0 <= N -> pages (N + 1) = pages N ++ [N].
Proof. intros. unfold pages. replace (Z.to_nat (N + 1)) with (Z.to_nat N + 1)%nat by lia. rewrite seq_app, fmap_app. cbn. repeat f_equal. lia. Qed.
Lemma nwhere_succ f N : 0 <= N -> nwhere f (N + 1) = nwhere f N + Z.b2z (f N).
Proof. intros. unfold nwhere. rewrite pages_succ, count_if_app by done. rewrite count_if_cons. unfold count_if at 2. cbn. destruct (f N); cbn [Z.b2z]; lia. Qed.
Lemma nwhere_0 f : nwhere f 0 = 0.
Proof. done. Qed.
Lemma nwhere_ext f f' N : 0 <= N -> (forall q, 0 <= q < N -> f' q = f q) -> nwhere f' N = nwhere f N.
Proof.
  intros HN. revert N HN. apply (natlike_ind (fun N => (forall q, 0 <= q < N -> f' q = f q) -> nwhere f' N = nwhere f N)); [done|].
  intros N HN IH E. unfold Z.succ in *. rewrite !nwhere_succ by done. rewrite E by lia. rewrite IH; [done|]. intros q Hq. apply E. lia.
Qed.
Lemma nwhere_upd f f' N p : 0 <= p < N -> (forall q, 0 <= q < N -> q <> p -> f' q = f q) -> nwhere f' N = nwhere f N + Z.b2z (f' p) - Z.b2z (f p).
Proof.
  intros Hp. assert (HN : 0 <= N) by lia. revert N HN Hp. apply (natlike_ind (fun N => 0 <= p < N -> (forall q, 0 <= q < N -> q <> p -> f' q = f q) -> nwhere f' N = nwhere f N + Z.b2z (f' p) - Z.b2z (f p))); [lia|].
  intros N HN IH Hp E. unfold Z.succ in *. rewrite !nwhere_succ by done. destruct (decide (p = N)) as [->|Np].
  - rewrite (nwhere_ext f f') by (done || (intros q Hq; apply E; lia)). lia.
  - rewrite IH; [|lia|intros q Hq; apply E; lia]. rewrite (E N) by lia. lia.
Qed.
Lemma nwhere_bound f N : 0 <= N -> 0 <= nwhere f N <= N.
Proof. intros. unfold nwhere. pose proof (count_le f (pages N)). unfold pages in *. rewrite length_fmap, length_seq in *. lia. Qed.
Lemma nwhere_pos f N p : 0 <= p < N -> f p = true -> 0 < nwhere f N.
Proof.
  intros Hp Fp. unfold nwhere. apply (inj_lt 0), count_if_first. apply (first_index_is_Some f (pages N) (Z.to_nat p) p); [|done]. unfold pages. rewrite list_lookup_fmap, lookup_seq_lt by lia. cbn. f_equal. lia.
Qed.

(** ** One page *)

Definition refc (st : pmm) (i : Z) : Z := default 0 (frame_refcounts st !! Z.to_nat i).
Definition on_node (st : pmm) (n i : Z) : bool := freeb st i && (pmm_node_of_index i st =? n).
Definition nodes_ok (st : pmm) : Prop :=
  1 < pmm_nodes st -> forall n, 0 <= n < 8 -> node_free_pages st !! Z.to_nat n = Some (nwhere (on_node st n) (frame_count st)).
(** Everything but the tables of the allocator, its cursor and memory is as before. *)
Definition kept (st st' : pmm) : Prop :=
  st' = set_cursor (g_scan_cursor st') (set_mem (mem st') (set_area (free_area st') (set_heads (buddy_heads st') (set_bitmap (bitmap st') (set_refs (frame_refcounts st') (set_free (free_frames st') (set_node_free (node_free_pages st') st))))))).
Lemma kept_refl st : kept st st.
Proof. by destruct st. Qed.
Lemma kept_trans st1 st2 st3 : kept st1 st2 -> kept st2 st3 -> kept st1 st3.
Proof. unfold kept. intros H1 H2. rewrite H2. cbn. rewrite H1. by cbn. Qed.
Lemma kept_iff st st' : kept st st' <-> max_address st' = max_address st /\ direct_map_size st' = direct_map_size st /\ bitmap_bytes st' = bitmap_bytes st /\ topo st' = topo st /\ pt_frames st' = pt_frames st /\
  pmm_nodes st' = pmm_nodes st /\ buddy_ready st' = buddy_ready st /\ zero_page_frame st' = zero_page_frame st /\ pcps st' = pcps st.
Proof.
  unfold kept. split.
  - intros E. repeat split; rewrite E; reflexivity.
  - destruct st, st'. cbn. intros (-> & -> & -> & -> & -> & -> & -> & -> & ->). reflexivity.
Qed.
Lemma relinked_kept st st' : relinked st st' -> kept st st'.
Proof. unfold relinked, kept. intros ->. by destruct st. Qed.
Lemma node_index_range st i : shape st -> 0 <= i -> 0 <= pmm_node_of_index i st < 8.
Proof.
  intros S Hi. unfold pmm_node_of_index. pose proof (node_range st (frame_from_index i) S). unfold pmm_node_of in *. destruct (1 <? pmm_nodes st); [|lia]. apply H. unfold frame_from_index. apply u64_range.
Qed.
Lemma shape_kept st st' : shape st -> kept st st' -> length (bitmap st') = length (bitmap st) -> length (buddy_heads st') = length (buddy_heads st) -> length (frame_refcounts st') = length (frame_refcounts st) ->
  length (node_free_pages st') = length (node_free_pages st) -> length (free_area st') = 8%nat -> Forall (fun row => length row = 19%nat) (free_area st') ->
  (forall i, frame_count st <= i < nbits (bitmap st) -> bit (bitmap st') i = true) -> 0 <= g_scan_cursor st' -> shape st'.
Proof.
  intros [] E L1 L2 L3 L4 L5 L6 Hi Hc. rewrite E. constructor; cbn; try done; try congruence; try (by rewrite L1 || by rewrite L2 || by rewrite L3).
  intros i X. apply Hi. unfold nbits in *. by rewrite <- L1.
Qed.
Lemma bitmap_get_ok st i : shape st -> 0 <= i < 8 * bitmap_bytes st -> bitmap_get i st = Ok (bit (bitmap st) i).
Proof. intros S Hi. unfold bitmap_get. apply bit_get_ok. by rewrite nbits_bitmap. Qed.
(** A page becomes used ([b]) or free. *)
Record flipped (st st' : pmm) (i : Z) (b : bool) : Prop := {
  f_eq : st' = set_bitmap (bitmap st') (set_node_free (node_free_pages st') st);
  f_shape : shape st';
  f_bits : forall j, 0 <= j -> bit (bitmap st') j = if j =? i then b else bit (bitmap st) j;
  f_nodes : nodes_ok st -> nodes_ok st' }.
Lemma flip_shape st st' i b : shape st -> 0 <= i < frame_count st -> st' = set_bitmap (bitmap st') (set_node_free (node_free_pages st') st) -> length (bitmap st') = length (bitmap st) ->
  length (node_free_pages st') = length (node_free_pages st) -> (forall j, 0 <= j -> bit (bitmap st') j = if j =? i then b else bit (bitmap st) j) -> shape st'.
Proof.
  intros S Hi E L1 L2 Hb. apply (shape_kept st); try done; try (rewrite E; done); try (rewrite E; apply S). intros j Hj. rewrite Hb by (pose proof (s_count _ S); lia). rewrite (proj2 (Z.eqb_neq j i)) by lia. by apply S.
Qed.
Lemma nodes_flip st st' i b : st' = set_bitmap (bitmap st') (set_node_free (node_free_pages st') st) -> 0 <= i < frame_count st -> (forall j, 0 <= j -> bit (bitmap st') j = if j =? i then b else bit (bitmap st) j) ->
  forall n, nwhere (on_node st' n) (frame_count st') = nwhere (on_node st n) (frame_count st) + if pmm_node_of_index i st =? n then Z.b2z (negb b) - Z.b2z (freeb st i) else 0.
Proof.
  intros E Hi Hb n. assert (frame_count st' = frame_count st) as -> by (by rewrite E). assert (Nd : forall j, pmm_node_of_index j st' = pmm_node_of_index j st) by (intros j; by rewrite E).
  rewrite (nwhere_upd (on_node st n) (on_node st' n) _ i Hi).
  - unfold on_node, freeb. rewrite Nd, Hb, Z.eqb_refl by lia. destruct (pmm_node_of_index i st =? n); [rewrite !andb_true_r; lia|rewrite !andb_false_r; cbn; lia].
  - intros q Hq Nq. unfold on_node, freeb. rewrite Nd, Hb by lia. by rewrite (proj2 (Z.eqb_neq q i)).
Qed.
Lemma bitmap_set_ok st i : shape st -> 0 <= i < frame_count st -> exists st', bitmap_set i st = Ok st' /\ flipped st st' i true.
Proof.
  intros S Hi. pose proof (s_count _ S) as C. unfold bitmap_set. rewrite bitmap_get_ok by (done || lia). cbn [rbind]. set (n := pmm_node_of_index i st). pose proof (node_index_range st i S ltac:(lia)) as Hn. fold n in Hn.
  assert (exists l, (if negb (bit (bitmap st) i) then let* c := peek (node_free_pages st) n in if c <>? 0 then let* l := poke (node_free_pages st) n (c - 1) in Ok (set_node_free l st) else Ok st else Ok st) = Ok (set_node_free l st) /\
    length l = 8%nat /\ forall c, node_free_pages st !! Z.to_nat n = Some c -> l = if bit (bitmap st) i || (c =? 0) then node_free_pages st else <[Z.to_nat n := c - 1]> (node_free_pages st)) as (l & -> & Ll & El).
  { destruct (bit (bitmap st) i); cbn [negb orb]; [exists (node_free_pages st); split_and!; [by destruct st|apply S|done]|].
    destruct (peek_lt (node_free_pages st) n) as (c & Hc & ->); [rewrite (s_nodes _ S); lia|]. cbn [rbind]. destruct (Z.eqb_spec c 0) as [Z0|Nz]; cbn [negb].
    - exists (node_free_pages st). split_and!; [by destruct st|apply S|]. intros c' Hc'. simplify_eq. done.
    - rewrite poke_ok by (rewrite (s_nodes _ S); lia). cbn [rbind]. eexists. split_and!; [done|rewrite length_insert; apply S|]. intros c' Hc'. simplify_eq. by rewrite (proj2 (Z.eqb_neq _ _)). }
  cbn [rbind]. destruct (bit_set_ok (bitmap (set_node_free l st)) i) as (bm & -> & Lb & Hb); [change (bitmap (set_node_free l st)) with (bitmap st); rewrite nbits_bitmap by done; lia|]. cbn [rbind].
  change (bitmap (set_node_free l st)) with (bitmap st) in Lb, Hb. eexists. split; [done|]. set (st' := set_bitmap bm (set_node_free l st)).
  assert (E : st' = set_bitmap (bitmap st') (set_node_free (node_free_pages st') st)) by done. constructor; [done|..].
  - eapply (flip_shape st); [done|done|exact E|done|by rewrite (s_nodes _ S)|exact Hb].
  - exact Hb.
  - intros No Hn1 k Hk. rewrite (nodes_flip st st' i true E Hi Hb k). pose proof (No Hn1 n Hn) as Nn. pose proof (No Hn1 k Hk) as Nk. change (node_free_pages st') with l. rewrite (El _ Nn). fold n. cbn [negb Z.b2z].
    unfold freeb at 1. destruct (bit (bitmap st) i) eqn:Bi; cbn [negb orb Z.b2z]; [rewrite Nk; f_equal; destruct (n =? k); lia|].
    assert (0 < nwhere (on_node st n) (frame_count st)). { eapply (nwhere_pos _ _ i); [done|]. unfold on_node, freeb. fold n. by rewrite Bi, Z.eqb_refl. }
    rewrite (proj2 (Z.eqb_neq _ 0)) by lia. rewrite lookup_poke by (rewrite ?(s_nodes _ S); lia). rewrite (Z.eqb_sym n k). destruct (Z.eqb_spec k n) as [->|]; [f_equal; lia|]. rewrite Nk. f_equal. lia.
Qed.
Lemma bitmap_clear_ok st i : shape st -> 0 <= i < frame_count st -> exists st', bitmap_clear i st = Ok st' /\ flipped st st' i false.
Proof.
  intros S Hi. pose proof (s_count _ S) as C. unfold bitmap_clear. rewrite bitmap_get_ok by (done || lia). cbn [rbind]. set (n := pmm_node_of_index i st). pose proof (node_index_range st i S ltac:(lia)) as Hn. fold n in Hn.
  assert (exists l, (if bit (bitmap st) i then let* c := peek (node_free_pages st) n in let* l := poke (node_free_pages st) n (u64 (c + 1)) in Ok (set_node_free l st) else Ok st) = Ok (set_node_free l st) /\
    length l = 8%nat /\ forall c, node_free_pages st !! Z.to_nat n = Some c -> l = if bit (bitmap st) i then <[Z.to_nat n := u64 (c + 1)]> (node_free_pages st) else node_free_pages st) as (l & -> & Ll & El).
  { destruct (bit (bitmap st) i); [|exists (node_free_pages st); split_and!; [by destruct st|apply S|done]].
    destruct (peek_lt (node_free_pages st) n) as (c & Hc & ->); [rewrite (s_nodes _ S); lia|]. cbn [rbind]. rewrite poke_ok by (rewrite (s_nodes _ S); lia). cbn [rbind]. eexists. split_and!; [done|rewrite length_insert; apply S|].
    intros c' Hc'. by simplify_eq. }
  cbn [rbind]. destruct (bit_clear_ok (bitmap (set_node_free l st)) i) as (bm & -> & Lb & Hb); [change (bitmap (set_node_free l st)) with (bitmap st); rewrite nbits_bitmap by done; lia|]. cbn [rbind].
  change (bitmap (set_node_free l st)) with (bitmap st) in Lb, Hb. eexists. split; [done|]. set (st' := set_bitmap bm (set_node_free l st)).
  assert (E : st' = set_bitmap (bitmap st') (set_node_free (node_free_pages st') st)) by done. constructor; [done|..].
  - eapply (flip_shape st); [done|done|exact E|done|by rewrite (s_nodes _ S)|exact Hb].
  - exact Hb.
  - intros No Hn1 k Hk. rewrite (nodes_flip st st' i false E Hi Hb k). pose proof (No Hn1 n Hn) as Nn. pose proof (No Hn1 k Hk) as Nk. change (node_free_pages st') with l. rewrite (El _ Nn). fold n. cbn [negb Z.b2z].
    unfold freeb at 1. destruct (bit (bitmap st) i) eqn:Bi; cbn [negb Z.b2z]; [|rewrite Nk; f_equal; destruct (n =? k); lia].
    pose proof (nwhere_bound (on_node st n) (frame_count st) ltac:(lia)). pose proof (count_small _ S). rewrite u64_small by lia.
    rewrite lookup_poke by (rewrite ?(s_nodes _ S); lia). rewrite (Z.eqb_sym n k). destruct (Z.eqb_spec k n) as [->|]; [f_equal; lia|]. rewrite Nk. f_equal. lia.
Qed.

(** ** Runs of pages *)

Definition within (i n j : Z) : bool := (i <=? j) && (j <? i + n).
(** The pages from [i] on, [n] of them, become used or free with [v] references. *)
Record moved (st st' : pmm) (i n : Z) (b : bool) (v : Z) : Prop := {
  m_eq : st' = set_bitmap (bitmap st') (set_refs (frame_refcounts st') (set_node_free (node_free_pages st') st));
  m_shape : shape st';
  m_bits : forall j, 0 <= j -> bit (bitmap st') j = if within i n j then b else bit (bitmap st) j;
  m_refs : forall j, 0 <= j -> refc st' j = if within i n j then v else refc st j;
  m_nodes : nodes_ok st -> nodes_ok st' }.
Lemma set_refcount_ok st i v : shape st -> 0 <= i < frame_count st -> exists l, set_refcount i v st = Ok (set_refs l st) /\ length l = length (frame_refcounts st) /\
  forall j, 0 <= j -> refc (set_refs l st) j = if j =? i then v else refc st j.
Proof.
  intros S Hi. pose proof (s_refs _ S). unfold set_refcount. rewrite poke_ok by lia. cbn [rbind]. eexists. split; [done|]. split; [apply length_insert|]. intros j Hj. unfold refc. cbn. rewrite lookup_poke by lia. by destruct (j =? i).
Qed.
Lemma shape_refs st l : shape st -> length l = length (frame_refcounts st) -> shape (set_refs l st).
Proof. intros [] L. constructor; cbn; try done. by rewrite L. Qed.
Lemma moved_none st i b v : shape st -> moved st st i 0 b v.
Proof. intros S. constructor; [by destruct st|done|..|done]; intros j Hj; unfold within; destruct (Z.leb_spec i j), (Z.ltb_spec j (i + 0)); done || lia. Qed.
Lemma moved_step st1 st2 st3 i n b v l : 0 <= n -> flipped st1 st2 i b -> (forall j, 0 <= j -> refc (set_refs l st2) j = if j =? i then v else refc st2 j) -> length l = length (frame_refcounts st2) ->
  moved (set_refs l st2) st3 (i + 1) n b v -> moved st1 st3 i (n + 1) b v.
Proof.
  intros Hn [E1 S1 B1 N1] R1 L1 [E2 S2 B2 R2 N2]. constructor.
  - rewrite E2. cbn. rewrite E1. done.
  - done.
  - intros j Hj. rewrite B2 by done. change (bitmap (set_refs l st2)) with (bitmap st2). rewrite B1 by done. unfold within.
    destruct (Z.eqb_spec j i), (Z.leb_spec (i + 1) j), (Z.leb_spec i j), (Z.ltb_spec j (i + 1 + n)), (Z.ltb_spec j (i + (n + 1))); cbn [andb]; done || lia.
  - intros j Hj. rewrite R2, R1 by done. assert (refc st2 j = refc st1 j) as -> by (by rewrite E1). unfold within.
    destruct (Z.eqb_spec j i), (Z.leb_spec (i + 1) j), (Z.leb_spec i j), (Z.ltb_spec j (i + 1 + n)), (Z.ltb_spec j (i + (n + 1))); cbn [andb]; done || lia.
  - intros No. apply N2. exact (N1 No).
Qed.
Lemma claim_pages_ok n : forall st i, shape st -> 0 <= i -> i + Z.of_nat n <= frame_count st -> exists st', claim_pages n i st = Ok st' /\ moved st st' i (Z.of_nat n) true 1.
Proof.
  induction n as [|n IH]; intros st i S Hi Hn; cbn [claim_pages]; [exists st; split; [done|by apply moved_none]|].
  destruct (bitmap_set_ok st i S ltac:(lia)) as (st1 & -> & F). cbn [rbind]. assert (Fc : frame_count st1 = frame_count st) by (by rewrite (f_eq _ _ _ _ F)).
  destruct (set_refcount_ok st1 i 1 (f_shape _ _ _ _ F) ltac:(lia)) as (l & -> & L & R). cbn [rbind].
  destruct (IH (set_refs l st1) (i + 1) (shape_refs _ _ (f_shape _ _ _ _ F) L) ltac:(lia)) as (st' & -> & M); [change (frame_count (set_refs l st1)) with (frame_count st1); lia|].
  exists st'. split; [done|]. rewrite Nat2Z.inj_succ. unfold Z.succ. by eapply moved_step; [lia|..].
Qed.
Lemma clear_pages_ok n : forall st i, shape st -> 0 <= i -> i + Z.of_nat n <= frame_count st -> exists st', clear_pages n i st = Ok st' /\ moved st st' i (Z.of_nat n) false 0.
Proof.
  induction n as [|n IH]; intros st i S Hi Hn; cbn [clear_pages]; [exists st; split; [done|by apply moved_none]|].
  destruct (bitmap_clear_ok st i S ltac:(lia)) as (st1 & -> & F). cbn [rbind]. assert (Fc : frame_count st1 = frame_count st) by (by rewrite (f_eq _ _ _ _ F)).
  destruct (set_refcount_ok st1 i 0 (f_shape _ _ _ _ F) ltac:(lia)) as (l & -> & L & R). cbn [rbind].
  destruct (IH (set_refs l st1) (i + 1) (shape_refs _ _ (f_shape _ _ _ _ F) L) ltac:(lia)) as (st' & -> & M); [change (frame_count (set_refs l st1)) with (frame_count st1); lia|].
  exists st'. split; [done|]. rewrite Nat2Z.inj_succ. unfold Z.succ. by eapply moved_step; [lia|..].
Qed.
Lemma all_used_ok n : forall st i, shape st -> 0 <= i -> i + Z.of_nat n <= frame_count st ->
  exists b, all_used n i st = Ok b /\ (b = true <-> forall j, i <= j < i + Z.of_nat n -> bit (bitmap st) j = true).
Proof.
  induction n as [|n IH]; intros st i S Hi Hn; cbn [all_used]; [exists true; split; [done|]; split; [intros _ j Hj; lia|done]|]. pose proof (s_count _ S).
  rewrite bitmap_get_ok by (done || lia). cbn [rbind]. destruct (bit (bitmap st) i) eqn:Bi; cbn [negb].
  - destruct (IH st (i + 1) S ltac:(lia) ltac:(lia)) as (b & -> & Hb). exists b. split; [done|]. rewrite Hb. split; intros X j Hj; [|apply X; lia]. destruct (decide (j = i)) as [->|]; [done|]. apply X. lia.
  - exists false. split; [done|]. split; [done|]. intros X. rewrite X in Bi by lia. done.
Qed.
(** The number of free pages after pages that all were used, or all free, change. *)
Lemma nwhere_run f f' N i n b : 0 <= n -> 0 <= i -> i + n <= N -> (forall j, i <= j < i + n -> f j = negb b) -> (forall j, 0 <= j < N -> f' j = if within i n j then b else f j) ->
  nwhere f' N = nwhere f N + if b then n else - n.
Proof.
  intros Hn. revert i f. pattern n. apply natlike_ind; [| |exact Hn]; clear n Hn.
  - intros i f Hi HN _ E. rewrite (nwhere_ext f f' N); [destruct b; lia|lia|]. intros j Hj. rewrite E by done. unfold within. destruct (Z.leb_spec i j), (Z.ltb_spec j (i + 0)); done || lia.
  - intros n Hn IH i f Hi HN U E. unfold Z.succ in *. set (g := fun j => if j =? i then b else f j). rewrite (IH (i + 1) g); [|lia|lia| |].
    + rewrite (nwhere_upd f g N i) by (lia || (intros q Hq Nq; subst g; cbn; by rewrite (proj2 (Z.eqb_neq q i)))). subst g. cbn beta. rewrite Z.eqb_refl, U by lia. destruct b; cbn; lia.
    + intros j Hj. subst g. cbn. rewrite (proj2 (Z.eqb_neq j i)) by lia. apply U. lia.
    + intros j Hj. rewrite E by done. subst g. cbn. unfold within. destruct (Z.eqb_spec j i), (Z.leb_spec (i + 1) j), (Z.leb_spec i j), (Z.ltb_spec j (i + 1 + n)), (Z.ltb_spec j (i + (n + 1))); cbn [andb]; done || lia.
Qed.

(** ** The pool *)

Record pool (st : pmm) (B : gmap Z Z) : Prop := {
  po_tree : tree st B 0 0;
  po_free : free_frames st = nwhere (freeb st) (frame_count st);
  po_nodes : nodes_ok st;
  po_refs : forall j, free_page st j -> refc st j = 0 }.
Lemma pool_shape st B : pool st B -> shape st.
Proof. intros P. apply (tree_shape _ _ _ _ (po_tree _ _ P)). Qed.
(** Free pages become used, or used pages free. *)
Record took (st st' : pmm) (i n : Z) : Prop := {
  tk_kept : kept st st';
  tk_was : forall j, i <= j < i + n -> free_page st j;
  tk_bits : forall j, 0 <= j -> bit (bitmap st') j = bit (bitmap st) j || within i n j;
  tk_refs : forall j, 0 <= j -> refc st' j = if within i n j then 1 else refc st j;
  tk_mem : only_free st st' }.
Record gave (st st' : pmm) (i n : Z) : Prop := {
  gv_kept : kept st st';
  gv_bits : forall j, 0 <= j -> bit (bitmap st') j = bit (bitmap st) j && negb (within i n j);
  gv_refs : forall j, 0 <= j -> refc st' j = if within i n j then 0 else refc st j;
  gv_mem : forall j o, 0 <= o < 4096 -> ~ free_page st' j -> mem st' (fr j + o) = mem st (fr j + o) }.
Lemma linked_moved st st' B i n b v : linked st B -> moved st st' i n b v -> linked st' B.
Proof. intros [S I L H] [E S' _ _ _]. constructor; [done|..]; rewrite E; done. Qed.
Lemma linked_free st x B : linked st B -> linked (set_free x st) B.
Proof. intros [[] I L H]. by constructor. Qed.
Lemma relinked_fields st st' : relinked st st' -> bitmap st' = bitmap st /\ frame_refcounts st' = frame_refcounts st /\ free_frames st' = free_frames st /\ node_free_pages st' = node_free_pages st /\
  frame_count st' = frame_count st /\ pmm_nodes st' = pmm_nodes st /\ topo st' = topo st.
Proof. intros ->. done. Qed.
Lemma nodes_relink st st' : relinked st st' -> nodes_ok st -> nodes_ok st'.
Proof. intros ->. done. Qed.
Lemma within_in i n j : within i n j = true <-> i <= j < i + n.
Proof. unfold within. lia. Qed.
Lemma claim_ok st B i k : tree st B i (2 ^ k) -> 0 <= k <= 18 -> free_frames st = nwhere (freeb st) (frame_count st) -> nodes_ok st -> (forall j, free_page st j -> refc st j = 0) ->
  exists st', claim_pages (Z.to_nat (2 ^ k)) i st = Ok st' /\ moved st st' i (2 ^ k) true 1 /\ pool (set_free (u64 (free_frames st' - 2 ^ k)) st') B.
Proof.
  intros T Hk Cf No Rf. pose proof (tree_shape _ _ _ _ T) as S. pose proof (tr_blocks _ _ _ _ T) as Bl. pose proof (pow_le18 k Hk) as P. pose proof (count_small _ S) as CS.
  destruct (b_hole _ _ _ _ _ Bl i) as [Hi _]; [lia|]. destruct (b_hole _ _ _ _ _ Bl (i + 2 ^ k - 1)) as [He _]; [lia|].
  destruct (claim_pages_ok (Z.to_nat (2 ^ k)) st i S ltac:(lia) ltac:(lia)) as (st' & -> & M). rewrite Z2Nat.id in M by lia. exists st'. split; [done|]. split; [done|].
  assert (E := m_eq _ _ _ _ _ _ M). assert (Fc : frame_count st' = frame_count st) by (by rewrite E). assert (Ff : free_frames st' = free_frames st) by (by rewrite E).
  assert (Run : nwhere (freeb st') (frame_count st) = nwhere (freeb st) (frame_count st) + - 2 ^ k).
  { apply (nwhere_run _ _ _ i (2 ^ k) false); [lia..| |]; [intros j Hj; by apply (b_hole _ _ _ _ _ Bl)|]. intros j Hj. unfold freeb. rewrite (m_bits _ _ _ _ _ _ M) by lia. by destruct (within i (2 ^ k) j). }
  pose proof (nwhere_bound (freeb st') (frame_count st) ltac:(lia)). pose proof (nwhere_bound (freeb st) (frame_count st) ltac:(lia)). constructor.
  - constructor; [apply linked_free, (linked_moved st st' B _ _ _ _ (tr_linked _ _ _ _ T) M)|]. change (freeb (set_free _ st')) with (freeb st'). change (frame_count (set_free _ st')) with (frame_count st'). rewrite Fc.
    apply (blocks_used _ (freeb st) _ _ i (2 ^ k) _ Bl). intros p Hp. unfold freeb. rewrite (m_bits _ _ _ _ _ _ M) by lia. unfold within. by destruct (_ && _), (bit _ _).
  - cbn. change (freeb (set_free _ st')) with (freeb st'). change (frame_count (set_free _ st')) with (frame_count st'). rewrite Fc, Ff, Run. rewrite u64_small by lia. lia.
  - exact (m_nodes _ _ _ _ _ _ M No).
  - intros j [Hj Fj]. change (frame_count (set_free _ st')) with (frame_count st') in Hj. rewrite Fc in Hj. change (refc (set_free _ st') j) with (refc st' j). rewrite (m_refs _ _ _ _ _ _ M) by lia.
    cbn in Fj. rewrite (m_bits _ _ _ _ _ _ M) in Fj by lia. destruct (within i (2 ^ k) j); [done|]. by apply Rf.
Qed.

(** ** Allocation from the tree *)

(** No block of one of the orders from [k] on is on the node. *)
Definition none_on (st : pmm) (B : gmap Z Z) (node k : Z) : Prop := forall i m, B !! i = Some m -> k <= m -> pmm_node_of (fr i) st <> node.
(** [frame] is a block of [n] pages taken, or 0 and nothing happened. *)
Definition served (st : pmm) (n : Z) (P : Prop) (Q : Z -> Prop) (frame : Z) (st' : pmm) : Prop :=
  frame = 0 /\ st' = st /\ P \/ exists i B', frame = fr i /\ 0 < i /\ (n | i) /\ Q i /\ took st st' i n /\ pool st' B'.
Lemma head_node st B n k : linked st B -> ranges n k ->
  area st n k = 0 /\ (forall i, B !! i = Some k -> pmm_node_of (fr i) st <> n) \/ exists g, area st n k = fr g /\ B !! g = Some k /\ 0 < g < frame_count st /\ pmm_node_of (fr g) st = n.
Proof.
  intros K R. destruct (k_lists _ _ K) as [L S]. rewrite (l_head _ _ _ _ _ S n k R). pose proof (l_mem _ _ _ _ _ S n k) as M. destruct (L n k) as [|g l]; [left|right].
  - split; [done|]. intros i Bi Ni. apply (not_elem_of_nil (fr i)). apply M; [done|]. by exists i.
  - destruct (proj1 (M g R) ltac:(left)) as (j & -> & Hj & Nj). exists j. cbn [hd]. split_and!; [done|done|apply (k_in _ _ K _ _ Hj)..|done].
Qed.
Lemma alloc_orders_ok n : forall st B k order node, pool st B -> Z.of_nat n = 19 - k -> 0 <= order <= k -> 0 <= node < 8 ->
  exists frame st', alloc_orders n k order node st = Ok (frame, st') /\ served st (2 ^ order) (none_on st B node k) (fun i => pmm_node_of (fr i) st = node) frame st'.
Proof.
  induction n as [|n IH]; intros st B k order node P En Ho Hn; cbn [alloc_orders].
  - exists 0, st. split; [done|]. left. split_and!; [done|done|]. intros i m Bi Hm. destruct (b_in _ _ _ _ _ (tr_blocks _ _ _ _ (po_tree _ _ P)) _ _ Bi). lia.
  - pose proof (po_tree _ _ P) as T. pose proof (tree_shape _ _ _ _ T) as S. assert (R : ranges node k) by (split; lia). rewrite area_get_ok by done. cbn [rbind]. pose proof (count_small _ S).
    destruct (head_node st B node k (tr_linked _ _ _ _ T) R) as [[-> No]|(g & -> & Bg & Hg & Ng)].
    + cbn. destruct (IH st B (k + 1) order node P ltac:(lia) ltac:(lia) Hn) as (frame & st' & -> & Sv). exists frame, st'. split; [done|]. destruct Sv as [(-> & -> & No')|Sv]; [left|by right].
      split_and!; [done|done|]. intros i m Bi Hm. destruct (decide (m = k)) as [->|]; [by apply No|]. apply (No' i m Bi). lia.
    + rewrite (proj2 (Z.eqb_neq (fr g) 0)) by (unfold fr, PAGE_SIZE; lia). rewrite (is_free_block_ok _ _ _ _ g k T ltac:(lia)) by lia. cbn [rbind]. rewrite bool_decide_eq_true_2 by done. cbn [negb].
      destruct (tree_unlink st B 0 0 g k g (2 ^ k) T Bg) as (st1 & -> & R1 & O1 & T1); [lia|]. cbn [rbind]. destruct (b_in _ _ _ _ _ (tr_blocks _ _ _ _ T) _ _ Bg) as (_ & _ & Dv & _).
      destruct (split_loop_ok (Z.to_nat (k - order)) st1 (delete g B) g k ltac:(lia) ltac:(lia) T1 Dv) as (st2 & B2 & -> & R2 & O2 & T2). cbn [rbind]. replace (k - Z.of_nat (Z.to_nat (k - order))) with order in T2 by lia.
      pose proof (relinked_trans _ _ _ R1 R2) as R12. pose proof (only_free_trans _ _ _ R1 O1 O2) as O12. destruct (relinked_fields _ _ R12) as (Eb & Er & Ef & En' & Ec & _).
      rewrite fr_index. unfold buddy_pages. rewrite Z.shiftl_1_l.
      assert (freeb st2 = freeb st) as Ffb by (unfold freeb; by rewrite Eb).
      destruct (claim_ok st2 B2 g order T2 ltac:(lia)) as (st3 & -> & M & P3); [by rewrite Ef, Ffb, Ec; apply P|by apply (nodes_relink st); [|apply P]| |].
      { intros j Fj. apply (free_page_relink st st2) in Fj; [|done]. unfold refc. rewrite Er. by apply P. }
      cbn [rbind]. eexists _, _. split; [done|]. right. exists g, B2. split_and!; [done|lia| |done| |done].
      * eapply Z.divide_trans; [|exact Dv]. exists (2 ^ (k - order)). rewrite <- Z.pow_add_r by lia. f_equal. lia.
      * pose proof (pow_pos order ltac:(lia)). constructor.
        -- eapply kept_trans; [by apply relinked_kept|]. unfold kept. cbn. rewrite (m_eq _ _ _ _ _ _ M). by destruct st2.
        -- intros j Hj. destruct (b_hole _ _ _ _ _ (tr_blocks _ _ _ _ T2) j Hj) as [? Fj]. apply (free_page_relink st st2); [done|]. split; [lia|]. unfold freeb in Fj. by destruct (bit _ _).
        -- intros j Hj. change (bitmap (set_free _ st3)) with (bitmap st3). rewrite (m_bits _ _ _ _ _ _ M) by done. rewrite Eb. destruct (within g (2 ^ order) j); [by rewrite orb_true_r|by rewrite orb_false_r].
        -- intros j Hj. change (refc (set_free _ st3) j) with (refc st3 j). rewrite (m_refs _ _ _ _ _ _ M) by done. unfold refc. by rewrite Er.
        -- intros j o Hj Nf. change (mem (set_free _ st3)) with (mem st3). rewrite (m_eq _ _ _ _ _ _ M). cbn. by apply O12.
Qed.
Lemma buddy_alloc_node_ok st B order node : pool st B -> 0 <= order <= 18 -> 0 <= node < 8 ->
  exists frame st', buddy_alloc_node order node st = Ok (frame, st') /\ served st (2 ^ order) (none_on st B node order) (fun i => pmm_node_of (fr i) st = node) frame st'.
Proof.
  intros P Ho Hn. unfold buddy_alloc_node, BUDDY_MAX_ORDER, NUMA_MAX_NODES. rewrite (proj2 (Z.ltb_ge order 0)), (proj2 (Z.ltb_ge 18 order)), (proj2 (Z.ltb_ge node 0)), (proj2 (Z.leb_gt 8 node)) by lia. cbn [orb].
  apply alloc_orders_ok; [done|lia..].
Qed.

(** ** The order of the nodes *)

Definition nearer (t : topology) (pref : Z) (taken : list bool) (best i : Z) : Z :=
  if zget taken i then best else if (best <? 0) || (numa_distance t pref i <? numa_distance t pref best) then i else best.
Lemma nearest_fold t pref taken l : forall best, (forall i, i ∈ l -> 0 <= i) -> let r := fold_left (nearer t pref taken) l best in
  (r = best \/ r ∈ l /\ zget taken r = false) /\ (r < 0 -> forall i, i ∈ l -> zget taken i = true).
Proof.
  induction l as [|x l IH]; intros best P; cbn [fold_left]; [split; [by left|]; intros _ i Hi; by apply not_elem_of_nil in Hi|]. pose proof (P x ltac:(left)) as Hx. cbv zeta in *.
  destruct (IH (nearer t pref taken best x)) as [E N]; [intros i Hi; apply P; by right|]. set (r := fold_left _ l _) in *. split.
  - destruct E as [E|[M T]]; [|right; split; [by right|done]]. rewrite E. unfold nearer. destruct (zget taken x) eqn:Tx; [by left|]. destruct (_ || _); [right; split; [left|done]|by left].
  - intros R i [->|Hi]%elem_of_cons; [|by apply N]. destruct E as [E|[M T]]; [|pose proof (P r ltac:(by right)); lia].
    rewrite E in R. unfold nearer in R. destruct (zget taken x); [done|]. destruct (Z.ltb_spec best 0); cbn [orb] in R; [lia|]. destruct (_ <? _); lia.
Qed.
Lemma elem_pages i N : i ∈ pages N <-> 0 <= i < N.
Proof.
  unfold pages. rewrite list_elem_of_fmap. split; [intros (k & -> & Hk%elem_of_seq); lia|]. intros H. exists (Z.to_nat i). rewrite elem_of_seq. lia.
Qed.
Lemma nearest_ok t pref n taken : let r := nearest t pref n taken in
  (0 <= r < n /\ zget taken r = false) \/ (r = - 1 /\ forall i, 0 <= i < n -> zget taken i = true).
Proof.
  cbv zeta. destruct (nearest_fold t pref taken (pages n) (- 1)) as [E N]; [intros i Hi%elem_pages; lia|]. change (fold_left _ _ _) with (nearest t pref n taken) in *. set (r := nearest t pref n taken) in *.
  destruct E as [->|[M%elem_pages T]]; [right|by left]. split; [done|]. intros i Hi. apply N; [lia|]. by apply elem_pages.
Qed.
Lemma order_loop_ok fuel t pref n : forall out taken, n <= Z.of_nat (length taken) -> NoDup out -> (forall k, k ∈ out <-> 0 <= k < n /\ zget taken k = true) -> n <= Z.of_nat (length out + fuel) ->
  forall k, k ∈ order_loop fuel t pref n out taken <-> 0 <= k < n.
Proof.
  assert (Full : forall (out : list Z) (taken : list bool), (forall i, 0 <= i < n -> zget taken i = true) -> (forall k, k ∈ out <-> 0 <= k < n /\ zget taken k = true) -> forall k, k ∈ out <-> 0 <= k < n).
  { intros out taken A M k. rewrite M. pose proof (A k). tauto. }
  induction fuel as [|fuel IH]; intros out taken Lt Nd M Ln; cbn [order_loop].
  - intros k. split; [intros Hk; by apply M|]. intros Hk. assert (Sub : out ⊆+ pages n).
    { apply NoDup_submseteq; [done|]. intros x Hx. apply elem_pages. by apply M. }
    assert (Pm : out ≡ₚ pages n). { apply submseteq_length_Permutation; [done|]. unfold pages. rewrite length_fmap, length_seq. lia. }
    rewrite Pm. by apply elem_pages.
  - pose proof (nearest_ok t pref n taken) as N. cbv zeta in N. set (r := nearest t pref n taken) in *. destruct N as [[Hr Tr]|[-> A]]; [|cbn; by eapply Full].
    rewrite (proj2 (Z.ltb_ge r 0)) by lia. apply IH.
    + rewrite length_zalter. lia.
    + apply NoDup_app. split_and!; [done| |apply NoDup_singleton]. intros x Hx ->%list_elem_of_singleton. apply M in Hx as [_ Hx]. congruence.
    + intros k. rewrite elem_of_app, list_elem_of_singleton, M. destruct (decide (k = r)) as [->|Nk]; [rewrite zget_zalter_eq by lia; tauto|]. split.
      * intros [[Hk Tk]|]; [|done]. rewrite zget_zalter_ne by lia. done.
      * intros [Hk Tk]. rewrite zget_zalter_ne in Tk by lia. by left.
    + rewrite length_app. cbn. lia.
Qed.
Lemma numa_node_order_all t pref : numa_node_count t <= 8 -> forall k, k ∈ numa_node_order t pref <-> 0 <= k < numa_node_count t.
Proof.
  intros H8. unfold numa_node_order. set (n := numa_node_count t) in *. assert (1 <= n) by (subst n; unfold numa_node_count; destruct (Z.ltb_spec (node_count t) 1); lia).
  set (p := if _ || _ then 0 else pref). assert (0 <= p < n) by (subst p; destruct (Z.ltb_spec pref 0), (Z.leb_spec n pref); cbn; lia). cbv zeta. unfold NUMA_MAX_NODES.
  assert (Z.of_nat (length (replicate (Z.to_nat 8) false)) = 8) by done. apply order_loop_ok.
  - rewrite length_zalter. lia.
  - apply NoDup_singleton.
  - intros k. rewrite list_elem_of_singleton. destruct (decide (k = p)) as [->|Nk]; [rewrite zget_zalter_eq by lia; tauto|]. split; [done|]. intros [Hk Tk]. rewrite zget_zalter_ne in Tk by lia.
    unfold zget in Tk. rewrite lookup_total_replicate_2 in Tk by lia. done.
  - cbn [length]. lia.
Qed.

(** ** Allocation from the nodes in turn *)

(** The nodes the pages are on are the nodes allocations ask. *)
Definition topo_ok (st : pmm) : Prop := 1 < pmm_nodes st ->
  pmm_nodes st = numa_node_count (topo st) /\ pmm_nodes st <= 8 /\ Forall (fun n => 0 <= n < pmm_nodes st) (chunk_node (topo st)).
Lemma node_bound st f : topo_ok st -> 0 <= f -> 1 < pmm_nodes st -> 0 <= pmm_node_of f st < pmm_nodes st.
Proof.
  intros T Hf Hn. destruct (T Hn) as (_ & _ & F). unfold pmm_node_of, numa_node_of_frame. rewrite (proj2 (Z.ltb_lt _ _)) by done. destruct (Z.leb_spec (Z.of_nat (length (chunk_node (topo st)))) (Z.shiftr f NUMA_CHUNK_SHIFT)); [lia|].
  pose proof (proj2 (Z.shiftr_nonneg f NUMA_CHUNK_SHIFT) Hf). unfold zget. destruct (lookup_lt_is_Some_2 (chunk_node (topo st)) (Z.to_nat (Z.shiftr f NUMA_CHUNK_SHIFT))) as [x Hx]; [lia|].
  rewrite (list_lookup_total_correct _ _ _ Hx). by apply (proj1 (Forall_lookup _ _) F _ _ Hx).
Qed.
Lemma served_weaken st n (P P' : Prop) (Q Q' : Z -> Prop) frame st' : (P -> P') -> (forall i, Q i -> Q' i) -> served st n P Q frame st' -> served st n P' Q' frame st'.
Proof. intros HP HQ [(-> & -> & X)|(i & B' & ? & ? & ? & ? & ? & ?)]; [left; tauto|right]. exists i, B'. naive_solver. Qed.
Lemma alloc_nodes_ok st B order (nodes : list Z) : pool st B -> 0 <= order <= 18 -> (forall k, k ∈ nodes -> 0 <= k < 8) ->
  exists frame st', alloc_nodes order nodes st = Ok (frame, st') /\ served st (2 ^ order) (forall k, k ∈ nodes -> none_on st B k order) (fun _ => True) frame st'.
Proof.
  intros P Ho. induction nodes as [|node nodes IH]; intros Hn; cbn [alloc_nodes].
  - eexists _, _. split; [done|]. left. split_and!; [done|done|]. intros k Hk. by apply not_elem_of_nil in Hk.
  - destruct (buddy_alloc_node_ok st B order node P Ho (Hn _ ltac:(left))) as (frame & st1 & -> & Sv). cbn [rbind]. destruct Sv as [(-> & -> & No)|(i & B' & -> & Hi & Dv & _ & Tk & P')].
    + cbn. destruct IH as (frame & st2 & -> & Sv); [intros k Hk; apply Hn; by right|]. eexists _, _. split; [done|]. eapply served_weaken; [|done|exact Sv]. intros A k [->|Hk]%elem_of_cons; [done|by apply A].
    + rewrite (proj2 (Z.eqb_neq (fr i) 0)) by (unfold fr, PAGE_SIZE; lia). cbn [negb]. eexists _, _. split; [done|]. right. exists i, B'. by split_and!.
Qed.
(** Every block is of a smaller order. *)
Definition none_of (B : gmap Z Z) (k : Z) : Prop := forall i m, B !! i = Some m -> m < k.
Lemma buddy_alloc_pref_ok st B order pref strict here : pool st B -> topo_ok st -> 0 <= order <= 18 -> 0 <= (if pref <? 0 then here else pref) < 8 ->
  exists frame st', buddy_alloc_pref order pref strict here st = Ok (frame, st') /\ served st (2 ^ order) (strict = false -> none_of B order)
    (fun i => strict = true -> pmm_nodes st <= 1 \/ pmm_node_of (fr i) st = if pref <? 0 then here else pref) frame st'.
Proof.
  intros P T Ho Hp. unfold buddy_alloc_pref. pose proof (b_in _ _ _ _ _ (tr_blocks _ _ _ _ (po_tree _ _ P))) as I. destruct (Z.leb_spec (pmm_nodes st) 1) as [N1|N1].
  - destruct (buddy_alloc_node_ok st B order 0 P Ho ltac:(lia)) as (frame & st' & -> & Sv). eexists _, _. split; [done|]. eapply served_weaken; [|intros i _ _; by left|exact Sv].
    intros No _ i m Bi. destruct (Z.lt_ge_cases m order) as [|Hm]; [done|]. exfalso. apply (No i m Bi Hm). unfold pmm_node_of. by rewrite (proj2 (Z.ltb_ge _ _)).
  - set (q := if pref <? 0 then here else pref) in *. destruct strict.
    + destruct (buddy_alloc_node_ok st B order q P Ho Hp) as (frame & st' & -> & Sv). eexists _, _. split; [done|]. eapply served_weaken; [|intros i Hi _; right; exact Hi|exact Sv]. done.
    + destruct (T N1) as (E & H8 & F). pose proof (numa_node_order_all (topo st) q ltac:(lia)) as A.
      destruct (alloc_nodes_ok st B order (numa_node_order (topo st) q) P Ho) as (frame & st' & -> & Sv); [intros k Hk%A; lia|]. eexists _, _. split; [done|]. eapply served_weaken; [|done|exact Sv].
      intros No _ i m Bi. destruct (Z.lt_ge_cases m order) as [|Hm]; [done|]. exfalso. refine (No (pmm_node_of (fr i) st) _ i m Bi Hm eq_refl). apply A. rewrite <- E. apply node_bound; [done| |done]. destruct (I i m Bi). unfold fr, PAGE_SIZE. lia.
Qed.
(** An allocation the tree refuses finds no aligned run of free pages. *)
Lemma none_free st B k : pool st B -> 0 <= k <= 18 -> none_of B k <-> forall i, 0 <= i -> (2 ^ k | i) -> i + 2 ^ k <= frame_count st -> exists j, i <= j < i + 2 ^ k /\ bit (bitmap st) j = true.
Proof.
  intros P Hk. pose proof (tr_blocks _ _ _ _ (po_tree _ _ P)) as T. pose proof (pow_pos k ltac:(lia)). split.
  - intros No i Hi Dv Hn. destruct (decide (Exists (fun j => bit (bitmap st) j = true) ((fun p => i + p) <$> pages (2 ^ k)))) as [E|E].
    + apply Exists_exists in E as (j & (p & -> & Hp%elem_pages)%list_elem_of_fmap & Bj). exists (i + p). split; [lia|done].
    + exfalso. destruct (range_in_block B _ _ _ T k Hk i Hi Dv Hn) as (j & m & Bj & Hm & _); [|pose proof (No j m Bj); lia].
      intros p Hp. unfold freeb. destruct (bit (bitmap st) p) eqn:Bp; [|done]. exfalso. apply E. apply Exists_exists. exists p. split; [|done]. apply list_elem_of_fmap. exists (p - i). split; [lia|]. apply elem_pages. lia.
  - intros A i m Bi. destruct (Z.lt_ge_cases m k) as [|Hm]; [done|]. exfalso. destruct (b_in _ _ _ _ _ T _ _ Bi) as (? & ? & Dv & Hn). assert (2 ^ k <= 2 ^ m) by (apply Z.pow_le_mono_r; lia).
    destruct (A i ltac:(lia)) as (j & Hj & Bj); [|lia|].
    + eapply Z.divide_trans; [|exact Dv]. exists (2 ^ (m - k)). rewrite <- Z.pow_add_r by lia. f_equal. lia.
    + destruct (b_free _ _ _ _ _ T i m j Bi ltac:(lia)) as [F _]. unfold freeb in F. by rewrite Bj in F.
Qed.

(** ** Release *)

Lemma free_page_freeb st j : free_page st j <-> 0 <= j < frame_count st /\ freeb st j = true.
Proof. unfold free_page, freeb. destruct (bit _ _); intuition done. Qed.
(** Used pages are counted free, in no block yet. *)
Lemma unclaim_ok st B i k : pool st B -> 0 <= k <= 18 -> 0 < i -> i + 2 ^ k <= frame_count st -> (forall j, i <= j < i + 2 ^ k -> bit (bitmap st) j = true) ->
  exists st', clear_pages (Z.to_nat (2 ^ k)) i st = Ok st' /\ moved st st' i (2 ^ k) false 0 /\ tree (set_free (u64 (free_frames st' + 2 ^ k)) st') B i (2 ^ k) /\
    u64 (free_frames st' + 2 ^ k) = nwhere (freeb st') (frame_count st').
Proof.
  intros P Hk Hi Hn U. pose proof (pool_shape _ _ P) as S. pose proof (pow_pos k ltac:(lia)). destruct (clear_pages_ok (Z.to_nat (2 ^ k)) st i S ltac:(lia) ltac:(lia)) as (st' & -> & M). rewrite Z2Nat.id in M by lia.
  exists st'. split; [done|]. split; [done|]. assert (Fc : frame_count st' = frame_count st) by (by rewrite (m_eq _ _ _ _ _ _ M)). assert (Ff : free_frames st' = free_frames st) by (by rewrite (m_eq _ _ _ _ _ _ M)).
  assert (Fb : forall j, 0 <= j -> freeb st' j = if within i (2 ^ k) j then true else freeb st j). { intros j Hj. unfold freeb. rewrite (m_bits _ _ _ _ _ _ M) by done. by destruct (within _ _ _). }
  split.
  - split; [apply linked_free; by apply (linked_moved st st' B _ _ _ _ (tr_linked _ _ _ _ (po_tree _ _ P)) M)|]. change (blocks B (freeb st') (frame_count st') i (2 ^ k)). rewrite Fc.
    apply (blocks_freed B (freeb st) _ _ i 0); [apply P|done|done|intros p Hp; unfold freeb; by rewrite U|]. intros p Hp. rewrite Fb by lia. unfold within. destruct (_ && _); [by rewrite orb_true_r|by rewrite orb_false_r].
  - rewrite Ff, Fc. rewrite (nwhere_run (freeb st) (freeb st') (frame_count st) i (2 ^ k) true); [|lia|lia|done|intros j Hj; unfold freeb; by rewrite U|intros j Hj; apply Fb; lia].
    rewrite (po_free _ _ P). pose proof (count_small _ S). pose proof (nwhere_bound (freeb st) (frame_count st) ltac:(lia)). pose proof (pow_le18 k Hk). apply u64_small. lia.
Qed.
(** The pages go back to the tree, joined with their free buddies. *)
Lemma unclaim_put_ok st st1 B i k : pool st B -> 0 <= k <= 18 -> (2 ^ k | i) -> moved st st1 i (2 ^ k) false 0 -> tree (set_free (u64 (free_frames st1 + 2 ^ k)) st1) B i (2 ^ k) ->
  u64 (free_frames st1 + 2 ^ k) = nwhere (freeb st1) (frame_count st1) ->
  exists st' B', buddy_merge_insert (fr i) k (set_free (u64 (free_frames st1 + 2 ^ k)) st1) = Ok st' /\ gave st st' i (2 ^ k) /\ pool st' B'.
Proof.
  intros P Hk Dv M T Ef. set (st2 := set_free _ st1) in *. destruct (merge_insert_ok st2 B i k T Hk Dv) as (st' & B' & -> & R & O & T'). destruct (relinked_fields _ _ R) as (Eb & Er & Ff & _ & Fc & _).
  exists st', B'. split; [done|]. assert (Bits : forall j, 0 <= j -> bit (bitmap st') j = bit (bitmap st) j && negb (within i (2 ^ k) j)).
  { intros j Hj. rewrite Eb. change (bitmap st2) with (bitmap st1). rewrite (m_bits _ _ _ _ _ _ M) by done. destruct (within _ _ _); [by rewrite andb_false_r|by rewrite andb_true_r]. }
  assert (Refs : forall j, 0 <= j -> refc st' j = if within i (2 ^ k) j then 0 else refc st j). { intros j Hj. unfold refc at 1. rewrite Er. change (frame_refcounts st2) with (frame_refcounts st1). by apply (m_refs _ _ _ _ _ _ M). }
  assert (Fcs : frame_count st1 = frame_count st) by (by rewrite (m_eq _ _ _ _ _ _ M)). split; constructor.
  - eapply kept_trans; [|by apply relinked_kept]. unfold kept, st2. cbn. rewrite (m_eq _ _ _ _ _ _ M). by destruct st.
  - done.
  - done.
  - intros j o Ho Nf. rewrite (O j o Ho) by (intros Fj; apply Nf; by apply (free_page_relink st2 st')). change (mem st2) with (mem st1). by rewrite (m_eq _ _ _ _ _ _ M).
  - done.
  - rewrite Ff, Fc. change (u64 (free_frames st1 + 2 ^ k) = nwhere (freeb st') (frame_count st1)). rewrite Ef. unfold freeb. by rewrite Eb.
  - apply (nodes_relink st2); [done|]. apply (m_nodes _ _ _ _ _ _ M), P.
  - intros j [Hj Fj]. rewrite Refs by lia. rewrite Bits in Fj by lia. destruct (within i (2 ^ k) j); [done|]. rewrite andb_true_r in Fj. apply (po_refs _ _ P). split; [|done]. rewrite Fc in Hj. change (frame_count st2) with (frame_count st1) in Hj. lia.
Qed.
Lemma buddy_release_ok st B i k : pool st B -> 0 <= k <= 18 -> 0 < i < 2 ^ 51 ->
  exists rc st', buddy_release (fr i) k st = Ok (rc, st') /\
    (rc = - 1 /\ st' = st /\ ~ ((2 ^ k | i) /\ i + 2 ^ k <= frame_count st /\ forall j, i <= j < i + 2 ^ k -> bit (bitmap st) j = true) \/
     exists B', rc = 0 /\ (2 ^ k | i) /\ i + 2 ^ k <= frame_count st /\ (forall j, i <= j < i + 2 ^ k -> bit (bitmap st) j = true) /\ gave st st' i (2 ^ k) /\ pool st' B').
Proof.
  intros P Hk Hi. pose proof (pool_shape _ _ P) as S. pose proof (region_valid st i k S ltac:(lia) Hk) as V. unfold buddy_release. destruct (buddy_region_valid (fr i) k st); cbn [negb].
  2: { eexists _, _. split; [done|]. left. split_and!; [done|done|]. intros (? & ? & _). by assert (false = true) by tauto. }
  destruct (proj1 V eq_refl) as [Dv Hn]. pose proof (pow_pos k ltac:(lia)). rewrite fr_index. unfold buddy_pages. rewrite Z.shiftl_1_l.
  destruct (all_used_ok (Z.to_nat (2 ^ k)) st i S ltac:(lia) ltac:(lia)) as (b & -> & Hb). rewrite Z2Nat.id in Hb by lia. cbn [rbind]. destruct b; cbn [negb].
  - destruct (unclaim_ok st B i k P Hk ltac:(lia) Hn (proj1 Hb eq_refl)) as (st1 & -> & M & T & E). cbn [rbind]. destruct (unclaim_put_ok st st1 B i k P Hk Dv M T E) as (st' & B' & -> & G & P'). cbn [rbind].
    eexists _, _. split; [done|]. right. exists B'. split_and!; try done. by apply Hb.
  - eexists _, _. split; [done|]. left. split_and!; [done|done|]. intros (_ & _ & U). apply Hb in U. done.
Qed.
(** A page that is used, no page table and no secret goes back. *)
Lemma return_frame_ok st B hidden i : pool st B -> 0 < i < frame_count st -> bit (bitmap st) i = true -> bit (pt_frames st) i = false -> hidden (fr i) = false ->
  exists st' B', pmm_return_frame hidden (fr i) st = Ok st' /\ gave st st' i 1 /\ pool st' B'.
Proof.
  intros P Hi Ui Np Nh. pose proof (pool_shape _ _ P) as S. pose proof (count_small _ S). unfold pmm_return_frame, pmm_frame_is_page_table. rewrite (s_max _ S), (proj2 (Z.leb_gt _ _)) by (unfold fr, PAGE_SIZE; lia).
  change (fr i / PAGE_SIZE) with (frame_index (fr i)). rewrite fr_index. pose proof (s_count _ S). rewrite bit_get_ok by (unfold nbits; rewrite (s_pts _ S); lia). cbn [rbind]. rewrite Np, Nh.
  destruct (buddy_release_ok st B i 0 P ltac:(lia) ltac:(lia)) as (rc & st' & -> & [(-> & -> & N)|(B' & -> & _ & _ & _ & G & P')]); cbn [rbind].
  - exfalso. apply N. split_and!; [apply Z.divide_1_l|lia|]. intros j Hj. by replace j with i by lia.
  - exists st', B'. done.
Qed.
End PmmAlloc.
