(* ===== verification/PmmSeed.v ===== *)
(** The free lists of [Pmm] rebuilt from the bitmap: the words the scans skip, the
    runs of free pages, and their cut into the largest aligned blocks. *)
From Stdlib Require Import ZifyBool.
From S2P Require Import Prelude Pmm PmmTree PmmAlloc.
From stdpp Require Import list gmap.
Local Open Scope Z_scope.
Local Open Scope kernel_scope.

Module PmmSeed.
Import Pmm PmmTree PmmAlloc.

(** ** Words of the bitmap *)

Lemma byte_shift b acc : 0 <= acc -> forall n, 0 <= n -> Z.testbit (Z.lor (u8 b) (Z.shiftl acc 8)) n = if n <? 8 then Z.testbit b n else Z.testbit acc (n - 8).
Proof.
  intros Ha n Hn. rewrite Z.lor_spec, Z.shiftl_spec by done. unfold u8. change 256 with (2 ^ 8). destruct (Z.ltb_spec n 8).
  - rewrite Z.mod_pow2_bits_low, (Z.testbit_neg_r acc) by lia. by rewrite orb_false_r.
  - by rewrite Z.mod_pow2_bits_high by lia.
Qed.
Lemma word_fold l w k : forall j, 0 <= w -> (w * 8 + Z.of_nat j + Z.of_nat k <= Z.of_nat (length l)) ->
  exists x, fold_right (fun j acc => let* acc := acc in let* b := peek l (w * 8 + j) in Ok (Z.lor (u8 b) (Z.shiftl acc 8))) (Ok 0) (Z.of_nat <$> seq j k) = Ok x /\
    0 <= x < 2 ^ (8 * Z.of_nat k) /\ forall n, 0 <= n < 8 * Z.of_nat k -> Z.testbit x n = bit l ((w * 8 + Z.of_nat j) * 8 + n).
Proof.
  induction k as [|k IH]; intros j Hw Hl; [exists 0; split; [done|]; split; [done|lia]|]. rewrite <- cons_seq, fmap_cons. cbn [fold_right].
  destruct (IH (S j) Hw ltac:(lia)) as (x & -> & Hx & T). cbn [rbind]. destruct (peek_lt l (w * 8 + Z.of_nat j) ltac:(lia)) as (b & Hb & ->). cbn [rbind]. eexists. split; [done|]. pose proof (byte_shift b x ltac:(lia)) as Bs. split.
  - assert (0 <= u8 b < 2 ^ 8) by (unfold u8; apply Z.mod_pos_bound; lia). rewrite Z.lor_comm, lor_add by lia.
    replace (8 * Z.of_nat (S k)) with (8 * Z.of_nat k + 8) by lia. rewrite Z.pow_add_r by lia. lia.
  - intros n Hn. rewrite Bs by lia. destruct (Z.ltb_spec n 8).
    + unfold bit. replace (((w * 8 + Z.of_nat j) * 8 + n) / 8) with (w * 8 + Z.of_nat j) by (rewrite Z.div_add_l, Z.div_small; lia). rewrite Hb. f_equal. rewrite Z.add_comm, Z.mod_add, Z.mod_small; lia.
    + rewrite T by lia. f_equal. lia.
Qed.
Lemma word_at_ok l w : 0 <= w -> w * 8 + 8 <= Z.of_nat (length l) -> exists x, word_at l w = Ok x /\ 0 <= x < 2 ^ 64 /\ forall n, 0 <= n < 64 -> Z.testbit x n = bit l (w * 64 + n).
Proof.
  intros Hw Hl. destruct (word_fold l w 8 0 Hw ltac:(lia)) as (x & E & Hx & T). exists x. split; [exact E|]. split; [done|]. intros n Hn. rewrite T by lia. f_equal. lia.
Qed.
Lemma all_ones x : 0 <= x < 2 ^ 64 -> x = ALL_ONES <-> forall n, 0 <= n < 64 -> Z.testbit x n = true.
Proof.
  intros Hx. change ALL_ONES with (Z.ones 64). split; [intros -> n Hn; apply Z.ones_spec_low; lia|]. intros T. apply Z.bits_inj'. intros n Hn. destruct (Z.lt_ge_cases n 64).
  - rewrite Z.ones_spec_low, T by lia. done.
  - rewrite Z.ones_spec_high by lia. rewrite <- (Z.mod_small x (2 ^ 64)) by done. apply Z.mod_pow2_bits_high. lia.
Qed.
(** A word is skipped exactly when none of its pages is free. *)
Lemma full_word_ok st i limit : shape st -> 0 <= i -> limit <= frame_count st ->
  exists b, full_word i limit st = Ok b /\ (b = true <-> i mod 64 = 0 /\ i + 64 <= limit /\ forall j, i <= j < i + 64 -> bit (bitmap st) j = true).
Proof.
  intros S Hi Hl. unfold full_word. destruct (Z.eqb_spec (i mod 64) 0) as [E|]; cbn [andb]; [|exists false; split; [done|]; lia]. destruct (Z.leb_spec (i + 64) limit); [|exists false; split; [done|]; lia].
  pose proof (s_count _ S). pose proof (s_bitmap _ S). pose proof (Z.div_mod i 64 ltac:(lia)). pose proof (Z.div_pos i 64). destruct (word_at_ok (bitmap st) (i / 64) ltac:(lia) ltac:(lia)) as (x & -> & Hx & T).
  cbn [rbind]. eexists. split; [done|]. rewrite Z.eqb_eq, all_ones by done. split.
  - intros A. split_and!; [done|done|]. intros j Hj. specialize (A (j - i) ltac:(lia)). rewrite T in A by lia. rewrite <- A. f_equal. lia.
  - intros (_ & _ & A) n Hn. rewrite T by done. apply A. lia.
Qed.

(** ** Runs *)

Lemma run_end_ok fuel st limit : shape st -> limit <= frame_count st -> forall i, 0 <= i <= limit -> limit - i <= Z.of_nat fuel ->
  exists e, run_end fuel i limit st = Ok e /\ i <= e <= limit /\ (forall j, i <= j < e -> bit (bitmap st) j = false) /\ (e < limit -> bit (bitmap st) e = true).
Proof.
  intros S Hl. pose proof (s_count _ S). induction fuel as [|fuel IH]; intros i Hi Hf; cbn [run_end]; [exists i; split; [done|]; split; [lia|]; split; lia|].
  destruct (Z.leb_spec limit i); [exists i; split; [done|]; split; [lia|]; split; lia|]. rewrite bitmap_get_ok by (done || lia). cbn [rbind].
  destruct (bit (bitmap st) i) eqn:Bi; [exists i; split; [done|]; split; [lia|]; split; [lia|done]|]. destruct (IH (i + 1) ltac:(lia) ltac:(lia)) as (e & -> & He & F & U). exists e. split; [done|]. split; [lia|]. split; [|done].
  intros j Hj. destruct (decide (j = i)) as [->|]; [done|]. apply F. lia.
Qed.
Lemma low_bits pos k : 0 <= k -> (pos &? (Z.shiftl 1 k - 1)) = negb (pos mod 2 ^ k =? 0).
Proof. intros Hk. f_equal. rewrite Z.shiftl_1_l, Z.sub_1_r, <- Z.ones_equiv, Z.land_ones by lia. done. Qed.
Lemma fit_order_ok n pos end_ : forall k, 0 <= k -> (2 ^ k | pos) -> pos + 2 ^ k <= end_ -> let o := fit_order n k pos end_ in
  k <= o <= k + Z.of_nat n /\ (2 ^ o | pos) /\ pos + 2 ^ o <= end_ /\ (o = k + Z.of_nat n \/ ~ ((2 ^ (o + 1) | pos) /\ pos + 2 ^ (o + 1) <= end_)).
Proof.
  induction n as [|n IH]; intros k Hk Dv He; cbn [fit_order]; cbv zeta; [split; [lia|]; split_and!; [done|done|left; lia]|].
  rewrite low_bits by lia. rewrite Z.shiftl_1_l. pose proof (pow_pos (k + 1) ltac:(lia)). destruct (Z.ltb_spec end_ (pos + 2 ^ (k + 1))); cbn [orb]; [split; [lia|]; split_and!; [done|done|right; lia]|].
  destruct (Z.eqb_spec (pos mod 2 ^ (k + 1)) 0) as [E|E]; cbn [negb].
  - destruct (IH (k + 1) ltac:(lia)) as (H1 & H2 & H3 & H4); [apply Z.mod_divide; lia|done|]. split; [lia|]. split_and!; [done|done|]. destruct H4; [left; lia|by right].
  - split; [lia|]. split_and!; [done|done|]. right. intros [X _]. apply E. apply Z.mod_divide in X; lia.
Qed.

(** ** Blocks of the pages below an index *)

Definition below (st : pmm) (i p : Z) : bool := freeb st p && (p <? i).
(** A block that could grow to the right has a used page there. *)
Definition greedy (st : pmm) (B : gmap Z Z) : Prop := forall j m, B !! j = Some m -> m < 18 -> (2 ^ (m + 1) | j) -> exists p, j + 2 ^ m <= p < j + 2 ^ (m + 1) /\ (frame_count st <= p \/ bit (bitmap st) p = true).
Record seeded (st : pmm) (B : gmap Z Z) (i : Z) : Prop := {
  sd_linked : linked st B;
  sd_blocks : blocks B (below st i) (frame_count st) 0 0;
  sd_greedy : greedy st B }.
Lemma seeded_skip st B i i' : seeded st B i -> i <= i' -> (forall p, i <= p < i' -> p < frame_count st -> bit (bitmap st) p = true) -> seeded st B i'.
Proof.
  intros [K T G] Hi U. constructor; [done| |done]. eapply blocks_ext; [|exact T]. intros p Hp. unfold below, freeb. destruct (Z.ltb_spec p i), (Z.ltb_spec p i'); try lia. rewrite U by lia. done.
Qed.
Lemma seeded_put st B pos k : seeded st B pos -> 0 < pos -> 0 <= k <= 18 -> (2 ^ k | pos) -> pos + 2 ^ k <= frame_count st -> (forall p, pos <= p < pos + 2 ^ k -> bit (bitmap st) p = false) ->
  (k < 18 -> (2 ^ (k + 1) | pos) -> exists p, pos + 2 ^ k <= p < pos + 2 ^ (k + 1) /\ (frame_count st <= p \/ bit (bitmap st) p = true)) ->
  exists st', buddy_insert (fr pos) k st = Ok st' /\ relinked st st' /\ only_free st st' /\ seeded st' (<[pos := k]> B) (pos + 2 ^ k).
Proof.
  intros [K T G] Hpos Hk Dv He F Gr. pose proof (pow_pos k ltac:(lia)). assert (Low : forall j m, B !! j = Some m -> j + 2 ^ m <= pos).
  { intros j m Hj. destruct (b_in _ _ _ _ _ T _ _ Hj) as (Hm & ? & _ & ?). pose proof (pow_pos m ltac:(lia)). destruct (b_free _ _ _ _ _ T j m (j + 2 ^ m - 1) Hj ltac:(lia)) as [X _]. unfold below in X. lia. }
  assert (Nb : B !! pos = None). { destruct (B !! pos) as [m|] eqn:X; [|done]. pose proof (Low _ _ X). destruct (b_in _ _ _ _ _ T _ _ X) as (Hm & _). pose proof (pow_pos m ltac:(lia)). lia. }
  assert (T1 : blocks B (below st (pos + 2 ^ k)) (frame_count st) pos (2 ^ k)).
  { apply (blocks_freed B (below st pos) _ _ pos 0); [exact T|done|done|intros p Hp; unfold below; lia|].
    intros p Hp. unfold below, freeb. destruct (Z.ltb_spec p pos), (Z.ltb_spec p (pos + 2 ^ k)), (Z.leb_spec pos p); cbn [andb orb]; rewrite ?andb_true_r, ?andb_false_r, ?orb_false_r; try done; try lia. by rewrite F by lia. }
  destruct (buddy_insert_ok st B pos k K Nb Hk ltac:(lia)) as (st' & -> & R & O & K'); [split; [lia|]; apply F; lia| |].
  { intros j m Hj. destruct (b_in _ _ _ _ _ T _ _ Hj) as (Hm & ? & _ & ?). pose proof (pow_pos m ltac:(lia)). destruct (b_free _ _ _ _ _ T j m j Hj ltac:(lia)) as [X _]. unfold below, freeb in X. split; [lia|]. by destruct (bit _ _). }
  exists st'. split_and!; [done..|]. constructor; [done|..].
  - rewrite R. change (blocks (<[pos := k]> B) (below st (pos + 2 ^ k)) (frame_count st) 0 0). apply (blocks_put B _ _ pos (2 ^ k)); [done|done|done|lia|lia|].
    intros H18 Hb. pose proof (buddy_of pos k ltac:(lia) ltac:(lia) Dv) as Bd. set (j := Z.lxor pos (2 ^ k)) in *. pose proof (Low _ _ Hb). assert (l : Z.min pos j = j) by lia. rewrite l in Bd.
    destruct (G j k Hb H18 (bd_align _ _ _ _ Bd)) as (p & Hp & Up). assert (P2 : 2 ^ (k + 1) = 2 * 2 ^ k) by (rewrite Z.pow_add_r, Z.pow_1_r by lia; lia).
    assert (pos <= p < pos + 2 ^ k). { destruct (proj1 (bd_pages _ _ _ _ Bd p) ltac:(lia)); lia. } rewrite F in Up by lia. destruct Up; [lia|done].
  - intros j m Hj Hm Dj. rewrite R. change (exists p, j + 2 ^ m <= p < j + 2 ^ (m + 1) /\ (frame_count st <= p \/ bit (bitmap st) p = true)). apply lookup_insert_Some in Hj as [[<- <-]|[_ Hj]]; [by apply Gr|by apply G].
Qed.
Lemma from_index st i : shape st -> 0 <= i <= frame_count st -> frame_from_index i = fr i.
Proof. intros S Hi. unfold frame_from_index. pose proof (count_small _ S). apply u64_small. unfold fr, PAGE_SIZE. lia. Qed.
Lemma decompose_ok fuel : forall st B pos end_, seeded st B pos -> 0 < pos <= end_ -> end_ <= frame_count st -> (forall p, pos <= p < end_ -> bit (bitmap st) p = false) ->
  (end_ < frame_count st -> bit (bitmap st) end_ = true) -> end_ - pos <= Z.of_nat fuel ->
  exists st' B', decompose fuel pos end_ st = Ok st' /\ relinked st st' /\ only_free st st' /\ seeded st' B' end_.
Proof.
  induction fuel as [|fuel IH]; intros st B pos end_ Sd Hp He F U Hf; cbn [decompose].
  - exists st, B. replace end_ with pos by lia. split_and!; [done|apply relinked_refl|apply only_free_refl|done].
  - destruct (Z.leb_spec end_ pos). { exists st, B. replace end_ with pos by lia. split_and!; [done|apply relinked_refl|apply only_free_refl|done]. }
    destruct (fit_order_ok (Z.to_nat BUDDY_MAX_ORDER) pos end_ 0) as (Ho & Dv & Hle & Mx); [done|apply Z.divide_1_l|rewrite Z.pow_0_r; lia|]. set (o := fit_order _ 0 pos end_) in *. unfold BUDDY_MAX_ORDER in Ho, Mx.
    pose proof (pow_pos o ltac:(lia)). rewrite Z.shiftl_1_l, (from_index st) by (apply Sd || lia).
    destruct (seeded_put st B pos o Sd) as (st1 & -> & R1 & O1 & Sd1); [lia..|done|lia|intros p Hpp; apply F; lia| |].
    { intros H18 D1. destruct Mx as [?|Mx]; [lia|]. exists end_. split; [|destruct (Z.lt_ge_cases end_ (frame_count st)); [right; by apply U|by left]]. split; [lia|]. apply Znot_ge_lt. intros G. apply Mx. split; [done|lia]. }
    cbn [rbind]. destruct (IH st1 (<[pos := o]> B) (pos + 2 ^ o) end_ Sd1) as (st' & B' & -> & R & O & Sd'); [lia|by rewrite R1| | |lia|].
    + intros p Hpp. rewrite R1. apply F. lia.
    + rewrite R1. done.
    + exists st', B'. split_and!; [done|by eapply relinked_trans|by eapply only_free_trans|done].
Qed.
Lemma seed_loop_ok fuel : forall st B i, seeded st B i -> 0 <= i <= frame_count st -> (0 < frame_count st -> bit (bitmap st) 0 = true) -> frame_count st - i < Z.of_nat fuel ->
  exists st' B', seed_loop fuel i st = Ok st' /\ relinked st st' /\ only_free st st' /\ seeded st' B' (frame_count st).
Proof.
  induction fuel as [|fuel IH]; intros st B i Sd Hi Z0 Hf; [lia|]. cbn [seed_loop]. pose proof (k_shape _ _ (sd_linked _ _ _ Sd)) as S. pose proof (s_count _ S).
  destruct (Z.leb_spec (frame_count st) i). { exists st, B. replace (frame_count st) with i by lia. split_and!; [done|apply relinked_refl|apply only_free_refl|done]. }
  destruct (full_word_ok st i (frame_count st) S ltac:(lia) ltac:(lia)) as (b & -> & Hb). cbn [rbind]. destruct b.
  { destruct (proj1 Hb eq_refl) as (_ & H64 & A). apply (IH st B); [|lia|done|lia]. apply (seeded_skip _ _ i); [done|lia|]. intros p Hp _. by apply A. }
  rewrite bitmap_get_ok by (done || lia). cbn [rbind]. destruct (bit (bitmap st) i) eqn:Bi.
  { apply (IH st B); [|lia|done|lia]. apply (seeded_skip _ _ i); [done|lia|]. intros p Hp _. by replace p with i by lia. }
  assert (0 < i). { destruct (decide (i = 0)) as [->|]; [rewrite Z0 in Bi by lia; done|lia]. }
  destruct (run_end_ok (Z.to_nat (frame_count st)) st (frame_count st) S ltac:(lia) (i + 1) ltac:(lia) ltac:(lia)) as (e & -> & He & F & U). cbn [rbind].
  destruct (decompose_ok (Z.to_nat (frame_count st)) st B i e Sd) as (st1 & B1 & -> & R1 & O1 & Sd1); [lia|lia| |done|lia|].
  { intros p Hp. destruct (decide (p = i)) as [->|]; [done|]. apply F. lia. }
  cbn [rbind]. assert (Fc : frame_count st1 = frame_count st) by (by rewrite R1). destruct (IH st1 B1 e Sd1) as (st' & B' & -> & R & O & Sd'); [lia|by rewrite R1|lia|].
  exists st', B'. split_and!; [done|by eapply relinked_trans|by eapply only_free_trans|]. by rewrite <- Fc.
Qed.
Lemma empty_area_ok : length empty_area = 8%nat /\ Forall (fun row => length row = 19%nat) empty_area.
Proof. split; [done|]. by repeat constructor. Qed.
Lemma bit_zero n i : bit (replicate n 0) i = false.
Proof. unfold bit. destruct (replicate n 0 !! _) as [x|] eqn:E; [|done]. apply lookup_replicate in E as [-> _]. apply Z.bits_0. Qed.
(** The lists rebuilt hold the free pages of the bitmap, and nothing else is written. *)
Lemma seed_ok st : shape st -> (0 < frame_count st -> bit (bitmap st) 0 = true) -> exists st' B, buddy_seed_from_bitmap st = Ok st' /\ relinked st st' /\ only_free st st' /\ tree st' B 0 0.
Proof.
  intros S Z0. unfold buddy_seed_from_bitmap. set (st0 := set_heads _ (set_area empty_area st)). pose proof (s_count _ S). destruct empty_area_ok as [A1 A2].
  assert (R0 : relinked st st0) by (by destruct st). assert (S0 : shape st0). { destruct S. constructor; try done. change (Z.of_nat (length (replicate (Z.to_nat (bitmap_bytes st)) 0)) = bitmap_bytes st). rewrite length_replicate. lia. }
  assert (Sd0 : seeded st0 ∅ 0). { constructor.
    - constructor; [done|done| |].
      + exists (fun _ _ => []). constructor; [|intros; apply NoDup_nil_2| |done|done].
        * intros n k f R. split; [intros X; by apply not_elem_of_nil in X|]. intros (i & _ & X & _). by rewrite lookup_empty in X.
        * intros n k [Hn Hk]. unfold area. change (free_area st0) with empty_area. unfold empty_area. rewrite lookup_replicate_2, lookup_replicate_2 by (unfold NUMA_MAX_NODES, BUDDY_MAX_ORDER; lia). done.
      + intros i Hi. change (buddy_heads st0) with (replicate (Z.to_nat (bitmap_bytes st)) 0). rewrite bit_zero, bool_decide_eq_false_2; [done|]. rewrite lookup_empty. by intros [? ?].
    - constructor; try (intros *; rewrite lookup_empty; done); [|lia]. intros p Hp Fp. unfold below in Fp. lia.
    - intros j m X. by rewrite lookup_empty in X. }
  destruct (seed_loop_ok (Datatypes.S (Z.to_nat (frame_count st0))) st0 ∅ 0 Sd0) as (st' & B & -> & R & O & [K T _]); [change (frame_count st0) with (frame_count st); lia|done|change (frame_count st0) with (frame_count st); lia|].
  exists st', B. split_and!; [done|by eapply relinked_trans|by eapply (only_free_trans st st0 st'); [|done..]|]. split; [done|]. eapply blocks_ext; [|exact T]. intros p Hp. unfold below.
  assert (frame_count st' = frame_count st0) by (by rewrite R). lia.
Qed.
End PmmSeed.
