(* ===== verification/PmmScan.v ===== *)
(** Runs of pages taken out of the bitmap of [Pmm]: the scans and what they find,
    and one round of an allocation of any number of pages. *)
From Stdlib Require Import ZifyBool.
From S2P Require Import Prelude Pmm PmmTree PmmAlloc PmmSeed.
From stdpp Require Import list gmap.
Local Open Scope Z_scope.
Local Open Scope kernel_scope.

Module PmmScan.
Import Pmm PmmTree PmmAlloc PmmSeed.

(** ** Memory of used pages *)

Lemma linked_mem st B m : linked st B -> (forall i k o, B !! i = Some k -> 0 <= o < 4096 -> m (fr i + o) = mem st (fr i + o)) -> linked (set_mem m st) B.
Proof.
  intros [S I [L [M Nd H Lk Hd]] Hh] E. constructor; [by destruct S|done| |done]. exists L. constructor; try done.
  - intros n k R. eapply links_ext; [by apply Lk|]. intros f (i & -> & Bi & _)%M; [|done]. split; eapply E; done.
  - intros i k Bi. cbn. unfold order_off, magic_off. rewrite !(E i k) by (done || lia). by apply Hd.
Qed.
Lemma pool_mem st B m : pool st B -> (forall i o, free_page st i -> 0 <= o < 4096 -> m (fr i + o) = mem st (fr i + o)) -> pool (set_mem m st) B.
Proof.
  intros P E. pose proof P as [[K T] F N R]. constructor; [|done..]. split; [|done]. apply linked_mem; [done|]. intros i k o Bi Ho. apply E; [|done]. by eapply (tree_free st B 0 0).
Qed.
Lemma page_offset i j o n : 0 <= o < 4096 -> (fr i <=? fr j + o) && (fr j + o <? fr i + n * PAGE_SIZE) = within i n j.
Proof. intros Ho. unfold fr, PAGE_SIZE, within. lia. Qed.
Lemma pool_fill st B i n v : pool st B -> (forall j, i <= j < i + n -> ~ free_page st j) -> pool (fill (fr i) n v st) B.
Proof. intros P U. apply pool_mem; [done|]. intros j o Fj Ho. rewrite page_offset by done. destruct (within i n j) eqn:W; [|done]. apply within_in in W. by destruct (U j W). Qed.
Lemma pool_cursor st B c : pool st B -> 0 <= c -> pool (set_cursor c st) B.
Proof. intros [[[[] I L H] T] F N R] Hc. constructor; done. Qed.
Definition zeroed (st : pmm) (i n : Z) : Prop := forall j o, i <= j < i + n -> 0 <= o < 4096 -> mem st (fr j + o) = 0.
Lemma fill_zeroed st i n : zeroed (fill (fr i) n 0 st) i n.
Proof. intros j o Hj Ho. cbn. rewrite page_offset by done. by rewrite (proj2 (within_in i n j)). Qed.
Lemma took_used st st' i n j : took st st' i n -> i <= j < i + n -> ~ free_page st' j.
Proof. intros T Hj [X F]. rewrite (tk_bits _ _ _ _ T) in F by lia. rewrite (proj2 (within_in i n j) Hj), orb_true_r in F. done. Qed.
Lemma took_fill st st' i n v : took st st' i n -> took st (fill (fr i) n v st') i n.
Proof.
  intros [K W B R M]. constructor; [|done..|].
  - by rewrite kept_iff in *.
  - intros j o Ho Nf. cbn. rewrite page_offset by done. destruct (within i n j) eqn:X; [|by apply M]. apply within_in in X. by destruct Nf; apply W.
Qed.
Lemma took_cursor st st' i n c : took st st' i n -> took st (set_cursor c st') i n.
Proof. intros [K W B R M]. constructor; try done. by rewrite kept_iff in *. Qed.

(** ** Runs *)

(** No claimed page table is a free page. *)
Definition no_pt (st : pmm) : Prop := forall j, free_page st j -> bit (pt_frames st) j = false.
Lemma check_handout_ok st i : shape st -> 0 <= i < frame_count st -> bit (pt_frames st) i = false -> pmm_check_handout (fr i) st = Ok st.
Proof.
  intros S Hi Np. unfold pmm_check_handout, pmm_frame_is_page_table. rewrite (s_max _ S), (proj2 (Z.leb_gt _ _)) by (unfold fr, PAGE_SIZE; lia). change (fr i / PAGE_SIZE) with (frame_index (fr i)). rewrite fr_index.
  pose proof (s_count _ S). rewrite bit_get_ok by (unfold nbits; rewrite (s_pts _ S); lia). cbn [rbind]. by rewrite Np.
Qed.
Lemma moved_free st st' i n b v x : moved st st' i n b v -> moved (set_free x st) (set_free x st') i n b v.
Proof. intros [E S B R N]. constructor; [rewrite E; by destruct st|by destruct S|done|done|done]. Qed.
Lemma claim_run_ok n : forall st i, shape st -> 0 <= i -> i + Z.of_nat n <= frame_count st -> (forall j, i <= j < i + Z.of_nat n -> bit (bitmap st) j = false) ->
  free_frames st = nwhere (freeb st) (frame_count st) ->
  exists st', claim_run n i st = Ok st' /\ moved st (set_free (free_frames st) st') i (Z.of_nat n) true 1 /\ free_frames st' = nwhere (freeb st') (frame_count st').
Proof.
  induction n as [|n IH]; intros st i S Hi Hn F Ff; cbn [claim_run]; [exists st; split; [done|]; split; [|done]; replace (set_free _ st) with st by (by destruct st); by apply moved_none|].
  unfold claim_frame, mark_frame_used. rewrite (from_index st) by (done || lia). rewrite (s_max _ S), (proj2 (Z.leb_gt _ _)) by (unfold fr, PAGE_SIZE; lia). rewrite fr_index. pose proof (s_count _ S).
  rewrite bitmap_get_ok by (done || lia). cbn [rbind]. rewrite F by lia. cbn [negb]. destruct (bitmap_set_ok st i S ltac:(lia)) as (st1 & -> & Fl). cbn [rbind].
  assert (Fc : frame_count st1 = frame_count st) by (by rewrite (f_eq _ _ _ _ Fl)). assert (E1 : free_frames st1 = free_frames st) by (by rewrite (f_eq _ _ _ _ Fl)).
  assert (Up : nwhere (freeb st1) (frame_count st) = nwhere (freeb st) (frame_count st) - 1).
  { rewrite (nwhere_upd (freeb st) (freeb st1) _ i) by (lia || (intros q Hq Nq; unfold freeb; rewrite (f_bits _ _ _ _ Fl) by lia; by rewrite (proj2 (Z.eqb_neq q i)))).
    unfold freeb. rewrite (f_bits _ _ _ _ Fl), Z.eqb_refl, F by lia. cbn. lia. }
  pose proof (nwhere_bound (freeb st1) (frame_count st) ltac:(lia)). rewrite E1, (proj2 (Z.ltb_lt 0 _)) by lia. set (st2 := set_free (free_frames st - 1) st1). assert (S2 : shape st2) by (by destruct (f_shape _ _ _ _ Fl)).
  destruct (set_refcount_ok st2 i 1 S2) as (l & -> & L & R); [change (frame_count st2) with (frame_count st1); lia|]. cbn [rbind].
  destruct (IH (set_refs l st2) (i + 1) (shape_refs _ _ S2 L) ltac:(lia)) as (st' & -> & M & Ff').
  - change (frame_count (set_refs l st2)) with (frame_count st1). lia.
  - intros j Hj. change (bitmap (set_refs l st2)) with (bitmap st1). rewrite (f_bits _ _ _ _ Fl) by lia. rewrite (proj2 (Z.eqb_neq j i)) by lia. apply F. lia.
  - change (free_frames st - 1 = nwhere (freeb st1) (frame_count st1)). rewrite Fc. lia.
  - exists st'. split; [done|]. split; [|done]. apply (moved_free _ _ _ _ _ _ (free_frames st)) in M. rewrite Nat2Z.inj_succ. unfold Z.succ.
    apply (moved_step st st1 _ i _ true 1 l); [lia|done|exact R|exact L|]. replace (set_refs l st1) with (set_free (free_frames st) (set_refs l st2)); [exact M|]. subst st2. rewrite <- E1. by destruct st1.
Qed.
Lemma pool_zero st B : pool st B -> 0 < frame_count st -> bit (bitmap st) 0 = true.
Proof.
  intros P Hc. destruct (bit (bitmap st) 0) eqn:E; [done|]. exfalso. destruct (b_cover _ _ _ _ _ (tr_blocks _ _ _ _ (po_tree _ _ P)) 0) as [?|(i & k & Bi & ?)]; [lia|unfold freeb; by rewrite E|lia|].
  destruct (b_in _ _ _ _ _ (tr_blocks _ _ _ _ (po_tree _ _ P)) _ _ Bi). lia.
Qed.
(** [n] pages from [i] on were free, are zero now, and have one reference each. *)
Record granted (st st' : pmm) (i n : Z) : Prop := { g_took : took st st' i n; g_zero : zeroed st' i n; g_range : 0 < i /\ i + n <= frame_count st; g_pool : exists B, pool st' B }.
Lemma granted_fill st st' B i n : took st st' i n -> 0 < i -> i + n <= frame_count st -> pool st' B -> granted st (fill (fr i) n 0 st') i n.
Proof. intros T Hi Hn P. constructor; [by apply took_fill|apply fill_zeroed|done|]. exists B. apply pool_fill; [done|]. intros j Hj. by eapply took_used. Qed.
Lemma take_run_ok st B i n : pool st B -> buddy_ready st = true -> no_pt st -> 0 < n -> 0 <= i -> i + n <= frame_count st -> (forall j, i <= j < i + n -> bit (bitmap st) j = false) ->
  exists st', take_run i n st = Ok (fr i, st') /\ granted st st' i n.
Proof.
  intros P Rd Np Hn Hi He F. pose proof (pool_shape _ _ P) as S. assert (0 < i). { destruct (decide (i = 0)) as [->|]; [|lia]. pose proof (F 0 ltac:(lia)) as X. rewrite (pool_zero st B P) in X by lia. done. }
  unfold take_run. destruct (claim_run_ok (Z.to_nat n) st i S Hi ltac:(lia)) as (st1 & -> & M & Ff); [intros j Hj; apply F; lia|apply P|]. rewrite Z2Nat.id in M by lia. cbn [rbind].
  pose proof (m_eq _ _ _ _ _ _ M) as E. assert (K1 : kept st st1). { apply kept_iff. set (st1' := set_free _ st1) in *. change (max_address st1' = max_address st /\ direct_map_size st1' = direct_map_size st /\ bitmap_bytes st1' = bitmap_bytes st /\
    topo st1' = topo st /\ pt_frames st1' = pt_frames st /\ pmm_nodes st1' = pmm_nodes st /\ buddy_ready st1' = buddy_ready st /\ zero_page_frame st1' = zero_page_frame st /\ pcps st1' = pcps st). rewrite E. done. }
  pose proof (proj1 (kept_iff st st1) K1) as (Mx & _ & _ & _ & Pt & _ & Rd1 & _). assert (Fc : frame_count st1 = frame_count st) by (unfold frame_count; by rewrite Mx). rewrite Rd1, Rd.
  assert (Bits : forall j, 0 <= j -> bit (bitmap st1) j = if within i n j then true else bit (bitmap st) j) by exact (m_bits _ _ _ _ _ _ M). assert (S1 : shape st1) by (by destruct (m_shape _ _ _ _ _ _ M)).
  destruct (seed_ok st1 S1) as (st2 & B2 & -> & R & O & T2). { intros _. rewrite Bits by lia. destruct (within i n 0); [done|]. apply (pool_zero st B); [done|lia]. }
  cbn [rbind]. destruct (relinked_fields _ _ R) as (Eb & Er & Ef & En & Ec & _). assert (Tk : took st st2 i n). { constructor.
    - eapply kept_trans; [exact K1|by apply relinked_kept].
    - intros j Hj. split; [lia|by apply F].
    - intros j Hj. rewrite Eb, Bits by done. destruct (within i n j); [by rewrite orb_true_r|by rewrite orb_false_r].
    - intros j Hj. unfold refc at 1. rewrite Er. exact (m_refs _ _ _ _ _ _ M j Hj).
    - intros j o Ho Nf. rewrite O; [|done|].
      + change (mem st1) with (mem (set_free (free_frames st) st1)). rewrite E. done.
      + intros [Hj Fj]. apply Nf. rewrite Bits in Fj by lia. destruct (within i n j); [done|]. split; [lia|done]. }
  assert (P2 : pool st2 B2). { constructor; [done|..].
    - rewrite Ef, Ec. unfold freeb. rewrite Eb. exact Ff.
    - apply (nodes_relink st1); [done|]. exact (m_nodes _ _ _ _ _ _ M (po_nodes _ _ P)).
    - intros j [Hj Fj]. rewrite (tk_refs _ _ _ _ Tk) by lia. rewrite (tk_bits _ _ _ _ Tk) in Fj by lia. destruct (within i n j); [by rewrite orb_true_r in Fj|]. rewrite orb_false_r in Fj. apply (po_refs _ _ P). split; [|done]. lia. }
  rewrite (from_index st) by (done || lia). assert (bit (pt_frames st2) i = false) by (rewrite R; cbn; rewrite Pt; apply Np; split; [lia|apply F; lia]).
  rewrite (check_handout_ok st2 i (pool_shape _ _ P2)) by (done || lia). cbn [rbind].
  eexists. split; [done|]. by eapply granted_fill.
Qed.

(** ** Scans *)

(** No [n] free pages in a row from [lo] to [hi]. *)
Definition no_run (st : pmm) (lo hi n : Z) : Prop := forall r, lo <= r -> r + n <= hi -> exists p, r <= p < r + n /\ bit (bitmap st) p = true.
(** The scan is at [i] with the last [run] pages free, and no run starts before. *)
Record passed (st : pmm) (lo i run n : Z) : Prop := {
  ps_run : 0 <= run < n; ps_lo : lo <= i - run;
  ps_free : forall p, i - run <= p < i -> bit (bitmap st) p = false;
  ps_none : forall r, lo <= r < i - run -> exists p, r <= p < r + n /\ bit (bitmap st) p = true }.
Lemma passed_start st lo n : 0 < n -> passed st lo lo 0 n.
Proof. intros. constructor; [lia|lia|intros; lia|intros; lia]. Qed.
Lemma passed_used st lo i run n i' : passed st lo i run n -> i < i' -> (forall p, i <= p < i' -> bit (bitmap st) p = true) -> passed st lo i' 0 n.
Proof.
  intros [H1 H2 H3 H4] Hi U. constructor; [lia|lia|intros; lia|]. intros r Hr. destruct (Z.lt_ge_cases r (i - run)); [apply H4; lia|]. destruct (Z.lt_ge_cases r i); [exists i|exists r]; (split; [lia|apply U; lia]).
Qed.
Lemma passed_free st lo i run n : passed st lo i run n -> bit (bitmap st) i = false -> run + 1 < n -> passed st lo (i + 1) (run + 1) n.
Proof.
  intros [H1 H2 H3 H4] Fi Hn. constructor; [lia|lia| |intros r Hr; apply H4; lia]. intros p Hp. destruct (decide (p = i)) as [->|]; [done|]. apply H3. lia.
Qed.
Lemma passed_end st lo i run n limit : passed st lo i run n -> limit <= i -> no_run st lo limit n.
Proof. intros [H1 H2 H3 H4] Hi r Hr Hn. apply H4. lia. Qed.
Lemma granted_cursor st st' i n c : granted st st' i n -> 0 <= c -> granted st (set_cursor c st') i n.
Proof. intros [T Z0 R [B P]] Hc. constructor; [by apply took_cursor|done|done|]. exists B. by apply pool_cursor. Qed.
(** What a scan from [lo] to [hi] answers. *)
Definition scanned (st : pmm) (lo hi n frame : Z) (st' : pmm) : Prop :=
  frame = 0 /\ st' = st /\ no_run st lo hi n \/ exists r, frame = fr r /\ lo <= r /\ r + n <= hi /\ granted st st' r n.
Lemma ctz_ok k : forall x, 0 <= x < 2 ^ Z.of_nat k -> x <> 0 -> 0 <= ctz k x < Z.of_nat k /\ Z.testbit x (ctz k x) = true /\ forall m, 0 <= m < ctz k x -> Z.testbit x m = false.
Proof.
  induction k as [|k IH]; intros x Hx Nz; [change (2 ^ Z.of_nat 0) with 1 in Hx; lia|]. cbn [ctz]. rewrite Nat2Z.inj_succ, Z.pow_succ_r in Hx by lia. rewrite <- Z.bit0_odd. destruct (Z.testbit x 0) eqn:B0; [split; [lia|]; split; [done|lia]|].
  pose proof (Z.div_mod x 2 ltac:(lia)). assert (x mod 2 = 0) by (rewrite Z.bit0_odd in B0; by rewrite Zmod_odd, B0).
  assert (D : Z.shiftr x 1 = x / 2) by (by rewrite Z.shiftr_div_pow2). destruct (IH (Z.shiftr x 1) ltac:(lia) ltac:(lia)) as (Hc & T & L). split; [lia|].
  assert (Sh : forall m, 0 <= m -> Z.testbit x (1 + m) = Z.testbit (Z.shiftr x 1) m). { intros m Hm. rewrite Z.shiftr_spec by done. f_equal. lia. }
  split; [by rewrite Sh by lia|]. intros m Hm. destruct (decide (m = 0)) as [->|]; [done|]. replace m with (1 + (m - 1)) by lia. rewrite Sh by lia. apply L. lia.
Qed.
Lemma land_word a b : 0 <= a < 2 ^ 64 -> 0 <= Z.land a b < 2 ^ 64.
Proof.
  intros Ha. assert (E : Z.land a b = Z.land a b mod 2 ^ 64). { rewrite <- Z.land_ones, <- Z.land_assoc, (Z.land_comm b), Z.land_assoc, Z.land_ones, Z.mod_small by lia. done. }
  rewrite E. apply Z.mod_pos_bound. lia.
Qed.
(** The free pages of the word, from a bit on. *)
Lemma free_bits_ok w s : 0 <= w < 2 ^ 64 -> 0 <= s < 64 -> let x := Z.land (u64 (Z.lnot w)) (u64 (Z.shiftl ALL_ONES s)) in
  0 <= x < 2 ^ 64 /\ forall n, 0 <= n < 64 -> Z.testbit x n = negb (Z.testbit w n) && (s <=? n).
Proof.
  intros Hw Hs x. subst x. assert (0 <= u64 (Z.lnot w) < 2 ^ 64) by (apply Z.mod_pos_bound; lia). assert (0 <= u64 (Z.shiftl ALL_ONES s)) by (apply Z.mod_pos_bound; lia). split.
  - by apply land_word.
  - intros n Hn. rewrite Z.land_spec. unfold u64. change U64_MOD with (2 ^ 64). rewrite !Z.mod_pow2_bits_low by lia. rewrite Z.lnot_spec by lia. f_equal. change ALL_ONES with (Z.ones 64). rewrite Z.shiftl_spec by lia.
    destruct (Z.leb_spec s n); [apply Z.ones_spec_low; lia|apply Z.testbit_neg_r; lia].
Qed.
Section Scan.
Context (st : pmm) (B : gmap Z Z) (lo limit n : Z).
Context (P : pool st B) (Rd : buddy_ready st = true) (Np : no_pt st) (Hn : 0 < n) (Hlo : 0 <= lo) (Hl : limit <= frame_count st).
(** The page at [i] is looked at. *)
Lemma scan_page fuel i run run_start : passed st lo i run n -> i < limit -> (run <> 0 -> run_start = i - run) ->
  (forall i' run' run_start', passed st lo i' run' n -> i < i' <= limit -> (run' <> 0 -> run_start' = i' - run') -> exists frame st', scan_loop fuel i' limit n run' run_start' st = Ok (frame, st') /\ scanned st lo limit n frame st') ->
  exists frame st', (let* b := bitmap_get i st in
      if b then scan_loop fuel (i + 1) limit n 0 run_start st
      else let run_start := if run =? 0 then i else run_start in
           let run := run + 1 in
           if n <=? run then let* '(frame, st) := take_run run_start n st in Ok (frame, set_cursor (run_start + n) st) else scan_loop fuel (i + 1) limit n run run_start st) = Ok (frame, st') /\ scanned st lo limit n frame st'.
Proof.
  intros Ps Hi Hs IH. pose proof (pool_shape _ _ P) as S. pose proof (s_count _ S). pose proof (ps_run _ _ _ _ _ Ps). pose proof (ps_lo _ _ _ _ _ Ps). rewrite bitmap_get_ok by (done || lia). cbn [rbind].
  destruct (bit (bitmap st) i) eqn:Bi; [apply IH; [|lia|lia]; apply (passed_used _ _ i run); [done|lia|]; intros p Hp; by replace p with i by lia|]. cbv zeta.
  assert ((if run =? 0 then i else run_start) = i - run) as -> by (destruct (Z.eqb_spec run 0); [lia|by apply Hs]). destruct (Z.leb_spec n (run + 1)).
  - destruct (take_run_ok st B (i - run) n P Rd Np Hn) as (st' & -> & G); [lia|lia| |].
    + intros j Hj. destruct (decide (j = i)) as [->|]; [done|]. apply (ps_free _ _ _ _ _ Ps). lia.
    + cbn [rbind]. eexists _, _. split; [done|]. right. exists (i - run). split_and!; [done|lia|lia|]. apply granted_cursor; [done|lia].
  - apply IH; [by apply passed_free|lia|lia].
Qed.
Lemma scan_loop_ok fuel : forall i run run_start, passed st lo i run n -> i <= limit -> (run <> 0 -> run_start = i - run) -> limit - i < Z.of_nat fuel ->
  exists frame st', scan_loop fuel i limit n run run_start st = Ok (frame, st') /\ scanned st lo limit n frame st'.
Proof.
  induction fuel as [|fuel IH]; intros i run run_start Ps Hi Hs Hf; [lia|]. cbn [scan_loop]. pose proof (pool_shape _ _ P) as S. pose proof (s_count _ S). pose proof (s_bitmap _ S). pose proof (ps_run _ _ _ _ _ Ps). pose proof (ps_lo _ _ _ _ _ Ps).
  destruct (Z.leb_spec limit i); [eexists _, _; split; [done|]; left; split_and!; [done|done|by eapply passed_end]|].
  assert (IH' : forall i' run' run_start', passed st lo i' run' n -> i < i' <= limit -> (run' <> 0 -> run_start' = i' - run') -> exists frame st', scan_loop fuel i' limit n run' run_start' st = Ok (frame, st') /\ scanned st lo limit n frame st').
  { intros i' run' rs' Ps' Hi' Hs'. apply IH; [done|lia|done|lia]. }
  destruct (full_word_ok st i limit S ltac:(lia) Hl) as (b & -> & Hb). cbn [rbind]. destruct b; [destruct (proj1 Hb eq_refl) as (_ & ? & A); apply IH'; [by apply (passed_used _ _ i run); [|lia|]|lia|lia]|].
  pose proof (Z.div_mod i 64 ltac:(lia)) as Dm. pose proof (Z.mod_pos_bound i 64 ltac:(lia)). pose proof (Z.div_pos i 64 ltac:(lia) ltac:(lia)). destruct ((run =? 0) && (i / 64 * 64 + 64 <=? limit)) eqn:Q; cbn [rbind]; [|by apply scan_page].
  assert (R0 : run = 0) by lia. rewrite R0 in Ps. destruct (word_at_ok (bitmap st) (i / 64) ltac:(lia) ltac:(lia)) as (w & -> & Hw & Tw). cbn [rbind].
  destruct (free_bits_ok w (i mod 64) Hw ltac:(lia)) as [Hx Tx]. set (x := Z.land _ _) in *. cbv zeta in Tx. assert (U : forall p, i <= p < i / 64 * 64 + 64 -> Z.testbit x (p - i / 64 * 64) = false -> bit (bitmap st) p = true).
  { intros p Hp. rewrite Tx by lia. rewrite Tw by lia. replace (i / 64 * 64 + (p - i / 64 * 64)) with p by lia. destruct (bit (bitmap st) p); [done|]. lia. }
  clearbody x. rewrite R0. assert (C : x = 0 \/ x <> 0) by lia. destruct C as [->|Nx].
  - apply IH'; [|lia|lia]. apply (passed_used _ _ i 0); [done|lia|]. intros p Hp. apply U; [lia|apply Z.bits_0].
  - destruct (ctz_ok 64 x Hx Nx) as (Hc & T & L). set (i2 := i / 64 * 64 + ctz 64 x). assert (i <= i2). { destruct (Z.lt_ge_cases i2 i); [|done]. rewrite Tx in T by lia. subst i2. lia. }
    assert (Ps2 : passed st lo i2 0 n). { destruct (decide (i2 = i)) as [->|]; [done|]. apply (passed_used _ _ i 0); [done|lia|]. intros p Hp. apply U; [subst i2; lia|]. apply L. subst i2. lia. }
    assert (Eq : forall A (a b : A), match x with 0 => a | _ => b end = b) by (by destruct x). rewrite Eq.
    apply (scan_page fuel i2 0 run_start Ps2); [subst i2; lia|done|]. intros i' run' rs' Ps' Hi' Hs'. apply IH'; [done|lia|done].
Qed.
End Scan.

Definition scan_start (st : pmm) : Z := if frame_count st <=? g_scan_cursor st then 0 else g_scan_cursor st.
Lemma scan_start_range st : shape st -> 0 <= scan_start st <= frame_count st.
Proof. intros S. pose proof (s_cursor _ S). pose proof (s_count _ S). unfold scan_start. destruct (Z.leb_spec (frame_count st) (g_scan_cursor st)); lia. Qed.
Lemma no_run_short st n lo hi : hi - lo < n -> no_run st lo hi n.
Proof. intros Hn r H1 H2. lia. Qed.
(** A failed scan changes no more than the cursor.  A scan from the start has
    seen every run, and the next one is from the start. *)
Record failed (st : pmm) (n : Z) (st' : pmm) : Prop := {
  fl_state : exists c, 0 <= c /\ st' = set_cursor c st;
  fl_none : scan_start st = 0 \/ n = 1 -> no_run st 0 (frame_count st) n;
  fl_next : scan_start st' = 0 \/ no_run st 0 (frame_count st) n }.
Definition answered (st : pmm) (n frame : Z) (st' : pmm) : Prop := frame = 0 /\ failed st n st' \/ exists r, frame = fr r /\ granted st st' r n.
Lemma set_cursor_same st : set_cursor (g_scan_cursor st) st = st.
Proof. by destruct st. Qed.
Lemma failed_none st n : shape st -> no_run st 0 (frame_count st) n -> failed st n st.
Proof. intros S No. constructor; [|done|by right]. exists (g_scan_cursor st). split; [apply S|]. by rewrite set_cursor_same. Qed.
Lemma bitmap_scan_alloc_ok st B n : pool st B -> buddy_ready st = true -> no_pt st -> 0 < n -> exists frame st', bitmap_scan_alloc n st = Ok (frame, st') /\ answered st n frame st'.
Proof.
  intros P Rd Np Hn. pose proof (pool_shape _ _ P) as S. unfold bitmap_scan_alloc. rewrite (proj2 (Z.eqb_neq n 0)) by lia. cbn [orb]. destruct (Z.ltb_spec (frame_count st) n).
  { eexists _, _. split; [done|]. left. split; [done|]. apply failed_none; [done|]. apply no_run_short. lia. }
  pose proof (scan_start_range st S) as Hs. change (if frame_count st <=? g_scan_cursor st then 0 else g_scan_cursor st) with (scan_start st). set (s := scan_start st) in *. unfold bitmap_scan_window.
  destruct (scan_loop_ok st B s (frame_count st) n P Rd Np Hn ltac:(lia) ltac:(lia) (Datatypes.S (Z.to_nat (frame_count st - s))) s 0 0) as (frame & st1 & -> & [(-> & -> & No1)|(r & -> & _ & _ & G)]); [by apply passed_start|lia|done|lia|..]; cbn [rbind].
  2: { pose proof (g_range _ _ _ _ G). rewrite (proj2 (Z.eqb_neq (fr r) 0)) by (unfold fr, PAGE_SIZE; lia). cbn. eexists _, _. split; [done|]. right. by exists r. }
  cbn [negb Z.eqb]. destruct (Z.eqb_spec s 0) as [Z0|N0].
  { eexists _, _. split; [done|]. left. split; [done|]. apply failed_none; [done|]. by rewrite <- Z0. }
  destruct (scan_loop_ok st B 0 s n P Rd Np Hn ltac:(lia) ltac:(lia) (Datatypes.S (Z.to_nat (s - 0))) 0 0 0) as (frame & st1 & -> & [(-> & -> & No2)|(r & -> & _ & _ & G)]); [by apply passed_start|lia|done|lia|..]; cbn [rbind].
  - cbn. eexists _, _. split; [done|]. left. split; [done|]. constructor; [by exists 0| |].
    + intros [?| -> ]; [done|]. intros r Hr He. destruct (Z.lt_ge_cases r s); [apply No2|apply No1]; lia.
    + left. unfold scan_start. cbn. by destruct (_ <=? _).
  - pose proof (g_range _ _ _ _ G). rewrite (proj2 (Z.eqb_neq (fr r) 0)) by (unfold fr, PAGE_SIZE; lia). eexists _, _. split; [done|]. right. by exists r.
Qed.
Lemma scan_rest_ok st B n : pool st B -> buddy_ready st = true -> no_pt st -> 0 < n -> exists frame st', scan_rest n st = Ok (frame, st') /\ answered st n frame st'.
Proof.
  intros P Rd Np Hn. unfold scan_rest. destruct (Z.ltb_spec 0 (free_frames st)) as [|Hf]; [by eapply bitmap_scan_alloc_ok|]. eexists _, _. split; [done|]. left. split; [done|]. pose proof (pool_shape _ _ P) as S. apply failed_none; [done|].
  intros r Hr He. exists r. split; [lia|]. destruct (bit (bitmap st) r) eqn:E; [done|]. exfalso. rewrite (po_free _ _ P) in Hf. pose proof (nwhere_pos (freeb st) (frame_count st) r ltac:(lia)) as X. unfold freeb in X at 1. rewrite E in X. specialize (X eq_refl). lia.
Qed.
(** Frames below an address. *)
Lemma below_loop_ok st B limit n : pool st B -> buddy_ready st = true -> no_pt st -> 0 < n -> limit <= frame_count st -> forall fuel i run run_start, passed st 0 i run n -> i <= limit -> (run <> 0 -> run_start = i - run) ->
  limit - i < Z.of_nat fuel -> exists frame st', below_loop fuel i limit n run run_start st = Ok (frame, st') /\ scanned st 0 limit n frame st'.
Proof.
  intros P Rd Np Hn Hl. pose proof (pool_shape _ _ P) as S. pose proof (s_count _ S). induction fuel as [|fuel IH]; intros i run run_start Ps Hi Hs Hf; [lia|]. cbn [below_loop].
  pose proof (ps_run _ _ _ _ _ Ps). pose proof (ps_lo _ _ _ _ _ Ps). destruct (Z.leb_spec limit i); [eexists _, _; split; [done|]; left; split_and!; [done|done|by eapply passed_end]|]. rewrite bitmap_get_ok by (done || lia). cbn [rbind].
  destruct (bit (bitmap st) i) eqn:Bi; [apply IH; [|lia|lia|lia]; apply (passed_used _ _ i run); [done|lia|]; intros p Hp; by replace p with i by lia|]. cbv zeta.
  assert ((if run =? 0 then i else run_start) = i - run) as -> by (destruct (Z.eqb_spec run 0); [lia|by apply Hs]). destruct (Z.leb_spec n (run + 1)); [|apply IH; [by apply passed_free|lia|lia|lia]].
  destruct (take_run_ok st B (i - run) n P Rd Np Hn) as (st' & -> & G); [lia|lia| |].
  - intros j Hj. destruct (decide (j = i)) as [->|]; [done|]. apply (ps_free _ _ _ _ _ Ps). lia.
  - eexists _, _. split; [done|]. right. exists (i - run). split_and!; [done|lia|lia|done].
Qed.
Lemma alloc_frames_below_ok st B n limit : pool st B -> buddy_ready st = true -> no_pt st -> 0 < n -> PAGE_SIZE <= limit < 2 ^ 64 - 1 ->
  exists frame st', pmm_alloc_frames_below n limit st = Ok (frame, st') /\ scanned st 0 (Z.min ((limit + 1) / PAGE_SIZE) (frame_count st)) n frame st'.
Proof.
  intros P Rd Np Hn Hl. pose proof (pool_shape _ _ P) as S. pose proof (s_count _ S). unfold pmm_alloc_frames_below. rewrite (proj2 (Z.eqb_neq n 0)), (proj2 (Z.ltb_ge limit PAGE_SIZE)) by lia. cbn [orb]. rewrite u64_small by (unfold PAGE_SIZE in *; lia). cbv zeta.
  set (cap := (limit + 1) / PAGE_SIZE). assert (0 <= cap) by (apply Z.div_pos; unfold PAGE_SIZE in *; lia). assert ((if cap <? frame_count st then cap else frame_count st) = Z.min cap (frame_count st)) as -> by (destruct (Z.ltb_spec cap (frame_count st)); lia).
  eapply below_loop_ok; [done|done|done|done|lia|by apply passed_start|lia|done|lia].
Qed.

(** ** A round of an allocation *)

Lemma gave_none st i : gave st st i 0.
Proof. constructor; [apply kept_refl| | |done]; intros j Hj; unfold within; destruct (Z.leb_spec i j), (Z.ltb_spec j (i + 0)); cbn; rewrite ?andb_true_r; done || lia. Qed.
Lemma kept_count st st' : kept st st' -> frame_count st' = frame_count st.
Proof. intros (E & _)%kept_iff. unfold frame_count. by rewrite E. Qed.
Lemma gave_trans st1 st2 st3 i n m : 0 <= n -> 0 <= m -> gave st1 st2 i n -> gave st2 st3 (i + n) m -> gave st1 st3 i (n + m).
Proof.
  intros Hn Hm [K1 B1 R1 M1] [K2 B2 R2 M2]. constructor; [by eapply kept_trans|..].
  - intros j Hj. rewrite B2, B1 by done. destruct (bit (bitmap st1) j); cbn [andb]; [|done]. unfold within. lia.
  - intros j Hj. rewrite R2, R1 by done. unfold within. destruct (Z.leb_spec (i + n) j), (Z.ltb_spec j (i + n + m)), (Z.leb_spec i j), (Z.ltb_spec j (i + n)), (Z.ltb_spec j (i + (n + m))); cbn [andb]; done || lia.
  - intros j o Ho Nf. rewrite M2 by done. apply M1; [done|]. intros [Hj Fj]. apply Nf. split; [by rewrite (kept_count _ _ K2)|]. rewrite B2, Fj by lia. done.
Qed.
Lemma trim_loop_ok i m : forall st B e, pool st B -> 0 < i -> 0 <= e -> i + e + Z.of_nat m <= frame_count st -> (forall j, i + e <= j < i + e + Z.of_nat m -> bit (bitmap st) j = true) ->
  exists st' B', trim_loop m (fr i) e st = Ok st' /\ gave st st' (i + e) (Z.of_nat m) /\ pool st' B'.
Proof.
  induction m as [|m IH]; intros st B e P Hi He Hn U; cbn [trim_loop]; [exists st, B; split_and!; [done|apply gave_none|done]|].
  destruct (unclaim_ok st B (i + e) 0 P ltac:(lia) ltac:(lia)) as (st1 & C & M & T & Ef); [lia|intros j Hj; apply U; lia|].
  change (Z.to_nat (2 ^ 0)) with 1%nat in C. cbn [clear_pages] in C. apply rbind_inv in C as (sa & Ca & C). apply rbind_inv in C as (sb & Cb & C). injection C as ->.
  rewrite fr_index, Ca. cbn [rbind]. rewrite Cb. cbn [rbind]. replace (fr i + e * PAGE_SIZE) with (fr (i + e)) by (unfold fr; lia).
  destruct (unclaim_put_ok st st1 B (i + e) 0 P ltac:(lia) (Z.divide_1_l _) M T Ef) as (st2 & B2 & X & G & P2). change (2 ^ 0) with 1 in X, G. rewrite X. cbn [rbind].
  destruct (IH st2 B2 (e + 1) P2 Hi ltac:(lia)) as (st' & B' & -> & G' & P'); [rewrite (kept_count _ _ (gv_kept _ _ _ _ G)); lia| |].
  - intros j Hj. rewrite (gv_bits _ _ _ _ G), U by lia. unfold within. lia.
  - exists st', B'. split_and!; [done| |done]. rewrite Nat2Z.inj_succ. unfold Z.succ. replace (Z.of_nat m + 1) with (1 + Z.of_nat m) by lia. apply (gave_trans st st2); [lia|lia|done|]. by rewrite <- Z.add_assoc.
Qed.
(** Pages taken, and the last of them given back. *)
Lemma took_gave st B st1 st' i n m : pool st B -> 0 < i -> 0 <= n <= m -> took st st1 i m -> gave st1 st' (i + n) (m - n) -> took st st' i n.
Proof.
  intros P Hi Hn [K1 W1 B1 R1 M1] [K2 B2 R2 M2]. constructor; [by eapply kept_trans|intros j Hj; apply W1; lia|..].
  - intros j Hj. rewrite B2, B1 by done. unfold within. destruct (decide (i + n <= j < i + m)) as [Hw|]; [|lia]. destruct (W1 j ltac:(lia)) as [_ ->]. lia.
  - intros j Hj. rewrite R2, R1 by done. unfold within. destruct (decide (i + n <= j < i + m)) as [Hw|]; [rewrite (po_refs _ _ P) by (apply W1; lia)|];
      destruct (Z.leb_spec (i + n) j), (Z.ltb_spec j (i + n + (m - n))), (Z.leb_spec i j), (Z.ltb_spec j (i + n)), (Z.ltb_spec j (i + m)); cbn [andb]; done || lia.
  - intros j o Ho Nf. rewrite M2; [by apply M1|done|]. intros [Hj Fj]. apply Nf. rewrite B2, B1 in Fj by lia. rewrite (kept_count _ _ K2), (kept_count _ _ K1) in Hj.
    destruct (within i m j) eqn:Wj; [apply W1; by apply within_in|]. split; [done|]. rewrite orb_false_r in Fj. destruct (bit (bitmap st) j); [|done]. unfold within in *. lia.
Qed.
Lemma cover_order_ok fuel n : forall k, 0 <= k -> n <= 2 ^ (k + Z.of_nat fuel) -> (k = 0 \/ 2 ^ (k - 1) < n) -> let o := cover_order fuel k n in k <= o /\ n <= 2 ^ o /\ (o = 0 \/ 2 ^ (o - 1) < n).
Proof.
  induction fuel as [|fuel IH]; intros k Hk Hn Lo; cbn [cover_order]; cbv zeta; [rewrite Z.add_0_r in Hn; done|]. rewrite Z.shiftl_1_l. destruct (Z.ltb_spec (2 ^ k) n); [|done].
  destruct (IH (k + 1)) as (H1 & H2 & H3); [lia|by replace (k + 1 + Z.of_nat fuel) with (k + Z.of_nat (S fuel)) by lia|right; by replace (k + 1 - 1) with k by lia|]. split; [lia|done].
Qed.
Lemma buddy_alloc_large order here st : 18 < order -> buddy_alloc order here st = Ok (0, st).
Proof.
  intros Ho. assert (N : forall node, buddy_alloc_node order node st = Ok (0, st)). { intros node. unfold buddy_alloc_node. by rewrite (proj2 (Z.ltb_lt BUDDY_MAX_ORDER order)), orb_true_r by done. }
  unfold buddy_alloc, buddy_alloc_pref. destruct (pmm_nodes st <=? 1); [done|]. induction (numa_node_order _ _) as [|x l IH]; [done|]. cbn [alloc_nodes]. rewrite N. cbn [rbind]. exact IH.
Qed.
Lemma buddy_alloc_ok st B order here : pool st B -> topo_ok st -> 0 <= order -> 0 <= here < 8 ->
  exists frame st', buddy_alloc order here st = Ok (frame, st') /\ served st (2 ^ order) True (fun _ => True) frame st'.
Proof.
  intros P T Ho Hh. destruct (Z.lt_ge_cases 18 order); [eexists _, _; split; [by apply buddy_alloc_large|by left]|].
  destruct (buddy_alloc_pref_ok st B order (- 1) false here P T ltac:(lia) Hh) as (frame & st' & E & Sv). exists frame, st'. split; [exact E|]. by eapply served_weaken; [| |exact Sv].
Qed.
(** A block taken is handed out. *)
Lemma handout_ok st st' B i n : no_pt st -> took st st' i n -> 0 < n -> 0 < i -> pool st' B -> pmm_check_handout (fr i) st' = Ok st' /\ granted st (fill (fr i) n 0 st') i n.
Proof.
  intros Np T Hn Hi P. pose proof (tk_was _ _ _ _ T) as W. destruct (W i ltac:(lia)) as [? _]. destruct (W (i + n - 1) ltac:(lia)) as [? _]. pose proof (kept_count _ _ (tk_kept _ _ _ _ T)) as Fc. split; [|eapply granted_fill; [done|done|lia|done]].
  apply check_handout_ok; [by eapply pool_shape|lia|]. destruct (proj1 (kept_iff _ _) (tk_kept _ _ _ _ T)) as (_ & _ & _ & _ & -> & _). apply Np, W. lia.
Qed.
Lemma alloc_round_ok st B n here : pool st B -> buddy_ready st = true -> no_pt st -> topo_ok st -> 0 <= here < 8 -> 0 < n < 2 ^ 63 -> exists frame st', alloc_round n here st = Ok (frame, st') /\ answered st n frame st'.
Proof.
  intros P Rd Np Tp Hh Hn. unfold alloc_round. rewrite Rd, andb_true_r. destruct (Z.eqb_spec n 1) as [->|N1].
  - destruct (buddy_alloc_ok st B 0 here P Tp ltac:(lia) Hh) as (frame & st1 & -> & [(-> & -> & _)|(i & B' & -> & Hi & _ & _ & Tk & P')]); cbn [rbind].
    + cbn [negb Z.eqb]. eapply scan_rest_ok; [done|done|done|lia].
    + rewrite (proj2 (Z.eqb_neq (fr i) 0)) by (unfold fr, PAGE_SIZE; lia). cbn [negb]. destruct (handout_ok st st1 B' i 1 Np Tk ltac:(lia) Hi P') as [-> G]. cbn [rbind]. eexists _, _. split; [done|]. right. by exists i.
  - rewrite (proj2 (Z.ltb_lt 1 n)) by lia. destruct (cover_order_ok 64 n 0) as (Ho & Hc & _); [done|cbn; lia|by left|]. set (o := cover_order 64 0 n) in *.
    destruct (buddy_alloc_ok st B o here P Tp ltac:(lia) Hh) as (frame & st1 & -> & [(-> & -> & _)|(i & B' & -> & Hi & _ & _ & Tk & P')]); cbn [rbind].
    + cbn [negb Z.eqb]. eapply scan_rest_ok; [done|done|done|lia].
    + rewrite (proj2 (Z.eqb_neq (fr i) 0)) by (unfold fr, PAGE_SIZE; lia). cbn [negb]. rewrite Z.shiftl_1_l. pose proof (tk_was _ _ _ _ Tk) as W. destruct (W (i + 2 ^ o - 1) ltac:(lia)) as [? _].
      destruct (trim_loop_ok i (Z.to_nat (2 ^ o - n)) st1 B' n P' Hi ltac:(lia)) as (st2 & B2 & -> & G & P2); [rewrite (kept_count _ _ (tk_kept _ _ _ _ Tk)); lia| |].
      { intros j Hj. rewrite (tk_bits _ _ _ _ Tk), (proj2 (within_in _ _ _)) by lia. by rewrite orb_true_r. }
      rewrite Z2Nat.id in G by lia. cbn [rbind]. assert (Tk2 : took st st2 i n) by (apply (took_gave st B st1 st2 i n (2 ^ o) P); [done|lia|done|done]).
      destruct (handout_ok st st2 B2 i n Np Tk2 ltac:(lia) Hi P2) as [-> Gr]. cbn [rbind]. eexists _, _. split; [done|]. right. by exists i.
Qed.
End PmmScan.
