(* ===== verification/PmmCache.v ===== *)
(** The caches of each CPU over the pool of [Pmm]: the plain bucket, the bucket of
    zero pages and the quarantine as lists of pages, who holds every page, and what
    moves a page from one to the other. *)
From Stdlib Require Import ZifyBool.
From S2P Require Import Prelude Pmm PmmTree PmmAlloc PmmSeed PmmScan.
From stdpp Require Import list gmap.
Local Open Scope Z_scope.
Local Open Scope kernel_scope.

Module PmmCache.
Import Pmm PmmTree PmmAlloc PmmSeed PmmScan.

(** ** Buckets *)

Record cache := mkCache { plain : list Z; zeroes : list Z; quar : list Z }.
Definition pages_of (g : cache) : list Z := plain g ++ zeroes g ++ quar g.
Definition all_pages (G : list cache) : list Z := concat (pages_of <$> G).
Definition plains (G : list cache) : list Z := concat (plain <$> G).
(** Pages linked by their first word. *)
Fixpoint chain (m : Z -> Z) (h : Z) (l : list Z) : Prop := match l with [] => h = 0 | x :: l => h = fr x /\ chain m (m (fr x)) l end.
Definition zero_page (m : Z -> Z) (x : Z) : Prop := m (fr x + PMM_ZERO_MAGIC_OFF) = PMM_ZERO_MAGIC /\ forall o, 0 < o < 4096 -> o <> PMM_ZERO_MAGIC_OFF -> m (fr x + o) = 0.
Definition tail_of (l : list Z) : Z := match last l with Some x => fr x | None => 0 end.
Record bucket_ok (m : Z -> Z) (p : pmm_pcp) (g : cache) : Prop := {
  bk_plain : chain m (head p) (plain g); bk_count : count p = Z.of_nat (length (plain g)); bk_max : count p <= PMM_PCP_LIMIT;
  bk_zero : chain m (zero_head p) (zeroes g); bk_zcount : zero_count p = Z.of_nat (length (zeroes g)); bk_zmax : zero_count p <= PMM_PCP_ZERO_LIMIT;
  bk_zeroes : Forall (zero_page m) (zeroes g);
  bk_quar : chain m (q_head p) (quar g); bk_tail : q_tail p = tail_of (quar g); bk_qcount : q_count p = Z.of_nat (length (quar g)); bk_qmax : q_count p <= PMM_PCP_Q_LIMIT + 1;
  bk_canary : Forall (fun x => m (fr x + PMM_POISON_CANARY_OFF) = PMM_POISON_CANARY) (quar g) }.
(** Memory agrees on the pages. *)
Definition same_on (m m' : Z -> Z) (l : list Z) : Prop := forall x o, x ∈ l -> 0 <= o < 4096 -> m' (fr x + o) = m (fr x + o).
Lemma same_sub m m' l l' : same_on m m' l -> l' ⊆ l -> same_on m m' l'.
Proof. intros E Sub x o Hx. apply E. by apply Sub. Qed.
Lemma chain_ext m m' l : forall h, same_on m m' l -> chain m h l -> chain m' h l.
Proof.
  induction l as [|x l IH]; intros h E; [done|]. intros [-> C]. split; [done|]. pose proof (E x 0 ltac:(left) ltac:(lia)) as X. rewrite Z.add_0_r in X. rewrite X. apply IH; [|done]. intros y o Hy. apply E. by right.
Qed.
Lemma zero_page_ext m m' x : same_on m m' [x] -> zero_page m x -> zero_page m' x.
Proof.
  intros E [M Z0]. pose proof (fun o => E x o ltac:(left)) as X. split; [rewrite X; [done|unfold PMM_ZERO_MAGIC_OFF; lia]|]. intros o Ho No. rewrite X by lia. by apply Z0.
Qed.
Lemma forall_ext {A} (P Q : A -> Prop) l : Forall P l -> (forall x, x ∈ l -> P x -> Q x) -> Forall Q l.
Proof. intros F I. apply Forall_forall. intros x Hx. apply I; [done|]. by eapply (proj1 (Forall_forall _ _) F). Qed.
Lemma plain_sub g : plain g ⊆ pages_of g.
Proof. intros x Hx. unfold pages_of. rewrite !elem_of_app. tauto. Qed.
Lemma zeroes_sub g : zeroes g ⊆ pages_of g.
Proof. intros x Hx. unfold pages_of. rewrite !elem_of_app. tauto. Qed.
Lemma quar_sub g : quar g ⊆ pages_of g.
Proof. intros x Hx. unfold pages_of. rewrite !elem_of_app. tauto. Qed.
Lemma bucket_ext m m' p g : same_on m m' (pages_of g) -> bucket_ok m p g -> bucket_ok m' p g.
Proof.
  intros E []. pose proof (same_sub _ _ _ _ E (plain_sub g)) as E1. pose proof (same_sub _ _ _ _ E (zeroes_sub g)) as E2. pose proof (same_sub _ _ _ _ E (quar_sub g)) as E3. constructor; try done; try (by eapply chain_ext).
  - eapply forall_ext; [done|]. intros x Hx. apply zero_page_ext. intros y o ->%list_elem_of_singleton. by apply E2.
  - eapply forall_ext; [done|]. intros x Hx <-. by apply E3.
Qed.
Lemma concat_at {A} (f : A -> list Z) G c g : G !! c = Some g -> exists rest, concat (f <$> G) ≡ₚ f g ++ rest /\ forall g', concat (f <$> (<[c := g']> G)) ≡ₚ f g' ++ rest.
Proof.
  intros Hc. exists (concat (f <$> take c G) ++ concat (f <$> drop (S c) G)). assert (L := lookup_lt_Some _ _ _ Hc). assert (Sw : forall a b d : list Z, a ++ b ++ d ≡ₚ b ++ a ++ d) by (intros; rewrite !(assoc_L (++)), (Permutation_app_comm b a); done). split.
  - rewrite <- (take_drop_middle G c g Hc) at 1. rewrite fmap_app, fmap_cons, concat_app. cbn [concat]. apply Sw.
  - intros g'. rewrite insert_take_drop by done. rewrite fmap_app, fmap_cons, concat_app. cbn [concat]. apply Sw.
Qed.
Lemma in_all G c g x : G !! c = Some g -> x ∈ pages_of g -> x ∈ all_pages G.
Proof. intros Hc Hx. destruct (concat_at pages_of G c g Hc) as (rest & E & _). unfold all_pages. rewrite E. apply elem_of_app. by left. Qed.
Lemma others_rest {A} (f : A -> list Z) e G c c' k (rest : list Z) : f e = [] -> (c < length G)%nat -> concat (f <$> (<[c := e]> G)) ≡ₚ f e ++ rest -> c' <> c -> G !! c' = Some k -> f k ⊆ rest.
Proof.
  intros Fe L E Nc Hk x Hx. rewrite Fe in E. cbn [app] in E. rewrite <- E. destruct (concat_at f (<[c := e]> G) c' k) as (r & -> & _); [by rewrite list_lookup_insert_ne|]. apply elem_of_app. by left.
Qed.
Lemma plains_sub G : plains G ⊆ all_pages G.
Proof.
  induction G as [|g G IH]; [done|]. intros x. unfold plains, all_pages. rewrite !fmap_cons. cbn [concat]. rewrite !elem_of_app. intros [Hx|Hx]; [left; by apply plain_sub|right; by apply IH].
Qed.

(** ** Who has a page *)

(** [T] are the pages on their way to a bucket, and [H] says how many references
    the owners of a page have. *)
Record sound (st : pmm) (B : gmap Z Z) (G : list cache) (T : list Z) (H : Z -> Z) : Prop := {
  so_pool : pool st B;
  so_ready : buddy_ready st = true;
  so_topo : topo_ok st;
  so_cpus : length (pcps st) = Z.to_nat MAX_CPUS /\ length G = Z.to_nat MAX_CPUS;
  so_buckets : forall c p g, pcps st !! c = Some p -> G !! c = Some g -> bucket_ok (mem st) p g;
  so_nodup : NoDup (all_pages G ++ T);
  so_used : forall x, x ∈ all_pages G ++ T -> 0 < x < frame_count st /\ bit (bitmap st) x = true /\ H x = 0;
  so_refs : forall x, 0 <= x < frame_count st -> refc st x = H x + Z.b2z (bool_decide (x ∈ plains G));
  so_held : forall x, H x <> 0 -> 0 < H x /\ 0 < x < frame_count st /\ bit (bitmap st) x = true;
  so_pt : forall x, 0 <= x < frame_count st -> bit (pt_frames st) x = true -> H x <> 0 }.
Lemma sound_perm st B G T T' H : T ≡ₚ T' -> sound st B G T H -> sound st B G T' H.
Proof. intros E []. constructor; try done; [by rewrite <- E|]. intros x. rewrite <- E. apply so_used0. Qed.
Lemma held_free st B G T H x : sound st B G T H -> free_page st x -> H x = 0 /\ x ∉ all_pages G ++ T.
Proof.
  intros S [Hx Fx]. split.
  - destruct (decide (H x = 0)) as [|N]; [done|]. destruct (so_held _ _ _ _ _ S x N) as (_ & _ & U). congruence.
  - intros M. destruct (so_used _ _ _ _ _ S x M) as (_ & U & _). congruence.
Qed.
Lemma sound_no_pt st B G T H : sound st B G T H -> no_pt st.
Proof.
  intros S x Fx. destruct (bit (pt_frames st) x) eqn:E; [|done]. exfalso. apply (so_pt _ _ _ _ _ S x); [apply Fx|done|]. by eapply held_free.
Qed.

(** ** Pages to and from the pool *)

Definition hold (x v : Z) (H : Z -> Z) : Z -> Z := fun y => if y =? x then v else H y.
Lemma kept_topo st st' : kept st st' -> topo_ok st -> topo_ok st'.
Proof. intros (_ & _ & _ & E1 & _ & E2 & _)%kept_iff. unfold topo_ok. by rewrite E1, E2. Qed.
Lemma not_plain G x : x ∉ all_pages G -> bool_decide (x ∈ plains G) = false.
Proof. intros N. apply bool_decide_eq_false_2. intros X. by apply N, plains_sub. Qed.
Lemma sound_took st B B' G T H st' i n : sound st B G T H -> took st st' i n -> pool st' B' -> 0 < i -> sound st' B' G T (fun x => if within i n x then 1 else H x).
Proof.
  intros S Tk P' Hi. pose proof (tk_kept _ _ _ _ Tk) as K. destruct (proj1 (kept_iff _ _) K) as (_ & _ & _ & _ & Ept & _ & Erd & _ & Epc). pose proof (kept_count _ _ K) as Fc.
  assert (W : forall x, within i n x = true -> free_page st x) by (intros x Hx%within_in; by apply (tk_was _ _ _ _ Tk)).
  assert (Nw : forall x, x ∈ all_pages G ++ T -> within i n x = false). { intros x Hx. destruct (within i n x) eqn:E; [|done]. by destruct (held_free _ _ _ _ _ x S (W x E)). }
  constructor; try done; rewrite ?Ept, ?Erd, ?Epc, ?Fc; try apply S.
  - by apply (kept_topo st), S.
  - intros c p g Hp Hg. eapply bucket_ext; [|by eapply (so_buckets _ _ _ _ _ S)]. intros x o Hx Ho. apply (tk_mem _ _ _ _ Tk); [done|]. intros Fx. destruct (held_free _ _ _ _ _ x S Fx) as [_ N]. apply N, elem_of_app. left. by eapply in_all.
  - intros x Hx. rewrite (Nw x Hx). destruct (so_used _ _ _ _ _ S x Hx) as (? & U & ?). split_and!; [lia..| |done]. by rewrite (tk_bits _ _ _ _ Tk), U by lia.
  - intros x Hx. rewrite (tk_refs _ _ _ _ Tk), (so_refs _ _ _ _ _ S) by lia. destruct (within i n x) eqn:E; [|done]. rewrite not_plain; [done|]. intros X. destruct (held_free _ _ _ _ _ x S (W x E)) as [_ N]. apply N, elem_of_app. by left.
  - intros x. destruct (within i n x) eqn:E.
    + intros _. destruct (W x E) as [? _]. apply within_in in E as E'. split; [lia|]. split; [lia|]. rewrite (tk_bits _ _ _ _ Tk), E by lia. by rewrite orb_true_r.
    + intros N. destruct (so_held _ _ _ _ _ S x N) as (? & ? & U). split_and!; [done|lia..|]. by rewrite (tk_bits _ _ _ _ Tk), U by lia.
  - intros x Hx Px. destruct (within i n x); [done|]. by apply (so_pt _ _ _ _ _ S).
Qed.
(** A page on its way, or held once, goes back. *)
Lemma sound_gave st B B' G T T' H st' x : sound st B G T H -> gave st st' x 1 -> pool st' B' -> bit (pt_frames st) x = false -> x ∉ all_pages G -> NoDup T' -> (forall y, y ∈ T' -> y ∈ T /\ y <> x) ->
  sound st' B' G T' (hold x 0 H).
Proof.
  intros S Gv P' Np Nx Nd Sub. pose proof (gv_kept _ _ _ _ Gv) as K. destruct (proj1 (kept_iff _ _) K) as (_ & _ & _ & _ & Ept & _ & Erd & _ & Epc). pose proof (kept_count _ _ K) as Fc.
  assert (W : forall y, within x 1 y = (y =? x)) by (intros y; unfold within; lia). assert (Ne : forall y, y ∈ all_pages G ++ T' -> y <> x /\ y ∈ all_pages G ++ T).
  { intros y. rewrite !elem_of_app. intros [Hy|Hy]; [split; [by intros ->|by left]|]. destruct (Sub y Hy). split; [done|by right]. }
  assert (Us : forall y, y <> x -> 0 <= y -> bit (bitmap st) y = true -> bit (bitmap st') y = true). { intros y Ny Hy U. rewrite (gv_bits _ _ _ _ Gv), W, U by done. by rewrite (proj2 (Z.eqb_neq y x)). }
  unfold hold. constructor; try done; rewrite ?Ept, ?Erd, ?Epc, ?Fc; try apply S.
  - by apply (kept_topo st), S.
  - intros c p g Hp Hg. eapply bucket_ext; [|by eapply (so_buckets _ _ _ _ _ S)]. intros y o Hy Ho. apply (gv_mem _ _ _ _ Gv); [done|]. assert (M : y ∈ all_pages G ++ T') by (apply elem_of_app; left; by eapply in_all).
    destruct (Ne y M) as [Ny M']. destruct (so_used _ _ _ _ _ S y M') as (? & U & _). intros [_ F]. rewrite Us in F by (done || lia). done.
  - pose proof (so_nodup _ _ _ _ _ S) as [N1 [N2 N3]]%NoDup_app. apply NoDup_app. split_and!; [done| |done]. intros y Hy Hy'. destruct (Sub y Hy'). by apply (N2 y Hy).
  - intros y Hy. destruct (Ne y Hy) as [Ny M]. destruct (so_used _ _ _ _ _ S y M) as (? & U & ?). rewrite (proj2 (Z.eqb_neq y x)) by done. split_and!; [lia..| |done]. apply Us; [done|lia|done].
  - intros y Hy. rewrite (gv_refs _ _ _ _ Gv), W by lia. destruct (Z.eqb_spec y x) as [->|]; [by rewrite not_plain|]. by apply (so_refs _ _ _ _ _ S).
  - intros y. destruct (Z.eqb_spec y x) as [->|Ny]; [done|]. intros N. destruct (so_held _ _ _ _ _ S y N) as (? & ? & U). split_and!; [done|lia..|]. apply Us; [done|lia|done].
  - intros y Hy Py. destruct (Z.eqb_spec y x) as [->|]; [congruence|]. by apply (so_pt _ _ _ _ _ S).
Qed.
(** Memory that is neither free nor in a bucket is written. *)
Lemma sound_write st B G T H m : sound st B G T H -> (forall x o, free_page st x \/ x ∈ all_pages G -> 0 <= o < 4096 -> m (fr x + o) = mem st (fr x + o)) -> sound (set_mem m st) B G T H.
Proof.
  intros S E. pose proof S as []. constructor; try done; [by apply pool_mem; [|intros; apply E; [by left|done]]|]. intros c p g Hp Hg. eapply bucket_ext; [|by eapply so_buckets0]. intros x o Hx Ho. apply E; [|done]. right. by eapply in_all.
Qed.

(** ** Pages to and from a bucket *)

Lemma pool_pcps st B l : pool st B -> pool (set_pcps l st) B.
Proof. intros [[[[] I L Hd] T] F N R]. constructor; done. Qed.
(** The buckets of CPU [c] and memory change. *)
Definition rebucket (c : nat) (p : pmm_pcp) (m : Z -> Z) (st : pmm) : pmm := set_pcps (<[c := p]> (pcps st)) (set_mem m st).
Section Move.
Context (st : pmm) (B : gmap Z Z) (G : list cache) (T T' : list Z) (H H' : Z -> Z) (c : nat) (p p' : pmm_pcp) (g g' : cache) (m : Z -> Z).
Context (S : sound st B G T H) (Hp : pcps st !! c = Some p) (Hg : G !! c = Some g).
Context (Bk : bucket_ok m p' g') (Pm : NoDup (pages_of g' ++ T')) (Sub : forall x, x ∈ pages_of g' ++ T' -> x ∈ pages_of g ++ T \/ H x <> 0).
Context (Mem : forall x o, 0 <= o < 4096 -> x ∉ pages_of g ++ T -> H x = 0 -> m (fr x + o) = mem st (fr x + o)).
Context (Rf : forall x, H' x + Z.b2z (bool_decide (x ∈ plain g')) = H x + Z.b2z (bool_decide (x ∈ plain g))).
Context (Hz : forall x, x ∈ pages_of g' ++ T' -> H' x = 0) (Hh : forall x, H' x <> 0 -> H' x = H x \/ (x ∈ plain g /\ H' x = 1)).
Context (Hpt : forall x, bit (pt_frames st) x = true -> H x <> 0 -> H' x <> 0).
Lemma move_rest rest : all_pages G ≡ₚ pages_of g ++ rest -> NoDup rest /\ forall x, x ∈ rest -> (x ∉ pages_of g) /\ (x ∉ T) /\ H x = 0 /\ H' x = 0.
Proof.
  intros E. pose proof (so_nodup _ _ _ _ _ S) as N. rewrite E in N. apply NoDup_app in N as ([N1 [N2 N3]]%NoDup_app & N4 & _). split; [done|]. intros x Hx. assert (A : x ∉ pages_of g) by (intros X; by apply (N2 x X)).
  assert (Hx0 : H x = 0) by (apply (so_used _ _ _ _ _ S); rewrite E, !elem_of_app; tauto). split_and!; [done|apply N4; rewrite elem_of_app; tauto|done|].
  destruct (decide (H' x = 0)) as [|Nz]; [done|]. destruct (Hh x Nz) as [->|[X _]]; [done|]. by destruct A; apply plain_sub.
Qed.
Lemma move_used x : x ∈ pages_of g' ++ T' -> 0 < x < frame_count st /\ bit (bitmap st) x = true.
Proof.
  intros Hx. destruct (Sub x Hx) as [M|N]; [|by destruct (so_held _ _ _ _ _ S x N) as (_ & ? & ?)]. destruct (so_used _ _ _ _ _ S x) as (? & ? & _); [|done]. apply elem_of_app in M as [M|M]; apply elem_of_app; [left; by eapply in_all|by right].
Qed.
Lemma sound_move : sound (rebucket c p' m st) B (<[c := g']> G) T' H'.
Proof.
  destruct (concat_at pages_of G c g Hg) as (rest & E & E'). destruct (move_rest rest E) as [Nr Dr]. destruct (concat_at plain G c g Hg) as (prest & F & F'). pose proof S as [].
  assert (Dj : forall x, x ∈ pages_of g' ++ T' -> x ∉ rest). { intros x Hx Hr. destruct (Dr x Hr) as (N1 & N2 & N3 & _). destruct (Sub x Hx) as [M|?]; [|done]. apply elem_of_app in M as [?|?]; done. }
  pose proof Pm as [Pm1 [Pm2 Pm3]]%NoDup_app. constructor; try done.
  - apply (pool_mem st B m) in so_pool0; [by apply pool_pcps|]. intros x o Fx Ho. destruct (held_free _ _ _ _ _ x S Fx) as [H0 N]. apply Mem; [done| |done]. intros M. apply N. apply elem_of_app in M as [M|M]; apply elem_of_app; [left; by eapply in_all|by right].
  - cbn. by rewrite !length_insert.
  - cbn. intros c' q k Hq Hk. destruct (decide (c' = c)) as [->|Nc].
    + rewrite list_lookup_insert_eq in Hq by (by eapply lookup_lt_Some). rewrite list_lookup_insert_eq in Hk by (by eapply lookup_lt_Some). by simplify_eq.
    + rewrite list_lookup_insert_ne in Hq by done. rewrite list_lookup_insert_ne in Hk by done. eapply bucket_ext; [|by eapply so_buckets0]. intros x o Hx Ho. assert (Xr : x ∈ rest). { exact (others_rest pages_of (mkCache [] [] []) G c c' k rest eq_refl (lookup_lt_Some _ _ _ Hg) (E' _) Nc Hk x Hx). }
      destruct (Dr x Xr) as (N1 & N2 & N3 & _). apply Mem; [done| |done]. rewrite elem_of_app. tauto.
  - change (NoDup (concat (pages_of <$> (<[c := g']> G)) ++ T')). rewrite E', <- (assoc_L (++)), (Permutation_app_comm rest), (assoc_L (++)). apply NoDup_app. split_and!; [done|done|done].
  - intros x Hx. change (x ∈ concat (pages_of <$> (<[c := g']> G)) ++ T') in Hx. rewrite E', !elem_of_app in Hx. destruct (decide (x ∈ rest)) as [Hr|Nr'].
    + destruct (Dr x Hr) as (_ & _ & _ & ->). destruct (so_used0 x) as (? & ? & _); [|done]. change (x ∈ concat (pages_of <$> G) ++ T). rewrite E, !elem_of_app. tauto.
    + assert (M : x ∈ pages_of g' ++ T') by (rewrite elem_of_app; tauto). destruct (move_used x M) as [? ?]. split; [done|]. split; [done|by apply Hz].
  - intros x Hx. change (refc st x = H' x + Z.b2z (bool_decide (x ∈ concat (plain <$> (<[c := g']> G))))). rewrite so_refs0 by done. change (plains G) with (concat (plain <$> G)).
    assert (P0 : prest ⊆ rest). { intros y Hy. pose proof (plains_sub (<[c := mkCache [] [] []]> G) y) as Q. unfold plains, all_pages in Q. rewrite E', F' in Q. by apply Q. }
    destruct (decide (x ∈ prest)) as [Hr|Nr'].
    + destruct (Dr x (P0 x Hr)) as (_ & _ & -> & ->). do 2 f_equal. apply bool_decide_ext. rewrite F, F', !elem_of_app. tauto.
    + rewrite (bool_decide_ext (x ∈ concat (plain <$> G)) (x ∈ plain g)), (bool_decide_ext (x ∈ concat (plain <$> (<[c := g']> G))) (x ∈ plain g')) by (rewrite ?F, ?F', elem_of_app; tauto). by rewrite Rf.
  - intros x N. change (0 < H' x /\ 0 < x < frame_count st /\ bit (bitmap st) x = true). destruct (Hh x N) as [EH|[X E1]].
    + rewrite EH in *. by apply so_held0.
    + destruct (so_used0 x) as (? & ? & _); [apply elem_of_app; left; eapply in_all; [done|by apply plain_sub]|]. rewrite E1. done.
  - intros x Hx Px. apply Hpt; [done|]. by apply so_pt0.
Qed.
End Move.
Lemma nodup_at st B G T H c g : sound st B G T H -> G !! c = Some g -> NoDup (pages_of g ++ T).
Proof.
  intros S Hg. destruct (concat_at pages_of G c g Hg) as (rest & E & _). pose proof (so_nodup _ _ _ _ _ S) as N. unfold all_pages in N. rewrite E, <- (assoc_L (++)), (Permutation_app_comm rest), (assoc_L (++)) in N. by apply NoDup_app in N as (N & _).
Qed.
Lemma apart_at g T : NoDup (pages_of g ++ T) -> NoDup (plain g) /\ NoDup (zeroes g) /\ NoDup (quar g) /\ NoDup T /\
  forall x, (x ∈ plain g -> (x ∉ zeroes g) /\ (x ∉ quar g) /\ (x ∉ T)) /\ (x ∈ zeroes g -> (x ∉ quar g) /\ (x ∉ T)) /\ (x ∈ quar g -> x ∉ T).
Proof.
  unfold pages_of. intros ((N1 & N2 & (N3 & N4 & N5)%NoDup_app)%NoDup_app & N6 & N7)%NoDup_app. split_and!; [done..|]. intros x. pose proof (N2 x) as A2. pose proof (N4 x) as A4. pose proof (N6 x) as A6.
  rewrite !elem_of_app in *. tauto.
Qed.
(** Pages between the zero bucket, the quarantine and the pages on their way. *)
Lemma sound_shift st B G T T' H c p p' g g' m : sound st B G T H -> pcps st !! c = Some p -> G !! c = Some g -> bucket_ok m p' g' -> pages_of g' ++ T' ≡ₚ pages_of g ++ T -> plain g' = plain g ->
  (forall x o, 0 <= o < 4096 -> x ∉ pages_of g ++ T -> m (fr x + o) = mem st (fr x + o)) -> sound (rebucket c p' m st) B (<[c := g']> G) T' H.
Proof.
  intros S Hp Hg Bk Pm Ep Mem. destruct (concat_at pages_of G c g Hg) as (rest & E & _). pose proof (nodup_at _ _ _ _ _ _ _ S Hg) as N.
  apply (sound_move st B G T T' H H c p p' g g' m S Hp Hg Bk).
  - by rewrite Pm.
  - intros x. rewrite Pm. by left.
  - intros x o Ho Nx _. by apply Mem.
  - intros x. by rewrite Ep.
  - intros x. rewrite Pm, elem_of_app. intros M. apply (so_used _ _ _ _ _ S). unfold all_pages. rewrite E, !elem_of_app. tauto.
  - intros x _. by left.
  - done.
Qed.

(** ** The queue of a quarantine *)

Lemma addr_eqb x y o o' : 0 <= o < 4096 -> 0 <= o' < 4096 -> (fr x + o =? fr y + o') = (x =? y) && (o =? o').
Proof. intros. unfold fr, PAGE_SIZE. lia. Qed.
Lemma addr0_eqb x y o : 0 <= o < 4096 -> (fr x + o =? fr y) = (x =? y) && (o =? 0).
Proof. intros. unfold fr, PAGE_SIZE. lia. Qed.
Lemma fr_eqb x y : (fr x =? fr y) = (x =? y).
Proof. unfold fr, PAGE_SIZE. lia. Qed.
Lemma chain_snoc m m' x l : forall h y, chain m h (l ++ [y]) -> (forall z, z ∈ l -> m' (fr z) = m (fr z)) -> m' (fr y) = fr x -> m' (fr x) = 0 -> chain m' h ((l ++ [y]) ++ [x]).
Proof.
  induction l as [|z l IH]; intros h y C E Ey Ex; cbn [app chain] in *.
  - destruct C as [-> C]. by rewrite Ey.
  - destruct C as [-> C]. split; [done|]. rewrite E by left. apply IH; [done| |done|done]. intros w Hw. apply E. by right.
Qed.
Lemma chain_last m l : forall h y, chain m h (l ++ [y]) -> m (fr y) = 0.
Proof. induction l as [|z l IH]; intros h y; cbn [app chain]; intros [_ C]; [done|by eapply IH]. Qed.
Lemma tail_snoc l x : tail_of (l ++ [x]) = fr x.
Proof. unfold tail_of. by rewrite last_snoc. Qed.
Lemma pcp_at st c p : 0 <= c -> pcps st !! Z.to_nat c = Some p -> pcp_of c st = p.
Proof. intros Hc Hp. unfold pcp_of, zget. by apply list_lookup_total_correct. Qed.
Lemma upd_at st c p f m : 0 <= c -> pcps st !! Z.to_nat c = Some p -> upd_pcp c f (set_mem m st) = rebucket (Z.to_nat c) (f p) m st.
Proof.
  intros Hc Hp. unfold upd_pcp, rebucket. cbn. pose proof (lookup_lt_Some _ _ _ Hp). rewrite zalter_insert by lia. change (zget (pcps st) c) with (pcp_of c st). by rewrite (pcp_at st c p).
Qed.
(** The buckets of a CPU. *)
Lemma bucket_at st B G T H c : sound st B G T H -> 0 <= c < MAX_CPUS -> exists p g, pcps st !! Z.to_nat c = Some p /\ G !! Z.to_nat c = Some g /\ bucket_ok (mem st) p g.
Proof.
  intros S Hc. destruct (so_cpus _ _ _ _ _ S) as [L1 L2]. destruct (lookup_lt_is_Some_2 (pcps st) (Z.to_nat c)) as [p Hp]; [lia|]. destruct (lookup_lt_is_Some_2 G (Z.to_nat c)) as [g Hg]; [lia|].
  exists p, g. split_and!; [done|done|]. by eapply (so_buckets _ _ _ _ _ S).
Qed.
Lemma rebucket_at st c p m : is_Some (pcps st !! c) -> pcps (rebucket c p m st) !! c = Some p.
Proof. intros [q Hq]. cbn. apply list_lookup_insert_eq. by eapply lookup_lt_Some. Qed.
(** The first of the quarantine leaves it. *)
Lemma q_pop_ok st B G T H c p g x l : sound st B G T H -> 0 <= c -> pcps st !! Z.to_nat c = Some p -> G !! Z.to_nat c = Some g -> quar g = x :: l ->
  exists p', q_pop c st = (fr x, rebucket (Z.to_nat c) p' (mem st) st) /\ sound (rebucket (Z.to_nat c) p' (mem st) st) B (<[Z.to_nat c := mkCache (plain g) (zeroes g) l]> G) (x :: T) H /\
    mem st (fr x + PMM_POISON_CANARY_OFF) = PMM_POISON_CANARY.
Proof.
  intros S Hc Hp Hg Eq. pose proof (so_buckets _ _ _ _ _ S _ _ _ Hp Hg) as Bk. pose proof (bk_quar _ _ _ Bk) as C. rewrite Eq in C. destruct C as [Hh C]. pose proof (bk_canary _ _ _ Bk) as Cn. rewrite Eq in Cn. apply Forall_cons in Cn as [Cx Cl].
  assert (Xg : x ∈ pages_of g) by (apply quar_sub; rewrite Eq; left). destruct (so_used _ _ _ _ _ S x) as (Hx & _); [apply elem_of_app; left; by eapply in_all|].
  unfold q_pop. rewrite (pcp_at st c p) by done. rewrite Hh, (proj2 (Z.eqb_neq (fr x) 0)) by (unfold fr, PAGE_SIZE; lia). unfold load.
  set (q := set_q (mem st (fr x)) (if mem st (fr x) =? 0 then 0 else q_tail p) (u32 (q_count p - 1)) p). exists q. split_and!; [|..|done].
  - f_equal. rewrite <- (upd_at st c p (fun p => set_q (mem st (fr x)) (if mem st (fr x) =? 0 then 0 else q_tail p) (u32 (q_count p - 1)) p)) by done. by destruct st.
  - pose proof (bk_qcount _ _ _ Bk) as Qc. rewrite Eq in Qc. cbn [length] in Qc. pose proof (bk_qmax _ _ _ Bk) as Qm. unfold PMM_PCP_Q_LIMIT in Qm.
    assert (Pm : pages_of (mkCache (plain g) (zeroes g) l) ++ x :: T ≡ₚ pages_of g ++ T). { unfold pages_of. cbn. rewrite Eq. solve_Permutation. }
    apply (sound_shift st B G T (x :: T) H _ p q g _ (mem st) S Hp Hg); try done.
    destruct Bk. constructor; try done; cbn; [|rewrite u32_small by lia; lia|rewrite u32_small by (unfold PMM_PCP_Q_LIMIT in *; lia); lia].
      rewrite bk_tail0, Eq. destruct l as [|y l]; cbn in C |- *; [by rewrite C|]. destruct C as [-> _]. rewrite (proj2 (Z.eqb_neq (fr y) 0)); [done|]. 
      destruct (so_used _ _ _ _ _ S y) as (? & _); [apply elem_of_app; left; eapply in_all; [done|]; apply quar_sub; rewrite Eq; right; left|]. unfold fr, PAGE_SIZE. lia.
Qed.
Lemma same_ne m m' l (P : Z -> Prop) : (forall x o, ~ P x -> 0 <= o < 4096 -> m' (fr x + o) = m (fr x + o)) -> (forall x, x ∈ l -> ~ P x) -> same_on m m' l.
Proof. intros E N x o Hx Ho. apply E; [by apply N|done]. Qed.
(** Memory after a page is linked behind the quarantine [l]. *)
Definition queued (m : Z -> Z) (l : list Z) (x : Z) : Z -> Z := fun a =>
  let m1 := if a =? fr x + PMM_POISON_CANARY_OFF then PMM_POISON_CANARY else if a =? fr x then 0 else m a in if tail_of l <>? 0 then if a =? tail_of l then fr x else m1 else m1.
Lemma queued_at m l x z o : (forall y, y ∈ l -> 0 < y) -> 0 <= o < 4096 -> queued m l x (fr z + o) =
  if bool_decide (last l = Some z) && (o =? 0) then fr x else if (z =? x) && (o =? PMM_POISON_CANARY_OFF) then PMM_POISON_CANARY else if (z =? x) && (o =? 0) then 0 else m (fr z + o).
Proof.
  intros Pos Ho. unfold queued, PMM_POISON_CANARY_OFF, tail_of. rewrite addr_eqb, addr0_eqb by lia. destruct (last l) as [y|] eqn:Ly; cbn [negb Z.eqb]; [|by rewrite bool_decide_eq_false_2].
  pose proof (Pos y (last_Some_elem_of _ _ Ly)). rewrite (proj2 (Z.eqb_neq (fr y) 0)) by (unfold fr, PAGE_SIZE; lia). cbn [negb]. rewrite addr0_eqb by done.
  destruct (Z.eqb_spec z y) as [->|N]; [by rewrite bool_decide_eq_true_2|]. rewrite bool_decide_eq_false_2 by congruence. done.
Qed.
Lemma queued_chain m h l x : (forall y, y ∈ l -> 0 < y) -> NoDup (l ++ [x]) -> chain m h l -> chain (queued m l x) (if tail_of l <>? 0 then h else fr x) (l ++ [x]).
Proof.
  intros Pos Nd C. pose proof (fun z => queued_at m l x z 0 Pos ltac:(lia)) as Q. setoid_rewrite Z.add_0_r in Q. unfold PMM_POISON_CANARY_OFF in Q. cbn in Q. setoid_rewrite andb_true_r in Q. setoid_rewrite andb_false_r in Q.
  apply NoDup_app in Nd as (Nd & Nx & _). assert (Ne : forall z, z ∈ l -> z <> x) by (intros z Hz ->; apply (Nx x Hz); left).
  unfold tail_of. destruct (last l) as [y|] eqn:Ly.
  - pose proof (Pos y (last_Some_elem_of _ _ Ly)). rewrite (proj2 (Z.eqb_neq (fr y) 0)) by (unfold fr, PAGE_SIZE; lia). cbn [negb]. pose proof (last_Some_elem_of _ _ Ly) as Hy. apply last_Some in Ly as Ly'. destruct Ly' as [l' El].
    subst l. apply (chain_snoc m); [done|..].
    + intros z Hz. rewrite Q. rewrite bool_decide_eq_false_2, (proj2 (Z.eqb_neq z x)); [done| |].
      * apply Ne. apply elem_of_app. by left.
      * intros [= <-]. apply NoDup_app in Nd as (_ & N & _). apply (N y Hz). left.
    + rewrite Q, bool_decide_eq_true_2; done.
    + rewrite Q, bool_decide_eq_false_2, Z.eqb_refl; [done|]. intros [= ->]. by apply (Ne x).
  - apply last_None in Ly as ->. split; [done|]. change (queued m [] x (fr x) = 0). by rewrite Q, Z.eqb_refl.
Qed.
(** A page on its way goes to the end of the quarantine. *)
Lemma q_push_ok st B G T H c p g x : sound st B G (x :: T) H -> 0 <= c -> pcps st !! Z.to_nat c = Some p -> G !! Z.to_nat c = Some g -> q_count p <= PMM_PCP_Q_LIMIT -> parked (fr x) st = false ->
  exists p' m, q_push c (fr x) st = rebucket (Z.to_nat c) p' m st /\ sound (rebucket (Z.to_nat c) p' m st) B (<[Z.to_nat c := mkCache (plain g) (zeroes g) (quar g ++ [x])]> G) T H /\
    forall z o, ~ (z = x \/ z ∈ quar g) -> 0 <= o < 4096 -> m (fr z + o) = mem st (fr z + o).
Proof.
  intros S Hc Hp Hg Hq Pk. pose proof (so_buckets _ _ _ _ _ S _ _ _ Hp Hg) as Bk. pose proof (nodup_at _ _ _ _ _ _ _ S Hg) as Nd. destruct (apart_at _ _ Nd) as (_ & _ & Nd3 & _ & Ap). pose proof (bk_qcount _ _ _ Bk) as Qc.
  assert (Pos : forall y, y ∈ quar g -> 0 < y). { intros y Hy. destruct (so_used _ _ _ _ _ S y) as (? & _); [apply elem_of_app; left; eapply in_all; [done|by apply quar_sub]|]. lia. }
  unfold q_push. rewrite Pk. change (pcp_of c (store _ _ _)) with (pcp_of c st). rewrite (pcp_at st c p), (bk_tail _ _ _ Bk) by done.
  set (q := set_q (if tail_of (quar g) <>? 0 then q_head p else fr x) (fr x) (u32 (q_count p + 1)) p). exists q, (queued (mem st) (quar g) x). split.
  { rewrite <- (upd_at st c p (fun p0 => set_q (if tail_of (quar g) <>? 0 then q_head p else fr x) (fr x) (u32 (q_count p0 + 1)) p0)) by done. unfold queued. by destruct (tail_of (quar g) <>? 0), st. }
  assert (Xn : forall z, z ∈ pages_of g -> z <> x). { intros z Hz ->. apply NoDup_app in Nd as (_ & N & _). apply (N x Hz). left. }
  pose proof (fun z o => queued_at (mem st) (quar g) x z o Pos) as Q. assert (Off : forall z o, ~ (z = x \/ z ∈ quar g) -> 0 <= o < 4096 -> queued (mem st) (quar g) x (fr z + o) = mem st (fr z + o)).
  { intros z o Nz Ho. rewrite Q by done. rewrite bool_decide_eq_false_2, (proj2 (Z.eqb_neq z x)); [done|tauto|]. intros X%last_Some_elem_of. tauto. }
  assert (Nq : forall z, z ∈ plain g \/ z ∈ zeroes g -> ~ (z = x \/ z ∈ quar g)). { intros z Hz. destruct (Ap z) as (A1 & A2 & _). rewrite elem_of_cons in *. intros [->|X]; [destruct Hz as [Hz|Hz]; [destruct (A1 Hz); tauto|destruct (A2 Hz); tauto]|]. tauto. }
  split; [|exact Off]. apply (sound_shift st B G (x :: T) T H _ p q g _ _ S Hp Hg).
  - destruct Bk. constructor; try done; cbn [plain zeroes quar q set_q head count zero_head zero_count q_head q_tail q_count].
    + eapply chain_ext; [|done]. eapply same_ne; [exact Off|]. intros z Hz. apply Nq. by left.
    + eapply chain_ext; [|done]. eapply same_ne; [exact Off|]. intros z Hz. apply Nq. by right.
    + eapply forall_ext; [done|]. intros z Hz. apply zero_page_ext. eapply same_ne; [exact Off|]. intros w ->%list_elem_of_singleton. apply Nq. by right.
    + apply queued_chain; [done| |done]. apply NoDup_app. split_and!; [done| |apply NoDup_singleton]. intros z Hz ->%list_elem_of_singleton. by apply (Xn x); [apply quar_sub|].
    + by rewrite tail_snoc.
    + rewrite length_app, u32_small by (unfold PMM_PCP_Q_LIMIT in *; lia). cbn. lia.
    + rewrite u32_small by (unfold PMM_PCP_Q_LIMIT in *; lia). lia.
    + apply Forall_app. unfold PMM_POISON_CANARY_OFF in *. split; [eapply forall_ext; [done|]; intros z Hz <-|apply Forall_singleton]; rewrite Q by lia; cbn; rewrite ?andb_false_r, ?andb_true_r.
      * by rewrite (proj2 (Z.eqb_neq z x)) by (by apply Xn, quar_sub).
      * by rewrite Z.eqb_refl.
  - unfold pages_of. cbn. solve_Permutation.
  - done.
  - intros z o Ho Nz. apply Off; [|done]. intros X. apply Nz. rewrite elem_of_app, elem_of_cons. destruct X as [->|X]; [tauto|]. left. by apply quar_sub.
Qed.

(** ** The stacks *)

Definition off_page (x : Z) (m m' : Z -> Z) : Prop := forall z o, z <> x -> 0 <= o < 4096 -> m' (fr z + o) = m (fr z + o).
Lemma off_same x m m' l : off_page x m m' -> x ∉ l -> same_on m m' l.
Proof. intros E N z o Hz Ho. apply E; [|done]. by intros ->. Qed.
Lemma zeroes_same x m m' l : off_page x m m' -> x ∉ l -> Forall (zero_page m) l -> Forall (zero_page m') l.
Proof. intros E N F. eapply forall_ext; [exact F|]. intros z Hz. apply zero_page_ext. apply (off_same x); [done|]. intros ->%list_elem_of_singleton. done. Qed.
Lemma canary_same x m m' l : off_page x m m' -> x ∉ l -> Forall (fun y => m (fr y + PMM_POISON_CANARY_OFF) = PMM_POISON_CANARY) l -> Forall (fun y => m' (fr y + PMM_POISON_CANARY_OFF) = PMM_POISON_CANARY) l.
Proof. intros E N F. eapply forall_ext; [exact F|]. intros z Hz <-. apply E; [by intros ->|unfold PMM_POISON_CANARY_OFF; lia]. Qed.
Section Stacks.
Context (st : pmm) (B : gmap Z Z) (G : list cache) (T : list Z) (H : Z -> Z) (c : nat) (p : pmm_pcp) (g : cache) (x : Z) (m : Z -> Z).
Context (Hp : pcps st !! c = Some p) (Hg : G !! c = Some g) (Off : off_page x (mem st) m).
Lemma zero_push_sound : sound st B G (x :: T) H -> zero_count p < PMM_PCP_ZERO_LIMIT -> m (fr x) = zero_head p -> zero_page m x ->
  sound (rebucket c (set_zero (fr x) (u32 (zero_count p + 1)) p) m st) B (<[c := mkCache (plain g) (x :: zeroes g) (quar g)]> G) T H.
Proof.
  intros S Hz Lk Zp. pose proof (so_buckets _ _ _ _ _ S _ _ _ Hp Hg) as Bk. pose proof (nodup_at _ _ _ _ _ _ _ S Hg) as Nd. destruct (apart_at _ _ Nd) as (_ & _ & _ & _ & Ap). destruct (Ap x) as (A1 & A2 & A3). rewrite elem_of_cons in *.
  unfold PMM_PCP_ZERO_LIMIT in *. pose proof (bk_zcount _ _ _ Bk). eapply (sound_shift st B G (x :: T) T H c p _ g _ m S Hp Hg); [|unfold pages_of; cbn; solve_Permutation|done|].
  - destruct Bk. constructor; try done; cbn [plain zeroes quar set_zero head count zero_head zero_count q_head q_tail q_count length].
    + eapply chain_ext; [|done]. apply (off_same x); [done|tauto].
    + split; [done|]. rewrite Lk. eapply chain_ext; [|done]. apply (off_same x); [done|tauto].
    + rewrite u32_small by lia. lia.
    + rewrite u32_small by lia. unfold PMM_PCP_ZERO_LIMIT. lia.
    + constructor; [done|]. eapply zeroes_same; [done|tauto|done].
    + eapply chain_ext; [|done]. apply (off_same x); [done|tauto].
    + eapply canary_same; [done|tauto|done].
  - intros z o Ho Nz. apply Off; [|done]. intros ->. apply Nz. rewrite elem_of_app, elem_of_cons. tauto.
Qed.
Lemma zero_pop_sound l : sound st B G T H -> zeroes g = x :: l -> sound (rebucket c (set_zero (mem st (fr x)) (u32 (zero_count p - 1)) p) m st) B (<[c := mkCache (plain g) l (quar g)]> G) (x :: T) H.
Proof.
  intros S Ez. pose proof (so_buckets _ _ _ _ _ S _ _ _ Hp Hg) as Bk. pose proof (nodup_at _ _ _ _ _ _ _ S Hg) as Nd. destruct (apart_at _ _ Nd) as (_ & N2 & _ & _ & Ap). destruct (Ap x) as (A1 & A2 & A3). rewrite Ez in *. apply NoDup_cons in N2 as [Nx _].
  rewrite elem_of_cons in *. pose proof (bk_zcount _ _ _ Bk) as Zc. rewrite Ez in Zc. cbn [length] in Zc. eapply (sound_shift st B G T (x :: T) H c p _ g _ m S Hp Hg); [|unfold pages_of; cbn; rewrite Ez; solve_Permutation|done|].
  - destruct Bk. rewrite Ez in *. destruct bk_zero0 as [_ Cl]. apply Forall_cons in bk_zeroes0 as [_ Fl]. unfold PMM_PCP_ZERO_LIMIT in *. constructor; try done; cbn [plain zeroes quar set_zero head count zero_head zero_count q_head q_tail q_count].
    + eapply chain_ext; [|done]. apply (off_same x); [done|tauto].
    + eapply chain_ext; [|done]. apply (off_same x); [done|tauto].
    + rewrite u32_small by lia. lia.
    + rewrite u32_small by lia. unfold PMM_PCP_ZERO_LIMIT. lia.
    + eapply zeroes_same; [done|tauto|done].
    + eapply chain_ext; [|done]. apply (off_same x); [done|tauto].
    + eapply canary_same; [done|tauto|done].
  - intros z o Ho Nz. apply Off; [|done]. intros ->. apply Nz. rewrite elem_of_app. left. apply zeroes_sub. rewrite Ez. left.
Qed.
Lemma at_used z : sound st B G T H -> z ∈ pages_of g ++ T -> 0 < z < frame_count st /\ bit (bitmap st) z = true /\ H z = 0.
Proof. intros S Hz. apply (so_used _ _ _ _ _ S). apply elem_of_app in Hz as [Hz|Hz]; apply elem_of_app; [left; by eapply in_all|by right]. Qed.
Lemma plain_pop_sound l : sound st B G T H -> plain g = x :: l -> sound (rebucket c (set_plain (mem st (fr x)) (u32 (count p - 1)) p) m st) B (<[c := mkCache l (zeroes g) (quar g)]> G) T (hold x 1 H).
Proof.
  intros S Ep. pose proof (so_buckets _ _ _ _ _ S _ _ _ Hp Hg) as Bk. pose proof (nodup_at _ _ _ _ _ _ _ S Hg) as Nd. destruct (apart_at _ _ Nd) as (N1 & _ & _ & _ & Ap). destruct (Ap x) as (A1 & A2 & A3). rewrite Ep in *. apply NoDup_cons in N1 as [Nx _].
  rewrite elem_of_cons in *. pose proof (bk_count _ _ _ Bk) as Pc. rewrite Ep in Pc. cbn [length] in Pc. assert (Pm : x :: pages_of (mkCache l (zeroes g) (quar g)) ++ T ≡ₚ pages_of g ++ T) by (unfold pages_of; cbn; rewrite Ep; done).
  pose proof Nd as Nd'. rewrite <- Pm in Nd'. apply NoDup_cons in Nd' as [Nx' Nd']. assert (Sb : forall z, z ∈ pages_of (mkCache l (zeroes g) (quar g)) ++ T -> z <> x /\ z ∈ pages_of g ++ T).
  { intros z Hz. split; [by intros ->|]. rewrite <- Pm. by right. }
  apply (sound_move st B G T T H (hold x 1 H) c p _ g _ m S Hp Hg); unfold hold.
  - destruct Bk. rewrite Ep in *. destruct bk_plain0 as [_ Cl]. unfold PMM_PCP_LIMIT in *. constructor; try done; cbn [plain zeroes quar set_plain head count zero_head zero_count q_head q_tail q_count].
    + eapply chain_ext; [|done]. by apply (off_same x).
    + rewrite u32_small by lia. lia.
    + rewrite u32_small by lia. unfold PMM_PCP_LIMIT. lia.
    + eapply chain_ext; [|done]. apply (off_same x); [done|tauto].
    + eapply zeroes_same; [done|tauto|done].
    + eapply chain_ext; [|done]. apply (off_same x); [done|tauto].
    + eapply canary_same; [done|tauto|done].
  - done.
  - intros z Hz. left. by apply Sb.
  - intros z o Ho Nz _. apply Off; [|done]. intros ->. apply Nz. rewrite <- Pm. left.
  - intros z. cbn [plain]. rewrite Ep. destruct (Z.eqb_spec z x) as [->|N]; [|rewrite (bool_decide_ext (z ∈ l) (z ∈ x :: l)) by (rewrite elem_of_cons; tauto); done].
    rewrite bool_decide_eq_false_2, bool_decide_eq_true_2 by (done || left). destruct (at_used x S) as (_ & _ & ->); [rewrite <- Pm; left|done].
  - intros z Hz. destruct (Sb z Hz) as [N M]. rewrite (proj2 (Z.eqb_neq z x)) by done. by apply (at_used z S).
  - intros z. rewrite Ep. destruct (Z.eqb_spec z x) as [->|N]; [intros _; right; split; [left|done]|by left].
  - intros z _. by destruct (z =? x).
Qed.
Lemma plain_push_sound : sound st B G T H -> H x = 1 -> bit (pt_frames st) x = false -> count p < PMM_PCP_LIMIT -> m (fr x) = head p ->
  sound (rebucket c (set_plain (fr x) (u32 (count p + 1)) p) m st) B (<[c := mkCache (x :: plain g) (zeroes g) (quar g)]> G) T (hold x 0 H).
Proof.
  intros S Hx Np Hc Lk. pose proof (so_buckets _ _ _ _ _ S _ _ _ Hp Hg) as Bk. pose proof (nodup_at _ _ _ _ _ _ _ S Hg) as Nd. pose proof (bk_count _ _ _ Bk) as Pc. unfold PMM_PCP_LIMIT in Hc.
  assert (Nx : x ∉ pages_of g ++ T). { intros M. destruct (at_used x S M) as (_ & _ & X). lia. }
  assert (Nz : (x ∉ plain g) /\ (x ∉ zeroes g) /\ (x ∉ quar g)). { rewrite elem_of_app in Nx. split_and!; intros X; apply Nx; left; [by apply plain_sub|by apply zeroes_sub|by apply quar_sub]. }
  assert (Pm : pages_of (mkCache (x :: plain g) (zeroes g) (quar g)) ++ T = x :: pages_of g ++ T) by done.
  apply (sound_move st B G T T H (hold x 0 H) c p _ g _ m S Hp Hg); rewrite ?Pm; unfold hold.
  - destruct Bk. destruct Nz as (Nz1 & Nz2 & Nz3). constructor; try done; cbn [plain zeroes quar set_plain head count zero_head zero_count q_head q_tail q_count length].
    + split; [done|]. rewrite Lk. eapply chain_ext; [|done]. by apply (off_same x).
    + rewrite u32_small by lia. lia.
    + rewrite u32_small by lia. unfold PMM_PCP_LIMIT. lia.
    + eapply chain_ext; [|done]. by apply (off_same x).
    + by eapply zeroes_same.
    + eapply chain_ext; [|done]. by apply (off_same x).
    + by eapply canary_same.
  - by apply NoDup_cons.
  - intros z [->|Hz]%elem_of_cons; [right; lia|by left].
  - intros z o Ho _ Hz. apply Off; [|done]. intros ->. lia.
  - intros z. cbn [plain]. destruct (Z.eqb_spec z x) as [->|N]; [|rewrite (bool_decide_ext (z ∈ x :: plain g) (z ∈ plain g)) by (rewrite elem_of_cons; tauto); done].
    rewrite bool_decide_eq_true_2 by left. rewrite bool_decide_eq_false_2 by apply Nz. by rewrite Hx.
  - intros z [->|Hz]%elem_of_cons; [by rewrite Z.eqb_refl|]. destruct (Z.eqb_spec z x); [done|]. by apply (at_used z S).
  - intros z. destruct (z =? x); [done|by left].
  - intros z Pz. destruct (Z.eqb_spec z x) as [->|]; [congruence|done].
Qed.
End Stacks.
End PmmCache.
