(* ===== verification/PmmOps.v ===== *)
(** The operations of [Pmm] on frames, over the caches of [PmmCache]: returns and
    drains, the free path through the quarantine to the zero bucket, the allocation
    of a frame, references and page-table claims. *)
From Stdlib Require Import ZifyBool.
From S2P Require Import Prelude Pmm PmmTree PmmAlloc PmmSeed PmmScan PmmCache.
From stdpp Require Import list gmap.
Local Open Scope Z_scope.
Local Open Scope kernel_scope.

Module PmmOps.
Import Pmm PmmTree PmmAlloc PmmSeed PmmScan PmmCache.

Lemma sound_ext st B G T H H' : (forall x, H' x = H x) -> sound st B G T H -> sound st B G T H'.
Proof.
  intros E []. constructor; try done.
  - intros x Hx. rewrite E. by apply so_used0.
  - intros x Hx. rewrite E. by apply so_refs0.
  - intros x. rewrite E. apply so_held0.
  - intros x. rewrite E. apply so_pt0.
Qed.
(** Pages that neither the pool nor a bucket has. *)
Lemma way_out st B G T H x : sound st B G T H -> x ∈ T \/ H x <> 0 -> (0 < x < frame_count st /\ bit (bitmap st) x = true) /\ (x ∉ all_pages G) /\ ~ free_page st x.
Proof.
  intros S Hx. assert (A : (0 < x < frame_count st /\ bit (bitmap st) x = true) /\ (x ∉ all_pages G)).
  { destruct Hx as [Hx|Hx].
    - destruct (so_used _ _ _ _ _ S x) as (? & ? & _); [apply elem_of_app; by right|]. split; [done|]. pose proof (so_nodup _ _ _ _ _ S) as (_ & N & _)%NoDup_app. intros M. by apply (N x M).
    - destruct (so_held _ _ _ _ _ S x Hx) as (_ & ? & ?). split; [done|]. intros M. apply Hx. apply (so_used _ _ _ _ _ S). apply elem_of_app. by left. }
  split_and!; [apply A..|]. intros [_ F]. destruct A as [[_ U] _]. congruence.
Qed.
Lemma way_write st B G T H x m : sound st B G T H -> x ∈ T \/ H x <> 0 -> off_page x (mem st) m -> sound (set_mem m st) B G T H.
Proof. intros S Hx Off. destruct (way_out _ _ _ _ _ _ S Hx) as (_ & N & F). apply sound_write; [done|]. intros z o Hz Ho. apply Off; [|done]. intros ->. tauto. Qed.
Lemma fill_off st x v : off_page x (mem st) (mem (fill (fr x) 1 v st)).
Proof. intros z o N Ho. cbn. rewrite page_offset by done. replace (within x 1 z) with false; [done|]. unfold within. lia. Qed.
Lemma way_fill st B G T H x v : sound st B G T H -> x ∈ T \/ H x <> 0 -> sound (fill (fr x) 1 v st) B G T H.
Proof. intros S Hx. apply (way_write st B G T H x); [done|done|]. apply fill_off. Qed.
Lemma not_pt st B G T H x : sound st B G T H -> 0 <= x < frame_count st -> H x = 0 -> bit (pt_frames st) x = false.
Proof. intros S Hx H0. destruct (bit (pt_frames st) x) eqn:E; [|done]. by destruct (so_pt _ _ _ _ _ S x Hx E). Qed.

(** Pages on their way and held pages keep their contents. *)
Definition left_alone (T : list Z) (H : Z -> Z) (st st' : pmm) : Prop := forall x o, x ∈ T \/ H x <> 0 -> 0 <= o < 4096 -> mem st' (fr x + o) = mem st (fr x + o).
Lemma left_refl T H st : left_alone T H st st.
Proof. done. Qed.
Lemma left_trans T H st1 st2 st3 : left_alone T H st1 st2 -> left_alone T H st2 st3 -> left_alone T H st1 st3.
Proof. intros E1 E2 x o Hx Ho. rewrite E2 by done. by apply E1. Qed.
Lemma left_tail x T H st st' : left_alone (x :: T) H st st' -> left_alone T H st st'.
Proof. intros E y o Hy. apply E. rewrite elem_of_cons. tauto. Qed.
Lemma left_off st st' B G T H x : sound st B G T H -> ~ (x ∈ T \/ H x <> 0) -> off_page x (mem st) (mem st') -> left_alone T H st st'.
Proof. intros S N Off y o Hy Ho. apply Off; [|done]. by intros ->. Qed.
Lemma way_head st B G T H x : sound st B G (x :: T) H -> ~ (x ∈ T \/ H x <> 0).
Proof.
  intros S [X|X]; [pose proof (so_nodup _ _ _ _ _ S) as (_ & _ & [N _]%NoDup_cons)%NoDup_app; done|]. apply X. apply (so_used _ _ _ _ _ S). apply elem_of_app. right. left.
Qed.
Lemma left_gave st st' B G T H x : gave st st' x 1 -> sound st' B G T H -> left_alone T H st st'.
Proof. intros Gv S y o Hy Ho. apply (gv_mem _ _ _ _ Gv); [done|]. by destruct (way_out _ _ _ _ _ _ S Hy) as (_ & _ & ?). Qed.

(** ** Returns *)

(** What [secretmem] hides is held. *)
Definition secrets_held (hidden : Z -> bool) (H : Z -> Z) : Prop := forall x, hidden (fr x) = true -> H x <> 0.
Lemma return_way st B G T H hidden x : sound st B G (x :: T) H -> secrets_held hidden H -> exists st' B', pmm_return_frame hidden (fr x) st = Ok st' /\ sound st' B' G T H /\ kept st st' /\ left_alone T H st st'.
Proof.
  intros S Sc. destruct (way_out _ _ _ _ _ x S) as ([Hx U] & N & _); [left; left|]. destruct (so_used _ _ _ _ _ S x) as (_ & _ & H0); [apply elem_of_app; right; left|].
  assert (Np : bit (pt_frames st) x = false) by (eapply not_pt; [done|lia|done]). assert (Nh : hidden (fr x) = false). { destruct (hidden (fr x)) eqn:E; [|done]. by destruct (Sc x E). }
  destruct (return_frame_ok st B hidden x (so_pool _ _ _ _ _ S) Hx U Np Nh) as (st' & B' & -> & Gv & P'). exists st', B'. pose proof (so_nodup _ _ _ _ _ S) as (_ & _ & [Nt Nd]%NoDup_cons)%NoDup_app.
  enough (S' : sound st' B' G T H) by (split_and!; [done|done|apply Gv|by eapply left_gave]). apply (sound_ext _ _ _ _ (hold x 0 H)); [intros y; unfold hold; by destruct (Z.eqb_spec y x) as [->|]|]. apply (sound_gave st B B' G (x :: T) T H st' x S Gv P' Np N Nd). intros y Hy. split; [by right|]. by intros ->.
Qed.
Lemma return_held st B G T H hidden x : sound st B G T H -> H x = 1 -> bit (pt_frames st) x = false -> hidden (fr x) = false -> exists st' B', pmm_return_frame hidden (fr x) st = Ok st' /\ sound st' B' G T (hold x 0 H) /\ kept st st' /\ left_alone T (hold x 0 H) st st'.
Proof.
  intros S H1 Np Nh. destruct (way_out _ _ _ _ _ x S) as ([Hx U] & N & _); [right; lia|]. destruct (return_frame_ok st B hidden x (so_pool _ _ _ _ _ S) Hx U Np Nh) as (st' & B' & -> & Gv & P').
  exists st', B'. pose proof (so_nodup _ _ _ _ _ S) as (_ & _ & Nt)%NoDup_app.
  enough (S' : sound st' B' G T (hold x 0 H)) by (split_and!; [done|done|apply Gv|by eapply left_gave]). apply (sound_gave st B B' G T T H st' x S Gv P' Np N Nt). intros y Hy. split; [done|]. intros ->.
  destruct (so_used _ _ _ _ _ S x) as (_ & _ & ?); [apply elem_of_app; by right|]. lia.
Qed.

(** ** The zero bucket *)

Lemma chain_aligned m l h : chain m h l -> h mod PAGE_SIZE = 0.
Proof. destruct l as [|y l]; [by intros ->|]. intros [-> _]. unfold fr. apply Z.mod_mul. done. Qed.
Lemma aligned_ok a : a mod PAGE_SIZE = 0 -> (a &? (PAGE_SIZE - 1)) = false.
Proof. intros E. change (PAGE_SIZE - 1) with (Z.ones 12). rewrite Z.land_ones by lia. change (2 ^ 12) with PAGE_SIZE. by rewrite E. Qed.
(** Memory after a page leaves the zero bucket. *)
Definition wiped (x : Z) (m : Z -> Z) : Z -> Z := fun a => if a =? fr x + PMM_ZERO_MAGIC_OFF then 0 else if a =? fr x then 0 else m a.
Lemma wiped_off x m : off_page x m (wiped x m).
Proof. intros z o N Ho. unfold wiped, PMM_ZERO_MAGIC_OFF. rewrite addr_eqb, addr0_eqb by lia. by rewrite (proj2 (Z.eqb_neq z x)). Qed.
Lemma wiped_zero x m : zero_page m x -> forall o, 0 <= o < 4096 -> wiped x m (fr x + o) = 0.
Proof.
  intros [_ Z0] o Ho. unfold wiped. rewrite addr_eqb, addr0_eqb by (unfold PMM_ZERO_MAGIC_OFF; lia). rewrite Z.eqb_refl. cbn [andb]. destruct (Z.eqb_spec o PMM_ZERO_MAGIC_OFF); [done|]. destruct (Z.eqb_spec o 0); [done|]. apply Z0; [lia|done].
Qed.
Lemma zero_pop_ok st B G T H c p g x l : sound st B G T H -> 0 <= c -> pcps st !! Z.to_nat c = Some p -> G !! Z.to_nat c = Some g -> zeroes g = x :: l ->
  exists p', zero_pop_checked c st = Ok (fr x, rebucket (Z.to_nat c) p' (wiped x (mem st)) st) /\ p' = set_zero (mem st (fr x)) (u32 (zero_count p - 1)) p /\
    sound (rebucket (Z.to_nat c) p' (wiped x (mem st)) st) B (<[Z.to_nat c := mkCache (plain g) l (quar g)]> G) (x :: T) H.
Proof.
  intros S Hc Hp Hg Ez. pose proof (so_buckets _ _ _ _ _ S _ _ _ Hp Hg) as Bk. pose proof (bk_zero _ _ _ Bk) as C. rewrite Ez in C. destruct C as [Hh C]. pose proof (bk_zeroes _ _ _ Bk) as Zs. rewrite Ez in Zs. apply Forall_cons in Zs as [[Mg _] _].
  eexists. split_and!; [|done|by apply zero_pop_sound; [done|done|apply wiped_off|done|done]]. unfold zero_pop_checked. rewrite (pcp_at st c p), Hh by done. unfold load. rewrite Mg. cbn [negb]. rewrite Z.eqb_refl. cbn [negb].
  rewrite (aligned_ok _ (chain_aligned _ _ _ C)). unfold kassert. cbn [negb]. f_equal. f_equal. pose proof (upd_at st c p (fun p => set_zero (mem st (fr x)) (u32 (zero_count p - 1)) p) (mem st) Hc Hp) as E.
  replace (set_mem (mem st) st) with st in E by (by destruct st). unfold load in *. rewrite E. done.
Qed.
(** The buckets of CPU [c] are [p] and [g]. *)
Definition cpu (st : pmm) (G : list cache) (c : Z) (p : pmm_pcp) (g : cache) : Prop := 0 <= c /\ pcps st !! Z.to_nat c = Some p /\ G !! Z.to_nat c = Some g.
Lemma cpu_rebucket st G c p g p' g' m : cpu st G c p g -> cpu (rebucket (Z.to_nat c) p' m st) (<[Z.to_nat c := g']> G) c p' g'.
Proof. intros (Hc & Hp & Hg). split_and!; [done|by apply rebucket_at; eexists|]. apply list_lookup_insert_eq. by eapply lookup_lt_Some. Qed.
Lemma cpu_kept st st' G c p g : kept st st' -> cpu st G c p g -> cpu st' G c p g.
Proof. intros (_ & _ & _ & _ & _ & _ & _ & _ & E)%kept_iff. unfold cpu. by rewrite E. Qed.
Lemma cpu_of st G c p g : cpu st G c p g -> pcp_of c st = p.
Proof. intros (Hc & Hp & _). by apply pcp_at. Qed.
Lemma cpu_bucket st B G T H c p g : sound st B G T H -> cpu st G c p g -> bucket_ok (mem st) p g.
Proof. intros S (_ & Hp & Hg). by eapply (so_buckets _ _ _ _ _ S). Qed.
Lemma zero_drain_ok n hidden : forall st B G T H c p g, sound st B G T H -> secrets_held hidden H -> cpu st G c p g ->
  exists st' B' p', zero_drain_loop n hidden c st = Ok st' /\ left_alone T H st st' /\ let g' := mkCache (plain g) (drop n (zeroes g)) (quar g) in sound st' B' (<[Z.to_nat c := g']> G) T H /\ cpu st' (<[Z.to_nat c := g']> G) c p' g'.
Proof.
  induction n as [|n IH]; intros st B G T H c p g S Sc Cp; cbn [zero_drain_loop]; pose proof Cp as (Hc & Hp & Hg); assert (Gc : <[Z.to_nat c := mkCache (plain g) (zeroes g) (quar g)]> G = G) by (apply list_insert_id; by destruct g).
  - exists st, B, p. cbv zeta. rewrite drop_0, Gc. split_and!; try done. by destruct g.
  - pose proof (cpu_bucket _ _ _ _ _ _ _ _ S Cp) as Bk. pose proof (bk_zcount _ _ _ Bk) as Zc. rewrite (cpu_of _ _ _ _ _ Cp). destruct (zeroes g) as [|x l] eqn:Ez.
    + rewrite Zc. cbn. rewrite Gc. exists st, B, p. split_and!; try done. destruct g; cbn in *; by subst.
    + cbn [length] in Zc. rewrite (proj2 (Z.eqb_neq (zero_count p) 0)) by lia. destruct (zero_pop_ok st B G T H c p g x l S Hc Hp Hg Ez) as (p1 & -> & _ & S1). cbn [rbind].
      destruct (so_used _ _ _ _ _ S1 x) as (Hx & _); [apply elem_of_app; right; left|]. rewrite (proj2 (Z.eqb_neq (fr x) 0)) by (unfold fr, PAGE_SIZE; lia).
      destruct (return_way _ _ _ _ _ hidden x S1 Sc) as (st2 & B2 & -> & S2 & K2 & L2). cbn [rbind]. apply (cpu_rebucket _ _ _ _ _ p1 (mkCache (plain g) l (quar g)) (wiped x (mem st))) in Cp. apply (cpu_kept _ _ _ _ _ _ K2) in Cp.
      destruct (IH st2 B2 _ T H c _ _ S2 Sc Cp) as (st' & B' & p' & -> & L' & S' & Cp'). cbn [plain zeroes quar] in *. rewrite list_insert_insert_eq in S', Cp'. exists st', B', p'. split_and!; try done. eapply left_trans; [|exact L'].
      eapply left_trans; [|exact L2]. eapply (left_off _ _ _ _ _ _ x S); [by eapply way_head|apply wiped_off].
Qed.
Lemma zero_push_ok st B G T H c p g x : sound st B G (x :: T) H -> cpu st G c p g -> zero_count p < PMM_PCP_ZERO_LIMIT -> zeroed st x 1 ->
  exists p' m, zero_push c (fr x) st = rebucket (Z.to_nat c) p' m st /\ sound (rebucket (Z.to_nat c) p' m st) B (<[Z.to_nat c := mkCache (plain g) (x :: zeroes g) (quar g)]> G) T H /\ off_page x (mem st) m.
Proof.
  intros S (Hc & Hp & Hg) Hz Z0. assert (Zx : forall o, 0 <= o < 4096 -> mem st (fr x + o) = 0) by (intros o Ho; apply Z0; lia). unfold zero_push, load. rewrite Zx by (unfold PMM_ZERO_MAGIC_OFF; lia). cbn [Z.eqb PMM_ZERO_MAGIC].
  rewrite (pcp_at st c p) by done. set (m := fun a => if a =? fr x + PMM_ZERO_MAGIC_OFF then PMM_ZERO_MAGIC else if a =? fr x then zero_head p else mem st a).
  assert (At : forall z o, 0 <= o < 4096 -> m (fr z + o) = if (z =? x) && (o =? PMM_ZERO_MAGIC_OFF) then PMM_ZERO_MAGIC else if (z =? x) && (o =? 0) then zero_head p else mem st (fr z + o)).
  { intros z o Ho. unfold m. by rewrite addr_eqb, addr0_eqb by (unfold PMM_ZERO_MAGIC_OFF; lia). }
  exists (set_zero (fr x) (u32 (zero_count p + 1)) p), m. split; [rewrite <- (upd_at st c p (fun p => set_zero (fr x) (u32 (zero_count p + 1)) p)) by done; by destruct st|].
  assert (Off : off_page x (mem st) m) by (intros z o Nz Ho; rewrite At by done; by rewrite (proj2 (Z.eqb_neq z x))). split; [|done]. apply zero_push_sound; try done.
  - rewrite <- (Z.add_0_r (fr x)) at 1. rewrite At by lia. by rewrite Z.eqb_refl.
  - split; [rewrite At by (unfold PMM_ZERO_MAGIC_OFF; lia); by rewrite !Z.eqb_refl|]. intros o Ho No. rewrite At by lia. rewrite (proj2 (Z.eqb_neq o _)), (proj2 (Z.eqb_neq o 0)), !andb_false_r by (done || lia). apply Zx. lia.
Qed.
(** A page out of the quarantine becomes a zero page. *)
Lemma promote_ok hidden st B G T H c p g x : sound st B G (x :: T) H -> secrets_held hidden H -> cpu st G c p g ->
  exists st' B' p' z, promote hidden c (fr x) st = Ok st' /\ left_alone T H st st' /\ let g' := mkCache (plain g) z (quar g) in sound st' B' (<[Z.to_nat c := g']> G) T H /\ cpu st' (<[Z.to_nat c := g']> G) c p' g'.
Proof.
  intros S Sc Cp. unfold promote. assert (Xt : x ∈ x :: T \/ H x <> 0) by (left; left). pose proof (way_fill _ _ _ _ _ x 0 S Xt) as S1. set (st1 := fill (fr x) 1 0 st) in *. assert (Cp1 : cpu st1 G c p g) by done.
  pose proof (fill_zeroed st x 1) as Z1. change (zeroed st1 x 1) in Z1. rewrite (cpu_of _ _ _ _ _ Cp1). pose proof (cpu_bucket _ _ _ _ _ _ _ _ S1 Cp1) as Bk.
  assert (D : exists st2 B2 p2 z2, (if PMM_PCP_ZERO_LIMIT <=? zero_count p then pmm_pcp_zero_drain hidden c st1 else Ok st1) = Ok st2 /\
    left_alone (x :: T) H st1 st2 /\ let g' := mkCache (plain g) z2 (quar g) in sound st2 B2 (<[Z.to_nat c := g']> G) (x :: T) H /\ cpu st2 (<[Z.to_nat c := g']> G) c p2 g' /\ Z.of_nat (length z2) < PMM_PCP_ZERO_LIMIT).
  { destruct (Z.leb_spec PMM_PCP_ZERO_LIMIT (zero_count p)).
    - unfold pmm_pcp_zero_drain. destruct (zero_drain_ok (Z.to_nat PMM_PCP_ZERO_DRAIN) hidden st1 B G (x :: T) H c p g S1 Sc Cp1) as (st2 & B2 & p2 & -> & L & S2 & Cp2). exists st2, B2, p2, (drop (Z.to_nat PMM_PCP_ZERO_DRAIN) (zeroes g)). split_and!; try done.
      pose proof (bk_zcount _ _ _ Bk). pose proof (bk_zmax _ _ _ Bk). rewrite length_drop. unfold PMM_PCP_ZERO_DRAIN, PMM_PCP_ZERO_LIMIT in *. lia.
    - exists st1, B, p, (zeroes g). cbv zeta. rewrite <- (bk_zcount _ _ _ Bk). destruct Cp1 as (? & ? & ?). replace (mkCache (plain g) (zeroes g) (quar g)) with g by (by destruct g). rewrite list_insert_id by done. split_and!; done. }
  destruct D as (st2 & B2 & p2 & z2 & -> & L2 & S2 & Cp2 & Lz). cbn [rbind]. pose proof (cpu_bucket _ _ _ _ _ _ _ _ S2 Cp2) as Bk2. destruct (zero_push_ok st2 B2 _ T H c p2 _ x S2 Cp2) as (p' & m & -> & S' & Off); [rewrite (bk_zcount _ _ _ Bk2); done|intros y o Hy Ho; rewrite L2; [by apply Z1|left; replace y with x by lia; left|done]|].
  eexists _, B2, p', (x :: z2). split; [done|]. pose proof (way_head _ _ _ _ _ _ S) as Nx. split.
  { apply (left_trans T H st st1); [intros y o Hy Ho; apply fill_off; [by intros ->|done]|]. eapply left_trans; [by eapply left_tail|]. intros y o Hy Ho. apply Off; [by intros ->|done]. }
  cbn [plain zeroes quar] in S'. rewrite list_insert_insert_eq in S'. split; [done|]. apply (cpu_rebucket _ _ _ _ _ p' (mkCache (plain g) (x :: z2) (quar g)) m) in Cp2. by rewrite list_insert_insert_eq in Cp2.
Qed.

(** ** The quarantine *)

(** Between the operations no quarantine is over its limit. *)
Definition calm (G : list cache) : Prop := Forall (fun g => Z.of_nat (length (quar g)) <= PMM_PCP_Q_LIMIT) G.
Lemma calm_insert G c g : calm G -> Z.of_nat (length (quar g)) <= PMM_PCP_Q_LIMIT -> calm (<[c := g]> G).
Proof. intros. by apply Forall_insert. Qed.
Lemma calm_at G c g : calm G -> G !! c = Some g -> Z.of_nat (length (quar g)) <= PMM_PCP_Q_LIMIT.
Proof. intros F. by apply (proj1 (Forall_lookup _ _) F). Qed.
Lemma left_rebucket T H c p st : left_alone T H st (rebucket c p (mem st) st).
Proof. done. Qed.
(** The oldest of the quarantine becomes a zero page. *)
Lemma promote_oldest hidden st B G T H c p g x l : sound st B G T H -> secrets_held hidden H -> cpu st G c p g -> quar g = x :: l ->
  exists st1 st' B' p' z, q_pop c st = (fr x, st1) /\ mem st1 = mem st /\ mem st (fr x + PMM_POISON_CANARY_OFF) = PMM_POISON_CANARY /\ promote hidden c (fr x) st1 = Ok st' /\ left_alone T H st st' /\
    let g' := mkCache (plain g) z l in sound st' B' (<[Z.to_nat c := g']> G) T H /\ cpu st' (<[Z.to_nat c := g']> G) c p' g'.
Proof.
  intros S Sc Cp Eq. pose proof Cp as (Hc & Hp & Hg). destruct (q_pop_ok st B G T H c p g x l S Hc Hp Hg Eq) as (p1 & -> & S1 & Cn). apply (cpu_rebucket _ _ _ _ _ p1 (mkCache (plain g) (zeroes g) l) (mem st)) in Cp.
  destruct (promote_ok hidden _ _ _ _ _ c _ _ x S1 Sc Cp) as (st' & B' & p' & z & Pr & L & S' & Cp'). cbn [plain zeroes quar] in *. rewrite list_insert_insert_eq in S', Cp'. eexists _, st', B', p', z. split_and!; done.
Qed.
Lemma park_ok hidden poison st B G T H c x : sound st B G (x :: T) H -> secrets_held hidden H -> calm G -> 0 <= c < MAX_CPUS -> parked (fr x) st = false ->
  exists st' B' G', free_park hidden poison c (fr x) st = Ok st' /\ left_alone T H st st' /\ sound st' B' G' T H /\ calm G'.
Proof.
  intros S Sc Cm Hc Pk. unfold free_park. rewrite (so_ready _ _ _ _ _ S), Pk. pose proof (way_head _ _ _ _ _ _ S) as Nx. set (st1 := if poison then fill (fr x) 1 POISON_WORD st else st).
  assert (S1 : sound st1 B G (x :: T) H) by (subst st1; destruct poison; [apply way_fill; [done|left; left]|done]). assert (L1 : left_alone T H st st1). { subst st1. destruct poison; [|done]. intros y o Hy Ho. apply fill_off; [by intros ->|done]. }
  assert (Pk1 : parked (fr x) st1 = false). { subst st1. destruct poison; [|done]. unfold parked, load. cbn [fill set_mem mem]. rewrite !page_offset by (unfold PMM_POISON_CANARY_OFF, PMM_ZERO_MAGIC_OFF; lia). unfold within. by rewrite (proj2 (Z.leb_le x x)), (proj2 (Z.ltb_lt x (x + 1))) by lia. }
  destruct (bucket_at _ _ _ _ _ c S1 Hc) as (p & g & Hp & Hg & Bk). pose proof (calm_at _ _ _ Cm Hg) as Cg. pose proof (bk_qcount _ _ _ Bk) as Qc. assert (Cp : cpu st1 G c p g) by (split_and!; [lia|done|done]).
  destruct (q_push_ok st1 B G T H c p g x S1 ltac:(lia) Hp Hg ltac:(lia) Pk1) as (p2 & m & -> & S2 & Off). apply (cpu_rebucket _ _ _ _ _ p2 (mkCache (plain g) (zeroes g) (quar g ++ [x])) m) in Cp.
  set (st2 := rebucket (Z.to_nat c) p2 m st1) in *. pose proof (cpu_bucket _ _ _ _ _ _ _ _ S2 Cp) as Bk2. pose proof (bk_qcount _ _ _ Bk2) as Qc2. cbn [quar] in Qc2. rewrite length_app in Qc2. cbn in Qc2.
  assert (L2 : left_alone T H st st2). { eapply left_trans; [exact L1|]. intros y o Hy Ho. apply Off; [|done]. intros [->|X]; [done|]. destruct (way_out _ _ _ _ _ y S1) as (_ & N & _); [rewrite elem_of_cons; tauto|]. apply N. eapply in_all; [done|by apply quar_sub]. }
  rewrite (cpu_of _ _ _ _ _ Cp). destruct (Z.ltb_spec PMM_PCP_Q_LIMIT (q_count p2)) as [Lt|].
  - destruct (quar g ++ [x]) as [|y l] eqn:Eq; [by destruct (quar g)|]. destruct (promote_oldest hidden st2 B _ T H c p2 _ y l S2 Sc Cp eq_refl) as (st3 & st' & B' & p' & z & -> & _ & _ & -> & L & S' & Cp').
    eexists st', B', _. split_and!; [done|by eapply left_trans|exact S'|]. cbn [plain]. rewrite list_insert_insert_eq. apply calm_insert; [done|]. cbn [quar]. assert (length (quar g ++ [x]) = length (y :: l)) as El by (by rewrite Eq). rewrite length_app in El. cbn in El. lia.
  - eexists st2, B, _. split_and!; [done|done|exact S2|]. apply calm_insert; [done|]. cbn [quar]. rewrite length_app. cbn. lia.
Qed.
Lemma scrub_loop_ok n hidden : forall st B G T H c, sound st B G T H -> secrets_held hidden H -> calm G -> 0 <= c < MAX_CPUS ->
  exists st' B' G', scrub_loop n hidden c st = Ok st' /\ left_alone T H st st' /\ sound st' B' G' T H /\ calm G'.
Proof.
  induction n as [|n IH]; intros st B G T H c S Sc Cm Hc; cbn [scrub_loop]; [by exists st, B, G|]. destruct (bucket_at _ _ _ _ _ c S Hc) as (p & g & Hp & Hg & Bk). assert (Cp : cpu st G c p g) by (split_and!; [lia|done|done]).
  rewrite (cpu_of _ _ _ _ _ Cp). pose proof (bk_qcount _ _ _ Bk) as Qc. pose proof (calm_at _ _ _ Cm Hg) as Cg. destruct (Z.leb_spec (q_count p) PMM_PCP_Q_AGE) as [|Gt]; [by exists st, B, G|]. unfold PMM_PCP_Q_AGE in Gt.
  destruct (quar g) as [|x l] eqn:Eq; [cbn in Qc; lia|]. destruct (promote_oldest hidden st B G T H c p g x l S Sc Cp Eq) as (st1 & st2 & B2 & p2 & z & -> & Em & Cn & Pr & L2 & S2 & Cp2).
  unfold load. rewrite Em, Cn. cbn [negb]. rewrite Z.eqb_refl. cbn [negb]. rewrite Pr. cbn [rbind]. destruct (IH st2 B2 _ T H c S2 Sc) as (st' & B' & G' & -> & L' & S' & Cm'); [|done|].
  - apply calm_insert; [done|]. cbn [quar length] in *. lia.
  - exists st', B', G'. split_and!; [done|by eapply left_trans|done|done].
Qed.

(** ** Drains *)

Lemma hold_back x v H : H x = 0 -> forall y, H y = hold x 0 (hold x v H) y.
Proof. intros H0 y. unfold hold. by destruct (Z.eqb_spec y x) as [->|]. Qed.
Lemma cpu_used st B G T H c p g x : sound st B G T H -> cpu st G c p g -> x ∈ pages_of g -> 0 < x < frame_count st /\ H x = 0 /\ bit (pt_frames st) x = false.
Proof.
  intros S (_ & _ & Hg) Hx. destruct (so_used _ _ _ _ _ S x) as (? & _ & ?); [apply elem_of_app; left; by eapply in_all|]. split_and!; [lia..|done|]. eapply not_pt; [done|lia|done].
Qed.
(** The first of the plain bucket is taken. *)
Lemma plain_pop_ok st B G T H c p g x l : sound st B G T H -> cpu st G c p g -> plain g = x :: l -> head p = fr x /\
  exists p', upd_pcp c (fun p => set_plain (load (fr x) st) (u32 (count p - 1)) p) st = rebucket (Z.to_nat c) p' (mem st) st /\
    sound (rebucket (Z.to_nat c) p' (mem st) st) B (<[Z.to_nat c := mkCache l (zeroes g) (quar g)]> G) T (hold x 1 H).
Proof.
  intros S Cp Ep. pose proof Cp as (Hc & Hp & Hg). pose proof (cpu_bucket _ _ _ _ _ _ _ _ S Cp) as Bk. pose proof (bk_plain _ _ _ Bk) as C. rewrite Ep in C. destruct C as [Hh _]. split; [done|].
  exists (set_plain (mem st (fr x)) (u32 (count p - 1)) p). split; [|by apply plain_pop_sound]. pose proof (upd_at st c p (fun p => set_plain (mem st (fr x)) (u32 (count p - 1)) p) (mem st) Hc Hp) as E.
  rewrite <- E. by destruct st.
Qed.
Lemma drain_plain_ok n hidden : forall st B G T H c p g, sound st B G T H -> secrets_held hidden H -> cpu st G c p g -> length (plain g) = n ->
  exists st' B' p', drain_plain n hidden c st = Ok st' /\ left_alone T H st st' /\ let g' := mkCache [] (zeroes g) (quar g) in sound st' B' (<[Z.to_nat c := g']> G) T H /\ cpu st' (<[Z.to_nat c := g']> G) c p' g'.
Proof.
  induction n as [|n IH]; intros st B G T H c p g S Sc Cp L; cbn [drain_plain]; pose proof Cp as (Hc & Hp & Hg).
  - exists st, B, p. assert (mkCache [] (zeroes g) (quar g) = g) as -> by (destruct g as [[|] ? ?]; done). cbv zeta. rewrite list_insert_id by done. done.
  - destruct (plain g) as [|x l] eqn:Ep; [done|]. rewrite (cpu_of _ _ _ _ _ Cp). destruct (plain_pop_ok st B G T H c p g x l S Cp Ep) as (-> & p1 & -> & S1).
    destruct (cpu_used _ _ _ _ _ _ _ _ x S Cp) as (_ & H0 & Np); [apply plain_sub; rewrite Ep; left|]. assert (Nh : hidden (fr x) = false). { destruct (hidden (fr x)) eqn:E; [|done]. by destruct (Sc x E). }
    destruct (return_held _ _ _ _ _ hidden x S1) as (st2 & B2 & -> & S2 & K2 & L2); [unfold hold; by rewrite Z.eqb_refl|done|done|]. cbn [rbind]. apply (sound_ext _ _ _ _ _ H (hold_back x 1 H H0)) in S2.
    apply (cpu_rebucket _ _ _ _ _ p1 (mkCache l (zeroes g) (quar g)) (mem st)) in Cp. apply (cpu_kept _ _ _ _ _ _ K2) in Cp. destruct (IH st2 B2 _ T H c _ _ S2 Sc Cp) as (st' & B' & p' & -> & L' & S' & Cp'); [cbn [plain]; cbn in L; lia|].
    cbn [plain zeroes quar] in *. rewrite list_insert_insert_eq in S', Cp'. exists st', B', p'. split_and!; try done. eapply left_trans; [|exact L']. intros y o Hy. apply L2. by rewrite <- (hold_back x 1 H H0).
Qed.
Lemma drain_q_ok n hidden : forall st B G T H c p g, sound st B G T H -> secrets_held hidden H -> cpu st G c p g -> length (quar g) = n ->
  exists st' B' p', drain_q n hidden c st = Ok st' /\ left_alone T H st st' /\ let g' := mkCache (plain g) (zeroes g) [] in sound st' B' (<[Z.to_nat c := g']> G) T H /\ cpu st' (<[Z.to_nat c := g']> G) c p' g'.
Proof.
  induction n as [|n IH]; intros st B G T H c p g S Sc Cp L; cbn [drain_q]; pose proof Cp as (Hc & Hp & Hg).
  - exists st, B, p. assert (mkCache (plain g) (zeroes g) [] = g) as -> by (destruct g as [? ? [|]]; done). cbv zeta. rewrite list_insert_id by done. done.
  - pose proof (cpu_bucket _ _ _ _ _ _ _ _ S Cp) as Bk. pose proof (bk_qcount _ _ _ Bk) as Qc. destruct (quar g) as [|x l] eqn:Eq; [done|]. cbn [length] in Qc, L. rewrite (cpu_of _ _ _ _ _ Cp), (proj2 (Z.eqb_neq (q_count p) 0)) by lia.
    destruct (q_pop_ok st B G T H c p g x l S Hc Hp Hg Eq) as (p1 & -> & S1 & _). pose proof (way_head _ _ _ _ _ _ S1) as Nx. set (st1 := rebucket (Z.to_nat c) p1 (mem st) st) in *. assert (Xt : x ∈ x :: T \/ H x <> 0) by (left; left).
    pose proof (way_fill _ _ _ _ _ x 0 S1 Xt) as S1'. destruct (return_way _ _ _ _ _ hidden x S1' Sc) as (st2 & B2 & -> & S2 & K2 & L2). cbn [rbind].
    apply (cpu_rebucket _ _ _ _ _ p1 (mkCache (plain g) (zeroes g) l) (mem st)) in Cp. change (cpu (fill (fr x) 1 0 st1) (<[Z.to_nat c := mkCache (plain g) (zeroes g) l]> G) c p1 (mkCache (plain g) (zeroes g) l)) in Cp.
    apply (cpu_kept _ _ _ _ _ _ K2) in Cp. destruct (IH st2 B2 _ T H c _ _ S2 Sc Cp) as (st' & B' & p' & -> & L' & S' & Cp'); [cbn [quar]; lia|].
    cbn [plain zeroes quar] in *. rewrite list_insert_insert_eq in S', Cp'. exists st', B', p'. split_and!; try done. eapply left_trans; [|exact L']. eapply left_trans; [|exact L2]. intros y o Hy Ho. apply (fill_off st1 x 0); [by intros ->|done].
Qed.
Lemma drain_zero_ok n hidden : forall st B G T H c p g, sound st B G T H -> secrets_held hidden H -> cpu st G c p g -> length (zeroes g) = n ->
  exists st' B' p', drain_zero n hidden c st = Ok st' /\ left_alone T H st st' /\ let g' := mkCache (plain g) [] (quar g) in sound st' B' (<[Z.to_nat c := g']> G) T H /\ cpu st' (<[Z.to_nat c := g']> G) c p' g'.
Proof.
  induction n as [|n IH]; intros st B G T H c p g S Sc Cp L; cbn [drain_zero]; pose proof Cp as (Hc & Hp & Hg).
  - exists st, B, p. assert (mkCache (plain g) [] (quar g) = g) as -> by (destruct g as [? [|] ?]; done). cbv zeta. rewrite list_insert_id by done. done.
  - destruct (zeroes g) as [|x l] eqn:Ez; [done|]. destruct (zero_pop_ok st B G T H c p g x l S Hc Hp Hg Ez) as (p1 & -> & _ & S1). cbn [rbind].
    destruct (so_used _ _ _ _ _ S1 x) as (Hx & _); [apply elem_of_app; right; left|]. rewrite (proj2 (Z.eqb_neq (fr x) 0)) by (unfold fr, PAGE_SIZE; lia).
    destruct (return_way _ _ _ _ _ hidden x S1 Sc) as (st2 & B2 & -> & S2 & K2 & L2). cbn [rbind]. apply (cpu_rebucket _ _ _ _ _ p1 (mkCache (plain g) l (quar g)) (wiped x (mem st))) in Cp. apply (cpu_kept _ _ _ _ _ _ K2) in Cp.
    destruct (IH st2 B2 _ T H c _ _ S2 Sc Cp) as (st' & B' & p' & -> & L' & S' & Cp'); [cbn [zeroes]; cbn in L; lia|]. cbn [plain zeroes quar] in *. rewrite list_insert_insert_eq in S', Cp'. exists st', B', p'. split_and!; try done.
    eapply left_trans; [|exact L']. eapply left_trans; [|exact L2]. eapply (left_off _ _ _ _ _ _ x S); [by eapply way_head|apply wiped_off].
Qed.
Lemma drain_cpu_ok hidden st B G T H c : sound st B G T H -> secrets_held hidden H -> calm G -> 0 <= c < MAX_CPUS ->
  exists st' B', drain_cpu hidden c st = Ok st' /\ left_alone T H st st' /\ sound st' B' (<[Z.to_nat c := mkCache [] [] []]> G) T H.
Proof.
  intros S Sc Cm Hc. destruct (bucket_at _ _ _ _ _ c S Hc) as (p & g & Hp & Hg & Bk). assert (Cp : cpu st G c p g) by (split_and!; [lia|done|done]). unfold drain_cpu. rewrite (cpu_of _ _ _ _ _ Cp).
  destruct (drain_plain_ok (Z.to_nat (count p)) hidden st B G T H c p g S Sc Cp) as (st1 & B1 & p1 & -> & L1 & S1 & Cp1); [rewrite (bk_count _ _ _ Bk); lia|]. cbn [rbind].
  destruct (drain_q_ok (Z.to_nat (q_count p)) hidden st1 B1 _ T H c p1 _ S1 Sc Cp1) as (st2 & B2 & p2 & -> & L2 & S2 & Cp2); [rewrite (bk_qcount _ _ _ Bk); cbn [quar]; lia|]. cbn [rbind plain zeroes quar] in *. rewrite list_insert_insert_eq in S2, Cp2.
  destruct (drain_zero_ok (Z.to_nat (zero_count p)) hidden st2 B2 _ T H c p2 _ S2 Sc Cp2) as (st' & B' & p' & -> & L' & S' & _); [rewrite (bk_zcount _ _ _ Bk); cbn [zeroes]; lia|]. cbn [plain zeroes quar] in *. rewrite list_insert_insert_eq in S'.
  exists st', B'. split_and!; [done| |done]. eapply left_trans; [exact L1|]. by eapply left_trans.
Qed.
End PmmOps.
