(* ===== verification/PmmSystem.v ===== *)
(** The allocations, references, frees and page-table claims of [Pmm] over the
    caches of [PmmCache]: what each leaves, and to whom a page belongs after it. *)
From Stdlib Require Import ZifyBool.
From S2P Require Import Prelude Pmm PmmTree PmmAlloc PmmSeed PmmScan PmmCache PmmOps.
From stdpp Require Import list gmap.
Local Open Scope Z_scope.
Local Open Scope kernel_scope.

Module PmmSystem.
Import Pmm PmmTree PmmAlloc PmmSeed PmmScan PmmCache PmmOps.

(** ** Allocation *)

Definition hold_run (i n : Z) (H : Z -> Z) : Z -> Z := fun x => if within i n x then 1 else H x.
(** Pages [i] to [i + n] belonged to nobody, and are zero. *)
Record fresh (st' : pmm) (T : list Z) (H : Z -> Z) (i n : Z) : Prop := {
  fs_range : 0 < i /\ i + n <= frame_count st'; fs_held : forall x, i <= x < i + n -> H x = 0 /\ x ∉ T; fs_zero : zeroed st' i n }.
Lemma left_took st st' B G T H i n : sound st B G T H -> took st st' i n -> left_alone T H st st'.
Proof. intros S Tk x o Hx Ho. apply (tk_mem _ _ _ _ Tk); [done|]. by destruct (way_out _ _ _ _ _ _ S Hx) as (_ & _ & ?). Qed.
Lemma granted_sound st st' B G T H i n : sound st B G T H -> granted st st' i n -> exists B', sound st' B' G T (hold_run i n H) /\ fresh st' T H i n /\ left_alone T H st st'.
Proof.
  intros S [Tk Z0 [Hi Hn] [B' P]]. exists B'. split_and!; [by eapply sound_took| |by eapply left_took]. constructor; [|intros x Hx|done].
  - by rewrite (kept_count _ _ (tk_kept _ _ _ _ Tk)).
  - destruct (held_free _ _ _ _ _ x S (tk_was _ _ _ _ Tk x Hx)) as [? N]. split; [done|]. intros X. apply N, elem_of_app. by right.
Qed.
Lemma failed_sound st st' B G T H n : sound st B G T H -> failed st n st' -> sound st' B G T H /\ left_alone T H st st'.
Proof.
  intros [] [(c & Hc & ->) _ _]. split; [|done]. constructor; try done. by apply pool_cursor.
Qed.
(** What an allocation of [n] pages leaves. *)
Definition alloc_post (st : pmm) (T : list Z) (H : Z -> Z) (n frame : Z) (st' : pmm) (C : Prop) : Prop := exists B' G', calm G' /\ left_alone T H st st' /\
  (frame = 0 /\ sound st' B' G' T H /\ C \/ exists i, frame = fr i /\ fresh st' T H i n /\ sound st' B' G' T (hold_run i n H)).
Lemma answered_post st B G T H n frame st' C : sound st B G T H -> calm G -> answered st n frame st' -> (failed st n st' -> C) -> alloc_post st T H n frame st' C.
Proof.
  intros S Cm [(-> & F)|(i & -> & Gr)] HC.
  - destruct (failed_sound _ _ _ _ _ _ _ S F). exists B, G. split_and!; [done|done|]. left. split_and!; [done|done|by apply HC].
  - destruct (granted_sound _ _ _ _ _ _ _ _ S Gr) as (B' & S' & Fr & L). exists B', G. split_and!; [done|done|]. right. by exists i.
Qed.
Lemma post_weaken st T H n frame st' (C C' : Prop) : (C -> C') -> alloc_post st T H n frame st' C -> alloc_post st T H n frame st' C'.
Proof. intros HC (B' & G' & Cm & L & D). exists B', G'. split_and!; [done|done|]. destruct D as [(? & ? & ?)|?]; [left; tauto|by right]. Qed.
Lemma post_false st T H n frame st' C : alloc_post st T H n frame st' False -> alloc_post st T H n frame st' C.
Proof. by apply post_weaken. Qed.
Lemma post_left st st1 T H n frame st' C : left_alone T H st st1 -> alloc_post st1 T H n frame st' C -> alloc_post st T H n frame st' C.
Proof. intros L0 (B' & G' & Cm & L & D). exists B', G'. split_and!; [done|by eapply left_trans|done]. Qed.
Lemma round_post st B G T H n here : sound st B G T H -> calm G -> 0 <= here < 8 -> 0 < n < 2 ^ 63 ->
  exists frame st', alloc_round n here st = Ok (frame, st') /\ alloc_post st T H n frame st' (failed st n st').
Proof.
  intros S Cm Hh Hn. destruct (alloc_round_ok st B n here) as (frame & st' & E & A); try apply S; [by eapply sound_no_pt|done|done|]. exists frame, st'. split; [done|]. by eapply answered_post.
Qed.
Lemma scanned_post st B G T H lo hi n frame st' : sound st B G T H -> calm G -> scanned st lo hi n frame st' -> alloc_post st T H n frame st' (st' = st /\ no_run st lo hi n).
Proof.
  intros S Cm [(-> & -> & No)|(r & -> & _ & _ & Gr)].
  - exists B, G. split_and!; [done|done|]. by left.
  - destruct (granted_sound _ _ _ _ _ _ _ _ S Gr) as (B' & S' & Fr & L). exists B', G. split_and!; [done|done|]. right. by exists r.
Qed.
(** A block handed out with its pages filled. *)
Lemma served_post st B G T H order P Q frame st1 : sound st B G T H -> calm G -> 0 <= order -> served st (2 ^ order) P Q frame st1 ->
  frame = 0 /\ st1 = st /\ P \/ frame <> 0 /\ exists i, Q i /\ ((2 ^ order | i) /\ forall j, i <= j < i + 2 ^ order -> free_page st j) /\ pmm_check_handout frame st1 = Ok st1 /\ frame = fr i /\ alloc_post st T H (2 ^ order) frame (fill frame (2 ^ order) 0 st1) False.
Proof.
  intros S Cm Ho [(-> & -> & HP)|(i & B' & -> & Hi & Dv & HQ & Tk & P')]; [by left|right]. split; [unfold fr, PAGE_SIZE; lia|]. exists i. pose proof (pow_pos order Ho).
  destruct (handout_ok st st1 B' i (2 ^ order) (sound_no_pt _ _ _ _ _ S) Tk) as [Hd Gr]; [lia|done|done|]. split_and!; try done; [apply Tk|]. destruct (granted_sound _ _ _ _ _ _ _ _ S Gr) as (B2 & S2 & Fr & L). exists B2, G. split_and!; [done|done|]. right. by exists i.
Qed.

(** ** References *)

Lemma pool_refs st B l x v : pool st B -> length l = length (frame_refcounts st) -> bit (bitmap st) x = true -> (forall y, 0 <= y -> refc (set_refs l st) y = if y =? x then v else refc st y) -> pool (set_refs l st) B.
Proof.
  intros [[[S I L Hd] T] F N R] Ll U E. constructor; [|done|done|].
  - split; [|done]. constructor; [by apply shape_refs|done..].
  - intros j [Hj Fj]. change (0 <= j < frame_count st) in Hj. change (bit (bitmap st) j = false) in Fj. rewrite E by lia. destruct (Z.eqb_spec j x) as [->|]; [congruence|]. by apply R.
Qed.
(** A page neither free nor in a bucket gets [v] references. *)
Lemma set_ref_ok st B G T T' H x v : sound st B G T H -> x ∈ T \/ H x <> 0 -> 0 <= v -> (v = 0 -> bit (pt_frames st) x = false) -> NoDup T' -> (forall y, y ∈ T' -> y ∈ T /\ y <> x \/ y = x /\ v = 0) ->
  exists l, set_refcount x v st = Ok (set_refs l st) /\ sound (set_refs l st) B G T' (hold x v H).
Proof.
  intros S Hx Hv Np Nd Sub. destruct (way_out _ _ _ _ _ _ S Hx) as ([Rx U] & N & _). destruct (set_refcount_ok st x v (pool_shape _ _ (so_pool _ _ _ _ _ S)) ltac:(lia)) as (l & -> & L & E). exists l. split; [done|].
  pose proof S as []. unfold hold. constructor; try done.
  - by eapply pool_refs.
  - pose proof so_nodup0 as (N1 & N2 & N3)%NoDup_app. apply NoDup_app. split_and!; [done| |done]. intros y Hy Hy'. destruct (Sub y Hy') as [[? _]|[-> _]]; [by apply (N2 y Hy)|done].
  - intros y Hy. change (0 < y < frame_count st /\ bit (bitmap st) y = true /\ (if y =? x then v else H y) = 0). destruct (Z.eqb_spec y x) as [->|Ny].
    + split_and!; [lia..|done|]. apply elem_of_app in Hy as [Hy|Hy]; [done|]. by destruct (Sub x Hy) as [[_ ?]|[_ ?]].
    + apply so_used0. apply elem_of_app in Hy as [Hy|Hy]; apply elem_of_app; [by left|right]. destruct (Sub y Hy) as [[? _]|[? _]]; done.
  - intros y Hy. change (0 <= y < frame_count st) in Hy. rewrite E by lia. destruct (Z.eqb_spec y x) as [->|]; [rewrite not_plain by done; cbn; lia|]. by apply so_refs0.
  - intros y. change ((if y =? x then v else H y) <> 0 -> 0 < (if y =? x then v else H y) /\ 0 < y < frame_count st /\ bit (bitmap st) y = true). destruct (Z.eqb_spec y x) as [->|]; [|apply so_held0]. intros. split_and!; [lia..|done].
  - intros y Hy Py. destruct (Z.eqb_spec y x) as [->|]; [|by apply so_pt0]. intros ->. change (bit (pt_frames st) x = true) in Py. rewrite Np in Py; done.
Qed.
Lemma hold_run_one i H x : hold_run i 1 H x = hold i 1 H x.
Proof. unfold hold_run, hold, within. destruct (Z.eqb_spec x i); destruct (Z.leb_spec i x), (Z.ltb_spec x (i + 1)); cbn; done || lia. Qed.

(** ** One frame *)

Lemma refill_ok n here : 0 <= here < 8 -> forall st B G T H c p g, sound st B G T H -> cpu st G c p g ->
  exists st' B' p' l, refill_loop n c here st = Ok st' /\ left_alone T H st st' /\ let g' := mkCache (l ++ plain g) (zeroes g) (quar g) in sound st' B' (<[Z.to_nat c := g']> G) T H /\ cpu st' (<[Z.to_nat c := g']> G) c p' g' /\
    ((n > 0)%nat -> l ++ plain g = [] -> st' = st /\ none_of B' 0).
Proof.
  intros Hh. induction n as [|n IH]; intros st B G T H c p g S Cp; cbn [refill_loop]; pose proof Cp as (Hc & Hp & Hg); assert (Gc : <[Z.to_nat c := mkCache (plain g) (zeroes g) (quar g)]> G = G) by (apply list_insert_id; by destruct g).
  - exists st, B, p, []. cbv zeta. cbn [app]. rewrite Gc. split_and!; try done; [by destruct g|lia].
  - rewrite (cpu_of _ _ _ _ _ Cp). pose proof (cpu_bucket _ _ _ _ _ _ _ _ S Cp) as Bk. destruct (Z.leb_spec PMM_PCP_LIMIT (count p)) as [Ge|Lt].
    { exists st, B, p, []. cbv zeta. cbn [app]. rewrite Gc. split_and!; try done; [by destruct g|]. intros _ El. rewrite (bk_count _ _ _ Bk), El in Ge. done. }
    destruct (buddy_alloc_pref_ok st B 0 (- 1) false here (so_pool _ _ _ _ _ S) (so_topo _ _ _ _ _ S) ltac:(lia) Hh) as (frame & st1 & E1 & Sv). change (buddy_alloc_pref 0 (- 1) false here st) with (buddy_alloc 0 here st) in E1. rewrite E1. cbn [rbind].
    destruct Sv as [(-> & -> & No)|(x & B1 & -> & Hx & _ & _ & Tk & P1)].
    { cbn [Z.eqb]. exists st, B, p, []. cbv zeta. cbn [app]. rewrite Gc. split_and!; try done; [by destruct g|]. intros _ _. split; [done|by apply No]. }
    rewrite (proj2 (Z.eqb_neq (fr x) 0)) by (unfold fr, PAGE_SIZE; lia). pose proof (tk_kept _ _ _ _ Tk) as K1. apply (cpu_kept _ _ _ _ _ _ K1) in Cp. rewrite (cpu_of _ _ _ _ _ Cp).
    pose proof (left_took _ _ _ _ _ _ _ _ S Tk) as L1. assert (Fx : free_page st x) by (apply (tk_was _ _ _ _ Tk); change (2 ^ 0) with 1; lia). destruct (held_free _ _ _ _ _ x S Fx) as [H0 Nx]. pose proof (sound_no_pt _ _ _ _ _ S x Fx) as Np.
    pose proof (sound_took _ _ B1 _ _ _ _ _ _ S Tk P1 Hx) as S1. apply (sound_ext _ _ _ _ _ (hold x 1 H)) in S1; [|intros y; symmetry; apply hold_run_one]. destruct (proj1 (kept_iff _ _) K1) as (_ & _ & _ & _ & Ept & _).
    set (m := fun a => if a =? fr x then head p else mem st1 a). assert (Off : off_page x (mem st1) m). { intros z o N Ho. unfold m. by rewrite addr0_eqb, (proj2 (Z.eqb_neq z x)) by done. }
    destruct Cp as (_ & Hp1 & _). assert (X1 : hold x 1 H x = 1) by (unfold hold; by rewrite Z.eqb_refl). assert (Np1 : bit (pt_frames st1) x = false) by (by rewrite Ept). assert (Lk : m (fr x) = head p) by (unfold m; by rewrite Z.eqb_refl).
    pose proof (plain_push_sound st1 B1 G T _ _ p g x m Hp1 Hg Off S1 X1 Np1 Lt Lk) as S2. apply (sound_ext _ _ _ _ _ H (hold_back x 1 H H0)) in S2.
    change (store (fr x) (head p) st1) with (set_mem m st1). rewrite (upd_at st1 c p (fun p => set_plain (fr x) (u32 (count p + 1)) p) m) by done. set (p2 := set_plain _ _ p) in *. assert (Cp2 : cpu (rebucket (Z.to_nat c) p2 m st1) (<[Z.to_nat c := mkCache (x :: plain g) (zeroes g) (quar g)]> G) c p2 (mkCache (x :: plain g) (zeroes g) (quar g))) by (by eapply cpu_rebucket).
    destruct (IH _ _ _ _ _ c _ _ S2 Cp2) as (st' & B' & p' & l & -> & L' & S' & Cp' & Em). cbn [plain zeroes quar] in *. rewrite list_insert_insert_eq in S', Cp'. exists st', B', p', (l ++ [x]). rewrite <- (assoc_L (++)). split_and!; try done.
    + eapply left_trans; [exact L1|]. eapply left_trans; [|exact L']. intros y o Hy Ho. apply Off; [|done]. intros ->. destruct Hy as [Hy|Hy]; [|done]. apply Nx, elem_of_app. by right.
    + intros _ El. by destruct l.
Qed.
Lemma handout_held st B G T H x : sound st B G T H -> 0 < x < frame_count st -> bit (pt_frames st) x = false -> pmm_check_handout (fr x) st = Ok st.
Proof. intros S Hx Np. apply check_handout_ok; [by eapply pool_shape, S|lia|done]. Qed.
Lemma calm_same G c g l z : calm G -> G !! c = Some g -> calm (<[c := mkCache l z (quar g)]> G).
Proof. intros Cm Hg. apply calm_insert; [done|]. by apply (calm_at _ _ _ Cm Hg). Qed.
Lemma take_zero_ok st B G T H c p g : sound st B G T H -> calm G -> cpu st G c p g -> 0 < zero_count p -> exists frame st', take_zero c st = Ok (frame, st') /\ alloc_post st T H 1 frame st' False.
Proof.
  intros S Cm Cp Hz. pose proof Cp as (Hc & Hp & Hg). pose proof (cpu_bucket _ _ _ _ _ _ _ _ S Cp) as Bk. destruct (zeroes g) as [|x l] eqn:Ez; [rewrite (bk_zcount _ _ _ Bk), Ez in Hz; done|].
  destruct (zero_pop_ok st B G T H c p g x l S Hc Hp Hg Ez) as (p1 & _ & Ep1 & S1). destruct (cpu_used _ _ _ _ _ _ _ _ x S Cp) as (Hx & H0 & Np); [apply zeroes_sub; rewrite Ez; left|].
  pose proof (bk_zero _ _ _ Bk) as C. rewrite Ez in C. destruct C as [Hh _]. pose proof (bk_zeroes _ _ _ Bk) as Zs. rewrite Ez in Zs. apply Forall_cons in Zs as [Zx _]. pose proof Zx as [Mg _].
  unfold take_zero. rewrite (cpu_of _ _ _ _ _ Cp), Hh. unfold load at 1. rewrite Mg, Z.eqb_refl. cbn [negb]. set (st1 := rebucket (Z.to_nat c) p1 (wiped x (mem st)) st) in *.
  assert (E1 : store (fr x + PMM_ZERO_MAGIC_OFF) 0 (upd_pcp c (fun p => set_zero (load (fr x) st) (u32 (zero_count p - 1)) p) (store (fr x) 0 st)) = st1).
  { change (store (fr x) 0 st) with (set_mem (fun a => if a =? fr x then 0 else mem st a) st). rewrite (upd_at st c p) by done. subst st1. rewrite Ep1. done. }
  rewrite E1, fr_index. pose proof (way_head _ _ _ _ _ _ S1) as Nx. pose proof (so_nodup _ _ _ _ _ S1) as (_ & _ & [Nt Nd]%NoDup_cons)%NoDup_app.
  destruct (set_ref_ok st1 B _ (x :: T) T H x 1 S1) as (r & -> & S2); [left; left|lia|lia|done|intros y Hy; left; split; [by right|by intros ->]|]. cbn [rbind]. rewrite (handout_held _ _ _ _ _ x S2) by done. cbn [rbind].
  set (st2 := set_refs r st1) in *. assert (X1 : x ∈ T \/ hold x 1 H x <> 0) by (right; unfold hold; by rewrite Z.eqb_refl).
  set (st3 := if dirty (fr x) st2 then fill (fr x) 1 0 st2 else st2). assert (S3 : sound st3 B (<[Z.to_nat c := mkCache (plain g) l (quar g)]> G) T (hold x 1 H)) by (subst st3; destruct (dirty _ _); [by apply way_fill|done]).
  exists (fr x), st3. split; [done|]. exists B, (<[Z.to_nat c := mkCache (plain g) l (quar g)]> G). split_and!; [by apply calm_same| |right; exists x; split_and!; [done| |by apply (sound_ext _ _ _ _ (hold x 1 H)); [apply hold_run_one|]]].
  - intros y o Hy Ho. assert (y <> x) by (by intros ->). subst st3. destruct (dirty _ _); [rewrite (fill_off st2 x 0 y o) by done|]; by apply (wiped_off x (mem st)).
  - constructor; [split; [lia|]; subst st3; destruct (dirty _ _); change (x + 1 <= frame_count st); lia|intros y Hy; replace y with x by lia; by split|]. subst st3. destruct (dirty _ _); [apply fill_zeroed|].
    intros y o Hy Ho. replace y with x by lia. by apply (wiped_zero x (mem st)).
Qed.
Lemma take_plain_ok st B G T H c p g : sound st B G T H -> calm G -> cpu st G c p g -> 0 < count p -> exists frame st', take_plain c st = Ok (frame, st') /\ alloc_post st T H 1 frame st' False.
Proof.
  intros S Cm Cp Hz. pose proof Cp as (Hc & Hp & Hg). pose proof (cpu_bucket _ _ _ _ _ _ _ _ S Cp) as Bk. destruct (plain g) as [|x l] eqn:Ep; [rewrite (bk_count _ _ _ Bk), Ep in Hz; done|].
  destruct (plain_pop_ok st B G T H c p g x l S Cp Ep) as (Hh & p1 & E1 & S1). destruct (cpu_used _ _ _ _ _ _ _ _ x S Cp) as (Hx & H0 & Np); [apply plain_sub; rewrite Ep; left|].
  unfold take_plain. rewrite (cpu_of _ _ _ _ _ Cp), Hh, E1, fr_index. set (st1 := rebucket (Z.to_nat c) p1 (mem st) st) in *. assert (X1 : hold x 1 H x = 1) by (unfold hold; by rewrite Z.eqb_refl).
  assert (Nt : x ∉ T). { intros X. pose proof (nodup_at _ _ _ _ _ _ _ S Hg) as (_ & N & _)%NoDup_app. apply (N x); [apply plain_sub; rewrite Ep; left|done]. }
  assert (Nd : NoDup T) by (pose proof (so_nodup _ _ _ _ _ S) as (_ & _ & N)%NoDup_app; done). destruct (set_ref_ok st1 B _ T T _ x 1 S1) as (r & -> & S2); [right; lia|lia|lia|done|intros y Hy; left; split; [done|by intros ->]|]. cbn [rbind].
  rewrite (handout_held _ _ _ _ _ x S2) by done. cbn [rbind]. set (st2 := set_refs r st1) in *. assert (X2 : x ∈ T \/ hold x 1 (hold x 1 H) x <> 0) by (right; unfold hold; by rewrite Z.eqb_refl).
  pose proof (way_fill _ _ _ _ _ x 0 S2 X2) as S3. eexists _, _. split; [done|]. exists B, (<[Z.to_nat c := mkCache l (zeroes g) (quar g)]> G). split_and!; [by apply calm_same| |right; exists x; split_and!; [done| |]].
  - intros y o Hy Ho. rewrite (fill_off st2 x 0 y o); [done| |done]. intros ->. by destruct Hy.
  - constructor; [split; [lia|]; change (x + 1 <= frame_count st); lia|intros y Hy; replace y with x by lia; by split|apply fill_zeroed].
  - eapply sound_ext; [|exact S3]. intros y. rewrite hold_run_one. unfold hold. by destruct (y =? x).
Qed.
(** Nothing is left: no page is free, and no bucket of the CPU has one. *)
Definition exhausted (st : pmm) (c : Z) : Prop := free_frames st = 0 /\ zero_count (pcp_of c st) = 0 /\ count (pcp_of c st) = 0.
Lemma no_run_free st B : pool st B -> no_run st 0 (frame_count st) 1 -> free_frames st = 0.
Proof.
  intros P No. rewrite (po_free _ _ P). unfold nwhere. rewrite count_if_zero; [done|]. intros x Hx%elem_pages. unfold freeb. destruct (No x ltac:(lia) ltac:(lia)) as (q & Hq & Bq). replace q with x in Bq by lia. by rewrite Bq.
Qed.
Lemma alloc_frame_ok st B G T H c here : sound st B G T H -> calm G -> 0 <= c < MAX_CPUS -> 0 <= here < 8 -> exists frame st', pmm_alloc_frame c here st = Ok (frame, st') /\ alloc_post st T H 1 frame st' (exhausted st c).
Proof.
  intros S Cm Hc Hh. unfold pmm_alloc_frame. rewrite (so_ready _ _ _ _ _ S). cbn [negb]. destruct (bucket_at _ _ _ _ _ c S Hc) as (p & g & Hp & Hg & Bk). assert (Cp : cpu st G c p g) by (split_and!; [lia|done|done]). rewrite (cpu_of _ _ _ _ _ Cp).
  destruct (Z.ltb_spec 0 (zero_count p)); [destruct (take_zero_ok st B G T H c p g S Cm Cp) as (frame & st' & E & A); [done|]; exists frame, st'; split; [done|]; by apply post_false|].
  destruct (Z.eqb_spec (count p) 0) as [C0|C0]; cbn [rbind].
  - assert (Pl : plain g = []). { pose proof (bk_count _ _ _ Bk) as X. destruct (plain g); [done|]. cbn in X. lia. }
    unfold pmm_pcp_refill. destruct (refill_ok (Z.to_nat PMM_PCP_REFILL) here Hh st B G T H c p g S Cp) as (st1 & B1 & p1 & l & -> & L1 & S1 & Cp1 & Em). cbn [rbind]. rewrite (cpu_of _ _ _ _ _ Cp1). pose proof (calm_same _ _ _ (l ++ plain g) (zeroes g) Cm Hg) as Cm1.
    pose proof (cpu_bucket _ _ _ _ _ _ _ _ S1 Cp1) as Bk1. destruct (Z.ltb_spec 0 (count p1)).
    + destruct (take_plain_ok _ _ _ _ _ c _ _ S1 Cm1 Cp1) as (frame & st' & E & A); [done|]. exists frame, st'. split; [done|]. eapply post_left; [done|]. by apply post_false.
    + assert (l ++ plain g = []) as El. { pose proof (bk_count _ _ _ Bk1) as X. cbn [plain] in X. destruct (l ++ plain g); [done|]. cbn in X. lia. } destruct (Em ltac:(unfold PMM_PCP_REFILL; lia) El) as [-> _].
      destruct (round_post st B1 _ T H 1 here S1 Cm1 Hh) as (frame & st' & E & A); [lia|]. exists frame, st'. split; [done|]. eapply post_weaken; [|exact A]. intros F. unfold exhausted. rewrite (cpu_of _ _ _ _ _ Cp). pose proof (bk_zcount _ _ _ Bk).
      split_and!; [|lia|done]. eapply no_run_free; [apply S|]. apply (fl_none _ _ _ F). by right.
  - pose proof (bk_count _ _ _ Bk). rewrite (cpu_of _ _ _ _ _ Cp), (proj2 (Z.ltb_lt 0 (count p))) by lia. destruct (take_plain_ok _ _ _ _ _ c _ _ S Cm Cp) as (frame & st' & E & A); [lia|]. exists frame, st'. split; [done|]. by apply post_false.
Qed.

(** ** The other ways to allocate *)

(** No aligned run of [2 ^ order] free pages. *)
Definition no_block (st : pmm) (order : Z) : Prop := forall i, 0 <= i -> (2 ^ order | i) -> i + 2 ^ order <= frame_count st -> exists j, i <= j < i + 2 ^ order /\ bit (bitmap st) j = true.
Lemma alloc_block_ok st B G T H order node strict here : sound st B G T H -> calm G -> 0 <= order <= 18 -> 0 <= here < 8 -> node < 8 ->
  exists frame st', pmm_alloc_block_node order node strict here st = Ok (frame, st') /\ alloc_post st T H (2 ^ order) frame st' (strict = false -> no_block st order) /\
    forall i, frame = fr i -> i <> 0 -> (2 ^ order | i) /\ (forall j, i <= j < i + 2 ^ order -> free_page st j) /\ (strict = true -> pmm_nodes st <= 1 \/ pmm_node_of frame st = if node <? 0 then here else node).
Proof.
  intros S Cm Ho Hh Hn. unfold pmm_alloc_block_node, BUDDY_MAX_ORDER. rewrite (proj2 (Z.ltb_ge order 0)), (proj2 (Z.ltb_ge 18 order)), (so_ready _ _ _ _ _ S) by lia. cbn [orb negb].
  destruct (buddy_alloc_pref_ok st B order node strict here (so_pool _ _ _ _ _ S) (so_topo _ _ _ _ _ S) Ho) as (frame & st1 & -> & Sv); [destruct (Z.ltb_spec node 0); lia|]. cbn [rbind].
  destruct (served_post _ _ _ _ _ order _ _ _ _ S Cm ltac:(lia) Sv) as [(-> & -> & No)|(N & i & Q & Dv & -> & -> & A)].
  - cbn [Z.eqb]. eexists _, _. split; [done|]. split; [|intros i E Ni; unfold fr, PAGE_SIZE in E; lia]. exists B, G. split_and!; [done|done|]. left. split_and!; [done|done|]. intros Es. exact (proj1 (none_free st B order (so_pool _ _ _ _ _ S) Ho) (No Es)).
  - rewrite (proj2 (Z.eqb_neq (fr i) 0)) by done. cbn [rbind]. unfold buddy_pages. rewrite Z.shiftl_1_l. eexists _, _. split; [done|]. split; [by apply post_false|]. intros j E _. apply fr_inj in E as <-. split; [apply Dv|]. split; [apply Dv|done].
Qed.
Lemma alloc_frame_node_ok st B G T H node strict c here : sound st B G T H -> calm G -> 0 <= c < MAX_CPUS -> 0 <= here < 8 -> node < 8 ->
  exists frame st', pmm_alloc_frame_node node strict c here st = Ok (frame, st') /\ alloc_post st T H 1 frame st' (strict = false \/ pmm_nodes st <= 1 \/ node < 0 -> free_frames st = 0).
Proof.
  intros S Cm Hc Hh Hn. unfold pmm_alloc_frame_node. rewrite (so_ready _ _ _ _ _ S). destruct ((pmm_nodes st <=? 1) || (node <? 0)) eqn:C.
  { destruct (alloc_frame_ok _ _ _ _ _ c here S Cm Hc Hh) as (frame & st' & -> & A). eexists _, _. split; [done|]. eapply post_weaken; [|exact A]. intros [? _] _. done. }
  destruct (buddy_alloc_pref_ok st B 0 node strict here (so_pool _ _ _ _ _ S) (so_topo _ _ _ _ _ S) ltac:(lia)) as (frame & st1 & -> & Sv); [destruct (Z.ltb_spec node 0); lia|]. cbn [rbind].
  destruct (served_post _ _ _ _ _ 0 _ _ _ _ S Cm ltac:(lia) Sv) as [(-> & -> & No)|(N & i & Q & Dv & Hd & -> & A)].
  - cbn [negb Z.eqb]. destruct strict.
    + eexists _, _. split; [done|]. exists B, G. split_and!; [done|done|]. left. split_and!; [done|done|]. intros [?|?]; [done|lia].
    + destruct (round_post _ _ _ _ _ 1 here S Cm Hh) as (frame & st' & -> & A); [lia|]. eexists _, _. split; [done|]. eapply post_weaken; [|exact A]. intros F _. eapply no_run_free; [apply S|]. apply (fl_none _ _ _ F). by right.
  - rewrite (proj2 (Z.eqb_neq (fr i) 0)) by done. cbn [negb]. rewrite Hd. cbn [rbind]. eexists _, _. split; [done|]. by apply post_false.
Qed.
Lemma below_post st B G T H n limit : sound st B G T H -> calm G -> 0 <= n -> 0 <= limit < 2 ^ 64 -> exists frame st', pmm_alloc_frames_below n limit st = Ok (frame, st') /\ alloc_post st T H n frame st' True.
Proof.
  intros S Cm Hn Hl. assert (Z0 : alloc_post st T H n 0 st True) by (exists B, G; split_and!; [done|done|]; by left). destruct (Z.eqb_spec n 0) as [N0|N0]; [eexists _, _; split; [unfold pmm_alloc_frames_below; by rewrite (proj2 (Z.eqb_eq n 0))|done]|].
  destruct (Z.ltb_spec limit PAGE_SIZE) as [Lp|Lp]; [eexists _, _; split; [unfold pmm_alloc_frames_below; by rewrite (proj2 (Z.ltb_lt limit PAGE_SIZE)), orb_true_r|done]|].
  destruct (decide (limit = 2 ^ 64 - 1)) as [->|].
  - eexists _, _. split; [|exact Z0]. unfold pmm_alloc_frames_below. rewrite (proj2 (Z.eqb_neq n 0)) by done. cbn [orb]. change (2 ^ 64 - 1 <? PAGE_SIZE) with false. cbv iota. change (u64 (2 ^ 64 - 1 + 1) / PAGE_SIZE) with 0. cbv zeta.
    pose proof (s_count _ (pool_shape _ _ (so_pool _ _ _ _ _ S))). destruct (Z.ltb_spec 0 (frame_count st)) as [|Ge]; [done|]. replace (frame_count st) with 0 by lia. done.
  - destruct (alloc_frames_below_ok st B n limit (so_pool _ _ _ _ _ S) (so_ready _ _ _ _ _ S) (sound_no_pt _ _ _ _ _ S)) as (frame & st' & -> & Sc); [lia|lia|]. eexists _, _. split; [done|]. eapply post_weaken; [done|]. by eapply scanned_post.
Qed.

(** ** References, frees and page tables *)

Lemma held_refc st B G T H x : sound st B G T H -> H x <> 0 -> 0 < x < frame_count st /\ 0 < H x /\ refc st x = H x /\ peek (frame_refcounts st) (fr x / PAGE_SIZE) = Ok (H x).
Proof.
  intros S Hx. destruct (way_out _ _ _ _ _ x S) as ([Rx _] & N & _); [by right|]. destruct (so_held _ _ _ _ _ S x Hx) as (? & _). assert (E : refc st x = H x) by (rewrite (so_refs _ _ _ _ _ S) by lia; rewrite not_plain by done; cbn; lia).
  split; [done|]. split; [done|]. split; [done|]. change (fr x / PAGE_SIZE) with (frame_index (fr x)). rewrite fr_index. pose proof (s_refs _ (pool_shape _ _ (so_pool _ _ _ _ _ S))). destruct (peek_lt (frame_refcounts st) x ltac:(lia)) as (v & Hv & ->). unfold refc in E. by rewrite Hv in E; cbn in E; subst.
Qed.
Lemma frame_aligned x : (fr x &? (PAGE_SIZE - 1)) = false.
Proof. apply aligned_ok. unfold fr. by apply Z.mod_mul. Qed.
Lemma frame_in st x : shape st -> x < frame_count st <-> (max_address st <=? fr x) = false.
Proof. intros S. rewrite (s_max _ S). unfold fr, PAGE_SIZE. lia. Qed.
Lemma ref_ok st B G T H x : sound st B G T H -> 0 < H x < 65535 -> exists st', pmm_ref_frame (fr x) st = Ok st' /\ mem st' = mem st /\ sound st' B G T (hold x (H x + 1) H).
Proof.
  intros S Hx. destruct (held_refc _ _ _ _ _ x S ltac:(lia)) as (Rx & _ & _ & Pk). unfold pmm_ref_frame. rewrite frame_aligned, Pk. rewrite (proj2 (Z.ltb_lt (fr x) _)) by (rewrite (s_max _ (pool_shape _ _ (so_pool _ _ _ _ _ S))); unfold fr, PAGE_SIZE; lia).
  unfold kassert. cbn [andb negb rbind]. rewrite (proj2 (Z.ltb_lt 0 (H x))), (proj2 (Z.ltb_lt (H x) 65535)) by lia. cbn [andb]. change (fr x / PAGE_SIZE) with (frame_index (fr x)). rewrite fr_index.
  destruct (set_ref_ok st B G T T H x (H x + 1) S) as (l & -> & S'); [right; lia|lia|lia|by pose proof (so_nodup _ _ _ _ _ S) as (_ & _ & N)%NoDup_app| |by eexists]. intros y Hy. left. split; [done|]. intros ->.
  destruct (so_used _ _ _ _ _ S x) as (_ & _ & ?); [apply elem_of_app; by right|]. lia.
Qed.
(** A reference is given up; the last one sends the page on its way. *)
Lemma begin_ok st B G T H hidden x : sound st B G T H -> H x <> 0 -> bit (pt_frames st) x = false -> (H x = 1 -> hidden (fr x) = false) -> (zero_page_frame st <> 0 -> fr x <> zero_page_frame st) ->
  exists st', mem st' = mem st /\ (1 < H x /\ free_begin hidden (fr x) st = Ok (Referenced, st') /\ sound st' B G T (hold x (H x - 1) H) \/ H x = 1 /\ free_begin hidden (fr x) st = Ok (Unreferenced, st') /\ sound st' B G (x :: T) (hold x 0 H)).
Proof.
  intros S Hx Np Nh Nz. destruct (held_refc _ _ _ _ _ x S Hx) as (Rx & Hp & _ & Pk). pose proof (pool_shape _ _ (so_pool _ _ _ _ _ S)) as Sh. unfold free_begin.
  assert ((zero_page_frame st <>? 0) && (fr x =? zero_page_frame st) = false) as -> by (destruct (Z.eqb_spec (zero_page_frame st) 0); [done|]; cbn; apply Z.eqb_neq; by apply Nz). rewrite frame_aligned. unfold kassert. cbn [negb].
  rewrite (proj1 (frame_in st x Sh)) by lia. unfold pmm_frame_is_page_table. rewrite (proj1 (frame_in st x Sh)) by lia. rewrite Pk. change (fr x / PAGE_SIZE) with (frame_index (fr x)). rewrite fr_index. pose proof (s_count _ Sh).
  rewrite bit_get_ok by (unfold nbits; rewrite (s_pts _ Sh); lia). cbn [rbind]. rewrite Np, (proj2 (Z.eqb_neq (H x) 0)) by done. pose proof (so_nodup _ _ _ _ _ S) as (_ & _ & Nd)%NoDup_app.
  assert (Nt : x ∉ T). { intros X. destruct (so_used _ _ _ _ _ S x) as (_ & _ & ?); [apply elem_of_app; by right|]. lia. } destruct (decide (H x = 1)) as [H1|H1].
  - rewrite H1. change (1 - 1) with 0. destruct (set_ref_ok st B G T (x :: T) H x 0 S) as (l & -> & S'); [by right|lia|done|by apply NoDup_cons|intros y [->|Hy]%elem_of_cons; [by right|left; split; [done|by intros ->]]|].
    cbn [rbind negb Z.eqb]. rewrite Nh by done. eexists. split; [|right; split; [done|]; split; [done|done]]. done.
  - destruct (set_ref_ok st B G T T H x (H x - 1) S) as (l & -> & S'); [by right|lia|lia|done|intros y Hy; left; split; [done|by intros ->]|]. cbn [rbind]. rewrite (proj2 (Z.eqb_neq (H x - 1) 0)) by lia. cbn [negb].
    eexists. split; [|left; split; [lia|]; split; [done|done]]. done.
Qed.
(** Claims on a held page. *)
Lemma sound_pts st B G T H x l b : sound st B G T H -> H x <> 0 -> length l = length (pt_frames st) -> (forall y, 0 <= y -> bit l y = if y =? x then b else bit (pt_frames st) y) -> sound (set_pts l st) B G T H.
Proof.
  intros [[[[[] I L Hd] Tb] F N R] Rd Tp Cp Bk Nd Us Rf Hl Pt] Hx Ll E. constructor; try done.
  - constructor; try done. constructor; try done. constructor; try done. constructor; try done. change (Z.of_nat (length l) = bitmap_bytes st). by rewrite Ll.
  - intros y Hy. change (bit l y = true -> H y <> 0). change (0 <= y < frame_count st) in Hy. rewrite E by lia. destruct (Z.eqb_spec y x) as [->|]; [done|]. by apply Pt.
Qed.
Lemma note_table_ok st B G T H x owned : sound st B G T H -> H x <> 0 -> exists l, pmm_note_page_table (fr x) owned st = Ok (set_pts l st) /\ sound (set_pts l st) B G T H.
Proof.
  intros S Hx. destruct (held_refc _ _ _ _ _ x S Hx) as (Rx & _). pose proof (pool_shape _ _ (so_pool _ _ _ _ _ S)) as Sh. pose proof (s_count _ Sh). unfold pmm_note_page_table. rewrite (proj1 (frame_in st x Sh)) by lia. change (fr x / PAGE_SIZE) with (frame_index (fr x)). rewrite fr_index.
  assert (Nb : 0 <= x < nbits (pt_frames st)) by (unfold nbits; rewrite (s_pts _ Sh); lia). destruct owned; [destruct (bit_set_ok _ _ Nb) as (l & -> & L & E)|destruct (bit_clear_ok _ _ Nb) as (l & -> & L & E)]; cbn [rbind]; exists l; (split; [done|by eapply sound_pts]).
Qed.
Lemma release_table_ok st B G T H x : sound st B G T H -> H x <> 0 -> exists l, pmm_claim_page_table_release (fr x) st = Ok (bit (pt_frames st) x, set_pts l st) /\ sound (set_pts l st) B G T H /\ bit l x = false.
Proof.
  intros S Hx. destruct (held_refc _ _ _ _ _ x S Hx) as (Rx & _). pose proof (pool_shape _ _ (so_pool _ _ _ _ _ S)) as Sh. pose proof (s_count _ Sh). unfold pmm_claim_page_table_release. rewrite (proj1 (frame_in st x Sh)) by lia. change (fr x / PAGE_SIZE) with (frame_index (fr x)). rewrite fr_index.
  assert (Nb : 0 <= x < nbits (pt_frames st)) by (unfold nbits; rewrite (s_pts _ Sh); lia). rewrite bit_get_ok by done. cbn [rbind]. destruct (bit_clear_ok _ _ Nb) as (l & -> & L & E). cbn [rbind]. exists l. split_and!; [done|by eapply sound_pts|]. rewrite E by lia. by rewrite Z.eqb_refl.
Qed.

(** ** Nodes become known *)

Lemma nwhere_stop f N M : 0 <= N <= M -> (forall q, N <= q < M -> f q = false) -> nwhere f M = nwhere f N.
Proof.
  intros H. replace M with (N + Z.of_nat (Z.to_nat (M - N))) by lia. generalize (Z.to_nat (M - N)). induction n as [|n IH]; intros E; [by rewrite Z.add_0_r|].
  replace (N + Z.of_nat (S n)) with (N + Z.of_nat n + 1) in * by lia. rewrite nwhere_succ by lia. rewrite E by lia. rewrite IH; [cbn; lia|]. intros q Hq. apply E. lia.
Qed.
Lemma count_nodes_ok n : forall st i, shape st -> 0 <= i -> i + Z.of_nat n <= 8 * bitmap_bytes st -> (forall k, 0 <= k < 8 -> node_free_pages st !! Z.to_nat k = Some (nwhere (on_node st k) i)) -> 8 * bitmap_bytes st < 2 ^ 63 ->
  exists l, count_nodes n i st = Ok (set_node_free l st) /\ length l = 8%nat /\ forall k, 0 <= k < 8 -> l !! Z.to_nat k = Some (nwhere (on_node st k) (i + Z.of_nat n)).
Proof.
  induction n as [|n IH]; intros st i S Hi Hn E Sm; cbn [count_nodes]; [exists (node_free_pages st); rewrite Z.add_0_r; split_and!; [by destruct st|apply S|done]|].
  rewrite bitmap_get_ok by (done || lia). cbn [rbind]. set (k0 := pmm_node_of_index i st). pose proof (node_index_range st i S Hi) as Hk. fold k0 in Hk.
  assert (D : exists l1, (if negb (bit (bitmap st) i) then let* c := peek (node_free_pages st) k0 in let* l := poke (node_free_pages st) k0 (u64 (c + 1)) in Ok (set_node_free l st) else Ok st) = Ok (set_node_free l1 st) /\ length l1 = 8%nat /\
    forall k, 0 <= k < 8 -> l1 !! Z.to_nat k = Some (nwhere (on_node st k) (i + 1))).
  { pose proof (s_nodes _ S) as L8. assert (Up : forall k, nwhere (on_node st k) (i + 1) = nwhere (on_node st k) i + Z.b2z (negb (bit (bitmap st) i) && (k0 =? k))) by (intros k; by rewrite nwhere_succ).
    destruct (bit (bitmap st) i); cbn [negb andb Z.b2z] in *.
    - exists (node_free_pages st). split_and!; [by destruct st|done|]. intros k Hk'. rewrite E, Up by done. f_equal. lia.
    - rewrite (peek_ok _ k0 _ ltac:(lia) (E k0 Hk)). cbn [rbind]. rewrite poke_ok by lia. cbn [rbind]. eexists. split; [done|]. split; [by rewrite length_insert|]. intros k Hk'. rewrite lookup_poke, Up by lia. pose proof (nwhere_bound (on_node st k0) i Hi).
      destruct (Z.eqb_spec k k0) as [->|]; [rewrite Z.eqb_refl, u64_small by lia; done|]. rewrite (proj2 (Z.eqb_neq k0 k)) by done. rewrite E by done. f_equal. cbn. lia. }
  destruct D as (l1 & -> & L1 & E1). cbn [rbind]. set (st1 := set_node_free l1 st). assert (S1 : shape st1) by (by destruct S).
  destruct (IH st1 (i + 1) S1 ltac:(lia)) as (l & -> & L & El); [change (bitmap_bytes st1) with (bitmap_bytes st); lia|exact E1|exact Sm|]. exists l. split_and!; [done|done|]. intros k Hk'. rewrite El by done. f_equal. change (on_node st1 k) with (on_node st k). f_equal. lia.
Qed.
Lemma reseed_ok st B G T H : sound st B G T H -> numa_node_count (topo st) <= 8 -> Forall (fun n => 0 <= n < numa_node_count (topo st)) (chunk_node (topo st)) ->
  exists st' B', pmm_numa_reseed st = Ok st' /\ sound st' B' G T H /\ left_alone T H st st' /\ topo st' = topo st.
Proof.
  intros S H8 Ch. unfold pmm_numa_reseed. destruct (Z.leb_spec (numa_node_count (topo st)) 1); [by exists st, B|]. set (st1 := set_node_free _ (set_nodes _ st)). pose proof (pool_shape _ _ (so_pool _ _ _ _ _ S)) as Sh. pose proof (s_count _ Sh).
  assert (S1 : shape st1) by (by destruct Sh). destruct (count_nodes_ok (Z.to_nat (bitmap_bytes st * 8)) st1 0 S1 ltac:(lia)) as (l & E & L & El).
  { change (bitmap_bytes st1) with (bitmap_bytes st). pose proof (s_bytes _ Sh). lia. }
  { intros k Hk. rewrite nwhere_0. change (node_free_pages st1) with (replicate 8 0). apply lookup_replicate_2. lia. }
  { change (bitmap_bytes st1) with (bitmap_bytes st). pose proof (s_bytes _ Sh). lia. }
  change (bitmap_bytes st1 * BITS_PER_BYTE) with (bitmap_bytes st * 8). rewrite E. cbn [rbind]. set (st2 := set_node_free l st1) in *. change (buddy_ready st2) with (buddy_ready st). rewrite (so_ready _ _ _ _ _ S). assert (S2 : shape st2) by (by destruct S1).
  destruct (seed_ok st2 S2) as (st' & B' & -> & R & O & T'); [intros; by apply (pool_zero st B); [apply S|]|]. destruct (relinked_fields _ _ R) as (Eb & Er & Ef & En & Ec & Nn & Et). change (bitmap st2) with (bitmap st) in Eb.
  change (frame_refcounts st2) with (frame_refcounts st) in Er. change (free_frames st2) with (free_frames st) in Ef. change (frame_count st2) with (frame_count st) in Ec. change (pmm_nodes st2) with (numa_node_count (topo st)) in Nn. change (topo st2) with (topo st) in Et.
  exists st', B'. assert (P : pool st' B'). { constructor; [done|..].
    - rewrite Ef, Ec. unfold freeb. rewrite Eb. apply (po_free _ _ (so_pool _ _ _ _ _ S)).
    - apply (nodes_relink st2); [done|]. intros _ k Hk. change (node_free_pages st2) with l. rewrite El by done. f_equal. change (on_node st1 k) with (on_node st2 k). change (frame_count st2) with (frame_count st). apply nwhere_stop; [pose proof (s_bytes _ Sh); lia|].
      intros q Hq. unfold on_node, freeb. change (bitmap st2) with (bitmap st). rewrite (s_high _ Sh); [done|]. unfold nbits. rewrite (s_bitmap _ Sh). pose proof (s_bytes _ Sh). lia.
    - intros j [Hj Fj]. unfold refc. rewrite Er. apply (po_refs _ _ (so_pool _ _ _ _ _ S)). rewrite Eb in Fj. split; [lia|done]. }
  assert (L' : left_alone T H st st'). { intros x o Hx Ho. rewrite O; [done|done|]. by destruct (way_out _ _ _ _ _ _ S Hx) as (_ & _ & ?). }
  split_and!; [done| |done|done]. assert (Epc : pcps st' = pcps st) by (by rewrite R). assert (Ept : pt_frames st' = pt_frames st) by (by rewrite R). assert (Erd : buddy_ready st' = buddy_ready st) by (by rewrite R).
  constructor; rewrite ?Epc, ?Ept, ?Erd, ?Ec, ?Eb; try apply S; [done| | |].
  - intros _. rewrite Nn, Et. done.
  - intros c p g Hp Hg. eapply bucket_ext; [|by eapply (so_buckets _ _ _ _ _ S)]. intros x o Hx Ho. rewrite O; [done|done|]. intros Fx. destruct (held_free _ _ _ _ _ x S Fx) as [_ N]. apply N, elem_of_app. left. by eapply in_all.
  - intros x Hx. unfold refc. rewrite Er. by apply (so_refs _ _ _ _ _ S).
Qed.
End PmmSystem.
