(* ===== verification/PmmWorld.v ===== *)
(** The physical memory manager of [Pmm] as a system: the operations the rest of the
    kernel calls, in any order and on any CPU, from the state the switch to the
    direct map leaves. *)
From Stdlib Require Import ZifyBool.
From S2P Require Import Prelude Pmm PmmTree PmmAlloc PmmSeed PmmScan PmmCache PmmOps PmmSystem.
From stdpp Require Import list gmap.
Local Open Scope Z_scope.
Local Open Scope kernel_scope.

Module PmmWorld.
Import Pmm PmmTree PmmAlloc PmmSeed PmmScan PmmCache PmmOps PmmSystem.

(** The manager, the pages whose last reference is gone and that are not parked yet,
    and the references the owners of a page have. *)
Record world := mkWorld { w_pmm : pmm; w_way : list Z; w_held : Z -> Z }.
Inductive op :=
| Alloc (c here : Z) | AllocNode (node : Z) (strict : bool) (c here : Z) | AllocFrames (n here : Z) | AllocBelow (n limit : Z) | AllocBlock (order node : Z) (strict : bool) (here : Z)
| Ref (frame : Z) | Free (frame : Z) | Park (poison : bool) (c frame : Z) | Write (addr v : Z) | Scrub (c : Z) | Drain (c : Z) | Claim (frame : Z) (owned : bool) | Release (frame : Z) | Reseed.
(** The pages an allocation asks for. *)
Definition asked (o : op) : Z :=
  match o with Alloc _ _ | AllocNode _ _ _ _ => 1 | AllocFrames n _ | AllocBelow n _ => n | AllocBlock order _ _ _ => 2 ^ order | _ => 0 end.
Definition given (o : op) (w : world) (r : Z * pmm) : Z * world :=
  let '(frame, st) := r in (frame, mkWorld st (w_way w) (if frame =? 0 then w_held w else hold_run (frame_index frame) (asked o) (w_held w))).
Definition exec (hidden : Z -> bool) (o : op) (w : world) : res (Z * world) :=
  let st := w_pmm w in
  let same st := Ok (0, mkWorld st (w_way w) (w_held w)) in
  match o with
  | Alloc c here => let* r := pmm_alloc_frame c here st in Ok (given o w r)
  | AllocNode node strict c here => let* r := pmm_alloc_frame_node node strict c here st in Ok (given o w r)
  | AllocFrames n here => let* r := alloc_round n here st in Ok (given o w r)
  | AllocBelow n limit => let* r := pmm_alloc_frames_below n limit st in Ok (given o w r)
  | AllocBlock order node strict here => let* r := pmm_alloc_block_node order node strict here st in Ok (given o w r)
  | Ref frame => let x := frame_index frame in let* st := pmm_ref_frame frame st in Ok (0, mkWorld st (w_way w) (hold x (w_held w x + 1) (w_held w)))
  | Free frame =>
      let x := frame_index frame in
      let* '(a, st) := free_begin hidden frame st in
      match a with
      | Ignored => same st
      | Referenced => Ok (0, mkWorld st (w_way w) (hold x (w_held w x - 1) (w_held w)))
      | Unreferenced => Ok (1, mkWorld st (x :: w_way w) (hold x 0 (w_held w)))
      end
  | Park poison c frame => let* st := free_park hidden poison c frame st in Ok (0, mkWorld st (filter (fun y => y <> frame_index frame) (w_way w)) (w_held w))
  | Write addr v => same (store addr v st)
  | Scrub c => let* st := pmm_scrub_quarantine hidden c st in same st
  | Drain c => let* st := drain_cpu hidden c st in same st
  | Claim frame owned => let* st := pmm_note_page_table frame owned st in same st
  | Release frame => let* '(was, st) := pmm_claim_page_table_release frame st in Ok (Z.b2z was, mkWorld st (w_way w) (w_held w))
  | Reseed => let* st := pmm_numa_reseed st in same st
  end.
Definition held_frame (w : world) (frame : Z) : Prop := exists x, frame = fr x /\ w_held w x <> 0.
(** What callers keep to.  Only an owner writes to a page, refers to it, frees it or
    makes it a page table; the page that is parked is one whose last reference went;
    and firmware names known nodes. *)
Definition allowed (hidden : Z -> bool) (o : op) (w : world) : Prop :=
  secrets_held hidden (w_held w) /\
  match o with
  | Alloc c here => 0 <= c < MAX_CPUS /\ 0 <= here < 8
  | AllocNode node _ c here => 0 <= c < MAX_CPUS /\ 0 <= here < 8 /\ node < 8
  | AllocFrames n here => 0 < n < 2 ^ 63 /\ 0 <= here < 8
  | AllocBelow n limit => 0 <= n /\ 0 <= limit < 2 ^ 64
  | AllocBlock order node _ here => 0 <= order <= 18 /\ 0 <= here < 8 /\ node < 8
  | Ref frame | Free frame => held_frame w frame
  | Park _ c frame => (exists x, frame = fr x /\ x ∈ w_way w) /\ 0 <= c < MAX_CPUS
  | Write addr _ => exists x o, addr = fr x + o /\ 0 <= o < PAGE_SIZE /\ w_held w x <> 0
  | Scrub c | Drain c => 0 <= c < MAX_CPUS
  | Claim frame _ | Release frame => held_frame w frame
  | Reseed => numa_node_count (topo (w_pmm w)) <= 8 /\ Forall (fun n => 0 <= n < numa_node_count (topo (w_pmm w))) (chunk_node (topo (w_pmm w)))
  end.
(** The checks of the code that an owner's request can still run into: a count of
    references at its last value, the free of a page table or of a secret, and a page
    whose owner left a marker of the buckets in it. *)
Definition trapped (hidden : Z -> bool) (o : op) (w : world) : bool :=
  match o with
  | Ref frame => 65535 <=? w_held w (frame_index frame)
  | Free frame =>
      negb ((zero_page_frame (w_pmm w) <>? 0) && (frame =? zero_page_frame (w_pmm w)))
      && (bit (pt_frames (w_pmm w)) (frame_index frame) || (w_held w (frame_index frame) =? 1) && hidden frame)
  | Park _ _ frame => parked frame (w_pmm w)
  | _ => false
  end.
Definition inv (w : world) : Prop := exists B G, sound (w_pmm w) B G (w_way w) (w_held w) /\ calm G.
(** Held pages keep their contents, but for what their owner writes. *)
Definition contents (o : op) (w w' : world) : Prop := forall x d, w_held w x <> 0 -> 0 <= d < PAGE_SIZE -> (forall v, o <> Write (fr x + d) v) -> mem (w_pmm w') (fr x + d) = mem (w_pmm w) (fr x + d).
(** Pages handed out were nobody's, and are zero. *)
Definition handed (o : op) (w : world) (r : Z) (w' : world) : Prop :=
  match o with
  | Alloc _ _ | AllocNode _ _ _ _ | AllocFrames _ _ | AllocBelow _ _ | AllocBlock _ _ _ _ => r = 0 \/ exists i, r = fr i /\ fresh (w_pmm w') (w_way w) (w_held w) i (asked o)
  | _ => True
  end.
Definition effect (o : op) (w : world) (r : Z) (w' : world) : Prop := inv w' /\ contents o w w' /\ handed o w r w'.

Lemma left_contents o w w' : left_alone (w_way w) (w_held w) (w_pmm w) (w_pmm w') -> contents o w w'.
Proof. intros L x d Hx Hd _. apply L; [by right|done]. Qed.
Lemma given_effect o w frame st C : alloc_post (w_pmm w) (w_way w) (w_held w) (asked o) frame st C -> let '(r, w') := given o w (frame, st) in effect o w r w'.
Proof.
  intros (B' & G' & Cm & L & D). cbn. destruct D as [(-> & S & _)|(i & -> & Fr & S)].
  - split_and!; [by exists B', G'|by apply left_contents|]. destruct o; done || by left.
  - rewrite (proj2 (Z.eqb_neq (fr i) 0)) by (destruct (fs_range _ _ _ _ _ Fr); unfold fr, PAGE_SIZE; lia). rewrite fr_index. split_and!; [by exists B', G'|by apply left_contents|]. destruct o; try done; right; by exists i.
Qed.
Lemma exec_given o w frame st C : alloc_post (w_pmm w) (w_way w) (w_held w) (asked o) frame st C -> exists r w', Ok (given o w (frame, st)) = Ok (r, w') /\ effect o w r w'.
Proof. intros A. pose proof (given_effect o w frame st C A) as E. destruct (given o w (frame, st)) as [r w']. by exists r, w'. Qed.
Definition allocates (o : op) : bool := match o with Alloc _ _ | AllocNode _ _ _ _ | AllocFrames _ _ | AllocBelow _ _ | AllocBlock _ _ _ _ => true | _ => false end.
Lemma exec_alloc hidden o w : inv w -> allowed hidden o w -> allocates o = true -> exists r w', exec hidden o w = Ok (r, w') /\ effect o w r w'.
Proof.
  intros (B & G & S & Cm) [_ A] Al. destruct o; try done; cbn [exec allowed] in *.
  - destruct A as [Hc Hh]. destruct (alloc_frame_ok _ _ _ _ _ c here S Cm Hc Hh) as (frame & st & -> & P). cbn [rbind]. by eapply exec_given.
  - destruct A as (Hc & Hh & Hn). destruct (alloc_frame_node_ok _ _ _ _ _ node strict c here S Cm Hc Hh Hn) as (frame & st & -> & P). cbn [rbind]. by eapply exec_given.
  - destruct A as [Hn Hh]. destruct (round_post _ _ _ _ _ n here S Cm Hh Hn) as (frame & st & -> & P). cbn [rbind]. by eapply exec_given.
  - destruct A as [Hn Hl]. destruct (below_post _ _ _ _ _ n limit S Cm Hn Hl) as (frame & st & -> & P). cbn [rbind]. by eapply exec_given.
  - destruct A as (Ho & Hh & Hn). destruct (alloc_block_ok _ _ _ _ _ order node strict here S Cm Ho Hh Hn) as (frame & st & -> & P & _). cbn [rbind]. by eapply exec_given.
Qed.
Lemma same_contents o w w' : mem (w_pmm w') = mem (w_pmm w) -> contents o w w'.
Proof. intros E x d _ _ _. by rewrite E. Qed.
Lemma way_perm (x : Z) T : x ∈ T -> NoDup T -> T ≡ₚ x :: filter (fun y => y <> x) T.
Proof.
  intros Hx Nd. apply NoDup_Permutation; [done| |].
  - apply NoDup_cons. split; [|by apply NoDup_filter]. rewrite list_elem_of_filter. tauto.
  - intros y. rewrite elem_of_cons, list_elem_of_filter. destruct (decide (y = x)) as [->|]; tauto.
Qed.
Lemma exec_free hidden frame w : inv w -> allowed hidden (Free frame) w -> trapped hidden (Free frame) w = false -> exists r w', exec hidden (Free frame) w = Ok (r, w') /\ effect (Free frame) w r w'.
Proof.
  intros (B & G & S & Cm) [Sc (x & -> & Hx)] Tr. cbn [trapped] in Tr. rewrite fr_index in Tr. cbn [exec]. rewrite fr_index. destruct ((zero_page_frame (w_pmm w) <>? 0) && (fr x =? zero_page_frame (w_pmm w))) eqn:Zp.
  - unfold free_begin. rewrite Zp. cbn [rbind]. eexists _, _. split; [done|]. split_and!; [by exists B, G|by apply same_contents|done].
  - cbn [negb andb] in Tr. apply orb_false_iff in Tr as [Np Nh]. assert (Nh' : w_held w x = 1 -> hidden (fr x) = false) by (intros H1; by rewrite H1 in Nh).
    destruct (begin_ok _ _ _ _ _ hidden x S Hx Np Nh') as (st & Em & D); [lia|]. destruct D as [(_ & -> & S')|(_ & -> & S')]; cbn [rbind]; eexists _, _; (split; [done|]); (split_and!; [by exists B, G|by apply same_contents|done]).
Qed.
Lemma exec_park hidden poison c frame w : inv w -> allowed hidden (Park poison c frame) w -> trapped hidden (Park poison c frame) w = false -> exists r w', exec hidden (Park poison c frame) w = Ok (r, w') /\ effect (Park poison c frame) w r w'.
Proof.
  intros (B & G & S & Cm) [Sc ((x & -> & Hx) & Hc)] Pk. cbn [exec trapped] in *. rewrite fr_index. pose proof (so_nodup _ _ _ _ _ S) as (_ & _ & Nd)%NoDup_app. pose proof (sound_perm _ _ _ _ _ _ (way_perm x _ Hx Nd) S) as S1.
  destruct (park_ok hidden poison _ _ _ _ _ c x S1 Sc Cm Hc Pk) as (st & B' & G' & -> & L & S' & Cm'). cbn [rbind]. eexists _, _. split; [done|]. split_and!; [by exists B', G'| |done]. intros y d Hy Hd _. apply L; [by right|done].
Qed.
Lemma exec_other hidden o w : inv w -> allowed hidden o w -> trapped hidden o w = false -> allocates o = false -> exists r w', exec hidden o w = Ok (r, w') /\ effect o w r w'.
Proof.
  intros I A Tr Al. destruct o; try done; [|by apply exec_free|by apply exec_park|..]; destruct I as (B & G & S & Cm), A as [Sc A]; cbn [exec].
  - destruct A as (x & -> & Hx). cbn [trapped] in Tr. rewrite fr_index in *. destruct (so_held _ _ _ _ _ S x Hx) as (? & _). destruct (ref_ok _ _ _ _ _ x S ltac:(lia)) as (st & -> & Em & S'). cbn [rbind]. eexists _, _. split; [done|]. split_and!; [by exists B, G|by apply same_contents|done].
  - destruct A as (x & d & -> & Hd & Hx). assert (Off : off_page x (mem (w_pmm w)) (mem (store (fr x + d) v (w_pmm w)))). { intros z e N He. cbn. rewrite addr_eqb by done. by rewrite (proj2 (Z.eqb_neq z x)). }
    eexists _, _. split; [done|]. split_and!; [exists B, G; split; [by eapply (way_write _ _ _ _ _ x); [|right|]|done]| |done]. intros z e Hz He N. cbn. rewrite addr_eqb by done. destruct (Z.eqb_spec z x) as [->|], (Z.eqb_spec e d) as [->|]; try done. by destruct (N v).
  - destruct (scrub_loop_ok (Z.to_nat PMM_PCP_Q_SCRUB) hidden _ _ _ _ _ c S Sc Cm A) as (st & B' & G' & E & L & S' & Cm'). unfold pmm_scrub_quarantine. rewrite (so_ready _ _ _ _ _ S), E. cbn [rbind]. eexists _, _. split; [done|]. split_and!; [by exists B', G'|by apply left_contents|done].
  - destruct (drain_cpu_ok hidden _ _ _ _ _ c S Sc Cm A) as (st & B' & -> & L & S'). cbn [rbind]. eexists _, _. split; [done|]. split_and!; [eexists B', _; split; [done|by apply calm_insert]|by apply left_contents|done].
  - destruct A as (x & -> & Hx). destruct (note_table_ok _ _ _ _ _ x owned S Hx) as (l & -> & S'). cbn [rbind]. eexists _, _. split; [done|]. split_and!; [by exists B, G|by apply same_contents|done].
  - destruct A as (x & -> & Hx). destruct (release_table_ok _ _ _ _ _ x S Hx) as (l & -> & S' & _). cbn [rbind]. eexists _, _. split; [done|]. split_and!; [by exists B, G|by apply same_contents|done].
  - destruct A as [H8 Ch]. destruct (reseed_ok _ _ _ _ _ S H8 Ch) as (st & B' & -> & S' & L & _). cbn [rbind]. eexists _, _. split; [done|]. split_and!; [by exists B', G|by apply left_contents|done].
Qed.
Lemma op_ok hidden o w : inv w -> allowed hidden o w -> trapped hidden o w = false -> exists r w', exec hidden o w = Ok (r, w') /\ effect o w r w'.
Proof. intros I A T. destruct (allocates o) eqn:E; [by apply exec_alloc|by apply exec_other]. Qed.
Lemma trap_free hidden x w : inv w -> w_held w x <> 0 -> trapped hidden (Free (fr x)) w = true -> exists m, free_begin hidden (fr x) (w_pmm w) = Panic m.
Proof.
  intros (B & G & S & _) Hx Tr. cbn [trapped] in Tr. rewrite fr_index in Tr. apply andb_true_iff in Tr as [Nz%negb_true_iff Tr].
  destruct (held_refc _ _ _ _ _ x S Hx) as (Rx & Hp & _ & Pk). pose proof (pool_shape _ _ (so_pool _ _ _ _ _ S)) as Sh. unfold free_begin. rewrite Nz, frame_aligned. unfold kassert. cbn [negb].
  rewrite (proj1 (frame_in _ x Sh)) by lia. unfold pmm_frame_is_page_table. rewrite (proj1 (frame_in _ x Sh)) by lia. rewrite Pk. change (fr x / PAGE_SIZE) with (frame_index (fr x)). rewrite fr_index. pose proof (s_count _ Sh).
  rewrite bit_get_ok by (unfold nbits; rewrite (s_pts _ Sh); lia). cbn [rbind]. destruct (bit (pt_frames (w_pmm w)) x) eqn:Np; [by eexists|]. apply andb_true_iff in Tr as [H1%Z.eqb_eq Hh]. rewrite H1. change (1 =? 0) with false. cbv iota. change (1 - 1) with 0.
  pose proof (so_nodup _ _ _ _ _ S) as (_ & _ & Nd)%NoDup_app. assert (Nt : x ∉ w_way w). { intros X. destruct (so_used _ _ _ _ _ S x) as (_ & _ & ?); [apply elem_of_app; by right|]. lia. }
  destruct (set_ref_ok _ B G (w_way w) (x :: w_way w) _ x 0 S) as (l & -> & _); [by right|lia|done|by apply NoDup_cons|intros y [->|Hy]%elem_of_cons; [by right|left; split; [done|by intros ->]]|]. cbn [rbind negb Z.eqb]. rewrite Hh. by eexists.
Qed.
Lemma op_trap hidden o w : inv w -> allowed hidden o w -> trapped hidden o w = true -> exists m, exec hidden o w = Panic m.
Proof.
  intros I [_ A] Tr. destruct o; try done; cbn [exec].
  - destruct A as (x & -> & Hx). destruct I as (B & G & S & _). cbn [trapped] in Tr. rewrite fr_index in Tr. destruct (held_refc _ _ _ _ _ x S Hx) as (Rx & _ & _ & Pk). unfold pmm_ref_frame. rewrite frame_aligned, Pk.
    rewrite (proj2 (Z.ltb_lt (fr x) _)) by (rewrite (s_max _ (pool_shape _ _ (so_pool _ _ _ _ _ S))); unfold fr, PAGE_SIZE; lia). unfold kassert. cbn [andb negb rbind]. rewrite (proj2 (Z.ltb_ge (w_held w x) 65535)) by lia. rewrite andb_false_r. by eexists.
  - destruct A as (x & -> & Hx). destruct (trap_free hidden x w I Hx Tr) as [m ->]. by exists m.
  - destruct I as (B & G & S & _). cbn [trapped] in Tr. unfold free_park. rewrite (so_ready _ _ _ _ _ S), Tr. by eexists.
Qed.

(** ** Boot *)

(** The state [pmm_init] and the early allocations leave: frames are in the bitmap
    only, page 0 is reserved, and a frame with references is a used one. *)
Record early (st : pmm) : Prop := {
  e_shape : shape st; e_frames : 0 < frame_count st; e_zero : bit (bitmap st) 0 = true;
  e_free : free_frames st = nwhere (freeb st) (frame_count st); e_nodes : pmm_nodes st <= 1;
  e_pcps : pcps st = replicate (Z.to_nat MAX_CPUS) (mkPcp 0 0 0 0 0 0 0);
  e_refs : forall x, 0 <= x < frame_count st -> 0 <= refc st x /\ (refc st x <> 0 -> bit (bitmap st) x = true /\ x <> 0);
  e_pt : forall x, 0 <= x < frame_count st -> bit (pt_frames st) x = true -> refc st x <> 0 }.
Definition early_held (st : pmm) : Z -> Z := fun x => if (0 <=? x) && (x <? frame_count st) then refc st x else 0.
Definition no_caches : list cache := replicate (Z.to_nat MAX_CPUS) (mkCache [] [] []).
Lemma no_pages : all_pages no_caches = [] /\ plains no_caches = [].
Proof. done. Qed.
Lemma no_bucket m : bucket_ok m (mkPcp 0 0 0 0 0 0 0) (mkCache [] [] []).
Proof. constructor; try done; apply Forall_nil_2. Qed.
Lemma seeded_sound st st' B : early st -> relinked st st' -> tree st' B 0 0 -> sound (set_ready true st') B no_caches [] (early_held st).
Proof.
  intros [Sh Fc Z0 Ff N1 Ep Rf Pt] R T. destruct (relinked_fields _ _ R) as (Eb & Er & Ef & _ & Ec & En & Et). assert (Epc : pcps st' = pcps st) by (by rewrite R). assert (Ept : pt_frames st' = pt_frames st) by (by rewrite R).
  assert (P : pool st' B). { constructor; [done|..].
    - rewrite Ef, Ec, Ff. unfold freeb. by rewrite Eb.
    - intros X. lia.
    - intros j [Hj Fj]. unfold refc. rewrite Er. change (refc st j = 0). rewrite Eb in Fj. rewrite Ec in Hj. destruct (Rf j Hj) as [_ U]. destruct (decide (refc st j = 0)) as [|Nz]; [done|]. destruct (U Nz). congruence. }
  destruct no_pages as [A1 A2]. constructor; rewrite ?A1, ?A2; try done.
  - destruct P as [[[[] I L Hd] Tb] F N Rr]. constructor; done.
  - intros X. change (pmm_nodes (set_ready true st')) with (pmm_nodes st') in X. lia.
  - change (length (pcps st') = 64%nat /\ length no_caches = 64%nat). by rewrite Epc, Ep.
  - intros c p g. change (pcps (set_ready true st')) with (pcps st'). rewrite Epc, Ep. intros [-> _]%lookup_replicate [-> _]%lookup_replicate. apply no_bucket.
  - apply NoDup_nil_2.
  - intros x X. by apply not_elem_of_nil in X.
  - intros x Hx. change (0 <= x < frame_count st') in Hx. rewrite Ec in Hx. unfold early_held. rewrite (proj2 (Z.leb_le 0 x)), (proj2 (Z.ltb_lt x _)) by lia. cbn [andb]. rewrite bool_decide_eq_false_2 by apply not_elem_of_nil. unfold refc. cbn. rewrite Er. lia.
  - intros x. unfold early_held. destruct ((0 <=? x) && (x <? frame_count st)) eqn:Rx; [|done]. intros Nz. destruct (Rf x ltac:(lia)) as [? U]. destruct (U Nz). change (frame_count (set_ready true st')) with (frame_count st'). cbn. rewrite Eb, Ec. split_and!; lia || done.
  - intros x Hx Px. change (0 <= x < frame_count st') in Hx. rewrite Ec in Hx. change (bit (pt_frames st') x = true) in Px. rewrite Ept in Px. unfold early_held. rewrite (proj2 (Z.leb_le 0 x)), (proj2 (Z.ltb_lt x _)) by lia. by apply Pt.
Qed.
Lemma sound_zero_page st B G T H z : sound st B G T H -> sound (set_zero_page z st) B G T H.
Proof. intros [[[[[] I L Hd] Tb] F N R] Rd Tp Cp Bk Nd Us Rf Hl Pt]. constructor; done. Qed.
Definition boot_world (st st' : pmm) : world := mkWorld st' [] (hold_run (frame_index (zero_page_frame st')) 1 (early_held st)).
Lemma calm_none : calm no_caches.
Proof. apply Forall_replicate. done. Qed.
Lemma switch_ok st c here : early st -> 0 < free_frames st -> 0 <= c < MAX_CPUS -> 0 <= here < 8 -> exists st', pmm_switch_to_direct_map c here st = Ok st' /\ inv (boot_world st st').
Proof.
  intros E Hf Hc Hh. unfold pmm_switch_to_direct_map. destruct (seed_ok st (e_shape _ E) (fun _ => e_zero _ E)) as (st1 & B1 & -> & R & _ & T). cbn [rbind]. pose proof (seeded_sound _ _ _ E R T) as S.
  destruct (alloc_frame_ok _ _ _ _ _ c here S calm_none Hc Hh) as (frame & st2 & -> & (B' & G' & Cm & _ & D)). cbn [rbind]. destruct D as [(-> & _ & (F0 & _))|(i & -> & Fr & S')].
  - exfalso. destruct (relinked_fields _ _ R) as (_ & _ & Ef & _). change (free_frames st1 = 0) in F0. lia.
  - rewrite (proj2 (Z.eqb_neq (fr i) 0)) by (destruct (fs_range _ _ _ _ _ Fr); unfold fr, PAGE_SIZE; lia). eexists. split; [done|]. exists B', G'. split; [|done]. unfold boot_world. cbn. rewrite fr_index. by apply sound_zero_page.
Qed.

(** ** Reachable states *)

Definition initial (w : world) : Prop := exists st c here, early st /\ 0 < free_frames st /\ 0 <= c < MAX_CPUS /\ 0 <= here < 8 /\ exists st', pmm_switch_to_direct_map c here st = Ok st' /\ w = boot_world st st'.
Definition step (w w' : world) : Prop := exists hidden o r, allowed hidden o w /\ exec hidden o w = Ok (r, w').
Definition reachable (w : world) : Prop := exists w0, initial w0 /\ rtc step w0 w.
Lemma reach_sound w : reachable w -> inv w.
Proof.
  intros (w0 & (st & c & here & E & Hf & Hc & Hh & st' & Sw & ->) & Hr). destruct (switch_ok st c here E Hf Hc Hh) as (st2 & Sw2 & I). rewrite Sw in Sw2. injection Sw2 as <-. revert I. induction Hr as [|w1 w2 w3 (hidden & o & r & A & X) _ IH]; [done|].
  intros I. apply IH. destruct (trapped hidden o w1) eqn:Tr; [destruct (op_trap _ _ _ I A Tr); congruence|]. destruct (op_ok hidden o w1 I A Tr) as (r' & w' & X' & (I' & _)). rewrite X in X'. by injection X' as _ <-.
Qed.
Lemma reach_step w hidden o r w' : reachable w -> allowed hidden o w -> exec hidden o w = Ok (r, w') -> reachable w' /\ effect o w r w'.
Proof.
  intros Rw A E. destruct (trapped hidden o w) eqn:Tr; [destruct (op_trap _ _ _ (reach_sound w Rw) A Tr); congruence|]. destruct (op_ok hidden o w (reach_sound w Rw) A Tr) as (r2 & w2 & E2 & Ef). rewrite E in E2. injection E2 as <- <-. split; [|done]. destruct Rw as (w0 & I & Hr). exists w0. split; [done|]. eapply rtc_r; [exact Hr|]. by exists hidden, o, r.
Qed.
Lemma bucket_sizes m p g : bucket_ok m p g -> count p + q_count p + zero_count p = Z.of_nat (length (pages_of g)) /\ 0 <= count p <= 128 /\ 0 <= q_count p <= 33 /\ 0 <= zero_count p <= 64.
Proof. intros []. unfold PMM_PCP_LIMIT, PMM_PCP_Q_LIMIT, PMM_PCP_ZERO_LIMIT, pages_of in *. rewrite !length_app. lia. Qed.
Lemma owned_sum (m : Z -> Z) ps : forall G n, Forall2 (bucket_ok m) ps G -> 0 <= n < 2 ^ 60 -> (length ps <= 64)%nat -> fold_left (fun n p => u64 (n + count p + q_count p + zero_count p)) ps n = n + Z.of_nat (length (all_pages G)).
Proof.
  assert (Gen : forall G n, Forall2 (bucket_ok m) ps G -> 0 <= n < 2 ^ 62 - 300 * Z.of_nat (length ps) -> fold_left (fun n p => u64 (n + count p + q_count p + zero_count p)) ps n = n + Z.of_nat (length (all_pages G))).
  { induction ps as [|p ps IH]; intros G n F Hn; inversion F as [|? g ? G' Bk F']; subst; cbn [fold_left]; [unfold all_pages; cbn; lia|]. destruct (bucket_sizes m p g Bk) as (E & ? & ? & ?). cbn [length] in Hn.
    rewrite u64_small by lia. rewrite (IH G') by (done || lia). unfold all_pages. rewrite fmap_cons. cbn [concat]. rewrite length_app. lia. }
  intros G n F Hn L. apply Gen; [done|lia].
Qed.
Lemma owned_ok st B G T H : sound st B G T H -> pmm_owned_free_frames st = free_frames st + Z.of_nat (length (all_pages G)).
Proof.
  intros S. unfold pmm_owned_free_frames. rewrite (so_ready _ _ _ _ _ S). cbn [negb]. destruct (so_cpus _ _ _ _ _ S) as [L1 L2]. apply (owned_sum (mem st)).
  - apply Forall2_same_length_lookup. split; [lia|]. intros c p g Hp Hg. by eapply (so_buckets _ _ _ _ _ S).
  - rewrite (po_free _ _ (so_pool _ _ _ _ _ S)). pose proof (pool_shape _ _ (so_pool _ _ _ _ _ S)) as Sh. pose proof (count_small _ Sh). pose proof (s_count _ Sh). pose proof (nwhere_bound (freeb st) (frame_count st) ltac:(lia)). lia.
  - rewrite L1. unfold MAX_CPUS. lia.
Qed.

(** ** Correctness *)

(** C5 (safety).  Whatever owners asked of the manager since boot, what happens to the
    next operation is known beforehand.  It panics exactly in the four cases of [trapped]:
    a reference too many for the count, the free of a page table, the free of a secret, and
    the last free of a page whose owner left a marker of the buckets in it.  In all other
    cases it runs to its end, with no access outside of a table: no check for corruption
    or for a double free fires on pages whose owners keep to [allowed]. *)
Theorem pmm_panics_iff_trapped w hidden o : reachable w -> allowed hidden o w ->
  if trapped hidden o w then exists m, exec hidden o w = Panic m else exists r w', exec hidden o w = Ok (r, w') /\ reachable w'.
Proof.
  intros Rw A. destruct (trapped hidden o w) eqn:Tr; [by apply op_trap; [apply reach_sound|..]|].
  destruct (op_ok hidden o w (reach_sound w Rw) A Tr) as (r & w' & E & _). exists r, w'. split; [done|]. by eapply reach_step.
Qed.
(** C6 (safety).  Every frame of a successful allocation, of whatever kind and from
    whatever cache, was held by nobody and on nobody's way to a cache; it has one
    reference, is marked used, and every word of it is zero. *)
Theorem frames_exclusive w hidden o r w' : reachable w -> allowed hidden o w -> allocates o = true -> exec hidden o w = Ok (r, w') -> r <> 0 ->
  exists i, r = fr i /\ 0 < i /\ i + asked o <= frame_count (w_pmm w') /\ forall x, i <= x < i + asked o ->
    w_held w x = 0 /\ (x ∉ w_way w) /\ w_held w' x = 1 /\ refc (w_pmm w') x = 1 /\ bit (bitmap (w_pmm w')) x = true /\ forall d, 0 <= d < PAGE_SIZE -> mem (w_pmm w') (fr x + d) = 0.
Proof.
  intros Rw A Al E Nz. destruct (reach_step w hidden o r w' Rw A E) as [Rw' (_ & _ & Hd)]. assert (exists i, r = fr i /\ fresh (w_pmm w') (w_way w) (w_held w) i (asked o)) as (i & Er & Fr) by (destruct o; try done; destruct Hd as [?|?]; done).
  exists i. destruct (fs_range _ _ _ _ _ Fr) as [? ?]. split_and!; [done..|]. intros x Hx. destruct (fs_held _ _ _ _ _ Fr x Hx) as [Hz Nt]. destruct (reach_sound w' Rw') as (B & G & S & _).
  assert (H1 : w_held w' x = 1). { destruct o; try done; cbn [exec] in E; apply rbind_inv in E as ([frame st] & _ & E); cbn in E; injection E as -> <-; cbn; rewrite (proj2 (Z.eqb_neq r 0)), Er, fr_index by done; unfold hold_run; by rewrite (proj2 (within_in i _ x)). }
  destruct (held_refc _ _ _ _ _ x S ltac:(lia)) as (_ & _ & Rf & _). destruct (so_held _ _ _ _ _ S x ltac:(lia)) as (_ & _ & U). rewrite H1 in Rf. split_and!; [done..|]. intros d Hd'. by apply (fs_zero _ _ _ _ _ Fr).
Qed.
(** C8 (safety).  No operation of the manager changes a page somebody holds: only a
    write of its owner does.  In particular no list of free blocks, bucket or
    quarantine is ever threaded through it. *)
Theorem contents_kept w hidden o r w' x d : reachable w -> allowed hidden o w -> exec hidden o w = Ok (r, w') -> w_held w x <> 0 -> 0 <= d < PAGE_SIZE -> (forall v, o <> Write (fr x + d) v) ->
  mem (w_pmm w') (fr x + d) = mem (w_pmm w) (fr x + d).
Proof. intros Rw A E. destruct (reach_step w hidden o r w' Rw A E) as [_ (_ & C & _)]. apply C. Qed.
(** C9 (invariant).  Frames are accounted for.  The pages of the buckets and the pages
    on their way are all different, used and held by nobody; a reference count is the
    references held, and one more in a plain bucket; a free page has none; and the
    counts of free frames are exact. *)
Theorem frames_accounted w : reachable w -> let st := w_pmm w in exists G,
  NoDup (all_pages G ++ w_way w) /\ (forall x, x ∈ all_pages G ++ w_way w -> 0 < x < frame_count st /\ bit (bitmap st) x = true /\ w_held w x = 0) /\
  (forall x, 0 <= x < frame_count st -> refc st x = w_held w x + Z.b2z (bool_decide (x ∈ plains G))) /\ (forall x, free_page st x -> refc st x = 0 /\ w_held w x = 0) /\
  free_frames st = nwhere (freeb st) (frame_count st) /\ pmm_owned_free_frames st = free_frames st + Z.of_nat (length (all_pages G)).
Proof.
  intros Rw. destruct (reach_sound w Rw) as (B & G & S & _). exists G. split_and!; [apply S|apply S|apply S| |apply S|by eapply owned_ok].
  intros x Fx. split; [by apply (po_refs _ _ (so_pool _ _ _ _ _ S))|by eapply held_free].
Qed.
(** C10 (functional).  An allocation of a block that is not bound to its node fails
    exactly when no run of as many free pages, aligned to its size, is left: free
    blocks are joined and split so that nothing is lost to fragmentation. *)
Theorem block_alloc_exact w order node here frame st' : reachable w -> 0 <= order <= 18 -> 0 <= here < 8 -> node < 8 -> pmm_alloc_block_node order node false here (w_pmm w) = Ok (frame, st') -> frame = 0 <-> no_block (w_pmm w) order.
Proof.
  intros Rw Ho Hh Hn E. destruct (reach_sound w Rw) as (B & G & S & Cm). destruct (alloc_block_ok _ _ _ _ _ order node false here S Cm Ho Hh Hn) as (f & s & E2 & (B' & G' & _ & _ & D) & Al). rewrite E in E2. injection E2 as <- <-.
  destruct D as [(-> & _ & No)|(i & -> & Fr & _)]; [tauto|]. destruct (fs_range _ _ _ _ _ Fr) as [Hi _]. pose proof (pow_pos order ltac:(lia)). split; [unfold fr, PAGE_SIZE; lia|]. intros Nb. exfalso.
  destruct (Al i eq_refl ltac:(lia)) as (Dv & Fp & _). destruct (Fp (i + 2 ^ order - 1) ltac:(lia)) as [? _]. destruct (Nb i ltac:(lia) Dv ltac:(lia)) as (j & Hj & Uj). destruct (Fp j Hj) as [_ Fj]. congruence.
Qed.
(** (Invariant.)  Of two buddies below the largest order at most one is on a free
    list: a release joins them at once. *)
Theorem buddies_merged w i k : reachable w -> 0 <= k < 18 -> 0 <= i < frame_count (w_pmm w) -> buddy_is_free_block (fr i) k (w_pmm w) = Ok true -> buddy_is_free_block (Z.lxor (fr i) (buddy_bytes k)) k (w_pmm w) = Ok false.
Proof.
  intros Rw Hk Hi E. destruct (reach_sound w Rw) as (B & G & S & _). pose proof (po_tree _ _ (so_pool _ _ _ _ _ S)) as T. pose proof (count_small _ (tree_shape _ _ _ _ T)).
  rewrite (is_free_block_ok _ B 0 0 i k T) in E by lia. injection E as E. apply bool_decide_eq_true in E. destruct (b_in _ _ _ _ _ (tr_blocks _ _ _ _ T) _ _ E) as (_ & _ & Dv & Hn). pose proof (pow_pos k ltac:(lia)).
  rewrite xor_frame by lia. pose proof (buddy_of i k ltac:(lia) ltac:(lia) Dv) as Bd. assert (Z.lxor i (2 ^ k) < 2 ^ 51). { destruct (proj2 (bd_pages _ _ _ _ Bd (Z.lxor i (2 ^ k))) ltac:(right; lia)) as [_ X]. pose proof (pow_le18 (k + 1) ltac:(lia)). lia. }
  rewrite (is_free_block_ok _ B 0 0 _ k T) by (pose proof (bd_pos _ _ _ _ Bd); lia). rewrite bool_decide_eq_false_2; [done|]. apply (b_max _ _ _ _ _ (tr_blocks _ _ _ _ T)); [done|lia].
Qed.
(** A scan may miss a run across its cursor, but two rounds in a row that find no
    [n] pages show that there are no [n] free pages in a row. *)
Lemma second_round_decides w n here here' st1 st2 : reachable w -> 0 < n < 2 ^ 63 -> 0 <= here < 8 -> 0 <= here' < 8 -> alloc_round n here (w_pmm w) = Ok (0, st1) -> alloc_round n here' st1 = Ok (0, st2) ->
  no_run (w_pmm w) 0 (frame_count (w_pmm w)) n.
Proof.
  intros Rw Hn Hh Hh' E1 E2. destruct (reach_sound w Rw) as (B & G & S & Cm). destruct (round_post _ _ _ _ _ n here S Cm Hh Hn) as (f & s & E & (B1 & G1 & Cm1 & _ & D)). rewrite E1 in E. injection E as <- <-.
  destruct D as [(_ & S1 & F1)|(i & X & Fr & _)]; [|destruct (fs_range _ _ _ _ _ Fr); unfold fr, PAGE_SIZE in X; lia]. destruct (fl_next _ _ _ F1) as [Z1|]; [|done].
  destruct (round_post _ _ _ _ _ n here' S1 Cm1 Hh' Hn) as (f & s & E & (B2 & G2 & _ & _ & D)). rewrite E2 in E. injection E as <- <-. destruct D as [(_ & _ & F2)|(i & X & Fr & _)]; [|destruct (fs_range _ _ _ _ _ Fr); unfold fr, PAGE_SIZE in X; lia].
  pose proof (fl_none _ _ _ F2 (or_introl Z1)) as No. destruct (fl_state _ _ _ F1) as (c & _ & ->). exact No.
Qed.

(** ** Where the code falls short *)

(** The marker of the quarantine is a word any owner can write: a page that holds it
    when its last reference goes takes the machine down as a double free. *)
Lemma owner_marker_panics w hidden poison c x : reachable w -> w_held w x = 1 -> bit (pt_frames (w_pmm w)) x = false -> hidden (fr x) = false -> (zero_page_frame (w_pmm w) <> 0 -> fr x <> zero_page_frame (w_pmm w)) ->
  pmm_free_frame hidden poison c (fr x) (store (fr x + PMM_POISON_CANARY_OFF) PMM_POISON_CANARY (w_pmm w)) = Panic "pmm: double free (frame already parked in a bucket)".
Proof.
  intros Rw H1 Np Nh Nz. destruct (reach_sound w Rw) as (B & G & S & _). set (st := store _ _ (w_pmm w)). assert (S1 : sound st B G (w_way w) (w_held w)).
  { apply (way_write _ _ _ _ _ x); [done|right; lia|]. intros z o N Ho. rewrite addr_eqb by (unfold PMM_POISON_CANARY_OFF; lia). by rewrite (proj2 (Z.eqb_neq z x)). }
  destruct (begin_ok st _ _ _ _ hidden x S1) as (st' & Em & [(? & _)|(_ & E & S2)]); [lia|done|done|done|lia|]. unfold pmm_free_frame. rewrite E. cbn [rbind]. unfold free_park. rewrite (so_ready _ _ _ _ _ S2).
  unfold parked, load. rewrite Em. cbn. by rewrite Z.eqb_refl.
Qed.
(** A limit of all ones asks for no frame at all. *)
Lemma below_all_ones n st : 0 <= frame_count st -> pmm_alloc_frames_below n (2 ^ 64 - 1) st = Ok (0, st).
Proof.
  intros Hc. unfold pmm_alloc_frames_below. destruct (n =? 0); [done|]. cbn [orb]. change (2 ^ 64 - 1 <? PAGE_SIZE) with false. cbv iota. change (u64 (2 ^ 64 - 1 + 1) / PAGE_SIZE) with 0. cbv zeta.
  destruct (Z.ltb_spec 0 (frame_count st)); [done|]. by replace (frame_count st) with 0 by lia.
Qed.
(** A request for no frames takes one. *)
Lemma none_takes_one w here : reachable w -> 0 < free_frames (w_pmm w) -> exists i st', alloc_round 0 here (w_pmm w) = Ok (fr i, st') /\ took (w_pmm w) st' i 1.
Proof.
  intros Rw Hf. destruct (reach_sound w Rw) as (B & G & S & _). destruct (bitmap_scan_alloc_ok (w_pmm w) B 1 (so_pool _ _ _ _ _ S) (so_ready _ _ _ _ _ S) (sound_no_pt _ _ _ _ _ S)) as (frame & st' & E & A); [lia|].
  destruct A as [(_ & F)|(r & -> & Gr)]; [|exists r, st'; split; [exact E|apply Gr]]. pose proof (no_run_free _ _ (so_pool _ _ _ _ _ S) (fl_none _ _ _ F (or_intror eq_refl))). lia.
Qed.

(** ** A machine with sixty-four frames *)

Definition demo : pmm := mkPmm 262144 262144 8 (mkTopo 1 [0] []) (1 :: replicate 7 0) (replicate 8 0) (replicate 8 0) (replicate 64 0) 63 empty_area (replicate 8 0) 1 false 0 0 (replicate 64 (mkPcp 0 0 0 0 0 0 0)) (fun _ => 0).
Definition demo_boot : pmm := match pmm_switch_to_direct_map 0 0 demo with Ok st => st | _ => demo end.
Definition demo_world : world := boot_world demo demo_boot.
Lemma demo_early : early demo.
Proof.
  assert (R0 : forall x, refc demo x = 0). { intros x. unfold refc. change (frame_refcounts demo) with (replicate 64 0). destruct (replicate 64 0 !! _) as [v|] eqn:E; [by apply lookup_replicate in E as [-> _]|done]. }
  constructor; try done.
  - destruct empty_area_ok as [A1 A2]. constructor; try done; [by repeat constructor|]. intros i Hi. change (64 <= i < 64) in Hi. lia.
  - intros x Hx. rewrite R0. split; [lia|done].
  - intros x Hx X. change (pt_frames demo) with (replicate 8 0) in X. by rewrite bit_zero in X.
Qed.
Lemma machine_reachable : reachable demo_world.
Proof.
  exists demo_world. split; [|done]. exists demo, 0, 0. destruct (switch_ok demo 0 0 demo_early) as (st' & E & _); [done|done|done|]. split_and!; [apply demo_early|done..|]. exists st'. split; [done|]. unfold demo_world, demo_boot. by rewrite E.
Qed.
#[local] Opaque demo_boot demo_world.
Definition no_secret : Z -> bool := fun _ => false.
Definition demo_run (o : op) (w : world) : Z * world := match exec no_secret o w with Ok p => p | _ => (0, w) end.
Lemma demo_allowed o : match o with AllocFrames n here => 0 < n < 2 ^ 63 /\ 0 <= here < 8 | Drain c => 0 <= c < MAX_CPUS | _ => False end -> allowed no_secret o demo_world.
Proof. intros A. split; [intros x [=]|]. destruct o; try destruct A; done. Qed.
Lemma demo_exec o : allowed no_secret o demo_world -> trapped no_secret o demo_world = false -> exec no_secret o demo_world = Ok (fst (demo_run o demo_world), snd (demo_run o demo_world)).
Proof. intros A Tr. destruct (op_ok no_secret o demo_world (reach_sound _ machine_reachable) A Tr) as (r & w' & E & _). unfold demo_run. by rewrite E. Qed.
Definition demo_granted : Z * world := demo_run (AllocFrames 3 0) demo_world.
Definition demo_drained : Z * world := demo_run (Drain 0) demo_world.
Lemma demo_nonzero : fst demo_granted <> 0 /\ w_held demo_world 32 <> 0.
Proof. split; vm_compute; discriminate. Qed.
(** The first of the pages granted, made a secret. *)
Definition demo_secret : Z -> bool := fun f => f =? fr 36.
Lemma demo_first : fst demo_granted = fr 36 /\ w_held (snd demo_granted) 36 = 1 /\ trapped demo_secret (Free (fr 36)) (snd demo_granted) = true.
Proof. split_and!; vm_compute; reflexivity. Qed.
#[local] Opaque demo_granted demo_drained.
Lemma pmm_panics_iff_trapped_witness : (exists r w', exec no_secret (AllocFrames 3 0) demo_world = Ok (r, w') /\ reachable w') /\ exists m, exec demo_secret (Free (fr 36)) (snd demo_granted) = Panic m.
Proof.
  assert (A : allowed no_secret (AllocFrames 3 0) demo_world) by (by apply demo_allowed). split; [exact (pmm_panics_iff_trapped demo_world no_secret (AllocFrames 3 0) machine_reachable A)|].
  destruct demo_first as (_ & H1 & Tr). assert (H : if trapped demo_secret (Free (fr 36)) (snd demo_granted) then exists m, exec demo_secret (Free (fr 36)) (snd demo_granted) = Panic m else exists r w', exec demo_secret (Free (fr 36)) (snd demo_granted) = Ok (r, w') /\ reachable w'); [|by rewrite Tr in H].
  apply (pmm_panics_iff_trapped (snd demo_granted) demo_secret (Free (fr 36))).
  - eapply reach_step; [apply machine_reachable|exact A|by apply (demo_exec (AllocFrames 3 0))].
  - split; [|exists 36; split; [done|lia]]. intros x Hx. unfold demo_secret in Hx. assert (x = 36) as -> by (unfold fr, PAGE_SIZE in Hx; lia). lia.
Defined.
Lemma frames_exclusive_witness : exists i, fst demo_granted = fr i /\ 0 < i /\ i + asked (AllocFrames 3 0) <= frame_count (w_pmm (snd demo_granted)) /\ forall x, i <= x < i + asked (AllocFrames 3 0) ->
  w_held demo_world x = 0 /\ (x ∉ w_way demo_world) /\ w_held (snd demo_granted) x = 1 /\ refc (w_pmm (snd demo_granted)) x = 1 /\ bit (bitmap (w_pmm (snd demo_granted))) x = true /\
  forall d, 0 <= d < PAGE_SIZE -> mem (w_pmm (snd demo_granted)) (fr x + d) = 0.
Proof.
  refine (frames_exclusive demo_world no_secret (AllocFrames 3 0) (fst demo_granted) (snd demo_granted) machine_reachable (demo_allowed (AllocFrames 3 0) _) eq_refl (demo_exec (AllocFrames 3 0) (demo_allowed (AllocFrames 3 0) _) eq_refl) (proj1 demo_nonzero)); lia.
Defined.
Lemma contents_kept_witness : mem (w_pmm (snd demo_drained)) (fr 32 + 8) = mem (w_pmm demo_world) (fr 32 + 8).
Proof.
  refine (contents_kept demo_world no_secret (Drain 0) (fst demo_drained) (snd demo_drained) 32 8 machine_reachable (demo_allowed (Drain 0) _) (demo_exec (Drain 0) (demo_allowed (Drain 0) _) eq_refl) (proj2 demo_nonzero) _ _); [unfold MAX_CPUS; lia..|unfold PAGE_SIZE; lia|discriminate].
Defined.
Lemma frames_accounted_witness : let st := w_pmm demo_world in exists G,
  NoDup (all_pages G ++ w_way demo_world) /\ (forall x, x ∈ all_pages G ++ w_way demo_world -> 0 < x < frame_count st /\ bit (bitmap st) x = true /\ w_held demo_world x = 0) /\
  (forall x, 0 <= x < frame_count st -> refc st x = w_held demo_world x + Z.b2z (bool_decide (x ∈ plains G))) /\ (forall x, free_page st x -> refc st x = 0 /\ w_held demo_world x = 0) /\
  free_frames st = nwhere (freeb st) (frame_count st) /\ pmm_owned_free_frames st = free_frames st + Z.of_nat (length (all_pages G)).
Proof. apply (frames_accounted demo_world). apply machine_reachable. Defined.
Definition demo_block : Z * pmm := match pmm_alloc_block_node 5 0 false 0 (w_pmm demo_world) with Ok p => p | _ => (1, demo) end.
Lemma demo_block_ok : pmm_alloc_block_node 5 0 false 0 (w_pmm demo_world) = Ok (fst demo_block, snd demo_block) /\ fst demo_block = 0.
Proof.
  split; [|vm_compute; reflexivity]. destruct (reach_sound _ machine_reachable) as (B & G & S & Cm). destruct (alloc_block_ok _ _ _ _ _ 5 0 false 0 S Cm ltac:(lia) ltac:(lia) ltac:(lia)) as (f & s & E & _). unfold demo_block. by rewrite E.
Qed.
#[local] Opaque demo_block.
Lemma block_alloc_exact_witness : no_block (w_pmm demo_world) 5.
Proof.
  refine (proj1 (block_alloc_exact demo_world 5 0 0 (fst demo_block) (snd demo_block) machine_reachable _ _ _ (proj1 demo_block_ok)) (proj2 demo_block_ok)); lia.
Defined.
Lemma demo_free_block : buddy_is_free_block (fr 33) 0 (w_pmm demo_world) = Ok true /\ 33 < frame_count (w_pmm demo_world).
Proof. split; vm_compute; reflexivity. Qed.
Lemma buddies_merged_witness : buddy_is_free_block (Z.lxor (fr 33) (buddy_bytes 0)) 0 (w_pmm demo_world) = Ok false.
Proof. apply (buddies_merged demo_world 33 0 machine_reachable); [lia|split; [lia|apply demo_free_block]|apply demo_free_block]. Defined.
End PmmWorld.
