(* ===== verification/IpcNs.v ===== *)
(** What every System V IPC object shares ([kernel/ipc/ipc_ns.c]): the
    permission record, the namespace an object lives in, and the two access
    rules.

    The calling context is an [ipc_env]: the task's credential, pid and IPC
    namespace, the namespace tables the rules consult, and the clock. *)
From S2P Require Import Prelude Cred UserNs UserNsProofs.
Local Open Scope Z_scope.
Local Open Scope kernel_scope.

Module IpcNs.
Import Cred UserNs UserNsProofs.

Definition IPC_CREAT := 4096.
Definition IPC_EXCL := 8192.
Definition SYSV_IPC_NOWAIT := 2048.
Definition NS_MAX_IPC := 64.

Record ipc_perm := mkPerm {
  p_uid : Z; p_gid : Z; p_cuid : Z; p_cgid : Z; p_mode : Z; p_seq : Z; p_key : Z }.

Record ipc_env := mkEnv {
  cur_cred : option cred;    (* scheduler_get_current_cred() *)
  cur_ns : Z;                (* namespace_current_id(NS_IPC) *)
  cur_pid : Z;               (* scheduler_get_pid() *)
  now : Z;                   (* vfs_get_unix_time() *)
  user_table : ns_state;     (* the user-namespace tables *)
  ipc_slots : list ns_slot   (* ns_slots[NS_IPC] *) }.

(** [namespace_owner(NS_IPC, id)] *)
Definition ipc_namespace_owner (e : ipc_env) (id : Z) : Z :=
  if (NS_MAX_IPC <=? id) || (id =? 0) then 0 else owner (zget (ipc_slots e) id).

Definition ipc_current_ns (e : ipc_env) : Z := cur_ns e.

Definition cred_in_group (c : cred) (kgid : Z) : bool :=
  if egid c =? kgid then true
  else existsb (fun g => g =? kgid) (take (Z.to_nat (Z.min (ngroups c) MAX_GROUPS)) (groups c)).

Definition ipc_check_perm (e : ipc_env) (perm : ipc_perm) (ns flag : Z) : Z :=
  match cur_cred e with
  | None => 0
  | Some c =>
      let requested := u16 (Z.lor (Z.lor (Z.shiftr flag 6) (Z.shiftr flag 3)) flag) in
      let granted :=
        if (euid c =? p_cuid perm) || (euid c =? p_uid perm) then Z.shiftr (p_mode perm) 6
        else if cred_in_group c (p_cgid perm) || cred_in_group c (p_gid perm)
        then Z.shiftr (p_mode perm) 3 else p_mode perm in
      if (Z.land requested (Z.lnot granted) &? 7)
         && negb (ns_capable_cred (user_table e) (Some c) (ipc_namespace_owner e ns) CAP_IPC_OWNER)
      then - EACCES else 0
  end.

Definition ipc_may_control (e : ipc_env) (perm : ipc_perm) (ns : Z) : bool :=
  match cur_cred e with
  | None => true
  | Some c => (euid c =? p_cuid perm) || (euid c =? p_uid perm)
              || ns_capable_cred (user_table e) (Some c) (ipc_namespace_owner e ns) CAP_SYS_ADMIN
  end.

(** ** The access rule, bit by bit *)

(** The class of mode bits that applies: 6 owner, 3 group, 0 others. *)
Definition perm_class (c : cred) (perm : ipc_perm) : Z :=
  if decide (euid c = p_cuid perm \/ euid c = p_uid perm) then 6
  else if cred_in_group c (p_cgid perm) || cred_in_group c (p_gid perm) then 3 else 0.

Lemma low_bits_nonzero a : a &? 7 = true <-> exists i, 0 <= i < 3 /\ Z.testbit a i = true.
Proof.
  assert (H7 : forall i, 0 <= i -> Z.testbit 7 i = (i <? 3)).
  { intros i Hi. change 7 with (Z.ones 3). rewrite Z.testbit_ones by lia. by rewrite (proj2 (Z.leb_le 0 i)). }
  rewrite negb_true_iff, Z.eqb_neq. split.
  - intros H. destruct (Z.testbit a 0) eqn:E0; [exists 0; auto with lia|].
    destruct (Z.testbit a 1) eqn:E1; [exists 1; auto with lia|].
    destruct (Z.testbit a 2) eqn:E2; [exists 2; auto with lia|].
    exfalso. apply H. apply Z.bits_inj'. intros i Hi. rewrite Z.land_spec, Z.bits_0, H7 by done.
    destruct (Z.ltb_spec i 3); [|by rewrite andb_false_r].
    assert (i = 0 \/ i = 1 \/ i = 2) as [->|[->| ->]] by lia; by rewrite ?E0, ?E1, ?E2.
  - intros (i & Hi & Ha) H. assert (Hb := f_equal (fun z => Z.testbit z i) H). cbv beta in Hb.
    rewrite Z.land_spec, Ha, H7, Z.bits_0, (proj2 (Z.ltb_lt i 3)) in Hb by lia. done.
Qed.

Lemma u16_bit z i : 0 <= i < 3 -> Z.testbit (u16 z) i = Z.testbit z i.
Proof. intros Hi. unfold u16. change U16_MOD with (2 ^ 16). apply Z.mod_pow2_bits_low. lia. Qed.

(** (Functional.)  [ipc_check_perm] lets a task with a credential through
    exactly when it holds [CAP_IPC_OWNER] over the namespace's owner, or every
    permission asked for in any of the three triplets of [flag] is granted by
    the triplet of the mode that applies to it. *)
Theorem ipc_permission_rule e perm ns flag c :
  cur_cred e = Some c ->
  ipc_check_perm e perm ns flag = 0 <->
  ns_capable_cred (user_table e) (Some c) (ipc_namespace_owner e ns) CAP_IPC_OWNER = true
  \/ forall i, 0 <= i < 3 ->
       Z.testbit flag i = true \/ Z.testbit flag (i + 3) = true \/ Z.testbit flag (i + 6) = true ->
       Z.testbit (p_mode perm) (i + perm_class c perm) = true.
Proof.
  intros Hc. unfold ipc_check_perm. rewrite Hc. cbv zeta.
  set (cap := ns_capable_cred _ _ _ CAP_IPC_OWNER). set (g := if _ || _ then _ else _).
  assert (Hg : forall i, 0 <= i -> Z.testbit g i = Z.testbit (p_mode perm) (i + perm_class c perm)).
  { intros i Hi. unfold g, perm_class.
    destruct (Z.eqb_spec (euid c) (p_cuid perm)), (Z.eqb_spec (euid c) (p_uid perm)), (decide _);
      simpl; try tauto; rewrite ?Z.shiftr_spec by done; try done.
    break_goal; rewrite ?Z.shiftr_spec, ?Z.add_0_r by done; done. }
  destruct cap; [rewrite andb_false_r; tauto|]. rewrite andb_true_r.
  destruct (Z.land _ _ &? 7) eqn:E.
  - apply low_bits_nonzero in E as (i & Hi & Hb). split; [done|]. intros [?|H]; [done|].
    rewrite Z.land_spec, u16_bit, !Z.lor_spec, !Z.shiftr_spec, Z.lnot_spec, Hg in Hb by lia.
    apply andb_true_iff in Hb as [Hr Hn]. rewrite H in Hn; [done|done|].
    rewrite !orb_true_iff in Hr. tauto.
  - split; [intros _; right|done]. intros i Hi Hr. apply not_true_iff_false in E.
    destruct (Z.testbit (p_mode perm) _) eqn:Em; [done|]. exfalso. apply E, low_bits_nonzero.
    exists i. split; [done|]. rewrite Z.land_spec, u16_bit, !Z.lor_spec, !Z.shiftr_spec, Z.lnot_spec, Hg by lia.
    rewrite Em, andb_true_r, !orb_true_iff. tauto.
Qed.

(** ** A concrete context *)

Definition example_env : ipc_env := mkEnv (Some alice) 0 7 1000 ns_start (replicate 64 inhabitant).
Definition example_perm : ipc_perm := mkPerm 1000 100 1000 100 416 0 0.

Lemma ipc_permission_rule_witness : ipc_check_perm example_env example_perm 0 384 = 0.
Proof.
  apply (ipc_permission_rule example_env example_perm 0 384 alice eq_refl). right.
  intros i Hi Hr. assert (i = 0 \/ i = 1 \/ i = 2) as [->|[->| ->]] by lia;
    [vm_compute in Hr; by destruct Hr as [?|[?|?]]|reflexivity|reflexivity].
Defined.

End IpcNs.
