(* ===== verification/SysvSem.v ===== *)
(** System V semaphores ([kernel/ipc/sysv_sem.c]).

    The table of sets and the SEM_UNDO ledger are one [sem_state]; every
    handler is a function from the calling context and the state to a result
    code and a new state.  [semop] is its two critical sections, before and
    after the sleep, as the code has them: [semop_attempt] and [semop_resume].
    Wait-channel wake-ups are returned as the list of set ids woken. *)
From S2P Require Import Prelude Cred UserNs IpcNs.
Local Open Scope Z_scope.
Local Open Scope kernel_scope.

Module SysvSem.
Import IpcNs.

Definition SEMMNI := 32.
Definition SEMMSL := 32.
Definition SEMVMX := 32767.
Definition SEM_UNDO := 4096.
Definition SEM_UNDO_MAX := 64.

Record sembuf := mkOp { sem_num : Z; sem_op : Z; sem_flg : Z }.

Record sem_slot := mkSem {
  s_used : bool; s_key : Z; s_ns : Z; s_nsems : Z;
  s_vals : list Z;      (* u16[SEMMSL] *)
  s_pid : list Z;       (* last process to operate on each semaphore *)
  s_ncnt : list Z;      (* waiters for increase *)
  s_zcnt : list Z;      (* waiters for zero *)
  s_perm : ipc_perm; s_otime : Z; s_ctime : Z }.

Record sem_undo := mkUndo { u_used : bool; u_pid : Z; u_semid : Z; u_semnum : Z; u_adjust : Z }.

Record sem_state := mkSt { g_sets : list sem_slot; g_undo : list sem_undo; g_seq : Z }.

Definition zeros : list Z := replicate 32 0.
Definition perm_zero : ipc_perm := mkPerm 0 0 0 0 0 0 0.
(** A slot after [memset(.., 0, ..)]. *)
Definition sem_zero : sem_slot := mkSem false 0 0 0 zeros zeros zeros zeros perm_zero 0 0.
Definition undo_zero : sem_undo := mkUndo false 0 0 0 0.
Definition sem_boot : sem_state := mkSt (replicate 32 sem_zero) (replicate 64 undo_zero) 0.

#[global] Instance sem_slot_inhabited : Inhabited sem_slot := populate sem_zero.
#[global] Instance sem_undo_inhabited : Inhabited sem_undo := populate undo_zero.
#[global] Instance sem_undo_eq_dec : EqDecision sem_undo.
Proof. solve_decision. Defined.

Definition sem_set (st : sem_state) (i : Z) : sem_slot := zget (g_sets st) i.
Definition upd_set (f : sem_slot -> sem_slot) (i : Z) (st : sem_state) : sem_state :=
  mkSt (zalter f i (g_sets st)) (g_undo st) (g_seq st).
Definition upd_undo (f : sem_undo -> sem_undo) (st : sem_state) : sem_state :=
  mkSt (g_sets st) (map f (g_undo st)) (g_seq st).

Definition with_vals (v : list Z) (s : sem_slot) : sem_slot :=
  mkSem (s_used s) (s_key s) (s_ns s) (s_nsems s) v (s_pid s) (s_ncnt s) (s_zcnt s) (s_perm s) (s_otime s) (s_ctime s).
Definition with_pid (v : list Z) (s : sem_slot) : sem_slot :=
  mkSem (s_used s) (s_key s) (s_ns s) (s_nsems s) (s_vals s) v (s_ncnt s) (s_zcnt s) (s_perm s) (s_otime s) (s_ctime s).
Definition with_counts (nc zc : list Z) (s : sem_slot) : sem_slot :=
  mkSem (s_used s) (s_key s) (s_ns s) (s_nsems s) (s_vals s) (s_pid s) nc zc (s_perm s) (s_otime s) (s_ctime s).
Definition with_times (ot ct : Z) (s : sem_slot) : sem_slot :=
  mkSem (s_used s) (s_key s) (s_ns s) (s_nsems s) (s_vals s) (s_pid s) (s_ncnt s) (s_zcnt s) (s_perm s) ot ct.
Definition with_perm (p : ipc_perm) (s : sem_slot) : sem_slot :=
  mkSem (s_used s) (s_key s) (s_ns s) (s_nsems s) (s_vals s) (s_pid s) (s_ncnt s) (s_zcnt s) p (s_otime s) (s_ctime s).
Definition unused (s : sem_slot) : sem_slot :=
  mkSem false (s_key s) (s_ns s) (s_nsems s) (s_vals s) (s_pid s) (s_ncnt s) (s_zcnt s) (s_perm s) (s_otime s) (s_ctime s).

Definition sem_id_valid (e : ipc_env) (st : sem_state) (semid : Z) : bool :=
  (0 <=? semid) && (semid <? SEMMNI) && s_used (sem_set st semid)
  && (s_ns (sem_set st semid) =? ipc_current_ns e).
Definition sem_may_control (e : ipc_env) (s : sem_slot) : bool := ipc_may_control e (s_perm s) (s_ns s).
Definition sem_access (e : ipc_env) (st : sem_state) (semid acc : Z) : Z :=
  ipc_check_perm e (s_perm (sem_set st semid)) (s_ns (sem_set st semid)) acc.

(** ** semget *)

Definition key_matches (ns key : Z) (s : sem_slot) : bool :=
  s_used s && (s_ns s =? ns) && (s_key s =? key).

Definition new_set (e : ipc_env) (key nsems semflg seq : Z) : sem_slot :=
  let uid := match cur_cred e with Some c => Cred.euid c | None => 0 end in
  let gid := match cur_cred e with Some c => Cred.egid c | None => 0 end in
  mkSem true key (ipc_current_ns e) nsems zeros zeros zeros zeros
    (mkPerm uid gid uid gid (u16 (Z.land semflg 511)) seq key) 0 (now e).

Definition sem_create (e : ipc_env) (st : sem_state) (key nsems semflg : Z) : Z * sem_state :=
  if nsems =? 0 then (- EINVAL, st)
  else match first_index (fun s => negb (s_used s)) (g_sets st) with
       | None => (- ENOSPC, st)
       | Some i =>
           (Z.of_nat i, mkSt (<[i := new_set e key nsems semflg (g_seq st)]> (g_sets st)) (g_undo st)
                          (u16 (g_seq st + 1)))
       end.

Definition sysv_semget (e : ipc_env) (st : sem_state) (key nsems semflg : Z) : Z * sem_state :=
  if (nsems <? 0) || (SEMMSL <? nsems) then (- EINVAL, st)
  else if key <>? 0 then
    match first_index (key_matches (ipc_current_ns e) key) (g_sets st) with
    | Some i =>
        if (semflg &? IPC_CREAT) && (semflg &? IPC_EXCL) then (- EEXIST, st)
        else if sem_access e st (Z.of_nat i) (u16 (Z.land semflg 511)) <>? 0 then (- EACCES, st)
        else if (0 <? nsems) && (s_nsems (sem_set st (Z.of_nat i)) <? nsems) then (- EINVAL, st)
        else (Z.of_nat i, st)
    | None => if semflg &? IPC_CREAT then sem_create e st key nsems semflg else (- ENOENT, st)
    end
  else sem_create e st key nsems semflg.

(** ** The undo ledger *)

Definition undo_for (pid semid semnum : Z) (u : sem_undo) : bool :=
  u_used u && (u_pid u =? pid) && (u_semid u =? semid) && (u_semnum u =? semnum).

(** [g_undo[i].adjust -= adjust]: the sum of a task's adjustments is not bounded,
    and where it leaves 32 bits the subtraction overflows, which the compiled
    code wraps. *)
Definition undo_fold (adjust : Z) (u : sem_undo) : sem_undo :=
  let a := i32 (u_adjust u - adjust) in
  mkUndo (if a =? 0 then false else u_used u) (u_pid u) (u_semid u) (u_semnum u) a.

Definition undo_record (l : list sem_undo) (pid semid semnum adjust : Z) : list sem_undo :=
  match first_index (undo_for pid semid semnum) l with
  | Some i => alter (undo_fold adjust) i l
  | None =>
      if adjust =? 0 then l
      else match first_index (fun u => negb (u_used u)) l with
           | None => l
           | Some i => <[i := mkUndo true pid semid semnum (- adjust)]> l
           end
  end.

(** ** semop *)

(** Run the array over the snapshot: [inr next] when every operation can
    proceed, [inl rc] otherwise ([1] means block). *)
Fixpoint try_ops (nsems : Z) (next : list Z) (ops : list sembuf) : Z + list Z :=
  match ops with
  | [] => inr next
  | o :: ops' =>
      let n := sem_num o in
      let op := sem_op o in
      let blocked := if sem_flg o &? SYSV_IPC_NOWAIT then - EAGAIN else 1 in
      if nsems <=? n then inl (- EFBIG)
      else if op =? 0 then
        if zget next n <>? 0 then inl blocked else try_ops nsems next ops'
      else if 0 <? op then
        if SEMVMX <? zget next n + op then inl (- ERANGE)
        else try_ops nsems (zalter (fun v => v + op) n next) ops'
      else if zget next n + op <? 0 then inl blocked
      else try_ops nsems (zalter (fun v => v + op) n next) ops'
  end.

Fixpoint commit_ops (pid semid : Z) (ops : list sembuf) (st : sem_state) : sem_state :=
  match ops with
  | [] => st
  | o :: ops' =>
      let st1 := upd_set (fun s => with_pid (zalter (fun _ => pid) (sem_num o) (s_pid s)) s) semid st in
      let st2 := if sem_flg o &? SEM_UNDO
                 then mkSt (g_sets st1) (undo_record (g_undo st1) pid semid (sem_num o) (sem_op o)) (g_seq st1)
                 else st1 in
      commit_ops pid semid ops' st2
  end.

Definition sem_try_ops (e : ipc_env) (st : sem_state) (semid : Z) (ops : list sembuf) (pid : Z)
    : Z * sem_state :=
  let s := sem_set st semid in
  let n := Z.to_nat (s_nsems s) in
  match try_ops (s_nsems s) (take n (s_vals s)) ops with
  | inl rc => (rc, st)
  | inr next =>
      let st1 := upd_set (with_vals (map u16 next ++ drop n (s_vals s))) semid st in
      let st2 := commit_ops pid semid ops st1 in
      (0, upd_set (fun s => with_times (now e) (s_ctime s) s) semid st2)
  end.

(** Waiters are counted per semaphore while they sleep. *)
Definition count_wait (nsems : Z) (o : sembuf) (s : sem_slot) : sem_slot :=
  if sem_num o <? nsems then
    if sem_op o =? 0 then with_counts (s_ncnt s) (zalter (fun c => u64 (c + 1)) (sem_num o) (s_zcnt s)) s
    else if sem_op o <? 0 then with_counts (zalter (fun c => u64 (c + 1)) (sem_num o) (s_ncnt s)) (s_zcnt s) s
    else s
  else s.
Definition uncount_wait (o : sembuf) (s : sem_slot) : sem_slot :=
  if s_nsems s <=? sem_num o then s
  else if (sem_op o =? 0) && (zget (s_zcnt s) (sem_num o) <>? 0)
  then with_counts (s_ncnt s) (zalter (fun c => c - 1) (sem_num o) (s_zcnt s)) s
  else if (sem_op o <? 0) && (zget (s_ncnt s) (sem_num o) <>? 0)
  then with_counts (zalter (fun c => c - 1) (sem_num o) (s_ncnt s)) (s_zcnt s) s
  else s.

(** The critical section before the sleep: [None] when the caller must block. *)
Definition semop_attempt (e : ipc_env) (st : sem_state) (semid : Z) (ops : list sembuf)
    : option Z * sem_state * list Z :=
  if negb (sem_id_valid e st semid) then (Some (- EINVAL), st, [])
  else
    let alter := existsb (fun o => sem_op o <>? 0) ops in
    if sem_access e st semid (if alter then 128 else 256) <>? 0 then (Some (- EACCES), st, [])
    else
      match sem_try_ops e st semid ops (cur_pid e) with
      | (rc, st') =>
          if rc =? 0 then (Some 0, st', [semid])
          else if rc <? 0 then (Some rc, st', [])
          else (None, upd_set (fun s => fold_left (fun s o => count_wait (s_nsems s) o s) ops s) semid st', [])
      end.

(** The one after it; [rc] is why the sleep ended.  [None]: try again. *)
Definition semop_resume (e : ipc_env) (st : sem_state) (semid : Z) (ops : list sembuf) (rc : Z)
    : option Z * sem_state :=
  if sem_id_valid e st semid then
    (if rc <? 0 then Some rc else None,
     upd_set (fun s => fold_left (fun s o => uncount_wait o s) ops s) semid st)
  else (Some (- EIDRM), st).

(** How a sleep ends: a signal was pending, the deadline passed, or a wake-up. *)
Inductive wakeup := Signal | Deadline | Woken.
Definition sleep_rc (timeout_ms : Z) (w : wakeup) : Z :=
  match w with
  | Signal => - ERESTARTNOHAND
  | Deadline => if 0 <=? timeout_ms then - EAGAIN else 0
  | Woken => 0
  end.

(** The whole call.  Each round of the loop names what other tasks did to the
    table while this one slept and between its wake-up and its next attempt.
    [None] as result: still asleep after the last round. *)
Record round := mkRound { during_sleep : sem_state -> sem_state; woken : wakeup; before_retry : sem_state -> sem_state }.

Fixpoint semop_loop (e : ipc_env) (semid : Z) (ops : list sembuf) (timeout_ms : Z) (rounds : list round)
    (st : sem_state) : option Z * sem_state :=
  match semop_attempt e st semid ops with
  | (Some rc, st1, _) => (Some rc, st1)
  | (None, st1, _) =>
      match rounds with
      | [] => (None, st1)
      | r :: rounds' =>
          match semop_resume e (during_sleep r st1) semid ops (sleep_rc timeout_ms (woken r)) with
          | (Some rc, st2) => (Some rc, st2)
          | (None, st2) => semop_loop e semid ops timeout_ms rounds' (before_retry r st2)
          end
      end
  end.
Definition sysv_semop (e : ipc_env) (st : sem_state) (semid : Z) (ops : option (list sembuf))
    (timeout_ms : Z) (rounds : list round) : option Z * sem_state :=
  match ops with
  | None => (Some (- EINVAL), st)
  | Some ops =>
      if (Z.of_nat (length ops) =? 0) || (SEMMSL <? Z.of_nat (length ops)) then (Some (- EINVAL), st)
      else semop_loop e semid ops timeout_ms rounds st
  end.

(** ** semctl *)

Record semid_info := mkInfo { i_perm : ipc_perm; i_otime : Z; i_ctime : Z; i_nsems : Z }.
Definition info_of (s : sem_slot) : semid_info := mkInfo (s_perm s) (s_otime s) (s_ctime s) (s_nsems s).

Definition sysv_semctl_stat (e : ipc_env) (st : sem_state) (semid : Z) : Z * option semid_info :=
  if negb (sem_id_valid e st semid) then (- EINVAL, None)
  else if sem_access e st semid 256 <>? 0 then (- EACCES, None)
  else (0, Some (info_of (sem_set st semid))).
Definition sysv_sem_stat_index (e : ipc_env) (st : sem_state) (idx : Z) : Z * option semid_info :=
  if sem_id_valid e st idx then (0, Some (info_of (sem_set st idx))) else (- EINVAL, None).

Definition sysv_semctl_set (e : ipc_env) (st : sem_state) (semid uid gid mode : Z) : Z * sem_state :=
  if negb (sem_id_valid e st semid) then (- EINVAL, st)
  else if negb (sem_may_control e (sem_set st semid)) then (- EPERM, st)
  else (0, upd_set (fun s => with_times (s_otime s) (now e)
             (with_perm (mkPerm uid gid (p_cuid (s_perm s)) (p_cgid (s_perm s)) (Z.land mode 511)
                           (p_seq (s_perm s)) (p_key (s_perm s))) s)) semid st).

Definition drop_undo (p : sem_undo -> bool) (u : sem_undo) : sem_undo :=
  if u_used u && p u then mkUndo false (u_pid u) (u_semid u) (u_semnum u) (u_adjust u) else u.

Definition sysv_semctl_rmid (e : ipc_env) (st : sem_state) (semid : Z) : Z * sem_state * list Z :=
  if negb (sem_id_valid e st semid) then (- EINVAL, st, [])
  else if negb (sem_may_control e (sem_set st semid)) then (- EPERM, st, [])
  else (0, upd_undo (drop_undo (fun u => u_semid u =? semid)) (upd_set unused semid st), [semid]).

(** The shared shape of GETVAL, GETNCNT, GETZCNT and GETPID. *)
Definition sem_read (e : ipc_env) (st : sem_state) (semid semnum : Z) (f : sem_slot -> list Z) : Z :=
  if sem_id_valid e st semid && (sem_access e st semid 256 <>? 0) then - EACCES
  else if sem_id_valid e st semid && (0 <=? semnum) && (semnum <? s_nsems (sem_set st semid))
  then i32 (zget (f (sem_set st semid)) semnum)
  else - EINVAL.
Definition sysv_semctl_getval e st semid semnum := sem_read e st semid semnum s_vals.
Definition sysv_semctl_getcnt e st semid semnum (want_zero : bool) :=
  sem_read e st semid semnum (if want_zero then s_zcnt else s_ncnt).
Definition sysv_semctl_getpid e st semid semnum := sem_read e st semid semnum s_pid.

Definition sysv_semctl_setval (e : ipc_env) (st : sem_state) (semid semnum val : Z)
    : Z * sem_state * list Z :=
  if (val <? 0) || (SEMVMX <? val) then (- ERANGE, st, [])
  else if negb (sem_id_valid e st semid) || (semnum <? 0) || (s_nsems (sem_set st semid) <=? semnum)
  then (- EINVAL, st, [])
  else if sem_access e st semid 128 <>? 0 then (- EACCES, st, [])
  else (0, upd_undo (drop_undo (fun u => (u_semid u =? semid) && (u_semnum u =? u16 semnum)))
             (upd_set (fun s => with_times (s_otime s) (now e)
                (with_vals (zalter (fun _ => u16 val) semnum (s_vals s)) s)) semid st), [semid]).

Definition sysv_semctl_getall (e : ipc_env) (st : sem_state) (semid count : Z) : Z * list Z :=
  if negb (sem_id_valid e st semid) || (count <? s_nsems (sem_set st semid)) then (- EINVAL, [])
  else if sem_access e st semid 256 <>? 0 then (- EACCES, [])
  else (s_nsems (sem_set st semid), take (Z.to_nat (s_nsems (sem_set st semid))) (s_vals (sem_set st semid))).

Definition sysv_semctl_setall (e : ipc_env) (st : sem_state) (semid : Z) (vals : list Z)
    : Z * sem_state * list Z :=
  let n := s_nsems (sem_set st semid) in
  if negb (sem_id_valid e st semid) || (Z.of_nat (length vals) <? n) then (- EINVAL, st, [])
  else if sem_access e st semid 128 <>? 0 then (- EACCES, st, [])
  else if existsb (fun v => SEMVMX <? v) (take (Z.to_nat n) vals) then (- ERANGE, st, [])
  else (0, upd_undo (drop_undo (fun u => u_semid u =? semid))
             (upd_set (fun s => with_times (s_otime s) (now e)
                (with_vals (take (Z.to_nat n) vals ++ drop (Z.to_nat n) (s_vals s)) s)) semid st), [semid]).

(** ** Exit of a task, and of a namespace *)

Definition clamp_val (v : Z) : Z := if SEMVMX <? (if v <? 0 then 0 else v) then SEMVMX else (if v <? 0 then 0 else v).

(** [vals[n] + adjust] is an [i32] sum; it too is the wrapped one where it overflows. *)
Fixpoint cleanup_loop (e : ipc_env) (pid : Z) (l : list sem_undo) (st : sem_state) (woke : Z)
    : list sem_undo * sem_state * Z :=
  match l with
  | [] => ([], st, woke)
  | u :: l' =>
      if negb (u_used u) || (u_pid u <>? pid) then
        let '(r, st', w) := cleanup_loop e pid l' st woke in (u :: r, st', w)
      else
        let hit := sem_id_valid e st (u_semid u) && (u_semnum u <? s_nsems (sem_set st (u_semid u))) in
        let st1 := if hit then
                     upd_set (fun s => with_vals (zalter (fun v => u16 (clamp_val (i32 (v + u_adjust u))))
                                                    (u_semnum u) (s_vals s)) s) (u_semid u) st
                   else st in
        let '(r, st', w) := cleanup_loop e pid l' st1 (if hit then u_semid u else woke) in
        (mkUndo false (u_pid u) (u_semid u) (u_semnum u) (u_adjust u) :: r, st', w)
  end.
Definition sysv_sem_task_cleanup (e : ipc_env) (st : sem_state) (pid : Z) : sem_state * list Z :=
  let '(l, st', woke) := cleanup_loop e pid (g_undo st) st (-1) in
  (mkSt (g_sets st') l (g_seq st'), if 0 <=? woke then [woke] else []).

(** One iteration of the loop over the slots, each a critical section. *)
Definition ns_destroy_one (ns i : Z) (st : sem_state) : sem_state * list Z :=
  if s_used (sem_set st i) && (s_ns (sem_set st i) =? ns)
  then (upd_undo (drop_undo (fun u => u_semid u =? i)) (upd_set unused i st), [i])
  else (st, []).
Definition sysv_sem_ns_destroy (ns : Z) (st : sem_state) : sem_state * list Z :=
  fold_left (fun acc i => let '(st, w) := ns_destroy_one ns i (fst acc) in (st, snd acc ++ w))
    (map Z.of_nat (seq 0 32)) (st, []).

End SysvSem.
