(* ===== verification/SysvSemProofs.v ===== *)
(** Properties of the System V semaphore model: the invariant of the table and
    the undo ledger over every interleaving of the critical sections, atomicity
    of an operation array, the SEM_UNDO round trip, key lookup and isolation of
    namespaces. *)
From S2P Require Import Prelude Cred UserNs UserNsProofs IpcNs SysvSem.
Local Open Scope Z_scope.
Local Open Scope kernel_scope.

Module SysvSemProofs.
Import IpcNs SysvSem.

(** ** The invariant *)

Definition val_ok (v : Z) : Prop := 0 <= v <= SEMVMX.
Record slot_ok (s : sem_slot) : Prop := {
  ok_len_vals : length (s_vals s) = 32%nat;
  ok_len_pid : length (s_pid s) = 32%nat;
  ok_len_ncnt : length (s_ncnt s) = 32%nat;
  ok_len_zcnt : length (s_zcnt s) = 32%nat;
  ok_vals : Forall val_ok (s_vals s);
  ok_nsems : 0 <= s_nsems s <= SEMMSL;
  ok_used : s_used s = true -> 1 <= s_nsems s }.

Definition in_sets (i : Z) : Prop := 0 <= i < SEMMNI.

(** An entry of the ledger names a semaphore of a live set. *)
Definition entry_ok (sets : Z -> sem_slot) (u : sem_undo) : Prop :=
  u_used u = true ->
  in_sets (u_semid u) /\ s_used (sets (u_semid u)) = true /\ 0 <= u_semnum u < s_nsems (sets (u_semid u)).
Definition same_entry (u v : sem_undo) : Prop :=
  u_pid u = u_pid v /\ u_semid u = u_semid v /\ u_semnum u = u_semnum v.
Definition ledger_uniq (l : list sem_undo) : Prop :=
  forall i j u v, l !! i = Some u -> l !! j = Some v ->
    u_used u = true -> u_used v = true -> same_entry u v -> i = j.

Record sem_inv (st : sem_state) : Prop := {
  inv_len : length (g_sets st) = 32%nat;
  inv_ulen : length (g_undo st) = 64%nat;
  inv_slot : forall i, in_sets i -> slot_ok (sem_set st i);
  inv_keys : forall i j, in_sets i -> in_sets j ->
    s_used (sem_set st i) = true -> s_used (sem_set st j) = true ->
    s_key (sem_set st i) = s_key (sem_set st j) -> s_ns (sem_set st i) = s_ns (sem_set st j) ->
    s_key (sem_set st i) <> 0 -> i = j;
  inv_entries : forall u, u ∈ g_undo st -> entry_ok (sem_set st) u;
  inv_uniq : ledger_uniq (g_undo st) }.

(** ** Updates that keep the identity of a set *)

Definition same_shape (s s' : sem_slot) : Prop :=
  s_used s' = s_used s /\ s_key s' = s_key s /\ s_ns s' = s_ns s /\ s_nsems s' = s_nsems s.

Lemma sem_set_upd st f i j :
  length (g_sets st) = 32%nat -> in_sets i -> in_sets j ->
  sem_set (upd_set f i st) j = if decide (j = i) then f (sem_set st i) else sem_set st j.
Proof.
  unfold in_sets, SEMMNI. intros Hl Hi Hj. unfold sem_set. simpl.
  destruct (decide (j = i)) as [->|Hne]; [apply zget_zalter_eq; lia|apply zget_zalter_ne; lia].
Qed.
Lemma sem_set_undo st f j : sem_set (upd_undo f st) j = sem_set st j.
Proof. done. Qed.

Lemma valid_in_sets e st i : sem_id_valid e st i = true ->
  in_sets i /\ s_used (sem_set st i) = true /\ s_ns (sem_set st i) = cur_ns e.
Proof. unfold sem_id_valid, in_sets, ipc_current_ns. intros H. bools. auto. Qed.

Lemma inv_upd_quiet st f i :
  sem_inv st -> in_sets i ->
  same_shape (sem_set st i) (f (sem_set st i)) -> slot_ok (f (sem_set st i)) ->
  sem_inv (upd_set f i st).
Proof.
  intros Hi Hr (Hu & Hk & Hn & Hm) Hok.
  assert (Hsh : forall j, in_sets j -> same_shape (sem_set st j) (sem_set (upd_set f i st) j)).
  { intros j Hj. rewrite sem_set_upd by (done || apply Hi). unfold same_shape. destruct (decide _) as [->|]; done. }
  constructor; simpl.
  - rewrite length_zalter. apply Hi.
  - apply Hi.
  - intros j Hj. rewrite sem_set_upd by (done || apply Hi). destruct (decide _); [done|by apply Hi].
  - intros a b Ha Hb. destruct (Hsh a Ha) as (-> & -> & -> & _), (Hsh b Hb) as (-> & -> & -> & _).
    by apply (inv_keys _ Hi).
  - intros u Hin Hused. destruct (inv_entries _ Hi u Hin Hused) as (Hs & H1 & H2).
    destruct (Hsh _ Hs) as (-> & _ & _ & ->). auto.
  - apply Hi.
Qed.

(** ** Changing the ledger *)

Lemma inv_ledger st l :
  sem_inv st -> length l = 64%nat -> (forall u, u ∈ l -> entry_ok (sem_set st) u) -> ledger_uniq l ->
  sem_inv (mkSt (g_sets st) l (g_seq st)).
Proof. intros [] ? ? ?. by constructor. Qed.

Lemma undo_for_spec pid semid n u :
  undo_for pid semid n u = true <-> u_used u = true /\ u_pid u = pid /\ u_semid u = semid /\ u_semnum u = n.
Proof. unfold undo_for. rewrite !andb_true_iff, !Z.eqb_eq. tauto. Qed.

Lemma undo_record_length l pid semid n a : length (undo_record l pid semid n a) = length l.
Proof.
  unfold undo_record. repeat case_match; try done; [apply length_alter|apply length_insert].
Qed.

Lemma undo_record_entries sets l pid semid n a :
  (forall u, u ∈ l -> entry_ok sets u) ->
  in_sets semid -> s_used (sets semid) = true -> 0 <= n < s_nsems (sets semid) ->
  forall u, u ∈ undo_record l pid semid n a -> entry_ok sets u.
Proof.
  intros Hl Hs Hu Hn u. unfold undo_record.
  destruct (first_index (undo_for _ _ _) l) as [i|] eqn:E.
  - apply first_index_Some in E as (x & Hx & Hp & _). apply undo_for_spec in Hp as (Hux & _ & Hsx & Hnx).
    intros (j & Hj)%list_elem_of_lookup. destruct (decide (j = i)) as [->|].
    + rewrite list_lookup_alter_eq, Hx in Hj. injection Hj as <-. intros _. simpl. by rewrite Hsx, Hnx.
    + rewrite list_lookup_alter_ne in Hj by done. apply Hl. by eapply list_elem_of_lookup_2.
  - destruct (a =? 0); [apply Hl|]. destruct (first_index (fun u => negb (u_used u)) l) as [i|] eqn:F; [|apply Hl].
    apply first_index_lt in F. intros (j & Hj)%list_elem_of_lookup. destruct (decide (j = i)) as [->|].
    + rewrite list_lookup_insert_eq in Hj by done. injection Hj as <-. by intros _.
    + rewrite list_lookup_insert_ne in Hj by done. apply Hl. by eapply list_elem_of_lookup_2.
Qed.

Lemma undo_record_uniq l pid semid n a : ledger_uniq l -> ledger_uniq (undo_record l pid semid n a).
Proof.
  intros Hl. unfold undo_record. destruct (first_index (undo_for _ _ _) l) as [i|] eqn:E.
  - apply first_index_Some in E as (x & Hx & Hp & _). intros j k u v Hj Hk Hu Hv Huv.
    assert (Hb : forall m w, alter (undo_fold a) i l !! m = Some w -> u_used w = true ->
              exists w0, l !! m = Some w0 /\ u_used w0 = true /\ same_entry w0 w).
    { intros m w Hm Hw. destruct (decide (m = i)) as [->|].
      - rewrite list_lookup_alter_eq, Hx in Hm. injection Hm as <-. exists x. split_and!; [done| |done].
        simpl in Hw. by destruct (_ =? 0).
      - rewrite list_lookup_alter_ne in Hm by done. by exists w. }
    destruct (Hb _ _ Hj Hu) as (u0 & Hu0 & Hu0' & S1 & S2 & S3).
    destruct (Hb _ _ Hk Hv) as (v0 & Hv0 & Hv0' & T1 & T2 & T3). destruct Huv as (E1 & E2 & E3).
    eapply Hl; try done. unfold same_entry. by rewrite S1, S2, S3, T1, T2, T3.
  - destruct (a =? 0); [done|]. destruct (first_index (fun u => negb (u_used u)) l) as [i|] eqn:F; [|done].
    apply first_index_lt in F. rewrite first_index_None in E.
    assert (Hnew : forall m w, l !! m = Some w -> u_used w = true -> u_pid w = pid -> u_semid w = semid ->
              u_semnum w = n -> False).
    { intros m w Hm Hw Hp Hs Hn. specialize (E m w Hm).
      by rewrite (proj2 (undo_for_spec pid semid n w)) in E. }
    intros j k u v Hj Hk Hu Hv (E1 & E2 & E3).
    apply list_lookup_insert_Some in Hj as [(<- & <- & _)|[Hji Hj]];
      apply list_lookup_insert_Some in Hk as [(<- & <- & _)|[Hki Hk]]; simpl in *; try done.
    + exfalso. by eapply (Hnew k v).
    + exfalso. by eapply (Hnew j u).
    + by eapply Hl.
Qed.

(** Retiring entries. *)
Definition retired (l l' : list sem_undo) : Prop := Forall2 (fun u v => v = u \/ u_used v = false) l l'.

Lemma retired_lookup l l' i v :
  retired l l' -> l' !! i = Some v -> u_used v = true -> l !! i = Some v.
Proof.
  intros Hr Hv Hu. destruct (Forall2_lookup_r _ _ _ _ _ Hr Hv) as (u & Hi & [->|?]); congruence.
Qed.
Lemma retired_uniq l l' : retired l l' -> ledger_uniq l -> ledger_uniq l'.
Proof. intros Hr Hl i j u v Hi Hj Hu Hv. eapply Hl; eauto using retired_lookup. Qed.
Lemma retired_in l l' v : retired l l' -> v ∈ l' -> u_used v = true -> v ∈ l.
Proof.
  intros Hr (i & Hi)%list_elem_of_lookup Hu. eapply list_elem_of_lookup_2, retired_lookup; eauto.
Qed.
Lemma retired_drop p l : retired l (map (drop_undo p) l).
Proof.
  unfold retired. induction l as [|u l IH]; simpl; constructor; [|done].
  unfold drop_undo. destruct (_ && _); auto.
Qed.
Lemma inv_retire st l :
  sem_inv st -> retired (g_undo st) l -> sem_inv (mkSt (g_sets st) l (g_seq st)).
Proof.
  intros Hi Hr. apply inv_ledger; [done|..].
  - erewrite <- Forall2_length by exact Hr. apply Hi.
  - intros u Hu Hused. apply (inv_entries _ Hi); [|done]. by eapply retired_in.
  - eapply retired_uniq; [done|apply Hi].
Qed.

(** Freeing a set together with its ledger entries. *)
Lemma inv_free st i :
  sem_inv st -> in_sets i ->
  sem_inv (upd_undo (drop_undo (fun u => u_semid u =? i)) (upd_set unused i st)).
Proof.
  intros Hi Hr. pose proof (retired_drop (fun u => u_semid u =? i) (g_undo st)) as Hret.
  assert (Hset : forall j, in_sets j -> sem_set (upd_set unused i st) j
            = if decide (j = i) then unused (sem_set st i) else sem_set st j)
    by (intros; apply sem_set_upd; [apply Hi|done..]).
  constructor; simpl.
  - rewrite length_zalter. apply Hi.
  - rewrite length_map. apply Hi.
  - intros j Hj. rewrite sem_set_undo, Hset by done.
    destruct (decide _); [|by apply Hi]. destruct (inv_slot _ Hi i Hr). by constructor.
  - intros a b Ha Hb. rewrite !sem_set_undo, !Hset by done.
    destruct (decide (a = i)), (decide (b = i)); try done. by apply (inv_keys _ Hi).
  - intros u Hin Hu. assert (Hne : u_semid u <> i).
    { apply list_elem_of_fmap in Hin as (w & -> & _). revert Hu. unfold drop_undo.
      destruct (u_used w && _) eqn:E; [done|]. intros Hw. rewrite Hw in E. simpl in E. by bools. }
    destruct (inv_entries _ Hi u (retired_in _ _ _ Hret Hin Hu) Hu) as (Hs & H1 & H2).
    rewrite sem_set_undo, Hset by done. by rewrite decide_False.
  - eapply retired_uniq; [done|apply Hi].
Qed.

(** ** An operation array against a snapshot *)

(** The net change of an array on semaphore [n]. *)
Definition effect (n : Z) (o : sembuf) : Z := if sem_num o =? n then sem_op o else 0.
Fixpoint delta (ops : list sembuf) (n : Z) : Z :=
  match ops with [] => 0 | o :: ops' => effect n o + delta ops' n end.

(** What one operation needs of the semaphore's value at its turn. *)
Definition can_proceed (nsems v : Z) (o : sembuf) : Prop :=
  sem_num o < nsems
  /\ (sem_op o = 0 -> v = 0) /\ (0 < sem_op o -> v + sem_op o <= SEMVMX) /\ (sem_op o < 0 -> 0 <= v + sem_op o).

(** Each operation, run after those before it, can proceed. *)
Definition feasible (nsems : Z) (vals : list Z) (ops : list sembuf) : Prop :=
  forall ops1 o ops2, ops = ops1 ++ o :: ops2 ->
    can_proceed nsems (zget vals (sem_num o) + delta ops1 (sem_num o)) o.

(** What an operation that cannot proceed answers; [1] is "block". *)
Definition refusal (nsems : Z) (o : sembuf) : Z :=
  if nsems <=? sem_num o then - EFBIG
  else if 0 <? sem_op o then - ERANGE
  else if sem_flg o &? SYSV_IPC_NOWAIT then - EAGAIN else 1.

Definition op_ok (o : sembuf) : Prop := 0 <= sem_num o < U16_MOD /\ -32768 <= sem_op o <= 32767.

Lemma delta_app a b n : delta (a ++ b) n = delta a n + delta b n.
Proof. induction a as [|o a IH]; simpl; lia. Qed.

Lemma op_ok_mid a o b : Forall op_ok (a ++ o :: b) -> op_ok o.
Proof. by intros [_ [? _]%Forall_cons_iff]%Forall_app. Qed.

Lemma feasible_cons nsems vals o ops :
  Z.of_nat (length vals) = nsems -> 0 <= sem_num o -> Forall op_ok ops ->
  feasible nsems vals (o :: ops) <->
  can_proceed nsems (zget vals (sem_num o)) o
  /\ feasible nsems (zalter (fun v => v + sem_op o) (sem_num o) vals) ops.
Proof.
  intros Hl Ho Hops.
  assert (Hz : can_proceed nsems (zget vals (sem_num o)) o -> forall n d, 0 <= n ->
    n < nsems -> zget (zalter (fun v => v + sem_op o) (sem_num o) vals) n + d = zget vals n + (effect n o + d)).
  { intros Hc n d Hn Hlt. unfold effect. destruct (Z.eqb_spec (sem_num o) n) as [<-|Hne].
    - rewrite zget_zalter_eq by lia. lia.
    - rewrite zget_zalter_ne by lia. lia. }
  split.
  - intros H. assert (Hc : can_proceed nsems (zget vals (sem_num o)) o).
    { replace (zget vals (sem_num o)) with (zget vals (sem_num o) + delta [] (sem_num o)) by (simpl; lia).
      by apply (H [] o ops). }
    split; [done|]. intros ops1 o1 ops2 ->.
    assert (Ho1 : op_ok o1) by by eapply op_ok_mid.
    specialize (H (o :: ops1) o1 ops2 eq_refl). simpl in H.
    rewrite Hz; [done|done|apply Ho1|apply H].
  - intros [Hc H] [|o0 ops1] o1 ops2 E; simplify_eq/=.
    + by rewrite Z.add_0_r.
    + assert (Ho1 : op_ok o1) by by eapply op_ok_mid.
      specialize (H ops1 o1 ops2 eq_refl). rewrite Hz in H; [done|done|apply Ho1|apply H].
Qed.

Lemma feasible_nil nsems vals : feasible nsems vals [].
Proof. by intros [|] ? ?. Qed.

(** The possible outcomes of one operation. *)
Lemma try_ops_cons nsems next o ops :
  can_proceed nsems (zget next (sem_num o)) o
    /\ try_ops nsems next (o :: ops) = try_ops nsems (zalter (fun v => v + sem_op o) (sem_num o) next) ops
  \/ ~ can_proceed nsems (zget next (sem_num o)) o
    /\ try_ops nsems next (o :: ops) = inl (refusal nsems o).
Proof.
  unfold can_proceed, refusal. simpl.
  destruct (Z.leb_spec nsems (sem_num o)); [right; split; [lia|done]|].
  destruct (Z.eqb_spec (sem_op o) 0) as [E0|E0].
  - assert (Hid : zalter (fun v => v + sem_op o) (sem_num o) next = next).
    { unfold zalter. rewrite E0. apply list_eq. intros i. destruct (decide (i = Z.to_nat (sem_num o))) as [->|];
        [rewrite list_lookup_alter_eq; destruct (next !! _); simpl; [f_equal; lia|done]|by rewrite list_lookup_alter_ne]. }
    rewrite (proj2 (Z.ltb_ge 0 (sem_op o))) by lia.
    destruct (Z.eqb_spec (zget next (sem_num o)) 0); simpl; [left; rewrite Hid; split; [lia|done]|right; split; [lia|done]].
  - destruct (Z.ltb_spec 0 (sem_op o)).
    + destruct (Z.ltb_spec SEMVMX (zget next (sem_num o) + sem_op o)); [right|left]; split; (lia || done).
    + destruct (Z.ltb_spec (zget next (sem_num o) + sem_op o) 0); [right|left]; split; (lia || done).
Qed.

Lemma proceed_val_ok nsems next o :
  can_proceed nsems (zget next (sem_num o)) o -> Z.of_nat (length next) = nsems -> 0 <= sem_num o ->
  Forall val_ok next -> Forall val_ok (zalter (fun v => v + sem_op o) (sem_num o) next).
Proof.
  intros (Hn & H0 & Hp & Hm) Hl Ho Hv. rewrite zalter_insert by lia. apply Forall_insert; [done|].
  assert (val_ok (zget next (sem_num o))).
  { eapply Forall_lookup_1; [done|]. apply zget_lookup. lia. }
  unfold val_ok in *. lia.
Qed.

Lemma try_ops_inr nsems ops : forall next next',
  Z.of_nat (length next) = nsems -> Forall val_ok next -> Forall op_ok ops ->
  try_ops nsems next ops = inr next' ->
  feasible nsems next ops /\ length next' = length next /\ Forall val_ok next'
  /\ forall n, 0 <= n < nsems -> zget next' n = zget next n + delta ops n.
Proof.
  induction ops as [|o ops IH]; intros next next' Hl Hv Hops H.
  - simpl in H. injection H as <-. split_and!; try done; [apply feasible_nil|intros; simpl; lia].
  - apply Forall_cons_iff in Hops as [Ho Hops].
    destruct (try_ops_cons nsems next o ops) as [[Hc E]|[_ E]]; rewrite E in H; [|done].
    destruct (IH _ _ ltac:(by rewrite length_zalter)
                (proceed_val_ok _ _ _ Hc Hl ltac:(apply Ho) Hv) Hops H) as (Hf & Hl' & Hv' & Hz).
    split_and!; [apply feasible_cons; try done; apply Ho|by rewrite Hl', length_zalter|done|].
    intros n Hn. rewrite Hz by done. simpl. unfold effect. unfold op_ok in Ho.
    destruct (Z.eqb_spec (sem_num o) n) as [<-|]; [rewrite zget_zalter_eq by lia|rewrite zget_zalter_ne by lia]; lia.
Qed.

Lemma try_ops_inl nsems ops : forall next rc,
  Z.of_nat (length next) = nsems -> Forall op_ok ops -> try_ops nsems next ops = inl rc ->
  ~ feasible nsems next ops
  /\ exists ops1 o ops2, ops = ops1 ++ o :: ops2 /\ feasible nsems next ops1
     /\ ~ can_proceed nsems (zget next (sem_num o) + delta ops1 (sem_num o)) o /\ rc = refusal nsems o.
Proof.
  induction ops as [|o ops IH]; intros next rc Hl Hops H; [done|].
  apply Forall_cons_iff in Hops as [Ho Hops].
  destruct (try_ops_cons nsems next o ops) as [[Hc E]|[Hc E]]; rewrite E in H.
  - destruct (IH _ _ ltac:(by rewrite length_zalter) Hops H) as (Hf & ops1 & o1 & ops2 & -> & Hf1 & Hn & Hrc).
    split; [rewrite feasible_cons by (done || apply Ho); tauto|].
    exists (o :: ops1), o1, ops2. split_and!; [done| | |done].
    + apply feasible_cons; [done|apply Ho| |done]. by apply Forall_app in Hops as [? _].
    + intros Hp. apply Hn. assert (Ho1 : op_ok o1) by by eapply op_ok_mid. unfold op_ok in Ho, Ho1. simpl in Hp.
      assert (sem_num o1 < nsems) by apply Hp. unfold effect in Hp.
      destruct (Z.eqb_spec (sem_num o) (sem_num o1)) as [Eo|];
        [rewrite <- Eo, zget_zalter_eq by lia; rewrite <- Eo in Hp|rewrite zget_zalter_ne by lia].
      * by rewrite <- Z.add_assoc.
      * by rewrite Z.add_0_l in Hp.
  - injection H as <-. split; [rewrite feasible_cons by (done || apply Ho); tauto|].
    exists [], o, ops. simpl. rewrite Z.add_0_r. split_and!; try done. apply feasible_nil.
Qed.

(** ** Committing *)

Definition record_all (pid semid : Z) (ops : list sembuf) (l : list sem_undo) : list sem_undo :=
  fold_left (fun l o => if sem_flg o &? SEM_UNDO then undo_record l pid semid (sem_num o) (sem_op o) else l) ops l.

(** The slot after a commit: the operating process noted, nothing else. *)
Definition note_pids (pid : Z) (ops : list sembuf) (s : sem_slot) : sem_slot :=
  with_pid (fold_left (fun l o => zalter (fun _ => pid) (sem_num o) l) ops (s_pid s)) s.

Lemma zalter_compose {A} (f g : A -> A) i l : zalter f i (zalter g i l) = zalter (fun x => f (g x)) i l.
Proof. unfold zalter. by rewrite list_alter_alter_eq. Qed.
Lemma zalter_ext {A} (f g : A -> A) i l : (forall x, f x = g x) -> zalter f i l = zalter g i l.
Proof. intros H. unfold zalter. apply list_alter_ext; auto. Qed.

Lemma commit_ops_eq pid semid ops : forall st,
  commit_ops pid semid ops st
  = mkSt (zalter (note_pids pid ops) semid (g_sets st)) (record_all pid semid ops (g_undo st)) (g_seq st).
Proof.
  induction ops as [|o ops IH]; intros st; simpl.
  - replace (zalter (note_pids pid []) semid (g_sets st)) with (g_sets st); [by destruct st|].
    symmetry. unfold zalter. rewrite <- (list_alter_id (fun x => x) (g_sets st) (Z.to_nat semid)) at 2 by done.
    apply list_alter_ext; [|done]. by intros [].
  - rewrite IH. destruct (sem_flg o &? SEM_UNDO); simpl; f_equal; rewrite zalter_compose;
      apply zalter_ext; by intros [].
Qed.

Lemma record_all_ok sets pid semid ops : forall l,
  in_sets semid -> s_used (sets semid) = true ->
  (forall o, o ∈ ops -> 0 <= sem_num o < s_nsems (sets semid)) ->
  (forall u, u ∈ l -> entry_ok sets u) -> ledger_uniq l ->
  let l' := record_all pid semid ops l in
  length l' = length l /\ (forall u, u ∈ l' -> entry_ok sets u) /\ ledger_uniq l'.
Proof.
  induction ops as [|o ops IH]; intros l Hs Hu Ho He Hq; simpl; [done|].
  assert (Ho' : forall x, x ∈ ops -> 0 <= sem_num x < s_nsems (sets semid)) by (intros; apply Ho; by right).
  destruct (sem_flg o &? SEM_UNDO); [|by apply IH].
  destruct (IH (undo_record l pid semid (sem_num o) (sem_op o)) Hs Hu Ho') as (Hl & He' & Hq').
  - apply undo_record_entries; try done. apply Ho. by left.
  - by apply undo_record_uniq.
  - split_and!; try done. by rewrite Hl, undo_record_length.
Qed.

(** The slot a successful operation array leaves. *)
Definition committed (e : ipc_env) (pid : Z) (ops : list sembuf) (next : list Z) (s : sem_slot) : sem_slot :=
  with_times (now e) (s_ctime s)
    (note_pids pid ops (with_vals (next ++ drop (Z.to_nat (s_nsems s)) (s_vals s)) s)).

Lemma note_length pid ops : forall l : list Z,
  length (fold_left (fun l o => zalter (fun _ => pid) (sem_num o) l) ops l) = length l.
Proof. induction ops as [|o ops IH]; intros l; simpl; [done|]. by rewrite IH, length_zalter. Qed.

Lemma map_u16_id l : Forall val_ok l -> map u16 l = l.
Proof.
  unfold val_ok, SEMVMX. induction 1; simpl; [done|]. rewrite u16_small by lia. by f_equal.
Qed.

Lemma snapshot_ok s : slot_ok s ->
  Z.of_nat (length (take (Z.to_nat (s_nsems s)) (s_vals s))) = s_nsems s
  /\ Forall val_ok (take (Z.to_nat (s_nsems s)) (s_vals s)).
Proof.
  intros []. unfold SEMMSL in *. split; [rewrite length_take; lia|by apply Forall_take].
Qed.
Lemma snapshot_get s n : slot_ok s -> 0 <= n < s_nsems s ->
  zget (take (Z.to_nat (s_nsems s)) (s_vals s)) n = zget (s_vals s) n.
Proof. intros [] Hn. unfold zget. rewrite !list_lookup_total_alt, lookup_take_lt by lia. done. Qed.

Lemma feasible_snapshot s ops : slot_ok s -> Forall op_ok ops ->
  feasible (s_nsems s) (take (Z.to_nat (s_nsems s)) (s_vals s)) ops <-> feasible (s_nsems s) (s_vals s) ops.
Proof.
  intros Hs Hops. split; intros Hf ops1 o ops2 E; assert (Ho : op_ok o) by (subst ops; by eapply op_ok_mid);
    pose proof (Hf _ _ _ E) as Hc; unfold op_ok in Ho; assert (sem_num o < s_nsems s) by apply Hc;
    rewrite snapshot_get in * by (done || lia); done.
Qed.

Lemma sem_try_ops_success e st semid ops pid st' :
  sem_inv st -> in_sets semid -> Forall op_ok ops ->
  sem_try_ops e st semid ops pid = (0, st') ->
  let s := sem_set st semid in
  feasible (s_nsems s) (s_vals s) ops
  /\ exists next, length next = Z.to_nat (s_nsems s) /\ Forall val_ok next
    /\ (forall n, 0 <= n < s_nsems s -> zget next n = zget (s_vals s) n + delta ops n)
    /\ st' = mkSt (zalter (committed e pid ops next) semid (g_sets st))
               (record_all pid semid ops (g_undo st)) (g_seq st).
Proof.
  intros Hi Hs Hops H s. assert (Hok := inv_slot _ Hi semid Hs). fold s in Hok.
  destruct (snapshot_ok s Hok) as [Hsl Hsv]. unfold sem_try_ops in H. fold s in H.
  destruct (try_ops _ _ _) as [rc|next] eqn:E.
  - injection H as -> <-. exfalso. apply try_ops_inl in E as (_ & ops1 & o & ops2 & _ & _ & _ & Hrc); [|done..].
    unfold refusal, EFBIG, ERANGE, EAGAIN in Hrc. repeat case_match; lia.
  - apply try_ops_inr in E as (Hf & Hl & Hv & Hz); [|done..]. injection H as <-. split.
    + by apply feasible_snapshot.
    + exists next. split_and!; [lia|done| |].
      { intros n Hn. by rewrite Hz, snapshot_get. }
      rewrite commit_ops_eq. unfold upd_set; simpl. f_equal. rewrite !zalter_compose, map_u16_id by done.
      rewrite !zalter_insert by (unfold in_sets, SEMMNI in Hs; rewrite (inv_len _ Hi); lia).
      f_equal.
Qed.

Lemma committed_ok e pid ops next s :
  slot_ok s -> length next = Z.to_nat (s_nsems s) -> Forall val_ok next ->
  same_shape s (committed e pid ops next s) /\ slot_ok (committed e pid ops next s).
Proof.
  intros [] Hl Hv. unfold SEMMSL in *. split; [done|]. constructor; simpl; try done.
  - rewrite length_app, length_drop. lia.
  - by rewrite note_length.
  - apply Forall_app. split; [done|by apply Forall_drop].
Qed.

Lemma try_ops_preserves e st semid ops pid rc st' :
  sem_inv st -> in_sets semid -> s_used (sem_set st semid) = true -> Forall op_ok ops ->
  sem_try_ops e st semid ops pid = (rc, st') -> sem_inv st' /\ (rc <> 0 -> st' = st).
Proof.
  intros Hi Hs Hu Hops H. destruct (decide (rc = 0)) as [->|Hrc].
  - split; [|done]. destruct (sem_try_ops_success _ _ _ _ _ _ Hi Hs Hops H) as (Hf & next & Hl & Hv & _ & ->).
    destruct (committed_ok e pid ops next _ (inv_slot _ Hi semid Hs) Hl Hv) as [Hsh Hok].
    assert (Hi1 := inv_upd_quiet st (committed e pid ops next) semid Hi Hs Hsh Hok).
    destruct (record_all_ok (sem_set (upd_set (committed e pid ops next) semid st)) pid semid ops (g_undo st))
      as (Hl' & He' & Hq'); try apply Hi1; try done.
    + rewrite sem_set_upd by (done || apply Hi). by rewrite decide_True.
    + intros o Ho. rewrite sem_set_upd by (done || apply Hi). rewrite decide_True by done. simpl.
      apply list_elem_of_split in Ho as (ops1 & ops2 & ->).
      assert (Hok1 : op_ok o) by by eapply op_ok_mid. destruct Hok1. split; [lia|].
      by apply (Hf ops1 o ops2).
    + apply (inv_ledger (upd_set (committed e pid ops next) semid st)); try done. rewrite Hl'. apply Hi.
  - unfold sem_try_ops in H. destruct (try_ops _ _ _); simplify_eq. done.
Qed.

(** ** The other operations *)

(** Sets of other namespaces are untouched. *)
Definition confined (ns : Z) (st st' : sem_state) : Prop :=
  forall j, in_sets j -> s_used (sem_set st j) = true -> s_ns (sem_set st j) <> ns ->
    sem_set st' j = sem_set st j.

Lemma confined_upd e st f i l :
  sem_inv st -> sem_id_valid e st i = true -> confined (cur_ns e) st (mkSt (zalter f i (g_sets st)) l (g_seq st)).
Proof.
  intros Hi Hv j Hj Hu Hn. apply valid_in_sets in Hv as (Hs & _ & Hns).
  change (sem_set (upd_set f i st) j = sem_set st j).
  rewrite sem_set_upd by (done || apply Hi). rewrite decide_False; [done|]. by intros ->.
Qed.
Lemma confined_refl ns st : confined ns st st.
Proof. by intros j. Qed.

Lemma counts_ok s nc zc :
  slot_ok s -> length nc = 32%nat -> length zc = 32%nat ->
  same_shape s (with_counts nc zc s) /\ slot_ok (with_counts nc zc s).
Proof. intros [] ? ?. split; [done|]. by constructor. Qed.

Section Folds.
Variable f : sem_slot -> sembuf -> sem_slot.
Hypothesis f_quiet : forall s o, slot_ok s -> same_shape s (f s o) /\ slot_ok (f s o).
Lemma fold_quiet ops : forall s, slot_ok s -> same_shape s (fold_left f ops s) /\ slot_ok (fold_left f ops s).
Proof.
  induction ops as [|o ops IH]; intros s Hs; simpl; [done|].
  destruct (f_quiet s o Hs) as [(A1 & A2 & A3 & A4) Hf]. destruct (IH _ Hf) as [(B1 & B2 & B3 & B4) Hok].
  split; [|done]. unfold same_shape. by rewrite B1, B2, B3, B4.
Qed.
End Folds.

Lemma count_wait_quiet s o : slot_ok s ->
  same_shape s (count_wait (s_nsems s) o s) /\ slot_ok (count_wait (s_nsems s) o s).
Proof.
  intros Hs. unfold count_wait. repeat break_goal; try done;
    (apply counts_ok; [done|rewrite ?length_zalter; apply Hs..]).
Qed.
Lemma uncount_wait_quiet s o : slot_ok s ->
  same_shape s (uncount_wait o s) /\ slot_ok (uncount_wait o s).
Proof.
  intros Hs. unfold uncount_wait. repeat break_goal; try done;
    (apply counts_ok; [done|rewrite ?length_zalter; apply Hs..]).
Qed.

Lemma semop_attempt_preserves e st semid ops r st' w :
  sem_inv st -> Forall op_ok ops -> semop_attempt e st semid ops = (r, st', w) ->
  sem_inv st' /\ confined (cur_ns e) st st'.
Proof.
  intros Hi Hops H. unfold semop_attempt in H.
  destruct (sem_id_valid e st semid) eqn:Hv; simpl in H; [|by simplify_eq].
  destruct (valid_in_sets _ _ _ Hv) as (Hs & Hu & _).
  destruct (sem_access _ _ _ _ =? 0); simpl in H; [|by simplify_eq].
  destruct (sem_try_ops e st semid ops (cur_pid e)) as [rc st1] eqn:E.
  destruct (try_ops_preserves _ _ _ _ _ _ _ Hi Hs Hu Hops E) as [Hi1 Hst].
  destruct (Z.eqb_spec rc 0) as [->|Hrc].
  - simplify_eq. split; [done|].
    destruct (sem_try_ops_success _ _ _ _ _ _ Hi Hs Hops E) as (_ & next & _ & _ & _ & ->). exact (confined_upd e st _ _ _ Hi Hv).
  - rewrite (Hst Hrc) in *. destruct (rc <? 0); simplify_eq; [done|]. split; [|exact (confined_upd e st _ _ _ Hi Hv)].
    destruct (fold_quiet _ count_wait_quiet ops _ (inv_slot _ Hi semid Hs)). by apply inv_upd_quiet.
Qed.

Lemma semop_resume_preserves e st semid ops rc r st' :
  sem_inv st -> semop_resume e st semid ops rc = (r, st') -> sem_inv st' /\ confined (cur_ns e) st st'.
Proof.
  intros Hi H. unfold semop_resume in H. destruct (sem_id_valid e st semid) eqn:Hv; simplify_eq; [|done].
  destruct (valid_in_sets _ _ _ Hv) as (Hs & Hu & _). split; [|exact (confined_upd e st _ _ _ Hi Hv)].
  destruct (fold_quiet _ (fun s o => uncount_wait_quiet s o) ops _ (inv_slot _ Hi semid Hs)). by apply inv_upd_quiet.
Qed.

Lemma semctl_set_preserves e st semid uid gid mode rc st' :
  sem_inv st -> sysv_semctl_set e st semid uid gid mode = (rc, st') ->
  sem_inv st' /\ confined (cur_ns e) st st'.
Proof.
  intros Hi H. unfold sysv_semctl_set in H. destruct (sem_id_valid e st semid) eqn:Hv; simpl in H; [|by simplify_eq].
  destruct (sem_may_control _ _); simpl in H; simplify_eq; [|done].
  destruct (valid_in_sets _ _ _ Hv) as (Hs & Hu & _). split; [|exact (confined_upd e st _ _ _ Hi Hv)].
  apply inv_upd_quiet; [done|done|done|]. destruct (inv_slot _ Hi semid Hs). by constructor.
Qed.

Lemma semctl_rmid_preserves e st semid rc st' w :
  sem_inv st -> sysv_semctl_rmid e st semid = (rc, st', w) -> sem_inv st' /\ confined (cur_ns e) st st'.
Proof.
  intros Hi H. unfold sysv_semctl_rmid in H. destruct (sem_id_valid e st semid) eqn:Hv; simpl in H; [|by simplify_eq].
  destruct (sem_may_control _ _); simpl in H; simplify_eq; [|done].
  destruct (valid_in_sets _ _ _ Hv) as (Hs & Hu & _). split; [by apply inv_free|exact (confined_upd e st _ _ _ Hi Hv)].
Qed.

Lemma vals_update_ok s vals ot ct :
  slot_ok s -> length vals = 32%nat -> Forall val_ok vals ->
  same_shape s (with_times ot ct (with_vals vals s)) /\ slot_ok (with_times ot ct (with_vals vals s)).
Proof. intros [] ? ?. split; [done|]. by constructor. Qed.

Lemma semctl_setval_preserves e st semid semnum val rc st' w :
  sem_inv st -> sysv_semctl_setval e st semid semnum val = (rc, st', w) ->
  sem_inv st' /\ confined (cur_ns e) st st'.
Proof.
  intros Hi H. unfold sysv_semctl_setval in H. destruct (_ || _) eqn:Ev in H; [by simplify_eq|].
  destruct (sem_id_valid e st semid) eqn:Hv; simpl in H; [|by simplify_eq].
  destruct (_ || _) eqn:En in H; [by simplify_eq|].
  destruct (sem_access _ _ _ _ =? 0); simpl in H; simplify_eq; [|done].
  destruct (valid_in_sets _ _ _ Hv) as (Hs & Hu & _). split; [|exact (confined_upd e st _ _ _ Hi Hv)]. bools.
  apply (inv_retire (upd_set _ semid st)); [|apply retired_drop].
  assert (Hok := inv_slot _ Hi semid Hs). assert (Hnb := ok_nsems _ Hok). unfold SEMMSL, SEMVMX in *.
  edestruct (vals_update_ok (sem_set st semid)) as [Hsh Hok']; [done|..|by apply inv_upd_quiet].
  - rewrite length_zalter. apply Hok.
  - rewrite zalter_insert by (rewrite (ok_len_vals _ Hok); lia). apply Forall_insert; [apply Hok|].
    rewrite u16_small by lia. unfold val_ok, SEMVMX. lia.
Qed.

Lemma semctl_setall_preserves e st semid vals rc st' w :
  sem_inv st -> Forall (fun v => 0 <= v) vals -> sysv_semctl_setall e st semid vals = (rc, st', w) ->
  sem_inv st' /\ confined (cur_ns e) st st'.
Proof.
  intros Hi Hvals H. unfold sysv_semctl_setall in H.
  destruct (sem_id_valid e st semid) eqn:Hv; simpl in H; [|by simplify_eq].
  destruct (_ <? _) eqn:Ec in H; [by simplify_eq|].
  destruct (sem_access _ _ _ _ =? 0); simpl in H; [|by simplify_eq].
  destruct (existsb _ _) eqn:Ex in H; simplify_eq; [done|].
  destruct (valid_in_sets _ _ _ Hv) as (Hs & Hu & _). split; [|exact (confined_upd e st _ _ _ Hi Hv)]. bools.
  apply (inv_retire (upd_set _ semid st)); [|apply retired_drop].
  assert (Hok := inv_slot _ Hi semid Hs). assert (Hl := ok_len_vals _ Hok).
  assert (Hn := ok_nsems _ Hok). assert (Hvv := ok_vals _ Hok). unfold SEMMSL in Hn.
  edestruct (vals_update_ok (sem_set st semid)) as [Hsh Hok']; [done|..|by apply inv_upd_quiet].
  - rewrite length_app, length_take, length_drop, Hl. lia.
  - apply Forall_app. split; [|by apply Forall_drop]. apply Forall_forall. intros v Hin. split.
    + apply (Forall_take _ (Z.to_nat (s_nsems (sem_set st semid)))) in Hvals.
      rewrite Forall_forall in Hvals. by apply Hvals.
    + destruct (Z.ltb_spec SEMVMX v); [|done]. enough (existsb (fun v => SEMVMX <? v)
        (take (Z.to_nat (s_nsems (sem_set st semid))) vals) = true) by congruence.
      apply existsb_exists. exists v. split; [done|]. by apply Z.ltb_lt.
Qed.

Lemma confined_trans ns st st1 st2 : confined ns st st1 -> confined ns st1 st2 -> confined ns st st2.
Proof.
  intros H1 H2 j Hj Hu Hn. rewrite <- (H1 j Hj Hu Hn). apply H2; [done|..]; by rewrite (H1 j Hj Hu Hn).
Qed.

Lemma cleanup_entry_ok s n a :
  slot_ok s -> 0 <= n < s_nsems s ->
  let s' := with_vals (zalter (fun v => u16 (clamp_val (i32 (v + a)))) n (s_vals s)) s in
  same_shape s s' /\ slot_ok s'.
Proof.
  intros Hs Hn s'. assert (Hb := ok_nsems _ Hs). unfold SEMMSL in Hb.
  split; [done|]. destruct Hs. constructor; simpl; try done; [by rewrite length_zalter|].
  rewrite zalter_insert by (rewrite ok_len_vals0; lia). apply Forall_insert; [done|].
  unfold clamp_val, val_ok, SEMVMX. repeat case_match; bools; rewrite u16_small; lia.
Qed.

Lemma cleanup_loop_ok e pid l : forall st woke r st' w,
  sem_inv st -> (forall u, u ∈ l -> entry_ok (sem_set st) u) ->
  cleanup_loop e pid l st woke = (r, st', w) ->
  sem_inv st' /\ g_undo st' = g_undo st /\ g_seq st' = g_seq st /\ retired l r
  /\ confined (cur_ns e) st st'
  /\ forall u, u ∈ r -> u_used u = true -> u_pid u <> pid.
Proof.
  induction l as [|u l IH]; intros st woke r st' w Hi He H.
  { simpl in H. simplify_eq. split_and!; try done; [constructor|by intros ? ?%not_elem_of_nil]. }
  simpl in H. assert (Hel : forall v, v ∈ l -> entry_ok (sem_set st) v) by (intros; apply He; by right).
  destruct (negb (u_used u) || _) eqn:Eskip.
  - destruct (cleanup_loop e pid l st woke) as [[r1 st1] w1] eqn:E. simplify_eq.
    destruct (IH _ _ _ _ _ Hi Hel E) as (H1 & H2 & H3 & H4 & H5 & H6).
    split_and!; try done; [constructor; auto|]. intros v [->|Hv]%elem_of_cons Huv; [|by apply H6].
    rewrite Huv in Eskip. simpl in Eskip. by bools.
  - bools. set (hit := sem_id_valid e st (u_semid u) && _) in H.
    set (f := fun s => with_vals (zalter (fun v => u16 (clamp_val (i32 (v + u_adjust u)))) (u_semnum u) (s_vals s)) s) in H.
    assert (Hst1 : sem_inv (if hit then upd_set f (u_semid u) st else st)
              /\ confined (cur_ns e) st (if hit then upd_set f (u_semid u) st else st)
              /\ forall v, v ∈ l -> entry_ok (sem_set (if hit then upd_set f (u_semid u) st else st)) v).
    { destruct hit eqn:Eh; [|by split_and!]. unfold hit in Eh. bools.
      destruct (He u (list_elem_of_here _ _)) as (Hs & Hu & Hn); [done|].
      destruct (cleanup_entry_ok _ _ (u_adjust u) (inv_slot _ Hi _ Hs) Hn) as [Hsh Hok].
      split_and!; [by apply inv_upd_quiet|exact (confined_upd e st _ _ _ Hi H2)|].
      intros v Hv Huv. destruct (Hel v Hv Huv) as (Hvs & Hvu & Hvn).
      rewrite sem_set_upd by (done || apply Hi). destruct (decide _) as [Ev|]; [|done].
      rewrite Ev in *. destruct Hsh as (E1 & _ & _ & E4). unfold f. by rewrite E1, E4. }
    destruct Hst1 as (Hi1 & Hc1 & He1).
    destruct (cleanup_loop e pid l _ _) as [[r1 st2] w1] eqn:E. simplify_eq.
    destruct (IH _ _ _ _ _ Hi1 He1 E) as (H1 & H2 & H3 & H4 & H5 & H6).
    split_and!; try done; [by destruct hit|by destruct hit|constructor; auto|by eapply confined_trans|].
    intros v [->|Hv]%elem_of_cons Huv; [done|by apply H6].
Qed.

Lemma task_cleanup_preserves e st pid st' w :
  sem_inv st -> sysv_sem_task_cleanup e st pid = (st', w) ->
  sem_inv st' /\ confined (cur_ns e) st st' /\ (forall u, u ∈ g_undo st' -> u_used u = true -> u_pid u <> pid).
Proof.
  intros Hi H. unfold sysv_sem_task_cleanup in H.
  destruct (cleanup_loop e pid (g_undo st) st (-1)) as [[l st1] woke] eqn:E. simplify_eq.
  destruct (cleanup_loop_ok _ _ _ _ _ _ _ _ Hi (inv_entries _ Hi) E) as (H1 & H2 & H3 & H4 & H5 & H6).
  split_and!; [apply inv_retire; [done|by rewrite H2]|done|done].
Qed.

Lemma ns_destroy_one_preserves ns i st st' w :
  sem_inv st -> in_sets i -> ns_destroy_one ns i st = (st', w) -> sem_inv st' /\ confined ns st st'.
Proof.
  intros Hi Hr H. unfold ns_destroy_one in H. destruct (_ && _) eqn:E in H; simplify_eq; [|done].
  bools. split; [by apply inv_free|]. intros j Hj Hu Hn. rewrite sem_set_undo, sem_set_upd by (done || apply Hi).
  rewrite decide_False; [done|]. by intros ->.
Qed.

(** A new set in a free slot. *)
Lemma sem_create_ok e st key nsems flg rc st' :
  sem_inv st -> 0 <= nsems <= SEMMSL ->
  (key <> 0 -> first_index (key_matches (ipc_current_ns e) key) (g_sets st) = None) ->
  sem_create e st key nsems flg = (rc, st') ->
  (rc = - EINVAL /\ nsems = 0 \/ rc = - ENOSPC /\ forall i, in_sets i -> s_used (sem_set st i) = true) /\ st' = st
  \/ in_sets rc /\ s_used (sem_set st rc) = false /\ sem_inv st' /\ g_undo st' = g_undo st
     /\ sem_set st' rc = new_set e key nsems flg (g_seq st)
     /\ forall j, in_sets j -> j <> rc -> sem_set st' j = sem_set st j.
Proof.
  intros Hi Hn Hk H. unfold sem_create in H. destruct (Z.eqb_spec nsems 0); [simplify_eq; left; auto|].
  destruct (first_index _ _) as [i|] eqn:E in H; simplify_eq.
  - right. apply first_index_Some in E as (x & Hx & Hp & _). assert (Hlt := lookup_lt_Some _ _ _ Hx).
    rewrite (inv_len _ Hi) in Hlt. bools.
    assert (Hx' : sem_set st (Z.of_nat i) = x).
    { unfold sem_set, zget. rewrite Nat2Z.id. by apply list_lookup_total_correct. }
    assert (Hr : in_sets (Z.of_nat i)) by (unfold in_sets, SEMMNI; lia).
    set (st' := mkSt _ _ _). assert (Hst : forall j, in_sets j -> sem_set st' j
       = if decide (j = Z.of_nat i) then new_set e key nsems flg (g_seq st) else sem_set st j).
    { unfold in_sets, SEMMNI. intros j Hj. unfold sem_set, zget, st'; simpl. destruct (decide _) as [->|Hne].
      - rewrite Nat2Z.id. apply list_lookup_total_insert_eq. rewrite (inv_len _ Hi). lia.
      - rewrite list_lookup_total_insert_ne; [done|]. lia. }
    assert (Hfree : s_used (sem_set st (Z.of_nat i)) = false) by by rewrite Hx'.
    split_and!; try done; [|by rewrite Hst, decide_True|intros j Hj Hne; by rewrite Hst, decide_False].
    constructor; simpl.
    + rewrite length_insert. apply Hi.
    + apply Hi.
    + intros j Hj. rewrite Hst by done. destruct (decide _); [|by apply Hi].
      unfold SEMMSL in *. constructor; simpl; try done; [|lia].
      apply Forall_replicate. unfold val_ok, SEMVMX. lia.
    + assert (Hno : forall j, in_sets j -> s_used (sem_set st j) = true -> s_key (sem_set st j) = key ->
                s_ns (sem_set st j) = ipc_current_ns e -> key <> 0 -> False).
      { unfold in_sets, SEMMNI. intros j Hj Hu Hkj Hnj H0. specialize (Hk H0). rewrite first_index_None in Hk.
        specialize (Hk (Z.to_nat j) (sem_set st j)). unfold key_matches in Hk.
        rewrite Hu, Hkj, Hnj, !Z.eqb_refl in Hk. assert (true && true && true = false) as [=]; apply Hk.
        apply zget_lookup. rewrite (inv_len _ Hi). lia. }
      intros a b Ha Hb. rewrite !Hst by done.
      destruct (decide (a = Z.of_nat i)) as [->|], (decide (b = Z.of_nat i)) as [->|]; simpl; intros; try done.
      * exfalso. by eapply (Hno b).
      * exfalso. eapply (Hno a); try done. congruence.
      * by apply (inv_keys _ Hi).
    + intros u Hin Hu. destruct (inv_entries _ Hi u Hin Hu) as (Hs & H1 & H2).
      rewrite Hst by done. rewrite decide_False; [done|]. intros Eu. rewrite Eu in H1. congruence.
    + apply Hi.
  - left. split; [right|done]. split; [done|]. rewrite first_index_None in E.
    unfold in_sets, SEMMNI. intros i Hr. assert (Hl := E (Z.to_nat i) (sem_set st' i)).
    apply negb_false_iff, Hl, zget_lookup. rewrite (inv_len _ Hi). lia.
Qed.

Lemma semget_cases e st key nsems flg rc st' :
  sem_inv st -> sysv_semget e st key nsems flg = (rc, st') ->
  rc < 0 /\ st' = st
  \/ in_sets rc /\ st' = st /\ key_matches (cur_ns e) key (sem_set st rc) = true /\ key <> 0
     /\ nsems <= s_nsems (sem_set st rc) /\ (flg &? IPC_CREAT) && (flg &? IPC_EXCL) = false
     /\ sem_access e st rc (u16 (Z.land flg 511)) = 0
  \/ in_sets rc /\ s_used (sem_set st rc) = false /\ sem_inv st' /\ g_undo st' = g_undo st /\ 1 <= nsems
     /\ sem_set st' rc = new_set e key nsems flg (g_seq st)
     /\ (forall j, in_sets j -> j <> rc -> sem_set st' j = sem_set st j)
     /\ (key <> 0 -> flg &? IPC_CREAT = true
                     /\ forall j, in_sets j -> key_matches (cur_ns e) key (sem_set st j) = false).
Proof.
  intros Hi H. unfold sysv_semget in H. destruct (_ || _) eqn:En in H.
  { simplify_eq. left. by vm_compute. }
  bools. assert (Hnr : 0 <= nsems <= SEMMSL) by lia.
  assert (Hcreate : (key <> 0 -> flg &? IPC_CREAT = true
                     /\ first_index (key_matches (ipc_current_ns e) key) (g_sets st) = None) ->
            sem_create e st key nsems flg = (rc, st') ->
            rc < 0 /\ st' = st \/ in_sets rc /\ s_used (sem_set st rc) = false /\ sem_inv st'
     /\ g_undo st' = g_undo st /\ 1 <= nsems
     /\ sem_set st' rc = new_set e key nsems flg (g_seq st)
     /\ (forall j, in_sets j -> j <> rc -> sem_set st' j = sem_set st j)
     /\ (key <> 0 -> flg &? IPC_CREAT = true
                     /\ forall j, in_sets j -> key_matches (cur_ns e) key (sem_set st j) = false)).
  { intros Hk Hc. destruct (sem_create_ok e st key nsems flg rc st' Hi Hnr (fun H => proj2 (Hk H)) Hc)
      as [[[[-> _]|[-> _]] ->]|(G1 & G2 & G3 & G4 & G5 & G6)]; [by left; vm_compute..|right].
    split_and!; try done.
    - assert (Hok := inv_slot _ G3 rc G1). rewrite G5 in Hok. by apply (ok_used _ Hok).
    - intros G0. destruct (Hk G0) as [Hf Hnone]. split; [done|]. unfold in_sets, SEMMNI. intros j Hj.
      rewrite first_index_None in Hnone. apply (Hnone (Z.to_nat j)), zget_lookup. rewrite (inv_len _ Hi). lia. }
  destruct (Z.eqb_spec key 0) as [Hk0|Hk0]; simpl in H; [destruct Hcreate as [?|?]; auto; done|].
  destruct (first_index _ _) as [i|] eqn:E in H.
  - destruct (_ && _) eqn:Ex in H; [simplify_eq; left; by vm_compute|].
    destruct (sem_access _ _ _ _ =? 0) eqn:Ea; simpl in H; [|simplify_eq; left; by vm_compute].
    destruct (_ && _) eqn:Em in H; [simplify_eq; left; by vm_compute|]. simplify_eq. right; left.
    apply first_index_Some in E as (x & Hx & Hp & _). assert (Hlt := lookup_lt_Some _ _ _ Hx).
    rewrite (inv_len _ Hi) in Hlt.
    assert (Hx' : sem_set st' (Z.of_nat i) = x).
    { unfold sem_set, zget. rewrite Nat2Z.id. by apply list_lookup_total_correct. }
    rewrite Hx' in *. bools. split_and!; try done; try (unfold in_sets, SEMMNI; lia).
    apply andb_false_iff in Em as [?|?]; bools; [|lia]. assert (Hr : in_sets (Z.of_nat i)) by (unfold in_sets, SEMMNI; lia).
    pose proof (ok_nsems _ (inv_slot _ Hi _ Hr)). rewrite Hx' in *. lia.
  - destruct (flg &? IPC_CREAT) eqn:Ef; [destruct Hcreate as [?|?]; auto; done|]. simplify_eq. left. by vm_compute.
Qed.

(** ** Reachable tables *)

(** One critical section of one task, in context [e]. *)
Inductive sem_step (e : ipc_env) (st st' : sem_state) : Prop :=
| by_get key nsems flg rc : sysv_semget e st key nsems flg = (rc, st') -> sem_step e st st'
| by_attempt semid ops r w : Forall op_ok ops -> semop_attempt e st semid ops = (r, st', w) -> sem_step e st st'
| by_resume semid ops rc r : semop_resume e st semid ops rc = (r, st') -> sem_step e st st'
| by_set semid uid gid mode rc : sysv_semctl_set e st semid uid gid mode = (rc, st') -> sem_step e st st'
| by_rmid semid rc w : sysv_semctl_rmid e st semid = (rc, st', w) -> sem_step e st st'
| by_setval semid n v rc w : sysv_semctl_setval e st semid n v = (rc, st', w) -> sem_step e st st'
| by_setall semid vals rc w :
    Forall (fun v => 0 <= v) vals -> sysv_semctl_setall e st semid vals = (rc, st', w) -> sem_step e st st'
| by_exit pid w : sysv_sem_task_cleanup e st pid = (st', w) -> sem_step e st st'.

(** Any task, or the namespace reaper at one slot. *)
Inductive sem_any (st st' : sem_state) : Prop :=
| any_task e : sem_step e st st' -> sem_any st st'
| any_reaper ns i w : in_sets i -> ns_destroy_one ns i st = (st', w) -> sem_any st st'.

Lemma sem_step_preserves e st st' :
  sem_step e st st' -> sem_inv st -> sem_inv st' /\ confined (cur_ns e) st st'.
Proof.
  destruct 1 as [key nsems flg rc H|semid ops r w Ho H|semid ops rc r H|semid uid gid mode rc H|semid rc w H
                |semid n v rc w H|semid vals rc w Hv H|pid w H]; intros Hi.
  - destruct (semget_cases _ _ _ _ _ _ _ Hi H) as [[_ ->]|[(_ & -> & _)|(Hr & Hf & Hi' & _ & _ & _ & Hs & _)]]; try done.
    split; [done|]. intros j Hj Hu _. apply Hs; [done|]. intros ->. congruence.
  - by eapply semop_attempt_preserves.
  - by eapply semop_resume_preserves.
  - by eapply semctl_set_preserves.
  - by eapply semctl_rmid_preserves.
  - by eapply semctl_setval_preserves.
  - by eapply semctl_setall_preserves.
  - destruct (task_cleanup_preserves _ _ _ _ _ Hi H) as (? & ? & _). done.
Qed.

Lemma sem_inv_boot : sem_inv sem_boot.
Proof.
  assert (Hs : forall i, sem_set sem_boot i = sem_zero).
  { intros i. unfold sem_set, zget, sem_boot. cbn [g_sets]. rewrite list_lookup_total_alt.
    destruct (_ !! _) as [x|] eqn:E; [|done]. by apply lookup_replicate in E as [-> _]. }
  constructor; try done.
  - intros i _. rewrite Hs. constructor; try done. apply Forall_replicate. unfold val_ok, SEMVMX. lia.
  - intros i j _ _. by rewrite Hs.
  - intros u (i & Hu)%list_elem_of_lookup. by apply lookup_replicate in Hu as [-> _].
  - intros i j u v Hi _ Hu. by apply lookup_replicate in Hi as [-> _].
Qed.

Lemma sem_reachable_inv st : rtc sem_any sem_boot st -> sem_inv st.
Proof.
  intros H. refine (rtc_invariant _ sem_inv _ _ _ H sem_inv_boot). intros x y [e Hs|ns i w Hr Hd] Hx.
  - by eapply sem_step_preserves.
  - by eapply ns_destroy_one_preserves.
Qed.

(** ** What the ledger owes *)

Fixpoint lsum (g : sem_undo -> Z) (l : list sem_undo) : Z :=
  match l with [] => 0 | u :: l' => g u + lsum g l' end.
Definition owed_by (pid semid n : Z) (u : sem_undo) : Z := if undo_for pid semid n u then u_adjust u else 0.
Definition owed (l : list sem_undo) (pid semid n : Z) : Z := lsum (owed_by pid semid n) l.
Definition free_entries (l : list sem_undo) : nat := count_if (fun u => negb (u_used u)) l.

Lemma lsum_insert g l i x y : l !! i = Some x -> lsum g (<[i := y]> l) = lsum g l - g x + g y.
Proof.
  revert i. induction l as [|a l IH]; intros [|i] H; simplify_eq/=; [lia|]. rewrite (IH i H). lia.
Qed.
Lemma lsum_zero g l : (forall u, u ∈ l -> g u = 0) -> lsum g l = 0.
Proof.
  induction l as [|a l IH]; intros H; simpl; [done|]. rewrite (H a) by left. rewrite IH; [done|].
  intros u Hu. apply H. by right.
Qed.

Lemma owed_single l pid semid n i x :
  ledger_uniq l -> l !! i = Some x -> undo_for pid semid n x = true -> owed l pid semid n = u_adjust x.
Proof.
  intros Hq Hi Hx. unfold owed.
  assert (Hgx : owed_by pid semid n x = u_adjust x) by (unfold owed_by; by rewrite Hx).
  assert (Hz : lsum (owed_by pid semid n) (<[i := undo_zero]> l) = 0).
  { apply lsum_zero. intros u (j & Hj)%list_elem_of_lookup. unfold owed_by.
    destruct (undo_for pid semid n u) eqn:Eu; [|done]. exfalso.
    apply undo_for_spec in Hx as (X1 & X2 & X3 & X4), Eu as (U1 & U2 & U3 & U4).
    apply list_lookup_insert_Some in Hj as [(_ & <- & _)|[Hne Hj]]; [done|].
    apply Hne. eapply Hq; try done. unfold same_entry. by rewrite U2, U3, U4. }
  rewrite (lsum_insert _ _ _ _ _ Hi), Hgx in Hz. change (owed_by pid semid n undo_zero) with 0 in Hz. lia.
Qed.

Definition in_i32 (z : Z) : Prop := -2147483648 <= z < 2147483648.
Lemma i32_small z : in_i32 z -> i32 z = z.
Proof. unfold in_i32, i32. intros H. rewrite Z.mod_small by lia. lia. Qed.

(** Recording an adjustment owes exactly its opposite, as long as the ledger has
    a free entry and the sum fits an [i32]. *)
Lemma undo_record_owed l pid semid n a m :
  ledger_uniq l -> (1 <= free_entries l)%nat -> in_i32 (owed l pid semid n - a) ->
  owed (undo_record l pid semid n a) pid semid m = owed l pid semid m - (if n =? m then a else 0)
  /\ (free_entries l <= S (free_entries (undo_record l pid semid n a)))%nat.
Proof.
  intros Hq Hf Hr. unfold undo_record.
  destruct (first_index (undo_for pid semid n) l) as [i|] eqn:E.
  - apply first_index_Some in E as (x & Hx & Hp & _). rewrite (owed_single _ _ _ _ _ _ Hq Hx Hp) in Hr.
    assert (Hal : alter (undo_fold a) i l = <[i := undo_fold a x]> l).
    { rewrite list_insert_alter. apply list_alter_ext; [|done]. intros y Hy. congruence. }
    rewrite Hal. apply undo_for_spec in Hp as (P1 & P2 & P3 & P4). unfold owed, free_entries. split.
    + rewrite (lsum_insert _ _ _ _ _ Hx). unfold owed_by at 2 3. unfold undo_for, undo_fold. simpl.
      rewrite P1, P2, P3, P4, i32_small, !Z.eqb_refl by done. simpl.
      destruct (Z.eqb_spec (u_adjust x - a) 0), (Z.eqb_spec n m); simpl; lia.
    + pose proof (count_if_insert (fun u => negb (u_used u)) l i x (undo_fold a x) Hx) as Hc.
      simpl in Hc. rewrite P1 in Hc. simpl in Hc. destruct (_ =? 0) in Hc; simpl in Hc; lia.
  - destruct (Z.eqb_spec a 0) as [->|Ha]; [destruct (n =? m); split; lia|].
    destruct (first_index (fun u => negb (u_used u)) l) as [i|] eqn:F.
    + apply first_index_Some in F as (x & Hx & Hp & _). unfold owed, free_entries. split.
      * rewrite (lsum_insert _ _ _ _ _ Hx). unfold owed_by at 2 3. unfold undo_for. simpl. bools.
        rewrite Hp, !Z.eqb_refl. simpl. destruct (n =? m); lia.
      * pose proof (count_if_insert (fun u => negb (u_used u)) l i x (mkUndo true pid semid n (- a)) Hx) as Hc.
        simpl in Hc. rewrite Hp in Hc. lia.
    + exfalso. apply count_if_first in Hf. rewrite F in Hf. by destruct Hf.
Qed.

Lemma record_all_owed pid semid ops : forall l,
  ledger_uniq l -> (length ops <= free_entries l)%nat ->
  Forall (fun o => sem_flg o &? SEM_UNDO = true) ops ->
  (forall ops1 ops2 n, ops = ops1 ++ ops2 -> in_i32 (owed l pid semid n - delta ops1 n)) ->
  forall n, owed (record_all pid semid ops l) pid semid n = owed l pid semid n - delta ops n.
Proof.
  induction ops as [|o ops IH]; intros l Hq Hf Hu Hr n; simpl; [lia|].
  apply Forall_cons_iff in Hu as [Ho Hu]. rewrite Ho. simpl in Hf.
  assert (Hrec : forall m, _) by (intros m; apply (undo_record_owed l pid semid (sem_num o) (sem_op o) m Hq);
    [lia|]; specialize (Hr [o] ops (sem_num o) eq_refl); simpl in Hr; unfold effect in Hr;
    by rewrite Z.eqb_refl, Z.add_0_r in Hr).
  change (owed (record_all pid semid ops (undo_record l pid semid (sem_num o) (sem_op o))) pid semid n
          = owed l pid semid n - (effect n o + delta ops n)).
  rewrite IH.
  - rewrite (proj1 (Hrec n)). unfold effect. lia.
  - by apply undo_record_uniq.
  - pose proof (proj2 (Hrec 0)). lia.
  - done.
  - intros ops1 ops2 m ->. rewrite (proj1 (Hrec m)). specialize (Hr (o :: ops1) ops2 m eq_refl).
    simpl in Hr. unfold effect in Hr. destruct (sem_num o =? m); unfold in_i32 in *; lia.
Qed.

Lemma feasible_prefix_ok nsems vals ops :
  feasible nsems vals ops -> Forall val_ok vals -> nsems <= Z.of_nat (length vals) ->
  forall ops1 ops2, ops = ops1 ++ ops2 -> forall n, 0 <= n < nsems -> val_ok (zget vals n + delta ops1 n).
Proof.
  intros Hf Hv Hl ops1. induction ops1 as [|o ops1 IH] using rev_ind; intros ops2 E n Hn.
  - rewrite Z.add_0_r. eapply Forall_lookup_1; [done|]. apply zget_lookup. lia.
  - rewrite <- app_assoc in E. specialize (IH _ E n Hn). destruct (Hf _ _ _ E) as (Hlt & H0 & Hp & Hm).
    rewrite delta_app. simpl. unfold effect. unfold val_ok in *.
    destruct (Z.eqb_spec (sem_num o) n) as [<-|]; lia.
Qed.

Lemma delta_out nsems vals ops ops1 ops2 n :
  feasible nsems vals ops -> ops = ops1 ++ ops2 -> Forall op_ok ops -> ~ (0 <= n < nsems) -> delta ops1 n = 0.
Proof.
  intros Hf. revert ops2. induction ops1 as [|o ops1 IH] using rev_ind; intros ops2 E Ho Hn; [done|].
  rewrite <- app_assoc in E. rewrite delta_app, (IH _ E Ho Hn). simpl. unfold effect.
  destruct (Hf _ _ _ E) as (Hlt & _). assert (Hoo : op_ok o) by (subst ops; by eapply op_ok_mid).
  unfold op_ok in Hoo. destruct (Z.eqb_spec (sem_num o) n); lia.
Qed.

(** Running the exit path over entries that all belong to one set. *)
Lemma cleanup_loop_vals e pid semid l : forall st woke r st' w,
  sem_inv st -> sem_id_valid e st semid = true ->
  (forall u, u ∈ l -> u_used u = true -> u_pid u = pid -> u_semid u = semid
     /\ 0 <= u_semnum u < s_nsems (sem_set st semid)
     /\ val_ok (zget (s_vals (sem_set st semid)) (u_semnum u) + u_adjust u)) ->
  ledger_uniq l ->
  cleanup_loop e pid l st woke = (r, st', w) ->
  (forall n, 0 <= n < s_nsems (sem_set st semid) ->
     zget (s_vals (sem_set st' semid)) n = zget (s_vals (sem_set st semid)) n + owed l pid semid n)
  /\ forall j, in_sets j -> j <> semid -> sem_set st' j = sem_set st j.
Proof.
  induction l as [|u l IH]; intros st woke r st' w Hi Hv Hl Hq H.
  { simpl in H. simplify_eq. split; [intros; unfold owed; simpl; lia|done]. }
  assert (Hq' : ledger_uniq l)
    by (intros i j a b Ha Hb ???; assert (S i = S j) by (by eapply (Hq (S i) (S j) a b)); lia).
  destruct (valid_in_sets _ _ _ Hv) as (Hs & Hu & Hns). simpl in H.
  destruct (negb (u_used u) || _) eqn:Eskip.
  - destruct (cleanup_loop e pid l st woke) as [[r1 st1] w1] eqn:E. simplify_eq.
    destruct (IH _ _ _ _ _ Hi Hv (fun v Hin => Hl v (list_elem_of_further _ _ _ Hin)) Hq' E) as [H1 H2].
    split; [|done]. intros n Hn. rewrite H1 by done. unfold owed. simpl. unfold owed_by at 2.
    destruct (undo_for pid semid n u) eqn:Ef; [|lia]. apply undo_for_spec in Ef as (E1 & E2 & _).
    rewrite E1, E2, Z.eqb_refl in Eskip. done.
  - apply orb_false_iff in Eskip as [Hused%negb_false_iff Hpid%negb_false_iff%Z.eqb_eq].
    destruct (Hl u (list_elem_of_here _ _)) as (Esem & Hn & Hval); [done|done|]. subst semid pid.
    rewrite Hv, (proj2 (Z.ltb_lt _ _)) in H by lia. simpl in H.
    set (f := fun s => with_vals _ s) in H.
    destruct (cleanup_entry_ok _ _ (u_adjust u) (inv_slot _ Hi _ Hs) Hn) as [Hsh Hok]. fold (f (sem_set st (u_semid u))) in Hsh, Hok.
    assert (Hset : sem_set (upd_set f (u_semid u) st) (u_semid u) = f (sem_set st (u_semid u)))
      by (rewrite sem_set_upd by (done || apply Hi); by rewrite decide_True).
    assert (Hlen := ok_len_vals _ (inv_slot _ Hi _ Hs)). assert (Hb := ok_nsems _ (inv_slot _ Hi _ Hs)). unfold SEMMSL in Hb.
    assert (Hget : forall n, 0 <= n < s_nsems (sem_set st (u_semid u)) ->
              zget (s_vals (f (sem_set st (u_semid u)))) n
              = zget (s_vals (sem_set st (u_semid u))) n + (if u_semnum u =? n then u_adjust u else 0)).
    { intros n Hnn. simpl. destruct (Z.eqb_spec (u_semnum u) n) as [<-|Hne].
      - rewrite zget_zalter_eq by lia. unfold val_ok, SEMVMX in Hval. rewrite i32_id by lia. unfold clamp_val, SEMVMX.
        repeat case_match; bools; try lia. by rewrite u16_small by lia.
      - rewrite zget_zalter_ne by lia. lia. }
    destruct (cleanup_loop e (u_pid u) l _ _) as [[r1 st2] w1] eqn:E. simplify_eq.
    assert (Hne : forall v, v ∈ l -> u_used v = true -> u_pid v = u_pid u -> u_semid v = u_semid u ->
              u_semnum v <> u_semnum u).
    { intros v (j & Hj)%list_elem_of_lookup V1 V2 V3 V4.
      assert (O = S j) by (eapply (Hq 0%nat (S j) u v); try done; unfold same_entry; by rewrite V2, V3, V4). lia. }
    destruct Hsh as (S1 & S2 & S3 & S4).
    edestruct (IH (upd_set f (u_semid u) st)) as [H1 H2]; [by apply inv_upd_quiet| | |done|exact E|].
    + unfold sem_id_valid in *. rewrite Hset, S1, S3. exact Hv.
    + intros v Hv1 V1 V2. destruct (Hl v (list_elem_of_further _ _ _ Hv1) V1 V2) as (V3 & V4 & V5).
      rewrite Hset, S4. split_and!; try done; try apply V4. rewrite Hget by done.
      destruct (Z.eqb_spec (u_semnum u) (u_semnum v)) as [Ev|]; [|by rewrite Z.add_0_r].
      exfalso. by eapply (Hne v).
    + rewrite Hset, S4 in H1. split.
      * intros n Hnn. rewrite H1, Hget by done. unfold owed. simpl. unfold owed_by at 2. unfold undo_for.
        rewrite Hused, !Z.eqb_refl. simpl. destruct (u_semnum u =? n); lia.
      * intros j Hj Hjn. rewrite H2 by done. rewrite sem_set_upd by (done || apply Hi). by rewrite decide_False.
Qed.

Lemma undo_record_owner l pid semid n a :
  (forall u, u ∈ l -> u_used u = true -> u_pid u = pid -> u_semid u = semid) ->
  forall u, u ∈ undo_record l pid semid n a -> u_used u = true -> u_pid u = pid -> u_semid u = semid.
Proof.
  intros Hl u. unfold undo_record. destruct (first_index (undo_for _ _ _) l) as [i|] eqn:E.
  - apply first_index_Some in E as (x & Hx & Hp & _). apply undo_for_spec in Hp as (_ & _ & Hs & _).
    intros (j & Hj)%list_elem_of_lookup Hu. destruct (decide (j = i)) as [->|].
    + rewrite list_lookup_alter_eq, Hx in Hj. by injection Hj as <-.
    + rewrite list_lookup_alter_ne in Hj by done. apply Hl; [by eapply list_elem_of_lookup_2|done].
  - destruct (a =? 0); [apply Hl|].
    destruct (first_index (fun u => negb (u_used u)) l) as [i|] eqn:F; [|apply Hl].
    intros (j & Hj)%list_elem_of_lookup Hu.
    apply list_lookup_insert_Some in Hj as [(_ & <- & _)|[_ Hj]]; [done|].
    apply Hl; [by eapply list_elem_of_lookup_2|done].
Qed.
Lemma record_all_owner pid semid ops : forall l,
  (forall u, u ∈ l -> u_used u = true -> u_pid u = pid -> u_semid u = semid) ->
  forall u, u ∈ record_all pid semid ops l -> u_used u = true -> u_pid u = pid -> u_semid u = semid.
Proof.
  induction ops as [|o ops IH]; intros l Hl; simpl; [done|].
  destruct (sem_flg o &? SEM_UNDO); apply IH; [by apply undo_record_owner|done].
Qed.

Lemma semop_attempt_done e st semid ops st1 w :
  semop_attempt e st semid ops = (Some 0, st1, w) ->
  sem_id_valid e st semid = true /\ sem_try_ops e st semid ops (cur_pid e) = (0, st1).
Proof.
  unfold semop_attempt. destruct (sem_id_valid e st semid); simpl; [|unfold EINVAL; done].
  destruct (_ =? 0); simpl; [|unfold EACCES; done].
  destruct (sem_try_ops _ _ _ _ _) as [rc st2]. destruct (Z.eqb_spec rc 0) as [->|Hrc]; intros H; [by simplify_eq|].
  destruct (rc <? 0); simplify_eq.
Qed.

(** After a committed array of SEM_UNDO operations by a task that owed nothing. *)
Lemma commit_owes e st semid ops pid st1 :
  sem_inv st -> in_sets semid -> Forall op_ok ops ->
  Forall (fun o => sem_flg o &? SEM_UNDO = true) ops ->
  (forall u, u ∈ g_undo st -> u_used u = true -> u_pid u <> pid) ->
  (length ops <= free_entries (g_undo st))%nat ->
  sem_try_ops e st semid ops pid = (0, st1) ->
  same_shape (sem_set st semid) (sem_set st1 semid)
  /\ (forall j, in_sets j -> j <> semid -> sem_set st1 j = sem_set st j)
  /\ (forall n, 0 <= n < s_nsems (sem_set st semid) ->
        zget (s_vals (sem_set st1 semid)) n = zget (s_vals (sem_set st semid)) n + delta ops n)
  /\ (forall n, owed (g_undo st1) pid semid n = - delta ops n)
  /\ forall u, u ∈ g_undo st1 -> u_used u = true -> u_pid u = pid -> u_semid u = semid.
Proof.
  intros Hi Hs Hops Hundo Hno Hfree Htry.
  destruct (sem_try_ops_success _ _ _ _ _ _ Hi Hs Hops Htry) as (Hf & next & Hl & Hvn & Hz & ->).
  assert (Hset : forall j, in_sets j -> sem_set (upd_set (committed e pid ops next) semid st) j
            = if decide (j = semid) then committed e pid ops next (sem_set st semid) else sem_set st j)
    by (intros j Hj; exact (sem_set_upd st _ semid j (inv_len _ Hi) Hs Hj)).
  change (sem_set (mkSt (zalter _ semid (g_sets st)) _ _)) with (sem_set (upd_set (committed e pid ops next) semid st)).
  rewrite (Hset semid Hs), decide_True by done.
  assert (Hok := inv_slot _ Hi semid Hs). pose proof (ok_nsems _ Hok) as Hnb. unfold SEMMSL in Hnb.
  assert (Hzero : forall n, owed (g_undo st) pid semid n = 0).
  { intros n. apply lsum_zero. intros u Hin. unfold owed_by. destruct (undo_for _ _ _ u) eqn:E; [|done].
    apply undo_for_spec in E as (E1 & E2 & _). by destruct (Hno u Hin E1). }
  split_and!; [done|intros j Hj Hne; by rewrite Hset, decide_False|intros n Hn|intros n|].
  - rewrite <- Hz by done. simpl. unfold zget. rewrite !list_lookup_total_alt, lookup_app_l by lia. done.
  - simpl. rewrite record_all_owed; [rewrite Hzero; lia|apply Hi|done|done|].
    intros ops1 ops2 m Eo. rewrite Hzero. unfold in_i32.
    destruct (decide (0 <= m < s_nsems (sem_set st semid))) as [Hm|Hm];
      [|rewrite (delta_out _ _ _ _ _ _ Hf Eo Hops Hm); lia].
    assert (Hlv : s_nsems (sem_set st semid) <= Z.of_nat (length (s_vals (sem_set st semid))))
      by (rewrite (ok_len_vals _ Hok); lia).
    pose proof (feasible_prefix_ok _ _ _ Hf (ok_vals _ Hok) Hlv _ _ Eo m Hm).
    pose proof (feasible_prefix_ok _ _ _ Hf (ok_vals _ Hok) Hlv [] ops eq_refl m Hm).
    unfold val_ok, SEMVMX in *. simpl in *. lia.
  - apply record_all_owner. intros v Hv1 V1 V2. by destruct (Hno v Hv1 V1).
Qed.

(** ** Properties *)

(** C26 (invariant).  Whatever tasks and the namespace reaper do, in any
    interleaving of their critical sections: every semaphore stays within
    [0, SEMVMX], no two live sets of a namespace share a key, and every entry
    of the undo ledger names an existing semaphore, once per task. *)
Theorem semaphore_table_sound st : rtc sem_any sem_boot st -> sem_inv st.
Proof. apply sem_reachable_inv. Qed.

(** C27 (functional).  An operation array is all or nothing.  [sem_try_ops]
    succeeds exactly when each operation, run after those before it, can
    proceed; then every semaphore has moved by the net sum of its operations and
    no other set has changed.  Otherwise nothing has changed and the answer is
    the one due to the first operation that cannot proceed. *)
Theorem semop_all_or_nothing e st semid ops pid rc st' :
  rtc sem_any sem_boot st -> in_sets semid -> Forall op_ok ops ->
  sem_try_ops e st semid ops pid = (rc, st') ->
  let s := sem_set st semid in
  (rc = 0 <-> feasible (s_nsems s) (s_vals s) ops)
  /\ (rc = 0 ->
      (forall n, 0 <= n < s_nsems s ->
         zget (s_vals (sem_set st' semid)) n = zget (s_vals s) n + delta ops n)
      /\ forall j, in_sets j -> j <> semid -> sem_set st' j = sem_set st j)
  /\ (rc <> 0 -> st' = st /\ exists ops1 o ops2, ops = ops1 ++ o :: ops2
        /\ feasible (s_nsems s) (s_vals s) ops1
        /\ ~ can_proceed (s_nsems s) (zget (s_vals s) (sem_num o) + delta ops1 (sem_num o)) o
        /\ rc = refusal (s_nsems s) o).
Proof.
  intros Hi%sem_reachable_inv Hs Hops H s. assert (Hok := inv_slot _ Hi semid Hs).
  destruct (decide (rc = 0)) as [->|Hrc].
  - destruct (sem_try_ops_success _ _ _ _ _ _ Hi Hs Hops H) as (Hf & next & Hl & Hv & Hz & ->).
    split_and!; [by split|intros _; split|done].
    + intros n Hn. change (sem_set (mkSt _ _ _) semid) with (sem_set (upd_set (committed e pid ops next) semid st) semid).
      rewrite sem_set_upd by (done || apply Hi). rewrite decide_True by done. simpl.
      rewrite <- Hz by done. unfold zget. rewrite !list_lookup_total_alt, lookup_app_l by (fold s in Hl; lia). done.
    + intros j Hj Hne. change (sem_set (upd_set (committed e pid ops next) semid st) j = sem_set st j).
      rewrite sem_set_upd by (done || apply Hi). by rewrite decide_False.
  - unfold sem_try_ops in H. fold s in H, Hok. destruct (snapshot_ok s Hok) as [Hsl Hsv].
    destruct (try_ops _ _ _) as [rc1|next] eqn:E; simplify_eq.
    apply try_ops_inl in E as (Hnf & ops1 & o & ops2 & Eo & Hf1 & Hn & Hr); [|done..].
    rewrite feasible_snapshot in Hnf by done.
    assert (Ho1 : Forall op_ok ops1) by (rewrite Eo in Hops; by apply Forall_app in Hops as [? _]).
    split_and!; [by split|done|intros _]. split; [done|]. exists ops1, o, ops2.
    split_and!; [done|by apply feasible_snapshot| |done].
    intros Hc. apply Hn. rewrite snapshot_get; [done|done|].
    assert (Hoo : op_ok o) by (subst ops; by eapply op_ok_mid). unfold op_ok in Hoo. destruct Hc. lia.
Qed.

(** C28 (round trip).  SEM_UNDO gives back what was taken, under conditions that
    the code does not enforce: if a task that owes nothing applies one array of
    SEM_UNDO operations with a ledger entry free for each of them, and its exit
    follows at once and runs in the namespace of the set, then every semaphore has
    the value it had before and the task owes nothing.  Without the free entries
    the adjustment is lost ([full_ledger_loses_undo]), and so it is when the exit
    runs in another namespace ([undo_lost_outside_namespace]). *)
Theorem sem_undo_roundtrip e st semid ops st1 st2 w1 w2 :
  rtc sem_any sem_boot st -> Forall op_ok ops ->
  Forall (fun o => sem_flg o &? SEM_UNDO = true) ops ->
  (forall u, u ∈ g_undo st -> u_used u = true -> u_pid u <> cur_pid e) ->
  (length ops <= free_entries (g_undo st))%nat ->
  semop_attempt e st semid ops = (Some 0, st1, w1) ->
  sysv_sem_task_cleanup e st1 (cur_pid e) = (st2, w2) ->
  (forall n, 0 <= n < s_nsems (sem_set st semid) ->
     zget (s_vals (sem_set st2 semid)) n = zget (s_vals (sem_set st semid)) n)
  /\ (forall j, in_sets j -> j <> semid -> sem_set st2 j = sem_set st j)
  /\ forall u, u ∈ g_undo st2 -> u_used u = true -> u_pid u <> cur_pid e.
Proof.
  intros Hi%sem_reachable_inv Hops Hundo Hno Hfree H1 H2.
  destruct (semop_attempt_preserves _ _ _ _ _ _ _ Hi Hops H1) as [Hi1 _].
  destruct (semop_attempt_done _ _ _ _ _ _ H1) as [Hv Htry]. destruct (valid_in_sets _ _ _ Hv) as (Hs & Hu & Hns).
  destruct (task_cleanup_preserves _ _ _ _ _ Hi1 H2) as (_ & _ & Hgone).
  destruct (commit_owes _ _ _ _ _ _ Hi Hs Hops Hundo Hno Hfree Htry) as ((S1 & S2 & S3 & S4) & Hj1 & Hvals1 & Howed & Hown).
  assert (Hok := inv_slot _ Hi semid Hs). pose proof (ok_nsems _ Hok) as Hnb. unfold SEMMSL in Hnb.
  unfold sysv_sem_task_cleanup in H2.
  destruct (cleanup_loop e (cur_pid e) (g_undo st1) st1 (-1)) as [[l st3] woke] eqn:E. injection H2 as <- _.
  edestruct (cleanup_loop_vals e (cur_pid e) semid) as [Hv2 Hj2]; [exact Hi1| | |apply Hi1|exact E|].
  - unfold sem_id_valid in *. by rewrite S1, S3.
  - intros u Hin Hused Hpid. assert (Hsem := Hown u Hin Hused Hpid).
    destruct (inv_entries _ Hi1 u Hin Hused) as (_ & _ & Hn). rewrite Hsem in Hn. split_and!; [done|apply Hn|apply Hn|].
    apply list_elem_of_lookup in Hin as (i & Hlk).
    rewrite <- (owed_single _ (cur_pid e) semid (u_semnum u) i u (inv_uniq _ Hi1) Hlk) by by apply undo_for_spec.
    rewrite S4 in Hn. rewrite Howed, Hvals1, <- Z.add_assoc, Z.add_opp_diag_r, Z.add_0_r by done.
    eapply Forall_lookup_1; [apply (ok_vals _ Hok)|]. apply zget_lookup. rewrite (ok_len_vals _ Hok). lia.
  - split_and!; [intros n Hn|intros j Hj Hne|exact Hgone].
    + change (zget (s_vals (sem_set st3 semid)) n = zget (s_vals (sem_set st semid)) n).
      rewrite Hv2 by by rewrite S4. rewrite Hvals1, Howed by done. lia.
    + change (sem_set st3 j = sem_set st j). rewrite Hj2 by done. by apply Hj1.
Qed.

(** (Functional.)  A successful [semget] answers the id of a live set of the
    caller's namespace with the key asked for and at least the semaphores asked
    for: the one set that had the key if there was one (never with
    IPC_CREAT|IPC_EXCL, and only past the permission check), a fresh one with
    every semaphore zero otherwise.  A failing one changes nothing. *)
Theorem semget_finds_or_creates e st key nsems flg rc st' :
  rtc sem_any sem_boot st -> sysv_semget e st key nsems flg = (rc, st') ->
  (rc < 0 -> st' = st)
  /\ (0 <= rc ->
      sem_id_valid e st' rc = true /\ s_key (sem_set st' rc) = key /\ nsems <= s_nsems (sem_set st' rc)
      /\ (forall j, in_sets j -> s_used (sem_set st j) = true -> sem_set st' j = sem_set st j)
      /\ (forall j, in_sets j -> key <> 0 -> key_matches (cur_ns e) key (sem_set st j) = true ->
            j = rc /\ (flg &? IPC_CREAT) && (flg &? IPC_EXCL) = false
            /\ sem_access e st rc (u16 (Z.land flg 511)) = 0)
      /\ (s_used (sem_set st rc) = false -> s_nsems (sem_set st' rc) = nsems /\ s_vals (sem_set st' rc) = zeros)).
Proof.
  intros Hi%sem_reachable_inv H. unfold sem_id_valid, ipc_current_ns.
  destruct (semget_cases _ _ _ _ _ _ _ Hi H)
    as [[? ->]|[(Hr & -> & Hk & H0 & Hn & Hx & Ha)|(Hr & Hf & Hi' & _ & Hn & Hnew & Hold & Hfresh)]].
  - split; [done|lia].
  - unfold key_matches in Hk. rewrite !andb_true_iff, !Z.eqb_eq in Hk. destruct Hk as [[Hu Hns] Hkey].
    assert (Hr' := Hr). unfold in_sets in Hr. split; [lia|]. intros _.
    rewrite Hu, Hns, Z.eqb_refl, (proj2 (Z.leb_le 0 rc)), (proj2 (Z.ltb_lt rc SEMMNI)) by lia.
    split_and!; try done. intros j Hj _ Hm. unfold key_matches in Hm. bools.
    split; [|done]. eapply (inv_keys _ Hi); try done; congruence.
  - unfold in_sets in Hr. split; [lia|]. intros _. rewrite Hnew. simpl.
    rewrite Z.eqb_refl, (proj2 (Z.leb_le 0 rc)), (proj2 (Z.ltb_lt rc SEMMNI)) by lia.
    split_and!; try done.
    + intros j Hj Hu. apply Hold; [done|]. intros ->. congruence.
    + intros j Hj Hk0 Hm. destruct (Hfresh Hk0) as [_ Hno]. rewrite (Hno j Hj) in Hm. done.
Qed.

(** (Safety.)  IPC namespaces are isolated: no operation of a task, its exit
    included, touches a live set of another namespace. *)
Theorem ipc_namespaces_isolated e st st' j :
  rtc sem_any sem_boot st -> sem_step e st st' -> in_sets j ->
  s_used (sem_set st j) = true -> s_ns (sem_set st j) <> cur_ns e -> sem_set st' j = sem_set st j.
Proof. intros Hi%sem_reachable_inv Hs. by apply (sem_step_preserves _ _ _ Hs Hi). Qed.

(** ** Concrete runs *)

Definition root_env (ns pid : Z) : ipc_env := mkEnv None ns pid 100 UserNsProofs.ns_start (replicate 64 inhabitant).
Definition e7 : ipc_env := root_env 0 7.
(** A set of two semaphores under key 42, the first raised to 5. *)
Definition st_made : sem_state := snd (sysv_semget e7 sem_boot 42 2 (IPC_CREAT + 384)).
Definition st_five : sem_state := snd (fst (sysv_semctl_setval e7 st_made 0 0 5)).
(** Take three, give one back, both under SEM_UNDO. *)
Definition undo_ops : list sembuf := [mkOp 0 (-3) SEM_UNDO; mkOp 0 1 SEM_UNDO].
Definition st_taken : sem_state := snd (fst (semop_attempt e7 st_five 0 undo_ops)).

Lemma st_five_reachable : rtc sem_any sem_boot st_five.
Proof.
  eapply rtc_l; [|eapply rtc_once].
  - apply (any_task _ st_made e7). eapply (by_get _ _ _ 42 2 (IPC_CREAT + 384)). apply surjective_pairing.
  - apply (any_task _ _ e7). eapply (by_setval _ _ _ 0 0 5). vm_compute. reflexivity.
Qed.
Lemma undo_ops_ok : Forall op_ok undo_ops.
Proof. repeat constructor; vm_compute; done. Qed.

Lemma semaphore_table_sound_witness : sem_inv st_five.
Proof. apply (semaphore_table_sound st_five st_five_reachable). Defined.

Lemma semop_all_or_nothing_witness :
  feasible 2 (s_vals (sem_set st_five 0)) undo_ops /\ zget (s_vals (sem_set st_taken 0)) 0 = 3.
Proof.
  destruct (semop_all_or_nothing e7 st_five 0 undo_ops 7 0 st_taken st_five_reachable) as (Hf & Hv & _);
    [vm_compute; split; congruence|apply undo_ops_ok|vm_compute; reflexivity|].
  split; [by apply Hf|]. destruct (Hv eq_refl) as [Hn _]. rewrite Hn by (vm_compute; split; congruence).
  vm_compute. reflexivity.
Defined.

Lemma sem_undo_roundtrip_witness :
  zget (s_vals (sem_set (fst (sysv_sem_task_cleanup e7 st_taken 7)) 0)) 0 = 5.
Proof.
  destruct (sem_undo_roundtrip e7 st_five 0 undo_ops st_taken (fst (sysv_sem_task_cleanup e7 st_taken 7)) [0] [0]
              st_five_reachable undo_ops_ok) as (Hv & _).
  - repeat constructor.
  - intros u (i & Hi)%list_elem_of_lookup Hused. exfalso. revert Hused.
    change (g_undo st_five) with (replicate 64 undo_zero) in Hi. by apply lookup_replicate in Hi as [-> _].
  - vm_compute. lia.
  - vm_compute. reflexivity.
  - vm_compute. reflexivity.
  - rewrite Hv by (vm_compute; split; congruence). vm_compute. reflexivity.
Defined.

Lemma semget_finds_or_creates_witness : s_key (sem_set st_five 0) = 42.
Proof.
  destruct (semget_finds_or_creates e7 st_five 42 2 0 0 st_five st_five_reachable) as [_ H];
    [vm_compute; reflexivity|]. by destruct H as (_ & Hk & _).
Defined.

Lemma ipc_namespaces_isolated_witness :
  sem_set (snd (sysv_semget (root_env 3 8) st_five 42 1 IPC_CREAT)) 0 = sem_set st_five 0.
Proof.
  apply (ipc_namespaces_isolated (root_env 3 8) st_five); [apply st_five_reachable| |vm_compute; done|reflexivity|by vm_compute].
  eapply by_get. apply surjective_pairing.
Defined.

(** ** Where the code does less than its comments promise *)

Lemma cleanup_loop_skips e pid l : forall st woke,
  (forall u, u ∈ l -> u_used u = true -> u_pid u = pid -> s_ns (sem_set st (u_semid u)) <> cur_ns e) ->
  snd (fst (cleanup_loop e pid l st woke)) = st.
Proof.
  induction l as [|u l IH]; intros st woke Hl; simpl; [done|].
  assert (Htl : forall v, v ∈ l -> u_used v = true -> u_pid v = pid -> s_ns (sem_set st (u_semid v)) <> cur_ns e)
    by (intros v Hv; apply Hl; by right).
  destruct (negb (u_used u) || _) eqn:E.
  - specialize (IH st woke Htl). by destruct (cleanup_loop e pid l st woke) as [[??]?].
  - bools. assert (sem_id_valid e st (u_semid u) = false) as ->.
    { unfold sem_id_valid, ipc_current_ns. rewrite (proj2 (Z.eqb_neq _ _)); [by rewrite andb_false_r|]. apply Hl; [by left|done|done]. }
    simpl. specialize (IH st woke Htl). by destruct (cleanup_loop e pid l st woke) as [[??]?].
Qed.

(** (Error.)  The exit path validates ids against the namespace of the running context.
    [scheduler_exit_current] drops the task's namespaces before it gives the
    adjustments back, so for a task of a non-initial IPC namespace that context
    is namespace 0: none of its adjustments is applied, and all are forgotten. *)
Theorem undo_lost_outside_namespace e st pid :
  rtc sem_any sem_boot st ->
  (forall u, u ∈ g_undo st -> u_used u = true -> u_pid u = pid -> s_ns (sem_set st (u_semid u)) <> cur_ns e) ->
  let st' := fst (sysv_sem_task_cleanup e st pid) in
  g_sets st' = g_sets st /\ forall u, u ∈ g_undo st' -> u_used u = true -> u_pid u <> pid.
Proof.
  intros Hi%sem_reachable_inv Hl st'. destruct (sysv_sem_task_cleanup e st pid) as [st2 w] eqn:E.
  destruct (task_cleanup_preserves _ _ _ _ _ Hi E) as (_ & _ & Hg). split; [|exact Hg].
  pose proof (cleanup_loop_skips e pid (g_undo st) st (-1) Hl) as Hs. unfold st'. simpl.
  unfold sysv_sem_task_cleanup in E. destruct (cleanup_loop e pid (g_undo st) st (-1)) as [[l st3] wk].
  simplify_eq/=. done.
Qed.

(** A set of namespace 3, from which task 9 has taken under SEM_UNDO. *)
Definition e9 : ipc_env := root_env 3 9.
Definition st_ns3 : sem_state :=
  let st := snd (sysv_semget e9 sem_boot 42 1 (IPC_CREAT + 384)) in
  let st := snd (fst (sysv_semctl_setval e9 st 0 0 1)) in
  snd (fst (semop_attempt e9 st 0 [mkOp 0 (-1) SEM_UNDO])).
Lemma st_ns3_reachable : rtc sem_any sem_boot st_ns3.
Proof.
  eapply rtc_l; [|eapply rtc_l; [|eapply rtc_once]].
  - apply (any_task _ _ e9). eapply (by_get _ _ _ 42 1 (IPC_CREAT + 384)). apply surjective_pairing.
  - apply (any_task _ _ e9). eapply (by_setval _ _ _ 0 0 1). vm_compute. reflexivity.
  - apply (any_task _ _ e9). eapply (by_attempt _ _ _ 0 [mkOp 0 (-1) SEM_UNDO]).
    + repeat constructor; vm_compute; done.
    + vm_compute. reflexivity.
Qed.
Lemma undo_lost_outside_namespace_witness :
  g_sets (fst (sysv_sem_task_cleanup (root_env 0 9) st_ns3 9)) = g_sets st_ns3
  /\ zget (s_vals (sem_set st_ns3 0)) 0 = 0.
Proof.
  split; [|reflexivity]. apply (undo_lost_outside_namespace (root_env 0 9) st_ns3 9 st_ns3_reachable).
  intros u (i & Hi)%list_elem_of_lookup Hu _. destruct i as [|i].
  - vm_compute in Hi. injection Hi as <-. by vm_compute.
  - exfalso. revert Hu. change (g_undo st_ns3 !! S i) with (replicate 63 undo_zero !! i) in Hi.
    by apply lookup_replicate in Hi as [-> _].
Defined.

(** A sleeper whose set is removed and whose slot is reused before it runs wakes
    up on the new set: it takes from it and reports success, not [EIDRM]. *)
Definition reuse_slot (st : sem_state) : sem_state :=
  let st1 := snd (fst (sysv_semctl_rmid (root_env 0 8) st 0)) in
  let st2 := snd (sysv_semget (root_env 0 8) st1 99 1 (IPC_CREAT + 384)) in
  snd (fst (sysv_semctl_setval (root_env 0 8) st2 0 0 1)).
Example sleeper_resumes_on_reused_slot :
  let r := sysv_semop e7 st_made 0 (Some [mkOp 0 (-1) 0]) (-1) [mkRound reuse_slot Woken (fun st => st)] in
  fst r = Some 0 /\ s_key (sem_set (snd r) 0) = 99 /\ zget (s_vals (sem_set (snd r) 0)) 0 = 0.
Proof. vm_compute. split_and!; reflexivity. Qed.

(** With all 64 ledger entries taken, a SEM_UNDO operation succeeds but is not
    recorded: the exit of the task does not give it back. *)
Definition fill_ledger (st : sem_state) : sem_state :=
  fold_left (fun st pid => snd (fst (semop_attempt (root_env 0 pid) st 0 [mkOp 1 1 SEM_UNDO])))
    (map Z.of_nat (seq 100 64)) st.
Example full_ledger_loses_undo :
  let st1 := snd (fst (semop_attempt e7 (fill_ledger st_five) 0 [mkOp 0 (-1) SEM_UNDO])) in
  let st2 := fst (sysv_sem_task_cleanup e7 st1 7) in
  fst (fst (semop_attempt e7 (fill_ledger st_five) 0 [mkOp 0 (-1) SEM_UNDO])) = Some 0
  /\ zget (s_vals (sem_set (fill_ledger st_five) 0)) 0 = 5 /\ zget (s_vals (sem_set st2 0)) 0 = 4.
Proof. vm_compute. split_and!; reflexivity. Qed.

(** The exit path wakes the sleepers of only the last set it adjusted. *)
Definition st_two : sem_state :=
  let st := snd (sysv_semget e7 st_five 43 1 (IPC_CREAT + 384)) in
  let st := snd (fst (sysv_semctl_setval e7 st 1 0 1)) in
  let st := snd (fst (semop_attempt e7 st 0 [mkOp 0 (-1) SEM_UNDO])) in
  snd (fst (semop_attempt e7 st 1 [mkOp 0 (-1) SEM_UNDO])).
Example exit_wakes_one_set :
  let r := sysv_sem_task_cleanup e7 st_two 7 in
  snd r = [1] /\ zget (s_vals (sem_set (fst r) 0)) 0 = 5 /\ zget (s_vals (sem_set st_two 0)) 0 = 4.
Proof. vm_compute. split_and!; reflexivity. Qed.

End SysvSemProofs.
