(* ===== verification/SysvMsg.v ===== *)
(** System V message queues ([kernel/ipc/sysv_msg.c]).

    The table of queues is a [msg_state]; a message's text is the buffer the
    entry owns, [None] once it has been handed over or freed.  Sending and
    receiving are loops around one critical section each ([msgsnd_attempt],
    [msgrcv_attempt]); what ends each pause between two rounds is an input. *)
From S2P Require Import Prelude Cred UserNs IpcNs.
Local Open Scope Z_scope.
Local Open Scope kernel_scope.

Module SysvMsg.
Import IpcNs.

Definition MSGMNI := 16.
Definition MSGMAX := 4096.
Definition MSGTQL := 32.
Definition SYSV_MSG_NOERROR := 4096.

Record msg_entry := mkMsg { m_used : bool; m_mtype : Z; m_size : Z; m_seq : Z; m_text : option (list Z) }.

Record msg_queue := mkQ {
  q_used : bool; q_key : Z; q_ns : Z; q_perm : ipc_perm;
  q_msgs : list msg_entry; q_next_seq : Z;
  q_qbytes : Z; q_cbytes : Z;
  q_stime : Z; q_rtime : Z; q_ctime : Z; q_lspid : Z; q_lrpid : Z }.

Record msg_state := mkMs { g_queues : list msg_queue; g_mseq : Z }.

Definition msg_zero : msg_entry := mkMsg false 0 0 0 None.
Definition queue_zero : msg_queue :=
  mkQ false 0 0 (mkPerm 0 0 0 0 0 0 0) (replicate 32 msg_zero) 0 0 0 0 0 0 0 0.
#[global] Instance msg_entry_inhabited : Inhabited msg_entry := populate msg_zero.
#[global] Instance msg_queue_inhabited : Inhabited msg_queue := populate queue_zero.

(** [sysv_ipc_init]; the sequence number is not reset. *)
Definition sysv_ipc_init (st : msg_state) : msg_state := mkMs (replicate 16 queue_zero) (g_mseq st).
Definition msg_boot : msg_state := mkMs (replicate 16 queue_zero) 0.

Definition queue (st : msg_state) (i : Z) : msg_queue := zget (g_queues st) i.
Definition upd_queue (f : msg_queue -> msg_queue) (i : Z) (st : msg_state) : msg_state :=
  mkMs (zalter f i (g_queues st)) (g_mseq st).

Definition msg_id_valid (e : ipc_env) (st : msg_state) (id : Z) : bool :=
  (0 <=? id) && (id <? MSGMNI) && q_used (queue st id) && (q_ns (queue st id) =? ipc_current_ns e).
Definition msg_may_control (e : ipc_env) (q : msg_queue) : bool := ipc_may_control e (q_perm q) (q_ns q).
Definition msg_access (e : ipc_env) (st : msg_state) (id acc : Z) : Z :=
  ipc_check_perm e (q_perm (queue st id)) (q_ns (queue st id)) acc.

(** ** msgget *)

Definition msg_key_matches (ns key : Z) (q : msg_queue) : bool :=
  q_used q && (q_ns q =? ns) && (q_key q =? key).

Definition new_queue (e : ipc_env) (key msgflg seq : Z) : msg_queue :=
  let uid := match cur_cred e with Some c => Cred.euid c | None => 0 end in
  let gid := match cur_cred e with Some c => Cred.egid c | None => 0 end in
  mkQ true key (ipc_current_ns e) (mkPerm uid gid uid gid (u16 (Z.land msgflg 511)) seq key)
    (replicate 32 msg_zero) 0 (MSGMAX * MSGTQL) 0 0 0 (now e) 0 0.

Definition msg_create (e : ipc_env) (st : msg_state) (key msgflg : Z) : Z * msg_state :=
  match first_index (fun q => negb (q_used q)) (g_queues st) with
  | None => (- ENOSPC, st)
  | Some i => (Z.of_nat i, mkMs (<[i := new_queue e key msgflg (g_mseq st)]> (g_queues st)) (u16 (g_mseq st + 1)))
  end.

Definition sysv_msgget (e : ipc_env) (st : msg_state) (key msgflg : Z) : Z * msg_state :=
  if key <>? 0 then
    match first_index (msg_key_matches (ipc_current_ns e) key) (g_queues st) with
    | Some i =>
        if (msgflg &? IPC_CREAT) && (msgflg &? IPC_EXCL) then (- EEXIST, st)
        else if msg_access e st (Z.of_nat i) (u16 (Z.land msgflg 511)) <>? 0 then (- EACCES, st)
        else (Z.of_nat i, st)
    | None => if msgflg &? IPC_CREAT then msg_create e st key msgflg else (- ENOENT, st)
    end
  else msg_create e st key msgflg.

(** ** msgsnd *)

Definition enqueue (e : ipc_env) (slot : nat) (mtype : Z) (text : list Z) (q : msg_queue) : msg_queue :=
  let size := Z.of_nat (length text) in
  mkQ (q_used q) (q_key q) (q_ns q) (q_perm q)
    (<[slot := mkMsg true mtype size (q_next_seq q) (Some text)]> (q_msgs q)) (u64 (q_next_seq q + 1))
    (q_qbytes q) (u64 (q_cbytes q + size)) (now e) (q_rtime q) (q_ctime q) (u32 (cur_pid e)) (q_lrpid q).

(** One round: [None] when the message does not fit. *)
Definition msgsnd_attempt (e : ipc_env) (st : msg_state) (msqid mtype : Z) (text : list Z)
    : option Z * msg_state :=
  if negb (msg_id_valid e st msqid) then (Some (- EINVAL), st)
  else if msg_access e st msqid 128 <>? 0 then (Some (- EACCES), st)
  else
    let q := queue st msqid in
    let size := Z.of_nat (length text) in
    match first_index (fun m => negb (m_used m)) (q_msgs q) with
    | Some slot =>
        if u64 (q_cbytes q + size) <=? q_qbytes q
        then (Some size, upd_queue (enqueue e slot mtype text) msqid st)
        else (None, st)
    | None => (None, st)
    end.

(** A pause: a signal was pending, or a sleep during which others ran. *)
Inductive pause := Interrupted | Slept (meanwhile : msg_state -> msg_state).

Fixpoint msgsnd_loop (e : ipc_env) (msqid mtype : Z) (text : list Z) (msgflg : Z) (pauses : list pause)
    (st : msg_state) : option Z * msg_state :=
  match msgsnd_attempt e st msqid mtype text with
  | (Some rc, st') => (Some rc, st')
  | (None, st') =>
      if msgflg &? SYSV_IPC_NOWAIT then (Some (- EAGAIN), st')
      else match pauses with
           | [] => (None, st')
           | Interrupted :: _ => (Some (- ERESTARTNOHAND), st')
           | Slept f :: pauses' => msgsnd_loop e msqid mtype text msgflg pauses' (f st')
           end
  end.
Definition sysv_msgsnd (e : ipc_env) (kmalloc_ok : bool) (st : msg_state) (msqid mtype : Z) (text : list Z)
    (msgflg : Z) (pauses : list pause) : option Z * msg_state :=
  if mtype <? 1 then (Some (- EINVAL), st)
  else if MSGMAX <? Z.of_nat (length text) then (Some (- EINVAL), st)
  else if negb kmalloc_ok then (Some (- ENOMEM), st)
  else msgsnd_loop e msqid mtype text msgflg pauses st.

(** ** msgrcv *)

(** Negating the most negative type is undefined in C; the model wraps, as the
    compiled code does. *)
Definition type_match (msgtyp t : Z) : bool :=
  if msgtyp =? 0 then true else if 0 <? msgtyp then t =? msgtyp else t <=? i64 (- msgtyp).

(** The loop over the slots; [best] is the choice so far. *)
Definition better (msgtyp : Z) (m b : msg_entry) : bool :=
  if (msgtyp <? 0) && (m_mtype m <>? m_mtype b) then m_mtype m <? m_mtype b else m_seq m <? m_seq b.
Fixpoint select_loop (msgtyp : Z) (msgs : list msg_entry) (i : nat) (best : option (nat * msg_entry))
    : option (nat * msg_entry) :=
  match msgs with
  | [] => best
  | m :: msgs' =>
      let best' :=
        if negb (m_used m) || negb (type_match msgtyp (m_mtype m)) then best
        else match best with
             | None => Some (i, m)
             | Some (j, b) => if better msgtyp m b then Some (i, m) else best
             end in
      select_loop msgtyp msgs' (S i) best'
  end.

Definition dequeue (e : ipc_env) (slot : nat) (m : msg_entry) (q : msg_queue) : msg_queue :=
  mkQ (q_used q) (q_key q) (q_ns q) (q_perm q)
    (<[slot := mkMsg false (m_mtype m) (m_size m) (m_seq m) None]> (q_msgs q)) (q_next_seq q)
    (q_qbytes q) (u64 (q_cbytes q - m_size m)) (q_stime q) (now e) (q_ctime q) (q_lspid q) (u32 (cur_pid e)).

(** One round; the third component is the type and the bytes handed over. *)
Definition msgrcv_attempt (e : ipc_env) (st : msg_state) (msqid msgtyp size msgflg : Z)
    : option Z * msg_state * option (Z * list Z) :=
  if negb (msg_id_valid e st msqid) then (Some (- EINVAL), st, None)
  else if msg_access e st msqid 256 <>? 0 then (Some (- EACCES), st, None)
  else
    match select_loop msgtyp (q_msgs (queue st msqid)) 0 None with
    | Some (slot, m) =>
        if (size <? m_size m) && negb (msgflg &? SYSV_MSG_NOERROR) then (Some (- E2BIG), st, None)
        else
          let n := if size <? m_size m then size else m_size m in
          (Some n, upd_queue (dequeue e slot m) msqid st,
           Some (m_mtype m, take (Z.to_nat n) (default [] (m_text m))))
    | None => (None, st, None)
    end.

Fixpoint msgrcv_loop (e : ipc_env) (msqid msgtyp size msgflg : Z) (pauses : list pause)
    (st : msg_state) : option Z * msg_state * option (Z * list Z) :=
  match msgrcv_attempt e st msqid msgtyp size msgflg with
  | (Some rc, st', out) => (Some rc, st', out)
  | (None, st', _) =>
      if msgflg &? SYSV_IPC_NOWAIT then (Some (- ENOMSG), st', None)
      else match pauses with
           | [] => (None, st', None)
           | Interrupted :: _ => (Some (- ERESTARTNOHAND), st', None)
           | Slept f :: pauses' => msgrcv_loop e msqid msgtyp size msgflg pauses' (f st')
           end
  end.
Definition sysv_msgrcv := msgrcv_loop.

(** ** msgctl *)

Record msqid_info := mkMsgInfo {
  mi_perm : ipc_perm; mi_stime : Z; mi_rtime : Z; mi_ctime : Z; mi_qnum : Z;
  mi_qbytes : Z; mi_cbytes : Z; mi_lspid : Z; mi_lrpid : Z }.
Definition msg_info_of (q : msg_queue) : msqid_info :=
  mkMsgInfo (q_perm q) (q_stime q) (q_rtime q) (q_ctime q) (Z.of_nat (count_if m_used (q_msgs q)))
    (q_qbytes q) (q_cbytes q) (q_lspid q) (q_lrpid q).

Definition sysv_msgctl_stat (e : ipc_env) (st : msg_state) (msqid : Z) : Z * option msqid_info :=
  if negb (msg_id_valid e st msqid) then (- EINVAL, None)
  else if msg_access e st msqid 256 <>? 0 then (- EACCES, None)
  else (0, Some (msg_info_of (queue st msqid))).
Definition sysv_msg_stat_index (e : ipc_env) (st : msg_state) (idx : Z) : Z * option msqid_info :=
  if negb (msg_id_valid e st idx) then (- EINVAL, None) else (0, Some (msg_info_of (queue st idx))).

Definition set_ownership (e : ipc_env) (uid gid mode qbytes : Z) (q : msg_queue) : msg_queue :=
  mkQ (q_used q) (q_key q) (q_ns q)
    (mkPerm uid gid (p_cuid (q_perm q)) (p_cgid (q_perm q)) (Z.land mode 511) (p_seq (q_perm q)) (p_key (q_perm q)))
    (q_msgs q) (q_next_seq q) (if qbytes <>? 0 then qbytes else q_qbytes q) (q_cbytes q)
    (q_stime q) (q_rtime q) (now e) (q_lspid q) (q_lrpid q).
Definition sysv_msgctl_set (e : ipc_env) (st : msg_state) (msqid uid gid mode qbytes : Z) : Z * msg_state :=
  if negb (msg_id_valid e st msqid) then (- EINVAL, st)
  else if negb (msg_may_control e (queue st msqid)) then (- EPERM, st)
  else if (q_qbytes (queue st msqid) <? qbytes)
          && negb (UserNs.ns_capable_cred (user_table e) (cur_cred e)
                     (ipc_namespace_owner e (q_ns (queue st msqid))) Cred.CAP_SYS_RESOURCE)
  then (- EPERM, st)
  else (0, upd_queue (set_ownership e uid gid mode qbytes) msqid st).

(** Every message freed, the queue unused. *)
Definition release_queue (q : msg_queue) : msg_queue :=
  mkQ false (q_key q) (q_ns q) (q_perm q)
    (map (fun m => mkMsg false (m_mtype m) (m_size m) (m_seq m) None) (q_msgs q)) (q_next_seq q)
    (q_qbytes q) (q_cbytes q) (q_stime q) (q_rtime q) (q_ctime q) (q_lspid q) (q_lrpid q).
(** The buffers a release hands to [kfree]. *)
Definition release_frees (q : msg_queue) : list (list Z) :=
  omap (fun m => if m_used m then m_text m else None) (q_msgs q).

Definition sysv_msgctl_rmid (e : ipc_env) (st : msg_state) (msqid : Z) : Z * msg_state * list (list Z) :=
  if negb (msg_id_valid e st msqid) then (- EINVAL, st, [])
  else if negb (msg_may_control e (queue st msqid)) then (- EPERM, st, [])
  else (0, upd_queue release_queue msqid st, release_frees (queue st msqid)).

Definition msg_destroy_one (ns i : Z) (st : msg_state) : msg_state :=
  if q_used (queue st i) && (q_ns (queue st i) =? ns) then upd_queue release_queue i st else st.
Definition sysv_msg_ns_destroy (ns : Z) (st : msg_state) : msg_state :=
  fold_left (fun st i => msg_destroy_one ns i st) (map Z.of_nat (seq 0 16)) st.

End SysvMsg.
