(* ===== verification/SysvMsgProofs.v ===== *)
(** Properties of the message-queue model: the invariant of the table, and the
    refinement of each queue to a list of messages in arrival order, from which
    msgrcv takes by type. *)
From stdpp Require Import sorting.
From S2P Require Import Prelude Cred UserNs UserNsProofs IpcNs SysvMsg.
Local Open Scope Z_scope.
Local Open Scope kernel_scope.

Module SysvMsgProofs.
Import IpcNs SysvMsg.

(** ** The abstract queue *)

Definition seq_le (a b : msg_entry) : Prop := m_seq a <= m_seq b.
#[global] Instance seq_le_dec : RelDecision seq_le.
Proof. intros a b. unfold seq_le. apply _. Defined.
#[global] Instance seq_le_total : Total seq_le.
Proof. intros a b. unfold seq_le. lia. Qed.
#[global] Instance seq_le_trans : Transitive seq_le.
Proof. intros a b c. unfold seq_le. lia. Qed.

(** The queued entries in arrival order, and what they hold. *)
Definition arrivals (q : msg_queue) : list msg_entry := merge_sort seq_le (List.filter m_used (q_msgs q)).
Definition payload (m : msg_entry) : Z * list Z := (m_mtype m, default [] (m_text m)).
Definition contents (q : msg_queue) : list (Z * list Z) := map payload (arrivals q).

(** The specification of a receive on a list.  Type 0 asks for any message, a
    positive type for messages of that type, a negative one for messages of a
    type up to its magnitude; of these the first is taken, for a negative type
    the first of the lowest type there is. *)
Definition wanted (msgtyp t : Z) : bool := (msgtyp =? 0) || (t =? msgtyp) || ((msgtyp <? 0) && (t <=? - msgtyp)).
Fixpoint lowest_type (f : Z -> bool) (l : list (Z * list Z)) : option Z :=
  match l with
  | [] => None
  | p :: l' => if f p.1 then Some (match lowest_type f l' with None => p.1 | Some t => Z.min p.1 t end)
               else lowest_type f l'
  end.
Definition select_by (f : Z -> bool) (msgtyp : Z) (l : list (Z * list Z)) : option nat :=
  if msgtyp <? 0
  then match lowest_type f l with None => None | Some t => first_index (fun p => p.1 =? t) l end
  else first_index (fun p => f p.1) l.
Definition spec_select (msgtyp : Z) (l : list (Z * list Z)) : option nat := select_by (wanted msgtyp) msgtyp l.

(** ** The invariant *)

Definition used_sum (q : msg_queue) : Z := foldr (fun m a => m_size m + a) 0 (List.filter m_used (q_msgs q)).

Definition entry_ok (q : msg_queue) (m : msg_entry) : Prop :=
  if m_used m
  then 1 <= m_mtype m /\ 0 <= m_size m <= MSGMAX /\ 0 <= m_seq m < q_next_seq q
       /\ exists text, m_text m = Some text /\ m_size m = Z.of_nat (length text)
  else m_text m = None.
Definition seqs_distinct (l : list msg_entry) : Prop :=
  forall i j a b, l !! i = Some a -> l !! j = Some b ->
    m_used a = true -> m_used b = true -> m_seq a = m_seq b -> i = j.

Record queue_ok (q : msg_queue) : Prop := {
  q_len : length (q_msgs q) = 32%nat;
  q_entries : Forall (entry_ok q) (q_msgs q);
  q_distinct : seqs_distinct (q_msgs q);
  q_seq_range : 0 <= q_next_seq q < U64_MOD;
  q_bytes : q_used q = true -> q_cbytes q = used_sum q;
  q_empty : q_used q = false -> Forall (fun m => m_used m = false) (q_msgs q) }.

Definition in_queues (i : Z) : Prop := 0 <= i < MSGMNI.
Record msg_inv (st : msg_state) : Prop := {
  mi_len : length (g_queues st) = 16%nat;
  mi_queue : forall i, in_queues i -> queue_ok (queue st i);
  mi_keys : forall i j, in_queues i -> in_queues j ->
    q_used (queue st i) = true -> q_used (queue st j) = true ->
    q_key (queue st i) = q_key (queue st j) -> q_ns (queue st i) = q_ns (queue st j) ->
    q_key (queue st i) <> 0 -> i = j }.

(** ** Changing one entry of a queue *)

Section Filtering.
Context {A : Type} (p : A -> bool).
Lemma filter_insert_take l i x y :
  l !! i = Some x -> p x = true -> p y = false ->
  List.filter p l ≡ₚ x :: List.filter p (<[i := y]> l).
Proof.
  intros Hi Hx Hy. rewrite insert_take_drop by by eapply lookup_lt_Some.
  rewrite <- (take_drop_middle l i x Hi) at 1. rewrite !List.filter_app. simpl. rewrite Hx, Hy.
  by rewrite Permutation_middle.
Qed.
Lemma filter_insert_put l i x y :
  l !! i = Some x -> p x = false -> p y = true ->
  List.filter p (<[i := y]> l) ≡ₚ y :: List.filter p l.
Proof.
  intros Hi Hx Hy. rewrite insert_take_drop by by eapply lookup_lt_Some.
  rewrite <- (take_drop_middle l i x Hi) at 3. rewrite !List.filter_app. simpl. rewrite Hx, Hy.
  by rewrite Permutation_middle.
Qed.
End Filtering.

Lemma sizes_perm (l k : list msg_entry) : l ≡ₚ k ->
  foldr (fun m a => m_size m + a) 0 l = foldr (fun m a => m_size m + a) 0 k.
Proof. induction 1; simpl; lia. Qed.

Lemma used_in q m : m ∈ List.filter m_used (q_msgs q) <-> m ∈ q_msgs q /\ m_used m = true.
Proof. rewrite !list_elem_of_In. apply filter_In. Qed.

Lemma used_sum_bound q : queue_ok q -> 0 <= used_sum q <= 32 * MSGMAX.
Proof.
  intros Hq. unfold used_sum.
  assert (Hl : (length (List.filter m_used (q_msgs q)) <= 32)%nat).
  { rewrite <- (q_len _ Hq). apply filter_length_le. }
  assert (Ha : forall m, m ∈ List.filter m_used (q_msgs q) -> 0 <= m_size m <= MSGMAX).
  { intros m [Hm Hu]%used_in. apply list_elem_of_lookup in Hm as (i & Hi).
    pose proof (Forall_lookup_1 _ _ _ _ (q_entries _ Hq) Hi) as He. unfold entry_ok in He. rewrite Hu in He. apply He. }
  assert (H : forall l, (forall m, m ∈ l -> 0 <= m_size m <= MSGMAX) ->
    0 <= foldr (fun m a => m_size m + a) 0 l <= Z.of_nat (length l) * MSGMAX).
  { induction l as [|m l IH]; intros Hm; simpl; [lia|].
    pose proof (Hm m (list_elem_of_here _ _)). pose proof (IH (fun x Hx => Hm x (list_elem_of_further _ _ _ Hx))). lia. }
  specialize (H _ Ha). unfold MSGMAX in *. lia.
Qed.

Lemma arrivals_perm q : arrivals q ≡ₚ List.filter m_used (q_msgs q).
Proof. apply merge_sort_Permutation. Qed.
Lemma arrivals_sorted q : StronglySorted seq_le (arrivals q).
Proof. apply StronglySorted_merge_sort; apply _. Qed.

Lemma same_seq_same q a b :
  seqs_distinct (q_msgs q) -> a ∈ List.filter m_used (q_msgs q) -> b ∈ List.filter m_used (q_msgs q) ->
  seq_le a b -> seq_le b a -> a = b.
Proof.
  intros Hd [Ha Hua]%used_in [Hb Hub]%used_in. unfold seq_le. intros H1 H2.
  apply list_elem_of_lookup in Ha as (i & Hi), Hb as (j & Hj).
  assert (i = j) as -> by (eapply Hd; eauto; lia). congruence.
Qed.

(** The arrival order is the only sorted arrangement of the queued entries. *)
Lemma arrivals_unique q l :
  seqs_distinct (q_msgs q) -> l ≡ₚ List.filter m_used (q_msgs q) -> StronglySorted seq_le l -> arrivals q = l.
Proof.
  intros Hd Hp Hs. apply StronglySorted_unique_strong with (R := seq_le).
  - intros a b Ha Hb. apply (same_seq_same q); [done| |].
    + by rewrite <- arrivals_perm.
    + by rewrite <- Hp.
  - apply arrivals_sorted.
  - done.
  - by rewrite arrivals_perm.
Qed.

(** ** Sending appends *)

Lemma entry_ok_next q q' m : q_next_seq q <= q_next_seq q' -> entry_ok q m -> entry_ok q' m.
Proof. unfold entry_ok. intros Hn. case_match; [|done]. intros (? & ? & ? & ?). split_and!; try done; lia. Qed.

Lemma enqueue_ok e slot mtype text q :
  queue_ok q -> q_used q = true -> 1 <= mtype -> Z.of_nat (length text) <= MSGMAX ->
  q_next_seq q + 1 < U64_MOD ->
  first_index (fun m => negb (m_used m)) (q_msgs q) = Some slot ->
  queue_ok (enqueue e slot mtype text q)
  /\ arrivals (enqueue e slot mtype text q)
     = arrivals q ++ [mkMsg true mtype (Z.of_nat (length text)) (q_next_seq q) (Some text)].
Proof.
  intros Hq Hu Ht Hl Hn (x & Hx & Hfree & _)%first_index_Some. bools.
  set (new := mkMsg _ _ _ _ _). set (q' := enqueue e slot mtype text q).
  assert (Hns : q_next_seq q' = q_next_seq q + 1).
  { simpl. rewrite u64_small; [done|]. pose proof (q_seq_range _ Hq). lia. }
  assert (Hlt : forall m, m ∈ q_msgs q -> m_used m = true -> m_seq m < q_next_seq q).
  { intros m (i & Hi)%list_elem_of_lookup Hm. pose proof (Forall_lookup_1 _ _ _ _ (q_entries _ Hq) Hi) as He.
    unfold entry_ok in He. rewrite Hm in He. apply He. }
  assert (Hp : List.filter m_used (q_msgs q') ≡ₚ new :: List.filter m_used (q_msgs q))
    by by apply (filter_insert_put _ _ _ x).
  assert (Hd : seqs_distinct (q_msgs q')).
  { intros i j a b Hi Hj Ha Hb Hab. simpl in Hi, Hj.
    apply list_lookup_insert_Some in Hi as [(<- & <- & _)|[Hi1 Hi]];
      apply list_lookup_insert_Some in Hj as [(<- & <- & _)|[Hj1 Hj]]; try done.
    - pose proof (Hlt b (list_elem_of_lookup_2 _ _ _ Hj) Hb). simpl in Hab. lia.
    - pose proof (Hlt a (list_elem_of_lookup_2 _ _ _ Hi) Ha). simpl in Hab. lia.
    - by eapply (q_distinct _ Hq). }
  split.
  - constructor; try done.
    + simpl. rewrite length_insert. apply Hq.
    + simpl. apply Forall_insert.
      * eapply Forall_impl; [|apply (q_entries _ Hq)]. intros m. apply entry_ok_next. lia.
      * unfold entry_ok. fold new. unfold new. cbn [m_used m_mtype m_size m_seq m_text].
        pose proof (q_seq_range _ Hq). split_and!; try lia. by exists text.
    + rewrite Hns. pose proof (q_seq_range _ Hq). lia.
    + intros _. unfold used_sum. rewrite (sizes_perm _ _ Hp). simpl. fold (used_sum q).
      pose proof (used_sum_bound _ Hq). rewrite (q_bytes _ Hq Hu), u64_small; unfold MSGMAX in *; lia.
    + simpl. by rewrite Hu.
  - apply arrivals_unique; [done| |].
    + rewrite Hp, arrivals_perm. by rewrite Permutation_app_comm.
    + apply StronglySorted_app_2; [|apply arrivals_sorted|repeat constructor].
      intros a b Ha ->%list_elem_of_singleton. rewrite arrivals_perm in Ha. apply used_in in Ha as [Ha Hau].
      unfold seq_le. simpl. pose proof (Hlt a Ha Hau). lia.
Qed.

(** ** Receiving deletes *)

Lemma dequeue_ok e slot m q k :
  queue_ok q -> q_used q = true -> q_msgs q !! slot = Some m -> m_used m = true ->
  arrivals q !! k = Some m ->
  queue_ok (dequeue e slot m q) /\ arrivals (dequeue e slot m q) = delete k (arrivals q).
Proof.
  intros Hq Hu Hs Hm Hk. set (q' := dequeue e slot m q).
  assert (Hp : List.filter m_used (q_msgs q) ≡ₚ m :: List.filter m_used (q_msgs q')) by by apply filter_insert_take.
  assert (Hd : seqs_distinct (q_msgs q')).
  { intros i j a b Hi Hj Ha Hb Hab. simpl in Hi, Hj.
    apply list_lookup_insert_Some in Hi as [(_ & <- & _)|[Hi1 Hi]]; [done|].
    apply list_lookup_insert_Some in Hj as [(_ & <- & _)|[Hj1 Hj]]; [done|].
    by eapply (q_distinct _ Hq). }
  split.
  - constructor; try done.
    + simpl. rewrite length_insert. apply Hq.
    + simpl. apply Forall_insert; [|done]. eapply Forall_impl; [|apply (q_entries _ Hq)].
      intros x. by apply entry_ok_next.
    + apply Hq.
    + intros _. assert (Hsum : used_sum q = m_size m + used_sum q')
        by (unfold used_sum; by rewrite (sizes_perm _ _ Hp)).
      assert (Hm0 : 0 <= used_sum q').
      { assert (Hnn : forall l, (forall x, x ∈ l -> 0 <= m_size x) -> 0 <= foldr (fun m a => m_size m + a) 0 l).
        { induction l as [|x l IH]; intros Hx; simpl; [lia|]. pose proof (Hx x (list_elem_of_here _ _)).
          pose proof (IH (fun y Hy => Hx y (list_elem_of_further _ _ _ Hy))). lia. }
        apply Hnn. intros x Hx. assert (Hx' : x ∈ List.filter m_used (q_msgs q)) by (rewrite Hp; by right).
        apply used_in in Hx' as [Hx1 Hx2]. apply list_elem_of_lookup in Hx1 as (i & Hi).
        pose proof (Forall_lookup_1 _ _ _ _ (q_entries _ Hq) Hi) as He. unfold entry_ok in He. rewrite Hx2 in He. lia. }
      pose proof (used_sum_bound _ Hq). pose proof (Forall_lookup_1 _ _ _ _ (q_entries _ Hq) Hs) as He.
      unfold entry_ok in He. rewrite Hm in He. simpl. rewrite (q_bytes _ Hq Hu), u64_small; unfold MSGMAX in *; lia.
    + simpl. by rewrite Hu.
  - apply arrivals_unique; [done| |].
    + apply (Permutation_cons_inv (a := m)). rewrite <- Hp, <- arrivals_perm. symmetry. by apply delete_Permutation.
    + clear - Hk. pose proof (arrivals_sorted q) as Hss. revert k Hk Hss. generalize (arrivals q) as l.
      induction l as [|x l IH]; intros [|k] Hk Hss; simpl; [done|done|by apply StronglySorted_inv in Hss as [? _]|].
      apply StronglySorted_inv in Hss as [H1 H2]. constructor; [by eapply IH|].
      by apply Forall_delete.
Qed.

(** ** Choosing a message *)

Lemma better_trans msgtyp a b c :
  better msgtyp a b = true -> better msgtyp b c = true -> better msgtyp a c = true.
Proof.
  unfold better. destruct (msgtyp <? 0); simpl.
  - destruct (Z.eqb_spec (m_mtype a) (m_mtype b)), (Z.eqb_spec (m_mtype b) (m_mtype c)),
      (Z.eqb_spec (m_mtype a) (m_mtype c)); simpl; rewrite !Z.ltb_lt; lia.
  - rewrite !Z.ltb_lt. lia.
Qed.
Lemma better_asym_seq msgtyp a b :
  better msgtyp a b = false -> better msgtyp b a = false -> seq_le a b /\ seq_le b a.
Proof.
  unfold better, seq_le. destruct (msgtyp <? 0); simpl; [|rewrite !Z.ltb_ge; lia].
  destruct (Z.eqb_spec (m_mtype a) (m_mtype b)), (Z.eqb_spec (m_mtype b) (m_mtype a));
    simpl; rewrite !Z.ltb_ge; lia.
Qed.

Definition candidate (msgtyp : Z) (m : msg_entry) : Prop := m_used m = true /\ type_match msgtyp (m_mtype m) = true.
(** [m] is a candidate of [l] and no other candidate is preferred to it. *)
Definition best_of (msgtyp : Z) (l : list msg_entry) (m : msg_entry) : Prop :=
  m ∈ l /\ candidate msgtyp m /\ forall x, x ∈ l -> candidate msgtyp x -> better msgtyp x m = false.

Lemma best_of_unique q msgtyp a b :
  seqs_distinct (q_msgs q) -> best_of msgtyp (q_msgs q) a -> best_of msgtyp (q_msgs q) b -> a = b.
Proof.
  intros Hd (Ha & Ca & Ba) (Hb & Cb & Bb).
  destruct (better_asym_seq msgtyp a b) as [H1 H2]; [by apply Bb|by apply Ba|].
  apply (same_seq_same q); try done; apply used_in; split; try done; [apply Ca|apply Cb].
Qed.

Lemma select_loop_spec msgtyp msgs : forall i best seen,
  (match best with
   | None => forall x, x ∈ seen -> ~ candidate msgtyp x
   | Some (j, b) => best_of msgtyp seen b /\ (seen ++ msgs) !! j = Some b end) ->
  length seen = i ->
  match select_loop msgtyp msgs i best with
  | None => forall x, x ∈ seen ++ msgs -> ~ candidate msgtyp x
  | Some (j, b) => best_of msgtyp (seen ++ msgs) b /\ (seen ++ msgs) !! j = Some b
  end.
Proof.
  induction msgs as [|m msgs IH]; intros i best seen Hb Hi; simpl; [by rewrite app_nil_r in *|].
  replace (seen ++ m :: msgs) with ((seen ++ [m]) ++ msgs) in * by (by rewrite <- app_assoc).
  assert (Hm : ((seen ++ [m]) ++ msgs) !! i = Some m)
    by (rewrite <- app_assoc; apply list_lookup_middle; lia).
  apply IH; [|rewrite length_app; simpl; lia].
  destruct (negb (m_used m) || negb (type_match msgtyp (m_mtype m))) eqn:E.
  - assert (Hnc : ~ candidate msgtyp m) by (intros [H1 H2]; by rewrite H1, H2 in E).
    destruct best as [[j b]|].
    + destruct Hb as [(H1 & H2 & H3) Hj]. split; [|done]. split_and!; [set_solver|done|].
      intros x [Hx|Hx]%elem_of_app Hc; [by apply H3|]. apply list_elem_of_singleton in Hx as ->. done.
    + intros x [Hx|Hx]%elem_of_app; [by apply Hb|]. by apply list_elem_of_singleton in Hx as ->.
  - bools. assert (Hc : candidate msgtyp m) by done. destruct best as [[j b]|].
    + destruct Hb as [(H1 & H2 & H3) Hj]. destruct (better msgtyp m b) eqn:Eb.
      * split; [|done]. split_and!; [set_solver|done|]. intros x [Hx|Hx]%elem_of_app Hcx.
        -- destruct (better msgtyp x m) eqn:Ex; [|done].
           specialize (H3 x Hx Hcx). by rewrite (better_trans _ _ _ _ Ex Eb) in H3.
        -- apply list_elem_of_singleton in Hx as ->. unfold better.
           rewrite Z.eqb_refl, andb_false_r. apply Z.ltb_irrefl.
      * split; [|done]. split_and!; [set_solver|done|]. intros x [Hx|Hx]%elem_of_app Hcx; [by apply H3|].
        by apply list_elem_of_singleton in Hx as ->.
    + split; [|done]. split_and!; [set_solver|done|]. intros x [Hx|Hx]%elem_of_app Hcx; [by destruct (Hb x Hx)|].
      apply list_elem_of_singleton in Hx as ->. unfold better. rewrite Z.eqb_refl, andb_false_r. apply Z.ltb_irrefl.
Qed.

(** The same choice on the arrival list. *)
Lemma lowest_type_spec f l :
  match lowest_type f l with
  | None => forall p, p ∈ l -> f p.1 = false
  | Some t => f t = true /\ (exists p, p ∈ l /\ p.1 = t) /\ forall p, p ∈ l -> f p.1 = true -> t <= p.1
  end.
Proof.
  induction l as [|a l IH]; simpl; [by intros ? ?%not_elem_of_nil|].
  destruct (f a.1) eqn:Ea.
  - destruct (lowest_type f l) as [t|].
    + destruct IH as (H1 & (p & Hp & Et) & H3). destruct (Z.min_spec a.1 t) as [[Hlt ->]|[Hge ->]].
      * split_and!; [done|exists a; split; [by left|done]|]. intros x [->|Hx]%elem_of_cons Hm; [lia|].
        specialize (H3 x Hx Hm). lia.
      * split_and!; [done|exists p; split; [by right|done]|]. intros x [->|Hx]%elem_of_cons Hm; [lia|by apply H3].
    + split_and!; [done|exists a; split; [by left|done]|]. intros x [->|Hx]%elem_of_cons Hm; [done|].
      by rewrite IH in Hm.
  - destruct (lowest_type f l) as [t|].
    + destruct IH as (H1 & (p & Hp & Et) & H3). split_and!; [done|exists p; split; [by right|done]|].
      intros x [->|Hx]%elem_of_cons Hm; [congruence|by apply H3].
    + intros x [->|Hx]%elem_of_cons; [done|by apply IH].
Qed.

Lemma sorted_lookup_le (l : list msg_entry) i j a b :
  StronglySorted seq_le l -> l !! i = Some a -> l !! j = Some b -> (i <= j)%nat -> seq_le a b.
Proof.
  intros Hs. revert i j. induction Hs as [|x l Hs IH Hx]; intros i j Hi Hj Hij; [by rewrite lookup_nil in Hi|].
  destruct i as [|i], j as [|j]; simplify_eq/=; [unfold seq_le; lia| |lia|eapply IH; eauto; lia].
  by eapply Forall_lookup_1.
Qed.

Lemma contents_lookup q k p : contents q !! k = Some p -> exists m, arrivals q !! k = Some m /\ payload m = p.
Proof.
  unfold contents. change (map payload) with (fmap (M := list) payload). rewrite list_lookup_fmap.
  destruct (arrivals q !! k) as [m|] eqn:E; simpl; [|done]. intros H. exists m. split; [done|]. congruence.
Qed.
Lemma contents_in q m : m ∈ arrivals q -> payload m ∈ contents q.
Proof. intros H. unfold contents. by apply list_elem_of_fmap_2. Qed.

Lemma arrivals_in q m : m ∈ arrivals q <-> m ∈ q_msgs q /\ m_used m = true.
Proof. rewrite arrivals_perm. apply used_in. Qed.

(** [select_by] picks the best candidate of the code's match. *)
Lemma select_by_spec q msgtyp :
  match select_by (type_match msgtyp) msgtyp (contents q) with
  | None => forall x, x ∈ q_msgs q -> ~ candidate msgtyp x
  | Some k => exists m, arrivals q !! k = Some m /\ best_of msgtyp (q_msgs q) m
  end.
Proof.
  pose proof (arrivals_sorted q) as Hss. unfold select_by.
  assert (Hcand : forall x, x ∈ q_msgs q -> candidate msgtyp x ->
            exists j, arrivals q !! j = Some x /\ contents q !! j = Some (payload x)).
  { intros x Hx [Hu _]. assert (Hin : x ∈ arrivals q) by by apply arrivals_in.
    apply list_elem_of_lookup in Hin as (j & Hj). exists j. split; [done|].
    unfold contents. change (map payload) with (fmap (M := list) payload). by rewrite list_lookup_fmap, Hj. }
  destruct (Z.ltb_spec msgtyp 0) as [Hneg|Hpos].
  - pose proof (lowest_type_spec (type_match msgtyp) (contents q)) as Hlow.
    destruct (lowest_type (type_match msgtyp) (contents q)) as [t|].
    + destruct Hlow as (Hmt & (p0 & Hp0 & Et0) & Hmin).
      destruct (first_index (fun p => p.1 =? t) (contents q)) as [k|] eqn:Ek.
      * apply first_index_Some in Ek as (p & Hk & Hpt & Hfirst). bools.
        destruct (contents_lookup _ _ _ Hk) as (m & Hm & Epm). exists m. split; [done|].
        assert (Hma : m ∈ arrivals q) by by eapply list_elem_of_lookup_2. apply arrivals_in in Hma as [Hmq Hmu].
        assert (Emt : m_mtype m = t) by by rewrite <- Epm in Hpt.
        split_and!; [done|split; [done|by rewrite Emt]|]. intros x Hx Hc.
        destruct (Hcand x Hx Hc) as (j & Hj & Hpj). unfold better. rewrite (proj2 (Z.ltb_lt msgtyp 0)) by done. simpl.
        assert (Hle : t <= m_mtype x) by (apply (Hmin (payload x)); [by eapply list_elem_of_lookup_2|apply Hc]).
        destruct (Z.eqb_spec (m_mtype x) (m_mtype m)) as [Ex|]; simpl; [|apply Z.ltb_ge; lia].
        apply Z.ltb_ge. destruct (Nat.lt_ge_cases j k) as [Hlt|Hge].
        -- specialize (Hfirst j _ Hlt Hpj). simpl in Hfirst. bools. congruence.
        -- apply (sorted_lookup_le _ k j _ _ Hss Hm Hj Hge).
      * exfalso. apply list_elem_of_lookup in Hp0 as (j & Hj). rewrite first_index_None in Ek.
        specialize (Ek j p0 Hj). simpl in Ek. bools. done.
    + intros x Hx Hc. destruct (Hcand x Hx Hc) as (j & _ & Hpj).
      specialize (Hlow (payload x) (list_elem_of_lookup_2 _ _ _ Hpj)). simpl in Hlow. destruct Hc. congruence.
  - destruct (first_index _ (contents q)) as [k|] eqn:Ek.
    + apply first_index_Some in Ek as (p & Hk & Hpt & Hfirst).
      destruct (contents_lookup _ _ _ Hk) as (m & Hm & Epm). exists m. split; [done|].
      assert (Hma : m ∈ arrivals q) by by eapply list_elem_of_lookup_2. apply arrivals_in in Hma as [Hmq Hmu].
      split_and!; [done|split; [done|by rewrite <- Epm in Hpt]|]. intros x Hx Hc.
      destruct (Hcand x Hx Hc) as (j & Hj & Hpj). unfold better. rewrite (proj2 (Z.ltb_ge msgtyp 0)) by done. simpl.
      apply Z.ltb_ge. destruct (Nat.lt_ge_cases j k) as [Hlt|Hge].
      * specialize (Hfirst j _ Hlt Hpj). simpl in Hfirst. destruct Hc. congruence.
      * apply (sorted_lookup_le _ k j _ _ Hss Hm Hj Hge).
    + intros x Hx Hc. destruct (Hcand x Hx Hc) as (j & _ & Hpj). rewrite first_index_None in Ek.
      specialize (Ek j _ Hpj). simpl in Ek. destruct Hc. congruence.
Qed.

(** The scan of the slots and the specification agree. *)
Lemma select_refines q msgtyp :
  queue_ok q ->
  match select_loop msgtyp (q_msgs q) 0 None with
  | None => select_by (type_match msgtyp) msgtyp (contents q) = None
  | Some (slot, m) => q_msgs q !! slot = Some m /\ m_used m = true
      /\ exists k, select_by (type_match msgtyp) msgtyp (contents q) = Some k /\ arrivals q !! k = Some m
  end.
Proof.
  intros Hq. pose proof (select_by_spec q msgtyp) as Hsp.
  pose proof (select_loop_spec msgtyp (q_msgs q) 0 None [] ltac:(by intros ? ?%not_elem_of_nil) eq_refl) as Hl.
  simpl in Hl. destruct (select_loop _ _ _ _) as [[slot m]|].
  - destruct Hl as [Hb Hs]. split_and!; [done|apply Hb|]. destruct (select_by _ _ _) as [k|].
    + exists k. split; [done|]. destruct Hsp as (m' & Hk & Hb'). by rewrite (best_of_unique q msgtyp m m' (q_distinct _ Hq)).
    + exfalso. destruct Hb as (Hm & Hc & _). by apply (Hsp m).
  - destruct (select_by _ _ _) as [k|]; [|done]. destruct Hsp as (m' & _ & (Hm & Hc & _)). by destruct (Hl m').
Qed.

(** The code's match is the one of the specification, but for the most negative
    type, which has no negation. *)
Lemma type_match_wanted msgtyp t : - 2 ^ 63 < msgtyp < 2 ^ 63 -> type_match msgtyp t = wanted msgtyp t.
Proof.
  intros Hr. unfold type_match, wanted. destruct (Z.eqb_spec msgtyp 0); [done|]. simpl.
  destruct (Z.ltb_spec 0 msgtyp).
  - rewrite (proj2 (Z.ltb_ge msgtyp 0)) by lia. by rewrite orb_false_r.
  - assert (i64 (- msgtyp) = - msgtyp) as -> by (unfold i64; rewrite Z.mod_small; lia).
    rewrite (proj2 (Z.ltb_lt msgtyp 0)) by lia. destruct (Z.eqb_spec t msgtyp); [|done]. apply Z.leb_le. lia.
Qed.
Lemma select_by_ext f g msgtyp l : (forall t, f t = g t) -> select_by f msgtyp l = select_by g msgtyp l.
Proof.
  intros Hfg. unfold select_by. assert (El : lowest_type f l = lowest_type g l).
  { induction l as [|p l IH]; simpl; [done|]. by rewrite Hfg, IH. }
  rewrite El. destruct (msgtyp <? 0); [done|]. clear El. induction l as [|p l IH]; simpl; [done|]. by rewrite Hfg, IH.
Qed.

(** ** The table *)

Lemma queue_upd st f i j :
  length (g_queues st) = 16%nat -> in_queues i -> in_queues j ->
  queue (upd_queue f i st) j = if decide (j = i) then f (queue st i) else queue st j.
Proof.
  unfold in_queues, MSGMNI. intros Hl Hi Hj. unfold queue. simpl.
  destruct (decide (j = i)) as [->|Hne]; [apply zget_zalter_eq; lia|apply zget_zalter_ne; lia].
Qed.
Lemma msg_valid e st i : msg_id_valid e st i = true ->
  in_queues i /\ q_used (queue st i) = true /\ q_ns (queue st i) = cur_ns e.
Proof. unfold msg_id_valid, in_queues, ipc_current_ns. intros H. bools. auto. Qed.

(** Updates that keep the identity of a queue, or free it. *)
Definition same_queue (q q' : msg_queue) : Prop :=
  q_used q' = false \/ q_used q' = q_used q /\ q_key q' = q_key q /\ q_ns q' = q_ns q.

Lemma inv_upd_queue st f i :
  msg_inv st -> in_queues i -> same_queue (queue st i) (f (queue st i)) -> queue_ok (f (queue st i)) ->
  msg_inv (upd_queue f i st).
Proof.
  intros Hi Hr Hs Hok. constructor.
  - simpl. rewrite length_zalter. apply Hi.
  - intros j Hj. rewrite queue_upd by (done || apply Hi). destruct (decide _); [done|by apply Hi].
  - intros a b Ha Hb. rewrite !queue_upd by (done || apply Hi).
    pose proof (mi_keys _ Hi) as Hk. unfold same_queue in Hs.
    destruct (decide (a = i)) as [->|], (decide (b = i)) as [->|]; try done; intros Hua Hub Hkk Hns H0.
    + destruct Hs as [|(E1 & E2 & E3)]; [congruence|]. apply Hk; congruence.
    + destruct Hs as [|(E1 & E2 & E3)]; [congruence|]. apply Hk; congruence.
    + by apply Hk.
Qed.

Lemma release_ok q : queue_ok q -> queue_ok (release_queue q).
Proof.
  intros Hq. constructor; simpl; try done; try apply Hq.
  - rewrite length_map. apply Hq.
  - apply Forall_fmap, Forall_true. by intros.
  - intros i j a b Hi. change (map ?f) with (fmap (M := list) f) in Hi. rewrite list_lookup_fmap in Hi.
    destruct (q_msgs q !! i); simplify_eq/=. done.
  - intros _. apply Forall_fmap, Forall_true. by intros.
Qed.
Lemma set_ownership_ok e uid gid mode qb q : queue_ok q -> queue_ok (set_ownership e uid gid mode qb q).
Proof. intros []. by constructor. Qed.

Lemma new_queue_ok e key flg seq : queue_ok (new_queue e key flg seq).
Proof.
  constructor; try done.
  - apply Forall_replicate. done.
  - intros i j a b Hi _ Ha. cbn [new_queue q_msgs] in Hi. apply lookup_replicate in Hi as [-> _]. done.
Qed.

Lemma msgsnd_attempt_cases e st msqid mtype text r st' :
  msg_inv st -> 1 <= mtype -> Z.of_nat (length text) <= MSGMAX ->
  q_next_seq (queue st msqid) + 1 < U64_MOD ->
  msgsnd_attempt e st msqid mtype text = (r, st') ->
  st' = st /\ (forall n, r = Some n -> n < 0)
  \/ msg_id_valid e st msqid = true /\ r = Some (Z.of_nat (length text)) /\ msg_inv st'
     /\ contents (queue st' msqid) = contents (queue st msqid) ++ [(mtype, text)]
     /\ forall j, in_queues j -> j <> msqid -> queue st' j = queue st j.
Proof.
  intros Hi Ht Hl Hn H. unfold msgsnd_attempt in H.
  destruct (msg_id_valid e st msqid) eqn:Hv; simpl in H; [|simplify_eq; left; split; [done|by intros ? [= <-]]].
  destruct (_ =? 0); simpl in H; [|simplify_eq; left; split; [done|by intros ? [= <-]]].
  destruct (first_index _ _) as [slot|] eqn:E in H; [|simplify_eq; by left].
  destruct (_ <=? _) in H; simplify_eq; [right|by left].
  destruct (msg_valid _ _ _ Hv) as (Hr & Hu & _).
  destruct (enqueue_ok e slot mtype text _ (mi_queue _ Hi _ Hr) Hu Ht Hl Hn E) as [Hok Ha].
  split_and!; [done|done| | |].
  - apply inv_upd_queue; [done|done|right; done|done].
  - rewrite queue_upd by (done || apply Hi). rewrite decide_True by done.
    unfold contents. by rewrite Ha, map_app.
  - intros j Hj Hne. rewrite queue_upd by (done || apply Hi). by rewrite decide_False.
Qed.

(** What a receive does to the list of messages. *)
Definition received (choice : list (Z * list Z) -> option nat) (st : msg_state) (msqid size flg : Z) (r : option Z)
    (st' : msg_state) (out : option (Z * list Z)) : Prop :=
  match choice (contents (queue st msqid)) with
  | None => r = None /\ st' = st
  | Some k => exists t text, contents (queue st msqid) !! k = Some (t, text)
      /\ (if (size <? Z.of_nat (length text)) && negb (flg &? SYSV_MSG_NOERROR)
          then r = Some (- E2BIG) /\ st' = st
          else r = Some (Z.min size (Z.of_nat (length text)))
               /\ out = Some (t, take (Z.to_nat (Z.min size (Z.of_nat (length text)))) text)
               /\ contents (queue st' msqid) = delete k (contents (queue st msqid)))
  end.

Lemma msgrcv_attempt_cases e st msqid msgtyp size flg r st' out :
  msg_inv st -> msgrcv_attempt e st msqid msgtyp size flg = (r, st', out) ->
  msg_inv st' /\ (forall j, in_queues j -> j <> msqid -> queue st' j = queue st j)
  /\ (if msg_id_valid e st msqid && (msg_access e st msqid 256 =? 0)
      then received (select_by (type_match msgtyp) msgtyp) st msqid size flg r st' out
      else st' = st /\ out = None).
Proof.
  intros Hi H. unfold msgrcv_attempt in H.
  destruct (msg_id_valid e st msqid) eqn:Hv; simpl in H |- *; [|by simplify_eq].
  destruct (_ =? 0); simpl in H; [|by simplify_eq]. unfold received.
  destruct (msg_valid _ _ _ Hv) as (Hr & Hu & _). assert (Hq := mi_queue _ Hi _ Hr).
  pose proof (select_refines _ msgtyp Hq) as Hsel.
  destruct (select_loop _ _ _ _) as [[slot m]|]; [|rewrite Hsel; by simplify_eq].
  destruct Hsel as (Hs & Hm & k & Hk & Ha). rewrite Hk.
  pose proof (Forall_lookup_1 _ _ _ _ (q_entries _ Hq) Hs) as He. unfold entry_ok in He. rewrite Hm in He.
  destruct He as (_ & _ & _ & text & Etext & Esize).
  assert (Hc : contents (queue st msqid) !! k = Some (m_mtype m, text)).
  { unfold contents. change (map payload) with (fmap (M := list) payload). rewrite list_lookup_fmap, Ha. simpl.
    unfold payload. by rewrite Etext. }
  rewrite Esize in H. destruct (_ && _) eqn:Eb in H.
  { simplify_eq. split_and!; try done. exists (m_mtype m), text. by rewrite Eb. }
  injection H as <- <- <-. destruct (dequeue_ok e slot m _ k Hq Hu Hs Hm Ha) as [Hok Harr].
  split_and!; [apply inv_upd_queue; [done|done|by right|done]| |].
  - intros j Hj Hne. rewrite queue_upd by (done || apply Hi). by rewrite decide_False.
  - exists (m_mtype m), text. rewrite Eb, Etext. split; [done|].
    assert (Emin : (if size <? Z.of_nat (length text) then size else Z.of_nat (length text))
                   = Z.min size (Z.of_nat (length text)))
      by (destruct (Z.ltb_spec size (Z.of_nat (length text))); lia).
    rewrite Emin. split_and!; [done|done|].
    rewrite queue_upd by (done || apply Hi). rewrite decide_True by done. unfold contents. rewrite Harr.
    change (map payload) with (fmap (M := list) payload). apply list_fmap_delete.
Qed.

Lemma msgget_preserves e st key flg rc st' :
  msg_inv st -> sysv_msgget e st key flg = (rc, st') -> msg_inv st'.
Proof.
  intros Hi H.
  assert (Hcreate : (key <> 0 -> first_index (msg_key_matches (ipc_current_ns e) key) (g_queues st) = None) ->
            msg_create e st key flg = (rc, st') -> msg_inv st').
  { intros Hk Hc. unfold msg_create in Hc. destruct (first_index _ _) as [i|] eqn:E in Hc; [|by simplify_eq].
    injection Hc as _ <-. apply first_index_lt in E. rewrite (mi_len _ Hi) in E.
    set (st1 := mkMs _ _). assert (Hst : forall j, in_queues j -> queue st1 j
       = if decide (j = Z.of_nat i) then new_queue e key flg (g_mseq st) else queue st j).
    { unfold in_queues, MSGMNI. intros j Hj. unfold queue, zget, st1; simpl. destruct (decide _) as [->|Hne].
      - rewrite Nat2Z.id. apply list_lookup_total_insert_eq. rewrite (mi_len _ Hi). lia.
      - rewrite list_lookup_total_insert_ne; [done|]. lia. }
    assert (Hno : forall j, in_queues j -> q_used (queue st j) = true -> q_key (queue st j) = key ->
              q_ns (queue st j) = ipc_current_ns e -> key <> 0 -> False).
    { unfold in_queues, MSGMNI. intros j Hj Hu Hkj Hnj H0. specialize (Hk H0). rewrite first_index_None in Hk.
      specialize (Hk (Z.to_nat j) (queue st j)). unfold msg_key_matches in Hk.
      rewrite Hu, Hkj, Hnj, !Z.eqb_refl in Hk. assert (true && true && true = false) as [=]; apply Hk.
      apply zget_lookup. rewrite (mi_len _ Hi). lia. }
    constructor.
    - simpl. rewrite length_insert. apply Hi.
    - intros j Hj. rewrite Hst by done. destruct (decide _); [apply new_queue_ok|by apply Hi].
    - intros a b Ha Hb. rewrite !Hst by done.
      destruct (decide (a = Z.of_nat i)) as [->|], (decide (b = Z.of_nat i)) as [->|]; simpl; intros; try done.
      + exfalso. by eapply (Hno b).
      + exfalso. eapply (Hno a); try done. congruence.
      + by apply (mi_keys _ Hi). }
  unfold sysv_msgget in H. destruct (Z.eqb_spec key 0); simpl in H; [by apply Hcreate|].
  destruct (first_index _ _) as [i|] eqn:E in H; [|destruct (flg &? IPC_CREAT); [by apply Hcreate|by simplify_eq]].
  destruct (_ && _) in H; [by simplify_eq|]. destruct (_ =? 0) in H; by simplify_eq/=.
Qed.

(** ** Reachable tables *)

Inductive msg_step (st st' : msg_state) : Prop :=
| ms_get e key flg rc : sysv_msgget e st key flg = (rc, st') -> msg_step st st'
| ms_send e id mtype text r :
    1 <= mtype -> Z.of_nat (length text) <= MSGMAX -> q_next_seq (queue st id) + 1 < U64_MOD ->
    msgsnd_attempt e st id mtype text = (r, st') -> msg_step st st'
| ms_receive e id typ size flg r out : msgrcv_attempt e st id typ size flg = (r, st', out) -> msg_step st st'
| ms_set e id uid gid mode qb rc : sysv_msgctl_set e st id uid gid mode qb = (rc, st') -> msg_step st st'
| ms_rmid e id rc fr : sysv_msgctl_rmid e st id = (rc, st', fr) -> msg_step st st'
| ms_destroy ns i : in_queues i -> msg_destroy_one ns i st = st' -> msg_step st st'.

Lemma msg_step_preserves st st' : msg_step st st' -> msg_inv st -> msg_inv st'.
Proof.
  destruct 1 as [e key flg rc H|e id mtype text r H1 H2 H3 H|e id typ size flg r out H|e id uid gid mode qb rc H
                |e id rc fr H|ns i Hr H]; intros Hi.
  - by eapply msgget_preserves.
  - by destruct (msgsnd_attempt_cases _ _ _ _ _ _ _ Hi H1 H2 H3 H) as [[-> _]|(_ & _ & ? & _)].
  - by apply (msgrcv_attempt_cases _ _ _ _ _ _ _ _ _ Hi H).
  - unfold sysv_msgctl_set in H. destruct (msg_id_valid e st id) eqn:Hv; simpl in H; [|by simplify_eq].
    destruct (msg_may_control _ _); simpl in H; [|by simplify_eq]. destruct (_ && _) in H; simplify_eq; [done|].
    destruct (msg_valid _ _ _ Hv) as (Hr & _). apply inv_upd_queue; [done|done|by right|]. by apply set_ownership_ok, Hi.
  - unfold sysv_msgctl_rmid in H. destruct (msg_id_valid e st id) eqn:Hv; simpl in H; [|by simplify_eq].
    destruct (msg_may_control _ _); simpl in H; simplify_eq; [|done].
    destruct (msg_valid _ _ _ Hv) as (Hr & _). apply inv_upd_queue; [done|done|by left|]. by apply release_ok, Hi.
  - unfold msg_destroy_one in H. destruct (_ && _) in H; subst st'; [|done].
    apply inv_upd_queue; [done|done|by left|]. by apply release_ok, Hi.
Qed.

Lemma msg_inv_boot : msg_inv msg_boot.
Proof.
  assert (Hq : forall i, queue msg_boot i = queue_zero).
  { intros i. unfold queue, zget. change (g_queues msg_boot) with (replicate 16 queue_zero).
    rewrite list_lookup_total_alt. destruct (_ !! _) as [x|] eqn:E; [|done]. by apply lookup_replicate in E as [-> _]. }
  constructor; [done|intros i _; rewrite Hq|intros i j _ _; by rewrite Hq].
  constructor; try done.
  - apply Forall_replicate. done.
  - intros i' j a b Hi _ Ha. cbn [queue_zero q_msgs] in Hi. apply lookup_replicate in Hi as [-> _]. done.
  - intros _. apply Forall_replicate. done.
Qed.

Lemma msg_reachable_inv st : rtc msg_step msg_boot st -> msg_inv st.
Proof. intros H. exact (rtc_invariant _ msg_inv msg_step_preserves _ _ H msg_inv_boot). Qed.

(** ** Properties *)

(** C29 (invariant).  Over any sequence of operations every queue keeps its
    accounts: [cbytes] is the sum of the queued sizes, each queued message owns
    a text of its size and a free slot owns none (nothing leaks and nothing is
    freed twice), arrival numbers are distinct and below the next one, and no
    two live queues of a namespace share a key. *)
Theorem message_queues_sound st : rtc msg_step msg_boot st -> msg_inv st.
Proof. apply msg_reachable_inv. Qed.

(** C30 (refinement).  Receiving is what its documentation says on the list of
    messages in arrival order: the head for type 0, the first of a positive
    type, the first of the lowest type not above [-msgtyp] for a negative one.
    The message chosen, and only it, leaves the list and is returned, cut to
    the caller's buffer only with MSG_NOERROR; without a choice, or one too long
    for the buffer, nothing changes.  The type is any 64-bit value but the most
    negative one, whose negation C leaves undefined. *)
Theorem msgrcv_refines_selection e st msqid msgtyp size flg r st' out :
  rtc msg_step msg_boot st -> - 2 ^ 63 < msgtyp < 2 ^ 63 ->
  msg_id_valid e st msqid = true -> msg_access e st msqid 256 = 0 ->
  msgrcv_attempt e st msqid msgtyp size flg = (r, st', out) ->
  received (spec_select msgtyp) st msqid size flg r st' out
  /\ forall j, in_queues j -> j <> msqid -> queue st' j = queue st j.
Proof.
  intros Hi%msg_reachable_inv Hr Hv Ha H.
  destruct (msgrcv_attempt_cases _ _ _ _ _ _ _ _ _ Hi H) as (_ & Ho & Hs). rewrite Hv, Ha in Hs. split; [|done].
  unfold received, spec_select in *. rewrite <- (select_by_ext (type_match msgtyp) (wanted msgtyp)); [exact Hs|].
  intros t. by apply type_match_wanted.
Qed.

Lemma first_index_snoc {A} (p : A -> bool) l x :
  (forall y, y ∈ l -> p y = false) -> p x = true -> first_index p (l ++ [x]) = Some (length l).
Proof.
  induction l as [|a l IH]; intros Hl Hx; simpl; [by rewrite Hx|].
  rewrite (Hl a) by left. rewrite IH; [done| |done]. intros y Hy. apply Hl. by right.
Qed.

(** (Round trip.)  A message sent to a queue that holds no message of its type
    and asked for by that type comes back with the same type and bytes, and
    leaves the queue as it was; sending itself only appends to the list. *)
Theorem msgsnd_msgrcv_roundtrip e e' st msqid mtype text size flg n st1 r st2 out :
  rtc msg_step msg_boot st -> 1 <= mtype -> Z.of_nat (length text) <= MSGMAX ->
  q_next_seq (queue st msqid) + 1 < U64_MOD ->
  (forall p, p ∈ contents (queue st msqid) -> p.1 <> mtype) ->
  msgsnd_attempt e st msqid mtype text = (Some n, st1) -> 0 <= n ->
  msg_id_valid e' st1 msqid = true -> msg_access e' st1 msqid 256 = 0 ->
  Z.of_nat (length text) <= size ->
  msgrcv_attempt e' st1 msqid mtype size flg = (r, st2, out) ->
  n = Z.of_nat (length text) /\ r = Some n /\ out = Some (mtype, text)
  /\ contents (queue st1 msqid) = contents (queue st msqid) ++ [(mtype, text)]
  /\ contents (queue st2 msqid) = contents (queue st msqid).
Proof.
  intros Hi%msg_reachable_inv Ht Hl Hn Hno Hsnd Hn0 Hv Ha Hsz Hrcv.
  destruct (msgsnd_attempt_cases _ _ _ _ _ _ _ Hi Ht Hl Hn Hsnd) as [[_ Hneg]|(_ & Er & Hi1 & Hc & _)];
    [specialize (Hneg n eq_refl); lia|]. injection Er as ->.
  destruct (msgrcv_attempt_cases _ _ _ _ _ _ _ _ _ Hi1 Hrcv) as (_ & _ & Hs). rewrite Hv, Ha in Hs. simpl in Hs.
  unfold received, select_by in Hs. rewrite (proj2 (Z.ltb_ge mtype 0)), Hc in Hs by lia.
  assert (Hm : forall t, type_match mtype t = (t =? mtype)).
  { intros t. unfold type_match. rewrite (proj2 (Z.eqb_neq mtype 0)), (proj2 (Z.ltb_lt 0 mtype)) by lia. done. }
  rewrite first_index_snoc in Hs.
  - destruct Hs as (t & text' & Hlk & Hs). rewrite list_lookup_middle in Hlk by done. injection Hlk as <- <-.
    rewrite (proj2 (Z.ltb_ge _ _)), Z.min_r in Hs by lia. simpl in Hs. destruct Hs as (-> & -> & Hd).
    split_and!; try done; [by rewrite Nat2Z.id, firstn_all|]. by rewrite Hd, delete_middle, app_nil_r.
  - intros y Hy. rewrite Hm. apply Z.eqb_neq. by apply Hno.
  - rewrite Hm. apply Z.eqb_refl.
Qed.

(** ** A concrete run *)

Definition me : ipc_env := mkEnv None 0 7 100 UserNsProofs.ns_start (replicate 64 inhabitant).
Definition mst0 : msg_state := snd (sysv_msgget me msg_boot 42 (IPC_CREAT + 384)).
(** Messages of types 5, 2 and 2, in this order. *)
Definition mst1 : msg_state := snd (msgsnd_attempt me mst0 0 5 [1; 2]).
Definition mst2 : msg_state := snd (msgsnd_attempt me mst1 0 2 [3]).
Definition mst3 : msg_state := snd (msgsnd_attempt me mst2 0 2 [4]).

Lemma mst0_reachable : rtc msg_step msg_boot mst0.
Proof. eapply rtc_once, (ms_get _ _ me 42 (IPC_CREAT + 384)), surjective_pairing. Qed.
Lemma mst1_reachable : rtc msg_step msg_boot mst1.
Proof.
  eapply rtc_r; [apply mst0_reachable|].
  eapply (ms_send _ _ me 0 5 [1; 2]); [by vm_compute..|apply surjective_pairing].
Qed.
Lemma mst3_reachable : rtc msg_step msg_boot mst3.
Proof.
  eapply rtc_r; [eapply rtc_r; [apply mst1_reachable|]|].
  - eapply (ms_send _ mst2 me 0 2 [3]); [by vm_compute..|apply surjective_pairing].
  - eapply (ms_send _ _ me 0 2 [4]); [by vm_compute..|apply surjective_pairing].
Qed.

Lemma message_queues_sound_witness : msg_inv mst3.
Proof. apply (message_queues_sound mst3 mst3_reachable). Defined.

(** Type -4 takes the older of the two messages of type 2. *)
Lemma msgrcv_refines_selection_witness :
  contents (queue (snd (fst (msgrcv_attempt me mst3 0 (-4) 10 0))) 0) = [(5, [1; 2]); (2, [4])].
Proof.
  destruct (msgrcv_refines_selection me mst3 0 (-4) 10 0 (Some 1)
              (snd (fst (msgrcv_attempt me mst3 0 (-4) 10 0))) (Some (2, [3]))) as [H _];
    [apply mst3_reachable|lia|reflexivity|reflexivity|vm_compute; reflexivity|].
  unfold received in H.
  replace (spec_select (-4) (contents (queue mst3 0))) with (Some 1%nat) in H by (vm_compute; reflexivity).
  destruct H as (t & text & Hl & H).
  replace (contents (queue mst3 0)) with [(5, [1; 2]); (2, [3]); (2, [4])] in * by (vm_compute; reflexivity).
  simpl in Hl. injection Hl as <- <-. exact (proj2 (proj2 H)).
Defined.

Lemma msgsnd_msgrcv_roundtrip_witness :
  contents (queue (snd (fst (msgrcv_attempt me mst1 0 5 10 0))) 0) = contents (queue mst0 0).
Proof.
  apply (msgsnd_msgrcv_roundtrip me me mst0 0 5 [1; 2] 10 0 2 mst1 (Some 2)
           (snd (fst (msgrcv_attempt me mst1 0 5 10 0))) (Some (5, [1; 2])) mst0_reachable);
    try (by vm_compute).
  intros p Hp. exfalso. replace (contents (queue mst0 0)) with (@nil (Z * list Z)) in Hp by (vm_compute; reflexivity).
  by apply not_elem_of_nil in Hp.
Defined.

(** The most negative type, whose negation overflows, matches no message at all
    instead of every one. *)
Example most_negative_type_matches_nothing :
  fst (fst (msgrcv_loop me 0 (- 9223372036854775808) 10 SYSV_IPC_NOWAIT [] mst3)) = Some (- ENOMSG).
Proof. vm_compute. reflexivity. Qed.

End SysvMsgProofs.
