(* ===== verification/Mqueue.v ===== *)
(** POSIX message queues ([kernel/ipc/mqueue.c]).

    A queue is the data of a node in its namespace's directory.  The state is
    the table of nodes (an index stands for a pointer), the directory of each
    IPC namespace, the number of queues of each, and the open handles on
    nodes; counts and reference counts are kept as the code keeps them.
    Operations name a handle; the descriptor table is the scheduler's.  What
    the heap and the user copies answer is an input, and a blocking call takes
    the list of what happens around each of its sleeps. *)
From S2P Require Import Prelude Cred UserNs IpcNs.
Local Open Scope Z_scope.
Local Open Scope kernel_scope.

Module Mqueue.
Import Cred IpcNs.

Definition MQ_NAME_MAX := 255.
Definition VFS_NAME_MAX := 256.
Definition MQ_PRIO_MAX := 32768.
Definition MQ_MSG_DEFAULT := 10.
Definition MQ_MSGSIZE_DEFAULT := 8192.
Definition MQ_MSG_MAX := 10.
Definition MQ_MSGSIZE_MAX := 8192.
Definition MQ_MSG_HARDMAX := 65536.
Definition MQ_MSGSIZE_HARDMAX := 16 * 1024 * 1024.
Definition MQ_QUEUES_MAX := 256.
Definition SIGEV_SIGNAL := 0.
Definition SIGEV_NONE := 1.
Definition SIGEV_THREAD := 2.
Definition SI_MESGQ := -3.
Definition NOTIFY_COOKIE_LEN := 32.
Definition NOTIFY_WOKENUP := 1.
Definition NOTIFY_REMOVED := 2.
Definition NSIG_MAX := 63.
Definition O_RDONLY := 0.
Definition O_WRONLY := 1.
Definition O_CREAT := 64.
Definition O_EXCL := 128.
Definition O_NONBLOCK := 16384.
Definition POLLIN := 1.
Definition POLLOUT := 4.

Record mq_msg := mkMsg { prio : Z; data : list Z }.
Definition len (m : mq_msg) : Z := Z.of_nat (length (data m)).

(** A registration of [mq_notify], also once taken out of a queue. *)
Record mq_notify := mkNotify {
  n_pid : Z; n_signo : Z; n_type : Z; n_value : Z; n_sock : option Z; n_cookie : list Z }.

Record mqueue := mkMq {
  q_ns : Z; maxmsg : Z; msgsize : Z; curmsgs : Z; qbytes : Z;
  msgs : list mq_msg; receivers : Z; notify : mq_notify }.

Record mq_node := mkNode {
  live : bool; name : list Z; mode : Z; uid : Z; gid : Z; deleted : bool; refs : Z; queue : option mqueue }.
Record mq_handle := mkHandle { h_used : bool; h_node : nat; h_flags : Z; h_refs : Z }.

(** [dirs]: the children of each directory node; [mq_roots]: the directory of
    each namespace.  A node or a handle that is freed leaves a dead entry, and a
    new one takes a fresh index, so that a stale pointer shows as a fault. *)
Record mq_state := mkState {
  mq_roots : list (option nat);
  mq_count : list Z;
  dirs : list (list nat);
  nodes : list mq_node;
  handles : list mq_handle }.

Definition notify_zero : mq_notify := mkNotify 0 0 0 0 None (replicate 32 0).
Definition node_zero : mq_node := mkNode false [] 0 0 0 false 0 None.
Definition handle_zero : mq_handle := mkHandle false 0 0 0.
#[global] Instance mq_node_inhabited : Inhabited mq_node := populate node_zero.
#[global] Instance mq_handle_inhabited : Inhabited mq_handle := populate handle_zero.
Definition mq_boot : mq_state := mkState (replicate 64 None) (replicate 64 0) [] [] [].

Definition set_roots (r : list (option nat)) (st : mq_state) := mkState r (mq_count st) (dirs st) (nodes st) (handles st).
Definition set_count (c : list Z) (st : mq_state) := mkState (mq_roots st) c (dirs st) (nodes st) (handles st).
Definition set_dirs (d : list (list nat)) (st : mq_state) := mkState (mq_roots st) (mq_count st) d (nodes st) (handles st).
Definition set_nodes (n : list mq_node) (st : mq_state) := mkState (mq_roots st) (mq_count st) (dirs st) n (handles st).
Definition set_handles (h : list mq_handle) (st : mq_state) := mkState (mq_roots st) (mq_count st) (dirs st) (nodes st) h.
Definition upd_node (f : mq_node -> mq_node) (i : nat) (st : mq_state) : mq_state := set_nodes (alter f i (nodes st)) st.
Definition upd_handle (f : mq_handle -> mq_handle) (i : nat) (st : mq_state) : mq_state := set_handles (alter f i (handles st)) st.
Definition set_queue (q : option mqueue) (n : mq_node) : mq_node :=
  mkNode (live n) (name n) (mode n) (uid n) (gid n) (deleted n) (refs n) q.
Definition set_refs (r : Z) (n : mq_node) : mq_node :=
  mkNode (live n) (name n) (mode n) (uid n) (gid n) (deleted n) r (queue n).
Definition set_deleted (n : mq_node) : mq_node :=
  mkNode (live n) (name n) (mode n) (uid n) (gid n) true (refs n) (queue n).
Definition set_h_refs (r : Z) (h : mq_handle) : mq_handle := mkHandle (h_used h) (h_node h) (h_flags h) r.

(** ** Notifications *)

Inductive event :=
| NetlinkUnicast (sock : Z) (cookie : list Z) | HandleRelease (sock : Z)
| SigQueue (pid signo value code : Z) | Kill (pid signo : Z).

Definition mq_notify_deliver (n : mq_notify) (why : Z) : list event :=
  match n_sock n with
  | Some s => [NetlinkUnicast s (<[31%nat := why]> (n_cookie n)); HandleRelease s]
  | None =>
      if (n_pid n =? 0) || (n_type n <>? SIGEV_SIGNAL) then []
      else if 32 <=? n_signo n then [SigQueue (n_pid n) (n_signo n) (n_value n) SI_MESGQ]
      else [Kill (n_pid n) (n_signo n)]
  end.

Definition set_notify (n : mq_notify) (q : mqueue) : mqueue :=
  mkMq (q_ns q) (maxmsg q) (msgsize q) (curmsgs q) (qbytes q) (msgs q) (receivers q) n.
Definition mq_notify_take (q : mqueue) : mqueue * mq_notify :=
  let n := notify q in
  (set_notify (mkNotify 0 (n_signo n) (n_type n) (n_value n) None (n_cookie n)) q, n).
Definition mq_notify_fire (q : mqueue) : mqueue * option mq_notify :=
  if (n_pid (notify q) =? 0) || (receivers q <>? 0) then (q, None)
  else let '(q, n) := mq_notify_take q in (q, Some n).

(** ** Nodes and handles ([fs/vfs.c]) *)

(** [node->next_sibling]: set for every child of a directory but the last. *)
Definition next_sibling (st : mq_state) (i : nat) : bool :=
  existsb (fun l => existsb (fun j => bool_decide (j = i)) (take (length l - 1) l)) (dirs st).

(** [mq_node_release], the release callback of a queue's node. *)
Definition mq_node_release (i : nat) (st : mq_state) : mq_state * list event :=
  match queue (nodes st !!! i) with
  | None => (st, [])
  | Some q =>
      let st := if (q_ns q <? NS_MAX_IPC) && (zget (mq_count st) (q_ns q) <>? 0)
                then set_count (zalter (fun c => u32 (c - 1)) (q_ns q) (mq_count st)) st else st in
      let '(_, n) := mq_notify_take q in
      (upd_node (set_queue None) i st,
       match n_sock n with Some _ => mq_notify_deliver n NOTIFY_REMOVED | None => [] end)
  end.

Definition vfs_node_get (i : nat) (st : mq_state) : res mq_state :=
  if negb (live (nodes st !!! i)) then Fault
  else Ok (upd_node (fun n => set_refs (refs n + 1) n) i st).

Definition vfs_node_put (i : nat) (st : mq_state) : res (mq_state * list event) :=
  if negb (live (nodes st !!! i)) then Fault
  else
    let new_ref := refs (nodes st !!! i) - 1 in
    let st := upd_node (set_refs new_ref) i st in
    if new_ref <? 0 then Panic "vfs: node refcount underflow"
    else if (new_ref =? 0) && deleted (nodes st !!! i) then
      kassert (negb (next_sibling st i)) "node freed while still linked"
        (let '(st, ev) := mq_node_release i st in
         Ok (upd_node (fun _ => node_zero) i st, ev))
    else Ok (st, []).

Definition vfs_handle_release (h : nat) (st : mq_state) : res (mq_state * list event) :=
  kassert (h_used (handles st !!! h)) "release of a dead handle"
    (let new_ref := h_refs (handles st !!! h) - 1 in
     let node := h_node (handles st !!! h) in
     let st := upd_handle (set_h_refs new_ref) h st in
     kassert (0 <=? new_ref) "handle released at refcount"
       (if 0 <? new_ref then Ok (st, [])
        else vfs_node_put node (upd_handle (fun _ => handle_zero) h st))).
Definition vfs_handle_retain (h : nat) (st : mq_state) : res mq_state :=
  kassert (h_used (handles st !!! h) && (0 <? h_refs (handles st !!! h))) "retain of a dead handle"
    (Ok (upd_handle (fun x => set_h_refs (h_refs x + 1) x) h st)).
(** [vfs_handle_acquire], once the descriptor has led to handle [h]. *)
Definition vfs_handle_acquire (h : nat) (st : mq_state) : mq_state :=
  upd_handle (fun x => set_h_refs (h_refs x + 1) x) h st.

(** What [vfs_fd_for_node] meets: no handle left, or no descriptor. *)
Inductive fd_answer := FdOk | NoHandle | NoFd (err : Z).
Definition vfs_fd_for_node (i : nat) (flags : Z) (a : fd_answer) (st : mq_state) : res (Z * mq_state * list event) :=
  match a with
  | NoHandle => Ok (- ENFILE, st, [])
  | _ =>
      let h := length (handles st) in
      let* st := vfs_node_get i st in
      let st := set_handles (handles st ++ [mkHandle true i flags 1]) st in
      match a with
      | NoFd err => let* '(st, ev) := vfs_handle_release h st in Ok (err, st, ev)
      | _ => Ok (Z.of_nat h, st, [])
      end
  end.

Definition vfs_attach_child (d i : nat) (st : mq_state) : mq_state :=
  set_dirs (alter (fun l => l ++ [i]) d (dirs st)) st.
Fixpoint remove_first (i : nat) (l : list nat) : list nat :=
  match l with
  | [] => []
  | j :: l => if bool_decide (j = i) then l else j :: remove_first i l
  end.
Definition vfs_detach_child (d i : nat) (st : mq_state) : res mq_state :=
  kassert (existsb (fun j => bool_decide (j = i)) (dirs st !!! d)) "detached from a directory which does not list it"
    (Ok (set_dirs (alter (remove_first i) d (dirs st)) st)).

(** [mq_of_node]; the queue behind a handle. *)
Definition mq_of_node (st : mq_state) (i : nat) : option mqueue := queue (nodes st !!! i).
(** [mq_of_fd]: the node whose queue it is, the handle retained. *)
Definition mq_of_fd (h : nat) (st : mq_state) : res (option nat * mq_state) :=
  let st := vfs_handle_acquire h st in
  let i := h_node (handles st !!! h) in
  match mq_of_node st i with
  | None => let* '(st, _) := vfs_handle_release h st in Ok (None, st)
  | Some _ => Ok (Some i, st)
  end.
(** The queue a call holds a pointer to. *)
Definition the_queue (i : nat) (st : mq_state) : res mqueue :=
  match mq_of_node st i with Some q => Ok q | None => Fault end.
Definition put_queue (i : nat) (q : mqueue) (st : mq_state) : mq_state := upd_node (set_queue (Some q)) i st.
Definition handle_flags (st : mq_state) (h : nat) : Z := h_flags (handles st !!! h).

(** ** The directory *)

(** [mq_root_of]: the directory, created on first use. *)
Definition mq_root_of (ns : Z) (node_ok : bool) (st : mq_state) : option nat * mq_state :=
  if NS_MAX_IPC <=? ns then (None, st)
  else match zget (mq_roots st) ns with
       | Some d => (Some d, st)
       | None =>
           if node_ok
           then (Some (length (dirs st)),
                 set_roots (zalter (fun _ => Some (length (dirs st))) ns (mq_roots st)) (set_dirs (dirs st ++ [[]]) st))
           else (None, st)
       end.
Definition mq_find (st : mq_state) (d : nat) (nm : list Z) : option nat :=
  let children := dirs st !!! d in
  match first_index (fun i => negb (deleted (nodes st !!! i)) && bool_decide (name (nodes st !!! i) = nm)) children with
  | Some k => children !! k
  | None => None
  end.
Definition mq_check_name (nm : list Z) : Z :=
  let l := Z.of_nat (length nm) in
  if l =? 0 then - ENOENT
  else if (MQ_NAME_MAX <? l) || (VFS_NAME_MAX <=? l) then - ENAMETOOLONG
  else if existsb (fun c => c =? 47) nm then - EACCES
  else if bool_decide (nm = [46]) || bool_decide (nm = [46; 46]) then - EINVAL
  else 0.

Definition mq_permission (e : ipc_env) (n : mq_node) (acc : Z) : Z :=
  match cur_cred e with
  | None => 0
  | Some c =>
      let granted :=
        if fsuid c =? uid n then Z.land (Z.shiftr (mode n) 6) 7
        else if fsgid c =? gid n then Z.land (Z.shiftr (mode n) 3) 7
        else if existsb (fun g => g =? gid n) (take (Z.to_nat (Z.min (ngroups c) MAX_GROUPS)) (groups c))
        then Z.land (Z.shiftr (mode n) 3) 7
        else Z.land (mode n) 7 in
      if Z.land (Z.shiftr acc 6) (Z.lnot granted) =? 0 then 0
      else if UserNs.capable_wrt_inode_uidgid (user_table e) (Some c) (uid n) (gid n) CAP_DAC_OVERRIDE then 0
      else - EACCES
  end.

(** ** mq_open and mq_unlink *)

(** The limits asked for: an error, or the capacity of the new queue. *)
Definition new_limits (e : ipc_env) (ns : Z) (attr : option (Z * Z)) : Z + Z * Z :=
  match attr with
  | None => inr (MQ_MSG_DEFAULT, MQ_MSGSIZE_DEFAULT)
  | Some (mm, ms) =>
      if (mm <=? 0) || (ms <=? 0) then inl (- EINVAL)
      else
        let priv := match cur_cred e with
          | Some c => UserNs.ns_capable_cred (user_table e) (Some c) (ipc_namespace_owner e ns) CAP_SYS_RESOURCE
          | None => false end in
        if ((if priv then MQ_MSG_HARDMAX else MQ_MSG_MAX) <? mm) || ((if priv then MQ_MSGSIZE_HARDMAX else MQ_MSGSIZE_MAX) <? ms)
        then inl (- EINVAL) else inr (mm, ms)
  end.
Definition new_queue (ns mm ms : Z) : mqueue := mkMq ns mm ms 0 0 [] 0 notify_zero.
(** The new queue's node once published: the creator's and the directory's reference. *)
Definition new_node (e : ipc_env) (nm : list Z) (md : Z) (q : mqueue) : mq_node :=
  mkNode true nm
    (u16 (Z.land (Z.land md 511) (Z.lnot (match cur_cred e with Some c => umask c | None => 18 end))))
    (match cur_cred e with Some c => fsuid c | None => 0 end)
    (match cur_cred e with Some c => fsgid c | None => 0 end) false 2 (Some q).

(** The critical section of an open: the node, which the call now holds, and
    whether it was already there. *)
Definition open_lookup (e : ipc_env) (d : nat) (nm : list Z) (oflag md mm ms : Z) (st : mq_state)
    : res ((Z + nat * bool) * mq_state) :=
  let ns := cur_ns e in
  match mq_find st d nm with
  | Some i =>
      if (oflag &? O_CREAT) && (oflag &? O_EXCL) then Ok (inl (- EEXIST), st)
      else let* st := vfs_node_get i st in Ok (inr (i, true), st)
  | None =>
      if negb (oflag &? O_CREAT) then Ok (inl (- ENOENT), st)
      else if MQ_QUEUES_MAX <=? zget (mq_count st) ns then Ok (inl (- ENOSPC), st)
      else
        let i := length (nodes st) in
        let st := set_count (zalter (fun c => u32 (c + 1)) ns (mq_count st)) st in
        let st := set_nodes (nodes st ++ [new_node e nm md (new_queue ns mm ms)]) st in
        Ok (inr (i, false), vfs_attach_child d i st)
  end.
(** What follows: the access to an existing queue, the descriptor, and the
    call's reference given back. *)
Definition open_finish (e : ipc_env) (oflag : Z) (i : nat) (existing : bool) (fd : fd_answer) (st : mq_state)
    : res (Z * mq_state * list event) :=
  let accmode := Z.land oflag 3 in
  let acc := if accmode =? O_RDONLY then 256 else if accmode =? O_WRONLY then 128 else 384 in
  if existing && (mq_permission e (nodes st !!! i) acc <>? 0)
  then let* '(st, ev) := vfs_node_put i st in Ok (- EACCES, st, ev)
  else
    let* '(fd, st, ev) := vfs_fd_for_node i (Z.land oflag (Z.lor 3 O_NONBLOCK)) fd st in
    let* '(st, ev') := vfs_node_put i st in
    Ok (fd, st, ev ++ ev').

(** The allocations and copies of a call: a directory node, the attributes,
    the new queue and its node, the descriptor. *)
Record open_answers := mkAnswers {
  root_ok : bool; attr_copy : option (Z * Z) (* None: the copy fails *); alloc_ok : bool; fd_ans : fd_answer }.

(** Everything before the lock: an error, or the directory and the limits. *)
Definition open_prepare (e : ipc_env) (nm : list Z) (oflag : Z) (user_attr : bool) (a : open_answers) (st : mq_state)
    : (Z + nat * (Z * Z)) * mq_state :=
  let rc := mq_check_name nm in
  if rc <? 0 then (inl rc, st)
  else
    let '(root, st) := mq_root_of (cur_ns e) (root_ok a) st in
    match root with
    | None => (inl (- ENOMEM), st)
    | Some d =>
        let have_attr := (oflag &? O_CREAT) && user_attr in
        if have_attr && negb (bool_decide (is_Some (attr_copy a))) then (inl (- EFAULT), st)
        else if Z.land oflag 3 =? 3 then (inl (- EINVAL), st)
        else if oflag &? O_CREAT then
          match new_limits e (cur_ns e) (if have_attr then attr_copy a else None) with
          | inl err => (inl err, st)
          | inr l => if alloc_ok a then (inr (d, l), st) else (inl (- ENOMEM), st)
          end
        else (inr (d, (0, 0)), st)
    end.

Definition mqueue_open (e : ipc_env) (st : mq_state) (nm : list Z) (oflag md : Z) (user_attr : bool) (a : open_answers)
    : res (Z * mq_state * list event) :=
  match open_prepare e nm oflag user_attr a st with
  | (inl rc, st) => Ok (rc, st, [])
  | (inr (d, (mm, ms)), st) =>
      let* '(r, st) := open_lookup e d nm oflag md mm ms st in
      match r with
      | inl rc => Ok (rc, st, [])
      | inr (i, existing) => open_finish e oflag i existing (fd_ans a) st
      end
  end.

(** The critical section of an unlink: the node taken out of its directory,
    whose reference is now the caller's. *)
Definition unlink_detach (e : ipc_env) (st : mq_state) (nm : list Z) (root_ok : bool) : res ((Z + nat) * mq_state) :=
  let rc := mq_check_name nm in
  if rc <? 0 then Ok (inl rc, st)
  else
    let '(root, st) := mq_root_of (cur_ns e) root_ok st in
    match root with
    | None => Ok (inl (- ENOENT), st)
    | Some d =>
        match mq_find st d nm with
        | None => Ok (inl (- ENOENT), st)
        | Some i =>
            let n := nodes st !!! i in
            if bool_decide (is_Some (cur_cred e)) && negb (UserNs.cred_inode_owner_or_capable (user_table e) (cur_cred e) (uid n) (gid n))
            then Ok (inl (- EACCES), st)
            else let* st := vfs_detach_child d i st in Ok (inr i, upd_node set_deleted i st)
        end
    end.
Definition mqueue_unlink (e : ipc_env) (st : mq_state) (nm : list Z) (root_ok : bool) : res (Z * mq_state * list event) :=
  let* '(r, st) := unlink_detach e st nm root_ok in
  match r with
  | inl rc => Ok (rc, st, [])
  | inr i => let* '(st, ev) := vfs_node_put i st in Ok (0, st, ev)
  end.

(** ** Timeouts *)

Definition NSEC := 1000000000.
(** [mq_timeout_ticks]; [ts] is what the user copy gave. *)
Definition mq_timeout_ticks (ts : option (Z * Z)) (now hz : Z) : Z :=
  match ts with
  | None => - EFAULT
  | Some (sec, nsec) =>
      if (sec <? 0) || (nsec <? 0) || (NSEC <=? nsec) then - EINVAL
      else
        let deadline := u64 (u64 (sec * NSEC) + nsec) in
        if deadline <=? now then 0
        else i64 (u64 (u64 ((deadline - now) * hz) + 999999999) / NSEC)
  end.

(** ** Sending and receiving *)

(** Where a message goes: after every message of at least its priority. *)
Fixpoint insert_msg (m : mq_msg) (l : list mq_msg) : list mq_msg :=
  match l with
  | [] => [m]
  | x :: l' => if prio m <=? prio x then x :: insert_msg m l' else m :: l
  end.
Definition push (m : mq_msg) (q : mqueue) : mqueue * option mq_notify :=
  let was_empty := curmsgs q =? 0 in
  let q := mkMq (q_ns q) (maxmsg q) (msgsize q) (i64 (curmsgs q + 1)) (u64 (qbytes q + len m)) (insert_msg m (msgs q)) (receivers q) (notify q) in
  if was_empty then mq_notify_fire q else (q, None).
Definition pop (q : mqueue) : option (mq_msg * mqueue) :=
  match msgs q with
  | [] => None
  | m :: l => Some (m, mkMq (q_ns q) (maxmsg q) (msgsize q) (i64 (curmsgs q - 1)) (u64 (qbytes q - len m)) l (receivers q) (notify q))
  end.

(** The header of a message: next, prio and len; and the bytes an allocation
    of [size] may use. *)
Definition MSG_HEADER := 24.
Definition kmalloc_payload (size : Z) : Z := Z.land (size + 15) (Z.lnot 15).
(** [kmalloc(sizeof(\*m) + (len ? len : 1))], then the stores to the header. *)
Definition alloc_msg (length : Z) (kmalloc_ok : bool) : res bool :=
  let size := u64 (MSG_HEADER + (if length =? 0 then 1 else length)) in
  if (size =? 0) || negb kmalloc_ok then Ok false
  else if kmalloc_payload size <? MSG_HEADER then Fault
  else Ok true.

(** What a round of a blocking call meets: the timeout as copied this time and
    the clock, whether a signal is pending, and what others do while the lock
    is dropped to read the timeout and while the call sleeps. *)
Record round := mkRound {
  r_timeout : option (Z * Z); r_now : Z; r_signal : bool;
  r_meanwhile : mq_state -> mq_state; r_asleep : mq_state -> mq_state }.

(** One critical section of a send: the message goes in, or the queue is full. *)
Definition send_attempt (i : nat) (m : mq_msg) (st : mq_state) : res (option (list event) * mq_state) :=
  let* q := the_queue i st in
  if curmsgs q <? maxmsg q then
    let '(q, n) := push m q in
    Ok (Some (match n with Some n => mq_notify_deliver n NOTIFY_WOKENUP | None => [] end), put_queue i q st)
  else Ok (None, st).

(** The loop: a result, or [None] while the call sleeps with no further round given. *)
Fixpoint send_loop (h i : nat) (m : mq_msg) (has_timeout : bool) (hz : Z) (rounds : list round) (st : mq_state)
    : res (option (Z * list event) * mq_state) :=
  let* '(r, st) := send_attempt i m st in
  match r with
  | Some ev => Ok (Some (0, ev), st)
  | None =>
      if handle_flags st h &? O_NONBLOCK then Ok (Some (- EAGAIN, []), st)
      else match rounds with
           | [] => Ok (None, st)
           | r :: rounds =>
               let ticks := mq_timeout_ticks (r_timeout r) (r_now r) hz in
               let st := if has_timeout then r_meanwhile r st else st in
               if has_timeout && (ticks <=? 0) then Ok (Some (if ticks <? 0 then ticks else - ETIMEDOUT, []), st)
               else
                 let* q := the_queue i st in
                 if has_timeout && (curmsgs q <? maxmsg q) then send_loop h i m has_timeout hz rounds st
                 else if r_signal r then Ok (Some (- EINTR, []), st)
                 else send_loop h i m has_timeout hz rounds (r_asleep r st)
           end
  end.

(** Leaving a call: the handle given back. *)
Definition leave (h : nat) (rc : Z) (ev : list event) (st : mq_state) : res (option Z * mq_state * list event) :=
  let* '(st, ev') := vfs_handle_release h st in Ok (Some rc, st, ev ++ ev').

(** [copied] is the message as copied from the user, [None] for a fault. *)
Definition mqueue_timedsend (st : mq_state) (h : nat) (length prio : Z) (kmalloc_ok : bool) (copied : option (list Z))
    (has_timeout : bool) (hz : Z) (rounds : list round) : res (option Z * mq_state * list event) :=
  let* '(i, st) := mq_of_fd h st in
  match i with
  | None => Ok (Some (- EBADF), st, [])
  | Some i =>
      let* q := the_queue i st in
      if Z.land (handle_flags st h) 3 =? O_RDONLY then leave h (- EBADF) [] st
      else if MQ_PRIO_MAX <=? prio then leave h (- EINVAL) [] st
      else if msgsize q <? i64 length then leave h (- EMSGSIZE) [] st
      else
        let* ok := alloc_msg length kmalloc_ok in
        if negb ok then leave h (- ENOMEM) [] st
        else match (if length =? 0 then Some [] else copied) with
             | None => leave h (- EFAULT) [] st
             | Some d =>
                 let* '(r, st) := send_loop h i (mkMsg prio d) has_timeout hz rounds st in
                 match r with
                 | None => Ok (None, st, [])
                 | Some (rc, ev) => leave h rc ev st
                 end
             end
  end.

Definition receive_attempt (i : nat) (st : mq_state) : res (option mq_msg * mq_state) :=
  let* q := the_queue i st in
  match pop q with
  | Some (m, q) => Ok (Some m, put_queue i q st)
  | None => Ok (None, st)
  end.
(** [q->receivers++] before a sleep and [q->receivers--] after it. *)
Definition add_receivers (d : Z) (i : nat) (st : mq_state) : res mq_state :=
  let* q := the_queue i st in
  Ok (put_queue i (mkMq (q_ns q) (maxmsg q) (msgsize q) (curmsgs q) (qbytes q) (msgs q) (u64 (receivers q + d)) (notify q)) st).

Fixpoint receive_loop (h i : nat) (has_timeout : bool) (hz : Z) (rounds : list round) (st : mq_state)
    : res (option (Z + mq_msg) * mq_state) :=
  let* '(r, st) := receive_attempt i st in
  match r with
  | Some m => Ok (Some (inr m), st)
  | None =>
      if handle_flags st h &? O_NONBLOCK then Ok (Some (inl (- EAGAIN)), st)
      else match rounds with
           | [] => let* st := add_receivers 1 i st in Ok (None, st)
           | r :: rounds =>
               let ticks := mq_timeout_ticks (r_timeout r) (r_now r) hz in
               let st := if has_timeout then r_meanwhile r st else st in
               if has_timeout && (ticks <=? 0) then Ok (Some (inl (if ticks <? 0 then ticks else - ETIMEDOUT)), st)
               else
                 let* q := the_queue i st in
                 if has_timeout && negb (bool_decide (msgs q = [])) then receive_loop h i has_timeout hz rounds st
                 else if r_signal r then Ok (Some (inl (- EINTR)), st)
                 else
                   let* st := add_receivers 1 i st in
                   let* st := add_receivers (-1) i (r_asleep r st) in
                   receive_loop h i has_timeout hz rounds st
           end
  end.

(** The result and what reaches the user: the message's bytes and priority.
    Once taken, a message whose copy fails is lost. *)
Definition mqueue_timedreceive (st : mq_state) (h : nat) (length : Z) (data_ok prio_wanted prio_ok has_timeout : bool)
    (hz : Z) (rounds : list round) : res (option Z * mq_state * list event * option mq_msg) :=
  let* '(i, st) := mq_of_fd h st in
  match i with
  | None => Ok (Some (- EBADF), st, [], None)
  | Some i =>
      let* q := the_queue i st in
      let out rc m st := let* '(r, st, ev) := leave h rc [] st in Ok (r, st, ev, m) in
      if Z.land (handle_flags st h) 3 =? O_WRONLY then out (- EBADF) None st
      else if i64 length <? msgsize q then out (- EMSGSIZE) None st
      else
        let* '(r, st) := receive_loop h i has_timeout hz rounds st in
        match r with
        | None => Ok (None, st, [], None)
        | Some (inl rc) => out rc None st
        | Some (inr m) =>
            if (len m <>? 0) && negb data_ok then out (- EFAULT) None st
            else if prio_wanted && negb prio_ok then out (- EFAULT) (Some m) st
            else out (len m) (Some m) st
        end
  end.

(** ** mq_notify, mq_getsetattr, poll, teardown *)

(** [user_sigevent]: none, a failed copy, or the event; for SIGEV_THREAD the
    cookie copy and the netlink socket found behind the descriptor. *)
Inductive sigevent := NoEvent | BadCopy | Event (value signo notify : Z) (cookie : option (list Z)) (sock : option Z).

Definition register (e : ipc_env) (q : mqueue) (value signo type : Z) (sock : option Z) (cookie : list Z) : mqueue :=
  set_notify (mkNotify (cur_pid e) signo type value sock
    (match sock with Some _ => cookie | None => n_cookie (notify q) end)) q.

(** The event's checks: an error, or the socket of a SIGEV_THREAD one. *)
Definition check_event (signo type : Z) (cookie : option (list Z)) (sock : option Z) : Z + option Z :=
  if type =? SIGEV_SIGNAL then
    if (signo <=? 0) || (NSIG_MAX <? signo) then inl (- EINVAL) else inr None
  else if type =? SIGEV_THREAD then
    if negb (bool_decide (is_Some cookie)) then inl (- EFAULT)
    else if negb (bool_decide (is_Some sock)) then inl (- EBADF) else inr sock
  else if type <>? SIGEV_NONE then inl (- EINVAL)
  else inr None.
(** The critical section of [mqueue_notify] and what is delivered after it. *)
Definition notify_section (e : ipc_env) (q : mqueue) (ev : sigevent) : Z * mqueue * list event :=
  match ev with
  | BadCopy => (- EFAULT, q, [])
  | NoEvent =>
      if n_pid (notify q) =? cur_pid e
      then let '(q, n) := mq_notify_take q in
           (0, q, match n_sock n with Some _ => mq_notify_deliver n NOTIFY_REMOVED | None => [] end)
      else (0, q, [])
  | Event value signo type cookie sock =>
      match check_event signo type cookie sock with
      | inl err => (err, q, [])
      | inr sock =>
          if n_pid (notify q) <>? 0
          then (- EBUSY, q, match sock with Some s => [HandleRelease s] | None => [] end)
          else (0, register e q value signo type sock (default [] cookie), [])
      end
  end.
Definition mqueue_notify (e : ipc_env) (st : mq_state) (h : nat) (ev : sigevent) : res (option Z * mq_state * list event) :=
  let* '(i, st) := mq_of_fd h st in
  match i with
  | None => Ok (Some (- EBADF), st, [])
  | Some i =>
      let* q := the_queue i st in
      let '(rc, q, out) := notify_section e q ev in
      leave h rc out (put_queue i q st)
  end.

Record mq_attr := mkAttr { mq_flags : Z; mq_maxmsg : Z; mq_msgsize : Z; mq_curmsgs : Z }.
(** The new attributes: none, a failed copy, or the flags asked for. *)
Inductive new_attr := NoAttr | AttrFault | AttrFlags (flags : Z).
Definition set_nonblock (on : bool) (h : nat) (st : mq_state) : mq_state :=
  upd_handle (fun x => mkHandle (h_used x) (h_node x)
    (if on then Z.lor (h_flags x) O_NONBLOCK else Z.land (h_flags x) (Z.lnot O_NONBLOCK)) (h_refs x)) h st.
(** Also what the user gets of the old attributes. *)
Definition mqueue_getsetattr (st : mq_state) (h : nat) (new : new_attr) (old_wanted old_ok : bool)
    : res (option Z * mq_state * list event * option mq_attr) :=
  let* '(i, st) := mq_of_fd h st in
  let out rc old st := let* '(r, st, ev) := leave h rc [] st in Ok (r, st, ev, old) in
  match i with
  | None => Ok (Some (- EBADF), st, [], None)
  | Some i =>
      let* q := the_queue i st in
      let old := mkAttr (if handle_flags st h &? O_NONBLOCK then 2048 else 0) (maxmsg q) (msgsize q) (curmsgs q) in
      let answer st :=
        if old_wanted then if old_ok then out 0 (Some old) st else out (- EFAULT) None st else out 0 None st in
      match new with
      | AttrFault => out (- EFAULT) None st
      | AttrFlags f =>
          if Z.land f (Z.lnot 2048) <>? 0 then out (- EINVAL) None st
          else answer (set_nonblock (f &? 2048) h st)
      | NoAttr => answer st
      end
  end.

(** [mq_poll_cb] *)
Definition mq_poll (q : mqueue) : Z :=
  Z.lor (if 0 <? curmsgs q then POLLIN else 0) (if curmsgs q <? maxmsg q then POLLOUT else 0).

(** [mqueue_ns_destroy]: the directory forgotten, then its children removed
    one at a time from the front. *)
Definition destroy_take (ns : Z) (st : mq_state) : option nat * mq_state :=
  if NS_MAX_IPC <=? ns then (None, st)
  else (zget (mq_roots st) ns, set_roots (zalter (fun _ => None) ns (mq_roots st)) st).
Definition destroy_child (d : nat) (st : mq_state) : res (option nat * mq_state) :=
  match dirs st !!! d with
  | [] => Ok (None, st)
  | i :: _ => let* st := vfs_detach_child d i st in Ok (Some i, upd_node set_deleted i st)
  end.
Fixpoint destroy_loop (fuel d : nat) (st : mq_state) : res (mq_state * list event) :=
  match fuel with
  | O => Ok (st, [])
  | S fuel =>
      let* '(c, st) := destroy_child d st in
      match c with
      | None => Ok (st, [])
      | Some i =>
          let* '(st, ev) := vfs_node_put i st in
          let* '(st, ev') := destroy_loop fuel d st in
          Ok (st, ev ++ ev')
      end
  end.
(** One round per child, and one that finds none. *)
Definition mqueue_ns_destroy (ns : Z) (st : mq_state) : res (mq_state * list event) :=
  let '(root, st) := destroy_take ns st in
  match root with
  | None => Ok (st, [])
  | Some d => destroy_loop (S (length (dirs st !!! d))) d st
  end.

End Mqueue.
