(* ===== verification/MqueueProofs.v ===== *)
(** POSIX message queues: references and counts, priority order, blocking calls.

    A system is the state of [Mqueue] and who holds what in it: the handle
    references of descriptors and of calls in progress, the node references of
    calls between two critical sections, and the receivers asleep.  Every
    critical section is a step, so that calls interleave at the points where
    the code drops its lock. *)
From Stdlib Require Import ZifyBool.
From S2P Require Import Prelude Cred UserNs IpcNs Mqueue.
From stdpp Require Import list sorting.
Local Open Scope Z_scope.
Local Open Scope kernel_scope.

Module MqueueProofs.
Import Cred IpcNs Mqueue.

(** ** The invariant *)

Definition occ (i : nat) (l : list nat) : nat := count_if (fun j => bool_decide (j = i)) l.
Definition uses (i : nat) (h : mq_handle) : bool := h_used h && bool_decide (h_node h = i).
(** Who holds node [i]: its directory, handles, and calls in progress. *)
Definition total (i : nat) (st : mq_state) (pins : list nat) : nat :=
  (occ i (concat (dirs st)) + count_if (uses i) (handles st) + occ i pins)%nat.
Definition sleepers (i : nat) (st : mq_state) (asleep : list nat) : nat :=
  count_if (fun h => bool_decide (h_node (handles st !!! h) = i)) asleep.
Definition in_ns (n : Z) (nd : mq_node) : bool :=
  live nd && match queue nd with Some q => q_ns q =? n | None => false end.

Definition before (a b : mq_msg) : Prop := prio b <= prio a.
Definition bytes (l : list mq_msg) : Z := foldr (fun m s => len m + s) 0 l.

Record queue_ok (q : mqueue) : Prop := {
  q_in : 0 <= q_ns q < NS_MAX_IPC;
  q_cap : 0 < maxmsg q <= MQ_MSG_HARDMAX /\ 0 < msgsize q <= MQ_MSGSIZE_HARDMAX;
  q_cur : curmsgs q = Z.of_nat (length (msgs q)) /\ curmsgs q <= maxmsg q;
  q_order : StronglySorted before (msgs q);
  q_msgs : Forall (fun m => 0 <= prio m < MQ_PRIO_MAX /\ len m <= msgsize q) (msgs q);
  q_bytes : qbytes q = bytes (msgs q) }.

(** A live node, with [t] references, in a directory or not, [w] receivers asleep. *)
Record node_ok (t : nat) (linked : Prop) (w : nat) (n : mq_node) : Prop := {
  n_refs : refs n = Z.of_nat t /\ (0 < t)%nat;
  n_deleted : deleted n = true <-> ~ linked;
  n_queue : exists q, queue n = Some q /\ queue_ok q /\ receivers q = u64 (Z.of_nat w) }.

Record mq_ok (st : mq_state) (held pins asleep : list nat) : Prop := {
  k_len : length (mq_roots st) = 64%nat /\ length (mq_count st) = 64%nat;
  k_node : forall i, if live (nodes st !!! i)
    then node_ok (total i st pins) (i ∈ concat (dirs st)) (sleepers i st asleep) (nodes st !!! i)
    else total i st pins = 0%nat;
  k_once : forall i, (occ i (concat (dirs st)) <= 1)%nat;
  k_handle : forall h, if h_used (handles st !!! h)
    then h_refs (handles st !!! h) = Z.of_nat (occ h held) /\ (0 < occ h held)%nat
    else occ h held = 0%nat;
  k_asleep : forall h, (occ h asleep <= occ h held)%nat;
  k_count : forall n, 0 <= n < NS_MAX_IPC ->
    zget (mq_count st) n = Z.of_nat (count_if (in_ns n) (nodes st)) /\ zget (mq_count st) n <= MQ_QUEUES_MAX;
  k_root : forall n d, 0 <= n < NS_MAX_IPC -> zget (mq_roots st) n = Some d ->
    (d < length (dirs st))%nat /\ forall i, i ∈ dirs st !!! d -> exists q, queue (nodes st !!! i) = Some q /\ q_ns q = n;
  k_roots : forall n n' d, 0 <= n < NS_MAX_IPC -> 0 <= n' < NS_MAX_IPC ->
    zget (mq_roots st) n = Some d -> zget (mq_roots st) n' = Some d -> n = n';
  k_names : forall d, NoDup ((fun i => name (nodes st !!! i)) <$> dirs st !!! d) }.

(** ** Systems *)

Record sys := mkSys { state : mq_state; held : list nat; pins : list nat; asleep : list nat }.
Definition boot : sys := mkSys mq_boot [] [] [].

Inductive op :=
| OPrepare (e : ipc_env) (nm : list Z) (oflag : Z) (user_attr : bool) (a : open_answers)
| OLookup (e : ipc_env) (d : nat) (nm : list Z) (oflag md mm ms : Z)
| OFinish (e : ipc_env) (oflag : Z) (i : nat) (existing : bool) (fd : fd_answer)
| OUnlink (e : ipc_env) (nm : list Z) (rok : bool)
| OPut (i : nat)
| OAcquire (h : nat)
| ORetain (h : nat)
| ORelease (h : nat)
| OSend (h : nat) (m : mq_msg)
| OReceive (h : nat)
| OSleep (h : nat)
| OWake (h : nat)
| ONotify (e : ipc_env) (h : nat) (ev : sigevent)
| OFlags (h : nat) (on : bool)
| ODestroyTake (ns : Z)
| ODestroyChild (d : nat).

(** One occurrence less. *)
Definition without (i : nat) (l : list nat) : list nat := remove_first i l.
Definition node_of (h : nat) (s : sys) : nat := h_node (handles (state s) !!! h).

Definition exec (o : op) (s : sys) : res (sys * list event) :=
  let st := state s in
  let keep st := Ok (mkSys st (held s) (pins s) (asleep s), []) in
  match o with
  | OPrepare e nm oflag ua a => keep (snd (open_prepare e nm oflag ua a st))
  | OLookup e d nm oflag md mm ms =>
      let* '(r, st) := open_lookup e d nm oflag md mm ms st in
      Ok (mkSys st (held s) (match r with inl _ => pins s | inr (i, _) => i :: pins s end) (asleep s), [])
  | OFinish e oflag i existing fd =>
      let* '(rc, st, ev) := open_finish e oflag i existing fd st in
      Ok (mkSys st (if rc <? 0 then held s else Z.to_nat rc :: held s) (without i (pins s)) (asleep s), ev)
  | OUnlink e nm rok =>
      let* '(r, st) := unlink_detach e st nm rok in
      Ok (mkSys st (held s) (match r with inl _ => pins s | inr i => i :: pins s end) (asleep s), [])
  | OPut i => let* '(st, ev) := vfs_node_put i st in Ok (mkSys st (held s) (without i (pins s)) (asleep s), ev)
  | OAcquire h => Ok (mkSys (vfs_handle_acquire h st) (h :: held s) (pins s) (asleep s), [])
  | ORetain h => let* st := vfs_handle_retain h st in Ok (mkSys st (h :: held s) (pins s) (asleep s), [])
  | ORelease h => let* '(st, ev) := vfs_handle_release h st in Ok (mkSys st (without h (held s)) (pins s) (asleep s), ev)
  | OSend h m =>
      let* '(r, st) := send_attempt (node_of h s) m st in
      Ok (mkSys st (held s) (pins s) (asleep s), default [] r)
  | OReceive h => let* '(_, st) := receive_attempt (node_of h s) st in keep st
  | OSleep h => let* st := add_receivers 1 (node_of h s) st in Ok (mkSys st (held s) (pins s) (h :: asleep s), [])
  | OWake h => let* st := add_receivers (-1) (node_of h s) st in Ok (mkSys st (held s) (pins s) (without h (asleep s)), [])
  | ONotify e h ev =>
      let* q := the_queue (node_of h s) st in
      let '(_, q, out) := notify_section e q ev in
      Ok (mkSys (put_queue (node_of h s) q st) (held s) (pins s) (asleep s), out)
  | OFlags h on => keep (set_nonblock on h st)
  | ODestroyTake n => keep (snd (destroy_take n st))
  | ODestroyChild d =>
      let* '(r, st) := destroy_child d st in
      Ok (mkSys st (held s) (match r with None => pins s | Some i => i :: pins s end) (asleep s), [])
  end.

(** What the callers guarantee: a call works in a live namespace and on the
    directory and limits its preparation gave, uses the references it holds,
    and sends a message that passed the checks of [mqueue_timedsend]. *)
Definition limits_ok (mm ms : Z) : Prop := 0 < mm <= MQ_MSG_HARDMAX /\ 0 < ms <= MQ_MSGSIZE_HARDMAX.
Definition allowed (o : op) (s : sys) : Prop :=
  match o with
  | OPrepare e _ _ _ _ | OUnlink e _ _ => 0 <= cur_ns e < NS_MAX_IPC
  | OLookup e d _ oflag _ mm ms =>
      0 <= cur_ns e < NS_MAX_IPC /\ zget (mq_roots (state s)) (cur_ns e) = Some d /\ ((oflag &? O_CREAT) = true -> limits_ok mm ms)
  | OFinish _ _ i _ fd => i ∈ pins s /\ (forall err, fd = NoFd err -> err < 0)
  | OPut i => i ∈ pins s
  | OAcquire h | ORetain h | OReceive h | ONotify _ h _ | OFlags h _ => h ∈ held s
  | ORelease h | OSleep h => (occ h (asleep s) < occ h (held s))%nat
  | OSend h m =>
      h ∈ held s /\ 0 <= prio m < MQ_PRIO_MAX /\
      forall q, mq_of_node (state s) (node_of h s) = Some q -> len m <= msgsize q
  | OWake h => h ∈ asleep s
  | ODestroyTake n => 0 <= n < NS_MAX_IPC
  | ODestroyChild _ => True
  end.
Definition step (s s' : sys) : Prop := exists o ev, allowed o s /\ exec o s = Ok (s', ev).
Definition sound (s : sys) : Prop := mq_ok (state s) (held s) (pins s) (asleep s).

(** ** Counting lemmas *)

Lemma occ_cons i j l : occ i (j :: l) = ((if bool_decide (j = i) then 1 else 0) + occ i l)%nat.
Proof. unfold occ. by rewrite count_if_cons. Qed.
Lemma occ_app i l k : occ i (l ++ k) = (occ i l + occ i k)%nat.
Proof. unfold occ. by rewrite count_if_app. Qed.
Lemma occ_elem i l : i ∈ l <-> (0 < occ i l)%nat.
Proof.
  induction l as [|j l IH]; [rewrite elem_of_nil; unfold occ, count_if; simpl; split; [done|lia]|].
  rewrite elem_of_cons, occ_cons, IH. case_bool_decide; split; intros; [lia|left; congruence|destruct H0; [congruence|lia]|right; lia].
Qed.
Lemma occ_without i l j : i ∈ l -> (occ j (without i l) + (if bool_decide (i = j) then 1 else 0) = occ j l)%nat.
Proof.
  intros H. induction l as [|k l IH]; [by apply elem_of_nil in H|]. unfold without. cbn [remove_first]. rewrite occ_cons.
  destruct (bool_decide_reflect (k = i)) as [->|Hk].
  - lia.
  - rewrite occ_cons. apply elem_of_cons in H as [->|H]; [done|]. specialize (IH H). unfold without in IH. lia.
Qed.
Lemma without_occ i l : i ∈ l -> forall j, occ j (i :: without i l) = occ j l.
Proof. intros H j. rewrite occ_cons. pose proof (occ_without i l j H). lia. Qed.
Lemma occ_dirs (ds : list (list nat)) d f i : (d < length ds)%nat ->
  (occ i (concat (alter f d ds)) + occ i (ds !!! d) = occ i (concat ds) + occ i (f (ds !!! d)))%nat.
Proof.
  intros Hd. destruct (lookup_lt_is_Some_2 ds d Hd) as [l Hl]. rewrite (list_lookup_total_correct _ _ _ Hl), (alter_as_insert _ _ _ _ Hl).
  pose proof (count_concat_insert (fun j => bool_decide (j = i)) id ds d l (f l) Hl) as H.
  rewrite !list_fmap_id in H. exact H.
Qed.
Lemma elem_dir (ds : list (list nat)) d i : i ∈ ds !!! d -> i ∈ concat ds /\ (d < length ds)%nat.
Proof.
  intros H. destruct (ds !! d) as [l|] eqn:E.
  - rewrite (list_lookup_total_correct _ _ _ E) in H. split; [|by eapply lookup_lt_Some].
    rewrite list_elem_of_In. apply List.in_concat. exists l. rewrite <- !list_elem_of_In. split; [by eapply list_elem_of_lookup_2|done].
  - rewrite list_lookup_total_alt, E in H. by apply elem_of_nil in H.
Qed.

(** ** Frames: rewriting a node, rewriting a handle *)

Lemma nodes_upd f i st j : (i < length (nodes st))%nat ->
  nodes (upd_node f i st) !!! j = if bool_decide (j = i) then f (nodes st !!! i) else nodes st !!! j.
Proof.
  intros Hi. cbn. rewrite !list_lookup_total_alt. case_bool_decide as E.
  - subst j. rewrite list_lookup_alter_eq. by destruct (lookup_lt_is_Some_2 _ _ Hi) as [x ->].
  - by rewrite list_lookup_alter_ne.
Qed.
Lemma handles_upd f i st j : (i < length (handles st))%nat ->
  handles (upd_handle f i st) !!! j = if bool_decide (j = i) then f (handles st !!! i) else handles st !!! j.
Proof.
  intros Hi. cbn. rewrite !list_lookup_total_alt. case_bool_decide as E.
  - subst j. rewrite list_lookup_alter_eq. by destruct (lookup_lt_is_Some_2 _ _ Hi) as [x ->].
  - by rewrite list_lookup_alter_ne.
Qed.
Lemma live_lt st i : live (nodes st !!! i) = true -> (i < length (nodes st))%nat.
Proof.
  intros H. destruct (decide (i < length (nodes st))%nat) as [|Hge]; [done|].
  rewrite list_lookup_total_alt, lookup_ge_None_2 in H by lia. done.
Qed.
Lemma used_lt st h : h_used (handles st !!! h) = true -> (h < length (handles st))%nat.
Proof.
  intros H. destruct (decide (h < length (handles st))%nat) as [|Hge]; [done|].
  rewrite list_lookup_total_alt, lookup_ge_None_2 in H by lia. done.
Qed.
Lemma count_upd (p : mq_node -> bool) f i st : (i < length (nodes st))%nat ->
  (count_if p (nodes (upd_node f i st)) + (if p (nodes st !!! i) then 1 else 0)
   = count_if p (nodes st) + (if p (f (nodes st !!! i)) then 1 else 0))%nat.
Proof.
  intros Hi. destruct (lookup_lt_is_Some_2 _ _ Hi) as [x Hx]. cbn.
  rewrite (alter_as_insert _ _ _ _ Hx), (list_lookup_total_correct _ _ _ Hx). by apply count_if_insert.
Qed.
Lemma count_upd_handle (p : mq_handle -> bool) f i st : (i < length (handles st))%nat ->
  (count_if p (handles (upd_handle f i st)) + (if p (handles st !!! i) then 1 else 0)
   = count_if p (handles st) + (if p (f (handles st !!! i)) then 1 else 0))%nat.
Proof.
  intros Hi. destruct (lookup_lt_is_Some_2 _ _ Hi) as [x Hx]. cbn.
  rewrite (alter_as_insert _ _ _ _ Hx), (list_lookup_total_correct _ _ _ Hx). by apply count_if_insert.
Qed.

Section ok.
Context (st : mq_state) (hl pl al : list nat) (K : mq_ok st hl pl al).

Lemma live_ok i : live (nodes st !!! i) = true ->
  node_ok (total i st pl) (i ∈ concat (dirs st)) (sleepers i st al) (nodes st !!! i).
Proof using K. intros H. pose proof (k_node _ _ _ _ K i) as N. by rewrite H in N. Qed.
Lemma referenced_live i : (0 < total i st pl)%nat -> live (nodes st !!! i) = true.
Proof using K. intros H. pose proof (k_node _ _ _ _ K i) as N. destruct (live _); [done|lia]. Qed.
Lemma mq_linked_live i : i ∈ concat (dirs st) -> live (nodes st !!! i) = true.
Proof using K. intros H%occ_elem. apply referenced_live. unfold total. lia. Qed.
Lemma held_used h : h ∈ hl -> h_used (handles st !!! h) = true.
Proof using K. intros H%occ_elem. pose proof (k_handle _ _ _ _ K h) as N. destruct (h_used _); [done|lia]. Qed.
Lemma used_counted h : h_used (handles st !!! h) = true -> (0 < count_if (uses (h_node (handles st !!! h))) (handles st))%nat.
Proof using.
  intros H. pose proof (used_lt _ _ H) as Hlt. destruct (lookup_lt_is_Some_2 _ _ Hlt) as [x Hx]. apply count_if_first.
  eapply first_index_is_Some; [exact Hx|]. rewrite (list_lookup_total_correct _ _ _ Hx) in *. unfold uses. rewrite H.
  by rewrite bool_decide_eq_true_2.
Qed.
Lemma mq_held_live h : h ∈ hl -> live (nodes st !!! h_node (handles st !!! h)) = true.
Proof using K. intros H%held_used%used_counted. apply referenced_live. unfold total. lia. Qed.

(** A node rewritten in place, references moved between its holders. *)
Lemma ok_node f i pl' al' :
  live (nodes st !!! i) = true -> live (f (nodes st !!! i)) = true ->
  name (f (nodes st !!! i)) = name (nodes st !!! i) -> (q_ns <$> queue (f (nodes st !!! i))) = (q_ns <$> queue (nodes st !!! i)) ->
  node_ok (total i st pl') (i ∈ concat (dirs st)) (sleepers i st al') (f (nodes st !!! i)) ->
  (forall j, j <> i -> occ j pl' = occ j pl /\ sleepers j st al' = sleepers j st al) ->
  (forall h, (occ h al' <= occ h hl)%nat) ->
  mq_ok (upd_node f i st) hl pl' al'.
Proof using K.
  intros Hl Hl' Hn Hq Hok Hoth Hal. pose proof (live_lt _ _ Hl) as Hlt.
  assert (Hname : forall j, name (nodes (upd_node f i st) !!! j) = name (nodes st !!! j)).
  { intros j. rewrite nodes_upd by done. case_bool_decide; subst; done. }
  constructor.
  - apply K.
  - intros j. rewrite nodes_upd by done. case_bool_decide as E.
    + subst j. rewrite Hl'. exact Hok.
    + pose proof (k_node _ _ _ _ K j) as N. destruct (Hoth j E) as [E1 E2].
      replace (total j (upd_node f i st) pl') with (total j st pl) by (unfold total; cbn [dirs handles upd_node set_nodes]; lia).
      replace (sleepers j (upd_node f i st) al') with (sleepers j st al) by (rewrite <- E2; reflexivity). exact N.
  - apply K.
  - apply K.
  - exact Hal.
  - intros n Hr. pose proof (k_count _ _ _ _ K n Hr) as [C1 C2]. pose proof (count_upd (in_ns n) f i st Hlt) as C.
    assert (E : in_ns n (f (nodes st !!! i)) = in_ns n (nodes st !!! i)).
    { unfold in_ns. rewrite Hl, Hl'. destruct (queue (f _)), (queue (nodes st !!! i)); simpl in Hq; congruence. }
    rewrite E in C. change (mq_count (upd_node f i st)) with (mq_count st). lia.
  - intros n d Hr Hd. destruct (k_root _ _ _ _ K n d Hr Hd) as [R1 R2]. split; [exact R1|]. intros j Hj.
    destruct (R2 j Hj) as (q & Q1 & Q2). rewrite nodes_upd by done. case_bool_decide as E; [|eauto].
    subst j. rewrite Q1 in Hq. destruct (queue (f _)) as [q'|]; simpl in Hq; [|done]. exists q'. split; [done|congruence].
  - apply K.
  - intros d. pose proof (k_names _ _ _ _ K d) as N. cbn [dirs upd_node set_nodes]. erewrite list_fmap_ext; [exact N|].
    intros k x _. apply Hname.
Qed.
End ok.

(** ** References on nodes *)

Lemma get_ok st hl pl al i : mq_ok st hl pl al -> live (nodes st !!! i) = true ->
  vfs_node_get i st = Ok (upd_node (fun n => set_refs (refs n + 1) n) i st) /\
  mq_ok (upd_node (fun n => set_refs (refs n + 1) n) i st) hl (i :: pl) al.
Proof.
  intros K Hl. split; [unfold vfs_node_get; by rewrite Hl|].
  destruct (live_ok _ _ _ _ K i Hl) as [[R1 R2] D (q & Q)].
  apply (ok_node st hl pl al K); try done.
  - assert (E : total i st (i :: pl) = S (total i st pl)).
    { unfold total. rewrite occ_cons, bool_decide_eq_true_2 by done. lia. }
    constructor; [rewrite E; cbn; lia|exact D|eauto].
  - intros j Hj. split; [|done]. rewrite occ_cons, bool_decide_eq_false_2 by done. lia.
  - apply K.
Qed.

Lemma next_sibling_linked st i : next_sibling st i = true -> i ∈ concat (dirs st).
Proof.
  unfold next_sibling. intros (l & Hl & Hi)%List.existsb_exists. apply List.existsb_exists in Hi as (j & Hj & E).
  apply bool_decide_eq_true in E as ->. rewrite list_elem_of_In. apply List.in_concat. exists l. split; [done|].
  rewrite <- list_elem_of_In in *. apply (subseteq_take (length l - 1) l). done.
Qed.

(** The last reference to a node: its queue is gone from every count. *)
Definition freed (n : Z) (i : nat) (st : mq_state) : mq_state :=
  set_count (zalter (fun c => u32 (c - 1)) n (mq_count st)) (upd_node (fun _ => node_zero) i st).

Lemma last_put st hl pl al i q :
  mq_ok st hl (i :: pl) al -> total i st pl = 0%nat -> queue (nodes st !!! i) = Some q ->
  exists ev, vfs_node_put i st = Ok (freed (q_ns q) i st, ev).
Proof.
  intros K T Q.
  assert (T1 : total i st (i :: pl) = 1%nat). { unfold total in *. rewrite occ_cons, bool_decide_eq_true_2 by done. lia. }
  assert (Hl : live (nodes st !!! i) = true) by (apply (referenced_live _ _ _ _ K); lia).
  destruct (live_ok _ _ _ _ K i Hl) as [[R _] D (q' & Q' & QK & _)]. rewrite Q in Q'. injection Q' as <-.
  pose proof (live_lt _ _ Hl) as Hlt.
  assert (NL : i ∉ concat (dirs st)) by (rewrite occ_elem; unfold total in T; lia).
  assert (Hd : deleted (nodes st !!! i) = true) by (by apply D).
  unfold vfs_node_put. rewrite Hl. cbn [negb]. rewrite nodes_upd, bool_decide_eq_true_2 by done.
  cbn [deleted set_refs]. rewrite Hd.
  replace (refs (nodes st !!! i) - 1 <? 0) with false by lia. replace (refs (nodes st !!! i) - 1 =? 0) with true by lia. cbn [andb].
  destruct (next_sibling (upd_node _ i st) i) eqn:NS; [by apply next_sibling_linked in NS|]. cbn [negb kassert].
  unfold mq_node_release. rewrite nodes_upd, bool_decide_eq_true_2 by done. cbn [queue set_refs]. rewrite Q.
  change (mq_count (upd_node (set_refs (refs (nodes st !!! i) - 1)) i st)) with (mq_count st).
  destruct (k_count _ _ _ _ K (q_ns q) (q_in _ QK)) as [C _].
  assert (C1 : (0 < count_if (in_ns (q_ns q)) (nodes st))%nat).
  { apply count_if_first. destruct (lookup_lt_is_Some_2 _ _ Hlt) as [x Hx]. eapply first_index_is_Some; [exact Hx|].
    rewrite (list_lookup_total_correct _ _ _ Hx) in *. unfold in_ns. rewrite Hl, Q. lia. }
  pose proof (q_in _ QK). replace (_ && _) with true by lia. eexists. f_equal. f_equal. unfold freed, upd_node, set_nodes, set_count. cbn.
  f_equal. by rewrite !alter_alter.
Qed.

Lemma asleep_used st hl pl al h : mq_ok st hl pl al -> h ∈ al -> h ∈ hl.
Proof. intros K H%occ_elem. apply occ_elem. pose proof (k_asleep _ _ _ _ K h). lia. Qed.

Lemma freed_ok st hl pl al i q :
  mq_ok st hl (i :: pl) al -> total i st pl = 0%nat -> live (nodes st !!! i) = true -> queue (nodes st !!! i) = Some q -> queue_ok q ->
  mq_ok (freed (q_ns q) i st) hl pl al.
Proof.
  intros K T Hl Q QK. pose proof (live_lt _ _ Hl) as Hlt. pose proof (q_in _ QK) as QI. pose proof (k_len _ _ _ _ K) as [L1 L2].
  assert (NL : forall d, i ∉ dirs st !!! d).
  { intros d [Hin _]%elem_dir. apply occ_elem in Hin. unfold total in T. lia. }
  assert (Hj : forall j, nodes (freed (q_ns q) i st) !!! j = if bool_decide (j = i) then node_zero else nodes st !!! j).
  { intros j. unfold freed. cbn [nodes set_count]. by rewrite nodes_upd. }
  constructor.
  - cbn. by rewrite length_zalter.
  - intros j. rewrite Hj. case_bool_decide as E; [subst j; exact T|].
    pose proof (k_node _ _ _ _ K j) as N. replace (total j st (i :: pl)) with (total j st pl) in N; [exact N|].
    unfold total. rewrite occ_cons, bool_decide_eq_false_2 by congruence. lia.
  - apply K.
  - apply K.
  - apply K.
  - intros n Hr. unfold NS_MAX_IPC in *. destruct (k_count _ _ _ _ K n ltac:(unfold NS_MAX_IPC; lia)) as [C1 C2].
    pose proof (count_upd (in_ns n) (fun _ => node_zero) i st Hlt) as C.
    unfold freed. cbn [mq_count nodes set_count upd_node set_nodes] in *. change (nodes (upd_node (fun _ => node_zero) i st)) with (alter (fun _ => node_zero) i (nodes st)) in C.
    assert (E : in_ns n (nodes st !!! i) = (q_ns q =? n)) by (unfold in_ns; by rewrite Hl, Q).
    rewrite E in C. change (in_ns n node_zero) with false in C. destruct (Z.eqb_spec (q_ns q) n) as [->|Hne].
    + rewrite zget_zalter_eq by lia. unfold u32. rewrite Z.mod_small; unfold MQ_QUEUES_MAX in *; lia.
    + rewrite zget_zalter_ne by lia. lia.
  - intros n d Hr Hd. destruct (k_root _ _ _ _ K n d Hr Hd) as [R1 R2]. split; [exact R1|]. intros j Hin.
    rewrite Hj, bool_decide_eq_false_2; [by apply R2|]. intros ->. by apply (NL d).
  - apply K.
  - intros d. pose proof (k_names _ _ _ _ K d) as N. cbn [dirs freed set_count upd_node set_nodes]. erewrite list_fmap_ext; [exact N|].
    intros k x Hx. cbn. rewrite Hj, bool_decide_eq_false_2; [done|]. intros ->. apply (NL d). by eapply list_elem_of_lookup_2.
Qed.

Lemma put_ok st hl pl al i : mq_ok st hl (i :: pl) al ->
  exists st' ev, vfs_node_put i st = Ok (st', ev) /\ mq_ok st' hl pl al /\
    dirs st' = dirs st /\ handles st' = handles st /\ mq_roots st' = mq_roots st.
Proof.
  intros K.
  assert (T : total i st (i :: pl) = S (total i st pl)).
  { unfold total. rewrite occ_cons, bool_decide_eq_true_2 by done. lia. }
  assert (Hl : live (nodes st !!! i) = true) by (apply (referenced_live _ _ _ _ K); lia).
  destruct (live_ok _ _ _ _ K i Hl) as [[R _] D (q & Q & QK & QR)].
  destruct (decide (total i st pl = 0%nat)) as [Z|NZ].
  { destruct (last_put _ _ _ _ _ _ K Z Q) as [ev E]. exists (freed (q_ns q) i st), ev. split_and!; try done.
    by apply freed_ok. }
  exists (upd_node (set_refs (refs (nodes st !!! i) - 1)) i st), []. split_and!; try done.
  - unfold vfs_node_put. rewrite Hl. cbn [negb].
    replace (refs (nodes st !!! i) - 1 <? 0) with false by lia. by replace (refs (nodes st !!! i) - 1 =? 0) with false by lia.
  - apply (ok_node st hl (i :: pl) al K); try done.
    + constructor; [cbn; lia|exact D|]. exists q. done.
    + intros j Hj. split; [|done]. rewrite occ_cons, bool_decide_eq_false_2 by done. lia.
    + apply K.
Qed.

(** ** References on handles *)

(** The holders of a node, when the directories are left alone. *)
Lemma ok_handles st st' hl hl' pl pl' al :
  mq_ok st hl pl al -> mq_roots st' = mq_roots st -> mq_count st' = mq_count st -> dirs st' = dirs st -> nodes st' = nodes st ->
  (forall i, total i st' pl' = total i st pl /\ sleepers i st' al = sleepers i st al) ->
  (forall h, if h_used (handles st' !!! h)
     then h_refs (handles st' !!! h) = Z.of_nat (occ h hl') /\ (0 < occ h hl')%nat else occ h hl' = 0%nat) ->
  (forall h, (occ h al <= occ h hl')%nat) -> mq_ok st' hl' pl' al.
Proof.
  intros K E1 E2 E3 E4 T H A. constructor; rewrite ?E1, ?E2, ?E3, ?E4; try done; try apply K.
  intros i. destruct (T i) as [-> ->]. apply (k_node _ _ _ _ K).
Qed.

Lemma ok_handle st hl hl' pl al f h : mq_ok st hl pl al -> h_used (handles st !!! h) = true ->
  h_used (f (handles st !!! h)) = true -> h_node (f (handles st !!! h)) = h_node (handles st !!! h) ->
  h_refs (f (handles st !!! h)) = Z.of_nat (occ h hl') -> (0 < occ h hl')%nat ->
  (forall k, k <> h -> occ k hl' = occ k hl) -> (occ h al <= occ h hl')%nat ->
  mq_ok (upd_handle f h st) hl' pl al.
Proof.
  intros K Hu Hu' Hn Hr Hp Ho Ha. pose proof (used_lt _ _ Hu) as Hlt.
  apply (ok_handles st _ hl _ pl _ al K); try done.
  - intros i. split.
    + unfold total. change (dirs (upd_handle f h st)) with (dirs st). pose proof (count_upd_handle (uses i) f h st Hlt) as C.
      unfold uses in C at 2 4. rewrite Hu, Hu', Hn in C. lia.
    + unfold sleepers, count_if. f_equal. apply List.filter_ext. intros k. rewrite handles_upd by done.
      destruct (bool_decide_reflect (k = h)) as [->|]; [by rewrite Hn|done].
  - intros k. rewrite handles_upd by done. case_bool_decide as E.
    + subst. rewrite Hu'. done.
    + rewrite (Ho k E). apply K.
  - intros k. destruct (decide (k = h)) as [->|E]; [done|]. rewrite (Ho k E). apply K.
Qed.

Lemma acquire_ok st hl pl al h : mq_ok st hl pl al -> h ∈ hl -> mq_ok (vfs_handle_acquire h st) (h :: hl) pl al.
Proof.
  intros K H. pose proof (held_used _ _ _ _ K h H) as U. pose proof (k_handle _ _ _ _ K h) as R. rewrite U in R.
  pose proof (k_asleep _ _ _ _ K h). apply (ok_handle st hl _ pl al _ h K U); try done.
  all: intros; rewrite occ_cons; case_bool_decide; try congruence; cbn; lia.
Qed.
Lemma retain_ok st hl pl al h : mq_ok st hl pl al -> h ∈ hl ->
  exists st', vfs_handle_retain h st = Ok st' /\ mq_ok st' (h :: hl) pl al.
Proof.
  intros K H. exists (vfs_handle_acquire h st). split; [|by apply acquire_ok]. pose proof (held_used _ _ _ _ K h H) as U.
  pose proof (k_handle _ _ _ _ K h) as R. unfold vfs_handle_retain. rewrite U in *.
  by replace (0 <? h_refs (handles st !!! h)) with true by lia.
Qed.
Lemma nonblock_ok st hl pl al h on : mq_ok st hl pl al -> h ∈ hl -> mq_ok (set_nonblock on h st) hl pl al.
Proof.
  intros K H. pose proof (held_used _ _ _ _ K h H) as U. pose proof (k_handle _ _ _ _ K h) as R. rewrite U in R.
  pose proof (k_asleep _ _ _ _ K h). destruct R. unfold set_nonblock. by apply (ok_handle st hl _ pl al _ h K U).
Qed.

(** A new handle takes over its creator's reference. *)
Lemma new_handle_ok st hl pl al i fl : mq_ok st hl (i :: pl) al ->
  mq_ok (set_handles (handles st ++ [mkHandle true i fl 1]) st) (length (handles st) :: hl) pl al.
Proof.
  intros K. set (h := length (handles st)).
  assert (Hh : forall k, (handles st ++ [mkHandle true i fl 1]) !!! k = if bool_decide (k = h) then mkHandle true i fl 1 else handles st !!! k).
  { intros k. rewrite !list_lookup_total_alt. case_bool_decide as E; [subst k; unfold h; by rewrite list_lookup_middle|].
    destruct (decide (k < h)%nat); [by rewrite lookup_app_l|]. rewrite !lookup_ge_None_2; [done|lia|rewrite length_app; cbn; lia]. }
  assert (Hf : occ h hl = 0%nat).
  { pose proof (k_handle _ _ _ _ K h) as R. unfold h in R. rewrite list_lookup_total_alt, lookup_ge_None_2 in R by lia. exact R. }
  apply (ok_handles st _ hl _ (i :: pl) _ al K); try done; cbn [handles set_handles].
  - intros j. split.
    + unfold total. cbn [dirs handles set_handles]. rewrite count_if_app, occ_cons. unfold count_if at 2. unfold uses at 2. cbn.
      case_bool_decide; cbn; lia.
    + unfold sleepers. cbn [handles set_handles]. unfold count_if. f_equal. apply List.filter_ext_in. intros k Hk.
      apply list_elem_of_In, (asleep_used _ _ _ _ _ K) in Hk. rewrite Hh.
      destruct (bool_decide_reflect (k = h)) as [->|]; [apply occ_elem in Hk; lia|done].
  - intros k. rewrite Hh, occ_cons. case_bool_decide as E.
    + subst k. cbn. rewrite bool_decide_eq_true_2 by done. lia.
    + rewrite bool_decide_eq_false_2 by congruence. apply K.
  - intros k. rewrite occ_cons. pose proof (k_asleep _ _ _ _ K k). lia.
Qed.

(** The last reference to a handle leaves its reference to the node. *)
Lemma last_handle_ok st hl pl al h : mq_ok st (h :: hl) pl al -> occ h hl = 0%nat -> occ h al = 0%nat ->
  mq_ok (upd_handle (fun _ => handle_zero) h st) hl (h_node (handles st !!! h) :: pl) al.
Proof.
  intros K Z A. pose proof (held_used _ _ _ _ K h ltac:(left)) as U. pose proof (used_lt _ _ U) as Hlt.
  apply (ok_handles st _ (h :: hl) _ pl _ al K); try done.
  - intros i. split.
    + unfold total. change (dirs (upd_handle (fun _ => handle_zero) h st)) with (dirs st). rewrite occ_cons.
      pose proof (count_upd_handle (uses i) (fun _ => handle_zero) h st Hlt) as C.
      unfold uses in C at 2 4. rewrite U in C. change (h_used handle_zero) with false in C. cbn [andb] in C. lia.
    + unfold sleepers, count_if. f_equal. apply List.filter_ext_in. intros k Hk. rewrite handles_upd by done.
      apply list_elem_of_In, occ_elem in Hk. destruct (bool_decide_reflect (k = h)) as [->|]; [lia|done].
  - intros k. rewrite handles_upd by done. case_bool_decide as E; [subst; exact Z|].
    pose proof (k_handle _ _ _ _ K k) as R. rewrite occ_cons, bool_decide_eq_false_2 in R by congruence. exact R.
  - intros k. pose proof (k_asleep _ _ _ _ K k) as R. rewrite occ_cons in R. case_bool_decide; subst; lia.
Qed.

Lemma mq_release_ok st hl pl al h : mq_ok st (h :: hl) pl al -> (forall k, (occ k al <= occ k hl)%nat) ->
  exists st' ev, vfs_handle_release h st = Ok (st', ev) /\ mq_ok st' hl pl al /\
    dirs st' = dirs st /\ mq_roots st' = mq_roots st.
Proof.
  intros K A. pose proof (held_used _ _ _ _ K h ltac:(left)) as U. pose proof (used_lt _ _ U) as Hlt.
  pose proof (k_handle _ _ _ _ K h) as R. rewrite U, occ_cons, bool_decide_eq_true_2 in R by done.
  unfold vfs_handle_release. rewrite U. cbn [kassert]. replace (0 <=? _) with true by lia. cbn [kassert].
  case_eq (0 <? h_refs (handles st !!! h) - 1); intros E.
  - do 2 eexists. split_and!; [done| |done..]. specialize (A h). apply (ok_handle st (h :: hl) _ pl al _ h K U); try done; try (cbn [set_h_refs h_refs]; lia).
    intros k Hk. by rewrite occ_cons, bool_decide_eq_false_2.
  - replace (upd_handle (fun _ => handle_zero) h (upd_handle (set_h_refs (h_refs (handles st !!! h) - 1)) h st))
      with (upd_handle (fun _ => handle_zero) h st) by (unfold upd_handle, set_handles; cbn; by rewrite alter_alter).
    specialize (A h). destruct (put_ok _ _ _ _ _ (last_handle_ok st hl pl al h K ltac:(lia) ltac:(lia))) as (st' & ev & E1 & E2 & E3 & _ & E5).
    exists st', ev. done.
Qed.

Lemma pinned_live st hl pl al i : mq_ok st hl (i :: pl) al -> live (nodes st !!! i) = true.
Proof. intros K. apply (referenced_live _ _ _ _ K). unfold total. rewrite occ_cons, bool_decide_eq_true_2 by done. lia. Qed.

Definition opened (rc : Z) (hl : list nat) : list nat := if rc <? 0 then hl else Z.to_nat rc :: hl.
Lemma fd_for_node_ok st hl pl al i fl fd : mq_ok st hl (i :: pl) al -> (forall err, fd = NoFd err -> err < 0) ->
  exists rc st' ev, vfs_fd_for_node i fl fd st = Ok (rc, st', ev) /\ mq_ok st' (opened rc hl) (i :: pl) al /\
    dirs st' = dirs st /\ mq_roots st' = mq_roots st.
Proof.
  intros K Herr. pose proof (pinned_live _ _ _ _ _ K) as Hl. destruct (get_ok _ _ _ _ i K Hl) as [G KG].
  pose proof (new_handle_ok _ _ _ _ i fl KG) as KN. unfold vfs_fd_for_node. rewrite G. cbn [rbind]. destruct fd as [| |err].
  - do 3 eexists. split_and!; [done| |done..]. unfold opened. replace (_ <? 0) with false by lia. by rewrite Nat2Z.id.
  - do 3 eexists. split_and!; [done| |done..]. exact K.
  - destruct (mq_release_ok _ _ _ _ _ KN) as (st' & ev & ER & K' & D & R).
    { intros k. apply (k_asleep _ _ _ _ K). }
    change (length (handles (upd_node _ i st))) with (length (handles st)) in ER. rewrite ER. cbn [rbind]. do 3 eexists. split_and!; [done| |done..]. unfold opened. specialize (Herr err eq_refl).
    by replace (err <? 0) with true by lia.
Qed.

Lemma open_finish_ok st hl pl al e oflag i existing fd :
  mq_ok st hl (i :: pl) al -> (forall err, fd = NoFd err -> err < 0) ->
  exists rc st' ev, open_finish e oflag i existing fd st = Ok (rc, st', ev) /\ mq_ok st' (opened rc hl) pl al /\
    dirs st' = dirs st /\ mq_roots st' = mq_roots st.
Proof.
  intros K Herr. unfold open_finish. destruct (existing && _).
  - destruct (put_ok _ _ _ _ _ K) as (st' & ev & -> & K' & D & _ & R). cbn [rbind]. do 3 eexists. split_and!; [reflexivity|exact K'|done..].
  - destruct (fd_for_node_ok _ _ _ _ i (Z.land oflag (Z.lor 3 O_NONBLOCK)) fd K Herr) as (rc & st1 & ev & -> & K1 & D1 & R1).
    destruct (put_ok _ _ _ _ _ K1) as (st' & ev' & E & K' & D & _ & R). cbn [rbind]. rewrite E. cbn [rbind].
    do 3 eexists. split_and!; [done|done|congruence..].
Qed.

(** ** Directories *)

Lemma root_of_ok st hl pl al n ok : mq_ok st hl pl al -> 0 <= n < NS_MAX_IPC ->
  mq_ok (snd (mq_root_of n ok st)) hl pl al /\
  forall d, fst (mq_root_of n ok st) = Some d -> zget (mq_roots (snd (mq_root_of n ok st))) n = Some d.
Proof.
  intros K Hn. unfold mq_root_of. destruct (Z.leb_spec NS_MAX_IPC n) as [|_]; [lia|].
  destruct (zget (mq_roots st) n) as [d|] eqn:E; [by split; [|intros d' [= <-]]|]. destruct ok; [|cbn; by split].
  destruct (k_len _ _ _ _ K) as [L1 L2]. unfold NS_MAX_IPC in *. cbn [fst snd]. split.
  2: { intros d [= <-]. cbn [mq_roots set_roots]. rewrite zget_zalter_eq; [done|lia]. }
  assert (C : concat (dirs st ++ [[]]) = concat (dirs st)) by (rewrite List.concat_app; cbn; apply app_nil_r).
  assert (G : forall d, (dirs st ++ [[]]) !!! d = dirs st !!! d).
  { intros d. rewrite !list_lookup_total_alt. destruct (decide (d < length (dirs st))%nat); [by rewrite lookup_app_l|].
    rewrite lookup_app_r by lia. rewrite (lookup_ge_None_2 (dirs st)) by lia. by destruct (d - _)%nat as [|[|]]. }
  set (f := fun _ : option nat => Some (length (dirs st))).
  assert (Z : forall m d, 0 <= m < 64 -> zget (zalter f n (mq_roots st)) m = Some d ->
    (m = n /\ d = length (dirs st)) \/ (m <> n /\ zget (mq_roots st) m = Some d)).
  { intros m d Hm H. destruct (decide (m = n)) as [->|Hne].
    - rewrite zget_zalter_eq in H by lia. injection H as <-. by left.
    - rewrite zget_zalter_ne in H by lia. by right. }
  constructor; cbn [mq_roots mq_count dirs nodes handles set_roots set_dirs]; try apply K.
  - by rewrite length_zalter.
  - intros i. unfold total. cbn [dirs handles set_roots set_dirs]. rewrite C. apply (k_node _ _ _ _ K i).
  - intros i. rewrite C. apply K.
  - intros m d Hm H. rewrite length_app, G. cbn. destruct (Z m d Hm H) as [[-> ->]|[_ H']].
    + split; [lia|]. intros i Hi. rewrite list_lookup_total_alt, lookup_ge_None_2 in Hi by lia. by apply elem_of_nil in Hi.
    + destruct (k_root _ _ _ _ K m d Hm H') as [R1 R2]. split; [lia|done].
  - intros m m' d Hm Hm' H1 H2. destruct (Z m d Hm H1) as [[-> ->]|[_ H1']], (Z m' _ Hm' H2) as [[-> E2]|[_ H2']]; try done.
    + destruct (k_root _ _ _ _ K m' _ Hm' H2'). lia.
    + destruct (k_root _ _ _ _ K m _ Hm H1'). lia.
    + by apply (k_roots _ _ _ _ K m m' d).
  - intros d. rewrite G. apply (k_names _ _ _ _ K d).
Qed.

Lemma find_Some st d nm i : mq_find st d nm = Some i ->
  i ∈ dirs st !!! d /\ name (nodes st !!! i) = nm /\ deleted (nodes st !!! i) = false.
Proof.
  unfold mq_find. destruct (first_index _ _) as [k|] eqn:E; [|done]. intros H.
  apply first_index_Some in E as (x & Hx & Hp & _). rewrite H in Hx. injection Hx as <-. bools.
  split_and!; [by eapply list_elem_of_lookup_2|done|done].
Qed.
Lemma find_None st hl pl al d nm : mq_ok st hl pl al -> mq_find st d nm = None ->
  nm ∉ (fun i => name (nodes st !!! i)) <$> dirs st !!! d.
Proof.
  intros K H Hin. apply list_elem_of_fmap in Hin as (i & -> & Hi).
  pose proof (mq_linked_live _ _ _ _ K i (proj1 (elem_dir _ _ _ Hi))) as Hl.
  pose proof (n_deleted _ _ _ _ (live_ok _ _ _ _ K i Hl)) as D. pose proof (proj1 (elem_dir _ _ _ Hi)).
  assert (Hd : deleted (nodes st !!! i) = false) by (destruct (deleted _); [exfalso; by apply D|done]).
  unfold mq_find in H. destruct (first_index _ _) as [k|] eqn:E.
  - apply first_index_lt in E. by apply lookup_ge_None_1 in H; lia.
  - rewrite first_index_None in E. apply list_elem_of_lookup in Hi as [k Hk]. specialize (E k i Hk). cbv beta in E.
    rewrite Hd, bool_decide_eq_true_2 in E by done. done.
Qed.

Lemma remove_first_sublist i l : remove_first i l `sublist_of` l.
Proof. induction l as [|j l IH]; cbn; [done|]. case_bool_decide; [by constructor|by constructor]. Qed.
Lemma list_alter_total {A} `{Inhabited A} (f : A -> A) d e (l : list A) : (d < length l)%nat ->
  alter f d l !!! e = if bool_decide (e = d) then f (l !!! d) else l !!! e.
Proof.
  intros Hd. rewrite !list_lookup_total_alt. case_bool_decide as E.
  - subst. rewrite list_lookup_alter_eq. by destruct (lookup_lt_is_Some_2 _ _ Hd) as [x ->].
  - by rewrite list_lookup_alter_ne.
Qed.

(** A child taken out of its directory: the directory's reference is the caller's. *)
Definition detached (d i : nat) (st : mq_state) : mq_state :=
  upd_node set_deleted i (set_dirs (alter (remove_first i) d (dirs st)) st).

Lemma detached_ok st hl pl al d i : mq_ok st hl pl al -> i ∈ dirs st !!! d -> mq_ok (detached d i st) hl (i :: pl) al.
Proof.
  intros K Hi. destruct (elem_dir _ _ _ Hi) as [Hin Hd]. pose proof (mq_linked_live _ _ _ _ K i Hin) as Hl.
  pose proof (live_lt _ _ Hl) as Hlt.
  assert (O : forall j, (occ j (concat (dirs (detached d i st))) + (if bool_decide (i = j) then 1 else 0) = occ j (concat (dirs st)))%nat).
  { intros j. pose proof (occ_dirs (dirs st) d (remove_first i) j Hd). pose proof (occ_without i _ j Hi). unfold without in *.
    unfold detached. cbn [dirs upd_node set_nodes set_dirs]. lia. }
  assert (T : forall j, total j (detached d i st) (i :: pl) = total j st pl).
  { intros j. unfold total. specialize (O j). rewrite occ_cons. change (handles (detached d i st)) with (handles st). lia. }
  assert (Hj : forall j, nodes (detached d i st) !!! j = if bool_decide (j = i) then set_deleted (nodes st !!! i) else nodes st !!! j).
  { intros j. unfold detached. rewrite nodes_upd by done. done. }
  assert (S : forall e, dirs (detached d i st) !!! e `sublist_of` dirs st !!! e).
  { intros e. unfold detached. cbn [dirs upd_node set_nodes set_dirs]. rewrite list_alter_total by done.
    case_bool_decide; [subst; apply remove_first_sublist|done]. }
  constructor; try apply K.
  - intros j. rewrite Hj, T. pose proof (O j) as Oj. destruct (bool_decide_reflect (j = i)) as [E|E].
    + subst j. cbn [live set_deleted]. rewrite Hl. destruct (live_ok _ _ _ _ K i Hl) as [N1 N2 N3]. constructor; [done| |done].
      cbn [deleted set_deleted]. pose proof (k_once _ _ _ _ K i) as O1. rewrite occ_elem, bool_decide_eq_true_2 in * by done. split; [lia|done].
    + pose proof (k_node _ _ _ _ K j) as N. destruct (live (nodes st !!! j)); [|done]. destruct N as [N1 N2 N3].
      constructor; [done| |done]. rewrite bool_decide_eq_false_2 in Oj by congruence. rewrite occ_elem in *. by replace (occ j (concat (dirs (detached d i st)))) with (occ j (concat (dirs st))) by lia.
  - intros j. pose proof (k_once _ _ _ _ K j). specialize (O j). lia.
  - intros n Hn. destruct (k_count _ _ _ _ K n Hn) as [C1 C2]. split; [|done].
    pose proof (count_upd (in_ns n) set_deleted i st Hlt) as C. change (in_ns n (set_deleted (nodes st !!! i))) with (in_ns n (nodes st !!! i)) in C.
    change (mq_count (detached d i st)) with (mq_count st). change (nodes (detached d i st)) with (nodes (upd_node set_deleted i st)). lia.
  - intros n e Hn He. destruct (k_root _ _ _ _ K n e Hn He) as [R1 R2]. split.
    { unfold detached. cbn. by rewrite length_alter. }
    intros j Hin'. rewrite Hj. destruct (R2 j) as (q & Q); [apply (sublist_subseteq _ _ (S e) _ Hin')|]. exists q. case_bool_decide; subst; done.
  - intros e. pose proof (k_names _ _ _ _ K e) as N. eapply sublist_NoDup; [exact N|].
    erewrite (list_fmap_ext _ (fun j => name (nodes st !!! j))); [by apply fmap_sublist|].
    intros k j _. cbn. rewrite Hj. case_bool_decide; subst; done.
Qed.
Lemma detach_ok st hl pl al d i : mq_ok st hl pl al -> i ∈ dirs st !!! d ->
  vfs_detach_child d i st = Ok (set_dirs (alter (remove_first i) d (dirs st)) st).
Proof.
  intros K Hi. unfold vfs_detach_child. rewrite (proj2 (List.existsb_exists _ _)); [reflexivity|]. exists i.
  split; [by apply list_elem_of_In|by apply bool_decide_eq_true_2].
Qed.

(** A new queue published in its directory, held by the directory and by its creator. *)
Definition published (e : ipc_env) (d : nat) (nm : list Z) (md mm ms : Z) (st : mq_state) : mq_state :=
  vfs_attach_child d (length (nodes st))
    (set_nodes (nodes st ++ [new_node e nm md (new_queue (cur_ns e) mm ms)])
       (set_count (zalter (fun c => u32 (c + 1)) (cur_ns e) (mq_count st)) st)).

Lemma mq_new_queue_ok n mm ms : 0 <= n < NS_MAX_IPC -> limits_ok mm ms -> queue_ok (new_queue n mm ms).
Proof. intros Hn [H1 H2]. constructor; cbn; try done; try lia; apply SSorted_nil. Qed.

Lemma snoc_total {A} `{Inhabited A} (l : list A) x j :
  (l ++ [x]) !!! j = if bool_decide (j = length l) then x else l !!! j.
Proof.
  rewrite !list_lookup_total_alt. case_bool_decide as E; [subst; by rewrite list_lookup_middle|].
  destruct (decide (j < length l)%nat); [by rewrite lookup_app_l|]. rewrite !lookup_ge_None_2; [done|lia|rewrite length_app; cbn; lia].
Qed.

Lemma published_ok st hl pl al e d nm md mm ms :
  mq_ok st hl pl al -> 0 <= cur_ns e < NS_MAX_IPC -> zget (mq_roots st) (cur_ns e) = Some d -> limits_ok mm ms ->
  mq_find st d nm = None -> zget (mq_count st) (cur_ns e) < MQ_QUEUES_MAX ->
  mq_ok (published e d nm md mm ms st) hl (length (nodes st) :: pl) al.
Proof.
  intros K Hn Hd Hlim Hnew Hcnt. set (i := length (nodes st)). set (st' := published e d nm md mm ms st).
  destruct (k_root _ _ _ _ K _ d Hn Hd) as [Hdl Hdq]. destruct (k_len _ _ _ _ K) as [L1 L2].
  assert (Dead : total i st pl = 0%nat).
  { pose proof (k_node _ _ _ _ K i) as N. unfold i in N at 1. rewrite list_lookup_total_alt, lookup_ge_None_2 in N by lia. exact N. }
  assert (Hi : forall e, i ∉ dirs st !!! e).
  { intros e' [Hin _]%elem_dir. apply occ_elem in Hin. unfold total in Dead. lia. }
  assert (O : forall j, occ j (concat (dirs st')) = (occ j (concat (dirs st)) + (if bool_decide (i = j) then 1 else 0))%nat).
  { intros j. pose proof (occ_dirs (dirs st) d (fun l => l ++ [i]) j Hdl) as H. cbv beta in H. rewrite occ_app, (occ_cons j i []) in H.
    change (occ j []) with 0%nat in H. change (dirs st') with (alter (fun l => l ++ [i]) d (dirs st)). lia. }
  assert (Hj : forall j, nodes st' !!! j = if bool_decide (j = i) then new_node e nm md (new_queue (cur_ns e) mm ms) else nodes st !!! j).
  { intros j. apply snoc_total. }
  assert (Dd : forall x, dirs st' !!! x = if bool_decide (x = d) then (dirs st !!! d) ++ [i] else dirs st !!! x).
  { intros x. change (dirs st') with (alter (fun l => l ++ [i]) d (dirs st)). by rewrite list_alter_total. }
  constructor; try apply K.
  - split; [done|]. cbn. by rewrite length_zalter.
  - intros j. rewrite Hj. unfold total. rewrite O, occ_cons. change (handles st') with (handles st).
    destruct (bool_decide_reflect (j = i)) as [->|E].
    + cbn [live new_node]. rewrite bool_decide_eq_true_2 by done. unfold total in Dead.
      assert (sleepers i st' al = 0%nat) as ->.
      { unfold sleepers. apply count_if_zero. intros h Hh. apply bool_decide_eq_false_2. intros E.
        pose proof (held_used _ _ _ _ K h (asleep_used _ _ _ _ _ K Hh)) as U%used_counted. change (handles st') with (handles st) in E.
        rewrite E in U. lia. }
      constructor; [cbn; lia| |].
      * cbn. rewrite occ_elem, O, bool_decide_eq_true_2 by done. split; [done|lia].
      * eexists. split_and!; [reflexivity|by apply mq_new_queue_ok|done].
    + pose proof (k_node _ _ _ _ K j) as N. unfold total in N. rewrite bool_decide_eq_false_2 by congruence.
      change (sleepers j st' al) with (sleepers j st al).
      replace (occ j (concat (dirs st)) + 0 + _ + (0 + occ j pl))%nat with (occ j (concat (dirs st)) + count_if (uses j) (handles st) + occ j pl)%nat by lia.
      destruct (live (nodes st !!! j)); [|done]. destruct N as [N1 N2 N3]. constructor; [done| |done].
      rewrite N2. by rewrite !occ_elem, O, bool_decide_eq_false_2, Nat.add_0_r by congruence.
  - intros j. rewrite O. pose proof (k_once _ _ _ _ K j). destruct (bool_decide_reflect (i = j)) as [<-|]; [|lia].
    unfold total in Dead. lia.
  - intros n Hr. destruct (k_count _ _ _ _ K n Hr) as [C1 C2]. unfold NS_MAX_IPC in *. unfold st', published.
    cbn [mq_count nodes vfs_attach_child set_dirs set_nodes set_count]. rewrite count_if_app, count_if_cons.
    change (count_if (in_ns n) []) with 0%nat.
    change (in_ns n (new_node e nm md (new_queue (cur_ns e) mm ms))) with (cur_ns e =? n). destruct (Z.eqb_spec (cur_ns e) n) as [E|E].
    + subst n. rewrite zget_zalter_eq by lia. unfold u32. rewrite Z.mod_small; unfold MQ_QUEUES_MAX in *; cbn; lia.
    + rewrite zget_zalter_ne by lia. cbn. lia.
  - intros n x Hr Hx. destruct (k_root _ _ _ _ K n x Hr Hx) as [R1 R2]. split; [cbn; by rewrite length_alter|].
    intros j. rewrite Dd, Hj. destruct (bool_decide_reflect (j = i)) as [->|Hne]; [intros Hin|].
    + eexists. split; [reflexivity|]. cbn. case_bool_decide as E; [subst x; by apply (k_roots _ _ _ _ K _ _ d)|by apply Hi in Hin].
    + case_bool_decide as E; [subst x; rewrite elem_of_app, list_elem_of_singleton; intros [H|H]; [by apply R2|done]|apply R2].
  - intros x. rewrite Dd.
    assert (N : forall y, (fun j => name (nodes st' !!! j)) <$> dirs st !!! y = (fun j => name (nodes st !!! j)) <$> dirs st !!! y).
    { intros y. apply list_fmap_ext. intros k j Hk. rewrite Hj, bool_decide_eq_false_2; [done|]. intros ->. apply (Hi y).
      by eapply list_elem_of_lookup_2. }
    case_bool_decide; [subst x|rewrite N; apply (k_names _ _ _ _ K x)].
    rewrite fmap_app, N, NoDup_app. split_and!; [apply (k_names _ _ _ _ K d)| |apply NoDup_singleton].
    intros z Hz Hin. apply list_elem_of_singleton in Hin as ->. rewrite Hj, bool_decide_eq_true_2 in Hz by done.
    cbn in Hz. by apply (find_None _ _ _ _ _ _ K Hnew).
Qed.

Lemma lookup_ok st hl pl al e d nm oflag md mm ms :
  mq_ok st hl pl al -> 0 <= cur_ns e < NS_MAX_IPC -> zget (mq_roots st) (cur_ns e) = Some d ->
  ((oflag &? O_CREAT) = true -> limits_ok mm ms) ->
  exists r st', open_lookup e d nm oflag md mm ms st = Ok (r, st') /\
    mq_ok st' hl (match r with inl _ => pl | inr (i, _) => i :: pl end) al /\ (forall rc, r = inl rc -> rc < 0 /\ st' = st).
Proof.
  intros K Hn Hd Hlim. unfold open_lookup. destruct (mq_find st d nm) as [i|] eqn:F.
  - destruct (_ && _); [do 2 eexists; split_and!; [done|exact K|by intros rc [= <-]]|].
    destruct (find_Some _ _ _ _ F) as [Hi _]. pose proof (mq_linked_live _ _ _ _ K i (proj1 (elem_dir _ _ _ Hi))) as Hl.
    destruct (get_ok _ _ _ _ i K Hl) as [-> KG]. do 2 eexists. split_and!; [done|exact KG|done].
  - destruct (oflag &? O_CREAT) eqn:C; [|do 2 eexists; split_and!; [done|exact K|by intros rc [= <-]]].
    cbn [negb]. destruct (Z.leb_spec MQ_QUEUES_MAX (zget (mq_count st) (cur_ns e)));
      [do 2 eexists; split_and!; [done|exact K|by intros rc [= <-]]|].
    do 2 eexists. split_and!; [reflexivity| |done]. apply (published_ok st hl pl al e d nm md mm ms K); auto.
Qed.

Lemma mq_unlink_ok st hl pl al e nm ok : mq_ok st hl pl al -> 0 <= cur_ns e < NS_MAX_IPC ->
  exists r st', unlink_detach e st nm ok = Ok (r, st') /\ mq_ok st' hl (match r with inl _ => pl | inr i => i :: pl end) al.
Proof.
  intros K Hn. unfold unlink_detach. destruct (_ <? 0); [do 2 eexists; by split|].
  pose proof (root_of_ok _ _ _ _ _ ok K Hn) as [K1 _]. destruct (mq_root_of (cur_ns e) ok st) as [[d|] st1]; [|do 2 eexists; by split].
  cbn [snd] in K1. destruct (mq_find st1 d nm) as [i|] eqn:F; [|do 2 eexists; by split]. destruct (_ && _); [do 2 eexists; by split|].
  destruct (find_Some _ _ _ _ F) as [Hi _]. rewrite (detach_ok _ _ _ _ _ _ K1 Hi). do 2 eexists. split; [reflexivity|].
  exact (detached_ok _ _ _ _ d i K1 Hi).
Qed.

(** ** Queues *)

Lemma queue_of st hl pl al i : mq_ok st hl pl al -> live (nodes st !!! i) = true ->
  exists q, queue (nodes st !!! i) = Some q /\ queue_ok q /\ receivers q = u64 (Z.of_nat (sleepers i st al)).
Proof. intros K Hl. exact (n_queue _ _ _ _ (live_ok _ _ _ _ K i Hl)). Qed.

Lemma put_queue_ok st hl pl al al' i q q' : mq_ok st hl pl al -> live (nodes st !!! i) = true ->
  queue (nodes st !!! i) = Some q -> queue_ok q' -> q_ns q' = q_ns q ->
  receivers q' = u64 (Z.of_nat (sleepers i st al')) -> (forall j, j <> i -> sleepers j st al' = sleepers j st al) ->
  (forall h, (occ h al' <= occ h hl)%nat) -> mq_ok (put_queue i q' st) hl pl al'.
Proof.
  intros K Hl Q Q' E R S A. destruct (live_ok _ _ _ _ K i Hl) as [N1 N2 _].
  apply (ok_node st hl pl al K); try done.
  - cbn. rewrite Q. cbn. congruence.
  - constructor; [done|done|]. exists q'. done.
  - intros j Hj. split; [done|by apply S].
Qed.
(** Changing the messages or the registration alone. *)
Lemma put_same_ok st hl pl al i q q' : mq_ok st hl pl al -> live (nodes st !!! i) = true ->
  queue (nodes st !!! i) = Some q -> queue_ok q' -> q_ns q' = q_ns q -> receivers q' = receivers q -> mq_ok (put_queue i q' st) hl pl al.
Proof.
  intros K Hl Q Q' E R. destruct (queue_of _ _ _ _ _ K Hl) as (q0 & Q0 & _ & R0). rewrite Q in Q0. injection Q0 as <-.
  apply (put_queue_ok st hl pl al al i q q'); try done; [congruence|apply K].
Qed.

Lemma take_ok q : queue_ok q -> queue_ok (fst (mq_notify_take q)).
Proof. intros []. by constructor. Qed.
Lemma register_ok e q v sg ty so ck : queue_ok q -> queue_ok (register e q v sg ty so ck).
Proof. intros []. by constructor. Qed.

Lemma insert_msg_elem m l x : x ∈ insert_msg m l <-> x = m \/ x ∈ l.
Proof.
  induction l as [|y l IH]; cbn; [rewrite list_elem_of_singleton, elem_of_nil; tauto|].
  break_goal; rewrite !elem_of_cons, ?IH; tauto.
Qed.
Lemma insert_msg_sorted m l : StronglySorted before l -> StronglySorted before (insert_msg m l).
Proof.
  induction 1 as [|x l Hl IH Hx]; cbn; [by constructor; [constructor|]|]. destruct (Z.leb_spec (prio m) (prio x)) as [H|H].
  - constructor; [done|]. rewrite !list.Forall_forall in *. intros y [->|Hy]%insert_msg_elem; [exact H|by apply Hx].
  - constructor; [by constructor|]. rewrite !list.Forall_forall in *. intros y [->|Hy]%elem_of_cons; unfold before in *; [lia|].
    specialize (Hx y Hy). lia.
Qed.
Lemma insert_msg_length m l : length (insert_msg m l) = S (length l).
Proof. induction l as [|x l IH]; cbn; [done|]. break_goal; cbn; by rewrite ?IH. Qed.
Lemma insert_msg_bytes m l : bytes (insert_msg m l) = len m + bytes l.
Proof. induction l as [|x l IH]; cbn; [done|]. break_goal; cbn; [fold (bytes (insert_msg m l)); rewrite IH|]; fold (bytes l); lia. Qed.

Lemma len_nonneg m : 0 <= len m.
Proof. unfold len. lia. Qed.
Lemma bytes_bound l ms : Forall (fun m => 0 <= prio m < MQ_PRIO_MAX /\ len m <= ms) l ->
  0 <= bytes l <= Z.of_nat (length l) * ms.
Proof.
  induction 1 as [|m l [_ Hm] _ IH]; cbn [bytes foldr length]; [lia|]. fold (bytes l). pose proof (len_nonneg m). lia.
Qed.
(** The counters of a queue stay far from their widths. *)
Lemma queue_small q : queue_ok q -> 0 <= curmsgs q <= 65536 /\ 0 <= qbytes q <= 65536 * 16777216.
Proof.
  intros [_ [M1 M2] [C1 C2] _ F B]. pose proof (bytes_bound _ _ F). unfold MQ_MSG_HARDMAX, MQ_MSGSIZE_HARDMAX in *.
  rewrite B. split; [lia|]. split; [lia|]. transitivity (curmsgs q * msgsize q); [lia|]. apply Z.mul_le_mono_nonneg; lia.
Qed.

Lemma push_ok q m : queue_ok q -> curmsgs q < maxmsg q -> 0 <= prio m < MQ_PRIO_MAX -> len m <= msgsize q ->
  queue_ok (fst (push m q)) /\ q_ns (fst (push m q)) = q_ns q /\ receivers (fst (push m q)) = receivers q.
Proof.
  intros Q Hc Hp Hl. pose proof (queue_small _ Q) as [S1 S2]. destruct Q as [Q1 [Q2 Q2'] [Q3 Q3'] Q4 Q5 Q6]. pose proof (len_nonneg m).
  unfold MQ_MSG_HARDMAX, MQ_MSGSIZE_HARDMAX in *.
  assert (X : queue_ok (mkMq (q_ns q) (maxmsg q) (msgsize q) (i64 (curmsgs q + 1)) (u64 (qbytes q + len m)) (insert_msg m (msgs q)) (receivers q) (notify q))).
  { constructor; cbn; try done.
    - rewrite insert_msg_length. unfold i64. rewrite Z.mod_small by lia. lia.
    - by apply insert_msg_sorted.
    - rewrite list.Forall_forall in *. intros x [->|Hx]%insert_msg_elem; [done|by apply Q5].
    - rewrite insert_msg_bytes. unfold u64. rewrite Z.mod_small; lia. }
  unfold push. break_goal; [|done]. unfold mq_notify_fire. break_goal; [done|]. split_and!; [exact (take_ok _ X)|done..].
Qed.
Lemma push_msgsize q m : msgsize (fst (push m q)) = msgsize q.
Proof. unfold push. break_goal; [|done]. unfold mq_notify_fire. by break_goal. Qed.
Lemma pop_ok q m q' : queue_ok q -> pop q = Some (m, q') ->
  queue_ok q' /\ q_ns q' = q_ns q /\ receivers q' = receivers q /\ msgs q = m :: msgs q'.
Proof.
  intros Q. unfold pop. destruct (msgs q) as [|x l] eqn:E; [done|]. intros [= <- <-]. cbn. pose proof (queue_small _ Q) as [S1 S2].
  destruct Q as [Q1 Q2 [Q3 Q3'] Q4 Q5 Q6]. rewrite E in *. change (bytes (x :: l)) with (len x + bytes l) in Q6.
  cbn [length] in Q3. pose proof (len_nonneg x). split_and!; try done.
  inversion Q4; subst. inversion Q5; subst. pose proof (bytes_bound l (msgsize q) ltac:(done)).
  constructor; cbn [q_ns maxmsg msgsize curmsgs qbytes msgs]; try done.
  - unfold i64. rewrite Z.mod_small by lia. lia.
  - unfold u64. rewrite Z.mod_small; lia.
Qed.
Lemma notify_ok e q ev : queue_ok q ->
  queue_ok (snd (fst (notify_section e q ev))) /\ q_ns (snd (fst (notify_section e q ev))) = q_ns q /\
  receivers (snd (fst (notify_section e q ev))) = receivers q.
Proof.
  intros Q. unfold notify_section. destruct ev as [| |v sg ty ck so]; [|done|].
  - break_goal; [|done]. split_and!; [exact (take_ok _ Q)|done..].
  - break_goal; [done|]. break_goal; [done|]. split_and!; [by apply register_ok|done..].
Qed.

(** Receivers asleep. *)
Lemma sleepers_cons h st al i :
  sleepers i st (h :: al) = ((if bool_decide (h_node (handles st !!! h) = i) then 1 else 0) + sleepers i st al)%nat.
Proof. unfold sleepers. by rewrite count_if_cons. Qed.
Lemma add_receivers_ok st hl pl al al' h d : mq_ok st hl pl al -> h ∈ hl ->
  (forall i, Z.of_nat (sleepers i st al') = Z.of_nat (sleepers i st al) + (if bool_decide (h_node (handles st !!! h) = i) then d else 0)) ->
  (forall k, (occ k al' <= occ k hl)%nat) ->
  exists st', add_receivers d (h_node (handles st !!! h)) st = Ok st' /\ mq_ok st' hl pl al' /\ handles st' = handles st /\
    dirs st' = dirs st /\ mq_roots st' = mq_roots st.
Proof.
  intros K H S A. pose proof (mq_held_live _ _ _ _ K h H) as Hl. destruct (queue_of _ _ _ _ _ K Hl) as (q & Q & QK & R).
  unfold add_receivers, the_queue, mq_of_node. rewrite Q. cbn [rbind]. eexists. split_and!; [reflexivity| |done..].
  apply (put_queue_ok st hl pl al al' _ q); try done.
  - by destruct QK; constructor.
  - cbn. rewrite S, bool_decide_eq_true_2, R by done. unfold u64. by rewrite Zplus_mod_idemp_l.
  - intros j Hj. specialize (S j). rewrite bool_decide_eq_false_2 in S by congruence. lia.
Qed.

(** ** Every step *)

Lemma ok_same st hl hl' pl pl' al al' : mq_ok st hl pl al ->
  (forall k, occ k hl' = occ k hl) -> (forall k, occ k pl' = occ k pl) -> (forall k, occ k al' = occ k al) ->
  (forall i, sleepers i st al' = sleepers i st al) -> mq_ok st hl' pl' al'.
Proof.
  intros K H P A S. constructor; try apply K.
  - intros i. unfold total. rewrite P, S. apply (k_node _ _ _ _ K i).
  - intros h. rewrite H. apply K.
  - intros h. rewrite H, A. apply K.
Qed.
Lemma pin_out st hl pl al i : mq_ok st hl pl al -> i ∈ pl -> mq_ok st hl (i :: without i pl) al.
Proof. intros K Hi. apply (ok_same st hl hl pl _ al al K); try done. intros k. by apply without_occ. Qed.
Lemma held_out st hl pl al h : mq_ok st hl pl al -> h ∈ hl -> mq_ok st (h :: without h hl) pl al.
Proof. intros K Hi. apply (ok_same st hl _ pl pl al al K); try done. intros k. by apply without_occ. Qed.
Lemma sleepers_without h st al i : h ∈ al ->
  Z.of_nat (sleepers i st (without h al)) = Z.of_nat (sleepers i st al) + (if bool_decide (h_node (handles st !!! h) = i) then -1 else 0).
Proof.
  intros H. induction al as [|k al IH]; [by apply elem_of_nil in H|]. unfold without. cbn [remove_first].
  destruct (bool_decide_reflect (k = h)) as [->|Hk]; rewrite !sleepers_cons; [case_bool_decide; lia|].
  apply elem_of_cons in H as [->|H]; [done|]. unfold without in IH. specialize (IH H). lia.
Qed.

Lemma prepare_ok st hl pl al e nm oflag ua a : mq_ok st hl pl al -> 0 <= cur_ns e < NS_MAX_IPC ->
  mq_ok (snd (open_prepare e nm oflag ua a st)) hl pl al /\
  forall d mm ms, fst (open_prepare e nm oflag ua a st) = inr (d, (mm, ms)) ->
    zget (mq_roots (snd (open_prepare e nm oflag ua a st))) (cur_ns e) = Some d /\ ((oflag &? O_CREAT) = true -> limits_ok mm ms).
Proof.
  intros K Hn. unfold open_prepare. destruct (_ <? 0); [by split|].
  destruct (root_of_ok _ _ _ _ _ (root_ok a) K Hn) as [K1 R1]. destruct (mq_root_of _ _ st) as [[d|] st1]; [|by split].
  cbn [fst snd] in *. destruct (_ && negb _); [by split|]. destruct (_ =? 3); [by split|].
  destruct (oflag &? O_CREAT) eqn:C; [|split; [done|intros d' mm ms [= <- <- <-]; split; [by apply R1|done]]].
  destruct (new_limits _ _ _) as [err|[mm ms]] eqn:L; [by split|]. destruct (alloc_ok a); [|by split].
  split; [done|]. intros d' mm' ms' [= <- <- <-]. split; [by apply R1|]. intros _. clear R1 K1.
  unfold new_limits in L. destruct (if _ && _ then attr_copy a else None) as [[mm0 ms0]|]; [|by injection L as <- <-].
  destruct ((mm0 <=? 0) || (ms0 <=? 0)) eqn:B; [done|]. apply orb_false_iff in B as [B1 B2].
  match type of L with (if orb (Z.ltb (if ?p then _ else _) _) _ then _ else _) = _ => destruct p end;
    (destruct (orb _ _) eqn:B3 in L; [done|]); apply orb_false_iff in B3 as [B3 B4]; injection L as <- <-;
    unfold limits_ok, MQ_MSG_HARDMAX, MQ_MSGSIZE_HARDMAX, MQ_MSG_MAX, MQ_MSGSIZE_MAX in *; lia.
Qed.

Lemma destroy_take_ok st hl pl al n : mq_ok st hl pl al -> mq_ok (snd (destroy_take n st)) hl pl al.
Proof.
  intros K. unfold destroy_take. destruct (Z.leb_spec NS_MAX_IPC n) as [|Hn]; [done|]. destruct (k_len _ _ _ _ K) as [L1 L2].
  unfold NS_MAX_IPC in *. cbn [snd].
  assert (Z : forall m d, 0 <= m < 64 -> zget (zalter (fun _ => None) n (mq_roots st)) m = Some d -> zget (mq_roots st) m = Some d).
  { intros m d Hm H. destruct (decide (Z.to_nat m = Z.to_nat n)) as [E|E].
    - unfold zget, zalter in H. rewrite list_lookup_total_alt, E, list_lookup_alter_eq in H. by destruct (mq_roots st !! Z.to_nat n).
    - unfold zget, zalter in *. rewrite list_lookup_total_alt, list_lookup_alter_ne in H by lia. by rewrite list_lookup_total_alt. }
  constructor; cbn [mq_roots mq_count dirs nodes handles set_roots]; try apply K.
  - by rewrite length_zalter.
  - intros m d Hm H%Z; [|done]. by apply (k_root _ _ _ _ K).
  - intros m m' d Hm Hm' H%Z H'%Z; [|done..]. by apply (k_roots _ _ _ _ K m m' d).
Qed.

Lemma destroy_child_ok st hl pl al d : mq_ok st hl pl al ->
  exists r st', destroy_child d st = Ok (r, st') /\ mq_ok st' hl (match r with None => pl | Some i => i :: pl end) al /\
    (forall i, r = Some i -> dirs st' !!! d = tail (dirs st !!! d)).
Proof.
  intros K. unfold destroy_child. destruct (dirs st !!! d) as [|i l] eqn:E; [do 2 eexists; by split_and!|].
  assert (Hi : i ∈ dirs st !!! d) by (rewrite E; left). rewrite (detach_ok _ _ _ _ _ _ K Hi). cbn [rbind].
  do 2 eexists. split_and!; [reflexivity|exact (detached_ok _ _ _ _ d i K Hi)|]. intros _ _. cbn.
  rewrite list_alter_total by (by apply (elem_dir _ d i)). rewrite bool_decide_eq_true_2, E by done. cbn. by rewrite bool_decide_eq_true_2.
Qed.

Lemma send_attempt_ok st hl pl al i m : mq_ok st hl pl al -> live (nodes st !!! i) = true -> 0 <= prio m < MQ_PRIO_MAX ->
  (forall q, mq_of_node st i = Some q -> len m <= msgsize q) ->
  exists r st', send_attempt i m st = Ok (r, st') /\ mq_ok st' hl pl al /\
    handles st' = handles st /\ (forall q, mq_of_node st i = Some q -> exists q', mq_of_node st' i = Some q' /\ msgsize q' = msgsize q).
Proof.
  intros K Hl Hp Hm. destruct (queue_of _ _ _ _ _ K Hl) as (q & Q & QK & R). unfold send_attempt, the_queue.
  specialize (Hm q). unfold mq_of_node in *. rewrite Q in *. cbn [rbind].
  destruct (Z.ltb_spec (curmsgs q) (maxmsg q)) as [Hc|Hc]; [|do 2 eexists; split_and!; [reflexivity|exact K|done|intros ? [= <-]; eauto]].
  destruct (push_ok q m QK Hc Hp (Hm eq_refl)) as (P1 & P2 & P3). destruct (push m q) as [q' n] eqn:E. cbn [fst] in *.
  do 2 eexists. split_and!; [reflexivity|by apply (put_same_ok st hl pl al i q)|done|]. intros ? [= <-]. exists q'.
  unfold put_queue. rewrite nodes_upd, bool_decide_eq_true_2 by (done || by apply live_lt). split; [done|].
  change q' with (fst (q', n)). rewrite <- E. apply push_msgsize.
Qed.
Lemma receive_attempt_ok st hl pl al i : mq_ok st hl pl al -> live (nodes st !!! i) = true ->
  exists r st', receive_attempt i st = Ok (r, st') /\ mq_ok st' hl pl al /\ handles st' = handles st.
Proof.
  intros K Hl. destruct (queue_of _ _ _ _ _ K Hl) as (q & Q & QK & R). unfold receive_attempt, the_queue, mq_of_node.
  rewrite Q. cbn [rbind]. destruct (pop q) as [[m q']|] eqn:E; [|do 2 eexists; by split_and!].
  destruct (pop_ok _ _ _ QK E) as (P1 & P2 & P3 & _). do 2 eexists. split_and!; [reflexivity|by apply (put_same_ok st hl pl al i q)|done].
Qed.

Lemma mq_exec_ok o s : sound s -> allowed o s -> exists s' ev, exec o s = Ok (s', ev) /\ sound s'.
Proof.
  destruct s as [st hl pl al]. unfold sound, node_of. cbn [state held pins asleep]. intros K A.
  destruct o; cbn [allowed state held pins asleep] in A; unfold exec, node_of; cbn [state held pins asleep].
  - do 2 eexists. split; [reflexivity|]. by apply prepare_ok.
  - destruct A as (A1 & A2 & A3). destruct (lookup_ok st hl pl al e d nm oflag md mm ms K A1 A2 A3) as (r & st' & -> & K' & _).
    do 2 eexists. split; [reflexivity|exact K'].
  - destruct A as [A1 A2]. destruct (open_finish_ok _ _ _ _ e oflag i existing fd (pin_out _ _ _ _ i K A1) A2) as (rc & st' & ev & -> & K' & _).
    do 2 eexists. split; [reflexivity|exact K'].
  - destruct (mq_unlink_ok _ _ _ _ e nm rok K A) as (r & st' & -> & K'). do 2 eexists. split; [reflexivity|exact K'].
  - destruct (put_ok _ _ _ _ i (pin_out _ _ _ _ i K A)) as (st' & ev & -> & K' & _). do 2 eexists. split; [reflexivity|exact K'].
  - do 2 eexists. split; [reflexivity|]. by apply acquire_ok.
  - destruct (retain_ok _ _ _ _ h K A) as (st' & -> & K'). do 2 eexists. split; [reflexivity|exact K'].
  - assert (Hh : h ∈ hl) by (apply occ_elem; lia). destruct (mq_release_ok _ _ _ _ h (held_out _ _ _ _ h K Hh)) as (st' & ev & -> & K' & _).
    { intros k. pose proof (occ_without h hl k Hh). pose proof (k_asleep _ _ _ _ K k). case_bool_decide; subst; lia. }
    do 2 eexists. split; [reflexivity|exact K'].
  - destruct A as (A1 & A2 & A3). destruct (send_attempt_ok _ _ _ _ _ m K (mq_held_live _ _ _ _ K h A1) A2 A3) as (r & st' & -> & K' & _).
    do 2 eexists. split; [reflexivity|exact K'].
  - destruct (receive_attempt_ok _ _ _ _ _ K (mq_held_live _ _ _ _ K h A)) as (r & st' & -> & K' & _).
    do 2 eexists. split; [reflexivity|exact K'].
  - assert (Hh : h ∈ hl) by (apply occ_elem; lia). destruct (add_receivers_ok st hl pl al (h :: al) h 1 K Hh) as (st' & -> & K' & _).
    { intros i. rewrite sleepers_cons. case_bool_decide; lia. }
    { intros k. rewrite occ_cons. pose proof (k_asleep _ _ _ _ K k). case_bool_decide; subst; lia. }
    do 2 eexists. split; [reflexivity|exact K'].
  - destruct (add_receivers_ok st hl pl al (without h al) h (-1) K (asleep_used _ _ _ _ _ K A)) as (st' & -> & K' & _).
    { intros i. by apply sleepers_without. }
    { intros k. pose proof (occ_without h al k A). pose proof (k_asleep _ _ _ _ K k). lia. }
    do 2 eexists. split; [reflexivity|exact K'].
  - pose proof (mq_held_live _ _ _ _ K h A) as Hl. destruct (queue_of _ _ _ _ _ K Hl) as (q & Q & QK & R).
    unfold the_queue, mq_of_node. rewrite Q. cbn [rbind]. pose proof (notify_ok e q ev QK) as (N1 & N2 & N3).
    destruct (notify_section e q ev) as [[rc q'] out]. do 2 eexists. split; [reflexivity|]. by apply (put_same_ok st hl pl al _ q).
  - do 2 eexists. split; [reflexivity|]. by apply nonblock_ok.
  - do 2 eexists. split; [reflexivity|]. by apply destroy_take_ok.
  - destruct (destroy_child_ok _ _ _ _ d K) as (r & st' & -> & K' & _). do 2 eexists. split; [reflexivity|exact K'].
Qed.

Lemma boot_sound : sound boot.
Proof.
  constructor; try done.
  - intros i. cbn. lia.
  - intros n Hn. unfold NS_MAX_IPC in Hn. cbn [boot state mq_boot mq_count nodes]. unfold zget. rewrite list_lookup_total_alt, lookup_replicate_2 by lia. done.
  - intros n d Hn. unfold NS_MAX_IPC in Hn. cbn [boot state mq_boot mq_roots]. unfold zget. rewrite list_lookup_total_alt, lookup_replicate_2 by lia. done.
  - intros n n' d Hn. unfold NS_MAX_IPC in Hn. cbn [boot state mq_boot mq_roots]. unfold zget. rewrite list_lookup_total_alt, lookup_replicate_2 by lia. done.
  - intros d. cbn. destruct d; apply NoDup_nil_2.
Qed.
Lemma reachable_sound s : rtc step boot s -> sound s.
Proof.
  intros H. eapply rtc_invariant; [|exact H|exact boot_sound]. intros x y (o & ev & A & E) S.
  destruct (mq_exec_ok o x S A) as (s' & ev' & E' & S'). rewrite E in E'. by injection E' as <- <-.
Qed.

(** C15 (safety).  Whatever opens, closes, sends, receives, unlinks and
    namespace teardowns are interleaved, at every point where the code drops
    its lock: no reference count of a node or a handle goes below zero, no
    freed node is used, and no assertion of the VFS fails; the counts are
    exact (a node's references are its directory, its handles and the calls
    holding it; a namespace's count is its live queues, at most 256; a
    queue's message and byte counts are its messages, within its capacity,
    in priority order), and the names of a directory are distinct. *)
Theorem mqueues_sound s :
  rtc step boot s ->
  mq_ok (state s) (held s) (pins s) (asleep s) /\
  forall o, allowed o s -> exists s' ev, exec o s = Ok (s', ev).
Proof.
  intros H%reachable_sound. split; [exact H|]. intros o A. destruct (mq_exec_ok o s H A) as (s' & ev & E & _). eauto.
Qed.

(** Witness: a queue is created and opened, a message sent, the queue removed while open. *)
Definition after (o : op) (s : sys) : sys := match exec o s with Ok (s', _) => s' | _ => s end.
Definition rdwr_creat : Z := Z.lor O_CREAT 2.
Definition demo_prepared : sys := after (OPrepare example_env [113] rdwr_creat false (mkAnswers true None true FdOk)) boot.
Definition demo_published : sys := after (OLookup example_env 0 [113] rdwr_creat 384 10 8192) demo_prepared.
Definition demo_open : sys := after (OFinish example_env rdwr_creat 0 false FdOk) demo_published.
Definition demo_sent : sys := after (OSend 0 (mkMsg 3 [1; 2])) demo_open.
Definition demo_unlinked : sys := after (OPut 0) (after (OUnlink example_env [113] true) demo_sent).

(** One evaluated step at the end of a run. *)
Ltac demo_step s o := apply (rtc_r _ s); [|exists o, []; split; [|vm_compute; reflexivity]].
Lemma demo_open_reachable : rtc step boot demo_open.
Proof.
  demo_step demo_published (OFinish example_env rdwr_creat 0 false FdOk); [|split; [left|done]].
  demo_step demo_prepared (OLookup example_env 0 [113] rdwr_creat 384 10 8192); [|vm_compute; intuition congruence].
  demo_step boot (OPrepare example_env [113] rdwr_creat false (mkAnswers true None true FdOk)); [|vm_compute; split; congruence].
  apply rtc_refl.
Qed.
Lemma demo_unlinked_reachable : rtc step boot demo_unlinked.
Proof.
  demo_step (after (OUnlink example_env [113] true) demo_sent) (OPut 0); [|left].
  demo_step demo_sent (OUnlink example_env [113] true); [|vm_compute; split; congruence].
  demo_step demo_open (OSend 0 (mkMsg 3 [1; 2])); [exact demo_open_reachable|].
  split; [left|]. split; [done|]. intros q H. vm_compute in H. injection H as <-. vm_compute. congruence.
Qed.

Lemma mqueues_sound_witness :
  mq_ok (state demo_unlinked) [0%nat] [] [] /\ exists s' ev, exec (ORelease 0) demo_unlinked = Ok (s', ev).
Proof.
  destruct (mqueues_sound demo_unlinked demo_unlinked_reachable) as [K N]. split; [exact K|]. apply N. vm_compute. lia.
Defined.

(** ** Priority order *)

(** The specification: the messages in order of arrival; a receive takes the
    oldest message of the highest priority present. *)
Definition oldest_highest (a : list mq_msg) : option nat :=
  first_index (fun m => forallb (fun x => prio x <=? prio m) a) a.
Definition spec_receive (a : list mq_msg) : option mq_msg * list mq_msg :=
  match oldest_highest a with
  | Some k => (a !! k, delete k a)
  | None => (None, a)
  end.
Definition spec_send (cap : Z) (m : mq_msg) (a : list mq_msg) : bool * list mq_msg :=
  if Z.of_nat (length a) <? cap then (true, a ++ [m]) else (false, a).

Inductive request := Send (m : mq_msg) | Receive.
Inductive answer := Sent (accepted : bool) | Received (m : option mq_msg).
Fixpoint spec_run (cap : Z) (rs : list request) (a : list mq_msg) : list answer :=
  match rs with
  | [] => []
  | Send m :: rs => let '(ok, a) := spec_send cap m a in Sent ok :: spec_run cap rs a
  | Receive :: rs => let '(m, a) := spec_receive a in Received m :: spec_run cap rs a
  end.
(** The code: the critical sections of sends and receives on the queue of node [i]. *)
Fixpoint code_run (i : nat) (rs : list request) (st : mq_state) : res (list answer * mq_state) :=
  match rs with
  | [] => Ok ([], st)
  | Send m :: rs =>
      let* '(r, st) := send_attempt i m st in
      let* '(l, st) := code_run i rs st in
      Ok (Sent (bool_decide (is_Some r)) :: l, st)
  | Receive :: rs =>
      let* '(r, st) := receive_attempt i st in
      let* '(l, st) := code_run i rs st in
      Ok (Received r :: l, st)
  end.

(** The representation: sorted, and each priority's messages in order of arrival. *)
Definition of_prio (p : Z) (l : list mq_msg) : list mq_msg := List.filter (fun m => prio m =? p) l.
Definition represents (l a : list mq_msg) : Prop := StronglySorted before l /\ forall p, of_prio p l = of_prio p a.

Lemma of_prio_elem p l x : x ∈ of_prio p l <-> x ∈ l /\ prio x = p.
Proof. unfold of_prio. by rewrite !list_elem_of_In, List.filter_In, Z.eqb_eq. Qed.
Lemma represents_elem l a x : represents l a -> x ∈ l <-> x ∈ a.
Proof.
  intros [_ H]. specialize (H (prio x)). split; intros Hx.
  - assert (x ∈ of_prio (prio x) l) as Hin by (by apply of_prio_elem). rewrite H in Hin. by apply of_prio_elem in Hin as [].
  - assert (x ∈ of_prio (prio x) a) as Hin by (by apply of_prio_elem). rewrite <- H in Hin. by apply of_prio_elem in Hin as [].
Qed.
Lemma of_prio_none p l : Forall (fun x => prio x <> p) l -> of_prio p l = [].
Proof. induction 1 as [|x l Hx _ IH]; cbn; [done|]. by replace (prio x =? p) with false by lia. Qed.
Lemma of_prio_app p l k : of_prio p (l ++ k) = of_prio p l ++ of_prio p k.
Proof. apply List.filter_app. Qed.

Lemma insert_of_prio m l p : StronglySorted before l -> of_prio p (insert_msg m l) = of_prio p l ++ of_prio p [m].
Proof.
  induction 1 as [|x l Hl IH Hx]; [done|]. cbn [insert_msg]. destruct (Z.leb_spec (prio m) (prio x)) as [H|H].
  - change (of_prio p (x :: insert_msg m l)) with (of_prio p ([x] ++ insert_msg m l)).
    rewrite of_prio_app, IH. change (of_prio p (x :: l)) with (of_prio p ([x] ++ l)). by rewrite of_prio_app, app_assoc.
  - change (of_prio p (m :: x :: l)) with (of_prio p ([m] ++ (x :: l))). rewrite of_prio_app. cbn [of_prio List.filter].
    destruct (Z.eqb_spec (prio m) p) as [E|]; [|by rewrite app_nil_r].
    change (if prio x =? p then x :: List.filter (fun m0 => prio m0 =? p) l else List.filter (fun m0 => prio m0 =? p) l) with (of_prio p (x :: l)).
    rewrite of_prio_none; [done|]. constructor; [lia|]. eapply list.Forall_impl; [exact Hx|]. unfold before. intros; cbn; lia.
Qed.
Lemma represents_send m l a : represents l a -> represents (insert_msg m l) (a ++ [m]).
Proof.
  intros [S H]. split; [by apply insert_msg_sorted|]. intros p. by rewrite insert_of_prio, of_prio_app, H.
Qed.

Lemma represents_receive m l a : represents (m :: l) a ->
  exists a', spec_receive a = (Some m, a') /\ represents l a' /\ length a = S (length a').
Proof.
  intros R. pose proof R as [S H]. inversion S as [|? ? S' Hm]; subst.
  assert (Hmax : forall x, x ∈ a -> prio x <= prio m).
  { intros x Hx. apply (represents_elem _ _ _ R) in Hx. apply elem_of_cons in Hx as [->|Hx]; [lia|].
    rewrite list.Forall_forall in Hm. by apply Hm. }
  assert (Hin : m ∈ a) by (apply (represents_elem _ _ _ R); left).
  assert (Hp : forall x, x ∈ a -> forallb (fun y => prio y <=? prio x) a = (prio x =? prio m)).
  { intros x Hx. apply Bool.eq_iff_eq_true. rewrite List.forallb_forall. split.
    - intros F. rewrite list_elem_of_In in Hin. specialize (F m Hin). specialize (Hmax x Hx). lia.
    - intros E y Hy. rewrite <- list_elem_of_In in Hy. specialize (Hmax y Hy). lia. }
  unfold spec_receive, oldest_highest. destruct (first_index _ a) as [k|] eqn:F.
  2: { rewrite first_index_None in F. apply list_elem_of_lookup in Hin as [j Hj]. specialize (F j m Hj). cbv beta in F.
       rewrite Hp in F by (by eapply list_elem_of_lookup_2). lia. }
  apply first_index_Some in F as (x & Hx & Px & Hfirst). rewrite Hp in Px by (by eapply list_elem_of_lookup_2).
  pose proof (take_drop_middle a k x Hx) as E. set (a1 := take k a) in *. set (a2 := drop (Datatypes.S k) a) in *.
  assert (N1 : Forall (fun y => prio y <> prio m) a1).
  { rewrite Forall_lookup. intros j y Hy. unfold a1 in Hy. apply lookup_take_Some in Hy as [Hy Hj]. specialize (Hfirst j y Hj Hy).
    rewrite Hp in Hfirst by (by eapply list_elem_of_lookup_2). lia. }
  assert (Xm : x = m /\ of_prio (prio m) l = of_prio (prio m) a2).
  { specialize (H (prio m)). rewrite <- E, of_prio_app, (of_prio_none _ _ N1) in H. cbn in H. rewrite Z.eqb_refl, Px in H.
    injection H as E1 E2. split; [congruence|exact E2]. }
  destruct Xm as [-> Hq]. rewrite Hx. exists (a1 ++ a2). split_and!.
  - f_equal. apply delete_take_drop.
  - split; [done|]. intros p. rewrite of_prio_app. destruct (decide (p = prio m)) as [->|Hne].
    + by rewrite (of_prio_none _ _ N1), Hq.
    + specialize (H p). rewrite <- E, of_prio_app in H. cbn in H. by replace (prio m =? p) with false in H by lia.
  - rewrite <- E, !length_app. cbn. lia.
Qed.
Lemma represents_nil a : represents [] a -> a = [].
Proof. intros R. destruct a as [|x a]; [done|]. assert (x ∈ []) as Hx by (apply (represents_elem _ _ _ R); left). by apply elem_of_nil in Hx. Qed.

Definition request_ok (ms : Z) (r : request) : Prop :=
  match r with Send m => 0 <= prio m < MQ_PRIO_MAX /\ len m <= ms | Receive => True end.
Lemma put_queue_get st i q : live (nodes st !!! i) = true ->
  live (nodes (put_queue i q st) !!! i) = true /\ mq_of_node (put_queue i q st) i = Some q.
Proof.
  intros Hl. unfold put_queue, mq_of_node. rewrite nodes_upd, bool_decide_eq_true_2 by (done || by apply live_lt). done.
Qed.
Lemma push_msgs q m : msgs (fst (push m q)) = insert_msg m (msgs q) /\ maxmsg (fst (push m q)) = maxmsg q.
Proof. unfold push. break_goal; [|done]. unfold mq_notify_fire. by break_goal. Qed.

Lemma code_refines rs : forall st hl pl al i q a,
  mq_ok st hl pl al -> live (nodes st !!! i) = true -> mq_of_node st i = Some q ->
  represents (msgs q) a -> length a = length (msgs q) -> Forall (request_ok (msgsize q)) rs ->
  exists st', code_run i rs st = Ok (spec_run (maxmsg q) rs a, st') /\ mq_ok st' hl pl al.
Proof.
  induction rs as [|r rs IH]; intros st hl pl al i q a K Hl Q R L F; [by eexists|].
  destruct (queue_of _ _ _ _ _ K Hl) as (q0 & Q0 & QK & RC). pose proof Q as Q1. unfold mq_of_node in Q. rewrite Q in Q0. injection Q0 as <-.
  apply list.Forall_cons in F as [F1 F]. destruct r as [m|]; cbn [code_run spec_run].
  - unfold send_attempt, the_queue, spec_send. rewrite Q1. cbn [rbind]. destruct (q_cur _ QK) as [C1 _].
    replace (Z.of_nat (length a) <? maxmsg q) with (curmsgs q <? maxmsg q) by (f_equal; lia).
    destruct (Z.ltb_spec (curmsgs q) (maxmsg q)) as [Hc|Hc].
    + destruct F1 as [Fp Fl]. destruct (push_ok q m QK Hc Fp Fl) as (P1 & P2 & P3). destruct (push_msgs q m) as [P4 P5].
      pose proof (push_msgsize q m) as P6. destruct (push m q) as [q' n]. cbn [fst] in *.
      destruct (put_queue_get st i q' Hl) as [G1 G2]. cbn [rbind].
      destruct (IH (put_queue i q' st) hl pl al i q' (a ++ [m])) as (st' & -> & K'); try done.
      * by apply (put_same_ok st hl pl al i q).
      * rewrite P4. by apply represents_send.
      * rewrite P4, insert_msg_length, length_app. cbn. lia.
      * by rewrite P6.
      * cbn [rbind]. rewrite P5. eexists. split; [reflexivity|done].
    + cbn [rbind]. destruct (IH st hl pl al i q a) as (st' & -> & K'); try done. cbn [rbind]. by eexists.
  - unfold receive_attempt, the_queue. rewrite Q1. cbn [rbind]. destruct (msgs q) as [|m l] eqn:M.
    + unfold pop. rewrite M. cbn [rbind]. pose proof (represents_nil _ R) as ->. unfold spec_receive. cbn [oldest_highest first_index].
      destruct (IH st hl pl al i q []) as (st' & E & K'); try done; [by rewrite M..|]. rewrite E. cbn [rbind]. by eexists.
    + assert (E : exists q', pop q = Some (m, q') /\ maxmsg q' = maxmsg q /\ msgsize q' = msgsize q) by (unfold pop; rewrite M; by eexists).
      destruct E as (q' & E & E2 & E3). rewrite E. destruct (pop_ok _ _ _ QK E) as (P1 & P2 & P3 & P4). rewrite M in P4. injection P4 as ->.
      destruct (represents_receive _ _ _ R) as (a' & -> & R' & L'). destruct (put_queue_get st i q' Hl) as [G1 G2]. cbn [rbind].
      destruct (IH (put_queue i q' st) hl pl al i q' a') as (st' & E' & K'); try done.
      * by apply (put_same_ok st hl pl al i q).
      * cbn in L. lia.
      * by rewrite E3.
      * rewrite E'. cbn [rbind]. rewrite E2. by eexists.
Qed.

(** C25 (refinement).  The list a queue keeps its messages in implements a
    priority queue that is first in, first out within a priority: any
    sequence of sends and receives on an empty queue, in any state the system
    can reach, gives the answers of the specification, where a receive takes
    the oldest of the messages of the highest priority present, and a send is
    refused exactly when as many messages wait as the queue holds. *)
Theorem mqueue_refines_priority_fifo s h q rs :
  rtc step boot s -> h ∈ held s -> mq_of_node (state s) (node_of h s) = Some q -> msgs q = [] ->
  Forall (request_ok (msgsize q)) rs ->
  exists st', code_run (node_of h s) rs (state s) = Ok (spec_run (maxmsg q) rs [], st').
Proof.
  intros K%reachable_sound Hh Q M F. destruct (code_refines rs (state s) (held s) (pins s) (asleep s) (node_of h s) q []) as (st' & E & _); try done.
  - by apply (mq_held_live _ _ _ _ K).
  - rewrite M. split; [apply SSorted_nil|done].
  - by rewrite M.
  - by exists st'.
Qed.

(** Three messages, the second of them urgent. *)
Definition demo_requests : list request :=
  [Send (mkMsg 1 [1]); Send (mkMsg 7 [2]); Send (mkMsg 1 [3]); Receive; Receive; Receive; Receive].
Lemma mqueue_refines_priority_fifo_witness :
  (exists st', code_run 0 demo_requests (state demo_open) =
     Ok ([Sent true; Sent true; Sent true; Received (Some (mkMsg 7 [2])); Received (Some (mkMsg 1 [1]));
          Received (Some (mkMsg 1 [3])); Received None], st')).
Proof.
  destruct (mqueue_refines_priority_fifo demo_open 0 (new_queue 0 10 8192) demo_requests demo_open_reachable) as (st' & E);
    [left|vm_compute; reflexivity|reflexivity|repeat constructor; vm_compute; congruence|].
  exists st'. exact E.
Defined.

(** ** Timeouts *)

(** (Bounds.)  A timeout that is far from the width of the nanosecond
    clock sleeps for the least number of ticks that reaches it, none when it
    has passed; one whose nanoseconds overflow 64 bits is taken for one that
    has passed. *)
Theorem mq_timeout_rounds_up sec nsec now hz :
  0 <= sec -> 0 <= nsec < NSEC -> 0 <= now < 2 ^ 64 -> 0 < hz ->
  (sec * NSEC + nsec < 2 ^ 64 -> (sec * NSEC + nsec - now) * hz + 999999999 < 2 ^ 64 ->
   let ticks := mq_timeout_ticks (Some (sec, nsec)) now hz in
   0 <= ticks /\ (sec * NSEC + nsec - now) * hz <= ticks * NSEC /\
   (0 < ticks -> (ticks - 1) * NSEC < (sec * NSEC + nsec - now) * hz)) /\
  (2 ^ 64 <= sec * NSEC + nsec < 2 ^ 64 + now -> mq_timeout_ticks (Some (sec, nsec)) now hz = 0).
Proof.
  intros Hs Hns Hnow Hhz. unfold NSEC in *.
  assert (E : u64 (u64 (sec * 1000000000) + nsec) = (sec * 1000000000 + nsec) mod 2 ^ 64) by (unfold u64; apply Zplus_mod_idemp_l).
  split.
  - intros H1 H2. unfold mq_timeout_ticks, NSEC. replace (_ || _) with false by lia. rewrite E, Z.mod_small by lia.
    set (d := sec * 1000000000 + nsec) in *. destruct (Z.leb_spec d now) as [Hle|Hgt]; [cbn; nia|]. cbv zeta.
    assert (Hp : 0 < (d - now) * hz) by nia. unfold u64. rewrite (Z.mod_small ((d - now) * hz)), Z.mod_small by lia.
    set (x := (d - now) * hz) in *. unfold i64.
    assert (Hq : 0 <= (x + 999999999) / 1000000000 < 2 ^ 63) by (split; [apply Z.div_pos|apply Z.div_lt_upper_bound]; lia).
    rewrite Z.mod_small by lia. pose proof (Z.div_mod (x + 999999999) 1000000000). pose proof (Z.mod_pos_bound (x + 999999999) 1000000000). lia.
  - intros H. unfold mq_timeout_ticks, NSEC. replace (_ || _) with false by lia. rewrite E.
    rewrite <- (Z.mod_unique (sec * 1000000000 + nsec) (2 ^ 64) 1 (sec * 1000000000 + nsec - 2 ^ 64)) by lia.
    by replace (_ <=? now) with true by lia.
Qed.
(** Half a second ahead at 100 Hz; and the year 2554, which has passed. *)
Lemma mq_timeout_rounds_up_witness :
  500000000 * 100 <= mq_timeout_ticks (Some (10, 500000000)) 10000000000 100 * NSEC /\
  mq_timeout_ticks (Some (18446744074, 0)) 1700000000000000000 100 = 0.
Proof.
  split.
  - destruct (mq_timeout_rounds_up 10 500000000 10000000000 100 ltac:(lia) ltac:(split; [lia|reflexivity]) ltac:(lia) ltac:(lia)) as [H _].
    apply H; reflexivity.
  - apply (mq_timeout_rounds_up 18446744074 0 1700000000000000000 100 ltac:(lia) ltac:(split; [lia|reflexivity]) ltac:(lia) ltac:(lia)).
    split; [discriminate|reflexivity].
Defined.

(** ** Whole calls, with others running while they wait *)

(** A call in progress on handle [h], whose queue is node [i]'s, of message
    size [ms]; the same asleep as a receiver; and the end of a call. *)
Definition calling (h i : nat) (ms : Z) (st : mq_state) : Prop :=
  exists hl pl al, mq_ok st (h :: hl) pl al /\ (forall k, (occ k al <= occ k hl)%nat) /\
    h_node (handles st !!! h) = i /\ exists q, mq_of_node st i = Some q /\ msgsize q = ms.
Definition sleeping (h i : nat) (ms : Z) (st : mq_state) : Prop :=
  exists hl pl al, mq_ok st (h :: hl) pl (h :: al) /\ (forall k, (occ k al <= occ k hl)%nat) /\
    h_node (handles st !!! h) = i /\ exists q, mq_of_node st i = Some q /\ msgsize q = ms.
Definition settled (st : mq_state) : Prop := exists hl pl al, mq_ok st hl pl al.
(** What others do around a wait leaves the call its handle. *)
Definition fair_send (h i : nat) (ms : Z) (r : round) : Prop :=
  (forall st, calling h i ms st -> calling h i ms (r_meanwhile r st)) /\
  (forall st, calling h i ms st -> calling h i ms (r_asleep r st)).
Definition fair_receive (h i : nat) (ms : Z) (r : round) : Prop :=
  (forall st, calling h i ms st -> calling h i ms (r_meanwhile r st)) /\
  (forall st, sleeping h i ms st -> sleeping h i ms (r_asleep r st)).

Lemma calling_live h i ms st : calling h i ms st -> live (nodes st !!! i) = true.
Proof. intros (hl & pl & al & K & _ & <- & _). apply (mq_held_live _ _ _ _ K). left. Qed.
Lemma leave_ok h i ms st rc ev : calling h i ms st ->
  exists st' ev', leave h rc ev st = Ok (Some rc, st', ev') /\ settled st'.
Proof.
  intros (hl & pl & al & K & A & _). unfold leave. destruct (mq_release_ok _ _ _ _ _ K A) as (st' & ev' & -> & K' & _).
  do 2 eexists. split; [reflexivity|]. by exists hl, pl, al.
Qed.
Lemma of_fd_ok st hl pl al h : mq_ok st hl pl al -> h ∈ hl ->
  exists i q, mq_of_fd h st = Ok (Some i, vfs_handle_acquire h st) /\
    mq_of_node (vfs_handle_acquire h st) i = Some q /\ calling h i (msgsize q) (vfs_handle_acquire h st).
Proof.
  intros K H. pose proof (acquire_ok _ _ _ _ h K H) as KA. pose proof (mq_held_live _ _ _ _ KA h ltac:(left)) as Hl.
  destruct (queue_of _ _ _ _ _ KA Hl) as (q & Q & _). eexists _, q. unfold mq_of_fd, mq_of_node. rewrite Q. split_and!; [reflexivity|done|].
  exists hl, pl, al. split_and!; [done|apply K|done|]. by exists q.
Qed.

Lemma send_attempt_calling h i ms m st : calling h i ms st -> 0 <= prio m < MQ_PRIO_MAX -> len m <= ms ->
  exists r st', send_attempt i m st = Ok (r, st') /\ calling h i ms st'.
Proof.
  intros C Hp Hm. pose proof (calling_live _ _ _ _ C) as Hl. destruct C as (hl & pl & al & K & A & N & q & Q & M).
  destruct (send_attempt_ok _ _ _ _ i m K Hl Hp) as (r & st' & E & K' & H' & Q').
  { intros q' E. rewrite Q in E. injection E as <-. lia. }
  destruct (Q' q Q) as (q' & G1 & G2). do 2 eexists. split; [exact E|]. exists hl, pl, al. split_and!; [done..|by rewrite H'|].
  exists q'. split; [done|congruence].
Qed.
Lemma send_loop_ok h i m ms ht hz rounds : 0 <= prio m < MQ_PRIO_MAX -> len m <= ms -> Forall (fair_send h i ms) rounds ->
  forall st, calling h i ms st -> exists r st', send_loop h i m ht hz rounds st = Ok (r, st') /\ calling h i ms st'.
Proof.
  intros Hp Hm F. induction F as [|r rounds [F1 F2] _ IH]; intros st C;
    destruct (send_attempt_calling _ _ _ m _ C Hp Hm) as (a & st1 & E & C1); cbn [send_loop]; rewrite E; cbn [rbind];
    (destruct a as [ev|]; [do 2 eexists; by split|]); (destruct (handle_flags _ _ &? _); [do 2 eexists; by split|]);
    [do 2 eexists; by split|].
  set (st2 := if ht then r_meanwhile r st1 else st1).
  assert (C2 : calling h i ms st2) by (unfold st2; destruct ht; [by apply F1|done]).
  destruct (ht && _); [do 2 eexists; by split|]. pose proof C2 as (hl & pl & al & _ & _ & _ & q & Q & _).
  unfold the_queue. rewrite Q. cbn [rbind]. destruct (ht && _); [by apply IH|]. destruct (r_signal r); [do 2 eexists; by split|].
  by apply IH, F2.
Qed.

Lemma payload_16 size : kmalloc_payload size = (size + 15) / 16 * 16.
Proof.
  unfold kmalloc_payload. rewrite <- Z.ldiff_land. change 15 with (Z.ones 4) at 2. rewrite Z.ldiff_ones_r by lia.
  by rewrite Z.shiftr_div_pow2, Z.shiftl_mul_pow2 by lia.
Qed.
(** The header of a message does not fit what was allocated for it for the
    sixteen lengths that wrap the size to at most 16 bytes. *)
Lemma alloc_msg_fault length ok : 0 <= length < 2 ^ 64 ->
  alloc_msg length ok = Fault <-> ok = true /\ 2 ^ 64 - 23 <= length <= 2 ^ 64 - 8.
Proof.
  change (2 ^ 64) with U64_MOD. intros H. unfold alloc_msg, MSG_HEADER, u64. rewrite payload_16.
  destruct ok; [|rewrite orb_true_r; split; [done|intros [? _]; done]]. rewrite orb_false_r.
  destruct (Z.eqb_spec length 0) as [->|Hz]; [vm_compute; split; [done|intros [_ [X _]]; by destruct (X eq_refl)]|].
  assert (Hc : 24 + length < U64_MOD \/ U64_MOD <= 24 + length < U64_MOD + 24) by lia. destruct Hc as [Hc|Hc].
  - rewrite Z.mod_small by lia. replace (24 + length =? 0) with false by lia.
    pose proof (Z.div_mod (24 + length + 15) 16). pose proof (Z.mod_pos_bound (24 + length + 15) 16).
    replace (_ <? 24) with false by lia. split; [done|lia].
  - rewrite <- (Z.mod_unique (24 + length) (U64_MOD) 1 (24 + length - U64_MOD)) by lia.
    set (s := 24 + length - U64_MOD). pose proof (Z.div_mod (s + 15) 16). pose proof (Z.mod_pos_bound (s + 15) 16).
    destruct (Z.eqb_spec s 0); [split; [done|lia]|]. destruct (Z.ltb_spec ((s + 15) / 16 * 16) 24); split; try done; lia.
Qed.

Definition wraps_size (length : Z) : bool := (2 ^ 64 - 23 <=? length) && (length <=? 2 ^ 64 - 8).

(** C39 (bounds).  A send, whatever it meets while it waits, either completes
    (or sleeps) with every count and reference in order, or is one of the
    sends whose length, taken as a negative number, passes the size check and
    whose allocation wraps to at most 16 bytes: exactly those write the
    header of the message past its end. *)
Theorem timedsend_overruns_iff st hl pl al h length prio ok copied has_timeout hz rounds :
  mq_ok st hl pl al -> h ∈ hl -> 0 <= length < 2 ^ 64 -> 0 <= prio ->
  (forall d, copied = Some d -> Z.of_nat (List.length d) = length /\ length < 2 ^ 63) ->
  (forall i ms, Forall (fair_send h i ms) rounds) ->
  if (Z.land (handle_flags st h) 3 <>? O_RDONLY) && (prio <? MQ_PRIO_MAX) && ok && wraps_size length
  then mqueue_timedsend st h length prio ok copied has_timeout hz rounds = Fault
  else exists rc st' ev, mqueue_timedsend st h length prio ok copied has_timeout hz rounds = Ok (rc, st', ev) /\ settled st'.
Proof.
  intros K Hh Hlen Hp Hc HF. destruct (of_fd_ok _ _ _ _ _ K Hh) as (i & q & E & Q & C). pose proof (held_used _ _ _ _ K h Hh) as U.
  assert (Fl : handle_flags (vfs_handle_acquire h st) h = handle_flags st h).
  { unfold handle_flags, vfs_handle_acquire. rewrite handles_upd, bool_decide_eq_true_2 by (done || by apply used_lt). done. }
  assert (QK : queue_ok q).
  { pose proof C as (hl' & pl' & al' & K' & _). destruct (queue_of _ _ _ _ _ K' (calling_live _ _ _ _ C)) as (q' & Q' & QK & _).
    unfold mq_of_node in Q. rewrite Q in Q'. by injection Q' as ->. }
  destruct (q_cap _ QK) as [_ Hms]. unfold mqueue_timedsend. rewrite E. cbn [rbind]. unfold the_queue. rewrite Q. cbn [rbind].
  rewrite Fl. clear E U Fl K. set (st1 := vfs_handle_acquire h st) in *.
  assert (Leave : forall rc ev st2, calling h i (msgsize q) st2 -> exists rc' st' ev', leave h rc ev st2 = Ok (rc', st', ev') /\ settled st').
  { intros rc ev st2 C2. destruct (leave_ok _ _ _ _ rc ev C2) as (st' & ev' & L & S). eauto. }
  destruct (Z.land (handle_flags st h) 3 =? O_RDONLY) eqn:RO; cbn [negb andb]; [by apply Leave|].
  destruct (Z.leb_spec MQ_PRIO_MAX prio) as [Hp'|Hp']; [replace (prio <? _) with false by lia; by apply Leave|].
  replace (prio <? MQ_PRIO_MAX) with true by lia. cbn [andb].
  pose proof (alloc_msg_fault length ok Hlen) as AF. unfold wraps_size.
  destruct (Z.ltb_spec (msgsize q) (i64 length)) as [Hbig|Hfit].
  - replace ((2 ^ 64 - 23 <=? length) && _) with false; [rewrite andb_false_r; by apply Leave|].
    symmetry. apply andb_false_iff. left. unfold i64 in Hbig. destruct (Z.leb_spec (2 ^ 64 - 23) length) as [Hl|]; [|done]. exfalso.
    rewrite <- (Z.mod_unique (length + 9223372036854775808) U64_MOD 1 (length - 9223372036854775808)) in Hbig by lia. lia.
  - destruct (alloc_msg length ok) as [b|why|] eqn:A.
    + destruct (ok && _) eqn:B.
      { exfalso. bools. discriminate (proj2 AF ltac:(split; [done|lia])). }
      cbn [rbind]. destruct b; cbn [negb]; [|by apply Leave].
      destruct (if length =? 0 then Some [] else copied) as [d|] eqn:D; [|by apply Leave].
      destruct (send_loop_ok h i (mkMsg prio d) (msgsize q) has_timeout hz rounds) with (st := st1) as (r & st2 & -> & C2); try done.
      * unfold len. cbn [data]. destruct (Z.eqb_spec length 0); [injection D as <-; cbn; lia|]. destruct (Hc d D) as [-> Hl].
        unfold i64 in Hfit. rewrite Z.mod_small in Hfit by lia. lia.
      * cbn [rbind]. destruct r as [[rc ev]|]; [by apply Leave|]. do 3 eexists. split; [reflexivity|].
        destruct C2 as (hl2 & pl2 & al2 & K2 & _). by exists (h :: hl2), pl2, al2.
    + unfold alloc_msg in A. repeat break_hyp A; done.
    + destruct AF as [AF _]. destruct (AF eq_refl) as [-> Hw]. cbn [andb rbind].
      replace ((2 ^ 64 - 23 <=? length) && (length <=? 2 ^ 64 - 8)) with true by lia. done.
Qed.
Lemma timedsend_overruns_iff_witness :
  mqueue_timedsend (state demo_open) 0 (2 ^ 64 - 8) 0 true None false 100 [] = Fault.
Proof.
  apply (timedsend_overruns_iff (state demo_open) (held demo_open) (pins demo_open) (asleep demo_open) 0 (2 ^ 64 - 8) 0 true None false 100 []);
    [exact (reachable_sound _ demo_open_reachable)|left|split; [discriminate|reflexivity]|discriminate|discriminate|constructor].
Defined.

Lemma receive_attempt_calling h i ms st : calling h i ms st ->
  exists r st', receive_attempt i st = Ok (r, st') /\ calling h i ms st'.
Proof.
  intros C. pose proof (calling_live _ _ _ _ C) as Hl. destruct C as (hl & pl & al & K & A & N & q & Q & M).
  destruct (queue_of _ _ _ _ _ K Hl) as (q0 & Q0 & QK & _). unfold mq_of_node in Q. rewrite Q in Q0. injection Q0 as <-.
  unfold receive_attempt, the_queue, mq_of_node. rewrite Q. cbn [rbind]. destruct (pop q) as [[m q']|] eqn:E.
  - destruct (pop_ok _ _ _ QK E) as (P1 & P2 & P3 & _). do 2 eexists. split; [reflexivity|]. exists hl, pl, al.
    split_and!; [by apply (put_same_ok _ _ _ _ _ q)|done..|]. exists q'. destruct (put_queue_get st i q' Hl) as [_ G]. split; [done|].
    unfold pop in E. destruct (msgs q); [done|]. by injection E as _ <-.
  - do 2 eexists. split; [reflexivity|]. exists hl, pl, al. split_and!; [done..|]. by exists q.
Qed.
(** Going to sleep and waking up. *)
Lemma add_receivers_size d i st st' q : live (nodes st !!! i) = true -> mq_of_node st i = Some q -> add_receivers d i st = Ok st' ->
  exists q', mq_of_node st' i = Some q' /\ msgsize q' = msgsize q.
Proof.
  intros Hl Q E. unfold add_receivers, the_queue in E. rewrite Q in E. cbn [rbind] in E. injection E as <-.
  eexists. split; [apply (put_queue_get _ _ _ Hl)|done].
Qed.
Lemma sleep_ok h i ms st : calling h i ms st -> exists st', add_receivers 1 i st = Ok st' /\ sleeping h i ms st'.
Proof.
  intros C. pose proof (calling_live _ _ _ _ C) as Hl. destruct C as (hl & pl & al & K & A & <- & q & Q & M).
  destruct (add_receivers_ok st (h :: hl) pl al (h :: al) h 1 K ltac:(left)) as (st' & E & K' & H' & _).
  { intros j. rewrite sleepers_cons. case_bool_decide; lia. }
  { intros k. rewrite !occ_cons. specialize (A k). lia. }
  destruct (add_receivers_size _ _ _ _ _ Hl Q E) as (q' & G1 & G2). exists st'. split; [done|]. exists hl, pl, al.
  split_and!; [done..|by rewrite H'|]. exists q'. split; [done|congruence].
Qed.
Lemma wake_ok h i ms st : sleeping h i ms st -> exists st', add_receivers (-1) i st = Ok st' /\ calling h i ms st'.
Proof.
  intros (hl & pl & al & K & A & <- & q & Q & M). pose proof (mq_held_live _ _ _ _ K h ltac:(left)) as Hl.
  destruct (add_receivers_ok st (h :: hl) pl (h :: al) al h (-1) K ltac:(left)) as (st' & E & K' & H' & _).
  { intros j. rewrite sleepers_cons. case_bool_decide; lia. }
  { intros k. rewrite occ_cons. specialize (A k). lia. }
  destruct (add_receivers_size _ _ _ _ _ Hl Q E) as (q' & G1 & G2). exists st'. split; [done|]. exists hl, pl, al.
  split_and!; [done..|by rewrite H'|]. exists q'. split; [done|congruence].
Qed.

Lemma receive_loop_ok h i ms ht hz rounds : Forall (fair_receive h i ms) rounds ->
  forall st, calling h i ms st -> exists r st', receive_loop h i ht hz rounds st = Ok (r, st') /\
    match r with None => sleeping h i ms st' | Some _ => calling h i ms st' end.
Proof.
  intros F. induction F as [|r rounds [F1 F2] _ IH]; intros st C;
    destruct (receive_attempt_calling _ _ _ _ C) as (a & st1 & E & C1); cbn [receive_loop]; rewrite E; cbn [rbind];
    (destruct a as [ev|]; [do 2 eexists; by split|]); (destruct (handle_flags _ _ &? _); [do 2 eexists; by split|]).
  { destruct (sleep_ok _ _ _ _ C1) as (st2 & -> & S). do 2 eexists. split; [reflexivity|done]. }
  set (st2 := if ht then r_meanwhile r st1 else st1).
  assert (C2 : calling h i ms st2) by (unfold st2; destruct ht; [by apply F1|done]).
  destruct (ht && _); [do 2 eexists; by split|]. pose proof C2 as (hl & pl & al & _ & _ & _ & q & Q & _).
  unfold the_queue at 1. rewrite Q. cbn [rbind]. destruct (ht && _); [by apply IH|]. destruct (r_signal r); [do 2 eexists; by split|].
  destruct (sleep_ok _ _ _ _ C2) as (st3 & -> & S). cbn [rbind].
  destruct (wake_ok _ _ _ _ (F2 _ S)) as (st4 & -> & C4). cbn [rbind]. by apply IH.
Qed.

(** A receive, whatever it meets while it waits, completes or sleeps with
    every count and reference in order. *)
Lemma timedreceive_safe st hl pl al h length data_ok pw pok ht hz rounds :
  mq_ok st hl pl al -> h ∈ hl -> (forall i ms, Forall (fair_receive h i ms) rounds) ->
  exists rc st' ev m, mqueue_timedreceive st h length data_ok pw pok ht hz rounds = Ok (rc, st', ev, m) /\ settled st'.
Proof.
  intros K Hh HF. destruct (of_fd_ok _ _ _ _ _ K Hh) as (i & q & E & Q & C). unfold mqueue_timedreceive. rewrite E.
  cbn [rbind]. unfold the_queue. rewrite Q. cbn [rbind]. set (st1 := vfs_handle_acquire h st) in *.
  assert (Leave : forall rc (m : option mq_msg) st2, calling h i (msgsize q) st2 -> exists rc' st' ev' m',
    (let* '(r, st, ev) := leave h rc [] st2 in Ok (r, st, ev, m)) = Ok (rc', st', ev', m') /\ settled st').
  { intros rc m st2 C2. destruct (leave_ok _ _ _ _ rc [] C2) as (st' & ev' & -> & S). cbn [rbind]. eauto 6. }
  destruct (_ =? O_WRONLY); [by apply Leave|]. destruct (_ <? msgsize q); [by apply Leave|].
  destruct (receive_loop_ok h i (msgsize q) ht hz rounds (HF _ _) st1 C) as (r & st2 & -> & C2). cbn [rbind].
  destruct r as [[rc|m]|]; [by apply Leave| |].
  - destruct (_ && _); [by apply Leave|]. destruct (pw && _); by apply Leave.
  - do 4 eexists. split; [reflexivity|]. destruct C2 as (hl2 & pl2 & al2 & K2 & _). by exists (h :: hl2), pl2, (h :: al2).
Qed.

(** ** Namespace teardown *)

Lemma destroy_loop_ok fuel : forall st hl pl al d, mq_ok st hl pl al -> (length (dirs st !!! d) < fuel)%nat ->
  exists st' ev, destroy_loop fuel d st = Ok (st', ev) /\ mq_ok st' hl pl al /\ dirs st' !!! d = [] /\ mq_roots st' = mq_roots st /\
    (forall x, x <> d -> dirs st' !!! x = dirs st !!! x).
Proof.
  induction fuel as [|fuel IH]; intros st hl pl al d K Hf; [lia|]. cbn [destroy_loop].
  destruct (dirs st !!! d) as [|i l] eqn:E; [unfold destroy_child; rewrite E; cbn [rbind]; do 2 eexists; by split_and!|].
  assert (Hi : i ∈ dirs st !!! d) by (rewrite E; left). unfold destroy_child. rewrite E, (detach_ok _ _ _ _ _ _ K Hi). cbn [rbind].
  destruct (put_ok _ _ _ _ _ (detached_ok _ _ _ _ d i K Hi)) as (st1 & ev & P & K1 & D & _ & R). unfold detached in *. rewrite P. cbn [rbind].
  destruct (IH st1 hl pl al d K1) as (st2 & ev2 & -> & K2 & D2 & R2 & O2).
  { rewrite D. cbn. rewrite list_alter_total by (by apply (elem_dir _ d i)). rewrite bool_decide_eq_true_2, E by done. cbn.
    rewrite bool_decide_eq_true_2 by done. cbn in Hf. lia. }
  cbn [rbind]. do 2 eexists. split_and!; [reflexivity|done|done|by rewrite R2, R|].
  intros x Hx. rewrite O2, D by done. cbn. by rewrite list_alter_total, bool_decide_eq_false_2 by (done || by apply (elem_dir _ d i)).
Qed.
(** Afterwards the namespace has no directory, and the one it had is empty. *)
Lemma ns_destroy_ok st hl pl al n : mq_ok st hl pl al -> 0 <= n < NS_MAX_IPC ->
  exists st' ev, mqueue_ns_destroy n st = Ok (st', ev) /\ mq_ok st' hl pl al /\ zget (mq_roots st') n = None /\
    (forall d, zget (mq_roots st) n = Some d -> dirs st' !!! d = []) /\
    (forall m, 0 <= m < NS_MAX_IPC -> m <> n -> zget (mq_roots st') m = zget (mq_roots st) m) /\
    (forall m d, 0 <= m < NS_MAX_IPC -> m <> n -> zget (mq_roots st) m = Some d -> dirs st' !!! d = dirs st !!! d).
Proof.
  intros K Hn. pose proof (destroy_take_ok _ _ _ _ n K) as KT. destruct (k_len _ _ _ _ K) as [L _].
  unfold mqueue_ns_destroy, destroy_take in *. destruct (Z.leb_spec NS_MAX_IPC n) as [|_]; [lia|]. cbn [snd] in KT. unfold NS_MAX_IPC in *.
  assert (Z : zget (zalter (fun _ => None) n (mq_roots st)) n = None) by (rewrite zget_zalter_eq; [done|lia]).
  assert (Z' : forall m, 0 <= m < 64 -> m <> n -> zget (zalter (fun _ => None) n (mq_roots st)) m = zget (mq_roots st) m)
    by (intros; rewrite zget_zalter_ne; [done|lia..]).
  destruct (zget (mq_roots st) n) as [d|] eqn:Hd; [|do 2 eexists; by split_and!].
  destruct (destroy_loop_ok (S (length (dirs st !!! d))) _ _ _ _ d KT) as (st' & ev & E & K' & D & R & O); [cbn; lia|].
  exists st', ev. split_and!; [exact E|done|by rewrite R|by intros ? [= <-]|intros m Hm Hne; rewrite R; by apply Z'|].
  intros m x Hm Hne Hx. rewrite O; [done|]. intros ->. by apply Hne, (k_roots _ _ _ _ K m n d).
Qed.
End MqueueProofs.
