(* ===== verification/ResourceCaps.v ===== *)
(** Resource caps ([kernel/syscall/resource_caps.c]) and the sysctl files that
    tune them ([kernel/fs/proc/procfs.c]).

    [g_resource_caps] is a record; the four writers parse the text written to
    /proc/sys/kernel and set a cap when it lies between its minimum and its
    ceiling.  The tables sized at compile time and the pipe pool rely on the
    caps staying inside those bounds. *)
From Stdlib Require Import ZifyBool.
From S2P Require Import Prelude.
Local Open Scope Z_scope.
Local Open Scope kernel_scope.

Module ResourceCaps.

Definition CAP_TCP_CEIL := 4096.
Definition CAP_PIPES_CEIL := 4096.
Definition CAP_SHMMAX_CEIL_MB := 256.
Definition CAP_COREDUMP_CEIL := 8 * 1024 * 1024.
Definition CAP_TCP_MIN := 16.
Definition CAP_PIPES_MIN := 16.
Definition CAP_SHMMAX_MIN_MB := 4.
Definition CAP_COREDUMP_MIN := 64 * 1024.

Record resource_caps := mkCaps {
  tcp_max_conns : Z; max_pipes : Z; shmmax_bytes : Z; coredump_max_bytes : Z }.

(** [1024 + (u32)(ram_gb * 512)], clamped. *)
Definition scaled (ram_gb ceil : Z) : Z :=
  let v := u32 (1024 + u32 (u64 (ram_gb * 512))) in
  let v := if v <? 1024 then 1024 else v in
  if ceil <? v then ceil else v.
Definition shm_scaled (ram_gb : Z) : Z :=
  let shm := 32 * 1024 * 1024 in
  let extra := u64 (ram_gb * (8 * 1024 * 1024)) in
  if CAP_SHMMAX_CEIL_MB * 1024 * 1024 <? u64 (shm + extra) then CAP_SHMMAX_CEIL_MB * 1024 * 1024
  else u64 (shm + extra).
Definition resource_caps_init (ram_bytes : Z) : resource_caps :=
  let ram_gb := ram_bytes / (1024 * 1024 * 1024) in
  mkCaps (scaled ram_gb CAP_TCP_CEIL) (scaled ram_gb CAP_PIPES_CEIL) (shm_scaled ram_gb) (1024 * 1024).

Definition resource_caps_set_tcp_max (v : Z) (c : resource_caps) : Z * resource_caps :=
  if (v <? CAP_TCP_MIN) || (CAP_TCP_CEIL <? v) then (- EINVAL, c)
  else (0, mkCaps v (max_pipes c) (shmmax_bytes c) (coredump_max_bytes c)).
Definition resource_caps_set_max_pipes (v : Z) (c : resource_caps) : Z * resource_caps :=
  if (v <? CAP_PIPES_MIN) || (CAP_PIPES_CEIL <? v) then (- EINVAL, c)
  else (0, mkCaps (tcp_max_conns c) v (shmmax_bytes c) (coredump_max_bytes c)).
Definition resource_caps_set_shmmax (v : Z) (c : resource_caps) : Z * resource_caps :=
  let min := CAP_SHMMAX_MIN_MB * 1024 * 1024 in
  let max := CAP_SHMMAX_CEIL_MB * 1024 * 1024 in
  if (v <? min) || (max <? v) then (- EINVAL, c)
  else (0, mkCaps (tcp_max_conns c) (max_pipes c) v (coredump_max_bytes c)).
Definition resource_caps_set_coredump_max (v : Z) (c : resource_caps) : Z * resource_caps :=
  if (v <? CAP_COREDUMP_MIN) || (CAP_COREDUMP_CEIL <? v) then (- EINVAL, c)
  else (0, mkCaps (tcp_max_conns c) (max_pipes c) (shmmax_bytes c) v).

Definition resource_caps_tcp_max (c : resource_caps) : Z :=
  if tcp_max_conns c <>? 0 then tcp_max_conns c else CAP_TCP_CEIL.
Definition resource_caps_pipe_max (c : resource_caps) : Z :=
  if max_pipes c <>? 0 then max_pipes c else CAP_PIPES_CEIL.

(** ** The sysctl files *)

Definition is_space (c : Z) : bool := (c =? 32) || (c =? 9) || (c =? 13) || (c =? 10).
Definition is_digit (c : Z) : bool := (48 <=? c) && (c <=? 57).

Fixpoint skip_space (buf : list Z) : list Z :=
  match buf with
  | c :: rest => if is_space c then skip_space rest else buf
  | [] => []
  end.
(** The digit loop: the value and the rest of the text, [None] on overflow. *)
Fixpoint parse_digits (buf : list Z) (v : Z) : option (Z * list Z) :=
  match buf with
  | c :: rest =>
      if is_digit c then
        let d := c - 48 in
        if (0xFFFFFFFFFFFFFFFF - d) / 10 <? v then None else parse_digits rest (v * 10 + d)
      else Some (v, buf)
  | [] => Some (v, [])
  end.
Definition sysctl_parse_u64 (buf : list Z) : option Z :=
  match skip_space buf with
  | c :: rest =>
      if is_digit c then
        match parse_digits (c :: rest) 0 with
        | Some (v, rest) => if bool_decide (skip_space rest = []) then Some v else None
        | None => None
        end
      else None
  | [] => None
  end.

Definition write_cap (set : Z -> resource_caps -> Z * resource_caps) (limit : Z) (buf : list Z) (c : resource_caps)
    : Z * resource_caps :=
  match sysctl_parse_u64 buf with
  | Some v =>
      if limit <? v then (- EINVAL, c)
      else let '(rc, c') := set v c in
           if rc <? 0 then (- EINVAL, c') else (i32 (Z.of_nat (length buf)), c')
  | None => (- EINVAL, c)
  end.
Definition w_sys_shmmax := write_cap resource_caps_set_shmmax (U64_MOD - 1).
Definition w_sys_tcp_max := write_cap resource_caps_set_tcp_max 0xFFFFFFFF.
Definition w_sys_pipe_max := write_cap resource_caps_set_max_pipes 0xFFFFFFFF.
Definition w_sys_coredump_max := write_cap resource_caps_set_coredump_max (U64_MOD - 1).

(** ** Bounds *)

Definition caps_ok (c : resource_caps) : Prop :=
  CAP_TCP_MIN <= tcp_max_conns c <= CAP_TCP_CEIL /\
  CAP_PIPES_MIN <= max_pipes c <= CAP_PIPES_CEIL /\
  CAP_SHMMAX_MIN_MB * 1024 * 1024 <= shmmax_bytes c <= CAP_SHMMAX_CEIL_MB * 1024 * 1024 /\
  CAP_COREDUMP_MIN <= coredump_max_bytes c <= CAP_COREDUMP_CEIL.

Inductive caps_write (c : resource_caps) : resource_caps -> Prop :=
| write_shmmax buf : caps_write c (snd (w_sys_shmmax buf c))
| write_tcp_max buf : caps_write c (snd (w_sys_tcp_max buf c))
| write_pipe_max buf : caps_write c (snd (w_sys_pipe_max buf c))
| write_coredump_max buf : caps_write c (snd (w_sys_coredump_max buf c)).

Lemma caps_init_ok ram : 0 <= ram < U64_MOD -> caps_ok (resource_caps_init ram).
Proof.
  intros Hr. unfold resource_caps_init. set (gb := ram / _).
  assert (Hg : 0 <= gb <= 17179869184) by (unfold gb; split; [apply Z.div_pos|apply Z.div_le_upper_bound]; lia).
  unfold caps_ok, scaled, shm_scaled. cbn [tcp_max_conns max_pipes shmmax_bytes coredump_max_bytes].
  rewrite (u64_small (gb * 512)), (u64_small (gb * _)), !(u64_small (32 * _ * _ + _)) by lia.
  set (v := u32 (1024 + _)). assert (0 <= v) by apply u32_range.
  unfold CAP_TCP_MIN, CAP_TCP_CEIL, CAP_PIPES_MIN, CAP_PIPES_CEIL, CAP_SHMMAX_MIN_MB, CAP_SHMMAX_CEIL_MB,
    CAP_COREDUMP_MIN, CAP_COREDUMP_CEIL. repeat break_goal; lia.
Qed.

Lemma write_cap_ok set limit buf c :
  (forall v c, caps_ok c -> caps_ok (snd (set v c))) -> caps_ok c -> caps_ok (snd (write_cap set limit buf c)).
Proof.
  intros Hset Hc. unfold write_cap. destruct (sysctl_parse_u64 buf) as [v|]; [|done].
  specialize (Hset v c Hc). destruct (limit <? v); [done|]. destruct (set v c) as [rc c'].
  by destruct (rc <? 0).
Qed.

Lemma caps_write_ok c c' : caps_write c c' -> caps_ok c -> caps_ok c'.
Proof.
  intros [buf|buf|buf|buf] Hc; apply write_cap_ok; try done; clear; intros v c Hc.
  all: unfold caps_ok, resource_caps_set_shmmax, resource_caps_set_tcp_max, resource_caps_set_max_pipes,
    resource_caps_set_coredump_max, CAP_TCP_MIN, CAP_TCP_CEIL, CAP_PIPES_MIN, CAP_PIPES_CEIL, CAP_SHMMAX_MIN_MB,
    CAP_SHMMAX_CEIL_MB, CAP_COREDUMP_MIN, CAP_COREDUMP_CEIL in *; break_goal; simpl; lia.
Qed.

(** (Type.)  Whatever the machine's memory and whatever is written to the
    sysctl files, every cap stays between its minimum and its ceiling, so the
    values the readers return index within the tables compiled for the
    ceilings. *)
Theorem caps_always_in_bounds (ram : Z) (c : resource_caps) :
  0 <= ram < U64_MOD -> rtc caps_write (resource_caps_init ram) c ->
  caps_ok c /\ CAP_TCP_MIN <= resource_caps_tcp_max c <= CAP_TCP_CEIL /\
  CAP_PIPES_MIN <= resource_caps_pipe_max c <= CAP_PIPES_CEIL.
Proof.
  intros Hr Hc. assert (H : caps_ok c) by (eapply rtc_invariant; [apply caps_write_ok|done|by apply caps_init_ok]).
  split; [done|]. destruct H as (Ht & Hp & _). unfold resource_caps_tcp_max, resource_caps_pipe_max.
  unfold CAP_TCP_MIN, CAP_PIPES_MIN in *. destruct (Z.eqb_spec (tcp_max_conns c) 0), (Z.eqb_spec (max_pipes c) 0); simpl; lia.
Qed.

Definition text_100 : list Z := [49; 48; 48; 10].
Lemma caps_always_in_bounds_witness :
  caps_ok (mkCaps 100 1536 41943040 1048576) /\
  CAP_TCP_MIN <= resource_caps_tcp_max (mkCaps 100 1536 41943040 1048576) <= CAP_TCP_CEIL /\
  CAP_PIPES_MIN <= resource_caps_pipe_max (mkCaps 100 1536 41943040 1048576) <= CAP_PIPES_CEIL.
Proof.
  apply (caps_always_in_bounds (1024 * 1024 * 1024)); [lia|].
  apply rtc_once. exact (write_tcp_max (resource_caps_init (1024 * 1024 * 1024)) text_100).
Defined.

(** ** What a sysctl write accepts *)

(** The value of a run of decimal digits. *)
Definition decimal (l : list Z) (v : Z) : Z := foldl (fun v c => v * 10 + (c - 48)) v l.

Lemma decimal_ge l v : Forall (fun c => is_digit c = true) l -> 0 <= v -> v <= decimal l v.
Proof.
  revert v. induction l as [|c l IH]; intros v Hd Hv; simpl; [lia|]. inversion Hd as [|? ? Hc Hl]; subst.
  unfold is_digit in Hc. specialize (IH (v * 10 + (c - 48)) Hl). lia.
Qed.

Lemma parse_digits_value l rest v :
  Forall (fun c => is_digit c = true) l -> (forall c r, rest = c :: r -> is_digit c = false) -> 0 <= v < U64_MOD ->
  parse_digits (l ++ rest) v = if decimal l v <? U64_MOD then Some (decimal l v, rest) else None.
Proof.
  revert v. induction l as [|c l IH]; intros v Hd Hr Hv; cbn [app decimal foldl].
  - rewrite (proj2 (Z.ltb_lt v U64_MOD)) by lia. destruct rest as [|c r]; [done|].
    cbn [parse_digits]. by rewrite (Hr c r eq_refl).
  - inversion Hd as [|? ? Hc Hl]; subst. cbn [parse_digits]. rewrite Hc. unfold is_digit in Hc.
    pose proof (decimal_ge l (v * 10 + (c - 48)) Hl) as Hge. unfold decimal in *.
    destruct (Z.ltb_spec ((18446744073709551615 - (c - 48)) / 10) v) as [H|H].
    + pose proof (Z.mul_succ_div_gt (18446744073709551615 - (c - 48)) 10 ltac:(lia)).
      rewrite (proj2 (Z.ltb_ge _ _)); [done|]. lia.
    + pose proof (Z.mul_div_le (18446744073709551615 - (c - 48)) 10 ltac:(lia)). apply IH; [done..|]. lia.
Qed.

Lemma skip_space_split buf : exists pre, buf = pre ++ skip_space buf /\ Forall (fun c => is_space c = true) pre /\
  forall c r, skip_space buf = c :: r -> is_space c = false.
Proof.
  induction buf as [|c buf (pre & IH & Hp & Hn)]; cbn [skip_space]; [by exists []|].
  destruct (is_space c) eqn:E.
  - exists (c :: pre). split; [by rewrite IH at 1|]. split; [by constructor|done].
  - exists []. split; [done|]. split; [done|]. by intros ?? [= <- <-].
Qed.
Lemma skip_space_app pre rest : Forall (fun c => is_space c = true) pre ->
  (forall c r, rest = c :: r -> is_space c = false) -> skip_space (pre ++ rest) = rest.
Proof.
  induction 1 as [|c pre Hc _ IH]; intros Hr; cbn [app skip_space].
  - destruct rest as [|c r]; [done|]. cbn [skip_space]. by rewrite (Hr c r eq_refl).
  - rewrite Hc. by apply IH.
Qed.
Lemma digits_split buf : exists ds rest, buf = ds ++ rest /\ Forall (fun c => is_digit c = true) ds /\
  forall c r, rest = c :: r -> is_digit c = false.
Proof.
  induction buf as [|c buf (ds & rest & -> & Hd & Hr)]; [by exists [], []|].
  destruct (is_digit c) eqn:E.
  - exists (c :: ds), rest. split; [done|]. split; [by constructor|done].
  - exists [], (c :: ds ++ rest). split; [done|]. split; [done|]. by intros ?? [= <- <-].
Qed.
Lemma digit_not_space c : is_digit c = true -> is_space c = false.
Proof. unfold is_digit, is_space. lia. Qed.

(** Text that is a decimal number with white space around it. *)
Definition number_text (buf ds : list Z) : Prop :=
  exists pre post, buf = pre ++ ds ++ post /\ ds <> [] /\ Forall (fun c => is_space c = true) pre /\
    Forall (fun c => is_digit c = true) ds /\ Forall (fun c => is_space c = true) post.

Lemma parse_number pre ds post : ds <> [] -> Forall (fun c => is_space c = true) pre ->
  Forall (fun c => is_digit c = true) ds -> Forall (fun c => is_space c = true) post ->
  sysctl_parse_u64 (pre ++ ds ++ post) = if decimal ds 0 <? U64_MOD then Some (decimal ds 0) else None.
Proof.
  intros Hne Hpre Hds Hpost. destruct ds as [|c ds]; [done|]. unfold sysctl_parse_u64.
  assert (Hc : is_digit c = true) by (by inversion Hds).
  rewrite skip_space_app; [|done|intros ?? [= <- <-]; by apply digit_not_space]. cbn [app]. rewrite Hc, app_comm_cons.
  rewrite parse_digits_value; [|done| |lia].
  - destruct (_ <? U64_MOD); [|done]. rewrite bool_decide_eq_true_2; [done|].
    rewrite <- (app_nil_r post). apply skip_space_app; [done|]. by intros.
  - intros x r ->. inversion Hpost as [|? ? Hx _]. destruct (is_digit x) eqn:E; [|done].
    apply digit_not_space in E. congruence.
Qed.

(** (Functional.)  A sysctl file accepts exactly a decimal number, with
    white space allowed before and after it, whose value fits in 64 bits, and
    yields that value: the overflow test of the digit loop is exact. *)
Theorem sysctl_parse_exact (buf : list Z) (v : Z) :
  sysctl_parse_u64 buf = Some v <-> exists ds, number_text buf ds /\ v = decimal ds 0 /\ v < U64_MOD.
Proof.
  split.
  - intros H. destruct (skip_space_split buf) as (pre & Hb & Hpre & _).
    destruct (digits_split (skip_space buf)) as (ds & rest & Hs & Hds & Hrest).
    destruct (skip_space_split rest) as (post & Hr & Hpost & _). rewrite Hs in Hb.
    unfold sysctl_parse_u64 in H. rewrite Hs in H. destruct (ds ++ rest) as [|c l] eqn:E; [done|].
    destruct (is_digit c) eqn:Ec; [|done]. rewrite <- E in H. rewrite parse_digits_value in H by (done || lia).
    destruct (Z.ltb_spec (decimal ds 0) U64_MOD); [|done]. destruct (bool_decide _) eqn:Eb; [|done].
    apply bool_decide_eq_true in Eb. injection H as <-. rewrite Eb, app_nil_r in Hr. subst rest.
    exists ds. split; [|done]. exists pre, post. split_and!; try done; [by rewrite Hb, E|].
    destruct ds; [|done]. simpl in E. by rewrite (Hrest c l E) in Ec.
  - intros (ds & (pre & post & -> & Hne & Hpre & Hds & Hpost) & -> & Hv).
    rewrite parse_number by done. by rewrite (proj2 (Z.ltb_lt _ _)).
Qed.
End ResourceCaps.
