(* ===== verification/Shm.v ===== *)
(** System V shared memory ([kernel/ipc/shm.c]).

    The state is the two tables under [shm_lock]: the segments and the attach
    slots of each process.  What the code asks of the memory manager outside
    the lock -- allocating and freeing frames, mapping and unmapping pages --
    is the list of calls each operation makes, in order; the allocators'
    answers are inputs.  [shmget] and [shmat] drop the lock half way, so each
    is two definitions, one per critical section, between which other
    operations may run. *)
From S2P Require Import Prelude Cred UserNs IpcNs.
Local Open Scope Z_scope.
Local Open Scope kernel_scope.

Module Shm.
Import IpcNs.

Definition PAGE_SIZE := 4096.
Definition SHMMNI := 32.
Definition SHMMIN := 1.
Definition SHM_RDONLY := 4096.
Definition SHM_DEST := 512.
Definition SHM_MAX_ATTACH_PER_PROC := 8.
Definition MAX_PROC_ATTACH := 32.
Definition IPC_RMID := 0.
Definition IPC_SET := 1.
Definition IPC_STAT := 2.
Definition SHM_LOCK := 11.
Definition SHM_UNLOCK := 12.

Record shmid_ds := mkDs {
  shm_perm : ipc_perm; shm_segsz : Z; shm_atime : Z; shm_dtime : Z; shm_ctime : Z;
  shm_cpid : Z; shm_lpid : Z; shm_nattch : Z; shm_npages : Z }.
Record shm_segment := mkSeg {
  used : bool; key : Z; ns : Z; ds : shmid_ds; physical_pages : option (list Z); page_count : Z }.
Record shm_attach := mkAt { at_used : bool; at_shmid : Z; virtual_addr : Z }.
Record proc_attachments := mkPa { pa_pid : Z; attaches : list shm_attach }.
Record shm_state := mkShm { shm_segments : list shm_segment; shm_seq : Z; proc_attaches : list proc_attachments }.

Definition ds_zero : shmid_ds := mkDs (mkPerm 0 0 0 0 0 0 0) 0 0 0 0 0 0 0 0.
Definition seg_zero : shm_segment := mkSeg false 0 0 ds_zero None 0.
Definition at_zero : shm_attach := mkAt false 0 0.
Definition pa_zero : proc_attachments := mkPa 0 (replicate 8 at_zero).
#[global] Instance shm_segment_inhabited : Inhabited shm_segment := populate seg_zero.
#[global] Instance shm_attach_inhabited : Inhabited shm_attach := populate at_zero.
#[global] Instance proc_attachments_inhabited : Inhabited proc_attachments := populate pa_zero.

(** Calls into the memory manager. *)
Inductive mm_call :=
| PmmAlloc (frame : Z) | PmmFree (frame : Z) | PmmRef (frame : Z)
| VmmMap (pid vaddr frame flags : Z) | VmmUnmap (pid vaddr : Z)
| VmaInsert (pid start end_ prot : Z) | VmaDelete (pid start end_ : Z).

(** [shm_init]; the sequence number is not reset. *)
Definition shm_init (st : shm_state) : shm_state := mkShm (replicate 32 seg_zero) (shm_seq st) (replicate 32 pa_zero).
Definition shm_boot : shm_state := mkShm (replicate 32 seg_zero) 0 (replicate 32 pa_zero).

(** ** Updates *)

Definition set_segs (l : list shm_segment) (st : shm_state) := mkShm l (shm_seq st) (proc_attaches st).
Definition set_procs (l : list proc_attachments) (st : shm_state) := mkShm (shm_segments st) (shm_seq st) l.
Definition seg_at (st : shm_state) (i : Z) : shm_segment := zget (shm_segments st) i.
Definition upd_seg (f : shm_segment -> shm_segment) (i : Z) (st : shm_state) : shm_state :=
  set_segs (zalter f i (shm_segments st)) st.
Definition slot_at (st : shm_state) (p s : nat) : shm_attach := attaches (proc_attaches st !!! p) !!! s.
Definition upd_slot (f : shm_attach -> shm_attach) (p s : nat) (st : shm_state) : shm_state :=
  set_procs (alter (fun pa => mkPa (pa_pid pa) (alter f s (attaches pa))) p (proc_attaches st)) st.

Definition set_ds (f : shmid_ds -> shmid_ds) (g : shm_segment) : shm_segment :=
  mkSeg (used g) (key g) (ns g) (f (ds g)) (physical_pages g) (page_count g).
Definition set_mode (m : Z) (p : ipc_perm) : ipc_perm :=
  mkPerm (p_uid p) (p_gid p) (p_cuid p) (p_cgid p) m (p_seq p) (p_key p).
Definition set_perm (p : ipc_perm) (d : shmid_ds) : shmid_ds :=
  mkDs p (shm_segsz d) (shm_atime d) (shm_dtime d) (shm_ctime d) (shm_cpid d) (shm_lpid d) (shm_nattch d) (shm_npages d).
Definition set_nattch (n : Z) (d : shmid_ds) : shmid_ds :=
  mkDs (shm_perm d) (shm_segsz d) (shm_atime d) (shm_dtime d) (shm_ctime d) (shm_cpid d) (shm_lpid d) n (shm_npages d).
Definition set_lpid (p : Z) (d : shmid_ds) : shmid_ds :=
  mkDs (shm_perm d) (shm_segsz d) (shm_atime d) (shm_dtime d) (shm_ctime d) (shm_cpid d) p (shm_nattch d) (shm_npages d).
Definition set_atime (t : Z) (d : shmid_ds) : shmid_ds :=
  mkDs (shm_perm d) (shm_segsz d) t (shm_dtime d) (shm_ctime d) (shm_cpid d) (shm_lpid d) (shm_nattch d) (shm_npages d).
Definition set_dtime (t : Z) (d : shmid_ds) : shmid_ds :=
  mkDs (shm_perm d) (shm_segsz d) (shm_atime d) t (shm_ctime d) (shm_cpid d) (shm_lpid d) (shm_nattch d) (shm_npages d).
Definition set_ctime (t : Z) (d : shmid_ds) : shmid_ds :=
  mkDs (shm_perm d) (shm_segsz d) (shm_atime d) (shm_dtime d) t (shm_cpid d) (shm_lpid d) (shm_nattch d) (shm_npages d).
Definition mode (g : shm_segment) : Z := p_mode (shm_perm (ds g)).
Definition nattch (g : shm_segment) : Z := shm_nattch (ds g).

(** [if (seg->ds.shm_nattch > 0) seg->ds.shm_nattch--] *)
Definition dec_nattch (g : shm_segment) : shm_segment :=
  if 0 <? nattch g then set_ds (set_nattch (nattch g - 1)) g else g.
Definition inc_nattch (g : shm_segment) : shm_segment := set_ds (set_nattch (u32 (nattch g + 1))) g.

(** ** Helpers *)

Definition find_proc_attaches (st : shm_state) (pid : Z) : option nat :=
  first_index (fun pa => pa_pid pa =? pid) (proc_attaches st).

Definition find_or_create_proc_attaches (st : shm_state) (pid : Z) : option nat * shm_state :=
  match find_proc_attaches st pid with
  | Some p => (Some p, st)
  | None =>
      match first_index (fun pa => pa_pid pa =? 0) (proc_attaches st) with
      | Some p => (Some p, set_procs (<[p := mkPa pid (replicate 8 at_zero)]> (proc_attaches st)) st)
      | None => (None, st)
      end
  end.

Definition find_proc_attach_slot (pa : proc_attachments) : option nat :=
  first_index (fun a => negb (at_used a)) (attaches pa).

Definition seg_lookup (st : shm_state) (shmid n : Z) : option shm_segment :=
  if (shmid <? 0) || (SHMMNI <=? shmid) then None
  else let g := seg_at st shmid in
       if negb (used g) || (ns g <>? n) then None else Some g.

Definition free_pages_array (pages : option (list Z)) (npages : Z) : list mm_call :=
  match pages with
  | None => []
  | Some l => PmmFree <$> List.filter (fun f => f <>? 0) (take (Z.to_nat npages) l)
  end.

(** The slot is cleared; its frames are the caller's to free. *)
Definition seg_release (g : shm_segment) : shm_segment * option (list Z) * Z :=
  (seg_zero, physical_pages g, page_count g).
Definition seg_maybe_destroy (g : shm_segment) : shm_segment * option (list Z) * Z :=
  if negb (used g) || (nattch g <>? 0) || negb (mode g &? SHM_DEST) then (g, None, 0) else seg_release g.

(** [dead = seg_maybe_destroy(&shm_segments[i], &dn); ... free_pages_array(dead, dn)] *)
Definition maybe_destroy_at (i : Z) (st : shm_state) : shm_state * list mm_call :=
  let '(g, dead, dn) := seg_maybe_destroy (seg_at st i) in
  (upd_seg (fun _ => g) i st, free_pages_array dead dn).

(** ** shmget *)

Definition shm_key_matches (n k : Z) (g : shm_segment) : bool :=
  used g && (ns g =? n) && (key g =? k) && negb (mode g &? SHM_DEST).

(** The first critical section: an answer, or a slot claimed for so many pages. *)
Definition claim_slot (st : shm_state) (n k size shmmax : Z) : (Z + nat * Z) * shm_state :=
  if (size <? SHMMIN) || (shmmax <? size) then (inl (- EINVAL), st)
  else
    let npages := i32 (u64 (size + PAGE_SIZE - 1) / PAGE_SIZE) in
    match first_index (fun g => negb (used g)) (shm_segments st) with
    | None => (inl (- ENOSPC), st)
    | Some i => (inr (i, npages),
        set_segs (<[i := mkSeg true k n (set_perm (set_mode SHM_DEST (shm_perm ds_zero)) ds_zero) None 0]> (shm_segments st)) st)
    end.
Definition shmget_claim (e : ipc_env) (shmmax : Z) (st : shm_state) (k size shmflg : Z)
    : (Z + nat * Z) * shm_state :=
  let create := shmflg &? IPC_CREAT in
  let excl := shmflg &? IPC_EXCL in
  let n := ipc_current_ns e in
  if k <>? 0 then
    match first_index (shm_key_matches n k) (shm_segments st) with
    | Some i =>
        let g := shm_segments st !!! i in
        (inl (if create && excl then - EEXIST
              else if shm_segsz (ds g) <? size then - EINVAL
              else if ipc_check_perm e (shm_perm (ds g)) n (u16 (Z.land shmflg 511)) <>? 0 then - EACCES
              else Z.of_nat i), st)
    | None => if create then claim_slot st n k size shmmax else (inl (- ENOENT), st)
    end
  else claim_slot st n k size shmmax.

(** The frames of a new segment: the answers of [pmm_alloc_frame], 0 for a
    failure, which ends the loop and leaves the rest of the array zero. *)
Fixpoint alloc_frames (n : nat) (answers : list Z) : list Z * bool :=
  match n with
  | O => ([], true)
  | S n' =>
      match answers with
      | f :: rest =>
          if f =? 0 then (replicate n 0, false)
          else let '(l, ok) := alloc_frames n' rest in (f :: l, ok)
      | [] => (replicate n 0, false)
      end
  end.
Definition allocs (l : list Z) : list mm_call := PmmAlloc <$> List.filter (fun f => f <>? 0) l.

Definition new_segment (e : ipc_env) (g : shm_segment) (seq k size shmflg npages : Z) (pages : list Z) : shm_segment :=
  let uid := match cur_cred e with Some c => Cred.euid c | None => 0 end in
  let gid := match cur_cred e with Some c => Cred.egid c | None => 0 end in
  mkSeg (used g) (key g) (ns g)
    (mkDs (mkPerm uid gid uid gid (u16 (Z.land shmflg 511)) seq k) size
       (shm_atime (ds g)) (shm_dtime (ds g)) (now e) (cur_pid e) 0 0 (u32 npages))
    (Some pages) npages.

(** The second critical section: publish the segment, or give the slot back. *)
Definition shmget_publish (e : ipc_env) (st : shm_state) (i : nat) (npages k size shmflg : Z)
    (kzalloc_ok : bool) (answers : list Z) : Z * shm_state * list mm_call :=
  let '(pages, got) := alloc_frames (Z.to_nat npages) answers in
  let st_fail := set_segs (alter (fun _ => seg_zero) i (shm_segments st)) st in
  if negb kzalloc_ok then (- ENOMEM, st_fail, [])
  else if negb got then (- ENOMEM, st_fail, allocs pages ++ free_pages_array (Some pages) npages)
  else (Z.of_nat i,
        mkShm (alter (fun g => new_segment e g (shm_seq st) k size shmflg npages pages) i (shm_segments st))
          (u16 (shm_seq st + 1)) (proc_attaches st),
        allocs pages).

Definition shmget (e : ipc_env) (shmmax : Z) (st : shm_state) (k size shmflg : Z)
    (meanwhile : shm_state -> shm_state) (kzalloc_ok : bool) (answers : list Z) : Z * shm_state * list mm_call :=
  match shmget_claim e shmmax st k size shmflg with
  | (inl rc, st) => (rc, st, [])
  | (inr (i, npages), st) => shmget_publish e (meanwhile st) i npages k size shmflg kzalloc_ok answers
  end.

(** ** shmat *)

(** What [shmat] keeps across the unlocked part. *)
Record attaching := mkAttaching {
  a_pid : Z; a_pa : nat; a_slot : nat; a_shmid : Z; a_npages : Z; a_pages : list Z; a_flg : Z }.

Definition shmat_reserve (e : ipc_env) (st : shm_state) (shmid shmflg : Z) : (Z + attaching) * shm_state :=
  let pid := cur_pid e in
  let n := ipc_current_ns e in
  match seg_lookup st shmid n with
  | None => (inl (- EINVAL), st)
  | Some g =>
      match physical_pages g with
      | None => (inl (- EINVAL), st)
      | Some pages =>
          let acc := if shmflg &? SHM_RDONLY then 256 else 384 in
          if ipc_check_perm e (shm_perm (ds g)) n acc <>? 0 then (inl (- EACCES), st)
          else
            let '(pa, st) := find_or_create_proc_attaches st pid in
            match pa with
            | None => (inl (- EMFILE), st)
            | Some p =>
                match find_proc_attach_slot (proc_attaches st !!! p) with
                | None => (inl (- EMFILE), st)
                | Some s =>
                    (inr (mkAttaching pid p s shmid (page_count g) pages shmflg),
                     upd_seg (fun g => set_ds (set_lpid pid) (inc_nattch g)) shmid
                       (upd_slot (fun _ => mkAt true shmid 0) p s st))
                end
            end
      end
  end.

Definition VMM_PRESENT := 1.
Definition VMM_WRITABLE := 2.
Definition VMM_USER := 4.
Definition VMM_SHARED := Z.shiftl 1 52.
Definition PROT_READ := 1.
Definition PROT_WRITE := 2.

Definition page_vaddr (vaddr : Z) (p : nat) : Z := u64 (vaddr + Z.of_nat p * PAGE_SIZE).
Definition map_pages (a : attaching) (vaddr : Z) : list mm_call :=
  let flags := Z.lor (Z.lor VMM_USER (Z.lor VMM_SHARED VMM_PRESENT))
                 (if a_flg a &? SHM_RDONLY then 0 else VMM_WRITABLE) in
  concat (imap (fun p f => [VmmMap (a_pid a) (page_vaddr vaddr p) f flags; PmmRef f])
    (take (Z.to_nat (a_npages a)) (a_pages a))).
Definition unmap_pages (pid vaddr : Z) (n : nat) : list mm_call :=
  (fun p => VmmUnmap pid (page_vaddr vaddr p)) <$> seq 0 n.

(** [fail_unreserve] *)
Definition shmat_unreserve (st : shm_state) (a : attaching) : shm_state * list mm_call :=
  let st := upd_slot (fun t => mkAt false 0 (virtual_addr t)) (a_pa a) (a_slot a) st in
  maybe_destroy_at (a_shmid a) (upd_seg dec_nattch (a_shmid a) st).

(** After the reservation; [vaddr] is the answer of [vm_find_free_area]
    ([None] for -1) and [vma_ok] whether the area's record was allocated. *)
Definition shmat_finish (e : ipc_env) (st : shm_state) (a : attaching) (vaddr : option Z) (vma_ok : bool)
    : Z * shm_state * list mm_call :=
  match vaddr with
  | None => let '(st, calls) := shmat_unreserve st a in (- ENOMEM, st, calls)
  | Some v =>
      let mapped := map_pages a v in
      if negb vma_ok then
        let '(st, calls) := shmat_unreserve st a in
        (- ENOMEM, st, mapped ++ unmap_pages (a_pid a) v (Z.to_nat (a_npages a)) ++ calls)
      else
        (v, upd_seg (set_ds (set_atime (now e))) (a_shmid a)
              (upd_slot (fun t => mkAt (at_used t) (at_shmid t) v) (a_pa a) (a_slot a) st),
         mapped ++ [VmaInsert (a_pid a) v (u64 (v + a_npages a * PAGE_SIZE))
                      (if a_flg a &? SHM_RDONLY then PROT_READ else Z.lor PROT_READ PROT_WRITE)])
  end.

Definition shmat (e : ipc_env) (st : shm_state) (shmid shmflg : Z) (meanwhile : shm_state -> shm_state)
    (vaddr : option Z) (vma_ok : bool) : Z * shm_state * list mm_call :=
  match shmat_reserve e st shmid shmflg with
  | (inl rc, st) => (rc, st, [])
  | (inr a, st) => shmat_finish e (meanwhile st) a vaddr vma_ok
  end.

(** ** shmdt *)

(** The pages of the loop [for (v = vaddr; v < vaddr + size; v += PAGE_SIZE)]. *)
Definition span_pages (vaddr size : Z) : nat := Z.to_nat ((u64 (vaddr + size) - vaddr + PAGE_SIZE - 1) / PAGE_SIZE).

Definition shmdt (e : ipc_env) (st : shm_state) (shmaddr : Z) : Z * shm_state * list mm_call :=
  let pid := cur_pid e in
  match find_proc_attaches st pid with
  | None => (- EINVAL, st, [])
  | Some p =>
      match first_index (fun a => at_used a && (virtual_addr a =? shmaddr)) (attaches (proc_attaches st !!! p)) with
      | None => (- EINVAL, st, [])
      | Some s =>
          let shmid := at_shmid (slot_at st p s) in
          let size := u64 (page_count (seg_at st shmid) * PAGE_SIZE) in
          let st := upd_slot (fun _ => mkAt false 0 0) p s st in
          let st := upd_seg (fun g => set_ds (fun d => set_lpid pid (set_dtime (now e) d)) (dec_nattch g)) shmid st in
          let '(st, dead) := maybe_destroy_at shmid st in
          if shmid <? 0 then (- EINVAL, st, [])
          else (0, st, unmap_pages pid shmaddr (span_pages shmaddr size) ++
                       [VmaDelete pid shmaddr (u64 (shmaddr + size))] ++ dead)
      end
  end.

(** ** shmctl and the other entry points *)

(** Gone from the key space; the frames go at the last detach. *)
Definition mark_dest (g : shm_segment) : shm_segment :=
  let p := shm_perm (ds g) in
  mkSeg (used g) 0 (ns g)
    (set_perm (mkPerm (p_uid p) (p_gid p) (p_cuid p) (p_cgid p) (Z.lor (p_mode p) SHM_DEST) (p_seq p) 0) (ds g))
    (physical_pages g) (page_count g).
Definition set_owner (e : ipc_env) (b : shmid_ds) (g : shm_segment) : shm_segment :=
  let p := shm_perm (ds g) in
  set_ds (fun d => set_ctime (now e) (set_perm (mkPerm (p_uid (shm_perm b)) (p_gid (shm_perm b)) (p_cuid p) (p_cgid p)
    (u16 (Z.lor (Z.land (p_mode p) (Z.lnot 511)) (Z.land (p_mode (shm_perm b)) 511))) (p_seq p) (p_key p)) d)) g.

Definition shmctl (e : ipc_env) (st : shm_state) (shmid cmd : Z) (buf : option shmid_ds)
    : Z * shm_state * list mm_call * option shmid_ds :=
  let n := ipc_current_ns e in
  match seg_lookup st shmid n with
  | None => (- EINVAL, st, [], None)
  | Some g =>
      match physical_pages g with
      | None => (- EINVAL, st, [], None)
      | Some _ =>
          if cmd =? IPC_RMID then
            if negb (ipc_may_control e (shm_perm (ds g)) n) then (- EPERM, st, [], None)
            else let '(st, dead) := maybe_destroy_at shmid (upd_seg mark_dest shmid st) in (0, st, dead, None)
          else if cmd =? IPC_STAT then
            if ipc_check_perm e (shm_perm (ds g)) n 256 <>? 0 then (- EACCES, st, [], None)
            else match buf with Some _ => (0, st, [], Some (ds g)) | None => (- EINVAL, st, [], None) end
          else if cmd =? IPC_SET then
            if negb (ipc_may_control e (shm_perm (ds g)) n) then (- EPERM, st, [], None)
            else match buf with
                 | Some b => (0, upd_seg (set_owner e b) shmid st, [], None)
                 | None => (- EINVAL, st, [], None)
                 end
          else if (cmd =? SHM_LOCK) || (cmd =? SHM_UNLOCK) then
            ((if ipc_may_control e (shm_perm (ds g)) n then 0 else - EPERM), st, [], None)
          else (- EINVAL, st, [], None)
      end
  end.

Definition shm_stat_index (e : ipc_env) (st : shm_state) (idx : Z) (out : bool) : Z * option shmid_ds :=
  match seg_lookup st idx (ipc_current_ns e) with
  | Some g => match physical_pages g with
              | Some _ => if out then (0, Some (ds g)) else (- EINVAL, None)
              | None => (- EINVAL, None)
              end
  | None => (- EINVAL, None)
  end.

(** One round of the loop of [shm_ns_destroy], under the lock. *)
Definition ns_destroy_one (n : Z) (i : nat) (st : shm_state) : shm_state * list mm_call :=
  let g := seg_at st (Z.of_nat i) in
  if used g && (ns g =? n) && bool_decide (is_Some (physical_pages g))
  then maybe_destroy_at (Z.of_nat i) (upd_seg mark_dest (Z.of_nat i) st)
  else (st, []).
Fixpoint fold_calls {A} (f : A -> shm_state -> shm_state * list mm_call) (l : list A) (st : shm_state)
    : shm_state * list mm_call :=
  match l with
  | [] => (st, [])
  | x :: l => let '(st, c) := f x st in let '(st, c') := fold_calls f l st in (st, c ++ c')
  end.
Definition shm_ns_destroy (n : Z) (st : shm_state) : shm_state * list mm_call :=
  fold_calls (ns_destroy_one n) (seq 0 32) st.

Definition shm_get_process_attaches (st : shm_state) (pid : Z) : option (list shm_attach) :=
  (fun p => attaches (proc_attaches st !!! p)) <$> find_proc_attaches st pid.

(** One slot of a process that exits. *)
Definition exit_slot (a : shm_attach) (st : shm_state) : shm_state * list mm_call :=
  let i := at_shmid a in
  if at_used a && (0 <=? i) && (i <? SHMMNI) && used (seg_at st i) && (0 <? nattch (seg_at st i))
  then maybe_destroy_at i (upd_seg (set_ds (fun d => set_nattch (shm_nattch d - 1) d)) i st)
  else (st, []).
Definition shm_account_exit (pid : Z) (st : shm_state) : shm_state * list mm_call :=
  match find_proc_attaches st pid with
  | None => (st, [])
  | Some p =>
      let '(st, dead) := fold_calls exit_slot (attaches (proc_attaches st !!! p)) st in
      (set_procs (<[p := mkPa 0 (replicate 8 at_zero)]> (proc_attaches st)) st, dead)
  end.

(** The loop over the parent's slots; [c] is the child's entry once found. *)
Fixpoint fork_slots (child_pid : Z) (l : list shm_attach) (c : option nat) (st : shm_state) : shm_state :=
  match l with
  | [] => st
  | a :: l =>
      if negb (at_used a) then fork_slots child_pid l c st
      else
        let '(c, st) := match c with Some _ => (c, st) | None => find_or_create_proc_attaches st child_pid end in
        match c with
        | None => st
        | Some q =>
            match find_proc_attach_slot (proc_attaches st !!! q) with
            | None => st
            | Some s =>
                let i := at_shmid a in
                let st := upd_slot (fun _ => mkAt true i (virtual_addr a)) q s st in
                let st := if (0 <=? i) && (i <? SHMMNI) && used (seg_at st i) then upd_seg inc_nattch i st else st in
                fork_slots child_pid l c st
            end
        end
  end.
Definition shm_fork_inherit (parent_pid child_pid : Z) (st : shm_state) : shm_state :=
  match find_proc_attaches st parent_pid with
  | None => st
  | Some p => fork_slots child_pid (attaches (proc_attaches st !!! p)) None st
  end.

End Shm.
