(* ===== verification/ShmProofs.v ===== *)
(** Shared memory: attach counts, the fate of removed segments, and frames.

    The operations of [Shm] run against a ledger of the memory manager's
    books: the reference count of each frame and the pages mapped in each
    process.  The ledger refuses what the frame allocator panics on (a
    reference to, or a second free of, a frame nobody owns).  A system is the
    tables, the ledger and the calls of [shmget] and [shmat] that are between
    their two critical sections. *)
From Stdlib Require Import ZifyBool.
From S2P Require Import Prelude Cred UserNs IpcNs ResourceCaps Shm.
From stdpp Require Import list.
Local Open Scope Z_scope.
Local Open Scope kernel_scope.

Module ShmProofs.
Import IpcNs Shm.

(** ** The memory manager's books *)

Record ledger := mkLedger { refs : Z -> Z; maps : list (Z * Z * Z) (* process, address, frame *) }.

Definition bump (f d : Z) (r : Z -> Z) : Z -> Z := fun g => if g =? f then r g + d else r g.
Definition at_page (pid v : Z) (m : Z * Z * Z) : bool := (fst (fst m) =? pid) && (snd (fst m) =? v).

(** [None] where [pmm_ref_frame] or [pmm_free_frame] panics. *)
Definition apply_call (l : ledger) (c : mm_call) : option ledger :=
  match c with
  | PmmAlloc f => Some (mkLedger (bump f 1 (refs l)) (maps l))
  | PmmFree f => if 0 <? refs l f then Some (mkLedger (bump f (-1) (refs l)) (maps l)) else None
  | PmmRef f => if 0 <? refs l f then Some (mkLedger (bump f 1 (refs l)) (maps l)) else None
  | VmmMap pid v f _ => Some (mkLedger (refs l) ((pid, v, f) :: maps l))
  | VmmUnmap pid v =>
      match first_index (at_page pid v) (maps l) with
      | None => Some l
      | Some i =>
          let f := snd (maps l !!! i) in
          if 0 <? refs l f then Some (mkLedger (bump f (-1) (refs l)) (delete i (maps l))) else None
      end
  | VmaInsert _ _ _ _ | VmaDelete _ _ _ => Some l
  end.
Fixpoint apply_calls (l : ledger) (cs : list mm_call) : option ledger :=
  match cs with
  | [] => Some l
  | c :: cs => match apply_call l c with Some l => apply_calls l cs | None => None end
  end.

(** ** Systems *)

Record sys := mkSys {
  tables : shm_state; books : ledger;
  creating : list (nat * Z);          (* shmget: slot claimed, pages wanted *)
  pending : list attaching            (* shmat: slot reserved *) }.

Inductive op :=
| OClaim (e : ipc_env) (caps : ResourceCaps.resource_caps) (k size flg : Z)
| OPublish (e : ipc_env) (n : nat) (k size flg : Z) (kzalloc_ok : bool) (answers : list Z)
| OReserve (e : ipc_env) (shmid flg : Z)
| OFinish (e : ipc_env) (n : nat) (vaddr : option Z) (vma_ok : bool)
| ODetach (e : ipc_env) (addr : Z)
| OControl (e : ipc_env) (shmid cmd : Z) (buf : option shmid_ds)
| ODestroy (n : Z) (i : nat)
| OFork (parent child : Z)
| OExit (pid : Z)
| OUnmap (pid v : Z).

(** What the page tables do around the operations: [fork] maps the parent's
    shared pages in the child, and the teardown of an address space unmaps
    what is left. *)
Definition clone_calls (parent child : Z) (m : list (Z * Z * Z)) : list mm_call :=
  concat ((fun m => [VmmMap child (snd (fst m)) (snd m) 0; PmmRef (snd m)]) <$>
    List.filter (fun m => fst (fst m) =? parent) m).
Definition teardown_calls (pid : Z) (m : list (Z * Z * Z)) : list mm_call :=
  (fun m => VmmUnmap pid (snd (fst m))) <$> List.filter (fun m => fst (fst m) =? pid) m.

(** The operation on the tables, the calls it makes, and what is in flight after. *)
Definition effect (o : op) (s : sys) : shm_state * list mm_call * list (nat * Z) * list attaching :=
  let st := tables s in
  match o with
  | OClaim e caps k size flg =>
      match shmget_claim e (ResourceCaps.shmmax_bytes caps) st k size flg with
      | (inl _, st) => (st, [], creating s, pending s)
      | (inr c, st) => (st, [], c :: creating s, pending s)
      end
  | OPublish e n k size flg kz answers =>
      match creating s !! n with
      | Some (i, np) =>
          let '(_, st, calls) := shmget_publish e st i np k size flg kz answers in
          (st, calls, delete n (creating s), pending s)
      | None => (st, [], creating s, pending s)
      end
  | OReserve e shmid flg =>
      match shmat_reserve e st shmid flg with
      | (inl _, st) => (st, [], creating s, pending s)
      | (inr a, st) => (st, [], creating s, a :: pending s)
      end
  | OFinish e n v ok =>
      match pending s !! n with
      | Some a =>
          let '(_, st, calls) := shmat_finish e st a v ok in
          (st, calls, creating s, delete n (pending s))
      | None => (st, [], creating s, pending s)
      end
  | ODetach e addr => let '(_, st, calls) := shmdt e st addr in (st, calls, creating s, pending s)
  | OControl e shmid cmd buf => let '(_, st, calls, _) := shmctl e st shmid cmd buf in (st, calls, creating s, pending s)
  | ODestroy n i => let '(st, calls) := ns_destroy_one n i st in (st, calls, creating s, pending s)
  | OFork parent child =>
      (shm_fork_inherit parent child st, clone_calls parent child (maps (books s)), creating s, pending s)
  | OExit pid =>
      let '(st, calls) := shm_account_exit pid st in
      (st, calls ++ teardown_calls pid (maps (books s)), creating s, pending s)
  | OUnmap pid v => (st, [VmmUnmap pid v], creating s, pending s)
  end.

Definition exec (o : op) (s : sys) : option sys :=
  let '(st, calls, cr, pe) := effect o s in
  (fun l => mkSys st l cr pe) <$> apply_calls (books s) calls.

(** What the rest of the kernel guarantees: a system call runs in a process,
    the frame allocator hands out frames that nobody owns, and an address
    space is torn down when no thread of the process is inside [shmat].  The
    one condition that user space could break is on [shmdt]: a null address
    while another thread of the process attaches (see
    [shmdt_null_frees_under_attach]). *)
Definition allowed (o : op) (s : sys) : Prop :=
  match o with
  | OClaim e caps _ size _ => ResourceCaps.caps_ok caps
  | OPublish _ _ _ _ _ _ answers =>
      NoDup answers /\ Forall (fun f => 0 <= f /\ refs (books s) f = 0) answers
  | OReserve e _ _ => cur_pid e <> 0
  | ODetach e addr => addr <> 0 \/ Forall (fun a => a_pid a <> cur_pid e) (pending s)
  | OFork parent child => parent <> 0 /\ child <> 0 /\ parent <> child
  | OExit pid => pid <> 0 /\ Forall (fun a => a_pid a <> pid) (pending s)
  | _ => True
  end.

Definition sys_boot : sys := mkSys shm_boot (mkLedger (fun _ => 0) []) [] [].
Definition sys_step (s s' : sys) : Prop := exists o, allowed o s /\ exec o s = Some s'.

(** ** The invariant *)

(** How many slots are attached to segment [i]. *)
Definition slots (procs : list proc_attachments) : list shm_attach := concat (attaches <$> procs).
Definition attached (i : Z) (a : shm_attach) : bool := at_used a && (at_shmid a =? i).
Definition attach_count (st : shm_state) (i : Z) : nat := count_if (attached i) (slots (proc_attaches st)).
(** How often frame [f] backs a segment. *)
Definition backing (g : shm_segment) : list Z := default [] (physical_pages g).
Definition held (st : shm_state) : list Z := concat (backing <$> shm_segments st).
Definition is_frame (f g : Z) : bool := g =? f.
Definition mapped (f : Z) (m : Z * Z * Z) : bool := snd m =? f.
(** Every reference to a frame is a segment's or a mapping's. *)
Definition ledger_ok (l : ledger) (h : list Z) : Prop :=
  forall f, refs l f = Z.of_nat (count_if (mapped f) (maps l)) + Z.of_nat (count_if (is_frame f) h).

Record seg_ok (n : nat) (g : shm_segment) : Prop := {
  sg_count : nattch g = Z.of_nat n;
  sg_used : used g = false -> physical_pages g = None;
  sg_live : (0 < n)%nat -> is_Some (physical_pages g);
  sg_pages : forall l, physical_pages g = Some l -> Z.of_nat (length l) = page_count g /\ Forall (fun f => f <> 0) l }.
(** A removed segment is there only as long as it is attached. *)
Definition settled (g : shm_segment) : Prop := is_Some (physical_pages g) -> mode g &? SHM_DEST = true -> 0 < nattch g.

Record proc_ok (pa : proc_attachments) : Prop := {
  pr_len : length (attaches pa) = 8%nat;
  pr_free : pa_pid pa = 0 -> Forall (fun a => at_used a = false) (attaches pa);
  pr_ids : Forall (fun a => at_used a = true -> 0 <= at_shmid a < SHMMNI) (attaches pa) }.

(** [x] is the segment being worked on, which may still have to go. *)
Record tables_ok (x : option nat) (st : shm_state) : Prop := {
  ok_segs : length (shm_segments st) = 32%nat;
  ok_procs : length (proc_attaches st) = 32%nat;
  ok_seg : forall i g, shm_segments st !! i = Some g -> seg_ok (attach_count st (Z.of_nat i)) g;
  ok_settled : forall i g, shm_segments st !! i = Some g -> x <> Some i -> settled g;
  ok_proc : forall p pa, proc_attaches st !! p = Some pa -> proc_ok pa }.

(** A reservation still stands: its slot is attached to its segment, whose
    pages are the ones it will map. *)
Definition pending_ok (st : shm_state) (a : attaching) : Prop :=
  exists pa g, proc_attaches st !! a_pa a = Some pa /\ pa_pid pa = a_pid a /\ a_pid a <> 0 /\
    attaches pa !! a_slot a = Some (mkAt true (a_shmid a) 0) /\ 0 <= a_shmid a < SHMMNI /\
    shm_segments st !! Z.to_nat (a_shmid a) = Some g /\ physical_pages g = Some (a_pages a) /\ page_count g = a_npages a.
Definition creating_ok (st : shm_state) (c : nat * Z) : Prop :=
  exists g, shm_segments st !! fst c = Some g /\ used g = true /\ physical_pages g = None /\ 0 <= snd c.

Record sys_ok (s : sys) : Prop := {
  s_tables : tables_ok None (tables s);
  s_pending : Forall (pending_ok (tables s)) (pending s);
  s_slots : NoDup ((fun a => (a_pa a, a_slot a)) <$> pending s);
  s_creating : Forall (creating_ok (tables s)) (creating s);
  s_claims : NoDup (fst <$> creating s);
  s_books : ledger_ok (books s) (held (tables s));
  s_distinct : forall f, (count_if (is_frame f) (held (tables s)) <= 1)%nat }.

(** ** The ledger *)

Lemma apply_calls_app l a b :
  apply_calls l (a ++ b) = match apply_calls l a with Some l => apply_calls l b | None => None end.
Proof. revert l. induction a as [|c a IH]; intros l; simpl; [done|]. destruct (apply_call l c); [apply IH|done]. Qed.

Lemma bump_eq f d r : bump f d r f = r f + d.
Proof. unfold bump. by rewrite Z.eqb_refl. Qed.
Lemma bump_spec f d r g : bump f d r g = r g + if is_frame g f then d else 0.
Proof. unfold bump, is_frame. rewrite (Z.eqb_sym f g). destruct (g =? f); lia. Qed.

(** Freeing frames that segments gave up. *)
Lemma ledger_free l : forall led h h',
  ledger_ok led h -> (forall f, count_if (is_frame f) h = count_if (is_frame f) l + count_if (is_frame f) h')%nat ->
  exists led', apply_calls led (PmmFree <$> l) = Some led' /\ ledger_ok led' h'.
Proof.
  induction l as [|f l IH]; intros led h h' Hok Hc.
  - exists led. split; [done|]. intros g. rewrite (Hok g), Hc. done.
  - cbn [fmap list_fmap apply_calls apply_call].
    assert (Hf : 0 < refs led f).
    { rewrite (Hok f), Hc, count_if_cons. unfold is_frame at 1. rewrite Z.eqb_refl. lia. }
    rewrite (proj2 (Z.ltb_lt _ _) Hf). apply (IH _ (l ++ h')).
    + intros g. cbn [refs maps]. rewrite bump_spec, (Hok g), Hc, count_if_cons, count_if_app. destruct (is_frame g f); lia.
    + intros g. by rewrite count_if_app.
Qed.

Lemma ledger_alloc l : forall led h, ledger_ok led h ->
  exists led', apply_calls led (PmmAlloc <$> l) = Some led' /\ ledger_ok led' (l ++ h).
Proof.
  induction l as [|f l IH]; intros led h Hok; [by exists led|]. cbn [fmap list_fmap apply_calls apply_call].
  destruct (IH (mkLedger (bump f 1 (refs led)) (maps led)) (f :: h)) as (led' & E & Hok').
  - intros g. cbn [refs maps]. rewrite bump_spec, (Hok g), count_if_cons. destruct (is_frame g f); lia.
  - exists led'. split; [exact E|]. intros g. rewrite (Hok' g). simpl. rewrite !count_if_app, !count_if_cons, count_if_app. lia.
Qed.

Lemma count_if_delete {A} (p : A -> bool) l i x : l !! i = Some x ->
  (count_if p (delete i l) + (if p x then 1 else 0) = count_if p l)%nat.
Proof.
  revert i. induction l as [|a l IH]; intros [|i] H; simpl in H; try done.
  - injection H as ->. simpl. rewrite count_if_cons. lia.
  - simpl. rewrite !count_if_cons. specialize (IH _ H). lia.
Qed.

Lemma count_if_le {A} (p : A -> bool) l i x : l !! i = Some x -> p x = true -> (0 < count_if p l)%nat.
Proof. intros H Hp. pose proof (count_if_delete p l i x H). rewrite Hp in *. lia. Qed.

(** Unmapping never touches a frame it has no reference to. *)
Lemma ledger_unmap pid l : forall led h, ledger_ok led h ->
  exists led', apply_calls led (VmmUnmap pid <$> l) = Some led' /\ ledger_ok led' h.
Proof.
  induction l as [|v l IH]; intros led h Hok; [by exists led|]. cbn [fmap list_fmap apply_calls apply_call].
  destruct (first_index (at_page pid v) (maps led)) as [i|] eqn:E; [|by apply IH].
  apply first_index_Some in E as (m & Hm & _ & _). rewrite (list_lookup_total_correct _ _ _ Hm).
  assert (Hf : 0 < refs led (snd m)).
  { rewrite (Hok (snd m)). pose proof (count_if_le (mapped (snd m)) _ _ _ Hm). unfold mapped in H at 1.
    rewrite Z.eqb_refl in H. specialize (H eq_refl). lia. }
  rewrite (proj2 (Z.ltb_lt _ _) Hf). apply IH. intros g. cbn [refs maps]. rewrite bump_spec, (Hok g).
  pose proof (count_if_delete (mapped g) _ _ _ Hm) as H. change (mapped g m) with (is_frame g (snd m)) in H.
  destruct (is_frame g (snd m)); lia.
Qed.

(** Mapping pages whose frames somebody owns. *)
Lemma ledger_map l : forall led h, ledger_ok led h ->
  Forall (fun m => 0 < refs led (snd (fst m))) l ->
  exists led', apply_calls led (concat ((fun m => [VmmMap (fst (fst (fst m))) (snd (fst (fst m))) (snd (fst m)) (snd m); PmmRef (snd (fst m))]) <$> l))
    = Some led' /\ ledger_ok led' h.
Proof.
  induction l as [|[[[pid v] f] fl] l IH]; intros led h Hok Hr; [by exists led|].
  apply Forall_cons in Hr as [Hf Hr]. simpl in Hf. cbn [fmap list_fmap concat app apply_calls apply_call fst snd refs maps].
  rewrite (proj2 (Z.ltb_lt _ _) Hf). apply IH.
  - intros g. cbn [refs maps]. rewrite bump_spec, (Hok g), count_if_cons.
    change (mapped g (pid, v, f)) with (is_frame g f). destruct (is_frame g f); lia.
  - eapply Forall_impl; [exact Hr|]. intros m Hm. cbv beta in Hm |- *. cbn [refs]. rewrite bump_spec. destruct (is_frame _ f); lia.
Qed.

(** ** Segments *)

(** Same pages, same attach count. *)
Definition same_body (g g' : shm_segment) : Prop :=
  used g' = used g /\ physical_pages g' = physical_pages g /\ page_count g' = page_count g.

Lemma seg_ok_same n g g' : same_body g g' -> nattch g' = nattch g -> seg_ok n g -> seg_ok n g'.
Proof. intros (Hu & Hp & Hc) Hn [? ? ? ?]. split; rewrite ?Hn, ?Hu, ?Hp, ?Hc; done. Qed.

Lemma seg_ok_inc n g : is_Some (physical_pages g) -> Z.of_nat n < 2 ^ 31 -> seg_ok n g -> seg_ok (S n) (inc_nattch g).
Proof.
  intros Hp Hn [Hc Hu Hl Hg]. split; try done. unfold inc_nattch, nattch in *. cbn [ds set_ds set_nattch shm_nattch].
  rewrite Hc, u32_small; lia.
Qed.
Lemma seg_ok_dec n g : seg_ok (S n) g -> seg_ok n (dec_nattch g).
Proof.
  intros [Hc Hu Hl Hg]. unfold dec_nattch. rewrite (proj2 (Z.ltb_lt _ _)) by lia.
  split; try done; [|intros _; apply Hl; lia]. unfold nattch in *. cbn [ds set_ds set_nattch shm_nattch]. lia.
Qed.
Lemma same_inc g : same_body g (inc_nattch g).
Proof. done. Qed.
Lemma same_dec g : same_body g (dec_nattch g).
Proof. unfold dec_nattch. by destruct (0 <? nattch g). Qed.
Lemma same_trans g g' g'' : same_body g g' -> same_body g' g'' -> same_body g g''.
Proof. intros (? & ? & ?) (? & ? & ?). split_and!; congruence. Qed.

Lemma seg_zero_ok : seg_ok 0 seg_zero.
Proof. split; try done; simpl; lia. Qed.

(** A segment that must go has no attachments; its frames are exactly what is freed. *)
Lemma maybe_destroy_seg n g : seg_ok n g -> is_Some (physical_pages g) ->
  (exists g', seg_maybe_destroy g = (g', None, 0) /\ g' = g /\ settled g) \/
  (n = 0%nat /\ seg_maybe_destroy g = (seg_zero, physical_pages g, page_count g)).
Proof.
  intros [Hc Hu Hl Hg] Hp. unfold seg_maybe_destroy, seg_release.
  destruct (used g) eqn:Eu; [|rewrite Hu in Hp by done; by destruct Hp]. cbn [negb orb].
  destruct (Z.eqb_spec (nattch g) 0) as [Hz|Hz]; cbn [negb orb].
  - destruct (mode g &? SHM_DEST) eqn:Em; cbn [negb].
    + right. split; [lia|done].
    + left. exists g. split_and!; [done..|]. intros _ H. unfold mode in *. by rewrite H in Em.
  - left. exists g. split_and!; [done..|]. intros _ _. lia.
Qed.

Lemma free_backing g l : physical_pages g = Some l -> Z.of_nat (length l) = page_count g -> Forall (fun f => f <> 0) l ->
  free_pages_array (physical_pages g) (page_count g) = PmmFree <$> l.
Proof.
  intros -> <- Hl. unfold free_pages_array. rewrite Nat2Z.id, take_ge by done. f_equal.
  induction Hl as [|f l Hf _ IH]; [done|]. simpl. by rewrite (proj2 (Z.eqb_neq f 0) Hf), IH.
Qed.

(** ** Slots *)

Lemma slots_bound x st i : tables_ok x st -> (attach_count st i <= 256)%nat.
Proof.
  intros H. unfold attach_count, count_if. etransitivity; [apply List.filter_length_le|].
  assert (Hb : forall l, Forall proc_ok l -> (length (slots l) <= length l * 8)%nat).
  { clear. induction 1 as [|pa l Hp _ IH]; [simpl; lia|]. unfold slots in *. rewrite fmap_cons. cbn [concat].
    rewrite length_app, (pr_len _ Hp). simpl. lia. }
  etransitivity; [apply Hb|rewrite (ok_procs _ _ H); lia].
  apply Forall_lookup. intros p pa Hp. by eapply ok_proc.
Qed.

Lemma upd_slot_procs f p s st pa a : proc_attaches st !! p = Some pa -> attaches pa !! s = Some a ->
  proc_attaches (upd_slot f p s st) = <[p := mkPa (pa_pid pa) (<[s := f a]> (attaches pa))]> (proc_attaches st).
Proof.
  intros Hp Ha. unfold upd_slot, set_procs. cbn [proc_attaches]. rewrite (alter_as_insert _ _ _ _ Hp).
  by rewrite (alter_as_insert _ _ _ _ Ha).
Qed.

Lemma upd_slot_count f p s st pa a i : proc_attaches st !! p = Some pa -> attaches pa !! s = Some a ->
  (attach_count (upd_slot f p s st) i + (if attached i a then 1 else 0)
   = attach_count st i + (if attached i (f a) then 1 else 0))%nat.
Proof.
  intros Hp Ha. unfold attach_count, slots. rewrite (upd_slot_procs _ _ _ _ _ _ Hp Ha).
  pose proof (count_concat_insert (attached i) attaches _ _ _ (mkPa (pa_pid pa) (<[s := f a]> (attaches pa))) Hp) as H.
  cbn [attaches] in H. pose proof (count_if_insert (attached i) _ _ _ (f a) Ha). lia.
Qed.

Lemma slot_counts p s st pa a : proc_attaches st !! p = Some pa -> attaches pa !! s = Some a -> at_used a = true ->
  (0 < attach_count st (at_shmid a))%nat.
Proof.
  intros Hp Ha Hu. pose proof (upd_slot_count (fun _ => at_zero) p s st pa a (at_shmid a) Hp Ha) as H.
  unfold attached in H. rewrite Hu, Z.eqb_refl in H. simpl in H. lia.
Qed.

Lemma proc_ok_slot pa s a : proc_ok pa -> (at_used a = true -> pa_pid pa <> 0 /\ 0 <= at_shmid a < SHMMNI) ->
  proc_ok (mkPa (pa_pid pa) (<[s := a]> (attaches pa))).
Proof.
  intros [Hl Hf Hi] Ha. split; cbn [attaches pa_pid].
  - by rewrite length_insert.
  - intros Hz. apply Forall_insert; [by apply Hf|]. destruct (at_used a) eqn:E; [|done]. destruct (Ha eq_refl). done.
  - apply Forall_insert; [done|]. intros E. by apply Ha.
Qed.

Lemma upd_seg_lookup f i st j g : shm_segments (upd_seg f (Z.of_nat i) st) !! j = Some g ->
  exists g0, shm_segments st !! j = Some g0 /\ g = if decide (j = i) then f g0 else g0.
Proof.
  unfold upd_seg, set_segs, zalter. cbn [shm_segments]. rewrite Nat2Z.id, list_lookup_alter.
  case_decide as Hd.
  - intros (g0 & Hg & ->)%fmap_Some. exists g0. subst. by rewrite decide_True.
  - intros Hg. exists g. rewrite decide_False by congruence. done.
Qed.

(** ** The tables after an update *)

Section updates.
Context (st : shm_state) (p s : nat) (pa : proc_attachments) (a : shm_attach) (i : nat).
Context (Hp : proc_attaches st !! p = Some pa) (Ha : attaches pa !! s = Some a).

Lemma upd_slot_proc_ok f q pb :
  (forall q pb, proc_attaches st !! q = Some pb -> proc_ok pb) ->
  (at_used (f a) = true -> pa_pid pa <> 0 /\ 0 <= at_shmid (f a) < SHMMNI) ->
  proc_attaches (upd_slot f p s st) !! q = Some pb -> proc_ok pb.
Proof.
  intros Hall Hf. rewrite (upd_slot_procs _ _ _ _ _ _ Hp Ha). intros [(-> & <- & _)|(_ & ?)]%list_lookup_insert_Some; [|by eapply Hall].
  apply proc_ok_slot; [by eapply Hall|done].
Qed.

(** A slot lets go of its segment. *)
Lemma slot_off x f h :
  tables_ok x st -> x = None \/ x = Some i -> at_used a = true -> at_shmid a = Z.of_nat i -> at_used (f a) = false ->
  (forall n g, seg_ok (S n) g -> seg_ok n (h g)) ->
  tables_ok (Some i) (upd_seg h (Z.of_nat i) (upd_slot f p s st)).
Proof using Hp Ha.
  intros Hok Hx Hu Hi Hf Hh. split.
  - unfold upd_seg, set_segs. cbn [shm_segments]. rewrite length_zalter. apply (ok_segs _ _ Hok).
  - cbn [proc_attaches upd_seg set_segs]. rewrite (upd_slot_procs _ _ _ _ _ _ Hp Ha), length_insert. apply (ok_procs _ _ Hok).
  - intros j g (g0 & Hg0 & ->)%upd_seg_lookup. cbn [shm_segments upd_slot set_procs] in Hg0.
    pose proof (ok_seg _ _ Hok j g0 Hg0) as Hs. change (attach_count (upd_seg _ _ ?t)) with (attach_count t).
    pose proof (upd_slot_count f p s st pa a (Z.of_nat j) Hp Ha) as Hc. unfold attached in Hc. rewrite Hu, Hi, Hf in Hc.
    simpl in Hc. case_decide as Hd.
    + subst j. rewrite Z.eqb_refl in Hc. apply Hh. replace (S _) with (attach_count st (Z.of_nat i)) by lia. done.
    + rewrite (proj2 (Z.eqb_neq _ _)) in Hc by lia. replace (attach_count (upd_slot _ _ _ _) _) with (attach_count st (Z.of_nat j)) by lia. done.
  - intros j g (g0 & Hg0 & ->)%upd_seg_lookup Hj. cbn [shm_segments upd_slot set_procs] in Hg0.
    rewrite decide_False by congruence. eapply (ok_settled _ _ Hok); [done|]. destruct Hx; congruence.
  - intros q pb. apply upd_slot_proc_ok; [apply (ok_proc _ _ Hok)|congruence].
Qed.

(** A slot takes hold of a segment. *)
Lemma slot_on f h g0 :
  tables_ok None st -> at_used a = false -> pa_pid pa <> 0 -> at_used (f a) = true -> at_shmid (f a) = Z.of_nat i ->
  shm_segments st !! i = Some g0 -> is_Some (physical_pages g0) ->
  (forall n g, is_Some (physical_pages g) -> Z.of_nat n < 2 ^ 31 -> seg_ok n g -> seg_ok (S n) (h g)) ->
  tables_ok None (upd_seg h (Z.of_nat i) (upd_slot f p s st)).
Proof using Hp Ha.
  intros Hok Hu Hpid Hf Hi Hg Hpages Hh. pose proof (lookup_lt_Some _ _ _ Hg) as Hlt. rewrite (ok_segs _ _ Hok) in Hlt.
  assert (Hnew : forall j g1, shm_segments st !! j = Some g1 ->
    seg_ok (attach_count (upd_slot f p s st) (Z.of_nat j)) (if decide (j = i) then h g1 else g1)).
  { intros j g1 Hg1. pose proof (ok_seg _ _ Hok j g1 Hg1) as Hs.
    pose proof (upd_slot_count f p s st pa a (Z.of_nat j) Hp Ha) as Hc. unfold attached in Hc. rewrite Hu, Hf, Hi in Hc.
    simpl in Hc. case_decide as Hd.
    - subst j. rewrite Hg in Hg1. injection Hg1 as <-. rewrite Z.eqb_refl in Hc.
      pose proof (slots_bound _ _ (Z.of_nat i) Hok).
      replace (attach_count (upd_slot _ _ _ _) _) with (S (attach_count st (Z.of_nat i))) by lia. apply Hh; [done|lia|done].
    - rewrite (proj2 (Z.eqb_neq _ _)) in Hc by lia. replace (attach_count (upd_slot _ _ _ _) _) with (attach_count st (Z.of_nat j)) by lia. done. }
  split.
  - unfold upd_seg, set_segs. cbn [shm_segments]. rewrite length_zalter. apply (ok_segs _ _ Hok).
  - cbn [proc_attaches upd_seg set_segs]. rewrite (upd_slot_procs _ _ _ _ _ _ Hp Ha), length_insert. apply (ok_procs _ _ Hok).
  - intros j g (g1 & Hg1 & ->)%upd_seg_lookup. by apply Hnew.
  - intros j g (g1 & Hg1 & ->)%upd_seg_lookup _. specialize (Hnew j g1 Hg1).
    case_decide as Hd; [|by eapply (ok_settled _ _ Hok)]. intros _ _. rewrite (sg_count _ _ Hnew).
    pose proof (upd_slot_count f p s st pa a (Z.of_nat j) Hp Ha) as Hc. unfold attached in Hc.
    rewrite Hu, Hf, Hi, Hd, Z.eqb_refl in Hc. simpl in Hc. subst j. lia.
  - intros q pb. apply upd_slot_proc_ok; [apply (ok_proc _ _ Hok)|]. intros _. unfold SHMMNI. split; [done|lia].
Qed.
End updates.

(** The segment [i] changes, but not its pages or its count. *)
Lemma seg_change x y st i h :
  tables_ok x st -> (forall g, same_body g (h g) /\ nattch (h g) = nattch g) ->
  (forall j, y <> Some j -> x <> Some j) ->
  (y = Some i \/ forall g, settled g -> settled (h g)) ->
  tables_ok y (upd_seg h (Z.of_nat i) st).
Proof.
  intros Hok Hh Hxy Hy. split.
  - unfold upd_seg, set_segs. cbn [shm_segments]. rewrite length_zalter. apply (ok_segs _ _ Hok).
  - apply (ok_procs _ _ Hok).
  - intros j g (g0 & Hg0 & ->)%upd_seg_lookup. change (attach_count (upd_seg _ _ ?t)) with (attach_count t).
    pose proof (ok_seg _ _ Hok j g0 Hg0). case_decide; [|done]. destruct (Hh g0). by eapply seg_ok_same.
  - intros j g (g0 & Hg0 & ->)%upd_seg_lookup Hj. pose proof (ok_settled _ _ Hok j g0 Hg0 (Hxy _ Hj)) as Hset.
    case_decide as Hd; [|done]. destruct Hy as [->|Hy]; [by subst j|]. by apply Hy.
  - apply (ok_proc _ _ Hok).
Qed.

Lemma held_insert st i g g' f : shm_segments st !! i = Some g ->
  (count_if (is_frame f) (held (set_segs (<[i := g']> (shm_segments st)) st)) + count_if (is_frame f) (backing g)
   = count_if (is_frame f) (held st) + count_if (is_frame f) (backing g'))%nat.
Proof. intros Hg. unfold held. cbn [set_segs shm_segments]. by apply count_concat_insert. Qed.

Lemma upd_seg_insert h st i g : shm_segments st !! i = Some g ->
  upd_seg h (Z.of_nat i) st = set_segs (<[i := h g]> (shm_segments st)) st.
Proof. intros Hg. unfold upd_seg, zalter. by rewrite Nat2Z.id, (alter_as_insert _ _ _ _ Hg). Qed.

Lemma seg_at_lookup st i g : shm_segments st !! i = Some g -> seg_at st (Z.of_nat i) = g.
Proof. intros Hg. unfold seg_at, zget. rewrite Nat2Z.id. by apply list_lookup_total_correct. Qed.

Lemma held_same st i h g f : shm_segments st !! i = Some g -> same_body g (h g) ->
  count_if (is_frame f) (held (upd_seg h (Z.of_nat i) st)) = count_if (is_frame f) (held st).
Proof.
  intros Hg (_ & Hp & _). rewrite (upd_seg_insert _ _ _ _ Hg). pose proof (held_insert st i g (h g) f Hg) as H.
  unfold backing in H. rewrite Hp in H. lia.
Qed.

(** What [seg_maybe_destroy] does to the tables, and the frames it frees. *)
Definition destroys (i : nat) (st st' : shm_state) (calls : list mm_call) : Prop :=
  proc_attaches st' = proc_attaches st /\
  (exists l, calls = PmmFree <$> l /\
    forall f, count_if (is_frame f) (held st) = count_if (is_frame f) l + count_if (is_frame f) (held st'))%nat /\
  forall j g, shm_segments st !! j = Some g -> shm_segments st' !! j = Some g \/ j = i /\ attach_count st (Z.of_nat i) = 0%nat /\ is_Some (physical_pages g).

Lemma maybe_destroy_ok st i g :
  tables_ok (Some i) st -> shm_segments st !! i = Some g -> is_Some (physical_pages g) ->
  exists st' calls, maybe_destroy_at (Z.of_nat i) st = (st', calls) /\ tables_ok None st' /\ destroys i st st' calls.
Proof.
  intros Hok Hg Hp. unfold maybe_destroy_at. rewrite (seg_at_lookup _ _ _ Hg).
  pose proof (ok_seg _ _ Hok i g Hg) as Hs.
  destruct (maybe_destroy_seg _ g Hs Hp) as [(g' & -> & -> & Hset)|[Hz ->]].
  - rewrite (upd_seg_insert _ _ _ _ Hg), list_insert_id by done. eexists _, _. split; [done|].
    replace (set_segs (shm_segments st) st) with st by (by destruct st). split; [|split; [done|split; [by exists []|auto]]].
    destruct Hok as [? ? ? Hset' ?]. split; try done. intros j g' Hg' _. destruct (decide (j = i)) as [->|].
    + rewrite Hg in Hg'. by injection Hg' as <-.
    + apply (Hset' j); [done|congruence].
  - destruct Hp as [l Hl]. destruct (sg_pages _ _ Hs l Hl) as [Hlen Hnz].
    rewrite (free_backing g l) by done. rewrite (upd_seg_insert _ _ _ _ Hg). eexists _, _. split; [done|]. split.
    + split.
      * cbn [shm_segments set_segs]. rewrite length_insert. apply (ok_segs _ _ Hok).
      * apply (ok_procs _ _ Hok).
      * intros j g'. cbn [shm_segments set_segs]. change (attach_count (set_segs _ ?t)) with (attach_count t).
        intros [(<- & <- & _)|(_ & ?)]%list_lookup_insert_Some; [|by apply (ok_seg _ _ Hok)]. rewrite Hz. apply seg_zero_ok.
      * intros j g'. cbn [shm_segments set_segs]. intros [(<- & <- & _)|(? & ?)]%list_lookup_insert_Some _; [by intros [? ?]|].
        eapply (ok_settled _ _ Hok); [done|congruence].
      * apply (ok_proc _ _ Hok).
    + split; [done|]. split.
      * exists l. split; [done|]. intros f. pose proof (held_insert st i g seg_zero f Hg) as H. unfold backing in H.
        rewrite Hl in H. cbn [default seg_zero physical_pages] in H. change (count_if (is_frame f) []) with 0%nat in H. simpl in H. lia.
      * intros j g' Hg'. cbn [shm_segments set_segs]. destruct (decide (j = i)) as [->|].
        -- right. rewrite Hg in Hg'. injection Hg' as <-. split_and!; [done|done|eauto].
        -- left. by rewrite list_lookup_insert_ne.
Qed.

(** ** What is in flight *)

Lemma pending_upd_slot st p s pa a f b : proc_attaches st !! p = Some pa -> attaches pa !! s = Some a ->
  pending_ok st b -> (a_pa b, a_slot b) <> (p, s) -> pending_ok (upd_slot f p s st) b.
Proof.
  intros Hp Ha (pb & g & Hb & Hpid & Hne & Hsl & Hid & Hg & Hpg & Hct) Hdiff. unfold pending_ok.
  rewrite (upd_slot_procs _ _ _ _ _ _ Hp Ha). destruct (decide (a_pa b = p)) as [E|E].
  - rewrite E in *. rewrite Hp in Hb. injection Hb as <-.
    eexists _, g. rewrite list_lookup_insert_eq by (by eapply lookup_lt_Some). split; [done|]. cbn [pa_pid attaches].
    rewrite list_lookup_insert_ne by congruence. done.
  - exists pb, g. rewrite list_lookup_insert_ne by congruence. done.
Qed.

Lemma pending_upd_seg st i h b : (forall g, same_body g (h g)) -> pending_ok st b -> pending_ok (upd_seg h i st) b.
Proof.
  intros Hh (pb & g & Hb & Hpid & Hne & Hsl & Hid & Hg & Hpg & Hct).
  exists pb. unfold upd_seg, set_segs, zalter. cbn [shm_segments proc_attaches]. rewrite list_lookup_alter.
  destruct (decide _) as [->|].
  - exists (h g). rewrite Hg. destruct (Hh g) as (_ & -> & ->). done.
  - by exists g.
Qed.

Lemma pending_destroys i st st' calls b : destroys i st st' calls -> pending_ok st b -> pending_ok st' b.
Proof.
  intros (Hpr & _ & Hseg) (pb & g & Hb & Hpid & Hne & Hsl & Hid & Hg & Hpg & Hct). exists pb, g. rewrite Hpr.
  split_and!; try done; try lia. destruct (Hseg _ _ Hg) as [|(<- & Hz & _)]; [done|].
  pose proof (slot_counts _ _ st pb _ Hb Hsl eq_refl) as Hc. cbn [at_shmid] in Hc. rewrite Z2Nat.id in Hz by lia. lia.
Qed.

Lemma creating_upd_seg st i h c : (forall g, same_body g (h g)) -> creating_ok st c -> creating_ok (upd_seg h i st) c.
Proof.
  intros Hh (g & Hg & Hu & Hp & Hn). unfold creating_ok, upd_seg, set_segs, zalter. cbn [shm_segments].
  rewrite list_lookup_alter. destruct (decide _) as [->|].
  - exists (h g). rewrite Hg. destruct (Hh g) as (-> & -> & _). done.
  - by exists g.
Qed.
Lemma creating_destroys i st st' calls c : destroys i st st' calls -> creating_ok st c -> creating_ok st' c.
Proof.
  intros (_ & _ & Hseg) (g & Hg & Hu & Hp & Hn). exists g. split_and!; try done.
  destruct (Hseg _ _ Hg) as [|(_ & _ & [? ?])]; [done|congruence].
Qed.

(** ** Whole steps *)

(** A state after an update that only touches segment [i]'s counts and modes,
    once it has been settled. *)
Lemma settle st0 led cr pe st i g :
  sys_ok (mkSys st0 led cr pe) -> tables_ok (Some i) st -> shm_segments st !! i = Some g -> is_Some (physical_pages g) ->
  (forall f, count_if (is_frame f) (held st) = count_if (is_frame f) (held st0)) ->
  forall pe', sublist pe' pe -> Forall (pending_ok st) pe' -> Forall (creating_ok st) cr ->
  exists st' calls, maybe_destroy_at (Z.of_nat i) st = (st', calls) /\ proc_attaches st' = proc_attaches st /\
    forall led1, ledger_ok led1 (held st0) ->
    exists led', apply_calls led1 calls = Some led' /\ sys_ok (mkSys st' led' cr pe').
Proof.
  intros [_ _ Hsl _ Hcl _ Hdi] Hok Hg Hp Hheld pe' Hsub Hpe Hcr.
  destruct (maybe_destroy_ok st i g Hok Hg Hp) as (st' & calls & -> & Hok' & Hd).
  exists st', calls. split; [done|]. split; [apply Hd|]. intros led1 Hl.
  pose proof Hd as (_ & (l & -> & Hc) & _).
  destruct (ledger_free l led1 (held st0) (held st')) as (led' & -> & Hl'); [done|intros f; by rewrite <- Hheld|].
  exists led'. split; [done|]. split; cbn [tables books creating pending]; try done.
  - eapply Forall_impl; [exact Hpe|]. intros b. by eapply pending_destroys.
  - eapply sublist_NoDup; [exact Hsl|]. by apply fmap_sublist.
  - eapply Forall_impl; [exact Hcr|]. intros b. by eapply creating_destroys.
  - intros f. specialize (Hdi f). specialize (Hc f). rewrite Hheld in Hc. cbn [tables] in Hdi. lia.
Qed.

(** The segment a used slot names. *)
Lemma slot_segment x st p s pa a : tables_ok x st -> proc_attaches st !! p = Some pa -> attaches pa !! s = Some a ->
  at_used a = true -> exists i g, at_shmid a = Z.of_nat i /\ (i < 32)%nat /\ shm_segments st !! i = Some g /\
    is_Some (physical_pages g) /\ used g = true /\ 0 < nattch g.
Proof.
  intros Hok Hp Ha Hu. pose proof (pr_ids _ (ok_proc _ _ Hok _ _ Hp)) as Hid. rewrite Forall_lookup in Hid.
  specialize (Hid _ _ Ha Hu). unfold SHMMNI in Hid. exists (Z.to_nat (at_shmid a)).
  destruct (lookup_lt_is_Some_2 (shm_segments st) (Z.to_nat (at_shmid a))) as [g Hg]; [rewrite (ok_segs _ _ Hok); lia|].
  exists g. rewrite Z2Nat.id by lia. pose proof (ok_seg _ _ Hok _ _ Hg) as Hs. rewrite Z2Nat.id in Hs by lia.
  pose proof (slot_counts _ _ _ _ _ Hp Ha Hu) as Hc. pose proof (sg_live _ _ Hs Hc) as Hl.
  split_and!; try done; [lia| |rewrite (sg_count _ _ Hs); lia].
  destruct (used g) eqn:E; [done|]. rewrite (sg_used _ _ Hs E) in Hl. by destruct Hl.
Qed.

(** One slot detached: used by shmdt, exit and the failure path of shmat. *)
Lemma detach_step st led cr pe p s pa a i f h pe' :
  sys_ok (mkSys st led cr pe) -> proc_attaches st !! p = Some pa -> attaches pa !! s = Some a ->
  at_used a = true -> at_shmid a = Z.of_nat i -> at_used (f a) = false ->
  (forall n g, seg_ok (S n) g -> seg_ok n (h g)) -> (forall g, same_body g (h g)) ->
  sublist pe' pe -> Forall (fun b => (a_pa b, a_slot b) <> (p, s)) pe' ->
  exists st' calls, maybe_destroy_at (Z.of_nat i) (upd_seg h (Z.of_nat i) (upd_slot f p s st)) = (st', calls) /\
    proc_attaches st' = proc_attaches (upd_slot f p s st) /\
    forall led1, ledger_ok led1 (held st) ->
    exists led', apply_calls led1 calls = Some led' /\ sys_ok (mkSys st' led' cr pe').
Proof.
  intros Hsys Hp Ha Hu Hi Hf Hh Hsame Hsub Hne. pose proof Hsys as [Hok Hpe _ Hcr _ _ _]. cbn [tables pending creating] in *.
  destruct (slot_segment _ _ _ _ _ _ Hok Hp Ha Hu) as (i' & g & Hi' & _ & Hg & Hpg & _ & _).
  assert (i' = i) as -> by lia.
  assert (Hg' : shm_segments (upd_seg h (Z.of_nat i) (upd_slot f p s st)) !! i = Some (h g)).
  { rewrite (upd_seg_insert _ (upd_slot f p s st) i g) by done. cbn [shm_segments set_segs].
    apply list_lookup_insert_eq. by eapply lookup_lt_Some. }
  change (proc_attaches (upd_slot f p s st)) with (proc_attaches (upd_seg h (Z.of_nat i) (upd_slot f p s st))).
  eapply settle; [exact Hsys| |exact Hg'| | |done| |].
  - eapply slot_off; try done. by left.
  - destruct (Hsame g) as (_ & -> & _). done.
  - intros f'. by rewrite (held_same (upd_slot f p s st) i h g f').
  - rewrite Forall_forall in *. intros b Hb. apply pending_upd_seg; [done|].
    eapply pending_upd_slot; [done|done| |by apply Hne]. apply Hpe. by eapply sublist_subseteq.
  - eapply Forall_impl; [exact Hcr|]. intros c Hc. by apply creating_upd_seg.
Qed.

(** A harmless change of one segment. *)
Lemma change_step st led cr pe i g h :
  sys_ok (mkSys st led cr pe) -> shm_segments st !! i = Some g ->
  (forall g, same_body g (h g) /\ nattch (h g) = nattch g) -> (forall g, settled g -> settled (h g)) ->
  sys_ok (mkSys (upd_seg h (Z.of_nat i) st) led cr pe).
Proof.
  intros [Hok Hpe Hsl Hcr Hcl Hb Hdi] Hg Hh Hset. cbn [tables books creating pending] in *.
  split; cbn [tables books creating pending]; try done.
  - eapply seg_change; [exact Hok|done|done|by right].
  - eapply Forall_impl; [exact Hpe|]. intros b Hpb. apply pending_upd_seg; [apply Hh|done].
  - eapply Forall_impl; [exact Hcr|]. intros b Hpb. apply creating_upd_seg; [apply Hh|done].
  - intros f. rewrite (held_same st i h g f Hg) by apply Hh. apply Hb.
  - intros f. rewrite (held_same st i h g f Hg) by apply Hh. apply Hdi.
Qed.

(** A segment is marked for removal, and goes if nobody has it. *)
Lemma mark_step st led cr pe i g :
  sys_ok (mkSys st led cr pe) -> shm_segments st !! i = Some g -> is_Some (physical_pages g) ->
  exists st' calls led', maybe_destroy_at (Z.of_nat i) (upd_seg mark_dest (Z.of_nat i) st) = (st', calls) /\
    apply_calls led calls = Some led' /\ sys_ok (mkSys st' led' cr pe).
Proof.
  intros Hsys Hg Hp. pose proof Hsys as [Hok Hpe _ Hcr _ Hb _]. cbn [tables books creating pending] in *.
  assert (Hg' : shm_segments (upd_seg mark_dest (Z.of_nat i) st) !! i = Some (mark_dest g)).
  { rewrite (upd_seg_insert _ st i g) by done. cbn [shm_segments set_segs].
    apply list_lookup_insert_eq. by eapply lookup_lt_Some. }
  destruct (settle st led cr pe (upd_seg mark_dest (Z.of_nat i) st) i (mark_dest g) Hsys) with (pe' := pe)
    as (st' & calls & E & _ & Hl); try done.
  - eapply seg_change; [exact Hok|done|done|by left].
  - intros f. by apply (held_same st i mark_dest g f).
  - eapply Forall_impl; [exact Hpe|]. intros b Hpb. by apply pending_upd_seg.
  - eapply Forall_impl; [exact Hcr|]. intros b Hpb. by apply creating_upd_seg.
  - destruct (Hl led Hb) as (led' & ? & ?). by exists st', calls, led'.
Qed.

(** A slot attached: used by shmat and fork. *)
Lemma attach_step st led cr pe p s pa a i g f h :
  sys_ok (mkSys st led cr pe) -> proc_attaches st !! p = Some pa -> attaches pa !! s = Some a ->
  at_used a = false -> pa_pid pa <> 0 -> at_used (f a) = true -> at_shmid (f a) = Z.of_nat i ->
  shm_segments st !! i = Some g -> is_Some (physical_pages g) ->
  (forall n g, is_Some (physical_pages g) -> Z.of_nat n < 2 ^ 31 -> seg_ok n g -> seg_ok (S n) (h g)) ->
  (forall g, same_body g (h g)) ->
  sys_ok (mkSys (upd_seg h (Z.of_nat i) (upd_slot f p s st)) led cr pe).
Proof.
  intros [Hok Hpe Hsl Hcr Hcl Hb Hdi] Hp Ha Hu Hpid Hf Hi Hg Hpg Hh Hsame. cbn [tables books creating pending] in *.
  split; cbn [tables books creating pending]; try done.
  - by eapply slot_on.
  - eapply Forall_impl; [exact Hpe|]. intros b Hpb. apply pending_upd_seg; [done|]. eapply pending_upd_slot; try done.
    destruct Hpb as (pb & gb & Hpb & _ & _ & Hsb & _). intros [= E1 E2]. rewrite E1, E2 in *. rewrite Hp in Hpb. injection Hpb as <-.
    rewrite Ha in Hsb. injection Hsb as ->. done.
  - eapply Forall_impl; [exact Hcr|]. intros b Hpb. by apply creating_upd_seg.
  - intros x. rewrite (held_same (upd_slot f p s st) i h g x Hg) by done. apply Hb.
  - intros x. rewrite (held_same (upd_slot f p s st) i h g x Hg) by done. apply Hdi.
Qed.

(** An entry of the process table with no attachments is replaced by another one. *)
Lemma entry_step st led cr pe p pa pid :
  sys_ok (mkSys st led cr pe) -> proc_attaches st !! p = Some pa -> Forall (fun a => at_used a = false) (attaches pa) ->
  Forall (fun b => a_pa b <> p) pe ->
  sys_ok (mkSys (set_procs (<[p := mkPa pid (replicate 8 at_zero)]> (proc_attaches st)) st) led cr pe).
Proof.
  intros [Hok Hpe Hsl Hcr Hcl Hb Hdi] Hp Hfree Hne. cbn [tables books creating pending] in *.
  assert (Hc : forall i, attach_count (set_procs (<[p := mkPa pid (replicate 8 at_zero)]> (proc_attaches st)) st) i = attach_count st i).
  { intros i. unfold attach_count, slots. cbn [proc_attaches set_procs].
    pose proof (count_concat_insert (attached i) attaches _ _ _ (mkPa pid (replicate 8 at_zero)) Hp) as H.
    assert (count_if (attached i) (attaches pa) = 0%nat).
    { apply count_if_zero. rewrite Forall_forall in Hfree. intros a Ha. unfold attached. by rewrite Hfree. }
    change (count_if (attached i) (attaches (mkPa pid (replicate 8 at_zero)))) with 0%nat in H. lia. }
  split; cbn [tables books creating pending]; try done.
  - split; try apply Hok.
    + cbn [proc_attaches set_procs]. rewrite length_insert. apply (ok_procs _ _ Hok).
    + intros i g Hg. rewrite Hc. by apply (ok_seg _ _ Hok).
    + intros q pb. cbn [proc_attaches set_procs]. intros [(<- & <- & _)|(_ & ?)]%list_lookup_insert_Some; [|by eapply ok_proc].
      split; cbn [attaches pa_pid]; [done|intros _; by apply Forall_replicate|by apply Forall_replicate].
  - rewrite Forall_forall in *. intros b Hbin. destruct (Hpe b Hbin) as (pb & g & ? & Hrest). exists pb, g.
    cbn [proc_attaches set_procs shm_segments]. rewrite list_lookup_insert_ne; [done|]. specialize (Hne b Hbin). congruence.
Qed.

Lemma find_or_create_step st led cr pe pid :
  sys_ok (mkSys st led cr pe) -> pid <> 0 ->
  find_or_create_proc_attaches st pid = (None, st) \/
  exists q st' pb, find_or_create_proc_attaches st pid = (Some q, st') /\ sys_ok (mkSys st' led cr pe) /\
    proc_attaches st' !! q = Some pb /\ pa_pid pb = pid /\ shm_segments st' = shm_segments st /\
    forall r pr, proc_attaches st !! r = Some pr -> pa_pid pr <> 0 -> proc_attaches st' !! r = Some pr.
Proof.
  intros Hsys Hpid. unfold find_or_create_proc_attaches, find_proc_attaches.
  destruct (first_index (fun pa => pa_pid pa =? pid) _) as [q|] eqn:E.
  { apply first_index_Some in E as (pb & Hpb & Hq & _). right. exists q, st, pb. apply Z.eqb_eq in Hq. done. }
  destruct (first_index (fun pa => pa_pid pa =? 0) _) as [q|] eqn:E0; [|by left]. right.
  apply first_index_Some in E0 as (pb & Hpb & Hq & _). apply Z.eqb_eq in Hq.
  pose proof Hsys as [Hok Hpe _ _ _ _ _]. cbn [tables pending] in *.
  eexists q, _, (mkPa pid (replicate 8 at_zero)). split; [done|]. split_and!; try done.
  - eapply entry_step; [exact Hsys|done|by apply (pr_free _ (ok_proc _ _ Hok _ _ Hpb))|].
    eapply Forall_impl; [exact Hpe|]. intros b (pa & g & Hb & Hp & Hne & _) Heq. congruence.
  - cbn [proc_attaches set_procs]. apply list_lookup_insert_eq. by eapply lookup_lt_Some.
  - intros r pr Hr Hne. cbn [proc_attaches set_procs]. rewrite list_lookup_insert_ne; [done|]. intros ->. congruence.
Qed.

Lemma free_slot pa s : find_proc_attach_slot pa = Some s -> exists a, attaches pa !! s = Some a /\ at_used a = false.
Proof. intros (a & Ha & Hu & _)%first_index_Some. exists a. split; [done|]. by apply negb_true_iff. Qed.

Definition progress (o : op) (s : sys) : Prop := exists s', exec o s = Some s' /\ sys_ok s'.

(** Nothing in flight changed and no calls were made. *)
Ltac quiet := eexists; split; [reflexivity|assumption].

Lemma exec_reserve e shmid flg s : sys_ok s -> cur_pid e <> 0 -> progress (OReserve e shmid flg) s.
Proof.
  destruct s as [st led cr pe]. intros Hsys Hpid. unfold progress, exec. cbn [effect tables creating pending].
  unfold shmat_reserve, seg_lookup. destruct (orb _ _) eqn:Er; [quiet|].
  assert (Hr : 0 <= shmid < 32) by (unfold SHMMNI in *; lia). clear Er.
  set (i := Z.to_nat shmid). assert (Hi : shmid = Z.of_nat i) by lia. clearbody i. subst shmid.
  pose proof Hsys as [Hok _ _ _ _ _ _]. cbn [tables] in Hok.
  destruct (lookup_lt_is_Some_2 (shm_segments st) i) as [g Hg]; [rewrite (ok_segs _ _ Hok); lia|].
  rewrite (seg_at_lookup _ _ _ Hg). destruct (orb _ _); [quiet|].
  destruct (physical_pages g) as [pages|] eqn:Hpg; [|quiet]. destruct (negb _); [quiet|].
  destruct (find_or_create_step st led cr pe (cur_pid e) Hsys Hpid) as [->|(q & st' & pb & -> & Hsys' & Hq & Hqp & Hseg & _)]; [quiet|].
  rewrite (list_lookup_total_correct _ _ _ Hq). destruct (find_proc_attach_slot pb) as [s|] eqn:Es; [|quiet].
  destruct (free_slot _ _ Es) as (a & Ha & Hu). cbn [fmap option_fmap option_map apply_calls books]. eexists. split; [done|].
  rewrite <- Hseg in Hg.
  assert (Hnew : sys_ok (mkSys (upd_seg (fun g => set_ds (set_lpid (cur_pid e)) (inc_nattch g)) (Z.of_nat i)
      (upd_slot (fun _ => mkAt true (Z.of_nat i) 0) q s st')) led cr pe)).
  { eapply attach_step; try done; [by rewrite Hqp|].
    intros n g0 H1 H2 H3. eapply seg_ok_same; [| |by apply (seg_ok_inc n g0)]; done. }
  destruct Hsys' as [_ Hpe' _ _ _ _ _]. cbn [tables pending] in Hpe'.
  destruct Hnew as [Ht Hpe Hsl Hcr Hcl Hb Hdi]. split; cbn [tables books creating pending] in *; try done.
  - constructor; [|done]. eexists _, (set_ds (set_lpid (cur_pid e)) (inc_nattch g)). cbn [a_pa a_slot a_pid a_shmid a_pages a_npages].
    cbn [proc_attaches upd_seg set_segs]. rewrite (upd_slot_procs _ _ _ _ _ _ Hq Ha).
    rewrite list_lookup_insert_eq by (by eapply lookup_lt_Some). split; [done|]. cbn [pa_pid attaches].
    rewrite list_lookup_insert_eq by (by eapply lookup_lt_Some). unfold SHMMNI in *. split_and!; try done; try lia.
    rewrite (upd_seg_insert _ (upd_slot _ q s st') i g Hg). cbn [shm_segments set_segs]. rewrite Nat2Z.id.
    apply list_lookup_insert_eq. by eapply lookup_lt_Some.
  - rewrite fmap_cons. apply NoDup_cons. split; [|done]. cbn [a_pa a_slot]. intros (b & Heq & Hbin)%list_elem_of_fmap.
    injection Heq as E1 E2. rewrite Forall_forall in Hpe'. destruct (Hpe' b Hbin) as (pb' & gb & Hpb & _ & _ & Hsb & _).
    rewrite <- E1, <- E2 in *. rewrite Hq in Hpb. injection Hpb as <-. rewrite Ha in Hsb. by injection Hsb as ->.
Qed.

(** A reserved slot gets its address: nothing is attached or detached. *)
Lemma readdress_step st led cr pe p s pa a f pe' :
  sys_ok (mkSys st led cr pe) -> proc_attaches st !! p = Some pa -> attaches pa !! s = Some a ->
  at_used (f a) = at_used a -> at_shmid (f a) = at_shmid a ->
  sublist pe' pe -> Forall (fun b => (a_pa b, a_slot b) <> (p, s)) pe' ->
  sys_ok (mkSys (upd_slot f p s st) led cr pe').
Proof.
  intros [Hok Hpe Hsl Hcr Hcl Hb Hdi] Hp Ha Hu Hi Hsub Hne. cbn [tables books creating pending] in *.
  assert (Hc : forall i, attach_count (upd_slot f p s st) i = attach_count st i).
  { intros i. pose proof (upd_slot_count f p s st pa a i Hp Ha) as H. unfold attached in H. rewrite Hu, Hi in H. lia. }
  split; cbn [tables books creating pending]; try done.
  - split; try apply Hok.
    + rewrite (upd_slot_procs _ _ _ _ _ _ Hp Ha), length_insert. apply (ok_procs _ _ Hok).
    + intros i g Hg. rewrite Hc. by apply (ok_seg _ _ Hok).
    + intros q pb. apply (upd_slot_proc_ok st p s pa a Hp Ha); [apply (ok_proc _ _ Hok)|]. rewrite Hu, Hi. intros E.
      pose proof (ok_proc _ _ Hok _ _ Hp) as [_ Hf Hid]. rewrite Forall_lookup in Hid. split; [|by apply (Hid _ _ Ha)].
      intros Hz. specialize (Hf Hz). rewrite Forall_lookup in Hf. rewrite (Hf _ _ Ha) in E. done.
  - rewrite Forall_forall in *. intros b Hbin. eapply pending_upd_slot; [done|done| |by apply Hne].
    apply Hpe. by eapply sublist_subseteq.
  - eapply sublist_NoDup; [exact Hsl|]. by apply fmap_sublist.
Qed.

Lemma NoDup_delete_ne {A B} (f : A -> B) l n a : NoDup (f <$> l) -> l !! n = Some a ->
  Forall (fun b => f b <> f a) (delete n l).
Proof.
  intros Hnd Hn. apply Forall_lookup. intros k b Hb. rewrite list_lookup_delete in Hb. case_decide as Hk.
  - intros E. assert (k = n); [|lia]. apply (NoDup_lookup (f <$> l) k n (f a) Hnd); rewrite list_lookup_fmap.
    + rewrite Hb. simpl. by rewrite E.
    + by rewrite Hn.
  - intros E. assert (S k = n); [|lia]. apply (NoDup_lookup (f <$> l) (S k) n (f a) Hnd); rewrite list_lookup_fmap.
    + rewrite Hb. simpl. by rewrite E.
    + by rewrite Hn.
Qed.

(** The frames a pending attach will map are owned. *)
Lemma held_pages st i g l f : shm_segments st !! i = Some g -> physical_pages g = Some l -> f ∈ l ->
  (0 < count_if (is_frame f) (held st))%nat.
Proof.
  intros Hg Hl (k & Hk)%list_elem_of_lookup. pose proof (held_insert st i g seg_zero f Hg) as H.
  pose proof (count_if_le (is_frame f) l k f Hk) as Hc. unfold is_frame in Hc at 1. rewrite Z.eqb_refl in Hc.
  specialize (Hc eq_refl). unfold backing in H. rewrite Hl in H. change (default [] (physical_pages seg_zero)) with (@nil Z) in H.
  change (count_if (is_frame f) []) with 0%nat in H. simpl in H. lia.
Qed.

Lemma map_pages_ledger led h a v : ledger_ok led h -> (forall f, f ∈ a_pages a -> 0 < refs led f) ->
  exists led', apply_calls led (map_pages a v) = Some led' /\ ledger_ok led' h.
Proof.
  intros Hok Hf. unfold map_pages. set (flags := Z.lor _ _).
  replace (imap _ _) with ((fun m : Z * Z * Z * Z => [VmmMap (fst (fst (fst m))) (snd (fst (fst m))) (snd (fst m)) (snd m); PmmRef (snd (fst m))])
    <$> imap (fun p f => (a_pid a, page_vaddr v p, f, flags)) (take (Z.to_nat (a_npages a)) (a_pages a)))
    by (by rewrite fmap_imap).
  apply ledger_map; [done|]. apply Forall_lookup. intros k m (f & Hk & ->)%list_lookup_imap_Some. cbn [fst snd].
  apply Hf. apply lookup_take_Some in Hk as [Hk _]. by eapply list_elem_of_lookup_2.
Qed.

Lemma unmap_pages_ledger led h pid v n : ledger_ok led h ->
  exists led', apply_calls led (unmap_pages pid v n) = Some led' /\ ledger_ok led' h.
Proof.
  intros Hok. unfold unmap_pages.
  replace (_ <$> seq 0 n) with (VmmUnmap pid <$> (page_vaddr v <$> seq 0 n)) by (by rewrite <- list_fmap_compose).
  by apply ledger_unmap.
Qed.

Lemma exec_finish e n v ok s : sys_ok s -> progress (OFinish e n v ok) s.
Proof.
  destruct s as [st led cr pe]. intros Hsys. unfold progress, exec. cbn [effect tables creating pending].
  destruct (pe !! n) as [a|] eqn:Hn; [|quiet]. pose proof Hsys as [Hok Hpe Hsl _ _ Hb _]. cbn [tables pending books] in *.
  pose proof Hpe as Hpe'. rewrite Forall_lookup in Hpe'.
  destruct (Hpe' _ _ Hn) as (pa & g & Hpa & Hpid & _ & Hslot & Hid & Hg & Hpg & Hct).
  assert (Hne : Forall (fun b => (a_pa b, a_slot b) <> (a_pa a, a_slot a)) (delete n pe))
    by (by apply (NoDup_delete_ne (fun b => (a_pa b, a_slot b)))).
  assert (Hrefs : forall f, f ∈ a_pages a -> 0 < refs led f).
  { intros f Hf. rewrite (Hb f). pose proof (held_pages _ _ _ _ _ Hg Hpg Hf). lia. }
  set (i := Z.to_nat (a_shmid a)) in *. assert (Hi : a_shmid a = Z.of_nat i) by lia.
  pose proof (sublist_delete pe n) as Hsub.
  destruct (detach_step st led cr pe (a_pa a) (a_slot a) pa _ i (fun t => mkAt false 0 (virtual_addr t)) dec_nattch (delete n pe)
    Hsys Hpa Hslot) as (st' & calls & E & _ & Hl); try done; [intros; by apply seg_ok_dec|intros; apply same_dec|].
  unfold shmat_finish, shmat_unreserve. rewrite Hi, E. destruct v as [v|].
  - destruct (map_pages_ledger led (held st) a v Hb Hrefs) as (led1 & E1 & Hl1). destruct ok; cbn [negb].
    + rewrite apply_calls_app, E1. cbn [apply_calls apply_call fmap option_fmap option_map]. eexists. split; [reflexivity|].
      eapply (change_step _ led1 cr (delete n pe) i g); try done.
      destruct (readdress_step st led cr pe (a_pa a) (a_slot a) pa _ (fun t => mkAt (at_used t) (at_shmid t) v) (delete n pe)
        Hsys Hpa Hslot) as [? ? ? ? ? _ ?]; done.
    + rewrite apply_calls_app, E1, apply_calls_app.
      destruct (unmap_pages_ledger led1 (held st) (a_pid a) v (Z.to_nat (a_npages a)) Hl1) as (led2 & -> & Hl2).
      destruct (Hl led2 Hl2) as (led3 & -> & Hsys3). quiet.
  - destruct (Hl led Hb) as (led1 & -> & Hsys1). quiet.
Qed.

Lemma seg_lookup_Some st x shmid n g : tables_ok x st -> seg_lookup st shmid n = Some g ->
  exists i, shmid = Z.of_nat i /\ shm_segments st !! i = Some g /\ used g = true.
Proof.
  intros Hok. unfold seg_lookup. destruct (orb _ _) eqn:Er; [done|].
  assert (Hr : 0 <= shmid < 32) by (unfold SHMMNI in *; lia). clear Er.
  destruct (lookup_lt_is_Some_2 (shm_segments st) (Z.to_nat shmid)) as [g' Hg]; [rewrite (ok_segs _ _ Hok); lia|].
  replace shmid with (Z.of_nat (Z.to_nat shmid)) by lia. rewrite (seg_at_lookup _ _ _ Hg).
  destruct (used g') eqn:Eu; cbn [negb orb]; [|done]. destruct (_ <>? n); [done|]. intros [= <-]. eauto.
Qed.

Lemma exec_detach e addr s : sys_ok s -> addr <> 0 \/ Forall (fun a => a_pid a <> cur_pid e) (pending s) ->
  progress (ODetach e addr) s.
Proof.
  destruct s as [st led cr pe]. intros Hsys Hall. unfold progress, exec. cbn [effect tables creating pending] in *.
  pose proof Hsys as [Hok Hpe _ _ _ Hb _]. cbn [tables pending books] in *.
  unfold shmdt, find_proc_attaches. destruct (first_index _ (proc_attaches st)) as [p|] eqn:Ep; [|quiet].
  apply first_index_Some in Ep as (pa & Hp & Hpid & _). apply Z.eqb_eq in Hpid. unfold slot_at.
  rewrite (list_lookup_total_correct _ _ _ Hp).
  destruct (first_index _ (attaches pa)) as [k|] eqn:Ek; [|quiet].
  apply first_index_Some in Ek as (a & Ha & Hua & _). apply andb_true_iff in Hua as [Hu Hva]. apply Z.eqb_eq in Hva.
  rewrite (list_lookup_total_correct _ _ _ Ha). destruct (slot_segment _ _ _ _ _ _ Hok Hp Ha Hu) as (i & g & Hi & Hlt & Hg & _).
  rewrite Hi, (seg_at_lookup _ _ _ Hg).
  assert (Hne : Forall (fun b => (a_pa b, a_slot b) <> (p, k)) pe).
  { rewrite Forall_forall in *. intros b Hbin [= E1 E2]. destruct (Hpe b Hbin) as (pb & gb & Hpb & Hbp & _ & Hsb & _).
    rewrite E1, E2 in *. rewrite Hp in Hpb. injection Hpb as <-. rewrite Ha in Hsb. injection Hsb as ->. cbn [virtual_addr] in Hva.
    destruct Hall as [?|Hall]; [done|]. specialize (Hall b Hbin). congruence. }
  destruct (detach_step st led cr pe p k pa a i (fun _ => mkAt false 0 0)
    (fun g => set_ds (fun d => set_lpid (cur_pid e) (set_dtime (now e) d)) (dec_nattch g)) pe Hsys Hp Ha)
    as (st' & calls & -> & _ & Hl); try done.
  { intros n g0 H. eapply seg_ok_same; [| |by apply seg_ok_dec]; done. }
  { intros g0. eapply same_trans; [apply same_dec|done]. }
  rewrite (proj2 (Z.ltb_ge (Z.of_nat i) 0)) by lia. rewrite apply_calls_app.
  destruct (unmap_pages_ledger led (held st) (cur_pid e) addr (span_pages addr (u64 (page_count g * PAGE_SIZE))) Hb) as (led1 & -> & Hl1).
  cbn [app apply_calls apply_call]. destruct (Hl led1 Hl1) as (led2 & -> & Hsys2). quiet.
Qed.

Lemma dest_testbit x : x &? SHM_DEST = Z.testbit x 9.
Proof. change SHM_DEST with (Z.shiftl 1 9). rewrite land_single_bit by lia. by destruct (Z.testbit x 9). Qed.
Lemma dest_kept m b : (u16 (Z.lor (Z.land m (Z.lnot 511)) (Z.land b 511))) &? SHM_DEST = m &? SHM_DEST.
Proof.
  rewrite !dest_testbit. unfold u16. change U16_MOD with (2 ^ 16). rewrite Z.mod_pow2_bits_low by lia.
  rewrite Z.lor_spec, !Z.land_spec, Z.lnot_spec by lia. change (Z.testbit 511 9) with false.
  by rewrite andb_true_r, andb_false_r, orb_false_r.
Qed.

Lemma exec_control e shmid cmd buf s : sys_ok s -> progress (OControl e shmid cmd buf) s.
Proof.
  destruct s as [st led cr pe]. intros Hsys. unfold progress, exec. cbn [effect tables creating pending].
  unfold shmctl. destruct (seg_lookup _ _ _) as [g|] eqn:El; [|quiet].
  eapply seg_lookup_Some in El as (i & -> & Hg & Hu); [|apply Hsys]. destruct (physical_pages g) as [l|] eqn:Hp; [|quiet].
  destruct (cmd =? IPC_RMID).
  { destruct (negb _); [quiet|]. destruct (mark_step st led cr pe i g) as (st' & calls & led' & -> & E & Hs); [done|done|by rewrite Hp|].
    cbn [books]. rewrite E. quiet. }
  destruct (cmd =? IPC_STAT); [destruct (negb _); [quiet|]; destruct buf; quiet|].
  destruct (cmd =? IPC_SET); [|destruct (orb _ _); quiet].
  destruct (negb _); [quiet|]. destruct buf as [b|]; [|quiet]. eexists. split; [reflexivity|].
  eapply change_step; try done. intros g0 Hset Hpg Hd. apply Hset; [done|]. unfold mode in *. cbn in Hd.
  by rewrite dest_kept in Hd.
Qed.

Lemma exec_destroy n i s : sys_ok s -> progress (ODestroy n i) s.
Proof.
  destruct s as [st led cr pe]. intros Hsys. unfold progress, exec. cbn [effect tables creating pending].
  unfold ns_destroy_one. destruct (andb _ _) eqn:E; [|quiet]. apply andb_true_iff in E as [_ Hp%bool_decide_eq_true].
  destruct (shm_segments st !! i) as [g|] eqn:Hg.
  - rewrite (seg_at_lookup _ _ _ Hg) in Hp. destruct (mark_step st led cr pe i g) as (st' & calls & led' & -> & E & Hs); [done..|].
    cbn [books]. rewrite E. quiet.
  - exfalso. unfold seg_at, zget in Hp. rewrite Nat2Z.id, list_lookup_total_alt, Hg in Hp. by destruct Hp.
Qed.

Lemma exec_unmap pid v s : sys_ok s -> progress (OUnmap pid v) s.
Proof.
  destruct s as [st led cr pe]. intros Hsys. unfold progress, exec. cbn [effect tables creating pending books].
  destruct (ledger_unmap pid [v] led (held st) (s_books _ Hsys)) as (led' & E & Hl). cbn [fmap list_fmap] in E. rewrite E.
  eexists. split; [reflexivity|]. by destruct Hsys.
Qed.

(** A segment without pages -- free, or claimed by a shmget that has not
    published it -- is replaced. *)
Section replace.
Context (st : shm_state) (i : nat) (g g' : shm_segment).
Context (Hg : shm_segments st !! i = Some g) (Hnone : physical_pages g = None).
Let st' := set_segs (<[i := g']> (shm_segments st)) st.

Lemma replace_tables : tables_ok None st -> seg_ok 0 g' -> settled g' -> tables_ok None st'.
Proof using Hg Hnone.
  intros Hok Hs' Hset'. unfold st'. split; cbn [shm_segments proc_attaches set_segs].
  - rewrite length_insert. apply (ok_segs _ _ Hok).
  - apply (ok_procs _ _ Hok).
  - intros j h. change (attach_count (set_segs _ ?t)) with (attach_count t).
    intros [(<- & <- & _)|(_ & ?)]%list_lookup_insert_Some; [|by apply (ok_seg _ _ Hok)].
    assert (attach_count st (Z.of_nat i) = 0%nat) as ->; [|done].
    pose proof (sg_live _ _ (ok_seg _ _ Hok i g Hg)) as Hl. rewrite Hnone in Hl.
    destruct (attach_count st (Z.of_nat i)); [done|]. destruct Hl as [? ?]; [lia|done].
  - intros j h. intros [(<- & <- & _)|(_ & ?)]%list_lookup_insert_Some _; [done|]. by eapply (ok_settled _ _ Hok).
  - apply (ok_proc _ _ Hok).
Qed.

Lemma replace_pending b : pending_ok st b -> pending_ok st' b.
Proof using Hg Hnone.
  intros (pb & gb & ? & ? & ? & ? & ? & Hgb & Hpb & Hcb). exists pb, gb. unfold st'. cbn [shm_segments proc_attaches set_segs].
  rewrite list_lookup_insert_ne; [done|]. intros ->. rewrite Hg in Hgb. injection Hgb as ->. congruence.
Qed.

Lemma replace_creating c : creating_ok st c -> fst c <> i -> creating_ok st' c.
Proof using.
  intros (gc & ? & ? & ? & ?) Hne. exists gc. unfold st'. cbn [shm_segments set_segs]. by rewrite list_lookup_insert_ne.
Qed.

Lemma replace_held f : count_if (is_frame f) (held st') = (count_if (is_frame f) (held st) + count_if (is_frame f) (backing g'))%nat.
Proof using Hg Hnone.
  pose proof (held_insert st i g g' f Hg) as H. unfold backing in H at 1. rewrite Hnone in H. simpl in H.
  change (count_if (is_frame f) []) with 0%nat in H. unfold st'. lia.
Qed.
End replace.

Lemma ledger_ok_counts led h h' : (forall f, count_if (is_frame f) h' = count_if (is_frame f) h) -> ledger_ok led h -> ledger_ok led h'.
Proof. intros H Hl f. rewrite H. apply Hl. Qed.

Lemma exec_claim e caps k size flg s : sys_ok s -> ResourceCaps.caps_ok caps -> progress (OClaim e caps k size flg) s.
Proof.
  destruct s as [st led cr pe]. intros Hsys Hcaps. unfold progress, exec. cbn [effect tables creating pending].
  assert (Hclaim : forall n, exists s', (let '(st0, calls, cr0, pe0) :=
      match claim_slot st n k size (ResourceCaps.shmmax_bytes caps) with
      | (inl _, st) => (st, [], cr, pe) | (inr c, st) => (st, [], c :: cr, pe) end in
      (fun l => mkSys st0 l cr0 pe0) <$> apply_calls led calls) = Some s' /\ sys_ok s').
  2:{ unfold shmget_claim. destruct (k <>? 0); [|apply Hclaim]. destruct (first_index _ _) as [j|]; [quiet|].
      destruct (flg &? IPC_CREAT); [apply Hclaim|quiet]. }
  intros n. unfold claim_slot. destruct (orb _ _) eqn:Esz; [quiet|]. apply orb_false_iff in Esz as [Hs1 Hs2].
  destruct (first_index _ (shm_segments st)) as [i|] eqn:Ei; [|quiet]. eexists. split; [reflexivity|].
  apply first_index_Some in Ei as (g & Hg & Hu & _). apply negb_true_iff in Hu.
  destruct Hsys as [Hok Hpe Hsl Hcr Hcl Hb Hdi]. cbn [tables books creating pending] in *.
  pose proof (sg_used _ _ (ok_seg _ _ Hok i g Hg) Hu) as Hnone.
  set (g' := mkSeg true k n _ None 0).
  assert (Hheld : forall f, count_if (is_frame f) (held (set_segs (<[i := g']> (shm_segments st)) st)) = count_if (is_frame f) (held st)).
  { intros f. rewrite (replace_held st i g g' Hg Hnone). apply Nat.add_0_r. }
  split; cbn [tables books creating pending]; try done.
  - eapply replace_tables; try done; [|by intros [? ?]]. split; try done. simpl. lia.
  - eapply Forall_impl; [exact Hpe|]. intros b. by eapply replace_pending.
  - constructor.
    + exists g'. cbn [fst snd shm_segments set_segs]. rewrite list_lookup_insert_eq by (by eapply lookup_lt_Some).
      split_and!; try done. destruct Hcaps as (_ & _ & Hsh & _).
      unfold SHMMIN, PAGE_SIZE, ResourceCaps.CAP_SHMMAX_CEIL_MB in *. rewrite u64_small by lia. unfold i32. 
      assert (0 <= (size + 4096 - 1) / 4096 <= 65537) by (split; [apply Z.div_pos|apply Z.div_le_upper_bound]; lia).
      rewrite Z.mod_small by lia. lia.
    + rewrite Forall_forall in *. intros c Hc. apply replace_creating; [by apply Hcr|]. intros E.
      destruct (Hcr c Hc) as (gc & Hgc & Huc & _). rewrite E, Hg in Hgc. congruence.
  - rewrite fmap_cons. apply NoDup_cons. split; [|done]. cbn [fst]. intros (c & -> & Hc)%list_elem_of_fmap.
    rewrite Forall_forall in Hcr. destruct (Hcr c Hc) as (gc & Hgc & Huc & _). congruence.
  - by eapply ledger_ok_counts.
  - intros f. rewrite Hheld. apply Hdi.
Qed.

Lemma filter_nonzero l : Forall (fun f : Z => f <> 0) l -> List.filter (fun f => f <>? 0) l = l.
Proof. induction 1 as [|f l Hf _ IH]; [done|]. simpl. by rewrite (proj2 (Z.eqb_neq f 0) Hf), IH. Qed.
Lemma filter_zeros n : List.filter (fun f : Z => f <>? 0) (replicate n 0) = [].
Proof. by induction n. Qed.

Lemma alloc_frames_ok n answers : let '(l, got) := alloc_frames n answers in
  length l = n /\ (exists k, List.filter (fun f => f <>? 0) l = take k answers) /\ (got = true -> Forall (fun f => f <> 0) l).
Proof.
  revert answers. induction n as [|n IH]; intros answers; cbn [alloc_frames].
  { split_and!; [done|by exists 0%nat|done]. }
  destruct answers as [|f rest].
  { rewrite length_replicate, filter_zeros. split_and!; [done|by exists 0%nat|done]. }
  destruct (Z.eqb_spec f 0) as [->|Hf].
  { rewrite length_replicate, filter_zeros. split_and!; [done|by exists 0%nat|done]. }
  specialize (IH rest). destruct (alloc_frames n rest) as [l got]. destruct IH as (Hl & (k & Hk) & Hg).
  split_and!; [simpl; lia|exists (S k)|intros E; constructor; auto].
  simpl. rewrite (proj2 (Z.eqb_neq f 0) Hf). simpl. by rewrite Hk.
Qed.

Lemma count_frame_NoDup f l : NoDup l -> (count_if (is_frame f) l <= 1)%nat /\ ((0 < count_if (is_frame f) l)%nat -> f ∈ l).
Proof.
  induction 1 as [|x l Hx _ IH]; [unfold count_if; simpl; split; [lia|lia]|]. rewrite count_if_cons. unfold is_frame at 1 3.
  destruct (Z.eqb_spec x f) as [->|].
  - assert (count_if (is_frame f) l = 0%nat) by (destruct (count_if _ l); [done|]; exfalso; apply Hx, IH; lia).
    split; [lia|]. intros _. by left.
  - destruct IH as [? IH]. split; [lia|]. intros Hc. right. apply IH. lia.
Qed.

Lemma exec_publish e n k size flg kz answers s : sys_ok s -> NoDup answers ->
  Forall (fun f => 0 <= f /\ refs (books s) f = 0) answers -> progress (OPublish e n k size flg kz answers) s.
Proof.
  destruct s as [st led cr pe]. intros Hsys Hnd Hfree. unfold progress, exec. cbn [effect tables creating pending books] in *.
  destruct (cr !! n) as [[i np]|] eqn:Hn; [|quiet]. unfold shmget_publish.
  pose proof (alloc_frames_ok (Z.to_nat np) answers) as Ha. destruct (alloc_frames _ answers) as [pages got].
  destruct Ha as (Hlen & (m & Hm) & Hgot).
  destruct Hsys as [Hok Hpe Hsl Hcr Hcl Hb Hdi]. cbn [tables books creating pending] in *.
  pose proof Hcr as Hcr'. rewrite Forall_lookup in Hcr'. destruct (Hcr' _ _ Hn) as (g & Hg & Hu & Hnone & Hnp). cbn [fst snd] in *.
  assert (Hrest : forall led' g', seg_ok 0 g' -> settled g' -> (forall f, count_if (is_frame f) (held st) + count_if (is_frame f) (backing g') <= 1)%nat ->
    ledger_ok led' (backing g' ++ held st) ->
    sys_ok (mkSys (set_segs (<[i := g']> (shm_segments st)) st) led' (delete n cr) pe)).
  { intros led' g' Hs' Hset' Hd' Hl'. split; cbn [tables books creating pending]; try done.
    - by eapply replace_tables.
    - eapply Forall_impl; [exact Hpe|]. intros b. by eapply replace_pending.
    - pose proof (NoDup_delete_ne fst cr n (i, np) Hcl Hn) as Hne. rewrite Forall_forall in *. intros c Hc.
      apply replace_creating; [|by apply Hne]. apply Hcr. by eapply sublist_subseteq, Hc; apply sublist_delete.
    - eapply sublist_NoDup; [exact Hcl|]. apply fmap_sublist, sublist_delete.
    - eapply ledger_ok_counts; [|exact Hl']. intros f. rewrite (replace_held st i g g' Hg Hnone), count_if_app. lia.
    - intros f. rewrite (replace_held st i g g' Hg Hnone). apply Hd'. }
  assert (Hfail : forall led', ledger_ok led' (held st) ->
    sys_ok (mkSys (set_segs (alter (fun _ => seg_zero) i (shm_segments st)) st) led' (delete n cr) pe)).
  { intros led' Hl'. rewrite (alter_as_insert _ _ _ _ Hg). apply Hrest; [apply seg_zero_ok|by intros [? ?]| |done].
    intros f. specialize (Hdi f). change (backing seg_zero) with (@nil Z). change (count_if (is_frame f) []) with 0%nat. lia. }
  destruct kz; cbn [negb]; [|eexists; split; [reflexivity|by apply Hfail]].
  destruct (ledger_alloc (take m answers) led (held st) Hb) as (led1 & E1 & Hl1).
  destruct got; cbn [negb].
  - rewrite (filter_nonzero pages) in Hm by auto. unfold allocs. rewrite (filter_nonzero pages), Hm, E1 by auto.
    eexists. split; [reflexivity|].
    pose proof (Hrest led1 (new_segment e g (shm_seq st) k size flg np pages)) as HR.
    rewrite (alter_as_insert _ _ _ _ Hg), <- Hm. cbn [books].
    destruct HR as [Ht ? ? ? ? ? ?]; [| | |by rewrite Hm|by destruct Ht; split].
    + split; try done; [simpl; lia|]. cbn [new_segment physical_pages page_count]. intros l [= <-]. split; [lia|auto].
    + intros _. unfold mode, new_segment. cbn [ds shm_perm p_mode]. rewrite dest_testbit. unfold u16. change U16_MOD with (2 ^ 16).
      rewrite Z.mod_pow2_bits_low, Z.land_spec by lia. change (Z.testbit 511 9) with false. by rewrite andb_false_r.
    + intros f. change (backing _) with pages. rewrite Hm.
      assert (Hsub : NoDup (take m answers)) by (eapply sublist_NoDup; [exact Hnd|apply sublist_take]).
      pose proof (count_frame_NoDup f _ Hsub) as [Hle Hin]. specialize (Hdi f).
      destruct (decide (0 < count_if (is_frame f) (take m answers))%nat) as [Hpos|]; [|lia].
      specialize (Hin Hpos). rewrite Forall_forall in Hfree.
      destruct (Hfree f) as [_ Hz]; [by eapply sublist_subseteq, Hin; apply sublist_take|]. rewrite (Hb f) in Hz. lia.
  - unfold allocs, free_pages_array. rewrite (take_ge pages) by lia. rewrite Hm, apply_calls_app, E1.
    destruct (ledger_free (take m answers) led1 (take m answers ++ held st) (held st)) as (led2 & -> & Hl2); [done|intros f; by rewrite count_if_app|].
    eexists. split; [reflexivity|by apply Hfail].
Qed.

Lemma fork_slots_ok child l : forall c st led cr pe p pa,
  sys_ok (mkSys st led cr pe) -> child <> 0 -> proc_attaches st !! p = Some pa -> pa_pid pa <> 0 -> pa_pid pa <> child ->
  Forall (fun a => a ∈ attaches pa) l ->
  (forall q, c = Some q -> exists pb, proc_attaches st !! q = Some pb /\ pa_pid pb = child) ->
  sys_ok (mkSys (fork_slots child l c st) led cr pe).
Proof.
  induction l as [|a l IH]; intros c st led cr pe p pa Hsys Hch Hp Hpz Hpc Hl Hc; [done|]. cbn [fork_slots].
  apply Forall_cons in Hl as [Ha Hl]. destruct (at_used a) eqn:Hu; cbn [negb]; [|by eapply IH].
  assert (Hent : exists c' st', match c with Some _ => (c, st) | None => find_or_create_proc_attaches st child end = (c', st') /\
    sys_ok (mkSys st' led cr pe) /\ proc_attaches st' !! p = Some pa /\
    (forall q, c' = Some q -> exists pb, proc_attaches st' !! q = Some pb /\ pa_pid pb = child)).
  { destruct c as [q|]; [by eexists _, _|].
    destruct (find_or_create_step st led cr pe child Hsys Hch) as [->|(q & st' & pb & -> & ? & Hq & Hqp & _ & Hkeep)]; [by eexists _, _|].
    eexists _, _. split; [done|]. split; [done|]. split; [by apply Hkeep|]. intros q' [= <-]. eauto. }
  destruct Hent as (c' & st' & -> & Hsys' & Hp' & Hc'). destruct c' as [q|]; [|done].
  destruct (Hc' q eq_refl) as (pb & Hq & Hqp). rewrite (list_lookup_total_correct _ _ _ Hq).
  destruct (find_proc_attach_slot pb) as [k|] eqn:Ek; [|done]. destruct (free_slot _ _ Ek) as (b & Hb & Hbu).
  apply list_elem_of_lookup in Ha as (j & Hj).
  destruct (slot_segment _ _ _ _ _ _ (s_tables _ Hsys') Hp' Hj Hu) as (i & g & Hi & Hlt & Hg & Hpg & Hug & _). cbn [tables] in Hg.
  rewrite Hi. assert (Hsg : seg_at (upd_slot (fun _ => mkAt true (Z.of_nat i) (virtual_addr a)) q k st') (Z.of_nat i) = g) by (by apply seg_at_lookup).
  rewrite Hsg, Hug, (proj2 (Z.leb_le 0 (Z.of_nat i))), (proj2 (Z.ltb_lt (Z.of_nat i) SHMMNI)) by (unfold SHMMNI; lia). cbn [andb].
  assert (Hqne : q <> p) by congruence.
  eapply (IH _ _ _ _ _ p pa); try done.
  - eapply attach_step; try done; [congruence|]. intros n g0 ? ? ?. by apply seg_ok_inc.
  - cbn [proc_attaches upd_seg set_segs]. rewrite (upd_slot_procs _ _ _ _ _ _ Hq Hb). by rewrite list_lookup_insert_ne.
  - intros q' [= <-]. cbn [proc_attaches upd_seg set_segs]. rewrite (upd_slot_procs _ _ _ _ _ _ Hq Hb).
    rewrite list_lookup_insert_eq by (by eapply lookup_lt_Some). eexists. split; [done|]. done.
Qed.

Lemma clone_ledger parent child led h : ledger_ok led h ->
  exists led', apply_calls led (clone_calls parent child (maps led)) = Some led' /\ ledger_ok led' h.
Proof.
  intros Hok. unfold clone_calls. set (l := List.filter _ (maps led)).
  replace (_ <$> l) with ((fun m : Z * Z * Z * Z => [VmmMap (fst (fst (fst m))) (snd (fst (fst m))) (snd (fst m)) (snd m); PmmRef (snd (fst m))])
    <$> ((fun m : Z * Z * Z => (child, snd (fst m), snd m, 0)) <$> l)) by (by rewrite <- list_fmap_compose).
  apply ledger_map; [done|]. apply Forall_fmap, Forall_forall. intros m Hm. unfold compose. cbn [fst snd].
  assert (Hin : m ∈ maps led) by (apply list_elem_of_In, List.filter_In in Hm as [Hm _]; by apply list_elem_of_In).
  apply list_elem_of_lookup in Hin as (k & Hk). rewrite (Hok (snd m)).
  pose proof (count_if_le (mapped (snd m)) _ _ _ Hk) as Hc. unfold mapped in Hc at 1. rewrite Z.eqb_refl in Hc. specialize (Hc eq_refl). lia.
Qed.

Lemma exec_fork parent child s : sys_ok s -> parent <> 0 -> child <> 0 -> parent <> child -> progress (OFork parent child) s.
Proof.
  destruct s as [st led cr pe]. intros Hsys Hp Hc Hne. unfold progress, exec. cbn [effect tables creating pending books].
  destruct (clone_ledger parent child led (held st) (s_books _ Hsys)) as (led' & E & Hl). rewrite E.
  eexists. split; [reflexivity|]. assert (Hsys' : sys_ok (mkSys st led' cr pe)) by (by destruct Hsys).
  unfold shm_fork_inherit, find_proc_attaches. destruct (first_index _ _) as [p|] eqn:Ep; [|done].
  apply first_index_Some in Ep as (pa & Hpa & Hpid & _). apply Z.eqb_eq in Hpid.
  rewrite (list_lookup_total_correct _ _ _ Hpa). eapply fork_slots_ok; try done; [congruence..|]. by apply Forall_forall.
Qed.

(** Exit walks the slots without clearing them, and clears them all at the
    end; slot by slot this is a detach. *)
Lemma exit_slot_procs a procs st : exit_slot a (set_procs procs st) =
  let '(st', c) := exit_slot a st in (set_procs procs st', c).
Proof.
  unfold exit_slot. change (seg_at (set_procs procs st)) with (seg_at st). destruct (_ && _); [|done].
  unfold maybe_destroy_at. change (seg_at (upd_seg ?f ?i (set_procs procs st)) ?j) with (seg_at (upd_seg f i st) j).
  by destruct (seg_maybe_destroy _) as [[g d] n].
Qed.

Lemma exit_destroy_procs i h f p s st :
  maybe_destroy_at (Z.of_nat i) (upd_seg h (Z.of_nat i) st) =
  let '(st', c) := maybe_destroy_at (Z.of_nat i) (upd_seg h (Z.of_nat i) (upd_slot f p s st)) in (set_procs (proc_attaches st) st', c).
Proof.
  unfold maybe_destroy_at. change (seg_at (upd_seg h ?i (upd_slot f p s st)) ?j) with (seg_at (upd_seg h i st) j).
  by destruct (seg_maybe_destroy _) as [[g d] n].
Qed.

Lemma exit_fold l : forall d st led cr pe p pid procs,
  sys_ok (mkSys st led cr pe) -> proc_attaches st !! p = Some (mkPa pid (d ++ l)) ->
  Forall (fun a => at_used a = false) d -> Forall (fun b => a_pa b <> p) pe ->
  exists st' calls led' l', fold_calls exit_slot l (set_procs procs st) = (set_procs procs st', calls) /\
    apply_calls led calls = Some led' /\ sys_ok (mkSys st' led' cr pe) /\
    proc_attaches st' = <[p := mkPa pid l']> (proc_attaches st) /\ Forall (fun a => at_used a = false) l'.
Proof.
  induction l as [|a l IH]; intros d st led cr pe p pid procs Hsys Hp Hd Hne; cbn [fold_calls].
  { exists st, [], led, (d ++ []). rewrite app_nil_r in *. rewrite list_insert_id by done. done. }
  rewrite exit_slot_procs. pose proof (s_tables _ Hsys) as Hok. pose proof (s_books _ Hsys) as Hb. cbn [tables books] in Hok, Hb.
  assert (Ha : attaches (mkPa pid (d ++ a :: l)) !! length d = Some a) by (by apply list_lookup_middle).
  unfold exit_slot at 1. destruct (at_used a) eqn:Hu; cbn [andb].
  - destruct (slot_segment _ _ _ _ _ _ Hok Hp Ha Hu) as (i & g & Hi & Hlt & Hg & Hpg & Hug & Hn).
    rewrite Hi, (seg_at_lookup _ _ _ Hg), Hug, (proj2 (Z.ltb_lt _ _) Hn), (proj2 (Z.leb_le 0 (Z.of_nat i))),
      (proj2 (Z.ltb_lt (Z.of_nat i) SHMMNI)) by (unfold SHMMNI; lia). cbn [andb].
    destruct (detach_step st led cr pe p (length d) _ a i (fun _ => at_zero) (set_ds (fun d => set_nattch (shm_nattch d - 1) d)) pe
      Hsys Hp Ha) as (st1 & calls & E & Hpr & Hl); try done.
    { intros n g0 [Hc0 Hu0 Hl0 Hg0]. split; try done; [|intros _; apply Hl0; lia]. unfold nattch in *. cbn. lia. }
    { eapply Forall_impl; [exact Hne|]. intros b Hb' [= ? ?]. done. }
    assert (E' : maybe_destroy_at (Z.of_nat i) (upd_seg (set_ds (fun d => set_nattch (shm_nattch d - 1) d)) (Z.of_nat i) st)
      = (set_procs (proc_attaches st) st1, calls)).
    { pose proof (exit_destroy_procs i (set_ds (fun d => set_nattch (shm_nattch d - 1) d)) (fun _ => at_zero) p (length d) st) as X.
      by rewrite E in X. }
    rewrite E'. cbv beta iota. destruct (Hl led Hb) as (led1 & E1 & Hsys1).
    rewrite (upd_slot_procs _ _ _ _ _ _ Hp Ha) in Hpr. cbn [attaches pa_pid] in Hpr.
    rewrite insert_app_r_alt, Nat.sub_diag in Hpr by lia. cbn [insert list_insert] in Hpr.
    change (set_procs procs (set_procs (proc_attaches st) st1)) with (set_procs procs st1).
    destruct (IH (d ++ [at_zero]) st1 led1 cr pe p pid procs) as (st2 & calls2 & led2 & l' & E2 & Ea & Hs2 & Hp2 & Hl2); try done.
    + rewrite Hpr, list_lookup_insert_eq by (by eapply lookup_lt_Some). by rewrite <- app_assoc.
    + apply Forall_app. split; [done|]. by constructor.
    + rewrite E2. exists st2, (calls ++ calls2), led2, l'. rewrite apply_calls_app, E1.
      split_and!; try done. by rewrite Hp2, Hpr, list_insert_insert_eq.
  - destruct (IH (d ++ [a]) st led cr pe p pid procs) as (st2 & calls2 & led2 & l' & E2 & Ea & Hs2 & Hp2 & Hl2); try done.
    + by rewrite <- app_assoc.
    + apply Forall_app. split; [done|]. by constructor.
    + rewrite E2. by exists st2, calls2, led2, l'.
Qed.

Lemma exec_exit pid s : sys_ok s -> pid <> 0 -> Forall (fun a => a_pid a <> pid) (pending s) -> progress (OExit pid) s.
Proof.
  destruct s as [st led cr pe]. intros Hsys Hpid Hno. unfold progress, exec. cbn [effect tables creating pending books] in *.
  assert (Htear : forall st1 led1 calls, apply_calls led calls = Some led1 -> sys_ok (mkSys st1 led1 cr pe) ->
    exists s', (fun l => mkSys st1 l cr pe) <$> apply_calls led (calls ++ teardown_calls pid (maps led)) = Some s' /\ sys_ok s').
  { intros st1 led1 calls E1 Hs1. rewrite apply_calls_app, E1. unfold teardown_calls.
    replace (_ <$> List.filter _ _) with (VmmUnmap pid <$> ((fun m : Z * Z * Z => snd (fst m)) <$> List.filter (fun m => fst (fst m) =? pid) (maps led)))
      by (by rewrite <- list_fmap_compose).
    destruct (ledger_unmap pid ((fun m : Z * Z * Z => snd (fst m)) <$> List.filter (fun m => fst (fst m) =? pid) (maps led)) led1 _ (s_books _ Hs1))
      as (led2 & -> & Hl2). eexists. split; [reflexivity|]. by destruct Hs1. }
  unfold shm_account_exit, find_proc_attaches. destruct (first_index _ _) as [p|] eqn:Ep; [|by apply (Htear st led)].
  apply first_index_Some in Ep as (pa & Hp & Hpp & _). apply Z.eqb_eq in Hpp. rewrite (list_lookup_total_correct _ _ _ Hp).
  assert (Hne : Forall (fun b => a_pa b <> p) pe).
  { pose proof (s_pending _ Hsys) as Hpe. cbn [tables pending] in Hpe. rewrite Forall_forall in *. intros b Hb E.
    destruct (Hpe b Hb) as (pb & gb & Hpb & Hbp & _). specialize (Hno b Hb). rewrite E in Hpb. congruence. }
  destruct pa as [pid' l]. cbn [pa_pid attaches] in *. subst pid'.
  destruct (exit_fold l [] st led cr pe p pid (proc_attaches st) Hsys Hp) as (st' & calls & led' & l' & E & Ea & Hs & Hpr & Hl'); try done.
  change (set_procs (proc_attaches st) st) with st in E || (replace (set_procs (proc_attaches st) st) with st in E by (by destruct st)).
  rewrite E. apply (Htear _ led'); [done|].
  pose proof (entry_step st' led' cr pe p (mkPa pid l') 0 Hs) as Hz.
  assert (Hpl : (p < length (proc_attaches st))%nat) by (by eapply lookup_lt_Some).
  rewrite Hpr, list_lookup_insert_eq, list_insert_insert_eq in Hz by done. specialize (Hz eq_refl Hl' Hne).
  by cbn [proc_attaches set_procs].
Qed.

Lemma shm_exec_ok o s : sys_ok s -> allowed o s -> progress o s.
Proof.
  intros Hs Ha. destruct o; cbn [allowed] in Ha.
  - by apply exec_claim.
  - destruct Ha. by apply exec_publish.
  - by apply exec_reserve.
  - by apply exec_finish.
  - by apply exec_detach.
  - by apply exec_control.
  - by apply exec_destroy.
  - destruct Ha as (? & ? & ?). by apply exec_fork.
  - destruct Ha. by apply exec_exit.
  - by apply exec_unmap.
Qed.

Lemma shm_boot_ok : sys_ok sys_boot.
Proof.
  split; cbn [tables books creating pending sys_boot]; try constructor; try done.
  - intros i g Hg. apply lookup_replicate in Hg as [-> _].
    assert (attach_count shm_boot (Z.of_nat i) = 0%nat) as ->; [|apply seg_zero_ok].
    apply count_if_zero. intros a Ha. change (slots (proc_attaches shm_boot)) with (replicate 256 at_zero) in Ha.
    by apply elem_of_replicate_inv in Ha as ->.
  - intros i g Hg _. apply lookup_replicate in Hg as [-> _]. by intros [? ?].
  - intros p pa Hp. apply lookup_replicate in Hp as [-> _].
    split; [done|intros _|]; by apply Forall_replicate.
Qed.

Lemma shm_reachable_ok s : rtc sys_step sys_boot s -> sys_ok s.
Proof.
  intros H. eapply (rtc_invariant sys_step sys_ok); [|exact H|apply shm_boot_ok].
  intros x y (o & Ha & E) Hx. destruct (shm_exec_ok o x Hx Ha) as (y' & E' & Hy). congruence.
Qed.

(** ** Correctness *)

(** C24 (invariant).  As long as no thread calls [shmdt(NULL)] while another one
    of its process is inside [shmat] (that race breaks it, see
    [shmdt_null_frees_under_attach], and [allowed] excludes it), in any other
    interleaving of the critical sections: the attach count of a segment is the number of slots attached to
    it; every attached slot names a segment that is there, with its frames; a
    segment removed while attached stays exactly as long as it is attached;
    no frame backs two segments; and a reservation of [shmat] still finds its
    segment with the pages it took note of. *)
Theorem shm_attachments_counted (s : sys) :
  rtc sys_step sys_boot s ->
  (forall i g, shm_segments (tables s) !! i = Some g ->
     nattch g = Z.of_nat (attach_count (tables s) (Z.of_nat i)) /\
     ((0 < attach_count (tables s) (Z.of_nat i))%nat -> used g = true /\ is_Some (physical_pages g)) /\
     (is_Some (physical_pages g) -> mode g &? SHM_DEST = true -> 0 < nattch g)) /\
  (forall f, (count_if (is_frame f) (held (tables s)) <= 1)%nat) /\
  Forall (pending_ok (tables s)) (pending s).
Proof.
  intros [Hok Hpe _ _ _ _ Hdi]%shm_reachable_ok. split_and!; try done. intros i g Hg.
  pose proof (ok_seg _ _ Hok i g Hg) as [Hc Hu Hl _]. split_and!; [done| |by apply (ok_settled _ _ Hok i)].
  intros Hpos. specialize (Hl Hpos). destruct (used g) eqn:E; [done|]. rewrite Hu in Hl by done. by destruct Hl.
Qed.

(** (Safety.)  The frames of shared memory are never freed too early, freed
    twice or leaked: from every reachable state every operation runs without
    the frame allocator's panics, and each frame's reference count is the
    number of segments and mapped pages that hold it. *)
Theorem shm_frames_accounted (s : sys) (o : op) :
  rtc sys_step sys_boot s -> allowed o s ->
  (exists s', exec o s = Some s' /\ sys_step s s') /\
  forall f, refs (books s) f = Z.of_nat (count_if (mapped f) (maps (books s))) + Z.of_nat (count_if (is_frame f) (held (tables s))).
Proof.
  intros Hs%shm_reachable_ok Ho. split; [|apply (s_books _ Hs)].
  destruct (shm_exec_ok o s Hs Ho) as (s' & E & _). exists s'. split; [done|]. by exists o.
Qed.

(** ** A concrete history *)

Definition after (o : op) (s : sys) : sys := default s (exec o s).
Definition demo_caps : ResourceCaps.resource_caps := ResourceCaps.mkCaps 1024 1024 33554432 1048576.
Definition demo_claim : op := OClaim example_env demo_caps 5 8192 (IPC_CREAT + 384).
Definition demo_publish : op := OPublish example_env 0 5 8192 (IPC_CREAT + 384) true [4096; 8192].
Definition demo_created : sys := after demo_publish (after demo_claim sys_boot).
Definition demo_reserved : sys := after (OReserve example_env 0 0) demo_created.

Lemma demo_created_reachable : rtc sys_step sys_boot demo_created.
Proof.
  apply rtc_l with (after demo_claim sys_boot); [|apply rtc_once].
  - exists demo_claim. split; [|reflexivity]. unfold allowed, demo_claim, ResourceCaps.caps_ok. vm_compute. intuition congruence.
  - exists demo_publish. split; [|reflexivity]. split.
    + apply NoDup_cons_2; [rewrite list_elem_of_singleton; lia|]. apply NoDup_singleton.
    + repeat constructor; vm_compute; congruence.
Defined.

Lemma shm_attachments_counted_witness :
  Forall (pending_ok (tables demo_reserved)) (pending demo_reserved).
Proof.
  apply (shm_attachments_counted demo_reserved). eapply rtc_r; [exact demo_created_reachable|].
  exists (OReserve example_env 0 0). split; [vm_compute; congruence|reflexivity].
Defined.

Lemma shm_frames_accounted_witness : exists s', exec (OReserve example_env 0 0) demo_created = Some s' /\ sys_step demo_created s'.
Proof.
  apply (shm_frames_accounted demo_created (OReserve example_env 0 0) demo_created_reachable). vm_compute. congruence.
Defined.

(** The one way to break it: while one thread is inside [shmat], before its
    slot has an address, another thread of the process calls [shmdt(NULL)] on
    the segment, which has been removed.  The slot's provisional address 0
    matches, the last attachment goes, the frames are freed, and the first
    thread goes on to reference a frame that nobody owns. *)
Definition demo_removed : sys := after (OControl example_env 0 IPC_RMID None) demo_reserved.
Definition demo_raced : sys := after (ODetach example_env 0) demo_removed.
Lemma shmdt_null_frees_under_attach :
  Forall (fun f => refs (books demo_raced) f = 0) [4096; 8192] /\
  exec (OFinish example_env 0 (Some 65536) true) demo_raced = None.
Proof. split; [|reflexivity]. repeat constructor. Qed.
End ShmProofs.
