(* ===== verification/IpcTeardown.v ===== *)
(** The end of an IPC namespace ([ipc_ns_destroy], [kernel/ipc/ipc_ns.c]),
    over the four components that keep objects in namespaces: what is left of
    the namespace, and that the other namespaces keep everything. *)
From Stdlib Require Import ZifyBool.
From S2P Require Import Prelude Cred UserNs UserNsProofs IpcNs SysvSem SysvSemProofs SysvMsg SysvMsgProofs Mqueue MqueueProofs Shm ShmProofs.
From stdpp Require Import list.
Local Open Scope Z_scope.
Local Open Scope kernel_scope.

Module IpcTeardown.
Import IpcNs.

Record ipc_state := mkIpc {
  shm : Shm.shm_state; sem : SysvSem.sem_state; msg : SysvMsg.msg_state; mq : Mqueue.mq_state }.

(** Besides the state: the calls to the memory manager, the semaphore sets
    whose waiters are woken, and the notifications. *)
Definition ipc_ns_destroy (n : Z) (s : ipc_state) : res (ipc_state * list Shm.mm_call * list Z * list Mqueue.event) :=
  let '(shm, calls) := Shm.shm_ns_destroy n (shm s) in
  let '(sem, woken) := SysvSem.sysv_sem_ns_destroy n (sem s) in
  let msg := SysvMsg.sysv_msg_ns_destroy n (msg s) in
  let* '(mq, ev) := Mqueue.mqueue_ns_destroy n (mq s) in
  Ok (mkIpc shm sem msg mq, calls, woken, ev).

(** ** A loop over the slots of a table rewrites each slot *)

Lemma alter_if {A} `{Inhabited A} (p : A -> bool) (f : A -> A) i (l : list A) :
  (if p (l !!! i) then alter f i l else l) = alter (fun x => if p x then f x else x) i l.
Proof.
  revert i. induction l as [|a l IH]; intros [|i]; cbn; try (by destruct (p _)).
  specialize (IH i). rewrite <- IH. unfold alter. change ((a :: l) !!! S i) with (l !!! i). by destruct (p (l !!! i)).
Qed.
Lemma fold_seq_alter {S A} (get : S -> list A) (step : nat -> S -> S) (f : A -> A) :
  (forall i s, get (step i s) = alter f i (get s)) ->
  forall k s, get (fold_left (fun s i => step i s) (seq 0 k) s) = (f <$> take k (get s)) ++ drop k (get s).
Proof.
  intros H k s. induction k as [|k IH]; [done|]. rewrite List.seq_S, fold_left_app. cbn [fold_left Nat.add]. rewrite H, IH. clear.
  set (l := get s). clearbody l. revert l. induction k as [|k IH]; intros [|a l]; [done|done|done|].
  cbn. f_equal. exact (IH l).
Qed.
Lemma fold_table {S A} (get : S -> list A) (step : nat -> S -> S) (f : A -> A) k s :
  (forall i s, get (step i s) = alter f i (get s)) -> length (get s) = k ->
  get (fold_left (fun s i => step i s) (seq 0 k) s) = f <$> get s.
Proof. intros H <-. by rewrite (fold_seq_alter get step f H), take_ge, drop_ge, app_nil_r. Qed.

(** What becomes of each slot. *)
Definition dead_segment (n : Z) (g : Shm.shm_segment) : Shm.shm_segment :=
  if Shm.used g && (Shm.ns g =? n) && bool_decide (is_Some (Shm.physical_pages g))
  then fst (fst (Shm.seg_maybe_destroy (Shm.mark_dest g))) else g.
Definition dead_set (n : Z) (s : SysvSem.sem_slot) : SysvSem.sem_slot :=
  if SysvSem.s_used s && (SysvSem.s_ns s =? n) then SysvSem.unused s else s.
Definition dead_queue (n : Z) (q : SysvMsg.msg_queue) : SysvMsg.msg_queue :=
  if SysvMsg.q_used q && (SysvMsg.q_ns q =? n) then SysvMsg.release_queue q else q.

Lemma shm_destroyed n st : length (Shm.shm_segments st) = 32%nat ->
  Shm.shm_segments (fst (Shm.shm_ns_destroy n st)) = dead_segment n <$> Shm.shm_segments st.
Proof.
  intros L. unfold Shm.shm_ns_destroy.
  assert (F : forall l s, fst (Shm.fold_calls (Shm.ns_destroy_one n) l s) = fold_left (fun s i => fst (Shm.ns_destroy_one n i s)) l s).
  { induction l as [|i l IH]; intros s; [done|]. cbn. destruct (Shm.ns_destroy_one n i s) as [s1 c] eqn:E.
    specialize (IH s1). destruct (Shm.fold_calls _ l s1). exact IH. }
  rewrite F. apply (fold_table Shm.shm_segments (fun i s => fst (Shm.ns_destroy_one n i s))); [|done]. clear. intros i s.
  unfold Shm.ns_destroy_one, Shm.seg_at, zget. rewrite Nat2Z.id. unfold dead_segment.
  rewrite <- (alter_if (fun g => Shm.used g && (Shm.ns g =? n) && bool_decide (is_Some (Shm.physical_pages g)))).
  destruct (_ && _ && _); [|done]. unfold Shm.maybe_destroy_at, Shm.seg_at, zget, Shm.upd_seg, zalter, Shm.set_segs.
  cbn [Shm.shm_segments]. rewrite Nat2Z.id. destruct (Shm.shm_segments s !! i) as [g|] eqn:E.
  - assert (alter Shm.mark_dest i (Shm.shm_segments s) !!! i = Shm.mark_dest g) as ->
      by (apply list_lookup_total_correct; by rewrite list_lookup_alter_eq, E).
    destruct (Shm.seg_maybe_destroy (Shm.mark_dest g)) as [[g' dead] dn] eqn:D. cbn [fst Shm.shm_segments]. rewrite alter_alter.
    rewrite !(alter_as_insert _ _ _ _ E). by rewrite D.
  - destruct (Shm.seg_maybe_destroy _) as [[g' dead] dn]. cbn [fst Shm.shm_segments]. rewrite alter_alter.
    apply list_eq. intros k. destruct (decide (k = i)) as [->|Hk]; [by rewrite !list_lookup_alter_eq, E|by rewrite !list_lookup_alter_ne].
Qed.
Lemma sem_destroyed n st : length (SysvSem.g_sets st) = 32%nat ->
  SysvSem.g_sets (fst (SysvSem.sysv_sem_ns_destroy n st)) = dead_set n <$> SysvSem.g_sets st.
Proof.
  intros L. unfold SysvSem.sysv_sem_ns_destroy.
  assert (F : forall l s w, fst (fold_left (fun acc i => let '(st, w) := SysvSem.ns_destroy_one n i (fst acc) in (st, snd acc ++ w)) (map Z.of_nat l) (s, w))
    = fold_left (fun s i => fst (SysvSem.ns_destroy_one n (Z.of_nat i) s)) l s).
  { induction l as [|i l IH]; intros s w; [done|]. cbn. destruct (SysvSem.ns_destroy_one n (Z.of_nat i) s) as [s1 c]. apply IH. }
  rewrite F. apply (fold_table SysvSem.g_sets (fun i s => fst (SysvSem.ns_destroy_one n (Z.of_nat i) s))); [|done]. clear. intros i s.
  unfold SysvSem.ns_destroy_one, SysvSem.sem_set, zget. rewrite Nat2Z.id. unfold dead_set.
  rewrite <- (alter_if (fun x => SysvSem.s_used x && (SysvSem.s_ns x =? n))).
  destruct (_ && _); [|done]. cbn. unfold zalter. by rewrite Nat2Z.id.
Qed.
Lemma msg_destroyed n st : length (SysvMsg.g_queues st) = 16%nat ->
  SysvMsg.g_queues (SysvMsg.sysv_msg_ns_destroy n st) = dead_queue n <$> SysvMsg.g_queues st.
Proof.
  intros L. unfold SysvMsg.sysv_msg_ns_destroy.
  assert (F : forall l s, fold_left (fun st i => SysvMsg.msg_destroy_one n i st) (map Z.of_nat l) s
    = fold_left (fun s i => SysvMsg.msg_destroy_one n (Z.of_nat i) s) l s) by (induction l as [|i l IH]; intros s; [done|apply IH]).
  rewrite F. apply (fold_table SysvMsg.g_queues (fun i s => SysvMsg.msg_destroy_one n (Z.of_nat i) s)); [|done]. clear. intros i s.
  unfold SysvMsg.msg_destroy_one, SysvMsg.queue, zget. rewrite Nat2Z.id. unfold dead_queue.
  rewrite <- (alter_if (fun x => SysvMsg.q_used x && (SysvMsg.q_ns x =? n))).
  destruct (_ && _); [|done]. cbn. unfold zalter. by rewrite Nat2Z.id.
Qed.

(** ** What is left *)

(** Nothing of namespace [n] but segments that are marked for destruction and
    still attached. *)
Record gone (n : Z) (s : ipc_state) : Prop := {
  gone_shm : forall g, g ∈ Shm.shm_segments (shm s) -> Shm.used g = true -> Shm.ns g = n ->
    (Shm.mode g &? Shm.SHM_DEST) = true /\ 0 < Shm.nattch g;
  gone_sem : forall x, x ∈ SysvSem.g_sets (sem s) -> SysvSem.s_used x = true -> SysvSem.s_ns x <> n;
  gone_msg : forall x, x ∈ SysvMsg.g_queues (msg s) -> SysvMsg.q_used x = true -> SysvMsg.q_ns x <> n;
  gone_mq : zget (Mqueue.mq_roots (mq s)) n = None }.
(** The objects of the other namespaces are where and what they were. *)
Record spared (n : Z) (s s' : ipc_state) : Prop := {
  spared_shm : forall i g, Shm.shm_segments (shm s) !! i = Some g -> Shm.ns g <> n -> Shm.shm_segments (shm s') !! i = Some g;
  spared_sem : forall i x, SysvSem.g_sets (sem s) !! i = Some x -> SysvSem.s_ns x <> n -> SysvSem.g_sets (sem s') !! i = Some x;
  spared_msg : forall i x, SysvMsg.g_queues (msg s) !! i = Some x -> SysvMsg.q_ns x <> n -> SysvMsg.g_queues (msg s') !! i = Some x;
  spared_mq : forall m, 0 <= m < NS_MAX_IPC -> m <> n -> zget (Mqueue.mq_roots (mq s')) m = zget (Mqueue.mq_roots (mq s)) m /\
    forall d, zget (Mqueue.mq_roots (mq s)) m = Some d -> Mqueue.dirs (mq s') !!! d = Mqueue.dirs (mq s) !!! d }.

Lemma dead_segment_gone n c g : ShmProofs.seg_ok c g -> (Shm.used g = true -> Shm.ns g = n -> is_Some (Shm.physical_pages g)) ->
  Shm.used (dead_segment n g) = true -> Shm.ns (dead_segment n g) = n ->
  (Shm.mode (dead_segment n g) &? Shm.SHM_DEST) = true /\ 0 < Shm.nattch (dead_segment n g).
Proof.
  intros K Hp. unfold dead_segment. destruct (Shm.used g && (Shm.ns g =? n)) eqn:E.
  - apply andb_true_iff in E as [U N%Z.eqb_eq]. rewrite bool_decide_eq_true_2 by (by apply Hp). cbn [andb].
    unfold Shm.seg_maybe_destroy. change (Shm.used (Shm.mark_dest g)) with (Shm.used g). rewrite U. cbn [negb orb].
    change (Shm.nattch (Shm.mark_dest g)) with (Shm.nattch g).
    assert (D : Shm.mode (Shm.mark_dest g) &? Shm.SHM_DEST = true).
    { unfold Shm.mode, Shm.mark_dest. cbn. apply negb_true_iff, Z.eqb_neq. rewrite Z.land_lor_distr_l.
      intros [_ X]%Z.lor_eq_0_iff. discriminate X. }
    rewrite D. cbn [negb]. rewrite orb_false_r. destruct (Z.eqb_spec (Shm.nattch g) 0) as [Z|Z]; cbn [negb]; [done|].
    intros _ _. split; [exact D|]. change (0 < Shm.nattch g). pose proof (ShmProofs.sg_count _ _ K). lia.
  - cbn [andb]. intros U N. rewrite U, N, Z.eqb_refl in E. done.
Qed.

(** C38 (functional).  When the last reference to an IPC namespace goes, all
    four components give up its objects without a fault: no semaphore set and
    no message queue of it is left, its directory of POSIX queues is gone, and
    the only shared memory segments left are marked for destruction and still
    attached; everything in the other namespaces is untouched. *)
Theorem ipc_teardown_complete n s hl pl al :
  0 <= n < NS_MAX_IPC ->
  ShmProofs.tables_ok None (shm s) -> SysvSemProofs.sem_inv (sem s) -> SysvMsgProofs.msg_inv (msg s) -> MqueueProofs.mq_ok (mq s) hl pl al ->
  (forall g, g ∈ Shm.shm_segments (shm s) -> Shm.used g = true -> Shm.ns g = n -> is_Some (Shm.physical_pages g)) ->
  exists s' calls woken ev, ipc_ns_destroy n s = Ok (s', calls, woken, ev) /\ gone n s' /\ spared n s s'.
Proof.
  intros Hn HT HS HM HQ Hfl. unfold ipc_ns_destroy.
  pose proof (shm_destroyed n _ (ShmProofs.ok_segs _ _ HT)) as E1. destruct (Shm.shm_ns_destroy n (shm s)) as [shm' calls]. cbn [fst] in E1.
  pose proof (sem_destroyed n _ (SysvSemProofs.inv_len _ HS)) as E2. destruct (SysvSem.sysv_sem_ns_destroy n (sem s)) as [sem' woken]. cbn [fst] in E2.
  pose proof (msg_destroyed n _ (SysvMsgProofs.mi_len _ HM)) as E3.
  destruct (MqueueProofs.ns_destroy_ok _ _ _ _ n HQ Hn) as (mq' & ev & E4 & _ & G & _ & R & D). rewrite E4. cbn [rbind].
  do 4 eexists. split; [reflexivity|]. split; constructor; cbn [shm sem msg mq]; rewrite ?E1, ?E2, ?E3.
  - intros g (g0 & -> & Hg)%list_elem_of_fmap. apply list_elem_of_lookup in Hg as Hi. destruct Hi as [i Hi].
    by apply (dead_segment_gone n _ _ (ShmProofs.ok_seg _ _ HT i g0 Hi)), Hfl.
  - intros x (y & -> & _)%list_elem_of_fmap. unfold dead_set. destruct (SysvSem.s_used y && (SysvSem.s_ns y =? n)) eqn:E; [done|].
    intros U N. by rewrite U, N, Z.eqb_refl in E.
  - intros x (y & -> & _)%list_elem_of_fmap. unfold dead_queue. destruct (SysvMsg.q_used y && (SysvMsg.q_ns y =? n)) eqn:E; [done|].
    intros U N. by rewrite U, N, Z.eqb_refl in E.
  - exact G.
  - intros i g Hi N. rewrite list_lookup_fmap, Hi. cbn. unfold dead_segment. replace (Shm.ns g =? n) with false by lia. by rewrite andb_false_r.
  - intros i x Hi N. rewrite list_lookup_fmap, Hi. cbn. unfold dead_set. replace (SysvSem.s_ns x =? n) with false by lia. by rewrite andb_false_r.
  - intros i x Hi N. rewrite list_lookup_fmap, Hi. cbn. unfold dead_queue. replace (SysvMsg.q_ns x =? n) with false by lia. by rewrite andb_false_r.
  - intros m Hm Hne. split; [by apply R|]. intros d Hd. by apply (D m d).
Qed.

(** Witness: the initial namespace's objects outlive the end of namespace 3. *)
Definition demo_ipc : ipc_state :=
  mkIpc (ShmProofs.tables ShmProofs.demo_reserved) SysvSem.sem_boot SysvMsg.msg_boot (MqueueProofs.state MqueueProofs.demo_open).
Lemma ipc_teardown_complete_witness :
  exists s' calls woken ev, ipc_ns_destroy 3 demo_ipc = Ok (s', calls, woken, ev) /\ gone 3 s' /\ spared 3 demo_ipc s'.
Proof.
  apply (ipc_teardown_complete 3 demo_ipc [0%nat] [] []); [split; [discriminate|reflexivity]| | | | |].
  - refine (ShmProofs.s_tables _ (ShmProofs.shm_reachable_ok ShmProofs.demo_reserved _)).
    eapply rtc_r; [exact ShmProofs.demo_created_reachable|]. exists (ShmProofs.OReserve example_env 0 0). split; [vm_compute; congruence|reflexivity].
  - exact SysvSemProofs.sem_inv_boot.
  - exact SysvMsgProofs.msg_inv_boot.
  - exact (MqueueProofs.reachable_sound _ MqueueProofs.demo_open_reachable).
  - intros g Hg U N. exfalso. apply list_elem_of_lookup in Hg as [i Hi]. assert (i < 32)%nat as Hlt by exact (lookup_lt_Some _ _ _ Hi).
    do 32 (destruct i as [|i]; [vm_compute in Hi; injection Hi as <-; vm_compute in N; discriminate N|]). lia.
Defined.

(** What is left can be named again: identifiers of namespaces are reused.
    Root keeps a private segment of namespace 3 attached after the namespace
    has gone; a user who is root in a user namespace of their own and gets
    identifier 3 for their next IPC namespace attaches it. *)
Definition root_cred : Cred.cred :=
  Cred.mkCred 0 0 0 0 0 0 [] 0 18 0 0 Cred.CAP_FULL_SET Cred.CAP_FULL_SET 0 Cred.CAP_FULL_SET 0 0 0.
Definition root_env : ipc_env := mkEnv (Some root_cred) 3 5 1000 UserNsProofs.ns_start (replicate 64 inhabitant).
Definition owned_by_1 : UserNs.ns_slot := UserNs.mkSlot true 0 true 1 1 0.
Definition inside_cred : Cred.cred :=
  Cred.mkCred 1000 1000 1000 100 100 100 [] 0 18 1000 100 Cred.CAP_FULL_SET Cred.CAP_FULL_SET 0 Cred.CAP_FULL_SET 0 0 1.
Definition inside_env : ipc_env :=
  mkEnv (Some inside_cred) 3 9 2000 UserNsProofs.alice_ns (<[3%nat := owned_by_1]> (replicate 64 inhabitant)).
Definition private_segment : Shm.shm_state :=
  let '(_, st, _) := Shm.shmget root_env 33554432 Shm.shm_boot 5 4096 (IPC_CREAT + 384) (fun st => st) true [4096] in
  let '(_, st, _) := Shm.shmat root_env st 0 0 (fun st => st) (Some 65536) true in st.

Lemma destroyed_segment_is_inherited :
  let '(st, freed) := Shm.shm_ns_destroy 3 private_segment in
  let '(addr, _, calls) := Shm.shmat inside_env st 0 0 (fun st => st) (Some 131072) true in
  freed = [] /\ addr = 131072 /\ existsb (fun c => match c with Shm.VmmMap 9 131072 4096 _ => true | _ => false end) calls = true.
Proof. vm_compute. done. Qed.

End IpcTeardown.
