(* ===== verification/Futex.v ===== *)
(** Futexes ([kernel/sched/futex.c]): keys, the buckets of waiters, WAIT, WAKE,
    REQUEUE, the wait on several words, and the cleanup of a task that dies.

    A waiter is an entry of a pool (an index stands for its address), a bucket
    the list of the waiters linked from its head.  A waiter allocated in an
    array shares its allocation with the others of the array; freeing anything
    but the start of an allocation is a panic of the heap, and reading a freed
    waiter a fault.  Reads of user memory, the heap's answers, page table
    entries and the clock are inputs.  The calls to [scheduler_wake_task] that
    a function makes are part of its result. *)
From S2P Require Import Prelude Shm.
Local Open Scope Z_scope.
Local Open Scope kernel_scope.

Module Futex.

Definition FUTEX_BUCKETS := 64.
Definition FUTEX_LOCKED_READ_TRIES := 64%nat.
Definition FUTEX_MISSED_LOG := 32.
Definition FUTEX_OP_MAX := 16.
Definition MAP_SHARED := 1.
Definition PAGE_MASK := 4095.

Record futex_waiter := mkW {
  live : bool; base : nat (* where its allocation starts *);
  key_pml4 : Z; key_uaddr : Z; diag_vaddr : Z; diag_pml4 : Z; task_id : Z;
  woken : bool; bucket : Z; expect : Z; wakes_seen : Z }.
Record futex_state := mkFx {
  g_futex : list (list nat);
  pool : list futex_waiter;
  wake_hit : Z; wake_missed : Z; missed_addr : list Z; missed_pos : Z }.

Definition waiter_zero : futex_waiter := mkW false 0 0 0 0 0 0 false 0 0 0.
#[global] Instance futex_waiter_inhabited : Inhabited futex_waiter := populate waiter_zero.
Definition futex_boot : futex_state := mkFx (replicate 64 []) [] 0 0 (replicate 32 0) 0.

Definition at_ (st : futex_state) (w : nat) : futex_waiter := pool st !!! w.
Definition chain (st : futex_state) (h : Z) : list nat := zget (g_futex st) h.
Definition set_chain (h : Z) (l : list nat) (st : futex_state) : futex_state :=
  mkFx (zalter (fun _ => l) h (g_futex st)) (pool st) (wake_hit st) (wake_missed st) (missed_addr st) (missed_pos st).
Definition set_pool (p : list futex_waiter) (st : futex_state) : futex_state :=
  mkFx (g_futex st) p (wake_hit st) (wake_missed st) (missed_addr st) (missed_pos st).
Definition upd_waiter (f : futex_waiter -> futex_waiter) (w : nat) (st : futex_state) : futex_state :=
  set_pool (alter f w (pool st)) st.
Definition set_woken (x : futex_waiter) : futex_waiter :=
  mkW (live x) (base x) (key_pml4 x) (key_uaddr x) (diag_vaddr x) (diag_pml4 x) (task_id x) true (bucket x) (expect x) (wakes_seen x).
Definition bump_seen (x : futex_waiter) : futex_waiter :=
  mkW (live x) (base x) (key_pml4 x) (key_uaddr x) (diag_vaddr x) (diag_pml4 x) (task_id x) (woken x) (bucket x) (expect x) (u64 (wakes_seen x + 1)).
Definition rekey (k w h va : Z) (x : futex_waiter) : futex_waiter :=
  mkW (live x) (base x) k w va (diag_pml4 x) (task_id x) (woken x) h (expect x) (wakes_seen x).
Definition kill (x : futex_waiter) : futex_waiter :=
  mkW false (base x) (key_pml4 x) (key_uaddr x) (diag_vaddr x) (diag_pml4 x) (task_id x) (woken x) (bucket x) (expect x) (wakes_seen x).

(** ** Keys *)

Definition futex_hash (pml4 uaddr : Z) : Z :=
  Z.lxor (Z.lxor (Z.shiftr pml4 12) (Z.shiftr uaddr 2)) (Z.shiftr uaddr 14) mod FUTEX_BUCKETS.

Record vm_area := mkVma {
  v_start : Z; v_end : Z; v_flags : Z; v_inode : option (Z * Z) (* ino, fs_id *); v_offset : Z }.
(** The calling task: its id and address space, its page table entries, its mappings. *)
Record futex_env := mkEnv { cur_id : Z; cur_pml4 : Z; pte_of : Z -> Z; vma_list : list vm_area }.
Definition page_of (uaddr : Z) : Z := Z.land uaddr (Z.lnot PAGE_MASK).

Definition futex_shared_key (e : futex_env) (uaddr : Z) : option (Z * Z) :=
  let pte := pte_of e (page_of uaddr) in
  if (pte &? Shm.VMM_PRESENT) && negb (pte &? Shm.VMM_SHARED) then None
  else match first_index (fun v => negb ((uaddr <? v_start v) || (v_end v <=? uaddr))) (vma_list e) with
       | None => None
       | Some i =>
           match vma_list e !! i with
           | Some v =>
               match v_inode v with
               | Some (ino, fsid) =>
                   if v_flags v &? MAP_SHARED
                   then Some (Z.lor (Z.lxor (u64 (ino * 11400714819323198485)) (u64 (fsid * 14321992610082861859))) 1,
                              u64 (v_offset v + u64 (uaddr - v_start v)))
                   else None
               | None => None
               end
           | None => None
           end
       end.
Definition futex_key_pml4_for (e : futex_env) (uaddr : Z) (priv : bool) : Z :=
  match (if priv then None else futex_shared_key e uaddr) with
  | Some (obj, _) => obj
  | None =>
      let pte := pte_of e (page_of uaddr) in
      if (pte &? Shm.VMM_PRESENT) && (pte &? Shm.VMM_SHARED)
      then Z.lor (Z.land pte 4503599627366400) 1
      else cur_pml4 e
  end.
Definition futex_key_word_for (e : futex_env) (uaddr : Z) (priv : bool) : Z :=
  match (if priv then None else futex_shared_key e uaddr) with
  | Some (_, off) => off
  | None => uaddr
  end.

(** ** Allocation, and walks of a bucket *)

(** [kfree(w)]: the whole allocation goes; only its start can be freed. *)
Definition kfree (w : nat) (st : futex_state) : res futex_state :=
  if negb (live (at_ st w)) then Panic "kheap: double-free detected on block"
  else if bool_decide (base (at_ st w) = w)
  then Ok (set_pool ((fun x => if bool_decide (base x = w) then kill x else x) <$> pool st) st)
  else Panic "kheap: freeing unallocated or corrupted block".

(** A waiter linked at the head of its bucket. *)
Definition enqueue (h : Z) (w : nat) (st : futex_state) : futex_state := set_chain h (w :: chain st h) st.
(** The walk for one waiter: found or not, and the bucket without it. *)
Fixpoint walk_out (st : futex_state) (w : nat) (l : list nat) : res (bool * list nat) :=
  match l with
  | [] => Ok (false, [])
  | x :: l =>
      if bool_decide (x = w) then (if live (at_ st x) then Ok (true, l) else Fault)
      else if negb (live (at_ st x)) then Fault
      else let* '(found, l) := walk_out st w l in Ok (found, x :: l)
  end.
Definition unlink_at (w : nat) (h : Z) (st : futex_state) : res (bool * futex_state) :=
  let* '(found, l) := walk_out st w (chain st h) in
  Ok (found, if found : bool then set_chain h l st else st).
Fixpoint unlink_scan (w : nat) (hs : list Z) (st : futex_state) : res (bool * futex_state) :=
  match hs with
  | [] => Ok (false, st)
  | h :: hs =>
      let* '(found, st) := unlink_at w h st in
      if found : bool then Ok (true, st) else unlink_scan w hs st
  end.
(** [futex_unlink_waiter], also inlined in WAIT: first the bucket the waiter
    names, then all of them, each under its own lock. *)
Definition unlink_order (h : Z) : list Z := h :: map Z.of_nat (seq 0 64).
Definition futex_unlink_waiter (w : nat) (st : futex_state) : res (bool * futex_state) :=
  unlink_scan w (unlink_order (bucket (at_ st w))) st.

(** ** WAIT *)

(** Each try: the load that does not fault, and whether the ordinary read that
    faults the page in succeeds. *)
Fixpoint lock_and_read (tries : nat) (answers : list (option Z * bool)) : Z + Z :=
  match tries with
  | O => inl (- EAGAIN)
  | S tries =>
      match answers with
      | (Some v, _) :: _ => inr (i32 v)
      | (None, true) :: answers => lock_and_read tries answers
      | _ => inl (- EFAULT)
      end
  end.
Definition futex_lock_and_read (answers : list (option Z * bool)) : Z + Z := lock_and_read FUTEX_LOCKED_READ_TRIES answers.

Definition new_waiter (e : futex_env) (b : nat) (uaddr val : Z) (priv : bool) : futex_waiter :=
  let k := futex_key_pml4_for e uaddr priv in
  let wd := futex_key_word_for e uaddr priv in
  mkW true b k wd uaddr (cur_pml4 e) (cur_id e) false (futex_hash k wd) val 0.
Definition add_waiter (x : futex_waiter) (st : futex_state) : futex_state :=
  enqueue (bucket x) (length (pool st)) (set_pool (pool st ++ [x]) st).

(** WAIT up to the release of the bucket lock: an error, or the queued waiter. *)
Definition wait_enqueue (e : futex_env) (st : futex_state) (uaddr val : Z) (priv : bool)
    (first_read : option Z) (answers : list (option Z * bool)) (kzalloc_ok : bool) : (Z + nat) * futex_state :=
  if Z.land uaddr 3 <>? 0 then (inl (- EINVAL), st)
  else match first_read with
       | None => (inl (- EFAULT), st)
       | Some cur =>
           if cur <>? val then (inl (- EAGAIN), st)
           else match futex_lock_and_read answers with
                | inl rc => (inl rc, st)
                | inr cur =>
                    if cur <>? val then (inl (- EAGAIN), st)
                    else if negb kzalloc_ok then (inl (- ENOMEM), st)
                    else (inr (length (pool st)), add_waiter (new_waiter e (length (pool st)) uaddr val priv) st)
                end
       end.

(** The relative timeout in ticks; [hz] is the rate of the timer. *)
Definition ms_per_tick (hz : Z) : Z := 1000 / hz.
Definition timeout_ticks (timeout_ms hz : Z) : Z :=
  let t := u64 (timeout_ms + (ms_per_tick hz - 1)) / ms_per_tick hz in
  if t =? 0 then 1 else t.
(** WAIT after the sleep: the waiter unlinked and freed.  [deadline] is 0 for none. *)
Definition wait_finish (w : nat) (deadline now : Z) (st : futex_state) : res (Z * futex_state) :=
  let* '(still_queued, st) := futex_unlink_waiter w st in
  let* st := kfree w st in
  Ok (if (still_queued : bool) && (deadline <>? 0) && (deadline <=? now) then - ETIMEDOUT else 0, st).

(** ** WAKE *)

(** Every waiter of the bucket parked on the word is told of the attempt. *)
Fixpoint note_wakes (word : Z) (l : list nat) (st : futex_state) : res futex_state :=
  match l with
  | [] => Ok st
  | w :: l =>
      if negb (live (at_ st w)) then Fault
      else note_wakes word l (if key_uaddr (at_ st w) =? word then upd_waiter bump_seen w st else st)
  end.
Definition key_is (pml4 word : Z) (x : futex_waiter) : bool := (key_pml4 x =? pml4) && (key_uaddr x =? word).
(** The walk for the first waiter of a key: it, and the bucket without it. *)
Fixpoint walk_key (st : futex_state) (pml4 word : Z) (l : list nat) : res (option nat * list nat) :=
  match l with
  | [] => Ok (None, [])
  | x :: l =>
      if negb (live (at_ st x)) then Fault
      else if key_is pml4 word (at_ st x) then Ok (Some x, l)
      else let* '(r, l) := walk_key st pml4 word l in Ok (r, x :: l)
  end.
(** One round: the waiter is unlinked and flagged under the lock; the result
    names the task to wake after it. *)
Definition wake_one (pml4 word : Z) (st : futex_state) : res (option Z * futex_state) :=
  let h := futex_hash pml4 word in
  let* '(r, l) := walk_key st pml4 word (chain st h) in
  match r with
  | None => Ok (None, st)
  | Some w => Ok (Some (task_id (at_ st w)), upd_waiter set_woken w (set_chain h l st))
  end.
(** The rounds of one call; [fuel] rounds are enough when the bucket has fewer waiters. *)
Fixpoint wake_loop (fuel : nat) (pml4 word val : Z) (n : Z) (st : futex_state) : res (list Z * futex_state) :=
  match fuel with
  | O => Ok ([], st)
  | S fuel =>
      if val <=? n then Ok ([], st)
      else
        let* '(r, st) := wake_one pml4 word st in
        match r with
        | None => Ok ([], st)
        | Some t => let* '(l, st) := wake_loop fuel pml4 word val (n + 1) st in Ok (t :: l, st)
        end
  end.
Definition count_wake (uaddr n : Z) (st : futex_state) : futex_state :=
  if n =? 0
  then mkFx (g_futex st) (pool st) (wake_hit st) (u64 (wake_missed st + 1))
         (zalter (fun _ => uaddr) (missed_pos st) (missed_addr st)) ((missed_pos st + 1) mod FUTEX_MISSED_LOG)
  else mkFx (g_futex st) (pool st) (u64 (wake_hit st + 1)) (wake_missed st) (missed_addr st) (missed_pos st).
(** [uring]: how many of io_uring's own waiters the rest of the budget wakes. *)
Definition futex_wake (e : futex_env) (st : futex_state) (uaddr val : Z) (priv : bool) (uring : Z -> Z)
    : res (Z * futex_state * list Z) :=
  if Z.land uaddr 3 <>? 0 then Ok (- EINVAL, st, [])
  else if val <? 0 then Ok (- EINVAL, st, [])
  else if val =? 0 then Ok (0, st, [])
  else
    let k := futex_key_pml4_for e uaddr priv in
    let wd := futex_key_word_for e uaddr priv in
    let* st := note_wakes wd (chain st (futex_hash k wd)) st in
    let* '(ids, st) := wake_loop (S (length (chain st (futex_hash k wd)))) k wd val 0 st in
    let n := Z.of_nat (length ids) in
    let st := count_wake uaddr n st in
    Ok (if n <? val then n + uring (val - n) else n, st, ids).

(** The wake of a dying thread's cleared word: never private. *)
Definition scheduler_futex_wake_addr (e : futex_env) (st : futex_state) (uaddr val : Z) (uring : Z -> Z) : res (futex_state * list Z) :=
  let* '(_, st, ids) := futex_wake e st uaddr val false uring in Ok (st, ids).

(** ** REQUEUE *)

(** The loop over the first bucket.  [pre] are the waiters passed over, [rest]
    what the cursor is at; when both keys share the bucket, a moved waiter goes
    to its head, which is where the cursor is as long as nothing was passed. *)
Record requeue_st := mkRq { pre : list nat; rest : list nat; second : list nat; rq_woken : Z; rq_moved : Z; ids : list Z; rq_fx : futex_state }.
Section requeue.
Context (k1 w1 k2 w2 h2 uaddr2 nr_wake nr_requeue : Z) (same : bool).
(** One iteration: the next state, or [None] at the end of the loop. *)
Definition requeue_step (s : requeue_st) : res (option requeue_st) :=
  match rest s with
  | [] => Ok None
  | w :: r =>
      let x := at_ (rq_fx s) w in
      if negb (live x) then Fault
      else if negb (key_is k1 w1 x)
      then Ok (Some (mkRq (pre s ++ [w]) r (second s) (rq_woken s) (rq_moved s) (ids s) (rq_fx s)))
      else if rq_woken s <? nr_wake
      then Ok (Some (mkRq (pre s) r (second s) (rq_woken s + 1) (rq_moved s)
                 (if bool_decide (length (ids s) < 8)%nat then ids s ++ [task_id x] else ids s)
                 (upd_waiter set_woken w (rq_fx s))))
      else if rq_moved s <? nr_requeue
      then
        let fx := upd_waiter (rekey k2 w2 h2 uaddr2) w (rq_fx s) in
        if same then
          match pre s with
          | [] => Ok (Some (mkRq [] (w :: r) (second s) (rq_woken s) (rq_moved s + 1) (ids s) fx))
          | _ => Ok (Some (mkRq (w :: pre s) r (second s) (rq_woken s) (rq_moved s + 1) (ids s) fx))
          end
        else Ok (Some (mkRq (pre s) r (w :: second s) (rq_woken s) (rq_moved s + 1) (ids s) fx))
      else Ok None
  end.
(** [None]: the loop has not ended after [fuel] iterations. *)
Fixpoint requeue_loop (fuel : nat) (s : requeue_st) : res (option requeue_st) :=
  match fuel with
  | O => Ok None
  | S fuel =>
      let* r := requeue_step s in
      match r with
      | None => Ok (Some s)
      | Some s => requeue_loop fuel s
      end
  end.
End requeue.

Definition scheduler_futex_requeue (fuel : nat) (e : futex_env) (st : futex_state) (uaddr1 uaddr2 nr_wake nr_requeue : Z) (priv : bool)
    : res (option (Z * futex_state * list Z)) :=
  if (Z.land uaddr1 3 <>? 0) || (Z.land uaddr2 3 <>? 0) then Ok (Some (- EINVAL, st, []))
  else
    let nr_wake := Z.max 0 nr_wake in
    let nr_requeue := Z.max 0 nr_requeue in
    let k1 := futex_key_pml4_for e uaddr1 priv in
    let w1 := futex_key_word_for e uaddr1 priv in
    let k2 := futex_key_pml4_for e uaddr2 priv in
    let w2 := futex_key_word_for e uaddr2 priv in
    let h1 := futex_hash k1 w1 in
    let h2 := futex_hash k2 w2 in
    let same := h1 =? h2 in
    let* r := requeue_loop k1 w1 k2 w2 h2 uaddr2 nr_wake nr_requeue same fuel
                (mkRq [] (chain st h1) (chain st h2) 0 0 [] st) in
    match r with
    | None => Ok None
    | Some s =>
        let st := set_chain h1 (pre s ++ rest s) (rq_fx s) in
        Ok (Some (rq_woken s, if same then st else set_chain h2 (second s) st, ids s))
    end.

(** ** Waiting on several words *)

Record futex_vec := mkVec { vec_uaddr : Z; vec_val : Z; vec_priv : bool }.
(** [kzalloc(n * sizeof( *ws ))]: an array of [n] waiters, not linked. *)
Definition cleared (b : nat) : futex_waiter := mkW true b 0 0 0 0 0 false 0 0 0.
Definition waitv_alloc (n : nat) (st : futex_state) : nat * futex_state :=
  let b := length (pool st) in (b, set_pool (pool st ++ replicate n (cleared b)) st).
(** Queue the waiters [b + queued], ... of the array, one per word; the answers
    of the reads are per word.  The error if a word refuses, and how many are
    queued. *)
Fixpoint waitv_queue (e : futex_env) (b : nat) (vs : list (futex_vec * list (option Z * bool))) (queued : nat) (st : futex_state)
    : Z * nat * futex_state :=
  match vs with
  | [] => (0, queued, st)
  | (v, answers) :: vs =>
      let st := upd_waiter (fun _ => cleared b) (b + queued) st in
      match futex_lock_and_read answers with
      | inl rc => (rc, queued, st)
      | inr cur =>
          if cur <>? vec_val v then (- EAGAIN, queued, st)
          else
            let x := new_waiter e b (vec_uaddr v) (vec_val v) (vec_priv v) in
            waitv_queue e b vs (S queued)
              (enqueue (bucket x) (b + queued) (upd_waiter (fun _ => x) (b + queued) st))
      end
  end.
(** After the sleep: every queued waiter unlinked; the first one that was woken. *)
Fixpoint waitv_unlink (ws : list nat) (i : nat) (found : option nat) (st : futex_state) : res (option nat * futex_state) :=
  match ws with
  | [] => Ok (found, st)
  | w :: ws =>
      let* '(_, st) := futex_unlink_waiter w st in
      let found := match found with
        | Some _ => found
        | None => if woken (at_ st w) then Some i else None end in
      waitv_unlink ws (S i) found st
  end.
(** The end of a round: an error or the woken word's index frees the array;
    [None] is a spurious resume, after which the words are queued again. *)
Definition waitv_finish (b queued : nat) (rc : Z) (timed_out signal : bool) (st : futex_state) : res (option Z * futex_state) :=
  let* '(found, st) := waitv_unlink (seq b queued) 0 None st in
  let done r := let* st := kfree b st in Ok (Some r, st) in
  if rc <>? 0 then done rc
  else match found with
       | Some i => done (Z.of_nat i)
       | None => if timed_out then done (- ETIMEDOUT) else if signal then done (- EINTR) else Ok (None, st)
       end.
(** What a round meets: the reads of each word, what others do until the call
    resumes, whether the deadline has passed by then, a pending signal. *)
Record waitv_round := mkRound {
  reads : list (list (option Z * bool)); meanwhile : futex_state -> futex_state; late : bool; signalled : bool }.
Fixpoint waitv_loop (e : futex_env) (b : nat) (vs : list futex_vec) (rounds : list waitv_round) (st : futex_state)
    : res (option Z * futex_state) :=
  match rounds with
  | [] => Ok (None, st)
  | r :: rounds =>
      let '(rc, queued, st) := waitv_queue e b (zip vs (reads r)) 0 st in
      let* '(res, st) := waitv_finish b queued rc (late r) (signalled r) (meanwhile r st) in
      match res with
      | Some v => Ok (Some v, st)
      | None => waitv_loop e b vs rounds st
      end
  end.
Definition scheduler_futex_waitv (e : futex_env) (vs : list futex_vec) (kzalloc_ok : bool) (rounds : list waitv_round) (st : futex_state)
    : res (option Z * futex_state) :=
  if bool_decide (vs = []) || existsb (fun v => Z.land (vec_uaddr v) 3 <>? 0) vs then Ok (Some (- EINVAL), st)
  else if negb kzalloc_ok then Ok (Some (- ENOMEM), st)
  else let '(b, st) := waitv_alloc (length vs) st in waitv_loop e b vs rounds st.

(** ** Counters and the watched word *)

Record op_counts := mkOps { op_seen : list Z; op_refused : list Z; bad_timespec : Z }.
Definition futex_note_op (base_op : Z) (served : bool) (c : op_counts) : op_counts :=
  if (base_op <? 0) || (FUTEX_OP_MAX <=? base_op) then c
  else mkOps (zalter (fun n => u64 (n + 1)) base_op (op_seen c))
         (if served then op_refused c else zalter (fun n => u64 (n + 1)) base_op (op_refused c)) (bad_timespec c).
Definition futex_note_bad_timespec (c : op_counts) : op_counts := mkOps (op_seen c) (op_refused c) (u64 (bad_timespec c + 1)).

(** The page made read-only to catch a write; the protection calls are results. *)
Record watch := mkWatch { armed : bool; watch_pml4 : Z; watch_page : Z; watch_word : Z }.
Inductive protect_call := Protect (pml4 page flags : Z).
Definition futex_watch_arm (e : futex_env) (boot_flag : bool) (uaddr : Z) (w : watch) : watch * list protect_call :=
  if armed w || negb boot_flag then (w, [])
  else (mkWatch true (cur_pml4 e) (page_of uaddr) uaddr, [Protect (cur_pml4 e) (page_of uaddr) Shm.VMM_USER]).
Definition futex_watch_hit (fault_addr pml4 : Z) (w : watch) : bool * watch * list protect_call :=
  if negb (armed w) then (false, w, [])
  else if (page_of fault_addr <>? watch_page w) || (pml4 <>? watch_pml4 w) then (false, w, [])
  else (true, mkWatch false (watch_pml4 w) (watch_page w) (watch_word w),
        [Protect (watch_pml4 w) (watch_page w) (Z.lor Shm.VMM_USER Shm.VMM_WRITABLE)]).

(** ** The dump of the waiters *)

(** One bucket: with the boot flag [rescue] a waiter whose word, read through its
    frame ([cur], [None] if there is none), has changed without a wake is flagged.
    The id is the last such waiter's task, the one to wake, 0 for none. *)
Fixpoint dump_bucket (rescue : bool) (cur : nat -> option Z) (l : list nat) (rescue_id : Z) (st : futex_state) : res (Z * futex_state) :=
  match l with
  | [] => Ok (rescue_id, st)
  | w :: l =>
      let x := at_ st w in
      if negb (live x) then Fault
      else
        let changed := match cur w with Some c => c <>? u32 (expect x) | None => false end in
        if changed && negb (woken x) && (wakes_seen x =? 0) && rescue
        then dump_bucket rescue cur l (task_id x) (upd_waiter set_woken w st)
        else dump_bucket rescue cur l rescue_id st
  end.

(** ** A task that dies *)

Fixpoint cleanup_chain (t : Z) (l : list nat) (st : futex_state) : res (list nat * futex_state) :=
  match l with
  | [] => Ok ([], st)
  | w :: l =>
      if negb (live (at_ st w)) then Fault
      else if task_id (at_ st w) =? t
      then let* st := kfree w st in cleanup_chain t l st
      else let* '(l, st) := cleanup_chain t l st in Ok (w :: l, st)
  end.
Fixpoint cleanup_buckets (t : Z) (hs : list Z) (st : futex_state) : res futex_state :=
  match hs with
  | [] => Ok st
  | h :: hs =>
      let* '(l, st) := cleanup_chain t (chain st h) st in
      cleanup_buckets t hs (set_chain h l st)
  end.
Definition scheduler_futex_cleanup_task (t : Z) (st : futex_state) : res futex_state :=
  cleanup_buckets t (map Z.of_nat (seq 0 64)) st.

End Futex.
