(* ===== verification/FutexProofs.v ===== *)
(** Futexes: no wake-up is lost, wakes and requeues do what they say, keys agree.

    A system is the state of [Futex], the calls of WAIT and of the wait on several
    words in progress with the state of each task, the calls of
    [scheduler_wake_task] still to be made by wakers that have dropped their bucket
    lock, and the cleanups of dead tasks in progress.  The steps are the critical
    sections of the calls, one bucket at a time where the code takes one bucket
    lock at a time, and the steps of a sleep ([scheduler_wait_prepare], the
    re-check flag by flag, [scheduler_wait_commit], [scheduler_wake_task],
    [kernel/sched/scheduler.c]). *)
From Stdlib Require Import ZifyBool.
From S2P Require Import Prelude Shm Futex.
From stdpp Require Import list.
Local Open Scope Z_scope.
Local Open Scope kernel_scope.

Module FutexProofs.
Import Futex.

(** ** Systems *)

Inductive task_state := TASK_RUNNING | TASK_BLOCKED | TASK_SLEEPING | TASK_READY.
#[global] Instance task_state_eq_dec : EqDecision task_state.
Proof. solve_decision. Defined.
(** Where a call is: queueing its waiters; BLOCKED published and that many flags
    found clear since; in [scheduler_wait_commit]; unlinking its waiters, at one of
    them, with the buckets still to look into ([None] before the first) and
    whether the call will end after it. *)
Inductive phase := Filling | Prepared (looked : nat) | Asleep | Unlinking (at_waiter : nat) (scan : option (list Z)) (ends : bool).
(** The waiters of a call are those of its allocation, [c_base] and the following;
    [c_queued] of them are queued in this round.  [c_vec] tells a wait on several
    words from WAIT. *)
Record call := mkCall { c_task : Z; c_base : nat; c_size : nat; c_vec : bool; c_queued : nat; c_phase : phase }.
(** [lost] holds waiters that were flagged while nobody remembered to wake their
    task; it is only there to speak of them. *)
Record sys := mkSys {
  fx : futex_state; calls : list call; task : Z -> task_state; pending : list Z;
  lost : list nat; dying : list (Z * list Z) }.
Definition boot : sys := mkSys futex_boot [] (fun _ => TASK_RUNNING) [] [] [].

Definition linked (st : futex_state) : list nat := concat (g_futex st).
Definition set_task (t : Z) (v : task_state) (f : Z -> task_state) : Z -> task_state := fun u => if u =? t then v else f u.
(** [scheduler_wake_task]: a task that is blocked or sleeping becomes ready. *)
Definition scheduler_wake_task (t : Z) (f : Z -> task_state) : Z -> task_state :=
  match f t with TASK_BLOCKED | TASK_SLEEPING => set_task t TASK_READY f | _ => f end.
Definition set_phase (p : phase) (c : call) : call := mkCall (c_task c) (c_base c) (c_size c) (c_vec c) (c_queued c) p.
Definition set_queued (q : nat) (c : call) : call := mkCall (c_task c) (c_base c) (c_size c) (c_vec c) q Filling.
Definition move (n : nat) (p : phase) (v : task_state) (s : sys) : sys :=
  mkSys (fx s) (alter (set_phase p) n (calls s))
    (match calls s !! n with Some c => set_task (c_task c) v (task s) | None => task s end) (pending s) (lost s) (dying s).
Definition phased (n : nat) (p : phase) (st : futex_state) (s : sys) : sys :=
  mkSys st (alter (set_phase p) n (calls s)) (task s) (pending s) (lost s) (dying s).
(** Back from the sleep: WAIT will end, a wait on several words may start over. *)
Definition woken_up (c : call) : phase := Unlinking 0 None (negb (c_vec c)).
(** The waiters flagged by an operation that remembers the tasks [ids] only. *)
Definition left_out (st st' : futex_state) (ids : list Z) : list nat :=
  List.filter (fun w => negb (woken (at_ st w)) && woken (at_ st' w) && negb (bool_decide (task_id (at_ st' w) ∈ ids))) (seq 0 (length (pool st'))).
Definition flagging (st' : futex_state) (ids : list Z) (s : sys) : sys :=
  mkSys st' (calls s) (task s) (pending s ++ ids) (lost s ++ left_out (fx s) st' ids) (dying s).
Definition buckets : list Z := map Z.of_nat (seq 0 64).

Inductive event := Other | Wake | Requeue (nr_wake : Z) | Rescue.
(** A step names the call it moves by its index.  A step whose operation faults or
    panics does not exist: the executions are those that never walk into a freed
    waiter (see [unlink_scan_can_miss] and [cleanup_frees_inside_an_array]). *)
Inductive step : event -> sys -> sys -> Prop :=
| S_other s : step Other s s
| S_wait s e uaddr val priv first answers ok w st' :
    (forall c, c ∈ calls s -> c_task c <> cur_id e) -> task s (cur_id e) = TASK_RUNNING ->
    wait_enqueue e (fx s) uaddr val priv first answers ok = (inr w, st') ->
    step Other s (mkSys st' (calls s ++ [mkCall (cur_id e) w 1 false 1 Filling]) (task s) (pending s) (lost s) (dying s))
| S_waitv s t n b st' :
    (forall c, c ∈ calls s -> c_task c <> t) -> task s t = TASK_RUNNING -> (0 < n)%nat -> waitv_alloc n (fx s) = (b, st') ->
    step Other s (mkSys st' (calls s ++ [mkCall t b n true 0 Filling]) (task s) (pending s) (lost s) (dying s))
(* one word queued, or refused; a bucket is a list, so a waiter that an earlier
   scan has missed cannot be queued a second time in this model *)
| S_fill s n c e v answers rc q st' : calls s !! n = Some c -> c_phase c = Filling -> c_vec c = true -> (c_queued c < c_size c)%nat ->
    cur_id e = c_task c -> (c_base c + c_queued c)%nat ∉ linked (fx s) ->
    waitv_queue e (c_base c) [(v, answers)] (c_queued c) (fx s) = (rc, q, st') ->
    step Other s (mkSys st' (alter (if rc =? 0 then set_queued q else set_phase (Unlinking 0 None true)) n (calls s))
      (task s) (pending s) (List.filter (fun w => negb (bool_decide (w = c_base c + c_queued c)%nat)) (lost s)) (dying s))
(* a wait on several words first looks at the flags and the deadline, and does not
   sleep if one is set or it has passed; it may go either way here *)
| S_skip s n c : calls s !! n = Some c -> c_phase c = Filling -> c_queued c = c_size c -> c_vec c = true ->
    step Other s (phased n (Unlinking 0 None false) (fx s) s)
| S_prepare s n c : calls s !! n = Some c -> c_phase c = Filling -> c_queued c = c_size c -> step Other s (move n (Prepared 0) TASK_BLOCKED s)
| S_look s n c j : calls s !! n = Some c -> c_phase c = Prepared j -> (j < c_size c)%nat -> woken (at_ (fx s) (c_base c + j)) = false ->
    step Other s (phased n (Prepared (S j)) (fx s) s)
| S_cancel s n c j : calls s !! n = Some c -> c_phase c = Prepared j -> (j < c_size c)%nat -> woken (at_ (fx s) (c_base c + j)) = true ->
    step Other s (move n (woken_up c) TASK_RUNNING s)
| S_commit s n c : calls s !! n = Some c -> c_phase c = Prepared (c_size c) -> step Other s (phased n Asleep (fx s) s)
| S_resume s n c : calls s !! n = Some c -> c_phase c = Asleep -> task s (c_task c) = TASK_READY ->
    step Other s (move n (woken_up c) TASK_RUNNING s)
(* a deadline or a signal makes the task ready; a yield with nothing else to run returns *)
| S_timer s n c : calls s !! n = Some c -> task s (c_task c) = TASK_BLOCKED ->
    step Other s (mkSys (fx s) (calls s) (set_task (c_task c) TASK_READY (task s)) (pending s) (lost s) (dying s))
| S_idle s n c : calls s !! n = Some c -> c_phase c = Asleep -> step Other s (move n (woken_up c) TASK_RUNNING s)
(* the waiter names its bucket twice before the first pass; any buckets stand for it *)
| S_scan_start s n c i ends first : calls s !! n = Some c -> c_phase c = Unlinking i None ends -> (i < c_queued c)%nat ->
    step Other s (phased n (Unlinking i (Some (first ++ buckets)) ends) (fx s) s)
| S_scan s n c i h hs ends found st' : calls s !! n = Some c -> c_phase c = Unlinking i (Some (h :: hs)) ends ->
    unlink_at (c_base c + i) h (fx s) = Ok (found, st') ->
    step Other s (phased n (Unlinking i (Some (if found : bool then [] else hs)) ends) st' s)
| S_flag s n c i ends : calls s !! n = Some c -> c_phase c = Unlinking i (Some []) ends ->
    step Other s (phased n (Unlinking (S i) None (ends || woken (at_ (fx s) (c_base c + i)))) (fx s) s)
(* the end of the call, which without a flag is a deadline or a signal *)
| S_end s n c i ends st' : calls s !! n = Some c -> c_phase c = Unlinking i None ends -> (c_queued c <= i)%nat ->
    kfree (c_base c) (fx s) = Ok st' -> step Other s (mkSys st' (delete n (calls s)) (task s) (pending s) (lost s) (dying s))
| S_again s n c i : calls s !! n = Some c -> c_phase c = Unlinking i None false -> (c_queued c <= i)%nat -> c_vec c = true ->
    step Other s (mkSys (fx s) (alter (set_queued 0) n (calls s)) (task s) (pending s) (lost s) (dying s))
(* a task killed inside the scheduler does not come back; its waiters are cleaned up bucket by bucket *)
| S_die s n c : calls s !! n = Some c ->
    step Other s (mkSys (fx s) (delete n (calls s)) (task s) (pending s) (lost s) (dying s ++ [(c_task c, buckets)]))
| S_clean s l t h hs r ch st' : dying s = l ++ (t, h :: hs) :: r -> cleanup_chain t (chain (fx s) h) (fx s) = Ok (ch, st') ->
    step Other s (mkSys (set_chain h ch st') (calls s) (task s) (pending s) (lost s) (l ++ (t, hs) :: r))
| S_note s word h st' : note_wakes word (chain (fx s) h) (fx s) = Ok st' -> step Other s (flagging st' [] s)
| S_wake s k wd r st' : wake_one k wd (fx s) = Ok (r, st') -> step Wake s (flagging st' (match r with Some t => [t] | None => [] end) s)
| S_requeue s fuel e u1 u2 nw nr priv rc st' ids :
    scheduler_futex_requeue fuel e (fx s) u1 u2 nw nr priv = Ok (Some (rc, st', ids)) -> step (Requeue nw) s (flagging st' ids s)
| S_dump s rescue cur h id st' : dump_bucket rescue cur (chain (fx s) h) 0 (fx s) = Ok (id, st') ->
    step (if rescue then Rescue else Other) s (flagging st' (if id <>? 0 then [id] else []) s)
| S_wake_task s l t r : pending s = l ++ t :: r ->
    step Other s (mkSys (fx s) (calls s) (scheduler_wake_task t (task s)) (l ++ r) (lost s) (dying s)).

(** ** What the operations do to flags *)

Lemma at_field {B} (g : futex_waiter -> B) f w st v : (forall x, g (f x) = g x) -> g (at_ (upd_waiter f w st) v) = g (at_ st v).
Proof.
  intros H. unfold at_, upd_waiter, set_pool. cbn [pool]. rewrite !list_lookup_total_alt. destruct (decide (v = w)) as [->|N].
  - rewrite list_lookup_alter_eq. destruct (pool st !! w); [apply H|done].
  - by rewrite list_lookup_alter_ne.
Qed.
Lemma at_other f w st v : v <> w -> at_ (upd_waiter f w st) v = at_ st v.
Proof. intros N. unfold at_, upd_waiter, set_pool. cbn [pool]. by rewrite !list_lookup_total_alt, list_lookup_alter_ne. Qed.
Lemma at_same f w st : (w < length (pool st))%nat -> at_ (upd_waiter f w st) w = f (at_ st w).
Proof.
  intros Hw. unfold at_, upd_waiter, set_pool. cbn [pool]. rewrite !list_lookup_total_alt, list_lookup_alter_eq.
  by destruct (lookup_lt_is_Some_2 _ _ Hw) as [x ->].
Qed.
Lemma at_range st v : woken (at_ st v) = true -> (v < length (pool st))%nat.
Proof.
  unfold at_. rewrite list_lookup_total_alt. destruct (pool st !! v) eqn:E; [|done]. intros _. by eapply lookup_lt_Some.
Qed.
Lemma at_live st v : live (at_ st v) = true -> (v < length (pool st))%nat.
Proof.
  unfold at_. rewrite list_lookup_total_alt. destruct (pool st !! v) eqn:E; [|done]. intros _. by eapply lookup_lt_Some.
Qed.

(** Nobody is flagged, nobody loses a flag, and everybody keeps their task... *)
Definition kept (st st' : futex_state) : Prop :=
  length (pool st') = length (pool st) /\ forall v, task_id (at_ st' v) = task_id (at_ st v) /\ woken (at_ st' v) = woken (at_ st v).
(** ... or some are flagged. *)
Definition raised (st st' : futex_state) : Prop :=
  length (pool st') = length (pool st) /\
  forall v, task_id (at_ st' v) = task_id (at_ st v) /\ (woken (at_ st v) = true -> woken (at_ st' v) = true).
Lemma kept_raised st st' : kept st st' -> raised st st'.
Proof. intros [L H]. split; [done|]. intros v. destruct (H v) as [-> ->]. done. Qed.
Lemma fx_kept_refl st : kept st st.
Proof. done. Qed.
Lemma fx_kept_trans a b c : kept a b -> kept b c -> kept a c.
Proof. intros [L H] [L' H']. split; [congruence|]. intros v. destruct (H v), (H' v). split; congruence. Qed.
Lemma raised_trans a b c : raised a b -> raised b c -> raised a c.
Proof. intros [L H] [L' H']. split; [congruence|]. intros v. destruct (H v), (H' v). split; [congruence|auto]. Qed.
Lemma kept_upd f w st : (forall x, task_id (f x) = task_id x /\ woken (f x) = woken x) -> kept st (upd_waiter f w st).
Proof. intros H. split; [cbn; apply length_alter|]. intros v. split; apply at_field; intros; apply H. Qed.
Lemma raised_wake w st : raised st (upd_waiter set_woken w st).
Proof.
  split; [cbn; apply length_alter|]. intros v. split; [by apply at_field|]. intros Hv. destruct (decide (v = w)) as [->|N]; [|by rewrite at_other].
  rewrite at_same; [done|by apply at_range].
Qed.
Lemma kept_chain h l st : kept st (set_chain h l st).
Proof. done. Qed.
Lemma kept_kfree w st st' : kfree w st = Ok st' -> kept st st' /\ g_futex st' = g_futex st.
Proof.
  unfold kfree. intros H. repeat break_hyp H; simplify_eq. split; [|done]. split; [cbn; apply length_fmap|]. intros v. unfold at_. cbn [pool set_pool].
  rewrite !list_lookup_total_alt, list_lookup_fmap. destruct (pool st !! v) as [x|]; [|done]. cbn [fmap option_fmap option_map default]. by destruct (bool_decide (base x = w)).
Qed.
Lemma kept_unlink w h st found st' : unlink_at w h st = Ok (found, st') -> kept st st'.
Proof. unfold unlink_at. destruct (walk_out _ _ _) as [[f l]| |]; cbn [rbind]; [|done..]. intros [= _ <-]. by destruct f. Qed.
Lemma kept_clean t l : forall st ch st', cleanup_chain t l st = Ok (ch, st') -> kept st st' /\ g_futex st' = g_futex st.
Proof.
  induction l as [|w l IH]; intros st ch st' H; cbn [cleanup_chain] in H; [by simplify_eq|]. destruct (negb _); [done|].
  destruct (_ =? t).
  - destruct (kfree w st) as [st1| |] eqn:E; cbn [rbind] in H; [|done..]. destruct (kept_kfree _ _ _ E) as [K G], (IH _ _ _ H) as [K' G'].
    split; [by eapply fx_kept_trans|congruence].
  - destruct (cleanup_chain t l st) as [[l1 st1]| |] eqn:E; cbn [rbind] in H; [|done..]. injection H as _ <-. by eapply IH.
Qed.
Lemma kept_note word l : forall st st', note_wakes word l st = Ok st' -> kept st st' /\ g_futex st' = g_futex st.
Proof.
  induction l as [|w l IH]; intros st st' H; cbn [note_wakes] in H; [by simplify_eq|]. destruct (negb _); [done|].
  destruct (IH _ _ H) as [K G]. destruct (_ =? word); [|done]. split; [|done]. eapply fx_kept_trans; [by apply (kept_upd bump_seen w)|exact K].
Qed.
Lemma raised_wake_one k wd st r st' : wake_one k wd st = Ok (r, st') -> raised st st'.
Proof.
  unfold wake_one. destruct (walk_key _ _ _ _) as [[[w|] l]| |]; cbn [rbind]; [|intros [= _ <-]; done|done..]. intros [= _ <-].
  apply (raised_wake w (set_chain (futex_hash k wd) l st)).
Qed.
Lemma raised_dump rescue cur l : forall id st id' st', dump_bucket rescue cur l id st = Ok (id', st') ->
  raised st st' /\ g_futex st' = g_futex st /\ (rescue = false -> st' = st).
Proof.
  induction l as [|w l IH]; intros id st id' st' H; cbn [dump_bucket] in H; [by simplify_eq|]. destruct (negb (live _)); [done|].
  destruct (_ && rescue) eqn:E.
  - destruct (IH _ _ _ _ H) as (R & G & _). split_and!; [eapply raised_trans; [apply raised_wake|exact R]|done|]. intros ->. by rewrite andb_false_r in E.
  - by eapply IH.
Qed.

(** A requeue: who is taken out of the buckets is flagged, and up to eight are remembered. *)
Section requeue.
Context (k1 w1 k2 w2 h2 va nw nr : Z) (same : bool).
Definition in_loop (r : requeue_st) (v : nat) : Prop := v ∈ pre r \/ v ∈ rest r \/ (same = false /\ v ∈ second r).
Record loop_does (r r' : requeue_st) : Prop := {
  l_buckets : g_futex (rq_fx r') = g_futex (rq_fx r);
  l_flags : raised (rq_fx r) (rq_fx r');
  l_out : forall v, in_loop r v -> in_loop r' v \/ woken (at_ (rq_fx r') v) = true;
  l_ids : Z.of_nat (length (ids r)) = rq_woken r -> nw <= 8 ->
    Z.of_nat (length (ids r')) = rq_woken r' /\ (forall t, t ∈ ids r -> t ∈ ids r') /\
    forall v, woken (at_ (rq_fx r') v) = true -> woken (at_ (rq_fx r) v) = true \/ task_id (at_ (rq_fx r) v) ∈ ids r' }.
Lemma loop_does_refl r : loop_does r r.
Proof. constructor; [done..|by left|]. intros. split_and!; auto. Qed.
Lemma loop_does_trans a b c : loop_does a b -> loop_does b c -> loop_does a c.
Proof.
  intros [B1 F1 O1 I1] [B2 F2 O2 I2]. constructor; [congruence|by eapply raised_trans| |].
  - intros v Hv. destruct (O1 v Hv) as [H|H].
    + by apply O2.
    + right. by apply F2.
  - intros E N. destruct (I1 E N) as (E1 & S1 & J1). destruct (I2 E1 N) as (E2 & S2 & J2). split_and!; [done|auto|].
    intros v Hv. destruct (J2 v Hv) as [H|H]; [destruct (J1 v H) as [?|?]; [by left|right; auto]|right]. destruct F1 as [_ F1]. by destruct (F1 v) as [<- _].
Qed.
Lemma requeue_step_does r r' : requeue_step k1 w1 k2 w2 h2 va nw nr same r = Ok (Some r') -> loop_does r r'.
Proof.
  unfold requeue_step. destruct (rest r) as [|w l] eqn:R; [done|]. destruct (live _) eqn:Lv; cbn [negb]; [|done].
  destruct (negb (key_is _ _ _)) eqn:EK.
  { intros [= <-]. constructor; cbn [pre rest second rq_fx ids rq_woken]; [done..| |intros; split_and!; auto].
    intros v Hv. left. unfold in_loop in *. cbn. rewrite R in Hv. rewrite elem_of_app, list_elem_of_singleton. rewrite elem_of_cons in Hv. tauto. }
  destruct (Z.ltb_spec (rq_woken r) nw) as [Hw|Hw].
  { intros [= <-]. constructor; cbn [pre rest second rq_fx ids rq_woken]; [done|apply raised_wake| |].
    - intros v Hv. unfold in_loop in *. cbn. rewrite R, elem_of_cons in Hv. destruct (decide (v = w)) as [->|N].
      + right. rewrite at_same; [done|by apply at_live].
      + left. tauto.
    - intros E N. rewrite bool_decide_eq_true_2 by lia. split_and!; [rewrite length_app; cbn; lia|intros; apply elem_of_app; by left|].
      intros v Hv. destruct (decide (v = w)) as [->|Nv]; [right; apply elem_of_app; right; by apply list_elem_of_singleton|left; by rewrite at_other in Hv]. }
  destruct (_ <? nr); [|done].
  assert (K : forall p l' s2 m i, (forall v, in_loop r v -> v ∈ p \/ v ∈ l' \/ (same = false /\ v ∈ s2)) -> i = ids r ->
    loop_does r (mkRq p l' s2 (rq_woken r) m i (upd_waiter (rekey k2 w2 h2 va) w (rq_fx r)))).
  { intros p l' s2 m i Hp ->. assert (Kp := kept_upd (rekey k2 w2 h2 va) w (rq_fx r) ltac:(done)).
    constructor; cbn [pre rest second rq_fx ids rq_woken]; [done|by apply kept_raised|intros v Hv; left; by apply Hp|].
    intros E N. split_and!; [done|done|]. intros v. destruct Kp as [_ Kp]. destruct (Kp v) as [_ ->]. by left. }
  unfold in_loop in *. rewrite R in K. setoid_rewrite elem_of_cons in K.
  destruct same eqn:Es; [destruct (pre r) as [|p0 pr] eqn:EP|]; intros [= <-]; apply K; try done; intros v Hv; rewrite ?elem_of_cons in *; tauto.
Qed.
Lemma requeue_loop_does fuel : forall r r', requeue_loop k1 w1 k2 w2 h2 va nw nr same fuel r = Ok (Some r') -> loop_does r r'.
Proof.
  induction fuel as [|fuel IH]; intros r r' H; cbn [requeue_loop] in H; [done|].
  destruct (requeue_step k1 w1 k2 w2 h2 va nw nr same r) as [[r1|]| |] eqn:E; cbn [rbind] in H; [|simplify_eq; apply loop_does_refl|done..].
  eapply loop_does_trans; [by apply requeue_step_does|by apply IH].
Qed.
End requeue.

(** ** Buckets *)

Lemma futex_hash_range k w : 0 <= futex_hash k w < 64.
Proof. unfold futex_hash, FUTEX_BUCKETS. apply Z.mod_pos_bound. lia. Qed.
Lemma chain_linked st h w : length (g_futex st) = 64%nat -> 0 <= h < 64 -> w ∈ chain st h -> w ∈ linked st.
Proof.
  intros L Hh H. unfold linked. rewrite list_elem_of_In. apply List.in_concat. exists (chain st h).
  rewrite <- !list_elem_of_In. split; [|done]. eapply list_elem_of_lookup_2, zget_lookup. lia.
Qed.
Lemma linked_chain st w : length (g_futex st) = 64%nat -> w ∈ linked st -> exists h, 0 <= h < 64 /\ w ∈ chain st h.
Proof.
  intros L H. unfold linked in H. rewrite list_elem_of_In in H. apply List.in_concat in H as (l & Hl & Hw).
  apply list_elem_of_In in Hl. apply list_elem_of_In in Hw. apply elem_of_zget in Hl as (h & Hh & <-). exists h. split; [lia|done].
Qed.
Lemma length_set_chain h l st : length (g_futex (set_chain h l st)) = length (g_futex st).
Proof. cbn. by rewrite length_zalter. Qed.
Lemma chain_set st h h' l : length (g_futex st) = 64%nat -> 0 <= h < 64 -> 0 <= h' < 64 ->
  chain (set_chain h l st) h' = if h' =? h then l else chain st h'.
Proof.
  intros L Hh Hh'. unfold chain, set_chain. cbn [g_futex]. destruct (Z.eqb_spec h' h) as [->|].
  - by rewrite zget_zalter_eq by lia.
  - by rewrite zget_zalter_ne by lia.
Qed.
(** What a bucket's new list loses. *)
Lemma linked_set st h l v : length (g_futex st) = 64%nat -> 0 <= h < 64 -> v ∈ linked st ->
  v ∈ linked (set_chain h l st) \/ v ∈ chain st h /\ v ∉ l.
Proof.
  intros L Hh (h' & Hh' & Hv)%linked_chain; [|done].
  assert (X : forall x, chain (set_chain h l st) h' = x -> v ∈ x -> v ∈ linked (set_chain h l st))
    by (intros x <- Hx; eapply chain_linked; [by rewrite length_set_chain|exact Hh'|done]).
  specialize (X _ (chain_set st h h' l L Hh Hh')). destruct (Z.eqb_spec h' h) as [->|]; [|left; by apply X].
  destruct (decide (v ∈ l)); [left; by apply X|by right].
Qed.

(** An operation takes [v] out of the buckets only when it flags it. *)
Definition flags_out (st st' : futex_state) : Prop := forall v, v ∈ linked st -> v ∈ linked st' \/ woken (at_ st' v) = true.
Lemma walk_key_does st k wd l r l' : walk_key st k wd l = Ok (r, l') ->
  match r with None => l' = l | Some w => live (at_ st w) = true /\ forall v, v ∈ l -> v = w \/ v ∈ l' end.
Proof.
  revert r l'. induction l as [|x l IH]; intros r l' H; cbn [walk_key] in H; [by simplify_eq|]. destruct (live (at_ st x)) eqn:Lx; cbn [negb] in H; [|done].
  destruct (key_is _ _ _); [simplify_eq; split; [done|]; intros v [->|?]%elem_of_cons; auto|].
  destruct (walk_key st k wd l) as [[r1 l1]| |]; cbn [rbind] in H; [|done..]. simplify_eq. specialize (IH r l1 eq_refl). destruct r as [w|]; [|by subst].
  destruct IH as [Lw IH]. split; [done|]. intros v [->|Hv]%elem_of_cons; [right; left|]. destruct (IH v Hv); [by left|right; by right].
Qed.
Lemma wake_one_does k wd st r st' : wake_one k wd st = Ok (r, st') -> length (g_futex st) = 64%nat ->
  length (g_futex st') = 64%nat /\ flags_out st st' /\
  forall v, woken (at_ st' v) = true -> woken (at_ st v) = true \/ r = Some (task_id (at_ st' v)).
Proof.
  unfold wake_one. intros H L. destruct (walk_key _ _ _ _) as [[o l]| |] eqn:E; cbn [rbind] in H; [|done..]. apply walk_key_does in E.
  destruct o as [w|]; simplify_eq; [|split_and!; [done|by left|by left]]. destruct E as [Lw E]. pose proof (futex_hash_range k wd) as Hh.
  set (st1 := set_chain (futex_hash k wd) l st). assert (Hw : (w < length (pool st1))%nat) by (by apply at_live).
  split_and!; [cbn; by rewrite length_zalter| |].
  - intros v Hv. change (linked (upd_waiter set_woken w st1)) with (linked st1). destruct (linked_set st (futex_hash k wd) l v L Hh Hv) as [?|[H1 H2]]; [by left|].
    destruct (E v H1) as [->|?]; [|done]. right. by rewrite at_same.
  - intros v Hv. destruct (decide (v = w)) as [->|N]; [right; f_equal; symmetry; exact (at_field task_id set_woken w st1 w (fun _ => eq_refl))|]. rewrite at_other in Hv by done. by left.
Qed.
Lemma requeue_does fuel e st u1 u2 nw nr priv rc st' ids :
  scheduler_futex_requeue fuel e st u1 u2 nw nr priv = Ok (Some (rc, st', ids)) -> length (g_futex st) = 64%nat ->
  length (g_futex st') = 64%nat /\ raised st st' /\ flags_out st st' /\
  (nw <= 8 -> forall v, woken (at_ st' v) = true -> woken (at_ st v) = true \/ task_id (at_ st' v) ∈ ids).
Proof.
  unfold scheduler_futex_requeue. destruct (_ || _); [intros [= _ <- <-] L; split_and!; [done|by apply kept_raised|by left|by left]|]. cbv zeta.
  set (h1 := futex_hash _ (futex_key_word_for e u1 priv)). set (h2 := futex_hash _ (futex_key_word_for e u2 priv)).
  assert (R1 : 0 <= h1 < 64) by apply futex_hash_range. assert (R2 : 0 <= h2 < 64) by apply futex_hash_range.
  destruct (requeue_loop _ _ _ _ _ _ _ _ _ _ _) as [[r|]| |] eqn:E; cbn [rbind]; [|done..]. intros [= _ <- <-] L.
  apply requeue_loop_does in E as [B F O I]. unfold in_loop in O. cbn [pre rest second rq_fx Futex.ids rq_woken length] in *.
  assert (Lr : length (g_futex (rq_fx r)) = 64%nat) by congruence. assert (Cr : forall h, chain (rq_fx r) h = chain st h) by (intros; unfold chain; by rewrite B).
  set (st1 := set_chain h1 (pre r ++ rest r) (rq_fx r)). assert (L1 : length (g_futex st1) = 64%nat) by (unfold st1; by rewrite length_set_chain).
  split_and!.
  - destruct (h1 =? h2); by rewrite ?length_set_chain.
  - by destruct (h1 =? h2).
  - intros v Hv. assert (Hv1 : v ∈ linked (rq_fx r)) by (unfold linked in *; by rewrite B). replace (woken _) with (woken (at_ (rq_fx r) v)) by (by destruct (h1 =? h2)).
    assert (O1 : v ∈ linked st1 \/ (v ∈ chain st h1 /\ v ∉ pre r ++ rest r)) by (rewrite <- Cr; by apply linked_set).
    assert (O2 : h1 <> h2 -> v ∈ linked st1 -> v ∈ linked (set_chain h2 (second r) st1) \/ (v ∈ chain st h2 /\ v ∉ second r)).
    { intros Eh H. destruct (linked_set st1 h2 (second r) v L1 R2 H) as [?|[H1 H2]]; [by left|right; split; [|done]]. unfold st1 in H1.
      rewrite chain_set, Cr in H1 by done. replace (h2 =? h1) with false in H1 by lia. done. }
    rewrite not_elem_of_app in O1. pose proof (O v) as Ov. destruct (Z.eqb_spec h1 h2) as [Eh|Eh].
    + destruct O1 as [?|[H1 H2]]; [by left|]. assert (X : v ∈ [] \/ v ∈ chain st h1 \/ true = false /\ v ∈ chain st h2) by tauto. apply Ov in X as [[?|[?|[? _]]]|?]; tauto || done.
    + assert (In2 : v ∈ second r -> v ∈ linked (set_chain h2 (second r) st1)).
      { intros H. eapply (chain_linked _ h2); [by rewrite length_set_chain|done|]. rewrite chain_set by done. by rewrite Z.eqb_refl. }
      assert (In1 : v ∈ pre r \/ v ∈ rest r -> v ∈ linked (set_chain h2 (second r) st1)).
      { intros H. eapply (chain_linked _ h1); [by rewrite length_set_chain|done|]. rewrite chain_set by done. replace (h1 =? h2) with false by lia.
        unfold st1. rewrite chain_set, Z.eqb_refl by done. by apply elem_of_app. }
      destruct O1 as [H|[H1 _]]; [destruct (O2 Eh H) as [?|[H1 _]]; [by left|]|].
      * assert (X : v ∈ [] \/ v ∈ chain st h1 \/ false = false /\ v ∈ chain st h2) by tauto. apply Ov in X. tauto.
      * assert (X : v ∈ [] \/ v ∈ chain st h1 \/ false = false /\ v ∈ chain st h2) by tauto. apply Ov in X. tauto.
  - intros N v. replace (at_ _ v) with (at_ (rq_fx r) v) by (by destruct (h1 =? h2)). intros Hv. destruct (I eq_refl ltac:(lia)) as (_ & _ & J). destruct (J v Hv) as [?|Ht]; [by left|right].
    destruct F as [_ F]. by destruct (F v) as [-> _].
Qed.

(** ** The invariant *)

Definition phase_ok (p : phase) (v : task_state) : Prop :=
  match p with Filling | Unlinking _ _ _ => v = TASK_RUNNING | Prepared _ | Asleep => v <> TASK_RUNNING end.
(** The call has found the flag of its waiter [i] clear since it published BLOCKED. *)
Definition looked (p : phase) (i : nat) : Prop := match p with Prepared j => (i < j)%nat | Asleep => True | _ => False end.
Record call_ok (st : futex_state) (tk : Z -> task_state) (pend : list Z) (ls : list nat) (c : call) : Prop := {
  c_fit : (c_base c + c_size c <= length (pool st))%nat /\ (c_queued c <= c_size c)%nat /\ (0 < c_size c)%nat;
  c_id : forall i, (i < c_queued c)%nat -> task_id (at_ st (c_base c + i)) = c_task c;
  c_state : phase_ok (c_phase c) (tk (c_task c));
  (* the wake-up of a sleeper is on its way *)
  c_wake : forall i, (i < c_queued c)%nat -> looked (c_phase c) i -> woken (at_ st (c_base c + i)) = true ->
    (c_base c + i)%nat ∈ ls \/ tk (c_task c) = TASK_READY \/ c_task c ∈ pend }.
(** Calls are of different tasks and have their own waiters. *)
Definition apart2 (c c' : call) : Prop :=
  c_task c <> c_task c' /\ (c_base c + c_size c <= c_base c' \/ c_base c' + c_size c' <= c_base c)%nat.
Fixpoint apart (l : list call) : Prop := match l with [] => True | c :: l => Forall (apart2 c) l /\ apart l end.
Record sys_ok (s : sys) : Prop := {
  s_len : length (g_futex (fx s)) = 64%nat;
  s_apart : apart (calls s);
  s_calls : Forall (call_ok (fx s) (task s) (pending s) (lost s)) (calls s) }.

Lemma apart2_sym c c' : apart2 c c' -> apart2 c' c.
Proof. intros [H1 H2]. split; [congruence|lia]. Qed.
Lemma apart_app l c : apart l -> Forall (apart2 c) l -> apart (l ++ [c]).
Proof.
  induction l as [|x l IH]; intros A F; cbn [app apart] in *; [by repeat constructor|]. apply list.Forall_cons in F as [Fx F]. destruct A as [A1 A2].
  split; [|by apply IH]. apply Forall_app. split; [done|]. constructor; [by apply apart2_sym|done].
Qed.
Lemma forall_delete (P : call -> Prop) n l : Forall P l -> Forall P (delete n l).
Proof. intros F. rewrite list.Forall_forall in *. intros x Hx. apply F. eapply sublist_subseteq; [apply sublist_delete|exact Hx]. Qed.
Lemma apart_delete n l : apart l -> apart (delete n l).
Proof.
  revert n. induction l as [|x l IH]; intros [|n] A; cbn in *; try done; [apply A|]. destruct A as [A1 A2]. split; [by apply forall_delete|by apply IH].
Qed.
(** One call changes, the others are seen from outside. *)
Lemma calls_alter (P Q : call -> Prop) f n c l : l !! n = Some c -> apart l -> Forall P l -> Q (f c) ->
  (forall c', P c' -> apart2 c c' -> Q c') -> Forall Q (alter f n l).
Proof.
  revert n. induction l as [|x l IH]; intros n Hn A F Hf Ho; [done|]. destruct A as [A1 A2]. apply list.Forall_cons in F as [Fx F].
  destruct n as [|n]; cbn in Hn |- *.
  - injection Hn as ->. constructor; [done|]. rewrite list.Forall_forall in *. intros y Hy. apply Ho; auto.
  - constructor; [|by apply IH]. apply Ho; [done|]. apply apart2_sym. rewrite list.Forall_forall in A1. apply A1. by eapply list_elem_of_lookup_2.
Qed.
Lemma apart_alter f n l : (forall c, c_task (f c) = c_task c /\ c_base (f c) = c_base c /\ c_size (f c) = c_size c) -> apart l -> apart (alter f n l).
Proof.
  intros Hf. revert n. induction l as [|x l IH]; intros n A; [done|]. destruct A as [A1 A2]. destruct (Hf x) as (E1 & E2 & E3).
  destruct n as [|n]; cbn.
  - split; [|done]. eapply list.Forall_impl; [exact A1|]. intros y. unfold apart2. by rewrite E1, E2, E3.
  - split; [|by apply IH]. rewrite list.Forall_forall in *. intros y [i Hi]%list_elem_of_lookup. destruct (decide (i = n)) as [->|N].
    + rewrite list_lookup_alter_eq in Hi. apply fmap_Some in Hi as (z & Hz & ->). destruct (Hf z) as (Z1 & Z2 & Z3). unfold apart2. rewrite Z1, Z2, Z3.
      apply A1. by eapply list_elem_of_lookup_2.
    + rewrite list_lookup_alter_ne in Hi by done. apply A1. by eapply list_elem_of_lookup_2.
Qed.

(** What a call needs of a change elsewhere. *)
Lemma call_ok_change st tk pend ls st' tk' pend' ls' c : call_ok st tk pend ls c -> (length (pool st) <= length (pool st'))%nat ->
  tk' (c_task c) = tk (c_task c) -> (c_task c ∈ pend -> c_task c ∈ pend') ->
  (forall i, (i < c_queued c)%nat -> task_id (at_ st' (c_base c + i)) = task_id (at_ st (c_base c + i)) /\
     ((c_base c + i)%nat ∈ ls -> (c_base c + i)%nat ∈ ls') /\
     (woken (at_ st' (c_base c + i)) = true -> woken (at_ st (c_base c + i)) = true \/ (c_base c + i)%nat ∈ ls' \/ c_task c ∈ pend')) ->
  call_ok st' tk' pend' ls' c.
Proof.
  intros [[F1 F2] I S W] L T P H. constructor; rewrite ?T; [lia| |done|].
  - intros i Hi. destruct (H i Hi) as [-> _]. by apply I.
  - intros i Hi Hl Hw. destruct (H i Hi) as (_ & HL & HW). destruct (HW Hw) as [Hw'|[?|?]]; [|tauto..]. destruct (W i Hi Hl Hw') as [?|[?|?]]; auto.
Qed.
Lemma call_ok_kept st tk pend ls st' tk' c : kept st st' -> tk' (c_task c) = tk (c_task c) -> call_ok st tk pend ls c -> call_ok st' tk' pend ls c.
Proof.
  intros [L H] T K. apply (call_ok_change _ _ _ _ _ _ _ _ _ K); [lia|done|done|]. intros i Hi. destruct (H (c_base c + i)%nat) as [-> ->]. auto.
Qed.

Section ok.
Context (s : sys) (K : sys_ok s).
Lemma call_at n c : calls s !! n = Some c -> call_ok (fx s) (task s) (pending s) (lost s) c.
Proof using K. intros H. eapply Forall_lookup_1; [apply K|exact H]. Qed.

(** A call changes phase; its task may change state. *)
Lemma ok_phase n c p st' tk' : calls s !! n = Some c -> kept (fx s) st' -> length (g_futex st') = 64%nat ->
  (forall t, t <> c_task c -> tk' t = task s t) -> phase_ok p (tk' (c_task c)) ->
  (forall i, (i < c_queued c)%nat -> looked p i -> woken (at_ (fx s) (c_base c + i)) = true ->
     (c_base c + i)%nat ∈ lost s \/ tk' (c_task c) = TASK_READY \/ c_task c ∈ pending s) ->
  sys_ok (mkSys st' (alter (set_phase p) n (calls s)) tk' (pending s) (lost s) (dying s)).
Proof using K.
  intros Hn Kp L T P W. constructor; cbn [fx calls task pending lost]; [done|by apply apart_alter, K|].
  eapply calls_alter; [exact Hn|apply K|apply K| |].
  - destruct (call_at n c Hn) as [F I _ _]. destruct Kp as [KL KF]. constructor; cbn [set_phase c_task c_base c_size c_queued c_phase]; [lia| |done|].
    + intros i Hi. destruct (KF (c_base c + i)%nat) as [-> _]. by apply I.
    + intros i Hi Hl Hw. destruct (KF (c_base c + i)%nat) as [_ E]. rewrite E in Hw. by apply W.
  - intros c' K' [A _]. apply (call_ok_kept (fx s) (task s)); [done|by apply T|done].
Qed.
Lemma ok_phased n c p st' : calls s !! n = Some c -> kept (fx s) st' -> length (g_futex st') = 64%nat ->
  phase_ok p (task s (c_task c)) ->
  (forall i, (i < c_queued c)%nat -> looked p i -> looked (c_phase c) i \/ woken (at_ (fx s) (c_base c + i)) = false) ->
  sys_ok (phased n p st' s).
Proof using K.
  intros Hn Kp L P W. apply (ok_phase n c); try done. intros i Hi Hl Hw. destruct (W i Hi Hl); [|congruence]. by apply (call_at n c Hn).
Qed.
Lemma ok_move n c p v : calls s !! n = Some c -> phase_ok p v -> (forall i, ~ looked p i) -> sys_ok (move n p v s).
Proof using K.
  intros Hn P W. unfold move. rewrite Hn. apply (ok_phase n c); [done|apply fx_kept_refl|apply K| | |].
  - intros t Ht. unfold set_task. by rewrite (proj2 (Z.eqb_neq t (c_task c))).
  - unfold set_task. by rewrite Z.eqb_refl.
  - intros i _ H. by destruct (W i).
Qed.
(** A call ends. *)
Lemma ok_delete n st' dy : kept (fx s) st' -> length (g_futex st') = 64%nat -> sys_ok (mkSys st' (delete n (calls s)) (task s) (pending s) (lost s) dy).
Proof using K.
  intros Kp L. constructor; cbn [fx calls task pending lost]; [done|by apply apart_delete, K|]. apply forall_delete.
  eapply list.Forall_impl; [apply (s_calls _ K)|]. intros c. by apply call_ok_kept.
Qed.
Lemma ok_kept st' dy : kept (fx s) st' -> length (g_futex st') = 64%nat -> sys_ok (mkSys st' (calls s) (task s) (pending s) (lost s) dy).
Proof using K.
  intros Kp L. constructor; cbn [fx calls task pending lost]; [done|apply K|].
  eapply list.Forall_impl; [apply (s_calls _ K)|]. intros c. by apply call_ok_kept.
Qed.
Lemma elem_left_out st st' ids v : v ∈ left_out st st' ids <->
  woken (at_ st v) = false /\ woken (at_ st' v) = true /\ task_id (at_ st' v) ∉ ids.
Proof using.
  unfold left_out. rewrite list_elem_of_In, List.filter_In, <- list_elem_of_In, elem_of_seq, !andb_true_iff, !negb_true_iff, bool_decide_eq_false.
  split; [tauto|]. intros (H1 & H2 & H3). pose proof (at_range _ _ H2). split_and!; done || lia.
Qed.
(** Some waiters are flagged. *)
Lemma ok_flagging st' ids : raised (fx s) st' -> length (g_futex st') = 64%nat -> sys_ok (flagging st' ids s).
Proof using K.
  intros [L R] G. constructor; cbn [flagging fx calls task pending lost]; [done|apply K|].
  eapply list.Forall_impl; [apply (s_calls _ K)|]. intros c Kc. apply (call_ok_change _ _ _ _ _ _ _ _ _ Kc); [lia|done|rewrite elem_of_app; by left|].
  intros i Hi. destruct (R (c_base c + i)%nat) as [RT RW]. split_and!; [done|rewrite elem_of_app; by left|]. intros Hw.
  destruct (woken (at_ (fx s) (c_base c + i))) eqn:E; [by left|right]. rewrite !elem_of_app.
  destruct (decide (task_id (at_ st' (c_base c + i)) ∈ ids)) as [Hin|Hn].
  - right. right. by rewrite RT, (c_id _ _ _ _ _ Kc i Hi) in Hin.
  - left. right. by apply elem_left_out.
Qed.
End ok.

(** ** Starts and ends of calls *)

Lemma wait_state e st uaddr val priv first answers ok w st' :
  wait_enqueue e st uaddr val priv first answers ok = (inr w, st') ->
  w = length (pool st) /\ st' = add_waiter (new_waiter e w uaddr val priv) st.
Proof. unfold wait_enqueue. intros H. repeat break_hyp H; simplify_eq; done. Qed.
Lemma at_app st l v : (v < length (pool st))%nat -> at_ (set_pool (pool st ++ l) st) v = at_ st v.
Proof. intros H. unfold at_. cbn [pool set_pool]. by rewrite !list_lookup_total_alt, lookup_app_l. Qed.
Lemma at_app_new st x : at_ (set_pool (pool st ++ [x]) st) (length (pool st)) = x.
Proof. unfold at_. cbn [pool set_pool]. by rewrite list_lookup_total_alt, list_lookup_middle. Qed.

(** A new call, with an allocation of its own. *)
Lemma ok_new s st' c : sys_ok s -> (forall c', c' ∈ calls s -> c_task c' <> c_task c) -> c_base c = length (pool (fx s)) ->
  length (g_futex st') = 64%nat -> (length (pool (fx s)) <= length (pool st'))%nat ->
  (forall v, (v < length (pool (fx s)))%nat -> at_ st' v = at_ (fx s) v) ->
  call_ok st' (task s) (pending s) (lost s) c -> sys_ok (mkSys st' (calls s ++ [c]) (task s) (pending s) (lost s) (dying s)).
Proof.
  intros K T B G L A C. assert (F : forall c', c' ∈ calls s -> (c_base c' + c_size c' <= length (pool (fx s)))%nat /\ (c_queued c' <= c_size c')%nat /\ (0 < c_size c')%nat).
  { intros c' H. apply (c_fit _ (task s) (pending s) (lost s)). pose proof (s_calls _ K) as Fc. rewrite list.Forall_forall in Fc. by apply Fc. }
  constructor; cbn [fx calls task pending lost]; [done| |].
  - apply apart_app; [apply K|]. apply list.Forall_forall. intros c' H. split; [by intros E; destruct (T c' H)|]. right. rewrite B. by apply F.
  - apply Forall_app. split; [|by apply Forall_singleton]. pose proof (s_calls _ K) as Fc. rewrite list.Forall_forall in *. intros c' H.
    apply (call_ok_change _ _ _ _ _ _ _ _ _ (Fc c' H)); [done..|]. intros i Hi. rewrite A by (destruct (F c' H); lia). auto.
Qed.
Lemma lock_and_read_err n answers rc : lock_and_read n answers = inl rc -> rc <> 0.
Proof.
  revert answers. induction n as [|n IH]; intros answers H; cbn [lock_and_read] in H; [by injection H as <-|].
  destruct answers as [|[[v|] []] answers]; try done; try (by injection H as <-). by eapply IH.
Qed.
Lemma fill_state e b v answers q st rc q' st' : waitv_queue e b [(v, answers)] q st = (rc, q', st') ->
  exists x, task_id x = cur_id e /\ woken x = false /\
  (rc <> 0 /\ q' = q /\ st' = upd_waiter (fun _ => cleared b) (b + q) st \/
   rc = 0 /\ q' = S q /\ st' = enqueue (bucket x) (b + q) (upd_waiter (fun _ => x) (b + q) (upd_waiter (fun _ => cleared b) (b + q) st))).
Proof.
  cbn [waitv_queue]. destruct (futex_lock_and_read answers) as [r|cur] eqn:E.
  - intros [= <- <- <-]. exists (new_waiter e b 0 0 true). split_and!; [done|done|]. left. split_and!; [by eapply lock_and_read_err|done|done].
  - exists (new_waiter e b (vec_uaddr v) (vec_val v) (vec_priv v)). split_and!; [done|done|]. destruct (cur <>? vec_val v); simplify_eq; [by left|by right].
Qed.
Lemma fill_effect e b v answers q st rc q' st' : waitv_queue e b [(v, answers)] q st = (rc, q', st') ->
  (forall u, u <> (b + q)%nat -> at_ st' u = at_ st u) /\ length (pool st') = length (pool st) /\ length (g_futex st') = length (g_futex st) /\
  ((rc =? 0) = true -> q' = S q).
Proof.
  intros (x & _ & _ & [(R & -> & ->)|(-> & -> & ->)])%fill_state; split_and!; try done.
  - intros u Hu. by apply at_other.
  - cbn. apply length_alter.
  - by rewrite (proj2 (Z.eqb_neq rc 0)).
  - intros u Hu. etrans; [by apply at_other|]. by apply at_other.
  - cbn. by rewrite !length_alter.
  - cbn. by rewrite length_zalter.
Qed.
Lemma ok_fill s n c e v answers rc q st' : sys_ok s -> calls s !! n = Some c -> c_phase c = Filling -> (c_queued c < c_size c)%nat ->
  cur_id e = c_task c -> waitv_queue e (c_base c) [(v, answers)] (c_queued c) (fx s) = (rc, q, st') ->
  sys_ok (mkSys st' (alter (if rc =? 0 then set_queued q else set_phase (Unlinking 0 None true)) n (calls s))
    (task s) (pending s) (List.filter (fun w => negb (bool_decide (w = c_base c + c_queued c)%nat)) (lost s)) (dying s)).
Proof.
  intros K Hn Hp Hq He HF. destruct (fill_effect _ _ _ _ _ _ _ _ _ HF) as (A & L & G & _). apply fill_state in HF as (x & Tx & Wx & H). set (w := (c_base c + c_queued c)%nat) in *. pose proof (call_at s K n c Hn) as Kc.
  destruct Kc as [[F1 F2] I S W]. rewrite Hp in S.
  constructor; cbn [fx calls task pending lost]; [rewrite G; apply K|apply apart_alter; [by destruct (rc =? 0)|apply K]|].
  eapply calls_alter; [exact Hn|apply K|apply K| |].
  - destruct H as [(R & -> & E)|(-> & -> & E)].
    + rewrite (proj2 (Z.eqb_neq rc 0)) by done. constructor; cbn [set_phase c_task c_base c_size c_queued c_phase]; [lia| |done|done].
      intros i Hi. rewrite A by lia. by apply I.
    + cbn [Z.eqb]. constructor; cbn [set_queued c_task c_base c_size c_queued c_phase]; [lia| |done|done].
      intros i Hi. destruct (decide (i = c_queued c)) as [->|N]; [|rewrite A by lia; apply I; lia]. fold w. rewrite E.
      change (at_ (enqueue _ _ ?s) w) with (at_ s w). rewrite at_same by (cbn; rewrite length_alter; lia). congruence.
  - intros c' K' [_ Ap]. apply (call_ok_change _ _ _ _ _ _ _ _ _ K'); [lia|done|done|]. intros i Hi. destruct (c_fit _ _ _ _ _ K') as [_ Q].
    assert (N : (c_base c' + i)%nat <> w) by lia. rewrite A by done. split_and!; [done| |by left]. intros Hl.
    rewrite list_elem_of_In, List.filter_In, <- list_elem_of_In. split; [done|]. by rewrite bool_decide_eq_false_2.
Qed.

Lemma wake_task_cases t f : (f t <> TASK_RUNNING /\ scheduler_wake_task t f = set_task t TASK_READY f) \/
  ((f t = TASK_RUNNING \/ f t = TASK_READY) /\ scheduler_wake_task t f = f).
Proof. unfold scheduler_wake_task. destruct (f t); (by left) || (right; split; by auto). Qed.
(** Task states change; a call that sleeps may become ready. *)
Lemma ok_tasks s tk' pend' : sys_ok s ->
  (forall c, c ∈ calls s -> phase_ok (c_phase c) (task s (c_task c)) -> phase_ok (c_phase c) (tk' (c_task c)) /\
     (phase_ok Asleep (task s (c_task c)) -> task s (c_task c) = TASK_READY \/ c_task c ∈ pending s -> tk' (c_task c) = TASK_READY \/ c_task c ∈ pend')) ->
  sys_ok (mkSys (fx s) (calls s) tk' pend' (lost s) (dying s)).
Proof.
  intros K H. constructor; cbn [fx calls task pending lost]; [apply K|apply K|]. pose proof (s_calls _ K) as Fc. rewrite list.Forall_forall in *. intros c Hc.
  destruct (Fc c Hc) as [F I S W]. destruct (H c Hc S) as [H1 H2]. constructor; [done|done|done|]. intros i Hi Hl Hw.
  destruct (W i Hi Hl Hw) as [?|?]; [by left|right]. apply H2; [|done]. by destruct (c_phase c).
Qed.
Lemma ok_timer s n c : sys_ok s -> calls s !! n = Some c -> task s (c_task c) = TASK_BLOCKED ->
  sys_ok (mkSys (fx s) (calls s) (set_task (c_task c) TASK_READY (task s)) (pending s) (lost s) (dying s)).
Proof.
  intros K Hn B. apply ok_tasks; [done|]. intros c' Hc' S. unfold set_task. destruct (Z.eqb_spec (c_task c') (c_task c)) as [E|E]; [|done].
  split; [|by left]. rewrite E, B in S. by destruct (c_phase c').
Qed.
Lemma ok_wake_task s l t r : sys_ok s -> pending s = l ++ t :: r ->
  sys_ok (mkSys (fx s) (calls s) (scheduler_wake_task t (task s)) (l ++ r) (lost s) (dying s)).
Proof.
  intros K E. apply ok_tasks; [done|]. intros c Hc S. rewrite E, elem_of_app, elem_of_cons, elem_of_app.
  destruct (wake_task_cases t (task s)) as [[B ->]|[B ->]]; unfold set_task.
  - destruct (Z.eqb_spec (c_task c) t) as [Et|Et]; [|split; [done|tauto]]. split; [|by left]. rewrite Et in S. by destruct (c_phase c).
  - split; [done|]. intros NR [?|[?|[Et|?]]]; [by left|tauto| |tauto]. left. rewrite <- Et in B. by destruct B.
Qed.

Lemma fx_step_ok ev s s' : step ev s s' -> sys_ok s -> sys_ok s'.
Proof.
  intros H K. pose proof (s_len _ K) as L. destruct H.
  - done.
  - apply wait_state in H1 as [-> ->]. set (x := new_waiter _ _ _ _ _).
    apply (ok_new s); try done; [cbn; by rewrite length_zalter|cbn; rewrite length_app; lia|intros u Hu; by apply (at_app (fx s) [x])|].
    constructor; cbn; [rewrite length_app; cbn; lia| |done|done]. intros i Hi. replace (_ + i)%nat with (length (pool (fx s))) by lia.
    etrans; [exact (f_equal task_id (at_app_new (fx s) x))|done].
  - injection H2 as <- <-. apply (ok_new s); try done; [cbn; rewrite length_app; lia|intros u Hu; by apply at_app|].
    constructor; cbn; [rewrite length_app, length_replicate; lia|lia|done|done].
  - by apply (ok_fill s n c e v answers).
  - apply (ok_phased s K n c); try done; pose proof (c_state _ _ _ _ _ (call_at s K n c H)) as S; by rewrite H0 in S.
  - apply (ok_move s K n c); [done|done|]. cbn. lia.
  - pose proof (c_state _ _ _ _ _ (call_at s K n c H)) as S. rewrite H0 in S. apply (ok_phased s K n c); try done.
    rewrite H0. cbn. intros i Hi Hl. destruct (decide (i = j)) as [->|N]; [by right|left; lia].
  - apply (ok_move s K n c); [done|done|]. by intros i [].
  - pose proof (c_state _ _ _ _ _ (call_at s K n c H)) as S. rewrite H0 in S. apply (ok_phased s K n c); try done.
    rewrite H0. cbn. intros i Hi _. left. pose proof (c_fit _ _ _ _ _ (call_at s K n c H)). lia.
  - apply (ok_move s K n c); [done|done|]. by intros i [].
  - by apply (ok_timer s n c).
  - apply (ok_move s K n c); [done|done|]. by intros i [].
  - pose proof (c_state _ _ _ _ _ (call_at s K n c H)) as S. rewrite H0 in S. by apply (ok_phased s K n c).
  - pose proof (c_state _ _ _ _ _ (call_at s K n c H)) as S. rewrite H0 in S. apply (ok_phased s K n c); try done; [by eapply kept_unlink|].
    revert H1. unfold unlink_at. destruct (walk_out _ _ _) as [[f l]| |]; cbn [rbind]; [|done..]. intros [= _ <-]. destruct f; [by rewrite length_set_chain|done].
  - pose proof (c_state _ _ _ _ _ (call_at s K n c H)) as S. rewrite H0 in S. by apply (ok_phased s K n c).
  - destruct (kept_kfree _ _ _ H2) as [Kp G]. apply (ok_delete s K); [done|congruence].
  - constructor; cbn [fx calls task pending lost]; [done|apply apart_alter; [done|apply K]|].
    eapply calls_alter; [exact H|apply K|apply K| |done]. destruct (call_at s K n c H) as [F I S W]. rewrite H0 in S. constructor; cbn; [lia|lia|done|lia].
  - by apply (ok_delete s K).
  - destruct (kept_clean _ _ _ _ _ H0) as [Kp G]. apply (ok_kept s K); [eapply fx_kept_trans; [exact Kp|apply kept_chain]|rewrite length_set_chain; congruence].
  - destruct (kept_note _ _ _ _ H) as [Kp G]. apply (ok_flagging s K); [by apply kept_raised|congruence].
  - destruct (wake_one_does _ _ _ _ _ H L) as (G & _). apply (ok_flagging s K); [by eapply raised_wake_one|done].
  - destruct (requeue_does _ _ _ _ _ _ _ _ _ _ _ H L) as (G & R & _). by apply (ok_flagging s K).
  - destruct (raised_dump _ _ _ _ _ _ _ H) as (R & G & _). apply (ok_flagging s K); [done|congruence].
  - by apply ok_wake_task.
Qed.
Lemma fx_boot_ok : sys_ok boot.
Proof. by constructor. Qed.

(** ** No wake-up is lost *)

(** The call will still look at the flag of its waiter [i], or end anyway. *)
Definition unread (i : nat) (p : phase) : Prop := match p with Unlinking k _ ends => ends = true \/ (k <= i)%nat | _ => True end.
(** It will not sleep before it does. *)
Definition wakeful (i : nat) (p : phase) : Prop := match p with Prepared j => (j <= i)%nat | Asleep => False | _ => True end.
Definition advances (s s' : sys) (c c' : call) : Prop :=
  c_base c' = c_base c /\ c_task c' = c_task c /\ forall i, (i < c_queued c)%nat -> woken (at_ (fx s) (c_base c + i)) = true -> unread i (c_phase c) ->
    (i < c_queued c')%nat /\ woken (at_ (fx s') (c_base c + i)) = true /\ unread i (c_phase c') /\ (wakeful i (c_phase c) -> wakeful i (c_phase c')).
Definition comes_from (s s' : sys) (c' : call) : Prop := c_base c' = length (pool (fx s)) \/ exists c, c ∈ calls s /\ advances s s' c c'.

Lemma advances_raised s s' c : raised (fx s) (fx s') -> advances s s' c c.
Proof. intros [_ R]. split_and!; [done..|]. intros i Hi Hw Hu. split_and!; [done|by apply R|done|done]. Qed.
Lemma alter_from s s' n c f : sys_ok s -> calls s !! n = Some c -> calls s' = alter f n (calls s) -> advances s s' c (f c) ->
  (forall c', c' ∈ calls s -> apart2 c c' -> advances s s' c' c') -> forall c', c' ∈ calls s' -> comes_from s s' c'.
Proof.
  intros K Hn -> Hc Ho. apply list.Forall_forall. eapply (calls_alter (fun c' => c' ∈ calls s)); [exact Hn|apply K|by apply list.Forall_forall| |].
  - right. exists c. split; [by eapply list_elem_of_lookup_2|done].
  - intros c' H A. right. exists c'. auto.
Qed.
(** A call whose waiters keep their flags changes phase. *)
Lemma phase_from s s' n c p : sys_ok s -> calls s !! n = Some c -> raised (fx s) (fx s') -> calls s' = alter (set_phase p) n (calls s) ->
  (forall i, (i < c_queued c)%nat -> woken (at_ (fx s) (c_base c + i)) = true -> unread i (c_phase c) ->
     unread i p /\ (wakeful i (c_phase c) -> wakeful i p)) ->
  forall c', c' ∈ calls s' -> comes_from s s' c'.
Proof.
  intros K Hn R E H. apply (alter_from s s' n c (set_phase p)); [done..| |intros; by apply advances_raised].
  split_and!; [done..|]. intros i Hi Hw Hu. destruct (H i Hi Hw Hu). split_and!; [done|by apply R|done|done].
Qed.
Lemma same_from s s' : raised (fx s) (fx s') -> (forall c, c ∈ calls s' -> c ∈ calls s) -> forall c', c' ∈ calls s' -> comes_from s s' c'.
Proof. intros R H c' Hc'. right. exists c'. split; [auto|by apply advances_raised]. Qed.
Lemma in_delete n (l : list call) c : c ∈ delete n l -> c ∈ l.
Proof. intros H. eapply sublist_subseteq; [apply sublist_delete|exact H]. Qed.
Lemma new_from s st' c tk pd ls dy : (forall v, (v < length (pool (fx s)))%nat -> at_ st' v = at_ (fx s) v) -> sys_ok s -> c_base c = length (pool (fx s)) ->
  forall c', c' ∈ calls s ++ [c] -> comes_from s (mkSys st' (calls s ++ [c]) tk pd ls dy) c'.
Proof.
  intros A K B c' [H| ->%list_elem_of_singleton]%elem_of_app; [right|by left]. exists c'. split; [done|]. split_and!; [done..|]. intros i Hi Hw Hu.
  cbn [fx]. pose proof (s_calls _ K) as Fc. rewrite list.Forall_forall in Fc. pose proof (c_fit _ _ _ _ _ (Fc c' H)). rewrite A by lia. done.
Qed.

Lemma step_from ev s s' : step ev s s' -> sys_ok s -> (length (pool (fx s)) <= length (pool (fx s')))%nat /\ forall c', c' ∈ calls s' -> comes_from s s' c'.
Proof.
  intros H K. destruct H.
  - split; [done|]. by apply same_from.
  - apply wait_state in H1 as [-> ->]. set (x := new_waiter _ _ _ _ _). split; [cbn; rewrite length_app; lia|].
    apply new_from; [|done|done]. intros u Hu. exact (at_app (fx s) [x] u Hu).
  - injection H2 as <- <-. split; [cbn; rewrite length_app; lia|]. apply new_from; [|done|done]. intros u Hu. by apply at_app.
  - destruct (fill_effect _ _ _ _ _ _ _ _ _ H5) as (A & L & _ & Q). split; [cbn; lia|]. eapply (alter_from s _ n c); [done..| |].
    + destruct (rc =? 0); (split_and!; [done..|]); intros i Hi Hw Hu; cbn [set_queued set_phase c_base c_queued c_phase fx]; rewrite A by lia; [rewrite Q by done|];
        split_and!; try done; try lia; by left.
    + intros c' Hc' [_ Ap]. split_and!; [done..|]. intros i Hi Hw Hu. pose proof (s_calls _ K) as Fc. rewrite list.Forall_forall in Fc.
      pose proof (c_fit _ _ _ _ _ (Fc c' Hc')). cbn [fx]. rewrite A by lia. done.
  - split; [done|]. apply (phase_from s _ n c (Unlinking 0 None false)); try done. intros. split; [right; lia|done].
  - split; [done|]. apply (phase_from s _ n c (Prepared 0)); try done. intros. split; [done|intros; cbn; lia].
  - split; [done|]. apply (phase_from s _ n c (Prepared (S j))); try done. intros i Hi Hw _. split; [done|]. rewrite H0. cbn. intros Hj.
    destruct (decide (i = j)) as [->|]; [congruence|lia].
  - split; [done|]. apply (phase_from s _ n c (woken_up c)); try done. intros. split; [right; lia|done].
  - split; [done|]. apply (phase_from s _ n c Asleep); try done. intros i Hi _ _. split; [done|]. rewrite H0. cbn.
    pose proof (c_fit _ _ _ _ _ (call_at s K n c H)). lia.
  - split; [done|]. apply (phase_from s _ n c (woken_up c)); try done. intros. split; [right; lia|done].
  - split; [done|]. by apply same_from.
  - split; [done|]. apply (phase_from s _ n c (woken_up c)); try done. intros. split; [right; lia|done].
  - split; [done|]. apply (phase_from s _ n c (Unlinking i (Some (first ++ buckets)) ends)); try done. intros j _ _. by rewrite H0.
  - pose proof (kept_unlink _ _ _ _ _ H1) as Kp. split; [destruct Kp as [E _]; cbn; lia|].
    eapply (phase_from s _ n c); [done|done|by apply kept_raised|done|]. intros j _ _. by rewrite H0.
  - split; [done|]. eapply (phase_from s _ n c); [done..|]. intros j _ Hw. rewrite H0. cbn. intros Hu. split; [|done].
    destruct Hu as [->|Hk]; [by left|]. destruct (decide (j = i)) as [->|]; [left; by rewrite Hw, orb_true_r|right; lia].
  - destruct (kept_kfree _ _ _ H2) as [Kp _]. split; [destruct Kp as [E _]; cbn; lia|]. apply same_from; [by apply kept_raised|]. intros c'. apply in_delete.
  - split; [done|]. eapply (alter_from s _ n c); [done..| |intros; by apply advances_raised]. split_and!; [done..|]. intros j Hj _. rewrite H0. cbn. intros [?|?]; [done|lia].
  - split; [done|]. apply same_from; [done|]. intros c'. apply in_delete.
  - destruct (kept_clean _ _ _ _ _ H0) as [Kp _]. split; [destruct Kp as [E _]; cbn; lia|]. apply same_from; [by apply kept_raised|done].
  - destruct (kept_note _ _ _ _ H) as [Kp _]. split; [destruct Kp as [E _]; cbn; lia|]. apply same_from; [by apply kept_raised|done].
  - pose proof (raised_wake_one _ _ _ _ _ H) as R. split; [destruct R as [E _]; cbn; lia|]. by apply same_from.
  - destruct (requeue_does _ _ _ _ _ _ _ _ _ _ _ H (s_len _ K)) as (_ & R & _). split; [destruct R as [E _]; cbn; lia|]. by apply same_from.
  - destruct (raised_dump _ _ _ _ _ _ _ H) as (R & _). split; [destruct R as [E _]; cbn; lia|]. by apply same_from.
  - split; [done|]. by apply same_from.
Qed.

(** The waiter [i] of the call of task [t] with allocation [b] has been flagged. *)
Definition woke (t : Z) (b i : nat) (s : sys) : Prop :=
  (b < length (pool (fx s)))%nat /\
  forall c, c ∈ calls s -> c_base c = b ->
    c_task c = t /\ (i < c_queued c)%nat /\ woken (at_ (fx s) (b + i)) = true /\ unread i (c_phase c).
Definition past (b i : nat) (s : sys) : Prop := forall c, c ∈ calls s -> c_base c = b -> wakeful i (c_phase c).
Lemma woke_step t b i ev s s' : step ev s s' -> sys_ok s -> woke t b i s -> woke t b i s' /\ (past b i s -> past b i s').
Proof.
  intros H K [W1 W2]. destruct (step_from ev s s' H K) as [L F].
  assert (X : forall c', c' ∈ calls s' -> c_base c' = b -> exists c, c ∈ calls s /\ c_base c = b /\ advances s s' c c').
  { intros c' Hc' <-. destruct (F c' Hc') as [?|(c & Hc & A)]; [lia|]. exists c. split_and!; [done|symmetry; apply A|done]. }
  split; [split; [lia|]|].
  - intros c' Hc' E. destruct (X c' Hc' E) as (c & Hc & Eb & _ & Et & A). destruct (W2 c Hc Eb) as (T & Q & Wk & U). rewrite <- Eb in Wk.
    destruct (A i Q Wk U) as (? & ? & ? & _). split; [congruence|]. by rewrite <- Eb.
  - intros P c' Hc' E. destruct (X c' Hc' E) as (c & Hc & Eb & _ & _ & A). destruct (W2 c Hc Eb) as (T & Q & Wk & U). rewrite <- Eb in Wk.
    destruct (A i Q Wk U) as (_ & _ & _ & Y). by apply Y, P.
Qed.

(** An execution, and what is assumed of the rest of the kernel: a waker that
    has dropped its lock goes on to wake the task it took, and a task that is
    ready is run until it is out of its sleep. *)
Record execution (ev : nat -> event) (run : nat -> sys) : Prop := {
  run_start : run 0%nat = boot;
  run_step : forall n, step (ev n) (run n) (run (S n)) }.
(** No call with the allocation [b] has published BLOCKED, or sleeps. *)
Definition up (b : nat) (s : sys) : Prop :=
  forall c, c ∈ calls s -> c_base c = b -> match c_phase c with Prepared _ | Asleep => False | _ => True end.
Definition asleep (b : nat) (s : sys) : Prop := exists c, c ∈ calls s /\ c_base c = b /\ c_phase c = Asleep.
Record fair (run : nat -> sys) : Prop := {
  fair_wakers : forall n t, t ∈ pending (run n) -> exists m l r, (n <= m)%nat /\ pending (run m) = l ++ t :: r /\
    run (S m) = mkSys (fx (run m)) (calls (run m)) (scheduler_wake_task t (task (run m))) (l ++ r) (lost (run m)) (dying (run m));
  fair_ready : forall n c, c ∈ calls (run n) -> task (run n) (c_task c) = TASK_READY -> exists m, (n <= m)%nat /\ up (c_base c) (run m) }.
Lemma apart_in l c c' : apart l -> c ∈ l -> c' ∈ l -> c = c' \/ apart2 c c'.
Proof.
  induction l as [|x l IH]; intros A H H'; [by apply elem_of_nil in H|]. destruct A as [A1 A2]. rewrite list.Forall_forall in A1.
  apply elem_of_cons in H as [->|H]; apply elem_of_cons in H' as [->|H']; [by left|right; by apply A1|right; by apply apart2_sym, A1|by apply IH].
Qed.
Definition sleeps (p : phase) : bool := match p with Prepared _ | Asleep => true | _ => false end.

Section live.
Context (ev : nat -> event) (run : nat -> sys) (E : execution ev run) (F : fair run).

Lemma run_ok n : sys_ok (run n).
Proof using E. induction n as [|n IH]; [rewrite (run_start _ _ E); apply fx_boot_ok|]. eapply fx_step_ok; [apply (run_step _ _ E)|done]. Qed.
Lemma woke_later t b i n m : (n <= m)%nat -> woke t b i (run n) -> woke t b i (run m) /\ (past b i (run n) -> past b i (run m)).
Proof using E.
  induction 1 as [|m _ IH]; intros W; [done|]. destruct (IH W) as [W' R']. pose proof (woke_step t b i _ _ _ (run_step _ _ E m) (run_ok m) W') as [W'' R''].
  split; [done|auto].
Qed.
Lemma up_past b i s : up b s -> past b i s.
Proof using. intros U c Hc Eb. specialize (U c Hc Eb). by destruct (c_phase c). Qed.
Lemma run_call n c : c ∈ calls (run n) -> call_ok (fx (run n)) (task (run n)) (pending (run n)) (lost (run n)) c.
Proof using E. intros H. pose proof (s_calls _ (run_ok n)) as Fc. rewrite list.Forall_forall in Fc. by apply Fc. Qed.

(** A task on its way to be woken leaves its sleep. *)
Lemma pending_resumes n t b i : t ∈ pending (run n) -> woke t b i (run n) -> exists m, (n <= m)%nat /\ up b (run m).
Proof using E F.
  intros P W. destruct (fair_wakers _ F n t P) as (m & l & r & Hm & Ep & Er). destruct (woke_later t b i n m Hm W) as [[_ W2] _].
  destruct (decide (Exists (fun c => c_base c = b /\ sleeps (c_phase c) = true) (calls (run m)))) as [X|X].
  - apply list.Exists_exists in X as (c & Hc & Eb & Hs). destruct (W2 c Hc Eb) as (Et & _). subst b.
    destruct (fair_ready _ F (S m) c) as (k & Hk & U); [by rewrite Er| |exists k; split; [lia|done]]. rewrite Er. cbn [task]. rewrite Et.
    pose proof (c_state _ _ _ _ _ (run_call m c Hc)) as St. rewrite Et in St.
    destruct (wake_task_cases t (task (run m))) as [[_ ->]|[[B|B] ->]]; [unfold set_task; by rewrite Z.eqb_refl|by destruct (c_phase c)|done].
  - exists m. split; [done|]. intros c Hc Eb. destruct (sleeps (c_phase c)) eqn:S; [|by destruct (c_phase c)]. exfalso. apply X, list.Exists_exists. by exists c.
Qed.
Lemma flagged_resumes n c i : c ∈ calls (run n) -> (i < c_queued c)%nat -> woken (at_ (fx (run n)) (c_base c + i)) = true ->
  unread i (c_phase c) -> (c_base c + i)%nat ∉ lost (run n) -> exists m, (n <= m)%nat /\ woke (c_task c) (c_base c) i (run m) /\ past (c_base c) i (run m).
Proof using E F.
  intros Hc Hi Hw Hu Hl. pose proof (run_call n c Hc) as Kc. destruct (c_fit _ _ _ _ _ Kc) as [F1 F2].
  assert (One : forall c', c' ∈ calls (run n) -> c_base c' = c_base c -> c' = c).
  { intros c' Hc' Eb. destruct (apart_in _ c c' (s_apart _ (run_ok n)) Hc Hc') as [?|[_ Ap]]; [done|]. pose proof (run_call n c' Hc') as [[? ?] _ _ _]. lia. }
  assert (W : woke (c_task c) (c_base c) i (run n)). { split; [lia|]. intros c' Hc' Eb. rewrite (One c' Hc' Eb). done. }
  assert (Late : (exists m, (n <= m)%nat /\ up (c_base c) (run m)) -> exists m, (n <= m)%nat /\ woke (c_task c) (c_base c) i (run m) /\ past (c_base c) i (run m)).
  { intros (m & Hm & U). exists m. split_and!; [done|by apply (woke_later _ _ _ n)|by apply up_past]. }
  assert (D : wakeful i (c_phase c) \/ looked (c_phase c) i) by (destruct (c_phase c); cbn; (by left) || (by right) || lia).
  destruct D as [D|D]; [exists n; split_and!; [done|done|]; intros c' Hc' Eb; by rewrite (One c' Hc' Eb)|]. apply Late.
  destruct (c_wake _ _ _ _ _ Kc i Hi D Hw) as [?|[R|P]]; [done|by apply (fair_ready _ F)|by eapply pending_resumes].
Qed.
End live.

Lemma left_out_none st st' ids : (forall v, woken (at_ st' v) = true -> woken (at_ st v) = true \/ task_id (at_ st' v) ∈ ids) -> left_out st st' ids = [].
Proof.
  intros H. destruct (left_out st st' ids) as [|v l] eqn:El; [done|]. exfalso. assert (Hv : v ∈ left_out st st' ids) by (rewrite El; left).
  apply elem_left_out in Hv as (H1 & H2 & H3). destruct (H v H2); congruence.
Qed.
Lemma step_lost ev s s' w : step ev s s' -> sys_ok s -> w ∈ lost s' -> w ∈ lost s \/ ev = Rescue \/ exists nw, ev = Requeue nw /\ 8 < nw.
Proof.
  intros H K. pose proof (s_len _ K) as L. destruct H; cbn [lost phased move flagging]; try (by left).
  - rewrite list_elem_of_In, List.filter_In, <- list_elem_of_In. tauto.
  - destruct (kept_note _ _ _ _ H) as [[_ Kp] _]. rewrite left_out_none, app_nil_r; [by left|]. intros u. destruct (Kp u) as [_ ->]. by left.
  - destruct (wake_one_does _ _ _ _ _ H L) as (_ & _ & W). rewrite left_out_none, app_nil_r; [by left|]. intros u Hu.
    destruct (W u Hu) as [?| ->]; [by left|right; by apply list_elem_of_singleton].
  - destruct (requeue_does _ _ _ _ _ _ _ _ _ _ _ H L) as (_ & _ & _ & R). destruct (decide (8 < nw)); [right; right; eauto|].
    rewrite left_out_none, app_nil_r; [by left|]. apply R. lia.
  - destruct (raised_dump _ _ _ _ _ _ _ H) as (_ & _ & R). destruct rescue; [by right; left|]. rewrite (R eq_refl), left_out_none, app_nil_r; by left.
Qed.
Lemma step_flags_out ev s s' : step ev s s' -> sys_ok s -> ev = Wake \/ (exists nw, ev = Requeue nw) -> flags_out (fx s) (fx s').
Proof.
  intros H K X. pose proof (s_len _ K) as L. destruct H; try (by destruct X as [?|[? ?]]).
  - by destruct (wake_one_does _ _ _ _ _ H L) as (_ & ? & _).
  - by destruct (requeue_does _ _ _ _ _ _ _ _ _ _ _ H L) as (_ & _ & ? & _).
  - by destruct rescue, X as [?|[? ?]].
Qed.

(** C7 (liveness).  No wake-up is lost, up to two known ways.  The executions are
    all interleavings of calls of WAIT and of waits on several words, of wakes,
    requeues and dumps, of the scans that unlink waiters bucket by bucket, and of
    the cleanups of dead tasks, as long as none of them walks into a freed waiter
    and no call queues again a waiter that its own scan has missed (both can follow
    from [unlink_scan_can_miss]).
    In every fair one: a waiter that is flagged before its call looks at the flag,
    at whatever point of the call, keeps the call from sleeping from some moment
    on, unless the waiter is among the lost.  A waiter is lost only when a requeue
    asked to wake more than eight flags it (or the rescue of the waiter dump does);
    a wake never loses one.  And a wake or a requeue that takes a waiter out of the
    buckets has flagged it. *)
Theorem futex_wakeups_not_lost ev run n :
  execution ev run -> fair run ->
  (forall c i, c ∈ calls (run n) -> (i < c_queued c)%nat -> woken (at_ (fx (run n)) (c_base c + i)) = true -> unread i (c_phase c) ->
     (c_base c + i)%nat ∉ lost (run n) -> exists m, (n <= m)%nat /\ forall k, (m <= k)%nat -> ~ asleep (c_base c) (run k)) /\
  (forall w, w ∈ lost (run n) -> exists m, (m < n)%nat /\ (ev m = Rescue \/ exists nw, ev m = Requeue nw /\ 8 < nw)) /\
  (ev n = Wake \/ (exists nw, ev n = Requeue nw) -> flags_out (fx (run n)) (fx (run (S n)))).
Proof.
  intros E F. split_and!.
  - intros c i Hc Hi Hw Hu Hl. destruct (flagged_resumes ev run E F n c i Hc Hi Hw Hu Hl) as (m & Hm & W & P). exists m. split; [done|].
    intros k Hk (c' & Hc' & Eb & Ea). destruct (woke_later ev run E _ _ i m k Hk W) as [_ P']. specialize (P' P c' Hc' Eb). by rewrite Ea in P'.
  - intros w. induction n as [|n IH]; [rewrite (run_start _ _ E); by intros ?%elem_of_nil|]. intros Hw.
    destruct (step_lost _ _ _ w (run_step _ _ E n) (run_ok ev run E n) Hw) as [H|H]; [|by exists n; split; [lia|]].
    destruct (IH H) as (m & Hm & X). exists m. split; [lia|done].
  - by apply (step_flags_out (ev n)), run_ok with ev; [apply (run_step _ _ E)|].
Qed.

(** Witness: task 7 waits on two words; it has published BLOCKED and found the
    first flag clear when a wake takes the first waiter; it finds the second flag
    clear and goes to sleep; the waker's call then resumes it. *)
Definition demo_env : futex_env := mkEnv 7 4096 (fun _ => 1) [].
Definition demo_word (u : Z) : futex_vec * list (option Z * bool) := (mkVec u 0 true, [(Some 0, true)]).
Definition demo_fx0 : futex_state := snd (waitv_alloc 2 futex_boot).
Definition demo_fx1 : futex_state := snd (waitv_queue demo_env 0 [demo_word 8192] 0 demo_fx0).
Definition demo_fx2 : futex_state := snd (waitv_queue demo_env 0 [demo_word 8196] 1 demo_fx1).
Definition demo_fx3 : futex_state := match wake_one 4096 8192 demo_fx2 with Ok (_, st) => st | _ => demo_fx2 end.
Definition demo_at (st : futex_state) (q : nat) (p : phase) (v : task_state) (pd : list Z) : sys :=
  mkSys st [mkCall 7 0 2 true q p] (set_task 7 v (task boot)) pd [] [].
Definition demo_ready : sys := mkSys demo_fx3 [mkCall 7 0 2 true 2 Asleep] (scheduler_wake_task 7 (set_task 7 TASK_BLOCKED (task boot))) [] [] [].
Definition demo_up : sys := move 0 (Unlinking 0 None false) TASK_RUNNING demo_ready.
Definition demo_filling (st : futex_state) (q : nat) : sys := mkSys st [mkCall 7 0 2 true q Filling] (task boot) [] [] [].
Definition demo_run (n : nat) : sys :=
  match n with
  | 0%nat => boot
  | 1%nat => demo_filling demo_fx0 0
  | 2%nat => demo_filling demo_fx1 1
  | 3%nat => demo_filling demo_fx2 2
  | 4%nat => demo_at demo_fx2 2 (Prepared 0) TASK_BLOCKED []
  | 5%nat => demo_at demo_fx2 2 (Prepared 1) TASK_BLOCKED []
  | 6%nat => demo_at demo_fx3 2 (Prepared 1) TASK_BLOCKED [7]
  | 7%nat => demo_at demo_fx3 2 (Prepared 2) TASK_BLOCKED [7]
  | 8%nat => demo_at demo_fx3 2 Asleep TASK_BLOCKED [7]
  | 9%nat => demo_ready
  | _ => demo_up
  end.
Definition demo_ev (n : nat) : event := match n with 5%nat => Wake | _ => Other end.
Lemma demo_execution : execution demo_ev demo_run.
Proof.
  constructor; [done|]. intros n. destruct n as [|[|[|[|[|[|[|[|[|[|n]]]]]]]]]].
  - refine (S_waitv boot 7 2 0 _ _ eq_refl _ eq_refl); [|lia]. intros c Hc. by apply elem_of_nil in Hc.
  - refine (S_fill (demo_run 1) 0 (mkCall 7 0 2 true 0 Filling) demo_env (mkVec 8192 0 true) [(Some 0, true)] 0 1 demo_fx1 eq_refl eq_refl eq_refl _ eq_refl _ eq_refl); [cbn; lia|].
    vm_compute. by intros ?%elem_of_nil.
  - refine (S_fill (demo_run 2) 0 (mkCall 7 0 2 true 1 Filling) demo_env (mkVec 8196 0 true) [(Some 0, true)] 0 2 demo_fx2 eq_refl eq_refl eq_refl _ eq_refl _ eq_refl); [cbn; lia|].
    vm_compute. by intros ?%list_elem_of_singleton.
  - exact (S_prepare (demo_run 3) 0 (mkCall 7 0 2 true 2 Filling) eq_refl eq_refl eq_refl).
  - refine (S_look (demo_run 4) 0 (mkCall 7 0 2 true 2 (Prepared 0)) 0 eq_refl eq_refl _ eq_refl). cbn. lia.
  - exact (S_wake (demo_run 5) 4096 8192 (Some 7) demo_fx3 eq_refl).
  - refine (S_look (demo_run 6) 0 (mkCall 7 0 2 true 2 (Prepared 1)) 1 eq_refl eq_refl _ eq_refl). cbn. lia.
  - exact (S_commit (demo_run 7) 0 (mkCall 7 0 2 true 2 (Prepared 2)) eq_refl eq_refl).
  - exact (S_wake_task (demo_run 8) [] 7 [] eq_refl).
  - exact (S_resume demo_ready 0 (mkCall 7 0 2 true 2 Asleep) eq_refl eq_refl eq_refl).
  - exact (S_other demo_up).
Qed.
Lemma demo_fair : fair demo_run.
Proof.
  constructor.
  - intros n t Ht. do 10 (destruct n as [|n]; [first [by apply elem_of_nil in Ht|
      apply list_elem_of_singleton in Ht as ->; exists 8%nat, [], []; split; [lia|done]]|]). by apply elem_of_nil in Ht.
  - intros n c _ _. exists (n + 10)%nat. split; [lia|]. replace (demo_run (n + 10)) with demo_up by (by rewrite Nat.add_comm).
    intros c' Hc' _. by apply list_elem_of_singleton in Hc' as ->.
Qed.
Lemma futex_wakeups_not_lost_witness :
  (exists m, (6 <= m)%nat /\ forall k, (m <= k)%nat -> ~ asleep 0 (demo_run k)) /\ asleep 0 (demo_run 8) /\
  flags_out (fx (demo_run 5)) (fx (demo_run 6)).
Proof.
  split_and!.
  - apply (proj1 (futex_wakeups_not_lost demo_ev demo_run 6 demo_execution demo_fair) (mkCall 7 0 2 true 2 (Prepared 1)) 0%nat);
      [left|cbn; lia|vm_compute; reflexivity|exact I|apply not_elem_of_nil].
  - exists (mkCall 7 0 2 true 2 Asleep). split; [left|split; reflexivity].
  - apply (futex_wakeups_not_lost demo_ev demo_run 5 demo_execution demo_fair). left. reflexivity.
Defined.

(** A requeue that wakes more than eight: the ninth waiter is taken out of its
    bucket and flagged, but its task is not among those to wake. *)
Definition nine : futex_state :=
  fold_left (fun st t => snd (wait_enqueue (mkEnv t 4096 (fun _ => 1) []) st 8192 0 true (Some 0) [(Some 0, true)] true))
    [1; 2; 3; 4; 5; 6; 7; 8; 9] futex_boot.
Lemma requeue_loses_the_ninth :
  match scheduler_futex_requeue 20 demo_env nine 8192 12288 9 0 true with
  | Ok (Some (rc, st, ids)) => rc = 9 /\ ids = [9; 8; 7; 6; 5; 4; 3; 2] /\ task_id (at_ st 0) = 1 /\ woken (at_ st 0) = true /\ linked st = []
  | _ => False
  end.
Proof. vm_compute. done. Qed.

(** A task that dies while it waits on two words: the cleanup frees the second
    waiter of the array by itself. *)
Definition two_words : futex_state :=
  let '(b, st) := waitv_alloc 2 futex_boot in
  snd (waitv_queue demo_env b [(mkVec 8192 0 true, [(Some 0, true)]); (mkVec 8196 0 true, [(Some 0, true)])] 0 st).
Lemma cleanup_frees_inside_an_array :
  scheduler_futex_cleanup_task 7 two_words = Panic "kheap: freeing unallocated or corrupted block".
Proof. vm_compute. reflexivity. Qed.

(** A wait on two words whose first waiter a wake has already taken when the second
    word refuses: the call answers EAGAIN, and the wake is spent. *)
Lemma waitv_refusal_swallows_a_wake :
  match wake_one 4096 8192 demo_fx1 with
  | Ok (Some t, st) => t = 7 /\ match waitv_finish 0 1 (- EAGAIN) false false st with Ok (rc, _) => rc = Some (- EAGAIN) | _ => False end
  | _ => False
  end.
Proof. vm_compute. done. Qed.

(** Two requeues during the scan of a waiter that resumes: it is moved behind
    the scan's back, and freed while it is linked. *)
Definition waiting_state : futex_state := snd (wait_enqueue demo_env futex_boot 8192 0 true (Some 0) [(Some 0, true)] true).
Definition scan_bucket (w : nat) (h : Z) (st : futex_state) : futex_state := match unlink_at w h st with Ok (_, st) => st | _ => st end.
Definition requeued (u1 u2 : Z) (st : futex_state) : futex_state :=
  match scheduler_futex_requeue 20 demo_env st u1 u2 0 1 true with Ok (Some (_, st, _)) => st | _ => st end.
Definition missed_by_the_scan : futex_state :=
  let st := waiting_state in                                         (* linked in the bucket of 8192 *)
  let h := bucket (at_ st 0) in
  let st := scan_bucket 0 h (requeued 8192 8352 st) in               (* moved before the first look *)
  let st := fold_left (fun st h => scan_bucket 0 (Z.of_nat h) st) (seq 0 32) st in
  let st := requeued 8352 8196 st in                                 (* moved again, to a bucket already seen *)
  fold_left (fun st h => scan_bucket 0 (Z.of_nat h) st) (seq 32 32) st.
Lemma unlink_scan_can_miss : linked missed_by_the_scan = [0%nat].
Proof. vm_compute. reflexivity. Qed.

(** ** What a wake does *)

(** The first [n] elements with [p] taken out. *)
Fixpoint without_first (p : nat -> bool) (n : nat) (l : list nat) : list nat :=
  match l, n with
  | [], _ => []
  | _, O => l
  | x :: l, S m => if p x then without_first p m l else x :: without_first p n l
  end.
Lemma filter_none (p : nat -> bool) l : Forall (fun x => p x = false) l -> List.filter p l = [].
Proof. induction 1 as [|x l Hx _ IH]; cbn; [done|]. by rewrite Hx. Qed.
Lemma without_first_0 p l : without_first p 0 l = l.
Proof. by destruct l. Qed.
Lemma without_first_app p n a w b : Forall (fun x => p x = false) a -> p w = true ->
  without_first p (S n) (a ++ w :: b) = a ++ without_first p n b.
Proof.
  intros F Hw. induction F as [|x a Hx _ IH]; cbn [app without_first]; [by rewrite Hw|]. rewrite Hx. by f_equal.
Qed.
Lemma without_first_none p n l : Forall (fun x => p x = false) l -> without_first p n l = l.
Proof. induction 1 as [|x l Hx _ IH]; destruct n; cbn; [done..|]. rewrite Hx. by f_equal. Qed.
Lemma without_first_skip p n a b : Forall (fun x => p x = false) a -> without_first p n (a ++ b) = a ++ without_first p n b.
Proof. destruct n; [by rewrite !without_first_0|]. induction 1 as [|x a Hx _ IH]; cbn [app without_first]; [done|]. rewrite Hx. by f_equal. Qed.
Lemma without_first_ext p p' n l : (forall x, p x = p' x) -> without_first p n l = without_first p' n l.
Proof. intros H. revert n. induction l as [|x l IH]; intros [|n]; cbn; [done..|]. rewrite H. destruct (p' x); [done|]. by f_equal. Qed.

(** The waiters are the same but for their flags and counts. *)
Definition same_waiters (st st' : futex_state) : Prop :=
  length (pool st') = length (pool st) /\
  forall v, live (at_ st' v) = live (at_ st v) /\ task_id (at_ st' v) = task_id (at_ st v) /\
    forall k wd, key_is k wd (at_ st' v) = key_is k wd (at_ st v).
Lemma same_waiters_trans a b c : same_waiters a b -> same_waiters b c -> same_waiters a c.
Proof. intros [L1 H1] [L2 H2]. split; [congruence|]. intros v. destruct (H1 v) as (A & B & C), (H2 v) as (A' & B' & C'). split_and!; [congruence..|]. intros. by rewrite C'. Qed.
Lemma same_waiters_upd f w st :
  (forall x, live (f x) = live x /\ task_id (f x) = task_id x /\ forall k wd, key_is k wd (f x) = key_is k wd x) -> same_waiters st (upd_waiter f w st).
Proof.
  intros Hf. split; [cbn; apply length_alter|]. intros v. split_and!; [apply at_field; intros; apply Hf|apply at_field; intros; apply Hf|].
  intros k wd. apply (at_field (key_is k wd)). intros; apply Hf.
Qed.

Lemma note_all word l : forall st, Forall (fun w => live (at_ st w) = true) l ->
  exists st', note_wakes word l st = Ok st' /\ same_waiters st st' /\ g_futex st' = g_futex st.
Proof.
  induction l as [|w l IH]; intros st F; cbn [note_wakes]; [by exists st|]. apply list.Forall_cons in F as [Fw F]. rewrite Fw. cbn [negb].
  destruct (_ =? word); [|by apply IH]. destruct (IH (upd_waiter bump_seen w st)) as (st' & E & S & G).
  - eapply list.Forall_impl; [exact F|]. intros v Hv. by rewrite at_field.
  - exists st'. split_and!; [done| |done]. eapply same_waiters_trans; [by apply (same_waiters_upd bump_seen w)|exact S].
Qed.

Lemma walk_key_ok st k wd l : Forall (fun w => live (at_ st w) = true) l ->
  (walk_key st k wd l = Ok (None, l) /\ Forall (fun w => key_is k wd (at_ st w) = false) l) \/
  exists a w b, l = a ++ w :: b /\ walk_key st k wd l = Ok (Some w, a ++ b) /\ key_is k wd (at_ st w) = true /\
    Forall (fun w => key_is k wd (at_ st w) = false) a.
Proof.
  induction 1 as [|x l Hx _ IH]; [by left|]. cbn [walk_key]. rewrite Hx. cbn [negb].
  destruct (key_is k wd (at_ st x)) eqn:E; [right; by exists [], x, l|].
  destruct IH as [[-> F]|(a & w & b & -> & -> & M & F)]; cbn [rbind].
  - left. split; [done|by constructor].
  - right. exists (x :: a), w, b. split_and!; [done..|by constructor].
Qed.
Lemma wake_loop_spec k wd val fuel : forall st n, let h := futex_hash k wd in
  length (g_futex st) = 64%nat -> Forall (fun w => live (at_ st w) = true) (chain st h) ->
  (length (chain st h) < fuel)%nat ->
  exists st', wake_loop fuel k wd val n st
      = Ok ((fun w => task_id (at_ st w)) <$> take (Z.to_nat (val - n)) (List.filter (fun w => key_is k wd (at_ st w)) (chain st h)), st') /\
    same_waiters st st' /\ chain st' h = without_first (fun w => key_is k wd (at_ st w)) (Z.to_nat (val - n)) (chain st h) /\
    forall h', 0 <= h' < 64 -> h' <> h -> chain st' h' = chain st h'.
Proof.
  induction fuel as [|fuel IH]; intros st n h L F Hf; [lia|]. cbn [wake_loop]. pose proof (futex_hash_range k wd) as Hh. fold h in Hh.
  destruct (Z.leb_spec val n) as [Hv|Hv].
  { replace (Z.to_nat (val - n)) with 0%nat by lia. rewrite take_0. eexists. split_and!; [reflexivity|by repeat split|by rewrite without_first_0|done]. }
  unfold wake_one. fold h. destruct (walk_key_ok st k wd _ F) as [[-> N]|(a & w & b & E & -> & M & N)]; cbn [rbind].
  { rewrite (filter_none _ _ N), take_nil. eexists. split_and!; [reflexivity|by repeat split|by rewrite without_first_none|done]. }
  rewrite E in F, Hf. apply Forall_app in F as [Fa [Fw Fb]%list.Forall_cons].
  set (st1 := upd_waiter set_woken w (set_chain h (a ++ b) st)).
  assert (S1 : same_waiters st st1) by (by apply (same_waiters_upd set_woken w (set_chain h (a ++ b) st))).
  assert (C1 : chain st1 h = a ++ b). { change (chain st1 h) with (chain (set_chain h (a ++ b) st) h). rewrite chain_set by done. by rewrite Z.eqb_refl. }
  destruct S1 as [SL SV].
  destruct (IH st1 (n + 1)) as (st' & E' & S' & C' & O').
  { cbn. by rewrite length_zalter. }
  { fold h. rewrite C1. apply Forall_app. split; [eapply list.Forall_impl; [exact Fa|]|eapply list.Forall_impl; [exact Fb|]];
      cbv beta; intros v Hx; by rewrite (proj1 (SV v)). }
  { fold h. rewrite C1, length_app. rewrite length_app in Hf. cbn in Hf. lia. }
  fold h in E', C', O'. rewrite C1 in E', C'. rewrite E'. cbn [rbind]. exists st'. split_and!.
  - do 2 f_equal. rewrite E, !List.filter_app. cbn [List.filter]. rewrite M.
    rewrite (List.filter_ext (fun w => key_is k wd (at_ st1 w)) (fun w => key_is k wd (at_ st w)) (fun v => proj2 (proj2 (SV v)) k wd) a).
    rewrite !(filter_none _ a N). cbn [app].
    replace (Z.to_nat (val - n)) with (S (Z.to_nat (val - (n + 1)))) by lia. rewrite firstn_cons, fmap_cons. f_equal.
    erewrite List.filter_ext; [apply list_fmap_ext; intros; apply SV|]. intros v. apply SV.
  - eapply same_waiters_trans; [split; [exact SL|exact SV]|exact S'].
  - rewrite C', E. replace (Z.to_nat (val - n)) with (S (Z.to_nat (val - (n + 1)))) by lia. rewrite without_first_app by done.
    rewrite without_first_skip.
    + f_equal. apply without_first_ext. intros v. apply SV.
    + eapply list.Forall_impl; [exact N|]. cbv beta. intros v Hx. by rewrite (proj2 (proj2 (SV v))).
  - intros h' Hh' Hne. rewrite O' by done. change (chain st1 h') with (chain (set_chain h (a ++ b) st) h'). rewrite chain_set by done.
    by replace (h' =? h) with false by lia.
Qed.

Lemma take_min val (l : list nat) : 0 <= val -> take (Z.to_nat val) l = take (Z.to_nat (Z.min val (Z.of_nat (length l)))) l.
Proof.
  intros H. destruct (Z.le_ge_cases val (Z.of_nat (length l))); [by rewrite Z.min_l|].
  rewrite Z.min_r, Nat2Z.id by done. rewrite !take_ge; lia || done.
Qed.
Lemma without_first_all p n l : (length (List.filter p l) <= n)%nat -> without_first p n l = List.filter (fun x => negb (p x)) l.
Proof.
  revert n. induction l as [|x l IH]; intros n H; [by destruct n|]. cbn [List.filter] in *. destruct (p x) eqn:E; cbn [negb].
  - destruct n; cbn in H; [lia|]. cbn. rewrite E. apply IH. lia.
  - destruct n; cbn [without_first]; [|rewrite E; f_equal; by apply IH]. f_equal. rewrite <- (IH 0%nat) by done. by rewrite without_first_0.
Qed.
Lemma without_first_min p val l : 0 <= val -> without_first p (Z.to_nat val) l = without_first p (Z.to_nat (Z.min val (Z.of_nat (length (List.filter p l))))) l.
Proof.
  intros H. destruct (Z.le_ge_cases val (Z.of_nat (length (List.filter p l)))); [by rewrite Z.min_l|].
  rewrite Z.min_r, Nat2Z.id by done. rewrite !without_first_all; lia || done.
Qed.
Lemma count_wake_chain uaddr n st h : chain (count_wake uaddr n st) h = chain st h.
Proof. unfold count_wake. by destruct (n =? 0). Qed.
(** (Functional.)  Where no waiter of the bucket has been freed, a wake of [val]
    waiters at a word returns and does exactly what it says.  Of the waiters at
    the word's key it takes the first [val] of the bucket, which holds the newest
    first, or all if there are fewer; those are the tasks it goes on to wake.  It
    returns how many they are, plus what the rest of the budget wakes in io_uring.
    The other waiters keep their place, and no other bucket changes. *)
Theorem futex_wake_exact st e uaddr val priv uring :
  let k := futex_key_pml4_for e uaddr priv in let wd := futex_key_word_for e uaddr priv in let h := futex_hash k wd in
  let at_key w := key_is k wd (at_ st w) in
  let candidates := List.filter at_key (chain st h) in
  let n := Z.min val (Z.of_nat (length candidates)) in
  length (g_futex st) = 64%nat -> Forall (fun w => live (at_ st w) = true) (chain st h) -> Z.land uaddr 3 = 0 -> 0 < val ->
  exists st', futex_wake e st uaddr val priv uring
      = Ok (n + (if n <? val then uring (val - n) else 0), st', (fun w => task_id (at_ st w)) <$> take (Z.to_nat n) candidates) /\
    chain st' h = without_first at_key (Z.to_nat n) (chain st h) /\
    forall h', 0 <= h' < 64 -> h' <> h -> chain st' h' = chain st h'.
Proof.
  intros k wd h at_key candidates n L Lv Hal Hv. pose proof (futex_hash_range k wd) as Hh.
  unfold futex_wake. rewrite Hal. cbn [Z.eqb negb]. replace (val <? 0) with false by lia. replace (val =? 0) with false by lia. fold k wd h.
  destruct (note_all wd (chain st h) st Lv) as (st1 & E1 & [SL SV] & G1). rewrite E1. cbn [rbind].
  assert (C1 : forall h', chain st1 h' = chain st h') by (intros; unfold chain; by rewrite G1).
  destruct (wake_loop_spec k wd val (S (length (chain st1 h))) st1 0) as (st2 & E2 & _ & C2 & O2).
  { by rewrite G1. }
  { fold h. rewrite C1. eapply list.Forall_impl; [exact Lv|]. cbv beta. intros w Hw. by rewrite (proj1 (SV w)). }
  { fold h. lia. }
  rewrite C1, Z.sub_0_r in E2. rewrite C1, Z.sub_0_r in C2. fold h in E2, C2, O2.
  rewrite (List.filter_ext _ at_key (fun v => proj2 (proj2 (SV v)) k wd)), take_min in E2 by lia.
  rewrite (without_first_ext _ at_key), without_first_min in C2 by (lia || intros v; apply SV). fold candidates n in E2, C2.
  rewrite (list_fmap_ext _ (fun w => task_id (at_ st w)) _ (fun _ x _ => proj1 (proj2 (SV x)))) in E2.
  rewrite C1. rewrite C1 in E2. rewrite E2. cbn [rbind].
  eexists. split_and!; [|rewrite count_wake_chain; exact C2|intros h' Hh' Hne; rewrite count_wake_chain, O2 by done; apply C1].
  rewrite length_fmap, length_take. match goal with |- context [Z.of_nat ?m] => replace (Z.of_nat m) with n by (unfold n, candidates, h; lia) end.
  do 3 f_equal. destruct (n <? val); lia.
Qed.
(** Witness: one task waits at the word, and a wake of three takes it. *)
Lemma futex_wake_exact_witness :
  exists st', futex_wake demo_env waiting_state 8192 3 true (fun _ => 0) = Ok (1, st', [7]) /\ chain st' 1 = [].
Proof.
  destruct (futex_wake_exact waiting_state demo_env 8192 3 true (fun _ => 0)) as (st' & E & C & _);
    [reflexivity|vm_compute; repeat constructor|reflexivity|reflexivity|]. exists st'. split; [exact E|exact C].
Defined.

(** ** Requeues end *)


(** ** Keys *)

(** A word in a shared mapping of a file: the first mapping that covers it. *)
Definition shared_word (e : futex_env) (u : Z) (v : vm_area) (o : Z * Z) : Prop :=
  (exists i, first_index (fun v => negb ((u <? v_start v) || (v_end v <=? u))) (vma_list e) = Some i /\ vma_list e !! i = Some v) /\
  v_inode v = Some o /\ (v_flags v &? MAP_SHARED) = true /\
  ((pte_of e (page_of u) &? Shm.VMM_PRESENT) && negb (pte_of e (page_of u) &? Shm.VMM_SHARED)) = false.
Lemma shared_word_key e u v ino fsid : shared_word e u v (ino, fsid) ->
  futex_shared_key e u = Some (Z.lor (Z.lxor (u64 (ino * 11400714819323198485)) (u64 (fsid * 14321992610082861859))) 1, u64 (v_offset v + u64 (u - v_start v))).
Proof. intros ((i & F & L) & I & M & P). unfold futex_shared_key. by rewrite P, F, L, I, M. Qed.
Lemma odd_lor x : Z.odd (Z.lor x 1) = true.
Proof. rewrite <- Z.bit0_odd, Z.lor_spec. by rewrite orb_true_r. Qed.

(** (Equivalence.)  Two processes that map the same offset of the same file
    shared, at whatever addresses, wait and wake on the same key and in the same
    bucket.  A private word of any address space is never mistaken for it. *)
Theorem futex_keys_agree e1 u1 v1 e2 u2 v2 o :
  shared_word e1 u1 v1 o -> shared_word e2 u2 v2 o ->
  u64 (v_offset v1 + u64 (u1 - v_start v1)) = u64 (v_offset v2 + u64 (u2 - v_start v2)) ->
  let k e u := futex_key_pml4_for e u false in let w e u := futex_key_word_for e u false in
  (k e1 u1 = k e2 u2 /\ w e1 u1 = w e2 u2 /\ futex_hash (k e1 u1) (w e1 u1) = futex_hash (k e2 u2) (w e2 u2)) /\
  forall e3 u3, cur_pml4 e3 mod 4096 = 0 -> (pte_of e3 (page_of u3) &? Shm.VMM_SHARED) = false ->
    futex_key_pml4_for e3 u3 true <> k e1 u1.
Proof.
  destruct o as [ino fsid]. intros H1%shared_word_key H2%shared_word_key Ho k w. unfold k, w, futex_key_pml4_for, futex_key_word_for.
  rewrite H1, H2, Ho. split; [done|]. intros e3 u3 A P E. rewrite P, andb_false_r in E.
  apply (f_equal Z.odd) in E. rewrite odd_lor in E. rewrite (Z.div_mod (cur_pml4 e3) 4096), A, Z.add_0_r, Z.odd_mul in E; [done|lia].
Qed.
(** Witness: a page of one file, at different addresses. *)
Definition mapped_at (u : Z) : vm_area := mkVma u (u + 4096) MAP_SHARED (Some (12, 3)) 8192.
Lemma futex_keys_agree_witness :
  futex_key_pml4_for (mkEnv 1 4096 (fun _ => 0) [mapped_at 65536]) 65540 false
    = futex_key_pml4_for (mkEnv 2 8192 (fun _ => 0) [mapped_at 131072]) 131076 false.
Proof.
  apply (futex_keys_agree (mkEnv 1 4096 (fun _ => 0) [mapped_at 65536]) 65540 (mapped_at 65536)
           (mkEnv 2 8192 (fun _ => 0) [mapped_at 131072]) 131076 (mapped_at 131072) (12, 3)); [| |reflexivity];
    (split; [exists 0%nat; split; reflexivity|]); split_and!; reflexivity.
Defined.
End FutexProofs.
