(* ===== verification/FileLock.v ===== *)
(** Advisory file locks ([kernel/fs/filelock.c]): POSIX and open-file-description
    record locks in one table, with split, shrink and merge of ranges.

    Pointers that are only compared (the inode a lock applies to, the open file
    description that owns it) are identities in [Z], 0 being null.  The table is
    a list of 256 slots.  The blocking F_SETLKW is a loop whose sleeps are
    inputs, like in [SysvMsg]. *)
From S2P Require Import Prelude.
Local Open Scope Z_scope.
Local Open Scope kernel_scope.

Module FileLock.

Definition F_RDLCK := 0.
Definition F_WRLCK := 1.
Definition F_UNLCK := 2.
Definition F_GETLK := 5.
Definition F_SETLK := 6.
Definition F_SETLKW := 7.
Definition F_OFD_GETLK := 36.
Definition F_OFD_SETLK := 37.
Definition F_OFD_SETLKW := 38.
Definition LOCK_SH := 1.
Definition LOCK_EX := 2.
Definition LOCK_NB := 4.
Definition LOCK_UN := 8.
Definition SEEK_SET := 0.
Definition SEEK_CUR := 1.
Definition SEEK_END := 2.
Definition MAX_FILE_LOCKS : nat := 256.
(** [(u64)-1], the end of a lock to the end of file. *)
Definition U64_MAX : Z := 18446744073709551615.

Record flock := mkFlock { l_type : Z; l_whence : Z; l_start : Z; l_len : Z; l_pid : Z }.

Record file_lock := mkLock {
  inode : Z; pid : Z; ofd : Z; lock_type : Z; start : Z; len : Z; active : bool }.

Definition lock_zero : file_lock := mkLock 0 0 0 0 0 0 false.
#[global] Instance file_lock_inhabited : Inhabited file_lock := populate lock_zero.
Abbreviation table := (list file_lock).

Definition filelock_init : table := replicate MAX_FILE_LOCKS lock_zero.

Definition lock_is_mine (l : file_lock) (my_pid my_ofd : Z) : bool :=
  if my_ofd <>? 0 then ofd l =? my_ofd else (ofd l =? 0) && (pid l =? my_pid).

(** The first free slot, cleared and marked active. *)
Definition alloc_lock (t : table) : option nat := first_index (fun l => negb (active l)) t.
Definition free_lock (l : file_lock) : file_lock :=
  mkLock (inode l) (pid l) (ofd l) (lock_type l) (start l) (len l) false.
Definition set_range (s n : Z) (l : file_lock) : file_lock :=
  mkLock (inode l) (pid l) (ofd l) (lock_type l) s n (active l).

(** The last byte of a range; length 0 means to the end of file. *)
Definition range_end (s n : Z) : Z := if n <>? 0 then u64 (s + n - 1) else U64_MAX.
Definition lock_end (l : file_lock) : Z := range_end (start l) (len l).

Definition lock_overlaps (start1 len1 start2 len2 : Z) : bool :=
  (start1 <=? range_end start2 len2) && (start2 <=? range_end start1 len1).
Definition lock_conflicts (existing : file_lock) (ty : Z) : bool :=
  if (lock_type existing =? F_RDLCK) && (ty =? F_RDLCK) then false else true.

Definition can_merge (start1 len1 start2 len2 : Z) : bool :=
  let end1 := range_end start1 len1 in
  let end2 := range_end start2 len2 in
  if end1 =? U64_MAX then
    if start2 <? start1 then (end2 =? U64_MAX) || (start1 <=? u64 (end2 + 1)) else true
  else if end2 =? U64_MAX then
    if start1 <? start2 then start2 <=? u64 (end1 + 1) else true
  else (start1 <=? u64 (end2 + 1)) && (start2 <=? u64 (end1 + 1)).

(** The length stored for a range that ends at [e]. *)
Definition len_to (s e : Z) : Z := if e =? U64_MAX then 0 else u64 (e - s + 1).

(** A record of this owner on this inode. *)
Definition is_mine_on (ino my_pid my_ofd : Z) (l : file_lock) : bool :=
  active l && (inode l =? ino) && lock_is_mine l my_pid my_ofd.

(** ** merge_adjacent_locks *)

Definition merged_lock (a b : file_lock) : file_lock :=
  let end1 := lock_end a in
  let end2 := lock_end b in
  let new_start := if start a <? start b then start a else start b in
  let new_end := if (end1 =? U64_MAX) || (end2 =? U64_MAX) then U64_MAX
                 else if end2 <? end1 then end1 else end2 in
  set_range new_start (len_to new_start new_end) a.

Definition mergeable (ino my_pid my_ofd : Z) (a b : file_lock) : bool :=
  is_mine_on ino my_pid my_ofd b && (lock_type a =? lock_type b)
  && can_merge (start a) (len a) (start b) (len b).

(** The first pair [i < j] the double loop finds. *)
Fixpoint find_pair (ino my_pid my_ofd : Z) (t : table) (i : nat) : option (nat * nat) :=
  match t with
  | [] => None
  | a :: t' =>
      if is_mine_on ino my_pid my_ofd a then
        match first_index (mergeable ino my_pid my_ofd a) t' with
        | Some k => Some (i, (i + S k)%nat)
        | None => find_pair ino my_pid my_ofd t' (S i)
        end
      else find_pair ino my_pid my_ofd t' (S i)
  end.

Definition merge_pair (t : table) (i j : nat) : table :=
  alter free_lock j (<[i := merged_lock (t !!! i) (t !!! j)]> t).

(** [do .. while (merged)]: each round frees a slot, so as many rounds as there
    are slots are enough. *)
Fixpoint merge_rounds (fuel : nat) (ino my_pid my_ofd : Z) (t : table) : option table :=
  match find_pair ino my_pid my_ofd t 0 with
  | None => Some t
  | Some (i, j) => match fuel with
                   | O => None
                   | S f => merge_rounds f ino my_pid my_ofd (merge_pair t i j)
                   end
  end.
Definition merge_fuel : nat := 256.
Definition merge_adjacent_locks (ino my_pid my_ofd : Z) (t : table) : option table :=
  merge_rounds merge_fuel ino my_pid my_ofd t.

(** ** Setting a range *)

Definition conflicts_with (ino my_pid my_ofd s n ty : Z) (l : file_lock) : bool :=
  active l && (inode l =? ino) && negb (lock_is_mine l my_pid my_ofd)
  && lock_overlaps (start l) (len l) s n && lock_conflicts l ty.
Definition filelock_conflict_exists (t : table) (ino my_pid my_ofd s n ty : Z) : bool :=
  existsb (conflicts_with ino my_pid my_ofd s n ty) t.

(** Cut [start, end] out of slot [i]; [false] when a split finds no free slot. *)
Definition cut_slot (ino my_pid my_ofd s n : Z) (i : nat) (t : table) : bool * table :=
  let e := range_end s n in
  let l := t !!! i in
  if is_mine_on ino my_pid my_ofd l && lock_overlaps (start l) (len l) s n then
    let L_end := lock_end l in
    if (start l <? s) && (e <? L_end) then
      match alloc_lock t with
      | None => (false, t)
      | Some j =>
          let s2 := u64 (e + 1) in
          (true, <[i := set_range (start l) (u64 (s - start l)) l]>
                   (<[j := mkLock ino my_pid my_ofd (lock_type l) s2 (len_to s2 L_end) true]> t))
      end
    else if (start l <? s) && (L_end <=? e) then (true, <[i := set_range (start l) (u64 (s - start l)) l]> t)
    else if (s <=? start l) && (e <? L_end)
    then let s2 := u64 (e + 1) in (true, <[i := set_range s2 (len_to s2 L_end) l]> t)
    else (true, <[i := free_lock l]> t)
  else (true, t).
Fixpoint cut_loop (ino my_pid my_ofd s n : Z) (todo i : nat) (t : table) : bool * table :=
  match todo with
  | O => (true, t)
  | S k => match cut_slot ino my_pid my_ofd s n i t with
           | (false, t') => (false, t')
           | (true, t') => cut_loop ino my_pid my_ofd s n k (S i) t'
           end
  end.

Definition free_slots (t : table) : Z := Z.of_nat (count_if (fun l => negb (active l)) t).
Definition needs_split (t : table) (ino my_pid my_ofd s n : Z) : bool :=
  existsb (fun l => is_mine_on ino my_pid my_ofd l && (start l <? s) && (range_end s n <? lock_end l)) t.

(** From the capacity check to the end of the critical section; [None] stands
    for a merge that has not ended. *)
Definition apply_lock (t : table) (ino my_pid my_ofd s n ty : Z) : option (Z * table) :=
  let split := needs_split t ino my_pid my_ofd s n in
  let short := if ty =? F_UNLCK then split && (free_slots t <? 1)
               else (split && (free_slots t <? 2)) || (negb split && (free_slots t <? 1)) in
  if short then Some (- ENOMEM, t)
  else
    match cut_loop ino my_pid my_ofd s n MAX_FILE_LOCKS 0 t with
    | (false, t1) => Some (- ENOMEM, t1)
    | (true, t1) =>
        if ty =? F_UNLCK then Some (0, t1)
        else match alloc_lock t1 with
             | None => Some (- ENOMEM, t1)
             | Some j =>
                 match merge_adjacent_locks ino my_pid my_ofd
                         (<[j := mkLock ino my_pid my_ofd ty s n true]> t1) with
                 | Some t2 => Some (0, t2)
                 | None => None
                 end
             end
    end.

(** ** fcntl *)

(** What [scheduler_fd_get] finds: the open file description, and the inode and
    size behind it if it has one. *)
Record handle := mkHandle { h_id : Z; h_offset : Z; h_inode : option (Z * Z) }.

Definition lock_scope (h : handle) : Z := match h_inode h with Some (i, _) => i | None => h_id h end.
Definition lock_start (h : handle) (fl : flock) : Z :=
  if l_whence fl =? SEEK_CUR then u64 (h_offset h + l_start fl)
  else if l_whence fl =? SEEK_END
  then u64 (match h_inode h with Some (_, size) => size | None => 0 end + l_start fl)
  else l_start fl.

Definition getlk (t : table) (ino my_pid my_ofd s : Z) (fl : flock) : flock :=
  match first_index (conflicts_with ino my_pid my_ofd s (l_len fl) (l_type fl)) t with
  | Some i =>
      let c := t !!! i in
      mkFlock (lock_type c) SEEK_SET (start c) (len c) (if ofd c <>? 0 then -1 else pid c)
  | None => mkFlock F_UNLCK (l_whence fl) (l_start fl) (l_len fl) (l_pid fl)
  end.

Inductive wait := Interrupted | Slept (meanwhile : table -> table).
Inductive outcome := Done (rc : Z) | Waiting | Unfinished.

(** The wait of F_SETLKW.  The test after [scheduler_wait_prepare] runs under the
    same lock as the loop's and answers the same, so the wait is committed. *)
Fixpoint wait_lock (ino my_pid my_ofd s n ty : Z) (waits : list wait) (t : table) : outcome * table :=
  if filelock_conflict_exists t ino my_pid my_ofd s n ty then
    match waits with
    | [] => (Waiting, t)
    | Interrupted :: _ => (Done (- ERESTARTSYS), t)
    | Slept f :: waits' => wait_lock ino my_pid my_ofd s n ty waits' (f t)
    end
  else match apply_lock t ino my_pid my_ofd s n ty with
       | Some (rc, t') => (Done rc, t')
       | None => (Unfinished, t)
       end.

Definition filelock_do (initialized : bool) (t : table) (fd : Z) (ho : option handle) (cmd : Z) (fl : flock)
    (my_pid my_ofd : Z) (waits : list wait) : outcome * table * flock :=
  if negb initialized || (fd <? 0) then (Done (- EINVAL), t, fl)
  else match ho with
  | None => (Done (- EBADF), t, fl)
  | Some h =>
      let ino := lock_scope h in
      let s := lock_start h fl in
      if cmd =? F_GETLK then (Done 0, t, getlk t ino my_pid my_ofd s fl)
      else if l_type fl <>? F_UNLCK then
        if filelock_conflict_exists t ino my_pid my_ofd s (l_len fl) (l_type fl) && (cmd =? F_SETLK)
        then (Done (- EAGAIN), t, fl)
        else (wait_lock ino my_pid my_ofd s (l_len fl) (l_type fl) waits t, fl)
      else match apply_lock t ino my_pid my_ofd s (l_len fl) (l_type fl) with
           | Some (rc, t') => (Done rc, t', fl)
           | None => (Unfinished, t, fl)
           end
  end.

Definition filelock_set_lock initialized t fd ho cmd fl my_pid waits :=
  filelock_do initialized t fd ho cmd fl my_pid 0 waits.

Definition filelock_set_lock_ofd (initialized : bool) (t : table) (fd : Z) (ho : option handle) (cmd : Z)
    (fl : flock) (my_pid : Z) (waits : list wait) : outcome * table * flock :=
  match ho with
  | None => (Done (- EBADF), t, fl)
  | Some h =>
      let base := if cmd =? F_OFD_GETLK then Some F_GETLK
                  else if cmd =? F_OFD_SETLK then Some F_SETLK
                  else if cmd =? F_OFD_SETLKW then Some F_SETLKW else None in
      match base with
      | None => (Done (- EINVAL), t, fl)
      | Some b => if l_pid fl <>? 0 then (Done (- EINVAL), t, fl)
                  else filelock_do initialized t fd ho b fl my_pid (h_id h) waits
      end
  end.

(** ** Release, test, flock *)

Definition filelock_release_all_by_ofd (initialized : bool) (t : table) (o : Z) : table :=
  if negb initialized || (o =? 0) then t
  else map (fun l => if active l && (ofd l =? o) then free_lock l else l) t.

Definition filelock_release_all_by_pid_inode (initialized : bool) (t : table) (p ino : Z) : table :=
  if negb initialized || (ino =? 0) then t
  else map (fun l => if active l && (inode l =? ino) && (pid l =? p) then free_lock l else l) t.

(** [node] is the inode of the node behind the descriptor, if there is one. *)
Definition filelock_unlock (initialized : bool) (t : table) (fd : Z) (node : option Z) (my_pid : Z) : Z * table :=
  if negb initialized || (fd <? 0) then (- EINVAL, t)
  else match node with
       | None => (- EBADF, t)
       | Some ino => (0, filelock_release_all_by_pid_inode initialized t my_pid ino)
       end.

(** The pid of the first conflicting record of another process. *)
Definition filelock_check_lock (initialized : bool) (t : table) (fd : Z) (node : option Z)
    (my_pid ty s n : Z) : option Z :=
  if negb initialized || (fd <? 0) then None
  else match node with
       | None => None
       | Some ino =>
           match first_index (fun l => active l && (inode l =? ino) && (pid l <>? my_pid)
                                       && lock_overlaps (start l) (len l) s n && lock_conflicts l ty) t with
           | Some i => Some (pid (t !!! i))
           | None => None
           end
       end.

Definition filelock_flock (initialized : bool) (t : table) (fd : Z) (ho : option handle) (operation my_pid : Z)
    (waits : list wait) : outcome * table * flock :=
  let none := mkFlock 0 0 0 0 my_pid in
  if negb initialized || (fd <? 0) then (Done (- EINVAL), t, none)
  else
    let op := Z.land operation (Z.lnot LOCK_NB) in
    let ty := if op =? LOCK_SH then Some F_RDLCK else if op =? LOCK_EX then Some F_WRLCK
              else if op =? LOCK_UN then Some F_UNLCK else None in
    match ty with
    | None => (Done (- EINVAL), t, none)
    | Some ty => filelock_set_lock initialized t fd ho (if operation &? LOCK_NB then F_SETLK else F_SETLKW)
                   (mkFlock ty 0 0 0 my_pid) my_pid waits
    end.

End FileLock.
