(* ===== verification/FileLockProofs.v ===== *)
(** Properties of the lock table: what each owner holds byte by byte after a
    request, mutual exclusion, and that the capacity check makes the rest of a
    request succeed. *)
From S2P Require Import Prelude FileLock.
Local Open Scope Z_scope.
Local Open Scope kernel_scope.

Module FileLockProofs.
Import FileLock.

(** ** The abstract view: who holds which byte *)

(** An owner is a process, or an open file description. *)
Definition owner_of (l : file_lock) : Z * Z := if ofd l =? 0 then (pid l, 0) else (0, ofd l).
Definition me (my_pid my_ofd : Z) : Z * Z := if my_ofd =? 0 then (my_pid, 0) else (0, my_ofd).

Definition range_ok (s n : Z) : Prop := 0 <= s <= U64_MAX /\ 0 <= n <= U64_MAX /\ s + n - 1 <= U64_MAX.
Definition in_range_of (s n b : Z) : Prop := s <= b <= range_end s n.
Definition covers (l : file_lock) (b : Z) : Prop := in_range_of (start l) (len l) b.

Definition entry_holds (l : file_lock) (ino : Z) (o : Z * Z) (b ty : Z) : Prop :=
  active l = true /\ inode l = ino /\ owner_of l = o /\ covers l b /\ lock_type l = ty.
(** Owner [o] holds byte [b] of [ino] with type [ty]. *)
Definition holds (t : table) (ino : Z) (o : Z * Z) (b ty : Z) : Prop :=
  exists i l, t !! i = Some l /\ entry_holds l ino o b ty.

Definition lock_ok (l : file_lock) : Prop :=
  active l = true -> range_ok (start l) (len l) /\ (lock_type l = F_RDLCK \/ lock_type l = F_WRLCK).
(** One owner's records on an inode do not overlap. *)
Definition disjoint (t : table) : Prop :=
  forall i j a c b, t !! i = Some a -> t !! j = Some c -> active a = true -> active c = true ->
    inode a = inode c -> owner_of a = owner_of c -> covers a b -> covers c b -> i = j.
Record tab_ok (t : table) : Prop := {
  ok_len : length t = MAX_FILE_LOCKS;
  ok_locks : Forall lock_ok t;
  ok_disjoint : disjoint t }.
(** A byte held by two owners is held for reading by both. *)
Definition exclusive (t : table) : Prop :=
  forall ino b o1 o2 t1 t2, holds t ino o1 b t1 -> holds t ino o2 b t2 -> o1 <> o2 ->
    t1 = F_RDLCK /\ t2 = F_RDLCK.

(** ** Ranges *)

Lemma range_end_ok s n : range_ok s n ->
  s <= range_end s n <= U64_MAX /\ (n <> 0 -> range_end s n = s + n - 1) /\ (n = 0 -> range_end s n = U64_MAX).
Proof.
  unfold range_ok, range_end, U64_MAX. intros (Hs & Hn & He). destruct (Z.eqb_spec n 0); simpl; [lia|].
  rewrite u64_small by lia. lia.
Qed.
Lemma len_to_ok s e : 0 <= s <= e -> e <= U64_MAX -> range_ok s (len_to s e) /\ range_end s (len_to s e) = e.
Proof.
  unfold range_ok, range_end, len_to, U64_MAX. intros Hs He. destruct (Z.eqb_spec e 18446744073709551615) as [->|]; simpl; [lia|].
  rewrite (u64_small (e - s + 1)) by lia. destruct (Z.eqb_spec (e - s + 1) 0); simpl; [lia|].
  rewrite u64_small by lia. lia.
Qed.
Lemma head_ok s l e : 0 <= s < l -> l <= e -> e <= U64_MAX ->
  range_ok s (u64 (l - s)) /\ range_end s (u64 (l - s)) = l - 1.
Proof.
  unfold range_ok, range_end, U64_MAX. intros Hs Hl He. rewrite (u64_small (l - s)) by lia.
  destruct (Z.eqb_spec (l - s) 0); simpl; [lia|]. rewrite u64_small by lia. lia.
Qed.

Lemma overlaps_spec s1 n1 s2 n2 : range_ok s1 n1 -> range_ok s2 n2 ->
  lock_overlaps s1 n1 s2 n2 = true <-> exists b, in_range_of s1 n1 b /\ in_range_of s2 n2 b.
Proof.
  intros H1%range_end_ok H2%range_end_ok. unfold lock_overlaps, in_range_of. rewrite andb_true_iff, !Z.leb_le. split.
  - intros [Ha Hb]. exists (Z.max s1 s2). lia.
  - intros (b & Hb1 & Hb2). lia.
Qed.

Lemma lock_is_mine_spec l p o : lock_is_mine l p o = true <-> owner_of l = me p o.
Proof.
  unfold lock_is_mine, owner_of, me. destruct (Z.eqb_spec o 0) as [->|Ho]; simpl.
  - rewrite andb_true_iff, !Z.eqb_eq. destruct (Z.eqb_spec (ofd l) 0) as [E|E].
    + split; [intros [_ ->]; done|]. intros [= ->]. done.
    + split; [intros [? _]; done|]. intros [= H1 H2]. congruence.
  - rewrite Z.eqb_eq. destruct (Z.eqb_spec (ofd l) 0) as [E|E].
    + split; [congruence|]. intros [= H1 H2]. congruence.
    + split; [by intros ->|]. by intros [= ->].
Qed.
Lemma is_mine_on_spec ino p o l :
  is_mine_on ino p o l = true <-> active l = true /\ inode l = ino /\ owner_of l = me p o.
Proof. unfold is_mine_on. rewrite !andb_true_iff, Z.eqb_eq, lock_is_mine_spec. tauto. Qed.

(** ** Replacing one slot *)

Definition others_hold (t : table) (i : nat) (ino : Z) (o : Z * Z) (b ty : Z) : Prop :=
  exists j l, j <> i /\ t !! j = Some l /\ entry_holds l ino o b ty.

Lemma holds_split t i l ino o b ty :
  t !! i = Some l -> holds t ino o b ty <-> entry_holds l ino o b ty \/ others_hold t i ino o b ty.
Proof.
  intros Hi. split.
  - intros (j & x & Hj & Hx). destruct (decide (j = i)) as [->|]; [left; congruence|right; by exists j, x].
  - intros [H|(j & x & _ & Hj & Hx)]; [by exists i, l|by exists j, x].
Qed.
Lemma holds_insert t i l ino o b ty :
  (i < length t)%nat -> holds (<[i := l]> t) ino o b ty <-> entry_holds l ino o b ty \/ others_hold t i ino o b ty.
Proof.
  intros Hi. rewrite (holds_split _ i l) by by apply list_lookup_insert_eq.
  assert (Ho : others_hold (<[i := l]> t) i ino o b ty <-> others_hold t i ino o b ty); [|tauto].
  split; intros (j & x & Hj & Hx & He); exists j, x; split_and!; try done;
    [by rewrite list_lookup_insert_ne in Hx|by rewrite list_lookup_insert_ne].
Qed.
Lemma inactive_holds l ino o b ty : active l = false -> ~ entry_holds l ino o b ty.
Proof. intros Hl [Ha _]. congruence. Qed.

(** A slot replaced by one that covers no more for the same owner. *)
Definition shrinks (l l' : file_lock) : Prop :=
  active l' = true -> active l = true /\ inode l' = inode l /\ owner_of l' = owner_of l /\ forall b, covers l' b -> covers l b.

Lemma disjoint_insert_shrink t i l l' :
  disjoint t -> t !! i = Some l -> shrinks l l' -> disjoint (<[i := l']> t).
Proof.
  intros Hd Hi Hs j k a c b Hj Hk Ha Hc Hn Ho Hab Hcb.
  apply list_lookup_insert_Some in Hj as [(<- & <- & _)|[Hji Hj]];
    apply list_lookup_insert_Some in Hk as [(<- & <- & _)|[Hki Hk]]; try done.
  - destruct (Hs Ha) as (S1 & S2 & S3 & S4). apply (Hd i k l c b); auto; congruence.
  - destruct (Hs Hc) as (S1 & S2 & S3 & S4). apply (Hd j i a l b); auto; congruence.
  - by eapply Hd.
Qed.

(** A free slot filled with a range nobody of the owner covers. *)
Lemma disjoint_insert_new t i l l' :
  disjoint t -> t !! i = Some l -> active l = false ->
  (forall b, covers l' b -> forall ty, ~ holds t (inode l') (owner_of l') b ty) -> disjoint (<[i := l']> t).
Proof.
  intros Hd Hi Hl Hn j k a c b Hj Hk Ha Hc Hin Ho Hab Hcb.
  apply list_lookup_insert_Some in Hj as [(<- & <- & _)|[Hji Hj]];
    apply list_lookup_insert_Some in Hk as [(<- & <- & _)|[Hki Hk]]; try done.
  - exfalso. apply (Hn b Hab (lock_type c)). exists k, c. by split_and!.
  - exfalso. apply (Hn b Hcb (lock_type a)). exists j, a. by split_and!.
  - by eapply Hd.
Qed.

(** Filling a free slot. *)
Lemma holds_add t j x l ino o b ty :
  t !! j = Some x -> active x = false ->
  holds (<[j := l]> t) ino o b ty <-> entry_holds l ino o b ty \/ holds t ino o b ty.
Proof.
  intros Hj Hx. rewrite holds_insert by by eapply lookup_lt_Some. rewrite (holds_split t j x) by done.
  pose proof (inactive_holds x ino o b ty Hx). tauto.
Qed.
Lemma alloc_lock_Some t j : alloc_lock t = Some j -> exists x, t !! j = Some x /\ active x = false.
Proof. intros (x & Hx & Hp & _)%first_index_Some. bools. by exists x. Qed.

(** ** Cutting a range out of the owner's records *)

Section Cut.
Context (ino p o s n : Z).
Hypothesis Hrange : range_ok s n.

Definition mine (l : file_lock) : Prop := is_mine_on ino p o l = true.
Definition in_req (b : Z) : Prop := in_range_of s n b.
(** Slot [k] still overlaps the request; slot [k] contains it strictly. *)
Definition hits (t : table) (k : nat) : Prop := exists l b, t !! k = Some l /\ mine l /\ covers l b /\ in_req b.
Definition strict (t : table) (k : nat) : Prop :=
  exists l, t !! k = Some l /\ mine l /\ start l < s /\ range_end s n < lock_end l.
Definition free_count (t : table) : nat := count_if (fun l => negb (active l)) t.

Lemma mine_covers_range l : lock_ok l -> mine l -> range_ok (start l) (len l).
Proof. intros Hok Hm. apply is_mine_on_spec in Hm as (Ha & _). by apply Hok. Qed.

Lemma strict_hits t k : Forall lock_ok t -> strict t k -> hits t k.
Proof.
  intros Hok (l & Hk & Hm & Hs & He). exists l, s. split_and!; try done; unfold covers, in_req, in_range_of;
    pose proof (range_end_ok _ _ Hrange); fold (lock_end l); lia.
Qed.
Lemma strict_unique t j k : tab_ok t -> strict t j -> strict t k -> j = k.
Proof.
  intros [_ Hok Hd] (a & Hj & Hma & Ha1 & Ha2) (c & Hk & Hmc & Hc1 & Hc2).
  apply is_mine_on_spec in Hma as (A1 & A2 & A3), Hmc as (C1 & C2 & C3).
  pose proof (range_end_ok _ _ Hrange).
  apply (Hd j k a c s); try done; try congruence; unfold covers, in_range_of; fold (lock_end a) (lock_end c); lia.
Qed.

(** The part of the result that a cut of slot [i] promises. *)
Record cut_result (i : nat) (t t' : table) : Prop := {
  cut_ok : tab_ok t';
  cut_sub : forall x w b ty, holds t' x w b ty -> holds t x w b ty;
  cut_keep : forall x w b ty, holds t x w b ty -> ~ (x = ino /\ w = me p o /\ in_req b) -> holds t' x w b ty;
  cut_hits : forall k, hits t' k -> hits t k /\ k <> i;
  cut_strict : forall k, strict t' k -> strict t k /\ k <> i;
  cut_free : (free_count t <= free_count t')%nat \/ (strict t i /\ free_count t = S (free_count t')) }.

(** Replacing the record by the piece of it outside the request. *)
Lemma cut_shrink t i l l' :
  tab_ok t -> t !! i = Some l -> mine l -> shrinks l l' -> lock_ok l' ->
  (active l' = true -> lock_type l' = lock_type l) ->
  (forall b, covers l b -> ~ in_req b -> active l' = true /\ covers l' b) ->
  (forall b, active l' = true -> covers l' b -> ~ in_req b) ->
  cut_result i t (<[i := l']> t).
Proof.
  intros Ht Hi Hm Hs Hok Hty Hkeep Hout. assert (Hlt : (i < length t)%nat) by by eapply lookup_lt_Some.
  apply is_mine_on_spec in Hm as (M1 & M2 & M3). constructor.
  - constructor; [rewrite length_insert; apply Ht|apply Forall_insert; [apply Ht|done]|].
    eapply disjoint_insert_shrink; [apply Ht|done|done].
  - intros x w b ty. rewrite holds_insert, (holds_split t i l) by done.
    intros [(H1 & H2 & H3 & H4 & H5)|?]; [left|by right]. destruct (Hs H1) as (S1 & S2 & S3 & S4).
    rewrite <- H2, <- H3, <- H5, S2, S3, (Hty H1). split_and!; auto.
  - intros x w b ty. rewrite holds_insert, (holds_split t i l) by done.
    intros [(H1 & H2 & H3 & H4 & H5)|?] Hno; [left|by right].
    destruct (Hkeep b H4) as [K1 K2]; [intros Hb; apply Hno; split_and!; congruence|].
    destruct (Hs K1) as (S1 & S2 & S3 & S4). split_and!; try done; [congruence|congruence|]. by rewrite (Hty K1).
  - intros k (a & b & Hk & Hma & Hc & Hb). apply list_lookup_insert_Some in Hk as [(-> & <- & _)|[Hne Hk]].
    + apply is_mine_on_spec in Hma as (A1 & _). by destruct (Hout b A1 Hc).
    + split; [by exists a, b|done].
  - intros k (a & Hk & Hma & H1 & H2). apply list_lookup_insert_Some in Hk as [(-> & <- & _)|[Hne Hk]].
    + apply is_mine_on_spec in Hma as (A1 & _). pose proof (range_end_ok _ _ Hrange).
      destruct (Hout s A1); unfold covers, in_req, in_range_of; fold (lock_end l'); lia.
    + split; [by exists a|done].
  - left. unfold free_count. pose proof (count_if_insert (fun l => negb (active l)) t i l l' Hi) as Hc.
    simpl in Hc. rewrite M1 in Hc. simpl in Hc. lia.
Qed.

(** Splitting the record in two around the request. *)
Lemma cut_split t i j l x :
  tab_ok t -> t !! i = Some l -> mine l -> start l < s -> range_end s n < lock_end l ->
  t !! j = Some x -> active x = false ->
  cut_result i t
    (<[i := set_range (start l) (u64 (s - start l)) l]>
       (<[j := mkLock ino p o (lock_type l) (u64 (range_end s n + 1))
                 (len_to (u64 (range_end s n + 1)) (lock_end l)) true]> t)).
Proof.
  intros Ht Hi Hm Hs He Hj Hx. pose proof (range_end_ok _ _ Hrange) as (Hse & _).
  assert (Hlr := mine_covers_range l (Forall_lookup_1 _ _ _ _ (ok_locks _ Ht) Hi) Hm).
  pose proof (range_end_ok _ _ Hlr) as (Hle & _). fold (lock_end l) in Hle. assert (Hl0 : 0 <= start l) by apply Hlr.
  apply is_mine_on_spec in Hm as (M1 & M2 & M3).
  assert (Hij : i <> j) by (intros ->; congruence).
  rewrite (u64_small (range_end s n + 1)) by (unfold U64_MAX in *; lia).
  set (hd := set_range _ _ l). set (tl := mkLock _ _ _ _ _ _ _).
  destruct (head_ok (start l) s (range_end s n)) as [Hh1 Hh2]; [lia|lia|lia|].
  destruct (len_to_ok (range_end s n + 1) (lock_end l)) as [Ht1 Ht2]; [lia|lia|].
  assert (Hhc : forall b, covers hd b <-> start l <= b < s) by (intros b; unfold covers, in_range_of; simpl; rewrite Hh2; lia).
  assert (Htc : forall b, covers tl b <-> range_end s n < b <= lock_end l)
    by (intros b; unfold covers, in_range_of; simpl; rewrite Ht2; lia).
  assert (Htl_own : owner_of tl = owner_of l) by (rewrite M3; unfold owner_of, tl, me; simpl; by destruct (o =? 0)).
  assert (Hlok := Forall_lookup_1 _ _ _ _ (ok_locks _ Ht) Hi).
  rewrite list_insert_insert_ne by done. set (t1 := <[i := hd]> t).
  assert (Hd1 : disjoint t1).
  { apply (disjoint_insert_shrink t i l); [apply Ht|done|]. intros _. split_and!; try done.
    intros b Hb. apply Hhc in Hb. unfold covers, in_range_of. fold (lock_end l). lia. }
  assert (Hj1 : t1 !! j = Some x) by (unfold t1; by rewrite list_lookup_insert_ne).
  assert (Hlt : (i < length t)%nat) by by eapply lookup_lt_Some.
  assert (Hh : forall y w b ty, holds (<[j := tl]> t1) y w b ty <->
            (entry_holds l y w b ty /\ ~ in_req b) \/ others_hold t i y w b ty).
  { intros y w b ty. rewrite (holds_add t1 j x) by done. unfold t1. rewrite holds_insert by done.
    unfold entry_holds. rewrite Hhc, Htc, Htl_own. unfold covers, in_req, in_range_of. fold (lock_end l).
    simpl. rewrite M1, M2. split.
    - intros [(_ & ? & ? & ? & ?)|[(_ & ? & ? & ? & ?)|?]]; [left; split_and!; try done; lia..|by right].
    - intros [[(_ & ? & ? & ? & ?) Hn]|?]; [|by right; right]. destruct (decide (b < s)); [right; left|left]; split_and!; try done; lia. }
  constructor.
  - constructor.
    + unfold t1; rewrite !length_insert. apply Ht.
    + apply Forall_insert; [apply Forall_insert; [apply Ht|]|].
      * intros _. split; [exact Hh1|]. by apply Hlok.
      * intros _. split; [exact Ht1|]. by apply Hlok.
    + apply (disjoint_insert_new t1 j x); [done|done|done|]. intros b Hb%Htc ty. unfold t1. rewrite holds_insert by done.
      intros [(_ & _ & _ & Hc%Hhc & _)|(k & a & Hk & Ha & A1 & A2 & A3 & A4 & A5)]; [lia|].
      apply Hk. apply (ok_disjoint _ Ht k i a l b); try done; [simpl in A2; congruence|congruence|].
      unfold covers, in_range_of. fold (lock_end l). lia.
  - intros y w b ty. rewrite Hh, (holds_split t i l) by done. tauto.
  - intros y w b ty. rewrite Hh, (holds_split t i l) by done. intros [H|H] Hno; [left|by right].
    split; [done|]. intros Hb. apply Hno. destruct H as (_ & H1 & H2 & _). split_and!; congruence.
  - intros k (a & b & Hk & Hma & Hc & Hb). unfold in_req, in_range_of in Hb.
    apply list_lookup_insert_Some in Hk as [(-> & <- & _)|[Hne Hk]]; [apply Htc in Hc; lia|].
    apply list_lookup_insert_Some in Hk as [(-> & <- & _)|[Hne' Hk]]; [apply Hhc in Hc; lia|].
    split; [by exists a, b|done].
  - intros k (a & Hk & Hma & H1 & H2). assert (Hca : covers a s) by (unfold covers, in_range_of; fold (lock_end a); lia).
    apply list_lookup_insert_Some in Hk as [(-> & <- & _)|[Hne Hk]]; [apply Htc in Hca; lia|].
    apply list_lookup_insert_Some in Hk as [(-> & <- & _)|[Hne' Hk]]; [apply Hhc in Hca; lia|].
    split; [by exists a|done].
  - right. split; [exists l; split_and!; try done; by apply is_mine_on_spec|]. unfold free_count.
    pose proof (count_if_insert (fun l => negb (active l)) t1 j x tl Hj1) as Hc.
    pose proof (count_if_insert (fun l => negb (active l)) t i l hd Hi) as Hc'. fold t1 in Hc'.
    simpl in Hc, Hc'. rewrite Hx in Hc. rewrite M1 in Hc'. simpl in Hc, Hc'. lia.
Qed.

Lemma no_hit_result t i l :
  tab_ok t -> t !! i = Some l -> ~ (mine l /\ exists b, covers l b /\ in_req b) -> cut_result i t t.
Proof.
  intros Ht Hi Hn. assert (Hh : ~ hits t i).
  { intros (a & b & Ha & Hm & Hc & Hb). replace a with l in * by congruence. apply Hn. split; [done|by exists b]. }
  constructor; try done; [by intros k Hk; split; [|intros ->]| |by left].
  intros k Hk. split; [done|]. intros ->. apply Hh, strict_hits; [apply Ht|done].
Qed.

Lemma cut_slot_spec t i :
  tab_ok t -> (i < MAX_FILE_LOCKS)%nat ->
  match cut_slot ino p o s n i t with
  | (true, t') => cut_result i t t'
  | (false, t') => t' = t /\ strict t i /\ free_count t = 0%nat
  end.
Proof.
  intros Ht Hlt. destruct (lookup_lt_is_Some_2 t i) as [l Hi]; [rewrite (ok_len _ Ht); done|].
  pose proof (range_end_ok _ _ Hrange) as (Hse & _). assert (Hs0 : 0 <= s) by apply Hrange.
  unfold cut_slot. rewrite (list_lookup_total_correct t i l Hi).
  destruct (is_mine_on ino p o l) eqn:Hm; simpl; [|apply (no_hit_result t i l); try done; unfold mine; rewrite Hm; by intros [? _]].
  assert (Hlok := Forall_lookup_1 _ _ _ _ (ok_locks _ Ht) Hi).
  assert (Hlr := mine_covers_range l Hlok Hm). pose proof (range_end_ok _ _ Hlr) as (Hle & _).
  fold (lock_end l) in Hle. assert (Hl0 : 0 <= start l) by apply Hlr. pose proof Hm as (M1 & M2 & M3)%is_mine_on_spec.
  destruct (lock_overlaps _ _ _ _) eqn:Ho.
  2:{ apply (no_hit_result t i l); try done. intros [_ (b & Hb)]. apply not_true_iff_false in Ho. apply Ho.
      apply overlaps_spec; [done|done|]. by exists b. }
  assert (Hov : start l <= range_end s n /\ s <= lock_end l).
  { unfold lock_overlaps in Ho. fold (lock_end l) in Ho. bools. lia. }
  assert (Hcov : forall b, covers l b <-> start l <= b <= lock_end l) by done.
  assert (Hreq : forall b, in_req b <-> s <= b <= range_end s n) by done.
  destruct (Z.ltb_spec (start l) s) as [H1|H1], (Z.ltb_spec (range_end s n) (lock_end l)) as [H2|H2]; simpl.
  - destruct (alloc_lock t) as [j|] eqn:Ea.
    + apply alloc_lock_Some in Ea as (x & Hj & Hx). by apply (cut_split t i j l x).
    + split_and!; [done|by exists l|]. unfold free_count. rewrite (first_index_None (fun l => negb (active l)) t) in Ea.
      apply count_if_zero. intros a (k & Hk)%list_elem_of_lookup. by eapply Ea.
  - rewrite (proj2 (Z.leb_le _ _)) by done.
    destruct (head_ok (start l) s (range_end s n)) as [Hh1 Hh2]; [lia|lia|lia|].
    assert (Hc' : forall b, covers (set_range (start l) (u64 (s - start l)) l) b <-> start l <= b < s)
      by (intros b; unfold covers, in_range_of; simpl; rewrite Hh2; lia).
    apply (cut_shrink t i l); try done.
    + intros _. split_and!; try done. intros b Hb%Hc'. apply Hcov. lia.
    + intros _. split; [exact Hh1|by apply Hlok].
    + intros b Hb Hn. rewrite Hcov in Hb. split; [done|]. rewrite Hc'. rewrite Hreq in Hn. lia.
    + intros b _ Hb%Hc'. rewrite Hreq. lia.
  - rewrite (proj2 (Z.leb_le _ _)) by done. rewrite (u64_small (range_end s n + 1)) by (unfold U64_MAX in *; lia).
    destruct (len_to_ok (range_end s n + 1) (lock_end l)) as [Ht1 Ht2]; [lia|lia|].
    assert (Hc' : forall b, covers (set_range (range_end s n + 1) (len_to (range_end s n + 1) (lock_end l)) l) b
              <-> range_end s n < b <= lock_end l)
      by (intros b; unfold covers, in_range_of; simpl; rewrite Ht2; lia).
    apply (cut_shrink t i l); try done.
    + intros _. split_and!; try done. intros b Hb%Hc'. apply Hcov. lia.
    + intros _. split; [exact Ht1|by apply Hlok].
    + intros b Hb Hn. rewrite Hcov in Hb. split; [done|]. rewrite Hc'. rewrite Hreq in Hn. lia.
    + intros b _ Hb%Hc'. rewrite Hreq. lia.
  - rewrite andb_false_r. apply (cut_shrink t i l); try done.
    intros b Hb Hn. rewrite Hcov in Hb. rewrite Hreq in Hn. lia.
Qed.

(** The whole loop, given the slots that the capacity check reserved: [r] are
    left over. *)
Lemma cut_loop_spec r k : forall i t,
  tab_ok t -> (i + k = MAX_FILE_LOCKS)%nat -> (forall j, hits t j -> (i <= j)%nat) ->
  (r <= free_count t)%nat -> (forall j, strict t j -> (S r <= free_count t)%nat) ->
  exists t', cut_loop ino p o s n k i t = (true, t') /\ tab_ok t' /\ (r <= free_count t')%nat
    /\ (forall x w b ty, holds t' x w b ty <-> holds t x w b ty /\ ~ (x = ino /\ w = me p o /\ in_req b)).
Proof.
  induction k as [|k IH]; intros i t Ht Hik Hh Hf Hst; simpl.
  - exists t. split_and!; try done. intros x w b ty. split; [|tauto]. intros H. split; [done|].
    intros (-> & -> & Hb). destruct H as (j & l & Hj & H1 & H2 & H3 & H4 & _).
    assert (Hhit : hits t j) by (exists l, b; split_and!; try done; by apply is_mine_on_spec).
    apply Hh in Hhit. apply lookup_lt_Some in Hj. rewrite (ok_len _ Ht) in Hj. lia.
  - assert (Hi : (i < MAX_FILE_LOCKS)%nat) by lia. pose proof (cut_slot_spec t i Ht Hi) as Hs.
    destruct (cut_slot ino p o s n i t) as [[|] t1].
    2:{ exfalso. destruct Hs as (_ & H1 & H2). specialize (Hst i H1). lia. }
    destruct Hs as [H1 H2 H3 H4 H5 H6].
    destruct (IH (S i) t1) as (t' & Hc & Ht' & Hf' & Hh'); try done.
    + lia.
    + intros j Hj. apply H4 in Hj as [Hj Hne]. specialize (Hh j Hj). lia.
    + destruct H6 as [?|[Hstr ?]]; [lia|]. specialize (Hst i Hstr). lia.
    + intros j Hj. destruct (H5 j Hj) as [Hj0 Hne]. specialize (Hst j Hj0).
      destruct H6 as [?|[Hstr ?]]; [lia|]. by destruct Hne; apply (strict_unique t).
    + exists t'. split_and!; try done. intros x w b ty. rewrite Hh'. split.
      * intros [Hx Hn]. split; [by apply H2|done].
      * intros [Hx Hn]. split; [by apply H3|done].
Qed.

End Cut.

(** ** Merging *)

(** Two words, of any values. *)
Definition words (s n : Z) : Prop := 0 <= s <= U64_MAX /\ 0 <= n <= U64_MAX.
Lemma range_end_words s n : words s n ->
  0 <= range_end s n <= U64_MAX /\ (s <= range_end s n \/ range_end s n <= s - 2).
Proof.
  unfold words, range_end. intros [Hs Hn]. destruct (Z.eqb_spec n 0); simpl; [unfold U64_MAX in *; lia|].
  unfold u64, U64_MAX in *. pose proof (Z.mod_pos_bound (s + n - 1) 18446744073709551616 ltac:(lia)).
  pose proof (Z.div_mod (s + n - 1) 18446744073709551616 ltac:(lia)). lia.
Qed.
Lemma words_u64 x y : words (u64 x) (u64 y).
Proof.
  unfold words, u64, U64_MAX. pose proof (Z.mod_pos_bound x 18446744073709551616 ltac:(lia)).
  pose proof (Z.mod_pos_bound y 18446744073709551616 ltac:(lia)). lia.
Qed.
Lemma words_len_to s e : 0 <= s <= U64_MAX -> words s (len_to s e).
Proof.
  intros Hs. split; [done|]. unfold len_to. destruct (_ =? _); [unfold U64_MAX; lia|apply (words_u64 0 (e - s + 1))].
Qed.
Lemma range_words s n : range_ok s n -> words s n.
Proof. unfold range_ok, words. tauto. Qed.
(** Two ranges that merge leave no gap, whatever their values: between the lower
    start and the higher end every byte is in one of them, and there is one. *)
Lemma can_merge_words s1 n1 s2 n2 :
  words s1 n1 -> words s2 n2 -> can_merge s1 n1 s2 n2 = true ->
  Z.min s1 s2 <= Z.max (range_end s1 n1) (range_end s2 n2)
  /\ forall b, Z.min s1 s2 <= b <= Z.max (range_end s1 n1) (range_end s2 n2) ->
       in_range_of s1 n1 b \/ in_range_of s2 n2 b.
Proof.
  intros H1 H2. destruct (range_end_words _ _ H1) as [E1 F1]. destruct (range_end_words _ _ H2) as [E2 F2].
  unfold words in H1, H2. assert (Hw : forall e, 0 <= e -> e <= U64_MAX -> e <> U64_MAX -> u64 (e + 1) = e + 1)
    by (intros; apply u64_small; unfold U64_MAX in *; lia).
  unfold can_merge, in_range_of. destruct (Z.eqb_spec (range_end s1 n1) U64_MAX).
  - destruct (Z.ltb_spec s2 s1); [|split; intros; lia]. destruct (Z.eqb_spec (range_end s2 n2) U64_MAX); [split; intros; lia|].
    simpl. rewrite Hw by lia. intros Hm. bools. split; intros; lia.
  - destruct (Z.eqb_spec (range_end s2 n2) U64_MAX).
    + destruct (Z.ltb_spec s1 s2); [|split; intros; lia]. rewrite Hw by lia. intros Hm. bools. split; intros; lia.
    + rewrite !Hw by lia. intros Hm. bools. split; intros; lia.
Qed.

Lemma merged_lock_range a c : words (start a) (len a) -> words (start c) (len c) ->
  let ns := Z.min (start a) (start c) in let ne := Z.max (lock_end a) (lock_end c) in
  merged_lock a c = set_range ns (len_to ns ne) a.
Proof.
  intros Ha Hc ns ne. destruct (range_end_words _ _ Ha) as [E1 _]. destruct (range_end_words _ _ Hc) as [E2 _].
  fold (lock_end a) (lock_end c) in *. unfold merged_lock.
  assert (Hs : (if start a <? start c then start a else start c) = ns)
    by (unfold ns; destruct (Z.ltb_spec (start a) (start c)); lia).
  assert (He : (if (lock_end a =? U64_MAX) || (lock_end c =? U64_MAX) then U64_MAX
                else if lock_end c <? lock_end a then lock_end a else lock_end c) = ne); [|by rewrite Hs, He].
  unfold ne. destruct (Z.eqb_spec (lock_end a) U64_MAX), (Z.eqb_spec (lock_end c) U64_MAX); simpl; try lia.
  destruct (Z.ltb_spec (lock_end c) (lock_end a)); lia.
Qed.
(** The merged record covers exactly the bytes of the two, and is well formed
    even when one of them was not. *)
Lemma merged_words a c :
  words (start a) (len a) -> words (start c) (len c) -> can_merge (start a) (len a) (start c) (len c) = true ->
  range_ok (start (merged_lock a c)) (len (merged_lock a c))
  /\ forall b, covers (merged_lock a c) b <-> covers a b \/ covers c b.
Proof.
  intros Ha Hc Hm. rewrite (merged_lock_range a c Ha Hc). destruct (can_merge_words _ _ _ _ Ha Hc Hm) as [M1 M2].
  destruct (range_end_words _ _ Ha) as [E1 _]. destruct (range_end_words _ _ Hc) as [E2 _].
  unfold words in Ha, Hc. fold (lock_end a) (lock_end c) in *. simpl.
  destruct (len_to_ok (Z.min (start a) (start c)) (Z.max (lock_end a) (lock_end c))) as [R1 R2]; [lia|lia|].
  split; [done|]. intros b. unfold covers at 1, in_range_of. simpl. rewrite R2. split; [apply M2|].
  unfold covers, in_range_of. fold (lock_end a) (lock_end c). lia.
Qed.

Section Merge.
Context (ino p o : Z).

Lemma find_pair_spec t : forall i0 i j,
  find_pair ino p o t i0 = Some (i, j) ->
  exists a c, (i0 <= i < j)%nat /\ t !! (i - i0)%nat = Some a /\ t !! (j - i0)%nat = Some c
    /\ is_mine_on ino p o a = true /\ mergeable ino p o a c = true.
Proof.
  assert (Hrec : forall x t i0 i j, (forall i j, find_pair ino p o t (S i0) = Some (i, j) -> exists a c, (S i0 <= i < j)%nat
      /\ t !! (i - S i0)%nat = Some a /\ t !! (j - S i0)%nat = Some c
      /\ is_mine_on ino p o a = true /\ mergeable ino p o a c = true) ->
    find_pair ino p o t (S i0) = Some (i, j) -> exists a c, (i0 <= i < j)%nat /\ (x :: t) !! (i - i0)%nat = Some a
      /\ (x :: t) !! (j - i0)%nat = Some c /\ is_mine_on ino p o a = true /\ mergeable ino p o a c = true).
  { intros x t' i0 i j IH H. destruct (IH i j H) as (a & c & Hij & Ha & Hc & Hm). exists a, c.
    replace (i - i0)%nat with (S (i - S i0)) by lia. replace (j - i0)%nat with (S (j - S i0)) by lia.
    split_and!; try done; try lia; apply Hm. }
  induction t as [|x t IH]; intros i0 i j H; [done|]. simpl in H.
  destruct (is_mine_on ino p o x) eqn:Ex; [|by eapply Hrec; [intros; by eapply IH|]].
  destruct (first_index _ t) as [k|] eqn:Ek; [|by eapply Hrec; [intros; by eapply IH|]].
  injection H as <- <-. apply first_index_Some in Ek as (c & Hc & Hm & _). exists x, c.
  replace (i0 - i0)%nat with O by lia. replace (i0 + S k - i0)%nat with (S k) by lia. split_and!; try done; lia.
Qed.

Lemma merge_pair_spec t i j a c :
  tab_ok t -> (i < j)%nat -> t !! i = Some a -> t !! j = Some c ->
  is_mine_on ino p o a = true -> mergeable ino p o a c = true ->
  tab_ok (merge_pair t i j) /\ free_count (merge_pair t i j) = S (free_count t)
  /\ forall x w b ty, holds (merge_pair t i j) x w b ty <-> holds t x w b ty.
Proof.
  intros Ht Hij Hi Hj Hma Hmc. unfold mergeable in Hmc. rewrite !andb_true_iff, Z.eqb_eq in Hmc.
  destruct Hmc as [[Hmc Hty] Hcm]. apply is_mine_on_spec in Hma as (A1 & A2 & A3), Hmc as (C1 & C2 & C3).
  assert (Hla := Forall_lookup_1 _ _ _ _ (ok_locks _ Ht) Hi A1). assert (Hlc := Forall_lookup_1 _ _ _ _ (ok_locks _ Ht) Hj C1).
  destruct (merged_words a c (range_words _ _ (proj1 Hla)) (range_words _ _ (proj1 Hlc)) Hcm) as [Hmr Hmcov].
  set (m := merged_lock a c) in *.
  assert (Hmf : active m = true /\ inode m = inode a /\ owner_of m = owner_of a /\ lock_type m = lock_type a) by done.
  destruct Hmf as (F1 & F2 & F3 & F4).
  assert (Eq : merge_pair t i j = <[i := m]> (<[j := free_lock c]> t)).
  { unfold merge_pair. rewrite (list_lookup_total_correct t i a Hi), (list_lookup_total_correct t j c Hj). fold m.
    rewrite list_insert_insert_ne by lia. apply alter_as_insert. rewrite list_lookup_insert_ne by lia. done. }
  set (t1 := <[j := free_lock c]> t) in *. assert (Hi1 : t1 !! i = Some a) by (unfold t1; rewrite list_lookup_insert_ne by lia; done).
  assert (Hlt1 : (i < length t1)%nat) by by eapply lookup_lt_Some.
  assert (Hltj : (j < length t)%nat) by by eapply lookup_lt_Some.
  rewrite Eq. split_and!.
  - constructor; [unfold t1; rewrite !length_insert; apply Ht|apply Forall_insert|].
    + apply Forall_insert; [apply Ht|done].
    + intros _. split; [done|]. rewrite F4. apply Hla.
    + intros k l x y b Hk Hl Hx Hy Hin Ho Hbx Hby.
      assert (Hother : forall q z, q <> i -> <[i := m]> t1 !! q = Some z -> active z = true ->
                t !! q = Some z /\ q <> j).
      { intros q z Hq Hz Haz. rewrite list_lookup_insert_ne in Hz by done.
        apply list_lookup_insert_Some in Hz as [(-> & <- & _)|[Hne Hz]]; [done|]. auto. }
      assert (Hcase : forall q z, q <> i -> <[i := m]> t1 !! q = Some z -> active z = true -> inode z = inode a ->
                owner_of z = owner_of a -> covers z b -> covers m b -> False).
      { intros q z Hq Hz Haz Hzi Hzo Hzb [Hb|Hb]%Hmcov; destruct (Hother q z Hq Hz Haz) as [Hz' Hqj].
        - apply Hq. by apply (ok_disjoint _ Ht q i z a b).
        - apply Hqj. apply (ok_disjoint _ Ht q j z c b); try done; congruence. }
      destruct (decide (k = i)) as [->|Hki], (decide (l = i)) as [->|Hli]; [done| | |].
      * rewrite list_lookup_insert_eq in Hk by done. injection Hk as <-. exfalso. by eapply (Hcase l y).
      * rewrite list_lookup_insert_eq in Hl by done. injection Hl as <-. exfalso. by eapply (Hcase k x).
      * destruct (Hother k x Hki Hk Hx) as [Hk' _], (Hother l y Hli Hl Hy) as [Hl' _]. by eapply (ok_disjoint _ Ht k l x y b).
  - unfold free_count. pose proof (count_if_insert (fun l => negb (active l)) t j c (free_lock c) Hj) as K1.
    pose proof (count_if_insert (fun l => negb (active l)) t1 i a m Hi1) as K2. fold t1 in K1.
    simpl in K1, K2. rewrite C1 in K1. rewrite A1 in K2. simpl in K1, K2. lia.
  - intros x w b ty. rewrite holds_insert by done.
    assert (Hm : entry_holds m x w b ty <-> entry_holds a x w b ty \/ entry_holds c x w b ty).
    { unfold entry_holds. rewrite F1, F2, F3, F4, Hmcov, A1, C1, A2, C2, A3, C3, Hty. tauto. }
    assert (Ho : others_hold t1 i x w b ty \/ entry_holds a x w b ty <-> holds t1 x w b ty).
    { rewrite (holds_split t1 i a) by done. tauto. }
    assert (H1 : holds t1 x w b ty <-> others_hold t j x w b ty).
    { unfold t1. rewrite holds_insert by done. pose proof (inactive_holds (free_lock c) x w b ty eq_refl). tauto. }
    rewrite (holds_split t j c) by done. tauto.
Qed.

Lemma merge_rounds_spec fuel : forall t,
  tab_ok t -> (MAX_FILE_LOCKS <= fuel + free_count t)%nat ->
  exists t', merge_rounds fuel ino p o t = Some t' /\ tab_ok t'
    /\ forall x w b ty, holds t' x w b ty <-> holds t x w b ty.
Proof.
  induction fuel as [|fuel IH]; intros t Ht Hf; simpl;
    destruct (find_pair ino p o t 0) as [[i j]|] eqn:E; try (by exists t);
    apply find_pair_spec in E as (a & c & Hij & Ha & Hc & Hma & Hmc); rewrite Nat.sub_0_r in Ha, Hc.
  - exfalso. assert (Hall : count_if (fun l => negb (active l)) t = length t).
    { unfold free_count in Hf. rewrite <- (ok_len _ Ht) in Hf. unfold count_if in *.
      pose proof (filter_length_le (fun l => negb (active l)) t). lia. }
    apply is_mine_on_spec in Hma as (A1 & _).
    pose proof (count_if_insert (fun l => negb (active l)) t i a (free_lock a) Ha) as Hci.
    assert (Hle : (count_if (fun l => negb (active l)) (<[i := free_lock a]> t) <= length t)%nat).
    { unfold count_if. etrans; [apply filter_length_le|]. by rewrite length_insert. }
    simpl in Hci. rewrite A1 in Hci. simpl in Hci. lia.
  - destruct (merge_pair_spec t i j a c Ht ltac:(lia) Ha Hc Hma Hmc) as (Ht1 & Hf1 & Hh1).
    destruct (IH _ Ht1) as (t' & Hr & Ht' & Hh'); [lia|]. exists t'. split_and!; try done.
    intros x w b ty. by rewrite Hh', Hh1.
Qed.
End Merge.

(** ** A whole request *)

Definition type_ok (ty : Z) : Prop := ty = F_RDLCK \/ ty = F_WRLCK \/ ty = F_UNLCK.
Definition in_request (ino p o s n x : Z) (w : Z * Z) (b : Z) : Prop := x = ino /\ w = me p o /\ in_range_of s n b.
(** The table after a request: the requester holds exactly the requested type in
    the range, everything else is as before. *)
Definition replaced (t t' : table) (ino p o s n ty : Z) : Prop :=
  forall x w b k, holds t' x w b k <->
    (in_request ino p o s n x w b /\ k = ty /\ ty <> F_UNLCK) \/ (~ in_request ino p o s n x w b /\ holds t x w b k).
(** Slots the capacity check asks for. *)
Definition slots_needed (t : table) (ino p o s n ty : Z) : Z :=
  (if ty =? F_UNLCK then 0 else 1) + (if needs_split t ino p o s n then 1 else 0).

Lemma needs_split_spec t ino p o s n k : strict ino p o s n t k -> needs_split t ino p o s n = true.
Proof.
  intros (l & Hk & Hm & H1 & H2). apply existsb_exists. exists l. split; [by apply list_elem_of_In, list_elem_of_lookup_2 with k|].
  unfold mine in Hm. rewrite Hm. simpl. rewrite andb_true_iff, !Z.ltb_lt. done.
Qed.

Lemma add_lock_spec t j ino p o s n ty :
  tab_ok t -> range_ok s n -> ty = F_RDLCK \/ ty = F_WRLCK -> alloc_lock t = Some j ->
  (forall b k, in_range_of s n b -> ~ holds t ino (me p o) b k) ->
  tab_ok (<[j := mkLock ino p o ty s n true]> t)
  /\ forall x w b k, holds (<[j := mkLock ino p o ty s n true]> t) x w b k
       <-> (in_request ino p o s n x w b /\ k = ty) \/ holds t x w b k.
Proof.
  intros Ht Hr Hty (y & Hj & Hy)%alloc_lock_Some Hno. set (l := mkLock _ _ _ _ _ _ _).
  assert (Ho : owner_of l = me p o) by done. split.
  - constructor; [rewrite length_insert; apply Ht|by apply Forall_insert; [apply Ht|]|].
    apply (disjoint_insert_new t j y); try done; [apply Ht|]. intros b Hb k. rewrite Ho. by apply Hno.
  - intros x w b k. rewrite (holds_add t j y) by done.
    assert (entry_holds l x w b k <-> in_request ino p o s n x w b /\ k = ty); [|tauto].
    unfold entry_holds, in_request, covers. rewrite Ho. simpl. intuition congruence.
Qed.

Lemma apply_lock_spec t ino p o s n ty :
  tab_ok t -> range_ok s n -> type_ok ty ->
  (free_slots t < slots_needed t ino p o s n ty /\ apply_lock t ino p o s n ty = Some (- ENOMEM, t))
  \/ (slots_needed t ino p o s n ty <= free_slots t
      /\ exists t', apply_lock t ino p o s n ty = Some (0, t') /\ tab_ok t' /\ replaced t t' ino p o s n ty).
Proof.
  intros Ht Hr Hty. unfold slots_needed, apply_lock. set (sp := needs_split t ino p o s n).
  set (need := _ + _). set (short := if ty =? F_UNLCK then _ && _ else _).
  assert (Hs : short = (free_slots t <? need)).
  { assert (0 <= free_slots t) by (unfold free_slots; lia). unfold short, need.
    destruct (ty =? F_UNLCK), sp; simpl; rewrite ?orb_false_r; try done. symmetry. apply Z.ltb_ge. lia. }
  rewrite Hs. destruct (Z.ltb_spec (free_slots t) need) as [Hlt|Hge]; [by left|right; split; [done|]].
  unfold free_slots in Hge. fold (free_count t) in Hge. unfold need in Hge. clear Hs short need.
  destruct (cut_loop_spec ino p o s n Hr (if ty =? F_UNLCK then 0%nat else 1%nat) MAX_FILE_LOCKS 0 t) as (t1 & -> & Ht1 & Hf1 & Hh1);
    [done|done|intros; lia|destruct (ty =? F_UNLCK), sp; lia| |].
  { intros j Hj%needs_split_spec. fold sp in Hj. rewrite Hj in Hge. destruct (ty =? F_UNLCK); lia. }
  fold (in_request ino p o s n) in Hh1.
  destruct (Z.eqb_spec ty F_UNLCK) as [->|Hu].
  - exists t1. split_and!; try done. intros x w b k. rewrite Hh1. unfold in_request, in_req. tauto.
  - destruct (alloc_lock t1) as [j|] eqn:Ej.
    2:{ exfalso. unfold alloc_lock in Ej. rewrite (first_index_None (fun l => negb (active l)) t1) in Ej.
        assert (free_count t1 = 0%nat); [|lia]. apply count_if_zero. intros a (q & Hq)%list_elem_of_lookup. by eapply Ej. }
    destruct (add_lock_spec t1 j ino p o s n ty) as [Ht2 Hh2]; try done; [unfold type_ok in Hty; tauto| |].
    { intros b k Hb. rewrite Hh1. intros [_ Hn]. by apply Hn. }
    destruct (merge_rounds_spec ino p o merge_fuel _ Ht2) as (t3 & Hm & Ht3 & Hh3); [unfold merge_fuel, MAX_FILE_LOCKS; lia|].
    unfold merge_adjacent_locks. rewrite Hm. exists t3. split_and!; try done. intros x w b k. rewrite Hh3, Hh2, Hh1.
    unfold in_request, in_req. tauto.
Qed.

(** ** Conflicts and mutual exclusion *)

(** Another owner holds a byte of the range with a type that excludes [ty]. *)
Definition blocked (t : table) (ino p o s n ty : Z) : Prop :=
  exists w b k, holds t ino w b k /\ w <> me p o /\ in_range_of s n b /\ ~ (k = F_RDLCK /\ ty = F_RDLCK).

Lemma conflicts_with_spec t ino p o s n ty i l :
  tab_ok t -> range_ok s n -> t !! i = Some l ->
  conflicts_with ino p o s n ty l = true <->
  active l = true /\ inode l = ino /\ owner_of l <> me p o /\ (exists b, covers l b /\ in_range_of s n b)
  /\ ~ (lock_type l = F_RDLCK /\ ty = F_RDLCK).
Proof.
  intros Ht Hr Hi. unfold conflicts_with. destruct (active l) eqn:Ha; simpl; [|split; [done|by intros [? _]]].
  destruct (Forall_lookup_1 _ _ _ _ (ok_locks _ Ht) Hi Ha) as [Hlr _].
  rewrite !andb_true_iff, Z.eqb_eq, negb_true_iff, <- not_true_iff_false, lock_is_mine_spec, (overlaps_spec _ _ _ _ Hlr Hr).
  assert (Hc : lock_conflicts l ty = true <-> ~ (lock_type l = F_RDLCK /\ ty = F_RDLCK)).
  { unfold lock_conflicts. destruct (Z.eqb_spec (lock_type l) F_RDLCK), (Z.eqb_spec ty F_RDLCK); simpl; intuition congruence. }
  rewrite Hc. unfold covers. tauto.
Qed.

Lemma conflict_exists_spec t ino p o s n ty :
  tab_ok t -> range_ok s n -> filelock_conflict_exists t ino p o s n ty = true <-> blocked t ino p o s n ty.
Proof.
  intros Ht Hr. unfold filelock_conflict_exists. rewrite existsb_exists. split.
  - intros (l & Hl & Hc). apply list_elem_of_In, list_elem_of_lookup in Hl as [i Hi].
    apply (conflicts_with_spec t ino p o s n ty i l) in Hc as (C1 & C2 & C3 & (b & C4 & C5) & C6); try done.
    exists (owner_of l), b, (lock_type l). split_and!; try done. exists i, l. by split_and!.
  - intros (w & b & k & (i & l & Hi & H1 & H2 & H3 & H4 & H5) & Hw & Hb & Hk). exists l.
    split; [by apply list_elem_of_In, list_elem_of_lookup_2 with i|].
    apply (conflicts_with_spec t ino p o s n ty i l); try done. subst. split_and!; try done. by exists b.
Qed.

Lemma replaced_exclusive t t' ino p o s n ty :
  exclusive t -> ~ blocked t ino p o s n ty \/ ty = F_UNLCK -> replaced t t' ino p o s n ty -> exclusive t'.
Proof.
  intros He Hn Hr x b w1 w2 k1 k2 H1 H2 Hne. apply Hr in H1, H2.
  assert (Hb : forall w k, in_range_of s n b -> w <> me p o -> holds t ino w b k -> ty <> F_UNLCK ->
            ty = F_RDLCK /\ k = F_RDLCK).
  { intros w k Hin Hw Hh Hu. destruct Hn as [Hn|]; [|done].
    destruct (decide (k = F_RDLCK /\ ty = F_RDLCK)) as [[? ?]|Hd]; [done|]. destruct Hn. by exists w, b, k. }
  destruct H1 as [((X1 & W1 & Hin) & -> & Hu)|[_ H1]], H2 as [((X2 & W2 & Hin') & -> & Hu')|[_ H2]]; try congruence.
  - subst x. apply (Hb w2); try done; congruence.
  - subst x. destruct (Hb w1 k1); try done; congruence.
  - by eapply He.
Qed.

(** ** Releases *)

Lemma release_spec (q : file_lock -> bool) t :
  let t' := map (fun l => if q l then free_lock l else l) t in
  (tab_ok t -> tab_ok t')
  /\ forall x w b k, holds t' x w b k <-> exists i l, t !! i = Some l /\ q l = false /\ entry_holds l x w b k.
Proof.
  set (f := fun l => if q l then free_lock l else l). simpl.
  assert (Hlk : forall i l', map f t !! i = Some l' -> active l' = true -> t !! i = Some l' /\ q l' = false).
  { intros i l' Hi Ha. change (map f t) with (f <$> t) in Hi. rewrite list_lookup_fmap in Hi.
    apply fmap_Some in Hi as (l & Hl & ->). unfold f in *. destruct (q l) eqn:E; [done|]. done. }
  split.
  - intros Ht. constructor; [rewrite length_map; apply Ht| |].
    + apply Forall_lookup_2. intros i l' Hi Ha. destruct (Hlk i l' Hi Ha) as [Hl _].
      by apply (Forall_lookup_1 _ _ _ _ (ok_locks _ Ht) Hl).
    + intros i j a c b Hi Hj Ha Hc. destruct (Hlk i a Hi Ha) as [Hi' _], (Hlk j c Hj Hc) as [Hj' _]. by apply (ok_disjoint _ Ht).
  - intros x w b k. split.
    + intros (i & l & Hi & He). destruct (Hlk i l Hi) as [Hl Hq]; [apply He|]. by exists i, l.
    + intros (i & l & Hi & Hq & He). exists i, l. split; [|done]. change (map f t) with (f <$> t).
      rewrite list_lookup_fmap, Hi. simpl. unfold f. by rewrite Hq.
Qed.

Lemma exclusive_sub t t' : (forall x w b k, holds t' x w b k -> holds t x w b k) -> exclusive t -> exclusive t'.
Proof. intros Hs He x b w1 w2 k1 k2 H1%Hs H2%Hs. by eapply He. Qed.

Definition sound (t : table) : Prop := tab_ok t /\ exclusive t.

Lemma sound_release (q : file_lock -> bool) t : sound t -> sound (map (fun l => if q l then free_lock l else l) t).
Proof.
  intros [Ht He]. destruct (release_spec q t) as [H1 H2]. split; [auto|]. apply (exclusive_sub t); [|done].
  intros x w b k (i & l & Hi & _ & Hl)%H2. by exists i, l.
Qed.

(** ** Requests of any shape

    The range and the type of a request come from user memory unchecked.  The
    byte view still bounds them: a range that runs past the last offset has its
    end below its start and holds no byte. *)

Definition typed (t : table) : Prop := Forall (fun l => words (start l) (len l)) t.

(** What one owner loses nobody else gains. *)
Definition sub_holds (t' t : table) : Prop := forall x w b k, holds t' x w b k -> holds t x w b k.

Lemma piece_sub t i l l' :
  t !! i = Some l -> shrinks l l' -> lock_type l' = lock_type l -> sub_holds (<[i := l']> t) t.
Proof.
  intros Hi Hs Hty x w b k. rewrite holds_insert by by eapply lookup_lt_Some. rewrite (holds_split t i l) by done.
  intros [(H1 & H2 & H3 & H4 & H5)|?]; [left|by right]. destruct (Hs H1) as (S1 & S2 & S3 & S4). split_and!; auto; congruence.
Qed.
Lemma copy_sub t i j l x l' :
  t !! i = Some l -> t !! j = Some x -> active x = false -> shrinks l l' -> lock_type l' = lock_type l ->
  sub_holds (<[j := l']> t) t.
Proof.
  intros Hi Hj Hx Hs Hty y w b k. rewrite (holds_add t j x) by done. intros [(H1 & H2 & H3 & H4 & H5)|?]; [|done].
  destruct (Hs H1) as (S1 & S2 & S3 & S4). exists i, l. split; [done|]. split_and!; auto; congruence.
Qed.

Lemma head_piece l s : words (start l) (len l) -> start l < s <= U64_MAX -> s - 1 <= lock_end l ->
  words (start l) (u64 (s - start l)) /\ shrinks l (set_range (start l) (u64 (s - start l)) l).
Proof.
  intros Hl Hs He. destruct (head_ok (start l) s U64_MAX) as [(R1 & R2 & _) R]; [unfold words in Hl; lia|lia|lia|].
  split; [done|]. intros Ha. split_and!; try done. intros b. unfold covers, in_range_of. simpl. rewrite R. fold (lock_end l). lia.
Qed.
Lemma tail_range l e : words (start l) (len l) -> 0 <= e -> start l <= e < lock_end l ->
  words (u64 (e + 1)) (len_to (u64 (e + 1)) (lock_end l))
  /\ forall b, in_range_of (u64 (e + 1)) (len_to (u64 (e + 1)) (lock_end l)) b -> covers l b.
Proof.
  intros Hl He0 He. destruct (range_end_words _ _ Hl) as [Hle _]. fold (lock_end l) in Hle.
  rewrite (u64_small (e + 1)) by (unfold U64_MAX in *; lia).
  destruct (len_to_ok (e + 1) (lock_end l)) as [(R1 & R2 & _) R]; [lia|lia|].
  split; [done|]. intros b. unfold covers, in_range_of. rewrite R. fold (lock_end l). lia.
Qed.

Lemma cut_slot_sub ino p o s n i t :
  typed t -> words s n -> (i < length t)%nat ->
  let t' := snd (cut_slot ino p o s n i t) in typed t' /\ length t' = length t /\ sub_holds t' t.
Proof.
  intros Ht Hw Hi. destruct (lookup_lt_is_Some_2 t i Hi) as [l Hl]. unfold cut_slot. rewrite (list_lookup_total_correct t i l Hl).
  assert (Hlw := Forall_lookup_1 _ _ _ _ Ht Hl). simpl in Hlw.
  destruct (range_end_words _ _ Hw) as [Hen _]. destruct (range_end_words _ _ Hlw) as [Hle _]. fold (lock_end l) in Hle.
  assert (Hkeep : typed t /\ length t = length t /\ sub_holds t t) by (split_and!; try done; by intros ????).
  destruct (is_mine_on ino p o l) eqn:Em; [|exact Hkeep]. apply is_mine_on_spec in Em as (M1 & M2 & M3).
  unfold lock_overlaps. fold (lock_end l). destruct (Z.leb_spec (start l) (range_end s n)) as [O1|]; [|exact Hkeep].
  destruct (Z.leb_spec s (lock_end l)) as [O2|]; [|exact Hkeep]. cbn [andb].
  assert (Hset : forall s' n', words s' n' -> typed (<[i := set_range s' n' l]> t)) by (intros; by apply Forall_insert).
  destruct (Z.ltb_spec (start l) s) as [H1|H1], (Z.ltb_spec (range_end s n) (lock_end l)) as [H2|H2]; cbn [andb].
  - destruct (alloc_lock t) as [j|] eqn:Ea; [|exact Hkeep]. apply alloc_lock_Some in Ea as (x & Hj & Hx). simpl.
    assert (Hij : i <> j) by (intros ->; congruence).
    destruct (head_piece l s Hlw) as [P1 P2]; [unfold words in Hw; lia|lia|].
    destruct (tail_range l (range_end s n) Hlw) as [T1 T2]; [lia|lia|].
    set (tl := mkLock _ _ _ _ _ _ _). assert (Htl : shrinks l tl) by (intros _; by split_and!).
    split_and!; [apply Forall_insert; [by apply Forall_insert|done]|by rewrite !length_insert|].
    intros y w b k H. apply (copy_sub t i j l x tl); try done. revert H. apply (piece_sub _ i l); try done.
    by rewrite list_lookup_insert_ne.
  - rewrite (proj2 (Z.leb_le _ _)) by done. destruct (head_piece l s Hlw) as [P1 P2]; [unfold words in Hw; lia|lia|]. simpl.
    split_and!; [by apply Hset|by rewrite length_insert|by apply (piece_sub t i l)].
  - rewrite (proj2 (Z.leb_le _ _)) by done. destruct (tail_range l (range_end s n) Hlw) as [T1 T2]; [lia|lia|]. simpl.
    split_and!; [by apply Hset|by rewrite length_insert|by apply (piece_sub t i l)].
  - rewrite andb_false_r. simpl. split_and!; [by apply Forall_insert|by rewrite length_insert|by apply (piece_sub t i l)].
Qed.
Lemma cut_loop_sub ino p o s n k : forall i t,
  typed t -> words s n -> (i + k <= length t)%nat ->
  let t' := snd (cut_loop ino p o s n k i t) in typed t' /\ length t' = length t /\ sub_holds t' t.
Proof.
  induction k as [|k IH]; intros i t Ht Hw Hi; simpl; [by split_and!; try intros ????|].
  destruct (cut_slot_sub ino p o s n i t) as (H1 & H2 & H3); [done|done|lia|].
  destruct (cut_slot ino p o s n i t) as [[|] t1]; simpl in *; [|done].
  destruct (IH (S i) t1) as (I1 & I2 & I3); [done|done|lia|]. split_and!; [done|congruence|].
  intros x w b y H. by apply H3, I3.
Qed.


Lemma merge_rounds_sub ino p o fuel : forall t t',
  typed t -> merge_rounds fuel ino p o t = Some t' -> typed t' /\ length t' = length t /\ sub_holds t' t.
Proof.
  induction fuel as [|fuel IH]; intros t t' Ht; simpl; destruct (find_pair ino p o t 0) as [[i j]|] eqn:E; try done;
    try (intros [= <-]; split_and!; try done; by intros ????).
  apply find_pair_spec in E as (a & c & Hij & Ha & Hc & Hma & Hmc). rewrite Nat.sub_0_r in Ha, Hc.
  unfold mergeable in Hmc. rewrite !andb_true_iff, Z.eqb_eq in Hmc. destruct Hmc as [[Hmc Hty] Hcm].
  apply is_mine_on_spec in Hma as (A1 & A2 & A3), Hmc as (C1 & C2 & C3).
  assert (Hwa := Forall_lookup_1 _ _ _ _ Ht Ha). assert (Hwc := Forall_lookup_1 _ _ _ _ Ht Hc). simpl in Hwa, Hwc.
  destruct (merged_words a c Hwa Hwc Hcm) as [Hr%range_words Hcov]. set (m := merged_lock a c) in *.
  assert (Eq : merge_pair t i j = <[i := m]> (<[j := free_lock c]> t)).
  { unfold merge_pair. rewrite (list_lookup_total_correct t i a Ha), (list_lookup_total_correct t j c Hc). fold m.
    rewrite list_insert_insert_ne by lia. apply alter_as_insert. rewrite list_lookup_insert_ne by lia. done. }
  intros Hr'. rewrite Eq in Hr'. apply IH in Hr' as (I1 & I2 & I3).
  2:{ apply Forall_insert; [by apply Forall_insert|done]. }
  split_and!; [done|by rewrite I2, !length_insert|]. intros x w b k H%I3.
  rewrite holds_insert in H by (rewrite length_insert; by eapply lookup_lt_Some).
  destruct H as [(_ & H2 & H3 & [H4|H4]%Hcov & H5)|(q & y & Hq & Hy & Hh)].
  - exists i, a. split; [done|]. split_and!; try done.
  - exists j, c. split; [done|]. change (inode a = x) in H2. change (owner_of a = w) in H3. change (lock_type a = k) in H5.
    split_and!; try done; congruence.
  - apply list_lookup_insert_Some in Hy as [(-> & <- & _)|[_ Hy]]; [by destruct (inactive_holds (free_lock c) x w b k eq_refl)|].
    by exists q, y.
Qed.

(** A request that is not refused leaves only what was held, and its own bytes. *)
Lemma apply_lock_adds t ino p o s n ty rc t' :
  typed t -> length t = MAX_FILE_LOCKS -> words s n -> apply_lock t ino p o s n ty = Some (rc, t') ->
  typed t' /\ length t' = MAX_FILE_LOCKS
  /\ forall x w b k, holds t' x w b k ->
       holds t x w b k \/ (ty <> F_UNLCK /\ k = ty /\ in_request ino p o s n x w b).
Proof.
  intros Ht Hlen Hw. unfold apply_lock. destruct (if ty =? F_UNLCK then _ else _); [intros [= <- <-]; split_and!; auto|].
  destruct (cut_loop_sub ino p o s n MAX_FILE_LOCKS 0 t) as (C1 & C2 & C3); [done|done|lia|].
  destruct (cut_loop ino p o s n MAX_FILE_LOCKS 0 t) as [[|] t1]; simpl in C1, C2, C3;
    [|intros [= <- <-]; split_and!; [done|congruence|auto]].
  destruct (Z.eqb_spec ty F_UNLCK) as [->|Hu]; [intros [= <- <-]; split_and!; [done|congruence|auto]|].
  destruct (alloc_lock t1) as [j|] eqn:Ea; [|intros [= <- <-]; split_and!; [done|congruence|auto]].
  apply alloc_lock_Some in Ea as (y & Hj & Hy). set (l := mkLock _ _ _ _ _ _ _). unfold merge_adjacent_locks.
  destruct (merge_rounds _ _ _ _ _) as [t2|] eqn:Em; [|done]. intros [= <- <-].
  apply merge_rounds_sub in Em as (M1 & M2 & M3); [|by apply Forall_insert].
  split_and!; [done|by rewrite M2, length_insert, C2|]. intros x w b k H%M3. rewrite (holds_add t1 j y) in H by done.
  destruct H as [(H1 & H2 & H3 & H4 & H5)|H%C3]; [right|by left]. split_and!; try done.
Qed.

(** The test for a conflict sees every owner that stands in the way of a byte. *)
Lemma conflict_seen t ino p o s n ty : words s n ->
  blocked t ino p o s n ty -> filelock_conflict_exists t ino p o s n ty = true.
Proof.
  intros Hw (w & b & k & (i & l & Hi & H1 & H2 & H3 & H4 & H5) & Hne & Hb & Hk).
  apply existsb_exists. exists l. split; [by apply list_elem_of_In, list_elem_of_lookup_2 with i|].
  unfold conflicts_with, lock_overlaps. unfold covers, in_range_of in *.
  rewrite !andb_true_iff, negb_true_iff, <- not_true_iff_false, lock_is_mine_spec, Z.eqb_eq, !Z.leb_le.
  split_and!; try done; try lia; [congruence|]. unfold lock_conflicts. subst k.
  destruct (Z.eqb_spec (lock_type l) F_RDLCK), (Z.eqb_spec ty F_RDLCK); simpl; tauto.
Qed.

(** A table of typed records in which the exclusion holds. *)
Record excl_ok (t : table) : Prop := {
  ex_len : length t = MAX_FILE_LOCKS;
  ex_typed : typed t;
  ex_excl : exclusive t }.

Lemma excl_apply t ino p o s n ty rc t' :
  excl_ok t -> words s n -> ~ blocked t ino p o s n ty \/ ty = F_UNLCK ->
  apply_lock t ino p o s n ty = Some (rc, t') -> excl_ok t'.
Proof.
  intros [Hl Ht He] Hw Hn Ha. destruct (apply_lock_adds t ino p o s n ty rc t' Ht Hl Hw Ha) as (A1 & A2 & A3).
  split; [done|done|]. intros x b w1 w2 k1 k2 H1%A3 H2%A3 Hne.
  assert (Hb : forall w k, in_range_of s n b -> w <> me p o -> holds t ino w b k -> ty <> F_UNLCK ->
            ty = F_RDLCK /\ k = F_RDLCK).
  { intros w k Hin Hw' Hh Hu. destruct Hn as [Hn|]; [|done].
    destruct (decide (k = F_RDLCK /\ ty = F_RDLCK)) as [[? ?]|Hd]; [done|]. destruct Hn. by exists w, b, k. }
  destruct H1 as [H1|(Hu & -> & X1 & W1 & Hin)], H2 as [H2|(Hu' & -> & X2 & W2 & Hin')]; try congruence.
  - by eapply He.
  - subst x. destruct (Hb w1 k1); try done; congruence.
  - subst x. apply (Hb w2); try done; congruence.
Qed.
Lemma excl_attempt t ino p o s n ty :
  excl_ok t -> words s n -> excl_ok (snd (wait_lock ino p o s n ty [] t)).
Proof.
  intros He Hw. simpl. destruct (filelock_conflict_exists t ino p o s n ty) eqn:E; [done|].
  destruct (apply_lock t ino p o s n ty) as [[rc t']|] eqn:Ea; [|done]. simpl.
  eapply excl_apply; [done|exact Hw| |exact Ea]. left. intros Hb%conflict_seen; [congruence|done].
Qed.
Lemma excl_release (q : file_lock -> bool) t : excl_ok t -> excl_ok (map (fun l => if q l then free_lock l else l) t).
Proof.
  intros [Hl Ht He]. destruct (release_spec q t) as [_ H2]. split; [by rewrite length_map| |].
  - unfold typed. rewrite Forall_map. eapply Forall_impl; [|exact Ht]. intros l Hw. simpl. by destruct (q l).
  - apply (exclusive_sub t); [|done]. intros x w b k (i & l & Hi & _ & Hh)%H2. by exists i, l.
Qed.

(** ** One critical section of a request *)

Lemma attempt_spec t ino p o s n ty :
  tab_ok t -> range_ok s n -> type_ok ty -> ty <> F_UNLCK ->
  let (out, t') := wait_lock ino p o s n ty [] t in
  tab_ok t' /\
  ((blocked t ino p o s n ty /\ out = Waiting /\ t' = t)
   \/ (~ blocked t ino p o s n ty /\ free_slots t < slots_needed t ino p o s n ty /\ out = Done (- ENOMEM) /\ t' = t)
   \/ (~ blocked t ino p o s n ty /\ slots_needed t ino p o s n ty <= free_slots t /\ out = Done 0
       /\ replaced t t' ino p o s n ty)).
Proof.
  intros Ht Hr Hty Hu. pose proof (conflict_exists_spec t ino p o s n ty Ht Hr) as Hc. simpl.
  destruct (filelock_conflict_exists t ino p o s n ty) eqn:E.
  - split; [done|left]. by rewrite <- Hc.
  - assert (Hnb : ~ blocked t ino p o s n ty) by (rewrite <- Hc; done).
    destruct (apply_lock_spec t ino p o s n ty Ht Hr Hty) as [[Hlt ->]|(Hge & t' & -> & Ht' & Hrep)].
    + split; [done|right; left]. done.
    + split; [done|right; right]. done.
Qed.

Lemma sound_attempt t ino p o s n ty :
  sound t -> range_ok s n -> type_ok ty -> ty <> F_UNLCK -> sound (snd (wait_lock ino p o s n ty [] t)).
Proof.
  intros [Ht He] Hr Hty Hu. pose proof (attempt_spec t ino p o s n ty Ht Hr Hty Hu) as H.
  destruct (wait_lock ino p o s n ty [] t) as [out t']. destruct H as (Ht' & [(_ & _ & ->)|[(_ & _ & _ & ->)|(Hb & _ & _ & Hrep)]]);
    split; try done. eapply (replaced_exclusive t); [done|left; exact Hb|exact Hrep].
Qed.

(** What a request asks for.  Any: the start and the length are 64-bit words,
    nothing else.  Tidy: its last byte is an offset and its type one of the
    three.  [filelock_do] tests neither, and [sys_fcntl] hands it the structure
    as it stands in user memory. *)
Definition any_request (s n _ : Z) : Prop := words s n.
Definition tidy_request (s n ty : Z) : Prop := range_ok s n /\ type_ok ty.
Definition asks (req : Z -> Z -> Z -> Prop) (ho : option handle) (fl : flock) : Prop :=
  forall h, ho = Some h -> req (lock_start h fl) (l_len fl) (l_type fl).
Definition valid_request (ho : option handle) (fl : flock) : Prop := asks tidy_request ho fl.

Lemma sound_do ini t fd ho cmd fl p o :
  sound t -> valid_request ho fl -> sound (snd (fst (filelock_do ini t fd ho cmd fl p o []))).
Proof.
  intros Hs Hv. unfold filelock_do. destruct (_ || _); [done|]. destruct ho as [h|]; [|done].
  destruct (Hv h eq_refl) as [Hr Hty]. destruct (cmd =? F_GETLK); [done|].
  destruct (Z.eqb_spec (l_type fl) F_UNLCK) as [Hu|Hu]; simpl negb; cbn iota.
  - destruct (apply_lock_spec t (lock_scope h) p o _ _ _ (proj1 Hs) Hr Hty) as [[_ ->]|(_ & t' & -> & Ht' & Hrep)]; [done|].
    split; [done|]. simpl. eapply replaced_exclusive; [apply Hs|by right|done].
  - destruct (_ && _); [done|]. by apply sound_attempt.
Qed.
Lemma excl_do ini t fd ho cmd fl p o :
  excl_ok t -> asks any_request ho fl -> excl_ok (snd (fst (filelock_do ini t fd ho cmd fl p o []))).
Proof.
  intros He Hv. unfold filelock_do. destruct (_ || _); [done|]. destruct ho as [h|]; [|done].
  specialize (Hv h eq_refl). unfold any_request in Hv. destruct (cmd =? F_GETLK); [done|].
  destruct (Z.eqb_spec (l_type fl) F_UNLCK) as [Hu|Hu]; simpl negb; cbn iota.
  - destruct (apply_lock _ _ _ _ _ _ _) as [[rc t']|] eqn:Ea; [|done]. simpl. eapply excl_apply; [done|exact Hv|by right|exact Ea].
  - destruct (_ && _); [done|]. by apply excl_attempt.
Qed.

(** The operations on the table, for requests of the shape [req].  A caller
    asleep in F_SETLKW takes its loop up again as a step of its own. *)
Inductive step (req : Z -> Z -> Z -> Prop) (t : table) : table -> Prop :=
  | step_set_lock ini fd ho cmd fl p : asks req ho fl ->
      step req t (snd (fst (filelock_set_lock ini t fd ho cmd fl p [])))
  | step_set_lock_ofd ini fd ho cmd fl p : asks req ho fl ->
      step req t (snd (fst (filelock_set_lock_ofd ini t fd ho cmd fl p [])))
  | step_flock ini fd ho op p : step req t (snd (fst (filelock_flock ini t fd ho op p [])))
  | step_resume ino p o s n ty : req s n ty -> ty <> F_UNLCK ->
      step req t (snd (wait_lock ino p o s n ty [] t))
  | step_release_ofd ini o : step req t (filelock_release_all_by_ofd ini t o)
  | step_release_pid ini p ino : step req t (filelock_release_all_by_pid_inode ini t p ino)
  | step_unlock ini fd node p : step req t (snd (filelock_unlock ini t fd node p)).

(** An invariant that requests of the shape keep, and releases. *)
Lemma step_keeps (req : Z -> Z -> Z -> Prop) (I : table -> Prop) :
  (forall ty, type_ok ty -> req 0 0 ty) ->
  (forall ini t fd ho cmd fl p o, I t -> asks req ho fl -> I (snd (fst (filelock_do ini t fd ho cmd fl p o [])))) ->
  (forall t ino p o s n ty, I t -> req s n ty -> ty <> F_UNLCK -> I (snd (wait_lock ino p o s n ty [] t))) ->
  (forall (q : file_lock -> bool) t, I t -> I (map (fun l => if q l then free_lock l else l) t)) ->
  forall t t', step req t t' -> I t -> I t'.
Proof.
  intros Hwhole Hdo Hwait Hrel t t' Hstep Ht.
  assert (Hpid : forall ini p ino, I (filelock_release_all_by_pid_inode ini t p ino)).
  { intros ini p ino. unfold filelock_release_all_by_pid_inode. destruct (_ || _); [done|].
    by apply (Hrel (fun l => active l && (inode l =? ino) && (pid l =? p))). }
  destruct Hstep.
  - by apply Hdo.
  - unfold filelock_set_lock_ofd. repeat break_goal; try done; by apply Hdo.
  - unfold filelock_flock. destruct (_ || _); [done|]. destruct (if _ =? LOCK_SH then _ else _) as [ty|] eqn:E; [|done].
    apply Hdo; [done|]. intros h _. apply Hwhole. repeat break_hyp E; simplify_eq; unfold type_ok; auto.
  - by apply Hwait.
  - unfold filelock_release_all_by_ofd. destruct (_ || _); [done|]. by apply (Hrel (fun l => active l && (ofd l =? o))).
  - apply Hpid.
  - unfold filelock_unlock. destruct (_ || _); [done|]. destruct node; [apply Hpid|done].
Qed.
Lemma step_sound t t' : step tidy_request t t' -> sound t -> sound t'.
Proof.
  apply step_keeps.
  - intros ty Hty. split; [unfold range_ok, U64_MAX; lia|done].
  - intros. by apply sound_do.
  - intros t0 ino p o s n ty Hs [Hr Hty] Hu. by apply sound_attempt.
  - intros. by apply sound_release.
Qed.
Lemma step_excl t t' : step any_request t t' -> excl_ok t -> excl_ok t'.
Proof.
  apply step_keeps.
  - intros ty _. unfold any_request, words, U64_MAX. lia.
  - intros. by apply excl_do.
  - intros t0 ino p o s n ty He Hr _. by apply excl_attempt.
  - intros. by apply excl_release.
Qed.

Lemma init_sound : sound filelock_init.
Proof.
  assert (Hi : forall i l, filelock_init !! i = Some l -> active l = false).
  { intros i l [-> _]%lookup_replicate. done. }
  split; [constructor; [done| |]|].
  - apply Forall_lookup_2. intros i l Hl Ha. rewrite (Hi i l Hl) in Ha. done.
  - intros i j a c b Ha _ H. rewrite (Hi i a Ha) in H. done.
  - intros x b w1 w2 k1 k2 (i & l & Hl & H & _). rewrite (Hi i l Hl) in H. done.
Qed.

Lemma init_excl : excl_ok filelock_init.
Proof. split; [done| |apply init_sound]. apply Forall_replicate. unfold words, U64_MAX. simpl. lia. Qed.

(** ** Properties *)

(** C31 (invariant).  Mutual exclusion: in every table the lock operations can reach from the
    empty one, through any interleaving of fcntl, flock, blocked requests that resume,
    releases on close and unlocks, a byte that two different owners hold is held for reading
    by both.  The requests are arbitrary: any 64-bit start and length, ranges that run past
    the last offset included, and any type, since the code checks neither.  If no request ran
    past the last offset or had a type of its own making, one owner's records on a file also
    never overlap and every record is a well-formed range of a read or write lock. *)
Theorem locks_exclude_each_other t :
  rtc (step any_request) filelock_init t ->
  exclusive t /\ (rtc (step tidy_request) filelock_init t -> tab_ok t).
Proof.
  intros H. split; [apply (rtc_invariant _ _ step_excl _ _ H init_excl)|].
  intros Ht. apply (rtc_invariant _ _ step_sound _ _ Ht init_sound).
Qed.

(** C32 (refinement).  A request for a range (F_SETLK, or one pass of the F_SETLKW loop) does
    what its byte-level specification says: if another owner holds a byte of the range with
    an excluding type it answers EAGAIN (or waits) and changes nothing; otherwise, if the
    table is short of the one or two slots it may need, it answers ENOMEM and changes
    nothing; otherwise it succeeds, and afterwards the requester holds exactly the requested
    type on exactly the requested bytes while every other byte and owner is as before,
    however many records were shrunk, split, removed or merged.  It always ends. *)
Theorem set_lock_refines_bytes t fd h cmd fl p o :
  tab_ok t -> 0 <= fd -> valid_request (Some h) fl -> cmd = F_SETLK \/ cmd = F_SETLKW ->
  let ino := lock_scope h in let s := lock_start h fl in let n := l_len fl in let ty := l_type fl in
  let refused := blocked t ino p o s n ty /\ ty <> F_UNLCK in
  match filelock_do true t fd (Some h) cmd fl p o [] with
  | (out, t', fl') =>
      fl' = fl /\ tab_ok t' /\
      ((refused /\ out = (if cmd =? F_SETLK then Done (- EAGAIN) else Waiting) /\ t' = t)
       \/ (~ refused /\ free_slots t < slots_needed t ino p o s n ty /\ out = Done (- ENOMEM) /\ t' = t)
       \/ (~ refused /\ slots_needed t ino p o s n ty <= free_slots t /\ out = Done 0 /\ replaced t t' ino p o s n ty))
  end.
Proof.
  intros Ht Hfd Hv Hcmd ino s n ty refused. destruct (Hv h eq_refl) as [Hr Hty].
  unfold filelock_do. rewrite (proj2 (Z.ltb_ge _ _) Hfd). cbn [negb orb].
  assert (Hng : (cmd =? F_GETLK) = false) by (destruct Hcmd as [-> | ->]; done). rewrite Hng. fold ino s n ty.
  destruct (Z.eqb_spec ty F_UNLCK) as [Hu|Hu]; simpl negb; cbn iota.
  - destruct (apply_lock_spec t ino p o s n ty Ht Hr Hty) as [[Hlt ->]|(Hge & t' & -> & Ht' & Hrep)]; split_and!; try done.
    + right; left. split_and!; try done. by intros [_ ?].
    + right; right. split_and!; try done. by intros [_ ?].
  - pose proof (conflict_exists_spec t ino p o s n ty Ht Hr) as Hc. pose proof (attempt_spec t ino p o s n ty Ht Hr Hty Hu) as Ha.
    destruct (filelock_conflict_exists t ino p o s n ty && (cmd =? F_SETLK)) eqn:E.
    + apply andb_true_iff in E as [E1 E2]. rewrite E2. split_and!; try done. left.
      split_and!; [split; [by apply Hc|done]|done|done].
    + destruct (wait_lock ino p o s n ty [] t) as [out t']. destruct Ha as [Ht' Ha]. split_and!; try done.
      destruct Ha as [(Hb & -> & ->)|[(Hb & ?)|(Hb & ?)]].
      * left. split_and!; try done. apply Hc in Hb. rewrite Hb in E. simpl in E. by rewrite E.
      * right; left. split; [by intros [? _]|done].
      * right; right. split; [by intros [? _]|done].
Qed.

(** (Functional.)  F_GETLK answers truthfully and changes no lock: it reports F_UNLCK, the
    rest of the request untouched, exactly when no other owner stands in the way of the
    request, and otherwise describes a record some other owner holds, which overlaps the range
    and excludes the type; the reported pid is the holder's, or -1 for a lock of an open file
    description. *)
Theorem getlk_reports_a_blocker t fd h fl p o waits :
  tab_ok t -> 0 <= fd -> valid_request (Some h) fl -> l_type fl <> F_UNLCK ->
  let ino := lock_scope h in let s := lock_start h fl in
  exists fl', filelock_do true t fd (Some h) F_GETLK fl p o waits = (Done 0, t, fl')
  /\ (l_type fl' = F_UNLCK <-> ~ blocked t ino p o s (l_len fl) (l_type fl))
  /\ (l_type fl' = F_UNLCK -> fl' = mkFlock F_UNLCK (l_whence fl) (l_start fl) (l_len fl) (l_pid fl))
  /\ (l_type fl' <> F_UNLCK ->
      exists l, In l t /\ active l = true /\ inode l = ino /\ owner_of l <> me p o
        /\ (exists b, covers l b /\ in_range_of s (l_len fl) b)
        /\ ~ (lock_type l = F_RDLCK /\ l_type fl = F_RDLCK)
        /\ fl' = mkFlock (lock_type l) SEEK_SET (start l) (len l) (if ofd l =? 0 then pid l else -1)).
Proof.
  intros Ht Hfd Hv Hu ino s. destruct (Hv h eq_refl) as [Hr Hty]. unfold filelock_do.
  rewrite (proj2 (Z.ltb_ge _ _) Hfd). cbn [negb orb]. simpl (F_GETLK =? F_GETLK). cbn iota. fold ino s.
  exists (getlk t ino p o s fl). split; [done|]. unfold getlk.
  pose proof (conflict_exists_spec t ino p o s (l_len fl) (l_type fl) Ht Hr) as Hc.
  destruct (first_index (conflicts_with ino p o s (l_len fl) (l_type fl)) t) as [i|] eqn:E.
  - apply first_index_Some in E as (l & Hi & Hl & _). rewrite (list_lookup_total_correct t i l Hi).
    assert (Hin : In l t) by by apply list_elem_of_In, list_elem_of_lookup_2 with i.
    assert (Hb : blocked t ino p o s (l_len fl) (l_type fl)) by (apply Hc, existsb_exists; by exists l).
    apply (conflicts_with_spec t ino p o s (l_len fl) (l_type fl) i l) in Hl as (C1 & C2 & C3 & C4 & C5); try done.
    assert (Hlt : lock_type l <> F_UNLCK).
    { destruct (Forall_lookup_1 _ _ _ _ (ok_locks _ Ht) Hi C1) as [_ [-> | ->]]; done. }
    simpl. split_and!; try done. intros _. exists l. split_and!; try done. by destruct (ofd l =? 0).
  - simpl. split_and!; try done. split; [|done]. intros _ Hb%Hc. unfold filelock_conflict_exists in Hb.
    apply existsb_exists in Hb as (l & [i Hi]%list_elem_of_In%list_elem_of_lookup & Hl).
    rewrite (first_index_None (conflicts_with ino p o s (l_len fl) (l_type fl)) t) in E.
    specialize (E i l Hi). congruence.
Qed.

(** ** Witnesses and examples *)

Definition file1 : handle := mkHandle 900 0 (Some (77, 4096)).
Definition wr (s n : Z) : flock := mkFlock F_WRLCK SEEK_SET s n 0.
Definition rd (s n : Z) : flock := mkFlock F_RDLCK SEEK_SET s n 0.
Definition after_wr (t : table) p s n := snd (fst (filelock_set_lock true t 3 (Some file1) F_SETLK (wr s n) p [])).
Definition after_rd (t : table) p s n := snd (fst (filelock_set_lock true t 3 (Some file1) F_SETLK (rd s n) p [])).
(** Process 10 locks 0..99, then takes the middle down to a read lock, which splits its record. *)
Definition demo : table := after_rd (after_wr filelock_init 10 0 100) 10 40 20.

Lemma valid_small s n ty : 0 <= s <= 1000 -> 0 <= n <= 1000 -> type_ok ty ->
  valid_request (Some file1) (mkFlock ty SEEK_SET s n 0).
Proof. intros Hs Hn Hty h [= <-]. split; [|done]. unfold range_ok, lock_start, U64_MAX. simpl. lia. Qed.
Lemma demo_reachable : rtc (step tidy_request) filelock_init demo.
Proof.
  eapply rtc_l; [|eapply rtc_l; [|apply rtc_refl]].
  - apply (step_set_lock _ filelock_init true 3 (Some file1) F_SETLK (wr 0 100) 10). apply valid_small; [lia..|by right; left].
  - apply (step_set_lock _ _ true 3 (Some file1) F_SETLK (rd 40 20) 10). apply valid_small; [lia..|by left].
Qed.
Lemma demo_ok : tab_ok demo.
Proof. exact (proj1 (rtc_invariant _ _ step_sound _ _ demo_reachable init_sound)). Qed.

(** Process 12 then asks for a range from 50 past the last offset, with a type
    that is neither of the two. *)
Definition odd : flock := mkFlock 7 SEEK_SET 50 (U64_MAX - 9) 0.
Definition demo_odd : table := snd (fst (filelock_set_lock true demo 3 (Some file1) F_SETLK odd 12 [])).
Lemma any_small s n ty : words s n -> asks any_request (Some file1) (mkFlock ty SEEK_SET s n 0).
Proof. by intros H h [= <-]. Qed.
Lemma locks_exclude_each_other_witness :
  count_if active demo_odd = 4%nat /\ exclusive demo_odd
  /\ (rtc (step tidy_request) filelock_init demo_odd -> tab_ok demo_odd).
Proof.
  split; [vm_compute; reflexivity|]. apply (locks_exclude_each_other demo_odd).
  eapply rtc_l; [|eapply rtc_l; [|eapply rtc_l; [|apply rtc_refl]]].
  - apply (step_set_lock _ filelock_init true 3 (Some file1) F_SETLK (wr 0 100) 10). apply any_small. unfold words, U64_MAX. lia.
  - apply (step_set_lock _ _ true 3 (Some file1) F_SETLK (rd 40 20) 10). apply any_small. unfold words, U64_MAX. lia.
  - apply (step_set_lock _ demo true 3 (Some file1) F_SETLK odd 12). apply any_small. unfold words, U64_MAX. lia.
Defined.

Lemma set_lock_refines_bytes_witness :
  fst (fst (filelock_do true demo 3 (Some file1) F_SETLK (wr 10 5) 11 0 [])) = Done (- EAGAIN)
  /\ fst (fst (filelock_do true demo 3 (Some file1) F_SETLK (rd 45 10) 11 0 [])) = Done 0
  /\ exists out t' fl', filelock_do true demo 3 (Some file1) F_SETLK (rd 45 10) 11 0 [] = (out, t', fl') /\ fl' = rd 45 10 /\ tab_ok t'.
Proof.
  split; [vm_compute; reflexivity|]. split; [vm_compute; reflexivity|].
  pose proof (set_lock_refines_bytes demo 3 file1 F_SETLK (rd 45 10) 11 0 demo_ok ltac:(lia)
                (valid_small 45 10 F_RDLCK ltac:(lia) ltac:(lia) (or_introl eq_refl)) (or_introl eq_refl)) as H.
  cbv zeta in H. destruct (filelock_do true demo 3 (Some file1) F_SETLK (rd 45 10) 11 0 []) as [[out t'] fl'].
  exists out, t', fl'. split; [reflexivity|]. split; [exact (proj1 H)|exact (proj1 (proj2 H))].
Defined.

Lemma getlk_reports_a_blocker_witness :
  snd (filelock_do true demo 3 (Some file1) F_GETLK (wr 50 1) 11 0 []) = mkFlock F_RDLCK SEEK_SET 40 20 10
  /\ exists fl', filelock_do true demo 3 (Some file1) F_GETLK (wr 50 1) 11 0 [] = (Done 0, demo, fl').
Proof.
  split; [vm_compute; reflexivity|].
  destruct (getlk_reports_a_blocker demo 3 file1 (wr 50 1) 11 0 [] demo_ok ltac:(lia)
              (valid_small 50 1 F_WRLCK ltac:(lia) ltac:(lia) (or_intror (or_introl eq_refl))) ltac:(discriminate)) as (fl' & H & _).
  exists fl'. exact H.
Defined.

(** A lock of an open file description is dropped when its process releases its
    own locks on the inode. *)
Example release_by_pid_drops_ofd_locks :
  let t := snd (fst (filelock_set_lock_ofd true filelock_init 3 (Some file1) F_OFD_SETLK (wr 0 100) 10 [])) in
  count_if active t = 1%nat /\ count_if active (filelock_release_all_by_pid_inode true t 10 77) = 0%nat.
Proof. vm_compute. split; reflexivity. Qed.

(** A range that runs past the last offset is accepted and excludes nobody. *)
Example wrapped_range_excludes_nobody :
  let t := after_wr filelock_init 10 100 (U64_MAX - 9) in
  count_if active t = 1%nat
  /\ fst (fst (filelock_set_lock true t 3 (Some file1) F_SETLK (wr 100 1) 11 [])) = Done 0.
Proof. vm_compute. split; reflexivity. Qed.

(** [filelock_check_lock] overlooks a lock of another open file description of
    the same process, which F_OFD_SETLK refuses. *)
Example check_lock_overlooks_same_pid :
  let t := snd (fst (filelock_set_lock_ofd true filelock_init 3 (Some file1) F_OFD_SETLK (wr 0 100) 10 [])) in
  filelock_check_lock true t 3 (Some 77) 10 F_WRLCK 0 10 = None
  /\ fst (fst (filelock_set_lock true t 3 (Some file1) F_SETLK (wr 0 10) 10 [])) = Done (- EAGAIN).
Proof. vm_compute. split; reflexivity. Qed.

End FileLockProofs.
