(* ===== verification/Runqueue.v ===== *)
(** The run queues ([kernel/sched/runqueue.c]): one shared queue and one per CPU,
    singly linked through [next_run], with the validity and length checks that
    turn a corrupt list into a panic, and work stealing between CPUs.

    Tasks live in a heap of records at addresses; address 0 is the null pointer,
    and a dereference of an address that holds no task is a fault.  Each
    operation is the critical section its lock makes it.  The side tables
    indexed by task slot that the pickers read are fields of the task. *)
From S2P Require Import Prelude.
Local Open Scope Z_scope.
Local Open Scope kernel_scope.

Module Runqueue.

(** ** State *)

Definition TASK_RUNNING := 1.
Definition TASK_READY := 2.
Definition TASK_CHUNK_SIZE : nat := 64.
Definition TASK_MAX_CHUNKS : nat := 64.
Definition MAX_CPUS : nat := 64.
Definition RQ_WALK_LIMIT : nat := 4096.
Definition RQ_OWNER_SLOTS : nat := 16.

Record task := mkTask {
  next_run : Z; state : Z; stealable : bool; stack_released : Z;
  g_task_affinity : Z; g_task_constructing : bool }.
Record runqueue := mkRq { lock : Z; head : Z; tail : Z }.
Record percpu := mkCpu { cpu_online : bool; cpu_id : Z; cpu_runqueue : runqueue; cur_task : Z }.
Record owner := mkOwner { o_lock : Z; o_cpu : Z; o_caller : Z }.
#[global] Instance owner_inhabited : Inhabited owner := populate (mkOwner 0 0 0).

(** Where the task structures are: the chunks allocated so far, in order, and
    the idle tasks outside of them. *)
Record layout := mkLayout { task_size : Z; g_task_chunks : list Z; g_ap_idle_tasks : list Z }.

Record kern := mkKern {
  heap : gmap Z task; lay : layout; g_rq_owner : list owner;
  g_global_rq : runqueue; cpu_data : list (option percpu); g_max_cpus : Z }.

Definition set_heap (h : gmap Z task) (k : kern) : kern :=
  mkKern h (lay k) (g_rq_owner k) (g_global_rq k) (cpu_data k) (g_max_cpus k).
Definition set_owner (o : list owner) (k : kern) : kern :=
  mkKern (heap k) (lay k) o (g_global_rq k) (cpu_data k) (g_max_cpus k).

(** A queue is the global one or that of a CPU. *)
Inductive rqref := Global | Cpu (i : nat).
#[global] Instance rqref_eq_dec : EqDecision rqref.
Proof. solve_decision. Defined.

Definition set_runqueue (q : runqueue) (p : percpu) : percpu :=
  mkCpu (cpu_online p) (cpu_id p) q (cur_task p).
Definition rq_of (k : kern) (r : rqref) : option runqueue :=
  match r with
  | Global => Some (g_global_rq k)
  | Cpu i => match cpu_data k !! i with Some (Some p) => Some (cpu_runqueue p) | _ => None end
  end.
Definition set_rq (r : rqref) (q : runqueue) (k : kern) : kern :=
  match r with
  | Global => mkKern (heap k) (lay k) (g_rq_owner k) q (cpu_data k) (g_max_cpus k)
  | Cpu i => mkKern (heap k) (lay k) (g_rq_owner k) (g_global_rq k)
               (alter (fmap (set_runqueue q)) i (cpu_data k)) (g_max_cpus k)
  end.

(** [get_percpu_n]: null past the end, for an absent CPU and for one that is not
    online. *)
Definition get_percpu_n (k : kern) (idx : nat) : option percpu :=
  match cpu_data k !! idx with
  | Some (Some p) => if cpu_online p then Some p else None
  | _ => None
  end.

Definition load_task (k : kern) (p : Z) : res task :=
  match heap k !! p with Some t => Ok t | None => Fault end.
Definition set_next (n : Z) (t : task) : task :=
  mkTask n (state t) (stealable t) (stack_released t) (g_task_affinity t) (g_task_constructing t).
(** [p->next_run = n] *)
Definition store_next (p n : Z) (k : kern) : res kern :=
  let* t := load_task k p in Ok (set_heap (<[p := set_next n t]> (heap k)) k).

(** ** sched_task_ptr_valid *)

Fixpoint in_chunks (size : Z) (chunks : list Z) (t : Z) : option bool :=
  match chunks with
  | [] => None
  | base :: chunks' =>
      if base =? 0 then None
      else if (base <=? t) && (t <? base + Z.of_nat TASK_CHUNK_SIZE * size)
      then Some ((t - base) mod size =? 0)
      else in_chunks size chunks' t
  end.
Definition sched_task_ptr_valid (l : layout) (t : Z) : bool :=
  if t =? 0 then false
  else match in_chunks (task_size l) (g_task_chunks l) t with
       | Some b => b
       | None => existsb (fun p => p =? t) (g_ap_idle_tasks l)
       end.
Definition bad_next (k : kern) (n : Z) : bool := (n <>? 0) && negb (sched_task_ptr_valid (lay k) n).

(** ** Who holds a lock *)

(** [self] is this CPU's number in [cpu_data], absent before per-CPU data exists. *)
Definition self_cpu (k : kern) (self : option nat) : option percpu :=
  match self with
  | Some i => match cpu_data k !! i with Some (Some p) => Some p | _ => None end
  | None => None
  end.
Definition rq_owner_set (k : kern) (self : option nat) (rq_lock caller : Z) : kern :=
  match first_index (fun o => (o_lock o =? 0) || (o_lock o =? rq_lock)) (g_rq_owner k) with
  | Some i =>
      let cpu := match self_cpu k self with Some p => cpu_id p | None => 4294967295 end in
      set_owner (<[i := mkOwner rq_lock cpu caller]> (g_rq_owner k)) k
  | None => k
  end.
Definition rq_owner_clear (k : kern) (rq_lock : Z) : kern :=
  match first_index (fun o => o_lock o =? rq_lock) (g_rq_owner k) with
  | Some i => set_owner (alter (fun o => mkOwner 0 (o_cpu o) (o_caller o)) i (g_rq_owner k)) k
  | None => k
  end.
(** The CPU and the caller that the lockup report names. *)
Definition rq_describe_lock (k : kern) (lk : Z) : option (Z * Z) :=
  match first_index (fun o => o_lock o =? lk) (g_rq_owner k) with
  | Some i => let o := g_rq_owner k !!! i in Some (o_cpu o, o_caller o)
  | None => None
  end.

(** ** Enqueue, dequeue, remove *)

(** The walk of [rq_enqueue]: whether [t] is on the list.  [left] is what
    [walked] still allows. *)
Fixpoint enqueue_walk (left : nat) (k : kern) (t c : Z) : res bool :=
  if c =? 0 then Ok false
  else if c =? t then Ok true
  else match left with
       | O => Panic "runqueue list is cyclic"
       | S left' =>
           let* x := load_task k c in
           if bad_next k (next_run x) then Panic "runqueue list is corrupt"
           else enqueue_walk left' k t (next_run x)
       end.

Definition link_tail (r : rqref) (q : runqueue) (t : Z) (k : kern) : res kern :=
  let* k := store_next t 0 k in
  if tail q <>? 0 then let* k := store_next (tail q) t k in Ok (set_rq r (mkRq (lock q) (head q) t) k)
  else Ok (set_rq r (mkRq (lock q) t t) k).

Definition rq_enqueue (self : option nat) (caller : Z) (r : rqref) (t : Z) (k : kern) : res kern :=
  match rq_of k r with
  | None => Fault
  | Some q =>
      let k := rq_owner_set k self (lock q) caller in
      let* found := enqueue_walk RQ_WALK_LIMIT k t (head q) in
      if found then Ok (rq_owner_clear k (lock q))
      else
        let* k := link_tail r q t k in
        Ok (rq_owner_clear k (lock q))
  end.

Definition rq_dequeue (self : option nat) (caller : Z) (r : rqref) (k : kern) : res (Z * kern) :=
  match rq_of k r with
  | None => Fault
  | Some q =>
      let k := rq_owner_set k self (lock q) caller in
      let t := head q in
      if (t <>? 0) && negb (sched_task_ptr_valid (lay k) t) then Panic "runqueue list is corrupt"
      else if t =? 0 then Ok (t, rq_owner_clear k (lock q))
      else
        let* x := load_task k t in
        if bad_next k (next_run x) then Panic "runqueue list is corrupt"
        else
          let h := next_run x in
          let* k := store_next t 0 k in
          Ok (t, rq_owner_clear (set_rq r (mkRq (lock q) h (if h =? 0 then 0 else tail q)) k) (lock q))
  end.

Definition unlink (r : rqref) (q : runqueue) (prev cur next : Z) (k : kern) : res kern :=
  let* k := if prev <>? 0 then store_next prev next k else Ok (set_rq r (mkRq (lock q) next (tail q)) k) in
  let h := if prev <>? 0 then head q else next in
  let k := if tail q =? cur then set_rq r (mkRq (lock q) h prev) k else k in
  store_next cur 0 k.

Fixpoint remove_walk (left : nat) (r : rqref) (t prev cur : Z) (removed : bool) (k : kern) : res (bool * kern) :=
  if cur =? 0 then Ok (removed, k)
  else
    let* x := load_task k cur in
    let next := next_run x in
    match left with
    | O => Panic "runqueue list is cyclic"
    | S left' =>
        if bad_next k next then Panic "runqueue list is corrupt"
        else if cur =? t then
          match rq_of k r with
          | None => Fault
          | Some q =>
              let* k := unlink r q prev cur next k in
              remove_walk left' r t prev next true k
          end
        else remove_walk left' r t cur next removed k
    end.
Definition rq_remove (self : option nat) (caller : Z) (r : rqref) (t : Z) (k : kern) : res (bool * kern) :=
  match rq_of k r with
  | None => Fault
  | Some q =>
      let k := rq_owner_set k self (lock q) caller in
      let* '(removed, k) := remove_walk RQ_WALK_LIMIT r t 0 (head q) false k in
      Ok (removed, rq_owner_clear k (lock q))
  end.

(** ** The scheduler's entry points *)

Definition sched_rq_enqueue_current (self : option nat) (caller : Z) (t : Z) (k : kern) : res kern :=
  let* x := load_task k t in
  if stealable x then
    match self with
    | Some i => rq_enqueue self caller (Cpu i) t k
    | None => Ok k
    end
  else rq_enqueue self caller Global t k.

(** The loop over the CPUs below [g_max_cpus] that are there. *)
Fixpoint remove_from_cpus (self : option nat) (caller : Z) (t : Z) (cpus : list nat) (k : kern) : res kern :=
  match cpus with
  | [] => Ok k
  | i :: cpus' =>
      match get_percpu_n k i with
      | Some _ => let* '(_, k) := rq_remove self caller (Cpu i) t k in remove_from_cpus self caller t cpus' k
      | None => remove_from_cpus self caller t cpus' k
      end
  end.
Definition each_cpu (k : kern) : list nat := seq 0 (Z.to_nat (g_max_cpus k)).

Definition sched_rq_remove_task_all (self : option nat) (caller : Z) (t : Z) (k : kern) : res kern :=
  let* '(_, k) := rq_remove self caller Global t k in
  remove_from_cpus self caller t (each_cpu k) k.
Definition sched_rq_remove_task (self : option nat) (caller : Z) (t : Z) (k : kern) : res kern :=
  let* x := load_task k t in
  if stealable x then remove_from_cpus self caller t (each_cpu k) k
  else let* '(_, k) := rq_remove self caller Global t k in Ok k.

(** The diagnostic walk gives up where the others panic. *)
Fixpoint contains_walk (left : nat) (k : kern) (t c : Z) : res bool :=
  if c =? 0 then Ok false
  else if c =? t then Ok true
  else match left with
       | O => Ok false
       | S left' =>
           let* x := load_task k c in
           if bad_next k (next_run x) then Ok false else contains_walk left' k t (next_run x)
       end.
Fixpoint contains_any (k : kern) (t : Z) (heads : list Z) : res bool :=
  match heads with
  | [] => Ok false
  | h :: heads' => let* b := contains_walk RQ_WALK_LIMIT k t h in if b then Ok true else contains_any k t heads'
  end.
Definition online_heads (k : kern) (cpus : list nat) : list Z :=
  omap (fun i => (fun p => head (cpu_runqueue p)) <$> get_percpu_n k i) cpus.
Definition sched_rq_contains_task (t : Z) (k : kern) : res bool :=
  if t =? 0 then Ok false
  else contains_any k t (head (g_global_rq k) :: online_heads k (seq 0 MAX_CPUS)).

Definition sched_other_work_pending (k : kern) : bool :=
  (head (g_global_rq k) <>? 0) || existsb (fun h => h <>? 0) (online_heads k (each_cpu k)).

(** ** Claiming and stealing *)

Definition task_running_somewhere (k : kern) (t : Z) : bool :=
  existsb (fun i => match get_percpu_n k i with Some p => cur_task p =? t | None => false end) (each_cpu k).
Definition sched_task_allowed_on_cpu (x : task) (cpu : Z) : bool :=
  if (cpu <? 0) || (63 <? cpu) then true
  else (g_task_affinity x =? 0) || (g_task_affinity x &? Z.shiftl 1 cpu).

Definition set_claim (st rel : Z) (x : task) : task :=
  mkTask (next_run x) st (stealable x) rel (g_task_affinity x) (g_task_constructing x).
(** The compare-and-swaps of [task_claim] in the order it does them. *)
Definition task_claim (t : Z) (k : kern) : res (bool * kern) :=
  let* x := load_task k t in
  if g_task_constructing x then Ok (false, k)
  else if task_running_somewhere k t then Ok (false, k)
  else if stack_released x <>? 1 then Ok (false, k)
  else
    let k1 := set_heap (<[t := set_claim (state x) 0 x]> (heap k)) k in
    if task_running_somewhere k1 t || (state x <>? TASK_READY)
    then Ok (false, set_heap (<[t := set_claim (state x) 1 x]> (heap k1)) k1)
    else Ok (true, set_heap (<[t := set_claim TASK_RUNNING 0 x]> (heap k1)) k1).

(** One victim: the task stolen from it, or 0. *)
Definition steal_from (self : option nat) (caller : Z) (i : nat) (k : kern) : res (Z * kern) :=
  match get_percpu_n k i with
  | None => Ok (0, k)
  | Some victim =>
      if bool_decide (self = Some i) || (head (cpu_runqueue victim) =? 0) then Ok (0, k)
      else
        let* '(t, k) := rq_dequeue self caller (Cpu i) k in
        if t =? 0 then Ok (0, k)
        else
          let* x := load_task k t in
          let pinned := match self_cpu k self with
                        | Some p => negb (sched_task_allowed_on_cpu x (cpu_id p))
                        | None => false
                        end in
          if pinned then let* k := rq_enqueue self caller (Cpu i) t k in Ok (0, k)
          else
            let* '(claimed, k) :=
              if (state x =? TASK_READY) && stealable x && (stack_released x <>? 0) && negb (task_running_somewhere k t)
              then task_claim t k else Ok (false, k) in
            if claimed then
              let* x := load_task k t in
              Ok (t, set_heap (<[t := set_claim (state x) 0 x]> (heap k)) k)
            else let* k := rq_enqueue self caller (Cpu i) t k in Ok (0, k)
  end.
Fixpoint steal_loop (self : option nat) (caller : Z) (cpus : list nat) (k : kern) : res (Z * kern) :=
  match cpus with
  | [] => Ok (0, k)
  | i :: cpus' =>
      let* '(t, k) := steal_from self caller i k in
      if t <>? 0 then Ok (t, k) else steal_loop self caller cpus' k
  end.
Definition sched_steal_task (self : option nat) (caller : Z) (k : kern) : res (Z * kern) :=
  steal_loop self caller (each_cpu k) k.

End Runqueue.
