(* ===== verification/RunqueueProofs.v ===== *)
(** Properties of the run queues: the pointer operations implement list
    operations on every queue at once, no reachable state panics, what stealing
    may take, and that a corrupt list is reported instead of walked for ever. *)
From S2P Require Import Prelude Runqueue.
From stdpp Require Import list.
Local Open Scope Z_scope.
Local Open Scope kernel_scope.

Module RunqueueProofs.
Import Runqueue.

(** ** Task slots *)

Definition chunk_slots (size base : Z) : list Z := (fun i => base + i * size) <$> seqZ 0 (Z.of_nat TASK_CHUNK_SIZE).
Definition slots (l : layout) : list Z := g_task_chunks l ≫= chunk_slots (task_size l).

Definition apart (size a b : Z) : Prop :=
  a + Z.of_nat TASK_CHUNK_SIZE * size <= b \/ b + Z.of_nat TASK_CHUNK_SIZE * size <= a.
Fixpoint chunks_ok (size : Z) (cs : list Z) : Prop :=
  match cs with
  | [] => True
  | b :: cs' => 0 < b /\ Forall (apart size b) cs' /\ chunks_ok size cs'
  end.
Definition layout_ok (l : layout) : Prop :=
  0 < task_size l /\ chunks_ok (task_size l) (g_task_chunks l) /\ (length (g_task_chunks l) <= TASK_MAX_CHUNKS)%nat.

Lemma chunk_slots_spec size base t :
  t ∈ chunk_slots size base <-> exists i, 0 <= i < Z.of_nat TASK_CHUNK_SIZE /\ t = base + i * size.
Proof.
  unfold chunk_slots. rewrite list_elem_of_fmap. split.
  - intros (i & -> & Hi%elem_of_seqZ). exists i. split; [lia|done].
  - intros (i & Hi & ->). exists i. split; [done|]. apply elem_of_seqZ. lia.
Qed.

Lemma in_chunks_slot size cs t :
  0 < size -> chunks_ok size cs -> t ∈ (cs ≫= chunk_slots size) -> in_chunks size cs t = Some true /\ 0 < t.
Proof.
  intros Hs. induction cs as [|b cs IH]; [by intros _ ?%elem_of_nil|].
  rewrite bind_cons. cbn [in_chunks chunks_ok].
  intros (Hb & Hap & Hok) [Ht|Ht]%elem_of_app; rewrite (proj2 (Z.eqb_neq b 0)) by lia.
  - apply chunk_slots_spec in Ht as (i & Hi & ->).
    rewrite (proj2 (Z.leb_le _ _)), (proj2 (Z.ltb_lt _ _)) by nia. simpl.
    replace (b + i * size - b) with (i * size) by lia. rewrite Z_mod_mult. split; [done|nia].
  - destruct (IH Hok Ht) as [Hin Hpos]. split; [|done].
    apply list_elem_of_bind in Ht as (c & Ht & Hc). apply chunk_slots_spec in Ht as (i & Hi & ->).
    pose proof (proj1 (Forall_forall _ _) Hap c Hc) as Hab. unfold apart in Hab.
    destruct (Z.leb_spec b (c + i * size)), (Z.ltb_spec (c + i * size) (b + Z.of_nat TASK_CHUNK_SIZE * size)); simpl; try done.
    exfalso. nia.
Qed.
Lemma slot_valid l t : layout_ok l -> t ∈ slots l -> sched_task_ptr_valid l t = true /\ 0 < t.
Proof.
  intros (Hs & Hc & _) Ht. destruct (in_chunks_slot _ _ _ Hs Hc Ht) as [H1 H2]. split; [|done].
  unfold sched_task_ptr_valid. rewrite (proj2 (Z.eqb_neq t 0)) by lia. by rewrite H1.
Qed.
Lemma slots_length l : layout_ok l -> (length (slots l) <= RQ_WALK_LIMIT)%nat.
Proof.
  intros (_ & _ & Hl). assert (H : forall cs, length (cs ≫= chunk_slots (task_size l)) = (length cs * TASK_CHUNK_SIZE)%nat).
  { induction cs as [|b cs IH]; [done|]. rewrite bind_cons, length_app, IH. unfold chunk_slots. by rewrite length_fmap, length_seqZ. }
  unfold slots. rewrite H. unfold TASK_MAX_CHUNKS, TASK_CHUNK_SIZE, RQ_WALK_LIMIT in *. lia.
Qed.
(** A queue without repetitions is within the walk limit. *)
Lemma queue_length l q : layout_ok l -> NoDup q -> (forall t, t ∈ q -> t ∈ slots l) -> (length q <= RQ_WALK_LIMIT)%nat.
Proof.
  intros Hl Hn Hs. etrans; [|by apply slots_length]. apply submseteq_length. by apply NoDup_submseteq.
Qed.

#[local] Opaque RQ_WALK_LIMIT.

(** ** Linked lists *)

(** Following [next_run] from [p] visits [l] and arrives at [e]. *)
Fixpoint seg (h : gmap Z task) (p : Z) (l : list Z) (e : Z) : Prop :=
  match l with
  | [] => p = e
  | x :: l' => p = x /\ exists tk, h !! x = Some tk /\ seg h (next_run tk) l' e
  end.

Lemma seg_app h p l1 l2 e : seg h p (l1 ++ l2) e <-> exists m, seg h p l1 m /\ seg h m l2 e.
Proof.
  revert p. induction l1 as [|x l1 IH]; intros p; simpl; [split; [by exists p|by intros (m & -> & H)]|]. split.
  - intros (-> & tk & Hx & (m & H1 & H2)%IH). exists m. split; [|done]. split; [done|by exists tk].
  - intros (m & (-> & tk & Hx & H1) & H2). split; [done|]. exists tk. split; [done|]. apply IH. by exists m.
Qed.
Lemma seg_frame h h' p l e :
  (forall x, x ∈ l -> next_run <$> h' !! x = next_run <$> h !! x) -> seg h p l e -> seg h' p l e.
Proof.
  revert p. induction l as [|x l IH]; intros p Hf H; simpl in *; [done|]. destruct H as (-> & tk & Hx & H).
  split; [done|]. pose proof (Hf x (list_elem_of_here _ _)) as Hn. rewrite Hx in Hn. simpl in Hn.
  apply fmap_Some in Hn as (tk' & Hx' & Hn). exists tk'. split; [done|]. rewrite <- Hn. apply IH; [|done].
  intros y Hy. apply Hf. by right.
Qed.
Lemma seg_insert h p l e x tk : x ∉ l -> seg h p l e -> seg (<[x := tk]> h) p l e.
Proof. intros Hx. apply seg_frame. intros y Hy. rewrite lookup_insert_ne; [done|by intros ->]. Qed.

(** The last node of a list now points at [t]. *)
Lemma seg_append h p l x tx t tt :
  seg h p (l ++ [x]) 0 -> NoDup (l ++ [x]) -> t ∉ (l ++ [x]) -> h !! x = Some tx -> h !! t = Some tt ->
  seg (<[x := set_next t tx]> (<[t := set_next 0 tt]> h)) p (l ++ [x] ++ [t]) 0.
Proof.
  intros Hs Hn Ht Hx Htt. apply seg_app in Hs as (m & H1 & H2). apply seg_app. exists m.
  assert (Hxl : x ∉ l) by (apply list.NoDup_app in Hn as (_ & Hd & _); intros Hi; apply (Hd x Hi); by left).
  assert (Htl : (t ∉ l) /\ t <> x) by (split; [intros Hi; apply Ht, elem_of_app; by left|intros ->; apply Ht, elem_of_app; right; by left]).
  split; [apply seg_insert; [done|]; apply seg_insert; [apply Htl|done]|]. destruct H2 as (-> & _). simpl. split; [done|].
  exists (set_next t tx). rewrite lookup_insert_eq. split; [done|]. simpl. split; [done|].
  exists (set_next 0 tt). rewrite lookup_insert_ne by (intros E; by destruct Htl). by rewrite lookup_insert_eq.
Qed.

(** ** All queues together *)

Record queues_ok (k : kern) (q : rqref -> list Z) : Prop := {
  qk_layout : layout_ok (lay k);
  qk_heap : forall t, t ∈ slots (lay k) -> is_Some (heap k !! t);
  qk_list : forall r rq, rq_of k r = Some rq -> seg (heap k) (head rq) (q r) 0 /\ tail rq = default 0 (last (q r));
  qk_none : forall r, rq_of k r = None -> q r = [];
  qk_nodup : forall r, NoDup (q r);
  qk_slots : forall r t, t ∈ q r -> t ∈ slots (lay k);
  qk_apart : forall r r' t, t ∈ q r -> t ∈ q r' -> r = r' }.

Definition upd (q : rqref -> list Z) (r : rqref) (l : list Z) : rqref -> list Z :=
  fun r' => if decide (r' = r) then l else q r'.
Lemma upd_eq q r l : upd q r l r = l.
Proof. unfold upd. by rewrite decide_True. Qed.
Lemma upd_ne q r l r' : r' <> r -> upd q r l r' = q r'.
Proof. intros H. unfold upd. by rewrite decide_False. Qed.

(** Everything but the links: what the queue operations leave alone. *)
Definition no_rq : runqueue := mkRq 0 0 0.
Definition erase (k : kern) : kern :=
  mkKern (fmap (M := gmap Z) (set_next 0) (heap k)) (lay k) [] no_rq
    (fmap (M := list) (fmap (M := option) (set_runqueue no_rq)) (cpu_data k)) (g_max_cpus k).

Lemma rq_of_set_rq k r rq rq' : rq_of k r = Some rq -> rq_of (set_rq r rq' k) r = Some rq'.
Proof.
  destruct r as [|i]; simpl; [done|]. rewrite list_lookup_alter_eq.
  destruct (cpu_data k !! i) as [[p|]|]; simpl; done.
Qed.
Lemma rq_of_set_rq_ne k r r' rq' : r' <> r -> rq_of (set_rq r rq' k) r' = rq_of k r'.
Proof. destruct r as [|i], r' as [|j]; simpl; intros H; try done. rewrite list_lookup_alter_ne; [done|congruence]. Qed.
Lemma erase_set_rq k r rq' : erase (set_rq r rq' k) = erase k.
Proof.
  destruct r as [|i]; [done|]. unfold erase. simpl. f_equal. apply list_eq. intros j.
  rewrite !list_lookup_fmap. destruct (decide (j = i)) as [->|Hj]; [|by rewrite list_lookup_alter_ne].
  rewrite list_lookup_alter_eq. by destruct (cpu_data k !! i) as [[p|]|].
Qed.
Lemma erase_set_heap k p tk n : heap k !! p = Some tk -> erase (set_heap (<[p := set_next n tk]> (heap k)) k) = erase k.
Proof.
  intros Hp. unfold erase. simpl. f_equal. rewrite fmap_insert. apply insert_id. by rewrite lookup_fmap, Hp.
Qed.
Lemma erase_rq_of k k' r : erase k' = erase k -> is_Some (rq_of k' r) <-> is_Some (rq_of k r).
Proof.
  intros He. destruct r as [|i]; simpl; [by split; eauto|]. injection He as _ _ Hc _.
  apply (f_equal (fun l => l !! i)) in Hc. rewrite !list_lookup_fmap in Hc.
  destruct (cpu_data k' !! i) as [[p'|]|], (cpu_data k !! i) as [[p|]|]; simpl in Hc; simplify_eq;
    split; intros [? ?]; simplify_eq; eauto.
Qed.
Lemma erase_lookup k k' p : erase k' = erase k -> set_next 0 <$> heap k' !! p = set_next 0 <$> heap k !! p.
Proof. intros He. injection He as Hh _ _ _. apply (f_equal (fun m => m !! p)) in Hh. by rewrite !lookup_fmap in Hh. Qed.
Lemma erase_percpu k k' i : erase k' = erase k -> set_runqueue no_rq <$> get_percpu_n k' i = set_runqueue no_rq <$> get_percpu_n k i.
Proof.
  intros He. injection He as _ _ Hc _. apply (f_equal (fun l => l !! i)) in Hc. rewrite !list_lookup_fmap in Hc. unfold get_percpu_n.
  destruct (cpu_data k' !! i) as [[p'|]|], (cpu_data k !! i) as [[p|]|]; simpl in Hc; simplify_eq; try done.
  destruct p' as [o' ? ? ?], p as [o ? ? ?]; simpl in *. simplify_eq. by destruct o.
Qed.
Lemma erase_running k k' t : erase k' = erase k -> task_running_somewhere k' t = task_running_somewhere k t.
Proof.
  intros He. unfold task_running_somewhere, each_cpu. assert (g_max_cpus k' = g_max_cpus k) as -> by exact (f_equal g_max_cpus He).
  induction (seq 0 _) as [|i l IH]; [done|]. simpl. rewrite IH. f_equal. pose proof (erase_percpu k k' i He) as Hp.
  destruct (get_percpu_n k' i), (get_percpu_n k i); simpl in Hp; simplify_eq; congruence.
Qed.

(** The owner table is apart from the queues. *)
Lemma owner_set_eq k self lk c : exists o, rq_owner_set k self lk c = set_owner o k.
Proof. unfold rq_owner_set. destruct (first_index _ _); [eauto|]. exists (g_rq_owner k). by destruct k. Qed.
Lemma owner_clear_eq k lk : exists o, rq_owner_clear k lk = set_owner o k.
Proof. unfold rq_owner_clear. destruct (first_index _ _); [eauto|]. exists (g_rq_owner k). by destruct k. Qed.
Lemma queues_set_owner k q o : queues_ok k q -> queues_ok (set_owner o k) q.
Proof. intros [H1 H2 H3 H4 H5 H6 H7]. by constructor. Qed.
Lemma erase_set_owner k o : erase (set_owner o k) = erase k.
Proof. done. Qed.

(** While the table has room, the lockup report names the CPU and the caller
    that hold the lock. *)
Lemma holder_is_described k self lk c i :
  lk <> 0 -> first_index (fun o => (o_lock o =? 0) || (o_lock o =? lk)) (g_rq_owner k) = Some i ->
  rq_describe_lock (rq_owner_set k self lk c) lk
  = Some (match self_cpu k self with Some p => cpu_id p | None => 4294967295 end, c).
Proof.
  intros Hl Hi. unfold rq_owner_set, rq_describe_lock. rewrite Hi.
  apply first_index_Some in Hi as (x & Hx & _ & Hmin). set (o := mkOwner _ _ _).
  assert (Hlt : (i < length (g_rq_owner k))%nat) by by eapply lookup_lt_Some.
  simpl. rewrite (first_index_intro _ _ i o); [| |simpl; by rewrite Z.eqb_refl|].
  - rewrite (list_lookup_total_correct _ i o); [done|]. by apply list_lookup_insert_eq.
  - by apply list_lookup_insert_eq.
  - intros j y Hj Hy. rewrite list_lookup_insert_ne in Hy by lia. specialize (Hmin j y Hj Hy).
    by apply orb_false_iff in Hmin as [_ ?].
Qed.

(** ** The walks on a well-formed queue *)

Lemma queue_valid k q r t : queues_ok k q -> t ∈ q r -> sched_task_ptr_valid (lay k) t = true /\ 0 < t.
Proof. intros Hq Ht. apply slot_valid; [apply Hq|]. by eapply qk_slots. Qed.

(** What the walks need of the rest of a queue. *)
Definition walkable (k : kern) (l : list Z) : Prop := forall t, t ∈ l -> sched_task_ptr_valid (lay k) t = true /\ 0 < t.
Lemma queue_walkable k q r : queues_ok k q -> walkable k (q r) /\ (length (q r) <= RQ_WALK_LIMIT)%nat.
Proof.
  intros Hq. split; [intros t Ht; by eapply queue_valid|].
  apply (queue_length (lay k)); [apply Hq..|intros t Ht; by eapply qk_slots].
Qed.
Lemma walkable_tail k x l : walkable k (x :: l) -> walkable k l.
Proof. intros H t Ht. apply H. by right. Qed.
Lemma seg_next_ok k p l : seg (heap k) p l 0 -> walkable k l -> bad_next k p = false.
Proof.
  unfold bad_next. destruct l as [|x l]; simpl; [by intros ->|]. intros (-> & _) Hw.
  destruct (Hw x (list_elem_of_here _ _)) as [-> _]. by rewrite andb_false_r.
Qed.

Lemma enqueue_walk_spec k t l : forall left p,
  seg (heap k) p l 0 -> walkable k l -> (length l <= left)%nat -> 0 < t ->
  enqueue_walk left k t p = Ok (bool_decide (t ∈ l)).
Proof.
  induction l as [|x l IH]; intros left p Hs Hw Hl Ht.
  - simpl in Hs. subst p. rewrite bool_decide_false by apply not_elem_of_nil. by destruct left.
  - simpl in Hs. destruct Hs as (-> & tk & Hx & Hs). destruct (Hw x (list_elem_of_here _ _)) as [_ Hx0].
    destruct left as [|left]; simpl in Hl; [lia|]. simpl. rewrite (proj2 (Z.eqb_neq x 0)) by lia.
    destruct (Z.eqb_spec x t) as [->|Hne]; [by rewrite bool_decide_true by left|].
    unfold load_task. rewrite Hx. simpl. rewrite (seg_next_ok k _ l) by eauto using walkable_tail.
    rewrite (IH left) by (eauto using walkable_tail with lia). f_equal. apply bool_decide_ext.
    rewrite elem_of_cons. split; [by right|intros [->|?]; done].
Qed.

(** ** Replacing one queue *)

#[global] Instance queues_ok_proper : Proper ((=) ==> pointwise_relation rqref (=) ==> iff) queues_ok.
Proof.
  assert (H : forall k q q', (forall r, q r = q' r) -> queues_ok k q -> queues_ok k q').
  { intros k q q' Hq [H1 H2 H3 H4 H5 H6 H7]. constructor; try done.
    - intros r rq Hr. rewrite <- Hq. by apply H3.
    - intros r Hr. rewrite <- Hq. by apply H4.
    - intros r. rewrite <- Hq. apply H5.
    - intros r t. rewrite <- Hq. apply H6.
    - intros r r' t. rewrite <- !Hq. apply H7. }
  intros k k' -> q q' Hq. split; apply H; [done|]. intros r. symmetry. apply Hq.
Qed.
Lemma upd_same q r : pointwise_relation rqref (=) (upd q r (q r)) q.
Proof. intros r'. unfold upd. by destruct (decide (r' = r)) as [->|]. Qed.

Lemma queues_upd k k' q r rq' l :
  queues_ok k q -> lay k' = lay k -> (forall p, is_Some (heap k !! p) -> is_Some (heap k' !! p)) ->
  (forall r', r' <> r -> rq_of k' r' = rq_of k r') ->
  (forall r' x, r' <> r -> x ∈ q r' -> next_run <$> heap k' !! x = next_run <$> heap k !! x) ->
  rq_of k' r = Some rq' -> seg (heap k') (head rq') l 0 -> tail rq' = default 0 (last l) -> NoDup l ->
  (forall t, t ∈ l -> t ∈ slots (lay k) /\ forall r', t ∈ q r' -> r' = r) ->
  queues_ok k' (upd q r l).
Proof.
  intros [H1 H2 H3 H4 H5 H6 H7] El Eh Eq En Er Hs Ht Hn Hl. constructor.
  - by rewrite El.
  - rewrite El. intros t Hin. apply Eh. by apply H2.
  - intros r' rq Hr. destruct (decide (r' = r)) as [->|Hne].
    + rewrite upd_eq. replace rq with rq' by congruence. done.
    + rewrite upd_ne by done. rewrite Eq in Hr by done. destruct (H3 r' rq Hr) as [Ha Hb]. split; [|done].
      eapply seg_frame; [|exact Ha]. intros x Hx. by apply (En r').
  - intros r' Hr. destruct (decide (r' = r)) as [->|Hne]; [congruence|]. rewrite upd_ne by done. apply H4. by rewrite <- Eq.
  - intros r'. unfold upd. destruct (decide (r' = r)); [done|apply H5].
  - rewrite El. intros r' t. unfold upd. destruct (decide (r' = r)); [intros Hi; by apply Hl|apply H6].
  - intros r1 r2 t. unfold upd. destruct (decide (r1 = r)) as [->|], (decide (r2 = r)) as [->|]; intros Ha Hb; try done.
    + symmetry. by apply (Hl t Ha).
    + by apply (Hl t Hb).
    + by eapply H7.
Qed.

Lemma store_next_eq k p n tk : heap k !! p = Some tk -> store_next p n k = Ok (set_heap (<[p := set_next n tk]> (heap k)) k).
Proof. intros Hp. unfold store_next, load_task. by rewrite Hp. Qed.
Lemma rq_of_set_heap k h r : rq_of (set_heap h k) r = rq_of k r.
Proof. done. Qed.
Lemma insert_is_Some (h : gmap Z task) p x tk : is_Some (h !! p) -> is_Some (<[x := tk]> h !! p).
Proof. intros H. destruct (decide (p = x)) as [->|]; [rewrite lookup_insert_eq; eauto|by rewrite lookup_insert_ne]. Qed.

(** ** rq_enqueue *)

Definition enqueued (t : Z) (l : list Z) : list Z := if bool_decide (t ∈ l) then l else l ++ [t].

(** What linking a task behind a queue without it does to the memory: [t] is the
    last of the queue, and the nodes of no other list change, but for [t]. *)
Lemma link_heap k q r rq t :
  queues_ok k q -> rq_of k r = Some rq -> t ∈ slots (lay k) -> t ∉ q r ->
  exists h rq' tt, link_tail r rq t k = Ok (set_rq r rq' (set_heap h k))
    /\ seg h (head rq') (q r ++ [t]) 0 /\ tail rq' = t
    /\ h !! t = Some (set_next 0 tt) /\ (forall y, y <> t -> y ∉ q r -> h !! y = heap k !! y)
    /\ (forall p, is_Some (heap k !! p) -> is_Some (h !! p)) /\ set_next 0 <$> h = set_next 0 <$> heap k.
Proof.
  intros Hq Hr Ht Hno. destruct (qk_heap _ _ Hq t Ht) as [tt Htt].
  destruct (qk_list _ _ Hq r rq Hr) as [Hs Htl]. unfold link_tail. rewrite (store_next_eq k t 0 tt) by done. simpl.
  set (h1 := <[t := set_next 0 tt]> (heap k)).
  assert (E1 : set_next 0 <$> h1 = set_next 0 <$> heap k).
  { unfold h1. rewrite fmap_insert. apply insert_id. by rewrite lookup_fmap, Htt. }
  destruct (last (q r)) as [x|] eqn:El.
  - simpl in Htl. apply last_Some in El as [l El]. assert (Hx : x ∈ q r) by (rewrite El; apply elem_of_app; right; by left).
    destruct (queue_valid k q r x Hq Hx) as [_ Hx0]. rewrite Htl, (proj2 (Z.eqb_neq x 0)) by lia. simpl.
    destruct (qk_heap _ _ Hq x (qk_slots _ _ Hq r x Hx)) as [tx Htx].
    assert (Hxt : x <> t) by (intros ->; done).
    rewrite (store_next_eq _ x t tx) by (simpl; unfold h1; by rewrite lookup_insert_ne). simpl.
    exists (<[x := set_next t tx]> h1), (mkRq (lock rq) (head rq) t), tt. split_and!; [done| |done|..].
    + simpl. rewrite El, <- app_assoc. apply seg_append; [by rewrite <- El|rewrite <- El; apply Hq|by rewrite <- El|done|done].
    + unfold h1. by rewrite lookup_insert_ne, lookup_insert_eq.
    + intros y Hy Hyr. unfold h1. rewrite !lookup_insert_ne; [done|done|]. by intros ->.
    + intros p Hp. unfold h1. by do 2 apply insert_is_Some.
    + rewrite fmap_insert, E1. apply insert_id. by rewrite lookup_fmap, Htx.
  - rewrite Htl. simpl. apply last_None in El. rewrite El.
    exists h1, (mkRq (lock rq) t t), tt. split_and!; [done| |done|..]; try done; unfold h1.
    + simpl. split; [done|]. exists (set_next 0 tt). by rewrite lookup_insert_eq.
    + by rewrite lookup_insert_eq.
    + intros y Hy _. by rewrite lookup_insert_ne.
    + intros p Hp. by apply insert_is_Some.
Qed.
Lemma erase_link r rq h k : set_next 0 <$> h = set_next 0 <$> heap k -> erase (set_rq r rq (set_heap h k)) = erase k.
Proof. intros E. rewrite erase_set_rq. unfold erase. simpl. by rewrite E. Qed.
Lemma append_nodup k q r t : queues_ok k q -> t ∉ q r -> NoDup (q r ++ [t]).
Proof.
  intros Hq Hno. apply list.NoDup_app. split_and!; [apply Hq|intros x Hx ->%list_elem_of_singleton; done|apply NoDup_singleton].
Qed.
Lemma link_spec k q r rq t :
  queues_ok k q -> rq_of k r = Some rq -> t ∈ slots (lay k) -> (forall r', t ∉ q r') ->
  exists k', link_tail r rq t k = Ok k'
    /\ queues_ok k' (upd q r (q r ++ [t])) /\ erase k' = erase k.
Proof.
  intros Hq Hr Ht Hno. destruct (link_heap k q r rq t Hq Hr Ht (Hno r)) as (h & rq' & tt & Hl & Hs & Htl & Hh & Hf & Hp & He).
  eexists. split; [exact Hl|]. split; [|by apply erase_link]. eapply queues_upd; try done.
  - by destruct r.
  - intros p Hp'. by destruct r; apply Hp.
  - intros r' Hr'. by rewrite rq_of_set_rq_ne.
  - intros r' y Hr' Hy. assert (Ey : h !! y = heap k !! y).
    { apply Hf; [intros ->; by apply (Hno r')|intros Hyr; apply Hr'; by eapply qk_apart]. }
    destruct r; simpl; by rewrite Ey.
  - by eapply rq_of_set_rq.
  - by destruct r.
  - by rewrite last_snoc.
  - by eapply append_nodup.
  - intros x [Hx|Hx%list_elem_of_singleton]%elem_of_app; [split; [by eapply qk_slots|intros r' Hr'; by eapply qk_apart]|].
    subst x. split; [done|]. intros r' Hr'. by destruct (Hno r').
Qed.

Lemma rq_enqueue_spec self c k q r t :
  queues_ok k q -> is_Some (rq_of k r) -> t ∈ slots (lay k) -> (forall r', t ∈ q r' -> r' = r) ->
  exists k', rq_enqueue self c r t k = Ok k' /\ queues_ok k' (upd q r (enqueued t (q r))) /\ erase k' = erase k.
Proof.
  intros Hq [rq Hr] Ht Hown. unfold rq_enqueue. rewrite Hr.
  destruct (owner_set_eq k self (lock rq) c) as [o ->]. pose proof (queues_set_owner k q o Hq) as Hq1.
  destruct (qk_list _ _ Hq r rq Hr) as [Hs Htl]. destruct (slot_valid _ _ (qk_layout _ _ Hq) Ht) as [_ Ht0].
  destruct (queue_walkable _ q r Hq1) as [Hw Hlen]. rewrite (enqueue_walk_spec (set_owner o k) t (q r)) by done.
  unfold enqueued. destruct (bool_decide_reflect (t ∈ q r)) as [Hin|Hin].
  - destruct (owner_clear_eq (set_owner o k) (lock rq)) as [o' E]. eexists. split; [done|]. rewrite E. split; [|done].
    rewrite upd_same. by do 2 apply queues_set_owner.
  - destruct (link_spec (set_owner o k) q r rq t) as (k' & Hk & Hq' & He); try done.
    { intros r' Hr'. apply Hin. by rewrite <- (Hown r' Hr'). }
    cbn [rbind]. rewrite Hk. cbn [rbind]. destruct (owner_clear_eq k' (lock rq)) as [o' ->]. eexists. split; [done|].
    split; [by apply queues_set_owner|]. by rewrite erase_set_owner, He.
Qed.

(** ** rq_dequeue *)

Lemma heap_set_rq r rq k : heap (set_rq r rq k) = heap k.
Proof. by destruct r. Qed.
Lemma lay_set_rq r rq k : lay (set_rq r rq k) = lay k.
Proof. by destruct r. Qed.

Definition walkable_nz (l : list Z) : Prop := forall y, y ∈ l -> y <> 0.
Lemma seg_tail_ok h p x l rq :
  seg h p (x :: l) 0 -> tail rq = default 0 (last (x :: l)) -> walkable_nz l ->
  forall tk, h !! x = Some tk -> (if next_run tk =? 0 then 0 else tail rq) = default 0 (last l).
Proof.
  intros (_ & tk & Hx & Hs) Ht Hw tk' Hx'. replace tk' with tk by congruence.
  destruct l as [|y l]; simpl in Hs; [by rewrite Hs|]. destruct Hs as [-> _].
  rewrite (proj2 (Z.eqb_neq y 0)) by (apply Hw; by left). by rewrite Ht, last_cons_cons.
Qed.

Lemma rq_dequeue_spec self c k q r :
  queues_ok k q -> is_Some (rq_of k r) ->
  exists k', rq_dequeue self c r k = Ok (default 0 (List.hd_error (q r)), k')
    /\ queues_ok k' (upd q r (List.tl (q r))) /\ erase k' = erase k.
Proof.
  intros Hq [rq Hr]. unfold rq_dequeue. rewrite Hr.
  destruct (owner_set_eq k self (lock rq) c) as [o ->]. pose proof (queues_set_owner k q o Hq) as Hq1.
  destruct (qk_list _ _ Hq r rq Hr) as [Hs Htl]. destruct (queue_walkable _ q r Hq) as [Hw _].
  destruct (q r) as [|x l] eqn:El.
  - simpl in Hs. rewrite Hs. simpl. destruct (owner_clear_eq (set_owner o k) (lock rq)) as [o' ->].
    eexists. split; [done|]. split; [|done]. rewrite <- El, upd_same. by do 2 apply queues_set_owner.
  - destruct (Hw x (list_elem_of_here _ _)) as [Hv Hx0]. pose proof Hs as Hs'. destruct Hs as (-> & tk & Hx & Hs).
    cbn [lay set_owner]. rewrite Hv, (proj2 (Z.eqb_neq x 0)) by lia. simpl negb. cbn iota beta. cbn [andb].
    unfold load_task at 1. cbn [heap set_owner]. rewrite Hx. cbn [rbind].
    change (bad_next (set_owner o k)) with (bad_next k).
    rewrite (seg_next_ok k _ l) by eauto using walkable_tail. rewrite (store_next_eq _ x 0 tk) by done. cbn [rbind].
    match goal with |- context [rq_owner_clear ?k1 _] => set (k2 := k1); destruct (owner_clear_eq k2 (lock rq)) as [o' ->] end.
    eexists. split; [done|]. split; [apply queues_set_owner|rewrite erase_set_owner; unfold k2; rewrite erase_set_rq; exact (erase_set_heap (set_owner o k) x tk 0 Hx)].
    assert (Hnd : NoDup (x :: l)) by (rewrite <- El; apply Hq). apply list.NoDup_cons in Hnd as [Hxl Hnd].
    unfold k2. eapply queues_upd; [exact Hq1|by rewrite lay_set_rq| | | |by eapply rq_of_set_rq| | |done|].
    + rewrite heap_set_rq. intros p Hp. by apply insert_is_Some.
    + intros r' Hr'. by rewrite rq_of_set_rq_ne.
    + intros r' y Hr' Hy. rewrite heap_set_rq. simpl. rewrite lookup_insert_ne; [done|]. intros ->. apply Hr'.
      apply (qk_apart _ _ Hq r' r y); [done|]. rewrite El. by left.
    + rewrite heap_set_rq. simpl. by apply seg_insert.
    + simpl. eapply seg_tail_ok; [exact Hs'|done| |done]. intros y Hy. destruct (Hw y) as [_ ?]; [by right|lia].
    + intros y Hy. assert (y ∈ q r) by (rewrite El; by right). split; [by eapply (qk_slots _ _ Hq)|].
      intros r' Hr'. by eapply (qk_apart _ _ Hq).
Qed.

(** ** rq_remove *)

Lemma remove_walk_skip k r t l2 l1 : forall left prev p removed,
  seg (heap k) p (l1 ++ l2) 0 -> walkable k (l1 ++ l2) -> t ∉ l1 -> (length l1 <= left)%nat ->
  exists m, seg (heap k) p l1 m /\ seg (heap k) m l2 0
    /\ remove_walk left r t prev p removed k = remove_walk (left - length l1) r t (default prev (last l1)) m removed k.
Proof.
  induction l1 as [|x l1 IH]; intros left prev p removed Hs Hw Ht Hl.
  - exists p. simpl. by rewrite Nat.sub_0_r.
  - simpl in Hs. destruct Hs as (-> & tk & Hx & Hs). destruct (Hw x (list_elem_of_here _ _)) as [_ Hx0].
    destruct left as [|left]; simpl in Hl; [lia|].
    destruct (IH left x (next_run tk) removed Hs (walkable_tail _ _ _ Hw)) as (m & H1 & H2 & H3);
      [intros Hi; apply Ht; by right|lia|].
    exists m. split_and!; [simpl; eauto|done|]. simpl. rewrite (proj2 (Z.eqb_neq x 0)) by lia.
    unfold load_task. rewrite Hx. cbn [rbind]. rewrite (seg_next_ok k _ _ Hs (walkable_tail _ _ _ Hw)).
    rewrite (proj2 (Z.eqb_neq x t)) by (intros ->; apply Ht; by left). rewrite H3. f_equal. destruct l1; [done|].
    rewrite last_cons_cons. destruct (last (_ :: _)) eqn:E; [done|]. by apply last_None in E.
Qed.
Lemma remove_walk_absent k r t l left prev p removed :
  seg (heap k) p l 0 -> walkable k l -> t ∉ l -> (length l <= left)%nat ->
  remove_walk left r t prev p removed k = Ok (removed, k).
Proof.
  intros Hs Hw Ht Hl. destruct (remove_walk_skip k r t [] l left prev p removed) as (m & _ & H2 & ->);
    rewrite ?app_nil_r; try done. simpl in H2. subst m. by destruct (left - length l)%nat.
Qed.

(** Bypassing a node. *)
Lemma seg_bypass h p l1 y ty t tk l2 :
  seg h p ((l1 ++ [y]) ++ t :: l2) 0 -> NoDup ((l1 ++ [y]) ++ t :: l2) -> h !! y = Some ty -> h !! t = Some tk ->
  seg (<[t := set_next 0 tk]> (<[y := set_next (next_run tk) ty]> h)) p ((l1 ++ [y]) ++ l2) 0
  /\ seg (<[t := set_next 0 tk]> (<[y := set_next (next_run tk) ty]> h)) (next_run tk) l2 0.
Proof.
  intros Hs Hn Hy Ht. rewrite <- app_assoc in Hs, Hn. simpl in Hs, Hn. rewrite <- app_assoc. simpl.
  apply seg_app in Hs as (m & H1 & -> & ty' & Hy' & _ & tk' & Htk & H2).
  replace ty' with ty in * by congruence. replace tk' with tk in * by congruence.
  apply list.NoDup_app in Hn as (_ & Hd & (Hy1 & Hn)%list.NoDup_cons). apply list.NoDup_cons in Hn as [Ht2 _].
  assert (Hyl : y ∉ l1) by (intros Hi; apply (Hd y Hi); by left).
  assert (Htl : t ∉ l1) by (intros Hi; apply (Hd t Hi); right; by left).
  assert (Hyt : y <> t) by (intros ->; apply Hy1; by left).
  assert (Hy2 : y ∉ l2) by (intros Hi; apply Hy1; by right).
  assert (H2' : seg (<[t := set_next 0 tk]> (<[y := set_next (next_run tk) ty]> h)) (next_run tk) l2 0)
    by (by do 2 (apply seg_insert; [done|])).
  split; [|done]. apply seg_app. exists y. split; [by do 2 (apply seg_insert; [done|])|]. simpl. split; [done|].
  exists (set_next (next_run tk) ty). rewrite lookup_insert_ne by congruence. by rewrite lookup_insert_eq.
Qed.

Lemma unlink_tail rq l1 l2 t :
  tail rq = default 0 (last (l1 ++ t :: l2)) -> NoDup (l1 ++ t :: l2) ->
  (if tail rq =? t then default 0 (last l1) else tail rq) = default 0 (last (l1 ++ l2)).
Proof.
  intros -> Hn. destruct l2 as [|x l2] using rev_ind.
  - rewrite last_snoc, app_nil_r. simpl. by rewrite Z.eqb_refl.
  - rewrite app_comm_cons, !app_assoc, !last_snoc. simpl. rewrite (proj2 (Z.eqb_neq x t)); [done|]. intros ->.
    apply list.NoDup_app in Hn as (_ & _ & (Hx & _)%list.NoDup_cons). apply Hx, elem_of_app. right. by left.
Qed.

(** The last store of an unlink, once the neighbours are right. *)
Lemma unlink_finish k q r l1 l2 t tk rq' k2 :
  queues_ok k q -> q r = l1 ++ t :: l2 -> erase k2 = erase k ->
  (forall r', r' <> r -> rq_of k2 r' = rq_of k r') -> rq_of k2 r = Some rq' ->
  tail rq' = default 0 (last (l1 ++ l2)) -> heap k2 !! t = Some tk ->
  (forall x, x ∉ q r -> heap k2 !! x = heap k !! x) ->
  seg (<[t := set_next 0 tk]> (heap k2)) (head rq') (l1 ++ l2) 0 ->
  exists k', store_next t 0 k2 = Ok k' /\ queues_ok k' (upd q r (l1 ++ l2)) /\ erase k' = erase k
    /\ heap k' = <[t := set_next 0 tk]> (heap k2).
Proof.
  intros Hq El He Hne Hr Htl Ht Hfr Hs. rewrite (store_next_eq k2 t 0 tk) by done. eexists. split; [done|].
  split; [|split; [|done]]; [|etrans; [by apply erase_set_heap|done]].
  assert (Hsub : forall x, x ∈ l1 ++ l2 -> x ∈ q r).
  { intros x [?|?]%elem_of_app; rewrite El; apply elem_of_app; [by left|right; by right]. }
  eapply queues_upd; [exact Hq|exact (f_equal lay He)| |exact Hne| |exact Hr|exact Hs|exact Htl| |].
  - intros p Hp. simpl. apply insert_is_Some. pose proof (erase_lookup k k2 p He) as E.
    destruct Hp as [x Hx]. rewrite Hx in E. simpl in E. apply fmap_Some in E as (y & Hy & _). eauto.
  - intros r' x Hr' Hx. assert (Hxr : x ∉ q r) by (intros Hi; apply Hr'; by apply (qk_apart _ _ Hq r' r x)).
    simpl. rewrite lookup_insert_ne; [by rewrite Hfr|]. intros ->. apply Hxr. rewrite El. apply elem_of_app. right. by left.
  - assert (Hn : NoDup (l1 ++ t :: l2)) by (rewrite <- El; apply Hq).
    apply (sublist_NoDup _ (l1 ++ t :: l2)); [done|]. by apply sublist_app, sublist_cons.
  - intros x Hx%Hsub. split; [by eapply (qk_slots _ _ Hq)|]. intros r' Hr'. by eapply (qk_apart _ _ Hq).
Qed.

Lemma unlink_spec k q r rq l1 t l2 tk :
  queues_ok k q -> rq_of k r = Some rq -> q r = l1 ++ t :: l2 -> heap k !! t = Some tk ->
  exists k', unlink r rq (default 0 (last l1)) t (next_run tk) k = Ok k'
    /\ queues_ok k' (upd q r (l1 ++ l2)) /\ erase k' = erase k /\ seg (heap k') (next_run tk) l2 0.
Proof.
  intros Hq Hr El Ht. destruct (qk_list _ _ Hq r rq Hr) as [Hs Htl]. rewrite El in Hs, Htl.
  assert (Hn : NoDup (l1 ++ t :: l2)) by (rewrite <- El; apply Hq). pose proof (unlink_tail rq l1 l2 t Htl Hn) as Htail.
  unfold unlink. destruct l1 as [|y l1 _] using rev_ind.
  - simpl default in *. cbn [negb Z.eqb rbind]. apply list.NoDup_cons in Hn as [Htn _]. destruct Hs as (_ & tk' & Ht' & Hs).
    replace tk' with tk in * by congruence. set (k1 := set_rq r (mkRq _ _ _) k).
    set (k2 := if tail rq =? t then _ else k1). set (rq' := mkRq (lock rq) (next_run tk) (if tail rq =? t then 0 else tail rq)).
    assert (Hk2 : erase k2 = erase k /\ heap k2 = heap k /\ rq_of k2 r = Some rq'
                  /\ forall r', r' <> r -> rq_of k2 r' = rq_of k r').
    { unfold k2, rq'. destruct (tail rq =? t); (split_and!; [by rewrite ?erase_set_rq; unfold k1; rewrite erase_set_rq
        |unfold k1; by rewrite ?heap_set_rq|unfold k1; eauto using rq_of_set_rq
        |intros r' Hr'; unfold k1; by rewrite ?rq_of_set_rq_ne]). }
    destruct Hk2 as (E1 & E2 & E3 & E4).
    destruct (unlink_finish k q r [] l2 t tk rq' k2) as (k' & H1 & H2 & H3 & H4); try done.
    + by rewrite E2.
    + intros x _. by rewrite E2.
    + simpl. rewrite E2. by apply seg_insert.
    + exists k'. split_and!; try done. rewrite H4, E2. by apply seg_insert.
  - rewrite last_snoc in *. simpl default in *. assert (Hy : y ∈ q r).
    { rewrite El. apply elem_of_app. left. apply elem_of_app. right. by left. }
    destruct (queue_valid k q r y Hq Hy) as [_ Hy0]. rewrite (proj2 (Z.eqb_neq y 0)) by lia. cbn [negb].
    destruct (qk_heap _ _ Hq y (qk_slots _ _ Hq r y Hy)) as [ty Hty]. rewrite (store_next_eq k y _ ty) by done. cbn [rbind].
    set (k1 := set_heap _ k). set (k2 := if tail rq =? t then _ else k1).
    set (rq' := mkRq (lock rq) (head rq) (if tail rq =? t then y else tail rq)).
    assert (E0 : erase k1 = erase k) by (by apply erase_set_heap).
    assert (Hk2 : erase k2 = erase k /\ heap k2 = <[y := set_next (next_run tk) ty]> (heap k) /\ rq_of k2 r = Some rq'
                  /\ forall r', r' <> r -> rq_of k2 r' = rq_of k r').
    { unfold k2, rq'. destruct (tail rq =? t); split_and!; try done;
        [by rewrite erase_set_rq|by rewrite heap_set_rq|by eapply rq_of_set_rq|intros r' Hr'; by rewrite rq_of_set_rq_ne|].
      change (rq_of k1 r) with (rq_of k r). rewrite Hr. by destruct rq. }
    destruct Hk2 as (E1 & E2 & E3 & E4). destruct (seg_bypass _ _ _ _ _ _ _ _ Hs Hn Hty Ht) as [B1 B2].
    assert (Hyt : y <> t) by (intros ->; apply list.NoDup_app in Hn as (_ & Hd & _);
      apply (Hd t); [apply elem_of_app; right; by left|by left]).
    destruct (unlink_finish k q r (l1 ++ [y]) l2 t tk rq' k2) as (k' & H1 & H2 & H3 & H4); try done.
    + by rewrite E2, lookup_insert_ne.
    + intros x Hx. rewrite E2, lookup_insert_ne; [done|]. by intros ->.
    + by rewrite E2.
    + exists k'. split_and!; try done. by rewrite H4, E2.
Qed.

Lemma filter_absent (t : Z) (l : list Z) : t ∉ l -> filter (fun x => x <> t) l = l.
Proof.
  induction l as [|x l IH]; intros Ht; [done|]. rewrite filter_cons_True by (intros ->; apply Ht; by left).
  f_equal. apply IH. intros Hi. apply Ht. by right.
Qed.

Lemma rq_remove_spec self c k q r t :
  queues_ok k q -> is_Some (rq_of k r) ->
  exists k', rq_remove self c r t k = Ok (bool_decide (t ∈ q r), k')
    /\ queues_ok k' (upd q r (filter (fun x => x <> t) (q r))) /\ erase k' = erase k.
Proof.
  intros Hq [rq Hr]. unfold rq_remove. rewrite Hr.
  destruct (owner_set_eq k self (lock rq) c) as [o ->]. pose proof (queues_set_owner k q o Hq) as Hq1.
  destruct (qk_list _ _ Hq r rq Hr) as [Hs _]. destruct (queue_walkable _ q r Hq1) as [Hw Hlen].
  destruct (bool_decide_reflect (t ∈ q r)) as [Hin|Hin].
  - destruct (list_elem_of_split _ _ Hin) as (l1 & l2 & El). assert (Hn : NoDup (l1 ++ t :: l2)) by (rewrite <- El; apply Hq).
    rewrite El in Hs, Hw, Hlen. rewrite length_app in Hlen. simpl in Hlen.
    apply list.NoDup_app in Hn as (_ & Hd & (Ht2 & _)%list.NoDup_cons).
    assert (Ht1 : t ∉ l1) by (intros Hi; apply (Hd t Hi); by left).
    destruct (remove_walk_skip (set_owner o k) r t (t :: l2) l1 RQ_WALK_LIMIT 0 (head rq) false Hs Hw Ht1) as (m & _ & H2 & ->); [lia|].
    destruct H2 as (-> & tk & Ht & H2). destruct (RQ_WALK_LIMIT - length l1)%nat as [|left] eqn:Eleft; [lia|].
    destruct (Hw t) as [_ Ht0]; [apply elem_of_app; right; by left|]. cbn [remove_walk].
    rewrite (proj2 (Z.eqb_neq t 0)) by lia. unfold load_task. rewrite Ht. cbn [rbind].
    assert (Hw2 : walkable (set_owner o k) l2) by (intros x Hx; apply Hw, elem_of_app; right; by right).
    rewrite (seg_next_ok _ _ _ H2 Hw2), Z.eqb_refl. change (rq_of (set_owner o k) r) with (rq_of k r). rewrite Hr.
    destruct (unlink_spec (set_owner o k) q r rq l1 t l2 tk Hq1 Hr El Ht) as (k' & -> & Hq' & He & H3). cbn [rbind].
    assert (Hw3 : walkable k' l2) by (intros x Hx; rewrite (f_equal lay He : lay k' = lay k); by apply Hw2).
    rewrite (remove_walk_absent k' r t l2) by (try done; lia). cbn [rbind]. destruct (owner_clear_eq k' (lock rq)) as [o' ->]. eexists. split; [done|].
    rewrite erase_set_owner. split; [|done]. apply queues_set_owner.
    replace (filter (fun x => x <> t) (q r)) with (l1 ++ l2); [done|].
    rewrite El, filter_app, filter_cons_False by (intros H; by apply H).
    by rewrite !filter_absent.
  - rewrite (remove_walk_absent (set_owner o k) r t (q r)) by done. cbn [rbind].
    destruct (owner_clear_eq (set_owner o k) (lock rq)) as [o' ->]. eexists. split; [done|]. split; [|done].
    rewrite filter_absent, upd_same by done. by do 2 apply queues_set_owner.
Qed.

(** ** Several queues *)

Lemma percpu_rq_of k i p : get_percpu_n k i = Some p -> rq_of k (Cpu i) = Some (cpu_runqueue p).
Proof. unfold get_percpu_n. simpl. destruct (cpu_data k !! i) as [[p'|]|]; [|done|done]. destruct (cpu_online p'); congruence. Qed.
Lemma erase_percpu_Some k k' i : erase k' = erase k -> is_Some (get_percpu_n k' i) <-> is_Some (get_percpu_n k i).
Proof.
  intros He. pose proof (erase_percpu k k' i He) as H.
  destruct (get_percpu_n k' i), (get_percpu_n k i); simpl in H; try done; split; eauto.
Qed.

(** The queues a scrub over [cpus] reaches. *)
Definition swept (k : kern) (cpus : list nat) (r : rqref) : Prop :=
  match r with Global => False | Cpu i => i ∈ cpus /\ is_Some (get_percpu_n k i) end.
#[global] Instance swept_dec k cpus r : Decision (swept k cpus r).
Proof. destruct r; apply _. Defined.
Definition without (t : Z) (l : list Z) : list Z := filter (fun x => x <> t) l.
Lemma without_elem t x l : x ∈ without t l <-> x <> t /\ x ∈ l.
Proof. unfold without. by rewrite list_elem_of_filter. Qed.
Lemma without_idem t l : without t (without t l) = without t l.
Proof. apply filter_absent. by intros [? _]%without_elem. Qed.

Lemma remove_from_cpus_spec self c t cpus : forall k q,
  queues_ok k q ->
  exists k', remove_from_cpus self c t cpus k = Ok k' /\ erase k' = erase k
    /\ queues_ok k' (fun r => if decide (swept k cpus r) then without t (q r) else q r).
Proof.
  induction cpus as [|i cpus IH]; intros k q Hq; simpl.
  - exists k. split_and!; try done. apply (queues_ok_proper k k eq_refl q); [|done].
    intros r. rewrite decide_False; [done|]. destruct r; simpl; [tauto|]. by intros [?%elem_of_nil _].
  - destruct (get_percpu_n k i) as [p|] eqn:Ep.
    + destruct (rq_remove_spec self c k q (Cpu i) t Hq) as (k1 & -> & Hq1 & He1); [rewrite (percpu_rq_of k i p Ep); eauto|].
      cbn [rbind]. destruct (IH k1 _ Hq1) as (k' & -> & He & Hq'). exists k'. split_and!; [done|congruence|].
      eapply queues_ok_proper; [done| |exact Hq']. intros r.
      assert (Hsw : swept k1 cpus r <-> swept k cpus r) by (destruct r; simpl; [tauto|]; by rewrite (erase_percpu_Some k k1)).
      destruct (decide (r = Cpu i)) as [->|Hr].
      * rewrite upd_eq, (decide_True (P := swept k (i :: cpus) (Cpu i))) by (simpl; split; [by left|by exists p]).
        fold (without t (q (Cpu i))). by destruct (decide _); rewrite ?without_idem.
      * rewrite upd_ne by done. destruct (decide (swept k1 cpus r)) as [H|H]; rewrite Hsw in H.
        -- rewrite decide_True; [done|]. destruct r; simpl in *; [done|]. split; [right|]; apply H.
        -- rewrite decide_False; [done|]. destruct r; simpl in *; [done|]. intros [[->|Hi]%elem_of_cons Hs]; [done|by apply H].
    + destruct (IH k q Hq) as (k' & -> & He & Hq'). exists k'. split_and!; [done|done|].
      eapply queues_ok_proper; [done| |exact Hq']. intros r.
      destruct (decide (swept k cpus r)) as [H|H].
      * rewrite decide_True; [done|]. destruct r; simpl in *; [done|]. split; [right|]; apply H.
      * rewrite decide_False; [done|]. destruct r; simpl in *; [done|]. intros [[->|Hi]%elem_of_cons Hs]; [|by apply H].
        rewrite Ep in Hs. by destruct Hs.
Qed.

Definition swept_all (k : kern) (r : rqref) : Prop := r = Global \/ swept k (each_cpu k) r.

Lemma remove_all_spec self c t k q :
  queues_ok k q ->
  exists k', sched_rq_remove_task_all self c t k = Ok k' /\ erase k' = erase k
    /\ queues_ok k' (fun r => if decide (swept_all k r) then without t (q r) else q r).
Proof.
  intros Hq. unfold sched_rq_remove_task_all.
  destruct (rq_remove_spec self c k q Global t Hq) as (k1 & -> & Hq1 & He1); [by eexists|]. cbn [rbind].
  assert (Ec : each_cpu k1 = each_cpu k) by (unfold each_cpu; by rewrite (f_equal g_max_cpus He1 : g_max_cpus k1 = g_max_cpus k)).
  rewrite Ec. destruct (remove_from_cpus_spec self c t (each_cpu k) k1 _ Hq1) as (k' & -> & He & Hq').
  exists k'. split_and!; [done|congruence|]. eapply queues_ok_proper; [done| |exact Hq']. intros r.
  destruct r as [|i].
  - rewrite (decide_True (P := swept_all k Global)) by by left. by rewrite decide_False, upd_eq by (simpl; tauto).
  - rewrite upd_ne by done. unfold swept_all. simpl.
    destruct (decide (i ∈ each_cpu k /\ is_Some (get_percpu_n k1 i))) as [H|H]; rewrite (erase_percpu_Some k k1) in H by done.
    + rewrite decide_True; [done|]. by right.
    + rewrite decide_False; [done|]. by intros [?|?].
Qed.

(** ** sched_rq_contains_task *)

Lemma contains_walk_spec k t l : forall left p,
  seg (heap k) p l 0 -> walkable k l -> (length l <= left)%nat -> 0 < t ->
  contains_walk left k t p = Ok (bool_decide (t ∈ l)).
Proof.
  induction l as [|x l IH]; intros left p Hs Hw Hl Ht.
  - simpl in Hs. subst p. rewrite bool_decide_false by apply not_elem_of_nil. by destruct left.
  - simpl in Hs. destruct Hs as (-> & tk & Hx & Hs). destruct (Hw x (list_elem_of_here _ _)) as [_ Hx0].
    destruct left as [|left]; simpl in Hl; [lia|]. simpl. rewrite (proj2 (Z.eqb_neq x 0)) by lia.
    destruct (Z.eqb_spec x t) as [->|Hne]; [by rewrite bool_decide_true by left|].
    unfold load_task. rewrite Hx. simpl. rewrite (seg_next_ok k _ l) by eauto using walkable_tail.
    rewrite (IH left) by (eauto using walkable_tail with lia). f_equal. apply bool_decide_ext.
    rewrite elem_of_cons. split; [by right|intros [->|?]; done].
Qed.

Lemma online_heads_cons k i cpus :
  online_heads k (i :: cpus) = match get_percpu_n k i with
                               | Some p => head (cpu_runqueue p) :: online_heads k cpus
                               | None => online_heads k cpus
                               end.
Proof. unfold online_heads. simpl. by destruct (get_percpu_n k i). Qed.
Lemma contains_any_spec k q t cpus :
  queues_ok k q -> 0 < t ->
  contains_any k t (online_heads k cpus) = Ok (bool_decide (Exists (fun i => is_Some (get_percpu_n k i) /\ t ∈ q (Cpu i)) cpus)).
Proof.
  intros Hq Ht. induction cpus as [|i cpus IH].
  - rewrite bool_decide_false; [done|]. intros H. inversion H.
  - rewrite online_heads_cons. destruct (get_percpu_n k i) as [p|] eqn:Ep; cbn [contains_any].
    + destruct (qk_list _ _ Hq (Cpu i) _ (percpu_rq_of k i p Ep)) as [Hs _]. destruct (queue_walkable k q (Cpu i) Hq) as [Hw Hl].
      rewrite (contains_walk_spec k t (q (Cpu i))) by done. cbn [rbind]. destruct (bool_decide_reflect (t ∈ q (Cpu i))) as [Hin|Hin].
      * rewrite bool_decide_true; [done|]. apply Exists_cons_hd. split; [by eexists|done].
      * rewrite IH. f_equal. apply bool_decide_ext. rewrite Exists_cons. tauto.
    + rewrite IH. f_equal. apply bool_decide_ext. rewrite Exists_cons, Ep. split; [by right|]. by intros [[[? ?] _]|?].
Qed.

Lemma contains_spec k q t :
  queues_ok k q -> 0 < t ->
  sched_rq_contains_task t k
  = Ok (bool_decide (t ∈ q Global \/ Exists (fun i => is_Some (get_percpu_n k i) /\ t ∈ q (Cpu i)) (seq 0 MAX_CPUS))).
Proof.
  intros Hq Ht. unfold sched_rq_contains_task. rewrite (proj2 (Z.eqb_neq t 0)) by lia.
  generalize (seq 0 MAX_CPUS). intros cpus. cbn [contains_any].
  destruct (qk_list _ _ Hq Global _ eq_refl) as [Hs _]. destruct (queue_walkable k q Global Hq) as [Hw Hl].
  rewrite (contains_walk_spec k t (q Global)) by done. cbn [rbind]. destruct (bool_decide_reflect (t ∈ q Global)) as [Hin|Hin].
  - by rewrite bool_decide_true by by left.
  - rewrite (contains_any_spec k q) by done. f_equal. apply bool_decide_ext. split; [by right|by intros [?|?]].
Qed.

(** ** Claiming and stealing *)

(** Everything but the link of a task. *)
Definition same_task (x y : task) : Prop := set_next 0 x = set_next 0 y.

(** What a CPU may take: a ready, stealable, fully built task whose stack has
    been handed over, that runs nowhere and may run on this CPU. *)
Definition stealable_by (k : kern) (self : option nat) (t : Z) (x : task) : Prop :=
  state x = TASK_READY /\ stealable x = true /\ stack_released x = 1 /\ g_task_constructing x = false
  /\ task_running_somewhere k t = false
  /\ forall p, self_cpu k self = Some p -> sched_task_allowed_on_cpu x (cpu_id p) = true.

Lemma erase_self k k' self : erase k' = erase k -> set_runqueue no_rq <$> self_cpu k' self = set_runqueue no_rq <$> self_cpu k self.
Proof.
  intros He. destruct self as [i|]; [|done]. injection He as _ _ Hc _. apply (f_equal (fun l => l !! i)) in Hc.
  rewrite !list_lookup_fmap in Hc. simpl. destruct (cpu_data k' !! i) as [[p'|]|], (cpu_data k !! i) as [[p|]|]; simpl in *; congruence.
Qed.
Lemma allowed_same x y c : same_task x y -> sched_task_allowed_on_cpu x c = sched_task_allowed_on_cpu y c.
Proof. intros E. unfold sched_task_allowed_on_cpu. by rewrite (f_equal g_task_affinity E : g_task_affinity x = g_task_affinity y). Qed.
Lemma stealable_transfer k k' self t x y :
  erase k' = erase k -> same_task y x -> stealable_by k' self t y -> stealable_by k self t x.
Proof.
  intros He E (H1 & H2 & H3 & H4 & H5 & H6). unfold stealable_by.
  rewrite <- (f_equal state E : state y = state x), <- (f_equal stealable E : stealable y = stealable x),
    <- (f_equal stack_released E : stack_released y = stack_released x),
    <- (f_equal g_task_constructing E : g_task_constructing y = g_task_constructing x), <- (erase_running k k' t He).
  split_and!; try done. intros p Hp. rewrite <- (allowed_same y x) by done. pose proof (erase_self k k' self He) as Hs.
  rewrite Hp in Hs. simpl in Hs. apply fmap_Some in Hs as (p' & Hp' & Ep). rewrite <- (H6 p' Hp'). f_equal.
  exact (f_equal cpu_id Ep).
Qed.
Lemma erase_same k k' t x : erase k' = erase k -> heap k' !! t = Some x -> exists y, heap k !! t = Some y /\ same_task x y.
Proof.
  intros He Hx. pose proof (erase_lookup k k' t He) as H. rewrite Hx in H. simpl in H.
  symmetry in H. apply fmap_Some in H as (y & Hy & E). exists y. done.
Qed.

(** Changing a task without touching its link. *)
Lemma queues_set_task k q t x y :
  queues_ok k q -> heap k !! t = Some x -> next_run y = next_run x -> queues_ok (set_heap (<[t := y]> (heap k)) k) q.
Proof.
  intros [H1 H2 H3 H4 H5 H6 H7] Hx Hn. constructor; try done.
  - intros p Hp. simpl. by apply insert_is_Some, H2.
  - intros r rq Hr. destruct (H3 r rq Hr) as [Ha Hb]. split; [|done]. eapply seg_frame; [|exact Ha].
    intros p _. simpl. destruct (decide (p = t)) as [->|]; [|by rewrite lookup_insert_ne]. rewrite lookup_insert_eq, Hx. simpl. by f_equal.
Qed.

Definition claimed_task (x : task) : task := set_claim TASK_RUNNING 0 x.

Lemma task_claim_spec k t x :
  heap k !! t = Some x -> task_running_somewhere k t = false -> state x = TASK_READY ->
  task_claim t k = if negb (g_task_constructing x) && (stack_released x =? 1)
                   then Ok (true, set_heap (<[t := claimed_task x]> (heap k)) k) else Ok (false, k).
Proof.
  intros Hx Hr Hst. unfold task_claim, load_task. rewrite Hx. cbn [rbind]. rewrite Hr.
  destruct (g_task_constructing x); [done|]. destruct (Z.eqb_spec (stack_released x) 1) as [Hs|Hs]; [|done]. cbn [negb andb].
  change (task_running_somewhere (set_heap ?h k) t) with (task_running_somewhere k t). rewrite Hr, Hst. simpl.
  unfold set_heap. simpl. by rewrite insert_insert_eq.
Qed.

Lemma rotate_perm (l : list Z) x : l ++ [x] ≡ₚ x :: l.
Proof. by rewrite Permutation_app_comm. Qed.

(** Putting the dequeued task back rotates the queue. *)
Lemma put_back self c k q i t l k1 :
  queues_ok k q -> q (Cpu i) = t :: l -> queues_ok k1 (upd q (Cpu i) l) -> erase k1 = erase k -> is_Some (rq_of k (Cpu i)) ->
  exists k2, rq_enqueue self c (Cpu i) t k1 = Ok k2 /\ queues_ok k2 (upd q (Cpu i) (l ++ [t])) /\ erase k2 = erase k.
Proof.
  intros Hq El Hq1 He Hr. assert (Hn : NoDup (t :: l)) by (rewrite <- El; apply Hq). apply list.NoDup_cons in Hn as [Htl _].
  assert (Hno : forall r', t ∉ upd q (Cpu i) l r').
  { intros r'. unfold upd. destruct (decide (r' = Cpu i)) as [->|Hne]; [done|]. intros Hin. apply Hne.
    apply (qk_apart _ _ Hq r' (Cpu i) t); [done|]. rewrite El. by left. }
  destruct (rq_enqueue_spec self c k1 _ (Cpu i) t Hq1) as (k2 & Hk & Hq2 & He2).
  - by rewrite (erase_rq_of k k1).
  - rewrite (f_equal lay He : lay k1 = lay k). apply (qk_slots _ _ Hq (Cpu i)). rewrite El. by left.
  - intros r' Hin. by destruct (Hno r').
  - exists k2. split_and!; [done| |congruence]. eapply queues_ok_proper; [done| |exact Hq2]. intros r.
    unfold enqueued. rewrite bool_decide_false by apply Hno. rewrite upd_eq. unfold upd. by destruct (decide (r = Cpu i)).
Qed.

Definition stole (k : kern) (q : rqref -> list Z) (self : option nat) (i : nat) (t : Z) (k' : kern) (q' : rqref -> list Z) : Prop :=
  exists x y, t ∈ q (Cpu i) /\ self <> Some i /\ is_Some (get_percpu_n k i)
    /\ heap k !! t = Some x /\ stealable_by k self t x
    /\ heap k' !! t = Some y /\ state y = TASK_RUNNING /\ stack_released y = 0
    /\ forall r, q' r ≡ₚ without t (q r).

Lemma steal_from_spec self c i k q :
  queues_ok k q ->
  exists t k' q', steal_from self c i k = Ok (t, k') /\ queues_ok k' q'
    /\ ((t = 0 /\ erase k' = erase k /\ forall r, q' r ≡ₚ q r) \/ (t <> 0 /\ stole k q self i t k' q')).
Proof.
  intros Hq. unfold steal_from. destruct (get_percpu_n k i) as [p|] eqn:Ep; [|exists 0, k, q; by split_and!; [..|left]].
  destruct (bool_decide_reflect (self = Some i)) as [|Hself]; [exists 0, k, q; by split_and!; [..|left]|].
  destruct (Z.eqb_spec (head (cpu_runqueue p)) 0) as [|Hh]; [exists 0, k, q; by split_and!; [..|left]|]. cbn [orb].
  assert (Hr : is_Some (rq_of k (Cpu i))) by (rewrite (percpu_rq_of k i p Ep); eauto).
  destruct (rq_dequeue_spec self c k q (Cpu i) Hq Hr) as (k1 & -> & Hq1 & He1). cbn [rbind].
  destruct (q (Cpu i)) as [|t l] eqn:El.
  { exfalso. destruct (qk_list _ _ Hq (Cpu i) _ (percpu_rq_of k i p Ep)) as [Hs _]. rewrite El in Hs. by apply Hh. }
  cbn [List.tl List.hd_error from_option id] in *. assert (Hin : t ∈ q (Cpu i)) by (rewrite El; by left).
  destruct (queue_valid k q _ t Hq Hin) as [_ Ht0]. rewrite (proj2 (Z.eqb_neq t 0)) by lia.
  destruct (qk_heap _ _ Hq1 t) as [x1 Hx1]; [rewrite (f_equal lay He1 : lay k1 = lay k); by eapply (qk_slots _ _ Hq)|].
  destruct (erase_same k k1 t x1 He1 Hx1) as (x & Hx & Esame). unfold load_task at 1. rewrite Hx1. cbn [rbind].
  assert (Hback : forall k2, k2 = k1 -> exists t' k' q', (let* k := rq_enqueue self c (Cpu i) t k2 in Ok (0, k)) = Ok (t', k')
    /\ queues_ok k' q' /\ ((t' = 0 /\ erase k' = erase k /\ forall r, q' r ≡ₚ q r) \/ (t' <> 0 /\ stole k q self i t' k' q'))).
  { intros ? ->. destruct (put_back self c k q i t l k1 Hq El Hq1 He1 Hr) as (k2 & -> & Hq2 & He2). cbn [rbind].
    exists 0, k2, (upd q (Cpu i) (l ++ [t])). split_and!; [done|done|left; split_and!; [done|done|]].
    intros r. unfold upd. destruct (decide (r = Cpu i)) as [->|]; [|done]. rewrite El. apply rotate_perm. }
  destruct (match self_cpu k1 self with Some _ => _ | None => _ end) eqn:Epin; [by apply Hback|].
  destruct (_ && _ && _ && negb (task_running_somewhere k1 t)) eqn:Econd; [|by apply Hback].
  rewrite !andb_true_iff, Z.eqb_eq in Econd. destruct Econd as [[[C1 C2] C3] C4]. apply negb_true_iff in C4.
  rewrite (task_claim_spec k1 t x1 Hx1 C4 C1). destruct (negb (g_task_constructing x1) && (stack_released x1 =? 1)) eqn:Ecl; [|by apply Hback].
  rewrite andb_true_iff, negb_true_iff, Z.eqb_eq in Ecl. destruct Ecl as [C5 C6]. cbn [rbind].
  unfold load_task. cbn [heap set_heap]. rewrite lookup_insert_eq. cbn [rbind].
  eexists t, _, (upd q (Cpu i) l). split; [done|]. split.
  - refine (queues_set_task (set_heap (<[t := claimed_task x1]> (heap k1)) k1) _ t (claimed_task x1)
              (set_claim (state (claimed_task x1)) 0 (claimed_task x1)) _ _ eq_refl); [|simpl; by rewrite lookup_insert_eq].
    by apply (queues_set_task _ _ t x1).
  - right. split; [lia|]. exists x. eexists. split_and!; [done|done|by exists p|done| | simpl; by rewrite lookup_insert_eq|done|done|].
    + apply (stealable_transfer k k1 self t x x1 He1 Esame). split_and!; try done.
      intros p' Hp'. rewrite Hp' in Epin. by apply negb_false_iff in Epin.
    + assert (Hn : NoDup (t :: l)) by (rewrite <- El; apply Hq). apply list.NoDup_cons in Hn as [Htl _].
      intros r. unfold upd, without. destruct (decide (r = Cpu i)) as [->|Hne].
      * rewrite El, filter_cons_False by (intros H; by apply H). by rewrite filter_absent.
      * rewrite filter_absent; [done|]. intros Hi. apply Hne. by eapply (qk_apart _ _ Hq).
Qed.

Lemma stole_before k k1 q q1 self i t k' q' :
  erase k1 = erase k -> (forall r, q1 r ≡ₚ q r) -> stole k1 q1 self i t k' q' -> stole k q self i t k' q'.
Proof.
  intros He Hp (x & y & H1 & H2 & H3 & H4 & H5 & H6 & H7 & H8 & H9). destruct (erase_same k k1 t x He H4) as (x0 & Hx0 & E).
  exists x0, y. split_and!; try done.
  - by rewrite <- (Hp (Cpu i)).
  - by rewrite <- (erase_percpu_Some k k1).
  - by eapply stealable_transfer.
  - intros r. rewrite H9. unfold without. by rewrite (Hp r).
Qed.

Lemma steal_loop_spec self c cpus : forall k q,
  queues_ok k q ->
  exists t k' q', steal_loop self c cpus k = Ok (t, k') /\ queues_ok k' q'
    /\ ((t = 0 /\ erase k' = erase k /\ forall r, q' r ≡ₚ q r) \/ (t <> 0 /\ exists i, i ∈ cpus /\ stole k q self i t k' q')).
Proof.
  induction cpus as [|i cpus IH]; intros k q Hq; [exists 0, k, q; by split_and!; [..|left]|]. cbn [steal_loop].
  destruct (steal_from_spec self c i k q Hq) as (t & k1 & q1 & -> & Hq1 & [(-> & He & Hp)|[Ht Hs]]); cbn [rbind].
  - cbn [negb Z.eqb]. destruct (IH k1 q1 Hq1) as (t & k' & q' & -> & Hq' & Hres). exists t, k', q'. split_and!; [done|done|].
    destruct Hres as [(-> & He' & Hp')|(Ht & j & Hj & Hs)]; [left|right].
    + split_and!; [done|congruence|]. intros r. by rewrite Hp'.
    + split; [done|]. exists j. split; [by right|]. by eapply stole_before.
  - rewrite (proj2 (Z.eqb_neq t 0)) by done. cbn [negb]. exists t, k1, q1. split_and!; [done|done|].
    right. split; [done|]. exists i. split; [by left|done].
Qed.

(** ** Every sequence of operations *)

(** What is on a queue, by following the links. *)
Fixpoint collect (left : nat) (h : gmap Z task) (p : Z) : list Z :=
  if p =? 0 then []
  else match left with
       | O => []
       | S left' => match h !! p with Some tk => p :: collect left' h (next_run tk) | None => [p] end
       end.
Definition members (k : kern) (r : rqref) : list Z :=
  match rq_of k r with Some rq => collect RQ_WALK_LIMIT (heap k) (head rq) | None => [] end.

Lemma collect_seg h l : forall left p,
  seg h p l 0 -> walkable_nz l -> (length l <= left)%nat -> collect left h p = l.
Proof.
  induction l as [|x l IH]; intros left p Hs Hw Hl; simpl in Hs; [subst p; by destruct left|].
  destruct Hs as (-> & tk & Hx & Hs). destruct left as [|left]; simpl in Hl; [lia|]. simpl.
  rewrite (proj2 (Z.eqb_neq x 0)) by (apply Hw; by left). rewrite Hx. f_equal. apply IH; [done| |lia].
  intros y Hy. apply Hw. by right.
Qed.
Lemma members_queue k q r : queues_ok k q -> members k r = q r.
Proof.
  intros Hq. unfold members. destruct (rq_of k r) as [rq|] eqn:Hr; [|by rewrite (qk_none _ _ Hq)].
  destruct (queue_walkable k q r Hq) as [Hw Hl]. apply collect_seg; [by apply (qk_list _ _ Hq)| |done].
  intros y Hy. destruct (Hw y Hy). lia.
Qed.

(** The list up to the task, with it; all of it if the task is not there. *)
Fixpoint cut_after (t : Z) (l : list Z) : list Z :=
  match l with
  | [] => []
  | x :: l' => if x =? t then [x] else x :: cut_after t l'
  end.
Lemma cut_after_sub t l x : x ∈ cut_after t l -> x ∈ l.
Proof.
  induction l as [|y l IH]; simpl; [done|]. destruct (y =? t).
  - intros ->%list_elem_of_singleton. by left.
  - intros [->|Hx]%elem_of_cons; [by left|right; auto].
Qed.
Lemma cut_after_length t l : (length (cut_after t l) <= length l)%nat.
Proof. induction l as [|y l IH]; simpl; [done|]. destruct (y =? t); simpl; lia. Qed.
Lemma seg_cut (h h' : gmap Z task) t tk l : forall p,
  seg h p l 0 -> h' !! t = Some (set_next 0 tk) -> (forall y, y ∈ l -> y <> t -> h' !! y = h !! y) ->
  seg h' p (cut_after t l) 0.
Proof.
  induction l as [|x l IH]; intros p Hs Ht Hf; simpl in *; [done|]. destruct Hs as (-> & tx & Hx & Hs).
  destruct (Z.eqb_spec x t) as [->|Hne]; simpl.
  - split; [done|]. by exists (set_next 0 tk).
  - split; [done|]. exists tx. split; [rewrite Hf; [done|by left|done]|]. apply IH; [done..|]. intros y Hy. apply Hf. by right.
Qed.

(** Linking a task that is on no queue, or on another one: the queue is longer by
    it, and the other one ends with it. *)
Lemma link_members k q r rq t :
  queues_ok k q -> rq_of k r = Some rq -> t ∈ slots (lay k) -> t ∉ q r ->
  exists k', link_tail r rq t k = Ok k' /\ erase k' = erase k
    /\ forall r', members k' r' = if decide (r' = r) then q r ++ [t] else cut_after t (q r').
Proof.
  intros Hq Hr Ht Hno. destruct (link_heap k q r rq t Hq Hr Ht Hno) as (h & rq' & tt & Hl & Hs & Htl & Hh & Hf & Hp & He).
  eexists. split; [exact Hl|]. split; [by apply erase_link|]. intros r'. unfold members. rewrite heap_set_rq. cbn [heap set_heap].
  assert (Hnz : forall x, x ∈ slots (lay k) -> x <> 0) by (intros x Hx; destruct (slot_valid _ _ (qk_layout _ _ Hq) Hx); lia).
  assert (Hsl : forall x, x ∈ q r ++ [t] -> x ∈ slots (lay k)).
  { intros x [Hx|Hx%list_elem_of_singleton]%elem_of_app; [by eapply qk_slots|by subst x]. }
  destruct (decide (r' = r)) as [->|Hne].
  - rewrite (rq_of_set_rq _ r rq rq') by done. apply collect_seg; [done| |].
    + intros x Hx. apply Hnz, Hsl, Hx.
    + eapply queue_length; [apply Hq|by eapply append_nodup|exact Hsl].
  - rewrite rq_of_set_rq_ne by done. change (rq_of (set_heap h k) r') with (rq_of k r').
    destruct (rq_of k r') as [rq2|] eqn:Hr2; [|by rewrite (qk_none _ _ Hq r' Hr2)].
    destruct (queue_walkable k q r' Hq) as [_ Hlen]. apply collect_seg.
    + eapply seg_cut; [apply (qk_list _ _ Hq r' rq2 Hr2)|exact Hh|]. intros y Hy Hyt. apply Hf; [done|].
      intros Hyr. apply Hne. by eapply qk_apart.
    + intros x Hx%cut_after_sub. apply Hnz. by eapply qk_slots.
    + etrans; [apply cut_after_length|done].
Qed.
Lemma enqueue_members self c k q r t :
  queues_ok k q -> is_Some (rq_of k r) -> t ∈ slots (lay k) ->
  exists k', rq_enqueue self c r t k = Ok k' /\ erase k' = erase k
    /\ forall r', members k' r' = if bool_decide (t ∈ q r) then q r' else if decide (r' = r) then q r ++ [t] else cut_after t (q r').
Proof.
  intros Hq [rq Hr] Ht. unfold rq_enqueue. rewrite Hr.
  destruct (owner_set_eq k self (lock rq) c) as [o ->]. pose proof (queues_set_owner k q o Hq) as Hq1.
  destruct (qk_list _ _ Hq r rq Hr) as [Hs Htl]. destruct (slot_valid _ _ (qk_layout _ _ Hq) Ht) as [_ Ht0].
  destruct (queue_walkable _ q r Hq1) as [Hw Hlen]. rewrite (enqueue_walk_spec (set_owner o k) t (q r)) by done.
  destruct (bool_decide_reflect (t ∈ q r)) as [Hin|Hin]; cbn [rbind].
  - destruct (owner_clear_eq (set_owner o k) (lock rq)) as [o' ->]. eexists. split; [done|]. split; [done|].
    intros r'. apply members_queue. by do 2 apply queues_set_owner.
  - destruct (link_members (set_owner o k) q r rq t) as (k' & Hk & He & Hm); try done.
    rewrite Hk. cbn [rbind]. destruct (owner_clear_eq k' (lock rq)) as [o' ->]. eexists. split; [done|].
    split; [by rewrite erase_set_owner, He|]. intros r'. rewrite <- Hm. done.
Qed.

Inductive op :=
  | Enqueue (self : option nat) (t : Z)
  | Dequeue (self : option nat) (r : rqref)
  | Remove (self : option nat) (t : Z)
  | RemoveAll (self : option nat) (t : Z)
  | Steal (self : option nat).
Definition run (o : op) (k : kern) : res kern :=
  match o with
  | Enqueue self t => sched_rq_enqueue_current self 0 t k
  | Dequeue self r => let* '(_, k) := rq_dequeue self 0 r k in Ok k
  | Remove self t => sched_rq_remove_task self 0 t k
  | RemoveAll self t => sched_rq_remove_task_all self 0 t k
  | Steal self => let* '(_, k) := sched_steal_task self 0 k in Ok k
  end.
(** The queue [sched_rq_enqueue_current] puts a task on. *)
Definition home (k : kern) (self : option nat) (t : Z) : rqref :=
  match heap k !! t, self with
  | Some x, Some i => if stealable x then Cpu i else Global
  | _, _ => Global
  end.
(** What the callers owe: pointers to table tasks and existing CPUs, and no task
    handed to one queue while another still links it. *)
Definition permitted (k : kern) (o : op) : Prop :=
  match o with
  | Enqueue self t => t ∈ slots (lay k) /\ is_Some (rq_of k (home k self t)) /\ forall r, t ∈ members k r -> r = home k self t
  | Dequeue _ r => is_Some (rq_of k r)
  | Remove _ t => t ∈ slots (lay k)
  | RemoveAll _ _ | Steal _ => True
  end.

Definition queues_sound (k : kern) : Prop := queues_ok k (members k).
Lemma queues_sound_intro k q : queues_ok k q -> queues_sound k.
Proof. intros Hq. eapply queues_ok_proper; [done| |exact Hq]. intros r. by apply members_queue. Qed.

Lemma run_sound k o : queues_sound k -> permitted k o -> exists k', run o k = Ok k' /\ queues_sound k'.
Proof.
  intros Hq Hp. destruct o as [self t|self r|self t|self t|self]; simpl in *.
  - destruct Hp as (Ht & Hr & Hm). unfold sched_rq_enqueue_current. destruct (qk_heap _ _ Hq t Ht) as [x Hx].
    unfold load_task. unfold home in *. rewrite Hx in *. cbn [rbind].
    destruct (stealable x), self as [i|]; try (by exists k);
      (edestruct rq_enqueue_spec as (k' & Hk & Hq' & _); [exact Hq|exact Hr|exact Ht|exact Hm|];
       exists k'; split; [exact Hk|by eapply queues_sound_intro]).
  - destruct (rq_dequeue_spec self 0 k _ r Hq Hp) as (k' & -> & Hq' & _). exists k'. split; [done|by eapply queues_sound_intro].
  - unfold sched_rq_remove_task. destruct (qk_heap _ _ Hq t Hp) as [x Hx]. unfold load_task. rewrite Hx. cbn [rbind].
    destruct (stealable x).
    + destruct (remove_from_cpus_spec self 0 t (each_cpu k) k _ Hq) as (k' & -> & _ & Hq').
      exists k'. split; [done|by eapply queues_sound_intro].
    + destruct (rq_remove_spec self 0 k _ Global t Hq) as (k' & -> & Hq' & _); [by eexists|].
      exists k'. split; [done|by eapply queues_sound_intro].
  - destruct (remove_all_spec self 0 t k _ Hq) as (k' & -> & _ & Hq'). exists k'. split; [done|by eapply queues_sound_intro].
  - destruct (steal_loop_spec self 0 (each_cpu k) k _ Hq) as (t & k' & q' & Hs & Hq' & _).
    unfold sched_steal_task. rewrite Hs. exists k'. split; [done|by eapply queues_sound_intro].
Qed.

(** The rest of the scheduler changes anything of a task but its link. *)
Inductive step (k : kern) : kern -> Prop :=
  | step_op o k' : permitted k o -> run o k = Ok k' -> step k k'
  | step_task t x y : heap k !! t = Some x -> next_run y = next_run x -> step k (set_heap (<[t := y]> (heap k)) k).

Lemma step_queues_sound k k' : step k k' -> queues_sound k -> queues_sound k'.
Proof.
  intros [o k1 Hp Hr|t x y Hx Hy] Hq.
  - destruct (run_sound k o Hq Hp) as (k2 & Hr2 & Hq2). congruence.
  - eapply queues_sound_intro. by eapply queues_set_task.
Qed.

(** A walk that comes back has seen a finite list. *)
Lemma enqueue_walk_finite k t : forall left p b,
  enqueue_walk left k t p = Ok b ->
  exists l, (length l <= left)%nat /\ seg (heap k) p l (if b then t else 0) /\ walkable_nz l
    /\ forall x, x ∈ List.tl l -> sched_task_ptr_valid (lay k) x = true.
Proof.
  assert (Hstop : forall left p b, (if p =? 0 then b = false else p = t /\ b = true) ->
    exists l, (length l <= left)%nat /\ seg (heap k) p l (if b then t else 0) /\ walkable_nz l
      /\ forall x, x ∈ List.tl l -> sched_task_ptr_valid (lay k) x = true).
  { intros left p b H. exists []. split_and!; [simpl; lia| |by intros x ?%elem_of_nil|by intros x ?%elem_of_nil].
    destruct (Z.eqb_spec p 0) as [->|]; [by subst b|]. by destruct H as [-> ->]. }
  induction left as [|left IH]; intros p b H; simpl in H;
    (destruct (p =? 0) eqn:Ep; [apply (Hstop _ p b); rewrite Ep; congruence|]);
    (destruct (Z.eqb_spec p t) as [Et|Et]; [apply (Hstop _ p b); rewrite Ep; split; congruence|]); [done|].
  unfold load_task in H. destruct (heap k !! p) as [tk|] eqn:Hp; [|done]. cbn [rbind] in H.
  destruct (bad_next k (next_run tk)) eqn:Eb; [done|]. destruct (IH _ _ H) as (l & Hl & Hs & Hz & Hv).
  exists (p :: l). split_and!; [simpl; lia|simpl; eauto|intros x [->|?]%elem_of_cons; [by apply Z.eqb_neq|by apply Hz]|].
  simpl. intros x Hx. destruct l as [|y l]; [by apply elem_of_nil in Hx|]. simpl in Hs. destruct Hs as [Hy _].
  apply elem_of_cons in Hx as [->|Hx]; [|by apply Hv]. unfold bad_next in Eb. rewrite Hy in Eb.
  apply andb_false_iff in Eb as [Eb|Eb]; [|by apply negb_false_iff]. apply negb_false_iff, Z.eqb_eq in Eb.
  by destruct (Hz y (list_elem_of_here _ _)).
Qed.

(** ** Properties *)

(** C33 (refinement).  On well-formed queues the pointer code implements list operations, for
    every task of the table, and never panics or faults.  Enqueue leaves everything alone if
    the task is already on that queue; otherwise it appends the task, and if the task was on
    another queue, that one loses all that was queued behind it.  If the task was on no other
    queue the queues are well formed again.  Dequeue takes the head (null from an empty queue),
    remove deletes the task and says whether it was there; every other queue is untouched, and
    so is everything of a task but its link. *)
Theorem runqueue_refines_lists self c k q r t :
  queues_ok k q -> is_Some (rq_of k r) -> t ∈ slots (lay k) ->
  (exists k', rq_enqueue self c r t k = Ok k' /\ erase k' = erase k
     /\ (forall r', members k' r' = if bool_decide (t ∈ q r) then q r'
                                    else if decide (r' = r) then q r ++ [t] else cut_after t (q r'))
     /\ ((forall r', t ∈ q r' -> r' = r) -> queues_ok k' (upd q r (if bool_decide (t ∈ q r) then q r else q r ++ [t]))))
  /\ (exists k', rq_dequeue self c r k = Ok (default 0 (List.hd_error (q r)), k') /\ erase k' = erase k
        /\ queues_ok k' (upd q r (List.tl (q r))))
  /\ (exists k', rq_remove self c r t k = Ok (bool_decide (t ∈ q r), k') /\ erase k' = erase k
        /\ queues_ok k' (upd q r (without t (q r)))).
Proof.
  intros Hq Hr Ht. split_and!.
  - destruct (enqueue_members self c k q r t Hq Hr Ht) as (k' & H1 & H2 & H3). exists k'. split_and!; try done.
    intros Hown. destruct (rq_enqueue_spec self c k q r t Hq Hr Ht Hown) as (k2 & E & H4 & _).
    assert (k2 = k') as -> by congruence. exact H4.
  - destruct (rq_dequeue_spec self c k q r Hq Hr) as (k' & H1 & H2 & H3). by exists k'.
  - destruct (rq_remove_spec self c k q r t Hq Hr) as (k' & H1 & H2 & H3). by exists k'.
Qed.

(** (Safety.)  Starting from empty queues, after any sequence of enqueues, dequeues, removals,
    scrubs and steals by any CPUs, with the scheduler changing the tasks' other fields in
    between, every queue is a finite list of distinct table tasks, no task is on two queues, and
    every further permitted operation completes: the cyclic, corrupt and not-a-slot panics are
    unreachable as long as no task is handed to a queue while another one links it. *)
Theorem runqueues_never_panic k0 k :
  queues_ok k0 (fun _ => []) -> rtc step k0 k ->
  queues_ok k (members k) /\ forall o, permitted k o -> exists k', run o k = Ok k'.
Proof.
  intros H0 Hs. assert (Hk : queues_sound k)
    by (eapply (rtc_invariant step queues_sound step_queues_sound); [exact Hs|by eapply queues_sound_intro]).
  split; [exact Hk|]. intros o Hp. destruct (run_sound k o Hk Hp) as (k' & Hr & _). by exists k'.
Qed.

(** (Safety.)  Work stealing takes a task only from another online CPU's queue, and only one
    that is ready, stealable, fully constructed, with its stack handed over, current on no CPU
    and allowed on the thief; it leaves it running with the stack leased and off every queue.
    All other queues keep their tasks, up to rotation, and when nothing qualifies no task
    changes at all. *)
Theorem steal_takes_only_claimable self c k q :
  queues_ok k q ->
  exists t k' q', sched_steal_task self c k = Ok (t, k') /\ queues_ok k' q'
    /\ ((t = 0 /\ erase k' = erase k /\ forall r, q' r ≡ₚ q r)
        \/ (t <> 0 /\ exists i x y, self <> Some i /\ is_Some (get_percpu_n k i) /\ t ∈ q (Cpu i)
             /\ heap k !! t = Some x /\ stealable_by k self t x
             /\ heap k' !! t = Some y /\ state y = TASK_RUNNING /\ stack_released y = 0
             /\ forall r, q' r ≡ₚ without t (q r))).
Proof.
  intros Hq. destruct (steal_loop_spec self c (each_cpu k) k q Hq) as (t & k' & q' & H1 & H2 & H3).
  exists t, k', q'. split_and!; [done|done|]. destruct H3 as [H3|(Ht & i & _ & x & y & S1 & S2 & S3 & S4 & S5 & S6 & S7 & S8 & S9)];
    [by left|right]. split; [done|]. exists i, x, y. by split_and!.
Qed.

(** (Roundtrip.)  The scrub of a recycled slot is complete: after sched_rq_remove_task_all no
    queue that sched_rq_contains_task looks at holds the task, whatever queue it was on, and
    every other task stays where it was, in order. *)
Theorem scrub_then_not_contained self c t k q :
  queues_ok k q -> 0 < t -> (forall i, is_Some (get_percpu_n k i) -> Z.of_nat i < g_max_cpus k) ->
  exists k' q', sched_rq_remove_task_all self c t k = Ok k' /\ queues_ok k' q'
    /\ sched_rq_contains_task t k' = Ok false
    /\ forall r, q' r = q r \/ q' r = without t (q r).
Proof.
  intros Hq Ht Hcpus. destruct (remove_all_spec self c t k q Hq) as (k' & H1 & He & H2).
  eexists k', _. split_and!; [done|exact H2| |].
  - rewrite (contains_spec _ _ _ H2 Ht). f_equal. apply bool_decide_false. intros [Hg|(i & Hi & Hs & Hin)%List.Exists_exists].
    + rewrite decide_True in Hg by by left. by apply without_elem in Hg as [? _].
    + rewrite (erase_percpu_Some k k') in Hs by done. rewrite decide_True in Hin; [by apply without_elem in Hin as [? _]|].
      right. split; [|done]. unfold each_cpu. apply elem_of_seq. specialize (Hcpus i Hs). lia.
  - intros r. simpl. destruct (decide _); auto.
Qed.

(** (Termination.)  On any memory whatsoever, however corrupt, rq_enqueue ends, and if it
    returns at all then the list was sound as far as it matters: following the links from the
    head reaches the end, or the task being queued, within 4096 steps through task slots.  A
    cyclic list is therefore always reported and never walked for ever. *)
Theorem enqueue_returns_only_on_finite_list self c r rq t k k' :
  rq_of k r = Some rq -> rq_enqueue self c r t k = Ok k' ->
  exists l e, (length l <= RQ_WALK_LIMIT)%nat /\ seg (heap k) (head rq) l e /\ (e = 0 \/ e = t)
    /\ forall x, x ∈ List.tl l -> sched_task_ptr_valid (lay k) x = true.
Proof.
  intros Hr H. unfold rq_enqueue in H. rewrite Hr in H. destruct (owner_set_eq k self (lock rq) c) as [o Eo]. rewrite Eo in H.
  destruct (enqueue_walk RQ_WALK_LIMIT (set_owner o k) t (head rq)) as [b| |] eqn:E; [|done|done].
  destruct (enqueue_walk_finite _ _ _ _ _ E) as (l & H1 & H2 & _ & H4). exists l, (if b then t else 0).
  split_and!; [done|done|destruct b; auto|done].
Qed.

(** ** Witnesses and examples *)

(** One chunk of 64 tasks, two CPUs, the first task a stealable worker. *)
Definition demo_layout : layout := mkLayout 16 [1600] [].
Definition demo_task (t : Z) : task := mkTask 0 TASK_READY (t =? 1600) 1 0 false.
Definition demo_heap : gmap Z task := list_to_map ((fun t => (t, demo_task t)) <$> slots demo_layout).
Definition demo_cpu (id : Z) : option percpu := Some (mkCpu true id (mkRq (700 + id) 0 0) 0).
Definition demo0 : kern :=
  mkKern demo_heap demo_layout (replicate RQ_OWNER_SLOTS (mkOwner 0 0 0)) (mkRq 699 0 0) [demo_cpu 0; demo_cpu 1] 2.
Definition after (x : res kern) (k : kern) : kern := match x with Ok k' => k' | _ => k end.
Definition demo1 : kern := after (run (Enqueue (Some 0%nat) 1600) demo0) demo0.

Lemma demo0_ok : queues_ok demo0 (fun _ => []).
Proof.
  constructor; try done.
  - split_and!; [done|simpl; split_and!; [lia|apply List.Forall_nil|done]|simpl; unfold TASK_MAX_CHUNKS; lia].
  - assert (H : Forall (fun t => is_Some (heap demo0 !! t)) (slots (lay demo0))) by (apply (bool_decide_unpack _); vm_compute; exact I).
    intros t Ht. by apply (proj1 (Forall_forall _ _) H).
  - intros [|[|[|i]]] rq Hr; simpl in Hr; simplify_eq; done.
  - intros r. apply NoDup_nil_2.
  - by intros r t ?%elem_of_nil.
  - by intros r r' t ?%elem_of_nil.
Qed.
Lemma demo_slot : (1600 : Z) ∈ slots (lay demo0).
Proof. apply (bool_decide_unpack _). vm_compute. exact I. Qed.
Lemma demo1_step : step demo0 demo1.
Proof.
  apply (step_op demo0 (Enqueue (Some 0%nat) 1600)); [|vm_compute; reflexivity]. split; [exact demo_slot|]. split.
  - vm_compute. eauto.
  - intros r Hr. rewrite (members_queue demo0 _ r demo0_ok) in Hr. by apply elem_of_nil in Hr.
Qed.
Lemma demo1_ok : queues_ok demo1 (members demo1).
Proof. apply (step_queues_sound demo0 demo1 demo1_step). eapply queues_sound_intro, demo0_ok. Qed.

(** Two tasks on the queue of CPU 0; the first is then enqueued on CPU 1. *)
Definition on_cpu0 (l : list Z) : rqref -> list Z := upd (fun _ => []) (Cpu 0) l.
Definition demo2 : kern := after (rq_enqueue None 0 (Cpu 0) 1616 demo1) demo1.
Lemma demo_enqueue k l t : queues_ok k (on_cpu0 l) -> t ∈ slots (lay k) -> is_Some (rq_of k (Cpu 0)) -> t ∉ l -> forall self,
  queues_ok (after (rq_enqueue self 0 (Cpu 0) t k) k) (on_cpu0 (l ++ [t])).
Proof.
  intros Hq Ht Hr Hl self. destruct (rq_enqueue_spec self 0 k _ (Cpu 0) t Hq Hr Ht) as (k' & -> & Hq' & _).
  - intros r' Hr'. unfold on_cpu0, upd in Hr'. destruct (decide (r' = Cpu 0)); [done|]. by apply elem_of_nil in Hr'.
  - simpl. eapply queues_ok_proper; [done| |exact Hq']. intros r'. unfold on_cpu0, upd, enqueued.
    destruct (decide (r' = Cpu 0)); [|done]. rewrite decide_True by done. by rewrite bool_decide_false.
Qed.
Lemma demo2_ok : queues_ok demo2 (on_cpu0 [1600; 1616]).
Proof.
  assert (H1 : queues_ok demo1 (on_cpu0 [1600])).
  { apply (demo_enqueue demo0 [] 1600); [|exact demo_slot|by eexists|apply not_elem_of_nil].
    eapply queues_ok_proper; [done| |exact demo0_ok]. intros r'. unfold on_cpu0, upd. by destruct (decide _). }
  apply (demo_enqueue demo1 [1600] 1616 H1); [apply (bool_decide_unpack _); vm_compute; exact I| |].
  - apply (erase_rq_of demo0 demo1 (Cpu 0)); [vm_compute; reflexivity|by eexists].
  - intros H%list_elem_of_singleton. lia.
Qed.
Lemma runqueue_refines_lists_witness :
  (exists k', rq_enqueue (Some 1%nat) 0 (Cpu 0) 1600 demo0 = Ok k' /\ erase k' = erase demo0)
  /\ exists k', rq_enqueue (Some 1%nat) 0 (Cpu 1) 1600 demo2 = Ok k' /\ members k' (Cpu 0) = [1600] /\ members k' (Cpu 1) = [1600].
Proof.
  split.
  - destruct (runqueue_refines_lists (Some 1%nat) 0 demo0 (fun _ => []) (Cpu 0) 1600 demo0_ok (ex_intro _ _ eq_refl) demo_slot) as [(k' & H1 & H2 & _) _].
    exists k'. split; [exact H1|exact H2].
  - destruct (runqueue_refines_lists (Some 1%nat) 0 demo2 (on_cpu0 [1600; 1616]) (Cpu 1) 1600 demo2_ok) as [(k' & H1 & _ & H3 & _) _].
    + apply (erase_rq_of demo0 demo2 (Cpu 1)); [vm_compute; reflexivity|by eexists].
    + apply (bool_decide_unpack _). vm_compute. exact I.
    + exists k'. split; [exact H1|]. rewrite !H3. split; reflexivity.
Defined.

Lemma runqueues_never_panic_witness :
  members demo1 (Cpu 0) = [1600] /\ exists k', run (Steal (Some 1%nat)) demo1 = Ok k'.
Proof.
  split; [vm_compute; reflexivity|].
  exact (proj2 (runqueues_never_panic demo0 demo1 demo0_ok (rtc_once demo0 demo1 demo1_step)) (Steal (Some 1%nat)) I).
Defined.

Lemma steal_takes_only_claimable_witness :
  (exists k', sched_steal_task (Some 1%nat) 0 demo1 = Ok (1600, k'))
  /\ exists t k' q', sched_steal_task (Some 1%nat) 0 demo1 = Ok (t, k') /\ queues_ok k' q'.
Proof.
  split; [eexists; vm_compute; reflexivity|].
  destruct (steal_takes_only_claimable (Some 1%nat) 0 demo1 (members demo1) demo1_ok) as (t & k' & q' & H1 & H2 & _).
  exists t, k', q'. split; [exact H1|exact H2].
Defined.

Lemma demo_cpus i : is_Some (get_percpu_n demo1 i) -> Z.of_nat i < g_max_cpus demo1.
Proof.
  intros H. rewrite (erase_percpu_Some demo0 demo1) in H by (vm_compute; reflexivity).
  replace (g_max_cpus demo1) with 2 by (vm_compute; reflexivity). destruct i as [|[|i]]; [lia|lia|]. by destruct H.
Qed.
Lemma scrub_then_not_contained_witness :
  sched_rq_contains_task 1600 demo1 = Ok true
  /\ exists k', sched_rq_remove_task_all (Some 1%nat) 0 1600 demo1 = Ok k' /\ sched_rq_contains_task 1600 k' = Ok false.
Proof.
  split; [vm_compute; reflexivity|].
  destruct (scrub_then_not_contained (Some 1%nat) 0 1600 demo1 (members demo1) demo1_ok ltac:(lia) demo_cpus)
    as (k' & q' & H1 & _ & H2 & _).
  exists k'. split; [exact H1|exact H2].
Defined.

Lemma enqueue_returns_only_on_finite_list_witness :
  exists k', rq_enqueue None 0 Global 1616 demo1 = Ok k'
  /\ exists l e, (length l <= RQ_WALK_LIMIT)%nat /\ seg (heap demo1) (head (g_global_rq demo1)) l e.
Proof.
  eexists. split; [vm_compute; reflexivity|].
  edestruct (enqueue_returns_only_on_finite_list None 0 Global (g_global_rq demo1) 1616 demo1) as (l & e & H1 & H2 & _);
    [reflexivity|vm_compute; reflexivity|].
  exists l, e. split; [exact H1|exact H2].
Defined.

(** A ring is reported. *)
Definition ring : kern :=
  let k := set_heap (<[1600 := set_next 1616 (demo_task 1600)]> (<[1616 := set_next 1600 (demo_task 1616)]> demo_heap)) demo0 in
  set_rq Global (mkRq 699 1600 1616) k.
Example cyclic_list_is_reported :
  rq_enqueue None 0 Global 1632 ring = Panic "runqueue list is cyclic"
  /\ rq_remove None 0 Global 1632 ring = Panic "runqueue list is cyclic".
Proof. vm_compute. split; reflexivity. Qed.

(** What the permission rules out: the check for a task that is already queued
    looks at one queue only, so a worker still linked on CPU 0 that is made
    runnable on CPU 1 cuts CPU 0's list off behind it. *)
Example second_queue_truncates_the_first :
  let k := after (rq_enqueue None 0 (Cpu 0) 1616 demo1) demo1 in
  members k (Cpu 0) = [1600; 1616]
  /\ let k' := after (run (Enqueue (Some 1%nat) 1600) k) k in
     members k' (Cpu 0) = [1600] /\ members k' (Cpu 1) = [1600].
Proof. vm_compute. split_and!; reflexivity. Qed.

End RunqueueProofs.
