(* ===== verification/Pipe.v ===== *)
(** Pipes and FIFOs ([kernel/fs/pipe.c]): the ring buffer, blocking reads and
    writes, tee, poll, the pool of pipe slots with its buffer cache, and the
    open-time rendezvous of a FIFO.

    A pipe is a slot of the pool; a handle refers to it by index.  A data buffer
    is the map from positions to the bytes stored there.  What the heap, the
    handle table and the descriptor table answer are inputs, and so are the
    sleeps of the blocking calls. *)
From S2P Require Import Prelude.
From stdpp Require Import list.
Local Open Scope Z_scope.
Local Open Scope kernel_scope.

Module Pipe.

Definition PIPE_BUFFER_SIZE := 65536.
Definition PIPE_BUFFER_CACHE := 64.
Definition MAX_VFS_PIPES_CEIL : nat := 4096.
Definition PIPE_FIONREAD := 21531.
Definition B1NIX_O_RDONLY := 0.
Definition B1NIX_O_WRONLY := 1.
Definition B1NIX_O_RDWR := 2.
Definition B1NIX_O_NONBLOCK := 16384.
Definition B1NIX_POLLIN := 1.
Definition B1NIX_POLLOUT := 4.
Definition B1NIX_POLLERR := 8.
Definition B1NIX_POLLHUP := 16.

Record vfs_pipe := mkPipe {
  used : bool; buffer : option (gmap Z Z); size : Z; read_pos : Z; write_pos : Z;
  readers : Z; writers : Z; reader_opens : Z; writer_opens : Z; event_gen : Z }.
Definition pipe_zero : vfs_pipe := mkPipe false None 0 0 0 0 0 0 0 0.

Inductive handle_kind := VFS_HANDLE_PIPE_READ | VFS_HANDLE_PIPE_WRITE.
Inductive file_ops := pipe_read_ops | pipe_write_ops | fifo_read_ops | fifo_write_ops | fifo_rdwr_ops.
(** [node] is the inode of the FIFO a handle was opened on. *)
Record vfs_handle := mkHandle {
  kind : handle_kind; private_data : option nat; node : option Z; offset : Z; flags : Z; ops : file_ops }.

(** The pool, how many buffers it holds, and the pipe attached to each FIFO. *)
Record pool := mkPool { pipes : list vfs_pipe; g_pipe_buffers_held : Z; fifo_of : gmap Z nat }.

Definition set_pipe (i : nat) (p : vfs_pipe) (s : pool) : pool :=
  mkPool (<[i := p]> (pipes s)) (g_pipe_buffers_held s) (fifo_of s).
Definition add_held (n : Z) (s : pool) : pool := mkPool (pipes s) (g_pipe_buffers_held s + n) (fifo_of s).
Definition set_fifo (ino : Z) (i : option nat) (s : pool) : pool :=
  mkPool (pipes s) (g_pipe_buffers_held s) (partial_alter (fun _ => i) ino (fifo_of s)).
Definition get_pipe (s : pool) (i : nat) : res vfs_pipe :=
  match pipes s !! i with Some p => Ok p | None => Fault end.

Definition set_used (b : bool) (p : vfs_pipe) : vfs_pipe :=
  mkPipe b (buffer p) (size p) (read_pos p) (write_pos p) (readers p) (writers p)
    (reader_opens p) (writer_opens p) (event_gen p).
Definition set_buffer (b : option (gmap Z Z)) (p : vfs_pipe) : vfs_pipe :=
  mkPipe (used p) b (size p) (read_pos p) (write_pos p) (readers p) (writers p)
    (reader_opens p) (writer_opens p) (event_gen p).
Definition set_ends (r w : Z) (p : vfs_pipe) : vfs_pipe :=
  mkPipe (used p) (buffer p) (size p) (read_pos p) (write_pos p) r w (reader_opens p) (writer_opens p) (event_gen p).

(** ** The ring *)

Definition next_pos (i : Z) : Z := (i + 1) mod PIPE_BUFFER_SIZE.
Definition byte_at (b : gmap Z Z) (i : Z) : Z := default 0 (b !! i).
(** The copy loops: [n] bytes from position [rp], [data] to position [wp]. *)
Fixpoint copy_out (n : nat) (b : gmap Z Z) (rp : Z) : list Z * Z :=
  match n with
  | O => ([], rp)
  | S n' => let (bs, rp') := copy_out n' b (next_pos rp) in (byte_at b rp :: bs, rp')
  end.
Fixpoint copy_in (data : list Z) (b : gmap Z Z) (wp : Z) : gmap Z Z * Z :=
  match data with
  | [] => (b, wp)
  | x :: data' => copy_in data' (<[wp := x]> b) (next_pos wp)
  end.

Definition take_bytes (n : Z) (p : vfs_pipe) : res (list Z * vfs_pipe) :=
  let to_r := if n <? size p then n else size p in
  match buffer p with
  | None => Fault
  | Some b =>
      let (bs, rp) := copy_out (Z.to_nat to_r) b (read_pos p) in
      Ok (bs, mkPipe (used p) (buffer p) (size p - to_r) rp (write_pos p) (readers p) (writers p)
                (reader_opens p) (writer_opens p) (event_gen p))
  end.
Definition put_bytes (data : list Z) (p : vfs_pipe) : res (Z * vfs_pipe) :=
  let n := Z.of_nat (length data) in
  let free_space := PIPE_BUFFER_SIZE - size p in
  let to_w := if n <? free_space then n else free_space in
  match buffer p with
  | None => Fault
  | Some b =>
      let (b', wp) := copy_in (take (Z.to_nat to_w) data) b (write_pos p) in
      Ok (to_w, mkPipe (used p) (Some b') (size p + to_w) (read_pos p) wp (readers p) (writers p)
                  (reader_opens p) (writer_opens p)
                  (if to_w <>? 0 then u32 (event_gen p + 1) else event_gen p))
  end.

(** ** read, write *)

(** How a sleep ends: a signal is pending, or a wake-up after which the loop
    looks again, others having done [f] meanwhile. *)
Inductive wait := Signal | Slept (f : pool -> pool).
Inductive rw_result := Blocked | Ret (rc : Z) (bytes : list Z) (sigpipe : bool).

Fixpoint pipe_read_loop (waits : list wait) (i : nat) (fl n : Z) (s : pool) : res (rw_result * pool) :=
  let* p := get_pipe s i in
  if size p =? 0 then
    if writers p =? 0 then Ok (Ret 0 [] false, s)
    else if fl &? B1NIX_O_NONBLOCK then Ok (Ret (- EAGAIN) [] false, s)
    else match waits with
         | [] => Ok (Blocked, s)
         | Signal :: _ => Ok (Ret (- ERESTARTSYS) [] false, s)
         | Slept f :: waits' => pipe_read_loop waits' i fl n (f s)
         end
  else
    let* '(bs, p') := take_bytes n p in
    Ok (Ret (Z.of_nat (length bs)) bs false, set_pipe i p' s).
Definition usable (s : pool) (i : option nat) : bool :=
  match i with
  | Some i => match pipes s !! i with Some p => used p | None => false end
  | None => false
  end.
Definition pipe_read (h : vfs_handle) (n : Z) (waits : list wait) (s : pool) : res (rw_result * pool) :=
  match private_data h with
  | Some i => if usable s (Some i) then pipe_read_loop waits i (flags h) n s else Ok (Ret (- EIO) [] false, s)
  | None => Ok (Ret (- EIO) [] false, s)
  end.

Fixpoint pipe_write_loop (waits : list wait) (i : nat) (fl : Z) (data : list Z) (s : pool) : res (rw_result * pool) :=
  let* p := get_pipe s i in
  if readers p =? 0 then Ok (Ret (- EPIPE) [] true, s)
  else if PIPE_BUFFER_SIZE - size p =? 0 then
    if fl &? B1NIX_O_NONBLOCK then Ok (Ret (- EAGAIN) [] false, s)
    else match waits with
         | [] => Ok (Blocked, s)
         | Signal :: _ => Ok (Ret (- ERESTARTSYS) [] false, s)
         | Slept f :: waits' => pipe_write_loop waits' i fl data (f s)
         end
  else
    let* '(n, p') := put_bytes data p in
    Ok (Ret n [] false, set_pipe i p' s).
Definition pipe_write (h : vfs_handle) (data : list Z) (waits : list wait) (s : pool) : res (rw_result * pool) :=
  match private_data h with
  | Some i => if usable s (Some i) then pipe_write_loop waits i (flags h) data s else Ok (Ret (- EIO) [] false, s)
  | None => Ok (Ret (- EIO) [] false, s)
  end.

(** ** tee, poll, ioctl *)

Definition is_read_end (h : vfs_handle) : bool := match kind h with VFS_HANDLE_PIPE_READ => true | _ => false end.

Definition vfs_pipe_tee (inh outh : option vfs_handle) (len : Z) (s : pool) : res (Z * pool) :=
  match inh, outh with
  | Some ih, Some oh =>
      if negb (is_read_end ih) || is_read_end oh then Ok (- EINVAL, s)
      else if negb (usable s (private_data ih)) || negb (usable s (private_data oh)) then Ok (- EIO, s)
      else match private_data ih, private_data oh with
      | Some a, Some b =>
          if (a =? b)%nat then Ok (- EINVAL, s)
          else if len =? 0 then Ok (0, s)
          else
            let* src := get_pipe s a in
            let* dst := get_pipe s b in
            if readers dst =? 0 then Ok (- EPIPE, s)
            else
              let avail := size src in
              let space := PIPE_BUFFER_SIZE - size dst in
              let n := if avail <? len then avail else len in
              let n := if space <? n then space else n in
              if n =? 0 then Ok (if (avail =? 0) && (writers src =? 0) then 0 else - EAGAIN, s)
              else match buffer src, buffer dst with
                   | Some sb, Some db =>
                       let (bs, _) := copy_out (Z.to_nat n) sb (read_pos src) in
                       let (db', wp) := copy_in bs db (write_pos dst) in
                       Ok (n, set_pipe b (mkPipe (used dst) (Some db') (size dst + n) (read_pos dst) wp
                                            (readers dst) (writers dst) (reader_opens dst) (writer_opens dst)
                                            (u32 (event_gen dst + 1))) s)
                   | _, _ => Fault
                   end
      | _, _ => Ok (- EIO, s)
      end
  | _, _ => Ok (- EINVAL, s)
  end.

Definition bit (b : bool) (m : Z) : Z := if b then m else 0.
Definition pipe_poll (h : vfs_handle) (s : pool) : res Z :=
  if negb (usable s (private_data h)) then Ok B1NIX_POLLHUP
  else match private_data h with
  | None => Ok B1NIX_POLLHUP
  | Some i =>
      let* p := get_pipe s i in
      if is_read_end h then
        let fifo_waiting := match node h with Some _ => writer_opens p =? u32 (offset h) | None => false end in
        Ok (Z.lor (bit (0 <? size p) B1NIX_POLLIN)
                  (bit ((writers p =? 0) && negb fifo_waiting) B1NIX_POLLHUP))
      else
        Ok (Z.lor (bit (size p <? PIPE_BUFFER_SIZE) B1NIX_POLLOUT) (bit (readers p =? 0) B1NIX_POLLERR))
  end.
Definition pipe_poll_gen (h : vfs_handle) (s : pool) : Z :=
  match private_data h with
  | Some i => match pipes s !! i with Some p => event_gen p | None => 0 end
  | None => 0
  end.
(** The answer and the count copied out, if the request is FIONREAD. *)
Definition pipe_ioctl (h : vfs_handle) (request : Z) (copyout_ok : bool) (s : pool) : Z * option Z :=
  if request <>? PIPE_FIONREAD then (- ENOTTY, None)
  else
    let n := match private_data h with
             | Some i => match pipes s !! i with Some p => if used p then i32 (size p) else 0 | None => 0 end
             | None => 0
             end in
    if copyout_ok then (0, Some n) else (- EFAULT, None).

(** ** Release and the pool *)

Definition pipe_release (h : vfs_handle) (s : pool) : res pool :=
  match private_data h with
  | None => Ok s
  | Some i =>
      let* p := get_pipe s i in
      let* p :=
        if is_read_end h
        then kassert (0 <? readers p) "reader closed with no readers" (Ok (set_ends (readers p - 1) (writers p) p))
        else kassert (0 <? writers p) "writer closed with no writers" (Ok (set_ends (readers p) (writers p - 1) p)) in
      if (readers p <=? 0) && (writers p <=? 0) then
        if PIPE_BUFFER_CACHE <? g_pipe_buffers_held s
        then let s := set_pipe i (set_used false (set_buffer None p)) s in
             Ok (if bool_decide (is_Some (buffer p)) then add_held (-1) s else s)
        else Ok (set_pipe i (set_used false p) s)
      else Ok (set_pipe i p s)
  end.

Definition vfs_pipe_init_handle (fl : Z) (i : nat) (is_write : bool) : vfs_handle :=
  mkHandle (if is_write then VFS_HANDLE_PIPE_WRITE else VFS_HANDLE_PIPE_READ) (Some i) None 0
    (Z.lor (Z.land fl (Z.lnot 3)) (if is_write then B1NIX_O_WRONLY else B1NIX_O_RDONLY))
    (if is_write then pipe_write_ops else pipe_read_ops).

(** [max_pipes] is [resource_caps_pipe_max()], [mem] whether [kmalloc] succeeds. *)
Definition pipe_pool_claim (max_pipes : nat) (mem : bool) (s : pool) : option nat * pool :=
  match first_index (fun p => negb (used p)) (take max_pipes (pipes s)) with
  | None => (None, s)
  | Some i =>
      match pipes s !! i with
      | None => (None, s)
      | Some p =>
          match buffer p with
          | Some _ => (Some i, set_pipe i (set_used true p) s)
          | None => if mem then (Some i, add_held 1 (set_pipe i (set_used true (set_buffer (Some ∅) p)) s))
                    else (None, set_pipe i (set_used false p) s)
          end
      end
  end.
Definition pipe_slot_reset (p : vfs_pipe) : vfs_pipe := set_buffer (buffer p) pipe_zero.
Definition alter_pipe (i : nat) (f : vfs_pipe -> vfs_pipe) (s : pool) : pool :=
  mkPool (alter f i (pipes s)) (g_pipe_buffers_held s) (fifo_of s).

(** What the handle table and the descriptor table answer. *)
Record answers := mkAnswers { rh_ok : bool; wh_ok : bool; fd0 : Z; fd1 : Z }.

(** The handles it made are returned when it succeeds. *)
Definition vfs_pipe_create (pipefd_ok : bool) (max_pipes : nat) (mem : bool) (a : answers) (s : pool)
    : res (Z * list vfs_handle * pool) :=
  if negb pipefd_ok then Ok (- EINVAL, [], s)
  else match pipe_pool_claim max_pipes mem s with
  | (None, s) => Ok (- ENFILE, [], s)
  | (Some i, s) =>
      if negb (rh_ok a) || negb (wh_ok a) then Ok (- EMFILE, [], alter_pipe i (set_used false) s)
      else
        let s := alter_pipe i (fun p => set_ends 1 1 (set_used true (pipe_slot_reset p))) s in
        let rh := vfs_pipe_init_handle 0 i false in
        let wh := vfs_pipe_init_handle 0 i true in
        if (fd0 a <? 0) || (fd1 a <? 0) then
          let* s := pipe_release rh s in
          let* s := pipe_release wh s in
          Ok (- EMFILE, [], s)
        else Ok (0, [rh; wh], s)
  end.

(** ** FIFOs *)

Definition fifo_detach (ino : option Z) (i : nat) (was_reader was_writer : bool) (s : pool) : res pool :=
  let* p := get_pipe s i in
  kassert (negb was_reader || (0 <? readers p)) "reader detached with no readers"
  (kassert (negb was_writer || (0 <? writers p)) "writer detached with no writers"
    (let p := set_ends (readers p - (if was_reader then 1 else 0)) (writers p - (if was_writer then 1 else 0)) p in
     if (readers p <=? 0) && (writers p <=? 0) then
       let s := match ino with
                | Some n => if bool_decide (fifo_of s !! n = Some i) then set_fifo n None s else s
                | None => s
                end in
       Ok (set_pipe i (set_used false p) s)
     else Ok (set_pipe i p s))).

Definition want_read (fl : Z) : bool := let acc := Z.land fl 3 in (acc =? B1NIX_O_RDONLY) || (acc =? B1NIX_O_RDWR).
Definition want_write (fl : Z) : bool := let acc := Z.land fl 3 in (acc =? B1NIX_O_WRONLY) || (acc =? B1NIX_O_RDWR).

Definition fifo_release (h : vfs_handle) (s : pool) : res pool :=
  match private_data h with
  | Some i => fifo_detach (node h) i (want_read (flags h)) (want_write (flags h)) s
  | None => Ok s
  end.

(** Up to the end of the section under [fifo_attach_lock]: the pipe attached to the
    inode with this opener counted, or the error.  The slot is claimed before, under
    the lock of the pool, and a spare one is given back after; here this is one step.
    Nobody else looks at a claimed slot, so an opener in between sees no difference
    but a pool short of one slot, and how many slots a claim may look at is an input
    of every step. *)
Definition fifo_attach (ino fl : Z) (max_pipes : nat) (mem : bool) (s : pool) : (Z + nat) * pool :=
  match pipe_pool_claim max_pipes mem s with
  | (None, s) => (inl (- ENFILE), s)
  | (Some spare, s) =>
      let '(i, s, spare) := match fifo_of s !! ino with
                            | Some i => (i, s, Some spare)
                            | None => (spare, set_fifo ino (Some spare)
                                                (alter_pipe spare (fun p => set_used true (pipe_slot_reset p)) s), None)
                            end in
      let free_spare s := match spare with Some j => alter_pipe j (set_used false) s | None => s end in
      let p := default pipe_zero (pipes s !! i) in
      if want_write fl && negb (want_read fl) && (fl &? B1NIX_O_NONBLOCK) && (readers p =? 0) then
        let s := if (readers p <=? 0) && (writers p <=? 0)
                 then alter_pipe i (set_used false) (set_fifo ino None s) else s in
        (inl (- ENXIO), free_spare s)
      else
        let count p := mkPipe (used p) (buffer p) (size p) (read_pos p) (write_pos p)
                         (readers p + (if want_read fl then 1 else 0)) (writers p + (if want_write fl then 1 else 0))
                         (if want_read fl then u32 (reader_opens p + 1) else reader_opens p)
                         (if want_write fl then u32 (writer_opens p + 1) else writer_opens p) (event_gen p) in
        (inr i, free_spare (alter_pipe i count s))
  end.

(** The opener waits for the other end, which counts its opens. *)
Definition peer_opens (fl : Z) (p : vfs_pipe) : Z := if want_read fl then writer_opens p else reader_opens p.
Definition waits_for_peer (fl : Z) : bool := negb (fl &? B1NIX_O_NONBLOCK) && (Z.land fl 3 <>? B1NIX_O_RDWR).

Inductive open_result := OpenBlocked | Opened (rc : Z) (h : option vfs_handle).

(** From the rendezvous on: make the handle and the descriptor. *)
Definition fifo_finish (ino fl : Z) (i : nat) (handle_ok : bool) (fd : Z) (s : pool) : res (open_result * pool) :=
  if negb handle_ok then
    let* s := fifo_detach (Some ino) i (want_read fl) (want_write fl) s in
    Ok (Opened (- ENFILE) None, s)
  else
    let* p := get_pipe s i in
    let h := mkHandle (if want_read fl then VFS_HANDLE_PIPE_READ else VFS_HANDLE_PIPE_WRITE) (Some i) (Some ino)
               (writer_opens p) fl
               (if Z.land fl 3 =? B1NIX_O_RDWR then fifo_rdwr_ops else if want_write fl then fifo_write_ops else fifo_read_ops) in
    if fd <? 0 then
      let* s := fifo_release h s in
      Ok (Opened (- EMFILE) None, s)
    else Ok (Opened fd (Some h), s).

Fixpoint fifo_rendezvous (waits : list wait) (ino fl : Z) (i : nat) (handle_ok : bool) (fd : Z) (s : pool)
    : res (open_result * pool) :=
  let* p := get_pipe s i in
  if waits_for_peer fl && (peer_opens fl p =? 0) then
    match waits with
    | [] => Ok (OpenBlocked, s)
    | Signal :: _ =>
        let* s := fifo_detach (Some ino) i (want_read fl) (want_write fl) s in
        Ok (Opened (- ERESTARTSYS) None, s)
    | Slept f :: waits' => fifo_rendezvous waits' ino fl i handle_ok fd (f s)
    end
  else fifo_finish ino fl i handle_ok fd s.

Definition vfs_fifo_open (ino : option Z) (fl : Z) (max_pipes : nat) (mem handle_ok : bool) (fd : Z)
    (waits : list wait) (s : pool) : res (open_result * pool) :=
  match ino with
  | None => Ok (Opened (- EINVAL) None, s)
  | Some ino =>
      if negb (want_read fl) && negb (want_write fl) then Ok (Opened (- EINVAL) None, s)
      else match fifo_attach ino fl max_pipes mem s with
           | (inl e, s) => Ok (Opened e None, s)
           | (inr i, s) => fifo_rendezvous waits ino fl i handle_ok fd s
           end
  end.

(** [vfs_handle_release] on the last reference: the release of the handle's
    operations. *)
Definition handle_release (h : vfs_handle) (s : pool) : res pool :=
  match ops h with
  | pipe_read_ops | pipe_write_ops => pipe_release h s
  | _ => fifo_release h s
  end.

End Pipe.
