(* ===== verification/PipeProofs.v ===== *)
(** Properties of pipes and FIFOs: the ring buffer is a byte queue, what a pipe
    delivers is what was written to it, poll agrees with what a call would do,
    and the pool's counts match the open ends. *)
From S2P Require Import Prelude Pipe.
From stdpp Require Import list.
Local Open Scope Z_scope.
Local Open Scope kernel_scope.

Module PipeProofs.
Import Pipe.

(** ** The ring *)

(** [n] bytes from position [rp] on. *)
Definition slice (b : gmap Z Z) (rp n : Z) : list Z :=
  (fun i => byte_at b ((rp + i) mod PIPE_BUFFER_SIZE)) <$> seqZ 0 n.

Record ring_ok (p : vfs_pipe) : Prop := {
  ro_buffer : is_Some (buffer p);
  ro_size : 0 <= size p <= PIPE_BUFFER_SIZE;
  ro_read : 0 <= read_pos p < PIPE_BUFFER_SIZE;
  ro_write : write_pos p = (read_pos p + size p) mod PIPE_BUFFER_SIZE }.
(** The bytes in the pipe, oldest first. *)
Definition contents (p : vfs_pipe) : list Z :=
  match buffer p with Some b => slice b (read_pos p) (size p) | None => [] end.

Lemma slice_length b rp n : 0 <= n -> Z.of_nat (length (slice b rp n)) = n.
Proof. intros Hn. unfold slice. rewrite length_fmap, length_seqZ. lia. Qed.
Lemma contents_length p : ring_ok p -> Z.of_nat (length (contents p)) = size p.
Proof. intros [[b Hb] Hs _ _]. unfold contents. rewrite Hb. apply slice_length. lia. Qed.
Lemma slice_ext b b' rp n :
  (forall i, 0 <= i < n -> byte_at b' ((rp + i) mod PIPE_BUFFER_SIZE) = byte_at b ((rp + i) mod PIPE_BUFFER_SIZE)) ->
  slice b' rp n = slice b rp n.
Proof. intros H. apply list_fmap_ext. intros k i Hi. apply H. apply lookup_seqZ in Hi. lia. Qed.
Lemma slice_app b rp m n :
  0 <= m -> 0 <= n -> slice b rp (m + n) = slice b rp m ++ slice b ((rp + m) mod PIPE_BUFFER_SIZE) n.
Proof.
  intros Hm Hn. unfold slice. rewrite seqZ_app by done. rewrite fmap_app. f_equal.
  replace (0 + m) with (m + 0) by lia. rewrite <- (fmap_add_seqZ m 0 n), <- list_fmap_compose. apply list_fmap_ext. intros k i _. simpl. f_equal.
  rewrite Zplus_mod_idemp_l. f_equal. lia.
Qed.

Lemma copy_out_spec n : forall b rp,
  0 <= rp < PIPE_BUFFER_SIZE ->
  copy_out n b rp = (slice b rp (Z.of_nat n), (rp + Z.of_nat n) mod PIPE_BUFFER_SIZE).
Proof.
  induction n as [|n IH]; intros b rp Hrp.
  - simpl. rewrite Z.add_0_r, Z.mod_small by done. done.
  - cbn [copy_out]. rewrite IH by (apply Z.mod_pos_bound; done).
    replace (Z.of_nat (S n)) with (1 + Z.of_nat n) by lia. rewrite slice_app by lia. f_equal.
    + replace (slice b rp 1) with [byte_at b rp]; [done|]. unfold slice. simpl. by rewrite Z.add_0_r, Z.mod_small.
    + unfold next_pos. rewrite Zplus_mod_idemp_l. f_equal. lia.
Qed.

(** Bytes stored, and bytes left alone. *)
Lemma copy_in_spec data : forall b wp,
  0 <= wp < PIPE_BUFFER_SIZE -> Z.of_nat (length data) <= PIPE_BUFFER_SIZE ->
  let (b', wp') := copy_in data b wp in
  wp' = (wp + Z.of_nat (length data)) mod PIPE_BUFFER_SIZE
  /\ forall i, 0 <= i < PIPE_BUFFER_SIZE ->
       byte_at b' ((wp + i) mod PIPE_BUFFER_SIZE)
       = if i <? Z.of_nat (length data) then nth (Z.to_nat i) data 0 else byte_at b ((wp + i) mod PIPE_BUFFER_SIZE).
Proof.
  induction data as [|x data IH]; intros b wp Hwp Hl; cbn [copy_in].
  - split; [cbn [length]; rewrite Z.add_0_r, Z.mod_small by done; done|]. intros i Hi.
    cbn [length]. rewrite (proj2 (Z.ltb_ge _ _)) by lia. done.
  - cbn [length] in *. specialize (IH (<[wp := x]> b) (next_pos wp)).
    assert (Hnp : 0 <= next_pos wp < PIPE_BUFFER_SIZE) by (apply Z.mod_pos_bound; done).
    specialize (IH Hnp ltac:(lia)). destruct (copy_in data (<[wp := x]> b) (next_pos wp)) as [b' wp'].
    destruct IH as [-> IH]. unfold next_pos in *. split; [rewrite Zplus_mod_idemp_l; f_equal; lia|].
    intros i Hi. destruct (Z.eqb_spec i 0) as [->|Hi0].
    + specialize (IH (PIPE_BUFFER_SIZE - 1) ltac:(unfold PIPE_BUFFER_SIZE; lia)). rewrite Zplus_mod_idemp_l in IH.
      replace (wp + 1 + (PIPE_BUFFER_SIZE - 1)) with (wp + 0 + 1 * PIPE_BUFFER_SIZE) in IH by lia.
      rewrite Z_mod_plus_full in IH. rewrite IH, (proj2 (Z.ltb_ge _ _)) by lia. rewrite (proj2 (Z.ltb_lt _ _)) by lia.
      rewrite Z.add_0_r, Z.mod_small by done. unfold byte_at. by rewrite lookup_insert_eq.
    + specialize (IH (i - 1) ltac:(lia)). rewrite Zplus_mod_idemp_l in IH.
      replace (wp + 1 + (i - 1)) with (wp + i) in IH by lia. rewrite IH.
      replace (i - 1 <? Z.of_nat (length data)) with (i <? Z.of_nat (S (length data)))
        by (destruct (Z.ltb_spec i (Z.of_nat (S (length data)))), (Z.ltb_spec (i - 1) (Z.of_nat (length data))); lia).
      destruct (i <? _).
      * replace (Z.to_nat i) with (S (Z.to_nat (i - 1))) by lia. done.
      * unfold byte_at. rewrite lookup_insert_ne; [done|]. intros E.
        assert (Hd : (wp + i - wp) mod PIPE_BUFFER_SIZE = 0) by (rewrite Zminus_mod, <- E; rewrite (Z.mod_small wp) by done; by rewrite Z.sub_diag).
        replace (wp + i - wp) with i in Hd by lia. rewrite Z.mod_small in Hd by done. lia.
Qed.

Lemma append_slice b rp sz data :
  0 <= rp < PIPE_BUFFER_SIZE -> 0 <= sz -> sz + Z.of_nat (length data) <= PIPE_BUFFER_SIZE ->
  exists b' wp', copy_in data b ((rp + sz) mod PIPE_BUFFER_SIZE) = (b', wp')
    /\ wp' = (rp + (sz + Z.of_nat (length data))) mod PIPE_BUFFER_SIZE
    /\ slice b' rp (sz + Z.of_nat (length data)) = slice b rp sz ++ data.
Proof.
  intros Hrp Hsz Hl. set (wp := (rp + sz) mod PIPE_BUFFER_SIZE).
  assert (Hwp : 0 <= wp < PIPE_BUFFER_SIZE) by (apply Z.mod_pos_bound; done).
  pose proof (copy_in_spec data b wp Hwp ltac:(lia)) as H. destruct (copy_in data b wp) as [b' wp']. destruct H as [-> H].
  eexists b', _. split; [done|]. split; [unfold wp; rewrite Zplus_mod_idemp_l; f_equal; lia|].
  rewrite slice_app by lia. fold wp. f_equal.
  - apply slice_ext. intros i Hi. specialize (H (PIPE_BUFFER_SIZE - sz + i) ltac:(lia)).
    rewrite (proj2 (Z.ltb_ge _ _)) in H by lia. unfold wp in H. rewrite Zplus_mod_idemp_l in H.
    replace (rp + sz + (PIPE_BUFFER_SIZE - sz + i)) with (rp + i + 1 * PIPE_BUFFER_SIZE) in H by lia.
    by rewrite Z_mod_plus_full in H.
  - apply list_eq_same_length with (length data); [|by apply Nat2Z.inj; rewrite slice_length by lia|].
    { done. }
    intros k x y Hk Hx Hy. unfold slice in Hx. rewrite list_lookup_fmap in Hx. apply fmap_Some in Hx as (i & Hi & ->).
    apply lookup_seqZ in Hi as [-> Hi]. rewrite H by lia. rewrite (proj2 (Z.ltb_lt _ _)) by lia.
    replace (Z.to_nat (0 + Z.of_nat k)) with k by lia. by apply nth_lookup_Some.
Qed.

(** What the copies leave alone. *)
Definition same_ends (p p' : vfs_pipe) : Prop :=
  used p' = used p /\ readers p' = readers p /\ writers p' = writers p
  /\ reader_opens p' = reader_opens p /\ writer_opens p' = writer_opens p
  /\ (is_Some (buffer p') <-> is_Some (buffer p)).

Lemma put_bytes_spec data p :
  ring_ok p ->
  let n := Z.min (Z.of_nat (length data)) (PIPE_BUFFER_SIZE - size p) in
  exists p', put_bytes data p = Ok (n, p') /\ ring_ok p' /\ same_ends p p'
    /\ contents p' = contents p ++ take (Z.to_nat n) data /\ size p' = size p + n
    /\ event_gen p' = (if n =? 0 then event_gen p else u32 (event_gen p + 1)).
Proof.
  intros [[b Hb] Hs Hr Hw] n. unfold put_bytes. rewrite Hb.
  assert (Hn : (if Z.of_nat (length data) <? PIPE_BUFFER_SIZE - size p then Z.of_nat (length data) else PIPE_BUFFER_SIZE - size p) = n)
    by (unfold n; destruct (Z.ltb_spec (Z.of_nat (length data)) (PIPE_BUFFER_SIZE - size p)); lia).
  rewrite Hn. assert (Hlen : Z.of_nat (length (take (Z.to_nat n) data)) = n) by (rewrite length_take; lia).
  rewrite Hw. destruct (append_slice b (read_pos p) (size p) (take (Z.to_nat n) data)) as (b' & wp & -> & Hwp & Hsl); [done|lia|lia|].
  rewrite Hlen in Hwp, Hsl. eexists. split; [done|]. split_and!; try done.
  - constructor; simpl; [eauto|lia|done|done].
  - unfold contents. simpl. by rewrite Hb, Hsl.
  - simpl. by destruct (n =? 0).
Qed.

Lemma take_bytes_spec n p :
  ring_ok p -> 0 <= n ->
  let k := Z.to_nat (Z.min n (size p)) in
  exists p', take_bytes n p = Ok (take k (contents p), p') /\ ring_ok p' /\ same_ends p p'
    /\ contents p' = drop k (contents p) /\ size p' = size p - Z.min n (size p).
Proof.
  intros [[b Hb] Hs Hr Hw] Hn k. unfold take_bytes. rewrite Hb. set (m := if n <? size p then n else size p).
  assert (Hm : m = Z.min n (size p)) by (unfold m; destruct (Z.ltb_spec n (size p)); lia).
  rewrite copy_out_spec by done. rewrite Z2Nat.id by lia.
  assert (Hc : contents p = slice b (read_pos p) m ++ slice b ((read_pos p + m) mod PIPE_BUFFER_SIZE) (size p - m)).
  { unfold contents. rewrite Hb, <- slice_app by lia. f_equal. lia. }
  assert (Hk : k = length (slice b (read_pos p) m)) by (apply Nat2Z.inj; rewrite slice_length; lia).
  rewrite Hc, Hk, take_app_length, drop_app_length. eexists. split; [done|]. split_and!; try done.
  - constructor; simpl; [eauto|lia|apply Z.mod_pos_bound; done|].
    rewrite Hw, Zplus_mod_idemp_l. f_equal. lia.
  - simpl. lia.
Qed.

(** ** Who has a pipe open *)

(** A handle, or an opener of a FIFO that still waits for its peer. *)
Record user := mkUser { u_pipe : nat; u_ino : option Z; u_reads : bool; u_writes : bool }.

Definition on (i : nat) (u : user) : bool := (u_pipe u =? i)%nat.
Definition nread (U : list user) (i : nat) : Z := Z.of_nat (count_if (fun u => on i u && u_reads u) U).
Definition nwrite (U : list user) (i : nat) : Z := Z.of_nat (count_if (fun u => on i u && u_writes u) U).
Definition nuse (U : list user) (i : nat) : Z := Z.of_nat (count_if (on i) U).

(** A FIFO's users and the pipe attached to its inode know each other. *)
Definition linked (s : pool) (u : user) : Prop :=
  match u_ino u with
  | Some ino => fifo_of s !! ino = Some (u_pipe u)
  | None => forall ino, fifo_of s !! ino <> Some (u_pipe u)
  end.
Definition has_buffer (p : vfs_pipe) : bool := bool_decide (is_Some (buffer p)).
Definition buffers (l : list vfs_pipe) : Z := Z.of_nat (count_if has_buffer l).

Record pool_ok (s : pool) (U : list user) : Prop := {
  po_len : length (pipes s) = MAX_VFS_PIPES_CEIL;
  po_held : g_pipe_buffers_held s = buffers (pipes s);
  po_slot : forall i p, pipes s !! i = Some p ->
    readers p = nread U i /\ writers p = nwrite U i /\ used p = (0 <? nuse U i) /\ (used p = true -> ring_ok p);
  po_user : forall u, u ∈ U -> (u_pipe u < MAX_VFS_PIPES_CEIL)%nat /\ (u_reads u || u_writes u) = true /\ linked s u;
  po_same : forall u u', u ∈ U -> u' ∈ U -> u_pipe u = u_pipe u' -> u_ino u = u_ino u';
  po_fifo : forall ino i, fifo_of s !! ino = Some i -> exists u, u ∈ U /\ u_pipe u = i /\ u_ino u = Some ino }.

Lemma count_if_perm {A} (f : A -> bool) l l' : l ≡ₚ l' -> count_if f l = count_if f l'.
Proof. induction 1; rewrite ?count_if_cons; try congruence; try lia. Qed.
#[global] Instance pool_ok_proper : Proper ((=) ==> (≡ₚ) ==> iff) pool_ok.
Proof.
  assert (H : forall s U U', U ≡ₚ U' -> pool_ok s U -> pool_ok s U').
  { intros s U U' HU [H1 H2 H3 H4 H5 H6]. assert (He : forall u, u ∈ U <-> u ∈ U') by (intros u; by rewrite HU). constructor; try done.
    - intros i p Hp. unfold nread, nwrite, nuse. rewrite <- !(count_if_perm _ _ _ HU). by apply H3.
    - intros u Hu. by apply H4, He.
    - intros u u' Hu Hu'. apply H5; by apply He.
    - intros ino i Hi. destruct (H6 ino i Hi) as (u & Hu & Hr). exists u. by rewrite <- He. }
  intros s s' -> U U' HU. split; apply H; [done|by symmetry].
Qed.

Lemma nread_cons u U i : nread (u :: U) i = (if on i u && u_reads u then 1 else 0) + nread U i.
Proof. unfold nread. rewrite count_if_cons. destruct (_ && _); lia. Qed.
Lemma nwrite_cons u U i : nwrite (u :: U) i = (if on i u && u_writes u then 1 else 0) + nwrite U i.
Proof. unfold nwrite. rewrite count_if_cons. destruct (_ && _); lia. Qed.
Lemma nuse_cons u U i : nuse (u :: U) i = (if on i u then 1 else 0) + nuse U i.
Proof. unfold nuse. rewrite count_if_cons. destruct (on i u); lia. Qed.
Lemma on_true i u : on i u = true <-> u_pipe u = i.
Proof. apply Nat.eqb_eq. Qed.
Lemma nuse_elem U i u : u ∈ U -> u_pipe u = i -> 0 < nuse U i.
Proof.
  intros Hu Hi. apply list_elem_of_In, in_split in Hu as (l1 & l2 & ->). unfold nuse, count_if.
  rewrite List.filter_app. cbn [List.filter]. rewrite (proj2 (on_true i u) Hi), length_app. simpl. lia.
Qed.
Lemma nuse_zero U i : nuse U i = 0 -> nread U i = 0 /\ nwrite U i = 0 /\ forall u, u ∈ U -> u_pipe u <> i.
Proof.
  intros H. assert (Hn : forall u, u ∈ U -> u_pipe u <> i) by (intros u Hu E; pose proof (nuse_elem U i u Hu E); lia).
  unfold nread, nwrite. split_and!; [| |done]; rewrite count_if_zero; try done; intros u Hu;
    apply not_true_iff_false; intros [E%on_true _]%andb_true_iff; by apply (Hn u Hu).
Qed.
Lemma nuse_pos U i : 0 < nuse U i -> exists u, u ∈ U /\ u_pipe u = i.
Proof.
  intros H. destruct (decide (Exists (fun u => u_pipe u = i) U)) as [(u & Hu & E)%List.Exists_exists|Hn].
  - exists u. by rewrite list_elem_of_In.
  - exfalso. unfold nuse in H. rewrite count_if_zero in H; [lia|]. intros u Hu. apply not_true_iff_false. intros E%on_true.
    apply Hn, List.Exists_exists. exists u. by rewrite <- list_elem_of_In.
Qed.
(** Every user reads or writes, so a pipe is free of users when both counts are 0. *)
Lemma no_ends_no_use U i :
  (forall u, u ∈ U -> (u_reads u || u_writes u) = true) -> (nread U i <=? 0) && (nwrite U i <=? 0) = negb (0 <? nuse U i).
Proof.
  intros HU. destruct (Z.ltb_spec 0 (nuse U i)) as [H|H]; simpl.
  - destruct (nuse_pos U i H) as (u & Hu & Hi). pose proof (HU u Hu) as Hrw.
    apply list_elem_of_In, in_split in Hu as (l1 & l2 & ->). unfold nread, nwrite, count_if.
    rewrite !List.filter_app, !length_app. cbn [List.filter]. rewrite (proj2 (on_true i u) Hi). cbn [andb].
    apply andb_false_iff. rewrite !Z.leb_gt. apply orb_true_iff in Hrw as [-> | ->]; simpl; lia.
  - assert (nuse U i = 0) as (-> & -> & _)%nuse_zero; [|done]. unfold nuse in *. lia.
Qed.

(** Replacing one slot, with its users. *)
Lemma pool_upd s U s' U' i p p' :
  pool_ok s U -> pipes s !! i = Some p -> pipes s' = <[i := p']> (pipes s) ->
  g_pipe_buffers_held s' = g_pipe_buffers_held s + (if has_buffer p' then 1 else 0) - (if has_buffer p then 1 else 0) ->
  (forall j, j <> i -> nread U' j = nread U j /\ nwrite U' j = nwrite U j /\ nuse U' j = nuse U j) ->
  readers p' = nread U' i -> writers p' = nwrite U' i -> used p' = (0 <? nuse U' i) -> (used p' = true -> ring_ok p') ->
  (forall u, u ∈ U' -> (u_pipe u < MAX_VFS_PIPES_CEIL)%nat /\ (u_reads u || u_writes u) = true /\ linked s' u) ->
  (forall u u', u ∈ U' -> u' ∈ U' -> u_pipe u = u_pipe u' -> u_ino u = u_ino u') ->
  (forall ino j, fifo_of s' !! ino = Some j -> exists u, u ∈ U' /\ u_pipe u = j /\ u_ino u = Some ino) ->
  pool_ok s' U'.
Proof.
  intros [H1 H2 H3 H4 H5 H6] Hi Hp Hh Hj Hr Hw Hu Hring Husers Hsame Hf. constructor; try done.
  - by rewrite Hp, length_insert.
  - rewrite Hh, H2, Hp. unfold buffers. pose proof (count_if_insert has_buffer (pipes s) i p p' Hi) as Hc.
    destruct (has_buffer p), (has_buffer p'); lia.
  - intros j q Hq. rewrite Hp in Hq. apply list_lookup_insert_Some in Hq as [(<- & <- & _)|[Hne Hq]]; [done|].
    destruct (Hj j) as (-> & -> & ->); [done|]. by apply H3.
Qed.

Lemma others_cons u U i j : u_pipe u = i -> j <> i ->
  nread (u :: U) j = nread U j /\ nwrite (u :: U) j = nwrite U j /\ nuse (u :: U) j = nuse U j.
Proof.
  intros Hu Hj. rewrite nread_cons, nwrite_cons, nuse_cons.
  assert (on j u = false) as -> by (apply not_true_iff_false; intros E%on_true; congruence). simpl. lia.
Qed.

(** The same users, another content of the slot. *)
Lemma pool_upd_same s U i p p' h :
  pool_ok s U -> pipes s !! i = Some p ->
  h = g_pipe_buffers_held s + (if has_buffer p' then 1 else 0) - (if has_buffer p then 1 else 0) ->
  readers p' = readers p -> writers p' = writers p -> used p' = used p -> (used p' = true -> ring_ok p') ->
  pool_ok (mkPool (<[i := p']> (pipes s)) h (fifo_of s)) U.
Proof.
  intros Hp Hi Hh Hr Hw Hu Hring. destruct (po_slot _ _ Hp i p Hi) as (S1 & S2 & S3 & _).
  eapply (pool_upd s U _ U i p p'); try done; try congruence; apply Hp.
Qed.

Lemma claim_spec max mem s U :
  pool_ok s U ->
  match pipe_pool_claim max mem s with
  | (None, s') => pool_ok s' U
  | (Some i, s1) =>
      exists p, pipes s1 !! i = Some p /\ used p = true /\ is_Some (buffer p) /\ nuse U i = 0 /\ fifo_of s1 = fifo_of s
        /\ (i < MAX_VFS_PIPES_CEIL)%nat /\ pool_ok (alter_pipe i (set_used false) s1) U
  end.
Proof.
  intros Hp. unfold pipe_pool_claim. destruct (first_index (fun p => negb (used p)) (take max (pipes s))) as [i|] eqn:E; [|done].
  apply first_index_Some in E as (p & Hi & Hu & _). apply lookup_take_Some in Hi as [Hi _]. apply negb_true_iff in Hu. rewrite Hi.
  assert (Hlt : (i < length (pipes s))%nat) by by eapply lookup_lt_Some.
  destruct (po_slot _ _ Hp i p Hi) as (S1 & S2 & S3 & _). rewrite Hu in S3. symmetry in S3. apply Z.ltb_ge in S3.
  assert (Hn : nuse U i = 0) by (unfold nuse in *; lia). rewrite (po_len _ _ Hp) in Hlt.
  destruct (buffer p) as [b|] eqn:Hb; [|destruct mem].
  - eexists. split; [simpl; by apply list_lookup_insert_eq; rewrite (po_len _ _ Hp)|]. split_and!; [done|simpl; rewrite Hb; eauto|done|done|done|].
    unfold alter_pipe. simpl. rewrite (alter_as_insert _ _ i (set_used true p)) by (apply list_lookup_insert_eq; by rewrite (po_len _ _ Hp)).
    rewrite list_insert_insert_eq. eapply pool_upd_same; try done; simpl; try congruence.
    unfold has_buffer. simpl. destruct (bool_decide _); lia.
  - eexists. split; [simpl; by apply list_lookup_insert_eq; rewrite (po_len _ _ Hp)|]. split_and!; [done|simpl; eauto|done|done|done|].
    unfold alter_pipe. simpl. rewrite (alter_as_insert _ _ i (set_used true (set_buffer (Some ∅) p))) by (apply list_lookup_insert_eq; by rewrite (po_len _ _ Hp)).
    rewrite list_insert_insert_eq. eapply pool_upd_same; try done; simpl; try congruence.
    unfold has_buffer. simpl. rewrite Hb. simpl. lia.
  - eapply pool_upd_same; try done; simpl; try congruence. unfold has_buffer. simpl. destruct (bool_decide _); lia.
Qed.

(** ** Opening and closing *)

(** One more user of slot [i], whose inode is the one its users have, if any. *)
Lemma pool_add s U s' u i p p' :
  pool_ok s U -> pipes s !! i = Some p -> pipes s' = <[i := p']> (pipes s) ->
  g_pipe_buffers_held s' = g_pipe_buffers_held s -> has_buffer p' = has_buffer p ->
  u_pipe u = i -> (u_reads u || u_writes u) = true -> linked s' u ->
  (forall u', u' ∈ U -> u_pipe u' = i -> u_ino u' = u_ino u) -> (forall u', u' ∈ U -> linked s' u') ->
  (forall ino j, fifo_of s' !! ino = Some j -> fifo_of s !! ino = Some j \/ (j = i /\ u_ino u = Some ino)) ->
  readers p' = readers p + (if u_reads u then 1 else 0) -> writers p' = writers p + (if u_writes u then 1 else 0) ->
  used p' = true -> ring_ok p' ->
  pool_ok s' (u :: U).
Proof.
  intros Hp Hi Hs' Hh Hb Hu Hrw Hl Hino Hlinks Hf Hr Hw Hused Hring.
  destruct (po_slot _ _ Hp i p Hi) as (S1 & S2 & S3 & _).
  assert (Hon : on i u = true) by by apply on_true.
  eapply (pool_upd s U s' (u :: U) i p p'); try done.
  - rewrite Hh, Hb. lia.
  - intros j Hj. by apply (others_cons u U i).
  - rewrite nread_cons, Hon. simpl. lia.
  - rewrite nwrite_cons, Hon. simpl. lia.
  - rewrite nuse_cons, Hon, Hused. symmetry. apply Z.ltb_lt. unfold nuse. lia.
  - intros v [->|Hv]%elem_of_cons; [|by destruct (po_user _ _ Hp v Hv) as (? & ? & _); auto].
    split_and!; [|done|done]. rewrite Hu. apply lookup_lt_Some in Hi. by rewrite (po_len _ _ Hp) in Hi.
  - intros v v' [->|Hv]%elem_of_cons [->|Hv']%elem_of_cons Hvv; [done| | |by eapply (po_same _ _ Hp)].
    + symmetry. apply Hino; congruence.
    + apply Hino; congruence.
  - intros ino j Hj. destruct (Hf ino j Hj) as [Hj'|[-> Hui]].
    + destruct (po_fifo _ _ Hp ino j Hj') as (v & Hv & Hr'). exists v. split; [by right|done].
    + exists u. split; [by left|done].
Qed.

(** One user less; the inode lets go of the pipe with the last one. *)
Lemma pool_del s U s' u i p p' :
  pool_ok s (u :: U) -> pipes s !! i = Some p -> u_pipe u = i -> pipes s' = <[i := p']> (pipes s) ->
  g_pipe_buffers_held s' = g_pipe_buffers_held s + (if has_buffer p' then 1 else 0) - (if has_buffer p then 1 else 0) ->
  readers p' = readers p - (if u_reads u then 1 else 0) -> writers p' = writers p - (if u_writes u then 1 else 0) ->
  used p' = (0 <? nuse U i) -> (used p' = true -> ring_ok p') ->
  fifo_of s' = (if 0 <? nuse U i then fifo_of s
                else match u_ino u with Some ino => delete ino (fifo_of s) | None => fifo_of s end) ->
  pool_ok s' U.
Proof.
  intros Hp Hi Hu Hs' Hh Hr Hw Hused Hring Hf. destruct (po_slot _ _ Hp i p Hi) as (S1 & S2 & S3 & _).
  assert (Hon : on i u = true) by by apply on_true. rewrite nread_cons, Hon in S1. rewrite nwrite_cons, Hon in S2.
  destruct (po_user _ _ Hp u (list_elem_of_here _ _)) as (_ & _ & Hlu).
  assert (Hlast : (0 <? nuse U i) = false -> forall v, v ∈ U -> u_pipe v <> i).
  { intros E%Z.ltb_ge. assert (nuse U i = 0) as (_ & _ & Hz)%nuse_zero by (unfold nuse in *; lia). exact Hz. }
  eapply (pool_upd s (u :: U) s' U i p p'); try done.
  - intros j Hj. destruct (others_cons u U i j Hu Hj) as (-> & -> & ->). done.
  - simpl in S1. lia.
  - simpl in S2. lia.
  - intros v Hv. destruct (po_user _ _ Hp v (list_elem_of_further _ _ _ Hv)) as (V1 & V2 & V3). split_and!; [done|done|].
    unfold linked in *. rewrite Hf. destruct (0 <? nuse U i) eqn:E; [done|].
    destruct (u_ino u) as [ino|] eqn:Eu; [|done]. specialize (Hlast eq_refl v Hv).
    destruct (u_ino v) as [ino'|].
    + rewrite lookup_delete_ne; [done|]. intros ->. congruence.
    + intros n Hn. apply lookup_delete_Some in Hn as [_ Hn]. by apply (V3 n).
  - intros v v' Hv Hv'. apply (po_same _ _ Hp); by right.
  - intros ino j Hj. assert (Hj0 : fifo_of s !! ino = Some j).
    { rewrite Hf in Hj. destruct (0 <? nuse U i); [done|]. destruct (u_ino u); [|done]. by apply lookup_delete_Some in Hj as [_ ?]. }
    destruct (po_fifo _ _ Hp ino j Hj0) as (v & [->|Hv]%elem_of_cons & Ev & Ei); [|by exists v].
    rewrite Hu in Ev. subst j. destruct (0 <? nuse U i) eqn:E.
    + apply Z.ltb_lt, nuse_pos in E as (w & Hwu & Ew). exists w. split_and!; [done|done|].
      rewrite (po_same _ _ Hp w u); [done|by right|by left|congruence].
    + rewrite Hf, Ei, lookup_delete_eq in Hj. done.
Qed.

(** A slot that loses its user. *)
Lemma slot_of_user s U u : pool_ok s U -> u ∈ U ->
  exists p, pipes s !! u_pipe u = Some p /\ used p = true /\ ring_ok p.
Proof.
  intros Hp Hu. destruct (po_user _ _ Hp u Hu) as (Hlt & _). rewrite <- (po_len _ _ Hp) in Hlt.
  destruct (lookup_lt_is_Some_2 _ _ Hlt) as [p Hi]. destruct (po_slot _ _ Hp _ p Hi) as (_ & _ & S3 & S4).
  assert (used p = true) by (rewrite S3; apply Z.ltb_lt; by eapply nuse_elem). exists p. auto.
Qed.
Lemma ring_ends r w p : ring_ok p -> ring_ok (set_ends r w p).
Proof. intros [H1 H2 H3 H4]. by constructor. Qed.

Lemma pipe_release_spec s U h i r :
  pool_ok s (mkUser i None r (negb r) :: U) -> private_data h = Some i -> is_read_end h = r ->
  exists s', pipe_release h s = Ok s' /\ pool_ok s' U.
Proof.
  intros Hp Hh Hr. set (u := mkUser i None r (negb r)) in *.
  destruct (slot_of_user s _ u Hp (list_elem_of_here _ _)) as (p & Hi & Hused & Hring). simpl in Hi.
  destruct (po_slot _ _ Hp i p Hi) as (S1 & S2 & S3 & _). assert (Hon : on i u = true) by (apply on_true; done).
  rewrite nread_cons, Hon in S1. rewrite nwrite_cons, Hon in S2. simpl in S1, S2.
  unfold pipe_release, get_pipe. rewrite Hh, Hi. cbn [rbind]. rewrite Hr.
  set (p1 := set_ends (readers p - (if r then 1 else 0)) (writers p - (if negb r then 1 else 0)) p).
  match goal with |- context [rbind ?x _] => assert (Hx : x = Ok p1) end.
  { unfold kassert, p1. destruct r; simpl in *.
    - rewrite (proj2 (Z.ltb_lt _ _)) by (unfold nread in *; lia). by rewrite Z.sub_0_r.
    - rewrite (proj2 (Z.ltb_lt _ _)) by (unfold nwrite in *; lia). by rewrite Z.sub_0_r. }
  rewrite Hx. cbn [rbind]. assert (Hend : (readers p1 <=? 0) && (writers p1 <=? 0) = negb (0 <? nuse U i)).
  { rewrite <- no_ends_no_use by (intros v Hv; apply (po_user _ _ Hp); by right). unfold p1. simpl. f_equal; f_equal; destruct r; simpl in *; lia. }
  rewrite Hend. assert (Hb : has_buffer p = true) by (apply bool_decide_eq_true; apply Hring).
  destruct (0 <? nuse U i) eqn:En; cbn [negb].
  - eexists. split; [done|]. eapply (pool_del s U _ u i p p1); try done; try (by rewrite En).
    + simpl. unfold p1, has_buffer. simpl. destruct (bool_decide _); lia.
    + intros _. by apply ring_ends.
  - destruct (PIPE_BUFFER_CACHE <? g_pipe_buffers_held s).
    + rewrite (bool_decide_true (is_Some (buffer p1))) by apply Hring. eexists. split; [done|].
      eapply (pool_del s U _ u i p); try done; try (by rewrite En). simpl. rewrite Hb. simpl. lia.
    + eexists. split; [done|]. eapply (pool_del s U _ u i p (set_used false p1)); try done; try (by rewrite En).
      unfold p1, has_buffer. simpl. destruct (bool_decide _); lia.
Qed.

Lemma fifo_detach_spec s U i ino r w :
  pool_ok s (mkUser i (Some ino) r w :: U) ->
  exists s', fifo_detach (Some ino) i r w s = Ok s' /\ pool_ok s' U.
Proof.
  intros Hp. set (u := mkUser i (Some ino) r w) in *.
  destruct (slot_of_user s _ u Hp (list_elem_of_here _ _)) as (p & Hi & Hused & Hring). simpl in Hi.
  destruct (po_slot _ _ Hp i p Hi) as (S1 & S2 & S3 & _). assert (Hon : on i u = true) by (apply on_true; done).
  rewrite nread_cons, Hon in S1. rewrite nwrite_cons, Hon in S2. simpl in S1, S2.
  destruct (po_user _ _ Hp u (list_elem_of_here _ _)) as (_ & _ & Hl). simpl in Hl. unfold linked in Hl. simpl in Hl.
  unfold fifo_detach, get_pipe. rewrite Hi. cbn [rbind].
  assert (K1 : negb r || (0 <? readers p) = true) by (destruct r; [|done]; simpl; apply Z.ltb_lt; unfold nread in *; lia).
  assert (K2 : negb w || (0 <? writers p) = true) by (destruct w; [|done]; simpl; apply Z.ltb_lt; unfold nwrite in *; lia).
  rewrite K1, K2. unfold kassert. set (p1 := set_ends _ _ p).
  assert (Hend : (readers p1 <=? 0) && (writers p1 <=? 0) = negb (0 <? nuse U i)).
  { rewrite <- no_ends_no_use by (intros v Hv; apply (po_user _ _ Hp); by right). unfold p1. simpl. f_equal; f_equal; lia. }
  rewrite Hend, (bool_decide_true _ Hl). destruct (0 <? nuse U i) eqn:En; cbn [negb]; (eexists; split; [done|]).
  - eapply (pool_del s U _ u i p p1); try done; try (by rewrite En).
    + unfold p1, has_buffer. simpl. destruct (bool_decide _); lia.
    + intros _. by apply ring_ends.
  - eapply (pool_del s U _ u i p (set_used false p1)); try done; try (by rewrite En).
    unfold p1, has_buffer. simpl. destruct (bool_decide _); lia.
Qed.

(** The user a handle stands for. *)
Definition user_of (h : vfs_handle) : list user :=
  match private_data h with
  | Some i => match ops h with
              | pipe_read_ops | pipe_write_ops => [mkUser i (node h) (is_read_end h) (negb (is_read_end h))]
              | _ => [mkUser i (node h) (want_read (flags h)) (want_write (flags h))]
              end
  | None => []
  end.
Definition handle_wf (h : vfs_handle) : Prop :=
  is_Some (private_data h) /\
  match ops h with
  | pipe_read_ops | pipe_write_ops => node h = None
  | _ => is_Some (node h)
  end.

Lemma handle_release_spec s U h :
  pool_ok s (user_of h ++ U) -> handle_wf h -> exists s', handle_release h s = Ok s' /\ pool_ok s' U.
Proof.
  intros Hp ([i Hi] & Hops). unfold user_of in Hp. unfold handle_release. rewrite Hi in Hp.
  destruct (ops h); (rewrite Hops in Hp; by eapply pipe_release_spec) || idtac;
    (destruct Hops as [ino Hn]; unfold fifo_release; rewrite Hi, Hn in *; by apply fifo_detach_spec).
Qed.

Lemma unlinked_free s U i : pool_ok s U -> nuse U i = 0 -> forall ino, fifo_of s !! ino <> Some i.
Proof.
  intros Hp Hn ino Hi. destruct (po_fifo _ _ Hp ino i Hi) as (u & Hu & Hui & _).
  destruct (nuse_zero U i Hn) as (_ & _ & Hz). by apply (Hz u Hu).
Qed.
Lemma reset_ring p r w : is_Some (buffer p) -> ring_ok (set_ends r w (set_used true (pipe_slot_reset p))).
Proof. intros Hb. constructor; simpl; [done|unfold PIPE_BUFFER_SIZE; lia|unfold PIPE_BUFFER_SIZE; lia|done]. Qed.
Lemma lookup_set_unused s i p : pipes s !! i = Some p -> pipes (alter_pipe i (set_used false) s) !! i = Some (set_used false p).
Proof. intros Hi. simpl. by rewrite list_lookup_alter_eq, Hi. Qed.
Lemma alter_unused f s i p :
  pipes s !! i = Some p -> (forall q b, f (set_used b q) = f q) ->
  pipes (alter_pipe i f s) = <[i := f p]> (pipes (alter_pipe i (set_used false) s)).
Proof.
  intros Hi Hf. simpl. rewrite (alter_as_insert f _ i p Hi), (alter_as_insert _ _ i p Hi). by rewrite list_insert_insert_eq.
Qed.

Lemma create_spec ok max mem a s U :
  pool_ok s U ->
  exists rc hs s', vfs_pipe_create ok max mem a s = Ok (rc, hs, s')
    /\ pool_ok s' ((hs ≫= user_of) ++ U) /\ Forall handle_wf hs.
Proof.
  intros Hp. unfold vfs_pipe_create. destruct ok; [|by eexists _, [], s; split_and!]. cbn [negb].
  pose proof (claim_spec max mem s U Hp) as Hc. destruct (pipe_pool_claim max mem s) as [[i|] s1]; [|by eexists _, [], s1; split_and!].
  destruct Hc as (p & Hi & Hu & Hb & Hn & Hf & Hlt & H0).
  destruct (negb (rh_ok a) || negb (wh_ok a)); [by eexists _, [], _; split_and!|].
  set (reset := fun p => set_ends 1 1 (set_used true (pipe_slot_reset p))). set (s2 := alter_pipe i reset s1).
  set (rh := vfs_pipe_init_handle 0 i false). set (wh := vfs_pipe_init_handle 0 i true).
  destruct (nuse_zero U i Hn) as (N1 & N2 & N3). pose proof (unlinked_free _ U i H0 Hn) as Hun.
  pose proof (lookup_set_unused s1 i p Hi) as Hi0. destruct (po_slot _ _ H0 i _ Hi0) as (R1 & R2 & _). simpl in R1, R2.
  set (half := set_ends 1 0 (set_used true (pipe_slot_reset p))).
  assert (H1 : pool_ok (set_pipe i half (alter_pipe i (set_used false) s1)) (user_of rh ++ U)).
  { eapply (pool_add _ U _ _ i _ half H0 Hi0); try done; [by intros u' Hu' E; destruct (N3 u' Hu')
      |intros u' Hu'; by apply (po_user _ _ H0)|by intros; left|simpl; lia|simpl; lia]. }
  assert (H2 : pool_ok s2 (([rh; wh] ≫= user_of) ++ U)).
  { change (pool_ok s2 (mkUser i None true false :: mkUser i None false true :: U)). rewrite Permutation_swap.
    eapply (pool_add _ _ s2 (mkUser i None false true) i half (reset p) H1); try done.
    - simpl. apply list_lookup_insert_eq. rewrite length_alter. by eapply lookup_lt_Some.
    - simpl. rewrite list_insert_insert_eq. by apply (alter_unused reset).
    - by intros u' [->|Hu']%elem_of_cons E; [|destruct (N3 u' Hu')].
    - intros u' Hu'. by apply (po_user _ _ H1).
    - by intros; left. }
  destruct ((fd0 a <? 0) || (fd1 a <? 0)).
  - destruct (pipe_release_spec s2 (user_of wh ++ U) rh i true) as (s3 & -> & H3); [exact H2|done|done|]. cbn [rbind].
    destruct (pipe_release_spec s3 U wh i false) as (s4 & -> & H4); [exact H3|done|done|]. cbn [rbind].
    by eexists _, [], s4; split_and!.
  - eexists _, [rh; wh], s2. split_and!; [done|exact H2|]. repeat constructor; simpl; eauto.
Qed.

(** ** FIFOs *)

Definition opener (ino fl : Z) (i : nat) : user := mkUser i (Some ino) (want_read fl) (want_write fl).
Definition count_open (fl : Z) (p : vfs_pipe) : vfs_pipe :=
  mkPipe (used p) (buffer p) (size p) (read_pos p) (write_pos p)
    (readers p + (if want_read fl then 1 else 0)) (writers p + (if want_write fl then 1 else 0))
    (if want_read fl then u32 (reader_opens p + 1) else reader_opens p)
    (if want_write fl then u32 (writer_opens p + 1) else writer_opens p) (event_gen p).

(** Joining a FIFO that has a pipe already. *)
Lemma attach_join s U ino fl i p :
  pool_ok s U -> fifo_of s !! ino = Some i -> pipes s !! i = Some p -> (want_read fl || want_write fl) = true ->
  pool_ok (alter_pipe i (count_open fl) s) (opener ino fl i :: U).
Proof.
  intros Hp Hf Hi Hw. destruct (po_fifo _ _ Hp ino i Hf) as (v & Hv & Evi & Evn).
  destruct (slot_of_user s U v Hp Hv) as (p' & Hi' & Hu & Hr). rewrite Evi in Hi'. replace p' with p in * by congruence.
  eapply (pool_add s U _ (opener ino fl i) i p (count_open fl p)); try done.
  - simpl. by apply alter_as_insert.
  - intros u' Hu' E. simpl. rewrite <- Evn. apply (po_same _ _ Hp); [done|done|congruence].
  - intros u' Hu'. by apply (po_user _ _ Hp).
  - by intros; left.
  - destruct Hr. by constructor.
Qed.

(** Attaching a fresh pipe. *)
Lemma attach_new s1 U ino fl i p :
  pool_ok (alter_pipe i (set_used false) s1) U -> pipes s1 !! i = Some p -> is_Some (buffer p) -> nuse U i = 0 ->
  fifo_of s1 !! ino = None -> (want_read fl || want_write fl) = true ->
  pool_ok (alter_pipe i (count_open fl) (set_fifo ino (Some i) (alter_pipe i (fun p => set_used true (pipe_slot_reset p)) s1)))
    (opener ino fl i :: U).
Proof.
  intros H0 Hi Hb Hn Hf Hw. destruct (nuse_zero U i Hn) as (N1 & N2 & N3).
  pose proof (lookup_set_unused s1 i p Hi) as Hi0. destruct (po_slot _ _ H0 i _ Hi0) as (R1 & R2 & _). simpl in R1, R2.
  set (f := fun p => count_open fl (set_used true (pipe_slot_reset p))).
  eapply (pool_add _ U _ (opener ino fl i) i _ (f p) H0 Hi0); try done.
  - transitivity (pipes (alter_pipe i f s1)); [|by apply (alter_unused f)]. simpl.
    rewrite (alter_as_insert _ (pipes s1) i p Hi). rewrite (alter_as_insert _ _ i (set_used true (pipe_slot_reset p)))
      by (apply list_lookup_insert_eq; by eapply lookup_lt_Some). rewrite list_insert_insert_eq. by rewrite (alter_as_insert f _ i p Hi).
  - unfold linked. simpl. by rewrite lookup_partial_alter_eq.
  - by intros u' Hu' E; destruct (N3 u' Hu').
  - intros u' Hu'. destruct (po_user _ _ H0 u' Hu') as (_ & _ & Hl). unfold linked in *. simpl in *.
    destruct (u_ino u') as [n|].
    + rewrite lookup_partial_alter_ne; [done|]. intros ->. congruence.
    + intros n. destruct (decide (n = ino)) as [->|Hne]; [rewrite lookup_partial_alter_eq; intros [= E]; by apply (N3 u' Hu')|].
      by rewrite lookup_partial_alter_ne.
  - intros n j. simpl. destruct (decide (n = ino)) as [->|Hne]; [rewrite lookup_partial_alter_eq; intros [= <-]; by right|].
    rewrite lookup_partial_alter_ne by done. by left.
  - simpl. lia.
  - simpl. lia.
Qed.

Lemma alter_alter_ne {A} (f g : A -> A) i j (l : list A) : i <> j -> alter f i (alter g j l) = alter g j (alter f i l).
Proof.
  intros Hij. apply list_eq. intros k. destruct (decide (k = i)), (decide (k = j)); subst; try done.
  - by rewrite list_lookup_alter_eq, !list_lookup_alter_ne, list_lookup_alter_eq by done.
  - by rewrite list_lookup_alter_ne, !list_lookup_alter_eq, list_lookup_alter_ne by done.
  - by rewrite !list_lookup_alter_ne.
Qed.

Lemma attach_spec ino fl max mem s U :
  pool_ok s U -> (want_read fl || want_write fl) = true ->
  match fifo_attach ino fl max mem s with
  | (inl _, s') => pool_ok s' U
  | (inr i, s') => pool_ok s' (opener ino fl i :: U)
  end.
Proof.
  intros Hp Hw. unfold fifo_attach. pose proof (claim_spec max mem s U Hp) as Hc.
  destruct (pipe_pool_claim max mem s) as [[spare|] s1]; [|done].
  destruct Hc as (p & Hi & Hu & Hb & Hn & Hf & Hlt & H0). destruct (nuse_zero U spare Hn) as (N1 & N2 & N3).
  destruct (fifo_of s1 !! ino) as [i|] eqn:Ef.
  - assert (Hf0 : fifo_of (alter_pipe spare (set_used false) s1) !! ino = Some i) by done.
    destruct (po_fifo _ _ H0 ino i Hf0) as (v & Hv & Evi & Evn).
    destruct (slot_of_user _ U v H0 Hv) as (q & Hq & Huq & Hrq). rewrite Evi in Hq.
    assert (Hne : i <> spare) by (intros ->; by apply (N3 v Hv)).
    assert (Hq1 : pipes s1 !! i = Some q) by (simpl in Hq; by rewrite list_lookup_alter_ne in Hq).
    rewrite Hq1. cbn [from_option id]. destruct (po_slot _ _ H0 i q Hq) as (Q1 & Q2 & _).
    destruct (want_write fl && negb (want_read fl) && (fl &? B1NIX_O_NONBLOCK) && (readers q =? 0)).
    + assert ((readers q <=? 0) && (writers q <=? 0) = false) as ->; [|done].
      rewrite Q1, Q2, no_ends_no_use by (intros u' Hu'; by apply (po_user _ _ H0)).
      apply negb_false_iff, Z.ltb_lt. by eapply nuse_elem.
    + assert (E : alter_pipe spare (set_used false) (alter_pipe i (count_open fl) s1)
                  = alter_pipe i (count_open fl) (alter_pipe spare (set_used false) s1)).
      { unfold alter_pipe. simpl. by rewrite alter_alter_ne. }
      fold (count_open fl). rewrite E. by eapply attach_join.
  - fold (count_open fl). destruct (want_write fl && negb (want_read fl) && (fl &? B1NIX_O_NONBLOCK) && _).
    + assert (Hi2 : pipes (set_fifo ino (Some spare) (alter_pipe spare (fun p => set_used true (pipe_slot_reset p)) s1)) !! spare
                    = Some (set_used true (pipe_slot_reset p))) by (simpl; by rewrite list_lookup_alter_eq, Hi).
      rewrite Hi2. cbn [from_option id readers writers set_used pipe_slot_reset set_buffer pipe_zero Z.leb Z.compare andb].
      pose proof (lookup_set_unused s1 spare p Hi) as Hi0. destruct (po_slot _ _ H0 spare _ Hi0) as (R1 & R2 & _). simpl in R1, R2.
      pose proof (pool_upd_same _ U spare _ (set_used false (pipe_slot_reset p)) (g_pipe_buffers_held s1) H0 Hi0) as Hres.
      match goal with |- pool_ok ?s' U => assert (Es : s' = mkPool (<[spare := set_used false (pipe_slot_reset p)]>
         (pipes (alter_pipe spare (set_used false) s1))) (g_pipe_buffers_held s1) (fifo_of (alter_pipe spare (set_used false) s1))) end.
      { unfold alter_pipe, set_fifo. simpl. f_equal.
        - rewrite !(alter_as_insert _ (pipes s1) spare p Hi).
          rewrite (alter_as_insert _ _ spare (set_used true (pipe_slot_reset p))) by (apply list_lookup_insert_eq; by eapply lookup_lt_Some).
          by rewrite !list_insert_insert_eq.
        - apply map_eq. intros n. destruct (decide (n = ino)) as [->|Hne]; [by rewrite lookup_partial_alter_eq, Ef|].
          by rewrite !lookup_partial_alter_ne. }
      rewrite Es. apply Hres; simpl; try done; try lia. unfold has_buffer. simpl. destruct (bool_decide _); lia.
    + by eapply attach_new.
Qed.

Lemma finish_spec ino fl i hok fd s U :
  pool_ok s (opener ino fl i :: U) ->
  exists r s', fifo_finish ino fl i hok fd s = Ok (r, s') /\
    match r with
    | OpenBlocked => False
    | Opened _ None => pool_ok s' U
    | Opened _ (Some h) => pool_ok s' (user_of h ++ U) /\ handle_wf h
    end.
Proof.
  intros Hp. unfold fifo_finish. destruct hok; cbn [negb].
  - destruct (slot_of_user s _ _ Hp (list_elem_of_here _ _)) as (p & Hi & _). simpl in Hi. unfold get_pipe. rewrite Hi. cbn [rbind].
    set (h := mkHandle _ _ _ _ _ _).
    assert (Hh : user_of h = [opener ino fl i] /\ handle_wf h).
    { unfold user_of, handle_wf, opener, h. simpl. destruct (Z.land fl 3 =? B1NIX_O_RDWR); [split; [done|eauto]|].
      destruct (want_write fl); (split; [done|eauto]). }
    destruct Hh as [Hu Hwf]. destruct (fd <? 0).
    + unfold fifo_release. cbn [private_data node flags h]. destruct (fifo_detach_spec s U i ino _ _ Hp) as (s' & -> & Hs').
      cbn [rbind]. by eexists _, s'.
    + eexists _, s. split; [done|]. simpl. rewrite Hu. done.
  - destruct (fifo_detach_spec s U i ino _ _ Hp) as (s' & -> & Hs'). cbn [rbind]. by eexists _, s'.
Qed.

(** ** Reads and writes as queue operations *)

Definition nonblocking (h : vfs_handle) : bool := flags h &? B1NIX_O_NONBLOCK.
(** What a read of [n] bytes and a write of [data] are on a queue of bytes. *)
Definition read_spec (q : list Z) (ws : Z) (nb : bool) (n : Z) : rw_result * list Z :=
  match q with
  | [] => (if ws =? 0 then Ret 0 [] false else if nb then Ret (- EAGAIN) [] false else Blocked, [])
  | _ => let bs := take (Z.to_nat n) q in (Ret (Z.of_nat (length bs)) bs false, drop (Z.to_nat n) q)
  end.
Definition write_spec (q : list Z) (rs : Z) (nb : bool) (data : list Z) : rw_result * list Z :=
  let room := PIPE_BUFFER_SIZE - Z.of_nat (length q) in
  if rs =? 0 then (Ret (- EPIPE) [] true, q)
  else if room =? 0 then (if nb then Ret (- EAGAIN) [] false else Blocked, q)
  else let k := Z.min (Z.of_nat (length data)) room in (Ret k [] false, q ++ take (Z.to_nat k) data).

(** The pool differs in the content of pipe [i] only, which is now [q]. *)
Definition now_holds (s s' : pool) (i : nat) (p : vfs_pipe) (q : list Z) : Prop :=
  exists p', s' = set_pipe i p' s /\ ring_ok p' /\ same_ends p p' /\ contents p' = q.
Lemma now_holds_same s i p : pipes s !! i = Some p -> ring_ok p -> now_holds s s i p (contents p).
Proof.
  intros Hi Hr. exists p. split_and!; try done. unfold set_pipe. rewrite list_insert_id by done. by destruct s.
Qed.

Lemma contents_nil p : ring_ok p -> (size p =? 0) = match contents p with [] => true | _ => false end.
Proof.
  intros Hr. pose proof (contents_length p Hr) as Hl. destruct (contents p) as [|x q]; simpl in Hl.
  - apply Z.eqb_eq. lia.
  - apply Z.eqb_neq. lia.
Qed.

Lemma pipe_read_refines h i n s p :
  private_data h = Some i -> pipes s !! i = Some p -> used p = true -> ring_ok p -> 0 <= n ->
  exists s', pipe_read h n [] s = Ok (fst (read_spec (contents p) (writers p) (nonblocking h) n), s')
    /\ now_holds s s' i p (snd (read_spec (contents p) (writers p) (nonblocking h) n)).
Proof.
  intros Hh Hi Hu Hr Hn. unfold pipe_read, usable. rewrite Hh, Hi, Hu. cbn [pipe_read_loop]. unfold get_pipe. rewrite Hi. cbn [rbind].
  rewrite (contents_nil p Hr). pose proof (now_holds_same s i p Hi Hr) as Hsame. destruct (contents p) as [|x q] eqn:Eq.
  - simpl. fold (nonblocking h). destruct (writers p =? 0); [by exists s|]. destruct (nonblocking h); by exists s.
  - destruct (take_bytes_spec n p Hr Hn) as (p' & -> & Hr' & He & Hc & _). cbn [rbind read_spec]. rewrite Eq in *.
    assert (Hk : forall l : list Z, l = x :: q -> take (Z.to_nat (Z.min n (size p))) l = take (Z.to_nat n) l
                 /\ drop (Z.to_nat (Z.min n (size p))) l = drop (Z.to_nat n) l).
    { intros l El. pose proof (contents_length p Hr) as Hl. rewrite Eq, <- El in Hl. destruct (Z.min_spec n (size p)) as [[_ ->]|[Hle ->]]; [done|].
      by rewrite !take_ge, !drop_ge by lia. }
    destruct (Hk _ eq_refl) as [Ht Hd]. rewrite Ht. eexists. split; [done|]. exists p'. split_and!; try done. cbn [snd]. by rewrite Hc.
Qed.

Lemma pipe_write_refines h i data s p :
  private_data h = Some i -> pipes s !! i = Some p -> used p = true -> ring_ok p ->
  exists s', pipe_write h data [] s = Ok (fst (write_spec (contents p) (readers p) (nonblocking h) data), s')
    /\ now_holds s s' i p (snd (write_spec (contents p) (readers p) (nonblocking h) data)).
Proof.
  intros Hh Hi Hu Hr. unfold pipe_write, usable. rewrite Hh, Hi, Hu. cbn [pipe_write_loop]. unfold get_pipe. rewrite Hi. cbn [rbind].
  pose proof (now_holds_same s i p Hi Hr) as Hsame. unfold write_spec. rewrite (contents_length p Hr). fold (nonblocking h).
  destruct (readers p =? 0); [by exists s|]. destruct (PIPE_BUFFER_SIZE - size p =? 0); [destruct (nonblocking h); by exists s|].
  destruct (put_bytes_spec data p Hr) as (p' & -> & Hr' & He & Hc & _). cbn [rbind fst snd]. eexists. split; [done|]. by exists p'.
Qed.

Lemma now_holds_pool s s' i p q U :
  pool_ok s U -> pipes s !! i = Some p -> now_holds s s' i p q -> pool_ok s' U.
Proof.
  intros Hp Hi (p' & -> & Hr & (E1 & E2 & E3 & _ & _ & E6) & _). eapply pool_upd_same; try done.
  unfold has_buffer. rewrite (bool_decide_ext _ _ E6). destruct (bool_decide _); lia.
Qed.

Lemma tee_refines ih oh a b len s src dst :
  is_read_end ih = true -> is_read_end oh = false -> private_data ih = Some a -> private_data oh = Some b -> a <> b ->
  pipes s !! a = Some src -> pipes s !! b = Some dst -> used src = true -> used dst = true -> ring_ok src -> ring_ok dst ->
  0 <= len ->
  let n := Z.min len (Z.min (size src) (PIPE_BUFFER_SIZE - size dst)) in
  exists s', vfs_pipe_tee (Some ih) (Some oh) len s
    = Ok ((if len =? 0 then 0 else if readers dst =? 0 then - EPIPE
           else if n =? 0 then (if (size src =? 0) && (writers src =? 0) then 0 else - EAGAIN) else n), s')
    /\ now_holds s s' b dst (contents dst ++ (if readers dst =? 0 then [] else take (Z.to_nat n) (contents src))).
Proof.
  intros Hi Ho Hpi Hpo Hab Ha Hb Hua Hub Hra Hrb Hlen n. unfold vfs_pipe_tee. rewrite Hi, Ho. cbn [negb orb].
  unfold usable. rewrite Hpi, Hpo, Ha, Hb, Hua, Hub. cbn [negb orb]. rewrite (proj2 (Nat.eqb_neq a b) Hab).
  pose proof (now_holds_same s b dst Hb Hrb) as Hsame.
  assert (Hz : n = 0 -> contents dst ++ (if readers dst =? 0 then [] else take (Z.to_nat n) (contents src)) = contents dst).
  { intros ->. destruct (readers dst =? 0); by rewrite app_nil_r. }
  pose proof (ro_size _ Hra) as Hsa. pose proof (ro_size _ Hrb) as Hsb.
  destruct (Z.eqb_spec len 0) as [->|Hl0]; [exists s; rewrite Hz by (unfold n; lia); done|].
  unfold get_pipe. rewrite Ha, Hb. cbn [rbind]. destruct (readers dst =? 0); [exists s; by rewrite app_nil_r|].
  set (m := if PIPE_BUFFER_SIZE - size dst <? _ then _ else _).
  assert (Hm : m = n) by (unfold m, n; destruct (Z.ltb_spec (size src) len);
    [destruct (Z.ltb_spec (PIPE_BUFFER_SIZE - size dst) (size src))|destruct (Z.ltb_spec (PIPE_BUFFER_SIZE - size dst) len)]; lia).
  rewrite Hm. destruct (Z.eqb_spec n 0) as [E|Hn0]; [exists s; by rewrite Hz|].
  destruct Hra as [[sb Hsb'] _ Hr1 _], Hrb as [[db Hdb] _ Hr2 Hw2]. rewrite Hsb', Hdb, copy_out_spec by done.
  rewrite Z2Nat.id by lia. assert (Hc : take (Z.to_nat n) (contents src) = slice sb (read_pos src) n).
  { unfold contents. rewrite Hsb'. replace (size src) with (n + (size src - n)) by lia. rewrite slice_app by lia.
    rewrite take_app_le by (apply Nat2Z.inj_le; rewrite slice_length; lia).
    apply take_ge. apply Nat2Z.inj_le. rewrite slice_length; lia. }
  rewrite Hw2. destruct (append_slice db (read_pos dst) (size dst) (slice sb (read_pos src) n)) as (db' & wp & -> & Hwp & Hsl);
    [done|lia|rewrite slice_length; lia|].
  rewrite slice_length in Hwp, Hsl by lia. eexists. split; [done|]. eexists. split; [done|]. split_and!; try done.
  - constructor; simpl; [eauto|lia|done|done].
  - unfold contents at 1. simpl. rewrite Hsl, Hc. unfold contents. by rewrite Hdb.
Qed.

(** ** The whole component *)

(** Open handles, and openers of FIFOs that wait for the other end. *)
Record sys := mkSys { sp : pool; live : list vfs_handle; opening : list (Z * Z * nat) }.
Definition users (y : sys) : list user :=
  (live y ≫= user_of) ++ ((fun '(ino, fl, i) => opener ino fl i) <$> opening y).
Definition boot_pool : pool := mkPool (replicate MAX_VFS_PIPES_CEIL pipe_zero) 0 ∅.
Definition boot : sys := mkSys boot_pool [] [].

Definition opened (r : open_result) (rest : list (Z * Z * nat)) (o : Z * Z * nat) (l : list vfs_handle) (s : pool) : sys :=
  match r with
  | OpenBlocked => mkSys s l (o :: rest)
  | Opened _ None => mkSys s l rest
  | Opened _ (Some h) => mkSys s (h :: l) rest
  end.

(** The steps that open and close ends.  A FIFO open is its attach and then passes
    of the rendezvous loop, the last of which may end by a signal.  A handle is
    released with its last reference. *)
Inductive ends_step (y : sys) : sys -> Prop :=
  | step_pipe ok max mem a rc hs s' : vfs_pipe_create ok max mem a (sp y) = Ok (rc, hs, s') ->
      ends_step y (mkSys s' (hs ++ live y) (opening y))
  | step_attach ino fl max mem i s' : (want_read fl || want_write fl) = true ->
      fifo_attach ino fl max mem (sp y) = (inr i, s') -> ends_step y (mkSys s' (live y) ((ino, fl, i) :: opening y))
  | step_attach_fails ino fl max mem e s' : (want_read fl || want_write fl) = true ->
      fifo_attach ino fl max mem (sp y) = (inl e, s') -> ends_step y (mkSys s' (live y) (opening y))
  | step_rendezvous o1 o2 ino fl i waits hok fd r s' : opening y = o1 ++ (ino, fl, i) :: o2 -> waits = [] \/ waits = [Signal] ->
      fifo_rendezvous waits ino fl i hok fd (sp y) = Ok (r, s') -> ends_step y (opened r (o1 ++ o2) (ino, fl, i) (live y) s')
  | step_release l1 h l2 s' : live y = l1 ++ h :: l2 -> handle_release h (sp y) = Ok s' ->
      ends_step y (mkSys s' (l1 ++ l2) (opening y)).
Definition with_pool (s : pool) (y : sys) : sys := mkSys s (live y) (opening y).
Inductive step (y : sys) : sys -> Prop :=
  | step_ends y' : ends_step y y' -> step y y'
  | step_read h n r s' : h ∈ live y -> 0 <= n -> pipe_read h n [] (sp y) = Ok (r, s') -> step y (with_pool s' y)
  | step_write h data r s' : h ∈ live y -> pipe_write h data [] (sp y) = Ok (r, s') -> step y (with_pool s' y)
  | step_tee ih oh len rc s' : ih ∈ live y -> oh ∈ live y -> 0 <= len ->
      vfs_pipe_tee (Some ih) (Some oh) len (sp y) = Ok (rc, s') -> step y (with_pool s' y).

Definition sys_ok (y : sys) : Prop := pool_ok (sp y) (users y) /\ Forall handle_wf (live y).

Lemma live_slot y h : sys_ok y -> h ∈ live y ->
  exists i p, private_data h = Some i /\ pipes (sp y) !! i = Some p /\ used p = true /\ ring_ok p.
Proof.
  intros [Hp Hf] Hh. pose proof (proj1 (Forall_forall _ _) Hf h Hh) as ([i Hi] & Hops).
  assert (Hu : exists u, u ∈ user_of h /\ u_pipe u = i).
  { unfold user_of. rewrite Hi. destruct (ops h); (eexists; split; [by left|done]). }
  destruct Hu as (u & Hu & Ei). destruct (slot_of_user (sp y) (users y) u Hp) as (p & H1 & H2 & H3).
  - apply elem_of_app. left. apply list_elem_of_bind. by exists h.
  - exists i, p. by rewrite <- Ei at 2.
Qed.

Lemma rendezvous_spec waits ino fl i hok fd s U :
  pool_ok s (opener ino fl i :: U) -> waits = [] \/ waits = [Signal] ->
  exists r s', fifo_rendezvous waits ino fl i hok fd s = Ok (r, s') /\
    match r with
    | OpenBlocked => pool_ok s' (opener ino fl i :: U)
    | Opened _ None => pool_ok s' U
    | Opened _ (Some h) => pool_ok s' (user_of h ++ U) /\ handle_wf h
    end.
Proof.
  intros Hp Hw. destruct (slot_of_user s _ _ Hp (list_elem_of_here _ _)) as (p & Hi & _). simpl in Hi.
  destruct (finish_spec ino fl i hok fd s U Hp) as (r & s' & Hf & Hr).
  assert (Hfin : exists r s', fifo_finish ino fl i hok fd s = Ok (r, s') /\
    match r with
    | OpenBlocked => pool_ok s' (opener ino fl i :: U)
    | Opened _ None => pool_ok s' U
    | Opened _ (Some h) => pool_ok s' (user_of h ++ U) /\ handle_wf h
    end) by (exists r, s'; split; [done|by destruct r]).
  destruct Hw as [-> | ->]; cbn [fifo_rendezvous]; unfold get_pipe; rewrite Hi; cbn [rbind];
    (destruct (waits_for_peer fl && (peer_opens fl p =? 0)); [|exact Hfin]); [by eexists _, s|].
  destruct (fifo_detach_spec s U i ino _ _ Hp) as (s2 & -> & Hs2). cbn [rbind]. by eexists _, s2.
Qed.

Lemma users_move (A B C : list user) u : A ++ B ++ u :: C ≡ₚ u :: A ++ B ++ C.
Proof. by rewrite !Permutation_middle. Qed.

Lemma ends_step_ok y y' : ends_step y y' -> sys_ok y -> sys_ok y'.
Proof.
  intros Hs Hy. pose proof Hy as [Hp Hf]. unfold users in Hp.
  destruct Hs as [ok max mem a rc hs s' H|ino fl max mem i s' Hw H|ino fl max mem e s' Hw H|o1 o2 ino fl i waits hok fd r s' Ho Hw H
                 |l1 h l2 s' Hl H].
  - destruct (create_spec ok max mem a (sp y) _ Hp) as (rc' & hs' & s2 & E & H2 & H3). rewrite E in H. injection H as -> -> ->.
    split; [|by apply Forall_app]. unfold users. simpl. by rewrite bind_app, <- app_assoc.
  - pose proof (attach_spec ino fl max mem (sp y) _ Hp Hw) as Ha. rewrite H in Ha. split; [|done].
    unfold users. simpl. by rewrite <- Permutation_middle.
  - pose proof (attach_spec ino fl max mem (sp y) _ Hp Hw) as Ha. by rewrite H in Ha.
  - rewrite Ho, fmap_app in Hp. simpl in Hp. rewrite users_move in Hp.
    destruct (rendezvous_spec waits ino fl i hok fd (sp y) _ Hp Hw) as (r' & s2 & E & Hr). rewrite E in H. injection H as -> ->.
    unfold opened, sys_ok, users. destruct r as [|rc [h|]]; simpl; rewrite fmap_app.
    + split; [by rewrite <- Permutation_middle|done].
    + destruct Hr as [Hr Hwf]. split; [by rewrite <- app_assoc|by apply Forall_cons].
    + done.
  - rewrite Hl, bind_app, bind_cons in Hp. rewrite Hl in Hf. apply Forall_app in Hf as [Hf1 [Hwf Hf2]%Forall_cons].
    assert (Hperm : ((l1 ≫= user_of) ++ user_of h ++ (l2 ≫= user_of)) ++ ((fun '(ino, fl, i) => opener ino fl i) <$> opening y)
                    ≡ₚ user_of h ++ ((l1 ++ l2) ≫= user_of) ++ ((fun '(ino, fl, i) => opener ino fl i) <$> opening y)).
    { rewrite bind_app. rewrite !app_assoc. do 2 f_equiv. by rewrite Permutation_app_comm. }
    rewrite Hperm in Hp. destruct (handle_release_spec (sp y) _ h Hp Hwf) as (s2 & E & Hs2). rewrite E in H. injection H as ->.
    split; [exact Hs2|]. by apply Forall_app.
Qed.

(** A tee between open ends: what becomes of the pool. *)
Lemma live_tee y ih oh len rc s' a b : sys_ok y -> ih ∈ live y -> oh ∈ live y -> 0 <= len ->
  private_data ih = Some a -> private_data oh = Some b -> vfs_pipe_tee (Some ih) (Some oh) len (sp y) = Ok (rc, s') ->
  exists src dst, pipes (sp y) !! a = Some src /\ pipes (sp y) !! b = Some dst /\ ring_ok src
    /\ now_holds (sp y) s' b dst (contents dst ++ take (Z.to_nat rc) (contents src)).
Proof.
  intros Hy Hih Hoh Hlen Ea Eb H.
  destruct (live_slot y ih Hy Hih) as (a' & src & A1 & A2 & A3 & A4), (live_slot y oh Hy Hoh) as (b' & dst & B1 & B2 & B3 & B4).
  assert (a' = a /\ b' = b) as [-> ->] by (split; congruence). exists src, dst. split_and!; [done..|].
  assert (Hno : forall e, e <= 0 -> now_holds (sp y) (sp y) b dst (contents dst ++ take (Z.to_nat e) (contents src))).
  { intros e He. rewrite Z2Nat.nonpos by done. rewrite app_nil_r. by apply now_holds_same. }
  destruct (negb (is_read_end ih) || is_read_end oh || (a =? b)%nat) eqn:Ebad.
  - assert (Es : s' = sp y /\ rc = - EINVAL); [|destruct Es as [-> ->]; by apply Hno].
    unfold vfs_pipe_tee in H. destruct (negb (is_read_end ih) || is_read_end oh); [by injection H as <- <-|]. simpl in Ebad.
    unfold usable in H. rewrite A1, B1, A2, B2, A3, B3 in H. cbn [negb orb] in H. rewrite Ebad in H. by injection H as <- <-.
  - rewrite !orb_false_iff, negb_false_iff, Nat.eqb_neq in Ebad. destruct Ebad as [[K1 K2] K3].
    destruct (tee_refines ih oh a b len (sp y) src dst) as (s2 & E & Hs2); try done. rewrite E in H. injection H as <- ->.
    pose proof (ro_size _ A4) as Sa. pose proof (ro_size _ B4) as Sb. set (n := Z.min len _) in *.
    assert (0 <= n) by (unfold n; lia).
    destruct (Z.eqb_spec len 0) as [El|]; [assert (n = 0) as -> by (unfold n; lia); by destruct (readers dst =? 0)|].
    destruct (readers dst =? 0); [exact Hs2|]. destruct (Z.eqb_spec n 0) as [En|]; [|exact Hs2].
    rewrite En in Hs2. by destruct ((size src =? 0) && (writers src =? 0)).
Qed.
Lemma step_ok y y' : step y y' -> sys_ok y -> sys_ok y'.
Proof.
  intros Hs Hy. pose proof Hy as [Hp Hf].
  destruct Hs as [y' Hs|h n r s' Hh Hn H|h data r s' Hh H|ih oh len rc s' Hih Hoh Hlen H]; [by apply (ends_step_ok y)|..].
  - destruct (live_slot y h Hy Hh) as (i & p & H1 & H2 & H3 & H4).
    destruct (pipe_read_refines h i n (sp y) p H1 H2 H3 H4 Hn) as (s2 & E & Hs2). rewrite E in H. injection H as _ ->.
    split; [|done]. by eapply now_holds_pool.
  - destruct (live_slot y h Hy Hh) as (i & p & H1 & H2 & H3 & H4).
    destruct (pipe_write_refines h i data (sp y) p H1 H2 H3 H4) as (s2 & E & Hs2). rewrite E in H. injection H as _ ->.
    split; [|done]. by eapply now_holds_pool.
  - destruct (live_slot y ih Hy Hih) as (a & _ & A1 & _), (live_slot y oh Hy Hoh) as (b & _ & B1 & _).
    destruct (live_tee y ih oh len rc s' a b Hy Hih Hoh Hlen A1 B1 H) as (src & dst & _ & B2 & _ & Hs2).
    split; [|done]. by eapply now_holds_pool.
Qed.

Lemma boot_ok : sys_ok boot.
Proof.
  split; [|apply List.Forall_nil]. constructor.
  - apply length_replicate.
  - cbn [sp boot boot_pool g_pipe_buffers_held pipes]. unfold buffers. rewrite count_if_zero; [done|].
    intros p Hp. apply elem_of_replicate in Hp as [-> _]. done.
  - intros i p Hi. apply lookup_replicate in Hi as [-> _]. done.
  - by intros u ?%elem_of_nil.
  - by intros u u' ?%elem_of_nil.
  - intros ino i Hi. cbn [sp boot boot_pool fifo_of] in Hi. by rewrite lookup_empty in Hi.
Qed.

(** ** What comes out is what went in *)

(** Opening and closing ends leaves the bytes of a pipe that stays open alone. *)
Definition same_ring (p p' : vfs_pipe) : Prop :=
  buffer p' = buffer p /\ size p' = size p /\ read_pos p' = read_pos p /\ write_pos p' = write_pos p.
Definition keeps (i : nat) (s s' : pool) : Prop :=
  forall p, pipes s !! i = Some p -> used p = true -> exists p', pipes s' !! i = Some p' /\ (used p' = true -> same_ring p p').
Lemma keeps_same i s s' : pipes s' !! i = pipes s !! i -> keeps i s s'.
Proof. intros E p Hp _. exists p. by rewrite E. Qed.
Lemma keeps_set i j p p' s : pipes s !! j = Some p -> (used p' = true -> same_ring p p') -> keeps i s (set_pipe j p' s).
Proof.
  intros Hj Hr q Hq _. simpl. destruct (decide (i = j)) as [->|Hne].
  - exists p'. rewrite list_lookup_insert_eq by by eapply lookup_lt_Some. split; [done|]. by replace q with p by congruence.
  - exists q. by rewrite list_lookup_insert_ne.
Qed.
Lemma release_keeps i h j s s' : private_data h = Some j -> pipe_release h s = Ok s' ->
  keeps i s s' /\ (i <> j -> pipes s' !! i = pipes s !! i).
Proof.
  intros Hj H. unfold pipe_release, get_pipe in H. rewrite Hj in H. destruct (pipes s !! j) as [p|] eqn:Hp; [|done]. cbn [rbind] in H.
  match type of H with rbind ?x _ = _ => destruct x as [p1| |] eqn:E; [|done|done] end. cbn [rbind] in H.
  assert (R1 : same_ring p p1). { unfold kassert in E. repeat break_hyp E; by simplify_eq. }
  repeat break_hyp H; simplify_eq.
  1, 2: split; [apply (keeps_set i j p); [done|by simpl]|intros Hne; simpl; by rewrite list_lookup_insert_ne].
  - split; [apply (keeps_set i j p); [done|by simpl]|intros Hne; simpl; by rewrite list_lookup_insert_ne].
  - split; [by apply (keeps_set i j p)|intros Hne; simpl; by rewrite list_lookup_insert_ne].
Qed.
Lemma detach_keeps i ino j r w s s' : fifo_detach ino j r w s = Ok s' -> keeps i s s'.
Proof.
  intros H. unfold fifo_detach, get_pipe in H. destruct (pipes s !! j) as [p|] eqn:Hp; [|done]. cbn [rbind] in H. unfold kassert in H.
  set (p1 := set_ends _ _ p) in H. destruct (_ || _); [|done]. destruct (_ || _); [|done]. destruct (_ && _); simplify_eq.
  - assert (Hs : forall s2, pipes s2 = pipes s -> keeps i s (set_pipe j (set_used false p1) s2)).
    { intros s2 E q Hq Hu. destruct (keeps_set i j p (set_used false p1) s Hp ltac:(done) q Hq Hu) as (p' & H1 & H2).
      exists p'. simpl in *. by rewrite E. }
    apply Hs. destruct ino; [|done]. by destruct (bool_decide _).
  - by apply (keeps_set i j p).
Qed.
(** The slot that a claim takes is not one in use. *)
Lemma claim_keeps i max mem s o s1 p : pipe_pool_claim max mem s = (o, s1) -> pipes s !! i = Some p -> used p = true ->
  pipes s1 !! i = pipes s !! i /\ o <> Some i.
Proof.
  intros H Hi Hu. unfold pipe_pool_claim in H. destruct (first_index _ _) as [j|] eqn:E; [|by simplify_eq].
  apply first_index_Some in E as (q & Hj & Hq & _). apply lookup_take_Some in Hj as [Hj _]. rewrite Hj in H.
  assert (Hne : i <> j) by (intros ->; replace q with p in Hq by congruence; by rewrite Hu in Hq).
  repeat break_hyp H; simplify_eq; simpl; (split; [by rewrite list_lookup_insert_ne|congruence]).
Qed.
Lemma create_keeps i ok max mem a rc hs s s' : vfs_pipe_create ok max mem a s = Ok (rc, hs, s') -> keeps i s s'.
Proof.
  intros H p Hp Hu. apply (keeps_same i s s'); [|done|done]. unfold vfs_pipe_create in H.
  destruct ok; cbn [negb] in H; [|by simplify_eq]. destruct (pipe_pool_claim max mem s) as [o s1] eqn:Ec.
  destruct (claim_keeps i max mem s o s1 p Ec Hp Hu) as [E1 Hne]. destruct o as [j|]; [|by simplify_eq].
  assert (Hij : i <> j) by congruence.
  destruct (_ || _); [simplify_eq; simpl; by rewrite list_lookup_alter_ne|].
  set (s2 := alter_pipe j _ s1) in H. assert (E2 : pipes s2 !! i = pipes s !! i) by (simpl; by rewrite list_lookup_alter_ne).
  destruct (_ || _); [|by simplify_eq].
  destruct (pipe_release (vfs_pipe_init_handle 0 j false) s2) as [s3| |] eqn:R1; [|done|done]. cbn [rbind] in H.
  destruct (pipe_release (vfs_pipe_init_handle 0 j true) s3) as [s4| |] eqn:R2; [|done|done]. cbn [rbind] in H. simplify_eq.
  rewrite (proj2 (release_keeps i (vfs_pipe_init_handle 0 j true) j _ _ eq_refl R2)), (proj2 (release_keeps i (vfs_pipe_init_handle 0 j false) j _ _ eq_refl R1)) by done. done.
Qed.
Lemma keeps_alter i j f s : (forall p, used (f p) = true -> same_ring p (f p)) -> keeps i s (alter_pipe j f s).
Proof.
  intros Hf p Hp Hu. simpl. destruct (decide (i = j)) as [->|Hne].
  - exists (f p). rewrite list_lookup_alter_eq, Hp. split; [done|apply Hf].
  - exists p. by rewrite list_lookup_alter_ne.
Qed.
Lemma attach_keeps i ino fl max mem s o s' : fifo_attach ino fl max mem s = (o, s') -> keeps i s s'.
Proof.
  intros H p Hp Hu. unfold fifo_attach in H. destruct (pipe_pool_claim max mem s) as [c s1] eqn:Ec.
  destruct (claim_keeps i max mem s c s1 p Ec Hp Hu) as [E1 Hne]. destruct c as [spare|]; [|simplify_eq; by apply (keeps_same i s s')].
  assert (Hij : i <> spare) by congruence. rewrite <- E1 in Hp.
  set (x := match fifo_of s1 !! ino with Some _ => _ | None => _ end) in H.
  assert (Hx : pipes (x.1.2) !! i = pipes s1 !! i).
  { unfold x. destruct (fifo_of s1 !! ino); [done|]. simpl. by rewrite list_lookup_alter_ne. }
  assert (Hspare : x.2 = Some spare \/ x.2 = None) by (unfold x; destruct (fifo_of s1 !! ino); auto).
  destruct x as [[j s2] sp2]. simpl in Hx, Hspare. rewrite <- Hx in Hp.
  assert (Hfree : forall s3, keeps i s2 s3 ->
    keeps i s2 (match sp2 with Some k => alter_pipe k (set_used false) s3 | None => s3 end)).
  { intros s3 K q Hq Huq. destruct (K q Hq Huq) as (q' & H1 & H2). exists q'. split; [|done].
    destruct Hspare as [-> | ->]; [|done]. simpl. by rewrite list_lookup_alter_ne. }
  destruct (_ && _); simplify_eq.
  - apply Hfree; [|done|done]. destruct (_ && _); [|by apply keeps_same]. by apply (keeps_alter i j (set_used false) (set_fifo ino None s2)).
  - apply Hfree; [|done|done]. by apply keeps_alter.
Qed.
Lemma finish_keeps i ino fl j hok fd s r s' : fifo_finish ino fl j hok fd s = Ok (r, s') -> keeps i s s'.
Proof.
  intros H. unfold fifo_finish in H. destruct hok; cbn [negb] in H.
  - destruct (get_pipe s j) as [p| |]; [|done|done]. cbn [rbind] in H. destruct (fd <? 0); [|simplify_eq; by apply keeps_same].
    unfold fifo_release in H. cbn [private_data node flags] in H.
    destruct (fifo_detach _ _ _ _ s) as [s2| |] eqn:E; [|done|done]. cbn [rbind] in H. simplify_eq. by eapply detach_keeps.
  - destruct (fifo_detach _ _ _ _ s) as [s2| |] eqn:E; [|done|done]. cbn [rbind] in H. simplify_eq. by eapply detach_keeps.
Qed.
Lemma rendezvous_keeps i waits ino fl j hok fd s r s' : waits = [] \/ waits = [Signal] ->
  fifo_rendezvous waits ino fl j hok fd s = Ok (r, s') -> keeps i s s'.
Proof.
  intros Hw H. destruct Hw as [-> | ->]; cbn [fifo_rendezvous] in H; destruct (get_pipe s j) as [p| |]; try done; cbn [rbind] in H;
    (destruct (_ && _); [|by eapply finish_keeps]); [simplify_eq; by apply keeps_same|].
  destruct (fifo_detach _ _ _ _ s) as [s2| |] eqn:E; [|done|done]. cbn [rbind] in H. simplify_eq. by eapply detach_keeps.
Qed.
Lemma ends_keep i y y' : ends_step y y' -> Forall handle_wf (live y) -> keeps i (sp y) (sp y').
Proof.
  intros Hs Hf. destruct Hs as [ok max mem a rc hs s' H|ino fl max mem j s' Hw H|ino fl max mem e s' Hw H|o1 o2 ino fl j waits hok fd r s' Ho Hw H
                 |l1 h l2 s' Hl H]; simpl.
  - by eapply create_keeps.
  - by eapply attach_keeps.
  - by eapply attach_keeps.
  - assert (sp (opened r (o1 ++ o2) (ino, fl, j) (live y) s') = s') as -> by (by destruct r as [|rc [h|]]). by eapply rendezvous_keeps.
  - rewrite Hl in Hf. apply Forall_app in Hf as [_ [([j Hj] & _) _]%Forall_cons]. unfold handle_release in H.
    destruct (ops h); try (by eapply release_keeps); unfold fifo_release in H; rewrite Hj in H; by eapply detach_keeps.
Qed.

(** What goes on while pipe [i] is open, with the bytes that were put into it (by
    writes and by tees) and the bytes that were taken out so far. *)
Definition open_in (i : nat) (y : sys) : Prop := exists u, u ∈ users y /\ u_pipe u = i.
Definition inside (i : nat) (y : sys) : list Z := contents (default pipe_zero (pipes (sp y) !! i)).
Definition accepted (data : list Z) (r : rw_result) : list Z := match r with Ret n _ _ => take (Z.to_nat n) data | Blocked => [] end.
Definition delivered (r : rw_result) : list Z := match r with Ret _ bs _ => bs | Blocked => [] end.
Definition if_at (i : nat) (h : vfs_handle) (l : list Z) : list Z := if bool_decide (private_data h = Some i) then l else [].
Inductive flow (i : nat) : sys * list Z * list Z -> sys * list Z * list Z -> Prop :=
  | flow_ends y y' sent got : ends_step y y' -> open_in i y' -> flow i (y, sent, got) (y', sent, got)
  | flow_write y h data r s' sent got : h ∈ live y -> pipe_write h data [] (sp y) = Ok (r, s') ->
      flow i (y, sent, got) (with_pool s' y, sent ++ if_at i h (accepted data r), got)
  | flow_read y h n r s' sent got : h ∈ live y -> 0 <= n -> pipe_read h n [] (sp y) = Ok (r, s') ->
      flow i (y, sent, got) (with_pool s' y, sent, got ++ if_at i h (delivered r))
  | flow_tee y ih oh a len rc s' sent got : ih ∈ live y -> oh ∈ live y -> 0 <= len -> private_data ih = Some a ->
      vfs_pipe_tee (Some ih) (Some oh) len (sp y) = Ok (rc, s') ->
      flow i (y, sent, got) (with_pool s' y, sent ++ if_at i oh (take (Z.to_nat rc) (inside a y)), got).

Definition in_flight (i : nat) (x : sys * list Z * list Z) : Prop :=
  match x with (y, sent, got) => sys_ok y /\ open_in i y /\ sent = got ++ inside i y end.

Lemma open_slot i y : sys_ok y -> open_in i y -> exists p, pipes (sp y) !! i = Some p /\ used p = true /\ ring_ok p /\ inside i y = contents p.
Proof.
  intros [Hp _] (u & Hu & <-). destruct (slot_of_user (sp y) (users y) u Hp Hu) as (p & H1 & H2 & H3). exists p. unfold inside. by rewrite H1.
Qed.
(** What an operation on pipe [j] does to the bytes in pipe [i]. *)
Lemma now_holds_inside i j y s' p q : pipes (sp y) !! j = Some p -> now_holds (sp y) s' j p q ->
  inside i (with_pool s' y) = if decide (i = j) then q else inside i y.
Proof.
  intros Hj (p' & -> & _ & _ & <-). unfold inside. simpl. destruct (decide (i = j)) as [->|Hne].
  - by rewrite list_lookup_insert_eq by by eapply lookup_lt_Some.
  - by rewrite list_lookup_insert_ne.
Qed.
Lemma flow_in_flight i x x' : flow i x x' -> in_flight i x -> in_flight i x'.
Proof.
  intros [y y' sent got Hs Ho|y h data r s' sent got Hh H|y h n r s' sent got Hh Hn H|y ih oh a len rc s' sent got Hih Hoh Hl Ha H] (Hy & Hop & Hsent).
  - pose proof (ends_step_ok y y' Hs Hy) as Hy'. split_and!; [done|done|]. rewrite Hsent. f_equal.
    destruct (open_slot i y Hy Hop) as (p & P1 & P2 & P3 & ->), (open_slot i y' Hy' Ho) as (p' & Q1 & Q2 & Q3 & ->).
    destruct (ends_keep i y y' Hs (proj2 Hy) p P1 P2) as (p2 & E & R). replace p2 with p' in R by congruence.
    destruct (R Q2) as (R1 & R2 & R3 & R4). unfold contents. by rewrite R1, R2, R3.
  - split_and!; [exact (step_ok _ _ (step_write y h data r s' Hh H) Hy)|done|]. destruct (live_slot y h Hy Hh) as (j & p & H1 & H2 & H3 & H4).
    destruct (pipe_write_refines h j data (sp y) p H1 H2 H3 H4) as (s2 & E & Hs2). rewrite E in H. injection H as <- <-.
    rewrite (now_holds_inside i j y s2 p _ H2 Hs2), Hsent. unfold if_at. rewrite H1. destruct (decide (i = j)) as [->|Hne].
    2:{ rewrite bool_decide_eq_false_2 by congruence. by rewrite app_nil_r. }
    rewrite bool_decide_eq_true_2 by done. unfold inside. rewrite H2. cbn [from_option id]. rewrite <- app_assoc. f_equal.
    unfold write_spec. destruct (readers p =? 0); [by rewrite app_nil_r|].
    destruct (PIPE_BUFFER_SIZE - _ =? 0); [destruct (nonblocking h); by rewrite app_nil_r|done].
  - split_and!; [exact (step_ok _ _ (step_read y h n r s' Hh Hn H) Hy)|done|]. destruct (live_slot y h Hy Hh) as (j & p & H1 & H2 & H3 & H4).
    destruct (pipe_read_refines h j n (sp y) p H1 H2 H3 H4 Hn) as (s2 & E & Hs2). rewrite E in H. injection H as <- <-.
    rewrite (now_holds_inside i j y s2 p _ H2 Hs2), Hsent. unfold if_at. rewrite H1. destruct (decide (i = j)) as [->|Hne].
    2:{ rewrite bool_decide_eq_false_2 by congruence. by rewrite app_nil_r. }
    rewrite bool_decide_eq_true_2 by done. unfold inside. rewrite H2. cbn [from_option id]. rewrite <- app_assoc. f_equal.
    unfold read_spec. destruct (contents p) as [|c l]; [|by cbn [fst snd delivered]; rewrite take_drop].
    destruct (writers p =? 0); [done|]. by destruct (nonblocking h).
  - split_and!; [exact (step_ok _ _ (step_tee y ih oh len rc s' Hih Hoh Hl H) Hy)|done|]. destruct (live_slot y oh Hy Hoh) as (b & _ & Hb & _).
    destruct (live_tee y ih oh len rc s' a b Hy Hih Hoh Hl Ha Hb H) as (src & dst & A2 & B2 & _ & Hs2).
    rewrite (now_holds_inside i b y s' dst _ B2 Hs2), Hsent. unfold if_at. rewrite Hb. destruct (decide (i = b)) as [->|Hne].
    2:{ rewrite bool_decide_eq_false_2 by congruence. by rewrite app_nil_r. }
    rewrite bool_decide_eq_true_2 by done. unfold inside. rewrite A2, B2. cbn [from_option id]. by rewrite <- app_assoc.
Qed.
(** A pipe that pipe(2) made is empty. *)
Lemma created_empty ok max mem a s rc hs s' h i :
  vfs_pipe_create ok max mem a s = Ok (rc, hs, s') -> h ∈ hs -> private_data h = Some i -> contents (default pipe_zero (pipes s' !! i)) = [].
Proof.
  intros H Hh Hi. unfold vfs_pipe_create in H. destruct ok; cbn [negb] in H; [|simplify_eq; by apply elem_of_nil in Hh].
  destruct (pipe_pool_claim max mem s) as [[j|] s1]; [|simplify_eq; by apply elem_of_nil in Hh].
  destruct (_ || _); [simplify_eq; by apply elem_of_nil in Hh|]. set (s2 := alter_pipe j _ s1) in H. destruct (_ || _).
  - destruct (pipe_release _ s2) as [s3| |]; [|done|done]. cbn [rbind] in H. destruct (pipe_release _ s3) as [s4| |]; [|done|done].
    cbn [rbind] in H. simplify_eq. by apply elem_of_nil in Hh.
  - injection H as _ <- <-. assert (i = j) as ->.
    { apply elem_of_cons in Hh as [->|Hh]; [by injection Hi|]. apply elem_of_cons in Hh as [->|Hh]; [by injection Hi|]. by apply elem_of_nil in Hh. }
    simpl. rewrite list_lookup_alter_eq. destruct (pipes s1 !! j) as [q|]; [|done]. unfold contents. simpl. by destruct (buffer q).
Qed.

(** A call that answers something else. *)
Ltac no_result :=
  intros; repeat match goal with H : exists _, _ |- _ => destruct H end; simplify_eq; unfold EAGAIN, EPIPE in *; lia.

(** ** Properties *)

(** C34 (invariant).  The pool's bookkeeping is exact in every reachable state, over any sequence of
    pipe(2), FIFO opens with their waits and failures, reads, writes, tees and last closes:
    each slot's reader and writer counts are the numbers of open read and write ends (openers
    that still wait included), a slot is in use exactly while it has one, an inode's FIFO is
    the slot its openers have and no anonymous pipe shares it, the buffer count is right; so
    releasing an open handle never trips the "closed with no readers" assertions. *)
Theorem pipe_pool_counts_ends y :
  rtc step boot y ->
  pool_ok (sp y) (users y)
  /\ forall h, h ∈ live y -> exists s', handle_release h (sp y) = Ok s'.
Proof.
  intros Hy. assert (H : sys_ok y) by (exact (rtc_invariant step sys_ok step_ok _ _ Hy boot_ok)).
  split; [apply H|]. intros h Hh. destruct H as [Hp Hf]. pose proof (proj1 (Forall_forall _ _) Hf h Hh) as Hwf.
  apply list_elem_of_split in Hh as (l1 & l2 & El). unfold users in Hp. rewrite El, bind_app, bind_cons in Hp.
  rewrite (Permutation_app_comm (l1 ≫= user_of)), <- !app_assoc in Hp.
  destruct (handle_release_spec _ _ h Hp Hwf) as (s' & E & _). by exists s'.
Qed.

(** C35 (refinement).  Reads and writes of an open pipe are operations on a queue of at most 65536
    bytes: a read takes the oldest bytes, as many as are there and asked for, and on an empty
    pipe answers end-of-file without writers, EAGAIN without blocking, or blocks; a write
    appends what fits, and answers EPIPE with SIGPIPE without readers, EAGAIN or a wait when
    full.  The ring positions, wrapped at the end of the buffer, implement this exactly, and
    nothing else of the pool changes. *)
Theorem pipe_io_refines_queue h i n data s p :
  private_data h = Some i -> pipes s !! i = Some p -> used p = true -> ring_ok p -> 0 <= n ->
  Z.of_nat (length (contents p)) <= PIPE_BUFFER_SIZE
  /\ (exists s', pipe_read h n [] s = Ok (fst (read_spec (contents p) (writers p) (nonblocking h) n), s')
        /\ now_holds s s' i p (snd (read_spec (contents p) (writers p) (nonblocking h) n)))
  /\ (exists s', pipe_write h data [] s = Ok (fst (write_spec (contents p) (readers p) (nonblocking h) data), s')
        /\ now_holds s s' i p (snd (write_spec (contents p) (readers p) (nonblocking h) data))).
Proof.
  intros Hh Hi Hu Hr Hn. split_and!; [rewrite contents_length by done; apply Hr|by apply pipe_read_refines|by apply pipe_write_refines].
Qed.

(** C36 (safety).  A pipe delivers exactly the bytes that were put into it, in order, each once.
    From any reachable state in which pipe [i] is open, and for as long as it has an open end,
    whatever happens in the system (reads, writes and tees of any size on this and on other
    pipes, pipe(2), FIFO opens and their failures, closes of ends of this and of other pipes),
    the bytes that were inside, followed by those that writes and tees put in, are the bytes
    that reads took out followed by those still inside, at most 65536 of them. *)
Theorem pipe_delivers_what_was_written i y0 y sent got :
  rtc step boot y0 -> open_in i y0 -> rtc (flow i) (y0, inside i y0, []) (y, sent, got) ->
  sent = got ++ inside i y /\ Z.of_nat (length (inside i y)) <= PIPE_BUFFER_SIZE.
Proof.
  intros H0 Ho Ht. assert (Hy0 : sys_ok y0) by (exact (rtc_invariant step sys_ok step_ok _ _ H0 boot_ok)).
  destruct (rtc_invariant (flow i) (in_flight i) (flow_in_flight i) _ _ Ht) as (Hy & Hop & Hs); [done|]. split; [done|].
  destruct (open_slot i y Hy Hop) as (p & _ & _ & Hr & ->). rewrite contents_length by done. apply Hr.
Qed.

(** (Functional.)  tee copies without consuming: it returns how many bytes of the source fit and
    were asked for, appends exactly those, the oldest, to the destination and leaves the
    source's content alone; with nothing to move it answers end-of-file or EAGAIN, and EPIPE
    when the destination has no reader. *)
Theorem tee_copies_without_consuming ih oh a b len s src dst :
  is_read_end ih = true -> is_read_end oh = false -> private_data ih = Some a -> private_data oh = Some b -> a <> b ->
  pipes s !! a = Some src -> pipes s !! b = Some dst -> used src = true -> used dst = true -> ring_ok src -> ring_ok dst ->
  0 < len -> readers dst <> 0 ->
  let n := Z.min len (Z.min (size src) (PIPE_BUFFER_SIZE - size dst)) in
  exists s' dst', vfs_pipe_tee (Some ih) (Some oh) len s
    = Ok (if n =? 0 then (if (size src =? 0) && (writers src =? 0) then 0 else - EAGAIN) else n, s')
    /\ pipes s' !! a = Some src /\ pipes s' !! b = Some dst' /\ ring_ok dst'
    /\ contents dst' = contents dst ++ take (Z.to_nat n) (contents src).
Proof.
  intros H1 H2 H3 H4 Hab H5 H6 H7 H8 H9 H10 Hl Hrd n.
  destruct (tee_refines ih oh a b len s src dst) as (s' & E & Hs'); try done; [lia|].
  rewrite (proj2 (Z.eqb_neq (readers dst) 0) Hrd), (proj2 (Z.eqb_neq len 0)) in * by lia.
  destruct Hs' as (dst' & -> & R1 & _ & R3). exists (set_pipe b dst' s), dst'. split_and!; try done.
  - simpl. by rewrite list_lookup_insert_ne.
  - simpl. apply list_lookup_insert_eq. by eapply lookup_lt_Some.
Qed.

(** (Equivalence.)  poll tells what a non-blocking call would do: on either end of a pipe it
    reports no event exactly when the read or write would answer EAGAIN, POLLERR exactly when
    a write would answer EPIPE, and POLLIN exactly when a read of at least a byte would return
    some. *)
Theorem poll_agrees_with_io h i s p n data :
  private_data h = Some i -> pipes s !! i = Some p -> used p = true -> ring_ok p -> node h = None ->
  nonblocking h = true -> 0 < n ->
  exists ev, pipe_poll h s = Ok ev /\
  (is_read_end h = true ->
     (ev = 0 <-> exists s', pipe_read h n [] s = Ok (Ret (- EAGAIN) [] false, s'))
     /\ (Z.testbit ev 0 = true <-> exists rc b bs s', pipe_read h n [] s = Ok (Ret rc (b :: bs) false, s')))
  /\ (is_read_end h = false ->
     (ev = 0 <-> exists s', pipe_write h data [] s = Ok (Ret (- EAGAIN) [] false, s'))
     /\ (Z.testbit ev 3 = true <-> exists s', pipe_write h data [] s = Ok (Ret (- EPIPE) [] true, s'))).
Proof.
  intros Hh Hi Hu Hr Hnode Hnb Hn. unfold pipe_poll, usable. rewrite Hh, Hi, Hu. cbn [negb]. unfold get_pipe. rewrite Hi. cbn [rbind].
  pose proof (ro_size _ Hr) as Hs. destruct (is_read_end h); (eexists; split; [done|]); (split; [intros E|intros E]; try done).
  - destruct (pipe_read_refines h i n s p Hh Hi Hu Hr ltac:(lia)) as (s' & -> & _). rewrite Hnode. rewrite andb_true_r.
    pose proof (contents_length p Hr) as Hl. unfold read_spec. rewrite Hnb. destruct (contents p) as [|x q]; simpl in Hl.
    + rewrite (proj2 (Z.ltb_ge 0 (size p))) by lia. destruct (writers p =? 0); simpl; split; split; try done; eauto; no_result.
    + rewrite (proj2 (Z.ltb_lt 0 (size p))) by lia. replace (Z.to_nat n) with (S (Z.to_nat (n - 1))) by lia. simpl.
      destruct (writers p =? 0); simpl; split; split; try done; eauto; no_result.
  - destruct (pipe_write_refines h i data s p Hh Hi Hu Hr) as (s' & -> & _). unfold write_spec.
    rewrite (contents_length p Hr), Hnb. destruct (Z.eqb_spec (PIPE_BUFFER_SIZE - size p) 0).
    + rewrite (proj2 (Z.ltb_ge (size p) PIPE_BUFFER_SIZE)) by lia. destruct (readers p =? 0); simpl; split; split; try done; eauto; no_result.
    + rewrite (proj2 (Z.ltb_lt (size p) PIPE_BUFFER_SIZE)) by lia. destruct (readers p =? 0); simpl; split; split; try done; eauto; no_result.
Qed.

(** ** Witnesses and examples *)

Definition demo_answers : answers := mkAnswers true true 3 4.
Definition created (s : pool) : pool :=
  match vfs_pipe_create true MAX_VFS_PIPES_CEIL true demo_answers s with Ok (_, _, s') => s' | _ => s end.
(** Two anonymous pipes, in slots 0 and 1. *)
Definition demo1 : pool := created boot_pool.
Definition demo2 : pool := created demo1.
Definition rend (i : nat) : vfs_handle := vfs_pipe_init_handle B1NIX_O_NONBLOCK i false.
Definition wend (i : nat) : vfs_handle := vfs_pipe_init_handle B1NIX_O_NONBLOCK i true.
Definition fresh_pipe : vfs_pipe := set_ends 1 1 (set_used true (set_buffer (Some ∅) pipe_zero)).
Definition wrote (h : vfs_handle) (data : list Z) (s : pool) : pool :=
  match pipe_write h data [] s with Ok (_, s') => s' | _ => s end.

Lemma fresh_ring : ring_ok fresh_pipe.
Proof. constructor; simpl; [eauto|unfold PIPE_BUFFER_SIZE; lia|unfold PIPE_BUFFER_SIZE; lia|done]. Qed.
Lemma demo2_pipe0 : pipes demo2 !! 0%nat = Some fresh_pipe.
Proof. vm_compute. reflexivity. Qed.
Lemma demo2_pipe1 : pipes demo2 !! 1%nat = Some fresh_pipe.
Proof. vm_compute. reflexivity. Qed.
Lemma pipe_demo_step : step boot (mkSys demo1 [vfs_pipe_init_handle 0 0 false; vfs_pipe_init_handle 0 0 true] []).
Proof.
  apply step_ends. apply (step_pipe boot true MAX_VFS_PIPES_CEIL true demo_answers 0
           [vfs_pipe_init_handle 0 0 false; vfs_pipe_init_handle 0 0 true]). vm_compute. reflexivity.
Qed.

Lemma pipe_pool_counts_ends_witness :
  exists s', handle_release (vfs_pipe_init_handle 0 0 true) demo1 = Ok s'.
Proof.
  apply (proj2 (pipe_pool_counts_ends (mkSys demo1 [vfs_pipe_init_handle 0 0 false; vfs_pipe_init_handle 0 0 true] [])
           (rtc_once _ _ pipe_demo_step))). right. left.
Defined.

Lemma pipe_io_refines_queue_witness :
  exists s', pipe_write (wend 0) [104; 105] [] demo2 = Ok (Ret 2 [] false, s').
Proof.
  destruct (pipe_io_refines_queue (wend 0) 0 5 [104; 105] demo2 fresh_pipe eq_refl demo2_pipe0 eq_refl fresh_ring ltac:(lia))
    as (_ & _ & (s' & H & _)).
  exists s'. exact H.
Defined.

(** Two bytes are written, one is read, the write end is closed: one is left. *)
Definition demo_sys (s : pool) : sys := mkSys s [vfs_pipe_init_handle 0 0 false; vfs_pipe_init_handle 0 0 true] [].
Definition demo_wrote : pool := wrote (vfs_pipe_init_handle 0 0 true) [104; 105] demo1.
Definition demo_read : pool :=
  match pipe_read (vfs_pipe_init_handle 0 0 false) 1 [] demo_wrote with Ok (_, s') => s' | _ => demo_wrote end.
Definition demo_closed : pool :=
  match handle_release (vfs_pipe_init_handle 0 0 true) demo_read with Ok s' => s' | _ => demo_read end.
Definition demo_end : sys := mkSys demo_closed [vfs_pipe_init_handle 0 0 false] [].
Lemma pipe_delivers_what_was_written_witness :
  inside 0 demo_end = [105] /\ ([] ++ [104; 105] = ([] ++ [104]) ++ inside 0 demo_end).
Proof.
  split; [vm_compute; reflexivity|].
  assert (H : rtc (flow 0) (demo_sys demo1, [], []) (demo_end, [] ++ [104; 105], [] ++ [104])).
  { eapply rtc_l; [|eapply rtc_l; [|eapply rtc_l; [|apply rtc_refl]]].
    - apply (flow_write 0 (demo_sys demo1) (vfs_pipe_init_handle 0 0 true) [104; 105] (Ret 2 [] false) demo_wrote [] []);
        [right; left|vm_compute; reflexivity].
    - apply (flow_read 0 (demo_sys demo_wrote) (vfs_pipe_init_handle 0 0 false) 1 (Ret 1 [104] false) demo_read [104; 105] []);
        [left|lia|vm_compute; reflexivity].
    - apply flow_ends; [|by eexists; split; [left|]].
      apply (step_release (demo_sys demo_read) [vfs_pipe_init_handle 0 0 false] (vfs_pipe_init_handle 0 0 true) []); [done|vm_compute; reflexivity]. }
  apply (pipe_delivers_what_was_written 0 (demo_sys demo1) demo_end ([] ++ [104; 105]) ([] ++ [104])); [|by eexists; split; [left|]|].
  - exact (rtc_once _ _ pipe_demo_step).
  - assert (E : inside 0 (demo_sys demo1) = []) by (vm_compute; reflexivity). rewrite E. exact H.
Defined.

Lemma tee_copies_without_consuming_witness :
  exists s' p, vfs_pipe_tee (Some (rend 0)) (Some (wend 1)) 10 demo2 = Ok (- EAGAIN, s') /\ pipes s' !! 0%nat = Some p.
Proof.
  destruct (tee_copies_without_consuming (rend 0) (wend 1) 0 1 10 demo2 fresh_pipe fresh_pipe eq_refl eq_refl eq_refl eq_refl
              ltac:(discriminate) demo2_pipe0 demo2_pipe1 eq_refl eq_refl fresh_ring fresh_ring ltac:(lia) ltac:(discriminate))
    as (s' & dst' & H1 & H2 & _).
  exists s', fresh_pipe. split; [exact H1|exact H2].
Defined.

Lemma poll_agrees_with_io_witness : exists ev, pipe_poll (rend 0) demo2 = Ok ev.
Proof.
  destruct (poll_agrees_with_io (rend 0) 0 demo2 fresh_pipe 1 [] eq_refl demo2_pipe0 eq_refl fresh_ring eq_refl eq_refl ltac:(lia))
    as (ev & H & _).
  exists ev. exact H.
Defined.

(** A tee with bytes to move. *)
Example tee_moves_bytes :
  match vfs_pipe_tee (Some (rend 0)) (Some (wend 1)) 10 (wrote (wend 0) [1; 2; 3] demo2) with
  | Ok (n, s') => n = 3 /\ contents (default pipe_zero (pipes s' !! 0%nat)) = [1; 2; 3]
                  /\ contents (default pipe_zero (pipes s' !! 1%nat)) = [1; 2; 3]
  | _ => False
  end.
Proof. vm_compute. split_and!; reflexivity. Qed.

Definition fifo_opened (ino fl : Z) (s : pool) : res (open_result * pool) :=
  vfs_fifo_open (Some ino) fl MAX_VFS_PIPES_CEIL true true 5 [] s.
Definition pool_after (x : res (open_result * pool)) : pool := match x with Ok (_, s) => s | _ => boot_pool end.
Definition handle_after (x : res (open_result * pool)) : vfs_handle :=
  match x with Ok (Opened _ (Some h), _) => h | _ => rend 0 end.

(** A FIFO opened for both directions can be written, but poll never says so. *)
Example rdwr_fifo_never_polls_writable :
  let x := fifo_opened 9 (Z.lor B1NIX_O_RDWR B1NIX_O_NONBLOCK) boot_pool in
  pipe_poll (handle_after x) (pool_after x) = Ok 0
  /\ match pipe_write (handle_after x) [7] [] (pool_after x) with Ok (Ret n _ _, _) => n = 1 | _ => False end.
Proof. vm_compute. split; reflexivity. Qed.

(** A blocking open for reading does not wait although no writer has the FIFO
    open, when one had it open before. *)
Example reader_does_not_wait_for_present_writer :
  let x1 := fifo_opened 9 (Z.lor B1NIX_O_RDONLY B1NIX_O_NONBLOCK) boot_pool in
  let x2 := fifo_opened 9 (Z.lor B1NIX_O_WRONLY B1NIX_O_NONBLOCK) (pool_after x1) in
  match handle_release (handle_after x2) (pool_after x2) with
  | Ok s => writers (default pipe_zero (pipes s !! 0%nat)) = 0
            /\ match fifo_opened 9 B1NIX_O_RDONLY s with Ok (Opened fd _, _) => fd = 5 | _ => False end
  | _ => False
  end.
Proof. vm_compute. split; reflexivity. Qed.

(** The last close of a FIFO keeps its buffer however many are cached. *)
Example fifo_close_ignores_the_cache_limit :
  let over s := mkPool (pipes s) 100 (fifo_of s) in
  let x := fifo_opened 9 (Z.lor B1NIX_O_RDONLY B1NIX_O_NONBLOCK) boot_pool in
  match handle_release (handle_after x) (over (pool_after x)), 
        pipe_release (rend 0) (over (match pipe_release (wend 0) demo1 with Ok s => s | _ => demo1 end)) with
  | Ok s, Ok s' => has_buffer (default pipe_zero (pipes s !! 0%nat)) = true
                   /\ has_buffer (default pipe_zero (pipes s' !! 0%nat)) = false
  | _, _ => False
  end.
Proof. vm_compute. split; reflexivity. Qed.

End PipeProofs.
