(* ===== verification/SockFilter.v ===== *)
(** * Classic BPF socket filters (src/kernel/net/sock_filter.c)

    The verifier [sock_filter_check], the packet loads [bpf_load] and the
    interpreter [sock_filter_run], with every array access of the C code
    modelled as a lookup that can miss: a miss is the outcome [Wild].  The
    theorems show that a program the verifier accepts never reads or writes
    outside its program, its scratch words or the packet, always reaches a
    return instruction within [len] steps, and computes what a reference
    semantics over decoded instructions computes. *)
From S2P Require Import Prelude.

Module SockFilter.

(** ** Encoding (lines 21-78) *)
Definition BPF_CLASS (code : Z) := Z.land code 7.
Definition BPF_LD := 0.
Definition BPF_LDX := 1.
Definition BPF_ST := 2.
Definition BPF_STX := 3.
Definition BPF_ALU := 4.
Definition BPF_JMP := 5.
Definition BPF_RET := 6.
Definition BPF_MISC := 7.

Definition BPF_SIZE (code : Z) := Z.land code 24.
Definition BPF_W := 0.
Definition BPF_H := 8.
Definition BPF_B := 16.

Definition BPF_MODE (code : Z) := Z.land code 224.
Definition BPF_IMM := 0.
Definition BPF_ABS := 32.
Definition BPF_IND := 64.
Definition BPF_MEM := 96.
Definition BPF_LEN := 128.
Definition BPF_MSH := 160.

Definition BPF_OP (code : Z) := Z.land code 240.
Definition BPF_ADD := 0.
Definition BPF_SUB := 16.
Definition BPF_MUL := 32.
Definition BPF_DIV := 48.
Definition BPF_OR := 64.
Definition BPF_AND := 80.
Definition BPF_LSH := 96.
Definition BPF_RSH := 112.
Definition BPF_NEG := 128.
Definition BPF_MOD := 144.
Definition BPF_XOR := 160.

Definition BPF_JA := 0.
Definition BPF_JEQ := 16.
Definition BPF_JGT := 32.
Definition BPF_JGE := 48.
Definition BPF_JSET := 64.

Definition BPF_SRC (code : Z) := Z.land code 8.
Definition BPF_K := 0.
Definition BPF_X := 8.
Definition BPF_RVAL (code : Z) := Z.land code 24.
Definition BPF_A := 16.
Definition BPF_MISCOP (code : Z) := Z.land code 248.
Definition BPF_TAX := 0.
Definition BPF_TXA := 128.
Definition BPF_MEMWORDS := 16.
Definition BPF_MAXINSNS := 4096.

(** [struct sock_filter_insn] (include/b1nix/sock_filter.h). *)
Record sock_filter_insn := Insn { code : Z; jt : Z; jf : Z; k : Z }.

(** ** Verifier *)

(** The body of the verifier's loop: [false] is [return 0]. *)
Definition check_insn (len pc : Z) (f : sock_filter_insn) : bool :=
  let c := code f in
  let class := BPF_CLASS c in
  if (class =? BPF_LD) || (class =? BPF_LDX) then
    let mode := BPF_MODE c in
    if (mode =? BPF_IMM) || (mode =? BPF_ABS) || (mode =? BPF_IND) || (mode =? BPF_LEN)
    then true
    else if mode =? BPF_MSH then
      if (class <>? BPF_LDX) || (BPF_SIZE c <>? BPF_B) then false else true
    else if mode =? BPF_MEM then
      if BPF_MEMWORDS <=? k f then false else true
    else false
  else if (class =? BPF_ST) || (class =? BPF_STX) then
    if BPF_MEMWORDS <=? k f then false else true
  else if class =? BPF_ALU then
    let op := BPF_OP c in
    if (op =? BPF_ADD) || (op =? BPF_SUB) || (op =? BPF_MUL) || (op =? BPF_OR)
       || (op =? BPF_AND) || (op =? BPF_LSH) || (op =? BPF_RSH) || (op =? BPF_NEG)
       || (op =? BPF_XOR)
    then true
    else if (op =? BPF_DIV) || (op =? BPF_MOD) then
      if (BPF_SRC c =? BPF_K) && (k f =? 0) then false else true
    else false
  else if class =? BPF_JMP then
    let rest := u32 (len - pc - 1) in
    let op := BPF_OP c in
    if op =? BPF_JA then
      if rest <=? k f then false else true
    else if (op =? BPF_JEQ) || (op =? BPF_JGT) || (op =? BPF_JGE) || (op =? BPF_JSET) then
      if (rest <=? jt f) || (rest <=? jf f) then false else true
    else false
  else if class =? BPF_RET then
    if (BPF_RVAL c <>? BPF_K) && (BPF_RVAL c <>? BPF_A) then false else true
  else if class =? BPF_MISC then
    if (BPF_MISCOP c <>? BPF_TAX) && (BPF_MISCOP c <>? BPF_TXA) then false else true
  else false.

(** [for (pc = 0; pc < len; pc++)] over the remaining instructions. *)
Fixpoint check_from (len pc : Z) (fs : list sock_filter_insn) : bool :=
  match fs with
  | [] => true
  | f :: fs' => if check_insn len pc f then check_from len (pc + 1) fs' else false
  end.

(** [f] is the array of [len] instructions. *)
Definition sock_filter_check (f : list sock_filter_insn) : bool :=
  let len := Z.of_nat (length f) in
  if (len =? 0) || (BPF_MAXINSNS <? len) then false
  else if check_from len 0 f then
    match f !! Z.to_nat (len - 1) with
    | Some i => BPF_CLASS (code i) =? BPF_RET
    | None => false
    end
  else false.

(** [kmalloc_ok]: whether the allocation of the copy succeeds. *)
Definition sock_filter_compile (kmalloc_ok : bool)
    (insns : option (list sock_filter_insn)) : option (list sock_filter_insn) :=
  match insns with
  | None => None
  | Some f => if sock_filter_check f then (if kmalloc_ok then Some f else None) else None
  end.

(** ** Interpreter *)

(** What a packet load does: [LoadWild] is a read outside the array [data]. *)
Inductive load_result := LoadOk (v : Z) | LoadDrop | LoadWild.

Definition byte_at (data : list Z) (off : Z) : option Z := data !! Z.to_nat off.

Definition bpf_load (data : list Z) (len off size : Z) : load_result :=
  if size =? BPF_W then
    if (len <? u32 (off + 4)) || (u32 (off + 4) <? off) then LoadDrop
    else match byte_at data off, byte_at data (off + 1),
               byte_at data (off + 2), byte_at data (off + 3) with
         | Some a, Some b, Some c, Some d =>
             LoadOk (Z.lor (Z.lor (Z.lor (u32 (Z.shiftl a 24)) (u32 (Z.shiftl b 16)))
                                  (u32 (Z.shiftl c 8))) d)
         | _, _, _, _ => LoadWild
         end
  else if size =? BPF_H then
    if (len <? u32 (off + 2)) || (u32 (off + 2) <? off) then LoadDrop
    else match byte_at data off, byte_at data (off + 1) with
         | Some a, Some b => LoadOk (Z.lor (u32 (Z.shiftl a 8)) b)
         | _, _ => LoadWild
         end
  else if len <=? off then LoadDrop
  else match byte_at data off with Some a => LoadOk a | None => LoadWild end.

(** The locals of [sock_filter_run]. *)
Record vm := VM { A : Z; X : Z; mem : list Z }.

(** One instruction: go on at [pc] (already advanced past the loop's [pc++]),
    return a value, or touch memory outside an array. *)
Inductive step_result := Next (pc : Z) (s : vm) | Ret (v : Z) | Wild.

Definition set_A (s : vm) (v : Z) : vm := VM v (X s) (mem s).
Definition set_X (s : vm) (v : Z) : vm := VM (A s) v (mem s).

Definition load_into (s : vm) (pc : Z) (set : vm -> Z -> vm) (r : load_result) : step_result :=
  match r with
  | LoadOk v => Next (pc + 1) (set s v)
  | LoadDrop => Ret 0
  | LoadWild => Wild
  end.

Definition mem_get (s : vm) (i : Z) : option Z := mem s !! Z.to_nat i.

(** [mem[k] = v]; the write misses when [k] is outside the scratch words. *)
Definition mem_set (s : vm) (pc i v : Z) : step_result :=
  if bool_decide (Z.to_nat i < length (mem s))%nat
  then Next (pc + 1) (VM (A s) (X s) (<[Z.to_nat i := v]> (mem s)))
  else Wild.

(** The value of [A] after [A op= src]; [None] is the [return 0] of a division
    by zero or an unknown operation.  Negating the value [0x80000000] overflows
    the signed negation of the source; here it is the wrapped result, as the
    compiled code gives. *)
Definition alu (op a src : Z) : option Z :=
  if op =? BPF_ADD then Some (u32 (a + src))
  else if op =? BPF_SUB then Some (u32 (a - src))
  else if op =? BPF_MUL then Some (u32 (a * src))
  else if op =? BPF_DIV then (if src =? 0 then None else Some (a / src))
  else if op =? BPF_MOD then (if src =? 0 then None else Some (a mod src))
  else if op =? BPF_OR then Some (Z.lor a src)
  else if op =? BPF_AND then Some (Z.land a src)
  else if op =? BPF_LSH then Some (if 32 <=? src then 0 else u32 (Z.shiftl a src))
  else if op =? BPF_RSH then Some (if 32 <=? src then 0 else Z.shiftr a src)
  else if op =? BPF_XOR then Some (Z.lxor a src)
  else if op =? BPF_NEG then Some (u32 (- i32 a))
  else None.

Definition jump_taken (op a src : Z) : option bool :=
  if op =? BPF_JEQ then Some (a =? src)
  else if op =? BPF_JGT then Some (src <? a)
  else if op =? BPF_JGE then Some (src <=? a)
  else if op =? BPF_JSET then Some (a &? src)
  else None.

Definition exec_insn (data : list Z) (len pc : Z) (f : sock_filter_insn) (s : vm) : step_result :=
  let c := code f in
  let class := BPF_CLASS c in
  let mode := BPF_MODE c in
  if class =? BPF_LD then
    if mode =? BPF_IMM then Next (pc + 1) (set_A s (k f))
    else if mode =? BPF_LEN then Next (pc + 1) (set_A s len)
    else if mode =? BPF_MEM then
      match mem_get s (k f) with Some v => Next (pc + 1) (set_A s v) | None => Wild end
    else if mode =? BPF_ABS then
      load_into s pc set_A (bpf_load data len (k f) (BPF_SIZE c))
    else if mode =? BPF_IND then
      load_into s pc set_A (bpf_load data len (u32 (X s + k f)) (BPF_SIZE c))
    else Ret 0
  else if class =? BPF_LDX then
    if mode =? BPF_IMM then Next (pc + 1) (set_X s (k f))
    else if mode =? BPF_LEN then Next (pc + 1) (set_X s len)
    else if mode =? BPF_MEM then
      match mem_get s (k f) with Some v => Next (pc + 1) (set_X s v) | None => Wild end
    else if mode =? BPF_ABS then
      load_into s pc set_X (bpf_load data len (k f) (BPF_SIZE c))
    else if mode =? BPF_IND then
      load_into s pc set_X (bpf_load data len (u32 (X s + k f)) (BPF_SIZE c))
    else if mode =? BPF_MSH then
      load_into s pc (fun s v => set_X s (u32 (Z.shiftl (Z.land v 15) 2)))
        (bpf_load data len (k f) BPF_B)
    else Ret 0
  else if class =? BPF_ST then mem_set s pc (k f) (A s)
  else if class =? BPF_STX then mem_set s pc (k f) (X s)
  else if class =? BPF_ALU then
    let src := if BPF_SRC c =? BPF_X then X s else k f in
    match alu (BPF_OP c) (A s) src with
    | Some v => Next (pc + 1) (set_A s v)
    | None => Ret 0
    end
  else if class =? BPF_JMP then
    if BPF_OP c =? BPF_JA then Next (u32 (u32 (pc + k f) + 1)) s
    else
      let src := if BPF_SRC c =? BPF_X then X s else k f in
      match jump_taken (BPF_OP c) (A s) src with
      | Some t => Next (u32 (u32 (pc + (if t then jt f else jf f)) + 1)) s
      | None => Ret 0
      end
  else if class =? BPF_RET then Ret (if BPF_RVAL c =? BPF_A then A s else k f)
  else if class =? BPF_MISC then
    if BPF_MISCOP c =? BPF_TAX then Next (pc + 1) (set_X s (A s))
    else Next (pc + 1) (set_A s (X s))
  else Ret 0.

(** How the whole loop ends: with a value, by running past the last
    instruction, or with a wild access. *)
Inductive outcome := Returned (v : Z) | RanOff | WildAccess.

(** [for (pc = 0; pc < prog->len; pc++)]; [None] is "fuel exhausted". *)
Fixpoint run_loop (fuel : nat) (prog : list sock_filter_insn) (data : list Z) (len pc : Z)
    (s : vm) : option outcome :=
  match fuel with
  | O => None
  | S fuel' =>
      if pc <? Z.of_nat (length prog) then
        match prog !! Z.to_nat pc with
        | None => Some WildAccess
        | Some f =>
            match exec_insn data len pc f s with
            | Next pc' s' => run_loop fuel' prog data len pc' s'
            | Ret v => Some (Returned v)
            | Wild => Some WildAccess
            end
        end
      else Some RanOff
  end.

Definition vm_init : vm := VM 0 0 (replicate 16 0).

(** Every jump goes forward, so a program of [len] instructions executes at
    most [len] of them: the fuel is the length plus the final loop test. *)
Definition sock_filter_run (prog : option (list sock_filter_insn)) (data : option (list Z))
    (len : Z) : option outcome :=
  match prog with
  | None => Some (Returned (U32_MOD - 1))
  | Some p =>
      let len := match data with Some _ => len | None => 0 end in
      let d := match data with Some d => d | None => [] end in
      run_loop (S (length p)) p d len 0 vm_init
  end.

(** ** Reference semantics

    The instruction set as an abstract syntax, with operations on numbers
    instead of machine words: a packet load is the big-endian value of the
    bytes at its offset, a left shift is a multiplication modulo [2^32], a right
    shift is a division, and a forward jump drops instructions. *)

Inductive reg := RA | RX.
Inductive operand := OK (k : Z) | OX.
Inductive width := W4 | W2 | W1.
Inductive aluop := OpAdd | OpSub | OpMul | OpDiv | OpMod | OpOr | OpAnd | OpLsh | OpRsh | OpXor | OpNeg.
Inductive cond := CEq | CGt | CGe | CSet.
Inductive instr :=
| ILdImm (r : reg) (k : Z)
| ILdLen (r : reg)
| ILdMem (r : reg) (k : Z)
| ILdAbs (r : reg) (w : width) (k : Z)
| ILdInd (r : reg) (w : width) (k : Z)
| ILdMsh (k : Z)
| ISt (r : reg) (k : Z)
| IAlu (op : aluop) (o : operand)
| IJa (k : Z)
| IJmp (c : cond) (o : operand) (jt jf : Z)
| IRet (o : option Z)
| ITax
| ITxa.

Definition width_of_size (size : Z) : width :=
  if size =? BPF_W then W4 else if size =? BPF_H then W2 else W1.
Definition decode_width (c : Z) : width := width_of_size (BPF_SIZE c).
Definition decode_operand (f : sock_filter_insn) : operand :=
  if BPF_SRC (code f) =? BPF_X then OX else OK (k f).
Definition decode_ld (r : reg) (f : sock_filter_insn) : option instr :=
  let mode := BPF_MODE (code f) in
  if mode =? BPF_IMM then Some (ILdImm r (k f))
  else if mode =? BPF_LEN then Some (ILdLen r)
  else if mode =? BPF_MEM then Some (ILdMem r (k f))
  else if mode =? BPF_ABS then Some (ILdAbs r (decode_width (code f)) (k f))
  else if mode =? BPF_IND then Some (ILdInd r (decode_width (code f)) (k f))
  else if (mode =? BPF_MSH) && match r with RX => true | RA => false end then Some (ILdMsh (k f))
  else None.
Definition decode_aluop (op : Z) : option aluop :=
  if op =? BPF_ADD then Some OpAdd else if op =? BPF_SUB then Some OpSub
  else if op =? BPF_MUL then Some OpMul else if op =? BPF_DIV then Some OpDiv
  else if op =? BPF_MOD then Some OpMod else if op =? BPF_OR then Some OpOr
  else if op =? BPF_AND then Some OpAnd else if op =? BPF_LSH then Some OpLsh
  else if op =? BPF_RSH then Some OpRsh else if op =? BPF_XOR then Some OpXor
  else if op =? BPF_NEG then Some OpNeg else None.
Definition decode_cond (op : Z) : option cond :=
  if op =? BPF_JEQ then Some CEq else if op =? BPF_JGT then Some CGt
  else if op =? BPF_JGE then Some CGe else if op =? BPF_JSET then Some CSet else None.
Definition decode (f : sock_filter_insn) : option instr :=
  let c := code f in
  let class := BPF_CLASS c in
  if class =? BPF_LD then decode_ld RA f
  else if class =? BPF_LDX then decode_ld RX f
  else if class =? BPF_ST then Some (ISt RA (k f))
  else if class =? BPF_STX then Some (ISt RX (k f))
  else if class =? BPF_ALU then
    (fun op => IAlu op (decode_operand f)) <$> decode_aluop (BPF_OP c)
  else if class =? BPF_JMP then
    if BPF_OP c =? BPF_JA then Some (IJa (k f))
    else (fun cn => IJmp cn (decode_operand f) (jt f) (jf f)) <$> decode_cond (BPF_OP c)
  else if class =? BPF_RET then Some (IRet (if BPF_RVAL c =? BPF_A then None else Some (k f)))
  else if BPF_MISCOP c =? BPF_TAX then Some ITax else Some ITxa.

Definition be_value (l : list Z) : Z := fold_left (fun acc b => acc * 256 + b) l 0.
Definition width_bytes (w : width) : nat := match w with W4 => 4 | W2 => 2 | W1 => 1 end.

(** [v] in [n] bytes, most significant first: what [htonl] leaves in memory. *)
Fixpoint be_bytes (n : nat) (v : Z) : list Z :=
  match n with O => [] | S n' => be_bytes n' (v / 256) ++ [v mod 256] end.

(** The big-endian number at [off], when the packet holds all its bytes. *)
Definition fetch (pkt : list Z) (w : width) (off : Z) : option Z :=
  if off + Z.of_nat (width_bytes w) <=? Z.of_nat (length pkt)
  then Some (be_value (take (width_bytes w) (drop (Z.to_nat off) pkt)))
  else None.

Definition ref_alu (op : aluop) (a b : Z) : option Z :=
  match op with
  | OpAdd => Some ((a + b) mod U32_MOD)
  | OpSub => Some ((a - b) mod U32_MOD)
  | OpMul => Some ((a * b) mod U32_MOD)
  | OpDiv => if b =? 0 then None else Some (a / b)
  | OpMod => if b =? 0 then None else Some (a mod b)
  | OpOr => Some (Z.lor a b)
  | OpAnd => Some (Z.land a b)
  | OpLsh => Some ((a * 2 ^ b) mod U32_MOD)
  | OpRsh => Some (a / 2 ^ b)
  | OpXor => Some (Z.lxor a b)
  | OpNeg => Some ((- a) mod U32_MOD)
  end.
Definition ref_cond (c : cond) (a b : Z) : bool :=
  match c with
  | CEq => a =? b | CGt => b <? a | CGe => b <=? a | CSet => negb (Z.land a b =? 0)
  end.

Definition get_reg (r : reg) (s : vm) : Z := match r with RA => A s | RX => X s end.
Definition set_reg (r : reg) (v : Z) (s : vm) : vm :=
  match r with RA => set_A s v | RX => set_X s v end.
Definition get_op (o : operand) (s : vm) : Z := match o with OK k => k | OX => X s end.

Inductive ref_result := RNext (skip : Z) (s : vm) | RRet (v : Z).

Definition ref_load (r : reg) (s : vm) (v : option Z) : ref_result :=
  match v with Some v => RNext 0 (set_reg r v s) | None => RRet 0 end.

Definition ref_step (pkt : list Z) (i : instr) (s : vm) : ref_result :=
  match i with
  | ILdImm r k => RNext 0 (set_reg r k s)
  | ILdLen r => RNext 0 (set_reg r (Z.of_nat (length pkt)) s)
  | ILdMem r k => RNext 0 (set_reg r (mem s !!! Z.to_nat k) s)
  | ILdAbs r w k => ref_load r s (fetch pkt w k)
  | ILdInd r w k => ref_load r s (fetch pkt w ((X s + k) mod U32_MOD))
  | ILdMsh k => ref_load RX s ((fun v => 4 * (v mod 16)) <$> fetch pkt W1 k)
  | ISt r k => RNext 0 (VM (A s) (X s) (<[Z.to_nat k := get_reg r s]> (mem s)))
  | IAlu op o =>
      match ref_alu op (A s) (get_op o s) with
      | Some v => RNext 0 (set_A s v)
      | None => RRet 0
      end
  | IJa k => RNext k s
  | IJmp c o jt jf => RNext (if ref_cond c (A s) (get_op o s) then jt else jf) s
  | IRet o => RRet (match o with Some k => k | None => A s end)
  | ITax => RNext 0 (set_X s (A s))
  | ITxa => RNext 0 (set_A s (X s))
  end.

(** Run the instructions that remain; [None] is running out of them. *)
Fixpoint ref_run (fuel : nat) (pkt : list Z) (p : list instr) (s : vm) : option Z :=
  match fuel, p with
  | S fuel', i :: p' =>
      match ref_step pkt i s with
      | RNext skip s' => ref_run fuel' pkt (drop (Z.to_nat skip) p') s'
      | RRet v => Some v
      end
  | _, _ => None
  end.

(** ** Well-formedness *)
Definition insn_ok (f : sock_filter_insn) : Prop :=
  in_range U16_MOD (code f) /\ in_range U8_MOD (jt f) /\ in_range U8_MOD (jf f)
  /\ in_range U32_MOD (k f).
Definition vm_ok (s : vm) : Prop :=
  in_range U32_MOD (A s) /\ in_range U32_MOD (X s)
  /\ length (mem s) = 16%nat /\ Forall (in_range U32_MOD) (mem s).
(** A datagram: bytes, with a length a [u32] can hold. *)
Definition packet_ok (data : list Z) : Prop :=
  Forall (in_range U8_MOD) data /\ Z.of_nat (length data) < U32_MOD.

(** ** Packet loads *)

Lemma shl_lor_step x b s t :
  0 <= b < 256 -> 0 <= s -> t = s + 8 ->
  Z.lor (Z.shiftl x t) (Z.shiftl b s) = Z.shiftl (x * 256 + b) s.
Proof.
  intros Hb Hs ->. change 256 with (2 ^ 8). rewrite <- (lor_add x b 8) by lia.
  rewrite Z.shiftl_lor, Z.shiftl_shiftl by lia. f_equal. f_equal. lia.
Qed.

Lemma byte_at_drop data off i :
  0 <= off -> byte_at data (off + Z.of_nat i) = drop (Z.to_nat off) data !! i.
Proof. intros. unfold byte_at. rewrite lookup_drop. f_equal. lia. Qed.

(** The bytes at an offset, when [n] of them are there. *)
Lemma drop_bytes data off n :
  packet_ok data -> 0 <= off -> off + Z.of_nat n <= Z.of_nat (length data) ->
  (n <= length (drop (Z.to_nat off) data))%nat
  /\ Forall (in_range U8_MOD) (drop (Z.to_nat off) data).
Proof.
  intros [Hb _] H0 Hn. split; [rewrite length_drop; lia|]. by apply Forall_drop.
Qed.

Lemma bpf_load_fetch data off size :
  packet_ok data -> in_range U32_MOD off ->
  bpf_load data (Z.of_nat (length data)) off size =
  match fetch data (width_of_size size) off with Some v => LoadOk v | None => LoadDrop end.
Proof.
  intros Hp [Ho1 Ho2]. pose proof (proj2 Hp) as Hlen.
  unfold bpf_load, width_of_size, fetch.
  destruct (size =? BPF_W); [|destruct (size =? BPF_H)]; cbn [width_bytes].
  - change (Z.of_nat 4) with 4. rewrite (wrap_check _ 4) by lia. destruct (Z.leb_spec (off + 4) (Z.of_nat (length data))); [|done].
    destruct (drop_bytes data off 4 Hp ltac:(lia) ltac:(lia)) as [Hl Hf]. simpl.
    replace (byte_at data off) with (byte_at data (off + Z.of_nat 0)) by (f_equal; lia).
    rewrite (byte_at_drop _ _ 0), (byte_at_drop _ _ 1), (byte_at_drop _ _ 2), (byte_at_drop _ _ 3) by lia.
    destruct (drop (Z.to_nat off) data) as [|a [|b [|c [|d r]]]]; simpl in *; try lia.
    rewrite !Forall_cons_iff in Hf. destruct Hf as (Ha & Hb & Hc & Hd & _). f_equal.
    unfold in_range in *. unfold be_value; simpl fold_left.
    rewrite !u32_small by (rewrite Z.shiftl_mul_pow2 by lia; lia).
    rewrite (shl_lor_step a b 16 24), (shl_lor_step (a * 256 + b) c 8 16) by lia.
    rewrite (lor_add _ d 8) by lia. lia.
  - change (Z.of_nat 2) with 2. rewrite (wrap_check _ 2) by lia. destruct (Z.leb_spec (off + 2) (Z.of_nat (length data))); [|done].
    destruct (drop_bytes data off 2 Hp ltac:(lia) ltac:(lia)) as [Hl Hf]. simpl.
    replace (byte_at data off) with (byte_at data (off + Z.of_nat 0)) by (f_equal; lia).
    rewrite (byte_at_drop _ _ 0), (byte_at_drop _ _ 1) by lia.
    destruct (drop (Z.to_nat off) data) as [|a [|b r]]; simpl in *; try lia.
    rewrite !Forall_cons_iff in Hf. destruct Hf as (Ha & Hb & _). f_equal.
    unfold in_range in *. unfold be_value; simpl fold_left.
    rewrite u32_small by (rewrite Z.shiftl_mul_pow2 by lia; lia).
    rewrite (lor_add _ b 8) by lia. lia.
  - change (Z.of_nat 1) with 1. destruct (Z.leb_spec (Z.of_nat (length data)) off), (Z.leb_spec (off + 1) (Z.of_nat (length data)));
      try lia; [done|].
    destruct (drop_bytes data off 1 Hp ltac:(lia) ltac:(lia)) as [Hl Hf]. simpl.
    replace (byte_at data off) with (byte_at data (off + Z.of_nat 0)) by (f_equal; lia).
    rewrite (byte_at_drop _ _ 0) by lia.
    by destruct (drop (Z.to_nat off) data) as [|a r]; simpl in *; [lia|].
Qed.

(** ** Arithmetic *)

Lemma neg_wrap a : u32 (- i32 a) = (- a) mod U32_MOD.
Proof.
  unfold u32, i32. Z.to_euclidean_division_equations. lia.
Qed.

Lemma shl_wrap a s : 0 <= s ->
  (if 32 <=? s then 0 else u32 (Z.shiftl a s)) = (a * 2 ^ s) mod U32_MOD.
Proof.
  intros Hs. rewrite Z.shiftl_mul_pow2 by done. destruct (Z.leb_spec 32 s); [|done].
  replace s with (s - 32 + 32) by lia. rewrite Z.pow_add_r by lia.
  change (2 ^ 32) with U32_MOD. by rewrite Z.mul_assoc, Z.mod_mul.
Qed.

Lemma shr_wrap a s : in_range U32_MOD a -> 0 <= s ->
  (if 32 <=? s then 0 else Z.shiftr a s) = a / 2 ^ s.
Proof.
  intros Ha Hs. rewrite Z.shiftr_div_pow2 by done. destruct (Z.leb_spec 32 s); [|done].
  symmetry. apply Z.div_small. unfold in_range in Ha.
  pose proof (Z.pow_le_mono_r 2 32 s). lia.
Qed.

Lemma msh_value v : u32 (Z.shiftl (Z.land v 15) 2) = 4 * (v mod 16).
Proof.
  change 15 with (Z.ones 4). rewrite Z.land_ones, Z.shiftl_mul_pow2 by lia.
  change (2 ^ 4) with 16. change (2 ^ 2) with 4.
  pose proof (Z.mod_pos_bound v 16 ltac:(lia)). rewrite u32_small by lia. lia.
Qed.

Lemma alu_ref op o a b :
  decode_aluop op = Some o -> in_range U32_MOD a -> in_range U32_MOD b ->
  alu op a b = ref_alu o a b.
Proof.
  unfold decode_aluop, alu. intros Hd Ha Hb.
  repeat (break_hyp Hd; [injection Hd as <-; simpl; first
    [done | by rewrite neg_wrap | by rewrite shl_wrap by (destruct Hb; lia)
    | by rewrite shr_wrap by (done || (destruct Hb; lia)) | bools; simplify_eq; done]|]).
  done.
Qed.

Lemma ref_alu_range o a b v :
  in_range U32_MOD a -> in_range U32_MOD b -> ref_alu o a b = Some v -> in_range U32_MOD v.
Proof.
  unfold in_range. intros Ha Hb H. pose proof (Z.mod_pos_bound (- a) U32_MOD ltac:(lia)).
  destruct o; simpl in H; try (break_hyp H; [done|]); injection H as <-; bools;
    try (apply Z.mod_pos_bound; lia).
  - split; [apply Z.div_pos; lia|]. apply Z.le_lt_trans with a; [|lia]. apply Z.div_le_upper_bound; nia.
  - pose proof (Z.mod_pos_bound a b ltac:(lia)). lia.
  - by apply (lor_bound 32).
  - by apply (land_bound 32).
  - pose proof (Z.pow_pos_nonneg 2 b ltac:(lia) ltac:(lia)).
    split; [apply Z.div_pos; lia|]. apply Z.le_lt_trans with a; [|lia]. apply Z.div_le_upper_bound; nia.
  - by apply (lxor_bound 32).
Qed.

Lemma fetch_range data w off v :
  packet_ok data -> 0 <= off -> fetch data w off = Some v -> in_range U32_MOD v.
Proof.
  intros Hp Ho. unfold fetch. intros H. break_hyp H; [|done]. injection H as <-. bools.
  destruct (drop_bytes data off _ Hp Ho Heqb) as [Hl Hf].
  destruct (drop (Z.to_nat off) data) as [|a [|b [|c [|d r]]]]; destruct w; simpl in *; try lia;
    rewrite ?Forall_cons_iff in Hf; destruct_and?; unfold in_range, be_value in *; simpl; lia.
Qed.

(** ** One instruction *)

Lemma set_reg_ok r v s : vm_ok s -> in_range U32_MOD v -> vm_ok (set_reg r v s).
Proof. intros (? & ? & ? & ?) ?. by destruct r; split_and!. Qed.

Lemma get_op_ok f s : insn_ok f -> vm_ok s ->
  (if BPF_SRC (code f) =? BPF_X then X s else k f) = get_op (decode_operand f) s
  /\ in_range U32_MOD (get_op (decode_operand f) s).
Proof.
  intros (? & ? & ? & ?) (? & ? & ? & ?). unfold decode_operand.
  by destruct (BPF_SRC (code f) =? BPF_X).
Qed.

Lemma mem_get_ok s i : vm_ok s -> 0 <= i < BPF_MEMWORDS ->
  mem_get s i = Some (mem s !!! Z.to_nat i) /\ in_range U32_MOD (mem s !!! Z.to_nat i).
Proof.
  unfold BPF_MEMWORDS, mem_get. intros (_ & _ & Hl & Hf) Hi.
  destruct (lookup_lt_is_Some_2 (mem s) (Z.to_nat i)) as [v Hv]; [lia|].
  rewrite Hv, (list_lookup_total_correct _ _ _ Hv). split; [done|].
  by eapply Forall_lookup_1.
Qed.

Lemma mem_set_ok s pc i r : vm_ok s -> 0 <= i < BPF_MEMWORDS ->
  mem_set s pc i (get_reg r s)
    = Next (pc + 1) (VM (A s) (X s) (<[Z.to_nat i := get_reg r s]> (mem s)))
  /\ vm_ok (VM (A s) (X s) (<[Z.to_nat i := get_reg r s]> (mem s))).
Proof.
  unfold BPF_MEMWORDS, mem_set. intros (Ha & Hx & Hl & Hf) Hi.
  rewrite bool_decide_eq_true_2 by lia. split; [done|].
  split_and!; simpl; [done..| |]; [by rewrite length_insert|].
  apply Forall_insert; [done|]. by destruct r.
Qed.

(** What a faithful execution of one verified instruction is: the reference
    step, with the [u32] program counter advanced without wrap-around and still
    inside the program. *)
Definition exec_agrees (data : list Z) (n pc : Z) (f : sock_filter_insn) (s : vm) : Prop :=
  exists i, decode f = Some i /\
  match ref_step data i s with
  | RNext skip s' =>
      exec_insn data (Z.of_nat (length data)) pc f s = Next (pc + 1 + skip) s'
      /\ vm_ok s' /\ 0 <= skip /\ (skip = 0 \/ pc + 1 + skip < n)
      /\ BPF_CLASS (code f) <> BPF_RET
  | RRet v => exec_insn data (Z.of_nat (length data)) pc f s = Ret v /\ in_range U32_MOD v
  end.

Lemma load_into_agrees data r off size s pc :
  packet_ok data -> vm_ok s -> in_range U32_MOD off ->
  match ref_load r s (fetch data (width_of_size size) off) with
  | RNext skip s' =>
      load_into s pc (fun s v => set_reg r v s) (bpf_load data (Z.of_nat (length data)) off size)
        = Next (pc + 1 + skip) s' /\ vm_ok s' /\ skip = 0
  | RRet v =>
      load_into s pc (fun s v => set_reg r v s) (bpf_load data (Z.of_nat (length data)) off size)
        = Ret v /\ v = 0
  end.
Proof.
  intros Hp Hs Ho. rewrite bpf_load_fetch by done.
  destruct (fetch data _ off) as [v|] eqn:E; simpl; [|done].
  apply fetch_range in E; [|done|by destruct Ho].
  split_and!; [f_equal; lia|by apply set_reg_ok|done].
Qed.

Section verified_insn.
Context (data : list Z) (n pc : Z) (f : sock_filter_insn) (s : vm).
Context (Hp : packet_ok data) (Hf : insn_ok f) (Hs : vm_ok s).
Context (Hn : n <= BPF_MAXINSNS) (Hpc : 0 <= pc < n).
Context (Hc : check_insn n pc f = true).

Ltac plain_next := split_and!; [f_equal; lia|first [done|by apply (set_reg_ok RA)|by apply (set_reg_ok RX)]|lia|by left|done].

(** The load of the register [r] in the modes both load classes share. *)
Lemma ld_fetch_agrees r off :
  in_range U32_MOD off ->
  match ref_load r s (fetch data (decode_width (code f)) off) with
  | RNext skip s' =>
      load_into s pc (fun s v => set_reg r v s)
        (bpf_load data (Z.of_nat (length data)) off (BPF_SIZE (code f))) = Next (pc + 1 + skip) s'
      /\ vm_ok s' /\ 0 <= skip /\ (skip = 0 \/ pc + 1 + skip < n)
  | RRet v =>
      load_into s pc (fun s v => set_reg r v s)
        (bpf_load data (Z.of_nat (length data)) off (BPF_SIZE (code f))) = Ret v
      /\ in_range U32_MOD v
  end.
Proof using Hp Hs.
  intros Ho. pose proof (load_into_agrees data r off (BPF_SIZE (code f)) s pc Hp Hs Ho) as H.
  unfold decode_width. destruct (ref_load _ _ _).
  - destruct H as (H & ? & ->). split_and!; [done..|lia|by left].
  - destruct H as [H ->]. by split.
Qed.

Lemma check_ld_inv :
  BPF_CLASS (code f) = BPF_LD \/ BPF_CLASS (code f) = BPF_LDX ->
  BPF_MODE (code f) = BPF_IMM \/ BPF_MODE (code f) = BPF_LEN
  \/ (BPF_MODE (code f) = BPF_MEM /\ k f < BPF_MEMWORDS)
  \/ BPF_MODE (code f) = BPF_ABS \/ BPF_MODE (code f) = BPF_IND
  \/ (BPF_MODE (code f) = BPF_MSH /\ BPF_CLASS (code f) = BPF_LDX).
Proof using Hc.
  unfold check_insn in Hc. clear -Hc. intros [E|E]; rewrite E in *; simpl in Hc;
    repeat break_hyp Hc; try done; bools; auto 10;
    repeat match goal with H : orb _ _ = true |- _ => apply orb_true_iff in H as [H|H] end;
    bools; auto 10.
Qed.

Lemma exec_ld_agrees r :
  BPF_CLASS (code f) = (match r with RA => BPF_LD | RX => BPF_LDX end) ->
  exec_agrees data n pc f s.
Proof using All.
  intros E. destruct Hf as (_ & _ & _ & Hk). pose proof (proj2 Hp) as Hlen.
  pose proof (ld_fetch_agrees r (k f) Hk) as Habs.
  pose proof (ld_fetch_agrees r (u32 (X s + k f)) (u32_range _)) as Hind.
  assert (Hcl : BPF_CLASS (code f) <> BPF_RET) by (rewrite E; by destruct r).
  destruct check_ld_inv as [M|[M|[[M Hm]|[M|[M|[M E']]]]]]; [destruct r; auto|..];
    unfold exec_agrees, exec_insn, decode, decode_ld; rewrite E, M.
  - destruct r; (eexists; split; [done|]); simpl; plain_next.
  - assert (in_range U32_MOD (Z.of_nat (length data))) by (split; lia).
    destruct r; (eexists; split; [done|]); simpl; plain_next.
  - destruct (mem_get_ok s (k f) Hs) as [Hg Hr]; [destruct Hk; lia|].
    destruct r; (eexists; split; [done|]); simpl; rewrite Hg; plain_next.
  - destruct r; (eexists; split; [done|]); simpl; simpl in Habs;
      (destruct (ref_load _ _ _); [destruct Habs as (? & ? & ? & ?); by split_and!|done]).
  - clear Habs. destruct r; (eexists; split; [done|]); simpl; simpl in Hind;
      unfold u32 in Hind |- *; (destruct (ref_load _ _ _); [destruct Hind as (? & ? & ? & ?); by split_and!|done]).
  - destruct r; [by rewrite E in E'|]. eexists; split; [done|]. simpl.
    rewrite bpf_load_fetch by done. unfold width_of_size; simpl.
    destruct (fetch data W1 (k f)) as [v|]; simpl; [|done].
    rewrite msh_value. pose proof (Z.mod_pos_bound v 16 ltac:(lia)).
    split_and!; [f_equal; lia|apply (set_reg_ok RX); [done|split; lia]|lia|by left|done].
Qed.

Lemma exec_st_agrees r :
  BPF_CLASS (code f) = (match r with RA => BPF_ST | RX => BPF_STX end) ->
  exec_agrees data n pc f s.
Proof using All.
  intros E. destruct Hf as (_ & _ & _ & Hk).
  assert (Hm : k f < BPF_MEMWORDS).
  { unfold check_insn in Hc. rewrite E in Hc. destruct r; simpl in Hc; break_hyp Hc; bools; done. }
  destruct (mem_set_ok s pc (k f) r Hs) as [Hg Hr]; [destruct Hk; lia|].
  unfold exec_agrees, exec_insn, decode. rewrite E.
  destruct r; (eexists; split; [done|]); simpl in *; rewrite Hg; plain_next.
Qed.

Lemma exec_alu_agrees : BPF_CLASS (code f) = BPF_ALU -> exec_agrees data n pc f s.
Proof using All.
  intros E. destruct (get_op_ok f s Hf Hs) as [Ho Hr].
  assert (Hd : is_Some (decode_aluop (BPF_OP (code f)))).
  { unfold check_insn in Hc. rewrite E in Hc. simpl in Hc. unfold decode_aluop.
    repeat (break_goal; [eauto|]). by cbn in Hc. }
  destruct Hd as [o Hd]. unfold exec_agrees, exec_insn, decode. rewrite E. simpl. rewrite Hd, Ho.
  eexists; split; [done|]. simpl. rewrite (alu_ref _ o) by (done || apply Hs).
  destruct (ref_alu o (A s) _) as [v|] eqn:Ev; simpl; [|done].
  apply ref_alu_range in Ev; [|apply Hs|done].
  split_and!; [f_equal; lia|by apply (set_reg_ok RA)|lia|by left|done].
Qed.

Lemma exec_jmp_agrees : BPF_CLASS (code f) = BPF_JMP -> exec_agrees data n pc f s.
Proof using All.
  intros E. destruct (get_op_ok f s Hf Hs) as [Ho Hr].
  destruct Hf as (_ & [? ?] & [? ?] & [? ?]). unfold BPF_MAXINSNS in Hn.
  unfold check_insn in Hc. rewrite E in Hc. simpl in Hc. rewrite (u32_small (n - pc - 1)) in Hc by lia.
  unfold exec_agrees, exec_insn, decode. rewrite E. simpl.
  destruct (BPF_OP (code f) =? BPF_JA) eqn:EJ.
  - break_hyp Hc; [done|]. bools. eexists; split; [done|]. simpl.
    rewrite (u32_small (pc + k f)), u32_small by lia.
    split_and!; [f_equal; lia|done|done|right; lia|done].
  - assert (Hd : is_Some (decode_cond (BPF_OP (code f)))).
    { unfold decode_cond. repeat (break_goal; [eauto|]). by cbn in Hc. }
    assert (Hj : jt f < n - pc - 1 /\ jf f < n - pc - 1).
    { break_hyp Hc; [|done]. break_hyp Hc; [done|]. bools. lia. }
    destruct Hd as [c Hd]. rewrite Hd, Ho. eexists; split; [done|]. simpl.
    assert (Hj' : jump_taken (BPF_OP (code f)) (A s) (get_op (decode_operand f) s)
      = Some (ref_cond c (A s) (get_op (decode_operand f) s))).
    { unfold decode_cond, jump_taken in *.
      repeat (break_hyp Hd; [by injection Hd as <-|]). done. }
    rewrite Hj'. destruct (ref_cond _ _ _); rewrite (u32_small (pc + _)), u32_small by lia;
      (split_and!; [f_equal; lia|done|done|right; lia|done]).
Qed.

(** Every verified instruction executes as the reference semantics says. *)
Lemma exec_insn_agrees : exec_agrees data n pc f s.
Proof using All.
  pose proof (Z.mod_pos_bound (code f) 8 ltac:(lia)) as Hb.
  assert (Hcl : BPF_CLASS (code f) = code f mod 8) by apply (Z.land_ones _ 3 ltac:(lia)).
  assert (BPF_CLASS (code f) = BPF_LD \/ BPF_CLASS (code f) = BPF_LDX \/
    BPF_CLASS (code f) = BPF_ST \/ BPF_CLASS (code f) = BPF_STX \/ BPF_CLASS (code f) = BPF_ALU \/
    BPF_CLASS (code f) = BPF_JMP \/ BPF_CLASS (code f) = BPF_RET \/ BPF_CLASS (code f) = BPF_MISC)
    as [E|[E|[E|[E|[E|[E|[E|E]]]]]]] by (unfold BPF_LD, BPF_LDX, BPF_ST, BPF_STX, BPF_ALU, BPF_JMP,
      BPF_RET, BPF_MISC; lia).
  - by apply (exec_ld_agrees RA).
  - by apply (exec_ld_agrees RX).
  - by apply (exec_st_agrees RA).
  - by apply (exec_st_agrees RX).
  - by apply exec_alu_agrees.
  - by apply exec_jmp_agrees.
  - unfold exec_agrees, exec_insn, decode. rewrite E. eexists; split; [done|]. simpl.
    destruct (BPF_RVAL (code f) =? BPF_A); (split; [done|]); [apply Hs|apply Hf].
  - unfold exec_agrees, exec_insn, decode. rewrite E. simpl.
    destruct (BPF_MISCOP (code f) =? BPF_TAX); (eexists; split; [done|]); simpl;
      (split_and!; [f_equal; lia|apply (set_reg_ok RX) || apply (set_reg_ok RA)|lia|by left|done]);
      try done; apply Hs.
Qed.

End verified_insn.

(** ** Whole programs *)

Definition program_ok (prog : list sock_filter_insn) : Prop :=
  Forall insn_ok prog /\ sock_filter_check prog = true.

Lemma check_from_lookup len pc fs i f :
  check_from len pc fs = true -> fs !! i = Some f -> check_insn len (pc + Z.of_nat i) f = true.
Proof.
  revert pc i; induction fs as [|g fs IH]; intros pc [|i] Hc Hi; simpl in *; try done;
    (break_hyp Hc; [|done]).
  - injection Hi as <-. by rewrite Z.add_0_r.
  - rewrite <- (IH (pc + 1) i) by done. f_equal. lia.
Qed.

Lemma program_inv prog :
  program_ok prog ->
  let n := Z.of_nat (length prog) in
  0 < n <= BPF_MAXINSNS
  /\ (forall i f, prog !! i = Some f -> insn_ok f /\ check_insn n (Z.of_nat i) f = true)
  /\ exists f, prog !! (length prog - 1)%nat = Some f /\ BPF_CLASS (code f) = BPF_RET.
Proof.
  intros [Hf Hc] n. unfold sock_filter_check in Hc. fold n in Hc.
  break_hyp Hc; [done|]. break_hyp Hc; [|done]. bools.
  destruct (prog !! Z.to_nat (n - 1)) as [f|] eqn:El; [|done]. bools.
  split; [unfold n in *; lia|]. split.
  - intros i g Hi. split; [by eapply Forall_lookup_1|].
    by eapply (check_from_lookup n 0) in Heqb0.
  - exists f. split; [|done]. rewrite <- El. f_equal. unfold n. lia.
Qed.

Lemma vm_init_ok : vm_ok vm_init.
Proof. split_and!; [done..|]. by apply Forall_replicate. Qed.

Lemma program_decodes prog data :
  program_ok prog -> packet_ok data -> is_Some (mapM decode prog).
Proof.
  intros Hp Hd. destruct (program_inv _ Hp) as (Hn & Hi & _).
  apply mapM_is_Some, Forall_lookup. intros i f Hf. destruct (Hi _ _ Hf) as [Hok Hc].
  destruct (exec_insn_agrees data (Z.of_nat (length prog)) (Z.of_nat i) f vm_init) as (x & Hx & _);
    [done|done|apply vm_init_ok|lia| |done|by eexists].
  apply lookup_lt_Some in Hf. lia.
Qed.

Section whole_program.
Context (prog : list sock_filter_insn) (data : list Z) (p : list instr).
Context (Hprog : program_ok prog) (Hdata : packet_ok data) (Hp : mapM decode prog = Some p).

Lemma decoded_lookup i f : prog !! i = Some f -> exists x, decode f = Some x /\ p !! i = Some x.
Proof using Hp.
  apply mapM_Some_1 in Hp. intros Hf.
  destruct (Forall2_lookup_l _ _ _ _ _ Hp Hf) as (x & ? & ?). eauto.
Qed.

(** The interpreter loop and the reference run end together, with the same
    value, whatever the starting point. *)
Lemma run_loop_ref fuel fuel' pc s :
  0 <= pc < Z.of_nat (length prog) -> vm_ok s ->
  Z.of_nat (length prog) - pc <= Z.of_nat fuel ->
  Z.of_nat (length prog) - pc <= Z.of_nat fuel' ->
  exists v, run_loop fuel prog data (Z.of_nat (length data)) pc s = Some (Returned v)
    /\ ref_run fuel' data (drop (Z.to_nat pc) p) s = Some v /\ in_range U32_MOD v.
Proof using All.
  destruct (program_inv _ Hprog) as (Hn & Hi & l & Hl & Hret).
  revert fuel' pc s; induction fuel as [|fuel IH]; intros fuel' pc s Hpc Hs Hfu Hfu'; [lia|].
  destruct fuel' as [|fuel']; [lia|]. cbn [run_loop].
  rewrite (proj2 (Z.ltb_lt _ _)) by lia.
  destruct (lookup_lt_is_Some_2 prog (Z.to_nat pc)) as [f Hf]; [lia|]. rewrite Hf.
  destruct (Hi _ _ Hf) as [Hok Hc]. rewrite Z2Nat.id in Hc by lia.
  destruct (exec_insn_agrees data _ pc f s Hdata Hok Hs (proj2 Hn) ltac:(lia) Hc) as (x & Hx & Hst).
  destruct (decoded_lookup _ _ Hf) as (x' & Hx' & Hpx). simplify_eq.
  rewrite (drop_S _ x) by done. cbn [ref_run].
  destruct (ref_step data x s) as [skip s'|v].
  - destruct Hst as (-> & Hs' & Hskip & Hnext & Hcl).
    assert (Hne : pc <> Z.of_nat (length prog) - 1).
    { intros Heq. apply Hcl. replace (Z.to_nat pc) with (length prog - 1)%nat in Hf by lia. congruence. }
    rewrite drop_drop.
    replace (S (Z.to_nat pc) + Z.to_nat skip)%nat with (Z.to_nat (pc + 1 + skip)) by lia.
    apply IH; [lia|done|lia|lia].
  - destruct Hst as [-> Hv]. eauto.
Qed.
End whole_program.

(** The packet argument of [sock_filter_run]: absent, or [len] bytes. *)
Definition packet_arg (d : option (list Z)) (len : Z) : Prop :=
  match d with Some l => packet_ok l /\ len = Z.of_nat (length l) | None => True end.
Definition packet_of (d : option (list Z)) : list Z := match d with Some l => l | None => [] end.

Lemma sock_filter_run_ref prog d len :
  program_ok prog -> packet_arg d len ->
  exists p v, mapM decode prog = Some p
    /\ sock_filter_run (Some prog) d len = Some (Returned v)
    /\ ref_run (length p) (packet_of d) p vm_init = Some v /\ in_range U32_MOD v.
Proof.
  intros Hp Hd.
  assert (Hpk : packet_ok (packet_of d)).
  { destruct d; [apply Hd|]. split; [constructor|simpl; lia]. }
  destruct (program_decodes prog _ Hp Hpk) as [p Hdec].
  destruct (program_inv _ Hp) as (Hn & _).
  assert (Hlen : length p = length prog) by (apply length_mapM in Hdec; lia).
  destruct (run_loop_ref prog (packet_of d) p Hp Hpk Hdec (S (length prog)) (length p) 0 vm_init)
    as (v & Hrun & Href & Hv); [lia|apply vm_init_ok|lia|lia|].
  exists p, v. split_and!; [done| |by rewrite drop_0 in Href|apply Hv..].
  unfold sock_filter_run. destruct d as [l|]; simpl in *; [destruct Hd as [_ ->]|]; done.
Qed.

(** ** Properties *)

(** C1 (safety and termination).  A program the verifier accepts, run over any
    packet (or over none), executes a return instruction within its fuel: it
    never reads an instruction, a scratch word or a packet byte outside its
    array, never runs past its last instruction (the final [return 0] of the C
    code is unreachable), and its result is a [u32]. *)
Theorem verified_filter_is_safe prog d len :
  Forall insn_ok prog -> sock_filter_check prog = true -> packet_arg d len ->
  exists v, sock_filter_run (Some prog) d len = Some (Returned v) /\ in_range U32_MOD v.
Proof.
  intros Hf Hc Hd. destruct (sock_filter_run_ref prog d len (conj Hf Hc) Hd) as (p & v & ? & ? & ? & ?).
  eauto.
Qed.

(** C2 (equivalence).  The interpreter computes exactly what the reference
    semantics of the decoded program computes, on every packet: big-endian
    loads, shifts of any amount, jumps, divisions by zero and truncated packets
    included. *)
Theorem filter_matches_reference prog d len :
  Forall insn_ok prog -> sock_filter_check prog = true -> packet_arg d len ->
  exists p v, mapM decode prog = Some p
    /\ ref_run (length p) (packet_of d) p vm_init = Some v
    /\ sock_filter_run (Some prog) d len = Some (Returned v).
Proof.
  intros Hf Hc Hd. destruct (sock_filter_run_ref prog d len (conj Hf Hc) Hd) as (p & v & ? & ? & ? & ?).
  eauto.
Qed.

Lemma be_value_app l b : be_value (l ++ [b]) = be_value l * 256 + b.
Proof. unfold be_value. by rewrite fold_left_app. Qed.

Lemma be_bytes_length n v : length (be_bytes n v) = n.
Proof. revert v; induction n; intros v; simpl; [done|]. rewrite length_app, IHn. simpl. lia. Qed.

Lemma be_value_bytes n v : be_value (be_bytes n v) = v mod 256 ^ Z.of_nat n.
Proof.
  revert v; induction n as [|n IH]; intros v; simpl be_bytes; [by rewrite Z.mod_1_r|].
  rewrite be_value_app, IH, Nat2Z.inj_succ, Z.pow_succ_r by lia.
  rewrite (Z.rem_mul_r v 256) by (try apply Z.pow_nonzero; lia). lia.
Qed.

Lemma fetch_be_bytes w pre post v :
  fetch (pre ++ be_bytes (width_bytes w) v ++ post) w (Z.of_nat (length pre))
    = Some (v mod 256 ^ Z.of_nat (width_bytes w)).
Proof.
  unfold fetch. rewrite !length_app, be_bytes_length.
  rewrite (proj2 (Z.leb_le _ _)) by lia. rewrite Nat2Z.id, drop_app_length, take_app_length' by
    (by rewrite be_bytes_length). by rewrite be_value_bytes.
Qed.

(** C3 (round trip).  A value stored in network byte order in a packet is what a
    load at its offset returns, and a load whose bytes are not all inside the
    packet is dropped, for every [u32] offset: the wrap-around of [off + size]
    never lets a load through. *)
Theorem bpf_load_network_order size w pre post v :
  w = width_of_size size -> packet_ok (pre ++ be_bytes (width_bytes w) v ++ post) ->
  0 <= v < 256 ^ Z.of_nat (width_bytes w) ->
  let data := pre ++ be_bytes (width_bytes w) v ++ post in
  bpf_load data (Z.of_nat (length data)) (Z.of_nat (length pre)) size = LoadOk v
  /\ forall off, in_range U32_MOD off ->
     Z.of_nat (length data) < off + Z.of_nat (width_bytes w) ->
     bpf_load data (Z.of_nat (length data)) off size = LoadDrop.
Proof.
  intros Hw Hp Hv data. split.
  - rewrite bpf_load_fetch; [|done|].
    + unfold data. rewrite <- Hw, fetch_be_bytes, Z.mod_small by done. done.
    + destruct Hp as [_ Hlen]. rewrite length_app in Hlen. split; lia.
  - intros off Ho Hlt. rewrite bpf_load_fetch by done. unfold fetch. rewrite <- Hw.
    by rewrite (proj2 (Z.leb_gt _ _)) by lia.
Qed.

(** ** Witnesses *)

(** [ldh [12]; jeq #0x800, 0, 1; ret #-1; ret #0]: accept IPv4 frames. *)
Definition ipv4_filter : list sock_filter_insn :=
  [Insn 40 0 0 12; Insn 21 0 1 2048; Insn 6 0 0 4294967295; Insn 6 0 0 0].
Definition ipv4_frame : list Z := [0;1;2;3;4;5;6;7;8;9;10;11;8;0;69;0].

Example ipv4_filter_accepts :
  sock_filter_run (Some ipv4_filter) (Some ipv4_frame) 16 = Some (Returned 4294967295)
  /\ sock_filter_run (Some ipv4_filter) (Some (take 13 ipv4_frame)) 13 = Some (Returned 0)
  /\ sock_filter_check [Insn 21 0 1 2048; Insn 6 0 0 0] = false.
Proof. vm_compute. done. Qed.

Lemma verified_filter_is_safe_witness :
  exists v, sock_filter_run (Some ipv4_filter) (Some ipv4_frame) 16 = Some (Returned v)
    /\ in_range U32_MOD v.
Proof.
  apply (verified_filter_is_safe ipv4_filter (Some ipv4_frame) 16).
  - unfold ipv4_filter, insn_ok. forall_lia.
  - reflexivity.
  - split; [|reflexivity]. split; [unfold ipv4_frame; forall_lia|reflexivity].
Defined.

Lemma filter_matches_reference_witness :
  exists p v, mapM decode ipv4_filter = Some p
    /\ ref_run (length p) ipv4_frame p vm_init = Some v
    /\ sock_filter_run (Some ipv4_filter) (Some ipv4_frame) 16 = Some (Returned v).
Proof.
  apply (filter_matches_reference ipv4_filter (Some ipv4_frame) 16).
  - unfold ipv4_filter, insn_ok. forall_lia.
  - reflexivity.
  - split; [|reflexivity]. split; [unfold ipv4_frame; forall_lia|reflexivity].
Defined.

Lemma bpf_load_network_order_witness :
  bpf_load [7; 0; 0; 8; 0; 9] 6 1 BPF_W = LoadOk 2048
  /\ forall off, in_range U32_MOD off -> 6 < off + 4 ->
     bpf_load [7; 0; 0; 8; 0; 9] 6 off BPF_W = LoadDrop.
Proof.
  apply (bpf_load_network_order BPF_W W4 [7] [9] 2048).
  - reflexivity.
  - change ([7] ++ be_bytes (width_bytes W4) 2048 ++ [9]) with [7; 0; 0; 8; 0; 9].
    split; [forall_lia|reflexivity].
  - simpl. lia.
Defined.

End SockFilter.
