(* ===== verification/Seccomp.v ===== *)
(** System call filters ([kernel/sched/seccomp.c]).

    A filter is an object of [RefChain] (an index stands for its address) linked
    to the one installed before it; each task slot has the newest filter of its
    chain and its no_new_privs flag.  The opcodes are those of [SockFilter].
    Reading a freed filter is a fault.  [filter_unref] takes its references one
    at a time with nothing held in between, so one round of its loop is a
    definition of its own; the chain being given up is a value between rounds. *)
From S2P Require Import Prelude RefChain Cred UserNs SockFilter.
Local Open Scope Z_scope.
Local Open Scope kernel_scope.

Module Seccomp.
Import RefChain Cred UserNs SockFilter.

Definition SECCOMP_MAX_INSNS := 4096.
Definition SECCOMP_RET_KILL_PROCESS := 2147483648.
Definition SECCOMP_RET_KILL_THREAD := 0.
Definition SECCOMP_RET_TRAP := 196608.
Definition SECCOMP_RET_ERRNO := 327680.
Definition SECCOMP_RET_TRACE := 2146435072.
Definition SECCOMP_RET_LOG := 2147221504.
Definition SECCOMP_RET_ALLOW := 2147418112.
Definition SECCOMP_RET_ACTION_FULL := 4294901760.
Definition SECCOMP_RET_DATA := 65535.
Definition AUDIT_ARCH_X86_64 := 3221225534.

(** [struct sock_filter] *)
Record sock_filter := Filt { s_code : Z; s_jt : Z; s_jf : Z; s_k : Z }.
Record seccomp_data := mkData { nr : Z; arch : Z; instruction_pointer : Z; args : list Z }.
Fixpoint le_bytes (n : nat) (v : Z) : list Z :=
  match n with O => [] | S n => v mod 256 :: le_bytes n (v / 256) end.
(** The bytes of the structure: 4 + 4 + 8 + 6 * 8. *)
Definition data_bytes (d : seccomp_data) : list Z :=
  le_bytes 4 (nr d) ++ le_bytes 4 (arch d) ++ le_bytes 8 (instruction_pointer d) ++ concat (le_bytes 8 <$> args d).
Definition dlen := 64.

(** ** The interpreter *)

Definition KILL : step_result := Ret SECCOMP_RET_KILL_PROCESS.
(** [memcpy(&v, base + off, 4)] *)
Definition load4 (data : list Z) (off : Z) : option Z :=
  match byte_at data off, byte_at data (off + 1), byte_at data (off + 2), byte_at data (off + 3) with
  | Some a, Some b, Some c, Some d => Some (a + 256 * b + 65536 * c + 16777216 * d)
  | _, _, _, _ => None
  end.
(** As in [alu], the signed negation of [0x80000000] overflows and is wrapped. *)
Definition seccomp_alu (op a src : Z) : option Z :=
  if op =? BPF_ADD then Some (u32 (a + src))
  else if op =? BPF_SUB then Some (u32 (a - src))
  else if op =? BPF_MUL then Some (u32 (a * src))
  else if op =? BPF_DIV then (if src =? 0 then None else Some (a / src))
  else if op =? BPF_MOD then (if src =? 0 then None else Some (a mod src))
  else if op =? BPF_OR then Some (Z.lor a src)
  else if op =? BPF_AND then Some (Z.land a src)
  else if op =? BPF_XOR then Some (Z.lxor a src)
  else if op =? BPF_LSH then Some (u32 (Z.shiftl a (Z.land src 31)))
  else if op =? BPF_RSH then Some (Z.shiftr a (Z.land src 31))
  else if op =? BPF_NEG then Some (u32 (- i32 a))
  else None.
Definition read_mem (s : vm) (pc i : Z) (set : vm -> Z -> vm) : step_result :=
  if BPF_MEMWORDS <=? i then KILL
  else match mem_get s i with Some v => Next (pc + 1) (set s v) | None => Wild end.
Definition exec (data : list Z) (len pc : Z) (f : sock_filter) (s : vm) : step_result :=
  let c := s_code f in
  let class := BPF_CLASS c in
  let mode := BPF_MODE c in
  if class =? BPF_LD then
    if mode =? BPF_ABS then
      if (dlen <? u32 (s_k f + 4)) || (u32 (s_k f + 4) <? s_k f) then KILL
      else match load4 data (s_k f) with Some v => Next (pc + 1) (set_A s v) | None => Wild end
    else if mode =? BPF_IMM then Next (pc + 1) (set_A s (s_k f))
    else if mode =? BPF_MEM then read_mem s pc (s_k f) set_A
    else if mode =? BPF_LEN then Next (pc + 1) (set_A s dlen)
    else KILL
  else if class =? BPF_LDX then
    if mode =? BPF_IMM then Next (pc + 1) (set_X s (s_k f))
    else if mode =? BPF_MEM then read_mem s pc (s_k f) set_X
    else if mode =? BPF_LEN then Next (pc + 1) (set_X s dlen)
    else KILL
  else if class =? BPF_ST then if BPF_MEMWORDS <=? s_k f then KILL else mem_set s pc (s_k f) (A s)
  else if class =? BPF_STX then if BPF_MEMWORDS <=? s_k f then KILL else mem_set s pc (s_k f) (X s)
  else if class =? BPF_ALU then
    match seccomp_alu (BPF_OP c) (A s) (if BPF_SRC c =? BPF_X then X s else s_k f) with
    | Some v => Next (pc + 1) (set_A s v)
    | None => KILL
    end
  else if class =? BPF_JMP then
    if BPF_OP c =? BPF_JA then
      if u32 (len - pc - 1) <=? s_k f then KILL else Next (u32 (u32 (pc + s_k f) + 1)) s
    else
      match jump_taken (BPF_OP c) (A s) (if BPF_SRC c =? BPF_X then X s else s_k f) with
      | Some t =>
          let jmp := if t : bool then s_jt f else s_jf f in
          if u32 (len - pc - 1) <? jmp then KILL else Next (u32 (u32 (pc + jmp) + 1)) s
      | None => KILL
      end
  else if class =? BPF_RET then Ret (if BPF_RVAL c =? BPF_A then A s else s_k f)
  else if class =? BPF_MISC then
    if BPF_MISCOP c =? BPF_TAX then Next (pc + 1) (set_X s (A s))
    else if BPF_MISCOP c =? BPF_TXA then Next (pc + 1) (set_A s (X s))
    else KILL
  else KILL.
(** [for (pc = 0; pc < len; pc++)]: the verdict; [None] is a wild access, or
    fuel spent, neither of which happens ([bpf_run_total]). *)
Fixpoint bpf_loop (fuel : nat) (prog : list sock_filter) (data : list Z) (pc : Z) (s : vm) : option Z :=
  match fuel with
  | O => None
  | S fuel =>
      let len := Z.of_nat (length prog) in
      if pc <? len then
        match prog !! Z.to_nat pc with
        | None => None
        | Some f =>
            match exec data len pc f s with
            | Next pc s => bpf_loop fuel prog data pc s
            | Ret v => Some v
            | Wild => None
            end
        end
      else Some SECCOMP_RET_KILL_PROCESS
  end.
Definition bpf_run (prog : list sock_filter) (data : seccomp_data) : option Z :=
  bpf_loop (S (length prog)) prog (data_bytes data) 0 vm_init.

(** ** Filters and the tasks that have them *)

(** [struct seccomp_filter]: the data is [prog], [None] in strict mode, the link
    is [prev].  A count is at most the number of tasks and chains. *)
Abbreviation seccomp_filter := (node (option (list sock_filter))).
Record seccomp_state := mkSc { filters : list seccomp_filter; g_task_seccomp : list (option nat); g_task_nnp : list bool }.
Definition set_filters (l : list seccomp_filter) (st : seccomp_state) : seccomp_state := mkSc l (g_task_seccomp st) (g_task_nnp st).

(** A task is its slot; [None] is the null pointer. *)
Definition task_seccomp_filter (st : seccomp_state) (t : option nat) : option nat :=
  match t with None => None | Some t => match g_task_seccomp st !! t with Some f => f | None => None end end.
Definition task_set_seccomp_filter (t : option nat) (f : option nat) (st : seccomp_state) : seccomp_state :=
  match t with None => st | Some t => mkSc (filters st) (<[t := f]> (g_task_seccomp st)) (g_task_nnp st) end.
Definition task_no_new_privs (st : seccomp_state) (t : option nat) : bool :=
  match t with None => false | Some t => default false (g_task_nnp st !! t) end.
Definition task_set_no_new_privs (t : option nat) (v : bool) (st : seccomp_state) : seccomp_state :=
  match t with None => st | Some t => mkSc (filters st) (g_task_seccomp st) (<[t := v]> (g_task_nnp st)) end.

Definition seccomp_active (st : seccomp_state) (cur : option nat) : bool :=
  match task_seccomp_filter st cur with Some _ => true | None => false end.

(** One round of [filter_unref]: what is still to be given up. *)
Definition unref_round (f : nat) (st : seccomp_state) : res (option nat * seccomp_state) :=
  let* '(n, l) := put_ref f (filters st) in
  if n <? 0 then Panic "seccomp filter put"
  else if n <>? 0 then Ok (None, set_filters l st)
  else Ok (link (l !!! f), set_filters (free f l) st).
Fixpoint filter_unref (fuel : nat) (f : option nat) (st : seccomp_state) : res (option nat * seccomp_state) :=
  match f, fuel with
  | None, _ => Ok (None, st)
  | Some _, O => Ok (f, st)
  | Some i, S fuel => let* '(f, st) := unref_round i st in filter_unref fuel f st
  end.

Definition seccomp_inherit (parent child : option nat) (st : seccomp_state) : res seccomp_state :=
  let f := task_seccomp_filter st parent in
  let* st := match f with
    | Some i => let* l := get_ref i (filters st) in Ok (set_filters l st)
    | None => Ok st end in
  Ok (task_set_no_new_privs child (task_no_new_privs st parent) (task_set_seccomp_filter child f st)).
(** Up to the call of [filter_unref]: what it is called with. *)
Definition seccomp_release (t : option nat) (st : seccomp_state) : option nat * seccomp_state :=
  match task_seccomp_filter st t with
  | None => (None, st)
  | Some f => (Some f, task_set_seccomp_filter t None st)
  end.
Definition seccomp_set_no_new_privs (cur : option nat) (st : seccomp_state) : Z * seccomp_state :=
  (0, task_set_no_new_privs cur true st).
Definition seccomp_get_no_new_privs (cur : option nat) (st : seccomp_state) : Z :=
  if task_no_new_privs st cur then 1 else 0.

Definition push_filter (cur : option nat) (p : option (list sock_filter)) (st : seccomp_state) : seccomp_state :=
  task_set_seccomp_filter cur (Some (length (filters st)))
    (set_filters (filters st ++ [mkNode p (task_seccomp_filter st cur) 1 true]) st).
(** [fp_len] and [insns] are what the two copies from user memory give ([None]
    when they fail), the latter the instruction at each index; the two flags are the answers of the heap. *)
Definition seccomp_set_mode_filter (table : ns_state) (c : option cred) (cur : option nat)
    (fp_len : option Z) (kmalloc_ok : bool) (insns : option (nat -> sock_filter)) (kzalloc_ok : bool) (st : seccomp_state)
    : Z * seccomp_state :=
  if bool_decide (cur = None) then (- ESRCH, st)
  else match fp_len with
       | None => (- EFAULT, st)
       | Some len =>
           if (len =? 0) || (SECCOMP_MAX_INSNS <? len) then (- EINVAL, st)
           else if negb kmalloc_ok then (- ENOMEM, st)
           else match insns with
                | None => (- EFAULT, st)
                | Some p =>
                    if negb (task_no_new_privs st cur) && negb (ns_capable_cred table c (cred_userns c) CAP_SYS_ADMIN)
                    then (- EACCES, st)
                    else if negb kzalloc_ok then (- ENOMEM, st)
                    else (0, push_filter cur (Some (p <$> seq 0 (Z.to_nat len))) st)
                end
       end.
Definition seccomp_set_mode_strict (cur : option nat) (kzalloc_ok : bool) (st : seccomp_state) : Z * seccomp_state :=
  if bool_decide (cur = None) then (- ESRCH, st)
  else if negb kzalloc_ok then (- ENOMEM, st)
  else (0, push_filter cur None st).

(** ** The verdict on a system call *)

(** The x86_64 numbers of read, write, exit and rt_sigreturn. *)
Definition strict_allows (number : Z) : bool := (number =? 0) || (number =? 1) || (number =? 60) || (number =? 15).
Definition severity (r : Z) : Z :=
  let a := Z.land r SECCOMP_RET_ACTION_FULL in
  if a =? SECCOMP_RET_KILL_PROCESS then 0
  else if a =? SECCOMP_RET_KILL_THREAD then 1
  else if a =? SECCOMP_RET_TRAP then 2
  else if a =? SECCOMP_RET_ERRNO then 3
  else if a =? SECCOMP_RET_TRACE then 4
  else if a =? SECCOMP_RET_LOG then 5
  else if a =? SECCOMP_RET_ALLOW then 6
  else 0.
Definition run_filter (number : Z) (d : seccomp_data) (prog : option (list sock_filter)) : res Z :=
  match prog with
  | None => Ok (if strict_allows number then SECCOMP_RET_ALLOW else SECCOMP_RET_KILL_PROCESS)
  | Some p => match bpf_run p d with Some v => Ok v | None => Fault end
  end.
Fixpoint verdict_loop (fuel : nat) (st : seccomp_state) (number : Z) (d : seccomp_data) (cur : option nat) (verdict sev : Z) : res Z :=
  match cur, fuel with
  | None, _ => Ok verdict
  | Some _, O => Fault
  | Some i, S fuel =>
      let f := filters st !!! i in
      if negb (live f) then Fault
      else
        let* r := run_filter number d (data f) in
        if severity r <? sev then verdict_loop fuel st number d (link f) r (severity r)
        else verdict_loop fuel st number d (link f) verdict sev
  end.
(** What becomes of the call: it runs, it returns a value without running
    (with SIGSYS sent or not), or the task is killed. *)
Inductive answer := Run | Denied (ret : Z) (sigsys : bool) | Killed.
Definition act_on (verdict : Z) : answer :=
  let a := Z.land verdict SECCOMP_RET_ACTION_FULL in
  if (a =? SECCOMP_RET_ALLOW) || (a =? SECCOMP_RET_LOG) then Run
  else if a =? SECCOMP_RET_ERRNO then
    let e := Z.land verdict SECCOMP_RET_DATA in Denied (- (if 4095 <? e then 4095 else e)) false
  else if a =? SECCOMP_RET_TRAP then Denied (- EPERM) true
  else if a =? SECCOMP_RET_TRACE then Denied (- ENOSYS) false
  else Killed.
Definition syscall_data (number rip : Z) (a : list Z) : seccomp_data := mkData (i32 number) AUDIT_ARCH_X86_64 rip a.
Definition seccomp_filter_syscall (number rip : Z) (a : list Z) (cur : option nat) (st : seccomp_state) : res answer :=
  match task_seccomp_filter st cur with
  | None => Ok Run
  | Some f =>
      let* v := verdict_loop (length (filters st)) st number (syscall_data number rip a) (Some f) SECCOMP_RET_ALLOW 100 in
      Ok (act_on v)
  end.

(** ** Every program returns *)

(** What the fields of the structure can hold. *)
Definition insn_ok (f : sock_filter) : Prop := 0 <= s_k f < U32_MOD /\ 0 <= s_jt f < 256 /\ 0 <= s_jf f < 256.
Lemma length_le_bytes n v : length (le_bytes n v) = n.
Proof. revert v. induction n as [|n IH]; intros v; cbn; by rewrite ?IH. Qed.
Lemma length_data d : length (args d) = 6%nat -> length (data_bytes d) = 64%nat.
Proof.
  destruct d as [n a i l]. cbn [args]. intros H. unfold data_bytes. cbn [nr arch instruction_pointer args].
  do 6 (destruct l as [|? l]; [done|]). destruct l; [|done]. cbn [fmap list_fmap concat]. rewrite !length_app, !length_le_bytes. done.
Qed.
Lemma load4_total data off : length data = 64%nat -> 0 <= off <= 60 -> exists v, load4 data off = Some v.
Proof.
  intros L H. unfold load4, byte_at.
  destruct (lookup_lt_is_Some_2 data (Z.to_nat off)) as [a ->]; [lia|].
  destruct (lookup_lt_is_Some_2 data (Z.to_nat (off + 1))) as [b ->]; [lia|].
  destruct (lookup_lt_is_Some_2 data (Z.to_nat (off + 2))) as [c ->]; [lia|].
  destruct (lookup_lt_is_Some_2 data (Z.to_nat (off + 3))) as [d ->]; [lia|]. by eexists.
Qed.
Lemma mem_get_total s i : length (mem s) = 16%nat -> 0 <= i < 16 -> exists v, mem_get s i = Some v.
Proof. intros L H. unfold mem_get. apply lookup_lt_is_Some_2. lia. Qed.

(** An instruction ends the program or goes forward inside it. *)
Lemma exec_forward data len pc f s : length data = 64%nat -> length (mem s) = 16%nat -> insn_ok f -> 0 <= pc < len -> len < U32_MOD ->
  (exists v, exec data len pc f s = Ret v) \/
  exists pc' s', exec data len pc f s = Next pc' s' /\ pc < pc' <= len /\ length (mem s') = 16%nat.
Proof.
  intros LD LM (Hk & Ht & Hf) Hpc Hlen.
  assert (N : forall s', length (mem s') = 16%nat -> exists pc' s'', Next (pc + 1) s' = Next pc' s'' /\ pc < pc' <= len /\ length (mem s'') = 16%nat)
    by (intros s' H; exists (pc + 1), s'; split_and!; lia || done).
  assert (R : forall i set, (forall v, length (mem (set s v)) = 16%nat) -> 0 <= i ->
    (exists v, read_mem s pc i set = Ret v) \/ exists pc' s', read_mem s pc i set = Next pc' s' /\ pc < pc' <= len /\ length (mem s') = 16%nat).
  { intros i set Hs Hi. unfold read_mem, BPF_MEMWORDS. destruct (Z.leb_spec 16 i); [by left; eexists|].
    destruct (mem_get_total s i LM) as [v ->]; [lia|]. right. by apply N. }
  assert (W : forall i v, 0 <= i -> (exists r, (if BPF_MEMWORDS <=? i then KILL else mem_set s pc i v) = Ret r) \/
    exists pc' s', (if BPF_MEMWORDS <=? i then KILL else mem_set s pc i v) = Next pc' s' /\ pc < pc' <= len /\ length (mem s') = 16%nat).
  { intros i v Hi. unfold BPF_MEMWORDS. destruct (Z.leb_spec 16 i); [by left; eexists|]. right. unfold mem_set.
    rewrite bool_decide_eq_true_2 by lia. apply N. cbn. by rewrite length_insert. }
  assert (J : forall j, 0 <= j <= len - pc - 1 -> exists pc' s', Next (u32 (u32 (pc + j) + 1)) s = Next pc' s' /\ pc < pc' <= len /\ length (mem s') = 16%nat).
  { intros j Hj. exists (pc + j + 1), s. rewrite (u32_small (pc + j)), u32_small by lia. split_and!; lia || done. }
  assert (K : exists v, KILL = Ret v) by (by eexists).
  unfold exec. cbv zeta. rewrite (u32_small (len - pc - 1)) by lia.
  assert (L : let r := (if (dlen <? u32 (s_k f + 4)) || (u32 (s_k f + 4) <? s_k f) then KILL
      else match load4 data (s_k f) with Some v => Next (pc + 1) (set_A s v) | None => Wild end) in
    (exists v, r = Ret v) \/ exists pc' s', r = Next pc' s' /\ pc < pc' <= len /\ length (mem s') = 16%nat).
  { cbv zeta. destruct (_ || _) eqn:E; [by left|]. apply orb_false_iff in E as [E1%Z.ltb_ge E2%Z.ltb_ge]. unfold dlen, u32 in *.
    destruct (load4_total data (s_k f) LD) as [v ->]; [Z.to_euclidean_division_equations; lia|]. right. by apply N. }
  cbv zeta in L.
  repeat first
    [ by left | by right; apply N | exact L | (apply R; [done|lia]) | (apply W; lia)
    | match goal with |- context [match seccomp_alu ?a ?b ?c with _ => _ end] => destruct (seccomp_alu a b c) end
    | match goal with |- context [match jump_taken ?a ?b ?c with _ => _ end] => destruct (jump_taken a b c) as [[]|] end
    | match goal with |- context [if len - pc - 1 <=? ?j then _ else _] => destruct (Z.leb_spec (len - pc - 1) j); [by left|right; apply J; lia] end
    | match goal with |- context [if len - pc - 1 <? ?j then _ else _] => destruct (Z.ltb_spec (len - pc - 1) j); [by left|right; apply J; lia] end
    | match goal with |- context [if ?b =? ?c then ?x else _] => destruct (b =? c) end
    | by left; eexists ].
Qed.
Lemma bpf_loop_total prog data fuel : forall pc s, length data = 64%nat -> length (mem s) = 16%nat -> Forall insn_ok prog ->
  Z.of_nat (length prog) < U32_MOD -> 0 <= pc <= Z.of_nat (length prog) -> Z.of_nat (length prog) - pc < Z.of_nat fuel ->
  exists v, bpf_loop fuel prog data pc s = Some v.
Proof.
  induction fuel as [|fuel IH]; intros pc s LD LM W Hl Hpc Hf; [lia|]. cbn [bpf_loop].
  destruct (Z.ltb_spec pc (Z.of_nat (length prog))); [|by eexists].
  destruct (lookup_lt_is_Some_2 prog (Z.to_nat pc)) as [f E]; [lia|]. rewrite E.
  pose proof (proj1 (list.Forall_lookup _ _) W _ _ E) as Wf.
  destruct (exec_forward data (Z.of_nat (length prog)) pc f s LD LM Wf) as [[v ->]|(pc' & s' & -> & Hp & LM')]; [lia|lia|by eexists|].
  apply IH; done || lia.
Qed.
Lemma bpf_run_returns p d : Forall insn_ok p -> Z.of_nat (length p) < U32_MOD -> length (args d) = 6%nat -> exists v, bpf_run p d = Some v.
Proof. intros W L A. apply bpf_loop_total; [by apply length_data|done..|lia|lia]. Qed.
End Seccomp.
