(* ===== verification/SeccompProofs.v ===== *)
(** System call filters: references, and that a chain only ever restricts.

    A system is the state of [Seccomp] and the filters that calls of
    [filter_unref] in progress are about to give up.  Operations are labelled
    by the task they act for, so that the theorems can speak of what happens
    while a given task lives. *)
From Stdlib Require Import ZifyBool.
From S2P Require Import Prelude RefChain Cred UserNs SockFilter Seccomp.
From stdpp Require Import list.
Local Open Scope Z_scope.
Local Open Scope kernel_scope.

Module SeccompProofs.
Import RefChain Cred UserNs SockFilter Seccomp.

Record sys := mkSys { sc : seccomp_state; giving : list nat }.
Definition boot (slots : nat) : sys := mkSys (mkSc [] (replicate slots None) (replicate slots false)) [].

Inductive op :=
| OFilter (t : nat) (table : ns_state) (c : option cred) (fp_len : option Z) (km : bool) (insns : option (nat -> sock_filter)) (kz : bool)
| OStrict (t : nat) (kz : bool)
| ONoNewPrivs (t : nat)
| OFork (parent child : nat)
| ORelease (t : nat)
| OUnref (n : nat).
(** A task runs in a slot of the table; a child's slot was released when its
    last owner was reaped; instructions are what the structure can hold. *)
Definition allowed (o : op) (s : sys) : Prop :=
  match o with
  | OFilter t _ _ _ _ insns _ => (t < length (g_task_seccomp (sc s)))%nat /\ forall f i, insns = Some f -> insn_ok (f i)
  | OStrict t _ | ONoNewPrivs t | ORelease t => (t < length (g_task_seccomp (sc s)))%nat
  | OFork p c => g_task_seccomp (sc s) !! c = Some None /\ p <> c
  | OUnref n => (n < length (giving s))%nat
  end.
Definition exec_op (o : op) (s : sys) : res sys :=
  match o with
  | OFilter t table c fp km insns kz => Ok (mkSys (snd (seccomp_set_mode_filter table c (Some t) fp km insns kz (sc s))) (giving s))
  | OStrict t kz => Ok (mkSys (snd (seccomp_set_mode_strict (Some t) kz (sc s))) (giving s))
  | ONoNewPrivs t => Ok (mkSys (snd (seccomp_set_no_new_privs (Some t) (sc s))) (giving s))
  | OFork p c => let* st := seccomp_inherit (Some p) (Some c) (sc s) in Ok (mkSys st (giving s))
  | ORelease t => let '(f, st) := seccomp_release (Some t) (sc s) in Ok (mkSys st (opt f ++ giving s))
  | OUnref n =>
      match giving s !! n with
      | None => Ok s
      | Some f => let* '(next, st) := unref_round f (sc s) in Ok (mkSys st (opt next ++ delete n (giving s)))
      end
  end.
Definition step (s s' : sys) : Prop := exists o, allowed o s /\ exec_op o s = Ok s'.
(** The steps that neither end the task in slot [t] nor put a new one there. *)
Definition spares (t : nat) (o : op) : Prop := match o with ORelease t' | OFork _ t' => t' <> t | _ => True end.
Definition step_sparing (t : nat) (s s' : sys) : Prop := exists o, allowed o s /\ spares t o /\ exec_op o s = Ok s'.

(** References are held by tasks and by calls that are giving a filter up. *)
Definition held (s : sys) : list nat := held_by (g_task_seccomp (sc s)) ++ giving s.
Definition well_formed (p : option (list sock_filter)) : Prop :=
  match p with Some p => Forall insn_ok p /\ Z.of_nat (length p) <= SECCOMP_MAX_INSNS | None => True end.
Record inv (s : sys) : Prop := {
  i_chain : chain_ok (filters (sc s)) (held s);
  i_progs : Forall (fun f => well_formed (data f)) (filters (sc s));
  i_slots : length (g_task_nnp (sc s)) = length (g_task_seccomp (sc s)) }.

(** ** The operations keep the invariant *)

Lemma lookup_filter st t f : (t < length (g_task_seccomp st))%nat -> task_seccomp_filter st (Some t) = f -> g_task_seccomp st !! t = Some f.
Proof. intros Ht <-. unfold task_seccomp_filter. by destruct (lookup_lt_is_Some_2 _ _ Ht) as [x ->]. Qed.
Lemma head_live s t f : inv s -> task_seccomp_filter (sc s) t = Some f -> live (filters (sc s) !!! f) = true.
Proof.
  intros I H. apply (chain_held_live _ _ (i_chain _ I)). unfold held. apply elem_of_app. left. unfold task_seccomp_filter in H.
  destruct t as [t|]; [|done]. destruct (g_task_seccomp (sc s) !! t) as [g|] eqn:E; [|done]. subst g. by eapply held_by_lookup.
Qed.
Lemma below_head s t : inv s -> below (length (filters (sc s))) (task_seccomp_filter (sc s) t).
Proof. intros I. destruct (task_seccomp_filter (sc s) t) as [f|] eqn:E; [|done]. by apply chain_live_lt, (head_live s t). Qed.
Lemma progs_alter s g f : inv s -> (forall z, data (g z) = data z) -> Forall (fun f => well_formed (data f)) (alter g f (filters (sc s))).
Proof. intros I Hg. apply Forall_alter; [apply I|]. intros x _ Hx. by rewrite Hg. Qed.

Lemma push_inv s t p : inv s -> (t < length (g_task_seccomp (sc s)))%nat -> well_formed p ->
  inv (mkSys (push_filter (Some t) p (sc s)) (giving s)).
Proof.
  intros I Ht W. pose proof (lookup_filter _ _ _ Ht eq_refl) as Hold. constructor.
  - unfold push_filter, held. cbn [sc giving set_filters task_set_seccomp_filter filters g_task_seccomp].
    set (old := task_seccomp_filter (sc s) (Some t)) in *. pose proof (i_chain _ I) as K. unfold held in K.
    pose proof (held_by_insert _ _ _ None Hold) as P1. cbn [opt] in P1. rewrite app_nil_r in P1.
    assert (P2 : held_by (<[t:=Some (length (filters (sc s)))]> (g_task_seccomp (sc s)))
                 ≡ₚ length (filters (sc s)) :: held_by (<[t:=None]> (g_task_seccomp (sc s)))).
    { pose proof (held_by_insert (<[t:=None]> (g_task_seccomp (sc s))) t None (Some (length (filters (sc s))))) as P.
      rewrite list_insert_insert_eq in P. cbn [opt] in P. rewrite app_nil_r, (comm (++)) in P. symmetry. apply P.
      by rewrite list_lookup_insert, decide_True. }
    rewrite P2. cbn [app]. apply chain_push_ok. rewrite P1 in K. by rewrite app_assoc, (comm (++) (opt old)).
  - cbn. apply Forall_app. split; [apply I|]. by constructor.
  - cbn. rewrite length_insert. apply I.
Qed.
Lemma fork_inv s p c : inv s -> g_task_seccomp (sc s) !! c = Some None -> p <> c ->
  exists st, seccomp_inherit (Some p) (Some c) (sc s) = Ok st /\ inv (mkSys st (giving s)).
Proof.
  intros I Hc Hp. unfold seccomp_inherit. destruct (task_seccomp_filter (sc s) (Some p)) as [f|] eqn:E.
  - destruct (chain_get_ok _ _ f (i_chain _ I) (head_live s _ f I E)) as (l & G & K). rewrite G. cbn [rbind]. eexists. split; [reflexivity|].
    constructor; cbn [sc filters set_filters task_set_seccomp_filter task_set_no_new_privs].
    + unfold held in *. cbn [giving sc g_task_seccomp]. pose proof (held_by_insert _ _ _ (Some f) Hc) as P. cbn [opt] in P.
      rewrite app_nil_r in P. rewrite <- P. by rewrite (comm (++) _ [f]).
    + unfold get_ref in G. destruct (live _); [|done]. injection G as <-. by apply progs_alter.
    + cbn. rewrite !length_insert. apply I.
  - cbn [rbind]. eexists. split; [reflexivity|]. constructor; [|exact (i_progs _ I)|cbn; rewrite !length_insert; apply I].
    unfold held. cbn. rewrite (list_insert_id _ _ _ Hc). apply I.
Qed.
Lemma release_inv s t : inv s -> (t < length (g_task_seccomp (sc s)))%nat ->
  let '(f, st) := seccomp_release (Some t) (sc s) in inv (mkSys st (opt f ++ giving s)).
Proof.
  intros I Ht. unfold seccomp_release. destruct (task_seccomp_filter (sc s) (Some t)) as [f|] eqn:E; [|by destruct s].
  pose proof (lookup_filter _ _ _ Ht E) as Hf. constructor; [|exact (i_progs _ I)|cbn; rewrite length_insert; apply I].
  unfold held. cbn [sc giving task_set_seccomp_filter g_task_seccomp filters]. pose proof (held_by_insert _ _ _ None Hf) as P.
  cbn [opt] in P. rewrite app_nil_r in P. rewrite app_assoc, <- P. apply I.
Qed.
(** A round of [filter_unref] keeps the counts and asserts nothing false. *)
Lemma unref_inv s n f : inv s -> giving s !! n = Some f ->
  exists next st, unref_round f (sc s) = Ok (next, st) /\ inv (mkSys st (opt next ++ delete n (giving s))).
Proof.
  intros I Hn. assert (P : held s ≡ₚ f :: held_by (g_task_seccomp (sc s)) ++ delete n (giving s)).
  { unfold held. rewrite (delete_Permutation _ _ _ Hn) at 1. by rewrite Permutation_middle. }
  pose proof (i_chain _ I) as K. rewrite P in K. destruct (chain_put_ok _ _ _ K) as (left & l & E & Hl & K1 & K2). unfold unref_round. rewrite E.
  cbn [rbind]. replace (left <? 0) with false by lia.
  assert (L : l = alter (add_ref (-1)) f (filters (sc s)) /\ (f < length (filters (sc s)))%nat).
  { unfold put_ref in E. destruct (live _) eqn:L; [|done]. injection E as <- <-. split; [done|by apply chain_live_lt]. }
  destruct L as [-> Lt]. destruct (Z.eqb_spec left 0) as [Hz|Hz]; cbn [negb]; do 2 eexists; (split; [reflexivity|]).
  - rewrite total_alter, bool_decide_eq_true_2 by done. cbn [add_ref link]. constructor; [|unfold free; cbn; rewrite alter_alter; by apply progs_alter|apply I].
    unfold held. cbn [sc giving set_filters filters g_task_seccomp]. specialize (K2 Hz). by rewrite Permutation_app_swap_app.
  - constructor; [|by apply progs_alter|apply I]. cbn. by apply K1.
Qed.
Lemma seccomp_step_inv o s : inv s -> allowed o s -> exists s', exec_op o s = Ok s' /\ inv s'.
Proof.
  intros I A. destruct o as [t table c fp km insns kz|t kz|t|p c|t|n]; cbn [allowed exec_op] in *.
  - destruct A as [Ht Hi]. eexists. split; [reflexivity|]. unfold seccomp_set_mode_filter. rewrite bool_decide_eq_false_2 by done.
    destruct fp as [len|]; [|by destruct s]. destruct (_ || _) eqn:El; [by destruct s|]. destruct km; [|by destruct s]. cbn [negb].
    destruct insns as [f|]; [|by destruct s]. destruct (_ && _); [by destruct s|]. destruct kz; [|by destruct s]. cbn [negb snd].
    apply push_inv; [done..|]. split; [apply Forall_fmap, list.Forall_forall; intros i _; by apply (Hi f i)|].
    apply orb_false_iff in El as [_ El]. rewrite length_fmap, length_seq. unfold SECCOMP_MAX_INSNS in *. lia.
  - eexists. split; [reflexivity|]. unfold seccomp_set_mode_strict. rewrite bool_decide_eq_false_2 by done.
    destruct kz; [|by destruct s]. cbn [negb snd]. by apply push_inv.
  - eexists. split; [reflexivity|]. destruct I as [I1 I2 I3]. constructor; [exact I1|exact I2|]. cbn. by rewrite length_insert.
  - destruct A as [Hc Hp]. destruct (fork_inv s p c I Hc Hp) as (st & -> & I'). by eexists.
  - pose proof (release_inv s t I A) as R. destruct (seccomp_release _ _) as [f st]. by eexists.
  - destruct (lookup_lt_is_Some_2 _ _ A) as [f Hf]. rewrite Hf. destruct (unref_inv s n f I Hf) as (next & st & -> & I'). by eexists.
Qed.
Lemma boot_inv slots : inv (boot slots).
Proof.
  constructor; [|apply list.Forall_nil_2|cbn; by rewrite !length_replicate]. unfold held. cbn [boot sc giving g_task_seccomp filters].
  assert (held_by (replicate slots None) = []) as -> by (by induction slots). constructor; [by intros f|done].
Qed.
Lemma seccomp_reachable slots s : rtc step (boot slots) s -> inv s.
Proof.
  intros H. eapply rtc_invariant; [|exact H|apply boot_inv]. intros a b (o & A & E) I.
  destruct (seccomp_step_inv o a I A) as (s' & E' & I'). congruence.
Qed.

(** ** Verdicts *)

(** The verdict of one program; a strict filter looks at the number. *)
Definition vote (number : Z) (d : seccomp_data) (p : option (list sock_filter)) : Z :=
  match run_filter number d p with Ok v => v | _ => 0 end.
(** The first of the most severe of a list, with a verdict to start from. *)
Fixpoint strictest (votes : list Z) (verdict sev : Z) : Z :=
  match votes with
  | [] => verdict
  | r :: votes => if severity r <? sev then strictest votes r (severity r) else strictest votes verdict sev
  end.
Lemma severity_range v : 0 <= severity v <= 6.
Proof. unfold severity. cbv zeta. repeat (destruct (_ =? _); [lia|]). lia. Qed.
Lemma strictest_severity votes : forall v, severity (strictest votes v (severity v)) = foldr Z.min (severity v) (severity <$> votes).
Proof.
  induction votes as [|r votes IH]; intros v; cbn [strictest fmap list_fmap foldr]; [done|].
  assert (M : forall a b l, foldr Z.min (Z.min a b) l = Z.min a (foldr Z.min b l)) by (intros a b l; induction l as [|c l IHl]; cbn; lia).
  destruct (Z.ltb_spec (severity r) (severity v)); rewrite IH; [|rewrite <- M; by rewrite Z.min_r by lia].
  rewrite <- M. by rewrite Z.min_l by lia.
Qed.
(** With at least one filter the start does not matter. *)
Lemma strictest_100 r votes v : strictest (r :: votes) v 100 = strictest votes r (severity r).
Proof. cbn. pose proof (severity_range r). by replace (severity r <? 100) with true by lia. Qed.

Lemma run_filter_vote number rip a prog : well_formed prog -> length a = 6%nat ->
  run_filter number (syscall_data number rip a) prog = Ok (vote number (syscall_data number rip a) prog).
Proof.
  intros W A. unfold vote, run_filter, well_formed in *. destruct prog as [p|]; [|done]. destruct W as [W L].
  destruct (bpf_run_returns p (syscall_data number rip a)) as [v ->]; [done|unfold SECCOMP_MAX_INSNS in L; lia|done|done].
Qed.
Lemma verdict_loop_votes s number rip a fuel : forall f v sev, inv s -> length a = 6%nat ->
  below fuel f -> match f with Some i => live (filters (sc s) !!! i) = true | None => True end ->
  verdict_loop fuel (sc s) number (syscall_data number rip a) f v sev
    = Ok (strictest (vote number (syscall_data number rip a) <$> along fuel (filters (sc s)) f) v sev).
Proof.
  induction fuel as [|fuel IH]; intros f v sev I A B HL; destruct f as [i|]; cbn in B; try done; [lia|].
  cbn [verdict_loop along]. cbv zeta. rewrite HL. cbn [negb]. pose proof (live_lookup _ _ HL) as Hx.
  rewrite run_filter_vote by (done || exact (proj1 (list.Forall_lookup _ _) (i_progs _ I) _ _ Hx)). cbn [rbind fmap list_fmap strictest].
  assert (HN : below fuel (link (filters (sc s) !!! i)) /\
    match link (filters (sc s) !!! i) with Some p => live (filters (sc s) !!! p) = true | None => True end).
  { destruct (link _) as [p|] eqn:P; [|done]. destruct (link_live _ _ (i_chain _ I) _ _ HL P). cbn. split; [lia|done]. }
  destruct HN as [HB HN]. destruct (_ <? sev); by apply IH.
Qed.

(** The programs of a task, and the answer they give to a system call. *)
Definition filters_of (st : seccomp_state) (t : nat) : list (option (list sock_filter)) :=
  chain_of (filters st) (task_seccomp_filter st (Some t)).
Definition decide_call (number rip : Z) (a : list Z) (progs : list (option (list sock_filter))) : answer :=
  match progs with
  | [] => Run
  | _ => act_on (strictest (vote number (syscall_data number rip a) <$> progs) SECCOMP_RET_ALLOW 100)
  end.
Lemma filter_syscall_votes s number rip a t : inv s -> length a = 6%nat ->
  seccomp_filter_syscall number rip a (Some t) (sc s) = Ok (decide_call number rip a (filters_of (sc s) t)).
Proof.
  intros I A. unfold seccomp_filter_syscall, filters_of, chain_of, decide_call. destruct (task_seccomp_filter (sc s) (Some t)) as [f|] eqn:E.
  - pose proof (head_live s _ _ I E) as HL. pose proof (chain_live_lt _ _ HL) as Lt.
    rewrite verdict_loop_votes by done. cbn [rbind]. destruct (length (filters (sc s))) as [|n] eqn:L; [lia|]. by cbn [along].
  - by destruct (length (filters (sc s))).
Qed.

(** ** A task's chain only grows *)

Lemma filters_of_same s st' t : inv s -> extends (filters (sc s)) (filters st') ->
  task_seccomp_filter st' (Some t) = task_seccomp_filter (sc s) (Some t) -> filters_of st' t = filters_of (sc s) t.
Proof. intros I X E. unfold filters_of. rewrite E. apply chain_of_extends; [apply (i_chain _ I)|done|by apply below_head]. Qed.
Lemma push_grows s t t' p : inv s -> (t' < length (g_task_seccomp (sc s)))%nat ->
  filters_of (push_filter (Some t') p (sc s)) t = (if bool_decide (t = t') then [p] else []) ++ filters_of (sc s) t.
Proof.
  intros I Ht. case_bool_decide as E.
  - subst t'. unfold filters_of at 1, push_filter. cbn [task_set_seccomp_filter set_filters task_seccomp_filter g_task_seccomp filters].
    rewrite list_lookup_insert, decide_True by done. apply chain_of_push; [apply (i_chain _ I)|exact (below_head s (Some t) I)].
  - apply filters_of_same; [done|apply extends_app|cbn; by rewrite list_lookup_insert_ne by done].
Qed.
Lemma fork_others s st p c t : inv s -> seccomp_inherit (Some p) (Some c) (sc s) = Ok st -> c <> t ->
  filters_of st t = filters_of (sc s) t /\ task_no_new_privs st (Some t) = task_no_new_privs (sc s) (Some t).
Proof.
  intros I E S. unfold seccomp_inherit, get_ref in E. destruct (task_seccomp_filter (sc s) (Some p)) as [f|].
  - destruct (live _); [|done]. injection E as <-. split; [|cbn; by rewrite list_lookup_insert_ne by done].
    apply filters_of_same; [done|by apply extends_alter|cbn; by rewrite list_lookup_insert_ne by done].
  - injection E as <-. split; [|cbn; by rewrite list_lookup_insert_ne by done].
    apply filters_of_same; [done..|cbn; by rewrite list_lookup_insert_ne by done].
Qed.
Lemma grows o s s' t : inv s -> allowed o s -> spares t o -> exec_op o s = Ok s' ->
  (exists l, filters_of (sc s') t = l ++ filters_of (sc s) t) /\
  (task_no_new_privs (sc s) (Some t) = true -> task_no_new_privs (sc s') (Some t) = true).
Proof.
  intros I A S E. destruct o as [u table c fp km insns kz|u kz|u|p c|u|n]; cbn [allowed exec_op spares] in *.
  - injection E as <-. destruct A as [Ht Hi]. unfold seccomp_set_mode_filter. rewrite bool_decide_eq_false_2 by done.
    destruct fp as [len|]; [|by split; [exists []|]]. destruct (_ || _); [by split; [exists []|]|]. destruct km; [|by split; [exists []|]]. cbn [negb].
    destruct insns as [f|]; [|by split; [exists []|]]. destruct (_ && _); [by split; [exists []|]|]. destruct kz; [|by split; [exists []|]].
    split; [eexists; by apply push_grows|done].
  - injection E as <-. unfold seccomp_set_mode_strict. rewrite bool_decide_eq_false_2 by done. destruct kz; [|by split; [exists []|]].
    split; [eexists; by apply push_grows|done].
  - injection E as <-. split; [by exists []|]. cbn. intros H. destruct (decide (u = t)) as [->|N]; [|by rewrite list_lookup_insert_ne].
    by rewrite list_lookup_insert, decide_True by (by rewrite (i_slots _ I)).
  - destruct (seccomp_inherit _ _ _) as [st| |] eqn:F; [|done..]. injection E as <-. destruct (fork_others s st p c t I F S) as [H1 H2].
    split; [by exists []|]. cbn [sc]. by rewrite H2.
  - unfold seccomp_release in E. destruct (task_seccomp_filter (sc s) (Some u)) as [f|]; injection E as <-; [|by split; [exists []|]].
    split; [exists []; apply filters_of_same; [done..|cbn; by rewrite list_lookup_insert_ne by done]|done].
  - destruct (giving s !! n) as [f|]; [|injection E as <-; by split; [exists []|]]. unfold unref_round, put_ref in E.
    destruct (live _); [|done]. cbn [rbind] in E. destruct (_ <? 0); [done|]. destruct (negb (_ =? 0)); injection E as <-; cbn [sc filters set_filters].
    + split; [exists []; apply filters_of_same; [done|by apply extends_alter|done]|done].
    + unfold free. rewrite alter_alter. split; [exists []; apply filters_of_same; [done|by apply extends_alter|done]|done].
Qed.
Lemma grows_path t s s' : inv s -> rtc (step_sparing t) s s' ->
  (exists l, filters_of (sc s') t = l ++ filters_of (sc s) t) /\
  (task_no_new_privs (sc s) (Some t) = true -> task_no_new_privs (sc s') (Some t) = true) /\ inv s'.
Proof.
  intros I H. revert I. induction H as [s|s s1 s' (o & A & S & E) _ IH]; intros I; [by split; [exists []|]|].
  destruct (grows o s s1 t I A S E) as [[l G] N]. destruct (seccomp_step_inv o s I A) as (s2 & E2 & I2).
  assert (s2 = s1) as -> by congruence. destruct (IH I2) as ([l' G'] & N' & I'). split_and!; [|auto|done].
  exists (l' ++ l). by rewrite G', G, app_assoc.
Qed.

(** ** What an answer says of the severity *)

Lemma act_on_severity v : (act_on v = Run <-> 5 <= severity v) /\ (act_on v = Killed <-> severity v <= 1).
Proof.
  unfold act_on, severity. cbv zeta. set (a := Z.land v SECCOMP_RET_ACTION_FULL).
  unfold SECCOMP_RET_ALLOW, SECCOMP_RET_LOG, SECCOMP_RET_ERRNO, SECCOMP_RET_TRAP, SECCOMP_RET_TRACE, SECCOMP_RET_KILL_PROCESS, SECCOMP_RET_KILL_THREAD.
  destruct (Z.eqb_spec a 2147483648) as [->|]; [cbn; split; split; lia || done|].
  destruct (Z.eqb_spec a 0) as [->|]; [cbn; split; split; lia || done|]. destruct (Z.eqb_spec a 196608) as [->|]; [cbn; split; split; lia || done|].
  destruct (Z.eqb_spec a 327680) as [->|]; [cbn; split; split; lia || done|]. destruct (Z.eqb_spec a 2146435072) as [->|]; [cbn; split; split; lia || done|].
  destruct (Z.eqb_spec a 2147221504) as [->|]; [cbn; split; split; lia || done|]. destruct (Z.eqb_spec a 2147418112) as [->|]; [cbn; split; split; lia || done|].
  cbn. split; split; lia || done.
Qed.
Lemma decide_call_app number rip a l progs : progs <> [] -> let v p := severity (strictest (vote number (syscall_data number rip a) <$> p) SECCOMP_RET_ALLOW 100) in
  v (l ++ progs) <= v progs.
Proof.
  intros Hp v. destruct progs as [|r progs]; [done|]. clear Hp. unfold v. rewrite fmap_app. cbn [fmap list_fmap].
  rewrite strictest_100, strictest_severity. destruct l as [|q l]; [cbn [app fmap list_fmap]; by rewrite strictest_100, strictest_severity|].
  cbn [fmap list_fmap app]. rewrite strictest_100, strictest_severity, fmap_app, foldr_app. cbn [fmap list_fmap foldr].
  set (b := foldr Z.min _ (severity <$> (_ <$> progs))) at 1. set (c := foldr Z.min (severity (vote _ _ r)) _).
  assert (M : forall x l, foldr Z.min x l <= x) by (intros x l0; induction l0; cbn; lia).
  assert (M2 : forall l x y, x <= y -> foldr Z.min x l <= foldr Z.min y l) by (intros l0 x y Hxy; induction l0; cbn; lia).
  etrans; [apply M|]. destruct (Z.le_ge_cases (severity (vote number (syscall_data number rip a) q)) (severity (vote number (syscall_data number rip a) r))).
  - etrans; [apply Z.le_min_r|]. by apply M2.
  - assert (Hb : forall l x y, Z.min y (foldr Z.min x l) <= foldr Z.min y l) by (intros l0 x y; induction l0; cbn; lia). apply Hb.
Qed.
Lemma decide_call_restricts number rip a l progs :
  (decide_call number rip a progs <> Run -> decide_call number rip a (l ++ progs) <> Run) /\
  (decide_call number rip a progs = Killed -> decide_call number rip a (l ++ progs) = Killed).
Proof.
  unfold decide_call. destruct progs as [|q progs]; [done|].
  pose proof (decide_call_app number rip a l (q :: progs)) as D. cbv zeta in D. specialize (D ltac:(done)).
  destruct (act_on_severity (strictest (vote number (syscall_data number rip a) <$> q :: progs) SECCOMP_RET_ALLOW 100)) as [A1 A2].
  destruct (l ++ q :: progs) as [|q' l'] eqn:L; [by destruct l|].
  destruct (act_on_severity (strictest (vote number (syscall_data number rip a) <$> q' :: l') SECCOMP_RET_ALLOW 100)) as [B1 B2].
  rewrite A1, A2, B1, B2. split; lia.
Qed.

Lemma fork_answers s s1 t c number rip a : inv s -> allowed (OFork t c) s -> exec_op (OFork t c) s = Ok s1 ->
  (c < length (g_task_nnp (sc s)))%nat -> length a = 6%nat ->
  seccomp_filter_syscall number rip a (Some c) (sc s1) = Ok (decide_call number rip a (filters_of (sc s) t)) /\
  task_no_new_privs (sc s1) (Some c) = task_no_new_privs (sc s) (Some t).
Proof.
  intros I Al E Hc A. destruct (seccomp_step_inv _ s I Al) as (s2 & E2 & I2). assert (s2 = s1) as -> by congruence.
  rewrite (filter_syscall_votes s1) by done. destruct Al as [Hn Hp]. pose proof (lookup_lt_Some _ _ _ Hn) as Lc. clear E2 I2. cbn [exec_op] in E.
  destruct (seccomp_inherit _ _ _) as [st| |] eqn:F; [|done..]. injection E as <-. cbn [sc].
  destruct (fork_others s st t c t I F) as [<- _]; [congruence|]. unfold seccomp_inherit, get_ref in F. unfold filters_of.
  destruct (task_seccomp_filter (sc s) (Some t)) as [f|] eqn:Ht; [destruct (live _); [|done]|]; injection F as <-; cbn; cbn in Ht;
    rewrite (list_lookup_insert_ne _ c t) by congruence; rewrite !list_lookup_insert, !decide_True by done; by rewrite Ht.
Qed.

(** (Safety.)  At every reachable state every operation succeeds: the
    assertion on a filter's count holds, no freed filter is read, counts are
    exactly the references there are, and the filters of a task give an answer
    to every system call: any program whatever ends within its own length,
    inside its data and scratch words. *)
Theorem seccomp_sound slots s :
  rtc step (boot slots) s ->
  (forall o, allowed o s -> exists s', exec_op o s = Ok s') /\
  chain_ok (filters (sc s)) (held s) /\
  forall number rip a t, length a = 6%nat -> exists ans, seccomp_filter_syscall number rip a (Some t) (sc s) = Ok ans.
Proof.
  intros R. pose proof (seccomp_reachable slots s R) as I. split_and!.
  - intros o A. destruct (seccomp_step_inv o s I A) as (s' & E & _). by exists s'.
  - apply I.
  - intros number rip a t A. rewrite filter_syscall_votes by done. by eexists.
Qed.

(** C13 (safety).  Filters only restrict.  Whatever happens while a task lives
    (filters installed by it or others, forks, exits, references given up), a
    system call that its filters deny stays denied and one that kills stays
    deadly, and its no_new_privs flag stays set.  A child starts with its
    parent's answers and flag. *)
Theorem filters_only_restrict slots s s' t number rip a ans ans' :
  rtc step (boot slots) s -> rtc (step_sparing t) s s' -> length a = 6%nat ->
  seccomp_filter_syscall number rip a (Some t) (sc s) = Ok ans -> seccomp_filter_syscall number rip a (Some t) (sc s') = Ok ans' ->
  (ans <> Run -> ans' <> Run) /\ (ans = Killed -> ans' = Killed) /\
  (task_no_new_privs (sc s) (Some t) = true -> task_no_new_privs (sc s') (Some t) = true) /\
  (forall c s1, allowed (OFork t c) s -> exec_op (OFork t c) s = Ok s1 -> (c < length (g_task_nnp (sc s)))%nat ->
    seccomp_filter_syscall number rip a (Some c) (sc s1) = Ok ans /\ task_no_new_privs (sc s1) (Some c) = task_no_new_privs (sc s) (Some t)).
Proof.
  intros R P A E E'. pose proof (seccomp_reachable slots s R) as I. destruct (grows_path t s s' I P) as ([l G] & N & I').
  rewrite filter_syscall_votes in E, E' by done. injection E as <-. injection E' as <-. rewrite G.
  destruct (decide_call_restricts number rip a l (filters_of (sc s) t)) as [D1 D2]. split_and!; [done..|].
  intros c s1 Al Ex Hc. by apply fork_answers.
Qed.

(** Witness: a task enters strict mode, and later filters itself; its call of
    openat (257) is deadly before and after. *)
Definition strict : sys := mkSys (snd (seccomp_set_mode_strict (Some 0%nat) true (sc (boot 2)))) [].
Definition sealed : sys := mkSys (snd (seccomp_set_no_new_privs (Some 0%nat) (sc strict))) [].
Definition allow_all : option (nat -> sock_filter) := Some (fun _ => Filt 6 0 0 SECCOMP_RET_ALLOW).
Definition stacked : sys :=
  mkSys (snd (seccomp_set_mode_filter ns_boot None (Some 0%nat) (Some 1) true allow_all true (sc sealed))) [].
Lemma strict_reachable : rtc step (boot 2) strict.
Proof. apply (rtc_once (R := step)). exists (OStrict 0 true). split; [cbn; lia|reflexivity]. Qed.
Lemma stacked_later : rtc (step_sparing 0) strict stacked.
Proof.
  eapply rtc_l; [exists (ONoNewPrivs 0)|apply (rtc_once (R := step_sparing 0)); exists (OFilter 0 ns_boot None (Some 1) true allow_all true)];
    (split; [|split; [done|reflexivity]]); [cbn; lia|]. split; [cbn; lia|]. intros f i [= <-]. cbn. unfold insn_ok, SECCOMP_RET_ALLOW. cbn. lia.
Qed.
Lemma seccomp_sound_witness : exists ans, seccomp_filter_syscall 257 0 (replicate 6 0) (Some 0%nat) (sc strict) = Ok ans.
Proof. apply (seccomp_sound 2 strict strict_reachable). reflexivity. Defined.
Lemma filters_only_restrict_witness :
  seccomp_filter_syscall 257 0 (replicate 6 0) (Some 0%nat) (sc strict) = Ok Killed /\
  seccomp_filter_syscall 257 0 (replicate 6 0) (Some 0%nat) (sc stacked) = Ok Killed.
Proof.
  split; [vm_compute; reflexivity|].
  destruct (seccomp_filter_syscall 257 0 (replicate 6 0) (Some 0%nat) (sc stacked)) as [ans| |] eqn:E; [|vm_compute in E; discriminate..].
  f_equal. apply (filters_only_restrict 2 strict stacked 0 257 0 (replicate 6 0) Killed ans strict_reachable stacked_later);
    [reflexivity|vm_compute; reflexivity|exact E|reflexivity].
Defined.

(** ** Installing a filter *)

(** The reasons to refuse a filter, each with its error, in the order in which they
    count: the header cannot be read, its length is not one of a program, there is
    no memory, the instructions cannot be read, the caller has neither given up
    privileges nor has any over its namespace, there is no memory for the node. *)
Definition absent {A} (o : option A) : bool := match o with None => true | Some _ => false end.
Definition refusals (st : seccomp_state) (t : nat) (table : ns_state) (c : option cred) (fp : option Z) (km : bool)
    (insns : option (nat -> sock_filter)) (kz : bool) : list (bool * Z) :=
  [ (absent fp, EFAULT); (bool_decide (~ 1 <= default 0 fp <= 4096), EINVAL); (negb km, ENOMEM); (absent insns, EFAULT);
    (negb (task_no_new_privs st (Some t) || ns_capable_cred table c (cred_userns c) CAP_SYS_ADMIN), EACCES); (negb kz, ENOMEM) ].
Fixpoint first_reason (l : list (bool * Z)) : Z := match l with [] => 0 | (b, err) :: l => if b then err else first_reason l end.
(** The program that was read. *)
Definition program (fp : option Z) (insns : option (nat -> sock_filter)) : list sock_filter :=
  match insns with Some f => f <$> seq 0 (Z.to_nat (default 0 fp)) | None => [] end.

Lemma set_filter_result table c t fp km insns kz st : (forall n, fp = Some n -> 0 <= n < 65536) ->
  seccomp_set_mode_filter table c (Some t) fp km insns kz st =
  let err := first_reason (refusals st t table c fp km insns kz) in
  (- err, if err =? 0 then push_filter (Some t) (Some (program fp insns)) st else st).
Proof.
  intros Hn. unfold seccomp_set_mode_filter, refusals, first_reason. rewrite bool_decide_eq_false_2 by done.
  destruct fp as [len|]; cbn [absent]; [|done]. change (default 0 (Some len)) with len. specialize (Hn len eq_refl).
  replace ((len =? 0) || (SECCOMP_MAX_INSNS <? len)) with (bool_decide (~ 1 <= len <= 4096))
    by (unfold SECCOMP_MAX_INSNS; case_bool_decide; lia).
  case_bool_decide; [done|]. destruct km; [|done]. destruct insns as [f|]; [|done]. cbn [negb absent].
  rewrite <- negb_orb. destruct (_ || _); [|done]. by destruct kz.
Qed.

(** C40 (error).  Every call that installs a filter, whatever its arguments, ends in
    one of two ways.  Either it returns the error of the first reason of [refusals]
    that applies and the state is as before.  Or none applies, it returns 0, and from
    then on every system call of the caller is answered by the strictest verdict of
    the new program and the filters it had, while the answers to every other task
    stay the same. *)
Theorem set_filter_outcome slots s t table c fp km insns kz rc st' :
  rtc step (boot slots) s -> allowed (OFilter t table c fp km insns kz) s -> (forall n, fp = Some n -> 0 <= n < 65536) ->
  seccomp_set_mode_filter table c (Some t) fp km insns kz (sc s) = (rc, st') ->
  rc = - first_reason (refusals (sc s) t table c fp km insns kz) /\
  (rc <> 0 -> st' = sc s) /\
  (rc = 0 -> forall u number rip a, length a = 6%nat -> seccomp_filter_syscall number rip a (Some u) st' =
     Ok (decide_call number rip a ((if bool_decide (u = t) then [Some (program fp insns)] else []) ++ filters_of (sc s) u))).
Proof.
  intros R A Hn E. pose proof (seccomp_reachable slots s R) as I. pose proof A as [Ht _].
  assert (I' : inv (mkSys st' (giving s))). { destruct (seccomp_step_inv _ s I A) as (s2 & E2 & I2). cbn [exec_op] in E2. rewrite E in E2. by injection E2 as <-. }
  rewrite set_filter_result in E by done. cbv zeta in E. set (err := first_reason _) in *. apply pair_equal_spec in E as [<- <-]. split; [done|].
  destruct (Z.eqb_spec err 0) as [Z0|Nz]; [|split; [done|lia]]. split; [lia|]. intros _ u number rip a Ha.
  etrans; [exact (filter_syscall_votes _ number rip a u I' Ha)|]. cbn [sc]. by rewrite push_grows.
Qed.
(** A program that denies everything, refused to a task that has not given up its
    privileges and stacked once it has. *)
Definition deny_all : option (nat -> sock_filter) := Some (fun _ => Filt 6 0 0 (SECCOMP_RET_ERRNO + 13)).
Definition fresh : sys := mkSys (snd (seccomp_set_no_new_privs (Some 1%nat) (sc (boot 2)))) [].
Lemma set_filter_outcome_witness :
  fst (seccomp_set_mode_filter ns_boot None (Some 0%nat) (Some 1) true deny_all true (sc fresh)) = - EACCES /\
  seccomp_filter_syscall 257 0 (replicate 6 0) (Some 1%nat) (snd (seccomp_set_mode_filter ns_boot None (Some 1%nat) (Some 1) true deny_all true (sc fresh)))
    = Ok (Denied (- 13) false).
Proof.
  assert (R : rtc step (boot 2) fresh). { apply (rtc_once (R := step)). exists (ONoNewPrivs 1). split; [cbn; lia|reflexivity]. }
  assert (A : forall t, (t < 2)%nat -> allowed (OFilter t ns_boot None (Some 1) true deny_all true) fresh).
  { intros t Ht. split; [exact Ht|]. intros f i [= <-]. unfold insn_ok, SECCOMP_RET_ERRNO. cbn. lia. }
  assert (L : forall n, Some 1 = Some n -> 0 <= n < 65536) by (intros n [= <-]; lia). split.
  - destruct (set_filter_outcome 2 fresh 0 ns_boot None (Some 1) true deny_all true _ _ R (A 0%nat ltac:(lia)) L (surjective_pairing _)) as [-> _]. reflexivity.
  - destruct (set_filter_outcome 2 fresh 1 ns_boot None (Some 1) true deny_all true _ _ R (A 1%nat ltac:(lia)) L (surjective_pairing _)) as (_ & _ & H).
    rewrite (H ltac:(reflexivity) 1%nat 257 0 (replicate 6 0) eq_refl). reflexivity.
Defined.

(** A program that Linux refuses when it is installed, a half-word load (code
    0x28), runs here as a word load and so reads two bytes more. *)
Lemma half_word_loads_a_word : bpf_run [Filt 40 0 0 0; Filt 22 0 0 0] (syscall_data 65537 0 (replicate 6 0)) = Some 65537.
Proof. vm_compute. reflexivity. Qed.
End SeccompProofs.
