(* ===== verification/Landlock.v ===== *)
(** Landlock ([kernel/fs/landlock.c]): restrictions a process puts on its own
    use of the file system.

    Rulesets are entries of a pool; the layers of a restriction are objects of
    [RefChain], each with the snapshot of a ruleset.  A path is the list of its
    bytes.  What the file system answers about a path (the node it names, the
    node's canonical path and whether it is a directory) is an input, but the
    canonical path itself is [vfs_get_node_path] over the nodes from the one
    named up to the root.  Functions that drop their reference or their lock
    half way are split there, as in [Seccomp]. *)
From S2P Require Import Prelude RefChain Cred UserNs.
Local Open Scope Z_scope.
Local Open Scope kernel_scope.

Module Landlock.
Import RefChain Cred UserNs.

Definition LANDLOCK_ABI_VERSION := 3.
Definition LANDLOCK_MAX_LAYERS := 16.
Definition LANDLOCK_MAX_RULES := 1024.
Definition LANDLOCK_CREATE_RULESET_VERSION := 1.
Definition LANDLOCK_RULE_PATH_BENEATH := 1.
Definition LL_EXECUTE := 1.
Definition LL_WRITE_FILE := 2.
Definition LL_READ_FILE := 4.
Definition LL_READ_DIR := 8.
Definition LL_REMOVE_DIR := 16.
Definition LL_REMOVE_FILE := 32.
Definition LL_MAKE_DIR := 128.
Definition LL_MAKE_REG := 256.
Definition LL_REFER := 8192.
Definition LL_TRUNCATE := 16384.
Definition LL_ACCESS_FS_ALL := 32767.
Definition LL_ACCESS_FILE := Z.lor (Z.lor (Z.lor LL_EXECUTE LL_WRITE_FILE) LL_READ_FILE) LL_TRUNCATE.
Definition O_WRONLY := 1.
Definition O_RDWR := 2.
Definition O_CREAT := 64.
Definition O_TRUNC := 512.
Definition O_PATH := 2097152.
Definition PAGE_SIZE := 4096.
Definition EXDEV := 18.
Definition EBADFD := 77.

Definition path := list Z.
Definition slash := 47.

Record ll_rule := mkRule { rule_path : path; rule_access : Z }.
Record ll_ruleset := mkRs { rs_refs : Z; handled_fs : Z; rules : list ll_rule; rs_live : bool }.
#[global] Instance ll_ruleset_inhabited : Inhabited ll_ruleset := populate (mkRs 0 0 [] false).
(** [struct ll_domain] without its count and its link to the layer beneath. *)
Record ll_layer := mkLayer { depth : Z; layer : nat }.
#[global] Instance ll_layer_inhabited : Inhabited ll_layer := populate (mkLayer 0 0).
(** [g_task_domain] is allocated with the first ruleset. *)
Record ll_state := mkLl {
  rulesets : list ll_ruleset; domains : list (node ll_layer); g_task_domain : option (list (option nat)) }.
Definition set_rulesets (l : list ll_ruleset) (st : ll_state) : ll_state := mkLl l (domains st) (g_task_domain st).
Definition set_domains (l : list (node ll_layer)) (st : ll_state) : ll_state := mkLl (rulesets st) l (g_task_domain st).
Definition set_table (t : option (list (option nat))) (st : ll_state) : ll_state := mkLl (rulesets st) (domains st) t.
Definition ll_boot : ll_state := mkLl [] [] None.

(** ** References *)

Definition set_refs (n : Z) (r : ll_ruleset) : ll_ruleset := mkRs n (handled_fs r) (rules r) (rs_live r).
Definition rs_free (r : ll_ruleset) : ll_ruleset := mkRs (rs_refs r) (handled_fs r) (rules r) false.
Definition ruleset_put (rs : nat) (st : ll_state) : res ll_state :=
  let r := rulesets st !!! rs in
  if negb (rs_live r) then Fault
  else
    let n := rs_refs r - 1 in
    if n <? 0 then Panic "landlock ruleset put"
    else Ok (set_rulesets (alter (fun r => if n =? 0 then rs_free (set_refs n r) else set_refs n r) rs (rulesets st)) st).
(** One round of [domain_put]: what it goes on with. *)
Definition domain_put_round (d : nat) (st : ll_state) : res (option nat * ll_state) :=
  let* '(n, l) := put_ref d (domains st) in
  if n <>? 0 then Ok (None, set_domains l st)
  else let* st' := ruleset_put (layer (data (l !!! d))) st in
       Ok (link (l !!! d), set_domains (free d l) st').
Fixpoint domain_put (fuel : nat) (d : option nat) (st : ll_state) : res ll_state :=
  match d, fuel with
  | None, _ => Ok st
  | Some _, O => Fault
  | Some i, S fuel => let* '(d, st) := domain_put_round i st in domain_put fuel d st
  end.
Definition domain_row (row : nat) (st : ll_state) : option nat :=
  match g_task_domain st with None => None | Some t => match t !! row with Some d => d | None => None end end.
Definition domain_get_task (row : nat) (st : ll_state) : res (option nat * ll_state) :=
  match domain_row row st with
  | None => Ok (None, st)
  | Some d => let* l := get_ref d (domains st) in Ok (Some d, set_domains l st)
  end.
(** [cur] is the slot of the calling task. *)
Definition domain_current (cur : option nat) (st : ll_state) : res (option nat * ll_state) :=
  match cur with None => Ok (None, st) | Some row => domain_get_task row st end.
(** A row of the table replaced, under the lock: what was there before. *)
Definition swap_row (row : nat) (d : option nat) (st : ll_state) : option nat * ll_state :=
  match g_task_domain st with
  | None => (d, st)
  | Some t => if bool_decide (row < length t)%nat then (domain_row row st, set_table (Some (<[row := d]> t)) st) else (d, st)
  end.
(** Both return what is to be put at the end. *)
Definition landlock_fork (parent child : nat) (st : ll_state) : res (option nat * ll_state) :=
  let* '(d, st) := domain_get_task parent st in Ok (swap_row child d st).
Definition landlock_task_reset (row : nat) (st : ll_state) : option nat * ll_state := swap_row row None st.

(** ** Canonical paths *)

(** A node on the way up: its identity and name, whether it is the root of a
    mount (the next one is the node it covers), its parent (another node, none,
    itself), whether it is the root of the tree of detached mounts. *)
Inductive parent_kind := Parent | NoParent | OwnParent.
Record vnode := mkV { v_id : Z; v_name : path; v_mount : bool; v_parent : parent_kind; v_detached : bool }.
Fixpoint path_nodes (count steps : nat) (root : option Z) (up : list vnode) : list vnode :=
  match up, count, steps with
  | n :: up, S count, S steps =>
      if bool_decide (root = Some (v_id n)) then []
      else if v_mount n then path_nodes (S count) steps root up
      else n :: match v_parent n with Parent => path_nodes count steps root up | _ => [] end
  | _, _, _ => []
  end.
Fixpoint append_names (cap : Z) (l : list vnode) (buf : path) : Z + path :=
  match l with
  | [] => inr (match buf with [] => [slash] | _ => buf end)
  | n :: l =>
      match v_parent n with
      | NoParent => append_names cap l buf
      | _ => if cap <? Z.of_nat (length buf) + Z.of_nat (length (v_name n)) + 2 then inl (- ENAMETOOLONG)
             else append_names cap l (buf ++ slash :: v_name n)
      end
  end.
(** "/.b1nix-detached" *)
Definition detached_prefix : path := [47; 46; 98; 49; 110; 105; 120; 45; 100; 101; 116; 97; 99; 104; 101; 100].
Definition vfs_get_node_path (root : option Z) (up : list vnode) (cap : Z) : Z + path :=
  let l := rev (path_nodes 128 256 root up) in
  match l with
  | n :: _ => if v_detached n then (if cap <? 17 then inl (- ENAMETOOLONG) else append_names cap l detached_prefix)
              else append_names cap l []
  | [] => append_names cap l []
  end.

(** What the file system says: the absolute form of a path, and the node it
    names with the nodes above it, or an error. *)
Record node_info := mkNode_info { n_up : list vnode; n_dir : bool }.
Record vfs_answers := mkVfs { resolve : path -> path; find_node : path -> Z + node_info; task_root : option Z }.
Definition VFS_MAX_PATH := 256.

Definition ll_canon_existing (v : vfs_answers) (p : path) : Z + path :=
  match find_node v p with
  | inl e => inl e
  | inr n => vfs_get_node_path (task_root v) (n_up n) VFS_MAX_PATH
  end.
Fixpoint strip (l : path) : path :=
  match l with
  | [] => []
  | c :: l => match strip l with [] => if c =? slash then [] else [c] | l => c :: l end
  end.
(** [while (l > 1 && r[l - 1] == '/') r[--l] = 0] *)
Definition strip_slashes (r : path) : path :=
  match r with [] => [] | c :: r => c :: strip r end.
(** The bytes before the last slash; [None] if there is none. *)
Fixpoint before_last_slash (r : path) : option path :=
  match r with
  | [] => None
  | c :: r => match before_last_slash r with
              | Some p => Some (c :: p)
              | None => if c =? slash then Some [] else None end
  end.
Definition ll_canon_parent (v : vfs_answers) (p : path) : Z + path :=
  let r := strip_slashes (resolve v p) in
  match before_last_slash r with
  | None => inl (- ENOENT)
  | Some [] => ll_canon_existing v [slash]
  | Some d => ll_canon_existing v d
  end.

(** ** The decision *)

Definition ll_beneath (p root : path) : bool :=
  if bool_decide (root = [slash]) then true
  else bool_decide (take (length root) p = root) && match p !! length root with None => true | Some c => c =? slash end.
Definition granted (canon : path) (l : list ll_rule) : Z :=
  fold_left (fun g r => if ll_beneath canon (rule_path r) then Z.lor g (rule_access r) else g) l 0.
Definition layer_denies (canon : path) (access : Z) (rs : ll_ruleset) : bool :=
  let need := Z.land access (handled_fs rs) in
  if need =? 0 then false else Z.land need (Z.lnot (granted canon (rules rs))) <>? 0.
Fixpoint ll_check_canon (fuel : nat) (st : ll_state) (d : option nat) (canon : path) (access : Z) : res Z :=
  match d, fuel with
  | None, _ => Ok 0
  | Some _, O => Fault
  | Some i, S fuel =>
      let n := domains st !!! i in
      if negb (live n) then Fault
      else if negb (rs_live (rulesets st !!! layer (data n))) then Fault
      else if layer_denies canon access (rulesets st !!! layer (data n)) then Ok (- EACCES)
      else ll_check_canon fuel st (link n) canon access
  end.
(** The checks between taking the caller's domain and giving it back. *)
Definition check (st : ll_state) (d : nat) (canon : path) (access : Z) : res Z :=
  ll_check_canon (length (domains st)) st (Some d) canon access.
Definition check_answer (st : ll_state) (d : nat) (canon : Z + path) (access : Z) : res Z :=
  match canon with
  | inr c => check st d c access
  | inl e => Ok (if e =? - ENOENT then 0 else e)
  end.
Definition path_rc (v : vfs_answers) (st : ll_state) (d : option nat) (p : path) (access : Z) : res Z :=
  match d with None => Ok 0 | Some d => check_answer st d (ll_canon_existing v p) access end.
Definition parent_rc (v : vfs_answers) (st : ll_state) (d : option nat) (p : path) (access : Z) : res Z :=
  match d with None => Ok 0 | Some d => check_answer st d (ll_canon_parent v p) access end.
Definition open_rc (v : vfs_answers) (st : ll_state) (d : option nat) (p : path) (flags : Z) : res Z :=
  match d with
  | None => Ok 0
  | Some d =>
      let acc := Z.land flags 3 in
      let access := Z.lor (if (acc =? O_WRONLY) || (acc =? O_RDWR) then LL_WRITE_FILE else 0)
                          (if flags &? O_TRUNC then LL_TRUNCATE else 0) in
      let reads := (acc =? 0) || (acc =? O_RDWR) in
      match find_node v p with
      | inr n =>
          let access := if reads then Z.lor access (if n_dir n then LL_READ_DIR else LL_READ_FILE) else access in
          match vfs_get_node_path (task_root v) (n_up n) VFS_MAX_PATH with
          | inl e => Ok e
          | inr canon => if access <>? 0 then check st d canon access else Ok 0
          end
      | inl _ =>
          if flags &? O_CREAT then
            let access := if reads then Z.lor access LL_READ_FILE else access in
            match ll_canon_parent v p with
            | inl e => Ok (if e =? - ENOENT then 0 else e)
            | inr canon => check st d canon (Z.lor access LL_MAKE_REG)
            end
          else Ok 0
      end
  end.
Definition move_rc (v : vfs_answers) (st : ll_state) (d : option nat) (old_path new_path : path) (is_dir is_link : bool) : res Z :=
  match d with
  | None => Ok 0
  | Some d =>
      match ll_canon_parent v old_path, ll_canon_parent v new_path with
      | inr op, inr np =>
          let* rc := (if is_link then Ok 0 else check st d op (if is_dir then LL_REMOVE_DIR else LL_REMOVE_FILE)) in
          if rc <>? 0 then Ok rc
          else
            let* rc := check st d np (if is_dir then LL_MAKE_DIR else LL_MAKE_REG) in
            if rc <>? 0 then Ok rc
            else if bool_decide (op = np) then Ok 0
            else
              let* r1 := check st d op LL_REFER in
              if r1 <>? 0 then Ok (- EXDEV)
              else let* r2 := check st d np LL_REFER in Ok (if r2 <>? 0 then - EXDEV else 0)
      | _, _ => Ok 0
      end
  end.

(** Each check takes the caller's domain, decides, and gives the domain back. *)
Definition with_domain (cur : option nat) (st : ll_state) (k : ll_state -> option nat -> res Z) : res (Z * ll_state) :=
  let* '(d, st) := domain_current cur st in
  let* rc := k st d in
  let* st := domain_put (length (domains st)) d st in
  Ok (rc, st).
Definition landlock_check_path (v : vfs_answers) (cur : option nat) (p : path) (access : Z) (st : ll_state) : res (Z * ll_state) :=
  with_domain cur st (fun st d => path_rc v st d p access).
Definition landlock_check_parent (v : vfs_answers) (cur : option nat) (p : path) (access : Z) (st : ll_state) : res (Z * ll_state) :=
  with_domain cur st (fun st d => parent_rc v st d p access).
Definition landlock_check_open (v : vfs_answers) (cur : option nat) (p : path) (flags : Z) (st : ll_state) : res (Z * ll_state) :=
  if bool_decide (g_task_domain st = None) || (flags &? O_PATH) then Ok (0, st)
  else with_domain cur st (fun st d => open_rc v st d p flags).
Definition landlock_check_move (v : vfs_answers) (cur : option nat) (old_path new_path : path) (is_dir is_link : bool) (st : ll_state)
    : res (Z * ll_state) :=
  with_domain cur st (fun st d => move_rc v st d old_path new_path is_dir is_link).

(** ** The system calls *)

(** What a descriptor leads to. *)
Inductive fd_answer := NoHandle | OtherHandle | RulesetHandle (rs : nat).
Definition ruleset_from_fd (fd : fd_answer) : Z + nat :=
  match fd with NoHandle => inl (- EBADF) | OtherHandle => inl (- EBADFD) | RulesetHandle rs => inr rs end.
Definition ruleset_release (rs : nat) (st : ll_state) : res ll_state := ruleset_put rs st.

Definition check_tail (tail : list (option Z)) : Z :=
  match first_index (fun b => match b with Some 0 => false | _ => true end) tail with
  | None => 0
  | Some i => match tail !! i with Some (Some _) => - E2BIG | _ => - EFAULT end
  end.
(** [attr] is what the copy of the structure gives, [tail] the bytes after it;
    then the answers of the heap and of the descriptor table ([fd]: [None] when
    there is no handle). *)
Definition ll_create_ruleset (uattr_null : bool) (size flags : Z) (attr : option (Z * Z * Z)) (tail : list (option Z))
    (slots : nat) (table_ok rs_ok : bool) (fd : option Z) (st : ll_state) : res (Z * ll_state) :=
  if flags =? LANDLOCK_CREATE_RULESET_VERSION then
    Ok (if negb uattr_null || (size <>? 0) then - EINVAL else LANDLOCK_ABI_VERSION, st)
  else if flags <>? 0 then Ok (- EINVAL, st)
  else if uattr_null then Ok (- EFAULT, st)
  else if size <? 8 then Ok (- EINVAL, st)
  else if PAGE_SIZE <? size then Ok (- E2BIG, st)
  else match attr with
       | None => Ok (- EFAULT, st)
       | Some (a0, a1, a2) =>
           if check_tail tail <>? 0 then Ok (check_tail tail, st)
           else if Z.land a0 (Z.lnot LL_ACCESS_FS_ALL) <>? 0 then Ok (- EINVAL, st)
           else if (a1 <>? 0) || (a2 <>? 0) then Ok (- EINVAL, st)
           else if a0 =? 0 then Ok (- ENOMSG, st)
           else if bool_decide (g_task_domain st = None) && negb table_ok then Ok (- ENOMEM, st)
           else
             let st := match g_task_domain st with None => set_table (Some (replicate slots None)) st | Some _ => st end in
             if negb rs_ok then Ok (- ENOMEM, st)
             else
               match fd with
               | None => Ok (- ENFILE, st)
               | Some fd =>
                   let rs := length (rulesets st) in
                   let st := set_rulesets (rulesets st ++ [mkRs 1 a0 [] true]) st in
                   if fd <? 0 then let* st := ruleset_release rs st in Ok (fd, st) else Ok (fd, st)
               end
       end.
Definition add_to (r : ll_rule) (rs : ll_ruleset) : ll_ruleset := mkRs (rs_refs rs) (handled_fs rs) (rules rs ++ [r]) (rs_live rs).
(** [pb] is the copied structure and the node of its descriptor. *)
Definition ll_add_rule (v : vfs_answers) (flags type : Z) (fd : fd_answer) (pb : option (Z * option node_info)) (kmalloc_ok : bool) (st : ll_state)
    : res (Z * ll_state) :=
  if flags <>? 0 then Ok (- EINVAL, st)
  else match ruleset_from_fd fd with
       | inl e => Ok (e, st)
       | inr rs =>
           if type <>? LANDLOCK_RULE_PATH_BENEATH then Ok (- EINVAL, st)
           else match pb with
                | None => Ok (- EFAULT, st)
                | Some (access, n) =>
                    if access =? 0 then Ok (- ENOMSG, st)
                    else if negb (rs_live (rulesets st !!! rs)) then Fault
                    else if Z.land access (Z.lnot (handled_fs (rulesets st !!! rs))) <>? 0 then Ok (- EINVAL, st)
                    else match n with
                         | None => Ok (- EBADF, st)
                         | Some n =>
                             match vfs_get_node_path (task_root v) (n_up n) VFS_MAX_PATH with
                             | inl e => Ok (e, st)
                             | inr canon =>
                                 if negb (n_dir n) && (Z.land access (Z.lnot LL_ACCESS_FILE) <>? 0) then Ok (- EINVAL, st)
                                 else if LANDLOCK_MAX_RULES <=? Z.of_nat (length (rules (rulesets st !!! rs))) then Ok (- E2BIG, st)
                                 else if negb kmalloc_ok then Ok (- ENOMEM, st)
                                 else Ok (0, set_rulesets (alter (add_to (mkRule canon access)) rs (rulesets st)) st)
                             end
                         end
                end
       end.
(** Up to the locked section: an error (and the domain to put back), or the
    ruleset and the caller's domain, held. *)
Definition restrict_begin (table : ns_state) (c : option cred) (no_new_privs : bool) (cur : nat) (flags : Z) (fd : fd_answer)
    (alloc_ok : bool) (st : ll_state) : res ((Z * option nat + nat * option nat) * ll_state) :=
  if flags <>? 0 then Ok (inl (- EINVAL, None), st)
  else if negb no_new_privs && negb (ns_capable_cred table c (cred_userns c) CAP_SYS_ADMIN) then Ok (inl (- EPERM, None), st)
  else match ruleset_from_fd fd with
       | inl e => Ok (inl (e, None), st)
       | inr src =>
           let* '(d, st) := domain_current (Some cur) st in
           if match d with Some i => LANDLOCK_MAX_LAYERS <=? depth (data (domains st !!! i)) | None => false end
           then Ok (inl (- E2BIG, d), st)
           else if negb alloc_ok then Ok (inl (- ENOMEM, d), st)
           else Ok (inr (src, d), st)
       end.
(** The locked section: a snapshot of the ruleset (as many rules as the heap had
    room for, [copied] of them) on top of the caller's domain, whose reference
    moves into the chain.  What the row held is to be put. *)
Definition restrict_commit (cur : nat) (src : nat) (d : option nat) (copied : nat) (st : ll_state) : res (option nat * ll_state) :=
  let r := rulesets st !!! src in
  if negb (rs_live r) then Fault
  else
    let snap := length (rulesets st) in
    let n := match d with Some i => depth (data (domains st !!! i)) + 1 | None => 1 end in
    let new := length (domains st) in
    let st := set_rulesets (rulesets st ++ [mkRs 1 (handled_fs r) (take copied (rules r)) true]) st in
    let st := set_domains (domains st ++ [mkNode (mkLayer n snap) d 1 true]) st in
    match g_task_domain st with
    | None => Fault
    | Some t => if bool_decide (cur < length t)%nat then Ok (domain_row cur st, set_table (Some (<[cur := Some new]> t)) st) else Fault
    end.
End Landlock.
