(* ===== verification/LandlockProofs.v ===== *)
(** Landlock: references, what is refused, and that restrictions only add up.

    A system is the state of [Landlock] with the references that calls in
    progress hold on domains and that descriptors hold on rulesets.  A caller's
    ruleset descriptor stays open during its call. *)
From Stdlib Require Import ZifyBool.
From S2P Require Import Prelude RefChain Cred UserNs Landlock.
From stdpp Require Import list.
Local Open Scope Z_scope.
Local Open Scope kernel_scope.

Module LandlockProofs.
Import RefChain Cred UserNs Landlock.

Record sys := mkSys { ll : ll_state; calls : list nat; opened : list nat }.
Definition boot : sys := mkSys ll_boot [] [].
Definition rows (st : ll_state) : list (option nat) := default [] (g_task_domain st).

Inductive op :=
| OGet (row : nat) | OPut (n : nat)
| OFork (parent child : nat) | OReset (row : nat)
| OCreate (null : bool) (size flags : Z) (attr : option (Z * Z * Z)) (tail : list (option Z)) (slots : nat) (table_ok rs_ok : bool) (fd : option Z)
| OClose (n : nat)
| OAddRule (v : vfs_answers) (flags type : Z) (fd : fd_answer) (pb : option (Z * option node_info)) (kmalloc_ok : bool)
| ORestrict (cur src n copied : nat).
Definition fd_open (s : sys) (fd : fd_answer) : Prop := match fd with RulesetHandle rs => rs ∈ opened s | _ => True end.
(** Names of nodes are not empty and have no slash. *)
Definition name_ok (n : path) : Prop := n <> [] /\ slash ∉ n.
Definition named (n : vnode) : Prop := v_parent n <> NoParent -> name_ok (v_name n).
Definition beneath_named (pb : option (Z * option node_info)) : Prop :=
  match pb with Some (_, Some n) => Forall named (n_up n) | _ => True end.
(** The second section of [ll_restrict_self] runs with the caller's domain still
    in its row, and held since the first. *)
Definition allowed (o : op) (s : sys) : Prop :=
  match o with
  | OPut n => (n < length (calls s))%nat
  | OClose n => (n < length (opened s))%nat
  | OAddRule _ _ _ fd pb _ => fd_open s fd /\ beneath_named pb
  | ORestrict cur src n _ => src ∈ opened s /\ (cur < length (rows (ll s)))%nat /\
      match domain_row cur (ll s) with Some d => calls s !! n = Some d | None => True end
  | _ => True
  end.
Definition exec_op (o : op) (s : sys) : res sys :=
  match o with
  | OGet row => let* '(d, st) := domain_get_task row (ll s) in Ok (mkSys st (opt d ++ calls s) (opened s))
  | OPut n => match calls s !! n with
              | None => Ok s
              | Some d => let* '(next, st) := domain_put_round d (ll s) in Ok (mkSys st (opt next ++ delete n (calls s)) (opened s)) end
  | OFork p c => let* '(old, st) := landlock_fork p c (ll s) in Ok (mkSys st (opt old ++ calls s) (opened s))
  | OReset row => let '(old, st) := landlock_task_reset row (ll s) in Ok (mkSys st (opt old ++ calls s) (opened s))
  | OCreate null size flags attr tail slots tok rok fd =>
      let* '(rc, st) := ll_create_ruleset null size flags attr tail slots tok rok fd (ll s) in
      Ok (mkSys st (calls s) (if bool_decide (length (rulesets (ll s)) < length (rulesets st))%nat && (0 <=? rc)
                              then length (rulesets (ll s)) :: opened s else opened s))
  | OClose n => match opened s !! n with
                | None => Ok s
                | Some rs => let* st := ruleset_release rs (ll s) in Ok (mkSys st (calls s) (delete n (opened s))) end
  | OAddRule v flags type fd pb ok => let* '(_, st) := ll_add_rule v flags type fd pb ok (ll s) in Ok (mkSys st (calls s) (opened s))
  | ORestrict cur src n copied =>
      let d := domain_row cur (ll s) in
      let* '(old, st) := restrict_commit cur src d copied (ll s) in
      Ok (mkSys st (opt old ++ match d with Some _ => delete n (calls s) | None => calls s end) (opened s))
  end.
Definition step (s s' : sys) : Prop := exists o, allowed o s /\ exec_op o s = Ok s'.
Definition spares (t : nat) (o : op) : Prop := match o with OReset t' | OFork _ t' => t' <> t | _ => True end.
Definition step_sparing (t : nat) (s s' : sys) : Prop := exists o, allowed o s /\ spares t o /\ exec_op o s = Ok s'.

(** ** The invariant *)

Definition held (s : sys) : list nat := held_by (rows (ll s)) ++ calls s.
Definition has_layer (r : nat) (x : node ll_layer) : bool := live x && bool_decide (layer (data x) = r).
Definition rs_refs_of (s : sys) (r : nat) : nat := (occurs r (opened s) + count_if (has_layer r) (domains (ll s)))%nat.
Record inv (s : sys) : Prop := {
  i_chain : chain_ok (domains (ll s)) (held s);
  i_rs : forall r, if rs_live (rulesets (ll s) !!! r)
    then rs_refs (rulesets (ll s) !!! r) = Z.of_nat (rs_refs_of s r) /\ (0 < rs_refs_of s r)%nat else rs_refs_of s r = 0%nat;
  (* a layer is nobody else's *)
  i_own : forall r, (0 < count_if (has_layer r) (domains (ll s)))%nat -> r ∉ opened s }.

Lemma rs_lt (l : list ll_ruleset) r : rs_live (l !!! r) = true -> (r < length l)%nat.
Proof. rewrite list_lookup_total_alt. destruct (l !! r) eqn:E; [|done]. intros _. by apply lookup_lt_Some in E. Qed.
Lemma rs_alter (l : list ll_ruleset) g r i : (i < length l)%nat -> alter g i l !!! r = if bool_decide (r = i) then g (l !!! i) else l !!! r.
Proof.
  intros L. rewrite !list_lookup_total_alt. case_bool_decide as E; [subst i|by rewrite list_lookup_alter_ne].
  rewrite list_lookup_alter, decide_True by done. by destruct (lookup_lt_is_Some_2 _ _ L) as [x ->].
Qed.
Lemma rs_app (l : list ll_ruleset) x r : (l ++ [x]) !!! r = if bool_decide (r = length l) then x else l !!! r.
Proof.
  rewrite !list_lookup_total_alt. case_bool_decide as E; [subst; by rewrite lookup_app_r, Nat.sub_diag|].
  destruct (decide (r < length l)%nat); [by rewrite lookup_app_l by done|].
  rewrite lookup_ge_None_2 by (rewrite length_app; cbn; lia). by rewrite lookup_ge_None_2 by lia.
Qed.
Lemma count_layers_alter g f l r : (f < length l)%nat -> has_layer r (g (l !!! f)) = has_layer r (l !!! f) ->
  count_if (has_layer r) (alter g f l) = count_if (has_layer r) l.
Proof.
  intros L E. destruct (lookup_lt_is_Some_2 _ _ L) as [x Hx]. rewrite (alter_as_insert _ _ _ _ Hx).
  rewrite (list_lookup_total_correct _ _ _ Hx) in E. pose proof (count_if_insert (has_layer r) l f x (g x) Hx) as C. rewrite E in C. lia.
Qed.
Lemma count_layers_pos l f : live (l !!! f) = true -> (0 < count_if (has_layer (layer (data (l !!! f)))) l)%nat.
Proof.
  intros L. apply count_if_first, (first_index_is_Some _ _ f (l !!! f)); [by apply live_lookup|]. unfold has_layer.
  by rewrite L, bool_decide_eq_true_2.
Qed.
Lemma layer_live s f : inv s -> live (domains (ll s) !!! f) = true -> rs_live (rulesets (ll s) !!! layer (data (domains (ll s) !!! f))) = true.
Proof.
  intros I L. pose proof (count_layers_pos _ _ L) as C. pose proof (i_rs _ I (layer (data (domains (ll s) !!! f)))) as R.
  destruct (rs_live _); [done|]. unfold rs_refs_of in R. lia.
Qed.
Lemma opened_live s r : inv s -> r ∈ opened s -> rs_live (rulesets (ll s) !!! r) = true.
Proof.
  intros I O%occurs_pos. pose proof (i_rs _ I r) as R. destruct (rs_live _); [done|]. unfold rs_refs_of in R. lia.
Qed.

(** What changes counts of domains only. *)
Lemma inv_domains s l calls' t : inv s -> chain_ok l (held_by (rows (set_table t (ll s))) ++ calls') ->
  (forall r, count_if (has_layer r) l = count_if (has_layer r) (domains (ll s))) ->
  inv (mkSys (set_table t (set_domains l (ll s))) calls' (opened s)).
Proof.
  intros I K C. constructor; [exact K| |].
  - intros r. pose proof (i_rs _ I r) as R. unfold rs_refs_of in *. cbn [ll opened domains set_domains set_table rulesets]. by rewrite C.
  - intros r. cbn [ll opened domains set_domains set_table]. rewrite C. apply (i_own _ I).
Qed.
Lemma get_inv s row : inv s -> exists d st, domain_get_task row (ll s) = Ok (d, st) /\ d = domain_row row (ll s) /\
  rows st = rows (ll s) /\ g_task_domain st = g_task_domain (ll s) /\ rulesets st = rulesets (ll s) /\ extends (domains (ll s)) (domains st) /\
  inv (mkSys st (opt d ++ calls s) (opened s)).
Proof.
  intros I. unfold domain_get_task. destruct (domain_row row (ll s)) as [d|] eqn:E.
  - assert (L : live (domains (ll s) !!! d) = true).
    { apply (chain_held_live _ _ (i_chain _ I)). unfold held, rows. apply elem_of_app. left. unfold domain_row in E.
      destruct (g_task_domain (ll s)) as [t|]; [|done]. destruct (t !! row) as [x|] eqn:F; [|done]. subst x. cbn. by eapply held_by_lookup. }
    destruct (chain_get_ok _ _ d (i_chain _ I) L) as (l & G & K). rewrite G. cbn [rbind]. do 2 eexists. split; [reflexivity|].
    unfold get_ref in G. rewrite L in G. injection G as <-. split_and!; [done..|by apply extends_alter|].
    apply (inv_domains s _ _ (g_task_domain (ll s)) I).
    + unfold held in K. by rewrite Permutation_app_swap_app.
    + intros r. by apply count_layers_alter; [apply chain_live_lt|].
  - do 2 eexists. split_and!; [reflexivity..|done|]. by destruct s.
Qed.

(** Counts of rulesets, apart from where they come from. *)
Definition counted (l : list ll_ruleset) (cnt : nat -> nat) : Prop :=
  forall r, if rs_live (l !!! r) then rs_refs (l !!! r) = Z.of_nat (cnt r) /\ (0 < cnt r)%nat else cnt r = 0%nat.
(** The contents of rulesets stay what they are. *)
Definition same_rules (l l' : list ll_ruleset) : Prop :=
  forall r, handled_fs (l' !!! r) = handled_fs (l !!! r) /\ rules (l' !!! r) = rules (l !!! r).
Lemma ruleset_put_ok st cnt cnt' r : counted (rulesets st) cnt -> (0 < cnt r)%nat ->
  (forall r', cnt' r' = (cnt r' - if bool_decide (r' = r) then 1 else 0)%nat) ->
  exists l, ruleset_put r st = Ok (set_rulesets l st) /\ counted l cnt' /\ same_rules (rulesets st) l.
Proof.
  intros K Hr C. pose proof (K r) as R. destruct (rs_live (rulesets st !!! r)) eqn:L; [|lia]. pose proof (rs_lt _ _ L) as Lt.
  unfold ruleset_put. cbv zeta. rewrite L. cbn [negb]. replace (rs_refs (rulesets st !!! r) - 1 <? 0) with false by lia.
  eexists. split; [reflexivity|]. split.
  - intros r'. rewrite rs_alter, C by done. specialize (K r'). destruct (bool_decide_reflect (r' = r)) as [->|N]; [|by rewrite Nat.sub_0_r].
    destruct (Z.eqb_spec (rs_refs (rulesets st !!! r) - 1) 0); cbn; [lia|]. rewrite L. lia.
  - intros r'. rewrite rs_alter by done. case_bool_decide as E; [|done]. subst r'. by destruct (_ =? 0).
Qed.
Lemma put_inv s n d : inv s -> calls s !! n = Some d -> exists next st, domain_put_round d (ll s) = Ok (next, st) /\
  g_task_domain st = g_task_domain (ll s) /\ extends (domains (ll s)) (domains st) /\ same_rules (rulesets (ll s)) (rulesets st) /\
  inv (mkSys st (opt next ++ delete n (calls s)) (opened s)).
Proof.
  intros I Hn. assert (P : held s ≡ₚ d :: held_by (rows (ll s)) ++ delete n (calls s)).
  { unfold held. rewrite (delete_Permutation _ _ _ Hn) at 1. by rewrite Permutation_middle. }
  pose proof (i_chain _ I) as K. rewrite P in K. pose proof (chain_held_live _ _ K d ltac:(left)) as L. pose proof (chain_live_lt _ _ L) as Lt.
  destruct (chain_put_ok _ _ _ K) as (left & l & E & Hl & K1 & K2). unfold domain_put_round. rewrite E. cbn [rbind].
  unfold put_ref in E. rewrite L in E. injection E as <- <-. rewrite total_alter, bool_decide_eq_true_2 by done. cbn [add_ref link data].
  destruct (Z.eqb_spec (refcount (domains (ll s) !!! d) - 1) 0) as [Hz|Hz]; cbn [negb].
  - set (r := layer (data (domains (ll s) !!! d))).
    assert (C : forall r', count_if (has_layer r') (free d (alter (add_ref (-1)) d (domains (ll s))))
      = (count_if (has_layer r') (domains (ll s)) - if bool_decide (r' = r) then 1 else 0)%nat).
    { intros r'. unfold free. rewrite alter_alter. destruct (lookup_lt_is_Some_2 _ _ Lt) as [x Hx]. rewrite (alter_as_insert _ _ _ _ Hx).
      pose proof (list_lookup_total_correct _ _ _ Hx) as Ex. pose proof (count_if_insert (has_layer r') _ _ _ (kill (add_ref (-1) x)) Hx) as CI.
      unfold has_layer at 2 4 in CI. rewrite <- Ex, L in CI. cbn [kill live andb] in CI. fold r in CI. rewrite <- Ex.
      rewrite (bool_decide_ext (r' = r) (r = r')) by (split; congruence). lia. }
    destruct (ruleset_put_ok (ll s) (rs_refs_of s) (rs_refs_of (mkSys (set_domains (free d (alter (add_ref (-1)) d (domains (ll s)))) (ll s)) [] (opened s))) r)
      as (rl & ER & CR & SR); [exact (i_rs _ I)|pose proof (count_layers_pos _ _ L) as CP; unfold rs_refs_of; fold r in CP; lia| |].
    { intros r'. unfold rs_refs_of. cbn [ll opened domains set_domains]. rewrite C. destruct (bool_decide_reflect (r' = r)) as [->|]; [|lia].
      pose proof (count_layers_pos _ _ L) as CP. fold r in CP. lia. }
    rewrite ER. cbn [rbind]. do 2 eexists. split; [reflexivity|]. split_and!; [done| |done|].
    + cbn. unfold free. rewrite alter_alter. by apply extends_alter.
    + constructor; [|exact CR|].
      * unfold held. cbn. specialize (K2 Hz). by rewrite Permutation_app_swap_app.
      * intros r'. cbn [ll opened domains set_domains set_rulesets]. rewrite C. intros Hr'. apply (i_own _ I). lia.
  - do 2 eexists. split; [reflexivity|]. split_and!; [done|by apply extends_alter|done|].
    apply (inv_domains s _ _ (g_task_domain (ll s)) I); [by apply K1|]. intros r. by apply count_layers_alter.
Qed.
(** A row replaced by a reference the call holds. *)
Lemma swap_inv s row d calls' : inv s -> calls s ≡ₚ opt d ++ calls' -> let '(old, st) := swap_row row d (ll s) in
  domains st = domains (ll s) /\ rulesets st = rulesets (ll s) /\ (forall t, t <> row -> domain_row t st = domain_row t (ll s)) /\
  inv (mkSys st (opt old ++ calls') (opened s)).
Proof.
  intros I P. unfold swap_row. pose proof (i_chain _ I) as K. unfold held, rows in K. rewrite P in K.
  assert (Same : inv (mkSys (ll s) (opt d ++ calls') (opened s))).
  { constructor; [unfold held, rows; exact K|apply I|apply I]. }
  destruct (g_task_domain (ll s)) as [t|] eqn:T; [|done]. case_bool_decide as Lt; [|done].
  destruct (lookup_lt_is_Some_2 _ _ Lt) as [x Hx]. split_and!; [done|done| |].
  - intros u N. unfold domain_row. cbn. by rewrite T, list_lookup_insert_ne by done.
  - apply (inv_domains s (domains (ll s)) _ _ I); [|done]. cbn [default set_table rows g_task_domain].
    unfold domain_row. rewrite T, Hx. cbn [default] in K. pose proof (held_by_insert _ _ _ d Hx) as PI.
    unfold rows. cbn. rewrite app_assoc, <- PI, <- app_assoc. exact K.
Qed.

Lemma fresh_ruleset s : inv s -> rs_refs_of s (length (rulesets (ll s))) = 0%nat.
Proof. intros I. pose proof (i_rs _ I (length (rulesets (ll s)))) as R. destruct (rs_live _) eqn:L; [apply rs_lt in L; lia|done]. Qed.
(** A table appears with no references in it. *)
Lemma table_inv s slots : inv s ->
  let st := match g_task_domain (ll s) with None => set_table (Some (replicate slots None)) (ll s) | Some _ => ll s end in
  inv (mkSys st (calls s) (opened s)) /\ domains st = domains (ll s) /\ rulesets st = rulesets (ll s) /\
  (forall t, domain_row t st = domain_row t (ll s)).
Proof.
  intros I st. unfold st. destruct (g_task_domain (ll s)) as [t|] eqn:T; [by destruct s|]. split_and!; [|done|done|].
  - apply (inv_domains s (domains (ll s)) _ _ I); [|done]. pose proof (i_chain _ I) as K. unfold held, rows in *. rewrite T in K.
    cbn [g_task_domain set_table default] in *. assert (E : held_by (replicate slots None) = []) by (by induction slots).
    change (id (replicate slots None)) with (replicate slots (@None nat)). by rewrite E.
  - intros t. unfold domain_row. rewrite T. cbn. destruct (replicate slots None !! t) as [x|] eqn:E; [|done].
    by apply lookup_replicate in E as [-> _].
Qed.
Lemma new_ruleset_inv s h : inv s -> inv (mkSys (set_rulesets (rulesets (ll s) ++ [mkRs 1 h [] true]) (ll s)) (calls s) (length (rulesets (ll s)) :: opened s)).
Proof.
  intros I. pose proof (fresh_ruleset s I) as F. unfold rs_refs_of in F. constructor; [apply I| |].
  - intros r. pose proof (i_rs _ I r) as R. unfold rs_refs_of in *. cbn [ll opened domains set_rulesets rulesets]. rewrite rs_app, occurs_cons.
    destruct (bool_decide_reflect (r = length (rulesets (ll s)))) as [->|N]; [cbn; rewrite bool_decide_eq_true_2 by done; lia|].
    rewrite bool_decide_eq_false_2 by congruence. exact R.
  - intros r. cbn [ll opened domains set_rulesets]. intros C. apply not_elem_of_cons. split; [intros ->; lia|by apply (i_own _ I)].
Qed.
Lemma close_inv s n r : inv s -> opened s !! n = Some r -> exists l, ruleset_release r (ll s) = Ok (set_rulesets l (ll s)) /\
  same_rules (rulesets (ll s)) l /\ inv (mkSys (set_rulesets l (ll s)) (calls s) (delete n (opened s))).
Proof.
  intros I Hn. pose proof (delete_Permutation _ _ _ Hn) as P.
  assert (O : forall r', occurs r' (opened s) = ((if bool_decide (r' = r) then 1 else 0) + occurs r' (delete n (opened s)))%nat).
  { intros r'. rewrite (occurs_proper _ _ _ P), occurs_cons. by rewrite (bool_decide_ext (r = r') (r' = r)) by (split; congruence). }
  destruct (ruleset_put_ok (ll s) (rs_refs_of s) (rs_refs_of (mkSys (ll s) [] (delete n (opened s)))) r) as (l & E & C & S); [exact (i_rs _ I)| | |].
  - unfold rs_refs_of. rewrite O, bool_decide_eq_true_2 by done. lia.
  - intros r'. unfold rs_refs_of. cbn [ll opened]. rewrite (O r'). destruct (bool_decide (r' = r)); lia.
  - unfold ruleset_release. exists l. split_and!; [done|done|]. constructor; [apply I|exact C|]. intros r' Hr'. cbn [opened].
    pose proof (i_own _ I r' Hr') as N. contradict N. rewrite P. by right.
Qed.
Lemma create_inv s null size flags attr tail slots tok rok fd : inv s ->
  exists rc st, ll_create_ruleset null size flags attr tail slots tok rok fd (ll s) = Ok (rc, st) /\
    domains st = domains (ll s) /\ (forall t, domain_row t st = domain_row t (ll s)) /\
    (forall r, rules (rulesets st !!! r) = rules (rulesets (ll s) !!! r)) /\
    (forall r, (r < length (rulesets (ll s)))%nat -> handled_fs (rulesets st !!! r) = handled_fs (rulesets (ll s) !!! r)) /\
    inv (mkSys st (calls s) (if bool_decide (length (rulesets (ll s)) < length (rulesets st))%nat && (0 <=? rc)
                              then length (rulesets (ll s)) :: opened s else opened s)).
Proof.
  intros I. assert (N : forall rc : Z, exists rc' st, Ok (rc, ll s) = Ok (rc', st) /\ domains st = domains (ll s) /\ (forall t, domain_row t st = domain_row t (ll s)) /\
    (forall r, rules (rulesets st !!! r) = rules (rulesets (ll s) !!! r)) /\
    (forall r, (r < length (rulesets (ll s)))%nat -> handled_fs (rulesets st !!! r) = handled_fs (rulesets (ll s) !!! r)) /\
    inv (mkSys st (calls s) (if bool_decide (length (rulesets (ll s)) < length (rulesets st))%nat && (0 <=? rc')
                              then length (rulesets (ll s)) :: opened s else opened s))).
  { intros rc. do 2 eexists. split_and!; [reflexivity|done..|]. rewrite bool_decide_eq_false_2 by lia. by destruct s. }
  unfold ll_create_ruleset. destruct (_ =? _); [apply N|]. destruct (negb _); [apply N|]. destruct null; [apply N|].
  destruct (_ <? _); [apply N|]. destruct (_ <? _); [apply N|]. destruct attr as [[[a0 a1] a2]|]; [|apply N]. destruct (negb _); [apply N|].
  destruct (negb _); [apply N|]. destruct (_ || _); [apply N|]. destruct (a0 =? 0); [apply N|]. destruct (_ && _); [apply N|]. cbv zeta. clear N.
  destruct (table_inv s slots I) as (I1 & D & RL & T). set (st := match g_task_domain (ll s) with None => _ | Some _ => _ end) in *.
  destruct (negb rok). { do 2 eexists. split_and!; [reflexivity|done|done|by rewrite RL|by rewrite RL|]. rewrite RL, bool_decide_eq_false_2 by lia. exact I1. }
  destruct fd as [fd|]. 2: { do 2 eexists. split_and!; [reflexivity|done|done|by rewrite RL|by rewrite RL|]. rewrite RL, bool_decide_eq_false_2 by lia. exact I1. }
  pose proof (new_ruleset_inv _ a0 I1) as I2. cbn [ll calls opened] in I2. rewrite RL in I2 |- *. cbn [rulesets set_rulesets].
  assert (App : forall x r, (r < length (rulesets (ll s)))%nat -> (rulesets (ll s) ++ [x]) !!! r = rulesets (ll s) !!! r)
    by (intros x r Hr; rewrite rs_app, bool_decide_eq_false_2 by lia; done).
  assert (Emp : forall r, rules ((rulesets (ll s) ++ [mkRs 1 a0 [] true]) !!! r) = rules (rulesets (ll s) !!! r)).
  { intros r. rewrite rs_app. case_bool_decide as Er; [|done]. subst r. by rewrite list_lookup_total_alt, lookup_ge_None_2. }
  destruct (fd <? 0) eqn:Hfd.
  - destruct (close_inv _ 0 (length (rulesets (ll s))) I2 eq_refl) as (l & E & S & I3).
    cbn [ll calls opened delete list_delete] in E, I3, S. rewrite E. cbn [rbind]. do 2 eexists. split_and!; [reflexivity|done|exact T| | |].
    + intros r. cbn. destruct (S r) as [_ ->]. apply Emp.
    + intros r Hr. cbn. destruct (S r) as [-> _]. cbn. by rewrite App.
    + replace (0 <=? fd) with false by lia. rewrite andb_false_r. exact I3.
  - do 2 eexists. split_and!; [reflexivity|done|exact T|exact Emp| |].
    + intros r Hr. cbn. by rewrite App.
    + cbn. rewrite length_app, bool_decide_eq_true_2 by (cbn; lia). replace (0 <=? fd) with true by lia. exact I2.
Qed.

Lemma add_rule_inv s v flags type fd pb ok : inv s -> fd_open s fd -> exists rc st, ll_add_rule v flags type fd pb ok (ll s) = Ok (rc, st) /\
  domains st = domains (ll s) /\ g_task_domain st = g_task_domain (ll s) /\
  (forall r, r ∉ opened s -> rulesets st !!! r = rulesets (ll s) !!! r) /\ inv (mkSys st (calls s) (opened s)).
Proof.
  intros I F. assert (N : forall rc : Z, exists rc' st, Ok (rc, ll s) = Ok (rc', st) /\ domains st = domains (ll s) /\ g_task_domain st = g_task_domain (ll s) /\
    (forall r, r ∉ opened s -> rulesets st !!! r = rulesets (ll s) !!! r) /\ inv (mkSys st (calls s) (opened s)))
    by (intros rc; do 2 eexists; split_and!; [reflexivity|done..|by destruct s]).
  unfold ll_add_rule. destruct (negb _); [apply N|]. destruct fd as [| |rs]; [apply N|apply N|]. cbn [ruleset_from_fd]. cbn in F.
  destruct (negb _); [apply N|]. destruct pb as [[access n]|]; [|apply N]. destruct (access =? 0); [apply N|].
  pose proof (opened_live s rs I F) as L. pose proof (rs_lt _ _ L) as Lt. rewrite L. cbn [negb]. destruct (negb _); [apply N|].
  destruct n as [n|]; [|apply N]. destruct (vfs_get_node_path _ _ _) as [e|canon]; [apply N|]. destruct (_ && _); [apply N|].
  destruct (_ <=? _); [apply N|]. destruct (negb ok); [apply N|]. clear N. do 2 eexists. split_and!; [reflexivity|done|done| |].
  - intros r Hr. cbn. rewrite rs_alter by done. rewrite bool_decide_eq_false_2; [done|]. by intros ->.
  - constructor; [apply I| |apply I]. intros r. pose proof (i_rs _ I r) as R. unfold rs_refs_of in *. cbn [ll opened domains set_rulesets rulesets].
    rewrite rs_alter by done. destruct (bool_decide_reflect (r = rs)) as [->|]; exact R.
Qed.
Lemma restrict_inv s cur src n copied : inv s -> allowed (ORestrict cur src n copied) s ->
  let d := domain_row cur (ll s) in
  let lay := mkLayer (match d with Some i => depth (data (domains (ll s) !!! i)) + 1 | None => 1 end) (length (rulesets (ll s))) in
  exists st, restrict_commit cur src d copied (ll s) = Ok (d, st) /\
    domains st = domains (ll s) ++ [mkNode lay d 1 true] /\
    rulesets st = rulesets (ll s) ++ [mkRs 1 (handled_fs (rulesets (ll s) !!! src)) (take copied (rules (rulesets (ll s) !!! src))) true] /\
    domain_row cur st = Some (length (domains (ll s))) /\ (forall t, t <> cur -> domain_row t st = domain_row t (ll s)) /\
    inv (mkSys st (opt d ++ match d with Some _ => delete n (calls s) | None => calls s end) (opened s)).
Proof.
  intros I (Hs & Hc & Hd) d lay. unfold restrict_commit. cbv zeta. rewrite (opened_live s src I Hs). cbn [negb].
  unfold rows in Hc. cbn [g_task_domain set_domains set_rulesets]. destruct (g_task_domain (ll s)) as [t|] eqn:T; [|cbn in Hc; lia]. cbn in Hc.
  rewrite bool_decide_eq_true_2 by done. set (rs := mkRs _ _ _ _). eexists. split; [reflexivity|].
  split_and!; [done|done|unfold domain_row; cbn; by rewrite list_lookup_insert, decide_True by done| |].
  { intros u N. unfold domain_row. cbn. rewrite T. by rewrite list_lookup_insert_ne by done. }
  set (rest := match d with Some _ => delete n (calls s) | None => calls s end).
  assert (P : calls s ≡ₚ opt d ++ rest) by (unfold rest; fold d in Hd; destruct d; [by apply delete_Permutation|done]).
  assert (Hrow : t !! cur = Some d) by (unfold d, domain_row; rewrite T; by destruct (lookup_lt_is_Some_2 _ _ Hc) as [x ->]).
  constructor.
  - unfold held, rows. cbn. pose proof (i_chain _ I) as K. unfold held, rows in K. rewrite T in K. cbn in K. rewrite P in K.
    assert (P2 : held_by (<[cur:=Some (length (domains (ll s)))]> t) ++ opt d ++ rest ≡ₚ length (domains (ll s)) :: held_by t ++ rest).
    { rewrite app_assoc, <- (held_by_insert _ _ _ (Some (length (domains (ll s)))) Hrow). cbn [opt]. by rewrite <- Permutation_cons_append. }
    rewrite P2. apply chain_push_ok. by rewrite Permutation_app_swap_app in K.
  - intros r. pose proof (i_rs _ I r) as R. pose proof (fresh_ruleset s I) as F. unfold rs_refs_of in *.
    cbn [ll opened domains set_rulesets set_domains set_table rulesets]. rewrite rs_app, count_if_app, count_if_cons. change (count_if (has_layer r) []) with 0%nat.
    unfold has_layer at 2 4 6. cbn [live data layer lay andb].
    destruct (bool_decide_reflect (r = length (rulesets (ll s)))) as [->|N]; [cbn; rewrite bool_decide_eq_true_2 by done; lia|].
    rewrite bool_decide_eq_false_2 by congruence. destruct (rs_live _); lia.
  - intros r. cbn [ll opened domains set_rulesets set_domains set_table]. rewrite count_if_app, count_if_cons. change (count_if (has_layer r) []) with 0%nat.
    unfold has_layer at 2. cbn [live data layer lay andb]. intros C. destruct (bool_decide_reflect (length (rulesets (ll s)) = r)) as [E|N]; [rewrite <- E|apply (i_own _ I); lia].
    intros O%(opened_live s _ I)%rs_lt. lia.
Qed.
Lemma landlock_step_inv o s : inv s -> allowed o s -> exists s', exec_op o s = Ok s' /\ inv s'.
Proof.
  intros I A. destruct o as [row|n|p c|row|null size flags attr tail slots tok rok fd|n|v flags type fd pb ok|cur src n copied]; cbn [exec_op].
  - destruct (get_inv s row I) as (d & st & -> & _ & _ & _ & _ & _ & I'). cbn [rbind]. by eexists.
  - destruct (lookup_lt_is_Some_2 _ _ A) as [d Hd]. rewrite Hd. destruct (put_inv s n d I Hd) as (next & st & -> & _ & _ & _ & I'). cbn [rbind]. by eexists.
  - unfold landlock_fork. destruct (get_inv s p I) as (d & st & -> & _ & _ & _ & _ & _ & I'). cbn [rbind].
    pose proof (swap_inv (mkSys st (opt d ++ calls s) (opened s)) c d (calls s) I' (Permutation_refl _)) as W. cbn [ll opened] in W.
    destruct (swap_row c d st) as [old st']. cbn [rbind]. eexists. split; [reflexivity|]. apply W.
  - unfold landlock_task_reset. pose proof (swap_inv s row None (calls s) I (Permutation_refl _)) as W. destruct (swap_row row None (ll s)) as [old st'].
    eexists. split; [reflexivity|]. apply W.
  - destruct (create_inv s null size flags attr tail slots tok rok fd I) as (rc & st & -> & _ & _ & _ & _ & I'). cbn [rbind]. by eexists.
  - destruct (lookup_lt_is_Some_2 _ _ A) as [r Hr]. rewrite Hr. destruct (close_inv s n r I Hr) as (l & -> & _ & I'). cbn [rbind]. by eexists.
  - destruct (add_rule_inv s v flags type fd pb ok I (proj1 A)) as (rc & st & -> & _ & _ & _ & I'). cbn [rbind]. by eexists.
  - destruct (restrict_inv s cur src n copied I A) as (st & -> & _ & _ & _ & _ & I'). cbn [rbind]. by eexists.
Qed.
Lemma landlock_reachable s : rtc step boot s -> inv s.
Proof.
  intros H. eapply rtc_invariant; [|exact H|].
  - intros a b (o & A & E) I. destruct (landlock_step_inv o a I A) as (s' & E' & I'). congruence.
  - constructor; [by constructor; [intros f|]|by intros r|intros r; cbn; unfold count_if; cbn; lia].
Qed.

(** ** The layers of a task *)

(** The rulesets in force for a task, newest first, without their counts. *)
Definition plain (rs : ll_ruleset) : ll_ruleset := mkRs 1 (handled_fs rs) (rules rs) true.
Definition layers_of (st : ll_state) (t : nat) : list ll_ruleset :=
  (fun x => plain (rulesets st !!! layer x)) <$> chain_of (domains st) (domain_row t st).
Definition denied (layers : list ll_ruleset) (canon : path) (access : Z) : bool := existsb (layer_denies canon access) layers.

Lemma row_live s t d : inv s -> domain_row t (ll s) = Some d -> live (domains (ll s) !!! d) = true.
Proof.
  intros I E. apply (chain_held_live _ _ (i_chain _ I)). unfold held, rows, domain_row in *. apply elem_of_app. left.
  destruct (g_task_domain (ll s)) as [l|]; [|done]. destruct (l !! t) as [x|] eqn:F; [|done]. subst x. cbn. by eapply held_by_lookup.
Qed.
Lemma row_below s t : inv s -> below (length (domains (ll s))) (domain_row t (ll s)).
Proof. intros I. destruct (domain_row t (ll s)) as [d|] eqn:E; [|done]. by apply chain_live_lt, (row_live s t). Qed.
Lemma check_denied s canon access fuel : forall d, inv s -> below fuel d ->
  match d with Some i => live (domains (ll s) !!! i) = true | None => True end ->
  ll_check_canon fuel (ll s) d canon access
    = Ok (if denied ((fun x => plain (rulesets (ll s) !!! layer x)) <$> along fuel (domains (ll s)) d) canon access then - EACCES else 0).
Proof.
  induction fuel as [|fuel IH]; intros d I B L; destruct d as [i|]; cbn in B; try done; [lia|].
  cbn [ll_check_canon along]. cbv zeta. rewrite L, (layer_live s i I L). cbn [negb fmap list_fmap]. unfold denied. cbn [existsb].
  match goal with |- context [layer_denies canon access (plain ?x)] => change (layer_denies canon access (plain x)) with (layer_denies canon access x) end.
  destruct (layer_denies _ _ _); [done|]. apply IH; [done|..]; destruct (link _) as [p|] eqn:P; try done;
    destruct (link_live _ _ (i_chain _ I) _ _ L P) as [HL Hp]; [cbn; lia|done].
Qed.
Lemma check_layers s d t canon access : inv s -> domain_row t (ll s) = Some d ->
  check (ll s) d canon access = Ok (if denied (layers_of (ll s) t) canon access then - EACCES else 0).
Proof.
  intros I E. unfold check, layers_of, chain_of. rewrite E. apply check_denied; [done|exact (chain_live_lt _ _ (row_live s t d I E))|exact (row_live s t d I E)].
Qed.

(** ** What a check answers, from the layers alone *)

Inductive request :=
| RPath (p : path) (access : Z) | RParent (p : path) (access : Z) | ROpen (p : path) (flags : Z) | RMove (old_path new_path : path) (is_dir is_link : bool).
Definition answer (v : vfs_answers) (t : nat) (q : request) (st : ll_state) : res (Z * ll_state) :=
  match q with
  | RPath p a => landlock_check_path v (Some t) p a st
  | RParent p a => landlock_check_parent v (Some t) p a st
  | ROpen p f => landlock_check_open v (Some t) p f st
  | RMove o n d l => landlock_check_move v (Some t) o n d l st
  end.
(** The result without references: [0], or why the layers refuse. *)
Definition verdict (layers : list ll_ruleset) (canon : path) (access : Z) : Z := if denied layers canon access then - EACCES else 0.
Definition verdict_of (layers : list ll_ruleset) (canon : Z + path) (access : Z) : Z :=
  match canon with inr c => verdict layers c access | inl e => if e =? - ENOENT then 0 else e end.
Definition open_verdict (v : vfs_answers) (layers : list ll_ruleset) (p : path) (flags : Z) : Z :=
  let acc := Z.land flags 3 in
  let access := Z.lor (if (acc =? O_WRONLY) || (acc =? O_RDWR) then LL_WRITE_FILE else 0) (if flags &? O_TRUNC then LL_TRUNCATE else 0) in
  let reads := (acc =? 0) || (acc =? O_RDWR) in
  match find_node v p with
  | inr n =>
      let access := if reads then Z.lor access (if n_dir n then LL_READ_DIR else LL_READ_FILE) else access in
      match vfs_get_node_path (task_root v) (n_up n) VFS_MAX_PATH with
      | inl e => e
      | inr canon => verdict layers canon access
      end
  | inl _ =>
      if flags &? O_CREAT
      then verdict_of layers (ll_canon_parent v p) (Z.lor (if reads then Z.lor access LL_READ_FILE else access) LL_MAKE_REG)
      else 0
  end.
Definition move_verdict (v : vfs_answers) (layers : list ll_ruleset) (old_path new_path : path) (is_dir is_link : bool) : Z :=
  match ll_canon_parent v old_path, ll_canon_parent v new_path with
  | inr op, inr np =>
      if negb is_link && denied layers op (if is_dir then LL_REMOVE_DIR else LL_REMOVE_FILE) then - EACCES
      else if denied layers np (if is_dir then LL_MAKE_DIR else LL_MAKE_REG) then - EACCES
      else if negb (bool_decide (op = np)) && (denied layers op LL_REFER || denied layers np LL_REFER) then - EXDEV
      else 0
  | _, _ => 0
  end.
Definition ruling (v : vfs_answers) (layers : list ll_ruleset) (q : request) : Z :=
  match layers, q with
  | [], _ => 0
  | _, RPath p a => verdict_of layers (ll_canon_existing v p) a
  | _, RParent p a => verdict_of layers (ll_canon_parent v p) a
  | _, ROpen p f => if f &? O_PATH then 0 else open_verdict v layers p f
  | _, RMove o n d l => move_verdict v layers o n d l
  end.

Lemma layers_nil st t : ordered (domains st) -> below (length (domains st)) (domain_row t st) -> layers_of st t = [] <-> domain_row t st = None.
Proof.
  intros O B. unfold layers_of, chain_of. destruct (domain_row t st) as [d|]; [|by destruct (length _)]. cbn in B.
  destruct (length (domains st)); [lia|]. cbn. by split.
Qed.
Lemma get_put {A} d (l : list (node A)) : alter (add_ref (-1)) d (alter (add_ref 1) d l) = l.
Proof. revert d. induction l as [|[da li n lv] l IH]; intros [|d]; cbn; [done..| |by rewrite <- (IH d) at 2]. unfold add_ref. cbn. do 2 f_equal. lia. Qed.
(** Taking the domain and giving it back leaves the state as it was. *)
Lemma with_domain_ok s t k rc : inv s ->
  (forall s1, inv s1 -> domain_row t (ll s1) = domain_row t (ll s) -> layers_of (ll s1) t = layers_of (ll s) t ->
     k (ll s1) (domain_row t (ll s)) = Ok rc) ->
  with_domain (Some t) (ll s) k = Ok (rc, ll s).
Proof.
  intros I Hk. unfold with_domain. cbn [domain_current].
  destruct (get_inv s t I) as (d & st & E & Hd & HR & HT & HRS & X & I'). rewrite E. cbn [rbind]. subst d.
  assert (Row : domain_row t st = domain_row t (ll s)) by (unfold domain_row; by rewrite HT).
  assert (Hk' : k st (domain_row t (ll s)) = Ok rc).
  { apply (Hk _ I' Row). unfold layers_of. cbn [ll]. rewrite Row, HRS. f_equal. apply chain_of_extends; [apply (i_chain _ I)|done|by apply row_below]. }
  rewrite Hk'. cbn [rbind]. unfold domain_get_task in E. destruct (domain_row t (ll s)) as [d|] eqn:D.
  2: { injection E as <-. by destruct (length (domains (ll s))). }
  pose proof (row_live s t d I D) as L. pose proof (chain_live_lt _ _ L) as Lt. unfold get_ref in E. rewrite L in E. cbn [rbind] in E. injection E as <-.
  cbn [domains set_domains]. rewrite length_alter. destruct (length (domains (ll s))) as [|n] eqn:Len; [lia|]. cbn [domain_put].
  unfold domain_put_round, put_ref. cbn [domains set_domains]. rewrite total_alter, bool_decide_eq_true_2 by (done || lia). cbn [add_ref live refcount].
  rewrite L. cbn [rbind]. pose proof (c_refs _ _ (i_chain _ I) d) as R. rewrite L in R.
  replace (_ =? 0) with false by lia. cbn [negb]. destruct n; cbn [domain_put rbind]; do 2 f_equal; rewrite get_put; by destruct (ll s).
Qed.
Lemma denied_nothing layers canon : denied layers canon 0 = false.
Proof. induction layers as [|x l IH]; [done|]. cbn. unfold layer_denies at 1. by rewrite Z.land_0_l. Qed.
Lemma layers_some s t d : inv s -> domain_row t (ll s) = Some d -> exists x l, layers_of (ll s) t = x :: l.
Proof.
  intros I E. pose proof (layers_nil (ll s) t (c_order _ _ (i_chain _ I)) (row_below s t I)) as N.
  destruct (layers_of (ll s) t) as [|x l]; [|by eauto]. rewrite E in N. discriminate (proj1 N eq_refl).
Qed.
Lemma open_ruling s t d v p f : inv s -> domain_row t (ll s) = Some d ->
  open_rc v (ll s) (Some d) p f = Ok (open_verdict v (layers_of (ll s) t) p f).
Proof.
  intros I E. unfold open_rc, open_verdict. cbv zeta. destruct (find_node v p) as [e|n].
  - destruct (negb _); [|done]. unfold verdict_of. destruct (ll_canon_parent v p) as [e'|c]; [done|]. by rewrite (check_layers s d t).
  - destruct (vfs_get_node_path _ _ _) as [e|c]; [done|]. rewrite (check_layers s d t) by done. unfold verdict.
    set (a := if _ || _ then Z.lor _ _ else _). destruct (Z.eqb_spec a 0) as [->|]; cbn [negb]; [by rewrite denied_nothing|done].
Qed.
Lemma move_ruling s t d v o n dir lnk : inv s -> domain_row t (ll s) = Some d ->
  move_rc v (ll s) (Some d) o n dir lnk = Ok (move_verdict v (layers_of (ll s) t) o n dir lnk).
Proof.
  intros I E. unfold move_rc, move_verdict. destruct (ll_canon_parent v o) as [e|op]; [done|]. destruct (ll_canon_parent v n) as [e|np]; [done|].
  rewrite !(check_layers s d t) by done. destruct lnk; cbn [rbind negb andb Z.eqb].
  all: repeat match goal with |- context [denied ?a ?b ?c] => destruct (denied a b c); cbn [rbind negb andb orb Z.eqb Z.opp] end.
  all: destruct (bool_decide (op = np)); done.
Qed.
Lemma answer_ruling s v t q : inv s -> answer v t q (ll s) = Ok (ruling v (layers_of (ll s) t) q, ll s).
Proof.
  intros I. destruct (domain_row t (ll s)) as [d|] eqn:D.
  - destruct (layers_some s t d I D) as (x & l & LS).
    destruct q as [p a|p a|p f|o n dir lnk]; cbn [answer]; unfold ruling; rewrite LS.
    3: { unfold landlock_check_open. rewrite bool_decide_eq_false_2 by (unfold domain_row in D; by destruct (g_task_domain (ll s))). cbn [orb].
         destruct (negb _); [done|]. apply with_domain_ok; [done|]. intros s1 I1 Row Lay. rewrite D in *. by rewrite (open_ruling s1 t d), Lay, LS. }
    all: apply with_domain_ok; [done|]; intros s1 I1 Row Lay; rewrite D in *; cbn [path_rc parent_rc check_answer].
    3: by rewrite (move_ruling s1 t d), Lay, LS.
    all: unfold path_rc, parent_rc, check_answer, verdict_of, verdict; destruct (_ v p); [done|]; by rewrite (check_layers s1 d t), Lay, LS.
  - pose proof (proj2 (layers_nil (ll s) t (c_order _ _ (i_chain _ I)) (row_below s t I)) D) as LS. rewrite LS. cbn [ruling].
    destruct q as [p a|p a|p f|o n dir lnk]; cbn [answer].
    3: { unfold landlock_check_open. destruct (_ || _); [done|]. apply with_domain_ok; [done|]. intros s1 _ _ _. by rewrite D. }
    all: apply with_domain_ok; [done|]; intros s1 _ _ _; by rewrite D.
Qed.

(** ** Layers only add up *)

Lemma along_layers_live s fuel : forall d x, inv s -> match d with Some i => live (domains (ll s) !!! i) = true | None => True end ->
  x ∈ along fuel (domains (ll s)) d -> (0 < count_if (has_layer (layer x)) (domains (ll s)))%nat.
Proof.
  induction fuel as [|fuel IH]; intros [i|] x I L E; cbn [along] in E; try by apply elem_of_nil in E.
  apply elem_of_cons in E as [->|E]; [by apply count_layers_pos|]. apply (IH (link (domains (ll s) !!! i)) x I); [|done].
  destruct (link _) as [p|] eqn:P; [|done]. by destruct (link_live _ _ (i_chain _ I) _ _ L P).
Qed.
Lemma layers_same s st t : inv s -> extends (domains (ll s)) (domains st) -> domain_row t st = domain_row t (ll s) ->
  (forall r, (0 < count_if (has_layer r) (domains (ll s)))%nat -> plain (rulesets st !!! r) = plain (rulesets (ll s) !!! r)) ->
  layers_of st t = layers_of (ll s) t.
Proof.
  intros I X Row P. unfold layers_of. rewrite Row, (chain_of_extends _ _ _ (c_order _ _ (i_chain _ I)) X (row_below s t I)).
  apply list_fmap_ext. intros i x Hx%list_elem_of_lookup_2. apply P. eapply along_layers_live; [done| |exact Hx].
  destruct (domain_row t (ll s)) as [d|] eqn:D; [by apply (row_live s t)|done].
Qed.
Lemma same_rules_plain l l' r : same_rules l l' -> plain (l' !!! r) = plain (l !!! r).
Proof. intros S. unfold plain. by destruct (S r) as [-> ->]. Qed.
Lemma layer_lt s r : inv s -> (0 < count_if (has_layer r) (domains (ll s)))%nat -> (r < length (rulesets (ll s)))%nat.
Proof.
  intros I C. pose proof (i_rs _ I r) as R. apply rs_lt. destruct (rs_live _); [done|]. unfold rs_refs_of in R. lia.
Qed.
Lemma fork_layers s p c t st old : inv s -> landlock_fork p c (ll s) = Ok (old, st) -> (t <> c -> layers_of st t = layers_of (ll s) t) /\
  ((c < length (rows (ll s)))%nat -> layers_of st c = layers_of (ll s) p).
Proof.
  intros I E. unfold landlock_fork in E. destruct (get_inv s p I) as (d & st1 & E1 & Hd & HR & HT & HRS & X & I1). rewrite E1 in E. cbn [rbind] in E.
  assert (Keep : forall u, layers_of st1 u = layers_of (ll s) u).
  { intros u. apply layers_same; [done|done|unfold domain_row; by rewrite HT|by rewrite HRS]. }
  injection E as E. pose proof (swap_inv (mkSys st1 (opt d ++ calls s) (opened s)) c d (calls s) I1 (Permutation_refl _)) as W. cbn [ll opened calls] in W.
  rewrite E in W. destruct W as (D & R & O & _). split.
  - intros N. rewrite <- Keep. unfold layers_of. by rewrite D, R, O.
  - intros Hc. rewrite <- Keep. unfold layers_of. rewrite D, R. do 2 f_equal.
    assert (domain_row p st1 = d) as -> by (rewrite Hd; unfold domain_row; by rewrite HT).
    unfold rows in Hc. unfold swap_row in E. rewrite HT in E. destruct (g_task_domain (ll s)) as [l|]; cbn in Hc; [|lia].
    rewrite bool_decide_eq_true_2 in E by done. injection E as <- <-. unfold domain_row. cbn. by rewrite list_lookup_insert, decide_True by done.
Qed.
Lemma landlock_grows o s s' t : inv s -> allowed o s -> spares t o -> exec_op o s = Ok s' -> exists l, layers_of (ll s') t = l ++ layers_of (ll s) t.
Proof.
  intros I A S E. destruct o as [row|n|p c|row|null size flags attr tail slots tok rok fd|n|v flags type fd pb ok|cur src n copied]; cbn [exec_op allowed spares] in *.
  - destruct (get_inv s row I) as (d & st & E1 & _ & _ & HT & HR & X & _). rewrite E1 in E. injection E as <-. exists [].
    apply layers_same; [done..|unfold domain_row; cbn; by rewrite HT|cbn; by rewrite HR].
  - destruct (lookup_lt_is_Some_2 _ _ A) as [d Hd]. rewrite Hd in E. destruct (put_inv s n d I Hd) as (next & st & E1 & HT & X & SR & _).
    rewrite E1 in E. injection E as <-. exists []. apply layers_same; [done..|unfold domain_row; cbn; by rewrite HT|intros r _; by apply same_rules_plain].
  - destruct (landlock_fork p c (ll s)) as [[old st]| |] eqn:F; [|done..]. injection E as <-. exists []. by apply (fork_layers s p c t st old).
  - unfold landlock_task_reset in E. pose proof (swap_inv s row None (calls s) I (Permutation_refl _)) as W. destruct (swap_row row None (ll s)) as [old st'].
    injection E as <-. destruct W as (D & R & O & _). exists []. unfold layers_of. cbn. by rewrite D, R, O.
  - destruct (create_inv s null size flags attr tail slots tok rok fd I) as (rc & st & E1 & D & O & R & H & _). rewrite E1 in E. injection E as <-. exists [].
    apply layers_same; [done|cbn; by rewrite D|by cbn|]. intros r Hr%layer_lt; [|done]. cbn. unfold plain. by rewrite R, H.
  - destruct (lookup_lt_is_Some_2 _ _ A) as [r Hr]. rewrite Hr in E. destruct (close_inv s n r I Hr) as (l & E1 & SR & _). rewrite E1 in E. injection E as <-.
    exists []. apply layers_same; [done..|]. intros r' _. by apply same_rules_plain.
  - destruct (add_rule_inv s v flags type fd pb ok I (proj1 A)) as (rc & st & E1 & D & HT & R & _). rewrite E1 in E. injection E as <-. exists [].
    apply layers_same; [done|cbn; by rewrite D|unfold domain_row; cbn; by rewrite HT|]. intros r Hr. cbn. by rewrite R by by apply (i_own _ I).
  - destruct (restrict_inv s cur src n copied I A) as (st & E1 & D & R & Rc & Ro & _). rewrite E1 in E. cbn [rbind] in E. injection E as <-. cbn [ll].
    assert (Keep : forall r, (0 < count_if (has_layer r) (domains (ll s)))%nat -> rulesets st !!! r = rulesets (ll s) !!! r).
    { intros r Hr%layer_lt; [|done]. by rewrite R, rs_app, bool_decide_eq_false_2 by lia. }
    destruct (decide (t = cur)) as [->|N].
    + exists [plain (rulesets st !!! length (rulesets (ll s)))]. unfold layers_of. rewrite Rc, D, chain_of_push; [|apply (i_chain _ I)|by apply row_below].
      cbn [fmap list_fmap layer app]. f_equal. apply list_fmap_ext. intros i x Hx%list_elem_of_lookup_2. f_equal. apply Keep.
      eapply along_layers_live; [done| |exact Hx]. destruct (domain_row cur (ll s)) as [d|] eqn:Dr; [by apply (row_live s cur)|done].
    + exists []. apply layers_same; [done|rewrite D; apply extends_app|by apply Ro|]. intros r Hr. by rewrite Keep.
Qed.
Lemma landlock_grows_path t s s' : inv s -> rtc (step_sparing t) s s' -> (exists l, layers_of (ll s') t = l ++ layers_of (ll s) t) /\ inv s'.
Proof.
  intros I H. revert I. induction H as [s|s s1 s' (o & A & S & E) _ IH]; intros I; [by split; [exists []|]|].
  destruct (landlock_grows o s s1 t I A S E) as [l G]. destruct (landlock_step_inv o s I A) as (s2 & E2 & I2).
  assert (s2 = s1) as -> by congruence. destruct (IH I2) as [[l' G'] I']. split; [|done]. exists (l' ++ l). by rewrite G', G, app_assoc.
Qed.
Lemma denied_app l l' canon access : denied (l ++ l') canon access = denied l canon access || denied l' canon access.
Proof. apply existsb_app. Qed.
Lemma verdict_restricts l l' canon access : verdict l' canon access <> 0 -> verdict (l ++ l') canon access <> 0.
Proof. unfold verdict. rewrite denied_app. destruct (denied l' _ _); [by rewrite orb_true_r|done]. Qed.
Lemma verdict_of_restricts l l' canon access : verdict_of l' canon access <> 0 -> verdict_of (l ++ l') canon access <> 0.
Proof. destruct canon; [done|apply verdict_restricts]. Qed.
Lemma ruling_restricts v l l' q : ruling v l' q <> 0 -> ruling v (l ++ l') q <> 0.
Proof.
  destruct l' as [|x l']; [done|]. destruct (l ++ x :: l') as [|y m] eqn:L; [by destruct l|].
  destruct q as [p a|p a|p f|o n dir lnk]; cbn [ruling]; rewrite <- L.
  - by apply verdict_of_restricts.
  - by apply verdict_of_restricts.
  - destruct (f &? O_PATH); [done|]. unfold open_verdict. cbv zeta. destruct (find_node v p).
    + destruct (negb _); [apply verdict_of_restricts|done].
    + destruct (vfs_get_node_path _ _ _); [done|apply verdict_restricts].
  - unfold move_verdict. destruct (ll_canon_parent v o), (ll_canon_parent v n); try done. rewrite !denied_app.
    destruct (bool_decide _), lnk; cbn [negb andb]; repeat match goal with |- context [denied ?a ?b ?c] => destruct (denied a b c); cbn [orb] end; done.
Qed.

(** ** Canonical paths as lists of names *)

Definition flat (names : list path) : path := concat (cons slash <$> names).
Definition render (names : list path) : path := match names with [] => [slash] | _ => flat names end.
(** What remains after some whole names. *)
Definition at_slash (k : path) : Prop := match k with [] => True | c :: _ => c = slash end.
Lemma flat_at_slash names k : at_slash k -> at_slash (flat names ++ k).
Proof. by destruct names. Qed.
Lemma split_at_slash n m x y : slash ∉ n -> slash ∉ m -> at_slash x -> at_slash y -> n ++ x = m ++ y -> n = m /\ x = y.
Proof.
  revert m. induction n as [|c n IH]; intros [|d m] Hn Hm Hx Hy E; cbn in E; [done| | |].
  - subst x. cbn in Hx. subst d. destruct Hm. left.
  - subst y. cbn in Hy. subst c. destruct Hn. left.
  - injection E as <- E. apply not_elem_of_cons in Hn as [_ Hn]. apply not_elem_of_cons in Hm as [_ Hm].
    by destruct (IH m Hn Hm Hx Hy E) as [<- <-].
Qed.
Lemma flat_prefix r : forall p, Forall name_ok r -> Forall name_ok p ->
  (exists k, at_slash k /\ flat p = flat r ++ k) <-> r `prefix_of` p.
Proof.
  induction r as [|n r IH]; intros p Hr Hp.
  - split; [intros _; apply prefix_nil|intros _]. exists (flat p). split; [|done]. rewrite <- (app_nil_r (flat p)). by apply flat_at_slash.
  - apply Forall_cons in Hr as [[Hn Sn] Hr]. destruct p as [|m p].
    + split; [by intros (k & _ & [=])|by intros H%prefix_nil_inv].
    + apply Forall_cons in Hp as [[Hm Sm] Hp]. change (flat (?a :: ?b)) with (slash :: a ++ flat b). split.
      * intros (k & Hk & [= E]). rewrite <- app_assoc in E.
        destruct (split_at_slash m n (flat p) (flat r ++ k)) as [-> E']; [done..| |by apply flat_at_slash|done|].
        { rewrite <- (app_nil_r (flat p)). by apply flat_at_slash. }
        apply prefix_cons, IH; [done..|]. by exists k.
      * intros H. pose proof (prefix_cons_inv_1 _ _ _ _ H) as ->. apply prefix_cons_inv_2, IH in H as (k & Hk & E); [|done..].
        exists k. split; [done|]. rewrite E. cbn [app]. by rewrite app_assoc.
Qed.
Lemma beneath_split (x y : list Z) :
  (take (length y) x = y /\ match x !! length y with None => true | Some c => c =? slash end = true) <-> exists k, at_slash k /\ x = y ++ k.
Proof.
  split.
  - intros [T C]. exists (drop (length y) x). split; [|rewrite <- T at 1; by rewrite take_drop].
    pose proof (lookup_drop x (length y) 0) as L. rewrite Nat.add_0_r in L. rewrite <- L in C. destruct (drop (length y) x) as [|c k]; [done|]. cbn in *. lia.
  - intros (k & Hk & ->). rewrite take_app_length. split; [done|]. rewrite lookup_app_r, Nat.sub_diag by done. destruct k as [|c k]; [done|].
    cbn in Hk |- *. by subst c.
Qed.
Lemma beneath_prefix p r : Forall name_ok p -> Forall name_ok r -> ll_beneath (render p) (render r) = true <-> r `prefix_of` p.
Proof.
  intros Hp Hr. destruct r as [|n r]; [split; [intros _; apply prefix_nil|done]|].
  assert (Nr : render (n :: r) <> [slash]).
  { apply Forall_cons in Hr as [[Hn _] _]. destruct n; [done|]. by intros [=]. }
  unfold ll_beneath. rewrite bool_decide_eq_false_2 by done. rewrite andb_true_iff, bool_decide_eq_true.
  destruct p as [|m p].
  { split; [|by intros H%prefix_nil_inv]. intros [T _]. destruct Nr. rewrite <- T. apply Forall_cons in Hr as [[Hn _] _].
    cbn [render flat fmap list_fmap concat] in T |- *. destruct n; [done|]. cbn in T. done. }
  rewrite <- flat_prefix by done. apply (beneath_split (flat (m :: p)) (flat (n :: r))).
Qed.

(** ** The path of a node *)

Definition has_parent (n : vnode) : bool := match v_parent n with NoParent => false | _ => true end.
Definition names_on (l : list vnode) : list path := v_name <$> List.filter has_parent l.
Lemma append_names_renders cap l : forall names c, append_names cap l (flat names) = inr c -> c = render (names ++ names_on l).
Proof.
  induction l as [|n l IH]; intros names c E; cbn [append_names] in E.
  - unfold names_on. cbn. rewrite app_nil_r. injection E as <-. by destruct names.
  - unfold names_on. cbn [List.filter]. unfold has_parent at 1. destruct (v_parent n); cbn [fmap list_fmap].
    2: by apply IH.
    all: destruct (_ <? _); [done|]; replace (flat names ++ slash :: v_name n) with (flat (names ++ [v_name n])) in E
      by (unfold flat; rewrite fmap_app, concat_app; cbn; by rewrite app_nil_r);
      apply IH in E; by rewrite <- app_assoc in E.
Qed.
Lemma path_nodes_in root : forall up count steps n, n ∈ path_nodes count steps root up -> n ∈ up.
Proof.
  induction up as [|m up IH]; intros count steps n E; [by destruct count, steps|]. destruct count as [|count], steps as [|steps]; cbn in E; try by apply elem_of_nil in E.
  destruct (bool_decide _); [by apply elem_of_nil in E|]. destruct (v_mount m); [right; by eapply IH|].
  apply elem_of_cons in E as [->|E]; [left|]. destruct (v_parent m); [right; by eapply IH|by apply elem_of_nil in E..].
Qed.
(** The names [vfs_get_node_path] renders. *)
Definition node_names (root : option Z) (up : list vnode) : list path :=
  let l := rev (path_nodes 128 256 root up) in
  (match l with n :: _ => if v_detached n then [tail detached_prefix] else [] | [] => [] end) ++ names_on l.
Lemma node_path_renders root up cap c : vfs_get_node_path root up cap = inr c -> c = render (node_names root up).
Proof.
  unfold vfs_get_node_path, node_names. cbv zeta. destruct (rev _) as [|n l]; [by intros [= <-]|]. destruct (v_detached n).
  - destruct (cap <? 17); [done|]. by apply (append_names_renders cap (n :: l) [tail detached_prefix]).
  - by apply (append_names_renders cap (n :: l) []).
Qed.
Lemma node_names_ok root up : Forall named up -> Forall name_ok (node_names root up).
Proof.
  intros H. unfold node_names. cbv zeta. apply Forall_app. split.
  - destruct (rev _) as [|n l]; [done|]. destruct (v_detached n); [|done]. repeat constructor; [done|]. cbn. unfold slash.
    intros E. repeat (apply elem_of_cons in E as [E|E]; [lia|]). by apply elem_of_nil in E.
  - apply Forall_fmap, Forall_forall. intros n Hn%list_elem_of_In%filter_In. destruct Hn as [Hn P]. cbn.
    rewrite <- in_rev in Hn. apply list_elem_of_In, path_nodes_in in Hn.
    pose proof (proj1 (Forall_forall _ _) H n Hn) as N. apply N. intros E. unfold has_parent in P. by rewrite E in P.
Qed.

(** ** Every rule has the path of a node *)

Definition rule_named (r : ll_rule) : Prop := exists names, rule_path r = render names /\ Forall name_ok names.
Definition rules_named (s : sys) : Prop := forall r, Forall rule_named (rules (rulesets (ll s) !!! r)).
Lemma add_rule_rules v flags type fd pb ok st rc st' : ll_add_rule v flags type fd pb ok st = Ok (rc, st') -> beneath_named pb ->
  forall r, rules (rulesets st' !!! r) = rules (rulesets st !!! r) \/
    exists x, rule_named x /\ rules (rulesets st' !!! r) = rules (rulesets st !!! r) ++ [x].
Proof.
  intros E N r. unfold ll_add_rule in E. destruct (negb _); [injection E as <- <-; by left|]. destruct (ruleset_from_fd fd) as [e|rs]; [injection E as <- <-; by left|].
  destruct (negb _); [injection E as <- <-; by left|]. destruct pb as [[access n]|]; [|injection E as <- <-; by left].
  destruct (access =? 0); [injection E as <- <-; by left|]. destruct (negb _) eqn:L in E; [done|]. destruct (negb _) in E; [injection E as <- <-; by left|].
  destruct n as [n|]; [|injection E as <- <-; by left]. destruct (vfs_get_node_path _ _ _) as [e|canon] eqn:C; [injection E as <- <-; by left|].
  destruct (_ && _); [injection E as <- <-; by left|]. destruct (_ <=? _); [injection E as <- <-; by left|].
  destruct (negb ok); [injection E as <- <-; by left|]. injection E as <- <-. cbn [rulesets set_rulesets].
  rewrite rs_alter by (apply rs_lt; by destruct (rs_live _)). case_bool_decide as Er; [subst r|by left]. right.
  exists (mkRule canon access). split; [|done]. exists (node_names (task_root v) (n_up n)). cbn [rule_path]. split; [by eapply node_path_renders|by apply node_names_ok].
Qed.
Lemma rules_named_step o s s' : inv s -> rules_named s -> allowed o s -> exec_op o s = Ok s' -> rules_named s'.
Proof.
  intros I N A E. assert (Keep : forall st c op, (forall r, rules (rulesets st !!! r) = rules (rulesets (ll s) !!! r)) -> rules_named (mkSys st c op)).
  { intros st c op H r. cbn. rewrite H. apply N. }
  destruct o as [row|n|p c|row|null size flags attr tail slots tok rok fd|n|v flags type fd pb ok|cur src n copied]; cbn [exec_op allowed] in *.
  - destruct (get_inv s row I) as (d & st & E1 & _ & _ & HT & HR & X & _). rewrite E1 in E. injection E as <-. apply Keep. by rewrite HR.
  - destruct (lookup_lt_is_Some_2 _ _ A) as [d Hd]. rewrite Hd in E. destruct (put_inv s n d I Hd) as (next & st & E1 & HT & X & SR & _).
    rewrite E1 in E. injection E as <-. apply Keep, SR.
  - unfold landlock_fork in E. destruct (get_inv s p I) as (d & st & E1 & _ & _ & _ & HR & _ & I1). rewrite E1 in E. cbn [rbind] in E.
    pose proof (swap_inv (mkSys st (opt d ++ calls s) (opened s)) c d (calls s) I1 (Permutation_refl _)) as W. cbn [ll opened] in W.
    destruct (swap_row c d st) as [old st']. injection E as <-. apply Keep. destruct W as (_ & -> & _). by rewrite HR.
  - unfold landlock_task_reset in E. pose proof (swap_inv s row None (calls s) I (Permutation_refl _)) as W. destruct (swap_row row None (ll s)) as [old st'].
    injection E as <-. apply Keep. by destruct W as (_ & -> & _).
  - destruct (create_inv s null size flags attr tail slots tok rok fd I) as (rc & st & E1 & _ & _ & R & _). rewrite E1 in E. injection E as <-. by apply Keep.
  - destruct (lookup_lt_is_Some_2 _ _ A) as [r Hr]. rewrite Hr in E. destruct (close_inv s n r I Hr) as (l & E1 & SR & _). rewrite E1 in E. injection E as <-.
    apply Keep, SR.
  - destruct (ll_add_rule v flags type fd pb ok (ll s)) as [[rc st]| |] eqn:E1; [|done..]. injection E as <-. intros r. cbn [ll].
    destruct (add_rule_rules v flags type fd pb ok (ll s) rc st E1 (proj2 A) r) as [->|(x & Hx & ->)]; [apply N|apply Forall_app; by split; [apply N|constructor]].
  - destruct (restrict_inv s cur src n copied I A) as (st & E1 & D & R & _). rewrite E1 in E. injection E as <-. intros r. cbn [ll]. rewrite R, rs_app.
    case_bool_decide; [cbn; apply Forall_take, N|apply N].
Qed.
Lemma landlock_rules_named s : rtc step boot s -> rules_named s.
Proof.
  intros H. refine (proj2 (rtc_invariant step (fun s => inv s /\ rules_named s) _ boot s H _)).
  - intros a b (o & A & E) [I N]. split; [destruct (landlock_step_inv o a I A) as (s' & E' & I'); congruence|by eapply rules_named_step].
  - split; [apply landlock_reachable, rtc_refl|by intros r].
Qed.
Lemma layer_rules_named s t rs r : rtc step boot s -> rs ∈ layers_of (ll s) t -> r ∈ rules rs -> rule_named r.
Proof.
  intros H (x & -> & _)%list_elem_of_fmap Hr. cbn in Hr. exact (proj1 (Forall_forall _ _) (landlock_rules_named s H _) r Hr).
Qed.

(** ** The decision, bit by bit *)

Lemma granted_testbit canon l b : forall g, 0 <= b ->
  Z.testbit (fold_left (fun g r => if ll_beneath canon (rule_path r) then Z.lor g (rule_access r) else g) l g) b = true <->
  Z.testbit g b = true \/ exists r, r ∈ l /\ ll_beneath canon (rule_path r) = true /\ Z.testbit (rule_access r) b = true.
Proof.
  induction l as [|x l IH]; intros g Hb; cbn [fold_left].
  - split; [by left|]. intros [H|(r & H & _)]; [done|by apply elem_of_nil in H].
  - rewrite IH by done. destruct (ll_beneath canon (rule_path x)) eqn:B; [rewrite Z.lor_spec, orb_true_iff|]; split.
    + intros [[H|H]|(r & H & P)]; [by left|right; exists x; split; [left|done]|right; exists r; split; [by right|done]].
    + intros [H|(r & H & P)]; [auto|]. apply elem_of_cons in H as [->|H]; [left; right; apply P|right; by exists r].
    + intros [H|(r & H & P)]; [by left|right; exists r; split; [by right|done]].
    + intros [H|(r & H & P)]; [by left|right]. apply elem_of_cons in H as [->|H]; [by rewrite B in P; destruct P|by exists r].
Qed.
Lemma layer_allows canon access rs : layer_denies canon access rs = false <-> forall b, 0 <= b -> Z.testbit access b = true -> Z.testbit (handled_fs rs) b = true ->
  exists r, r ∈ rules rs /\ ll_beneath canon (rule_path r) = true /\ Z.testbit (rule_access r) b = true.
Proof.
  unfold layer_denies. cbv zeta. set (need := Z.land access (handled_fs rs)). transitivity (Z.land need (Z.lnot (granted canon (rules rs))) = 0).
  { destruct (Z.eqb_spec need 0) as [->|]; [by rewrite Z.land_0_l|]. by destruct (Z.eqb_spec (Z.land need (Z.lnot (granted canon (rules rs)))) 0). }
  split.
  - intros E b Hb Ha Hh. assert (T : Z.testbit (Z.land need (Z.lnot (granted canon (rules rs)))) b = false) by (rewrite E; apply Z.bits_0).
    unfold need in T. rewrite !Z.land_spec, Z.lnot_spec, Ha, Hh in T by done. cbn in T. apply negb_false_iff in T.
    apply granted_testbit in T as [T|T]; [by rewrite Z.bits_0 in T|done|done].
  - intros H. apply Z.bits_inj_0. intros b. destruct (Z.neg_nonneg_cases b) as [Hb|Hb]; [by rewrite Z.testbit_neg_r|].
    unfold need. rewrite !Z.land_spec, Z.lnot_spec by done. destruct (Z.testbit access b) eqn:Ha, (Z.testbit (handled_fs rs) b) eqn:Hh; cbn; try done.
    apply negb_false_iff, granted_testbit; [done|right]. by apply H.
Qed.
Lemma denied_false layers canon access : denied layers canon access = false <-> forall rs, rs ∈ layers -> layer_denies canon access rs = false.
Proof.
  unfold denied. induction layers as [|x l IH]; [split; [intros _ rs E; by apply elem_of_nil in E|done]|]. cbn. rewrite orb_false_iff, IH. split.
  - intros [H1 H2] rs [->|H]%elem_of_cons; auto.
  - intros H. split; [apply H; left|intros rs Hr; apply H; by right].
Qed.

(** ** The properties *)

Lemma exec_answer o s s' v t q : inv s -> allowed o s -> exec_op o s = Ok s' -> answer v t q (ll s') = Ok (ruling v (layers_of (ll s') t) q, ll s').
Proof. intros I A E. destruct (landlock_step_inv o s I A) as (s1 & E1 & I1). assert (s1 = s') as -> by congruence. by apply answer_ruling. Qed.

(** (Safety.)  At every reachable state every operation succeeds: the counts
    of domains and rulesets are exactly the references there are, no assertion on
    them fails, nothing freed is read, a layer's snapshot is never the ruleset of
    a descriptor, and every check returns an answer and leaves the state as it
    was. *)
Theorem landlock_sound s : rtc step boot s ->
  (forall o, allowed o s -> exists s', exec_op o s = Ok s') /\
  chain_ok (domains (ll s)) (held s) /\ counted (rulesets (ll s)) (rs_refs_of s) /\
  (forall i, live (domains (ll s) !!! i) = true -> layer (data (domains (ll s) !!! i)) ∉ opened s) /\
  forall v t q, exists rc, answer v t q (ll s) = Ok (rc, ll s).
Proof.
  intros R. pose proof (landlock_reachable s R) as I. split_and!.
  - intros o A. destruct (landlock_step_inv o s I A) as (s' & E & _). by exists s'.
  - apply I.
  - exact (i_rs _ I).
  - intros i L. by apply (i_own _ I), count_layers_pos.
  - intros v t q. eexists. by apply answer_ruling.
Qed.

(** C11 (safety).  Restrictions are never lifted.  Whatever happens while a task
    lives (rules added to any ruleset, rulesets closed, restrictions of this task
    or others, forks, exits), what its layers refuse they refuse ever after; and
    a child starts with exactly its parent's answers. *)
Theorem landlock_only_restricts s s' v t q rc :
  rtc step boot s -> rtc (step_sparing t) s s' -> answer v t q (ll s) = Ok (rc, ll s) ->
  (rc <> 0 -> exists rc', rc' <> 0 /\ answer v t q (ll s') = Ok (rc', ll s')) /\
  (forall c s1, (c < length (rows (ll s)))%nat -> exec_op (OFork t c) s = Ok s1 -> answer v c q (ll s1) = Ok (rc, ll s1)).
Proof.
  intros R P E. pose proof (landlock_reachable s R) as I. rewrite (answer_ruling s v t q I) in E. injection E as <-. split.
  - intros N. destruct (landlock_grows_path t s s' I P) as [[l G] I']. eexists. split; [|by apply answer_ruling]. rewrite G. by apply ruling_restricts.
  - intros c s1 Hc E1. rewrite (exec_answer (OFork t c) s s1 v c q I Logic.I E1). cbn [exec_op] in E1.
    destruct (landlock_fork t c (ll s)) as [[old st]| |] eqn:F; [|done..]. injection E1 as <-. cbn [ll].
    destruct (fork_layers s t c t st old I F) as [_ L]. by rewrite L.
Qed.

(** C12 (functional).  An access to a file is allowed exactly when every layer of
    the task grants each bit of it that the layer handles, by a rule on the file
    itself or on a directory above it: names are compared whole, from the root. *)
Theorem landlock_decides s v t p n c a :
  rtc step boot s -> find_node v p = inr n -> Forall named (n_up n) -> vfs_get_node_path (task_root v) (n_up n) VFS_MAX_PATH = inr c ->
  answer v t (RPath p a) (ll s) = Ok (0, ll s) <->
  forall rs, rs ∈ layers_of (ll s) t -> forall b, 0 <= b -> Z.testbit a b = true -> Z.testbit (handled_fs rs) b = true ->
    exists r names, r ∈ rules rs /\ rule_path r = render names /\ Forall name_ok names /\
      names `prefix_of` node_names (task_root v) (n_up n) /\ Z.testbit (rule_access r) b = true.
Proof.
  intros R F N C. pose proof (node_path_renders _ _ _ _ C) as ->. pose proof (node_names_ok (task_root v) (n_up n) N) as NO.
  rewrite (answer_ruling s v t _ (landlock_reachable s R)).
  transitivity (denied (layers_of (ll s) t) (render (node_names (task_root v) (n_up n))) a = false).
  { destruct (layers_of (ll s) t) as [|x l] eqn:L; [done|]. cbn [ruling]. unfold ll_canon_existing. rewrite F, C. cbn [verdict_of]. unfold verdict.
    by destruct (denied _ _ _). }
  rewrite denied_false. split; intros H rs Hrs.
  - intros b Hb Ha Hh. destruct (proj1 (layer_allows _ _ _) (H rs Hrs) b Hb Ha Hh) as (r & Hr & B & T).
    destruct (layer_rules_named s t rs r R Hrs Hr) as (names & E & Nm). exists r, names. rewrite E in B. apply beneath_prefix in B; [|done..]. done.
  - apply layer_allows. intros b Hb Ha Hh. destruct (H rs Hrs b Hb Ha Hh) as (r & names & Hr & E & Nm & B & T). exists r. rewrite E.
    split_and!; [done|by apply beneath_prefix|done].
Qed.

(** Witness: task 0 lets itself read files beneath "/a" only, then adds a rule
    for "/b" to the ruleset it still has open. *)
Definition root_node : vnode := mkV 0 [] false NoParent false.
Definition file (id : Z) (name : path) (dirs : list vnode) : node_info := mkNode_info (mkV id name false Parent false :: dirs) false.
Definition dir_a : list vnode := [mkV 1 [97] false Parent false; root_node].
Definition dir_b : list vnode := [mkV 2 [98] false Parent false; root_node].
Definition tree : vfs_answers :=
  mkVfs id (fun p => if bool_decide (p = [47; 97; 47; 102]) then inr (file 3 [102] dir_a) else inr (file 4 [102] dir_b)) None.
Definition exec (o : op) (s : sys) : sys := match exec_op o s with Ok s => s | _ => s end.
Definition create : op := OCreate false 24 0 (Some (LL_READ_FILE, 0, 0)) [] 2 true true (Some 3).
Definition let_read (dir : list vnode) : op := OAddRule tree 0 1 (RulesetHandle 0) (Some (LL_READ_FILE, Some (mkNode_info dir true))) true.
Definition confined : sys := exec (ORestrict 0 0 0 1) (exec (let_read dir_a) (exec create boot)).
Definition widened : sys := exec (let_read dir_b) confined.
Lemma names_a : Forall named dir_a.
Proof. repeat constructor; cbn; try done. intros E. apply elem_of_cons in E as [E|E]; [done|by apply elem_of_nil in E]. Qed.
Lemma names_b : Forall named dir_b.
Proof. repeat constructor; cbn; try done. intros E. apply elem_of_cons in E as [E|E]; [done|by apply elem_of_nil in E]. Qed.
Lemma confined_reachable : rtc step boot confined.
Proof.
  apply (rtc_l step boot (exec create boot)); [exists create; by split|].
  apply (rtc_l step _ (exec (let_read dir_a) (exec create boot))).
  - exists (let_read dir_a). split; [split; [left|exact names_a]|vm_compute; reflexivity].
  - apply (rtc_once (R := step)). exists (ORestrict 0 0 0 1). split; [split_and!; [left|vm_compute; lia|done]|vm_compute; reflexivity].
Qed.
Lemma widened_later : rtc (step_sparing 0) confined widened.
Proof.
  apply (rtc_once (R := step_sparing 0)). exists (let_read dir_b). split_and!; [split; [left|exact names_b]|done|vm_compute; reflexivity].
Qed.
Definition af : path := [47; 97; 47; 102].
Definition bf : path := [47; 98; 47; 102].
Lemma landlock_sound_witness : exists rc, answer tree 0 (RPath bf LL_READ_FILE) (ll confined) = Ok (rc, ll confined).
Proof. apply (landlock_sound confined confined_reachable). Defined.
Lemma landlock_only_restricts_witness : exists rc, rc <> 0 /\ answer tree 0 (RPath bf LL_READ_FILE) (ll widened) = Ok (rc, ll widened).
Proof.
  apply (landlock_only_restricts confined widened tree 0 (RPath bf LL_READ_FILE) (- EACCES) confined_reachable widened_later);
    [vm_compute; reflexivity|vm_compute; discriminate].
Defined.
Lemma landlock_decides_witness : answer tree 0 (RPath af LL_READ_FILE) (ll confined) = Ok (0, ll confined).
Proof.
  apply (landlock_decides confined tree 0 af (file 3 [102] dir_a) [47; 97; 47; 102] LL_READ_FILE confined_reachable); [reflexivity| |vm_compute; reflexivity|].
  - constructor; [intros _; split; [done|]|exact names_a]. intros E. apply elem_of_cons in E as [E|E]; [done|by apply elem_of_nil in E].
  - replace (layers_of (ll confined) 0) with [mkRs 1 LL_READ_FILE [mkRule [47; 97] LL_READ_FILE] true] by (vm_compute; reflexivity).
    intros rs [->|E]%elem_of_cons b Hb Ha _; [|by apply elem_of_nil in E]. exists (mkRule [47; 97] LL_READ_FILE), [[97]].
    split_and!; [left|reflexivity| |exists [[102]]; vm_compute; reflexivity|exact Ha].
    repeat constructor; [done|]. intros E. apply elem_of_cons in E as [E|E]; [done|by apply elem_of_nil in E].
Defined.

(** ** What the checks let through *)

(** A move whose parents' canonical paths cannot be had is not restricted, where
    the other checks refuse on the same error. *)
Lemma move_without_canon_path v layers o n e dir lnk : ll_canon_parent v o = inl e \/ ll_canon_parent v n = inl e ->
  ruling v layers (RMove o n dir lnk) = 0.
Proof.
  intros H. destruct layers; [done|]. cbn [ruling]. unfold move_verdict. destruct H as [->| ->]; [done|]. by destruct (ll_canon_parent v o).
Qed.
(** Moving to another directory is only restricted by layers that handle
    LL_REFER. *)
Lemma unhandled_refer layers canon : (forall rs, rs ∈ layers -> Z.land LL_REFER (handled_fs rs) = 0) -> denied layers canon LL_REFER = false.
Proof. intros H. apply denied_false. intros rs Hr. unfold layer_denies. cbv zeta. by rewrite (H rs Hr). Qed.
(** The path of a node depends on the root of the caller: within "/a" as its
    root, "/a/b/f" has the path of the other file "/b/f". *)
Lemma path_after_chroot :
  vfs_get_node_path (Some 1) (mkV 5 [102] false Parent false :: mkV 6 [98] false Parent false :: dir_a) VFS_MAX_PATH = inr bf /\
  vfs_get_node_path None (mkV 4 [102] false Parent false :: dir_b) VFS_MAX_PATH = inr bf.
Proof. by vm_compute. Qed.
End LandlockProofs.
