(* ===== verification/Lz4.v ===== *)
(** * The LZ4 block codec (kernel/lib/lz4.c)

    zswap and zram keep pages compressed with this codec.  A buffer is the
    list of its bytes; an access outside it is a [Fault], and so is a signed
    [int] computation that leaves its range.  The loops carry fuel, spent as
    [Panic "fuel"], which the theorems exclude.

    The second half is the block format itself, as data: a block is a list of
    sequences (literals, then a match given by its offset and length) and the
    literals at the end; [encode] writes it as bytes and [expand] gives the
    bytes it stands for.  The compressor and the decompressor are related to
    it in [Lz4Proofs]. *)
From S2P Require Import Prelude.

(** ** Buffers and [int] arithmetic *)

Definition rd (b : list Z) (i : Z) : res Z :=
  if i <? 0 then Fault else match b !! Z.to_nat i with Some v => Ok v | None => Fault end.
Definition wr (b : list Z) (i v : Z) : res (list Z) :=
  if (i <? 0) || (Z.of_nat (length b) <=? i) then Fault else Ok (<[Z.to_nat i := v]> b).
(** [memcpy(dst + op, src + ip, n)] *)
Definition memcpy (dst : list Z) (op : Z) (src : list Z) (ip n : Z) : res (list Z) :=
  if (n <? 0) || (op <? 0) || (ip <? 0) || (Z.of_nat (length src) <? ip + n) || (Z.of_nat (length dst) <? op + n)
  then Fault
  else Ok (take (Z.to_nat op) dst ++ take (Z.to_nat n) (drop (Z.to_nat ip) src) ++ drop (Z.to_nat (op + n)) dst).
(** A [u32] loaded by [memcpy] on a little-endian machine. *)
Definition ld32 (b : list Z) (i : Z) : res Z :=
  let* b0 := rd b i in let* b1 := rd b (i + 1) in
  let* b2 := rd b (i + 2) in let* b3 := rd b (i + 3) in
  Ok (b0 + 256 * b1 + 65536 * b2 + 16777216 * b3).
Definition INT_MAX := 2147483647.
(** Signed overflow is undefined: the value of an [int] expression, or a fault. *)
Definition int (z : Z) : res Z := if (- INT_MAX - 1 <=? z) && (z <=? INT_MAX) then Ok z else Fault.

(** ** The compressor *)

Definition LZ4_HASH_LOG := 12.
Definition LZ4_HASH_ENTRIES := Z.shiftl 1 LZ4_HASH_LOG.
Definition LZ4_COMPRESS_BOUND (n : Z) : Z := n + n / 255 + 16.

Definition lz4_hash4 (src : list Z) (p : Z) : res Z :=
  let* v := ld32 src p in
  let v := u32 (v * 0x9E3779B1) in
  Ok (Z.land (Z.shiftr v (32 - LZ4_HASH_LOG)) (Z.shiftl 1 LZ4_HASH_LOG - 1)).

(** [while (ip + len < srcSize && src[cand + len] == src[ip + len]) len++] *)
Fixpoint match_len (fuel : nat) (src : list Z) (srcSize cand ip len : Z) : res Z :=
  match fuel with
  | O => Panic "fuel"
  | S f =>
      if ip + len <? srcSize then
        let* x := rd src (cand + len) in
        let* y := rd src (ip + len) in
        if x =? y then match_len f src srcSize cand ip (len + 1) else Ok len
      else Ok len
  end.

(** [while (e >= 255) { dst[op++] = 255; e -= 255; } dst[op++] = (u8)e] *)
Fixpoint put_ext (fuel : nat) (dst : list Z) (op e : Z) : res (list Z * Z) :=
  match fuel with
  | O => Panic "fuel"
  | S f =>
      if 255 <=? e then let* dst := wr dst op 255 in put_ext f dst (op + 1) (e - 255)
      else let* dst := wr dst op (u8 e) in Ok (dst, op + 1)
  end.
Definition put_len (dst : list Z) (op n : Z) : res (list Z * Z) :=
  if 15 <=? n then put_ext (S (Z.to_nat n)) dst op (n - 15) else Ok (dst, op).
Definition nibble (n : Z) : Z := if 15 <=? n then 15 else n.

(** The token with its high nibble, the literal count and the literals. *)
Definition put_lits (src dst : list Z) (op anchor litLen : Z) : res (list Z * Z) :=
  let* dst := wr dst op (u8 (Z.shiftl (nibble litLen) 4)) in
  let* '(dst, op) := put_len dst (op + 1) litLen in
  let* dst := memcpy dst op src anchor litLen in
  Ok (dst, op + litLen).

(** One sequence: token, literals, offset, match length. *)
Definition put_match (src dst : list Z) (op anchor litLen mlen off : Z) : res (list Z * Z) :=
  let tok := op in
  let* '(dst, op) := put_lits src dst op anchor litLen in
  let* t := rd dst tok in
  let* dst := wr dst tok (Z.lor t (u8 (nibble mlen))) in
  let* dst := wr dst op (u8 off) in
  let* dst := wr dst (op + 1) (u8 (Z.shiftr off 8)) in
  put_len dst (op + 2) mlen.

(** The trailing literals. *)
Definition compress_tail (src : list Z) (srcSize : Z) (dst : list Z) (dstCapacity : Z) (ht : list Z)
    (anchor op : Z) : res (Z * list Z * list Z) :=
  let litLen := srcSize - anchor in
  let* need := int (op + 1 + litLen / 255 + litLen) in
  if dstCapacity <? need then Ok (0, dst, ht) else
  let* '(dst, op) := put_lits src dst op anchor litLen in
  Ok (op, dst, ht).

(** Is there a match of four bytes at the candidate position? *)
Definition candidate (src : list Z) (cand ip : Z) : res bool :=
  if (cand <>? 0xFFFF) && (0 <? ip - cand) && (ip - cand <? 0x10000) then
    let* a := ld32 src cand in let* b := ld32 src ip in Ok (a =? b)
  else Ok false.

Fixpoint compress_loop (fuel : nat) (src : list Z) (srcSize : Z) (dst : list Z) (dstCapacity : Z)
    (ht : list Z) (ip anchor op : Z) : res (Z * list Z * list Z) :=
  match fuel with
  | O => Panic "fuel"
  | S f =>
      if ip <? srcSize - 4 then
        let* h := lz4_hash4 src ip in
        let* cand := rd ht h in
        let* ht := wr ht h (u16 ip) in
        let* found := candidate src cand ip in
        if found : bool then
          let* len := match_len (Z.to_nat srcSize) src srcSize cand ip 4 in
          let litLen := ip - anchor in
          let mlen := len - 4 in
          let* need := int (op + 1 + litLen / 255 + litLen + 2 + mlen / 255) in
          if dstCapacity <? need then Ok (0, dst, ht) else
          let* '(dst, op) := put_match src dst op anchor litLen mlen (ip - cand) in
          compress_loop f src srcSize dst dstCapacity ht (ip + len) (ip + len) op
        else compress_loop f src srcSize dst dstCapacity ht (ip + 1) anchor op
      else compress_tail src srcSize dst dstCapacity ht anchor op
  end.

(** [for (i = 0; i < HT; i++) ht[i] = 0xFFFF] *)
Definition clear_table (ht : list Z) : res (list Z) :=
  if Z.of_nat (length ht) <? LZ4_HASH_ENTRIES then Fault
  else Ok (replicate (Z.to_nat LZ4_HASH_ENTRIES) 0xFFFF ++ drop (Z.to_nat LZ4_HASH_ENTRIES) ht).

(** The result: the value returned, the output buffer and the table. A null
    pointer is [None]. *)
Definition lz4_compress (src : option (list Z)) (srcSize : Z) (dst : option (list Z)) (dstCapacity : Z)
    (scratch : option (list Z)) : res (Z * list Z * list Z) :=
  match src, dst, scratch with
  | Some s, Some d, Some ht =>
      if (srcSize <? 5) || (dstCapacity <=? 0) then Ok (0, d, ht) else
      let* ht := clear_table ht in
      compress_loop (S (Z.to_nat srcSize)) s srcSize d dstCapacity ht 0 0 0
  | _, _, _ => Ok (0, default [] dst, default [] scratch)
  end.

(** ** The decompressor *)

(** [for (;;) { if (ip >= srcSize) return -1; b = src[ip++]; acc += b; if (b != 255) break; }];
    [None] is the error return. *)
Fixpoint get_ext (fuel : nat) (src : list Z) (srcSize ip acc : Z) : res (option (Z * Z)) :=
  match fuel with
  | O => Panic "fuel"
  | S f =>
      if srcSize <=? ip then Ok None else
      let* b := rd src ip in
      let* acc := int (acc + b) in
      if b <>? 255 then Ok (Some (ip + 1, acc)) else get_ext f src srcSize (ip + 1) acc
  end.
Definition get_len (src : list Z) (srcSize ip nib base : Z) : res (option (Z * Z)) :=
  if nib =? 15 then get_ext (S (Z.to_nat srcSize)) src srcSize ip base else Ok (Some (ip, base)).

(** [for (i = 0; i < mlen; i++) dst[op + i] = dst[op + i - off]] *)
Fixpoint copy_match (n : nat) (dst : list Z) (op off : Z) : res (list Z) :=
  match n with
  | O => Ok dst
  | S n' =>
      let* v := rd dst (op - off) in
      let* dst := wr dst op v in
      copy_match n' dst (op + 1) off
  end.

Fixpoint decompress_loop (fuel : nat) (src : list Z) (srcSize : Z) (dst : list Z) (dstSize ip op : Z)
    : res (Z * list Z) :=
  match fuel with
  | O => Panic "fuel"
  | S f =>
      if srcSize <=? ip then Ok (-1, dst) else
      let* token := rd src ip in
      let ip := ip + 1 in
      let* l := get_len src srcSize ip (Z.shiftr token 4) (Z.shiftr token 4) in
      match l with
      | None => Ok (-1, dst)
      | Some (ip, litLen) =>
          let* a := int (op + litLen) in
          let* b := int (ip + litLen) in
          if (dstSize <? a) || (srcSize <? b) then Ok (-1, dst) else
          let* dst := memcpy dst op src ip litLen in
          let ip := ip + litLen in
          let op := op + litLen in
          if op =? dstSize then Ok (0, dst) else
          if srcSize <? ip + 2 then Ok (-1, dst) else
          let* o0 := rd src ip in
          let* o1 := rd src (ip + 1) in
          let off := Z.lor o0 (Z.shiftl o1 8) in
          let ip := ip + 2 in
          if (off =? 0) || (op <? off) then Ok (-1, dst) else
          let* m := get_len src srcSize ip (Z.land token 0xF) (Z.land token 0xF + 4) in
          match m with
          | None => Ok (-1, dst)
          | Some (ip, mlen) =>
              let* e := int (op + mlen) in
              if dstSize <? e then Ok (-1, dst) else
              let* dst := copy_match (Z.to_nat mlen) dst op off in
              decompress_loop f src srcSize dst dstSize ip (op + mlen)
          end
      end
  end.

Definition lz4_decompress (src : option (list Z)) (srcSize : Z) (dst : option (list Z)) (dstSize : Z)
    : res (Z * list Z) :=
  match src, dst with
  | Some s, Some d =>
      if (srcSize <=? 0) || (dstSize <=? 0) then Ok (-1, d)
      else decompress_loop (S (Z.to_nat srcSize)) s srcSize d dstSize 0 0
  | _, _ => Ok (-1, default [] dst)
  end.

(** ** The block format *)

Record sequence := Sequence { s_lits : list Z; s_off : Z; s_len : Z }.

(** The bytes of a length beyond what the token's nibble holds. *)
Definition enc_ext (e : Z) : list Z := replicate (Z.to_nat (e / 255)) 255 ++ [e mod 255].
Definition enc_len (n : Z) : list Z := if 15 <=? n then enc_ext (n - 15) else [].
Definition token (lits low : Z) : Z := nibble lits * 16 + low.
Definition zlen (l : list Z) : Z := Z.of_nat (length l).

Definition enc_lits (low : Z) (lits : list Z) : list Z :=
  token (zlen lits) low :: enc_len (zlen lits) ++ lits.
Definition enc_seq (s : sequence) : list Z :=
  enc_lits (nibble (s_len s - 4)) (s_lits s) ++ [s_off s mod 256; s_off s / 256] ++ enc_len (s_len s - 4).
Fixpoint enc_seqs (l : list sequence) : list Z :=
  match l with [] => [] | s :: l => enc_seq s ++ enc_seqs l end.
(** A block: sequences, then the last literals, whose token has a free low nibble. *)
Definition encode (l : list sequence) (low : Z) (lits : list Z) : list Z := enc_seqs l ++ enc_lits low lits.

(** A match repeats bytes already written; it may overlap what it writes. *)
Fixpoint repeat_from (n : nat) (out : list Z) (off : nat) : list Z :=
  match n with
  | O => out
  | S n => repeat_from n (out ++ [out !!! (length out - off)%nat]) off
  end.
Definition expand1 (out : list Z) (s : sequence) : list Z :=
  repeat_from (Z.to_nat (s_len s)) (out ++ s_lits s) (Z.to_nat (s_off s)).
Definition expand (out : list Z) (l : list sequence) : list Z := foldl expand1 out l.

(** The format's rules for a sequence that follows [out]. *)
Definition seq_ok (out : list Z) (s : sequence) : Prop :=
  0 < s_off s < 65536 /\ s_off s <= zlen out + zlen (s_lits s) /\ 4 <= s_len s /\
  Forall (in_range 256) (s_lits s).
Fixpoint seqs_ok (out : list Z) (l : list sequence) : Prop :=
  match l with [] => True | s :: l => seq_ok out s /\ seqs_ok (expand1 out s) l end.
