(* ===== verification/Lz4Proofs.v ===== *)
(** * The LZ4 codec against the block format

    The compressor writes a block of the format that expands to its input; the
    decompressor accepts a block exactly when it is one of the format, and
    yields its expansion.  Neither leaves its buffers. *)
From Stdlib Require Import ZifyBool.
From S2P Require Import Prelude Lz4.
From stdpp Require Import list.
#[local] Open Scope Z_scope.
#[local] Ltac Zify.zify_post_hook ::= Z.div_mod_to_equations.

(** ** Buffers split at a position *)

Lemma zlen_app a b : zlen (a ++ b) = zlen a + zlen b.
Proof. unfold zlen. rewrite length_app. lia. Qed.
Lemma zlen_cons x b : zlen (x :: b) = 1 + zlen b.
Proof. unfold zlen. simpl. lia. Qed.
Lemma zlen_nil : zlen [] = 0.
Proof. done. Qed.
Lemma zlen_nonneg a : 0 <= zlen a.
Proof. unfold zlen. lia. Qed.
Lemma zlen_replicate n x : zlen (replicate n x) = Z.of_nat n.
Proof. unfold zlen. by rewrite length_replicate. Qed.
Lemma zlen_drop n a : 0 <= n <= zlen a -> zlen (drop (Z.to_nat n) a) = zlen a - n.
Proof. unfold zlen. rewrite length_drop. lia. Qed.
Lemma zlen_take n a : 0 <= n <= zlen a -> zlen (take (Z.to_nat n) a) = n.
Proof. unfold zlen. rewrite length_take. lia. Qed.
Create Rewrite HintDb zlen.
#[export] Hint Rewrite zlen_app zlen_cons zlen_nil zlen_replicate : zlen.

Ltac zl := autorewrite with zlen in *;
  repeat match goal with
  | |- context [zlen ?a] => is_var a; pose_once (zlen_nonneg a)
  | H : context [zlen ?a] |- _ => is_var a; pose_once (zlen_nonneg a)
  end
with pose_once p :=
  let T := type of p in lazymatch goal with H : T |- _ => fail | _ => pose proof p end.

(** Concatenations associated to the right. *)
Ltac lnorm := repeat first [rewrite <- app_assoc | progress cbn [app]].

Ltac case_orb E := match goal with |- context [if orb ?a ?b then _ else _] => destruct (orb a b) eqn:E end.

Lemma rd_mid pre x post i : i = zlen pre -> rd (pre ++ x :: post) i = Ok x.
Proof.
  intros ->. unfold rd, zlen. destruct (Z.ltb_spec (Z.of_nat (length pre)) 0); [lia|].
  by rewrite Nat2Z.id, list_lookup_middle.
Qed.

Lemma wr_mid pre x post i v : i = zlen pre -> wr (pre ++ x :: post) i v = Ok (pre ++ v :: post).
Proof.
  intros ->. unfold wr, zlen. rewrite length_app. cbn [length].
  destruct (orb _ _) eqn:E; [apply orb_true_iff in E; lia|].
  rewrite Nat2Z.id. by rewrite insert_app_r_alt, Nat.sub_diag by lia.
Qed.

Lemma memcpy_mid out mid rest pre lits post op ip n :
  op = zlen out -> ip = zlen pre -> n = zlen lits -> length mid = length lits ->
  memcpy (out ++ mid ++ rest) op (pre ++ lits ++ post) ip n = Ok (out ++ lits ++ rest).
Proof.
  intros -> -> -> Hl. unfold memcpy, zlen. rewrite !length_app.
  destruct (orb _ _) eqn:E; [repeat (apply orb_true_iff in E as [E|E]); lia|].
  rewrite <- Nat2Z.inj_add, !Nat2Z.id, take_app_length, drop_app_length, take_app_length.
  rewrite (app_assoc out mid rest), drop_app_length' by (rewrite length_app; lia). done.
Qed.

Lemma int_ok z : - INT_MAX - 1 <= z <= INT_MAX -> int z = Ok z.
Proof. unfold int. intros. destruct (andb _ _) eqn:E; [done|]. apply andb_false_iff in E. lia. Qed.

Lemma split_room n (rest : list Z) :
  0 <= n <= zlen rest -> exists a b, rest = a ++ b /\ zlen a = n.
Proof.
  intros H. exists (take (Z.to_nat n) rest), (drop (Z.to_nat n) rest).
  by rewrite take_drop, zlen_take.
Qed.

Lemma room_cons rest : 1 <= zlen rest -> exists x b, rest = x :: b.
Proof. destruct rest; [unfold zlen; simpl; lia|eauto]. Qed.

(** ** Lengths as the format writes them *)

Lemma enc_ext_step e : 255 <= e -> enc_ext e = 255 :: enc_ext (e - 255).
Proof.
  intros He. unfold enc_ext. replace (e / 255) with (1 + (e - 255) / 255) by lia.
  rewrite Z2Nat.inj_add by lia. simpl. do 3 f_equal. lia.
Qed.
Lemma enc_ext_last e : 0 <= e < 255 -> enc_ext e = [e].
Proof. intros He. unfold enc_ext. rewrite Z.div_small, Z.mod_small by lia. done. Qed.
Lemma zlen_enc_ext e : 0 <= e -> zlen (enc_ext e) = e / 255 + 1.
Proof. intros He. unfold enc_ext. zl. lia. Qed.
Lemma zlen_enc_len n : 0 <= n -> zlen (enc_len n) = if 15 <=? n then (n - 15) / 255 + 1 else 0.
Proof. intros Hn. unfold enc_len. destruct (Z.leb_spec 15 n); [rewrite zlen_enc_ext by lia|]; done. Qed.
Lemma enc_len_cost n : 0 <= n -> 255 * zlen (enc_len n) <= n + 240 /\ 0 <= zlen (enc_len n) <= n / 255 + 1 /\ zlen (enc_len n) <= n.
Proof. intros Hn. rewrite zlen_enc_len by done. destruct (Z.leb_spec 15 n); lia. Qed.
Lemma nibble_range n : 0 <= n -> 0 <= nibble n <= 15.
Proof. unfold nibble. destruct (Z.leb_spec 15 n); lia. Qed.

(** ** What the compressor writes *)

Lemma put_ext_ok fuel e :
  0 <= e -> (Z.to_nat e < fuel)%nat -> forall out rest op, op = zlen out -> zlen (enc_ext e) <= zlen rest ->
  exists rest', put_ext fuel (out ++ rest) op e = Ok (out ++ enc_ext e ++ rest', op + zlen (enc_ext e)) /\
    zlen rest' = zlen rest - zlen (enc_ext e).
Proof.
  revert e. induction fuel as [|f IH]; intros e He Hf out rest op -> Hroom; [lia|]. cbn [put_ext].
  destruct (room_cons rest) as (x & b & ->); [rewrite zlen_enc_ext in Hroom by done; lia|].
  rewrite wr_mid by done. destruct (Z.leb_spec 255 e); cbn [rbind].
  - rewrite enc_ext_step in * by done.
    destruct (IH (e - 255) ltac:(lia) ltac:(lia) (out ++ [255]) b (zlen out + 1)) as (r & E & Hr); [zl; lia..|].
    exists r. rewrite <- app_assoc in E. cbn [app] in E. rewrite E. rewrite <- app_assoc. cbn [app].
    zl. split; [do 2 f_equal; lia|lia].
  - rewrite wr_mid by done. cbn [rbind]. rewrite enc_ext_last by lia. exists b. unfold u8. rewrite Z.mod_small by lia.
    zl. split; [done|lia].
Qed.

Lemma put_len_ok n : 0 <= n -> forall out rest op, op = zlen out -> zlen (enc_len n) <= zlen rest ->
  exists rest', put_len (out ++ rest) op n = Ok (out ++ enc_len n ++ rest', op + zlen (enc_len n)) /\
    zlen rest' = zlen rest - zlen (enc_len n).
Proof.
  intros Hn out rest op -> Hroom. unfold put_len, enc_len in *. destruct (Z.leb_spec 15 n).
  - apply put_ext_ok; [lia|lia|done|done].
  - exists rest. zl. cbn [app]. split; [do 2 f_equal; lia|lia].
Qed.

Lemma hi_nibble n : 0 <= n -> u8 (Z.shiftl (nibble n) 4) = nibble n * 16.
Proof.
  intros Hn. pose proof (nibble_range n Hn). unfold u8. rewrite Z.shiftl_mul_pow2 by lia.
  rewrite Z.mod_small; lia.
Qed.
Lemma lo_nibble n k : 0 <= n -> 0 <= k -> Z.lor (nibble k * 16) (u8 (nibble n)) = token k (nibble n).
Proof.
  intros Hn Hk. pose proof (nibble_range n Hn). unfold u8. rewrite Z.mod_small by lia.
  replace (nibble k * 16) with (Z.shiftl (nibble k) 4) by (rewrite Z.shiftl_mul_pow2 by lia; lia).
  by rewrite lor_add by lia.
Qed.

(** Token, literal count and literals, as both kinds of sequence begin. *)
Lemma put_lits_ok pre lits post out rest op :
  op = zlen out -> 1 + zlen (enc_len (zlen lits)) + zlen lits <= zlen rest ->
  exists rest', put_lits (pre ++ lits ++ post) (out ++ rest) op (zlen pre) (zlen lits)
    = Ok (out ++ enc_lits 0 lits ++ rest', op + 1 + zlen (enc_len (zlen lits)) + zlen lits) /\
    zlen rest' = zlen rest - (1 + zlen (enc_len (zlen lits)) + zlen lits).
Proof.
  intros -> Hroom. pose proof (zlen_nonneg lits). pose proof (enc_len_cost (zlen lits) ltac:(lia)) as (_ & Hc & _).
  unfold put_lits, enc_lits, token. rewrite hi_nibble, Z.add_0_r by done. set (t := nibble (zlen lits) * 16).
  destruct (room_cons rest) as (x & b & ->); [lia|]. rewrite wr_mid by done. cbn [rbind]. zl.
  destruct (put_len_ok (zlen lits) ltac:(lia) (out ++ [t]) b (zlen out + 1)) as (r1 & E1 & Hr1); [zl; lia..|].
  rewrite <- app_assoc in E1. cbn [app] in E1. rewrite E1. cbn [rbind].
  destruct (split_room (zlen lits) r1) as (m & r2 & -> & Hm); [lia|].
  rewrite <- app_assoc. cbn [app]. rewrite (app_comm_cons _ _ t), (app_assoc out).
  rewrite memcpy_mid; [|zl; lia|done|done|unfold zlen in *; lia]. cbn [rbind].
  exists r2. zl. split; [by lnorm|lia].
Qed.

Lemma off_high off : 0 < off < 65536 -> u8 (Z.shiftr off 8) = off / 256.
Proof. intros H. unfold u8. rewrite Z.shiftr_div_pow2 by lia. rewrite Z.mod_small; lia. Qed.
Lemma app_snoc {A} (a : list A) x b : a ++ x :: b = (a ++ [x]) ++ b.
Proof. by rewrite <- app_assoc. Qed.
Lemma app_mid4 {A} (a : list A) x b c : a ++ x :: b ++ c = (a ++ x :: b) ++ c.
Proof. by rewrite <- app_assoc. Qed.

Lemma zlen_enc_seq s : 4 <= s_len s ->
  zlen (enc_seq s) = 3 + zlen (enc_len (zlen (s_lits s))) + zlen (s_lits s) + zlen (enc_len (s_len s - 4)).
Proof. intros _. unfold enc_seq, enc_lits. zl. lia. Qed.

Lemma put_match_ok pre lits post out rest op mlen off :
  op = zlen out -> 0 <= mlen -> 0 < off < 65536 ->
  zlen (enc_seq (Sequence lits off (mlen + 4))) <= zlen rest ->
  exists rest',
    put_match (pre ++ lits ++ post) (out ++ rest) op (zlen pre) (zlen lits) mlen off
    = Ok (out ++ enc_seq (Sequence lits off (mlen + 4)) ++ rest', op + zlen (enc_seq (Sequence lits off (mlen + 4)))) /\
    zlen rest' = zlen rest - zlen (enc_seq (Sequence lits off (mlen + 4))).
Proof.
  intros -> Hm Hoff Hroom. rewrite zlen_enc_seq in * by (simpl; lia). cbn [s_lits s_len s_off] in *.
  replace (mlen + 4 - 4) with mlen in * by lia. pose proof (zlen_nonneg lits).
  pose proof (enc_len_cost mlen Hm) as (_ & Hc & _).
  pose proof (enc_len_cost (zlen lits) ltac:(lia)) as (_ & Hc2 & _). unfold put_match.
  destruct (put_lits_ok pre lits post out rest (zlen out)) as (r & -> & Hr); [done|lia|].
  unfold enc_lits. cbn [rbind app].
  rewrite rd_mid by done. cbn [rbind]. rewrite wr_mid by done. cbn [rbind].
  unfold token at 1. rewrite Z.add_0_r, lo_nibble by lia.
  destruct r as [|x [|y r]]; [zl; lia..|].
  rewrite (app_mid4 out _ (enc_len (zlen lits) ++ lits) (x :: y :: r)).
  rewrite wr_mid by (zl; lia). cbn [rbind]. rewrite (app_snoc _ (u8 off) (y :: r)).
  rewrite wr_mid by (zl; lia). cbn [rbind]. rewrite (app_snoc _ _ r).
  edestruct (put_len_ok mlen Hm) as (r' & -> & Hr'); [|shelve|]; [zl; lia|].
  exists r'. split; [|zl; lia]. unfold enc_seq, enc_lits. cbn [s_lits s_len s_off].
  replace (mlen + 4 - 4) with mlen by lia. rewrite off_high by done. lnorm. zl.
  do 2 f_equal. lia.
  Unshelve. zl. lia.
Qed.

(** ** Matches *)

Lemma rd_get b i : 0 <= i < zlen b -> rd b i = Ok (zget b i).
Proof.
  intros Hi. unfold rd. destruct (Z.ltb_spec i 0); [lia|]. by rewrite (zget_lookup b i) by (unfold zlen in Hi; lia).
Qed.
Lemma wr_get b i v : 0 <= i < zlen b -> wr b i v = Ok (<[Z.to_nat i := v]> b).
Proof. intros Hi. unfold wr. unfold zlen in Hi. destruct (orb _ _) eqn:E; [lia|done]. Qed.
Lemma zget_byte n b i : Forall (in_range n) b -> 0 <= i < zlen b -> 0 <= zget b i < n.
Proof.
  intros Hb Hi. rewrite Forall_lookup in Hb. apply (Hb (Z.to_nat i)), zget_lookup. unfold zlen in Hi. lia.
Qed.

Lemma ld32_get b i : Forall (in_range 256) b -> 0 <= i -> i + 4 <= zlen b -> exists v, ld32 b i = Ok v /\
  v = zget b i + 256 * zget b (i + 1) + 65536 * zget b (i + 2) + 16777216 * zget b (i + 3).
Proof. intros Hb Hi Hl. unfold ld32. rewrite !rd_get by lia. cbn [rbind]. eauto. Qed.

Lemma hash_range src p h : lz4_hash4 src p = Ok h -> 0 <= h < LZ4_HASH_ENTRIES.
Proof.
  unfold lz4_hash4. destruct (ld32 src p) as [v| |]; [|done..]. cbn [rbind]. intros [= <-].
  change (Z.shiftl 1 LZ4_HASH_LOG - 1) with (Z.ones 12). rewrite Z.land_ones by lia.
  change LZ4_HASH_ENTRIES with (2 ^ 12). apply Z.mod_pos_bound. lia.
Qed.

Definition same_bytes (src : list Z) (cand ip len : Z) : Prop :=
  forall k, 0 <= k < len -> zget src (cand + k) = zget src (ip + k).

Lemma candidate_ok src cand ip :
  Forall (in_range 256) src -> 0 <= cand -> 0 <= ip -> ip + 4 <= zlen src ->
  exists b, candidate src cand ip = Ok b /\
    (b = true -> 0 < ip - cand < 65536 /\ same_bytes src cand ip 4).
Proof.
  intros Hb Hc Hi Hl. unfold candidate.
  destruct (andb _ _) eqn:E; [|exists false; done]. bools.
  destruct (ld32_get src cand) as (a & -> & ->); [done|lia..|].
  destruct (ld32_get src ip) as (b & -> & ->); [done|lia..|]. cbn [rbind].
  eexists; split; [done|]. intros Heq%Z.eqb_eq. split; [lia|]. intros k Hk.
  assert (Hr : forall j, 0 <= j < 4 -> 0 <= zget src (cand + j) < 256 /\ 0 <= zget src (ip + j) < 256).
  { intros j Hj. split; apply zget_byte; (done || lia). }
  pose proof (Hr 0 ltac:(lia)). pose proof (Hr 1 ltac:(lia)). pose proof (Hr 2 ltac:(lia)). pose proof (Hr 3 ltac:(lia)).
  rewrite !Z.add_0_r in *. destruct (decide (k = 0)) as [->|]; [rewrite !Z.add_0_r; lia|].
  destruct (decide (k = 1)) as [->|]; [lia|]. destruct (decide (k = 2)) as [->|]; [lia|].
  replace k with 3 by lia. lia.
Qed.

Lemma match_len_ok fuel src cand ip len :
  0 <= cand < ip -> 0 <= len -> ip + len <= zlen src -> same_bytes src cand ip len ->
  (Z.to_nat (zlen src - ip - len) < fuel)%nat ->
  exists len', match_len fuel src (zlen src) cand ip len = Ok len' /\ len <= len' /\
    ip + len' <= zlen src /\ same_bytes src cand ip len'.
Proof.
  revert len. induction fuel as [|f IH]; intros len Hc Hl Hle Hs Hf; [lia|]. cbn [match_len].
  destruct (Z.ltb_spec (ip + len) (zlen src)); [|exists len; split_and!; (done || lia)].
  rewrite !rd_get by lia. cbn [rbind].
  destruct (Z.eqb_spec (zget src (cand + len)) (zget src (ip + len))); [|exists len; split_and!; (done || lia)].
  destruct (IH (len + 1)) as (l & -> & ? & ? & ?); [lia..| |lia|].
  - intros k Hk. destruct (decide (k = len)) as [->|]; [done|]. apply Hs. lia.
  - exists l. split_and!; (done || lia).
Qed.

Lemma repeat_from_src n src i off :
  (0 < off <= i)%nat -> (i + n <= length src)%nat ->
  (forall k, (k < n)%nat -> src !!! (i - off + k)%nat = src !!! (i + k)%nat) ->
  repeat_from n (take i src) off = take (i + n) src.
Proof.
  revert i. induction n as [|n IH]; intros i Ho Hl Hs; cbn [repeat_from]; [by rewrite Nat.add_0_r|].
  rewrite length_take_le by lia.
  assert (Hx : take i src !!! (i - off)%nat = src !!! i).
  { rewrite list_lookup_total_alt, lookup_take by lia. rewrite decide_True by lia.
    rewrite <- list_lookup_total_alt. specialize (Hs 0%nat). rewrite !Nat.add_0_r in Hs. apply Hs. lia. }
  rewrite Hx, <- take_S_r by (apply list_lookup_lookup_total_lt; lia).
  rewrite (IH (S i)) by (lia || (intros k Hk; replace (S i - off + k)%nat with (i - off + S k)%nat by lia;
    replace (S i + k)%nat with (i + S k)%nat by lia; apply Hs; lia)).
  f_equal. lia.
Qed.

(** The bytes of [src] from [a] to [b]. *)
Definition slice (src : list Z) (a b : Z) : list Z := take (Z.to_nat (b - a)) (drop (Z.to_nat a) src).

Lemma slice_split src a b : 0 <= a <= b -> b <= zlen src ->
  exists post, src = take (Z.to_nat a) src ++ slice src a b ++ post.
Proof.
  intros Ha Hb. exists (drop (Z.to_nat b) src). unfold slice.
  replace (drop (Z.to_nat b) src) with (drop (Z.to_nat (b - a)) (drop (Z.to_nat a) src))
    by (rewrite drop_drop; f_equal; lia). by rewrite !take_drop.
Qed.
Lemma slice_take src a b : 0 <= a <= b -> take (Z.to_nat a) src ++ slice src a b = take (Z.to_nat b) src.
Proof. intros Ha. unfold slice. rewrite take_take_drop. f_equal. lia. Qed.
Lemma zlen_slice src a b : 0 <= a <= b -> b <= zlen src -> zlen (slice src a b) = b - a.
Proof. intros. unfold slice, zlen in *. rewrite length_take, length_drop. lia. Qed.
Lemma slice_bytes src a b : Forall (in_range 256) src -> Forall (in_range 256) (slice src a b).
Proof. intros. by apply Forall_take, Forall_drop. Qed.

(** A match found by the compressor is a sequence of the format. *)
Lemma match_expands src anchor ip cand len :
  Forall (in_range 256) src -> 0 <= anchor <= ip -> 0 <= cand -> 0 < ip - cand < 65536 -> 4 <= len ->
  ip + len <= zlen src -> same_bytes src cand ip len ->
  let s := Sequence (slice src anchor ip) (ip - cand) len in
  seq_ok (take (Z.to_nat anchor) src) s /\ expand1 (take (Z.to_nat anchor) src) s = take (Z.to_nat (ip + len)) src.
Proof.
  intros Hb Ha Hc Ho Hl Hle Hs s. split.
  - unfold seq_ok, s. cbn [s_off s_len s_lits]. rewrite zlen_take, zlen_slice by lia.
    split_and!; try lia. by apply slice_bytes.
  - unfold expand1, s. cbn [s_off s_len s_lits]. rewrite slice_take by lia.
    unfold zlen in *. rewrite repeat_from_src; [f_equal; lia|lia|lia|].
    intros k Hk. specialize (Hs (Z.of_nat k) ltac:(lia)). unfold zget in Hs.
    replace (Z.to_nat ip - Z.to_nat (ip - cand) + k)%nat with (Z.to_nat (cand + Z.of_nat k)) by lia.
    rewrite Hs. f_equal. lia.
Qed.

(** ** The compressor writes a block of its input *)

Lemma enc_seqs_snoc l s : enc_seqs (l ++ [s]) = enc_seqs l ++ enc_seq s.
Proof. induction l as [|a l IH]; simpl; [by rewrite app_nil_r|]. by rewrite IH, app_assoc. Qed.
Lemma expand_snoc out l s : expand out (l ++ [s]) = expand1 (expand out l) s.
Proof. unfold expand. by rewrite foldl_app. Qed.
Lemma seqs_ok_snoc out l s : seqs_ok out l -> seq_ok (expand out l) s -> seqs_ok out (l ++ [s]).
Proof.
  revert out. induction l as [|a l IH]; intros out H Hs; simpl in *; [done|].
  destruct H. split; [done|]. by apply IH.
Qed.

(** Space for what is written: two bytes more than the capacity the caller
    gives, or a capacity of [LZ4_COMPRESS_BOUND]. *)
Definition room (dst : list Z) (cap n : Z) : Prop :=
  cap + 2 <= zlen dst \/ LZ4_COMPRESS_BOUND n <= cap <= zlen dst.

Definition compressed (src dst : list Z) (cap : Z) (out : res (Z * list Z * list Z)) : Prop :=
  exists r dst' ht', out = Ok (r, dst', ht') /\ zlen dst' = zlen dst /\
    ((r = 0 /\ cap < LZ4_COMPRESS_BOUND (zlen src)) \/
     exists seqs lits rest, dst' = encode seqs 0 lits ++ rest /\ r = zlen (encode seqs 0 lits) /\
       seqs_ok [] seqs /\ expand [] seqs ++ lits = src).

(** The state of the loop: what is written so far stands for the input up to [anchor]. *)
Record emitted (src dst : list Z) (seqs : list sequence) (rest : list Z) (anchor op : Z) : Prop := {
  em_dst : dst = enc_seqs seqs ++ rest;
  em_op : op = zlen (enc_seqs seqs);
  em_anchor : 0 <= anchor <= zlen src;
  em_ok : seqs_ok [] seqs;
  em_expand : expand [] seqs = take (Z.to_nat anchor) src;
  em_cost : 255 * op <= 256 * anchor }.

Lemma compress_tail_ok src dst cap ht anchor op seqs rest :
  Forall (in_range 256) src -> zlen src <= 2 ^ 28 -> room dst cap (zlen src) ->
  emitted src dst seqs rest anchor op ->
  compressed src dst cap (compress_tail src (zlen src) dst cap ht anchor op).
Proof.
  intros Hb Hn Hroom [-> -> Ha Hok Hex Hcost]. unfold compress_tail.
  pose proof (zlen_nonneg (enc_seqs seqs)) as Hop.
  pose proof (enc_len_cost (zlen src - anchor) ltac:(lia)) as (Hc1 & Hc2 & _).
  rewrite int_ok by (unfold INT_MAX; lia). cbn [rbind].
  unfold room, LZ4_COMPRESS_BOUND in Hroom. rewrite zlen_app in Hroom.
  destruct (Z.ltb_spec cap (zlen (enc_seqs seqs) + 1 + (zlen src - anchor) / 255 + (zlen src - anchor))) as [Hcap|Hcap].
  - exists 0, (enc_seqs seqs ++ rest), ht. split_and!; [done..|]. left. unfold LZ4_COMPRESS_BOUND. lia.
  - destruct (slice_split src anchor (zlen src)) as (post & Hsrc); [lia..|].
    pose proof (zlen_slice src anchor (zlen src) ltac:(lia) ltac:(lia)) as Hsl.
    set (lits := slice src anchor (zlen src)) in *. rewrite <- Hsl in *.
    destruct (put_lits_ok (take (Z.to_nat anchor) src) lits post (enc_seqs seqs) rest (zlen (enc_seqs seqs)))
      as (r & E & Hr); [done|lia|].
    rewrite <- Hsrc, zlen_take in E by lia. rewrite E. cbn [rbind].
    eexists _, _, ht. split; [done|]. rewrite app_assoc. change (enc_seqs seqs ++ enc_lits 0 lits) with (encode seqs 0 lits).
    split; [unfold encode, enc_lits; zl; lia|]. right. exists seqs, lits, r. split_and!; [done| |done|].
    + unfold encode, enc_lits. zl. lia.
    + rewrite Hex. unfold lits. rewrite slice_take by lia. unfold zlen. rewrite Nat2Z.id. apply take_ge. lia.
Qed.

(** One more sequence written: the state of the loop after a match. *)
Lemma put_match_emits src dst cap seqs rest anchor op ip cand len :
  Forall (in_range 256) src -> zlen src <= 2 ^ 28 -> room dst cap (zlen src) ->
  emitted src dst seqs rest anchor op -> anchor <= ip -> 0 <= cand -> 0 < ip - cand < 65536 ->
  4 <= len -> ip + len <= zlen src -> same_bytes src cand ip len ->
  op + 1 + (ip - anchor) / 255 + (ip - anchor) + 2 + (len - 4) / 255 <= cap ->
  exists dst' op' rest', put_match src dst op anchor (ip - anchor) (len - 4) (ip - cand) = Ok (dst', op') /\
    zlen dst' = zlen dst /\
    emitted src dst' (seqs ++ [Sequence (slice src anchor ip) (ip - cand) len]) rest' (ip + len) op'.
Proof.
  intros Hb Hn Hroom [-> -> Ha Hok Hex Hcost] Hai Hc Ho Hl Hle Hs Hcap.
  destruct (match_expands src anchor ip cand len) as [Hsok Hsex]; [done|lia..|done|].
  set (s := Sequence (slice src anchor ip) (ip - cand) len) in *.
  destruct (slice_split src anchor ip) as (post & Hsrc); [lia..|].
  pose proof (zlen_slice src anchor ip ltac:(lia) ltac:(lia)) as Hsl.
  pose proof (enc_len_cost (ip - anchor) ltac:(lia)) as (Hc1 & Hc2 & _).
  pose proof (enc_len_cost (len - 4) ltac:(lia)) as (Hc3 & Hc4 & Hc5).
  assert (Hz : zlen (enc_seq s) = 3 + zlen (enc_len (ip - anchor)) + (ip - anchor) + zlen (enc_len (len - 4))).
  { rewrite zlen_enc_seq by (simpl; lia). simpl. rewrite Hsl. lia. }
  unfold room, LZ4_COMPRESS_BOUND in Hroom. rewrite zlen_app in Hroom.
  destruct (put_match_ok (take (Z.to_nat anchor) src) (slice src anchor ip) post (enc_seqs seqs) rest
    (zlen (enc_seqs seqs)) (len - 4) (ip - cand)) as (r & E & Hr); [done|lia|lia| |].
  { replace (len - 4 + 4) with len by lia. fold s. lia. }
  rewrite <- Hsrc, zlen_take, Hsl in E by lia. replace (len - 4 + 4) with len in * by lia. fold s in E, Hr.
  eexists _, _, r. split; [exact E|]. split; [zl; lia|]. split.
  - by rewrite enc_seqs_snoc, app_assoc.
  - rewrite enc_seqs_snoc. zl. lia.
  - lia.
  - apply seqs_ok_snoc; [done|]. by rewrite Hex.
  - by rewrite expand_snoc, Hex.
  - lia.
Qed.

Lemma compressed_same src dst dst' cap out :
  zlen dst' = zlen dst -> compressed src dst' cap out -> compressed src dst cap out.
Proof. intros H (r & d & ht & ? & ? & ?). exists r, d, ht. split_and!; [done|congruence|done]. Qed.

Lemma compress_loop_ok fuel src dst cap ht ip seqs rest anchor op :
  Forall (in_range 256) src -> zlen src <= 2 ^ 28 -> room dst cap (zlen src) ->
  Forall (in_range 65536) ht -> LZ4_HASH_ENTRIES <= zlen ht ->
  emitted src dst seqs rest anchor op -> anchor <= ip ->
  (Z.to_nat (zlen src - ip) < fuel)%nat ->
  compressed src dst cap (compress_loop fuel src (zlen src) dst cap ht ip anchor op).
Proof.
  intros Hb Hn. revert dst ht ip seqs rest anchor op.
  induction fuel as [|f IH]; intros dst ht ip seqs rest anchor op Hroom Hht Hlen Hem Hai Hf; [lia|].
  pose proof (em_anchor _ _ _ _ _ _ Hem). cbn [compress_loop].
  destruct (Z.ltb_spec ip (zlen src - 4)); [|by eapply compress_tail_ok].
  destruct (lz4_hash4 src ip) as [h| |] eqn:Eh;
    [|exfalso; unfold lz4_hash4 in Eh; destruct (ld32_get src ip) as (v & E & _); [done|lia..|]; by rewrite E in Eh..].
  pose proof (hash_range _ _ _ Eh). cbn [rbind]. rewrite rd_get, wr_get by lia. cbn [rbind].
  pose proof (zget_byte _ ht h Hht ltac:(lia)) as Hcand. set (cand := zget ht h) in *.
  assert (Hht' : Forall (in_range 65536) (<[Z.to_nat h := u16 ip]> ht))
    by (apply Forall_insert; [done|apply u16_range]).
  assert (Hlen' : LZ4_HASH_ENTRIES <= zlen (<[Z.to_nat h := u16 ip]> ht)) by (unfold zlen in *; by rewrite length_insert).
  destruct (candidate_ok src cand ip) as (b & -> & Hm); [done|lia..|]. cbn [rbind].
  destruct b; [|eapply IH; try done; lia].
  destruct (Hm eq_refl) as [Ho Hs].
  destruct (match_len_ok (Z.to_nat (zlen src)) src cand ip 4) as (len & -> & Hl4 & Hle & Hsame); [lia..|done|lia|].
  cbn [rbind]. pose proof (em_cost _ _ _ _ _ _ Hem). pose proof (em_op _ _ _ _ _ _ Hem).
  pose proof (zlen_nonneg (enc_seqs seqs)).
  rewrite int_ok by (unfold INT_MAX; lia). cbn [rbind].
  destruct (Z.ltb_spec cap (op + 1 + (ip - anchor) / 255 + (ip - anchor) + 2 + (len - 4) / 255)) as [Hcap|Hcap].
  { eexists 0, dst, _. split_and!; [done..|]. left. unfold LZ4_COMPRESS_BOUND. lia. }
  destruct (put_match_emits src dst cap seqs rest anchor op ip cand len) as (d & o & r & -> & Hd & Hem');
    [done|lia|done|done|lia..|done|lia|].
  cbn [rbind]. eapply compressed_same; [exact Hd|]. eapply IH; [|done|done|exact Hem'|lia|lia].
  unfold room in *. by rewrite Hd.
Qed.

Lemma lz4_compress_ok src dst cap ht :
  Forall (in_range 256) src -> 5 <= zlen src <= 2 ^ 28 -> 0 < cap -> room dst cap (zlen src) ->
  Forall (in_range 65536) ht -> LZ4_HASH_ENTRIES <= zlen ht ->
  compressed src dst cap (lz4_compress (Some src) (zlen src) (Some dst) cap (Some ht)).
Proof.
  intros Hb Hn Hc Hroom Hht Hlen. unfold lz4_compress, clear_table.
  destruct (orb _ _) eqn:E; [lia|]. clear E. unfold zlen in Hlen at 1.
  destruct (Z.ltb_spec (Z.of_nat (length ht)) LZ4_HASH_ENTRIES); [lia|]. cbn [rbind].
  eapply (compress_loop_ok _ src dst cap _ 0 [] dst 0 0); [done|lia|done| | | |lia|lia].
  - apply Forall_app. split; [|by apply Forall_drop]. apply Forall_replicate. split; lia.
  - zl. pose proof (zlen_nonneg (drop (Z.to_nat LZ4_HASH_ENTRIES) ht)). change LZ4_HASH_ENTRIES with 4096 in *. lia.
  - split; simpl; try done; lia.
Qed.

(** ** Reading lengths back *)

Lemma get_ext_enc fuel pre post e acc ip : ip = zlen pre ->
  0 <= e -> 0 <= acc -> acc + e <= INT_MAX -> (Z.to_nat (e / 255) < fuel)%nat ->
  get_ext fuel (pre ++ enc_ext e ++ post) (zlen (pre ++ enc_ext e ++ post)) ip acc
  = Ok (Some (ip + zlen (enc_ext e), acc + e)).
Proof.
  revert pre e acc ip. induction fuel as [|f IH]; intros pre e acc ip -> He Ha Hm Hf; [lia|]. cbn [get_ext].
  pose proof (zlen_enc_ext e He). pose proof (zlen_nonneg post).
  destruct (Z.leb_spec (zlen (pre ++ enc_ext e ++ post)) (zlen pre)); [zl; lia|].
  destruct (Z.leb_spec 255 e).
  - rewrite enc_ext_step by done. cbn [app]. rewrite rd_mid by done. cbn [rbind].
    rewrite int_ok by (unfold INT_MAX in *; lia). cbn [rbind].
    change (255 <>? 255) with false. cbn iota. rewrite (app_snoc pre 255), IH by (zl; lia). zl. do 3 f_equal; lia.
  - rewrite enc_ext_last by lia. cbn [app]. rewrite rd_mid by done. cbn [rbind].
    rewrite int_ok by (unfold INT_MAX in *; lia). cbn [rbind].
    destruct (Z.eqb_spec e 255); [lia|]. done.
Qed.

Lemma get_len_enc pre post n c ip size : ip = zlen pre -> 0 <= n -> 0 <= c -> n + c <= INT_MAX ->
  size = zlen (pre ++ enc_len n ++ post) ->
  get_len (pre ++ enc_len n ++ post) size ip (nibble n) (nibble n + c) = Ok (Some (ip + zlen (enc_len n), n + c)).
Proof.
  intros -> Hn Hc Hm ->. unfold get_len, enc_len, nibble in *. destruct (Z.leb_spec 15 n).
  - rewrite get_ext_enc by (try rewrite !zlen_app, zlen_enc_ext by lia; pose proof (zlen_nonneg pre);
      pose proof (zlen_nonneg post); lia). do 3 f_equal; lia.
  - destruct (Z.eqb_spec n 15); [lia|]. zl. do 3 f_equal. lia.
Qed.

Lemma get_ext_sound fuel pre avail acc ip : ip = zlen pre -> Forall (in_range 256) avail ->
  0 <= acc -> acc + 255 * zlen avail <= INT_MAX -> (length avail < fuel)%nat ->
  get_ext fuel (pre ++ avail) (zlen (pre ++ avail)) ip acc = Ok None \/
  exists e post, 0 <= e /\ avail = enc_ext e ++ post /\
    get_ext fuel (pre ++ avail) (zlen (pre ++ avail)) ip acc = Ok (Some (ip + zlen (enc_ext e), acc + e)).
Proof.
  revert pre avail acc ip. induction fuel as [|f IH]; intros pre avail acc ip -> Hb Ha Hm Hf; [lia|]. cbn [get_ext].
  destruct avail as [|b avail].
  { left. rewrite app_nil_r. destruct (Z.leb_spec (zlen pre) (zlen pre)); [done|lia]. }
  destruct (Z.leb_spec (zlen (pre ++ b :: avail)) (zlen pre)); [zl; lia|].
  apply Forall_cons in Hb as [Hb0 Hb]. unfold in_range in Hb0. zl. rewrite rd_mid by done. cbn [rbind].
  rewrite int_ok by (unfold INT_MAX in *; lia). cbn [rbind].
  destruct (Z.eqb_spec b 255) as [->|Hne]; cbn [negb].
  - rewrite (app_snoc pre 255). replace (zlen pre + (1 + zlen avail)) with (zlen ((pre ++ [255]) ++ avail)) by (zl; lia).
    destruct (IH (pre ++ [255]) avail (acc + 255) (zlen pre + 1)) as [->|(e & post & He & -> & ->)];
      [zl; lia|done|lia|lia|simpl in Hf; lia|by left|].
    right. exists (e + 255), post. rewrite (enc_ext_step (e + 255)) by lia. replace (e + 255 - 255) with e by lia. zl.
    split_and!; [lia|done|do 3 f_equal; lia].
  - right. exists b, avail. rewrite enc_ext_last by lia. split_and!; [lia|done|done].
Qed.

Lemma get_len_sound pre avail nib c ip : ip = zlen pre -> Forall (in_range 256) avail ->
  0 <= nib <= 15 -> 0 <= c -> 15 + c + 255 * zlen avail <= INT_MAX ->
  get_len (pre ++ avail) (zlen (pre ++ avail)) ip nib (nib + c) = Ok None \/
  exists n post, 0 <= n /\ nib = nibble n /\ avail = enc_len n ++ post /\
    get_len (pre ++ avail) (zlen (pre ++ avail)) ip nib (nib + c) = Ok (Some (ip + zlen (enc_len n), n + c)).
Proof.
  intros -> Hb Hn Hc Hm. unfold get_len. destruct (Z.eqb_spec nib 15) as [->|Hne].
  - destruct (get_ext_sound (S (Z.to_nat (zlen (pre ++ avail)))) pre avail (15 + c) (zlen pre))
      as [->|(e & post & He & -> & ->)]; [done|done|lia|lia|unfold zlen; rewrite length_app; lia|by left|].
    right. exists (e + 15), post. unfold nibble, enc_len. destruct (Z.leb_spec 15 (e + 15)); [|lia].
    replace (e + 15 - 15) with e by lia. split_and!; [lia|done|done|do 3 f_equal; lia].
  - right. exists nib, avail. unfold nibble, enc_len. destruct (Z.leb_spec 15 nib); [lia|]. zl.
    split_and!; [lia|done|done|do 3 f_equal; lia].
Qed.

Lemma copy_match_ok n out rest op off : op = zlen out -> 0 < off <= zlen out -> (n <= length rest)%nat ->
  copy_match n (out ++ rest) op off = Ok (repeat_from n out (Z.to_nat off) ++ drop n rest).
Proof.
  revert out rest op. induction n as [|n IH]; intros out rest op -> Ho Hn; [done|]. cbn [copy_match repeat_from].
  destruct rest as [|x rest]; [simpl in Hn; lia|]. rewrite rd_get by (zl; lia). cbn [rbind].
  rewrite wr_mid by done. cbn [rbind drop].
  assert (Hv : zget (out ++ x :: rest) (zlen out - off) = out !!! (length out - Z.to_nat off)%nat).
  { unfold zget, zlen in *. rewrite list_lookup_total_alt, lookup_app_l by lia. rewrite <- list_lookup_total_alt. f_equal. lia. }
  rewrite Hv, app_snoc, IH by (zl; simpl in Hn; lia). done.
Qed.

Lemma length_repeat_from n out off : length (repeat_from n out off) = (length out + n)%nat.
Proof. revert out. induction n as [|n IH]; intros out; simpl; [lia|]. rewrite IH, length_app. simpl. lia. Qed.
Lemma zlen_expand1 out s : 0 <= s_len s -> zlen (expand1 out s) = zlen out + zlen (s_lits s) + s_len s.
Proof. intros H. unfold expand1, zlen. rewrite length_repeat_from, length_app. lia. Qed.
Lemma zlen_expand out l : seqs_ok out l -> zlen out <= zlen (expand out l).
Proof.
  revert out. induction l as [|s l IH]; intros out H; simpl in *; [lia|]. destruct H as [(_ & _ & Hs & _) Hl].
  specialize (IH _ Hl). rewrite zlen_expand1 in IH by lia. pose proof (zlen_nonneg (s_lits s)). lia.
Qed.

Lemma token_hi l low : 0 <= l -> 0 <= low <= 15 -> Z.shiftr (token l low) 4 = nibble l.
Proof. intros. unfold token. rewrite Z.shiftr_div_pow2 by lia. change (2 ^ 4) with 16. lia. Qed.
Lemma token_lo l low : 0 <= l -> 0 <= low <= 15 -> Z.land (token l low) 0xF = low.
Proof. intros. change 0xF with (Z.ones 4). rewrite Z.land_ones by lia. unfold token. change (2 ^ 4) with 16. lia. Qed.
Lemma off_join o0 o1 : 0 <= o0 < 256 -> Z.lor o0 (Z.shiftl o1 8) = o1 * 256 + o0.
Proof. intros. rewrite Z.lor_comm. by rewrite lor_add by lia. Qed.

(** ** The decompressor, one sequence at a time *)

(** What an iteration does once the literals are copied. *)
Definition after_lits (f : nat) (src : list Z) (srcSize : Z) (dst : list Z) (dstSize low ip op : Z) : res (Z * list Z) :=
  if op =? dstSize then Ok (0, dst) else
  if srcSize <? ip + 2 then Ok (-1, dst) else
  let* o0 := rd src ip in
  let* o1 := rd src (ip + 1) in
  let off := Z.lor o0 (Z.shiftl o1 8) in
  if (off =? 0) || (op <? off) then Ok (-1, dst) else
  let* m := get_len src srcSize (ip + 2) low (low + 4) in
  match m with
  | None => Ok (-1, dst)
  | Some (ip, mlen) =>
      let* e := int (op + mlen) in
      if dstSize <? e then Ok (-1, dst) else
      let* dst := copy_match (Z.to_nat mlen) dst op off in
      decompress_loop f src srcSize dst dstSize ip (op + mlen)
  end.

(** The sizes for which no [int] of the decompressor overflows. *)
Definition sizes_ok (src dst : list Z) : Prop := 256 * zlen src + zlen dst + 64 <= INT_MAX.

Lemma decompress_lits f pre low lits tail src out rest dst ip op :
  src = pre ++ enc_lits low lits ++ tail -> dst = out ++ rest -> ip = zlen pre -> op = zlen out ->
  0 <= low <= 15 -> sizes_ok src dst -> zlen lits <= zlen rest ->
  decompress_loop (S f) src (zlen src) dst (zlen dst) ip op =
  after_lits f src (zlen src) (out ++ lits ++ drop (length lits) rest) (zlen dst) low
    (ip + zlen (enc_lits low lits)) (op + zlen lits).
Proof.
  intros Hsrc -> -> -> Hlow Hs Hroom. unfold sizes_ok, INT_MAX in Hs. cbn [decompress_loop].
  pose proof (zlen_nonneg lits). pose proof (enc_len_cost (zlen lits) ltac:(lia)) as (_ & Hc & _).
  assert (Hsz : zlen src = zlen pre + 1 + zlen (enc_len (zlen lits)) + zlen lits + zlen tail)
    by (rewrite Hsrc; unfold enc_lits; zl; lia). zl.
  destruct (Z.leb_spec (zlen src) (zlen pre)); [lia|].
  assert (Erd : rd src (zlen pre) = Ok (token (zlen lits) low)) by (rewrite Hsrc; by apply rd_mid).
  rewrite Erd. cbn [rbind]. rewrite token_hi by done.
  assert (El : get_len src (zlen src) (zlen pre + 1) (nibble (zlen lits)) (nibble (zlen lits))
    = Ok (Some (zlen pre + 1 + zlen (enc_len (zlen lits)), zlen lits))).
  { pose proof (get_len_enc (pre ++ [token (zlen lits) low]) (lits ++ tail) (zlen lits) 0 (zlen pre + 1) (zlen src)) as G.
    rewrite !Z.add_0_r in G.
    assert (Hs2 : src = (pre ++ [token (zlen lits) low]) ++ enc_len (zlen lits) ++ lits ++ tail)
      by (rewrite Hsrc; unfold enc_lits; by lnorm).
    rewrite <- Hs2 in G. apply G; unfold INT_MAX; zl; lia || done. }
  rewrite El. cbn [rbind]. rewrite !int_ok by (unfold INT_MAX; lia). cbn [rbind].
  destruct (orb _ _) eqn:E; [lia|]. clear E.
  assert (Em : memcpy (out ++ rest) (zlen out) src (zlen pre + 1 + zlen (enc_len (zlen lits))) (zlen lits)
    = Ok (out ++ lits ++ drop (length lits) rest)).
  { rewrite Hsrc. unfold enc_lits. rewrite <- (take_drop (length lits) rest) at 1. cbn [app]. lnorm.
    rewrite (app_comm_cons _ _ (token _ _)), (app_assoc pre).
    apply memcpy_mid; [done|zl; lia|done|]. rewrite length_take. unfold zlen in *. lia. }
  rewrite Em. cbn [rbind]. unfold after_lits. rewrite token_lo by done.
  unfold enc_lits. zl. replace (zlen pre + (1 + (zlen (enc_len (zlen lits)) + zlen lits)))
    with (zlen pre + 1 + zlen (enc_len (zlen lits)) + zlen lits) by lia. done.
Qed.

Lemma after_lits_match f pre tail src out rest dst ip op off m :
  src = pre ++ [off mod 256; off / 256] ++ enc_len (m - 4) ++ tail -> dst = out ++ rest ->
  ip = zlen pre -> op = zlen out -> 0 < off <= zlen out -> off < 65536 -> 4 <= m <= zlen rest ->
  sizes_ok src dst ->
  after_lits f src (zlen src) dst (zlen dst) (nibble (m - 4)) ip op =
  decompress_loop f src (zlen src) (repeat_from (Z.to_nat m) out (Z.to_nat off) ++ drop (Z.to_nat m) rest) (zlen dst)
    (ip + 2 + zlen (enc_len (m - 4))) (op + m).
Proof.
  intros Hsrc -> -> -> Ho Hof Hm Hs. unfold after_lits, sizes_ok, INT_MAX in *. zl.
  pose proof (enc_len_cost (m - 4) ltac:(lia)) as (_ & Hc & _).
  assert (Hsz : zlen src = zlen pre + 2 + zlen (enc_len (m - 4)) + zlen tail) by (rewrite Hsrc; zl; lia).
  pose proof (zlen_nonneg tail).
  destruct (Z.eqb_spec (zlen out) (zlen out + zlen rest)); [lia|].
  destruct (Z.ltb_spec (zlen src) (zlen pre + 2)); [lia|].
  assert (E0 : rd src (zlen pre) = Ok (off mod 256)) by (rewrite Hsrc; by apply rd_mid).
  assert (E1 : rd src (zlen pre + 1) = Ok (off / 256)).
  { rewrite Hsrc. cbn [app]. rewrite app_snoc. apply rd_mid. zl. lia. }
  rewrite E0, E1. cbn [rbind]. rewrite off_join by lia. replace (off / 256 * 256 + off mod 256) with off by lia.
  destruct (orb _ _) eqn:E; [lia|]. clear E.
  assert (El : get_len src (zlen src) (zlen pre + 2) (nibble (m - 4)) (nibble (m - 4) + 4)
    = Ok (Some (zlen pre + 2 + zlen (enc_len (m - 4)), m))).
  { assert (Hs2 : src = (pre ++ [off mod 256; off / 256]) ++ enc_len (m - 4) ++ tail) by (rewrite Hsrc; by lnorm).
    rewrite Hs2 at 1. rewrite get_len_enc; [do 3 f_equal; lia|zl; lia|lia|lia|unfold INT_MAX; lia|by rewrite Hs2]. }
  rewrite El. cbn [rbind]. rewrite int_ok by (unfold INT_MAX; lia). cbn [rbind].
  destruct (Z.ltb_spec (zlen out + zlen rest) (zlen out + m)); [lia|].
  rewrite copy_match_ok by (unfold zlen in *; lia). done.
Qed.

(** A block of the format whose expansion fills the output is decoded to it. *)
Lemma decompress_complete l : forall f pre src out rest dst ip op low lits post,
  src = pre ++ encode l low lits ++ post -> dst = out ++ rest -> ip = zlen pre -> op = zlen out ->
  0 <= low <= 15 -> seqs_ok out l -> zlen (expand out l) + zlen lits = zlen dst -> sizes_ok src dst ->
  (length l < f)%nat ->
  decompress_loop f src (zlen src) dst (zlen dst) ip op = Ok (0, expand out l ++ lits).
Proof.
  induction l as [|s l IH]; intros f pre src out rest dst ip op low lits post Hsrc Hdst -> -> Hlow Hok Hsz Hs Hf;
    (destruct f as [|f]; [lia|]).
  - cbn in Hsz. subst dst. rewrite zlen_app in Hsz. rewrite (decompress_lits f pre low lits post src out rest (out ++ rest)); try done; [|lia].
    unfold after_lits. zl. destruct (Z.eqb_spec (zlen out + zlen lits) (zlen out + zlen rest)); [|lia].
    rewrite drop_ge, app_nil_r by (unfold zlen in *; lia). done.
  - destruct Hok as [(Ho & Hol & Hm & Hb) Hok]. pose proof (zlen_expand _ _ Hok) as He. cbn [expand foldl] in Hsz.
    unfold expand in He. rewrite zlen_expand1 in He by lia. subst dst. rewrite zlen_app in Hsz.
    pose proof (zlen_nonneg (s_lits s)). pose proof (zlen_nonneg lits).
    unfold encode in Hsrc. cbn [enc_seqs] in Hsrc. unfold enc_seq in Hsrc.
    rewrite (decompress_lits f pre (nibble (s_len s - 4)) (s_lits s)
      ([s_off s mod 256; s_off s / 256] ++ enc_len (s_len s - 4) ++ enc_seqs l ++ enc_lits low lits ++ post)
      src out rest (out ++ rest)); try done;
      [|by rewrite Hsrc; lnorm|apply nibble_range; lia|lia].
    rewrite app_assoc. set (rest2 := drop (length (s_lits s)) rest).
    assert (Hr2 : zlen rest2 = zlen rest - zlen (s_lits s)) by (unfold rest2, zlen in *; rewrite length_drop; lia).
    assert (Hdz : zlen (out ++ rest) = zlen ((out ++ s_lits s) ++ rest2)) by (zl; lia). rewrite Hdz.
    rewrite (after_lits_match f (pre ++ enc_lits (nibble (s_len s - 4)) (s_lits s)) (enc_seqs l ++ enc_lits low lits ++ post)
      src (out ++ s_lits s) rest2 _ _ _ (s_off s) (s_len s)); try done;
      [|by rewrite Hsrc; lnorm|zl; lia|zl; lia|zl; lia|lia|lia|unfold sizes_ok in *; rewrite <- Hdz; lia].
    change (repeat_from _ (out ++ s_lits s) _) with (expand1 out s).
    assert (Hd3 : zlen ((out ++ s_lits s) ++ rest2) = zlen (expand1 out s ++ drop (Z.to_nat (s_len s)) rest2)).
    { rewrite (zlen_app (expand1 out s)), zlen_expand1, zlen_drop by lia. zl. lia. }
    rewrite Hd3. eapply (IH f (pre ++ enc_seq s)); try done; [|zl; unfold enc_seq; zl; lia| | | |simpl in Hf; lia].
    + unfold encode. rewrite Hsrc. unfold enc_seq. by lnorm.
    + rewrite zlen_expand1 by lia. lia.
    + rewrite <- Hd3, <- Hdz, zlen_app. unfold expand. lia.
    + unfold sizes_ok in *. rewrite <- Hd3, <- Hdz. lia.
Qed.

(** Every way an iteration can end: an error, the end of the block, or a
    sequence of the format. *)
Definition decoded (out avail dst : list Z) (m : res (Z * list Z)) : Prop :=
  exists r dst', m = Ok (r, dst') /\ zlen dst' = zlen dst /\
    (r = -1 \/ r = 0 /\ exists l low lits post, 0 <= low <= 15 /\ seqs_ok out l /\
       avail = encode l low lits ++ post /\ dst' = expand out l ++ lits).

Lemma decoded_error out avail dst d : zlen d = zlen dst -> decoded out avail dst (Ok (-1, d)).
Proof. intros H. exists (-1), d. auto. Qed.

Lemma token_split t : 0 <= t < 256 -> exists hi low, t = hi * 16 + low /\ 0 <= hi <= 15 /\ 0 <= low <= 15 /\
  Z.shiftr t 4 = hi.
Proof.
  intros Ht. exists (t / 16), (t mod 16). rewrite Z.shiftr_div_pow2 by lia. change (2 ^ 4) with 16. lia.
Qed.

(** The iteration up to the literals. *)
Lemma decode_lits f pre avail src out rest dst ip op :
  src = pre ++ avail -> Forall (in_range 256) avail -> dst = out ++ rest -> ip = zlen pre -> op = zlen out ->
  sizes_ok src dst ->
  (exists d, decompress_loop (S f) src (zlen src) dst (zlen dst) ip op = Ok (-1, d) /\ zlen d = zlen dst) \/
  exists low lits tail, 0 <= low <= 15 /\ avail = enc_lits low lits ++ tail /\ zlen lits <= zlen rest.
Proof.
  intros Hsrc Hb -> -> -> Hs. destruct avail as [|t avail].
  { left. exists (out ++ rest). cbn [decompress_loop]. rewrite Hsrc, app_nil_r.
    destruct (Z.leb_spec (zlen pre) (zlen pre)); [done|lia]. }
  apply Forall_cons in Hb as [Ht Hb]. destruct (token_split t Ht) as (hi & low & Et & Hhi & Hlow & Esh).
  assert (Hsz : zlen src = zlen pre + 1 + zlen avail) by (rewrite Hsrc; zl; lia).
  pose proof (zlen_nonneg avail). pose proof (zlen_nonneg pre). pose proof (zlen_nonneg out).
  unfold sizes_ok, INT_MAX in Hs. cbn [decompress_loop]. destruct (Z.leb_spec (zlen src) (zlen pre)); [lia|].
  assert (Erd : rd src (zlen pre) = Ok t) by (rewrite Hsrc; by apply rd_mid). rewrite Erd. cbn [rbind]. rewrite Esh.
  pose proof (get_len_sound (pre ++ [t]) avail hi 0 (zlen pre + 1)) as G.
  rewrite <- app_assoc in G. cbn [app] in G. rewrite <- Hsrc, !Z.add_0_r in G.
  destruct G as [->|(n & post & Hn & Hnib & -> & ->)]; [zl; lia|done|lia|lia|unfold INT_MAX; zl; lia|left; eauto|].
  cbn [rbind]. rewrite Z.add_0_r. pose proof (zlen_nonneg (out ++ rest)). zl.
  pose proof (enc_len_cost n Hn) as (_ & Hc & _).
  assert (Hnb : n <= 255 * zlen (enc_len n) + 15) by (rewrite zlen_enc_len by done; destruct (Z.leb_spec 15 n); lia).
  do 2 (rewrite int_ok by (unfold INT_MAX; lia); cbn [rbind]).
  case_orb E; [left; eexists; split; [done|by rewrite zlen_app]|].
  right. destruct (split_room n post) as (lits & tail & -> & Hl); [lia|].
  exists low, lits, tail. split_and!; [lia..| |lia]. unfold enc_lits, token. rewrite Hl, <- Hnib, <- Et. by lnorm.
Qed.

(** The iteration from the offset on. *)
Lemma decode_match f pre avail src out rest dst ip op low :
  src = pre ++ avail -> Forall (in_range 256) avail -> dst = out ++ rest -> ip = zlen pre -> op = zlen out ->
  0 <= low <= 15 -> sizes_ok src dst ->
  (exists d, after_lits f src (zlen src) dst (zlen dst) low ip op = Ok (-1, d) /\ zlen d = zlen dst) \/
  rest = [] \/
  exists off m tail, 0 < off < 65536 /\ off <= zlen out /\ 4 <= m <= zlen rest /\ low = nibble (m - 4) /\
    avail = [off mod 256; off / 256] ++ enc_len (m - 4) ++ tail.
Proof.
  intros Hsrc Hb -> -> -> Hlow Hs. unfold after_lits.
  pose proof (zlen_nonneg avail). pose proof (zlen_nonneg pre). pose proof (zlen_nonneg out).
  destruct (Z.eqb_spec (zlen out) (zlen (out ++ rest))) as [Hd|Hd].
  { right; left. destruct rest; [done|]. zl. lia. }
  assert (Hsz : zlen src = zlen pre + zlen avail) by (rewrite Hsrc; zl; lia).
  destruct (Z.ltb_spec (zlen src) (zlen pre + 2)); [left; eauto|].
  destruct avail as [|o0 [|o1 avail]]; [zl; lia..|].
  apply Forall_cons in Hb as [Ho0 Hb]. apply Forall_cons in Hb as [Ho1 Hb]. unfold in_range in Ho0, Ho1.
  assert (E0 : rd src (zlen pre) = Ok o0) by (rewrite Hsrc; by apply rd_mid).
  assert (E1 : rd src (zlen pre + 1) = Ok o1) by (rewrite Hsrc, app_snoc; apply rd_mid; zl; lia).
  rewrite E0, E1. cbn [rbind]. rewrite off_join by lia. case_orb E; [left; eauto|].
  pose proof (get_len_sound (pre ++ [o0; o1]) avail low 4 (zlen pre + 2)) as G.
  rewrite <- app_assoc in G. cbn [app] in G. rewrite <- Hsrc in G. unfold sizes_ok, INT_MAX in Hs.
  pose proof (zlen_nonneg (out ++ rest)). rewrite !zlen_cons in *.
  destruct G as [->|(n & post & Hn & Hnib & -> & ->)]; [zl; lia|done|lia|lia|unfold INT_MAX; lia|left; eauto|].
  cbn [rbind]. pose proof (zlen_nonneg post). pose proof (zlen_nonneg rest).
  pose proof (zlen_nonneg (enc_len n)). rewrite zlen_app in Hsz, Hs.
  assert (Hnb : n <= 255 * zlen (enc_len n) + 15) by (rewrite zlen_enc_len by done; destruct (Z.leb_spec 15 n); lia).
  rewrite zlen_app in *. rewrite int_ok by (unfold INT_MAX; lia). cbn [rbind].
  destruct (Z.ltb_spec (zlen out + zlen rest) (zlen out + (n + 4))); [left; eauto using zlen_app|].
  right; right. exists (o1 * 256 + o0), (n + 4), post. replace (n + 4 - 4) with n by lia.
  split_and!; try lia. replace ((o1 * 256 + o0) mod 256) with o0 by lia.
  replace ((o1 * 256 + o0) / 256) with o1 by lia. done.
Qed.

Lemma decompress_sound f : forall pre avail src out rest dst ip op,
  src = pre ++ avail -> Forall (in_range 256) avail -> dst = out ++ rest -> ip = zlen pre -> op = zlen out ->
  sizes_ok src dst -> (length avail < f)%nat ->
  decoded out avail dst (decompress_loop f src (zlen src) dst (zlen dst) ip op).
Proof.
  induction f as [|f IH]; intros pre avail src out rest dst ip op Hsrc Hb Hdst -> -> Hs Hf; [lia|].
  destruct (decode_lits f pre avail src out rest dst (zlen pre) (zlen out)) as [(d & -> & Hd)|(low & lits & tail & Hlow & -> & Hl)];
    [done..|by apply decoded_error|].
  rewrite (decompress_lits f pre low lits tail src out rest dst) by done.
  apply Forall_app in Hb as [Hbl Hb]. unfold enc_lits in Hbl. rewrite app_comm_cons in Hbl. apply Forall_app in Hbl as [_ Hbl].
  set (rest2 := drop (length lits) rest).
  assert (Hd2 : zlen dst = zlen (out ++ lits ++ rest2))
    by (subst dst rest2; rewrite !zlen_app; unfold zlen in *; rewrite length_drop; lia).
  assert (Hs2 : sizes_ok src (out ++ lits ++ rest2)) by (unfold sizes_ok in *; by rewrite <- Hd2).
  rewrite Hd2. replace (zlen out + zlen lits) with (zlen (out ++ lits)) by apply zlen_app.
  destruct (decode_match f (pre ++ enc_lits low lits) tail src (out ++ lits) rest2 (out ++ lits ++ rest2)
    (zlen pre + zlen (enc_lits low lits)) (zlen (out ++ lits)) low)
    as [(d & -> & Hd)|[Hr|(off & m & tail2 & Ho & Hol & Hm & -> & ->)]]; try done;
    [by rewrite Hsrc, app_assoc|by rewrite app_assoc|by rewrite zlen_app|apply decoded_error; congruence| |].
  - rewrite Hr, app_nil_r. unfold after_lits. rewrite Z.eqb_refl. eexists _, _; split; [done|].
    rewrite Hd2, Hr, app_nil_r. split; [done|]. right. split; [done|]. exists [], low, lits, tail. done.
  - set (s := Sequence lits off m).
    assert (Hok : seq_ok out s) by (unfold seq_ok, s; simpl; rewrite zlen_app in Hol; split_and!; (lia || done)).
    rewrite (after_lits_match f (pre ++ enc_lits (nibble (m - 4)) lits) tail2 src (out ++ lits) rest2 _ _ _ off m); try done;
      [|by rewrite Hsrc; lnorm|by rewrite app_assoc|by rewrite zlen_app|lia|lia].
    change (repeat_from _ (out ++ lits) _) with (expand1 out s).
    assert (Hd3 : zlen (out ++ lits ++ rest2) = zlen (expand1 out s ++ drop (Z.to_nat m) rest2)).
    { rewrite (zlen_app (expand1 out s)), zlen_expand1, zlen_drop by (simpl; lia). simpl. rewrite !zlen_app. lia. }
    assert (Hz : zlen (expand1 out s) = zlen (out ++ lits) + m) by (rewrite zlen_expand1, zlen_app by (simpl; lia); done).
    rewrite Hd3. destruct (IH (pre ++ enc_seq s) tail2 src (expand1 out s) (drop (Z.to_nat m) rest2)
      (expand1 out s ++ drop (Z.to_nat m) rest2) (zlen pre + zlen (enc_lits (nibble (m - 4)) lits) + 2 + zlen (enc_len (m - 4)))
      (zlen (out ++ lits) + m)) as (r & d & -> & Hd & Hres); try done.
    + rewrite Hsrc. unfold enc_seq, s. simpl. by lnorm.
    + apply Forall_app in Hb as [_ Hb]. by apply Forall_app in Hb as [_ Hb].
    + unfold enc_seq, s. cbn [s_len s_lits s_off]. rewrite !zlen_app. unfold zlen. simpl. lia.
    + unfold sizes_ok in *. by rewrite <- Hd3.
    + rewrite !length_app in Hf. simpl in Hf. lia.
    + exists r, d. split; [done|]. split; [congruence|]. destruct Hres as [->|(-> & l & low' & lits' & post & ? & ? & -> & ->)]; [by left|].
      right. split; [done|]. exists (s :: l), low', lits', post. split_and!; try done; try lia.
      unfold encode. cbn [enc_seqs]. unfold enc_seq, s. cbn [s_len s_lits s_off]. by lnorm.
Qed.

(** ** The codec *)

(** [src] holds a block that stands for [page] (bytes after the block are ignored). *)
Definition block_for (src page : list Z) : Prop :=
  exists l low lits post, 0 <= low <= 15 /\ seqs_ok [] l /\ src = encode l low lits ++ post /\
    page = expand [] l ++ lits.

Lemma length_enc_seqs l : (length l <= length (enc_seqs l))%nat.
Proof.
  induction l as [|s l IH]; simpl; [lia|]. unfold enc_seq, enc_lits. rewrite !length_app. simpl. lia.
Qed.

Lemma decompress_block src dst page :
  sizes_ok src dst -> 0 < zlen dst -> zlen page = zlen dst -> block_for src page ->
  lz4_decompress (Some src) (zlen src) (Some dst) (zlen dst) = Ok (0, page).
Proof.
  intros Hs Hd Hp (l & low & lits & post & Hlow & Hok & -> & ->). unfold lz4_decompress.
  assert (Hn : Z.of_nat (length l) + 1 <= zlen (encode l low lits ++ post)).
  { pose proof (length_enc_seqs l). unfold encode, enc_lits. zl. unfold zlen in *. lia. }
  case_orb E; [lia|]. apply (decompress_complete l _ [] _ [] dst) with (low := low) (post := post); try done.
  - by rewrite zlen_app in Hp.
  - lia.
Qed.

(** C3 (refinement).  The decompressor on any bytes whatever -- the callers do
    not trust the blob -- of a moderate size, [256 * srcSize + dstSize + 64] at
    most [INT_MAX], reads only the [srcSize] bytes it is given, writes only the
    [dstSize] bytes of the output, overflows no [int] and returns.  The bound on
    the sizes (about 8 MiB of input) is assumed: a longer input can drive
    [litLen] or [mlen] past [INT_MAX], which the code does not check; its callers
    pass less than two pages.
    It returns 0 exactly when the input holds a block of the LZ4 format that
    stands for [dstSize] bytes, and then the output is that expansion, whatever
    was in the buffer before; otherwise it returns -1. *)
Theorem decompress_refines_format (src dst : list Z) :
  Forall (in_range 256) src -> 0 < zlen src -> 0 < zlen dst -> sizes_ok src dst ->
  exists r dst', lz4_decompress (Some src) (zlen src) (Some dst) (zlen dst) = Ok (r, dst') /\ zlen dst' = zlen dst /\
    ((r = 0 /\ block_for src dst') \/
     (r = -1 /\ forall page, zlen page = zlen dst -> ~ block_for src page)).
Proof.
  intros Hb Hsrc Hdst Hs. pose proof (decompress_block src dst) as Hbl. unfold lz4_decompress in *.
  destruct (orb _ _) eqn:E; [lia|].
  destruct (decompress_sound (S (Z.to_nat (zlen src))) [] src src [] dst dst 0 0)
    as (r & d & Er & Hd & Hr); try done; [unfold zlen; lia|].
  exists r, d. split; [done|]. split; [done|]. destruct Hr as [->|(-> & Hr)]; [right|left; split; done].
  split; [done|]. intros page Hp Hblk. specialize (Hbl page Hs Hdst Hp Hblk). congruence.
Qed.

Lemma decompress_refines_format_witness :
  exists r dst', lz4_decompress (Some [0x50; 104; 101; 108; 108; 111]) 6 (Some (replicate 5 0)) 5 = Ok (r, dst') /\
    zlen dst' = 5 /\
    ((r = 0 /\ block_for [0x50; 104; 101; 108; 108; 111] dst') \/
     (r = -1 /\ forall page, zlen page = 5 -> ~ block_for [0x50; 104; 101; 108; 108; 111] page)).
Proof.
  apply (decompress_refines_format [0x50; 104; 101; 108; 108; 111] (replicate 5 0)).
  - forall_lia.
  - reflexivity.
  - reflexivity.
  - unfold sizes_ok. vm_compute. congruence.
Defined.

(** A block is at most 1/255 longer than what it stands for, and two bytes. *)
Lemma seqs_cost l out : seqs_ok out l -> 255 * zlen (enc_seqs l) <= 256 * (zlen (expand out l) - zlen out).
Proof.
  revert out. induction l as [|s l IH]; intros out H; cbn [enc_seqs expand foldl seqs_ok] in *; [unfold zlen; simpl; lia|].
  destruct H as [(_ & _ & Hs & _) Hl]. specialize (IH _ Hl). unfold expand in IH. rewrite zlen_expand1 in IH by lia.
  pose proof (zlen_nonneg (s_lits s)).
  pose proof (enc_len_cost (zlen (s_lits s)) ltac:(lia)). pose proof (enc_len_cost (s_len s - 4) ltac:(lia)).
  rewrite zlen_app, zlen_enc_seq by lia. lia.
Qed.
Lemma encode_cost l lits src : seqs_ok [] l -> expand [] l ++ lits = src ->
  255 * zlen (encode l 0 lits) <= 256 * zlen src + 510 /\ 0 < zlen (encode l 0 lits).
Proof.
  intros H <-. pose proof (seqs_cost l [] H) as Hc. pose proof (zlen_nonneg lits). pose proof (zlen_nonneg (enc_seqs l)).
  pose proof (enc_len_cost (zlen lits) ltac:(lia)). unfold encode, enc_lits. zl. lia.
Qed.

(** C4 (roundtrip).  What the compressor writes, the decompressor restores: for
    any input of at least five bytes, either the compressor gives up (0, read as
    incompressible) or decoding the bytes it returns yields the input, over any
    previous contents of the output page. *)
Theorem lz4_roundtrip (src dst ht page : list Z) (cap : Z) :
  Forall (in_range 256) src -> 5 <= zlen src <= 2 ^ 22 -> 0 < cap -> room dst cap (zlen src) ->
  Forall (in_range 65536) ht -> LZ4_HASH_ENTRIES <= zlen ht -> zlen page = zlen src ->
  exists r dst' ht', lz4_compress (Some src) (zlen src) (Some dst) cap (Some ht) = Ok (r, dst', ht') /\
    zlen dst' = zlen dst /\
    (r = 0 \/ lz4_decompress (Some (take (Z.to_nat r) dst')) r (Some page) (zlen page) = Ok (0, src)).
Proof.
  intros Hb Hn Hc Hroom Hht Hlen Hp.
  destruct (lz4_compress_ok src dst cap ht) as (r & d & ht' & -> & Hd & Hr); [done|lia|done..|].
  exists r, d, ht'. split; [done|]. split; [done|]. destruct Hr as [[-> _]|(l & lits & rest & -> & -> & Hok & Hex)]; [by left|right].
  pose proof (encode_cost l lits src Hok Hex) as [Hsz Hpos].
  rewrite (take_app_length' (encode l 0 lits)) by (unfold zlen; lia).
  apply decompress_block; [unfold sizes_ok, INT_MAX; lia|lia|done|].
  exists l, 0, lits, []. rewrite app_nil_r. split_and!; try done; lia.
Qed.

Definition page_demo : list Z := [1; 2; 3; 4; 5; 6; 7; 8; 9; 10; 11; 12; 13; 14; 15; 16].
Definition table_demo : list Z := replicate 4096 0.

Lemma lz4_roundtrip_witness :
  exists r dst' ht', lz4_compress (Some (page_demo ++ page_demo)) 32 (Some (replicate 64 0)) 62 (Some table_demo) = Ok (r, dst', ht') /\
    zlen dst' = 64 /\
    (r = 0 \/ lz4_decompress (Some (take (Z.to_nat r) dst')) r (Some (replicate 32 7)) 32 = Ok (0, page_demo ++ page_demo)).
Proof.
  apply (lz4_roundtrip (page_demo ++ page_demo) (replicate 64 0) table_demo (replicate 32 7) 62).
  - apply Forall_app; split; unfold page_demo; forall_lia.
  - split; vm_compute; congruence.
  - reflexivity.
  - left. vm_compute. congruence.
  - apply Forall_replicate. split; lia.
  - vm_compute. congruence.
  - reflexivity.
Defined.

(** (Bounds.)  The compressor never writes more than two bytes beyond
    [dstCapacity]: with two spare bytes it is safe, and with a capacity of
    [LZ4_COMPRESS_BOUND], as zswap and zram give it, it stays inside the
    capacity itself and always succeeds.  Without either the write may leave
    the buffer: sixteen literals and a capacity of 17 pass the check, which
    forgets the byte of the extended length, and 18 bytes are written. *)
Theorem lz4_compress_bounds (src dst ht : list Z) (cap : Z) :
  Forall (in_range 256) src -> 5 <= zlen src <= 2 ^ 28 -> 0 < cap -> room dst cap (zlen src) ->
  Forall (in_range 65536) ht -> LZ4_HASH_ENTRIES <= zlen ht ->
  (exists r dst' ht', lz4_compress (Some src) (zlen src) (Some dst) cap (Some ht) = Ok (r, dst', ht') /\
    zlen dst' = zlen dst /\ 0 <= r <= zlen dst /\
    (LZ4_COMPRESS_BOUND (zlen src) <= cap -> 0 < r <= LZ4_COMPRESS_BOUND (zlen src))) /\
  lz4_compress (Some page_demo) 16 (Some (replicate 17 0)) 17 (Some table_demo) = Fault.
Proof.
  intros Hb Hn Hc Hroom Hht Hlen. split; [|vm_compute; reflexivity].
  destruct (lz4_compress_ok src dst cap ht) as (r & d & ht' & -> & Hd & Hr); [done|lia|done..|].
  exists r, d, ht'. split; [done|]. split; [done|]. pose proof (zlen_nonneg dst).
  destruct Hr as [[-> ?]|(l & lits & rest & -> & -> & Hok & Hex)]; [split; lia|].
  pose proof (encode_cost l lits src Hok Hex) as [Hsz Hpos]. rewrite zlen_app in Hd. pose proof (zlen_nonneg rest).
  unfold LZ4_COMPRESS_BOUND. split; lia.
Qed.

Lemma lz4_compress_bounds_witness :
  (exists r dst' ht', lz4_compress (Some page_demo) 16 (Some (replicate 32 0)) 32 (Some table_demo) = Ok (r, dst', ht') /\
    zlen dst' = 32 /\ 0 <= r <= 32 /\
    (LZ4_COMPRESS_BOUND 16 <= 32 -> 0 < r <= LZ4_COMPRESS_BOUND 16)) /\
  lz4_compress (Some page_demo) 16 (Some (replicate 17 0)) 17 (Some table_demo) = Fault.
Proof.
  apply (lz4_compress_bounds page_demo (replicate 32 0) table_demo 32).
  - unfold page_demo; forall_lia.
  - split; vm_compute; congruence.
  - reflexivity.
  - right. split; vm_compute; congruence.
  - apply Forall_replicate. split; lia.
  - vm_compute. congruence.
Defined.
